(* ===== verification/_CoqProject ===== *)
-Q . S2P
Prelude.v
F64.v
Value.v
CheckedSize.v
HeapString.v
HeapStringSpec.v
HeapStringTheorems.v
Key.v
HashIndex.v
HashGroup.v
HeapSizes.v
CoreTheorems.v
MapObject.v
MapRows.v
MapStore.v
MapInsert.v
MapUpdate.v
MapClear.v
MapFind.v
MapRefine.v
MapWitness.v
Endian.v
Base64.v
Base64Spec.v
Utf.v
UtfSpec.v
BigInt.v
BigIntSpec.v
BigIntText.v
Linked.v
Scheduler.v
SchedulerSpec.v
SchedulerRefine.v
SchedulerTheorems.v
Slab.v
SlabSpec.v
Promise.v
PromiseSpec.v
PromiseLists.v
PromiseRefine.v
PromiseTheorems.v
StringHeap.v
Intern.v
InternSpec.v
InternTheorems.v
TextBuffer.v
TextBufferSpec.v
TextBufferTheorems.v
LinearProbe.v
Shape.v
ShapeIndex.v
ShapeSpec.v
ShapeRefine.v
ShapeWalk.v
ShapeTheorems.v
Table.v
TableKeys.v
TableSpec.v
TableOps.v
TableUpdate.v
TableSweep.v
PropertyStore.v
PropertySpec.v
PropertyRefine.v
PropertyReads.v
PropertyHints.v
PropertyRun.v
PropertyTheorems.v
Reactor.v
ReactorSpec.v
ReactorTheorems.v
Uri.v
UriSpec.v
UriTheorems.v
WeakCollection.v
WeakSpec.v
WeakTheorems.v
Sha256.v
Sha256Spec.v
Float16.v
