(* ===== verification/Prelude.v ===== *)
(** * maligator runtime: a verification development

    maligator compiles JavaScript ahead of time against a C runtime. This
    development models the data core of that runtime (runtime/src) and proves
    what the rest of the runtime relies on. C integers are [Z] kept at their width
    ([u8] .. [u128], [i32] .. [i128] below wrap, [in_u]/[in_i] state a range), C
    arrays are lists read and written by index ([arr_get], [arr_set]), and code
    that can abort runs in the [outcome] monad: [Ret], [Abort] for a call of
    abort() or a use of freed memory, [NoFuel] for a loop that outlives its fuel.
    Theorems conclude [Ret], so they show that the code returns and never aborts
    on the stated inputs.

    ** Parts and files

    - Prelude: integers, arrays, [outcome], the bit lemmas every file uses.
    - F64: IEEE doubles as their bits: order, equality, exact integers.
    - Value (value.h, value.c): the NaN-boxed word. [kind_of] is the class of
      a word by its top bits, [js_test] the predicate of value.h for each kind of value
      and [built] what its constructors build.
    - CheckedSize (checked_size.h, checked_size.c): size_t arithmetic with a limit.
    - HeapString, HeapStringSpec, HeapStringTheorems (heap_string.h,
      heap_string.c): flat, dependent and cons strings. [units] is what a cell
      denotes, [wf_string] the invariant of a cell, [string_heap_ok] what the heap
      and the atom table keep true. The iterator, the structural comparison and the
      rope walk are stack machines with the bounds of the code.
    - Key (key.h): the [KeyHeap] class is what keys need of strings and BigInts;
      [string_key_heap] discharges it with the string model.
    - HashIndex, HashGroup (hash_index.h): the Swiss-table index the Map and Set
      stores share. [index_ok] is its invariant; HashGroup relates the SSE2
      and NEON bodies to the scalar one.
    - HeapSizes (heap.h, heap.c): the size-class table and the bytes charged.
    - CoreTheorems: the properties of keys, index and sizes.
    - MapObject (map_object.c, map_object.h): the whole Map store. A
      [MapWorld] is the object with its storage and the collector's records of
      barrier and card calls. MapRows, MapStore hold the row and index
      invariants ([storage_ok]); MapInsert, MapUpdate, MapClear, MapFind
      the operations; MapRefine the abstract Map (an ordered list of entries compared
      with SameValueZero) and the refinement; MapWitness concrete runs.
    - Endian (endian.h, scalar_bits.h), Base64 and Base64Spec (base64.c,
      hex.c, the decoders of builtin_typed_array.c and node_buffer.c), Utf and
      UtfSpec (utf16.h, utf16.c, utf8.c): the byte codecs.
    - BigInt, BigIntSpec and BigIntText (bigint128.c, heap_bigint.c,
      ecma_whitespace.h): 128-bit BigInts, their parser and printers.
    - Linked: linked lists in a memory of nodes, for fibers, reactions and jobs.
    - Scheduler (host/scheduler.c, fiber.c): a [SchedWorld] is the fibers by
      address, the mapped stacks, the live VM slice and the scheduler record.
      SchedulerSpec holds the fiber lists, SchedulerRefine the invariant
      ([sched_ok]) and the simulation of the queue machine [spec_step],
      SchedulerTheorems the properties of runs ([sched_run] over [event]s).
    - Slab, SlabSpec: the 32 KiB blocks that promise_object.c and
      microtask.c cut their nodes from ([find_block], [take_node], [push_free],
      [free_block]); the [Node] class is what a slab needs of a node type.
      [node_lists] says that the live nodes are those of a set of disjoint lists.
    - Promise (promise_object.c, microtask.c, the perform functions of
      builtin_promise.c, async_context.c): a [PromiseVm] is the isolate's two slabs,
      the reaction pool, the job queue, the promises and the async context.
      PromiseSpec is the machine of ECMAScript ([SVm]); PromiseLists
      holds the queue and reaction-list invariants; PromiseRefine
      simulates each operation; PromiseTheorems runs them ([promise_run] over
      [promise_op]s).
    - StringHeap: string cells as shared memory, where hashing fills a cache and
      interning sets a bit. Intern, InternSpec, InternTheorems (intern_store.c,
      heap_symbol.h): the atom table, the Symbol.for registry and the native source
      cache. [EntryKind] is the bucket type the three copies of the code differ in,
      [store_rep] says that a table stands for a finite map from text to entry.
    - TextBuffer, TextBufferSpec, TextBufferTheorems (text_buffer.h, text_buffer.c): growable text over byte memory, one byte per unit until a unit
      needs two. [buffer_ok] relates a buffer to its text; [text_steps] is the
      specification of a run ([text_run] over [text_op]s) with its sticky status.
    - LinearProbe: the linear-probing tables of shape.c, over any row type. Shape,
      ShapeIndex, ShapeSpec, ShapeWalk (shape.c, shape.h): hidden-class
      shapes, their transition edges and the tables built over them. [heap_ok]
      is the invariant of the shape forest, [shape_path] the edges from the root.
      ShapeRefine is the machine of paths and the refinement, ShapeTheorems the
      runs ([shape_run]) and the walks.
    - Table (table.c, table.h): the ordered property table, rows of two packed words
      under a grouped hash index. A [TableWorld] is the string cells, the raw sidecars
      rows own and the record of write barriers. TableKeys and TableSpec
      hold the word layout, the names of keys ([PropKey]) and the invariant
      ([table_ok]); TableOps, TableUpdate and TableSweep the operations.
    - PropertyStore (property_store.c, property_store.h): descriptors over table
      rows. PropertySpec is the ordered list of properties a table stands for
      ([props_of]) and the ownership of sidecars ([prop_ok]); PropertyRefine,
      PropertyReads and PropertyHints lift each
      operation to it, PropertyRun is the client ([prop_run] over [prop_op]s) and
      PropertyTheorems the properties.
    - Reactor (host/reactor.c, host/reactor.h): the timer heap behind sleeps and host
      timers, an array of pointers to caller-owned [MalTimer] cells. ReactorSpec is the
      order of an array heap, the invariant ([heap_ok]), each rearrangement, and the sorted
      queue the heap stands for ([queue_rep]); ReactorTheorems the runs ([timer_run] over [timer_op]s) and the pump.
    - Uri (builtin_uri.c): encodeURI, decodeURI, their Component forms, escape and
      unescape, each a sizing pass, one allocation and a writing pass. UriSpec is the two
      passes over any step, the character sets of ECMA-262 ([uri_unescaped],
      [uri_preserved], [escape_plain]) with the proofs that the code's tests decide them,
      the texts ([escape_scalar], [encode_text], [escape_text]) and the grammars ([decodes],
      [unescapes]); UriTheorems the properties.
    - WeakCollection (weak_collection.c, weak_collection.h): the stores of WeakMap and
      WeakSet, four rows inline and then buckets under grouped control bytes, with the
      collector's filter and cursors. WeakSpec is the finite map a store stands for
      ([weak_rep]) and each change of it; WeakTheorems the programs ([weak_run] over
      [WeakMapOp]s or [WeakSetOp]s).
    - Sha256 (sha256.c, sha256.h): the streaming context and its two block functions.
      Sha256Spec is the hash of FIPS 180-4 ([fips_hash]) and the proofs.
    - Float16 (float16.c): binary64 to binary16 and back, its meaning ([half_mag],
      [nearest_even]) and the proofs.

    Calls go downwards: the Map store uses keys, the hash index, the size
    classes and the values; keys use strings through [KeyHeap]; strings use the
    checked sizes; the base64 length uses the checked sizes; the intern stores use
    strings and the hash index; text buffers use strings, the checked sizes and
    utf16.h; shapes use keys and the linear probe; property tables use keys, strings
    and the hash index, and the property store the tables; URI coding uses string
    segments, the hexadecimal digits, utf16.h and the checked sizes; the weak stores use
    the hash index and the key hash.

    ** What the theorems show

    - Map: runs of operations refine the ECMAScript entry list; the layout
      invariant holds in every reachable store; GC barriers cover every change;
      pinned cursors are never moved.
    - Strings: equality, order and hash are functions of the content, whatever
      the representation, and always answer.
    - Keys and index: SameValueZero, probe termination.
    - Codecs: round trips, exact lengths, bounds, total decoding of bad input.
    - BigInts: arithmetic modulo 2^128, the bit operations of infinite two's complement
      with left shifts and asUintN kept to their low 128 bits, text round trip.
    - Scheduler: refinement of a pointer-free machine, slice isolation, queue
      order, a bounded quantum.
    - Promises: refinement of the ECMAScript machine with every node accounted
      for, a promise settles once.
    - Intern stores: runs refine tables keyed by text, and interned strings may be
      compared by address.
    - Text buffers: memory safety over any allocator, sticky failures, and a
      finished buffer that holds exactly the text appended.
    - Shapes: runs refine a machine of edge paths in which two objects share a shape
      exactly when they were built along the same path, and the collector's walks
      visit and free every shape once.
    - Property tables: runs refine the ordered list of properties and leak no
      sidecar, the collector's snapshot survives every operation, handles stay good
      within a generation, and hints of any value are safe. [set_value_resets_attributes]
      shows where property_store.c departs from the comment in its header.
    - Timers: runs of the heap refine a sorted queue without touching a freed timer,
      and a pump whose wakers leave the queue alone fires exactly the due timers, earliest
      first, when deadlines are not negative.
    - URI coding: each function computes the text ECMA-262 gives, over the standard's own
      character sets, and fails exactly where there is none or it is too long for a
      string, never writing past its buffer; decoding undoes encoding and agrees with the
      UTF-8 decoder.
    - Weak collections: programs refine a finite map and a finite set through every
      layout, and the collector is told of every value that leaves a WeakMap and every
      reference that enters one.
    - SHA-256: any chunking, on either build, gives the FIPS 180-4 hash; the ARMv8 block
      function is the portable one; the constants are the standard's.
    - Half precision: rounding to nearest, ties to even, exact widening, round trip.
    - Values and sizes: the tests of value.h are disjoint, cover every word but the
      unnamed static ones, and recognise what each constructor builds; growth and size
      classes.

    ** Bounds and fuel

    Loops that are not structural take fuel that is computed from the input (the
    length plus one, the group count, the node count of a rope), and the theorems
    show that it suffices. Growth of a capacity doubles at most 64 times
    ([growth_fuel] 66, [capacity_fuel] 40 for 31-bit capacities). Runs of Map
    operations are bounded by 2^28 operations, so that the row count and the reserve
    stay below [MAP_ROOM] = 2^29 and no capacity passes INT32_MAX, where the code
    aborts. Codec lengths are below 2^60, so that size_t sums of the code do not
    wrap. A 128-bit power takes 128 halvings (fuel 129), a BigInt at most three chunks
    of 19 digits. The fiber list is walked with one step per fiber, a reaction list
    with one step per node of its slab, a block list with one step per block. Memory
    allocation is assumed to succeed where the code aborts otherwise; the allocator
    of text buffers, whose failure is a status, is a parameter that may refuse. Intern
    stores hold fewer than [INTERN_ROOM] = 2^28 entries, below the capacity at which
    growth aborts. A shape forest stays below [SHAPE_ROOM] = 2^28 - 2 shapes, so that
    no table capacity passes INT32_MAX; its allocator hands out fresh addresses.
    Property tables run for at most [RUN_ROOM] = 2^28 operations, which keeps their rows
    below [TABLE_ROOM] = 2^29; the allocator of accessor sidecars is a parameter that
    returns an unused address ([fresh_allocator]). Timer queues stay below
    [TIMER_ROOM] = 2^29 timers, so that the 32-bit capacity does not overflow; a pump
    takes at most two turns a timer. URI inputs are strings, at most INT32_MAX units,
    and each turn of a pass consumes a unit. Programs on weak collections have fewer than
    2^29 operations, so that no rebuild passes the largest index. Messages to hash are
    shorter than 2^64 bits, as the standard requires. The promise files are
    modelled as built with MAL_NODE and MAL_PRIMORDIALS_LOCKED; aligned_alloc is a
    parameter that returns fresh aligned blocks, and [bump_alloc]
    is one.

    ** Not modelled

    The interpreter (vm.c, vm_ops.c) and the builtin library need the generated
    program image and the whole object model; object.c, which puts objects over shapes
    and property tables, is not modelled; the collector is concurrent and is
    represented by the calls made to it; host APIs (node_*.c) are input and output;
    the descriptor side of the reactor appears as wake events, and the wakers of
    fired timers as functions that leave the timer queue alone; what a promise job
    runs is any sequence of promise operations; the text of fractional Numbers comes
    from a Rust formatter;
    Temporal and Intl bind a Rust library; performance counters have no effect on
    results; vendored code and the TypeScript compiler are outside the C core. *)

From stdpp Require Export base tactics numbers option list.
From Stdlib Require Export ZArith Lia.
#[export] Set Default Goal Selector "!".
Open Scope Z_scope.

(** * Machine integers *)

(** [uN z] is the C conversion of [z] to an unsigned type of N bits, [iN z]
    the two's-complement conversion to a signed one. *)
Definition wrap (bits z : Z) : Z := z mod 2 ^ bits.
Definition swrap (bits z : Z) : Z :=
  (z + 2 ^ (bits - 1)) mod 2 ^ bits - 2 ^ (bits - 1).

Definition u8 (z : Z) : Z := wrap 8 z.
Definition u16 (z : Z) : Z := wrap 16 z.
Definition u32 (z : Z) : Z := wrap 32 z.
Definition u64 (z : Z) : Z := wrap 64 z.
Definition u128 (z : Z) : Z := wrap 128 z.
Definition i32 (z : Z) : Z := swrap 32 z.
Definition i64 (z : Z) : Z := swrap 64 z.
Definition i128 (z : Z) : Z := swrap 128 z.

(** [in_u bits z]: the value fits an unsigned type of that width. *)
Definition in_u (bits z : Z) : Prop := 0 <= z < 2 ^ bits.
Definition in_i (bits z : Z) : Prop := - 2 ^ (bits - 1) <= z < 2 ^ (bits - 1).

Definition SIZE_MAX : Z := 2 ^ 64 - 1.
Definition UINT32_MAX : Z := 2 ^ 32 - 1.
Definition INT32_MAX : Z := 2 ^ 31 - 1.
Definition INT32_MIN : Z := - 2 ^ 31.

Lemma wrap_range bits z : 0 <= bits -> in_u bits (wrap bits z).
Proof. intros. apply Z.mod_pos_bound. lia. Qed.

Lemma wrap_small bits z : in_u bits z -> wrap bits z = z.
Proof. apply Z.mod_small. Qed.

Lemma wrap_wrap bits z : 0 <= bits -> wrap bits (wrap bits z) = wrap bits z.
Proof. intros. apply wrap_small, wrap_range; lia. Qed.

Lemma swrap_range bits z : 0 < bits -> in_i bits (swrap bits z).
Proof.
  intros. unfold in_i, swrap.
  pose proof (Z.mod_pos_bound (z + 2 ^ (bits - 1)) (2 ^ bits)).
  replace (2 ^ bits) with (2 * 2 ^ (bits - 1)) in *
    by (rewrite <- Z.pow_succ_r by lia; f_equal; lia).
  assert (0 < 2 ^ (bits - 1)) by (apply Z.pow_pos_nonneg; lia). lia.
Qed.

Lemma swrap_small bits z : 0 < bits -> in_i bits z -> swrap bits z = z.
Proof.
  unfold in_i, swrap. intros ? [? ?].
  replace (2 ^ bits) with (2 * 2 ^ (bits - 1))
    by (rewrite <- Z.pow_succ_r by lia; f_equal; lia).
  rewrite Z.mod_small; lia.
Qed.

(** Signed and unsigned readings of the same bits are congruent. *)
Lemma swrap_cong bits z : 0 < bits -> swrap bits z mod 2 ^ bits = z mod 2 ^ bits.
Proof.
  intros. unfold swrap. rewrite Zminus_mod_idemp_l. f_equal. lia.
Qed.

Lemma wrap_swrap bits z : 0 < bits -> wrap bits (swrap bits z) = wrap bits z.
Proof. apply swrap_cong. Qed.

Lemma swrap_wrap bits z : 0 < bits -> swrap bits (wrap bits z) = swrap bits z.
Proof.
  intros. unfold swrap, wrap. by rewrite Zplus_mod_idemp_l.
Qed.

Lemma swrap_eq_of_cong bits a b :
  a mod 2 ^ bits = b mod 2 ^ bits -> swrap bits a = swrap bits b.
Proof.
  intros H. unfold swrap.
  by rewrite (Zplus_mod a), H, <- Zplus_mod.
Qed.

(** * Outcomes of code that may call [abort()] *)

(** [Abort] is the C library's [abort()]; [NoFuel] marks a loop whose fuel ran
    out, which the theorems show does not happen. *)
Inductive outcome (A : Type) : Type :=
| Ret (a : A)
| Abort
| NoFuel.
Arguments Ret {A} a.
Arguments Abort {A}.
Arguments NoFuel {A}.

#[export] Instance outcome_ret : MRet outcome := fun A a => Ret a.
#[export] Instance outcome_bind : MBind outcome := fun A B f m =>
  match m with
  | Ret a => f a
  | Abort => Abort
  | NoFuel => NoFuel
  end.

Lemma bind_Ret_inv {A B} (f : A -> outcome B) (m : outcome A) (b : B) :
  (m ≫= f) = Ret b -> exists a, m = Ret a /\ f a = Ret b.
Proof. destruct m; [eauto | discriminate | discriminate]. Qed.

(** Peels one bind of a successful run in a hypothesis. *)
Ltac inv_bind H :=
  let a := fresh "r" in
  let H1 := fresh H "a" in
  apply bind_Ret_inv in H as (a & H1 & H).

(** * Arrays addressed by machine integers *)

(** [arr_get] reads a default outside the array; the invariants of the
    components keep every index they use in range. *)
Definition arr_get {A} `{Inhabited A} (l : list A) (i : Z) : A :=
  l !!! Z.to_nat i.
Definition arr_set {A} (l : list A) (i : Z) (x : A) : list A :=
  <[Z.to_nat i := x]> l.
Definition arr_len {A} (l : list A) : Z := Z.of_nat (length l).

Section arrays.
Context {A : Type} `{Inhabited A}.
Implicit Types (l : list A) (i j : Z) (x : A).

Lemma arr_len_nonneg l : 0 <= arr_len l.
Proof. unfold arr_len. lia. Qed.

Lemma arr_len_set l i x : arr_len (arr_set l i x) = arr_len l.
Proof. unfold arr_len, arr_set. by rewrite length_insert. Qed.

Lemma arr_len_app l l' : arr_len (l ++ l') = arr_len l + arr_len l'.
Proof. unfold arr_len. rewrite length_app. lia. Qed.

Lemma arr_len_replicate n x : 0 <= n -> arr_len (replicate (Z.to_nat n) x) = n.
Proof. unfold arr_len. rewrite length_replicate. lia. Qed.

Lemma arr_get_set_eq l i x :
  0 <= i < arr_len l -> arr_get (arr_set l i x) i = x.
Proof.
  unfold arr_get, arr_set, arr_len. intros.
  apply list_lookup_total_insert_eq. lia.
Qed.

Lemma arr_get_set_ne l i j x :
  0 <= i -> 0 <= j -> i <> j -> arr_get (arr_set l i x) j = arr_get l j.
Proof.
  unfold arr_get, arr_set. intros.
  apply list_lookup_total_insert_ne. lia.
Qed.

Lemma arr_get_lookup l i :
  0 <= i < arr_len l -> l !! Z.to_nat i = Some (arr_get l i).
Proof.
  unfold arr_len, arr_get. intros. apply list_lookup_lookup_total_lt. lia.
Qed.

Lemma arr_get_of_lookup l i x : l !! Z.to_nat i = Some x -> arr_get l i = x.
Proof. apply list_lookup_total_correct. Qed.

Lemma arr_get_replicate n x i :
  0 <= i < n -> arr_get (replicate (Z.to_nat n) x) i = x.
Proof.
  intros. apply arr_get_of_lookup, lookup_replicate_2. lia.
Qed.

Lemma arr_get_app_l l l' i :
  0 <= i < arr_len l -> arr_get (l ++ l') i = arr_get l i.
Proof.
  intros. apply arr_get_of_lookup. rewrite lookup_app_l.
  - by apply arr_get_lookup.
  - unfold arr_len in *. lia.
Qed.

Lemma arr_ext l l' :
  arr_len l = arr_len l' ->
  (forall i, 0 <= i < arr_len l -> arr_get l i = arr_get l' i) -> l = l'.
Proof.
  intros Hl Hg. apply list_eq. intros n.
  destruct (decide (n < length l)%nat) as [Hn|Hn].
  - rewrite <- (Nat2Z.id n).
    rewrite !arr_get_lookup by (unfold arr_len in *; lia).
    f_equal. apply Hg. unfold arr_len in *. lia.
  - rewrite !lookup_ge_None_2; [done | unfold arr_len in *; lia | lia].
Qed.
End arrays.

(** * Bits *)

Lemma land_mask n x : 0 <= n -> Z.land x (2 ^ n - 1) = x mod 2 ^ n.
Proof. intros. rewrite <- Z.land_ones by lia. f_equal. rewrite Z.ones_equiv. lia. Qed.

(** A low part or-ed with a part shifted past it is their sum. *)
Lemma lor_shiftl_add a b n :
  0 <= n -> 0 <= a < 2 ^ n -> Z.lor a (Z.shiftl b n) = a + b * 2 ^ n.
Proof.
  intros Hn Ha. rewrite <- Z.shiftl_mul_pow2 by lia.
  rewrite Z.add_nocarry_lxor.
  - symmetry. apply Z.bits_inj'. intros i Hi.
    rewrite Z.lxor_spec, Z.lor_spec, Z.shiftl_spec by lia.
    destruct (Z.ltb_spec i n).
    + rewrite (Z.testbit_neg_r b) by lia. by destruct (Z.testbit a i).
    + rewrite <- (Z.mod_small a (2 ^ n)) by lia.
      rewrite Z.mod_pow2_bits_high by lia. by destruct (Z.testbit b (i - n)).
  - apply Z.bits_inj'. intros i Hi.
    rewrite Z.land_spec, Z.shiftl_spec, Z.bits_0 by lia.
    destruct (Z.ltb_spec i n).
    + rewrite (Z.testbit_neg_r b) by lia. by rewrite andb_false_r.
    + rewrite <- (Z.mod_small a (2 ^ n)) by lia.
      by rewrite Z.mod_pow2_bits_high by lia.
Qed.

Lemma lor_shiftl_add' a b n :
  0 <= n -> 0 <= a < 2 ^ n -> Z.lor (Z.shiftl b n) a = a + b * 2 ^ n.
Proof. intros. rewrite Z.lor_comm. by apply lor_shiftl_add. Qed.

Lemma shiftr_add_mul a b n :
  0 <= n -> 0 <= a < 2 ^ n -> Z.shiftr (a + b * 2 ^ n) n = b.
Proof.
  intros. rewrite Z.shiftr_div_pow2 by lia.
  rewrite Z.div_add, Z.div_small; lia.
Qed.

Lemma shiftr_range a n m : 0 <= n -> 0 <= m -> 0 <= a < 2 ^ (n + m) -> 0 <= Z.shiftr a n < 2 ^ m.
Proof.
  intros Hn Hm Ha. rewrite Z.shiftr_div_pow2 by lia.
  rewrite Z.pow_add_r in Ha by lia. split.
  - apply Z.div_pos; lia.
  - apply Z.div_lt_upper_bound; lia.
Qed.

Lemma lor_range a b n : 0 <= n -> in_u n a -> in_u n b -> in_u n (Z.lor a b).
Proof.
  unfold in_u. intros Hn Ha Hb.
  assert (Z.lor a b = Z.lor a b mod 2 ^ n) as ->.
  { apply Z.bits_inj'. intros i Hi. destruct (Z.ltb_spec i n).
    - by rewrite Z.mod_pow2_bits_low by lia.
    - rewrite Z.mod_pow2_bits_high, Z.lor_spec by lia.
      rewrite <- (Z.mod_small a (2 ^ n)), <- (Z.mod_small b (2 ^ n)) by lia.
      by rewrite !Z.mod_pow2_bits_high by lia. }
  apply Z.mod_pos_bound. lia.
Qed.

(** * Automation *)

Create HintDb mal discriminated.
#[export] Hint Resolve wrap_range swrap_range arr_len_nonneg : mal.
Create Rewrite HintDb mal_rw.
#[export] Hint Rewrite @arr_len_set @arr_len_app : mal_rw.

(** Turns boolean comparisons of the code into propositions, case by case. *)
Ltac cases_if :=
  repeat match goal with
  | |- context [if ?b then _ else _] =>
      let E := fresh "E" in destruct b eqn:E
  end.

(** Case analysis on the first [if] condition of a hypothesis. *)
Ltac cases_if_in H :=
  repeat match type of H with
  | context [if ?b then _ else _] =>
      let E := fresh "E" in destruct b eqn:E
  end.
