(* ===== verification/F64.v ===== *)
(** Binary64 as the runtime uses it: a double is its 64-bit pattern, the
    comparisons are the IEEE ones read off the sign-magnitude order of the
    patterns, and the conversions between doubles and integers are those the C
    casts perform on integers below 2^53. *)

From S2P Require Import Prelude.

Definition f64_sign (b : Z) : bool := Z.testbit b 63.
Definition f64_magnitude (b : Z) : Z := b mod 2 ^ 63.
Definition f64_exponent (b : Z) : Z := f64_magnitude b / 2 ^ 52.
Definition f64_fraction (b : Z) : Z := b mod 2 ^ 52.

Definition f64_is_nan (b : Z) : bool := 2047 * 2 ^ 52 <? f64_magnitude b.
Definition f64_is_inf (b : Z) : bool := f64_magnitude b =? 2047 * 2 ^ 52.

(** The order of the finite and infinite doubles; both zeros are 0. *)
Definition f64_rank (b : Z) : Z :=
  if f64_sign b then - f64_magnitude b else f64_magnitude b.

(** C's [==], [<=] and [<] on doubles: false as soon as an operand is a NaN. *)
Definition f64_eqb (a b : Z) : bool :=
  negb (f64_is_nan a) && negb (f64_is_nan b) && (f64_rank a =? f64_rank b).
Definition f64_leb (a b : Z) : bool :=
  negb (f64_is_nan a) && negb (f64_is_nan b) && (f64_rank a <=? f64_rank b).
Definition f64_ltb (a b : Z) : bool :=
  negb (f64_is_nan a) && negb (f64_is_nan b) && (f64_rank a <? f64_rank b).

(** [(f64) n] for an integer of magnitude below 2^53, which is exact. *)
Definition f64_of_int (n : Z) : Z :=
  if n =? 0 then 0
  else
    let a := Z.abs n in
    let l := Z.log2 a in
    (if n <? 0 then 2 ^ 63 else 0)
    + (l + 1023) * 2 ^ 52 + (a - 2 ^ l) * 2 ^ (52 - l).

(** The C cast of a finite double to an integer type that holds it:
    truncation toward zero. *)
Definition f64_to_int (b : Z) : Z :=
  let e := f64_exponent b in
  let m := 2 ^ 52 + f64_fraction b in
  let a := if e <? 1023 then 0
           else if 1075 <=? e then m * 2 ^ (e - 1075)
           else m / 2 ^ (1075 - e) in
  if f64_sign b then - a else a.

(** ** Patterns *)

Lemma f64_sign_spec b : in_u 64 b -> f64_sign b = (2 ^ 63 <=? b).
Proof.
  unfold in_u, f64_sign. intros.
  destruct (Z.leb_spec (2 ^ 63) b).
  - apply Z.testbit_true; [lia|].
    replace (b / 2 ^ 63) with 1; [done|].
    apply Z.div_unique_pos with (b - 2 ^ 63); lia.
  - apply Z.testbit_false; [lia|]. by rewrite Z.div_small by lia.
Qed.

Lemma f64_pattern b :
  in_u 64 b -> b = (if f64_sign b then 2 ^ 63 else 0) + f64_magnitude b.
Proof.
  intros Hb. rewrite f64_sign_spec by done. unfold in_u, f64_magnitude in *.
  destruct (Z.leb_spec (2 ^ 63) b).
  - rewrite Z.mod_eq by lia.
    replace (b / 2 ^ 63) with 1; [lia|].
    apply Z.div_unique_pos with (b - 2 ^ 63); lia.
  - rewrite Z.mod_small; lia.
Qed.

Lemma f64_magnitude_range b : 0 <= f64_magnitude b < 2 ^ 63.
Proof. apply Z.mod_pos_bound. lia. Qed.

(** Away from zero, doubles that compare equal have the same bits. *)
Lemma f64_eqb_bits a b :
  in_u 64 a -> in_u 64 b -> f64_eqb a b = true ->
  a = b \/ (f64_magnitude a = 0 /\ f64_magnitude b = 0).
Proof.
  unfold f64_eqb, f64_rank. intros Ha Hb H.
  rewrite !andb_true_iff, !negb_true_iff, Z.eqb_eq in H.
  destruct H as [[_ _] H].
  pose proof (f64_magnitude_range a). pose proof (f64_magnitude_range b).
  pose proof (f64_pattern a Ha). pose proof (f64_pattern b Hb).
  destruct (f64_sign a), (f64_sign b); lia.
Qed.

Lemma f64_eqb_refl b : f64_is_nan b = false -> f64_eqb b b = true.
Proof. unfold f64_eqb. intros ->. simpl. lia. Qed.

Lemma f64_eqb_sym a b : f64_eqb a b = f64_eqb b a.
Proof.
  unfold f64_eqb. rewrite (Z.eqb_sym (f64_rank a)).
  by rewrite (andb_comm (negb (f64_is_nan a))).
Qed.

(** A double that is zero is one of the two zero patterns. *)
Lemma f64_zero_bits b :
  in_u 64 b -> f64_magnitude b = 0 -> b = 0 \/ b = 2 ^ 63.
Proof. intros Hb H. pose proof (f64_pattern b Hb). destruct (f64_sign b); lia. Qed.

(** ** Integers *)

Section of_int.
Variable n : Z.
Hypothesis Hn : Z.abs n < 2 ^ 53.
Hypothesis Hn0 : n <> 0.

Let a := Z.abs n.
Let l := Z.log2 a.

Lemma of_int_log : 0 <= l <= 52 /\ 2 ^ l <= a < 2 ^ (l + 1).
Proof.
  subst l a. pose proof (Z.log2_spec (Z.abs n)).
  assert (0 <= Z.log2 (Z.abs n)) by apply Z.log2_nonneg.
  assert (Z.log2 (Z.abs n) < 53) by (apply Z.log2_lt_pow2; lia).
  replace (Z.log2 (Z.abs n) + 1) with (Z.succ (Z.log2 (Z.abs n))) by lia. lia.
Qed.

Lemma of_int_fraction : 0 <= (a - 2 ^ l) * 2 ^ (52 - l) < 2 ^ 52.
Proof.
  destruct of_int_log as [Hl Ha]. rewrite Z.pow_add_r in Ha by lia.
  assert (0 < 2 ^ (52 - l)) by (apply Z.pow_pos_nonneg; lia).
  replace (2 ^ 52) with (2 ^ l * 2 ^ (52 - l))
    by (rewrite <- Z.pow_add_r by lia; f_equal; lia).
  nia.
Qed.

Lemma f64_of_int_eq :
  f64_of_int n = (if n <? 0 then 2 ^ 63 else 0)
    + (l + 1023) * 2 ^ 52 + (a - 2 ^ l) * 2 ^ (52 - l).
Proof. unfold f64_of_int. by rewrite (proj2 (Z.eqb_neq n 0)) by done. Qed.

Lemma f64_magnitude_of_int :
  f64_magnitude (f64_of_int n) = (l + 1023) * 2 ^ 52 + (a - 2 ^ l) * 2 ^ (52 - l).
Proof.
  pose proof of_int_log. pose proof of_int_fraction.
  rewrite f64_of_int_eq. unfold f64_magnitude.
  symmetry. destruct (n <? 0).
  - apply Z.mod_unique_pos with 1; lia.
  - apply Z.mod_unique_pos with 0; lia.
Qed.

Lemma f64_of_int_range_nz : in_u 64 (f64_of_int n).
Proof.
  pose proof of_int_log. pose proof of_int_fraction.
  rewrite f64_of_int_eq. unfold in_u. destruct (n <? 0); lia.
Qed.

Lemma f64_sign_of_int : f64_sign (f64_of_int n) = (n <? 0).
Proof.
  rewrite f64_sign_spec by apply f64_of_int_range_nz.
  pose proof of_int_log. pose proof of_int_fraction.
  rewrite f64_of_int_eq. destruct (n <? 0); lia.
Qed.

Lemma f64_exponent_of_int : f64_exponent (f64_of_int n) = l + 1023.
Proof.
  unfold f64_exponent. rewrite f64_magnitude_of_int.
  pose proof of_int_fraction. rewrite Z.add_comm, Z.div_add, Z.div_small; lia.
Qed.

Lemma f64_fraction_of_int : f64_fraction (f64_of_int n) = (a - 2 ^ l) * 2 ^ (52 - l).
Proof.
  pose proof of_int_fraction. rewrite f64_of_int_eq. unfold f64_fraction.
  symmetry. destruct (n <? 0).
  - apply Z.mod_unique_pos with (2 ^ 11 + l + 1023); lia.
  - apply Z.mod_unique_pos with (l + 1023); lia.
Qed.

Lemma f64_to_of_int_nz : f64_to_int (f64_of_int n) = n.
Proof.
  unfold f64_to_int.
  rewrite f64_exponent_of_int, f64_fraction_of_int, f64_sign_of_int.
  destruct of_int_log as [Hl Ha].
  destruct (Z.ltb_spec (l + 1023) 1023); [lia|].
  assert (2 ^ 52 + (a - 2 ^ l) * 2 ^ (52 - l) = a * 2 ^ (52 - l)) as Em.
  { replace (2 ^ 52) with (2 ^ l * 2 ^ (52 - l))
      by (rewrite <- Z.pow_add_r by lia; f_equal; lia). ring. }
  rewrite Em.
  destruct (Z.leb_spec 1075 (l + 1023)).
  - replace (l + 1023 - 1075) with 0 by lia. replace (52 - l) with 0 by lia.
    subst a. simpl. destruct (Z.ltb_spec n 0); lia.
  - replace (1075 - (l + 1023)) with (52 - l) by lia.
    rewrite Z.div_mul by (apply Z.pow_nonzero; lia).
    subst a. destruct (Z.ltb_spec n 0); lia.
Qed.
End of_int.

Lemma f64_of_int_range n : Z.abs n < 2 ^ 53 -> in_u 64 (f64_of_int n).
Proof.
  intros Hn. destruct (decide (n = 0)) as [->|].
  - change (in_u 64 0). unfold in_u. lia.
  - by apply f64_of_int_range_nz.
Qed.

(** Casting an integer of magnitude below 2^53 to a double and back is exact. *)
Lemma f64_to_of_int n : Z.abs n < 2 ^ 53 -> f64_to_int (f64_of_int n) = n.
Proof.
  intros Hn. destruct (decide (n = 0)) as [->|]; [done|].
  by apply f64_to_of_int_nz.
Qed.

Lemma f64_of_int_inj a b :
  Z.abs a < 2 ^ 53 -> Z.abs b < 2 ^ 53 -> f64_of_int a = f64_of_int b -> a = b.
Proof.
  intros Ha Hb H. by rewrite <- (f64_to_of_int a), <- (f64_to_of_int b), H.
Qed.

Lemma f64_of_int_not_nan n : Z.abs n < 2 ^ 53 -> f64_is_nan (f64_of_int n) = false.
Proof.
  intros Hn. unfold f64_is_nan. apply Z.ltb_ge.
  destruct (decide (n = 0)) as [->|Hn0]; [done|].
  rewrite f64_magnitude_of_int by done.
  pose proof (of_int_log n Hn Hn0). pose proof (of_int_fraction n Hn Hn0). lia.
Qed.

(** No integer converts to the negative zero. *)
Lemma f64_of_int_not_neg_zero n : Z.abs n < 2 ^ 53 -> f64_of_int n <> 2 ^ 63.
Proof.
  intros Hn. destruct (decide (n = 0)) as [->|Hn0]; [done|].
  intros E. pose proof (f64_magnitude_of_int n Hn Hn0) as Hm.
  rewrite E in Hm. change (f64_magnitude (2 ^ 63)) with 0 in Hm.
  pose proof (of_int_log n Hn Hn0). pose proof (of_int_fraction n Hn Hn0). lia.
Qed.

(** The test the runtime uses for integer keys, [(f64) (i32) x == x], leaves
    exactly the patterns that the integer converts back to, the negative zero
    apart. *)
Lemma f64_integral_bits b :
  in_u 64 b -> Z.abs (f64_to_int b) < 2 ^ 53 -> b <> 2 ^ 63 ->
  f64_eqb (f64_of_int (f64_to_int b)) b = true ->
  f64_of_int (f64_to_int b) = b.
Proof.
  intros Hb Hi Hz H.
  apply f64_eqb_bits in H; [|by apply f64_of_int_range|done].
  destruct H as [H|[Ha Hm]]; [done|].
  apply f64_zero_bits in Hm as [->| ->]; [|lia|done].
  apply f64_zero_bits in Ha as [->|Ha]; [done| |by apply f64_of_int_range].
  by apply f64_of_int_not_neg_zero in Ha.
Qed.
