(* ===== verification/Value.v ===== *)
(** The NaN-boxed value word of runtime/src/value.h and value.c: the class
    predicates, the boxing and unboxing of numbers, static values and heap
    pointers, and ToBoolean. A [MalValue] is a 64-bit pattern. *)

From S2P Require Import Prelude F64.

(** * Constants *)

Definition MASK_INT32 : Z := 0x00000000FFFFFFFF.
Definition MAKS_PTR : Z := 0x0000FFFFFFFFFFFF.

Definition MAL_VALUE_TAG_BASE : Z := 0xFFF8000000000000.
Definition MAL_VALUE_INT32 : Z := 0xFFF8000000000000.
Definition MAL_VALUE_STATIC : Z := 0xFFF9000000000000.
Definition MAL_VALUE_STRING : Z := 0xFFFA000000000000.
Definition MAL_VALUE_SYMBOL : Z := 0xFFFB000000000000.
Definition MAL_VALUE_BIGINT : Z := 0xFFFC000000000000.
Definition MAL_VALUE_OBJECT : Z := 0xFFFD000000000000.
Definition MAL_VALUE_ARRAY : Z := 0xFFFE000000000000.
Definition MAL_VALUE_CALLABLE : Z := 0xFFFF000000000000.
Definition MAL_VALUE_CLASS_MASK : Z := 0xFFFF000000000000.

Definition MAL_VALUE_NULL : Z := Z.lor MAL_VALUE_STATIC 0x02.
Definition MAL_VALUE_UNDEFINED : Z := Z.lor MAL_VALUE_STATIC 0x03.
Definition MAL_VALUE_TRUE : Z := Z.lor MAL_VALUE_STATIC 0x04.
Definition MAL_VALUE_FALSE : Z := Z.lor MAL_VALUE_STATIC 0x05.
Definition MAL_VALUE_EMPTY : Z := Z.lor MAL_VALUE_STATIC 0x09.
Definition MAL_VALUE_ARRAY_HOLE : Z := Z.lor MAL_VALUE_STATIC 0x0A.

Definition MAL_VALUE_NAN : Z := 0x7FF8000000000000.
Definition MAL_VALUE_NEGATIVE_ZERO : Z := 0x8000000000000000.
Definition MAL_VALUE_POSITIVE_INFINITY : Z := 0x7FF0000000000000.
Definition MAL_VALUE_NEGATIVE_INFINITY : Z := 0xFFF0000000000000.

(** * Numbers and static values *)

Definition mal_value_from_f64 (value : Z) : Z := value.
Definition mal_value_to_f64 (value : Z) : Z := value.
Definition mal_value_is_f64 (value : Z) : bool := value <? MAL_VALUE_TAG_BASE.
Definition mal_value_is_nan (value : Z) : bool := value =? MAL_VALUE_NAN.

(** [value != value] holds of NaNs only. *)
Definition mal_value_from_f64_convert_nan (value : Z) : Z :=
  if negb (f64_eqb value value) then MAL_VALUE_NAN else mal_value_from_f64 value.

Definition mal_value_is_null (value : Z) : bool := value =? MAL_VALUE_NULL.
Definition mal_value_is_undefined (value : Z) : bool := value =? MAL_VALUE_UNDEFINED.
Definition mal_value_is_nil (value : Z) : bool :=
  mal_value_is_null value || mal_value_is_undefined value.
Definition mal_value_is_empty (value : Z) : bool := value =? MAL_VALUE_EMPTY.
Definition mal_value_is_array_hole (value : Z) : bool := value =? MAL_VALUE_ARRAY_HOLE.
Definition mal_value_new_boolean (value : bool) : Z :=
  if value then MAL_VALUE_TRUE else MAL_VALUE_FALSE.
Definition mal_value_is_boolean (value : Z) : bool :=
  (value =? MAL_VALUE_TRUE) || (value =? MAL_VALUE_FALSE).
Definition mal_value_to_boolean (value : Z) : bool := value =? MAL_VALUE_TRUE.

Definition mal_value_from_i32 (value : Z) : Z := Z.lor MAL_VALUE_INT32 (u32 value).
Definition mal_value_from_u32 (value : Z) : Z :=
  if value <=? INT32_MAX then Z.lor MAL_VALUE_INT32 value else f64_of_int value.
Definition mal_value_to_i32 (value : Z) : Z := i32 (Z.land value MASK_INT32).
Definition mal_value_is_int32 (value : Z) : bool :=
  Z.land value MAL_VALUE_CLASS_MASK =? MAL_VALUE_INT32.

(** * Heap values *)

(** The heap types, in the order of the C enumeration. *)
Inductive MalHeapType : Set :=
| MAL_HEAP_PRIMITIVE_WRAPPER_OBJECT | MAL_HEAP_STRING | MAL_HEAP_SYMBOL
| MAL_HEAP_BIGINT | MAL_HEAP_OBJECT | MAL_HEAP_ARGUMENTS_OBJECT
| MAL_HEAP_SHADOW_REALM_OBJECT | MAL_HEAP_FUNCTION_OBJECT
| MAL_HEAP_NATIVE_FUNCTION_OBJECT | MAL_HEAP_BOUND_FUNCTION_OBJECT
| MAL_HEAP_ARRAY_OBJECT | MAL_HEAP_MAP_OBJECT | MAL_HEAP_SET_OBJECT
| MAL_HEAP_ITERATOR_OBJECT | MAL_HEAP_GENERATOR_OBJECT
| MAL_HEAP_ARRAY_BUFFER_OBJECT | MAL_HEAP_TYPED_ARRAY_OBJECT
| MAL_HEAP_DATA_VIEW_OBJECT | MAL_HEAP_PROMISE_OBJECT
| MAL_HEAP_DISPOSABLE_STACK_OBJECT | MAL_HEAP_ITERATOR_HELPER_OBJECT
| MAL_HEAP_MODULE_NAMESPACE_OBJECT | MAL_HEAP_PROXY_OBJECT
| MAL_HEAP_DATE_OBJECT | MAL_HEAP_TEMPORAL_OBJECT | MAL_HEAP_INTL_OBJECT
| MAL_HEAP_REGEXP_OBJECT | MAL_HEAP_REGEXP_STRING_ITERATOR_OBJECT
| MAL_HEAP_ENV | MAL_HEAP_SHAPE | MAL_HEAP_WEAK_REF_OBJECT
| MAL_HEAP_FINALIZATION_REGISTRY_OBJECT | MAL_HEAP_RESPONSE_OBJECT
| MAL_HEAP_REQUEST_OBJECT | MAL_HEAP_HEADERS_OBJECT
| MAL_HEAP_HEADERS_ITERATOR_OBJECT | MAL_HEAP_BLOB_OBJECT
| MAL_HEAP_FORM_DATA_OBJECT | MAL_HEAP_FORM_DATA_ITERATOR_OBJECT
| MAL_HEAP_URL_OBJECT | MAL_HEAP_URL_SEARCH_PARAMS_OBJECT
| MAL_HEAP_URL_SEARCH_PARAMS_ITERATOR_OBJECT | MAL_HEAP_EVENT_TARGET_OBJECT
| MAL_HEAP_READABLE_STREAM_OBJECT | MAL_HEAP_NODE_ZLIB_OBJECT
| MAL_HEAP_NODE_SQLITE_DATABASE_OBJECT | MAL_HEAP_NODE_SQLITE_STATEMENT_OBJECT
| MAL_HEAP_NODE_FS_FILE_HANDLE_OBJECT | MAL_HEAP_FFI_HANDLE_OBJECT
| MAL_HEAP_ASYNC_CONTEXT | MAL_HEAP_ASYNC_LOCAL_STORAGE_STATE
| MAL_HEAP_ASYNC_RESOURCE_STATE | MAL_HEAP_ASYNC_RUN_SCOPE_STATE
| MAL_HEAP_STRING_CURSOR | MAL_HEAP_WEAK_MAP_OBJECT | MAL_HEAP_WEAK_SET_OBJECT
| MAL_HEAP_PROMISE_ALL_STATE | MAL_HEAP_TYPE_COUNT.

#[export] Instance MalHeapType_eq_dec : EqDecision MalHeapType.
Proof. solve_decision. Defined.

Inductive MalPrimitiveWrapperKind : Set :=
| MAL_PRIMITIVE_WRAPPER_STRING | MAL_PRIMITIVE_WRAPPER_NUMBER
| MAL_PRIMITIVE_WRAPPER_BOOLEAN | MAL_PRIMITIVE_WRAPPER_SYMBOL
| MAL_PRIMITIVE_WRAPPER_BIGINT.

#[export] Instance MalPrimitiveWrapperKind_eq_dec : EqDecision MalPrimitiveWrapperKind.
Proof. solve_decision. Defined.

(** The heap as value.h and value.c read it: the header type of a cell, the
    length of a string cell, the value of a BigInt cell, the kind and data of a
    wrapper cell and the [[Call]] bit of a proxy cell. *)
Record HeapCells : Type := {
  cell_type : Z -> MalHeapType;
  cell_string_length : Z -> Z;
  cell_bigint_value : Z -> Z;
  cell_wrapper_kind : Z -> MalPrimitiveWrapperKind;
  cell_wrapper_data : Z -> Z;
  cell_proxy_callable : Z -> bool;
}.

Definition mal_tag_for_heap_type (type : MalHeapType) : Z :=
  match type with
  | MAL_HEAP_STRING => MAL_VALUE_STRING
  | MAL_HEAP_SYMBOL => MAL_VALUE_SYMBOL
  | MAL_HEAP_BIGINT => MAL_VALUE_BIGINT
  | MAL_HEAP_ARRAY_OBJECT => MAL_VALUE_ARRAY
  | MAL_HEAP_FUNCTION_OBJECT
  | MAL_HEAP_NATIVE_FUNCTION_OBJECT
  | MAL_HEAP_BOUND_FUNCTION_OBJECT => MAL_VALUE_CALLABLE
  | _ => MAL_VALUE_OBJECT
  end.

Definition mal_value_from_heap (h : HeapCells) (heap : Z) : Z :=
  Z.lor (mal_tag_for_heap_type (cell_type h heap)) (Z.land heap MAKS_PTR).
Definition mal_value_is_heap (value : Z) : bool := MAL_VALUE_STRING <=? value.
Definition mal_value_to_heap (value : Z) : Z := Z.land value MAKS_PTR.
Definition mal_value_heap_type (h : HeapCells) (value : Z) : MalHeapType :=
  cell_type h (mal_value_to_heap value).
Definition mal_value_is_heap_type (h : HeapCells) (value : Z) (type : MalHeapType) : bool :=
  mal_value_is_heap value && bool_decide (mal_value_heap_type h value = type).

Definition mal_value_is_string (value : Z) : bool :=
  Z.land value MAL_VALUE_CLASS_MASK =? MAL_VALUE_STRING.
Definition mal_value_is_symbol (value : Z) : bool :=
  Z.land value MAL_VALUE_CLASS_MASK =? MAL_VALUE_SYMBOL.
Definition mal_value_is_bigint (value : Z) : bool :=
  Z.land value MAL_VALUE_CLASS_MASK =? MAL_VALUE_BIGINT.
Definition mal_value_is_object (value : Z) : bool := MAL_VALUE_OBJECT <=? value.
Definition mal_value_is_array_object (value : Z) : bool :=
  Z.land value MAL_VALUE_CLASS_MASK =? MAL_VALUE_ARRAY.

(** The exact-class boxes that do not read the header. *)
Definition mal_value_from_string (p : Z) : Z := Z.lor MAL_VALUE_STRING (Z.land p MAKS_PTR).
Definition mal_value_from_symbol (p : Z) : Z := Z.lor MAL_VALUE_SYMBOL (Z.land p MAKS_PTR).
Definition mal_value_from_bigint (p : Z) : Z := Z.lor MAL_VALUE_BIGINT (Z.land p MAKS_PTR).
Definition mal_value_from_function_object (p : Z) : Z :=
  Z.lor MAL_VALUE_CALLABLE (Z.land p MAKS_PTR).
Definition mal_value_from_array_object (p : Z) : Z := Z.lor MAL_VALUE_ARRAY (Z.land p MAKS_PTR).
Definition mal_value_from_map_object (p : Z) : Z := Z.lor MAL_VALUE_OBJECT (Z.land p MAKS_PTR).

Definition mal_value_is_callable_proxy (h : HeapCells) (value : Z) : bool :=
  mal_value_is_heap_type h value MAL_HEAP_PROXY_OBJECT
  && cell_proxy_callable h (mal_value_to_heap value).
Definition mal_value_is_callable (h : HeapCells) (value : Z) : bool :=
  let value_class := Z.land value MAL_VALUE_CLASS_MASK in
  (value_class =? MAL_VALUE_CALLABLE)
  || ((value_class =? MAL_VALUE_OBJECT) && mal_value_is_callable_proxy h value).

Definition mal_value_is_number_value (value : Z) : bool :=
  mal_value_is_int32 value || mal_value_is_f64 value.

(** thisStringValue, thisNumberValue and thisBooleanValue: a primitive of the
    kind, or a wrapper of that kind, gives its primitive; [None] is the [false]
    return. *)
Definition this_primitive_value (h : HeapCells) (is_primitive : Z -> bool)
    (kind : MalPrimitiveWrapperKind) (value : Z) : option Z :=
  if is_primitive value then Some value
  else if mal_value_is_heap_type h value MAL_HEAP_PRIMITIVE_WRAPPER_OBJECT then
    let wrapper := mal_value_to_heap value in
    if bool_decide (cell_wrapper_kind h wrapper = kind)
    then Some (cell_wrapper_data h wrapper) else None
  else None.
Definition mal_value_this_string_value (h : HeapCells) : Z -> option Z :=
  this_primitive_value h mal_value_is_string MAL_PRIMITIVE_WRAPPER_STRING.
Definition mal_value_this_number_value (h : HeapCells) : Z -> option Z :=
  this_primitive_value h mal_value_is_number_value MAL_PRIMITIVE_WRAPPER_NUMBER.
Definition mal_value_this_boolean_value (h : HeapCells) : Z -> option Z :=
  this_primitive_value h mal_value_is_boolean MAL_PRIMITIVE_WRAPPER_BOOLEAN.

Definition mal_value_is_truthy_primitive (h : HeapCells) (value : Z) : bool :=
  if mal_value_is_nil value then false
  else if mal_value_is_boolean value then mal_value_to_boolean value
  else if mal_value_is_nan value then false
  else if mal_value_is_f64 value then negb (f64_eqb (mal_value_to_f64 value) 0)
  else if mal_value_is_int32 value then negb (mal_value_to_i32 value =? 0)
  else if mal_value_is_string value
       then negb (cell_string_length h (mal_value_to_heap value) =? 0)
  else if mal_value_is_bigint value
       then negb (cell_bigint_value h (mal_value_to_heap value) =? 0)
  else true.
Definition mal_value_is_truthy (h : HeapCells) (value : Z) : bool :=
  if (value =? MAL_VALUE_TRUE) || mal_value_is_object value then true
  else if (value =? MAL_VALUE_FALSE) || mal_value_is_nil value then false
  else mal_value_is_truthy_primitive h value.

(** * Classes *)

(** The class selector of a boxed word: its top 16 bits. *)
Definition class_of (value : Z) : Z := value / 2 ^ 48.

Lemma class_mask_spec v : in_u 64 v -> Z.land v MAL_VALUE_CLASS_MASK = class_of v * 2 ^ 48.
Proof.
  intros Hv. unfold in_u, class_of in *.
  change MAL_VALUE_CLASS_MASK with (Z.shiftl (Z.ones 16) 48).
  rewrite <- Z.shiftl_mul_pow2, <- Z.shiftr_div_pow2 by lia.
  apply Z.bits_inj'. intros i Hi.
  rewrite Z.land_spec, !Z.shiftl_spec by lia.
  destruct (Z.ltb_spec i 48).
  - rewrite (Z.testbit_neg_r (Z.ones 16)), (Z.testbit_neg_r (Z.shiftr v 48)) by lia.
    apply andb_false_r.
  - rewrite Z.shiftr_spec by lia. replace (i - 48 + 48) with i by lia.
    destruct (Z.ltb_spec (i - 48) 16).
    + rewrite Z.ones_spec_low by lia. apply andb_true_r.
    + rewrite <- (Z.mod_small v (2 ^ 64)) by lia.
      by rewrite Z.mod_pow2_bits_high by lia.
Qed.

Lemma ptr_mask_spec v : Z.land v MAKS_PTR = v mod 2 ^ 48.
Proof. apply (land_mask 48). lia. Qed.

Lemma int32_mask_spec v : Z.land v MASK_INT32 = v mod 2 ^ 32.
Proof. apply (land_mask 32). lia. Qed.

Lemma class_eqb v c :
  in_u 64 v -> (Z.land v MAL_VALUE_CLASS_MASK =? c * 2 ^ 48) = (class_of v =? c).
Proof. intros. rewrite class_mask_spec by done. lia. Qed.

Lemma class_range v : in_u 64 v -> 0 <= class_of v < 2 ^ 16.
Proof.
  unfold in_u, class_of. intros. split; [apply Z.div_pos; lia|].
  apply Z.div_lt_upper_bound; lia.
Qed.

Lemma class_ge v c : in_u 64 v -> (c * 2 ^ 48 <=? v) = (c <=? class_of v).
Proof.
  unfold in_u, class_of. intros.
  pose proof (Z.div_mod v (2 ^ 48)). pose proof (Z.mod_pos_bound v (2 ^ 48)).
  destruct (Z.leb_spec c (v / 2 ^ 48)), (Z.leb_spec (c * 2 ^ 48) v); lia.
Qed.

(** Boxing a 48-bit payload under a class. *)
Lemma box_spec c p :
  0 <= c < 2 ^ 16 -> Z.lor (c * 2 ^ 48) (Z.land p MAKS_PTR) = p mod 2 ^ 48 + c * 2 ^ 48.
Proof.
  intros. rewrite ptr_mask_spec.
  replace (Z.lor (c * 2 ^ 48) _) with (Z.lor (Z.shiftl c 48) (p mod 2 ^ 48))
    by (by rewrite Z.shiftl_mul_pow2 by lia).
  apply lor_shiftl_add'; [lia|]. apply Z.mod_pos_bound; lia.
Qed.

Lemma box_range c p : 0 <= c < 2 ^ 16 -> in_u 64 (p mod 2 ^ 48 + c * 2 ^ 48).
Proof. unfold in_u. intros. pose proof (Z.mod_pos_bound p (2 ^ 48)). lia. Qed.

Lemma box_class c p : class_of (p mod 2 ^ 48 + c * 2 ^ 48) = c.
Proof.
  unfold class_of. pose proof (Z.mod_pos_bound p (2 ^ 48)).
  rewrite Z.div_add, Z.div_small; lia.
Qed.

Lemma box_payload c p : (p mod 2 ^ 48 + c * 2 ^ 48) mod 2 ^ 48 = p mod 2 ^ 48.
Proof. by rewrite Z.mod_add, Z.mod_mod by lia. Qed.

Definition class_of_type (type : MalHeapType) : Z :=
  mal_tag_for_heap_type type / 2 ^ 48.

Lemma class_of_type_spec type :
  mal_tag_for_heap_type type = class_of_type type * 2 ^ 48 /\
  0xFFFA <= class_of_type type <= 0xFFFF.
Proof. destruct type; vm_compute; repeat split; discriminate. Qed.

(** The classes the predicates of value.h tell apart. *)
Inductive value_kind : Set :=
| KDouble | KInt32 | KStatic | KString | KSymbol | KBigInt | KObject.

#[export] Instance value_kind_eq_dec : EqDecision value_kind.
Proof. solve_decision. Defined.

(** The predicate the code uses for each class. It has none for the class of
    the static words: it compares with each named constant. *)
Definition kind_test (k : value_kind) : Z -> bool :=
  match k with
  | KDouble => mal_value_is_f64
  | KInt32 => mal_value_is_int32
  | KStatic => fun v => class_of v =? 0xFFF9
  | KString => mal_value_is_string
  | KSymbol => mal_value_is_symbol
  | KBigInt => mal_value_is_bigint
  | KObject => mal_value_is_object
  end.

(** All predicates read off the class, in one place. *)
Lemma kind_test_class v k :
  in_u 64 v ->
  kind_test k v =
    match k with
    | KDouble => class_of v <? 0xFFF8
    | KInt32 => class_of v =? 0xFFF8
    | KStatic => class_of v =? 0xFFF9
    | KString => class_of v =? 0xFFFA
    | KSymbol => class_of v =? 0xFFFB
    | KBigInt => class_of v =? 0xFFFC
    | KObject => 0xFFFD <=? class_of v
    end.
Proof.
  intros Hv.
  pose proof (class_ge v 0xFFF8 Hv). pose proof (class_ge v 0xFFF9 Hv).
  pose proof (class_ge v 0xFFFA Hv).
  destruct k; simpl.
  - change MAL_VALUE_TAG_BASE with (0xFFF8 * 2 ^ 48) in *.
    unfold mal_value_is_f64, MAL_VALUE_TAG_BASE. lia.
  - exact (class_eqb v 0xFFF8 Hv).
  - done.
  - exact (class_eqb v 0xFFFA Hv).
  - exact (class_eqb v 0xFFFB Hv).
  - exact (class_eqb v 0xFFFC Hv).
  - exact (class_ge v 0xFFFD Hv).
Qed.

Definition kind_of (v : Z) : value_kind :=
  if class_of v <? 0xFFF8 then KDouble
  else if class_of v =? 0xFFF8 then KInt32
  else if class_of v =? 0xFFF9 then KStatic
  else if class_of v =? 0xFFFA then KString
  else if class_of v =? 0xFFFB then KSymbol
  else if class_of v =? 0xFFFC then KBigInt
  else KObject.

Lemma kind_test_iff v k : in_u 64 v -> kind_test k v = true <-> kind_of v = k.
Proof.
  intros Hv. rewrite kind_test_class by done. pose proof (class_range v Hv).
  unfold kind_of. destruct k; cases_if; split; intros; try done; try lia.
Qed.

(** * Numbers round trip *)

Lemma non_nan_below_tags v :
  in_u 64 v -> f64_is_nan v = false -> v < MAL_VALUE_TAG_BASE.
Proof.
  intros Hv Hn. unfold f64_is_nan in Hn. apply Z.ltb_ge in Hn.
  pose proof (f64_pattern v Hv). unfold MAL_VALUE_TAG_BASE.
  destruct (f64_sign v); lia.
Qed.

Lemma from_i32_spec n :
  in_i 32 n -> mal_value_from_i32 n = n mod 2 ^ 32 + 0xFFF8 * 2 ^ 48.
Proof.
  intros. unfold mal_value_from_i32, u32, wrap.
  change MAL_VALUE_INT32 with (Z.shiftl 0xFFF8 48).
  apply lor_shiftl_add'; [lia|]. pose proof (Z.mod_pos_bound n (2 ^ 32)). lia.
Qed.

Lemma from_i32_range n : in_i 32 n -> in_u 64 (mal_value_from_i32 n).
Proof.
  intros. rewrite from_i32_spec by done. unfold in_u.
  pose proof (Z.mod_pos_bound n (2 ^ 32)). lia.
Qed.

Lemma to_i32_from_i32 n : in_i 32 n -> mal_value_to_i32 (mal_value_from_i32 n) = n.
Proof.
  intros. rewrite from_i32_spec by done. unfold mal_value_to_i32.
  rewrite int32_mask_spec.
  replace (n mod 2 ^ 32 + 0xFFF8 * 2 ^ 48)
    with (n mod 2 ^ 32 + 0xFFF80000 * 2 ^ 32) by lia.
  rewrite Z.mod_add, Z.mod_mod by lia.
  unfold i32. change (n mod 2 ^ 32) with (wrap 32 n).
  rewrite swrap_wrap by lia. by apply swrap_small.
Qed.

Lemma from_i32_kind n : in_i 32 n -> kind_of (mal_value_from_i32 n) = KInt32.
Proof.
  intros. apply kind_test_iff; [by apply from_i32_range|].
  rewrite kind_test_class by (by apply from_i32_range).
  rewrite from_i32_spec by done. unfold class_of.
  pose proof (Z.mod_pos_bound n (2 ^ 32)).
  rewrite Z.div_add, Z.div_small; lia.
Qed.

(** Boxing a double never produces a tagged word: the result is a double
    word, it is the double's own bits unless the double is a NaN, and every NaN
    becomes the one canonical NaN. *)
Lemma convert_nan_spec (d : Z) :
  in_u 64 d ->
  let v := mal_value_from_f64_convert_nan d in
  kind_of v = KDouble /\ in_u 64 v /\
  (if f64_is_nan d then v = MAL_VALUE_NAN else mal_value_to_f64 v = d).
Proof.
  intros Hd. unfold mal_value_from_f64_convert_nan, f64_eqb.
  destruct (f64_is_nan d) eqn:Hn; simpl.
  - repeat split; done.
  - rewrite Z.eqb_refl. simpl. split; [|done].
    apply kind_test_iff; [done|]. simpl.
    pose proof (non_nan_below_tags d Hd Hn). unfold mal_value_is_f64, mal_value_from_f64. lia.
Qed.

(** Numbers survive boxing: an int32 reads back from an int32 word, a double
    that is not a NaN reads back bit for bit from a double word, every NaN becomes
    the one canonical NaN, and no boxed number looks like any other kind. *)
Theorem value_number_roundtrip (n d : Z) :
  in_i 32 n -> in_u 64 d ->
  mal_value_to_i32 (mal_value_from_i32 n) = n /\
  mal_value_is_int32 (mal_value_from_i32 n) = true /\
  mal_value_is_f64 (mal_value_from_i32 n) = false /\
  mal_value_is_f64 (mal_value_from_f64_convert_nan d) = true /\
  mal_value_is_int32 (mal_value_from_f64_convert_nan d) = false /\
  (if f64_is_nan d then mal_value_from_f64_convert_nan d = MAL_VALUE_NAN
   else mal_value_to_f64 (mal_value_from_f64_convert_nan d) = d).
Proof.
  intros Hn Hd. pose proof (from_i32_range n Hn) as Hr. pose proof (from_i32_kind n Hn) as Hk.
  destruct (convert_nan_spec d Hd) as (Hk' & Hr' & Hv).
  assert (forall v k k', in_u 64 v -> kind_of v = k -> k' <> k -> kind_test k' v = false) as Hne.
  { intros v k k' Hv' <- Hd'. apply not_true_iff_false. rewrite kind_test_iff by done. congruence. }
  split_and!; [by apply to_i32_from_i32|by apply (kind_test_iff _ KInt32)|by apply (Hne _ _ KDouble Hr Hk)
    |by apply (kind_test_iff _ KDouble)|by apply (Hne _ _ KInt32 Hr' Hk')|done].
Qed.

Lemma value_number_roundtrip_witness :
  mal_value_to_i32 (mal_value_from_i32 (-1)) = -1 /\
  mal_value_from_f64_convert_nan 0xFFFFFFFFFFFFFFFF = MAL_VALUE_NAN.
Proof.
  destruct (value_number_roundtrip (-1) 0xFFFFFFFFFFFFFFFF) as (E & _ & _ & _ & _ & N);
    [by vm_compute|by vm_compute|exact (conj E N)].
Defined.

(** * Heap pointers round trip *)

Lemma from_heap_spec h p :
  mal_value_from_heap h p = p mod 2 ^ 48 + class_of_type (cell_type h p) * 2 ^ 48.
Proof.
  unfold mal_value_from_heap.
  destruct (class_of_type_spec (cell_type h p)) as [-> Hc].
  apply box_spec. lia.
Qed.

(** Boxing a heap cell whose address fits 48 bits keeps the address, gives
    a heap value of the class of its header type, and the object test holds
    exactly for the cells that are not strings, symbols or BigInts. *)
Theorem from_heap_roundtrip (h : HeapCells) (p : Z) :
  in_u 48 p ->
  let v := mal_value_from_heap h p in
  mal_value_to_heap v = p /\
  mal_value_is_heap v = true /\
  (forall t, mal_value_is_heap_type h v t = bool_decide (cell_type h p = t)) /\
  (mal_value_is_object v = true <->
     cell_type h p <> MAL_HEAP_STRING /\ cell_type h p <> MAL_HEAP_SYMBOL /\
     cell_type h p <> MAL_HEAP_BIGINT).
Proof.
  intros Hp. simpl. unfold in_u in Hp.
  destruct (class_of_type_spec (cell_type h p)) as [_ Hc].
  assert (mal_value_to_heap (mal_value_from_heap h p) = p) as Hto.
  { unfold mal_value_to_heap. rewrite from_heap_spec, ptr_mask_spec, box_payload.
    apply Z.mod_small. lia. }
  assert (in_u 64 (mal_value_from_heap h p)) as Hr.
  { rewrite from_heap_spec. apply box_range. lia. }
  assert (class_of (mal_value_from_heap h p) = class_of_type (cell_type h p)) as Hcl.
  { rewrite from_heap_spec. apply box_class. }
  assert (mal_value_is_heap (mal_value_from_heap h p) = true) as Hh.
  { unfold mal_value_is_heap. change MAL_VALUE_STRING with (0xFFFA * 2 ^ 48).
    rewrite class_ge, Hcl by done. lia. }
  split; [done|]. split; [done|]. split.
  - intros t. unfold mal_value_is_heap_type, mal_value_heap_type. by rewrite Hh, Hto.
  - change mal_value_is_object with (kind_test KObject).
    rewrite kind_test_class, Hcl by done.
    destruct (cell_type h p); vm_compute; intuition discriminate.
Qed.

Lemma from_heap_roundtrip_witness :
  let h := {| cell_type _ := MAL_HEAP_MAP_OBJECT; cell_string_length _ := 0; cell_bigint_value _ := 0;
              cell_wrapper_kind _ := MAL_PRIMITIVE_WRAPPER_STRING; cell_wrapper_data _ := 0;
              cell_proxy_callable _ := false |} in
  mal_value_to_heap (mal_value_from_heap h 0x7f0012345678) = 0x7f0012345678 /\
  mal_value_is_heap (mal_value_from_heap h 0x7f0012345678) = true.
Proof.
  intros h. destruct (from_heap_roundtrip h 0x7f0012345678) as (E1 & E2 & _); [by vm_compute|].
  exact (conj E1 E2).
Defined.

(** * The kinds of words *)

(** What a word is to the program: a number in one of its two forms, one of the
    static values, a primitive on the heap or an object. *)
Inductive js_kind : Set :=
| JDouble | JInt32 | JNull | JUndefined | JBoolean | JEmpty | JArrayHole
| JString | JSymbol | JBigInt | JObject.

#[export] Instance js_kind_eq_dec : EqDecision js_kind.
Proof. solve_decision. Defined.

(** The predicate of value.h for each kind. *)
Definition js_test (k : js_kind) : Z -> bool :=
  match k with
  | JDouble => mal_value_is_f64
  | JInt32 => mal_value_is_int32
  | JNull => mal_value_is_null
  | JUndefined => mal_value_is_undefined
  | JBoolean => mal_value_is_boolean
  | JEmpty => mal_value_is_empty
  | JArrayHole => mal_value_is_array_hole
  | JString => mal_value_is_string
  | JSymbol => mal_value_is_symbol
  | JBigInt => mal_value_is_bigint
  | JObject => mal_value_is_object
  end.

(** The named words of the static class. *)
Definition static_words : list Z :=
  [MAL_VALUE_NULL; MAL_VALUE_UNDEFINED; MAL_VALUE_TRUE; MAL_VALUE_FALSE; MAL_VALUE_EMPTY; MAL_VALUE_ARRAY_HOLE].

(** The kind of a cell, by the type in its header. *)
Definition cell_kind (type : MalHeapType) : js_kind :=
  match type with
  | MAL_HEAP_STRING => JString
  | MAL_HEAP_SYMBOL => JSymbol
  | MAL_HEAP_BIGINT => JBigInt
  | _ => JObject
  end.

(** The words the constructors of value.h build, and the kind each is meant to have. *)
Inductive built (h : HeapCells) : Z -> js_kind -> Prop :=
| built_null : built h MAL_VALUE_NULL JNull
| built_undefined : built h MAL_VALUE_UNDEFINED JUndefined
| built_empty : built h MAL_VALUE_EMPTY JEmpty
| built_hole : built h MAL_VALUE_ARRAY_HOLE JArrayHole
| built_boolean b : built h (mal_value_new_boolean b) JBoolean
| built_i32 n : in_i 32 n -> built h (mal_value_from_i32 n) JInt32
| built_u32 n : in_u 32 n -> built h (mal_value_from_u32 n) (if n <=? INT32_MAX then JInt32 else JDouble)
| built_f64 d : in_u 64 d -> f64_is_nan d = false -> built h (mal_value_from_f64 d) JDouble
| built_f64_convert_nan d : in_u 64 d -> built h (mal_value_from_f64_convert_nan d) JDouble
| built_heap p : built h (mal_value_from_heap h p) (cell_kind (cell_type h p))
| built_string p : built h (mal_value_from_string p) JString
| built_symbol p : built h (mal_value_from_symbol p) JSymbol
| built_bigint p : built h (mal_value_from_bigint p) JBigInt
| built_function_object p : built h (mal_value_from_function_object p) JObject
| built_array_object p : built h (mal_value_from_array_object p) JObject
| built_map_object p : built h (mal_value_from_map_object p) JObject.

(** The class a kind lies in. *)
Definition class_kind (k : js_kind) : value_kind :=
  match k with
  | JDouble => KDouble
  | JInt32 => KInt32
  | JNull | JUndefined | JBoolean | JEmpty | JArrayHole => KStatic
  | JString => KString
  | JSymbol => KSymbol
  | JBigInt => KBigInt
  | JObject => KObject
  end.

Lemma js_test_class k v : in_u 64 v -> js_test k v = true -> kind_of v = class_kind k.
Proof.
  intros Hv E. apply kind_test_iff; [done|].
  destruct k; try exact E; cbn [js_test] in E; unfold mal_value_is_boolean in E;
    try (apply orb_true_iff in E as [E|E]); apply Z.eqb_eq in E; by subst v.
Qed.
Lemma js_test_of_class k v : in_u 64 v -> class_kind k <> KStatic -> kind_of v = class_kind k -> js_test k v = true.
Proof. intros Hv Hk E%kind_test_iff; [|done]. by destruct k. Qed.
Lemma js_test_unique k k' v : in_u 64 v -> js_test k v = true -> js_test k' v = true -> k' = k.
Proof.
  intros Hv E E'. pose proof (js_test_class k v Hv E) as C. rewrite (js_test_class k' v Hv E') in C.
  destruct k, k'; try discriminate C; try done; exfalso; cbn [js_test] in E, E';
    unfold mal_value_is_null, mal_value_is_undefined, mal_value_is_boolean, mal_value_is_empty, mal_value_is_array_hole in *;
    repeat match goal with H : _ || _ = true |- _ => apply orb_true_iff in H as [H|H] end;
    apply Z.eqb_eq in E, E'; subst v; discriminate E'.
Qed.
Lemma js_test_static v : v ∈ static_words -> exists k, js_test k v = true.
Proof.
  intros Hv. repeat (apply elem_of_cons in Hv as [->|Hv]); [by exists JNull|by exists JUndefined|by exists JBoolean|by exists JBoolean
    |by exists JEmpty|by exists JArrayHole|by apply not_elem_of_nil in Hv].
Qed.
Lemma js_test_total v : in_u 64 v -> (exists k, js_test k v = true) <-> class_of v <> 0xFFF9 \/ v ∈ static_words.
Proof.
  intros Hv. split.
  - intros [k E]. destruct (Z.eq_dec (class_of v) 0xFFF9) as [Hc|]; [right|by left].
    assert (kind_of v = KStatic) as Hk by (apply kind_test_iff; [done|by apply Z.eqb_eq]).
    rewrite (js_test_class k v Hv E) in Hk. unfold static_words.
    destruct k; try discriminate Hk; cbn [js_test] in E; unfold mal_value_is_boolean in E;
      try (apply orb_true_iff in E as [E|E]); apply Z.eqb_eq in E; subst v; rewrite !elem_of_cons; tauto.
  - intros [Hc|]; [|by apply js_test_static].
    assert (kind_of v <> KStatic) as Hk by (intros E%kind_test_iff; [by apply Z.eqb_eq in E|done]).
    exists (match kind_of v with KDouble => JDouble | KInt32 => JInt32 | KString => JString | KSymbol => JSymbol | KBigInt => JBigInt | _ => JObject end).
    apply js_test_of_class; [done|by destruct (kind_of v)|by destruct (kind_of v)].
Qed.

Lemma box_kind c p : 0xFFF8 <= c < 2 ^ 16 -> in_u 64 (Z.lor (c * 2 ^ 48) (Z.land p MAKS_PTR)) /\ class_of (Z.lor (c * 2 ^ 48) (Z.land p MAKS_PTR)) = c.
Proof. intros Hc. rewrite box_spec by lia. split; [apply box_range; lia|apply box_class]. Qed.
Lemma boxed_test k c p :
  0xFFFA <= c < 2 ^ 16 -> class_kind k = (if c =? 0xFFFA then KString else if c =? 0xFFFB then KSymbol else if c =? 0xFFFC then KBigInt else KObject) ->
  in_u 64 (Z.lor (c * 2 ^ 48) (Z.land p MAKS_PTR)) /\ js_test k (Z.lor (c * 2 ^ 48) (Z.land p MAKS_PTR)) = true.
Proof.
  intros Hc Hk. destruct (box_kind c p ltac:(lia)) as [Hr Hcl]. split; [done|]. apply js_test_of_class; [done|rewrite Hk; cases_if; done|].
  rewrite Hk. unfold kind_of. rewrite Hcl. cases_if; try done; lia.
Qed.
Lemma double_test d : in_u 64 d -> f64_is_nan d = false -> in_u 64 (mal_value_from_f64 d) /\ js_test JDouble (mal_value_from_f64 d) = true.
Proof. intros Hd Hn. split; [done|]. apply Z.ltb_lt. by apply non_nan_below_tags. Qed.
Lemma int_test n : in_i 32 n -> in_u 64 (mal_value_from_i32 n) /\ js_test JInt32 (mal_value_from_i32 n) = true.
Proof. intros Hn. split; [by apply from_i32_range|]. by apply (kind_test_iff _ KInt32); [apply from_i32_range|apply from_i32_kind]. Qed.
Lemma unsigned_test n :
  in_u 32 n -> in_u 64 (mal_value_from_u32 n) /\ js_test (if n <=? INT32_MAX then JInt32 else JDouble) (mal_value_from_u32 n) = true.
Proof.
  intros Hn. unfold in_u in Hn. unfold mal_value_from_u32. destruct (Z.leb_spec n INT32_MAX) as [Hle|].
  - unfold INT32_MAX in Hle. assert (in_i 32 n) as Hi by (unfold in_i; lia). destruct (int_test n Hi) as [Hr Ht].
    unfold mal_value_from_i32, u32 in *. rewrite (wrap_small 32 n) in * by (unfold in_u; lia). done.
  - apply double_test; [apply f64_of_int_range|apply f64_of_int_not_nan]; lia.
Qed.
Lemma convert_test d :
  in_u 64 d -> in_u 64 (mal_value_from_f64_convert_nan d) /\ js_test JDouble (mal_value_from_f64_convert_nan d) = true.
Proof. intros Hd. destruct (convert_nan_spec d Hd) as (Hk & Hr & _). split; [done|]. by apply (kind_test_iff _ KDouble). Qed.
Lemma heap_test h p : in_u 64 (mal_value_from_heap h p) /\ js_test (cell_kind (cell_type h p)) (mal_value_from_heap h p) = true.
Proof.
  unfold mal_value_from_heap. destruct (class_of_type_spec (cell_type h p)) as [E Hc]. rewrite E. apply boxed_test; [lia|].
  by destruct (cell_type h p).
Qed.

(** What a constructor builds passes the test of its kind. *)
Lemma built_test h v k : built h v k -> in_u 64 v /\ js_test k v = true.
Proof.
  destruct 1 as [| | | |[]|n Hn|n Hn|d Hd Hn|d Hd|p|p|p|p|p|p|p];
    [split; by vm_compute|split; by vm_compute|split; by vm_compute|split; by vm_compute|split; by vm_compute|split; by vm_compute
    | | | | |by apply heap_test| | | | | |].
  - by apply int_test.
  - by apply unsigned_test.
  - by apply double_test.
  - by apply convert_test.
  - by apply (boxed_test JString 0xFFFA).
  - by apply (boxed_test JSymbol 0xFFFB).
  - by apply (boxed_test JBigInt 0xFFFC).
  - by apply (boxed_test JObject 0xFFFF).
  - by apply (boxed_test JObject 0xFFFE).
  - by apply (boxed_test JObject 0xFFFD).
Qed.


