(* ===== verification/CheckedSize.v ===== *)
(** Checked size arithmetic of runtime/src/checked_size.h and checked_size.c:
    additions, multiplications and geometric growth under a caller's limit.
    [None] is the [false] return, which leaves [*out] alone. *)

From S2P Require Import Prelude.

Definition mal_checked_size_add (left right limit : Z) : option Z :=
  if (limit <? left) || (limit - left <? right) then None
  else Some (u64 (left + right)).

Definition mal_checked_size_multiply (left right limit : Z) : option Z :=
  if negb (left =? 0) && (limit / left <? right) then None
  else Some (u64 (left * right)).

(** The doubling loop; the step that would pass the limit stops at it. *)
Fixpoint growth_loop (fuel : nat) (capacity required limit : Z) : outcome Z :=
  match fuel with
  | O => NoFuel
  | S fuel =>
      if capacity <? required then
        growth_loop fuel (if limit / 2 <? capacity then limit else u64 (capacity * 2))
          required limit
      else Ret capacity
  end.

(** 65 turns double a positive size past every 64-bit request. *)
Definition growth_fuel : nat := 66.

Definition mal_checked_size_growth (current required initial limit : Z) : outcome (option Z) :=
  if (limit <? required) || (limit <? current) || (limit <? initial) then Ret None
  else
    let capacity := if current =? 0 then initial else current in
    if (capacity =? 0) && negb (required =? 0) then Ret None
    else c ← growth_loop growth_fuel capacity required limit; Ret (Some c).

(** The additions and products of size_t operands never wrap: the result is
    exact and within the limit, and a refusal means the limit is passed. *)
Lemma checked_size_add_spec left right limit :
  in_u 64 left -> in_u 64 right -> in_u 64 limit ->
  mal_checked_size_add left right limit
  = if left + right <=? limit then Some (left + right) else None.
Proof.
  unfold in_u, mal_checked_size_add. intros.
  destruct (Z.ltb_spec limit left), (Z.ltb_spec (limit - left) right),
    (Z.leb_spec (left + right) limit); simpl; try lia; try done.
  unfold u64. rewrite wrap_small; [done|unfold in_u; lia].
Qed.

Lemma checked_size_multiply_spec left right limit :
  in_u 64 left -> in_u 64 right -> in_u 64 limit ->
  mal_checked_size_multiply left right limit
  = if left * right <=? limit then Some (left * right) else None.
Proof.
  unfold in_u, mal_checked_size_multiply. intros Hl Hr Hm.
  destruct (Z.eqb_spec left 0) as [->|]; simpl.
  - rewrite Z.mul_0_l. destruct (Z.leb_spec 0 limit); [done|lia].
  - pose proof (Z.div_mod limit left). pose proof (Z.mod_pos_bound limit left).
    destruct (Z.ltb_spec (limit / left) right), (Z.leb_spec (left * right) limit); try nia; try done.
    unfold u64. rewrite wrap_small; [done|unfold in_u; nia].
Qed.

(** The sizes the growth loop passes through: doublings of the start, then the
    limit. *)
Definition growth_result (start required limit c : Z) : Prop :=
  required <= c <= limit /\ start <= c /\
  (c = start \/ c < 2 * required \/ c = limit).

Lemma growth_loop_spec fuel : forall capacity required limit k,
  in_u 64 limit -> 0 < capacity <= limit -> required <= limit ->
  0 <= k -> required <= capacity * 2 ^ k -> (Z.to_nat k < fuel)%nat ->
  exists c, growth_loop fuel capacity required limit = Ret c /\
            growth_result capacity required limit c.
Proof.
  unfold in_u, growth_result.
  induction fuel as [|fuel IH]; intros capacity required limit k Hl Hc Hr Hk Hp Hf; [lia|].
  simpl. destruct (Z.ltb_spec capacity required) as [Hlt|Hge].
  - assert (0 < k) as Hk0.
    { destruct (decide (k = 0)) as [->|]; [|lia]. rewrite Z.pow_0_r in Hp. lia. }
    assert (2 ^ k = 2 * 2 ^ (k - 1)) as Hpow
      by (rewrite <- Z.pow_succ_r by lia; f_equal; lia).
    pose proof (Z.div_mod limit 2). pose proof (Z.mod_pos_bound limit 2).
    assert (0 < 2 ^ (k - 1)) by (apply Z.pow_pos_nonneg; lia).
    destruct (Z.ltb_spec (limit / 2) capacity).
    + destruct (IH limit required limit (k - 1)) as (c & -> & ? & ? & ?); try lia; [nia|].
      exists c. split; [done|]. split; [lia|]. split; [lia|]. right. right. lia.
    + unfold u64. rewrite wrap_small by (unfold in_u; lia).
      destruct (IH (capacity * 2) required limit (k - 1)) as (c & -> & ? & ? & Hc3); try lia.
      exists c. split; [done|]. split; [lia|]. split; [lia|]. right.
      destruct Hc3 as [->|[?|?]]; [left; lia|by left|by right].
  - exists capacity. split; [done|]. split; [lia|]. split; [lia|]. by left.
Qed.

(** Growth returns on every size_t input. It succeeds exactly when the three
    sizes are within the limit and there is a size to start from; the result
    covers the request, keeps the current capacity, stays within the limit and,
    unless the start already sufficed or the limit was reached, is less than
    twice the request. *)
Lemma checked_size_growth_spec current required initial limit :
  in_u 64 current -> in_u 64 required -> in_u 64 initial -> in_u 64 limit ->
  let start := if current =? 0 then initial else current in
  let ok := (required <=? limit) && (current <=? limit) && (initial <=? limit)
            && negb ((start =? 0) && negb (required =? 0)) in
  exists r, mal_checked_size_growth current required initial limit = Ret r /\
    match r with
    | None => ok = false
    | Some c => ok = true /\ growth_result start required limit c
    end.
Proof.
  intros Hc Hr Hi Hl. cbv zeta. unfold mal_checked_size_growth, in_u in *.
  rewrite !Z.ltb_antisym, <- !negb_andb.
  destruct ((required <=? limit) && (current <=? limit) && (initial <=? limit)) eqn:Hle; cbn [negb andb orb];
    [|by exists None].
  set (start := if current =? 0 then initial else current).
  assert (0 <= start <= limit) by (subst start; destruct (Z.eqb_spec current 0); lia).
  destruct (Z.eqb_spec start 0) as [Hs|]; cbn [negb andb orb].
  - destruct (Z.eqb_spec required 0) as [->|]; cbn [negb andb orb]; [|by exists None].
    exists (Some 0). rewrite Hs. unfold growth_result. split; [done|]. split; [done|]. lia.
  - assert (required <= start * 2 ^ 64) by (assert (2 ^ 64 <= start * 2 ^ 64) by nia; lia).
    assert (Z.to_nat 64 < growth_fuel)%nat by (unfold growth_fuel; lia).
    destruct (growth_loop_spec growth_fuel start required limit 64) as (c & -> & ?);
      try done; try lia.
    by exists (Some c).
Qed.
