(* ===== verification/HeapString.v ===== *)
(** JavaScript strings of runtime/src/heap_string.h and heap_string.c: flat,
    dependent (slice) and cons (rope) cells, the encoding-independent hash, and
    equality and ordering without flattening.

    A [MalString] is the unfolding of the cell graph below a pointer; [str_addr]
    is the pointer itself, which the code compares. Offsets and lengths stay
    below 2^32, so the size_t sums of the code do not wrap. *)

From S2P Require Import Prelude CheckedSize.

(** * Data *)

Inductive MalStringStorage : Set :=
| MAL_STRING_STORAGE_OWNED | MAL_STRING_STORAGE_INLINE | MAL_STRING_STORAGE_EXTERNAL
| MAL_STRING_STORAGE_PREPARED_UTF8 | MAL_STRING_STORAGE_DEPENDENT
| MAL_STRING_STORAGE_CONS | MAL_STRING_STORAGE_BUILDER.

#[export] Instance MalStringStorage_eq_dec : EqDecision MalStringStorage.
Proof. solve_decision. Defined.

Definition MAL_STRING_MAX_CODE_UNITS : Z := INT32_MAX.
Definition MAL_STRING_HASH_MASK : Z := 2 ^ 57 - 1.
Definition MAL_STRING_STRUCTURAL_COMPARE_CAPACITY : Z := 64.

Record MalStringInfo : Type := mkStringInfo {
  str_addr : Z;
  str_length : Z;
  str_hash : Z;
  str_hash_valid : bool;
  str_property_atom : bool;
  str_latin1 : bool;
}.

Inductive MalString : Type :=
| SFlat (info : MalStringInfo) (storage : MalStringStorage) (payload : list Z)
| SDependent (info : MalStringInfo) (parent : MalString) (slice_offset : Z)
| SCons (info : MalStringInfo) (left right : MalString).

Definition str_info (s : MalString) : MalStringInfo :=
  match s with SFlat i _ _ | SDependent i _ _ | SCons i _ _ => i end.
Definition set_info (i : MalStringInfo) (s : MalString) : MalString :=
  match s with
  | SFlat _ st u => SFlat i st u
  | SDependent _ p o => SDependent i p o
  | SCons _ l r => SCons i l r
  end.
Definition addr (s : MalString) : Z := str_addr (str_info s).
Definition mal_string_length (s : MalString) : Z := str_length (str_info s).
Definition mal_string_storage (s : MalString) : MalStringStorage :=
  match s with
  | SFlat _ st _ => st
  | SDependent _ _ _ => MAL_STRING_STORAGE_DEPENDENT
  | SCons _ _ _ => MAL_STRING_STORAGE_CONS
  end.
(** [storage < MAL_STRING_STORAGE_DEPENDENT] *)
Definition flat_value (s : MalString) : bool :=
  match mal_string_storage s with
  | MAL_STRING_STORAGE_DEPENDENT | MAL_STRING_STORAGE_CONS | MAL_STRING_STORAGE_BUILDER => false
  | _ => true
  end.
Definition is_cons (s : MalString) : bool :=
  match s with SCons _ _ _ => true | _ => false end.

(** The unit lane of a flat cell; the other cells have none. *)
Definition flat_payload (s : MalString) : list Z :=
  match s with SFlat _ _ u => u | _ => [] end.

(** [slice l offset length]: the units a pointer and a length denote. *)
Definition slice (l : list Z) (offset length : Z) : list Z :=
  take (Z.to_nat length) (drop (Z.to_nat offset) l).

(** A segment points into a leaf: [seg_units] is the lane from there on. *)
Record MalStringSegment : Type := mkSegment {
  seg_latin1 : bool;
  seg_length : Z;
  seg_units : list Z;
}.

Definition mal_string_leaf_segment (s : MalString) (offset length : Z) : MalStringSegment :=
  mkSegment (str_latin1 (str_info s)) length (drop (Z.to_nat offset) (flat_payload s)).

(** * Reading *)

Definition mal_string_flat_code_unit_at (s : MalString) (index : Z) : Z :=
  arr_get (flat_payload s) index.
Fixpoint mal_string_code_unit_at (s : MalString) (index : Z) : Z :=
  match s with
  | SCons _ l r =>
      if index <? mal_string_length l then mal_string_code_unit_at l index
      else mal_string_code_unit_at r (index - mal_string_length l)
  | SDependent _ parent slice_offset =>
      mal_string_flat_code_unit_at parent (index + slice_offset)
  | SFlat _ _ _ => mal_string_flat_code_unit_at s index
  end.

(** The descent of [mal_string_try_get_segment]. *)
Fixpoint segment_descend (s : MalString) (offset length : Z) : option MalStringSegment :=
  match s with
  | SDependent _ parent slice_offset => segment_descend parent (offset + slice_offset) length
  | SCons _ l r =>
      let left_length := mal_string_length l in
      if left_length <=? offset then segment_descend r (offset - left_length) length
      else if length <=? left_length - offset then segment_descend l offset length
      else None
  | SFlat _ _ _ => Some (mal_string_leaf_segment s offset length)
  end.
Definition mal_string_try_get_segment (s : MalString) (offset length : Z)
  : outcome (option MalStringSegment) :=
  match mal_checked_size_add offset length (mal_string_length s) with
  | None => Abort
  | Some _ =>
      if length =? 0 then Ret (Some (mkSegment true 0 []))
      else Ret (segment_descend s offset length)
  end.

(** The descent of [mal_string_get_leaf_range]: leaf, offset in it and units
    available there. *)
Fixpoint leaf_range_descend (s : MalString) (offset available : Z) : MalString * Z * Z :=
  match s with
  | SDependent _ parent slice_offset => leaf_range_descend parent (offset + slice_offset) available
  | SCons _ l r =>
      let left_length := mal_string_length l in
      if left_length <=? offset then leaf_range_descend r (offset - left_length) available
      else leaf_range_descend l offset
             (if left_length - offset <? available then left_length - offset else available)
  | SFlat _ _ _ => (s, offset, available)
  end.
Definition mal_string_get_leaf_range (s : MalString) (offset : Z) : outcome (MalString * Z * Z) :=
  if mal_string_length s <=? offset then Abort
  else Ret (leaf_range_descend s offset (mal_string_length s - offset)).

(** * Iterators *)

Record MalStringIteratorPart : Type := mkPart {
  part_string : MalString;
  part_offset : Z;
  part_length : Z;
}.
(** A scratch iterator ([owner == nullptr]); the stack's top is its head. *)
Record MalStringIterator : Type := mkIterator {
  it_stack : list MalStringIteratorPart;
  it_capacity : Z;
  it_reverse : bool;
  it_current : option MalStringIteratorPart;
}.

Definition mal_string_iterator_push (it : MalStringIterator) (part : MalStringIteratorPart)
  : outcome MalStringIterator :=
  if part_length part =? 0 then Ret it
  else
    let count := arr_len (it_stack it) in
    capacity ←
      (if count =? it_capacity it then
         r ← mal_checked_size_growth (it_capacity it) (count + 1) 16 MAL_STRING_MAX_CODE_UNITS;
         match r with Some c => Ret c | None => Abort end
       else Ret (it_capacity it));
    Ret (mkIterator (part :: it_stack it) capacity (it_reverse it) (it_current it)).

Definition mal_string_iterator_init (s : MalString) (offset length : Z)
  : outcome MalStringIterator :=
  match mal_checked_size_add offset length (mal_string_length s) with
  | None => Abort
  | Some _ => mal_string_iterator_push (mkIterator [] 16 false None) (mkPart s offset length)
  end.
Definition mal_string_iterator_init_reverse (s : MalString) (offset length : Z)
  : outcome MalStringIterator :=
  it ← mal_string_iterator_init s offset length;
  Ret (mkIterator (it_stack it) (it_capacity it) true (it_current it)).

(** The loop of [mal_string_iterator_next] from one popped part. *)
Fixpoint iterator_descend (s : MalString) (offset length : Z) (it : MalStringIterator)
  : outcome (MalStringSegment * MalStringIterator) :=
  match s with
  | SDependent _ parent slice_offset => iterator_descend parent (offset + slice_offset) length it
  | SCons _ l r =>
      let left_length := mal_string_length l in
      if left_length <=? offset then iterator_descend r (offset - left_length) length it
      else
        let available := left_length - offset in
        if available <? length then
          if it_reverse it then
            it ← mal_string_iterator_push it (mkPart l offset available);
            iterator_descend r 0 (length - available) it
          else
            it ← mal_string_iterator_push it (mkPart r 0 (length - available));
            iterator_descend l offset available it
        else iterator_descend l offset length it
  | SFlat _ _ _ =>
      Ret (mal_string_leaf_segment s offset length,
           mkIterator (it_stack it) (it_capacity it) (it_reverse it)
             (Some (mkPart s offset length)))
  end.
Definition mal_string_iterator_next (it : MalStringIterator)
  : outcome (option (MalStringSegment * MalStringIterator)) :=
  match it_stack it with
  | [] => Ret None
  | part :: stack =>
      r ← iterator_descend (part_string part) (part_offset part) (part_length part)
            (mkIterator stack (it_capacity it) (it_reverse it) (it_current it));
      Ret (Some r)
  end.

(** * Copies *)

(** A Latin-1 lane widens unit by unit, a UTF-16 lane is copied. *)
Definition mal_string_copy_segment_to (segment : MalStringSegment) : list Z :=
  take (Z.to_nat (seg_length segment)) (seg_units segment).

Fixpoint copy_loop (fuel : nat) (it : MalStringIterator) : outcome (list Z) :=
  match fuel with
  | O => NoFuel
  | S fuel =>
      r ← mal_string_iterator_next it;
      match r with
      | None => Ret []
      | Some (segment, it) =>
          rest ← copy_loop fuel it;
          Ret (mal_string_copy_segment_to segment ++ rest)
      end
  end.
(** The units [mal_string_copy_range_to] writes to its destination. *)
Definition mal_string_copy_range_to (s : MalString) (offset length : Z) : outcome (list Z) :=
  r ← mal_string_try_get_segment s offset length;
  match r with
  | Some segment => Ret (mal_string_copy_segment_to segment)
  | None =>
      it ← mal_string_iterator_init s offset length;
      copy_loop (S (Z.to_nat length)) it
  end.

(** * Hash *)

Definition FNV_OFFSET : Z := 0xcbf29ce484222325.
Definition FNV_PRIME : Z := 0x100000001b3.
Definition fnv_prime_squared : Z := 0x366000002e329.

Definition hash_byte (hash b : Z) : Z := u64 (Z.lxor hash b * FNV_PRIME).
Definition hash_unit (hash unit : Z) : Z :=
  hash_byte (hash_byte hash (u8 unit)) (u8 (Z.shiftr unit 8)).
Definition hash_unit_latin1 (hash unit : Z) : Z := u64 (Z.lxor hash unit * fnv_prime_squared).

Definition mal_string_hash_code_units (code_units : list Z) : Z :=
  Z.land (fold_left hash_unit code_units FNV_OFFSET) MAL_STRING_HASH_MASK.

Definition mal_string_hash_segment (hash : Z) (segment : MalStringSegment) : Z :=
  fold_left (if seg_latin1 segment then hash_unit_latin1 else hash_unit)
    (take (Z.to_nat (seg_length segment)) (seg_units segment)) hash.

(** The right walk of the code is its loop; here both children recurse. *)
Fixpoint mal_string_hash_continue (hash : Z) (s : MalString) : Z :=
  match s with
  | SCons _ l r =>
      mal_string_hash_continue (mal_string_hash_continue hash l) r
  | SDependent i parent slice_offset =>
      if str_length i =? 0 then hash
      else mal_string_hash_segment hash
             (mal_string_leaf_segment parent slice_offset (str_length i))
  | SFlat i _ _ =>
      if str_length i =? 0 then hash
      else mal_string_hash_segment hash (mal_string_leaf_segment s 0 (str_length i))
  end.

(** The hash and the string with its cache filled. *)
Definition mal_string_hash_slow (s : MalString) : Z * MalString :=
  let i := str_info s in
  if str_hash_valid i then (str_hash i, s)
  else
    let hash :=
      match s with
      | SCons _ l r =>
          if str_hash_valid (str_info l)
          then mal_string_hash_continue (str_hash (str_info l)) r
          else mal_string_hash_continue FNV_OFFSET s
      | _ => mal_string_hash_continue FNV_OFFSET s
      end in
    let hash := Z.land hash MAL_STRING_HASH_MASK in
    (hash, set_info (mkStringInfo (str_addr i) (str_length i) hash true
                       (str_property_atom i) (str_latin1 i)) s).
Definition mal_string_hash (s : MalString) : Z * MalString :=
  if str_hash_valid (str_info s) then (str_hash (str_info s), s) else mal_string_hash_slow s.

(** * Comparison *)

(** The sign [memcmp] reports for two byte ranges of one length. *)
Fixpoint memcmp (a b : list Z) : Z :=
  match a, b with
  | x :: a, y :: b => if x <? y then -1 else if y <? x then 1 else memcmp a b
  | _, _ => 0
  end.
(** UTF-16 units in memory, on the little-endian targets. *)
Definition c16_bytes (units : list Z) : list Z :=
  concat (map (fun u => [u8 u; u8 (Z.shiftr u 8)]) units).

(** A unit-by-unit scan: the first differing pair decides. *)
Fixpoint compare_units (a b : list Z) : Z :=
  match a, b with
  | x :: a, y :: b => if x <? y then -1 else if y <? x then 1 else compare_units a b
  | _, _ => 0
  end.

(** Four units read as one 64-bit word. *)
Definition c16_word (a b c d : Z) : Z :=
  a + 2 ^ 16 * b + 2 ^ 32 * c + 2 ^ 48 * d.

Fixpoint mal_string_compare_code_units (a b : list Z) : outcome Z :=
  match a, b with
  | a0 :: a1 :: a2 :: a3 :: a', b0 :: b1 :: b2 :: b3 :: b' =>
      if negb (c16_word a0 a1 a2 a3 =? c16_word b0 b1 b2 b3) then
        match compare_units [a0; a1; a2; a3] [b0; b1; b2; b3] with
        | Z0 => Abort
        | r => Ret r
        end
      else mal_string_compare_code_units a' b'
  | _, _ => Ret (compare_units a b)
  end.

Definition mal_string_compare_segments (a : MalStringSegment) (left_offset : Z)
    (b : MalStringSegment) (right_offset length : Z) (equality_only : bool) : outcome Z :=
  let x := slice (seg_units a) left_offset length in
  let y := slice (seg_units b) right_offset length in
  if seg_latin1 a && seg_latin1 b then Ret (memcmp x y)
  else if negb (seg_latin1 a) && negb (seg_latin1 b) then
    if equality_only
    then Ret (Z.b2z (negb (memcmp (c16_bytes x) (c16_bytes y) =? 0)))
    else mal_string_compare_code_units x y
  else Ret (compare_units x y).

(** The segment loop of [mal_string_compare_prefix]. *)
Fixpoint compare_prefix_loop (fuel : nat) (length : Z) (equality_only : bool)
    (a : MalStringSegment) (left_offset : Z) (left_iterator : MalStringIterator)
    (b : MalStringSegment) (right_offset : Z) (right_iterator : MalStringIterator)
  : outcome Z :=
  match fuel with
  | O => NoFuel
  | S fuel =>
      if length <=? 0 then Ret 0
      else
        let take := seg_length a - left_offset in
        let take := if seg_length b - right_offset <? take
                    then seg_length b - right_offset else take in
        result ← mal_string_compare_segments a left_offset b right_offset take equality_only;
        if negb (result =? 0) then Ret result
        else
          let length := length - take in
          let left_offset := left_offset + take in
          let right_offset := right_offset + take in
          if length =? 0 then Ret result
          else
            '(a, left_offset, left_iterator) ←
              (if left_offset =? seg_length a then
                 r ← mal_string_iterator_next left_iterator;
                 match r with None => Abort | Some (a, it) => Ret (a, 0, it) end
               else Ret (a, left_offset, left_iterator));
            '(b, right_offset, right_iterator) ←
              (if right_offset =? seg_length b then
                 r ← mal_string_iterator_next right_iterator;
                 match r with None => Abort | Some (b, it) => Ret (b, 0, it) end
               else Ret (b, right_offset, right_iterator));
            compare_prefix_loop fuel length equality_only
              a left_offset left_iterator b right_offset right_iterator
  end.

Definition compare_prefix_slow (s t : MalString) (length : Z) (equality_only : bool)
  : outcome Z :=
  left_iterator ← mal_string_iterator_init s 0 length;
  right_iterator ← mal_string_iterator_init t 0 length;
  ra ← mal_string_iterator_next left_iterator;
  match ra with
  | None => Abort
  | Some (a, left_iterator) =>
      rb ← mal_string_iterator_next right_iterator;
      match rb with
      | None => Abort
      | Some (b, right_iterator) =>
          compare_prefix_loop (S (Z.to_nat length)) length equality_only
            a 0 left_iterator b 0 right_iterator
      end
  end.

Definition mal_string_compare_prefix (s t : MalString) (length : Z) (equality_only : bool)
  : outcome Z :=
  if length =? 0 then Ret 0
  else
    ra ← mal_string_try_get_segment s 0 length;
    match ra with
    | None => compare_prefix_slow s t length equality_only
    | Some a =>
        rb ← mal_string_try_get_segment t 0 length;
        match rb with
        | None => compare_prefix_slow s t length equality_only
        | Some b => mal_string_compare_segments a 0 b 0 length equality_only
        end
    end.

Fixpoint str_size (s : MalString) : nat :=
  match s with
  | SFlat _ _ _ => 1
  | SDependent _ p _ => S (str_size p)
  | SCons _ l r => S (str_size l + str_size r)
  end.

(** The bounded pair stack of [mal_string_compare_structural]; [Ret None] is the
    [false] return. Each turn replaces a pair by pairs of its children. *)
Fixpoint compare_structural_loop (fuel : nat) (stack : list (MalString * MalString))
    (equality_only : bool) : outcome (option Z) :=
  match fuel with
  | O => NoFuel
  | S fuel =>
      match stack with
      | [] => Ret (Some 0)
      | (a, b) :: stack =>
          let count := arr_len stack in
          if addr a =? addr b then compare_structural_loop fuel stack equality_only
          else if negb (mal_string_length a =? mal_string_length b) then Ret None
          else
            match a, b with
            | SCons _ al ar, SCons _ bl br =>
                if negb (mal_string_length al =? mal_string_length bl) then Ret None
                else if (addr al =? addr ar) && (addr bl =? addr br) then
                  if count =? MAL_STRING_STRUCTURAL_COMPARE_CAPACITY then Ret None
                  else compare_structural_loop fuel ((al, bl) :: stack) equality_only
                else if MAL_STRING_STRUCTURAL_COMPARE_CAPACITY - 2 <? count then Ret None
                else compare_structural_loop fuel ((al, bl) :: (ar, br) :: stack) equality_only
            | SCons _ _ _, _ | _, SCons _ _ _ => Ret None
            | _, _ =>
                result ← mal_string_compare_prefix a b (mal_string_length a) equality_only;
                if negb (result =? 0) then Ret (Some result)
                else compare_structural_loop fuel stack equality_only
            end
      end
  end.
Definition mal_string_compare_structural (s t : MalString) (equality_only : bool)
  : outcome (option Z) :=
  if negb (mal_string_length s =? mal_string_length t) || negb (is_cons s) || negb (is_cons t)
  then Ret None
  else compare_structural_loop (S (str_size s)) [(s, t)] equality_only.

(** [difference |= left[i] ^ right[i]] over the range. *)
Fixpoint xor_difference (difference : Z) (a b : list Z) : Z :=
  match a, b with
  | x :: a, y :: b => xor_difference (Z.lor difference (u16 (Z.lxor x y))) a b
  | _, _ => difference
  end.
Definition mal_string_segments_equal (a b : MalStringSegment) (right_offset length : Z) : bool :=
  let x := slice (seg_units a) 0 length in
  let y := slice (seg_units b) right_offset length in
  if eqb (seg_latin1 a) (seg_latin1 b) then
    if seg_latin1 a then memcmp x y =? 0
    else memcmp (c16_bytes x) (c16_bytes y) =? 0
  else xor_difference 0 x y =? 0.

Inductive MalStringRopeEquality : Set :=
| MAL_STRING_ROPE_DIFFERENT | MAL_STRING_ROPE_EQUAL | MAL_STRING_ROPE_TOO_DEEP.

(** One turn is a step of the inner descent, or a leaf and a pop. *)
Fixpoint rope_walk (fuel : nat) (node : MalString) (pending : list MalString) (offset : Z)
    (flat : MalStringSegment) : outcome MalStringRopeEquality :=
  match fuel with
  | O => NoFuel
  | S fuel =>
      match node with
      | SCons _ l r =>
          if arr_len pending =? MAL_STRING_STRUCTURAL_COMPARE_CAPACITY
          then Ret MAL_STRING_ROPE_TOO_DEEP
          else rope_walk fuel l (r :: pending) offset flat
      | _ =>
          let leaf :=
            match node with
            | SDependent i parent slice_offset =>
                mal_string_leaf_segment parent slice_offset (str_length i)
            | _ => mal_string_leaf_segment node 0 (mal_string_length node)
            end in
          if negb (mal_string_segments_equal leaf flat offset (mal_string_length node))
          then Ret MAL_STRING_ROPE_DIFFERENT
          else
            match pending with
            | [] => Ret MAL_STRING_ROPE_EQUAL
            | next :: pending =>
                rope_walk fuel next pending (offset + mal_string_length node) flat
            end
      end
  end.
Definition mal_string_rope_equals_segment (rope : MalString) (flat : MalStringSegment)
  : outcome MalStringRopeEquality :=
  rope_walk (S (str_size rope)) rope [] 0 flat.

Definition equals_ropes (s t : MalString) : outcome bool :=
  r ← mal_string_compare_structural s t true;
  match r with
  | Some result => Ret (result =? 0)
  | None =>
      result ← mal_string_compare_prefix s t (mal_string_length s) true;
      Ret (result =? 0)
  end.

Definition mal_string_equals_same_length (s t : MalString) : outcome bool :=
  if str_hash_valid (str_info s) && str_hash_valid (str_info t)
     && negb (str_hash (str_info s) =? str_hash (str_info t)) then Ret false
  else if mal_string_length s =? 0 then Ret true
  else if flat_value s && flat_value t then
    Ret (mal_string_segments_equal
           (mal_string_leaf_segment s 0 (mal_string_length s))
           (mal_string_leaf_segment t 0 (mal_string_length t)) 0 (mal_string_length s))
  else if flat_value s || flat_value t then
    let flat := mal_string_leaf_segment (if flat_value s then s else t) 0 (mal_string_length s) in
    equality ← mal_string_rope_equals_segment (if flat_value s then t else s) flat;
    match equality with
    | MAL_STRING_ROPE_EQUAL => Ret true
    | MAL_STRING_ROPE_DIFFERENT => Ret false
    | MAL_STRING_ROPE_TOO_DEEP => equals_ropes s t
    end
  else equals_ropes s t.

Definition mal_string_equals_constant_length (s t : MalString) (right_length : Z)
  : outcome bool :=
  if addr s =? addr t then Ret true
  else if negb (mal_string_length s =? right_length) then Ret false
  else if str_property_atom (str_info s) && str_property_atom (str_info t) then Ret false
  else mal_string_equals_same_length s t.
Definition mal_string_equals (s t : MalString) : outcome bool :=
  mal_string_equals_constant_length s t (mal_string_length t).

Definition mal_string_compare (s t : MalString) : outcome Z :=
  if addr s =? addr t then Ret 0
  else
    let min_length :=
      if mal_string_length s <? mal_string_length t
      then mal_string_length s else mal_string_length t in
    structural ← mal_string_compare_structural s t false;
    match structural with
    | Some result => Ret result
    | None =>
        result ← mal_string_compare_prefix s t min_length false;
        if negb (result =? 0) then Ret result
        else if mal_string_length s <? mal_string_length t then Ret (-1)
        else if mal_string_length t <? mal_string_length s then Ret 1
        else Ret 0
    end.
