(* ===== verification/HeapStringSpec.v ===== *)
(** What the strings of HeapString denote: the code-unit sequence of a cell
    graph, the well-formedness of the graph, and the proofs that traversal,
    copying, hashing, equality and ordering read that sequence whatever the
    representation. *)

From S2P Require Import Prelude CheckedSize HeapString.

(** * Slices *)

Section slices.
Implicit Types (l : list Z) (o n m k : Z).

Lemma slice_0_all l n : arr_len l <= n -> slice l 0 n = l.
Proof. unfold slice, arr_len. intros. rewrite drop_0, take_ge; [done|lia]. Qed.

Lemma slice_len l o n : 0 <= o -> 0 <= n -> o + n <= arr_len l -> arr_len (slice l o n) = n.
Proof.
  unfold slice, arr_len. intros. rewrite length_take, length_drop. lia.
Qed.

Lemma slice_slice l o n k m :
  0 <= o -> 0 <= k -> 0 <= m -> k + m <= n -> slice (slice l o n) k m = slice l (o + k) m.
Proof.
  unfold slice. intros. rewrite skipn_firstn_comm, take_take, drop_drop.
  f_equal; [lia|]. f_equal. lia.
Qed.

Lemma slice_take l n k m : 0 <= k -> 0 <= m -> k + m <= n ->
  slice (take (Z.to_nat n) l) k m = slice l k m.
Proof. intros. apply (slice_slice l 0 n k m); lia. Qed.

Lemma slice_app_l l l' o n : 0 <= o -> 0 <= n -> o + n <= arr_len l ->
  slice (l ++ l') o n = slice l o n.
Proof.
  unfold slice, arr_len. intros. rewrite drop_app_le, take_app_le; rewrite ?length_drop; lia || done.
Qed.

Lemma slice_app_r l l' o n : arr_len l <= o ->
  slice (l ++ l') o n = slice l' (o - arr_len l) n.
Proof.
  unfold slice, arr_len. intros. rewrite drop_app_ge by lia. do 2 f_equal. lia.
Qed.

Lemma slice_app_span l l' o n : 0 <= o <= arr_len l -> arr_len l - o <= n ->
  slice (l ++ l') o n = slice l o (arr_len l - o) ++ slice l' 0 (n - (arr_len l - o)).
Proof.
  unfold slice, arr_len. intros.
  rewrite drop_app_le, take_app by lia. rewrite length_drop, drop_0.
  f_equal.
  - rewrite !take_ge; rewrite ?length_drop; [done|lia|lia].
  - f_equal. lia.
Qed.

Lemma slice_split l o n k : 0 <= o -> 0 <= k <= n ->
  slice l o n = slice l o k ++ slice l (o + k) (n - k).
Proof.
  unfold slice. intros.
  replace (Z.to_nat n) with (Z.to_nat k + Z.to_nat (n - k))%nat by lia.
  replace (Z.to_nat (o + k)) with (Z.to_nat o + Z.to_nat k)%nat by lia.
  rewrite <- drop_drop. generalize (drop (Z.to_nat o) l). intros l'.
  rewrite <- (take_drop (Z.to_nat k) l') at 1.
  destruct (decide (Z.to_nat k <= length l')%nat).
  - rewrite take_app. rewrite length_take, Nat.min_l by lia.
    rewrite take_take. f_equal; f_equal; lia.
  - rewrite !(drop_ge l'), !take_nil, !app_nil_r by lia.
    rewrite !take_ge; rewrite ?length_take; [done|lia|lia].
Qed.

Lemma slice_Forall (P : Z -> Prop) l o n : Forall P l -> Forall P (slice l o n).
Proof. intros. by apply Forall_take, Forall_drop. Qed.

Lemma slice_drop l o n k : 0 <= o -> 0 <= k ->
  slice (drop (Z.to_nat o) l) k n = slice l (o + k) n.
Proof. unfold slice. intros. rewrite drop_drop. do 2 f_equal. lia. Qed.
End slices.

(** * Denotation and well-formedness *)

Fixpoint units (s : MalString) : list Z :=
  match s with
  | SFlat i _ u => take (Z.to_nat (str_length i)) u
  | SDependent i p o => slice (flat_payload p) o (str_length i)
  | SCons _ l r => units l ++ units r
  end.

(** The cached hash, the Latin-1 bit and the length of a header are true of the
    units the cell denotes. *)
Definition info_ok (i : MalStringInfo) (us : list Z) : Prop :=
  0 <= str_length i <= MAL_STRING_MAX_CODE_UNITS /\
  (str_hash_valid i = true -> str_hash i = mal_string_hash_code_units us) /\
  (str_latin1 i = true -> Forall (in_u 8) us).

Definition lane_ok (i : MalStringInfo) (st : MalStringStorage) (u : list Z) : Prop :=
  st <> MAL_STRING_STORAGE_DEPENDENT /\ st <> MAL_STRING_STORAGE_CONS /\
  str_length i <= arr_len u /\ Forall (in_u 16) u /\
  (str_latin1 i = true -> Forall (in_u 8) u).

Fixpoint wf_string (s : MalString) : Prop :=
  info_ok (str_info s) (units s) /\
  match s with
  | SFlat i st u => lane_ok i st u
  | SDependent i p o =>
      match p with
      | SFlat pi st u =>
          lane_ok pi st u /\ info_ok pi (units p) /\ 0 <= o /\ o + str_length i <= str_length pi
      | _ => False
      end
  | SCons i l r =>
      wf_string l /\ wf_string r /\
      str_length i = mal_string_length l + mal_string_length r
  end.

Lemma wf_info s : wf_string s -> info_ok (str_info s) (units s).
Proof. destruct s; simpl; tauto. Qed.

Lemma wf_length_range s : wf_string s -> 0 <= mal_string_length s <= MAL_STRING_MAX_CODE_UNITS.
Proof. intros H. apply wf_info in H as [? _]. done. Qed.

Lemma wf_length s : wf_string s -> arr_len (units s) = mal_string_length s.
Proof.
  induction s as [i st u|i p _ o|i l IHl r IHr]; intros [[Hr _] Hw]; simpl in *.
  - destruct Hw as (_ & _ & Hl & _). unfold mal_string_length. simpl.
    unfold arr_len in *. rewrite length_take. lia.
  - destruct p as [pi st u| |]; [|done|done]. destruct Hw as ((_ & _ & Hl & _) & _ & ? & ?).
    unfold mal_string_length. simpl. apply slice_len; lia.
  - destruct Hw as (Hl & Hr' & Hlen). rewrite arr_len_app, IHl, IHr by done. done.
Qed.

Lemma wf_units s : wf_string s -> Forall (in_u 16) (units s).
Proof.
  induction s as [i st u|i p _ o|i l IHl r IHr]; intros [_ Hw]; simpl in *.
  - apply Forall_take. apply Hw.
  - destruct p as [pi st u| |]; [|done|done]. apply slice_Forall. apply Hw.
  - apply Forall_app. split; [apply IHl|apply IHr]; apply Hw.
Qed.

(** A segment that denotes [us]: enough units behind its pointer, in range of
    its encoding. *)
Record seg_ok (seg : MalStringSegment) (us : list Z) : Prop := {
  so_length : seg_length seg = arr_len us;
  so_units : slice (seg_units seg) 0 (seg_length seg) = us;
  so_range : Forall (in_u 16) us;
  so_latin1 : seg_latin1 seg = true -> Forall (in_u 8) us;
}.

Lemma leaf_segment_ok i st u offset length :
  lane_ok i st u -> 0 <= offset -> 0 <= length -> offset + length <= str_length i ->
  seg_ok (mal_string_leaf_segment (SFlat i st u) offset length) (slice u offset length).
Proof.
  intros (_ & _ & Hl & Hu & H1) Ho Hn Hb. split; simpl.
  - rewrite slice_len; lia.
  - rewrite slice_drop by lia. f_equal. lia.
  - by apply slice_Forall.
  - intros. apply slice_Forall. auto.
Qed.

(** The segment of a leaf of the graph: a flat cell, or a slice of one. *)
Definition leaf_of (s : MalString) (offset length : Z) : MalStringSegment :=
  match s with
  | SDependent _ p o => mal_string_leaf_segment p (offset + o) length
  | _ => mal_string_leaf_segment s offset length
  end.

Lemma leaf_of_ok s offset length :
  wf_string s -> is_cons s = false ->
  0 <= offset -> 0 <= length -> offset + length <= mal_string_length s ->
  seg_ok (leaf_of s offset length) (slice (units s) offset length).
Proof.
  intros Hw Hc Ho Hn Hb. destruct s as [i st u|i p o|]; [| |done];
    destruct Hw as [_ Hw]; unfold mal_string_length in Hb; simpl in *.
  - rewrite slice_take by lia. by apply leaf_segment_ok.
  - destruct p as [pi pst u| |]; [|done|done]. destruct Hw as (Hlane & Hpi & Ho' & Hob).
    simpl. rewrite slice_slice by lia. rewrite (Z.add_comm o).
    apply leaf_segment_ok; [done|lia|lia|lia].
Qed.

(** * Reading *)

Lemma wf_cons i l r :
  wf_string (SCons i l r) ->
  wf_string l /\ wf_string r /\
  mal_string_length (SCons i l r) = mal_string_length l + mal_string_length r.
Proof. intros [_ H]. exact H. Qed.

(** A range in one leaf is found as such, and a range found is the right one. *)
Lemma segment_descend_ok s : forall offset length seg,
  wf_string s -> 0 <= offset -> 0 < length -> offset + length <= mal_string_length s ->
  segment_descend s offset length = Some seg ->
  seg_ok seg (slice (units s) offset length).
Proof.
  induction s as [i st u|i p IHp o|i l IHl r IHr]; intros offset length seg Hw Ho Hn Hb Hs.
  - injection Hs as <-. by apply (leaf_of_ok (SFlat i st u)); try lia.
  - pose proof (leaf_of_ok (SDependent i p o) offset length Hw eq_refl) as Hleaf.
    destruct Hw as [_ Hw]. destruct p; [|done|done]. injection Hs as <-.
    apply Hleaf; lia.
  - apply wf_cons in Hw as (Hl & Hr & Hlen).
    pose proof (wf_length l Hl). pose proof (wf_length r Hr). simpl in Hs |- *.
    destruct (Z.leb_spec (mal_string_length l) offset).
    + rewrite slice_app_r by lia. replace (arr_len (units l)) with (mal_string_length l).
      eapply IHr; try done; lia.
    + destruct (Z.leb_spec length (mal_string_length l - offset)); [|done].
      rewrite slice_app_l by lia. eapply IHl; try done; lia.
Qed.

Lemma try_get_segment_ok s offset length :
  wf_string s -> 0 <= offset -> 0 <= length -> offset + length <= mal_string_length s ->
  exists r, mal_string_try_get_segment s offset length = Ret r /\
    match r with
    | Some seg => seg_ok seg (slice (units s) offset length)
    | None => 0 < length
    end.
Proof.
  intros Hw Ho Hn Hb. pose proof (wf_length_range s Hw) as Hr.
  unfold mal_string_try_get_segment, MAL_STRING_MAX_CODE_UNITS, INT32_MAX in *.
  rewrite checked_size_add_spec by (unfold in_u; lia).
  destruct (Z.leb_spec (offset + length) (mal_string_length s)); [|lia].
  destruct (Z.eqb_spec length 0) as [->|].
  - eexists. split; [done|]. unfold slice. simpl. split; simpl; done || constructor.
  - eexists. split; [done|].
    destruct (segment_descend s offset length) eqn:Hs; [|lia].
    eapply segment_descend_ok; try done; lia.
Qed.

Lemma slice_one l i : 0 <= i < arr_len l -> slice l i 1 = [arr_get l i].
Proof.
  intros Hi. unfold slice. change (Z.to_nat 1) with 1%nat.
  rewrite (drop_S l (arr_get l i)); [done|by apply arr_get_lookup].
Qed.

Lemma arr_get_slice l o n k :
  0 <= o -> 0 <= k < n -> arr_get (slice l o n) k = arr_get l (o + k).
Proof.
  intros. unfold arr_get, slice.
  rewrite !list_lookup_total_alt, lookup_take_lt, lookup_drop by lia.
  do 2 f_equal. lia.
Qed.

Lemma arr_get_app_r (l l' : list Z) i :
  arr_len l <= i -> arr_get (l ++ l') i = arr_get l' (i - arr_len l).
Proof.
  unfold arr_get, arr_len. intros.
  rewrite !list_lookup_total_alt, lookup_app_r by lia. do 2 f_equal. lia.
Qed.

(** [mal_string_code_unit_at] reads the unit of the denoted sequence. *)
Lemma code_unit_at_ok s : forall index,
  wf_string s -> 0 <= index < mal_string_length s ->
  mal_string_code_unit_at s index = arr_get (units s) index.
Proof.
  induction s as [i st u|i p IHp o|i l IHl r IHr]; intros index Hw Hi.
  - simpl. unfold mal_string_flat_code_unit_at. simpl.
    symmetry. apply (arr_get_slice u 0 (str_length i)); [lia|exact Hi].
  - destruct Hw as [_ Hw]. destruct p; [|done|done]. simpl.
    unfold mal_string_flat_code_unit_at. simpl.
    unfold mal_string_length in Hi. simpl in Hi.
    rewrite arr_get_slice by lia. f_equal. lia.
  - apply wf_cons in Hw as (Hl & Hr & Hlen).
    pose proof (wf_length l Hl) as El. simpl.
    destruct (Z.ltb_spec index (mal_string_length l)).
    + rewrite IHl, arr_get_app_l by (done || lia). done.
    + rewrite IHr by (done || lia). rewrite arr_get_app_r, El by lia. done.
Qed.

(** The leaf [mal_string_get_leaf_range] finds holds the rest of the string from
    the offset, up to the leaf's end. *)
Lemma leaf_range_descend_ok s : forall offset available,
  wf_string s -> 0 <= offset < mal_string_length s ->
  0 < available -> offset + available <= mal_string_length s ->
  let '(leaf, o, n) := leaf_range_descend s offset available in
  is_cons leaf = false /\ 0 < n <= available /\
  seg_ok (mal_string_leaf_segment leaf o n) (slice (units s) offset n).
Proof.
  induction s as [i st u|i p IHp o|i l IHl r IHr]; intros offset available Hw Ho Ha Hb.
  - simpl. split; [done|]. split; [lia|]. by apply (leaf_of_ok (SFlat i st u)); try lia.
  - pose proof (leaf_of_ok (SDependent i p o) offset available Hw eq_refl) as Hleaf.
    destruct Hw as [_ Hw]. destruct p; [|done|done]. simpl.
    split; [done|]. split; [lia|]. apply Hleaf; lia.
  - apply wf_cons in Hw as (Hl & Hr & Hlen).
    pose proof (wf_length l Hl) as El. pose proof (wf_length r Hr). cbn [leaf_range_descend].
    destruct (Z.leb_spec (mal_string_length l) offset).
    + specialize (IHr (offset - mal_string_length l) available Hr).
      destruct (leaf_range_descend r _ _) as [[leaf o] n].
      destruct IHr as (? & ? & Hs); try lia. split; [done|]. split; [done|].
      simpl. rewrite slice_app_r, El by lia. done.
    + specialize (IHl offset (if mal_string_length l - offset <? available
                              then mal_string_length l - offset else available) Hl).
      destruct (leaf_range_descend l _ _) as [[leaf o] n].
      destruct (Z.ltb_spec (mal_string_length l - offset) available);
        destruct IHl as (? & ? & Hs); try lia; (split; [done|]; split; [lia|];
        simpl; rewrite slice_app_l by lia; done).
Qed.

(** * Iterators *)

Definition part_ok (p : MalStringIteratorPart) : Prop :=
  wf_string (part_string p) /\ 0 <= part_offset p /\ 0 < part_length p /\
  part_offset p + part_length p <= mal_string_length (part_string p).
Definition part_units (p : MalStringIteratorPart) : list Z :=
  slice (units (part_string p)) (part_offset p) (part_length p).
Fixpoint parts_total (l : list MalStringIteratorPart) : Z :=
  match l with [] => 0 | p :: l => part_length p + parts_total l end.

Record it_ok (it : MalStringIterator) : Prop := {
  io_parts : Forall part_ok (it_stack it);
  io_capacity_range : 16 <= it_capacity it <= MAL_STRING_MAX_CODE_UNITS;
  io_count : arr_len (it_stack it) <= it_capacity it;
}.

(** The text an iterator still has to deliver: the stack from its top for a
    forward walk, from its bottom for a reverse one. *)
Definition pending (it : MalStringIterator) : list Z :=
  concat (map part_units (if it_reverse it then reverse (it_stack it) else it_stack it)).
(** A delivered piece put back in its place. *)
Definition glue (it : MalStringIterator) (us rest : list Z) : list Z :=
  if it_reverse it then rest ++ us else us ++ rest.

Lemma parts_count l : Forall part_ok l -> arr_len l <= parts_total l.
Proof.
  unfold arr_len. induction 1 as [|p l (_ & _ & Hp & _) _ IH]; simpl; lia.
Qed.

Lemma pending_push it p cap cur :
  pending (mkIterator (p :: it_stack it) cap (it_reverse it) cur)
  = glue it (part_units p) (pending it).
Proof.
  unfold pending, glue. simpl. destruct (it_reverse it); [|done].
  rewrite reverse_cons, map_app, concat_app. simpl. by rewrite app_nil_r.
Qed.

Lemma iterator_push_ok it p :
  it_ok it -> part_ok p -> parts_total (it_stack it) + part_length p <= MAL_STRING_MAX_CODE_UNITS ->
  exists it', mal_string_iterator_push it p = Ret it' /\ it_ok it' /\
    it_stack it' = p :: it_stack it /\ it_reverse it' = it_reverse it /\
    pending it' = glue it (part_units p) (pending it).
Proof.
  intros [Hparts Hcap Hcount] Hp Ht. pose proof (parts_count _ Hparts) as Hc.
  destruct Hp as (Hw & Ho & Hn & Hb) eqn:E. clear E.
  pose proof (wf_length_range _ Hw). pose proof (arr_len_nonneg (it_stack it)).
  unfold mal_string_iterator_push, MAL_STRING_MAX_CODE_UNITS, INT32_MAX in *.
  destruct (Z.eqb_spec (part_length p) 0); [lia|].
  assert (part_ok p) by (split_and!; done).
  destruct (Z.eqb_spec (arr_len (it_stack it)) (it_capacity it)) as [He|He].
  - destruct (checked_size_growth_spec (it_capacity it) (arr_len (it_stack it) + 1) 16 (2 ^ 31 - 1))
      as (r & -> & Hr); [unfold in_u; lia..|].
    destruct (Z.eqb_spec (it_capacity it) 0); [lia|].
    destruct r as [c|]; simpl in Hr.
    + destruct Hr as (_ & Hr1 & Hr2 & _). eexists. split; [done|].
      split; [|by rewrite pending_push]. split; simpl.
      * by constructor.
      * unfold MAL_STRING_MAX_CODE_UNITS, INT32_MAX. lia.
      * unfold arr_len in *. simpl. lia.
    + destruct (Z.eqb_spec (it_capacity it) 0); [lia|].
      destruct (Z.leb_spec (arr_len (it_stack it) + 1) (2 ^ 31 - 1)),
        (Z.leb_spec (it_capacity it) (2 ^ 31 - 1)); simpl in Hr; try lia.
  - eexists. split; [done|]. split; [|by rewrite pending_push]. split; simpl.
    + by constructor.
    + unfold MAL_STRING_MAX_CODE_UNITS, INT32_MAX. lia.
    + unfold arr_len in *. simpl. lia.
Qed.

Lemma glue_glue it a b c :
  glue it a (glue it b c) = glue it (if it_reverse it then b ++ a else a ++ b) c.
Proof. unfold glue. destruct (it_reverse it); by rewrite <- ?app_assoc. Qed.

(** One descent delivers a nonempty segment at the front (the back, in reverse)
    of the range and leaves the rest pending. *)
Definition delivers (it : MalStringIterator) (text : list Z) (total : Z)
    (r : MalStringSegment * MalStringIterator) : Prop :=
  let '(seg, it') := r in
  exists us, seg_ok seg us /\ 0 < seg_length seg /\ it_ok it' /\
    it_reverse it' = it_reverse it /\ text = glue it us (pending it') /\
    parts_total (it_stack it') + seg_length seg = total.

Lemma delivers_set it it1 text total r :
  it_reverse it1 = it_reverse it -> delivers it1 text total r -> delivers it text total r.
Proof.
  destruct r as [seg it']. intros Hr (us & ? & ? & ? & ? & Ht & ?). exists us.
  unfold glue in *. rewrite Hr in *. done.
Qed.

Lemma iterator_descend_ok s : forall offset length it,
  wf_string s -> it_ok it -> 0 <= offset -> 0 < length -> offset + length <= mal_string_length s ->
  parts_total (it_stack it) + length <= MAL_STRING_MAX_CODE_UNITS ->
  exists r, iterator_descend s offset length it = Ret r /\
    delivers it (glue it (slice (units s) offset length) (pending it))
      (parts_total (it_stack it) + length) r.
Proof.
  assert (forall s o u n it, it_ok it -> seg_ok (mal_string_leaf_segment s o n) u -> 0 < n ->
    delivers it (glue it u (pending it)) (parts_total (it_stack it) + n)
      (mal_string_leaf_segment s o n,
       mkIterator (it_stack it) (it_capacity it) (it_reverse it) (Some (mkPart s o n)))) as Hleafd.
  { intros s' o u n it [? ? ?] Hs Hn. exists u. by split_and!. }
  induction s as [i st u|i p _ o|i l IHl r IHr]; intros offset length it Hw Hit Ho Hn Hb Ht.
  - eexists. split; [done|]. apply Hleafd; [done| |done].
    by apply (leaf_of_ok (SFlat i st u)); try lia.
  - pose proof (leaf_of_ok (SDependent i p o) offset length Hw eq_refl) as Hleaf.
    destruct Hw as [_ Hw]. destruct p; [|done|done]. eexists. split; [done|].
    apply Hleafd; [done| |done]. apply Hleaf; lia.
  - apply wf_cons in Hw as (Hl & Hr & Hlen).
    pose proof (wf_length l Hl) as El. pose proof (wf_length r Hr). simpl.
    destruct (Z.leb_spec (mal_string_length l) offset).
    { rewrite slice_app_r, El by lia. apply IHr; try done; lia. }
    destruct (Z.ltb_spec (mal_string_length l - offset) length).
    2: { rewrite slice_app_l by lia. apply IHl; try done; lia. }
    rewrite slice_app_span, El by lia.
    destruct (it_reverse it) eqn:Hrev.
    + destruct (iterator_push_ok it (mkPart l offset (mal_string_length l - offset)))
        as (it1 & -> & Hit1 & Hst & Hrv & Hp); [done|by split_and!; simpl; try lia|simpl; lia|].
      destruct (IHr 0 (length - (mal_string_length l - offset)) it1) as (x & Hx & Hd);
        try done; try lia; [rewrite Hst; simpl; lia|].
      exists x. split; [exact Hx|]. apply (delivers_set it) in Hd; [|done].
      rewrite Hst in Hd. simpl in Hd.
      replace (parts_total (it_stack it) + length) with
        (mal_string_length l - offset + parts_total (it_stack it)
         + (length - (mal_string_length l - offset))) by lia.
      unfold glue in Hd, Hp |- *. rewrite Hrv in Hd. rewrite Hrev in Hd, Hp |- *.
      rewrite Hp in Hd.
      by rewrite <- app_assoc in Hd.
    + destruct (iterator_push_ok it (mkPart r 0 (length - (mal_string_length l - offset))))
        as (it1 & -> & Hit1 & Hst & Hrv & Hp); [done|by split_and!; simpl; try lia|simpl; lia|].
      destruct (IHl offset (mal_string_length l - offset) it1) as (x & Hx & Hd);
        try done; try lia; [rewrite Hst; simpl; lia|].
      exists x. split; [exact Hx|]. apply (delivers_set it) in Hd; [|done].
      rewrite Hst in Hd. simpl in Hd.
      replace (parts_total (it_stack it) + length) with
        (length - (mal_string_length l - offset) + parts_total (it_stack it)
         + (mal_string_length l - offset)) by lia.
      unfold glue in Hd, Hp |- *. rewrite Hrv in Hd. rewrite Hrev in Hd, Hp |- *.
      rewrite Hp in Hd.
      by rewrite app_assoc in Hd.
Qed.

Lemma iterator_next_ok it :
  it_ok it -> parts_total (it_stack it) <= MAL_STRING_MAX_CODE_UNITS ->
  match it_stack it with
  | [] => mal_string_iterator_next it = Ret None
  | _ :: _ => exists r, mal_string_iterator_next it = Ret (Some r) /\
                delivers it (pending it) (parts_total (it_stack it)) r
  end.
Proof.
  intros [Hparts Hcap Hcount] Ht. unfold mal_string_iterator_next.
  destruct it as [[|[s o n] stack] cap rev cur]; [done|]. simpl in *.
  apply Forall_cons in Hparts as [(Hw & Ho & Hn & Hb) Hstack]. simpl in *.
  set (it0 := mkIterator stack cap rev cur).
  assert (it_ok it0).
  { split; simpl; [done|done|]. unfold arr_len in *. simpl in Hcount. lia. }
  destruct (iterator_descend_ok s o n it0) as (r & -> & Hd); try done; [simpl; lia|].
  exists r. split; [done|]. apply (delivers_set _ it0); [done|].
  pose proof (pending_push it0 (mkPart s o n) cap cur) as Hp.
  unfold part_units in Hp. simpl in Hp, Hd |- *. rewrite Z.add_comm. by rewrite Hp.
Qed.

Lemma iterator_init_ok s offset length :
  wf_string s -> 0 <= offset -> 0 <= length -> offset + length <= mal_string_length s ->
  exists it, mal_string_iterator_init s offset length = Ret it /\ it_ok it /\
    it_reverse it = false /\ pending it = slice (units s) offset length /\
    parts_total (it_stack it) = length /\ parts_total (it_stack it) <= MAL_STRING_MAX_CODE_UNITS.
Proof.
  intros Hw Ho Hn Hb. pose proof (wf_length_range s Hw) as Hr.
  unfold mal_string_iterator_init.
  rewrite checked_size_add_spec
    by (unfold in_u, MAL_STRING_MAX_CODE_UNITS, INT32_MAX in *; lia).
  destruct (Z.leb_spec (offset + length) (mal_string_length s)); [|lia].
  assert (it_ok (mkIterator [] 16 false None)) as Hit0.
  { split; simpl; [constructor| |]; unfold arr_len, MAL_STRING_MAX_CODE_UNITS, INT32_MAX; simpl; lia. }
  destruct (decide (length = 0)) as [->|].
  - eexists. split; [done|]. split; [done|]. unfold slice, pending. simpl. split_and!; done || lia.
  - destruct (iterator_push_ok _ (mkPart s offset length) Hit0)
      as (it & -> & Hok & Hst & Hrv & Hp); [by split_and!; simpl; try lia|simpl; lia|].
    exists it. split; [done|]. split; [done|]. split; [done|].
    rewrite Hst, Hp. unfold glue, pending. simpl. rewrite app_nil_r. split_and!; done || lia.
Qed.

Lemma copy_loop_ok fuel : forall it,
  it_ok it -> it_reverse it = false -> parts_total (it_stack it) <= MAL_STRING_MAX_CODE_UNITS ->
  (Z.to_nat (parts_total (it_stack it)) < fuel)%nat ->
  copy_loop fuel it = Ret (pending it).
Proof.
  induction fuel as [|fuel IH]; intros it Hit Hr Ht Hf; [lia|]. simpl.
  pose proof (iterator_next_ok it Hit Ht) as Hn.
  destruct (it_stack it) as [|p stack] eqn:Hs.
  - rewrite Hn. unfold pending. by rewrite Hr, Hs.
  - destruct Hn as ([seg it'] & -> & us & Hseg & Hpos & Hit' & Hr' & Hp & Htot).
    pose proof (parts_count _ (io_parts _ Hit')) as Hc'.
    pose proof (arr_len_nonneg (it_stack it')). simpl.
    rewrite IH by (done || congruence || lia). simpl. f_equal.
    rewrite Hp. unfold glue. rewrite Hr. f_equal. apply (so_units _ _ Hseg).
Qed.

(** The copy of a range is the range of the denoted units. *)
Lemma copy_range_ok s offset length :
  wf_string s -> 0 <= offset -> 0 <= length -> offset + length <= mal_string_length s ->
  mal_string_copy_range_to s offset length = Ret (slice (units s) offset length).
Proof.
  intros Hw Ho Hn Hb. unfold mal_string_copy_range_to.
  destruct (try_get_segment_ok s offset length) as ([seg|] & -> & Hseg); try done; simpl.
  - f_equal. apply (so_units _ _ Hseg).
  - destruct (iterator_init_ok s offset length) as (it & -> & Hit & Hr & <- & Htot & Hmax); try done.
    exact (copy_loop_ok (S (Z.to_nat length)) it Hit Hr Hmax ltac:(lia)).
Qed.

(** * Hashing *)

Lemma lxor_mod_low a b n : 0 <= n -> 0 <= b < 2 ^ n ->
  Z.lxor (a mod 2 ^ n) b = Z.lxor a b mod 2 ^ n.
Proof.
  intros Hn Hb. apply Z.bits_inj'. intros i Hi.
  destruct (Z.ltb_spec i n).
  - by rewrite Z.lxor_spec, !Z.mod_pow2_bits_low, Z.lxor_spec by lia.
  - rewrite Z.lxor_spec, !Z.mod_pow2_bits_high by lia.
    rewrite <- (Z.mod_small b (2 ^ n)), Z.mod_pow2_bits_high by lia. done.
Qed.

Lemma mod_pow_mod a n m : 0 <= n <= m -> (a mod 2 ^ m) mod 2 ^ n = a mod 2 ^ n.
Proof.
  intros. apply Z.mod_mod_divide.
  exists (2 ^ (m - n)). rewrite <- Z.pow_add_r by lia. f_equal. lia.
Qed.

(** A hash step of 64-bit FNV is a step modulo 2^57: the cached 57 bits are
    enough to go on. *)
Lemma hash_byte_mod h b :
  0 <= b < 2 ^ 8 -> hash_byte (h mod 2 ^ 57) b mod 2 ^ 57 = hash_byte h b mod 2 ^ 57.
Proof.
  intros Hb. unfold hash_byte, u64, wrap. rewrite !mod_pow_mod by lia.
  rewrite lxor_mod_low by lia. by rewrite Zmult_mod_idemp_l.
Qed.

Lemma hash_unit_mod h u : hash_unit (h mod 2 ^ 57) u mod 2 ^ 57 = hash_unit h u mod 2 ^ 57.
Proof.
  unfold hash_unit.
  assert (forall z, 0 <= u8 z < 2 ^ 8) as Hu by (intros; apply wrap_range; lia).
  rewrite <- hash_byte_mod, (hash_byte_mod h), hash_byte_mod by apply Hu. done.
Qed.

Lemma hash_fold_mod us : forall h h',
  h mod 2 ^ 57 = h' mod 2 ^ 57 ->
  fold_left hash_unit us h mod 2 ^ 57 = fold_left hash_unit us h' mod 2 ^ 57.
Proof.
  induction us as [|u us IH]; intros h h' He; simpl; [done|].
  apply IH. by rewrite <- (hash_unit_mod h), He, hash_unit_mod.
Qed.

(** The Latin-1 step fuses the two prime multiplications. *)
Lemma hash_unit_latin1_ok h u : in_u 8 u -> hash_unit_latin1 h u = hash_unit h u.
Proof.
  unfold in_u. intros Hu. unfold hash_unit_latin1, hash_unit, hash_byte.
  assert (u8 u = u) as -> by (apply wrap_small; exact Hu).
  assert (Z.shiftr u 8 = 0) as -> by (rewrite Z.shiftr_div_pow2, Z.div_small; lia).
  change (u8 0) with 0. rewrite Z.lxor_0_r. unfold u64, wrap.
  rewrite Zmult_mod_idemp_l. change fnv_prime_squared with (FNV_PRIME * FNV_PRIME mod 2 ^ 64).
  rewrite Zmult_mod_idemp_r. f_equal. ring.
Qed.

Lemma hash_fold_latin1 us : forall h,
  Forall (in_u 8) us -> fold_left hash_unit_latin1 us h = fold_left hash_unit us h.
Proof.
  induction us as [|u us IH]; intros h Hu; simpl; [done|].
  apply Forall_cons in Hu as [Hu Hus]. by rewrite hash_unit_latin1_ok, IH.
Qed.

Lemma hash_segment_ok h seg us :
  seg_ok seg us -> mal_string_hash_segment h seg = fold_left hash_unit us h.
Proof.
  intros Hs. unfold mal_string_hash_segment.
  pose proof (so_units _ _ Hs) as Hu. unfold slice in Hu. rewrite drop_0 in Hu. rewrite Hu.
  destruct (seg_latin1 seg) eqn:E; [|done]. apply hash_fold_latin1. by apply (so_latin1 _ _ Hs).
Qed.

Lemma hash_leaf s h :
  wf_string s -> is_cons s = false ->
  mal_string_hash_segment h (leaf_of s 0 (mal_string_length s)) = fold_left hash_unit (units s) h.
Proof.
  intros Hw Hc. pose proof (wf_length_range s Hw). pose proof (wf_length s Hw).
  rewrite (hash_segment_ok _ _ (slice (units s) 0 (mal_string_length s)))
    by (apply leaf_of_ok; try done; lia).
  rewrite slice_0_all by lia. done.
Qed.

Lemma hash_continue_ok s : forall h,
  wf_string s -> mal_string_hash_continue h s = fold_left hash_unit (units s) h.
Proof.
  induction s as [i st u|i p _ o|i l IHl r IHr]; intros h Hw.
  - pose proof (hash_leaf _ h Hw eq_refl) as Hh. simpl in *.
    destruct (Z.eqb_spec (str_length i) 0) as [->|]; [done|exact Hh].
  - pose proof (hash_leaf _ h Hw eq_refl) as Hh. simpl in *.
    destruct (Z.eqb_spec (str_length i) 0) as [E|]; [|exact Hh].
    rewrite E. done.
  - apply wf_cons in Hw as (Hl & Hr & _). simpl.
    by rewrite IHl, IHr, fold_left_app by done.
Qed.

Lemma hash_mask h : Z.land h MAL_STRING_HASH_MASK = h mod 2 ^ 57.
Proof. apply (land_mask 57). lia. Qed.

Lemma hash_slow_value s :
  wf_string s -> fst (mal_string_hash_slow s) = mal_string_hash_code_units (units s).
Proof.
  intros Hw. pose proof (wf_info s Hw) as (_ & Hv & _). unfold mal_string_hash_slow.
  destruct (str_hash_valid (str_info s)) eqn:E; [by apply Hv|]. simpl.
  unfold mal_string_hash_code_units. rewrite !hash_mask.
  destruct s as [i st u|i p o|i l r];
    try (f_equal; by apply hash_continue_ok).
  destruct (str_hash_valid (str_info l)) eqn:El; [|f_equal; by apply hash_continue_ok].
  apply wf_cons in Hw as (Hl & Hr & _). rewrite hash_continue_ok by done. simpl.
  rewrite fold_left_app. apply hash_fold_mod.
  pose proof (wf_info l Hl) as (_ & Hvl & _). rewrite Hvl by done.
  unfold mal_string_hash_code_units. by rewrite hash_mask, Z.mod_mod by lia.
Qed.

Lemma hash_range us : in_u 57 (mal_string_hash_code_units us).
Proof. unfold mal_string_hash_code_units. rewrite hash_mask. apply Z.mod_pos_bound. lia. Qed.

Lemma set_info_units i s :
  str_length i = mal_string_length s -> units (set_info i s) = units s.
Proof. destruct s; unfold mal_string_length; simpl; intros H; rewrite ?H; done. Qed.

(** Filling the cache changes neither the text nor the pointer, and keeps the
    cell well formed. *)
Lemma hash_slow_cache s :
  wf_string s ->
  let s' := snd (mal_string_hash_slow s) in
  wf_string s' /\ units s' = units s /\ addr s' = addr s /\ str_hash_valid (str_info s') = true.
Proof.
  intros Hw. pose proof (hash_slow_value s Hw) as Hh. revert Hh.
  unfold mal_string_hash_slow.
  destruct (str_hash_valid (str_info s)) eqn:E; simpl; [done|].
  match goal with |- context [Z.land ?h MAL_STRING_HASH_MASK] => set (hash := h) end.
  intros Hh. set (i := mkStringInfo _ _ _ _ _ _).
  assert (units (set_info i s) = units s) as Hu by (apply set_info_units; done).
  pose proof (wf_info s Hw) as (Hr & _ & Hl).
  assert (info_ok i (units s)) as Hi by (split; [done|split; [done|exact Hl]]).
  split; [|split; [done|by destruct s]].
  destruct s; simpl in *; (split; [by rewrite ?Hu|]); apply Hw.
Qed.

(** * Order of unit sequences *)

(** The order of JavaScript strings: the first differing unit decides, then the
    length. *)
Fixpoint lex (a b : list Z) : Z :=
  match a, b with
  | [], [] => 0
  | [], _ :: _ => -1
  | _ :: _, [] => 1
  | x :: a, y :: b => if x <? y then -1 else if y <? x then 1 else lex a b
  end.

Lemma lex_zero a : forall b, lex a b = 0 <-> a = b.
Proof.
  induction a as [|x a IH]; intros [|y b]; simpl; try done.
  destruct (Z.ltb_spec x y); [split; [done|intros [= -> ->]; lia]|].
  destruct (Z.ltb_spec y x); [split; [done|intros [= -> ->]; lia]|].
  rewrite IH. split; [intros ->; f_equal; lia|by intros [= -> ->]].
Qed.

Lemma compare_units_lex a : forall b, arr_len a = arr_len b -> compare_units a b = lex a b.
Proof.
  unfold arr_len. induction a as [|x a IH]; intros [|y b] Hl; simpl in *; try done; try lia.
  rewrite IH by lia. done.
Qed.

Lemma memcmp_lex a b : arr_len a = arr_len b -> memcmp a b = lex a b.
Proof.
  intros. by rewrite <- compare_units_lex.
Qed.

Lemma lex_app a : forall b a' b', arr_len a = arr_len b ->
  lex (a ++ a') (b ++ b') = if lex a b =? 0 then lex a' b' else lex a b.
Proof.
  unfold arr_len. induction a as [|x a IH]; intros [|y b] a' b' Hl; simpl in *; try done; try lia.
  destruct (x <? y); [done|]. destruct (y <? x); [done|]. apply IH. lia.
Qed.

(** When one sequence runs out, the shorter one is smaller. *)
Lemma lex_prefix a : forall b,
  lex a b =
    let n := Z.min (arr_len a) (arr_len b) in
    let r := lex (slice a 0 n) (slice b 0 n) in
    if negb (r =? 0) then r
    else if arr_len a <? arr_len b then -1
    else if arr_len b <? arr_len a then 1 else 0.
Proof.
  unfold slice, arr_len. induction a as [|x a IH]; intros [|y b]; cbn [lex length]; try done.
  replace (Z.to_nat (Z.min (Z.of_nat (S (length a))) (Z.of_nat (S (length b)))))
    with (S (Z.to_nat (Z.min (Z.of_nat (length a)) (Z.of_nat (length b))))) by lia.
  change (Z.to_nat 0) with 0%nat in *. rewrite !drop_0. cbn [take lex].
  destruct (x <? y); [done|]. destruct (y <? x); [done|].
  rewrite IH. rewrite !drop_0. cbv zeta. destruct (negb _); [done|].
  destruct (Z.ltb_spec (Z.of_nat (length a)) (Z.of_nat (length b))),
    (Z.ltb_spec (Z.of_nat (length b)) (Z.of_nat (length a))),
    (Z.ltb_spec (Z.of_nat (S (length a))) (Z.of_nat (S (length b)))),
    (Z.ltb_spec (Z.of_nat (S (length b))) (Z.of_nat (S (length a)))); done || lia.
Qed.

Lemma c16_bytes_inj a : forall b,
  Forall (in_u 16) a -> Forall (in_u 16) b -> c16_bytes a = c16_bytes b -> a = b.
Proof.
  unfold c16_bytes. induction a as [|x a IH]; intros [|y b] Ha Hb; simpl; try done.
  apply Forall_cons in Ha as [Hx Ha]. apply Forall_cons in Hb as [Hy Hb].
  intros [= E1 E2 E3]. f_equal; [|by apply IH].
  unfold in_u, u8, wrap in *. rewrite !Z.shiftr_div_pow2 in E2 by lia.
  pose proof (Z.div_mod x (2 ^ 8)). pose proof (Z.div_mod y (2 ^ 8)).
  rewrite !Z.mod_small in E2 by (split; [apply Z.div_pos; lia|apply Z.div_lt_upper_bound; lia]).
  lia.
Qed.

Lemma c16_bytes_len a : arr_len (c16_bytes a) = 2 * arr_len a.
Proof. unfold c16_bytes, arr_len. induction a as [|x a IH]; simpl in *; lia. Qed.

Lemma compare_code_units_ok n : forall a b, (length a <= n)%nat ->
  arr_len a = arr_len b -> Forall (in_u 16) a -> Forall (in_u 16) b ->
  mal_string_compare_code_units a b = Ret (lex a b).
Proof.
  induction n as [|n IH]; intros a b Hn Hl Ha Hb.
  { destruct a; [|simpl in Hn; lia]. destruct b; [done|unfold arr_len in Hl; simpl in Hl; lia]. }
  destruct a as [|a0 [|a1 [|a2 [|a3 a]]]], b as [|b0 [|b1 [|b2 [|b3 b]]]];
    try (cbn [mal_string_compare_code_units]; rewrite compare_units_lex by done; done);
    try (unfold arr_len in Hl; simpl in Hl; lia).
  cbn [mal_string_compare_code_units].
  change (a0 :: a1 :: a2 :: a3 :: a) with ([a0; a1; a2; a3] ++ a) in *.
  change (b0 :: b1 :: b2 :: b3 :: b) with ([b0; b1; b2; b3] ++ b) in *.
  rewrite !arr_len_app in Hl.
  apply Forall_app in Ha as [Ha4 Ha]. apply Forall_app in Hb as [Hb4 Hb].
  rewrite lex_app, compare_units_lex by done.
  destruct (Z.eqb_spec (c16_word a0 a1 a2 a3) (c16_word b0 b1 b2 b3)) as [E|E]; cbn [negb].
  - assert ([a0; a1; a2; a3] = [b0; b1; b2; b3]) as E4.
    { unfold c16_word, in_u in *. rewrite !Forall_cons in Ha4, Hb4.
      destruct Ha4 as (? & ? & ? & ? & _), Hb4 as (? & ? & ? & ? & _).
      assert (a0 = b0) as -> by lia. assert (a1 = b1) as -> by lia.
      assert (a2 = b2) as -> by lia. assert (a3 = b3) as -> by lia. done. }
    apply lex_zero in E4 as ->. apply IH; [simpl in Hn; lia|unfold arr_len in *; simpl in Hl; lia|done|done].
  - destruct (Z.eqb_spec (lex [a0; a1; a2; a3] [b0; b1; b2; b3]) 0) as [E0|E0].
    + apply lex_zero in E0. injection E0 as -> -> -> ->. done.
    + by destruct (lex [a0; a1; a2; a3] [b0; b1; b2; b3]).
Qed.

Lemma xor_difference_ok a : forall d b,
  in_u 16 d -> arr_len a = arr_len b -> Forall (in_u 16) a -> Forall (in_u 16) b ->
  xor_difference d a b = 0 <-> d = 0 /\ a = b.
Proof.
  unfold arr_len. induction a as [|x a IH]; intros d [|y b] Hd Hl Ha Hb; simpl in *; try lia.
  { tauto. }
  apply Forall_cons in Ha as [Hx Ha]. apply Forall_cons in Hb as [Hy Hb].
  assert (in_u 16 (u16 (Z.lxor x y))) by (apply wrap_range; lia).
  rewrite IH by (try done; try lia; apply lor_range; done || lia).
  rewrite Z.lor_eq_0_iff.
  assert (u16 (Z.lxor x y) = 0 <-> x = y) as ->.
  { unfold u16. rewrite wrap_small; [apply Z.lxor_eq_0_iff|].
    unfold in_u in *. rewrite <- (Z.mod_small x (2 ^ 16)), lxor_mod_low by lia.
    apply Z.mod_pos_bound. lia. }
  split; [intros [[-> ->] ->]; done|intros [-> [= -> ->]]; done].
Qed.

(** * Equality and ordering *)

(** What a comparison may answer for two texts: their order, or in
    equality-only mode any value that is zero exactly when they are equal. *)
Definition verdict (equality_only : bool) (result order : Z) : Prop :=
  (result = 0 <-> order = 0) /\ (equality_only = false -> result = order).

Lemma verdict_refl e r : verdict e r r.
Proof. done. Qed.

Lemma seg_slice seg us o n :
  seg_ok seg us -> 0 <= o -> 0 <= n -> o + n <= arr_len us ->
  slice (seg_units seg) o n = slice us o n.
Proof.
  intros Hs Ho Hn Hb. rewrite <- (so_units _ _ Hs) at 1.
  rewrite slice_slice by (pose proof (so_length _ _ Hs); lia). done.
Qed.

Lemma compare_segments_ok a us b vs lo ro n e :
  seg_ok a us -> seg_ok b vs -> 0 <= lo -> 0 <= ro -> 0 <= n ->
  lo + n <= arr_len us -> ro + n <= arr_len vs ->
  exists r, mal_string_compare_segments a lo b ro n e = Ret r /\
    verdict e r (lex (slice us lo n) (slice vs ro n)).
Proof.
  intros Ha Hb Hlo Hro Hn Hla Hlb. unfold mal_string_compare_segments.
  rewrite (seg_slice a us), (seg_slice b vs) by done.
  assert (arr_len (slice us lo n) = arr_len (slice vs ro n)) as Hlen.
  { rewrite !slice_len; lia. }
  pose proof (slice_Forall _ us lo n (so_range _ _ Ha)) as Hru.
  pose proof (slice_Forall _ vs ro n (so_range _ _ Hb)) as Hrv.
  destruct (seg_latin1 a), (seg_latin1 b); simpl.
  - rewrite memcmp_lex by done. eexists. split; [done|apply verdict_refl].
  - rewrite compare_units_lex by done. eexists. split; [done|apply verdict_refl].
  - rewrite compare_units_lex by done. eexists. split; [done|apply verdict_refl].
  - destruct e.
    + eexists. split; [done|]. rewrite memcmp_lex by (rewrite !c16_bytes_len; lia).
      split; [|done]. rewrite lex_zero.
      destruct (Z.eqb_spec (lex (c16_bytes (slice us lo n)) (c16_bytes (slice vs ro n))) 0) as [E|E];
        simpl.
      * apply lex_zero in E. split; [|done]. intros _. by apply c16_bytes_inj.
      * split; [done|]. intros Eq. destruct E. rewrite Eq. by apply lex_zero.
    + rewrite (compare_code_units_ok _ _ _ (le_n _)) by done.
      eexists. split; [done|apply verdict_refl].
Qed.

(** A segment stream: what is left of the current segment, then the rest. *)
Definition stream_ok (a : MalStringSegment) (o : Z) (it : MalStringIterator) (text : list Z)
  : Prop :=
  exists us, seg_ok a us /\ 0 <= o < seg_length a /\ it_ok it /\ it_reverse it = false /\
    text = slice us o (seg_length a - o) ++ pending it /\
    parts_total (it_stack it) <= MAL_STRING_MAX_CODE_UNITS.

Lemma next_stream it :
  it_ok it -> it_reverse it = false -> parts_total (it_stack it) <= MAL_STRING_MAX_CODE_UNITS ->
  pending it <> [] ->
  exists a it', mal_string_iterator_next it = Ret (Some (a, it')) /\ stream_ok a 0 it' (pending it).
Proof.
  intros Hit Hrev Ht Hp. pose proof (iterator_next_ok it Hit Ht) as Hn.
  destruct (it_stack it) as [|p stack] eqn:Hs.
  { destruct Hp. unfold pending. by rewrite Hrev, Hs. }
  destruct Hn as ([a it'] & -> & us & Hseg & Hpos & Hit' & Hr' & Hd & Htot).
  exists a, it'. split; [done|]. exists us.
  split_and!; try done; try lia; [congruence|].
  rewrite Hd. unfold glue. rewrite Hrev, Z.sub_0_r. f_equal.
  rewrite slice_0_all; [done|]. rewrite (so_length _ _ Hseg). lia.
Qed.

(** Moving a stream past compared units, fetching the next segment at a
    segment's end. *)
Lemma advance_stream a o it text n :
  stream_ok a o it text -> 0 < n -> n <= seg_length a - o -> n < arr_len text ->
  exists a' o' it',
    (if o + n =? seg_length a then
       r ← mal_string_iterator_next it;
       match r with None => Abort | Some (a, it) => Ret (a, 0, it) end
     else Ret (a, o + n, it)) = Ret (a', o', it') /\
    stream_ok a' o' it' (slice text n (arr_len text - n)).
Proof.
  intros (us & Hseg & Ho & Hit & Hf & -> & Htot) Hn Hle Hlt.
  pose proof (so_length _ _ Hseg) as Hl.
  rewrite arr_len_app, slice_len in Hlt by lia. rewrite arr_len_app, slice_len by lia.
  destruct (Z.eqb_spec (o + n) (seg_length a)) as [E|E].
  - assert (n = seg_length a - o) as -> by lia.
    destruct (next_stream it) as (a' & it' & -> & Hst); try done.
    { intros Hp. rewrite Hp in Hlt. unfold arr_len in Hlt. simpl in Hlt. lia. }
    exists a', 0, it'. split; [done|].
    rewrite slice_app_r, slice_len by (rewrite ?slice_len; lia).
    rewrite Z.sub_diag, slice_0_all; [done|lia].
  - exists a, (o + n), it. split; [done|]. exists us. split_and!; try done; try lia.
    rewrite slice_app_span by (rewrite ?slice_len; pose proof (arr_len_nonneg (pending it)); lia).
    rewrite slice_len by lia. rewrite slice_slice by lia. f_equal; [f_equal; lia|].
    apply slice_0_all. lia.
Qed.

Lemma compare_prefix_loop_ok e fuel : forall n a lo li b ro ri s t,
  stream_ok a lo li s -> stream_ok b ro ri t ->
  arr_len s = n -> arr_len t = n -> 0 < n -> (Z.to_nat n < fuel)%nat ->
  exists r, compare_prefix_loop fuel n e a lo li b ro ri = Ret r /\ verdict e r (lex s t).
Proof.
  induction fuel as [|fuel IH]; intros n a lo li b ro ri s t Hs Ht Hsn Htn Hn Hf; [lia|].
  cbn [compare_prefix_loop]. destruct (Z.leb_spec n 0); [lia|].
  destruct (Hs) as (us & Hus & Hlo & _ & _ & Es & _).
  destruct (Ht) as (vs & Hvs & Hro & _ & _ & Et & _).
  pose proof (so_length _ _ Hus) as Hlu. pose proof (so_length _ _ Hvs) as Hlv.
  set (k := if _ <? _ then _ else _).
  assert (0 < k <= seg_length a - lo /\ k <= seg_length b - ro) as (Hk & Hkb).
  { subst k. destruct (Z.ltb_spec (seg_length b - ro) (seg_length a - lo)); lia. }
  assert (k <= n) as Hkn.
  { rewrite <- Hsn, Es, arr_len_app, slice_len by lia. pose proof (arr_len_nonneg (pending li)). lia. }
  assert (slice us lo k = slice s 0 k) as E1.
  { rewrite Es, slice_app_l by (rewrite ?slice_len; lia). rewrite slice_slice by lia. f_equal. lia. }
  assert (slice vs ro k = slice t 0 k) as E2.
  { rewrite Et, slice_app_l by (rewrite ?slice_len; lia). rewrite slice_slice by lia. f_equal. lia. }
  destruct (compare_segments_ok a us b vs lo ro k e) as (r & -> & Hv1 & Hv2); try done; try lia.
  rewrite E1, E2 in *. cbn.
  assert (lex s t = let c := lex (slice s 0 k) (slice t 0 k) in
                    if c =? 0 then lex (slice s k (n - k)) (slice t k (n - k)) else c) as Elex.
  { rewrite <- (slice_0_all s n) at 1 by lia. rewrite <- (slice_0_all t n) at 1 by lia.
    rewrite (slice_split s 0 n k), (slice_split t 0 n k) by lia.
    apply lex_app. rewrite !slice_len; lia. }
  destruct (Z.eqb_spec r 0) as [->|Hr]; cbn.
  - destruct (Z.eqb_spec (n - k) 0).
    + exists 0. split; [done|]. rewrite Elex. cbv zeta.
      destruct (Z.eqb_spec (lex (slice s 0 k) (slice t 0 k)) 0); [|tauto].
      replace (n - k) with 0 by lia. unfold slice. simpl. done.
    + destruct (advance_stream a lo li s k) as (a' & lo' & li' & -> & Hs'); try done; try lia.
      destruct (advance_stream b ro ri t k) as (b' & ro' & ri' & -> & Ht'); try done; try lia.
      cbn. rewrite Hsn in Hs'. rewrite Htn in Ht'.
      destruct (IH (n - k) a' lo' li' b' ro' ri' _ _ Hs' Ht') as (r & -> & Hv);
        [rewrite slice_len; lia|rewrite slice_len; lia|lia|lia|].
      exists r. split; [done|]. rewrite Elex. cbv zeta.
      destruct (Z.eqb_spec (lex (slice s 0 k) (slice t 0 k)) 0); [done|tauto].
  - exists r. split; [done|]. rewrite Elex. cbv zeta.
    destruct (Z.eqb_spec (lex (slice s 0 k) (slice t 0 k)) 0); [tauto|]. by split.
Qed.

Lemma compare_prefix_slow_ok s t n e :
  wf_string s -> wf_string t -> 0 < n -> n <= mal_string_length s -> n <= mal_string_length t ->
  exists r, compare_prefix_slow s t n e = Ret r /\
    verdict e r (lex (slice (units s) 0 n) (slice (units t) 0 n)).
Proof.
  intros Hs Ht Hn Hls Hlt. unfold compare_prefix_slow.
  pose proof (wf_length s Hs). pose proof (wf_length t Ht).
  destruct (iterator_init_ok s 0 n) as (li & -> & Hli & Hrl & Hpl & _ & Htl); try done; try lia.
  destruct (iterator_init_ok t 0 n) as (ri & -> & Hri & Hrr & Hpr & _ & Htr); try done; try lia.
  cbn [mbind outcome_bind].
  assert (forall (l : list Z), 0 < arr_len l -> l <> []) as Hne.
  { intros [|] Hl; [|done]. unfold arr_len in Hl. simpl in Hl. lia. }
  destruct (next_stream li) as (a & li' & -> & Hsa); try done.
  { apply Hne. rewrite Hpl, slice_len; lia. }
  cbn [mbind outcome_bind].
  destruct (next_stream ri) as (b & ri' & -> & Hsb); try done.
  { apply Hne. rewrite Hpr, slice_len; lia. }
  rewrite Hpl in Hsa. rewrite Hpr in Hsb.
  apply (compare_prefix_loop_ok e (S (Z.to_nat n))); try done; try lia; rewrite slice_len; lia.
Qed.

Lemma compare_prefix_ok s t n e :
  wf_string s -> wf_string t -> 0 <= n -> n <= mal_string_length s -> n <= mal_string_length t ->
  exists r, mal_string_compare_prefix s t n e = Ret r /\
    verdict e r (lex (slice (units s) 0 n) (slice (units t) 0 n)).
Proof.
  intros Hs Ht Hn Hls Hlt. unfold mal_string_compare_prefix.
  pose proof (wf_length s Hs). pose proof (wf_length t Ht).
  destruct (Z.eqb_spec n 0) as [->|]; [by exists 0|].
  destruct (try_get_segment_ok s 0 n) as ([a|] & -> & Ha); try done; try lia.
  2: { apply compare_prefix_slow_ok; done || lia. }
  destruct (try_get_segment_ok t 0 n) as ([b|] & -> & Hb); try done; try lia.
  2: { apply compare_prefix_slow_ok; done || lia. }
  cbn [mbind outcome_bind].
  destruct (compare_segments_ok a _ b _ 0 0 n e Ha Hb) as (r & -> & Hr); try lia.
  { rewrite slice_len; lia. }
  { rewrite slice_len; lia. }
  exists r. split; [done|]. by rewrite !slice_slice in Hr by lia.
Qed.

Lemma str_size_pos s : (0 < str_size s)%nat.
Proof. destruct s; simpl; lia. Qed.

Lemma lex_cons_same a b l r :
  arr_len a = arr_len b ->
  lex ((a ++ a) ++ l) ((b ++ b) ++ r) = lex (a ++ l) (b ++ r).
Proof.
  intros E. rewrite <- !app_assoc, !lex_app by done.
  by destruct (lex a b =? 0).
Qed.

Lemma segments_equal_ok a us b vs ro n :
  seg_ok a us -> seg_ok b vs -> arr_len us = n -> 0 <= ro -> ro + n <= arr_len vs ->
  mal_string_segments_equal a b ro n = bool_decide (us = slice vs ro n).
Proof.
  intros Ha Hb Hn Hro Hle. pose proof (arr_len_nonneg us). unfold mal_string_segments_equal.
  rewrite (seg_slice a us), (seg_slice b vs) by (done || lia).
  rewrite (slice_0_all us) by lia.
  assert (arr_len us = arr_len (slice vs ro n)) as Hlen by (rewrite slice_len; lia).
  pose proof (so_range _ _ Ha) as Hru.
  pose proof (slice_Forall _ vs ro n (so_range _ _ Hb)) as Hrv.
  assert (forall (b : bool) (P : Prop) (d : Decision P), (b = true <-> P) -> b = bool_decide P) as Hbd.
  { intros b0 P d HP. destruct (bool_decide_reflect P), b0; tauto || (symmetry; tauto). }
  destruct (eqb _ _); [destruct (seg_latin1 a)|]; apply Hbd; rewrite Z.eqb_eq.
  - rewrite memcmp_lex by done. apply lex_zero.
  - rewrite memcmp_lex by (rewrite !c16_bytes_len; lia). rewrite lex_zero.
    split; [by apply c16_bytes_inj|by intros <-].
  - rewrite xor_difference_ok by (done || (unfold in_u; lia)). tauto.
Qed.

Fixpoint nodes_size (l : list MalString) : nat :=
  match l with [] => 0 | s :: l => str_size s + nodes_size l end.

Lemma rope_walk_ok flat us fuel : forall node pend offset,
  seg_ok flat us -> wf_string node -> Forall wf_string pend -> 0 <= offset ->
  let rest := units node ++ concat (map units pend) in
  offset + arr_len rest = arr_len us ->
  (str_size node + nodes_size pend < fuel)%nat ->
  exists r, rope_walk fuel node pend offset flat = Ret r /\
    match r with
    | MAL_STRING_ROPE_EQUAL => rest = slice us offset (arr_len rest)
    | MAL_STRING_ROPE_DIFFERENT => rest <> slice us offset (arr_len rest)
    | MAL_STRING_ROPE_TOO_DEEP => True
    end.
Proof.
  induction fuel as [|fuel IH]; intros node pend offset Hflat Hw Hp Ho rest Hlen Hf; [lia|].
  subst rest. pose proof (wf_length node Hw) as Hln. pose proof (wf_length_range node Hw).
  pose proof (str_size_pos node).
  assert (is_cons node = false -> exists r,
    (if negb (mal_string_segments_equal (leaf_of node 0 (mal_string_length node)) flat offset
                (mal_string_length node))
     then Ret MAL_STRING_ROPE_DIFFERENT
     else match pend with
          | [] => Ret MAL_STRING_ROPE_EQUAL
          | next :: pend => rope_walk fuel next pend (offset + mal_string_length node) flat
          end) = Ret r /\
    let rest := units node ++ concat (map units pend) in
    match r with
    | MAL_STRING_ROPE_EQUAL => rest = slice us offset (arr_len rest)
    | MAL_STRING_ROPE_DIFFERENT => rest <> slice us offset (arr_len rest)
    | MAL_STRING_ROPE_TOO_DEEP => True
    end) as Hleaf.
  { intros Hc. rewrite arr_len_app in Hlen.
    pose proof (arr_len_nonneg (concat (map units pend))) as Hnn.
    pose proof (leaf_of_ok node 0 (mal_string_length node) Hw Hc) as Hseg.
    rewrite slice_0_all in Hseg by lia.
    rewrite (segments_equal_ok _ _ _ us) by (try apply Hseg; done || lia).
    assert (forall tl, slice us offset (arr_len (units node ++ tl))
              = slice us offset (mal_string_length node)
                ++ slice us (offset + mal_string_length node) (arr_len tl)) as Hsp.
    { intros tl. pose proof (arr_len_nonneg tl).
      rewrite (slice_split _ _ _ (mal_string_length node)), arr_len_app by (rewrite ?arr_len_app; lia).
      do 2 f_equal. lia. }
    case_bool_decide as Heq; cbn [negb]; rewrite Hsp.
    - destruct pend as [|next pend]; cbn [map concat].
      + exists MAL_STRING_ROPE_EQUAL. split; [done|]. by rewrite <- Heq.
      + apply Forall_cons in Hp as [Hnext Hp]. simpl in Hf.
        destruct (IH next pend (offset + mal_string_length node)) as (r & -> & Hr);
          try done; try lia; [simpl in *; lia|].
        exists r. split; [done|]. rewrite <- Heq.
        destruct r; [|by f_equal|done]. intros E. by apply app_inv_head in E.
    - exists MAL_STRING_ROPE_DIFFERENT. split; [done|]. intros E.
      apply app_inj_1 in E as [E _]; [done|].
      pose proof (slice_len us offset (mal_string_length node)). unfold arr_len in *. lia. }
  cbn [rope_walk]. destruct node as [i st u|i p o|i l r]; [by apply Hleaf|by apply Hleaf|].
  destruct (_ =? _); [by exists MAL_STRING_ROPE_TOO_DEEP|].
  apply wf_cons in Hw as (Hl & Hr & _). simpl in Hf.
  destruct (IH l (r :: pend) offset) as (x & -> & Hx); try done.
  - by constructor.
  - cbn [map concat]. by rewrite app_assoc.
  - simpl. lia.
  - exists x. split; [done|]. cbn [units]. cbn [map concat] in Hx. by rewrite <- app_assoc.
Qed.
(** A string heap: the cell graph at every address. Cells compared by pointer
    are cells of the heap, so equal pointers are equal cells. *)
Section heap.
Variable heap : Z -> MalString.

Fixpoint coherent (s : MalString) : Prop :=
  s = heap (addr s) /\
  match s with
  | SCons _ l r => coherent l /\ coherent r
  | SDependent _ parent _ => coherent parent
  | SFlat _ _ _ => True
  end.

Lemma coherent_eq s t : coherent s -> coherent t -> addr s = addr t -> s = t.
Proof using Type.
  intros Hs Ht E. assert (s = heap (addr s)) as -> by (destruct s; apply Hs).
  assert (t = heap (addr t)) as -> by (destruct t; apply Ht). by rewrite E.
Qed.

Definition pair_ok (p : MalString * MalString) : Prop :=
  wf_string p.1 /\ wf_string p.2 /\ coherent p.1 /\ coherent p.2.
Definition lefts (l : list (MalString * MalString)) : list Z := concat (map (units ∘ fst) l).
Definition rights (l : list (MalString * MalString)) : list Z := concat (map (units ∘ snd) l).
Fixpoint pairs_size (l : list (MalString * MalString)) : nat :=
  match l with [] => 0 | p :: l => str_size p.1 + pairs_size l end.

(** When the walk answers, it answers for the whole texts. *)
Lemma compare_structural_loop_ok e fuel : forall stack,
  Forall pair_ok stack -> (pairs_size stack < fuel)%nat ->
  exists r, compare_structural_loop fuel stack e = Ret r /\
    match r with
    | Some r => verdict e r (lex (lefts stack) (rights stack))
    | None => True
    end.
Proof using Type.
  induction fuel as [|fuel IH]; intros stack Hst Hf; [lia|].
  destruct stack as [|[a b] stack]; [by exists (Some 0)|].
  apply Forall_cons in Hst as [(Hwa & Hwb & Hca & Hcb) Hst]. simpl in Hwa, Hwb, Hca, Hcb, Hf.
  pose proof (str_size_pos a). cbn [compare_structural_loop].
  change (lefts ((a, b) :: stack)) with (units a ++ lefts stack).
  change (rights ((a, b) :: stack)) with (units b ++ rights stack).
  destruct (Z.eqb_spec (addr a) (addr b)) as [E|_].
  { apply coherent_eq in E as <-; try done.
    rewrite lex_app by done. rewrite (proj2 (lex_zero (units a) (units a)) eq_refl).
    apply IH; [done|lia]. }
  destruct (Z.eqb_spec (mal_string_length a) (mal_string_length b)) as [El|]; [|by exists None].
  cbn [negb].
  assert (is_cons a = false -> is_cons b = false -> exists r,
    (result ← mal_string_compare_prefix a b (mal_string_length a) e;
     if negb (result =? 0) then Ret (Some result) else compare_structural_loop fuel stack e) = Ret r /\
    match r with
    | Some r => verdict e r (lex (units a ++ lefts stack) (units b ++ rights stack))
    | None => True
    end) as Hleaf.
  { intros _ _. pose proof (wf_length a Hwa). pose proof (wf_length b Hwb).
    pose proof (wf_length_range a Hwa).
    destruct (compare_prefix_ok a b (mal_string_length a) e) as (r & -> & Hv1 & Hv2); try done; try lia.
    rewrite !slice_0_all in Hv1, Hv2 by lia. cbn. rewrite lex_app by lia.
    destruct (Z.eqb_spec r 0) as [->|Hr]; cbn.
    - rewrite (proj1 Hv1) by done. apply IH; [done|lia].
    - exists (Some r). split; [done|].
      destruct (Z.eqb_spec (lex (units a) (units b)) 0); [tauto|by split]. }
  destruct a as [ai ast au|ai ap ao|ai al ar], b as [bi bst bu|bi bp bo|bi bl br];
    try (by apply Hleaf); try (by exists None).
  destruct (Z.eqb_spec (mal_string_length al) (mal_string_length bl)) as [Ell|]; [|by exists None].
  cbn [negb]. apply wf_cons in Hwa as (Hwal & Hwar & Hla), Hwb as (Hwbl & Hwbr & Hlb).
  destruct Hca as (_ & Hcal & Hcar), Hcb as (_ & Hcbl & Hcbr). simpl in Hf.
  assert (arr_len (units al) = arr_len (units bl)) as Eul by (rewrite !wf_length; done).
  cbn [units].
  destruct (Z.eqb_spec (addr al) (addr ar)) as [Ea|_], (Z.eqb_spec (addr bl) (addr br)) as [Eb|_];
    cbn [andb].
  { apply coherent_eq in Ea as <-; try done. apply coherent_eq in Eb as <-; try done.
    destruct (_ =? MAL_STRING_STRUCTURAL_COMPARE_CAPACITY); [by exists None|].
    rewrite lex_cons_same by done.
    apply (IH ((al, bl) :: stack)); [by constructor|simpl; lia]. }
  all: destruct (_ <? _); [by exists None|]; rewrite <- !app_assoc;
    apply (IH ((al, bl) :: (ar, br) :: stack));
    [by repeat constructor|simpl; lia].
Qed.

Lemma compare_structural_ok s t e :
  wf_string s -> wf_string t -> coherent s -> coherent t ->
  exists r, mal_string_compare_structural s t e = Ret r /\
    match r with Some r => verdict e r (lex (units s) (units t)) | None => True end.
Proof using Type.
  intros Hs Ht Hcs Hct. unfold mal_string_compare_structural.
  destruct (_ || _); [by exists None|].
  destruct (compare_structural_loop_ok e (S (str_size s)) [(s, t)]) as (r & Hr & Hv).
  { by repeat constructor. }
  { simpl. lia. }
  exists r. split; [done|]. unfold lefts, rights in Hv. simpl in Hv. by rewrite !app_nil_r in Hv.
Qed.

End heap.

(** What the rest of the runtime keeps true of its strings. The last field is
    the promise of the atom table: one atom per content. *)
Record string_heap_ok (heap : Z -> MalString) : Prop := {
  sh_wf : forall p, wf_string (heap p);
  sh_addr : forall p, addr (heap p) = p;
  sh_coherent : forall p, coherent heap (heap p);
  sh_atoms : forall p q,
    str_property_atom (str_info (heap p)) = true ->
    str_property_atom (str_info (heap q)) = true ->
    units (heap p) = units (heap q) -> p = q;
}.

Lemma flat_value_not_cons s : flat_value s = true -> is_cons s = false.
Proof. by destruct s. Qed.

Lemma flat_value_leaf s : flat_value s = true -> leaf_of s 0 = mal_string_leaf_segment s 0.
Proof. by destruct s. Qed.

Section equality.
Variable heap : Z -> MalString.
Variables s t : MalString.
Hypothesis Hs : wf_string s.
Hypothesis Ht : wf_string t.
Hypothesis Hcs : coherent heap s.
Hypothesis Hct : coherent heap t.
Hypothesis Hlen : mal_string_length s = mal_string_length t.

Lemma flat_segment_ok x :
  wf_string x -> flat_value x = true ->
  seg_ok (mal_string_leaf_segment x 0 (mal_string_length x)) (units x).
Proof using Type.
  intros Hx Hf. rewrite <- flat_value_leaf by done.
  pose proof (wf_length x Hx). pose proof (wf_length_range x Hx).
  rewrite <- (slice_0_all (units x) (mal_string_length x)) by lia.
  apply leaf_of_ok; try done; try lia. by apply flat_value_not_cons.
Qed.

Lemma equals_ropes_ok : equals_ropes s t = Ret (bool_decide (units s = units t)).
Proof using heap Hs Ht Hcs Hct Hlen.
  pose proof (wf_length s Hs). pose proof (wf_length t Ht).
  pose proof (wf_length_range s Hs).
  assert (forall r o, verdict true r o -> (r =? 0) = (o =? 0)) as Hvb.
  { intros r o [Hv _]. destruct (Z.eqb_spec r 0), (Z.eqb_spec o 0); tauto. }
  assert (forall a b, (lex a b =? 0) = bool_decide (a = b)) as Hlb.
  { intros a b. destruct (Z.eqb_spec (lex a b) 0) as [E|E]; rewrite lex_zero in E;
      by case_bool_decide. }
  unfold equals_ropes.
  destruct (compare_structural_ok heap s t true Hs Ht Hcs Hct) as ([r|] & -> & Hv); cbn.
  - by rewrite (Hvb _ _ Hv), Hlb.
  - destruct (compare_prefix_ok s t (mal_string_length s) true) as (r & -> & Hv'); try done; try lia.
    cbn. rewrite !slice_0_all in Hv' by lia. by rewrite (Hvb _ _ Hv'), Hlb.
Qed.

Lemma equals_same_length_ok :
  mal_string_equals_same_length s t = Ret (bool_decide (units s = units t)).
Proof using heap Hs Ht Hcs Hct Hlen.
  pose proof (wf_length s Hs) as Lus. pose proof (wf_length t Ht) as Lut.
  pose proof (wf_length_range s Hs). unfold mal_string_equals_same_length.
  pose proof (wf_info s Hs) as (_ & His & _). pose proof (wf_info t Ht) as (_ & Hit & _).
  destruct (_ && _ && _) eqn:Hh.
  { apply andb_true_iff in Hh as [[Hv Hv']%andb_true_iff Hne].
    rewrite His, Hit in Hne by done. case_bool_decide as E; [|done].
    rewrite E, Z.eqb_refl in Hne. done. }
  destruct (Z.eqb_spec (mal_string_length s) 0) as [E0|].
  { assert (units s = [] /\ units t = []) as [-> ->]; [|done].
    unfold arr_len in *. split; apply length_zero_iff_nil; lia. }
  destruct (flat_value s) eqn:Fs, (flat_value t) eqn:Ft; cbn [andb orb].
  - f_equal. pose proof (flat_segment_ok t Ht Ft) as Hb.
    rewrite (segments_equal_ok _ _ _ _ 0 (mal_string_length s) (flat_segment_ok s Hs Fs) Hb)
      by lia.
    by rewrite slice_0_all by lia.
  - pose proof (flat_segment_ok s Hs Fs) as Ha.
    destruct (rope_walk_ok _ _ (S (str_size t)) t [] 0 Ha Ht) as (r & Hr & Hx);
      [constructor|lia|simpl; rewrite app_nil_r; lia|simpl; lia|].
    unfold mal_string_rope_equals_segment. rewrite Hr. cbn. cbn [map concat] in Hx.
    rewrite app_nil_r, slice_0_all in Hx by lia.
    destruct r; [| |apply equals_ropes_ok]; f_equal; case_bool_decide; congruence.
  - pose proof (flat_segment_ok t Ht Ft) as Ha. rewrite <- Hlen in Ha.
    destruct (rope_walk_ok _ _ (S (str_size s)) s [] 0 Ha Hs) as (r & Hr & Hx);
      [constructor|lia|simpl; rewrite app_nil_r; lia|simpl; lia|].
    unfold mal_string_rope_equals_segment. rewrite Hr. cbn. cbn [map concat] in Hx.
    rewrite app_nil_r, slice_0_all in Hx by lia.
    destruct r; [| |apply equals_ropes_ok]; f_equal; case_bool_decide; congruence.
  - apply equals_ropes_ok.
Qed.
End equality.

Lemma string_equals_ok heap p q :
  string_heap_ok heap ->
  mal_string_equals (heap p) (heap q) = Ret (bool_decide (units (heap p) = units (heap q))).
Proof.
  intros [Hwf Haddr Hcoh Hatoms].
  unfold mal_string_equals, mal_string_equals_constant_length. rewrite !Haddr.
  destruct (Z.eqb_spec p q) as [->|Hne]; [by rewrite bool_decide_eq_true_2|].
  destruct (Z.eqb_spec (mal_string_length (heap p)) (mal_string_length (heap q))) as [El|El]; cbn [negb].
  - destruct (str_property_atom (str_info (heap p))) eqn:Ap; cbn [andb].
    + destruct (str_property_atom (str_info (heap q))) eqn:Aq.
      * case_bool_decide as E; [|done]. destruct Hne. by apply Hatoms.
      * by apply (equals_same_length_ok heap).
    + by apply (equals_same_length_ok heap).
  - case_bool_decide as E; [|done]. destruct El. rewrite <- !wf_length by done. by rewrite E.
Qed.

Lemma string_compare_ok heap p q :
  string_heap_ok heap ->
  mal_string_compare (heap p) (heap q) = Ret (lex (units (heap p)) (units (heap q))).
Proof.
  intros [Hwf Haddr Hcoh Hatoms]. unfold mal_string_compare. rewrite !Haddr.
  destruct (Z.eqb_spec p q) as [->|Hne]; [by rewrite (proj2 (lex_zero _ _) eq_refl)|].
  pose proof (wf_length _ (Hwf p)) as Lp. pose proof (wf_length _ (Hwf q)) as Lq.
  pose proof (wf_length_range _ (Hwf p)). pose proof (wf_length_range _ (Hwf q)).
  destruct (compare_structural_ok heap (heap p) (heap q) false) as ([r|] & -> & Hv); try done; cbn.
  { by rewrite (proj2 Hv eq_refl). }
  rewrite lex_prefix. cbv zeta. rewrite Lp, Lq.
  replace (if mal_string_length (heap p) <? mal_string_length (heap q)
           then mal_string_length (heap p) else mal_string_length (heap q))
    with (Z.min (mal_string_length (heap p)) (mal_string_length (heap q)))
    by (destruct (Z.ltb_spec (mal_string_length (heap p)) (mal_string_length (heap q))); lia).
  destruct (compare_prefix_ok (heap p) (heap q)
              (Z.min (mal_string_length (heap p)) (mal_string_length (heap q))) false)
    as (r & -> & Hv2); try done; try lia.
  cbn. rewrite (proj2 Hv2 eq_refl). by cases_if.
Qed.
