(* ===== verification/HeapStringTheorems.v ===== *)
(** The properties of the string operations, over a heap of string cells, and a
    concrete heap (two leaves, their concatenation flat and as a rope) they are
    applied to. *)

From S2P Require Import Prelude CheckedSize HeapString HeapStringSpec.

Module StringDemo.
Definition leaf (p : Z) (u : list Z) : MalString :=
  SFlat (mkStringInfo p (arr_len u) 0 false false true) MAL_STRING_STORAGE_OWNED u.

Definition strings (p : Z) : MalString :=
  if p =? 16 then leaf 16 [97]
  else if p =? 32 then leaf 32 [98]
  else if p =? 48 then leaf 48 [97; 98]
  else if p =? 64 then SCons (mkStringInfo 64 2 0 false false true) (leaf 16 [97]) (leaf 32 [98])
  else leaf p [].

Lemma strings_ok : string_heap_ok strings.
Proof.
  assert (forall p, strings p = leaf p [] \/ p = 16 \/ p = 32 \/ p = 48 \/ p = 64) as H.
  { intros p. unfold strings.
    destruct (Z.eqb_spec p 16), (Z.eqb_spec p 32), (Z.eqb_spec p 48), (Z.eqb_spec p 64); tauto. }
  assert (forall p u, Forall (in_u 8) u -> arr_len u <= 2 -> wf_string (leaf p u)) as Hl.
  { intros p u Hu Hlen. pose proof (arr_len_nonneg u).
    assert (Forall (in_u 16) u) by (eapply Forall_impl; [exact Hu|]; unfold in_u; simpl; intros; lia).
    simpl. unfold info_ok, lane_ok. simpl. unfold MAL_STRING_MAX_CODE_UNITS, INT32_MAX.
    split_and!; try done; try lia. intros _. unfold slice. by apply Forall_take. }
  assert (forall p, addr (strings p) = p) as Ha.
  { intros p. destruct (H p) as [-> | [-> |[-> |[-> | ->]]]]; done. }
  split; try done.
  - intros p. destruct (H p) as [-> | [-> |[-> |[-> | ->]]]];
      try (apply Hl; [repeat constructor; done|done]).
    change (strings 64) with (SCons (mkStringInfo 64 2 0 false false true) (leaf 16 [97]) (leaf 32 [98])).
    cbn [wf_string]. split; [|split; [apply Hl; [repeat constructor; done|done]|split; [apply Hl; [repeat constructor; done|done]|done]]].
    split; [by vm_compute|]. split; [done|]. intros _. repeat constructor; done.
  - intros p. destruct (H p) as [E|[-> |[-> |[-> | ->]]]]; try (by repeat split).
    rewrite E. split; [exact (eq_sym E)|done].
  - intros p q Hp. exfalso. destruct (H p) as [E|[-> |[-> |[-> | ->]]]]; try done. by rewrite E in Hp.
Qed.
End StringDemo.

(** C3. Equality of two strings always answers, whatever mix of flat cells,
    slices and ropes they are: it is equality of their UTF-16 units. *)
Theorem string_equality_is_content heap p q :
  string_heap_ok heap ->
  mal_string_equals (heap p) (heap q) = Ret (bool_decide (units (heap p) = units (heap q))).
Proof. apply string_equals_ok. Qed.

Lemma string_equality_is_content_witness :
  units (StringDemo.strings 48) = [97; 98] /\
  mal_string_equals (StringDemo.strings 48) (StringDemo.strings 64) = Ret true.
Proof.
  split; [done|].
  exact (string_equality_is_content StringDemo.strings 48 64 StringDemo.strings_ok).
Defined.

Lemma lex_antisym a : forall b, lex b a = - lex a b.
Proof.
  induction a as [|x a IH]; intros [|y b]; cbn [lex]; try done.
  destruct (Z.ltb_spec x y), (Z.ltb_spec y x); try done; try lia.
Qed.

(** C35. The comparison always answers and is the lexicographic order of the
    units: antisymmetric, and zero exactly when equality answers true. *)
Theorem string_compare_is_lexicographic heap p q :
  string_heap_ok heap ->
  exists r,
    mal_string_compare (heap p) (heap q) = Ret r /\
    r = lex (units (heap p)) (units (heap q)) /\
    mal_string_compare (heap q) (heap p) = Ret (- r) /\
    mal_string_equals (heap p) (heap q) = Ret (r =? 0).
Proof.
  intros Hh. exists (lex (units (heap p)) (units (heap q))).
  rewrite !string_compare_ok, string_equals_ok, (lex_antisym (units (heap p))) by done.
  split_and!; [done..|]. f_equal.
  destruct (Z.eqb_spec (lex (units (heap p)) (units (heap q))) 0) as [E|E];
    rewrite lex_zero in E; by case_bool_decide.
Qed.

Lemma string_compare_is_lexicographic_witness :
  exists r,
    mal_string_compare (StringDemo.strings 64) (StringDemo.strings 32) = Ret r /\ r = -1 /\
    mal_string_compare (StringDemo.strings 32) (StringDemo.strings 64) = Ret (- r) /\
    mal_string_equals (StringDemo.strings 64) (StringDemo.strings 32) = Ret (r =? 0).
Proof. exact (string_compare_is_lexicographic StringDemo.strings 64 32 StringDemo.strings_ok). Defined.

(** The hash is a function of the units alone: equal content hashes alike
    in every representation and encoding, with or without a cached value, and
    filling the cache leaves a well-formed string of the same content. *)
Theorem string_hash_is_content s t :
  wf_string s -> wf_string t -> units s = units t ->
  fst (mal_string_hash s) = fst (mal_string_hash t) /\
  fst (mal_string_hash s) = mal_string_hash_code_units (units s) /\
  wf_string (snd (mal_string_hash s)) /\ units (snd (mal_string_hash s)) = units s /\
  fst (mal_string_hash (snd (mal_string_hash s))) = fst (mal_string_hash s).
Proof.
  intros Hs Ht E.
  assert (forall x, wf_string x -> fst (mal_string_hash x) = mal_string_hash_code_units (units x)) as Hx.
  { intros x Hw. unfold mal_string_hash. destruct (str_hash_valid (str_info x)) eqn:Ev; [|by apply hash_slow_value].
    pose proof (wf_info x Hw) as (_ & Hv & _). by apply Hv. }
  assert (wf_string (snd (mal_string_hash s)) /\ units (snd (mal_string_hash s)) = units s) as [Hw Hu].
  { unfold mal_string_hash. destruct (str_hash_valid (str_info s)); [done|]. by destruct (hash_slow_cache s Hs) as (? & ? & _). }
  rewrite !Hx, Hu, E by done. done.
Qed.

Lemma string_hash_is_content_witness :
  fst (mal_string_hash (StringDemo.strings 48)) = fst (mal_string_hash (StringDemo.strings 64)).
Proof.
  apply (string_hash_is_content (StringDemo.strings 48) (StringDemo.strings 64));
    [apply (sh_wf _ StringDemo.strings_ok)|apply (sh_wf _ StringDemo.strings_ok)|reflexivity].
Defined.

(** Copying a range out of a rope writes exactly its units, and random
    access reads the same ones. *)
Theorem string_copy_range_exact s offset length :
  wf_string s -> 0 <= offset -> 0 <= length -> offset + length <= mal_string_length s ->
  exists copy, mal_string_copy_range_to s offset length = Ret copy /\
    copy = slice (units s) offset length /\ arr_len copy = length /\
    forall i, 0 <= i < length -> arr_get copy i = mal_string_code_unit_at s (offset + i).
Proof.
  intros Hw Ho Hl Hb. pose proof (wf_length s Hw) as E.
  exists (slice (units s) offset length). rewrite copy_range_ok by done.
  split_and!; [done|done|apply slice_len; lia|]. intros i Hi.
  rewrite code_unit_at_ok by (done || lia). by rewrite arr_get_slice by lia.
Qed.

Lemma string_copy_range_exact_witness :
  exists copy, mal_string_copy_range_to (StringDemo.strings 64) 0 2 = Ret copy /\
    copy = [97; 98] /\ arr_len copy = 2 /\
    forall i, 0 <= i < 2 -> arr_get copy i = mal_string_code_unit_at (StringDemo.strings 64) (0 + i).
Proof.
  apply (string_copy_range_exact (StringDemo.strings 64) 0 2);
    [apply (sh_wf _ StringDemo.strings_ok)|lia|lia|by vm_compute].
Defined.
