(* ===== verification/Key.v ===== *)
(** Property and collection keys of runtime/src/key.h: key kinds, the canonical
    form collections store, key equality and the key hash. The heap a key points
    into is an interface, [KeyHeap]; the string heap implements it. *)

From S2P Require Import Prelude F64 Value HeapString HeapStringSpec.

(** * The heap interface *)

(** What key.h calls on a string or BigInt pointer. *)
Class KeyHeap : Type := {
  string_equals : Z -> Z -> bool;
  string_hash : Z -> Z;
  bigint_value : Z -> Z;
}.

(** What it relies on: string equality is an equivalence, equal strings have
    equal hashes, and the machine widths. *)
Class KeyHeapLaws (H : KeyHeap) : Prop := {
  string_equals_refl p : string_equals p p = true;
  string_equals_sym p q : string_equals p q = string_equals q p;
  string_equals_trans p q r :
    string_equals p q = true -> string_equals q r = true -> string_equals p r = true;
  string_equals_hash p q : string_equals p q = true -> string_hash p = string_hash q;
  string_hash_range p : in_u 64 (string_hash p);
  bigint_value_range p : in_i 128 (bigint_value p);
}.

(** * Kinds and canonical values *)

Inductive MalKeyKind : Set :=
| MAL_KEY_INDEX | MAL_KEY_STRING | MAL_KEY_SYMBOL
| MAL_KEY_NUMBER | MAL_KEY_OBJECT | MAL_KEY_STATIC.

#[export] Instance MalKeyKind_eq_dec : EqDecision MalKeyKind.
Proof. solve_decision. Defined.

Record MalKey : Type := mkKey { key_kind : MalKeyKind; key_value : Z }.

Definition mal_key_kind_of (value : Z) : MalKeyKind :=
  if mal_value_is_string value then MAL_KEY_STRING
  else if mal_value_is_symbol value then MAL_KEY_SYMBOL
  else if mal_value_is_object value then MAL_KEY_OBJECT
  else if mal_value_is_int32 value then MAL_KEY_INDEX
  else if mal_value_is_f64 value
          && (let number := mal_value_to_f64 value in
              f64_leb 0 number && f64_ltb number (f64_of_int UINT32_MAX)
              && f64_eqb (f64_of_int (u32 (f64_to_int number))) number)
  then MAL_KEY_INDEX
  else if mal_value_is_nil value || mal_value_is_boolean value then MAL_KEY_STATIC
  else MAL_KEY_NUMBER.

Definition mal_collection_canonical_value (value : Z) : Z :=
  if mal_value_is_int32 value then mal_value_from_f64 (f64_of_int (mal_value_to_i32 value))
  else if value =? MAL_VALUE_NEGATIVE_ZERO then mal_value_from_f64 0
  else value.

Definition mal_collection_canonical_number (number : Z) : Z :=
  mal_value_from_f64_convert_nan (if f64_eqb number 0 then 0 else number).

Definition mal_collection_key_from_value (value : Z) : MalKey :=
  let value := mal_collection_canonical_value value in
  let kind :=
    if mal_value_is_string value then MAL_KEY_STRING
    else if mal_value_is_symbol value then MAL_KEY_SYMBOL
    else if mal_value_is_object value then MAL_KEY_OBJECT
    else if mal_value_is_f64 value || mal_value_is_bigint value then MAL_KEY_NUMBER
    else MAL_KEY_STATIC in
  mkKey kind value.

Definition mal_key_from_value (value : Z) : MalKey := mkKey (mal_key_kind_of value) value.

Definition mal_key_index_signed (index : Z) : outcome MalKey :=
  if (index <? 0) || (UINT32_MAX <=? u64 index) then Abort
  else Ret (mkKey MAL_KEY_INDEX (mal_value_from_u32 (u32 index))).
Definition mal_key_index_unsigned (index : Z) : outcome MalKey :=
  if UINT32_MAX <=? index then Abort
  else Ret (mkKey MAL_KEY_INDEX (mal_value_from_u32 (u32 index))).
Definition mal_key_index_value (key : MalKey) : outcome Z :=
  if negb (bool_decide (key_kind key = MAL_KEY_INDEX)) then Abort
  else Ret (if mal_value_is_int32 (key_value key) then u32 (mal_value_to_i32 (key_value key))
            else u32 (f64_to_int (mal_value_to_f64 (key_value key)))).

(** * Equality and hash *)

Section keys.
Context `{KeyHeap}.

Definition mal_key_value_equals (a b : Z) : bool :=
  if a =? b then true
  else if mal_value_is_string a && mal_value_is_string b
       then string_equals (mal_value_to_heap a) (mal_value_to_heap b)
  else if mal_value_is_bigint a && mal_value_is_bigint b
       then bigint_value (mal_value_to_heap a) =? bigint_value (mal_value_to_heap b)
  else false.

Definition mal_key_hash_mix (value : Z) : Z :=
  let product := u128 (value * 0xa0761d6478bd642f) in
  Z.lxor (u64 product) (u64 (Z.shiftr product 64)).

Definition mal_key_hash_value (value : Z) : Z :=
  if mal_value_is_string value then mal_key_hash_mix (string_hash (mal_value_to_heap value))
  else if mal_value_is_bigint value then
    let bits := u128 (bigint_value (mal_value_to_heap value)) in
    let low := u64 bits in
    let high := u64 (Z.shiftr bits 64) in
    mal_key_hash_mix (Z.lxor low (mal_key_hash_mix (Z.lxor high 0x9e3779b97f4a7c15)))
  else mal_key_hash_mix value.
End keys.

(** * Laws of key equality *)

Lemma kind_string v : in_u 64 v -> mal_value_is_string v = true <-> kind_of v = KString.
Proof. apply (kind_test_iff v KString). Qed.
Lemma kind_bigint v : in_u 64 v -> mal_value_is_bigint v = true <-> kind_of v = KBigInt.
Proof. apply (kind_test_iff v KBigInt). Qed.
Lemma kind_f64 v : in_u 64 v -> mal_value_is_f64 v = true <-> kind_of v = KDouble.
Proof. apply (kind_test_iff v KDouble). Qed.
Lemma kind_int32 v : in_u 64 v -> mal_value_is_int32 v = true <-> kind_of v = KInt32.
Proof. apply (kind_test_iff v KInt32). Qed.

Lemma string_not_bigint v : mal_value_is_string v = true -> mal_value_is_bigint v = false.
Proof.
  unfold mal_value_is_string, mal_value_is_bigint. intros Hs%Z.eqb_eq. rewrite Hs. done.
Qed.

Section key_laws.
Context `{H : KeyHeap, HL : !KeyHeapLaws H}.

#[export] Instance key_equals_equiv :
  Equivalence (fun a b => mal_key_value_equals a b = true).
Proof using HL.
  unfold mal_key_value_equals. split.
  - intros a. by rewrite Z.eqb_refl.
  - intros a b. rewrite (Z.eqb_sym b a). destruct (a =? b); [done|].
    rewrite (andb_comm (mal_value_is_string b)), (andb_comm (mal_value_is_bigint b)).
    by rewrite string_equals_sym, (Z.eqb_sym (bigint_value (mal_value_to_heap b))).
  - intros a b c. destruct (Z.eqb_spec a b) as [->|]; [done|].
    destruct (Z.eqb_spec b c) as [->|].
    { intros Hab _. destruct (Z.eqb_spec a c); [done|exact Hab]. }
    destruct (Z.eqb_spec a c); [done|].
    destruct (mal_value_is_string a) eqn:Sa, (mal_value_is_string b) eqn:Sb,
      (mal_value_is_string c) eqn:Sc; simpl;
      rewrite ?(string_not_bigint _ Sa), ?(string_not_bigint _ Sb), ?(string_not_bigint _ Sc); simpl;
      rewrite ?andb_false_r; try done; [apply string_equals_trans|].
    destruct (mal_value_is_bigint a), (mal_value_is_bigint b), (mal_value_is_bigint c);
      simpl; try done.
    rewrite !Z.eqb_eq. congruence.
Qed.

(** Equal keys hash alike, so a probe of the key's group sequence meets them. *)
Lemma key_equals_hash a b :
  mal_key_value_equals a b = true -> mal_key_hash_value a = mal_key_hash_value b.
Proof using HL.
  unfold mal_key_value_equals, mal_key_hash_value.
  destruct (Z.eqb_spec a b) as [->|]; [done|].
  destruct (mal_value_is_string a) eqn:Sa, (mal_value_is_string b) eqn:Sb; simpl.
  - intros E. by rewrite (string_equals_hash _ _ E).
  - by rewrite (string_not_bigint _ Sa).
  - by rewrite (string_not_bigint _ Sb), andb_false_r.
  - destruct (mal_value_is_bigint a), (mal_value_is_bigint b); simpl; try done.
    by intros ->%Z.eqb_eq.
Qed.

Lemma hash_mix_range v : in_u 64 (mal_key_hash_mix v).
Proof using Type.
  unfold mal_key_hash_mix. set (a := u64 _). set (b := u64 _).
  assert (in_u 64 a) by (apply wrap_range; lia). assert (in_u 64 b) by (apply wrap_range; lia).
  unfold in_u in *. rewrite <- (Z.mod_small a (2 ^ 64)), lxor_mod_low by lia.
  apply Z.mod_pos_bound. lia.
Qed.

Lemma key_hash_range v : in_u 64 (mal_key_hash_value v).
Proof using Type. unfold mal_key_hash_value. cases_if; apply hash_mix_range. Qed.
End key_laws.

(** * SameValueZero *)

(** A canonical value: the form collections store. Int32 words have become
    doubles, and the negative zero is gone. *)
Definition canonical (v : Z) : Prop :=
  in_u 64 v /\ kind_of v <> KInt32 /\ v <> MAL_VALUE_NEGATIVE_ZERO /\
  (kind_of v = KDouble -> f64_is_nan v = true -> v = MAL_VALUE_NAN).

(** The boxed words the runtime makes: a NaN is the canonical one. *)
Definition boxed (v : Z) : Prop :=
  in_u 64 v /\ (kind_of v = KInt32 -> v = mal_value_from_i32 (mal_value_to_i32 v)) /\
  (kind_of v = KDouble -> f64_is_nan v = true -> v = MAL_VALUE_NAN).

Lemma to_i32_range v : in_i 32 (mal_value_to_i32 v).
Proof. apply swrap_range. lia. Qed.

Lemma i32_abs n : in_i 32 n -> Z.abs n < 2 ^ 53.
Proof. unfold in_i. simpl. lia. Qed.

Lemma of_int_kind n : Z.abs n < 2 ^ 53 -> kind_of (f64_of_int n) = KDouble.
Proof.
  intros Hn. pose proof (f64_of_int_range n Hn). apply kind_f64; [done|].
  apply Z.ltb_lt, non_nan_below_tags; [done|]. by apply f64_of_int_not_nan.
Qed.

Lemma canonical_of_int n : Z.abs n < 2 ^ 53 -> canonical (f64_of_int n).
Proof.
  intros Hn. pose proof (of_int_kind n Hn) as Hk. split; [by apply f64_of_int_range|].
  split; [congruence|]. split; [by apply f64_of_int_not_neg_zero|].
  intros _. by rewrite f64_of_int_not_nan.
Qed.

Lemma canonical_value_canonical v : boxed v -> canonical (mal_collection_canonical_value v).
Proof.
  intros (Hr & _ & Hn). unfold mal_collection_canonical_value.
  destruct (mal_value_is_int32 v) eqn:Hi.
  { apply canonical_of_int, i32_abs, to_i32_range. }
  destruct (Z.eqb_spec v MAL_VALUE_NEGATIVE_ZERO); [apply (canonical_of_int 0); lia|].
  split; [done|]. split; [|done]. intros Hk. apply kind_int32 in Hk; [congruence|done].
Qed.

(** The double a Number word denotes. *)
Definition number_of (v : Z) : option Z :=
  match kind_of v with
  | KInt32 => Some (f64_of_int (mal_value_to_i32 v))
  | KDouble => Some v
  | _ => None
  end.

(** ECMAScript's SameValueZero on value words: Numbers by value with NaN equal
    to itself and the zeros equal, strings by content, BigInts by value,
    everything else by identity. *)
Definition same_value_zero `{KeyHeap} (a b : Z) : bool :=
  match number_of a, number_of b with
  | Some x, Some y => f64_eqb x y || (f64_is_nan x && f64_is_nan y)
  | None, None =>
      match kind_of a, kind_of b with
      | KString, KString => string_equals (mal_value_to_heap a) (mal_value_to_heap b)
      | KBigInt, KBigInt =>
          bigint_value (mal_value_to_heap a) =? bigint_value (mal_value_to_heap b)
      | _, _ => a =? b
      end
  | _, _ => false
  end.

Definition canonical_double (x : Z) : Z := if x =? MAL_VALUE_NEGATIVE_ZERO then 0 else x.

Lemma canonical_number_of v x :
  in_u 64 v -> number_of v = Some x ->
  mal_collection_canonical_value v = canonical_double x /\ in_u 64 x.
Proof.
  intros Hv Hx. unfold mal_collection_canonical_value, number_of in *.
  destruct (kind_of v) eqn:Hk; try done; injection Hx as <-.
  - assert (mal_value_is_int32 v = false) as ->.
    { apply not_true_iff_false. rewrite kind_int32 by done. congruence. }
    done.
  - rewrite (proj2 (kind_int32 v Hv) Hk).
    pose proof (i32_abs _ (to_i32_range v)) as Ha. unfold canonical_double.
    destruct (Z.eqb_spec (f64_of_int (mal_value_to_i32 v)) MAL_VALUE_NEGATIVE_ZERO) as [E|].
    + by apply f64_of_int_not_neg_zero in E.
    + split; [done|]. by apply f64_of_int_range.
Qed.

Lemma canonical_not_number v :
  in_u 64 v -> number_of v = None ->
  mal_collection_canonical_value v = v /\ kind_of v <> KDouble.
Proof.
  intros Hv Hx. unfold mal_collection_canonical_value, number_of in *.
  assert (mal_value_is_int32 v = false) as ->.
  { apply not_true_iff_false. rewrite kind_int32 by done. intros E. by rewrite E in Hx. }
  destruct (Z.eqb_spec v MAL_VALUE_NEGATIVE_ZERO) as [->|]; [done|].
  split; [done|]. intros E. by rewrite E in Hx.
Qed.

(** Canonical doubles are equal bits exactly when the doubles are equal values. *)
Lemma canonical_double_eq x y :
  in_u 64 x -> in_u 64 y ->
  (f64_is_nan x = true -> x = MAL_VALUE_NAN) -> (f64_is_nan y = true -> y = MAL_VALUE_NAN) ->
  (canonical_double x =? canonical_double y)
  = f64_eqb x y || (f64_is_nan x && f64_is_nan y).
Proof.
  intros Hx Hy Nx Ny. unfold canonical_double.
  destruct (f64_is_nan x) eqn:Ex, (f64_is_nan y) eqn:Ey; cbn [andb].
  - by rewrite Nx, Ny by done.
  - rewrite Nx by done. change (f64_eqb MAL_VALUE_NAN y) with false.
    change (MAL_VALUE_NAN =? MAL_VALUE_NEGATIVE_ZERO) with false. cbn [orb].
    destruct (Z.eqb_spec y MAL_VALUE_NEGATIVE_ZERO); [done|].
    apply Z.eqb_neq. intros <-. done.
  - rewrite Ny by done. rewrite f64_eqb_sym. change (f64_eqb MAL_VALUE_NAN x) with false.
    change (MAL_VALUE_NAN =? MAL_VALUE_NEGATIVE_ZERO) with false. cbn [orb].
    destruct (Z.eqb_spec x MAL_VALUE_NEGATIVE_ZERO); [done|].
    apply Z.eqb_neq. intros ->. done.
  - rewrite orb_false_r. unfold MAL_VALUE_NEGATIVE_ZERO.
    destruct (f64_eqb x y) eqn:E.
    + apply f64_eqb_bits in E as [->|[Mx My]]; [|..|done|done].
      * by rewrite Z.eqb_refl.
      * apply f64_zero_bits in Mx as [->| ->]; [..|done]; apply f64_zero_bits in My as [->| ->]; done.
    + apply Z.eqb_neq. intros Eq.
      assert (x = y \/ (x = 2 ^ 63 /\ y = 0) \/ (x = 0 /\ y = 2 ^ 63)) as [->|[[-> ->]|[-> ->]]].
      { destruct (Z.eqb_spec x 0x8000000000000000), (Z.eqb_spec y 0x8000000000000000); lia. }
      * by rewrite f64_eqb_refl in E.
      * done.
      * done.
Qed.

Lemma key_equals_words `{KeyHeap} a b :
  kind_of a = KDouble \/ kind_of b = KDouble -> in_u 64 a -> in_u 64 b ->
  mal_key_value_equals a b = (a =? b).
Proof.
  intros Hk Ha Hb. unfold mal_key_value_equals. destruct (a =? b); [done|].
  assert (forall v, in_u 64 v -> kind_of v = KDouble ->
            mal_value_is_string v = false /\ mal_value_is_bigint v = false) as Hn.
  { intros v Hv Hd. rewrite <- !not_true_iff_false, kind_string, kind_bigint, Hd by done. done. }
  destruct Hk as [Hk|Hk]; apply Hn in Hk as [-> ->]; try done. by rewrite !andb_false_r.
Qed.

Lemma canonical_double_kind v x :
  boxed v -> number_of v = Some x -> kind_of (canonical_double x) = KDouble.
Proof.
  intros (Hv & _ & Hn) Hx. unfold canonical_double.
  destruct (Z.eqb_spec x MAL_VALUE_NEGATIVE_ZERO); [done|].
  unfold number_of in Hx. destruct (kind_of v) eqn:Hk; try done; injection Hx as <-; [done|].
  apply of_int_kind, i32_abs, to_i32_range.
Qed.

Lemma number_nan v x :
  boxed v -> number_of v = Some x -> f64_is_nan x = true -> x = MAL_VALUE_NAN.
Proof.
  intros (_ & _ & Hn) Hx. unfold number_of in Hx.
  destruct (kind_of v) eqn:Hk; try done; injection Hx as <-; [auto|].
  rewrite f64_of_int_not_nan; [done|]. apply i32_abs, to_i32_range.
Qed.

Lemma canonical_double_range x : in_u 64 x -> in_u 64 (canonical_double x).
Proof. unfold canonical_double, in_u. destruct (_ =? _); lia. Qed.

(** Canonicalisation followed by the stored-key comparison is SameValueZero. *)
Lemma canonical_same_value_zero `{H : KeyHeap, HL : !KeyHeapLaws H} a b :
  boxed a -> boxed b ->
  mal_key_value_equals (mal_collection_canonical_value a) (mal_collection_canonical_value b)
  = same_value_zero a b.
Proof.
  intros Ba Bb. pose proof (proj1 Ba) as Ha. pose proof (proj1 Bb) as Hb.
  unfold same_value_zero.
  destruct (number_of a) as [x|] eqn:Na, (number_of b) as [y|] eqn:Nb.
  - destruct (canonical_number_of a x Ha Na) as [-> Hx].
    destruct (canonical_number_of b y Hb Nb) as [-> Hy].
    rewrite key_equals_words by (eauto using canonical_double_kind, canonical_double_range).
    apply canonical_double_eq; eauto using number_nan.
  - destruct (canonical_number_of a x Ha Na) as [-> Hx].
    destruct (canonical_not_number b Hb Nb) as [-> Hk].
    pose proof (canonical_double_kind a x Ba Na) as Kx.
    rewrite key_equals_words by (eauto using canonical_double_range).
    apply Z.eqb_neq. congruence.
  - destruct (canonical_not_number a Ha Na) as [-> Hk].
    destruct (canonical_number_of b y Hb Nb) as [-> Hy].
    pose proof (canonical_double_kind b y Bb Nb) as Ky.
    rewrite key_equals_words by (eauto using canonical_double_range).
    apply Z.eqb_neq. congruence.
  - destruct (canonical_not_number a Ha Na) as [-> Ka].
    destruct (canonical_not_number b Hb Nb) as [-> Kb].
    unfold mal_key_value_equals. change mal_value_is_string with (kind_test KString).
    change mal_value_is_bigint with (kind_test KBigInt).
    assert (forall v k, in_u 64 v -> kind_test k v = bool_decide (kind_of v = k)) as Hkt.
    { intros v k Hv. case_bool_decide as E; [by apply kind_test_iff|].
      apply not_true_iff_false. by rewrite kind_test_iff. }
    rewrite !Hkt by done.
    destruct (Z.eqb_spec a b) as [->|]; [|by destruct (kind_of a), (kind_of b)].
    destruct (kind_of b); try done.
    + by rewrite string_equals_refl.
    + by rewrite Z.eqb_refl.
Qed.

(** The unboxed canonicalisation agrees with boxing first. *)
Lemma canonical_number_boxed n :
  in_u 64 n ->
  mal_collection_canonical_number n
  = mal_collection_canonical_value (mal_value_from_f64_convert_nan n).
Proof.
  intros Hn. destruct (convert_nan_spec n Hn) as (Hk & Hr & Hv).
  set (v := mal_value_from_f64_convert_nan n) in *.
  assert (number_of v = Some v) as Hno by (unfold number_of; by rewrite Hk).
  destruct (canonical_number_of v v Hr Hno) as [-> _].
  unfold mal_collection_canonical_number, canonical_double.
  destruct (f64_is_nan n) eqn:En.
  - rewrite Hv. assert (f64_eqb n 0 = false) as -> by (unfold f64_eqb; by rewrite En).
    change (v = MAL_VALUE_NAN). done.
  - unfold mal_value_to_f64 in Hv. rewrite Hv.
    destruct (f64_eqb n 0) eqn:E0.
    + apply f64_eqb_bits in E0 as [->|[Mn _]]; [done| |done|unfold in_u; lia].
      apply f64_zero_bits in Mn as [->| ->]; done.
    + destruct (Z.eqb_spec n MAL_VALUE_NEGATIVE_ZERO) as [->|]; [done|]. exact Hv.
Qed.

(** * Index keys *)

Lemma f64_rank_of_int n : 0 <= n < 2 ^ 53 -> f64_rank (f64_of_int n) = f64_magnitude (f64_of_int n).
Proof.
  intros Hn. unfold f64_rank. destruct (decide (n = 0)) as [->|]; [done|].
  rewrite f64_sign_of_int by lia. destruct (Z.ltb_spec n 0); [lia|done].
Qed.

(** The double order of small naturals is their order. *)
Lemma f64_magnitude_mono m n :
  0 <= m -> m < n -> n < 2 ^ 53 -> f64_magnitude (f64_of_int m) < f64_magnitude (f64_of_int n).
Proof.
  intros Hm Hmn Hn. rewrite (f64_magnitude_of_int n) by lia.
  pose proof (of_int_log n ltac:(lia) ltac:(lia)) as (Hl & Ha).
  pose proof (of_int_fraction n ltac:(lia) ltac:(lia)) as Hf.
  destruct (decide (m = 0)) as [->|].
  { change (f64_magnitude (f64_of_int 0)) with 0. lia. }
  rewrite (f64_magnitude_of_int m) by lia.
  pose proof (of_int_log m ltac:(lia) ltac:(lia)) as (Hl' & Ha').
  pose proof (of_int_fraction m ltac:(lia) ltac:(lia)) as Hf'.
  rewrite !Z.abs_eq in * by lia.
  destruct (Z.lt_total (Z.log2 m) (Z.log2 n)) as [Hlt|[Heq|Hgt]].
  - nia.
  - rewrite Heq in *. assert (0 < 2 ^ (52 - Z.log2 n)) by (apply Z.pow_pos_nonneg; lia). nia.
  - pose proof (Z.log2_le_mono m n). lia.
Qed.

(** A word [mal_value_from_u32] makes for an array index is classified as an
    index again, and reads back. *)
Lemma from_u32_index n :
  0 <= n < UINT32_MAX ->
  mal_key_kind_of (mal_value_from_u32 n) = MAL_KEY_INDEX /\
  mal_key_index_value (mkKey MAL_KEY_INDEX (mal_value_from_u32 n)) = Ret n.
Proof.
  unfold UINT32_MAX. intros Hn. unfold mal_key_index_value, mal_value_from_u32.
  assert (forall v, in_u 64 v -> kind_of v <> KString /\ kind_of v <> KSymbol /\ kind_of v <> KObject ->
    mal_value_is_string v = false /\ mal_value_is_symbol v = false /\ mal_value_is_object v = false) as Hk.
  { intros v Hv (? & ? & ?). split_and!; apply not_true_iff_false;
      [rewrite (kind_test_iff v KString)|rewrite (kind_test_iff v KSymbol)
      |rewrite (kind_test_iff v KObject)]; done. }
  destruct (Z.leb_spec n INT32_MAX) as [Hle|Hgt]; unfold INT32_MAX in *.
  - assert (in_i 32 n) as Hi by (unfold in_i; simpl; lia).
    assert (Z.lor MAL_VALUE_INT32 n = mal_value_from_i32 n) as ->.
    { unfold mal_value_from_i32, u32. rewrite wrap_small; [done|unfold in_u; lia]. }
    pose proof (from_i32_kind n Hi) as Kn. pose proof (from_i32_range n Hi) as Hr.
    pose proof (proj2 (kind_int32 _ Hr) Kn) as Hint.
    destruct (Hk _ Hr) as (E1 & E2 & E3); [by rewrite Kn|].
    unfold mal_key_kind_of. simpl. rewrite E1, E2, E3, Hint, to_i32_from_i32 by done.
    split; [done|]. unfold u32. rewrite wrap_small; [done|unfold in_u; lia].
  - assert (Z.abs n < 2 ^ 53) as Ha by lia.
    pose proof (of_int_kind n Ha) as Kn. pose proof (f64_of_int_range n Ha) as Hr.
    destruct (Hk _ Hr) as (E1 & E2 & E3); [by rewrite Kn|].
    assert (mal_value_is_int32 (f64_of_int n) = false) as E4.
    { apply not_true_iff_false. rewrite kind_int32 by done. congruence. }
    assert (u32 (f64_to_int (f64_of_int n)) = n) as Eu.
    { rewrite f64_to_of_int by done. unfold u32. rewrite wrap_small; [done|unfold in_u; lia]. }
    unfold mal_key_kind_of. simpl. unfold mal_value_to_f64.
    rewrite E1, E2, E3, E4, (proj2 (kind_f64 _ Hr) Kn), Eu.
    split; [|done]. rewrite f64_eqb_refl by (by apply f64_of_int_not_nan).
    unfold f64_leb, f64_ltb. rewrite !f64_of_int_not_nan by (done || (unfold UINT32_MAX; lia)).
    rewrite !f64_rank_of_int by (unfold UINT32_MAX; lia).
    pose proof (f64_magnitude_range (f64_of_int n)).
    pose proof (f64_magnitude_mono n UINT32_MAX). unfold UINT32_MAX in *.
    change (f64_rank 0) with 0. change (f64_is_nan 0) with false. cbn [negb andb].
    destruct (Z.leb_spec 0 (f64_magnitude (f64_of_int n))); [|lia].
    destruct (Z.ltb_spec (f64_magnitude (f64_of_int n)) (f64_magnitude (f64_of_int (2 ^ 32 - 1)))); [done|lia].
Qed.

(** * The string heap as a key heap *)

(** [mal_string_equals] always answers (HeapStringSpec), so the last case is
    never taken on a well-formed heap. *)
#[export] Instance string_key_heap (strings : Z -> MalString) (bigints : Z -> Z) : KeyHeap := {|
  string_equals p q :=
    match mal_string_equals (strings p) (strings q) with Ret b => b | _ => false end;
  string_hash p := fst (mal_string_hash (strings p));
  bigint_value := bigints;
|}.

Lemma string_hash_value s :
  wf_string s -> fst (mal_string_hash s) = mal_string_hash_code_units (units s).
Proof.
  intros Hw. unfold mal_string_hash.
  destruct (str_hash_valid (str_info s)) eqn:E; [|by apply hash_slow_value].
  pose proof (wf_info s Hw) as (_ & Hv & _). by apply Hv.
Qed.

Lemma string_key_heap_laws strings bigints :
  string_heap_ok strings -> (forall p, in_i 128 (bigints p)) ->
  KeyHeapLaws (string_key_heap strings bigints).
Proof.
  intros Hok Hb. pose proof (sh_wf _ Hok) as Hwf.
  split; simpl; intros; rewrite ?string_equals_ok in * by done; try done.
  - by apply bool_decide_eq_true_2.
  - apply bool_decide_ext. done.
  - apply bool_decide_eq_true in H, H0. apply bool_decide_eq_true_2. congruence.
  - apply bool_decide_eq_true in H. by rewrite !string_hash_value, H by done.
  - rewrite string_hash_value by done. pose proof (hash_range (units (strings p))).
    unfold in_u in *. lia.
Qed.
