(* ===== verification/HashIndex.v ===== *)
(** The grouped hash index of runtime/src/hash_index.h, shared by the Map, Set
    and property stores: control bytes in aligned groups of sixteen, lookup by
    a seven-bit tag, triangular probing over the groups, and tombstones. *)

From S2P Require Import Prelude.

Definition MAL_HASH_GROUP_WIDTH : Z := 16.
Definition MAL_HASH_EMPTY : Z := 0x80.
Definition MAL_HASH_DELETED : Z := 0xfe.

Record MalHashProbe : Type := mkProbe {
  probe_group : Z;
  probe_stride : Z;
  probe_mask : Z;
}.

Definition mal_hash_tag (hash : Z) : Z := u8 (Z.shiftr hash 57).

(** The index block is [capacity] 4-byte slots followed by [capacity] control
    bytes; the model keeps the two lanes as two lists. *)
Definition mal_hash_index_bytes (capacity : Z) : outcome Z :=
  if SIZE_MAX / (4 + 1) <? capacity then Abort else Ret (capacity * (4 + 1)).

Definition mal_hash_index_reset (controls : list Z) (capacity : Z) : list Z :=
  replicate (Z.to_nat capacity) MAL_HASH_EMPTY.

(** [__builtin_ctzll]; the code calls it on nonzero masks only. *)
Fixpoint ctz_pos (p : positive) : Z :=
  match p with
  | xO q => 1 + ctz_pos q
  | _ => 0
  end.
Definition ctz (m : Z) : Z :=
  match m with
  | Zpos p => ctz_pos p
  | _ => 0
  end.

Section index.
(** 2 on NEON, where a lane owns four mask bits, 0 elsewhere. *)
Variable MAL_HASH_MASK_SHIFT : Z.

Definition mal_hash_group_match_scalar (controls : list Z) (group tag : Z) : Z :=
  fold_left
    (fun mask i =>
       if arr_get controls (group + i) =? tag
       then Z.lor mask (Z.shiftl 1 (Z.shiftl i MAL_HASH_MASK_SHIFT))
       else mask)
    (seqZ 0 MAL_HASH_GROUP_WIDTH) 0.

(** The vector variants compute the same mask, one bit per matching lane. *)
Definition mal_hash_group_match (controls : list Z) (group tag : Z) : Z :=
  mal_hash_group_match_scalar controls group tag.

Definition mal_hash_mask_first (mask : Z) : Z := Z.shiftr (ctz mask) MAL_HASH_MASK_SHIFT.

Definition mal_hash_probe (hash capacity : Z) : MalHashProbe :=
  mkProbe
    (Z.land (Z.land (u32 hash) (capacity - 1)) (Z.lnot (MAL_HASH_GROUP_WIDTH - 1)))
    0 (capacity - 1).

Definition mal_hash_probe_next (probe : MalHashProbe) : outcome MalHashProbe :=
  let stride := u32 (probe_stride probe + MAL_HASH_GROUP_WIDTH) in
  if probe_mask probe <? stride then Abort
  else Ret (mkProbe (Z.land (u32 (probe_group probe + stride)) (probe_mask probe))
                    stride (probe_mask probe)).

Definition mal_hash_slot_live (controls : list Z) (slot : Z) : bool :=
  arr_get controls slot <? MAL_HASH_EMPTY.

Definition mal_hash_index_insert (slots controls : list Z) (slot entry hash : Z)
  : list Z * list Z :=
  (arr_set slots slot entry, arr_set controls slot (mal_hash_tag hash)).

Fixpoint empty_slot_loop (fuel : nat) (controls : list Z) (probe : MalHashProbe)
  : outcome Z :=
  match fuel with
  | O => NoFuel
  | S fuel =>
      let empty := mal_hash_group_match controls (probe_group probe) MAL_HASH_EMPTY in
      if negb (empty =? 0)
      then Ret (probe_group probe + mal_hash_mask_first empty)
      else probe ← mal_hash_probe_next probe; empty_slot_loop fuel controls probe
  end.

(** One iteration per group: [probe_next] aborts past the last one. *)
Definition probe_fuel (capacity : Z) : nat := S (Z.to_nat (capacity / MAL_HASH_GROUP_WIDTH)).

Definition mal_hash_controls_empty_slot (controls : list Z) (capacity hash : Z)
  : outcome Z :=
  empty_slot_loop (probe_fuel capacity) controls (mal_hash_probe hash capacity).

Definition mal_hash_controls_erase (controls : list Z) (slot : Z) : list Z * bool :=
  let group := Z.land slot (Z.lnot (MAL_HASH_GROUP_WIDTH - 1)) in
  let deleted := mal_hash_group_match controls group MAL_HASH_EMPTY =? 0 in
  (arr_set controls slot (if deleted then MAL_HASH_DELETED else MAL_HASH_EMPTY), deleted).

Definition mal_hash_index_fits (size capacity : Z) : bool :=
  size <=? capacity - capacity / 8.

(** The candidate loop of the stores' probes: [while (matches != 0)], testing
    the payload of each lane whose control byte equals the tag. *)
Fixpoint probe_candidates (fuel : nat) (hit : Z -> bool) (group matches : Z) : option Z :=
  match fuel with
  | O => None
  | S fuel =>
      if matches =? 0 then None
      else
        let slot := group + mal_hash_mask_first matches in
        if hit slot then Some slot
        else probe_candidates fuel hit group (Z.land matches (matches - 1))
  end.

(** The probe loop shared by the stores ([mal_map_probe_in] and its Set and
    table counterparts): a hit returns the bucket, a miss returns UINT32_MAX
    for a lookup and a reusable bucket for an insertion. *)
Fixpoint probe_loop (fuel : nat) (controls : list Z) (hit : Z -> bool) (tag : Z)
    (insert : bool) (probe : MalHashProbe) (available : Z) : outcome Z :=
  match fuel with
  | O => NoFuel
  | S fuel =>
      let group := probe_group probe in
      match probe_candidates 16 hit group (mal_hash_group_match controls group tag) with
      | Some slot => Ret slot
      | None =>
          let available :=
            if insert && (available =? UINT32_MAX) then
              let deleted := mal_hash_group_match controls group MAL_HASH_DELETED in
              if negb (deleted =? 0) then group + mal_hash_mask_first deleted
              else available
            else available in
          let empty := mal_hash_group_match controls group MAL_HASH_EMPTY in
          if negb (empty =? 0) then
            if negb insert then Ret UINT32_MAX
            else Ret (if available =? UINT32_MAX
                      then group + mal_hash_mask_first empty else available)
          else
            probe ← mal_hash_probe_next probe;
            probe_loop fuel controls hit tag insert probe available
      end
  end.

Definition grouped_probe (controls : list Z) (capacity : Z) (hit : Z -> bool)
    (hash : Z) (insert : bool) : outcome Z :=
  probe_loop (probe_fuel capacity) controls hit (mal_hash_tag hash) insert
    (mal_hash_probe hash capacity) UINT32_MAX.
End index.

(** * Candidate masks *)

Lemma ctz_double m : 0 < m -> ctz (2 * m) = 1 + ctz m.
Proof. destruct m; try lia. done. Qed.

Lemma ctz_pow2_mul w m : 0 <= w -> 0 < m -> ctz (2 ^ w * m) = w + ctz m.
Proof.
  intros Hw Hm. revert w Hw. apply natlike_ind.
  - by rewrite Z.mul_1_l.
  - intros w Hw IH. rewrite Z.pow_succ_r, <- Z.mul_assoc by lia.
    rewrite ctz_double, IH; lia.
Qed.

Lemma ctz_odd m : ctz (1 + 2 * m) = 0.
Proof. destruct m as [|p|p]; [done|done|]. by destruct p. Qed.

(** [m & (m - 1)] drops the lowest set bit. *)
Lemma land_pred_odd m : Z.land (1 + 2 * m) (1 + 2 * m - 1) = 2 * m.
Proof.
  replace (1 + 2 * m - 1) with (2 * m) by lia.
  replace (1 + 2 * m) with (2 * m + 1) by lia.
  apply Z.bits_inj'. intros i Hi. rewrite Z.land_spec.
  destruct (decide (i = 0)) as [->|].
  - by rewrite Z.testbit_even_0, andb_false_r.
  - replace i with (Z.succ (i - 1)) by lia.
    rewrite Z.testbit_odd_succ, Z.testbit_even_succ by lia.
    apply andb_diag.
Qed.

Lemma land_pred_double m : Z.land (2 * m) (2 * m - 1) = 2 * Z.land m (m - 1).
Proof.
  replace (2 * m - 1) with (2 * (m - 1) + 1) by lia.
  apply Z.bits_inj'. intros i Hi. rewrite Z.land_spec.
  destruct (decide (i = 0)) as [->|].
  - by rewrite !Z.testbit_even_0.
  - replace i with (Z.succ (i - 1)) by lia.
    by rewrite Z.testbit_odd_succ, !Z.testbit_even_succ, Z.land_spec by lia.
Qed.

Lemma land_pred_pow2_mul w m :
  0 <= w -> Z.land (2 ^ w * m) (2 ^ w * m - 1) = 2 ^ w * Z.land m (m - 1).
Proof.
  intros Hw. revert w Hw. apply natlike_ind.
  - by rewrite !Z.mul_1_l.
  - intros w Hw IH. rewrite Z.pow_succ_r, <- !Z.mul_assoc by lia.
    by rewrite land_pred_double, IH.
Qed.

(** A mask as a list of lanes, [w] bits per lane. *)
Fixpoint lane_mask (w : Z) (lanes : list bool) : Z :=
  match lanes with
  | [] => 0
  | b :: lanes => Z.b2z b + 2 ^ w * lane_mask w lanes
  end.

Lemma lane_mask_nonneg w lanes : 0 <= lane_mask w lanes.
Proof.
  induction lanes as [|b lanes IH]; simpl; [lia|].
  assert (0 <= 2 ^ w) by (apply Z.pow_nonneg; lia).
  destruct b; simpl; nia.
Qed.

Lemma lane_mask_zero w lanes :
  0 <= w -> lane_mask w lanes = 0 <-> Forall (fun b => b = false) lanes.
Proof.
  intros Hw. induction lanes as [|b lanes IH]; simpl.
  - split; [constructor|done].
  - pose proof (lane_mask_nonneg w lanes).
    assert (0 < 2 ^ w) by (apply Z.pow_pos_nonneg; lia).
    rewrite Forall_cons, <- IH. destruct b; simpl; nia.
Qed.

Section lanes.
Variable S : Z.
Hypothesis HS : 0 <= S.

Let w := 2 ^ S.

Lemma lane_width_pos : 0 < w.
Proof. apply Z.pow_pos_nonneg; lia. Qed.

(** The lanes of one group that carry a given control byte. *)
Definition group_lanes (controls : list Z) (group c : Z) (i : Z) : list bool :=
  map (fun j => arr_get controls (group + j) =? c) (seqZ i (16 - i)).

Lemma fold_mask_spec (f : Z -> bool) n : forall i acc,
  0 <= i -> 0 <= acc < 2 ^ (w * i) ->
  fold_left (fun mask j => if f j then Z.lor mask (Z.shiftl 1 (Z.shiftl j S)) else mask)
    (seqZ i (Z.of_nat n)) acc
  = acc + 2 ^ (w * i) * lane_mask w (map f (seqZ i (Z.of_nat n))).
Proof using HS.
  pose proof lane_width_pos as Hw.
  induction n as [|n IH]; intros i acc Hi Hacc.
  - simpl. lia.
  - rewrite seqZ_cons by lia. cbn [fold_left map lane_mask].
    replace (Z.pred (Z.of_nat (Datatypes.S n))) with (Z.of_nat n) by lia.
    assert (2 ^ (w * Z.succ i) = 2 ^ (w * i) * 2 ^ w) as Hp.
    { rewrite <- Z.pow_add_r by nia. f_equal. lia. }
    assert (1 < 2 ^ w) by (apply Z.pow_gt_1; lia).
    assert (0 < 2 ^ (w * i)) by (apply Z.pow_pos_nonneg; nia).
    assert (Z.shiftl i S = w * i) as Hsh by (rewrite Z.shiftl_mul_pow2 by lia; lia).
    destruct (f i).
    + rewrite Hsh, lor_shiftl_add, IH, Hp by nia. simpl. ring.
    + rewrite IH, Hp by nia. simpl. ring.
Qed.

Lemma group_match_lanes controls group c :
  mal_hash_group_match S controls group c = lane_mask w (group_lanes controls group c 0).
Proof using HS.
  unfold mal_hash_group_match, mal_hash_group_match_scalar.
  pose proof (fold_mask_spec (fun j => arr_get controls (group + j) =? c) 16 0 0) as H.
  rewrite Z.mul_0_r in H. change (Z.of_nat 16) with 16 in H.
  change MAL_HASH_GROUP_WIDTH with 16. unfold group_lanes.
  rewrite H by lia. simpl (2 ^ 0). rewrite Z.mul_1_l. done.
Qed.

Lemma mask_first_lane i m :
  0 <= i -> mal_hash_mask_first S (2 ^ (w * i) * (1 + 2 ^ w * m)) = i \/ m < 0.
Proof using HS.
  intros Hi. pose proof lane_width_pos as Hw.
  destruct (Z.ltb_spec m 0) as [|Hm]; [by right|left].
  assert (0 < 2 ^ w) by (apply Z.pow_pos_nonneg; lia).
  unfold mal_hash_mask_first. rewrite ctz_pow2_mul by nia.
  replace (2 ^ w * m) with (2 * (2 ^ (w - 1) * m))
    by (rewrite Z.mul_assoc, <- Z.pow_succ_r by lia; do 2 f_equal; lia).
  rewrite ctz_odd, Z.add_0_r, Z.shiftr_div_pow2 by lia.
  fold w. rewrite Z.mul_comm, Z.div_mul; lia.
Qed.

Lemma land_pred_lane i m :
  0 <= i ->
  Z.land (2 ^ (w * i) * (1 + 2 ^ w * m)) (2 ^ (w * i) * (1 + 2 ^ w * m) - 1)
  = 2 ^ (w * Z.succ i) * m.
Proof using HS.
  intros Hi. pose proof lane_width_pos as Hw.
  rewrite land_pred_pow2_mul by nia.
  replace (2 ^ w * m) with (2 * (2 ^ (w - 1) * m))
    by (rewrite Z.mul_assoc, <- Z.pow_succ_r by lia; do 2 f_equal; lia).
  rewrite land_pred_odd.
  replace (w * Z.succ i) with (w * i + w) by lia.
  rewrite Z.pow_add_r by nia.
  replace (2 ^ w) with (2 * 2 ^ (w - 1))
    by (rewrite <- Z.pow_succ_r by lia; f_equal; lia). ring.
Qed.

(** The lowest set lane of a nonzero mask. *)
Lemma mask_first_spec f n : forall i,
  0 <= i -> lane_mask w (map f (seqZ i (Z.of_nat n))) <> 0 ->
  exists j, mal_hash_mask_first S (2 ^ (w * i) * lane_mask w (map f (seqZ i (Z.of_nat n)))) = j
    /\ i <= j < i + Z.of_nat n /\ f j = true.
Proof using HS.
  induction n as [|n IH]; intros i Hi; [done|].
  rewrite seqZ_cons by lia. cbn [map lane_mask].
  replace (Z.pred (Z.of_nat (Datatypes.S n))) with (Z.of_nat n) by lia.
  pose proof (lane_mask_nonneg w (map f (seqZ (Z.succ i) (Z.of_nat n)))).
  destruct (f i) eqn:Hf; simpl Z.b2z; intros Hm.
  - exists i. split; [|split; [lia|done]].
    destruct (mask_first_lane i (lane_mask w (map f (seqZ (Z.succ i) (Z.of_nat n)))));
      [done|done|lia].
  - rewrite Z.add_0_l in *. rewrite Z.mul_assoc, <- Z.pow_add_r
      by (pose proof lane_width_pos; nia).
    replace (w * i + w) with (w * Z.succ i) by lia.
    assert (lane_mask w (map f (seqZ (Z.succ i) (Z.of_nat n))) <> 0) as Hm' by nia.
    apply IH in Hm' as (j & Hj & Hr & Hfj); [|lia].
    exists j. split; [done|]. split; [lia|done].
Qed.

(** The candidate loop visits exactly the lanes of the mask, in order. *)
Lemma candidates_spec f hit group n : forall i fuel,
  0 <= i -> (n <= fuel)%nat ->
  match probe_candidates S fuel hit group
          (2 ^ (w * i) * lane_mask w (map f (seqZ i (Z.of_nat n)))) with
  | Some slot => exists j, slot = group + j /\ i <= j < i + Z.of_nat n
                           /\ f j = true /\ hit slot = true
  | None => forall j, i <= j < i + Z.of_nat n -> f j = true -> hit (group + j) = false
  end.
Proof using HS.
  induction n as [|n IH]; intros i fuel Hi Hfuel.
  - simpl. rewrite Z.mul_0_r. destruct fuel; simpl; intros; lia.
  - destruct fuel as [|fuel]; [lia|].
    rewrite seqZ_cons by lia. cbn [map lane_mask].
    replace (Z.pred (Z.of_nat (Datatypes.S n))) with (Z.of_nat n) by lia.
    set (m := lane_mask w (map f (seqZ (Z.succ i) (Z.of_nat n)))) in *.
    assert (0 <= m) by apply lane_mask_nonneg.
    pose proof lane_width_pos as Hw.
    assert (0 < 2 ^ (w * i)) by (apply Z.pow_pos_nonneg; nia).
    assert (0 < 2 ^ w) by (apply Z.pow_pos_nonneg; lia).
    destruct (f i) eqn:Hf; simpl Z.b2z.
    + cbn [probe_candidates].
      destruct (Z.eqb_spec (2 ^ (w * i) * (1 + 2 ^ w * m)) 0); [nia|].
      destruct (mask_first_lane i m Hi) as [->|]; [|lia].
      destruct (hit (group + i)) eqn:Hh.
      * exists i. split; [done|]. split; [lia|done].
      * rewrite land_pred_lane by done.
        specialize (IH (Z.succ i) fuel). fold m in IH.
        destruct (probe_candidates S fuel hit group (2 ^ (w * Z.succ i) * m)).
        -- destruct IH as (j & ? & ? & ?); [lia|lia|]. exists j. split; [done|]. split; [lia|done].
        -- intros j Hj Hfj. destruct (decide (j = i)) as [->|]; [done|].
           apply IH; [lia|lia|lia|done].
    + rewrite Z.add_0_l, Z.mul_assoc, <- Z.pow_add_r by nia.
      replace (w * i + w) with (w * Z.succ i) by lia.
      specialize (IH (Z.succ i) (Datatypes.S fuel)). fold m in IH.
      destruct (probe_candidates S (Datatypes.S fuel) hit group (2 ^ (w * Z.succ i) * m)).
      * destruct IH as (j & ? & ? & ?); [lia|lia|]. exists j. split; [done|]. split; [lia|done].
      * intros j Hj Hfj. destruct (decide (j = i)) as [->|]; [congruence|].
        apply IH; [lia|lia|lia|done].
Qed.

(** ** Matching one group *)

Definition group_has (controls : list Z) (group c : Z) : Prop :=
  exists i, 0 <= i < 16 /\ arr_get controls (group + i) = c.

Lemma group_match_zero controls group c :
  mal_hash_group_match S controls group c = 0 <-> ~ group_has controls group c.
Proof using HS.
  pose proof lane_width_pos. rewrite group_match_lanes, lane_mask_zero by lia.
  unfold group_lanes, group_has. rewrite Forall_map, Forall_forall. split.
  - intros H' (i & Hi & Hc). specialize (H' i). simpl in H'.
    rewrite elem_of_seqZ in H'. specialize (H' ltac:(lia)). lia.
  - intros H' i Hi%elem_of_seqZ. simpl. apply Z.eqb_neq.
    intros Hc. apply H'. exists i. split; [lia|done].
Qed.

Lemma group_match_first controls group c :
  mal_hash_group_match S controls group c <> 0 ->
  exists i, mal_hash_mask_first S (mal_hash_group_match S controls group c) = i
    /\ 0 <= i < 16 /\ arr_get controls (group + i) = c.
Proof using HS.
  rewrite group_match_lanes. unfold group_lanes. intros Hm.
  pose proof (mask_first_spec (fun j => arr_get controls (group + j) =? c) 16 0) as H.
  rewrite Z.mul_0_r, Z.mul_1_l in H. change (Z.of_nat 16) with (16 - 0) in H.
  destruct H as (j & Hj & Hr & Hc); [lia|done|].
  exists j. split; [done|]. split; [lia|]. by apply Z.eqb_eq.
Qed.

Lemma group_candidates_spec controls hit group tag :
  match probe_candidates S 16 hit group (mal_hash_group_match S controls group tag) with
  | Some slot => exists j, slot = group + j /\ 0 <= j < 16
                           /\ arr_get controls slot = tag /\ hit slot = true
  | None => forall j, 0 <= j < 16 -> arr_get controls (group + j) = tag ->
                      hit (group + j) = false
  end.
Proof using HS.
  rewrite group_match_lanes. unfold group_lanes.
  pose proof (candidates_spec (fun j => arr_get controls (group + j) =? tag)
                hit group 16 0 16) as H.
  rewrite Z.mul_0_r, Z.mul_1_l in H. change (Z.of_nat 16) with (16 - 0) in H.
  specialize (H ltac:(lia) ltac:(lia)).
  destruct (probe_candidates S 16 hit group _).
  - destruct H as (j & -> & Hr & Hf & Hh). exists j.
    repeat split; [lia|lia|by apply Z.eqb_eq|done].
  - intros j Hj Ht. apply H; [lia|]. by apply Z.eqb_eq.
Qed.
End lanes.

(** * The probe sequence *)

(** Capacities are powers of two of at least one group. *)
Definition capacity_ok (capacity : Z) : Prop :=
  exists m, 0 <= m <= 26 /\ capacity = 16 * 2 ^ m.

Definition triangular (k : Z) : Z := k * (k + 1) / 2.

Lemma triangular_double k : 2 * triangular k = k * (k + 1).
Proof.
  unfold triangular. pose proof (Z.div_mod (k * (k + 1)) 2).
  assert ((k * (k + 1)) mod 2 = 0); [|lia].
  rewrite Z.mul_mod by lia. rewrite (Z.add_mod k 1) by lia.
  pose proof (Z.mod_pos_bound k 2). assert (k mod 2 = 0 \/ k mod 2 = 1) as [-> | ->] by lia; done.
Qed.

Lemma triangular_succ k : triangular (k + 1) = triangular k + (k + 1).
Proof. pose proof (triangular_double k). pose proof (triangular_double (k + 1)). lia. Qed.

(** The group visited at step [k]. *)
Definition group_at (capacity hash k : Z) : Z :=
  16 * (((hash mod capacity) / 16 + triangular k) mod (capacity / 16)).

(** Distinct steps below the number of groups visit distinct groups. *)
Lemma pow2_divide_odd_mul m a b :
  0 <= m -> Z.odd a = true -> (2 ^ m | a * b) -> (2 ^ m | b).
Proof.
  intros Hm Ha. revert b. pattern m. revert m Hm. apply natlike_ind.
  - intros b _. apply Z.divide_1_l.
  - intros m Hm IH b [q Hq]. rewrite Z.pow_succ_r in * by done.
    assert (Z.odd b = false) as Hb.
    { assert (Z.odd (a * b) = false) as H by (rewrite Hq, !Z.odd_mul; apply andb_false_r).
      rewrite Z.odd_mul, Ha in H. done. }
    rewrite <- Z.negb_even in Hb.
    apply negb_false_iff, Z.even_spec in Hb as [c ->].
    apply Z.mul_divide_mono_l, IH. exists q. lia.
Qed.

Lemma triangular_inj m i j :
  0 <= m -> 0 <= i < 2 ^ m -> 0 <= j < 2 ^ m -> i < j ->
  (triangular i - triangular j) mod 2 ^ m <> 0.
Proof.
  intros Hm Hi Hj Hij H.
  apply Z.mod_divide in H as [q Hq]; [|apply Z.pow_nonzero; lia].
  pose proof (triangular_double i). pose proof (triangular_double j).
  assert ((2 ^ (m + 1)) * (- q) = (j - i) * (i + j + 1)) as Hprod.
  { rewrite Z.pow_add_r by lia. nia. }
  assert (2 ^ (m + 1) = 2 * 2 ^ m) as Hp by (rewrite Z.pow_add_r by lia; lia).
  assert (forall x, 0 < x < 2 ^ (m + 1) -> ~ (2 ^ (m + 1) | x)) as Hnd.
  { intros x Hx Hd. apply Z.divide_pos_le in Hd; lia. }
  destruct (Z.odd (j - i)) eqn:Ho.
  - apply (Hnd (i + j + 1)); [lia|].
    apply pow2_divide_odd_mul with (j - i); [lia|done|]. exists (- q). lia.
  - apply (Hnd (j - i)); [lia|].
    apply pow2_divide_odd_mul with (i + j + 1); [lia| |exists (- q); lia].
    replace (i + j + 1) with ((j - i) + (2 * i + 1)) by lia.
    rewrite Z.odd_add, Ho, Z.odd_add, Z.odd_mul. done.
Qed.

Lemma land_group_mask x : 0 <= x -> Z.land x (Z.lnot (MAL_HASH_GROUP_WIDTH - 1)) = 16 * (x / 16).
Proof.
  intros Hx. change (MAL_HASH_GROUP_WIDTH - 1) with (Z.ones 4).
  rewrite <- Z.ldiff_land, Z.ldiff_ones_r by lia.
  rewrite Z.shiftl_mul_pow2, Z.shiftr_div_pow2 by lia. change (2 ^ 4) with 16. lia.
Qed.

Section probing.
Variable capacity : Z.
Hypothesis Hcap : capacity_ok capacity.

Let n := capacity / 16.

Lemma groups_spec : exists m, 0 <= m <= 26 /\ n = 2 ^ m /\ capacity = 16 * n.
Proof using Hcap.
  destruct Hcap as (m & Hm & ->). exists m. split; [done|].
  subst n. rewrite Z.mul_comm, Z.div_mul by lia. lia.
Qed.

Lemma groups_pos : 0 < n.
Proof using Hcap.
  destruct groups_spec as (m & Hm & -> & _). apply Z.pow_pos_nonneg; lia.
Qed.

Lemma capacity_eq : capacity = 16 * n.
Proof using Hcap. by destruct groups_spec as (m & _ & _ & H). Qed.

Lemma capacity_bound : 16 <= capacity <= 2 ^ 30.
Proof using Hcap.
  destruct groups_spec as (m & Hm & Hn & Hc).
  assert (2 ^ m <= 2 ^ 26) by (apply Z.pow_le_mono_r; lia). pose proof groups_pos. lia.
Qed.

Lemma group_at_range hash k : 0 <= group_at capacity hash k <= capacity - 16.
Proof using Hcap.
  unfold group_at. fold n. pose proof groups_pos. pose proof capacity_eq.
  pose proof (Z.mod_pos_bound ((hash mod capacity) / 16 + triangular k) n). lia.
Qed.

Lemma group_at_aligned hash k : group_at capacity hash k mod 16 = 0.
Proof using Type. unfold group_at. by rewrite Z.mul_comm, Z.mod_mul by lia. Qed.

Lemma group_at_inj hash i j :
  0 <= i < n -> 0 <= j < n -> group_at capacity hash i = group_at capacity hash j -> i = j.
Proof using Hcap.
  destruct groups_spec as (m & Hm & Hn & _). unfold group_at. fold n.
  set (b := hash mod capacity / 16). intros Hi Hj H.
  assert ((b + triangular i) mod n = (b + triangular j) mod n) as H' by lia.
  assert (forall x y, (b + triangular x) mod n = (b + triangular y) mod n ->
            (triangular x - triangular y) mod n = 0) as Hd.
  { intros x y E. replace (triangular x - triangular y)
      with ((b + triangular x) - (b + triangular y)) by lia.
    by rewrite Zminus_mod, E, Z.sub_diag. }
  destruct (Z.lt_trichotomy i j) as [Hlt|[?|Hlt]]; [|done|]; exfalso.
  - apply (triangular_inj m i j); [lia|lia|lia|lia|]. rewrite <- Hn. by apply Hd.
  - apply (triangular_inj m j i); [lia|lia|lia|lia|]. rewrite <- Hn. by apply Hd.
Qed.

(** The triangular strides visit every group exactly once. *)
Lemma group_at_cover hash g :
  0 <= g < capacity -> g mod 16 = 0 -> exists k, 0 <= k < n /\ group_at capacity hash k = g.
Proof using Hcap.
  intros Hg Hal. pose proof groups_pos as Hn. pose proof capacity_eq as Hce.
  set (visited := map (group_at capacity hash) (seqZ 0 n)).
  set (all := map (Z.mul 16) (seqZ 0 n)).
  assert (NoDup visited) as Hnd.
  { apply NoDup_fmap_2_strong; [|apply NoDup_seqZ].
    intros i j Hi%elem_of_seqZ Hj%elem_of_seqZ. apply group_at_inj; lia. }
  assert (incl all visited) as Hincl.
  { apply NoDup_length_incl.
    - by apply NoDup_ListNoDup.
    - subst visited all. rewrite !length_map. lia.
    - intros x Hx. subst visited all. apply in_map_iff in Hx as (k & <- & Hk).
      apply in_map_iff. exists (group_at capacity hash k / 16).
      pose proof (group_at_aligned hash k). pose proof (group_at_range hash k).
      pose proof (Z.div_mod (group_at capacity hash k) 16).
      split; [lia|]. apply list_elem_of_In, elem_of_seqZ. lia. }
  assert (In g all) as Hin.
  { subst all. apply in_map_iff. exists (g / 16).
    pose proof (Z.div_mod g 16). split; [lia|].
    apply list_elem_of_In, elem_of_seqZ. lia. }
  apply Hincl, in_map_iff in Hin as (k & <- & Hk).
  exists k. split; [|done]. apply list_elem_of_In, elem_of_seqZ in Hk. lia.
Qed.

(** ** Stepping *)

Lemma mod_capacity_mul x : (16 * x) mod capacity = 16 * (x mod n).
Proof using Hcap.
  pose proof groups_pos. rewrite <- Zmult_mod_distr_l. by rewrite <- capacity_eq.
Qed.

Definition probe_at (hash k : Z) : MalHashProbe :=
  mkProbe (group_at capacity hash k) (16 * k) (capacity - 1).

Lemma land_capacity_mask x : Z.land x (capacity - 1) = x mod capacity.
Proof using Hcap.
  destruct Hcap as (m & Hm & ->).
  replace (16 * 2 ^ m) with (2 ^ (4 + m)) by (rewrite Z.pow_add_r by lia; lia).
  apply land_mask. lia.
Qed.

Lemma u32_mod_capacity x : u32 x mod capacity = x mod capacity.
Proof using Hcap.
  destruct Hcap as (m & Hm & ->). unfold u32, wrap.
  replace (16 * 2 ^ m) with (2 ^ (4 + m)) by (rewrite Z.pow_add_r by lia; lia).
  apply Z.mod_mod_divide.
  exists (2 ^ (28 - m)). rewrite <- Z.pow_add_r by lia. f_equal. lia.
Qed.

Lemma mal_hash_probe_start hash : mal_hash_probe hash capacity = probe_at hash 0.
Proof using Hcap.
  unfold mal_hash_probe, probe_at. f_equal.
  pose proof groups_pos. pose proof capacity_eq.
  pose proof (Z.mod_pos_bound hash capacity).
  rewrite land_capacity_mask, u32_mod_capacity, land_group_mask by lia.
  unfold group_at. fold n. change (triangular 0) with 0. rewrite Z.add_0_r.
  rewrite (Z.mod_small (hash mod capacity / 16)); [done|].
  split; [apply Z.div_pos; lia|]. apply Z.div_lt_upper_bound; lia.
Qed.

Lemma mal_hash_probe_step hash k :
  0 <= k < n ->
  mal_hash_probe_next (probe_at hash k)
  = if k + 1 <? n then Ret (probe_at hash (k + 1)) else Abort.
Proof using Hcap.
  intros Hk. pose proof capacity_bound. pose proof capacity_eq.
  unfold mal_hash_probe_next, probe_at, MAL_HASH_GROUP_WIDTH. simpl.
  unfold u32 at 1. rewrite (wrap_small 32 (16 * k + 16)) by (unfold in_u; lia).
  destruct (Z.ltb_spec (k + 1) n), (Z.ltb_spec (capacity - 1) (16 * k + 16)); try lia; [|done].
  f_equal. pose proof (group_at_range hash k).
  f_equal; [|unfold u32; rewrite wrap_small by (unfold in_u; lia); lia].
  rewrite land_capacity_mask. unfold u32.
  rewrite (wrap_small 32 (16 * k + 16)), wrap_small by (unfold in_u; lia).
  unfold group_at. fold n. rewrite triangular_succ.
  rewrite (Z.add_assoc _ (triangular k)), <- (Zplus_mod_idemp_l _ (k + 1)).
  rewrite <- (mod_capacity_mul (_ + (k + 1))). f_equal. lia.
Qed.
End probing.

(** * What a probe finds *)

(** A bucket is reachable for a hash when no group probed before its own has an
    EMPTY bucket: that is where every search for the hash looks. *)
Definition reachable (capacity : Z) (controls : list Z) (hash slot : Z) : Prop :=
  exists k, 0 <= k < capacity / 16 /\
    group_at capacity hash k = 16 * (slot / 16) /\
    forall j, 0 <= j < k -> ~ group_has controls (group_at capacity hash j) MAL_HASH_EMPTY.

Section probe_spec.
Variable S : Z.
Hypothesis HS : 0 <= S.
Variable capacity : Z.
Hypothesis Hcap : capacity_ok capacity.
Variable controls : list Z.
Hypothesis Hlen : arr_len controls = capacity.
(** Occupancy stays below capacity, so some bucket is EMPTY. *)
Hypothesis Hempty : exists e, 0 <= e < capacity /\ arr_get controls e = MAL_HASH_EMPTY.
Variable hash : Z.

Let n := capacity / 16.
Let has_empty k := group_has controls (group_at capacity hash k) MAL_HASH_EMPTY.

Lemma slot_of_group k i :
  0 <= i < 16 -> 16 * ((group_at capacity hash k + i) / 16) = group_at capacity hash k.
Proof using Type.
  intros Hi. pose proof (group_at_aligned capacity hash k).
  pose proof (Z.div_mod (group_at capacity hash k) 16).
  replace (group_at capacity hash k + i)
    with (i + group_at capacity hash k / 16 * 16) by lia.
  rewrite Z.div_add, Z.div_small; lia.
Qed.

Lemma slot_in_range k i :
  0 <= i < 16 -> 0 <= group_at capacity hash k + i < capacity.
Proof using Hcap. pose proof (group_at_range capacity Hcap hash k). lia. Qed.

(** A slot lies in its own aligned group. *)
Lemma slot_group_lane slot : exists i, 0 <= i < 16 /\ slot = 16 * (slot / 16) + i.
Proof using Type.
  clear. exists (slot mod 16).
  pose proof (Z.mod_pos_bound slot 16). pose proof (Z.div_mod slot 16). lia.
Qed.

Lemma empty_group_exists : exists k, 0 <= k < n /\ has_empty k.
Proof using Hcap Hempty.
  destruct Hempty as (e & He & Hc).
  destruct (group_at_cover capacity Hcap hash (16 * (e / 16))) as (k & Hk & Hg).
  - pose proof (Z.div_mod e 16). pose proof (Z.mod_pos_bound e 16).
    assert (0 <= e / 16) by (apply Z.div_pos; lia). lia.
  - by rewrite Z.mul_comm, Z.mod_mul by lia.
  - exists k. split; [done|]. unfold has_empty. rewrite Hg.
    destruct (slot_group_lane e) as (i & Hi & He'). exists i. split; [done|].
    by rewrite <- He'.
Qed.

Definition no_empty_before (k : Z) : Prop := forall j, 0 <= j < k -> ~ has_empty j.

Lemma no_empty_before_bound k : no_empty_before k -> k < n.
Proof using Hcap Hempty.
  intros H. destruct empty_group_exists as (k' & Hk' & He).
  destruct (Z.ltb_spec k n); [done|]. exfalso. apply (H k'); [lia|done].
Qed.

Lemma no_empty_before_succ k :
  no_empty_before k -> ~ has_empty k -> no_empty_before (k + 1).
Proof using Type.
  intros H Hk j Hj. destruct (decide (j = k)) as [->|]; [done|]. apply H. lia.
Qed.

Lemma reachable_here k i :
  0 <= k -> 0 <= i < 16 -> no_empty_before k ->
  reachable capacity controls hash (group_at capacity hash k + i).
Proof using Hcap Hempty.
  intros Hk Hi Hb. exists k. split; [|split].
  - pose proof (no_empty_before_bound k Hb). subst n. lia.
  - by rewrite slot_of_group.
  - exact Hb.
Qed.

Lemma empty_slot_loop_spec fuel : forall k,
  0 <= k -> no_empty_before k -> (Z.to_nat (n - k) <= fuel)%nat ->
  exists r, empty_slot_loop S fuel controls (probe_at capacity hash k) = Ret r /\
    0 <= r < capacity /\ arr_get controls r = MAL_HASH_EMPTY /\
    reachable capacity controls hash r.
Proof using HS Hcap Hempty.
  induction fuel as [|fuel IH]; intros k Hk Hb Hf;
    pose proof (no_empty_before_bound k Hb) as Hkn; [lia|].
  cbn [empty_slot_loop probe_at probe_group].
  destruct (Z.eqb_spec (mal_hash_group_match S controls (group_at capacity hash k)
                          MAL_HASH_EMPTY) 0) as [Hz|Hz]; cbn [negb].
  - apply group_match_zero in Hz; [|done].
    fold (probe_at capacity hash k).
    rewrite mal_hash_probe_step by (subst n; done || lia). fold n.
    apply no_empty_before_succ in Hz; [|done].
    pose proof (no_empty_before_bound (k + 1) Hz).
    destruct (Z.ltb_spec (k + 1) n); [|lia].
    apply IH; [lia|done|lia].
  - apply group_match_first in Hz as (i & -> & Hi & Hc); [|done].
    eexists. split; [done|]. split; [by apply slot_in_range|]. split; [done|].
    by apply reachable_here.
Qed.

Lemma empty_slot_spec :
  exists r, mal_hash_controls_empty_slot S controls capacity hash = Ret r /\
    0 <= r < capacity /\ arr_get controls r = MAL_HASH_EMPTY /\
    reachable capacity controls hash r.
Proof using HS Hcap Hempty.
  unfold mal_hash_controls_empty_slot. rewrite mal_hash_probe_start by done.
  apply empty_slot_loop_spec; [lia| |unfold probe_fuel, MAL_HASH_GROUP_WIDTH; lia].
  intros j Hj. lia.
Qed.

Variable hit : Z -> bool.

Let tag := mal_hash_tag hash.

Definition no_hit (slot : Z) : Prop :=
  arr_get controls slot = tag -> hit slot = false.

Definition reusable (r : Z) : Prop :=
  0 <= r < capacity /\ reachable capacity controls hash r /\
  (arr_get controls r = MAL_HASH_DELETED \/ arr_get controls r = MAL_HASH_EMPTY).

(** The result of a probe. *)
Definition probe_result (insert : bool) (r : Z) : Prop :=
  (0 <= r < capacity /\ arr_get controls r = tag /\ hit r = true /\
   reachable capacity controls hash r)
  \/ ((forall s, 0 <= s < capacity -> reachable capacity controls hash s -> no_hit s)
      /\ if insert then reusable r else r = UINT32_MAX).

Lemma no_hit_everywhere k :
  0 <= k -> no_empty_before k -> has_empty k ->
  (forall j i, 0 <= j <= k -> 0 <= i < 16 -> no_hit (group_at capacity hash j + i)) ->
  forall s, 0 <= s < capacity -> reachable capacity controls hash s -> no_hit s.
Proof using Type.
  intros Hk Hb He Hn s Hs (j & Hj & Hg & Hbj).
  destruct (slot_group_lane s) as (i & Hi & ->). rewrite <- Hg.
  apply Hn; [|done]. split; [lia|].
  destruct (Z.leb_spec j k); [done|]. exfalso. apply (Hbj k); [lia|done].
Qed.

Lemma probe_loop_spec insert fuel : forall k available,
  0 <= k -> no_empty_before k ->
  (forall j i, 0 <= j < k -> 0 <= i < 16 -> no_hit (group_at capacity hash j + i)) ->
  (available = UINT32_MAX \/ reusable available) ->
  (Z.to_nat (n - k) <= fuel)%nat ->
  exists r, probe_loop S fuel controls hit tag insert (probe_at capacity hash k) available
              = Ret r /\ probe_result insert r.
Proof using HS Hcap Hempty.
  induction fuel as [|fuel IH]; intros k available Hk Hb Hn Hav Hf;
    pose proof (no_empty_before_bound k Hb) as Hkn; [lia|].
  cbn [probe_loop]. change (probe_group (probe_at capacity hash k)) with (group_at capacity hash k).
  pose proof (group_candidates_spec S HS controls hit (group_at capacity hash k) tag) as Hc.
  destruct (probe_candidates S 16 hit _ _) as [slot|].
  { destruct Hc as (i & -> & Hi & Ht & Hh). eexists. split; [done|]. left.
    split; [by apply slot_in_range|]. split; [done|]. split; [done|]. by apply reachable_here. }
  set (available' := if insert && (available =? UINT32_MAX) then _ else available).
  assert (available' = UINT32_MAX \/ reusable available') as Hav'.
  { subst available'. destruct (insert && (available =? UINT32_MAX)); [|done].
    destruct (Z.eqb_spec (mal_hash_group_match S controls (group_at capacity hash k)
                            MAL_HASH_DELETED) 0) as [|Hz]; [done|]. cbn [negb].
    apply group_match_first in Hz as (i & -> & Hi & Hd); [|done].
    right. split; [by apply slot_in_range|]. split; [by apply reachable_here|by left]. }
  assert (forall j i, 0 <= j <= k -> 0 <= i < 16 ->
            no_hit (group_at capacity hash j + i)) as Hn'.
  { intros j i Hj Hi. destruct (decide (j = k)) as [->|].
    - intros Ht. by apply Hc.
    - apply Hn; lia. }
  destruct (Z.eqb_spec (mal_hash_group_match S controls (group_at capacity hash k)
                          MAL_HASH_EMPTY) 0) as [Hz|Hz]; cbn [negb].
  - apply group_match_zero in Hz; [|done].
    rewrite mal_hash_probe_step by (subst n; done || lia). fold n.
    apply no_empty_before_succ in Hz; [|done].
    pose proof (no_empty_before_bound (k + 1) Hz).
    destruct (Z.ltb_spec (k + 1) n); [|lia].
    apply IH; [lia|done| |done|lia]. intros j i Hj Hi. apply Hn'; lia.
  - assert (has_empty k) as He.
    { apply group_match_first in Hz as (i & _ & Hi & He); [|done]. by exists i. }
    apply group_match_first in Hz as (i & -> & Hi & Hc'); [|done].
    pose proof (no_hit_everywhere k Hk Hb He Hn') as Hall.
    destruct insert; cbn [negb]; eexists; (split; [done|]); right; split; try done.
    destruct (Z.eqb_spec available' UINT32_MAX).
    + split; [by apply slot_in_range|]. split; [by apply reachable_here|by right].
    + by destruct Hav'.
Qed.

(** A probe always returns: it finds an equal key wherever it is stored, and
    reports a miss (or a reusable bucket) only when there is none. *)
Lemma grouped_probe_spec insert :
  exists r, grouped_probe S controls capacity hit hash insert = Ret r /\ probe_result insert r.
Proof using HS Hcap Hempty.
  unfold grouped_probe. rewrite mal_hash_probe_start by done.
  apply probe_loop_spec; [lia| | |by left|unfold probe_fuel, MAL_HASH_GROUP_WIDTH; lia].
  - intros j Hj. lia.
  - intros j i Hj. lia.
Qed.
End probe_spec.

(** * The index invariant *)

(** [count P l]: how many elements of [l] satisfy the test. *)
Fixpoint count (P : Z -> bool) (l : list Z) : Z :=
  match l with
  | [] => 0
  | x :: l => Z.b2z (P x) + count P l
  end.

Lemma count_nonneg P l : 0 <= count P l.
Proof. induction l as [|x l IH]; simpl; [lia|]. destruct (P x); simpl; lia. Qed.

Lemma count_set P l i x :
  0 <= i < arr_len l ->
  count P (arr_set l i x) = count P l - Z.b2z (P (arr_get l i)) + Z.b2z (P x).
Proof.
  unfold arr_set, arr_get, arr_len. intros Hi.
  assert (exists k, i = Z.of_nat k) as [k ->] by (exists (Z.to_nat i); lia).
  rewrite Nat2Z.id. clear -Hi. revert k Hi.
  induction l as [|y l IH]; intros [|k] Hi; simpl in *; try lia.
  rewrite IH by lia. lia.
Qed.

Lemma count_replicate P n x : count P (replicate n x) = Z.of_nat n * Z.b2z (P x).
Proof. induction n as [|n IH]; simpl; [lia|]. rewrite IH. lia. Qed.

Lemma count_positive P l :
  0 < count P l -> exists i, 0 <= i < arr_len l /\ P (arr_get l i) = true.
Proof.
  unfold arr_len, arr_get. induction l as [|x l IH]; simpl; [lia|].
  destruct (P x) eqn:Hx; intros H.
  - exists 0. split; [lia|done].
  - destruct IH as (i & Hi & Hp); [simpl in H; lia|].
    exists (Z.succ i). split; [lia|].
    rewrite Z2Nat.inj_succ by lia. done.
Qed.

Definition live_control (c : Z) : bool := c <? MAL_HASH_EMPTY.
Definition deleted_control (c : Z) : bool := c =? MAL_HASH_DELETED.
Definition empty_control (c : Z) : bool := c =? MAL_HASH_EMPTY.

Definition control_ok (c : Z) : Prop :=
  c = MAL_HASH_EMPTY \/ c = MAL_HASH_DELETED \/ 0 <= c < 128.

Lemma count_partition l :
  Forall control_ok l ->
  count live_control l + count deleted_control l + count empty_control l = arr_len l.
Proof.
  unfold arr_len. induction 1 as [|c l Hc _ IH]; simpl; [done|].
  assert (Z.b2z (live_control c) + Z.b2z (deleted_control c) + Z.b2z (empty_control c) = 1).
  { destruct Hc as [->|[->|Hc]]; [done|done|].
    unfold live_control, deleted_control, empty_control, MAL_HASH_EMPTY, MAL_HASH_DELETED.
    destruct (Z.ltb_spec c 0x80), (Z.eqb_spec c 0xfe), (Z.eqb_spec c 0x80); simpl; lia. }
  lia.
Qed.

Lemma tag_range hash : in_u 64 hash -> 0 <= mal_hash_tag hash < 128.
Proof.
  unfold in_u. intros Hh. unfold mal_hash_tag, u8.
  pose proof (shiftr_range hash 57 7). rewrite wrap_small; unfold in_u; lia.
Qed.

(** [index_ok]: the buckets of the index hold exactly the live entries.
    [entry i] is the hash of the live entry with order index [i], [None] for a
    dead one. *)
Record index_ok (capacity : Z) (slots controls : list Z) (entry : Z -> option Z)
    (live deleted : Z) : Prop := {
  io_capacity : capacity_ok capacity;
  io_slots : arr_len slots = capacity;
  io_controls : arr_len controls = capacity;
  io_control_ok : Forall control_ok controls;
  io_hash : forall i h, entry i = Some h -> in_u 64 h;
  io_slot : forall s, 0 <= s < capacity -> live_control (arr_get controls s) = true ->
    exists h, entry (arr_get slots s) = Some h /\ arr_get controls s = mal_hash_tag h;
  io_entry : forall i h, entry i = Some h ->
    exists s, 0 <= s < capacity /\ arr_get slots s = i /\
      arr_get controls s = mal_hash_tag h /\ reachable capacity controls h s;
  io_unique : forall s s', 0 <= s < capacity -> 0 <= s' < capacity ->
    live_control (arr_get controls s) = true -> live_control (arr_get controls s') = true ->
    arr_get slots s = arr_get slots s' -> s = s';
  io_live : count live_control controls = live;
  io_deleted : count deleted_control controls = deleted;
}.

Section index_ops.
Variable S : Z.
Hypothesis HS : 0 <= S.

Lemma index_has_empty capacity slots controls entry live deleted :
  index_ok capacity slots controls entry live deleted ->
  live + deleted < capacity ->
  exists e, 0 <= e < capacity /\ arr_get controls e = MAL_HASH_EMPTY.
Proof using Type.
  intros Hok Hl. pose proof (count_partition controls (io_control_ok _ _ _ _ _ _ Hok)) as Hc.
  rewrite (io_live _ _ _ _ _ _ Hok), (io_deleted _ _ _ _ _ _ Hok),
    (io_controls _ _ _ _ _ _ Hok) in Hc.
  destruct (count_positive empty_control controls) as (e & He & Hp); [lia|].
  exists e. rewrite (io_controls _ _ _ _ _ _ Hok) in He. split; [done|]. by apply Z.eqb_eq.
Qed.

(** The 7/8 occupancy limit leaves room. *)
Lemma fits_lt size capacity :
  capacity_ok capacity -> mal_hash_index_fits size capacity = true -> size < capacity.
Proof using Type.
  intros Hc H. apply Z.leb_le in H. pose proof (capacity_bound capacity Hc).
  assert (0 < capacity / 8) by (apply Z.div_str_pos; lia). lia.
Qed.

(** An entry order that agrees everywhere keeps the index valid. *)
Lemma index_ok_ext capacity slots controls entry entry' live deleted :
  (forall i, entry i = entry' i) ->
  index_ok capacity slots controls entry live deleted ->
  index_ok capacity slots controls entry' live deleted.
Proof using Type.
  intros He [? ? ? ? Hh Hs Hen ? ? ?]. split; try done.
  - intros i h. rewrite <- He. apply Hh.
  - intros s. rewrite <- He. apply Hs.
  - intros i h. rewrite <- He. apply Hen.
Qed.

Lemma index_reset_ok capacity slots controls :
  capacity_ok capacity -> arr_len slots = capacity ->
  index_ok capacity slots (mal_hash_index_reset controls capacity) (fun _ => None) 0 0.
Proof using Type.
  intros Hc Hs. pose proof (capacity_bound capacity Hc).
  unfold mal_hash_index_reset. split; try done.
  - apply arr_len_replicate. lia.
  - apply Forall_replicate. by left.
  - intros s Hs'. by rewrite arr_get_replicate.
  - intros s s' Hr Hr'. by rewrite arr_get_replicate.
  - rewrite count_replicate. change (Z.b2z (live_control MAL_HASH_EMPTY)) with 0. lia.
  - rewrite count_replicate. change (Z.b2z (deleted_control MAL_HASH_EMPTY)) with 0. lia.
Qed.

(** Changing one control byte keeps a path open as long as no group on it
    gains an EMPTY bucket. *)
Lemma reachable_set capacity controls hash s r c :
  capacity_ok capacity -> arr_len controls = capacity -> 0 <= r < capacity ->
  (c = MAL_HASH_EMPTY -> group_has controls (16 * (r / 16)) MAL_HASH_EMPTY) ->
  reachable capacity controls hash s ->
  reachable capacity (arr_set controls r c) hash s.
Proof using Type.
  intros Hc Hl Hr He (k & Hk & Hg & Hb). exists k. split; [done|]. split; [done|].
  intros j Hj (i & Hi & Hx). apply (Hb j Hj).
  pose proof (group_at_range capacity Hc hash j).
  destruct (decide (group_at capacity hash j + i = r)) as [E|].
  - rewrite E, arr_get_set_eq in Hx by lia.
    rewrite <- (slot_of_group capacity hash j i), E by done. by apply He.
  - rewrite arr_get_set_ne in Hx by lia. by exists i.
Qed.

Lemma live_not_reusable c :
  c = MAL_HASH_DELETED \/ c = MAL_HASH_EMPTY -> live_control c = false.
Proof using Type. by intros [-> | ->]. Qed.

Lemma tag_live h : in_u 64 h -> live_control (mal_hash_tag h) = true.
Proof using Type. intros Hh. pose proof (tag_range h Hh). apply Z.ltb_lt. unfold MAL_HASH_EMPTY. lia. Qed.

Lemma index_insert_ok capacity slots controls entry live deleted r i h :
  index_ok capacity slots controls entry live deleted ->
  reusable capacity controls h r -> entry i = None -> in_u 64 h ->
  let '(slots', controls') := mal_hash_index_insert slots controls r i h in
  index_ok capacity slots' controls'
    (fun j => if j =? i then Some h else entry j) (live + 1)
    (deleted - Z.b2z (deleted_control (arr_get controls r))).
Proof using Type.
  intros Hok (Hr & Hreach & Hctl) Hi Hh. unfold mal_hash_index_insert.
  destruct Hok as [Hcap Hls Hlc Hco Hhash Hslot Hentry Huniq Hlive Hdel].
  pose proof (tag_range h Hh) as Htag. pose proof (tag_live h Hh) as Htl.
  pose proof (live_not_reusable _ Hctl) as Hrl.
  assert (forall hash s, reachable capacity controls hash s ->
            reachable capacity (arr_set controls r (mal_hash_tag h)) hash s) as Hre.
  { intros hash s. apply reachable_set; try done. unfold MAL_HASH_EMPTY. lia. }
  split; try done; rewrite ?arr_len_set; try done.
  - apply Forall_insert; [done|]. right; right. lia.
  - intros j h'. destruct (j =? i); [by intros [= <-]|apply Hhash].
  - intros s Hs. destruct (decide (s = r)) as [->|].
    + rewrite !arr_get_set_eq by lia. intros _. exists h. by rewrite Z.eqb_refl.
    + rewrite !arr_get_set_ne by lia. intros Hl.
      destruct (Hslot s Hs Hl) as (h' & He & Ht). exists h'.
      destruct (Z.eqb_spec (arr_get slots s) i); [congruence|done].
  - intros j h'. destruct (Z.eqb_spec j i) as [->|].
    + intros [= <-]. exists r. rewrite !arr_get_set_eq by lia. auto.
    + intros He. destruct (Hentry j h' He) as (s & Hs & Hsl & Ht & Hrs). exists s.
      assert (s <> r).
      { intros ->. rewrite Ht, tag_live in Hrl by (by eapply Hhash). done. }
      rewrite !arr_get_set_ne by lia. auto.
  - intros s s' Hs Hs'.
    assert (forall x, 0 <= x < capacity -> x <> r -> live_control (arr_get controls x) = true ->
              arr_get slots x <> i) as Hni.
    { intros x Hx _ Hl E. destruct (Hslot x Hx Hl) as (h' & He & _). congruence. }
    destruct (decide (s = r)) as [->|], (decide (s' = r)) as [->|]; try done;
      rewrite ?arr_get_set_eq, ?arr_get_set_ne by lia; intros Hl Hl' E.
    + exfalso. by eapply (Hni s').
    + exfalso. by eapply (Hni s).
    + by apply Huniq.
  - rewrite count_set, Hlive, Htl, Hrl by lia. simpl. lia.
  - rewrite count_set, Hdel by lia.
    assert (deleted_control (mal_hash_tag h) = false) as ->.
    { apply Z.eqb_neq. unfold MAL_HASH_DELETED. lia. }
    simpl. lia.
Qed.

Lemma index_erase_ok capacity slots controls entry live deleted s :
  index_ok capacity slots controls entry live deleted ->
  0 <= s < capacity -> live_control (arr_get controls s) = true ->
  let '(controls', d) := mal_hash_controls_erase S controls s in
  index_ok capacity slots controls'
    (fun j => if j =? arr_get slots s then None else entry j)
    (live - 1) (deleted + Z.b2z d).
Proof using HS.
  intros [Hcap Hls Hlc Hco Hhash Hslot Hentry Huniq Hlive Hdel] Hs Hsl.
  unfold mal_hash_controls_erase. rewrite land_group_mask by lia.
  set (d := mal_hash_group_match S controls (16 * (s / 16)) MAL_HASH_EMPTY =? 0).
  set (c := if d then MAL_HASH_DELETED else MAL_HASH_EMPTY).
  assert (live_control c = false) as Hcl by (subst c; by destruct d).
  assert (forall hash x, reachable capacity controls hash x ->
            reachable capacity (arr_set controls s c) hash x) as Hre.
  { intros hash x. apply reachable_set; try done. subst c d.
    destruct (Z.eqb_spec (mal_hash_group_match S controls (16 * (s / 16)) MAL_HASH_EMPTY) 0)
      as [|Hz]; [done|]. intros _.
    apply group_match_first in Hz as (i & _ & Hi & He); [|done]. by exists i. }
  split; try done; rewrite ?arr_len_set; try done.
  - apply Forall_insert; [done|]. subst c. destruct d; [right; by left|by left].
  - intros j h. destruct (j =? _); [done|apply Hhash].
  - intros x Hx. destruct (decide (x = s)) as [->|].
    + rewrite arr_get_set_eq by lia. congruence.
    + rewrite arr_get_set_ne by lia. intros Hl.
      destruct (Hslot x Hx Hl) as (h & He & Ht). exists h.
      destruct (Z.eqb_spec (arr_get slots x) (arr_get slots s)) as [E|]; [|done].
      by apply Huniq in E.
  - intros j h. destruct (Z.eqb_spec j (arr_get slots s)) as [|Hj]; [done|].
    intros He. destruct (Hentry j h He) as (x & Hx & Hsx & Ht & Hr). exists x.
    assert (x <> s) by (intros ->; congruence).
    rewrite arr_get_set_ne by lia. auto.
  - intros x x' Hx Hx'.
    destruct (decide (x = s)) as [->|]; [rewrite arr_get_set_eq by lia; congruence|].
    destruct (decide (x' = s)) as [->|]; [rewrite (arr_get_set_eq _ s) by lia; congruence|].
    rewrite !arr_get_set_ne by lia. by apply Huniq.
  - rewrite count_set, Hlive, Hsl, Hcl by lia. simpl. lia.
  - rewrite count_set, Hdel by lia.
    assert (deleted_control (arr_get controls s) = false) as ->.
    { apply Z.ltb_lt in Hsl. apply Z.eqb_neq. unfold MAL_HASH_EMPTY, MAL_HASH_DELETED in *. lia. }
    subst c. destruct d; simpl; lia.
Qed.

(** Probing an index whose entries are told apart by [hit]. *)
Section find.
Context (capacity : Z) (slots controls : list Z) (entry : Z -> option Z) (live deleted : Z).
Hypothesis Hok : index_ok capacity slots controls entry live deleted.
Hypothesis Hroom : live + deleted < capacity.
Variable hash : Z.
Hypothesis Hhash : in_u 64 hash.
(** The test on entries: it holds only of entries with the probed hash. *)
Variable same : Z -> bool.
Hypothesis Hsame : forall i h, entry i = Some h -> same i = true -> h = hash.

Let hit s := same (arr_get slots s).

(** The probe finds the bucket of an equal entry when there is one. *)
Lemma index_probe_spec insert :
  exists r, grouped_probe S controls capacity hit hash insert = Ret r /\
    ((0 <= r < capacity /\ live_control (arr_get controls r) = true /\
      (exists h, entry (arr_get slots r) = Some h) /\ same (arr_get slots r) = true)
     \/ ((forall i h, entry i = Some h -> same i = false) /\
         if insert then reusable capacity controls hash r else r = UINT32_MAX)).
Proof using HS Hok Hroom Hhash Hsame.
  pose proof (io_capacity _ _ _ _ _ _ Hok) as Hcap.
  destruct (grouped_probe_spec S HS capacity Hcap controls
              (index_has_empty _ _ _ _ _ _ Hok Hroom) hash hit insert)
    as (r & Hr & [(Hrange & Ht & Hh & _)|(Hno & Hr')]); exists r; (split; [done|]).
  - left. assert (live_control (arr_get controls r) = true) as Hl.
    { rewrite Ht. by apply tag_live. }
    destruct (io_slot _ _ _ _ _ _ Hok r Hrange Hl) as (h & He & _). eauto.
  - right. split; [|done]. intros i h Hi. destruct (same i) eqn:Hsi; [|done].
    pose proof (Hsame i h Hi Hsi) as ->.
    destruct (io_entry _ _ _ _ _ _ Hok i hash Hi) as (s & Hs & Hsl & Ht & Hre).
    specialize (Hno s Hs Hre Ht). unfold hit in Hno. congruence.
Qed.
End find.
End index_ops.
