(* ===== verification/HashGroup.v ===== *)
(** The vector variants of [mal_hash_group_match] (hash_index.h): the SSE2 and
    the NEON body, from the documented meaning of their intrinsics, against the
    scalar loop the rest of the development uses. *)

From S2P Require Import Prelude HashIndex.

(** [_mm_cmpeq_epi8], [vceqq_u8]: each of the 16 lanes is 0xff or 0. *)
Definition lane_bytes (controls : list Z) (group tag : Z) : list Z :=
  map (fun i => if arr_get controls (group + i) =? tag then 0xff else 0) (seqZ 0 MAL_HASH_GROUP_WIDTH).

(** [_mm_movemask_epi8]: the top bit of each byte, lane 0 first. *)
Fixpoint movemask (bytes : list Z) : Z :=
  match bytes with
  | [] => 0
  | b :: bytes => Z.shiftr b 7 + 2 * movemask bytes
  end.

Definition mal_hash_group_match_sse2 (controls : list Z) (group tag : Z) : Z :=
  u32 (movemask (lane_bytes controls group tag)).

(** [vreinterpretq_u16_u8] and [vshrn_n_u16(_, 4)]: each little-endian byte pair,
    shifted right by four and narrowed. *)
Fixpoint shrn4 (bytes : list Z) : list Z :=
  match bytes with
  | lo :: hi :: bytes => u8 (Z.shiftr (lo + 256 * hi) 4) :: shrn4 bytes
  | _ => []
  end.

(** [vreinterpret_u64_u8] and lane 0 of the result. *)
Fixpoint u64_of_bytes (bytes : list Z) : Z :=
  match bytes with
  | [] => 0
  | b :: bytes => b + 256 * u64_of_bytes bytes
  end.

Definition mal_hash_group_match_neon (controls : list Z) (group tag : Z) : Z :=
  Z.land (u64_of_bytes (shrn4 (lane_bytes controls group tag))) 0x1111111111111111.

(** * Both agree with the scalar loop *)

Definition mask_bytes (lanes : list bool) : list Z := map (fun b : bool => if b then 0xff else 0) lanes.

Lemma lane_bytes_mask controls group tag :
  lane_bytes controls group tag = mask_bytes (group_lanes controls group tag 0).
Proof. unfold lane_bytes, mask_bytes, group_lanes. by rewrite map_map. Qed.

Lemma movemask_lanes lanes : movemask (mask_bytes lanes) = lane_mask 1 lanes.
Proof. induction lanes as [|b lanes IH]; [done|].
  cbn [mask_bytes map movemask lane_mask]. fold (mask_bytes lanes). rewrite IH. by destruct b.
Qed.

Lemma lane_mask_range w lanes : 0 < w -> 0 <= lane_mask w lanes < 2 ^ (w * arr_len lanes).
Proof.
  intros Hw. induction lanes as [|b lanes IH]; [change (arr_len (@nil bool)) with 0; rewrite Z.mul_0_r; cbn; lia|].
  pose proof (arr_len_nonneg lanes). cbn [lane_mask].
  assert (arr_len (b :: lanes) = 1 + arr_len lanes) as -> by (unfold arr_len; cbn [length]; lia).
 replace (w * (1 + arr_len lanes)) with (w + w * arr_len lanes) by lia.
  rewrite Z.pow_add_r by nia. assert (1 < 2 ^ w) by (apply Z.pow_gt_1; lia).
  destruct b; cbn [Z.b2z]; nia.
Qed.

(** One 0x11 per byte: the nibble mask of the NEON body. *)
Fixpoint nibble_ones (n : nat) : Z := match n with O => 0 | S n => 0x11 + 256 * nibble_ones n end.

Lemma land_block a b x y :
  0 <= a < 256 -> 0 <= b < 256 -> Z.land (a + 256 * x) (b + 256 * y) = Z.land a b + 256 * Z.land x y.
Proof.
  intros Ha Hb. assert (0 <= Z.land a b < 2 ^ 8) as Hr.
  { split; [apply Z.land_nonneg; lia|]. destruct (Z.eq_dec (Z.land a b) 0) as [->|Hn]; [done|].
    apply Z.log2_lt_pow2; [pose proof (Z.land_nonneg a b); lia|].
    pose proof (Z.log2_land a b ltac:(lia) ltac:(lia)).
    assert (Z.log2 a <= 7) by (apply (Z.log2_le_mono a 255); lia). lia. }
  rewrite !(Z.mul_comm 256). change 256 with (2 ^ 8) in *.
  rewrite <- (lor_shiftl_add' a x 8), <- (lor_shiftl_add' b y 8), <- (lor_shiftl_add' _ (Z.land x y) 8) by lia.
  rewrite Z.shiftl_land. apply Z.bits_inj'. intros i Hi. rewrite !Z.land_spec, !Z.lor_spec, !Z.land_spec.
  destruct (Z.lt_ge_cases i 8) as [Hl|Hl].
  - rewrite !Z.shiftl_spec_low by lia. by rewrite ?orb_false_r, ?orb_false_l.
  - assert (forall z, 0 <= z < 2 ^ 8 -> Z.testbit z i = false) as Hz.
    { intros z Hz. rewrite <- (Z.mod_small z (2 ^ 8)) by done. by rewrite Z.mod_pow2_bits_high by lia. }
    rewrite (Hz a), (Hz b) by done. by rewrite ?orb_false_r, ?orb_false_l.
Qed.

Lemma neon_lanes n : forall lanes, length lanes = (2 * n)%nat ->
  Z.land (u64_of_bytes (shrn4 (mask_bytes lanes))) (nibble_ones n) = lane_mask 4 lanes.
Proof.
  induction n as [|n IH]; intros lanes Hl; [by apply nil_length_inv in Hl as ->|].
  destruct lanes as [|a [|b lanes]]; [done|cbn in Hl; lia|].
  cbn [mask_bytes map shrn4 u64_of_bytes nibble_ones]. fold (mask_bytes lanes).
  rewrite land_block, IH by (cbn in Hl; lia || (destruct a, b; by vm_compute)).
  cbn [lane_mask]. assert (forall x, Z.b2z a + 2 ^ 4 * (Z.b2z b + 2 ^ 4 * x) = Z.b2z a + 16 * Z.b2z b + 256 * x)
    as -> by (intros; lia).
  f_equal. by destruct a, b.
Qed.

(** The SSE2 and NEON group matches are the scalar loop, with the mask layout
    each declares: one bit per lane on SSE2 (shift 0), one bit per nibble on NEON
    (shift 2), for any control bytes and any tag. *)
Theorem vector_group_match_agrees controls group tag :
  mal_hash_group_match_sse2 controls group tag = mal_hash_group_match_scalar 0 controls group tag /\
  mal_hash_group_match_neon controls group tag = mal_hash_group_match_scalar 2 controls group tag.
Proof.
  pose proof (group_match_lanes 0 ltac:(lia) controls group tag) as E0.
  pose proof (group_match_lanes 2 ltac:(lia) controls group tag) as E2.
  unfold mal_hash_group_match in E0, E2. rewrite E0, E2.
  unfold mal_hash_group_match_sse2, mal_hash_group_match_neon. rewrite lane_bytes_mask. split.
  - rewrite movemask_lanes. apply wrap_small.
    pose proof (lane_mask_range 1 (group_lanes controls group tag 0) ltac:(lia)) as H.
    change (arr_len (group_lanes controls group tag 0)) with 16 in H.
    change (2 ^ (1 * 16)) with 65536 in H. unfold in_u. change (2 ^ 0) with 1. lia.
  - change 0x1111111111111111 with (nibble_ones 8). by apply neon_lanes.
Qed.
