(* ===== verification/HeapSizes.v ===== *)
(** The size classes of runtime/src/heap.c and heap.h: the table of cell sizes,
    the class of a request and the bytes an allocation is charged. *)

From S2P Require Import Prelude.

Definition MAL_GC_NUM_SIZE_CLASSES : Z := 32.
Definition MAL_GC_BLOCK_SIZE : Z := 32 * 1024.
Definition MAL_GC_LARGE_THRESHOLD : Z := MAL_GC_BLOCK_SIZE / 4.

Definition g_class_cell_size : list Z :=
  [16; 32; 48; 64; 80; 96; 112; 128;
   160; 192; 224; 256;
   320; 384; 448; 512;
   640; 768; 896; 1024;
   1280; 1536; 1792; 2048;
   2560; 3072; 3584; 4096;
   5120; 6144; 7168; 8192].

(** [63 - __builtin_clzll(n)] is the position of the top bit. *)
Definition mal_heap_size_class (size : Z) : Z :=
  if size <=? 128 then
    if size =? 0 then 0 else u32 (u32 (Z.shiftr (u64 (size + 15)) 4) - 1)
  else
    let band := Z.log2 (size - 1) in
    u32 (8 + (band - 7) * 4 + u32 (Z.shiftr (size - 1 - Z.shiftl 1 band) (band - 2))).

Definition mal_heap_allocation_charge (alloc_size : Z) : Z :=
  let size := if alloc_size =? 0 then 1 else alloc_size in
  if MAL_GC_LARGE_THRESHOLD <? size then size
  else arr_get g_class_cell_size (mal_heap_size_class size).

(** The class chosen for one request: in the table, large enough, and the
    class below it too small. *)
Definition class_fits (size : Z) : bool :=
  let c := mal_heap_size_class size in
  (0 <=? c) && (c <? MAL_GC_NUM_SIZE_CLASSES) && (size <=? arr_get g_class_cell_size c)
  && ((c =? 0) || (arr_get g_class_cell_size (c - 1) <? size)).

(** Up to 128 bytes the classes are 16 bytes apart. *)
Lemma class_small size :
  1 <= size <= 128 -> exists c, 0 <= c < 8 /\ 16 * c < size <= 16 * (c + 1) /\ mal_heap_size_class size = c.
Proof.
  intros Hs. exists ((size + 15) / 16 - 1). pose proof (Z.div_mod (size + 15) 16 ltac:(lia)).
  pose proof (Z.mod_pos_bound (size + 15) 16 ltac:(lia)). split; [lia|]. split; [lia|].
  unfold mal_heap_size_class. destruct (Z.leb_spec size 128); [|lia]. destruct (Z.eqb_spec size 0); [lia|].
  unfold u32, u64. rewrite (wrap_small 64) by (unfold in_u; lia). rewrite Z.shiftr_div_pow2 by lia.
  change (2 ^ 4) with 16. rewrite (wrap_small 32 ((size + 15) / 16)) by (unfold in_u; lia).
  apply wrap_small. unfold in_u. lia.
Qed.

(** Linear reasoning with the powers as atoms. *)
Ltac linear :=
  repeat match goal with
  | H : context [2 ^ ?e] |- _ => let p := fresh "p" in set (p := 2 ^ e) in *; clearbody p
  end; lia.

(** Above, each power of two holds four classes. *)
Lemma class_band size band d :
  7 <= band <= 12 -> 0 <= d < 4 ->
  2 ^ band + d * 2 ^ (band - 2) < size <= 2 ^ band + (d + 1) * 2 ^ (band - 2) ->
  mal_heap_size_class size = 8 + (band - 7) * 4 + d.
Proof.
  intros Hb Hd Hs. assert (2 ^ band = 4 * 2 ^ (band - 2)) as E4.
  { change 4 with (2 ^ 2). rewrite <- Z.pow_add_r by lia. f_equal. lia. }
  assert (2 ^ 5 <= 2 ^ (band - 2)) by (apply Z.pow_le_mono_r; lia). change (2 ^ 5) with 32 in *.
  assert (0 <= d * 2 ^ (band - 2) <= 3 * 2 ^ (band - 2)) as Hdp by nia. rewrite Z.mul_add_distr_r in Hs.
  unfold mal_heap_size_class. destruct (Z.leb_spec size 128); [lia|].
  assert (Z.log2 (size - 1) = band) as ->.
  { apply Z.log2_unique; [lia|]. rewrite Z.pow_succ_r by lia. linear. }
  rewrite Z.shiftl_1_l, Z.shiftr_div_pow2 by lia.
  assert ((size - 1 - 2 ^ band) / 2 ^ (band - 2) = d) as ->.
  { symmetry. apply Z.div_unique with (size - 1 - 2 ^ band - d * 2 ^ (band - 2)); linear. }
  unfold u32. rewrite (wrap_small 32 d) by (unfold in_u; lia). apply wrap_small. unfold in_u. lia.
Qed.

Lemma class_band_exists size :
  128 < size <= MAL_GC_LARGE_THRESHOLD ->
  exists band d, 7 <= band <= 12 /\ 0 <= d < 4 /\
    2 ^ band + d * 2 ^ (band - 2) < size <= 2 ^ band + (d + 1) * 2 ^ (band - 2).
Proof.
  change MAL_GC_LARGE_THRESHOLD with 8192. intros Hs. set (band := Z.log2 (size - 1)).
  destruct (Z.log2_spec (size - 1)) as [L1 L2]; [lia|]. fold band in L1, L2.
  assert (7 <= band <= 12) as Hb.
  { split.
    - change 7 with (Z.log2 128). apply Z.log2_le_mono. lia.
    - change 12 with (Z.log2 8191). apply Z.log2_le_mono. lia. }
  assert (2 ^ band = 4 * 2 ^ (band - 2)) as E4.
  { change 4 with (2 ^ 2). rewrite <- Z.pow_add_r by lia. f_equal. lia. }
  assert (0 < 2 ^ (band - 2)) by (apply Z.pow_pos_nonneg; lia). rewrite Z.pow_succ_r in L2 by lia.
  exists band, ((size - 1 - 2 ^ band) / 2 ^ (band - 2)).
  pose proof (Z.div_mod (size - 1 - 2 ^ band) (2 ^ (band - 2)) ltac:(lia)).
  pose proof (Z.mod_pos_bound (size - 1 - 2 ^ band) (2 ^ (band - 2)) ltac:(lia)).
  split; [lia|]. split; [split; [apply Z.div_pos; lia|apply Z.div_lt_upper_bound; lia]|]. nia.
Qed.

(** Evaluates the table entries of the goal. *)
Ltac class_entry :=
  repeat match goal with
  | |- context [g_class_cell_size !!! ?n] =>
      let v := eval vm_compute in (g_class_cell_size !!! n) in change (g_class_cell_size !!! n) with v
  end.

Lemma class_fits_ok size : 1 <= size <= MAL_GC_LARGE_THRESHOLD -> class_fits size = true.
Proof.
  intros Hs. unfold class_fits, MAL_GC_NUM_SIZE_CLASSES, arr_get.
  rewrite !andb_true_iff, orb_true_iff, !Z.leb_le, !Z.ltb_lt, Z.eqb_eq. destruct (Z.le_gt_cases size 128).
  - destruct (class_small size) as (c & Hc & Hr & ->); [lia|].
    assert (c = 0 \/ c = 1 \/ c = 2 \/ c = 3 \/ c = 4 \/ c = 5 \/ c = 6 \/ c = 7) as Hcs by lia.
    destruct_or! Hcs; subst c; class_entry; lia.
  - destruct (class_band_exists size) as (band & d & Hb & Hd & Hr); [lia|].
    rewrite (class_band size band d Hb Hd Hr).
    assert (band = 7 \/ band = 8 \/ band = 9 \/ band = 10 \/ band = 11 \/ band = 12) as Hbs by lia.
    assert (d = 0 \/ d = 1 \/ d = 2 \/ d = 3) as Hds by lia.
    destruct_or! Hbs; destruct_or! Hds; subst band d; cbn in Hr; class_entry; lia.
Qed.

(** A charge covers the request. *)
Lemma charge_covers size : 0 <= size -> size <= mal_heap_allocation_charge size.
Proof.
  intros Hs. unfold mal_heap_allocation_charge.
  destruct (Z.eqb_spec size 0) as [->|]; [by vm_compute|].
  destruct (Z.ltb_spec MAL_GC_LARGE_THRESHOLD size); [lia|].
  pose proof (class_fits_ok size ltac:(lia)) as Hc. unfold class_fits in Hc.
  rewrite !andb_true_iff, !Z.leb_le in Hc. lia.
Qed.
