(* ===== verification/CoreTheorems.v ===== *)
(** The properties of keys, of the grouped hash index and of the size
    arithmetic, stated for the whole input range, with concrete instances. *)

From S2P Require Import Prelude CheckedSize F64 Value HeapString HeapStringSpec HeapStringTheorems.
From S2P Require Import Key HashIndex HeapSizes.

(** * Collection keys *)

(** What Map and Set compare is SameValueZero: canonicalisation followed by
    the stored-key comparison decides it, and SameValueZero-equal values get one
    64-bit hash. *)
Theorem collection_keys_same_value_zero `{H : KeyHeap, HL : !KeyHeapLaws H} a b :
  boxed a -> boxed b ->
  mal_key_value_equals (mal_collection_canonical_value a) (mal_collection_canonical_value b)
  = same_value_zero a b /\
  (same_value_zero a b = true ->
   mal_key_hash_value (mal_collection_canonical_value a)
   = mal_key_hash_value (mal_collection_canonical_value b)) /\
  in_u 64 (mal_key_hash_value (mal_collection_canonical_value a)).
Proof.
  intros Ha Hb. rewrite <- (canonical_same_value_zero a b Ha Hb).
  split; [done|]. split; [apply key_equals_hash|apply key_hash_range].
Qed.

(** The int32 zero and the double negative zero, and the two strings "ab". *)
Lemma collection_keys_same_value_zero_witness :
  let H := string_key_heap StringDemo.strings (fun _ => 0) in
  same_value_zero (mal_value_from_i32 0) MAL_VALUE_NEGATIVE_ZERO = true /\
  mal_key_value_equals (mal_collection_canonical_value (mal_value_from_string 48))
    (mal_collection_canonical_value (mal_value_from_string 64)) = true.
Proof.
  intros H. split; [by vm_compute|].
  assert (HL : KeyHeapLaws H).
  { apply string_key_heap_laws; [apply StringDemo.strings_ok|]. intros. by vm_compute. }
  destruct (collection_keys_same_value_zero (mal_value_from_string 48) (mal_value_from_string 64))
    as [E _]; [split; [by vm_compute|split; [by vm_compute|done]]..|].
  rewrite E. by vm_compute.
Defined.

(** An array index makes an index key that classifies and reads back as that
    index, over the whole domain 0 .. 2^32-2 including the indices above
    INT32_MAX, which are stored as doubles; any other integer aborts. *)
Theorem array_index_key_roundtrip n :
  in_i 64 n ->
  (0 <= n < UINT32_MAX ->
   exists key, mal_key_index_signed n = Ret key /\ mal_key_index_value key = Ret n /\
     mal_key_from_value (key_value key) = key) /\
  (~ (0 <= n < UINT32_MAX) -> mal_key_index_signed n = Abort).
Proof.
  intros Hi. unfold in_i in Hi. unfold mal_key_index_signed. split; intros Hn.
  - destruct (from_u32_index n Hn) as [Hk Hv]. unfold UINT32_MAX in *.
    destruct (Z.ltb_spec n 0); [lia|]. destruct (Z.leb_spec (2 ^ 32 - 1) (u64 n)) as [Hc|_].
    { unfold u64 in Hc. rewrite wrap_small in Hc by (unfold in_u; lia). lia. }
    cbn [orb]. eexists. split; [done|]. assert (u32 n = n) as ->.
    { unfold u32. rewrite wrap_small; [done|unfold in_u; lia]. }
    split; [done|]. unfold mal_key_from_value. cbn [key_value]. by rewrite Hk.
  - unfold UINT32_MAX in *. destruct (Z.ltb_spec n 0); [done|].
    destruct (Z.leb_spec (2 ^ 32 - 1) (u64 n)) as [|Hc]; [done|].
    unfold u64 in Hc. rewrite wrap_small in Hc by (unfold in_u; lia). lia.
Qed.

Lemma array_index_key_roundtrip_witness :
  (0 <= 4294967294 < UINT32_MAX ->
   exists key, mal_key_index_signed 4294967294 = Ret key /\ mal_key_index_value key = Ret 4294967294 /\
     mal_key_from_value (key_value key) = key) /\
  (~ (0 <= 4294967294 < UINT32_MAX) -> mal_key_index_signed 4294967294 = Abort).
Proof. apply (array_index_key_roundtrip 4294967294). by vm_compute. Defined.

(** * The grouped hash index *)

(** C32. In an index that satisfies its invariant and has a spare bucket, every
    probe ends (the triangular strides meet an EMPTY bucket): inserting a new
    entry at the bucket the probe offers and probing again finds that bucket, and
    after erasing it the probe misses. All three states satisfy the invariant. *)
Theorem hash_index_insert_find_erase shift capacity slots controls entry live deleted i h :
  0 <= shift -> index_ok capacity slots controls entry live deleted ->
  live + deleted + 1 < capacity -> entry i = None -> in_u 64 h ->
  exists r slots' controls' controls'' d,
    grouped_probe shift controls capacity (fun s => arr_get slots s =? i) h true = Ret r /\
    mal_hash_index_insert slots controls r i h = (slots', controls') /\
    grouped_probe shift controls' capacity (fun s => arr_get slots' s =? i) h false = Ret r /\
    mal_hash_controls_erase shift controls' r = (controls'', d) /\
    grouped_probe shift controls'' capacity (fun s => arr_get slots' s =? i) h false = Ret UINT32_MAX /\
    index_ok capacity slots' controls' (fun j => if j =? i then Some h else entry j) (live + 1)
      (deleted - Z.b2z (deleted_control (arr_get controls r))) /\
    index_ok capacity slots' controls'' (fun j => if j =? i then None else if j =? i then Some h else entry j)
      live (deleted - Z.b2z (deleted_control (arr_get controls r)) + Z.b2z d).
Proof.
  intros Hsh Hok Hroom Hi Hh.
  assert (forall (e : Z -> option Z) j h', (e i = None \/ e i = Some h) ->
    e j = Some h' -> (j =? i) = true -> h' = h) as Hsame.
  { intros e j h' He Hj ->%Z.eqb_eq. destruct He; congruence. }
  destruct (index_probe_spec shift Hsh capacity slots controls entry live deleted Hok ltac:(lia) h Hh
              (fun j => j =? i) ltac:(intros; by eapply (Hsame entry); auto) true)
    as (r & Hr & [(_ & _ & (h' & He) & E%Z.eqb_eq)|[_ Hre]]); [rewrite E in He; congruence|].
  pose proof (index_insert_ok capacity slots controls entry live deleted r i h Hok Hre Hi Hh) as Hok1.
  destruct (mal_hash_index_insert slots controls r i h) as [slots' controls'] eqn:Eins.
  pose proof Eins as Eins'. unfold mal_hash_index_insert in Eins'. injection Eins' as Es Ec.
  assert (0 <= r < capacity) as Hrr by apply Hre.
  assert (arr_get slots' r = i) as Hsr.
  { rewrite <- Es. apply arr_get_set_eq. by rewrite (io_slots _ _ _ _ _ _ Hok). }
  assert (live_control (arr_get controls' r) = true) as Hlr.
  { rewrite <- Ec, arr_get_set_eq by (by rewrite (io_controls _ _ _ _ _ _ Hok)). by apply tag_live. }
  set (b := Z.b2z (deleted_control (arr_get controls r))) in *.
  assert (0 <= b <= 1) by (subst b; destruct (deleted_control _); cbn; lia).
  set (entry' := fun j => if j =? i then Some h else entry j) in *.
  assert (entry' i = Some h) as Hei by (subst entry'; cbn; by rewrite Z.eqb_refl).
  destruct (index_probe_spec shift Hsh capacity slots' controls' entry' _ _ Hok1 ltac:(lia) h Hh
              (fun j => j =? i) ltac:(intros; by eapply (Hsame entry'); auto) false)
    as (r' & Hr' & [(Hrr' & Hl' & _ & E%Z.eqb_eq)|[Hno _]]).
  2: { specialize (Hno i h Hei). by rewrite Z.eqb_refl in Hno. }
  assert (r' = r) as -> by (eapply (io_unique _ _ _ _ _ _ Hok1); (done || congruence)).
  pose proof (index_erase_ok shift Hsh capacity slots' controls' entry' _ _ r Hok1 Hrr Hlr) as Hok2.
  destruct (mal_hash_controls_erase shift controls' r) as [controls'' d] eqn:Eer.
  rewrite Hsr in Hok2. replace (live + 1 - 1) with live in Hok2 by lia.
  assert (0 <= Z.b2z d <= 1) by (destruct d; cbn; lia).
  set (entry2 := fun j => if j =? i then None else entry' j) in *.
  assert (entry2 i = None) as He2 by (subst entry2; cbn; by rewrite Z.eqb_refl).
  destruct (index_probe_spec shift Hsh capacity slots' controls'' entry2 _ _ Hok2 ltac:(lia) h Hh
              (fun j => j =? i) ltac:(intros; by eapply (Hsame entry2); auto) false)
    as (r2 & Hr2 & [(_ & _ & (h' & He) & E2%Z.eqb_eq)|[_ ->]]); [rewrite E2 in He; congruence|].
  exists r, slots', controls', controls'', d. by split_and!.
Qed.

Lemma hash_index_insert_find_erase_witness :
  let slots := replicate 16 0 in
  let controls := mal_hash_index_reset [] 16 in
  exists r slots' controls' controls'' d,
    grouped_probe 2 controls 16 (fun s => arr_get slots s =? 3) 77 true = Ret r /\
    mal_hash_index_insert slots controls r 3 77 = (slots', controls') /\
    grouped_probe 2 controls' 16 (fun s => arr_get slots' s =? 3) 77 false = Ret r /\
    mal_hash_controls_erase 2 controls' r = (controls'', d) /\
    grouped_probe 2 controls'' 16 (fun s => arr_get slots' s =? 3) 77 false = Ret UINT32_MAX /\
    index_ok 16 slots' controls' (fun j => if j =? 3 then Some 77 else None) (0 + 1)
      (0 - Z.b2z (deleted_control (arr_get controls r))) /\
    index_ok 16 slots' controls'' (fun j => if j =? 3 then None else if j =? 3 then Some 77 else None)
      0 (0 - Z.b2z (deleted_control (arr_get controls r)) + Z.b2z d).
Proof.
  intros slots controls.
  apply (hash_index_insert_find_erase 2 16 slots controls (fun _ => None) 0 0 3 77);
    [lia| |lia|done|by vm_compute].
  apply index_reset_ok; [|done]. exists 0. by split.
Defined.

(** * Sizes *)

(** Capacity growth terminates on every four size_t inputs without a wrap:
    it fails exactly when a size exceeds the limit or there is nothing to start
    from, and otherwise covers the request, within the limit, without shrinking
    and without doubling past what the request needs. *)
Theorem checked_growth_total current required initial limit :
  in_u 64 current -> in_u 64 required -> in_u 64 initial -> in_u 64 limit ->
  let start := if current =? 0 then initial else current in
  exists r, mal_checked_size_growth current required initial limit = Ret r /\
    match r with
    | None => limit < required \/ limit < current \/ limit < initial \/ (start = 0 /\ required <> 0)
    | Some c =>
        required <= c <= limit /\ start <= c /\ (c = start \/ c < 2 * required \/ c = limit)
    end.
Proof.
  intros H1 H2 H3 H4 start.
  destruct (checked_size_growth_spec current required initial limit H1 H2 H3 H4) as (r & -> & Hr).
  fold start in Hr. exists r. split; [done|]. destruct r as [c|]; [apply Hr|].
  rewrite !andb_false_iff, negb_false_iff, andb_true_iff, negb_true_iff, !Z.leb_gt, Z.eqb_eq, Z.eqb_neq in Hr.
  lia.
Qed.

Lemma checked_growth_total_witness :
  exists r, mal_checked_size_growth 0 100 16 110 = Ret r /\
    match r with
    | None => 110 < 100 \/ 110 < 0 \/ 110 < 16 \/ (16 = 0 /\ 100 <> 0)
    | Some c => 100 <= c <= 110 /\ 16 <= c /\ (c = 16 \/ c < 2 * 100 \/ c = 110)
    end.
Proof. apply (checked_growth_total 0 100 16 110); by vm_compute. Defined.

(** Every small request is served from the tightest size class: the class
    exists, its cell holds the request and the class below is too small; the bytes
    charged to the heap never undercount a request of any size. *)
Theorem heap_class_tightest size :
  0 <= size ->
  size <= mal_heap_allocation_charge size /\
  (1 <= size <= MAL_GC_LARGE_THRESHOLD ->
   let c := mal_heap_size_class size in
   0 <= c < MAL_GC_NUM_SIZE_CLASSES /\ size <= arr_get g_class_cell_size c /\
   (c = 0 \/ arr_get g_class_cell_size (c - 1) < size)).
Proof.
  intros Hs. split; [by apply charge_covers|]. intros Hr c.
  pose proof (class_fits_ok size Hr) as H. unfold class_fits in H. fold c in H.
  rewrite !andb_true_iff, orb_true_iff, Z.eqb_eq, !Z.leb_le, !Z.ltb_lt in H. lia.
Qed.

Lemma heap_class_tightest_witness :
  100 <= mal_heap_allocation_charge 100 /\
  (1 <= 100 <= MAL_GC_LARGE_THRESHOLD ->
   let c := mal_heap_size_class 100 in
   0 <= c < MAL_GC_NUM_SIZE_CLASSES /\ 100 <= arr_get g_class_cell_size c /\
   (c = 0 \/ arr_get g_class_cell_size (c - 1) < 100)).
Proof. apply (heap_class_tightest 100). lia. Defined.
