(* ===== verification/MapObject.v ===== *)
(** The Map store of runtime/src/map_object.c: up to four entries inline, then a
    payload of rows in insertion order (packed int32 rows or key/value pairs)
    with a grouped hash index over them, tombstones, compaction, an entry hint,
    reservations, cursors and pins. The operations thread the store and the
    trace of collector barriers; performance counters are not modelled. *)

From S2P Require Import Prelude F64 Value HeapString Key HashIndex HeapSizes.

Definition MAL_MAP_SMALL_CAPACITY : Z := 4.

Inductive MalMapKeyDomain : Set :=
| MAL_MAP_KEYS_EMPTY | MAL_MAP_KEYS_INT32 | MAL_MAP_KEYS_NUMBER
| MAL_MAP_KEYS_STRING | MAL_MAP_KEYS_IDENTITY | MAL_MAP_KEYS_GENERIC.

#[export] Instance MalMapKeyDomain_eq_dec : EqDecision MalMapKeyDomain.
Proof. solve_decision. Defined.

(** The enumerator values, and [==] on them. *)
Definition domain_code (d : MalMapKeyDomain) : Z :=
  match d with
  | MAL_MAP_KEYS_EMPTY => 0 | MAL_MAP_KEYS_INT32 => 1 | MAL_MAP_KEYS_NUMBER => 2
  | MAL_MAP_KEYS_STRING => 3 | MAL_MAP_KEYS_IDENTITY => 4 | MAL_MAP_KEYS_GENERIC => 5
  end.
Definition domain_is (a b : MalMapKeyDomain) : bool := domain_code a =? domain_code b.

(** The payload block behind [void *payload]: null, packed int32 rows (the key
    lane and, behind it, the value lane [int32_values] points to), or pairs. *)
Inductive MapPayload : Type :=
| PNull
| PInt32 (keys values : list Z)
| PPairs (pairs : list (Z * Z)).

Definition payload_null (p : MapPayload) : bool :=
  match p with PNull => true | _ => false end.
(** The block read at a type; a block of the other layout is not read. *)
Definition int32_keys (p : MapPayload) : list Z :=
  match p with PInt32 keys _ => keys | _ => [] end.
Definition int32_values (p : MapPayload) : list Z :=
  match p with PInt32 _ values => values | _ => [] end.
Definition pair_rows (p : MapPayload) : list (Z * Z) :=
  match p with PPairs pairs => pairs | _ => [] end.

(** [slots] and [controls] are the two lanes of the index block. *)
Record MalMapStorage : Type := mkStorage {
  payload : MapPayload;
  slots : list Z;
  controls : list Z;
  size : Z;
  count : Z;
  capacity : Z;
  slot_capacity : Z;
  deleted_slots : Z;
  pins : Z;
  reserve_size : Z;
  entry_hint : Z;
  hint_key : Z;
  domain : MalMapKeyDomain;
  owner_released : bool;
  small : list Z;
  small_values : list Z;
}.

Definition set_payload (p : MapPayload) (s : MalMapStorage) : MalMapStorage :=
  mkStorage p (slots s) (controls s) (size s) (count s) (capacity s) (slot_capacity s)
    (deleted_slots s) (pins s) (reserve_size s) (entry_hint s) (hint_key s) (domain s)
    (owner_released s) (small s) (small_values s).
Definition set_index (sl ct : list Z) (cap del : Z) (s : MalMapStorage) : MalMapStorage :=
  mkStorage (payload s) sl ct (size s) (count s) (capacity s) cap
    del (pins s) (reserve_size s) (entry_hint s) (hint_key s) (domain s)
    (owner_released s) (small s) (small_values s).
Definition set_size (n : Z) (s : MalMapStorage) : MalMapStorage :=
  mkStorage (payload s) (slots s) (controls s) n (count s) (capacity s) (slot_capacity s)
    (deleted_slots s) (pins s) (reserve_size s) (entry_hint s) (hint_key s) (domain s)
    (owner_released s) (small s) (small_values s).
Definition set_count (n : Z) (s : MalMapStorage) : MalMapStorage :=
  mkStorage (payload s) (slots s) (controls s) (size s) n (capacity s) (slot_capacity s)
    (deleted_slots s) (pins s) (reserve_size s) (entry_hint s) (hint_key s) (domain s)
    (owner_released s) (small s) (small_values s).
Definition set_capacity (n : Z) (s : MalMapStorage) : MalMapStorage :=
  mkStorage (payload s) (slots s) (controls s) (size s) (count s) n (slot_capacity s)
    (deleted_slots s) (pins s) (reserve_size s) (entry_hint s) (hint_key s) (domain s)
    (owner_released s) (small s) (small_values s).
Definition set_pins (n : Z) (s : MalMapStorage) : MalMapStorage :=
  mkStorage (payload s) (slots s) (controls s) (size s) (count s) (capacity s) (slot_capacity s)
    (deleted_slots s) n (reserve_size s) (entry_hint s) (hint_key s) (domain s)
    (owner_released s) (small s) (small_values s).
Definition set_reserve_size (n : Z) (s : MalMapStorage) : MalMapStorage :=
  mkStorage (payload s) (slots s) (controls s) (size s) (count s) (capacity s) (slot_capacity s)
    (deleted_slots s) (pins s) n (entry_hint s) (hint_key s) (domain s)
    (owner_released s) (small s) (small_values s).
Definition set_hint (entry key : Z) (s : MalMapStorage) : MalMapStorage :=
  mkStorage (payload s) (slots s) (controls s) (size s) (count s) (capacity s) (slot_capacity s)
    (deleted_slots s) (pins s) (reserve_size s) entry key (domain s)
    (owner_released s) (small s) (small_values s).
Definition set_domain (d : MalMapKeyDomain) (s : MalMapStorage) : MalMapStorage :=
  mkStorage (payload s) (slots s) (controls s) (size s) (count s) (capacity s) (slot_capacity s)
    (deleted_slots s) (pins s) (reserve_size s) (entry_hint s) (hint_key s) d
    (owner_released s) (small s) (small_values s).
Definition set_owner_released (b : bool) (s : MalMapStorage) : MalMapStorage :=
  mkStorage (payload s) (slots s) (controls s) (size s) (count s) (capacity s) (slot_capacity s)
    (deleted_slots s) (pins s) (reserve_size s) (entry_hint s) (hint_key s) (domain s)
    b (small s) (small_values s).
Definition set_small (ks vs : list Z) (s : MalMapStorage) : MalMapStorage :=
  mkStorage (payload s) (slots s) (controls s) (size s) (count s) (capacity s) (slot_capacity s)
    (deleted_slots s) (pins s) (reserve_size s) (entry_hint s) (hint_key s) (domain s)
    (owner_released s) ks vs.

(** The string fields [mal_map_object_update_entry] reads. *)
Class StringMeta : Type := {
  string_storage : Z -> MalStringStorage;
  string_latin1 : Z -> bool;
  string_length : Z -> Z;
  string_retained_capacity : Z -> Z;
}.

(** * Domains and rows *)

Definition mal_map_key_domain (key : Z) : MalMapKeyDomain :=
  if mal_value_is_f64 key then
    let number := mal_value_to_f64 key in
    if f64_leb (f64_of_int INT32_MIN) number && f64_leb number (f64_of_int INT32_MAX)
       && f64_eqb (f64_of_int (i32 (f64_to_int number))) number
    then MAL_MAP_KEYS_INT32 else MAL_MAP_KEYS_NUMBER
  else if mal_value_is_string key then MAL_MAP_KEYS_STRING
  else if mal_value_is_object key || mal_value_is_symbol key then MAL_MAP_KEYS_IDENTITY
  else MAL_MAP_KEYS_GENERIC.

Definition mal_map_join_domain (a b : MalMapKeyDomain) : MalMapKeyDomain :=
  if domain_is a MAL_MAP_KEYS_EMPTY || domain_is a b then b
  else if (domain_is a MAL_MAP_KEYS_INT32 && domain_is b MAL_MAP_KEYS_NUMBER)
          || (domain_is a MAL_MAP_KEYS_NUMBER && domain_is b MAL_MAP_KEYS_INT32)
  then MAL_MAP_KEYS_NUMBER
  else MAL_MAP_KEYS_GENERIC.

Definition mal_map_row_width (d : MalMapKeyDomain) : Z :=
  if domain_is d MAL_MAP_KEYS_INT32 then 4 + 8 else 16.

(** [*mal_map_value_slot(storage, index)], read and written. *)
Definition mal_map_value_at (s : MalMapStorage) (index : Z) : Z :=
  if payload_null (payload s) then arr_get (small_values s) index
  else if domain_is (domain s) MAL_MAP_KEYS_INT32 then arr_get (int32_values (payload s)) index
  else snd (arr_get (pair_rows (payload s)) index).
Definition set_value_at (index value : Z) (s : MalMapStorage) : MalMapStorage :=
  if payload_null (payload s) then
    set_small (small s) (arr_set (small_values s) index value) s
  else if domain_is (domain s) MAL_MAP_KEYS_INT32 then
    set_payload (PInt32 (int32_keys (payload s)) (arr_set (int32_values (payload s)) index value)) s
  else
    let rows := pair_rows (payload s) in
    set_payload (PPairs (arr_set rows index (fst (arr_get rows index), value))) s.

Definition mal_map_is_live (s : MalMapStorage) (index : Z) : bool :=
  if payload_null (payload s) then negb (arr_get (small s) index =? MAL_VALUE_EMPTY)
  else negb (mal_map_value_at s index =? MAL_VALUE_EMPTY).

Definition mal_map_key_at (s : MalMapStorage) (index : Z) : Z :=
  if payload_null (payload s) then arr_get (small s) index
  else if domain_is (domain s) MAL_MAP_KEYS_INT32
       then mal_value_from_f64 (f64_of_int (arr_get (int32_keys (payload s)) index))
  else fst (arr_get (pair_rows (payload s)) index).

Definition mal_map_store_key (p : MapPayload) (d : MalMapKeyDomain) (index key : Z)
  : MapPayload :=
  if domain_is d MAL_MAP_KEYS_INT32 then
    PInt32 (arr_set (int32_keys p) index (i32 (f64_to_int (mal_value_to_f64 key)))) (int32_values p)
  else
    PPairs (arr_set (pair_rows p) index (key, snd (arr_get (pair_rows p) index))).

Definition mal_map_accepts_domain (s : MalMapStorage) (d : MalMapKeyDomain) : bool :=
  domain_is (domain s) MAL_MAP_KEYS_GENERIC || domain_is (domain s) d
  || (domain_is (domain s) MAL_MAP_KEYS_NUMBER && domain_is d MAL_MAP_KEYS_INT32).

(** * Sizes *)

Fixpoint capacity_loop (fuel : nat) (cap required : Z) : outcome (option Z) :=
  match fuel with
  | O => NoFuel
  | S fuel =>
      if cap <? required then
        if INT32_MAX / 2 <? cap then Ret None else capacity_loop fuel (u32 (cap * 2)) required
      else Ret (Some cap)
  end.
(** A 32-bit capacity doubles at most 31 times. *)
Definition capacity_fuel : nat := 40.

Definition mal_map_capacity (required minimum : Z) : outcome (option Z) :=
  if INT32_MAX - 1 <? required then Ret None
  else capacity_loop capacity_fuel minimum required.

Fixpoint slot_capacity_loop (fuel : nat) (cap members : Z) : outcome (option Z) :=
  match fuel with
  | O => NoFuel
  | S fuel =>
      if negb (mal_hash_index_fits members cap) then
        if INT32_MAX / 2 <? cap then Ret None else slot_capacity_loop fuel (u32 (cap * 2)) members
      else Ret (Some cap)
  end.

Definition mal_map_slot_capacity (members : Z) : outcome (option Z) :=
  r ← slot_capacity_loop capacity_fuel MAL_HASH_GROUP_WIDTH members;
  match r with
  | None => Ret None
  | Some cap => if SIZE_MAX / (4 + 1) <? cap then Ret None else Ret (Some cap)
  end.

(** [if (!f(..., &out)) abort();] *)
Definition or_abort (m : outcome (option Z)) : outcome Z :=
  r ← m; match r with Some x => Ret x | None => Abort end.

(** The new descriptor of [mal_map_object_storage], zero but for its capacity. *)
Definition new_storage : MalMapStorage :=
  mkStorage PNull [] [] 0 0 MAL_MAP_SMALL_CAPACITY 0 0 0 0 0 0 MAL_MAP_KEYS_EMPTY false
    (replicate 4 0) (replicate 4 0).

(** * Operations *)

Section map.
Context `{KeyHeap} `{StringMeta}.
(** The lane width of the group masks (HashIndex). *)
Variable MASK_SHIFT : Z.
(** What fresh raw memory holds, word by word. *)
Variable raw : Z -> Z.
(** [mal_gc_marking_active] *)
Variable mal_gc_marking_active : bool.

Definition raw_words (n : Z) : list Z := map raw (seqZ 0 n).
Definition raw_pairs (n : Z) : list (Z * Z) := map (fun i => (raw i, raw i)) (seqZ 0 n).

(** ** Probing *)

(** The comparison [mal_map_probe_in] makes on a candidate bucket. *)
Definition probe_hit (s : MalMapStorage) (d : MalMapKeyDomain) (key int_key slot : Z) : bool :=
  let index := u32 (arr_get (slots s) slot) in
  if domain_is d MAL_MAP_KEYS_INT32 then arr_get (int32_keys (payload s)) index =? int_key
  else
    let candidate := fst (arr_get (pair_rows (payload s)) index) in
    if candidate =? key then true
    else if domain_is d MAL_MAP_KEYS_STRING
            && string_equals (mal_value_to_heap candidate) (mal_value_to_heap key) then true
    else domain_is d MAL_MAP_KEYS_GENERIC && mal_key_value_equals candidate key.

Definition mal_map_probe_in (s : MalMapStorage) (d : MalMapKeyDomain) (key int_key hash : Z)
    (insert : bool) : outcome Z :=
  grouped_probe MASK_SHIFT (controls s) (slot_capacity s) (probe_hit s d key int_key) hash insert.

Definition mal_map_probe (s : MalMapStorage) (key int_key hash : Z) (insert : bool) : outcome Z :=
  match domain s with
  | MAL_MAP_KEYS_INT32 => mal_map_probe_in s MAL_MAP_KEYS_INT32 key int_key hash insert
  | MAL_MAP_KEYS_STRING => mal_map_probe_in s MAL_MAP_KEYS_STRING key 0 hash insert
  | MAL_MAP_KEYS_GENERIC => mal_map_probe_in s MAL_MAP_KEYS_GENERIC key 0 hash insert
  | _ => mal_map_probe_in s MAL_MAP_KEYS_IDENTITY key 0 hash insert
  end.

Definition mal_map_find_slot (s : MalMapStorage) (key hash : Z) : outcome Z :=
  let int_key :=
    if domain_is (domain s) MAL_MAP_KEYS_INT32 then i32 (f64_to_int (mal_value_to_f64 key)) else 0 in
  mal_map_probe s key int_key hash true.

(** [Some int_key] is the [true] return. *)
Definition mal_map_query_in_domain (s : MalMapStorage) (key : Z) : option Z :=
  let when (b : bool) := if b then Some 0 else None in
  match domain s with
  | MAL_MAP_KEYS_INT32 =>
      if negb (mal_value_is_f64 key) then None
      else
        let number := mal_value_to_f64 key in
        if negb (f64_leb (f64_of_int INT32_MIN) number && f64_leb number (f64_of_int INT32_MAX))
        then None
        else
          let int_key := i32 (f64_to_int number) in
          if f64_eqb (f64_of_int int_key) number then Some int_key else None
  | MAL_MAP_KEYS_NUMBER => when (mal_value_is_f64 key)
  | MAL_MAP_KEYS_STRING => when (mal_value_is_string key)
  | MAL_MAP_KEYS_IDENTITY => when (mal_value_is_object key || mal_value_is_symbol key)
  | MAL_MAP_KEYS_GENERIC => Some 0
  | MAL_MAP_KEYS_EMPTY => None
  end.

Definition mal_map_lookup_slot (s : MalMapStorage) (key : Z) : outcome Z :=
  match mal_map_query_in_domain s key with
  | None => Ret UINT32_MAX
  | Some int_key => mal_map_probe s key int_key (mal_key_hash_value key) false
  end.

Definition mal_map_key_equals_slow (d : MalMapKeyDomain) (candidate key : Z) : bool :=
  if domain_is d MAL_MAP_KEYS_STRING then
    mal_value_is_string key && string_equals (mal_value_to_heap candidate) (mal_value_to_heap key)
  else domain_is d MAL_MAP_KEYS_GENERIC && mal_key_value_equals candidate key.

(** The loop from index [i] over the rest of the inline entries. *)
Fixpoint small_find_loop (fuel : nat) (s : MalMapStorage) (key i : Z) : Z :=
  match fuel with
  | O => 0
  | S fuel =>
      if i <? count s then
        let candidate := arr_get (small s) i in
        if negb (candidate =? MAL_VALUE_EMPTY)
           && ((candidate =? key) || mal_map_key_equals_slow (domain s) candidate key)
        then i + 1
        else small_find_loop fuel s key (i + 1)
      else 0
  end.
Definition mal_map_small_find (s : MalMapStorage) (key : Z) : Z :=
  small_find_loop (Z.to_nat (count s)) s key 0.

(** ** Rebuilding *)

Fixpoint fill_loop (fuel : nat) (s : MalMapStorage) (i : Z) (sl ct : list Z) (cap : Z)
  : outcome (list Z * list Z) :=
  match fuel with
  | O => Ret (sl, ct)
  | S fuel =>
      if negb (mal_map_is_live s i) then fill_loop fuel s (i + 1) sl ct cap
      else
        let hash := mal_key_hash_value (mal_map_key_at s i) in
        slot ← mal_hash_controls_empty_slot MASK_SHIFT ct cap hash;
        let '(sl, ct) := mal_hash_index_insert sl ct slot i hash in
        fill_loop fuel s (i + 1) sl ct cap
  end.
(** Fills an index block in place; the block becomes the store's. *)
Definition mal_map_fill_slots (s : MalMapStorage) (sl ct : list Z) (cap : Z)
  : outcome MalMapStorage :=
  '(sl, ct) ← fill_loop (Z.to_nat (count s)) s 0 sl (mal_hash_index_reset ct cap) cap;
  Ret (set_index sl ct cap 0 s).

(** The per-row conversion loop of [mal_map_replace_payload]. *)
Fixpoint convert_loop (fuel : nat) (s : MalMapStorage) (d : MalMapKeyDomain) (i : Z)
    (p : MapPayload) : MapPayload :=
  match fuel with
  | O => p
  | S fuel =>
      let value := mal_map_value_at s i in
      let p :=
        if domain_is d MAL_MAP_KEYS_INT32
        then PInt32 (int32_keys p) (arr_set (int32_values p) i value)
        else PPairs (arr_set (pair_rows p) i (fst (arr_get (pair_rows p) i), value)) in
      let p :=
        if negb (value =? MAL_VALUE_EMPTY) then mal_map_store_key p d i (mal_map_key_at s i) else p in
      convert_loop fuel s d (i + 1) p
  end.

(** [memcpy] of the first [n] elements over a block. *)
Definition copy_rows {A} (n : Z) (source block : list A) : list A :=
  take (Z.to_nat n) source ++ drop (Z.to_nat n) block.

Definition mal_map_replace_payload (s : MalMapStorage) (d : MalMapKeyDomain) (cap : Z)
  : outcome MalMapStorage :=
  let width := mal_map_row_width d in
  if SIZE_MAX / width <? cap then Abort
  else
    let fresh := if domain_is d MAL_MAP_KEYS_INT32 then PInt32 (map i32 (raw_words cap)) (raw_words cap)
                 else PPairs (raw_pairs cap) in
    let p :=
      if negb (payload_null (payload s)) && (width =? mal_map_row_width (domain s)) then
        if domain_is d MAL_MAP_KEYS_INT32 then
          PInt32 (copy_rows (count s) (int32_keys (payload s)) (int32_keys fresh))
                 (copy_rows (count s) (int32_values (payload s)) (int32_values fresh))
        else PPairs (copy_rows (count s) (pair_rows (payload s)) (pair_rows fresh))
      else convert_loop (Z.to_nat (count s)) s d 0 fresh in
    (* The value-lane pointer overlays the first inline key. *)
    Ret (set_domain d (set_capacity cap (set_payload p
           (set_small (arr_set (small s) 0 (raw 0)) (small_values s) s)))).

Definition mal_map_rehash (s : MalMapStorage) (cap : Z) : outcome MalMapStorage :=
  _ ← mal_hash_index_bytes cap;
  mal_map_fill_slots s (raw_words cap) (raw_words cap) cap.

(** ** Compaction *)

(** Slides the live rows down; [live] is the C variable [count]. *)
Fixpoint compact_loop (fuel : nat) (s : MalMapStorage) (i live : Z) : MalMapStorage * Z :=
  match fuel with
  | O => (s, live)
  | S fuel =>
      let value := mal_map_value_at s i in
      if value =? MAL_VALUE_EMPTY then compact_loop fuel s (i + 1) live
      else
        let s1 :=
          if payload_null (payload s)
          then set_small (arr_set (small s) live (arr_get (small s) i)) (small_values s) s
          else set_payload
                 (mal_map_store_key (payload s) (domain s) live (mal_map_key_at s i)) s in
        compact_loop fuel (set_value_at live value s1) (i + 1) (live + 1)
  end.

(** The store after its rows moved back inline. *)
Definition compact_to_small (s : MalMapStorage) (n : Z) : MalMapStorage :=
  let keys := map (mal_map_key_at s) (seqZ 0 n) in
  let values := map (mal_map_value_at s) (seqZ 0 n) in
  mkStorage PNull [] [] (size s) (count s) MAL_MAP_SMALL_CAPACITY 0 0 (pins s) 0
    (entry_hint s) (hint_key s)
    (if n =? 0 then MAL_MAP_KEYS_EMPTY else domain s) (owner_released s)
    (copy_rows n keys (small s)) (copy_rows n values (small_values s)).

Definition mal_map_compact (s : MalMapStorage) : outcome MalMapStorage :=
  if negb (pins s =? 0) then Ret s
  else
    let s := set_hint 0 MAL_VALUE_EMPTY s in
    let '(s, n) := if negb (size s =? 0) then compact_loop (Z.to_nat (count s)) s 0 0 else (s, 0) in
    let s := set_count n s in
    if n <=? MAL_MAP_SMALL_CAPACITY then Ret (compact_to_small s n)
    else
      cap ← or_abort (mal_map_capacity n 4);
      s ← (if cap <? capacity s then mal_map_replace_payload s (domain s) cap else Ret s);
      sl ← or_abort (mal_map_slot_capacity n);
      if negb (sl =? slot_capacity s) then mal_map_rehash s sl
      else mal_map_fill_slots s (slots s) (controls s) sl.

Definition mal_map_should_compact (s : MalMapStorage) : bool :=
  let dead := u32 (count s - size s) in
  (pins s =? 0) && negb (dead =? 0)
  && ((size s =? 0) || payload_null (payload s)
      || ((16 <=? dead)
          && ((size s <=? dead)
              || ((count s =? capacity s) && (size s / 4 <=? dead))))).

Definition compact_if_due (s : MalMapStorage) : outcome MalMapStorage :=
  if mal_map_should_compact s then mal_map_compact s else Ret s.

(** ** The object: descriptor and barriers *)

(** [entries] of the map object, with the SATB records and card marks made. *)
Record MapWorld : Type := mkWorld {
  entries : option MalMapStorage;
  satb : list Z;
  cards : list Z;
}.

Definition with_storage (s : MalMapStorage) (w : MapWorld) : MapWorld :=
  mkWorld (Some s) (satb w) (cards w).
Definition mal_gc_write_barrier (old : Z) (w : MapWorld) : MapWorld :=
  if mal_gc_marking_active then mkWorld (entries w) (satb w ++ [old]) (cards w) else w.
Definition mal_gc_card (value : Z) (w : MapWorld) : MapWorld :=
  mkWorld (entries w) (satb w) (cards w ++ [value]).

Definition mal_map_object_init : MapWorld := mkWorld None [] [].

Definition mal_map_object_storage (w : MapWorld) : MalMapStorage * MapWorld :=
  match entries w with
  | Some s => (s, w)
  | None => (new_storage, with_storage new_storage w)
  end.

(** ** Lookups *)

Definition mal_map_storage_find (e : option MalMapStorage) (key : Z) : outcome Z :=
  match e with
  | None => Ret 0
  | Some s =>
      if size s =? 0 then Ret 0
      else if payload_null (payload s) then Ret (mal_map_small_find s key)
      else
        slot ← mal_map_lookup_slot s key;
        Ret (if slot =? UINT32_MAX then 0 else u32 (u32 (arr_get (slots s) slot) + 1))
  end.
Definition mal_map_object_find_canonical (w : MapWorld) (key : Z) : outcome Z :=
  mal_map_storage_find (entries w) key.
Definition mal_map_object_has_canonical (w : MapWorld) (key : Z) : outcome bool :=
  entry ← mal_map_object_find_canonical w key; Ret (negb (entry =? 0)).
Definition mal_map_object_has (w : MapWorld) (value : Z) : outcome bool :=
  mal_map_object_has_canonical w (mal_collection_canonical_value value).

Definition mal_map_storage_key (s : MalMapStorage) (entry : Z) : Z :=
  mal_map_key_at s (entry - 1).
Definition mal_map_storage_value (s : MalMapStorage) (entry : Z) : Z :=
  mal_map_value_at s (entry - 1).

(** The value at a found entry; a zero entry is [undefined]. *)
Definition value_or_undefined (e : option MalMapStorage) (entry : Z) : Z :=
  if entry =? 0 then MAL_VALUE_UNDEFINED
  else match e with Some s => mal_map_storage_value s entry | None => MAL_VALUE_UNDEFINED end.
Definition mal_map_object_get (w : MapWorld) (key : Z) : outcome Z :=
  entry ← mal_map_object_find_canonical w (mal_collection_canonical_value key);
  Ret (value_or_undefined (entries w) entry).

Definition mal_map_object_size (w : MapWorld) : Z :=
  match entries w with None => 0 | Some s => size s end.

(** ** The entry hint *)

Definition mal_map_storage_entry_hint (e : option MalMapStorage) (key : Z) : Z :=
  match e with
  | None => 0
  | Some s =>
      if entry_hint s =? 0 then 0
      else if hint_key s =? key then entry_hint s
      else if negb (mal_value_is_string key) && negb (mal_value_is_bigint key) then 0
      else if mal_key_value_equals (hint_key s) key then entry_hint s else 0
  end.
Definition mal_map_object_entry_hint (w : MapWorld) (key : Z) : Z :=
  mal_map_storage_entry_hint (entries w) key.

Definition mal_map_storage_remember_entry (entry : Z) (s : MalMapStorage) : MalMapStorage :=
  if entry_hint s =? entry then s
  else set_hint entry (if entry =? 0 then MAL_VALUE_EMPTY else mal_map_key_at s (entry - 1)) s.
Definition mal_map_object_remember_entry (w : MapWorld) (entry : Z) : MapWorld :=
  match entries w with
  | None => w
  | Some s => with_storage (mal_map_storage_remember_entry entry s) w
  end.

Definition mal_map_storage_find_hinted (w : MapWorld) (key : Z) : outcome (Z * MapWorld) :=
  let entry := mal_map_storage_entry_hint (entries w) key in
  if negb (entry =? 0) then Ret (entry, w)
  else
    entry ← mal_map_storage_find (entries w) key;
    Ret (entry, if negb (entry =? 0) then mal_map_object_remember_entry w entry else w).

Definition mal_map_storage_finds_bits (e : option MalMapStorage) : bool :=
  match e with
  | None => false
  | Some s => negb (payload_null (payload s))
              && (domain_is (domain s) MAL_MAP_KEYS_INT32 || domain_is (domain s) MAL_MAP_KEYS_IDENTITY)
  end.
Definition mal_map_storage_find_bits (s : MalMapStorage) (key : Z)
  : outcome (Z * MalMapStorage) :=
  if negb (entry_hint s =? 0) && (hint_key s =? key) then Ret (entry_hint s, s)
  else
    match mal_map_query_in_domain s key with
    | None => Ret (0, s)
    | Some int_key =>
        slot ←
          (if domain_is (domain s) MAL_MAP_KEYS_INT32
           then mal_map_probe_in s MAL_MAP_KEYS_INT32 key int_key (mal_key_hash_mix key) false
           else mal_map_probe_in s MAL_MAP_KEYS_IDENTITY key 0 (mal_key_hash_mix key) false);
        if slot =? UINT32_MAX then Ret (0, s)
        else
          let entry := u32 (u32 (arr_get (slots s) slot) + 1) in
          Ret (entry, mal_map_storage_remember_entry entry s)
    end.

(** The leaf lookup for hashed int32 and identity keys, else the general one. *)
Definition mal_map_object_find_hinted (w : MapWorld) (key : Z) : outcome (Z * MapWorld) :=
  match entries w with
  | Some s =>
      if negb (mal_map_storage_finds_bits (Some s)) then mal_map_storage_find_hinted w key
      else '(entry, s) ← mal_map_storage_find_bits s key; Ret (entry, with_storage s w)
  | None => mal_map_storage_find_hinted w key
  end.
Definition mal_map_object_get_hinted (w : MapWorld) (key : Z) : outcome (Z * MapWorld) :=
  '(entry, w) ← mal_map_object_find_hinted w key;
  Ret (value_or_undefined (entries w) entry, w).
Definition mal_map_object_get_borrowed (w : MapWorld) (key : Z) : outcome (Z * Z * MapWorld) :=
  '(entry, w) ← mal_map_object_find_hinted w key;
  Ret (value_or_undefined (entries w) entry, entry, w).

(** ** Insertion *)

(** The bucket a hashed store's search ended on, and the entry found. *)
Definition upsert_search (s : MalMapStorage) (key : Z) (accepts known_slot : bool)
  : outcome (Z * Z * Z) :=
  if known_slot then
    let hash := mal_key_hash_value key in
    missing_slot ← mal_map_find_slot s key hash;
    Ret (hash, missing_slot,
         if mal_hash_slot_live (controls s) missing_slot
         then u32 (u32 (arr_get (slots s) missing_slot) + 1) else 0)
  else if accepts then Ret (0, 0, mal_map_small_find s key)
  else Ret (0, 0, 0).

(** The hashed arm of an insertion: grow or convert the payload, rebuild the
    index when the occupancy limit is passed, then write the row. *)
Definition upsert_hashed (s : MalMapStorage) (key : Z) (d : MalMapKeyDomain)
    (known_slot : bool) (hash missing_slot : Z) : outcome MalMapStorage :=
  let index := count s in
  let desired := u32 (count s + 1) in
  let desired :=
    if size s <? reserve_size s
    then u64 (desired + u32 (reserve_size s - size s - 1)) else desired in
  cap ← or_abort (mal_map_capacity desired
                    (if payload_null (payload s) then 4 else capacity s));
  s ← (if payload_null (payload s) || negb (cap =? capacity s)
          || negb (mal_map_row_width d =? mal_map_row_width (domain s))
       then mal_map_replace_payload s d cap
       else Ret (set_domain d s));
  let members :=
    if u32 (size s + 1) <? reserve_size s then reserve_size s else u32 (size s + 1) in
  let reuses_deleted :=
    known_slot && (arr_get (controls s) missing_slot =? MAL_HASH_DELETED) in
  '(s, known_slot) ←
    (if (slot_capacity s =? 0)
        || negb (mal_hash_index_fits
                   (u64 (members + deleted_slots s - Z.b2z reuses_deleted)) (slot_capacity s))
     then sl ← or_abort (mal_map_slot_capacity members);
          s ← mal_map_rehash s sl; Ret (s, false)
     else Ret (s, known_slot));
  let hash := if (known_slot : bool) then hash else mal_key_hash_value key in
  slot ← (if known_slot then Ret missing_slot else mal_map_find_slot s key hash);
  let s := set_payload (mal_map_store_key (payload s) (domain s) index key) s in
  let s := set_value_at index MAL_VALUE_UNDEFINED s in
  let s := set_count (u32 (count s + 1)) s in
  let deleted :=
    if arr_get (controls s) slot =? MAL_HASH_DELETED
    then u32 (deleted_slots s - 1) else deleted_slots s in
  let '(sl, ct) := mal_hash_index_insert (slots s) (controls s) slot index hash in
  Ret (set_reserve_size 0 (set_index sl ct (slot_capacity s) deleted s)).

(** The new inline row. *)
Definition upsert_small (s : MalMapStorage) (key : Z) (d : MalMapKeyDomain) : MalMapStorage :=
  let index := count s in
  set_count (u32 (count s + 1))
    (set_domain d
       (set_small (arr_set (small s) index key)
          (arr_set (small_values s) index MAL_VALUE_UNDEFINED) s)).

(** The entry, whether it was inserted, and the new state. *)
Definition mal_map_object_upsert_canonical (w : MapWorld) (key : Z)
  : outcome (Z * bool * MapWorld) :=
  let '(s, w) := mal_map_object_storage w in
  s ← compact_if_due s;
  let key_domain :=
    if domain_is (domain s) MAL_MAP_KEYS_GENERIC then MAL_MAP_KEYS_GENERIC
    else mal_map_key_domain key in
  let accepts := mal_map_accepts_domain s key_domain in
  let known_slot := negb (payload_null (payload s)) && accepts in
  '(hash, missing_slot, existing) ← upsert_search s key accepts known_slot;
  if negb (existing =? 0) then Ret (existing, false, with_storage s w)
  else
    let d := mal_map_join_domain (domain s) key_domain in
    let index := count s in
    s ← (if payload_null (payload s) && (count s <? MAL_MAP_SMALL_CAPACITY)
         then Ret (upsert_small s key d)
         else upsert_hashed s key d known_slot hash missing_slot);
    let s := set_size (u32 (size s + 1)) s in
    Ret (u32 (index + 1), true, mal_gc_card key (with_storage s w)).

(** ** Update *)

(** Whether an equal string may replace the stored representative. *)
Definition adopts_key (old_key key : Z) : bool :=
  let string := mal_value_to_heap key in
  match string_storage string with
  | MAL_STRING_STORAGE_INLINE => true
  | MAL_STRING_STORAGE_OWNED | MAL_STRING_STORAGE_PREPARED_UTF8 =>
      let old_string := mal_value_to_heap old_key in
      let unit_size := if string_latin1 string || string_latin1 old_string then 1 else 2 in
      let limit := mal_heap_allocation_charge (string_length string * unit_size) in
      string_retained_capacity string <=? limit
  | _ => false
  end.

Definition update_key (s : MalMapStorage) (index key : Z) : MalMapStorage :=
  if payload_null (payload s)
  then set_small (arr_set (small s) index key) (small_values s) s
  else set_payload (mal_map_store_key (payload s) (domain s) index key) s.

Definition mal_map_object_update_entry (w : MapWorld) (s : MalMapStorage) (entry key value : Z)
  : MapWorld :=
  let index := u32 (entry - 1) in
  let w := mal_gc_write_barrier (mal_map_value_at s index) w in
  let s := set_value_at index value s in
  let old_key := mal_map_key_at s index in
  let w :=
    if mal_value_is_string key && negb (old_key =? key) && adopts_key old_key key then
      let w := mal_gc_write_barrier old_key w in
      let s := update_key s index key in
      let s := if entry_hint s =? entry then set_hint entry key s else s in
      mal_gc_card key (with_storage s w)
    else with_storage s w in
  mal_gc_card value w.

Definition mal_map_object_set_hinted (w : MapWorld) (key value : Z) : outcome MapWorld :=
  let entry := mal_map_storage_entry_hint (entries w) key in
  '(entry, inserted, w) ←
    (if entry =? 0 then mal_map_object_upsert_canonical w key else Ret (entry, false, w));
  match entries w with
  | None => Ret w
  | Some s =>
      let w :=
        if inserted : bool then mal_gc_card value (with_storage (set_value_at (entry - 1) value s) w)
        else mal_map_object_update_entry w s entry key value in
      Ret (mal_map_object_remember_entry w entry)
  end.

Definition mal_map_object_set_borrowed (w : MapWorld) (key value entry : Z) : outcome MapWorld :=
  match entries w with
  | Some s =>
      if negb (entry =? 0) && (entry <=? count s) && mal_map_is_live s (entry - 1)
         && (let candidate := mal_map_key_at s (entry - 1) in
             (candidate =? key) || mal_map_key_equals_slow (domain s) candidate key)
      then Ret (mal_map_object_remember_entry (mal_map_object_update_entry w s entry key value) entry)
      else mal_map_object_set_hinted w key value
  | None => mal_map_object_set_hinted w key value
  end.

Definition mal_map_object_set_canonical (w : MapWorld) (key value : Z) : outcome MapWorld :=
  '(entry, _, w) ← mal_map_object_upsert_canonical w key;
  match entries w with
  | None => Ret w
  | Some s => Ret (mal_map_object_update_entry w s entry key value)
  end.
Definition mal_map_object_set (w : MapWorld) (key value : Z) : outcome MapWorld :=
  mal_map_object_set_canonical w (mal_collection_canonical_value key) value.

(** ** Deletion and clearing *)

(** The row index of a key, with its bucket erased: [None] is the early
    [return false]. *)
Definition delete_find (s : MalMapStorage) (key : Z) : outcome (option (Z * MalMapStorage)) :=
  if payload_null (payload s) then
    let entry := mal_map_small_find s key in
    Ret (if entry =? 0 then None else Some (entry - 1, s))
  else
    slot ← mal_map_lookup_slot s key;
    if slot =? UINT32_MAX then Ret None
    else
      let index := u32 (arr_get (slots s) slot) in
      let '(ct, deleted) := mal_hash_controls_erase MASK_SHIFT (controls s) slot in
      Ret (Some (index, set_index (slots s) ct (slot_capacity s)
                          (u32 (deleted_slots s + Z.b2z deleted)) s)).

Definition delete_row (w : MapWorld) (s : MalMapStorage) (index : Z) : MapWorld * MalMapStorage :=
  let s := if entry_hint s =? u32 (index + 1) then set_hint 0 MAL_VALUE_EMPTY s else s in
  let w := mal_gc_write_barrier (mal_map_key_at s index) w in
  let w := mal_gc_write_barrier (mal_map_value_at s index) w in
  let s := if payload_null (payload s)
           then set_small (arr_set (small s) index MAL_VALUE_EMPTY) (small_values s) s else s in
  let s := set_value_at index MAL_VALUE_EMPTY s in
  (w, set_size (u32 (size s - 1)) s).

Definition mal_map_object_delete_canonical (w : MapWorld) (key : Z) : outcome (bool * MapWorld) :=
  match entries w with
  | None => Ret (false, w)
  | Some s =>
      if size s =? 0 then Ret (false, w)
      else
        r ← delete_find s key;
        match r with
        | None => Ret (false, w)
        | Some (index, s) =>
            let '(w, s) := delete_row w s index in
            s ← compact_if_due s;
            Ret (true, with_storage s w)
        end
  end.
Definition mal_map_object_delete (w : MapWorld) (value : Z) : outcome (bool * MapWorld) :=
  mal_map_object_delete_canonical w (mal_collection_canonical_value value).

Fixpoint clear_shade (fuel : nat) (s : MalMapStorage) (i : Z) (w : MapWorld) : MapWorld :=
  match fuel with
  | O => w
  | S fuel =>
      let value := mal_map_value_at s i in
      clear_shade fuel s (i + 1)
        (if value =? MAL_VALUE_EMPTY then w
         else mal_gc_write_barrier value (mal_gc_write_barrier (mal_map_key_at s i) w))
  end.

(** The first [n] elements overwritten. *)
Definition fill_rows {A} (n : Z) (f : A -> A) (l : list A) : list A :=
  map f (take (Z.to_nat n) l) ++ drop (Z.to_nat n) l.

(** A pinned store keeps its rows as tombstones. *)
Definition clear_pinned (s : MalMapStorage) : MalMapStorage :=
  let s :=
    if payload_null (payload s) then
      set_small (fill_rows (count s) (fun _ => MAL_VALUE_EMPTY) (small s))
        (fill_rows (count s) (fun _ => MAL_VALUE_EMPTY) (small_values s)) s
    else if domain_is (domain s) MAL_MAP_KEYS_INT32 then
      set_payload (PInt32 (int32_keys (payload s))
        (fill_rows (count s) (fun _ => MAL_VALUE_EMPTY) (int32_values (payload s)))) s
    else
      set_payload (PPairs
        (fill_rows (count s) (fun row => (fst row, MAL_VALUE_EMPTY)) (pair_rows (payload s)))) s in
  if negb (slot_capacity s =? 0)
  then set_index (slots s) (mal_hash_index_reset (controls s) (slot_capacity s)) (slot_capacity s) 0 s
  else set_index (slots s) (controls s) (slot_capacity s) 0 s.

Definition mal_map_object_clear (w : MapWorld) : outcome MapWorld :=
  match entries w with
  | None => Ret w
  | Some s =>
      let s := set_hint 0 MAL_VALUE_EMPTY s in
      let w := if mal_gc_marking_active then clear_shade (Z.to_nat (count s)) s 0 w else w in
      let s := set_size 0 s in
      s ← (if (pins s =? 0) && negb (count s =? 0) then mal_map_compact s
           else Ret (clear_pinned s));
      Ret (with_storage s w)
  end.

Definition mal_map_object_compact (w : MapWorld) : outcome MapWorld :=
  match entries w with
  | None => Ret w
  | Some s => s ← compact_if_due s; Ret (with_storage s w)
  end.

(** ** Reservation *)

Definition mal_map_object_reserve (w : MapWorld) (desired_size : Z) : outcome (bool * MapWorld) :=
  cap ← mal_map_capacity desired_size 4;
  match cap with
  | None => Ret (false, w)
  | Some cap =>
      sl ← mal_map_slot_capacity desired_size;
      match sl with
      | None => Ret (false, w)
      | Some sl =>
          if desired_size <=? mal_map_object_size w then Ret (true, w)
          else
            let '(s, w) := mal_map_object_storage w in
            if SIZE_MAX / mal_map_row_width (domain s) <? cap then Ret (false, w)
            else if payload_null (payload s) then
              Ret (true, with_storage
                (if reserve_size s <? desired_size then set_reserve_size (u32 desired_size) s else s) w)
            else
              let required := u64 (count s + desired_size - size s) in
              cap ← mal_map_capacity required (capacity s);
              match cap with
              | None => Ret (false, w)
              | Some cap =>
                  if SIZE_MAX / mal_map_row_width (domain s) <? cap then Ret (false, w)
                  else
                    s ← (if capacity s <? cap then mal_map_replace_payload s (domain s) cap else Ret s);
                    s ← (if slot_capacity s <? sl then mal_map_rehash s sl else Ret s);
                    Ret (true, with_storage s w)
              end
      end
  end.

(** ** Cursors, pins and release *)

(** The scan of [mal_map_iter_next] from a position: the row found and the
    next position. *)
Fixpoint iter_loop (fuel : nat) (s : MalMapStorage) (index : Z) : option (Z * Z) * Z :=
  match fuel with
  | O => (None, index)
  | S fuel =>
      if index <? count s then
        let mapped := mal_map_value_at s index in
        if mapped =? MAL_VALUE_EMPTY then iter_loop fuel s (index + 1)
        else (Some (mal_map_key_at s index, mapped), index + 1)
      else (None, index)
  end.
Definition mal_map_iter_next (s : MalMapStorage) (index : Z) : option (Z * Z) * Z :=
  iter_loop (S (Z.to_nat (count s - index))) s index.

Definition mal_map_storage_pin (s : MalMapStorage) : outcome MalMapStorage :=
  if pins s =? UINT32_MAX then Abort else Ret (set_pins (pins s + 1) s).
(** [None]: the store is freed. *)
Definition mal_map_storage_unpin (s : MalMapStorage) : option MalMapStorage :=
  if pins s =? 0 then Some s
  else
    let s := set_pins (pins s - 1) s in
    if (pins s =? 0) && owner_released s then None else Some s.
Definition mal_map_storage_release_owner (s : MalMapStorage) : option MalMapStorage :=
  let s := set_hint 0 MAL_VALUE_EMPTY s in
  if pins s =? 0 then None else Some (set_owner_released true s).

Definition mal_map_storage_traced_slots (e : option MalMapStorage) : Z :=
  match e with
  | None => 0
  | Some s => size s * (if domain_is (domain s) MAL_MAP_KEYS_INT32
                           || domain_is (domain s) MAL_MAP_KEYS_NUMBER then 1 else 2)
  end.
Definition mal_map_storage_key_domain (e : option MalMapStorage) : MalMapKeyDomain :=
  match e with None => MAL_MAP_KEYS_EMPTY | Some s => domain s end.
Definition mal_map_storage_order_length (e : option MalMapStorage) : Z :=
  match e with None => 0 | Some s => count s end.
End map.
