(* ===== verification/MapRows.v ===== *)
(** The rows of a Map store (MapObject): what a row holds under each layout,
    the invariant of the lanes, and the effect of row writes, payload
    replacement and compaction on the rows. *)

From S2P Require Import Prelude F64 Value Key HashIndex MapObject.

(** Row [i] of the insertion order: a tombstone, or a key and its value. *)
Definition row_at (s : MalMapStorage) (i : Z) : option (Z * Z) :=
  if mal_map_value_at s i =? MAL_VALUE_EMPTY then None
  else Some (mal_map_key_at s i, mal_map_value_at s i).

(** The entries of the map, oldest first. *)
Definition rows (s : MalMapStorage) : list (option (Z * Z)) :=
  map (row_at s) (seqZ 0 (count s)).
Definition contents (s : MalMapStorage) : list (Z * Z) := omap id (rows s).

(** The lanes have their capacity, and the payload is laid out for the domain. *)
Record lanes_ok (s : MalMapStorage) : Prop := {
  la_count : 0 <= count s <= capacity s;
  la_capacity : 4 <= capacity s < 2 ^ 31;
  la_small : arr_len (small s) = 4 /\ arr_len (small_values s) = 4;
  la_payload :
    match payload s with
    | PNull => capacity s = 4
    | PInt32 ks vs =>
        domain s = MAL_MAP_KEYS_INT32 /\ arr_len ks = capacity s /\ arr_len vs = capacity s /\
        Forall (in_i 32) ks
    | PPairs ps => domain s <> MAL_MAP_KEYS_INT32 /\ arr_len ps = capacity s
    end;
}.

(** Two stores with the same descriptor fields outside the rows. *)
Definition same_frame (s s' : MalMapStorage) : Prop :=
  slots s' = slots s /\ controls s' = controls s /\ size s' = size s /\ count s' = count s /\
  slot_capacity s' = slot_capacity s /\ deleted_slots s' = deleted_slots s /\
  pins s' = pins s /\ reserve_size s' = reserve_size s /\
  entry_hint s' = entry_hint s /\ hint_key s' = hint_key s /\
  owner_released s' = owner_released s.

Lemma same_frame_refl s : same_frame s s.
Proof. by repeat split. Qed.

Lemma same_frame_trans s s' s'' : same_frame s s' -> same_frame s' s'' -> same_frame s s''.
Proof. unfold same_frame. intuition congruence. Qed.

Lemma domain_is_true a b : domain_is a b = true <-> a = b.
Proof. destruct a, b; done. Qed.

Lemma domain_is_false a b : domain_is a b = false <-> a <> b.
Proof. rewrite <- domain_is_true. by destruct (domain_is a b). Qed.

Lemma domain_is_refl a : domain_is a a = true.
Proof. by apply domain_is_true. Qed.

(** * Key domains *)

(** A double key that int32 storage can hold is the double of its int32. *)
Lemma int32_domain_key k :
  canonical k -> mal_map_key_domain k = MAL_MAP_KEYS_INT32 ->
  f64_of_int (i32 (f64_to_int k)) = k.
Proof.
  intros (Hr & _ & Hz & _). unfold mal_map_key_domain, mal_value_to_f64.
  destruct (mal_value_is_f64 k) eqn:Hf.
  2: { by destruct (mal_value_is_string k), (mal_value_is_object k || mal_value_is_symbol k). }
  destruct (_ && _ && f64_eqb _ _) eqn:E; [|done]. intros _.
  apply andb_true_iff in E as [_ E].
  assert (Z.abs (i32 (f64_to_int k)) < 2 ^ 53) as Ha by (apply i32_abs, swrap_range; lia).
  apply f64_eqb_bits in E as [E|[Ma Mk]]; [done|..|by apply f64_of_int_range|done].
  apply f64_zero_bits in Mk as [->| ->]; [|done|done].
  apply f64_zero_bits in Ma as [->|Ma]; [done| |by apply f64_of_int_range].
  by apply f64_of_int_not_neg_zero in Ma.
Qed.

Lemma f64_rank_int32 n : in_i 32 n ->
  f64_leb (f64_of_int INT32_MIN) (f64_of_int n) = true /\
  f64_leb (f64_of_int n) (f64_of_int INT32_MAX) = true.
Proof.
  unfold in_i. simpl. intros Hn. unfold f64_leb.
  rewrite !f64_of_int_not_nan by (unfold INT32_MIN, INT32_MAX; lia). cbn [negb andb].
  assert (forall m, 0 <= m < 2 ^ 53 -> f64_rank (f64_of_int (- m)) = - f64_magnitude (f64_of_int m)) as Hneg.
  { intros m Hm. destruct (decide (m = 0)) as [->|]; [done|]. unfold f64_rank.
    rewrite f64_sign_of_int, !f64_magnitude_of_int by lia.
    destruct (Z.ltb_spec (- m) 0); [|lia]. by rewrite Z.abs_opp. }
  assert (forall a b, 0 <= a <= b -> b < 2 ^ 53 ->
            f64_magnitude (f64_of_int a) <= f64_magnitude (f64_of_int b)) as Hmono.
  { intros a b Hab Hb. destruct (decide (a = b)) as [->|]; [lia|].
    pose proof (f64_magnitude_mono a b). lia. }
  assert (f64_rank (f64_of_int INT32_MIN) = - f64_magnitude (f64_of_int (2 ^ 31))) as ->
    by (apply (Hneg (2 ^ 31)); lia).
  assert (f64_rank (f64_of_int INT32_MAX) = f64_magnitude (f64_of_int (2 ^ 31 - 1))) as ->
    by (apply f64_rank_of_int; unfold INT32_MAX; lia).
  pose proof (f64_magnitude_range (f64_of_int (2 ^ 31))).
  pose proof (f64_magnitude_range (f64_of_int (2 ^ 31 - 1))).
  destruct (Z.leb_spec 0 n).
  - rewrite f64_rank_of_int by lia. pose proof (f64_magnitude_range (f64_of_int n)).
    pose proof (Hmono n (2 ^ 31 - 1)). split; apply Z.leb_le; lia.
  - replace n with (- (- n)) by lia. rewrite Hneg by lia.
    pose proof (f64_magnitude_range (f64_of_int (- n))).
    pose proof (Hmono (- n) (2 ^ 31)). split; apply Z.leb_le; lia.
Qed.

Lemma key_domain_of_int n : in_i 32 n -> mal_map_key_domain (f64_of_int n) = MAL_MAP_KEYS_INT32.
Proof.
  intros Hn. pose proof (i32_abs n Hn) as Ha. unfold mal_map_key_domain, mal_value_to_f64.
  pose proof (f64_of_int_range n Ha) as Hr.
  rewrite (proj2 (kind_f64 _ Hr) (of_int_kind n Ha)).
  destruct (f64_rank_int32 n Hn) as [-> ->].
  rewrite f64_to_of_int by done. unfold i32. rewrite swrap_small by (done || lia).
  by rewrite f64_eqb_refl by (by apply f64_of_int_not_nan).
Qed.

(** The keys a domain admits. *)
Definition key_in_domain (d : MalMapKeyDomain) (k : Z) : Prop :=
  match d with
  | MAL_MAP_KEYS_EMPTY => False
  | MAL_MAP_KEYS_INT32 => mal_map_key_domain k = MAL_MAP_KEYS_INT32
  | MAL_MAP_KEYS_NUMBER => kind_of k = KDouble
  | MAL_MAP_KEYS_STRING => kind_of k = KString
  | MAL_MAP_KEYS_IDENTITY => kind_of k = KObject \/ kind_of k = KSymbol
  | MAL_MAP_KEYS_GENERIC => True
  end.

Lemma key_domain_class k :
  in_u 64 k ->
  match mal_map_key_domain k with
  | MAL_MAP_KEYS_EMPTY => False
  | MAL_MAP_KEYS_INT32 | MAL_MAP_KEYS_NUMBER => kind_of k = KDouble
  | MAL_MAP_KEYS_STRING => kind_of k = KString
  | MAL_MAP_KEYS_IDENTITY => kind_of k = KObject \/ kind_of k = KSymbol
  | MAL_MAP_KEYS_GENERIC =>
      kind_of k <> KDouble /\ kind_of k <> KString /\ kind_of k <> KObject /\ kind_of k <> KSymbol
  end.
Proof.
  intros Hk. unfold mal_map_key_domain.
  pose proof (kind_test_iff k KDouble Hk) as H1. pose proof (kind_test_iff k KString Hk) as H2.
  pose proof (kind_test_iff k KObject Hk) as H3. pose proof (kind_test_iff k KSymbol Hk) as H4.
  simpl in *. destruct (mal_value_is_f64 k).
  { destruct (_ && _); tauto. }
  destruct (mal_value_is_string k); [tauto|].
  destruct (mal_value_is_object k), (mal_value_is_symbol k); simpl; intuition congruence.
Qed.

Lemma key_in_own_domain k : in_u 64 k -> key_in_domain (mal_map_key_domain k) k.
Proof.
  intros Hk. pose proof (key_domain_class k Hk) as H. unfold key_in_domain.
  destruct (mal_map_key_domain k) eqn:E; done.
Qed.

(** Widening admits every key of both domains. *)
Lemma join_domain_left d d' k :
  in_u 64 k -> key_in_domain d k -> key_in_domain (mal_map_join_domain d d') k.
Proof.
  intros Hk Hd. pose proof (key_domain_class k Hk) as Hc.
  destruct d, d'; simpl in *; try done; by rewrite Hd in Hc.
Qed.

Lemma join_domain_right d d' k :
  in_u 64 k -> key_in_domain d' k -> key_in_domain (mal_map_join_domain d d') k.
Proof.
  intros Hk Hd. pose proof (key_domain_class k Hk) as Hc.
  destruct d, d'; simpl in *; try done; by rewrite Hd in Hc.
Qed.

Lemma query_in_domain_spec `{KeyHeap} s k :
  canonical k ->
  match mal_map_query_in_domain s k with
  | Some n => key_in_domain (domain s) k /\
              (domain s = MAL_MAP_KEYS_INT32 -> n = i32 (f64_to_int k) /\ f64_of_int n = k)
  | None => ~ key_in_domain (domain s) k
  end.
Proof.
  intros Hc. pose proof (proj1 Hc) as Hr. unfold mal_map_query_in_domain.
  pose proof (kind_test_iff k KDouble Hr) as H1. pose proof (kind_test_iff k KString Hr) as H2.
  pose proof (kind_test_iff k KObject Hr) as H3. pose proof (kind_test_iff k KSymbol Hr) as H4.
  simpl in *. destruct (domain s) eqn:Hd; simpl.
  - tauto.
  - pose proof (int32_domain_key k Hc) as Hint. unfold mal_map_key_domain, mal_value_to_f64 in *.
    destruct (mal_value_is_f64 k).
    + cbn [negb]. destruct (f64_leb _ _ && f64_leb _ _); cbn [negb andb] in *; [|done].
      destruct (f64_eqb _ _) eqn:E; [|done]. split; [done|]. intros _. split; [done|].
      by apply Hint.
    + by destruct (mal_value_is_string k), (mal_value_is_object k || mal_value_is_symbol k).
  - destruct (mal_value_is_f64 k); [split; [tauto|done]|]. intros E. by apply H1 in E.
  - destruct (mal_value_is_string k); [split; [tauto|done]|]. intros E. by apply H2 in E.
  - destruct (mal_value_is_object k), (mal_value_is_symbol k); simpl; try (split; [tauto|done]).
    intros [E|E]; [by apply H3 in E|by apply H4 in E].
  - done.
Qed.

(** The domain under which an insertion considers its key. *)
Definition insertion_domain (s : MalMapStorage) (k : Z) : MalMapKeyDomain :=
  if domain_is (domain s) MAL_MAP_KEYS_GENERIC then MAL_MAP_KEYS_GENERIC
  else mal_map_key_domain k.

Lemma accepts_domain_spec s k :
  in_u 64 k ->
  mal_map_accepts_domain s (insertion_domain s k) = true <-> key_in_domain (domain s) k.
Proof.
  intros Hk. pose proof (key_domain_class k Hk) as Hc.
  unfold mal_map_accepts_domain, insertion_domain.
  destruct (domain s), (mal_map_key_domain k) eqn:E; cbn in *;
    intuition congruence.
Qed.

Lemma join_insertion_domain s k :
  in_u 64 k -> key_in_domain (mal_map_join_domain (domain s) (insertion_domain s k)) k.
Proof.
  intros Hk. unfold insertion_domain. destruct (domain_is (domain s) MAL_MAP_KEYS_GENERIC) eqn:E.
  - apply domain_is_true in E as ->. done.
  - apply join_domain_right; [done|]. by apply key_in_own_domain.
Qed.

(** A key equal to a stored one is of the stored domain. *)
Lemma domain_closed `{KeyHeap} d c k :
  canonical c -> canonical k -> key_in_domain d c -> mal_key_value_equals c k = true ->
  key_in_domain d k.
Proof.
  intros (Hc & _) (Hk & _) Hd. unfold mal_key_value_equals.
  destruct (Z.eqb_spec c k) as [->|]; [done|].
  destruct (mal_value_is_string c && mal_value_is_string k) eqn:Es.
  { apply andb_true_iff in Es as [Sc Sk].
    apply kind_string in Sc; [|done]. apply kind_string in Sk; [|done]. intros _.
    pose proof (key_domain_class c Hc) as Hcl.
    destruct d; simpl in *; try done; try congruence;
      first [rewrite Hd in Hcl; congruence | destruct Hd; congruence]. }
  destruct (mal_value_is_bigint c && mal_value_is_bigint k) eqn:Eb; [|done].
  apply andb_true_iff in Eb as [Bc Bk]. apply kind_bigint in Bc; [|done]. intros _.
  pose proof (key_domain_class c Hc) as Hcl.
  destruct d; simpl in *; try done; try congruence;
    first [rewrite Hd in Hcl; congruence | destruct Hd; congruence].
Qed.

(** * Row writes *)

(** [write_row i k v]: the key and the value of one row. *)
Definition write_row (i k v : Z) (s : MalMapStorage) : MalMapStorage :=
  set_value_at i v (update_key s i k).

(** The keys a store's lanes can hold. *)
Definition storable (s : MalMapStorage) (k : Z) : Prop :=
  payload_null (payload s) = false -> domain s = MAL_MAP_KEYS_INT32 ->
  f64_of_int (i32 (f64_to_int k)) = k.

Section writes.
Variable s : MalMapStorage.
Hypothesis Hs : lanes_ok s.
Variable i : Z.
Hypothesis Hi : 0 <= i < capacity s.

Lemma value_at_set_value v j : 0 <= j ->
  mal_map_value_at (set_value_at i v s) j = if j =? i then v else mal_map_value_at s j.
Proof using Hs Hi.
  intros Hj. destruct Hs as [_ _ [Hk Hv] Hp].
  unfold mal_map_value_at, set_value_at.
  destruct (payload s) as [|ks vs|ps] eqn:E; cbn -[arr_get].
  - rewrite E. cbn -[arr_get]. destruct (Z.eqb_spec j i) as [->|];
      [apply arr_get_set_eq|apply arr_get_set_ne]; lia.
  - destruct Hp as (Hd & Hlk & Hlv & _). rewrite Hd. cbn -[arr_get]. rewrite ?Hd. cbn -[arr_get].
    destruct (Z.eqb_spec j i) as [->|]; [apply arr_get_set_eq|apply arr_get_set_ne]; lia.
  - destruct Hp as [Hd Hl]. apply domain_is_false in Hd. rewrite Hd. cbn -[arr_get]. rewrite Hd.
    destruct (Z.eqb_spec j i) as [->|].
    + by rewrite arr_get_set_eq by lia.
    + by rewrite arr_get_set_ne by lia.
Qed.

Lemma key_at_set_value v j : 0 <= j ->
  mal_map_key_at (set_value_at i v s) j = mal_map_key_at s j.
Proof using Hs Hi.
  intros Hj. destruct Hs as [_ _ [Hk Hv] Hp].
  unfold mal_map_key_at, set_value_at.
  destruct (payload s) as [|ks vs|ps] eqn:E; cbn -[arr_get].
  - by rewrite E.
  - destruct Hp as (Hd & _). rewrite Hd. cbn -[arr_get]. by rewrite ?Hd.
  - destruct Hp as [Hd Hl]. apply domain_is_false in Hd. rewrite Hd. cbn -[arr_get]. rewrite Hd.
    destruct (decide (j = i)) as [->|].
    + by rewrite arr_get_set_eq by lia.
    + by rewrite arr_get_set_ne by lia.
Qed.

Lemma lanes_set_value v : lanes_ok (set_value_at i v s).
Proof using Hs.
  destruct Hs as [Hc Hcap [Hk Hv] Hp]. unfold set_value_at.
  destruct (payload s) as [|ks vs|ps] eqn:E; cbn -[arr_get].
  - split; cbn; rewrite ?arr_len_set; try done. by rewrite E.
  - destruct Hp as (Hd & ? & ? & ?). rewrite Hd. cbn -[arr_get].
    split; cbn; rewrite ?arr_len_set; done.
  - destruct Hp as [Hd Hl]. pose proof (proj2 (domain_is_false _ _) Hd) as ->. cbn -[arr_get].
    split; cbn; rewrite ?arr_len_set; done.
Qed.

Lemma frame_set_value v :
  same_frame s (set_value_at i v s) /\ capacity (set_value_at i v s) = capacity s /\
  domain (set_value_at i v s) = domain s /\
  payload_null (payload (set_value_at i v s)) = payload_null (payload s).
Proof using Type.
  unfold set_value_at. destruct (payload s) as [|ks vs|ps] eqn:E; cbn -[arr_get].
  - rewrite E. by repeat split.
  - destruct (domain_is _ _); by repeat split.
  - destruct (domain_is _ _); by repeat split.
Qed.

Lemma key_at_update_key k j : 0 <= j -> storable s k ->
  mal_map_key_at (update_key s i k) j = if j =? i then k else mal_map_key_at s j.
Proof using Hs Hi.
  intros Hj Hst. destruct Hs as [_ _ [Hk Hv] Hp]. unfold storable in Hst.
  unfold mal_map_key_at, update_key, mal_map_store_key.
  destruct (payload s) as [|ks vs|ps] eqn:E; cbn -[arr_get].
  - rewrite E. cbn -[arr_get]. destruct (Z.eqb_spec j i) as [->|];
      [apply arr_get_set_eq|apply arr_get_set_ne]; lia.
  - destruct Hp as (Hd & Hlk & Hlv & _). rewrite Hd. cbn -[arr_get].
    unfold mal_value_from_f64, mal_value_to_f64.
    destruct (Z.eqb_spec j i) as [->|].
    + rewrite arr_get_set_eq by lia. by apply Hst.
    + by rewrite arr_get_set_ne by lia.
  - destruct Hp as [Hd Hl]. apply domain_is_false in Hd. rewrite Hd. cbn -[arr_get].
    destruct (Z.eqb_spec j i) as [->|].
    + by rewrite arr_get_set_eq by lia.
    + by rewrite arr_get_set_ne by lia.
Qed.

Lemma value_at_update_key k j : 0 <= j ->
  mal_map_value_at (update_key s i k) j = mal_map_value_at s j.
Proof using Hs Hi.
  intros Hj. destruct Hs as [_ _ [Hk Hv] Hp].
  unfold mal_map_value_at, update_key, mal_map_store_key.
  destruct (payload s) as [|ks vs|ps] eqn:E; cbn -[arr_get].
  - by rewrite E.
  - destruct Hp as (Hd & _). rewrite Hd. cbn -[arr_get]. by rewrite ?Hd.
  - destruct Hp as [Hd Hl]. apply domain_is_false in Hd. rewrite Hd. cbn -[arr_get].
    destruct (decide (j = i)) as [->|].
    + by rewrite arr_get_set_eq by lia.
    + by rewrite arr_get_set_ne by lia.
Qed.

Lemma lanes_update_key k : lanes_ok (update_key s i k).
Proof using Hs.
  destruct Hs as [Hc Hcap [Hk Hv] Hp]. unfold update_key, mal_map_store_key.
  destruct (payload s) as [|ks vs|ps] eqn:E; cbn -[arr_get].
  - split; cbn; rewrite ?arr_len_set; try done. by rewrite E.
  - destruct Hp as (Hd & ? & ? & ?). rewrite Hd. cbn -[arr_get].
    split; cbn; rewrite ?arr_len_set; try done. split_and!; try done.
    apply Forall_insert; [done|]. apply swrap_range. lia.
  - destruct Hp as [Hd Hl]. pose proof (proj2 (domain_is_false _ _) Hd) as ->. cbn -[arr_get].
    split; cbn; rewrite ?arr_len_set; done.
Qed.

Lemma frame_update_key k :
  same_frame s (update_key s i k) /\ capacity (update_key s i k) = capacity s /\
  domain (update_key s i k) = domain s /\
  payload_null (payload (update_key s i k)) = payload_null (payload s).
Proof using Type.
  unfold update_key, mal_map_store_key.
  destruct (payload s) as [|ks vs|ps] eqn:E; cbn -[arr_get].
  - rewrite E. by repeat split.
  - destruct (domain_is _ _); by repeat split.
  - destruct (domain_is _ _); by repeat split.
Qed.
End writes.

Section write_row.
Variable s : MalMapStorage.
Hypothesis Hs : lanes_ok s.
Variables i k v : Z.
Hypothesis Hi : 0 <= i < capacity s.
Hypothesis Hk : storable s k.

Let s1 := update_key s i k.

Lemma write_row_range : 0 <= i < capacity s1.
Proof using Hi. subst s1. destruct (frame_update_key s i k) as (_ & -> & _). done. Qed.

Lemma write_row_lanes : lanes_ok (write_row i k v s).
Proof using Hs. apply lanes_set_value. by apply lanes_update_key. Qed.

Lemma write_row_frame :
  same_frame s (write_row i k v s) /\ capacity (write_row i k v s) = capacity s /\
  domain (write_row i k v s) = domain s /\
  payload_null (payload (write_row i k v s)) = payload_null (payload s).
Proof using Type.
  destruct (frame_update_key s i k) as (F1 & C1 & D1 & P1).
  destruct (frame_set_value s1 i v) as (F2 & C2 & D2 & P2).
  unfold write_row. subst s1. rewrite C2, D2, P2. split; [|done].
  by eapply same_frame_trans.
Qed.

Lemma write_row_key j : 0 <= j ->
  mal_map_key_at (write_row i k v s) j = if j =? i then k else mal_map_key_at s j.
Proof using Hs Hi Hk.
  intros Hj. unfold write_row.
  rewrite key_at_set_value by (done || apply write_row_range || by apply lanes_update_key).
  by apply key_at_update_key.
Qed.

Lemma write_row_value j : 0 <= j ->
  mal_map_value_at (write_row i k v s) j = if j =? i then v else mal_map_value_at s j.
Proof using Hs Hi.
  intros Hj. unfold write_row.
  rewrite value_at_set_value by (done || apply write_row_range || by apply lanes_update_key).
  by rewrite value_at_update_key.
Qed.

Lemma write_row_at j : 0 <= j ->
  row_at (write_row i k v s) j =
    if j =? i then (if v =? MAL_VALUE_EMPTY then None else Some (k, v)) else row_at s j.
Proof using Hs Hi Hk.
  intros Hj. unfold row_at. rewrite write_row_key, write_row_value by done.
  by destruct (j =? i).
Qed.
End write_row.

(** * Live rows *)

(** The rows of positions [i .. i + n), and the live ones among them. *)
Definition rows_from (s : MalMapStorage) (i n : Z) : list (option (Z * Z)) :=
  map (row_at s) (seqZ i n).
Definition live_from (s : MalMapStorage) (i n : Z) : list (Z * Z) := omap id (rows_from s i n).

Lemma contents_live s : contents s = live_from s 0 (count s).
Proof. done. Qed.

Lemma rows_from_cons s i n : 0 < n -> rows_from s i n = row_at s i :: rows_from s (i + 1) (n - 1).
Proof. intros. unfold rows_from. by rewrite seqZ_cons by lia. Qed.

Lemma rows_from_app s i n m : 0 <= n -> 0 <= m ->
  rows_from s i (n + m) = rows_from s i n ++ rows_from s (i + n) m.
Proof. intros. unfold rows_from. by rewrite seqZ_app, map_app. Qed.

Lemma rows_from_snoc s i n : 0 <= n -> rows_from s i (n + 1) = rows_from s i n ++ [row_at s (i + n)].
Proof. intros. by rewrite rows_from_app by lia. Qed.

Lemma rows_from_ext s s' i n :
  (forall j, i <= j < i + n -> row_at s' j = row_at s j) -> rows_from s' i n = rows_from s i n.
Proof.
  intros He. unfold rows_from. apply map_ext_in. intros j Hj.
  apply He. apply list_elem_of_In, elem_of_seqZ in Hj. lia.
Qed.

Lemma rows_from_len s i n : 0 <= n -> arr_len (rows_from s i n) = n.
Proof. intros. unfold rows_from, arr_len. rewrite length_map, length_seqZ. lia. Qed.

Lemma rows_from_lookup s i n j :
  0 <= j < n -> rows_from s i n !! Z.to_nat j = Some (row_at s (i + j)).
Proof.
  intros Hj. unfold rows_from. rewrite list_lookup_fmap, lookup_seqZ_lt by lia. simpl.
  do 2 f_equal. lia.
Qed.

Lemma live_from_app s i n m : 0 <= n -> 0 <= m ->
  live_from s i (n + m) = live_from s i n ++ live_from s (i + n) m.
Proof. intros. unfold live_from. by rewrite rows_from_app, omap_app. Qed.

Lemma live_from_one s i : live_from s i 1 = match row_at s i with Some r => [r] | None => [] end.
Proof.
  unfold live_from. rewrite rows_from_cons by lia. change (rows_from s (i + 1) (1 - 1)) with
    (@nil (option (Z * Z))). cbn. by destruct (row_at s i).
Qed.

Lemma live_from_ext s s' i n :
  (forall j, i <= j < i + n -> row_at s' j = row_at s j) -> live_from s' i n = live_from s i n.
Proof. intros. unfold live_from. by rewrite (rows_from_ext s s'). Qed.

Lemma live_from_len s i n : 0 <= n -> arr_len (live_from s i n) <= n.
Proof.
  intros Hn. pose proof (rows_from_len s i n Hn) as Hl. unfold live_from, arr_len in *.
  assert (forall l : list (option (Z * Z)), (length (omap id l) <= length l)%nat) as Ho.
  { induction l as [|[r|] l IH]; csimpl; lia. }
  specialize (Ho (rows_from s i n)). lia.
Qed.

Lemma live_from_elem s i n r :
  r ∈ live_from s i n <-> exists j, i <= j < i + n /\ row_at s j = Some r.
Proof.
  unfold live_from. rewrite list_elem_of_omap. unfold rows_from. split.
  - intros (o & Ho & E). unfold id in E. subst o. apply list_elem_of_fmap in Ho as (j & -> & Hj%elem_of_seqZ).
    exists j. split; [lia|done].
  - intros (j & Hj & Hr). exists (Some r). split; [|done].
    apply list_elem_of_fmap. exists j. split; [done|]. apply elem_of_seqZ. lia.
Qed.

(** Keys of a domain, none of them equal. *)
Section keys.
Context `{KeyHeap}.

Definition key_ok (d : MalMapKeyDomain) (k : Z) : Prop :=
  canonical k /\ k <> MAL_VALUE_EMPTY /\ key_in_domain d k.

Fixpoint distinct (l : list (Z * Z)) : Prop :=
  match l with
  | [] => True
  | (k, _) :: l => Forall (fun r => mal_key_value_equals k r.1 = false) l /\ distinct l
  end.

Lemma distinct_app l l' :
  distinct (l ++ l') <->
  distinct l /\ distinct l' /\
  Forall (fun r => Forall (fun r' => mal_key_value_equals r.1 r'.1 = false) l') l.
Proof.
  induction l as [|[k v] l IH]; simpl.
  - split; [intros; by split_and!|tauto].
  - rewrite Forall_app, IH, Forall_cons. simpl. tauto.
Qed.

Definition keys_ok (d : MalMapKeyDomain) (l : list (Z * Z)) : Prop :=
  Forall (fun r => key_ok d r.1) l /\ distinct l.
End keys.

Lemma key_ok_storable `{KeyHeap} s k : key_ok (domain s) k -> storable s k.
Proof.
  intros (Hc & _ & Hd) _ E. apply int32_domain_key; [done|]. rewrite E in Hd. exact Hd.
Qed.

(** ** Compaction *)

Lemma compact_step s i live :
  lanes_ok s ->
  (if payload_null (payload s)
   then set_small (arr_set (small s) live (arr_get (small s) i)) (small_values s) s
   else set_payload (mal_map_store_key (payload s) (domain s) live (mal_map_key_at s i)) s)
  = update_key s live (mal_map_key_at s i).
Proof.
  intros Hs. unfold update_key, mal_map_key_at. destruct (payload s); done.
Qed.

Definition same_shape (s s' : MalMapStorage) : Prop :=
  same_frame s s' /\ capacity s' = capacity s /\ domain s' = domain s /\
  payload_null (payload s') = payload_null (payload s).

Lemma same_shape_trans s s' s'' : same_shape s s' -> same_shape s' s'' -> same_shape s s''.
Proof.
  intros (F & C & D & P) (F' & C' & D' & P'). split; [by eapply same_frame_trans|].
  split_and!; congruence.
Qed.

Lemma compact_loop_ok fuel : forall s i live,
  lanes_ok s -> 0 <= live <= i -> i + Z.of_nat fuel = count s ->
  (forall k v, (k, v) ∈ live_from s i (Z.of_nat fuel) -> storable s k) ->
  let '(s', n) := compact_loop fuel s i live in
  lanes_ok s' /\ same_shape s s' /\
  rows_from s' 0 n = rows_from s 0 live ++ map Some (live_from s i (Z.of_nat fuel)) /\
  n = live + arr_len (live_from s i (Z.of_nat fuel)).
Proof.
  induction fuel as [|fuel IH]; intros s i live Hs Hl Hi Hst; simpl.
  - change (live_from s i (Z.of_nat 0)) with (@nil (Z * Z)). simpl.
    rewrite app_nil_r. unfold arr_len. simpl.
    split; [done|]. split; [|split; [done|lia]]. by repeat split.
  - replace (Z.of_nat (S fuel)) with (1 + Z.of_nat fuel) in * by lia.
    rewrite live_from_app, live_from_one in * by lia.
    assert (row_at s i = if mal_map_value_at s i =? MAL_VALUE_EMPTY then None
              else Some (mal_map_key_at s i, mal_map_value_at s i)) as Hrow by done.
    destruct (mal_map_value_at s i =? MAL_VALUE_EMPTY) eqn:Hv; rewrite Hrow in *; simpl in Hst |- *.
    + apply IH; [done|lia|lia|done].
    + rewrite compact_step by done. fold (write_row live (mal_map_key_at s i) (mal_map_value_at s i) s).
      set (s1 := write_row live (mal_map_key_at s i) (mal_map_value_at s i) s).
      assert (storable s (mal_map_key_at s i)) as Hki.
      { eapply Hst. by left. }
      destruct (la_count s Hs) as [_ Hcc]. assert (0 <= live < capacity s) as Hlr by lia.
      pose proof (write_row_lanes s Hs live (mal_map_key_at s i) (mal_map_value_at s i)) as Hs1.
      destruct (write_row_frame s live (mal_map_key_at s i) (mal_map_value_at s i))
        as (F1 & C1 & D1 & P1).
      assert (forall j, i + 1 <= j < i + 1 + Z.of_nat fuel -> row_at s1 j = row_at s j) as Hsame.
      { intros j Hj. subst s1. rewrite write_row_at by (done || lia).
        destruct (Z.eqb_spec j live); [lia|done]. }
      specialize (IH s1 (i + 1) (live + 1)).
      rewrite (live_from_ext s s1 (i + 1) (Z.of_nat fuel) Hsame) in IH.
      destruct (compact_loop fuel s1 (i + 1) (live + 1)) as [s' n].
      destruct IH as (Hs' & Hsh & Hrows & Hn).
      { exact Hs1. }
      { lia. }
      { destruct F1 as (_ & _ & _ & Hcnt & _). unfold s1. rewrite Hcnt. lia. }
      { intros k v Hkv Hp Hd. unfold s1 in Hp, Hd. rewrite P1 in Hp. rewrite D1 in Hd.
        eapply Hst; [by right|done|done]. }
      split; [done|]. split; [|split].
      * eapply same_shape_trans; [|done]. by split_and!.
      * rewrite Hrows, rows_from_snoc by lia. rewrite <- app_assoc. f_equal.
        { apply rows_from_ext. intros j Hj. subst s1. rewrite write_row_at by (done || lia).
          destruct (Z.eqb_spec j live); [lia|done]. }
        simpl. f_equal. subst s1. rewrite write_row_at by (done || lia).
        by rewrite Z.add_0_l, Z.eqb_refl, Hv.
      * rewrite Hn. unfold arr_len. simpl. lia.
Qed.

(** ** Payload replacement *)

(** The store with a payload of another layout put in. *)
Definition with_payload (s : MalMapStorage) (d : MalMapKeyDomain) (cap first : Z) (p : MapPayload)
  : MalMapStorage :=
  set_domain d (set_capacity cap (set_payload p
    (set_small (arr_set (small s) 0 first) (small_values s) s))).

Lemma with_payload_frame s d cap first p : same_frame s (with_payload s d cap first p).
Proof. by repeat split. Qed.

(** One turn of the conversion, as writes on the store being built. *)
Lemma convert_step s d cap first p i v k :
  payload_null p = false ->
  let p1 := if domain_is d MAL_MAP_KEYS_INT32
            then PInt32 (int32_keys p) (arr_set (int32_values p) i v)
            else PPairs (arr_set (pair_rows p) i (fst (arr_get (pair_rows p) i), v)) in
  with_payload s d cap first p1 = set_value_at i v (with_payload s d cap first p) /\
  with_payload s d cap first (mal_map_store_key p1 d i k)
  = update_key (set_value_at i v (with_payload s d cap first p)) i k /\
  payload_null p1 = false /\ payload_null (mal_map_store_key p1 d i k) = false.
Proof.
  intros Hp. unfold set_value_at, update_key, mal_map_store_key. cbn -[arr_get]. rewrite Hp.
  destruct (domain_is d MAL_MAP_KEYS_INT32) eqn:Ed; cbn -[arr_get]; rewrite ?Ed; done.
Qed.

(** The rows converted so far agree with the old ones. *)
Lemma convert_loop_ok s d cap first fuel : forall i p,
  lanes_ok (with_payload s d cap first p) -> payload_null p = false ->
  0 <= i -> i + Z.of_nat fuel = count s -> count s <= cap ->
  (forall k v, (k, v) ∈ contents s -> d = MAL_MAP_KEYS_INT32 -> f64_of_int (i32 (f64_to_int k)) = k) ->
  (forall j, 0 <= j < i -> row_at (with_payload s d cap first p) j = row_at s j) ->
  let p' := convert_loop fuel s d i p in
  lanes_ok (with_payload s d cap first p') /\ payload_null p' = false /\
  forall j, 0 <= j < count s -> row_at (with_payload s d cap first p') j = row_at s j.
Proof.
  induction fuel as [|fuel IH]; intros i p Hl Hp Hi Hf Hc Hst Hrows; cbn [convert_loop].
  - split; [done|]. split; [done|]. intros j Hj. apply Hrows. lia.
  - destruct (convert_step s d cap first p i (mal_map_value_at s i) (mal_map_key_at s i) Hp)
      as (E1 & E2 & N1 & N2).
    cbv zeta in E1, E2, N1, N2.
    set (p1 := if domain_is d MAL_MAP_KEYS_INT32 then _ else _) in *.
    set (t := with_payload s d cap first p) in *.
    assert (0 <= i < capacity t) as Hit by (unfold t; simpl; lia).
    pose proof (lanes_set_value t Hl i (mal_map_value_at s i)) as Hl1.
    destruct (frame_set_value t i (mal_map_value_at s i)) as (_ & C1 & D1 & P1).
    destruct (mal_map_value_at s i =? MAL_VALUE_EMPTY) eqn:Ev; cbn [negb].
    + apply IH; rewrite ?E1; try done; try lia.
      intros j Hj. unfold row_at. rewrite value_at_set_value, key_at_set_value by (done || lia).
      destruct (Z.eqb_spec j i) as [->|].
      * by rewrite Ev.
      * apply Hrows. lia.
    + assert (row_at s i = Some (mal_map_key_at s i, mal_map_value_at s i)) as Hri.
      { unfold row_at. by rewrite Ev. }
      assert (storable (set_value_at i (mal_map_value_at s i) t) (mal_map_key_at s i)) as Hsk.
      { intros _ Hd. eapply Hst; [|by rewrite D1 in Hd].
        rewrite contents_live. apply live_from_elem. exists i. split; [lia|done]. }
      apply IH; rewrite ?E2; try done; try lia.
      { by apply lanes_update_key. }
      intros j Hj. unfold row_at.
      rewrite value_at_update_key, key_at_update_key, value_at_set_value, key_at_set_value
        by (done || lia).
      destruct (Z.eqb_spec j i) as [->|].
      * by rewrite Ev.
      * apply Hrows. lia.
Qed.

Lemma copy_rows_len {A} (n : Z) (src blk : list A) :
  0 <= n <= arr_len src -> n <= arr_len blk -> arr_len (copy_rows n src blk) = arr_len blk.
Proof.
  unfold copy_rows, arr_len. intros. rewrite length_app, length_take, length_drop. lia.
Qed.

Lemma copy_rows_get {A} `{Inhabited A} (n : Z) (src blk : list A) i :
  0 <= i < n -> n <= arr_len src -> arr_get (copy_rows n src blk) i = arr_get src i.
Proof.
  unfold copy_rows, arr_get, arr_len. intros.
  rewrite !list_lookup_total_alt, lookup_app_l, lookup_take_lt; [done|lia|].
  rewrite length_take. lia.
Qed.

Lemma row_width_eq d d' :
  (mal_map_row_width d =? mal_map_row_width d') = true <->
  (d = MAL_MAP_KEYS_INT32 <-> d' = MAL_MAP_KEYS_INT32).
Proof.
  destruct d, d'; cbn; split; try done; intros [Ha Hb];
    first [discriminate (Ha eq_refl) | discriminate (Hb eq_refl)].
Qed.

Section replace.
Variable raw : Z -> Z.

Lemma raw_words_len n : 0 <= n -> arr_len (raw_words raw n) = n.
Proof. intros. unfold raw_words, arr_len. rewrite length_map, length_seqZ. lia. Qed.

Lemma fresh_lanes s d cap first :
  lanes_ok s -> count s <= cap -> 4 <= cap < 2 ^ 31 ->
  lanes_ok (with_payload s d cap first
    (if domain_is d MAL_MAP_KEYS_INT32 then PInt32 (map i32 (raw_words raw cap)) (raw_words raw cap)
     else PPairs (raw_pairs raw cap))).
Proof.
  intros [Hc _ [Hk Hv] _] Hcap Hr. split; simpl; try lia.
  - rewrite arr_len_set. done.
  - destruct (domain_is d MAL_MAP_KEYS_INT32) eqn:Ed; simpl.
    + apply domain_is_true in Ed. split_and!; try done.
      * unfold arr_len. rewrite length_map. apply (raw_words_len cap). lia.
      * apply raw_words_len. lia.
      * apply Forall_forall. intros x Hx. apply list_elem_of_fmap in Hx as (y & -> & _).
        apply swrap_range. lia.
    + apply domain_is_false in Ed. split; [done|].
      unfold raw_pairs, arr_len. rewrite length_map, length_seqZ. lia.
Qed.

Lemma replace_payload_ok s d cap :
  lanes_ok s -> count s <= cap -> 4 <= cap < 2 ^ 31 ->
  (forall k v, (k, v) ∈ contents s -> d = MAL_MAP_KEYS_INT32 -> f64_of_int (i32 (f64_to_int k)) = k) ->
  exists s', mal_map_replace_payload raw s d cap = Ret s' /\ lanes_ok s' /\ same_frame s s' /\
    capacity s' = cap /\ domain s' = d /\ payload_null (payload s') = false /\
    forall i, 0 <= i < count s -> row_at s' i = row_at s i.
Proof.
  intros Hs Hc Hcap Hst. unfold mal_map_replace_payload.
  destruct (Z.ltb_spec (SIZE_MAX / mal_map_row_width d) cap) as [Hbig|_].
  { exfalso. assert (2 ^ 59 <= SIZE_MAX / mal_map_row_width d); [|lia].
    unfold mal_map_row_width. destruct (domain_is d MAL_MAP_KEYS_INT32); by vm_compute. }
  set (fresh := if domain_is d MAL_MAP_KEYS_INT32 then PInt32 _ _ else _).
  pose proof (fresh_lanes s d cap (raw 0) Hs Hc Hcap) as Hfresh. fold fresh in Hfresh.
  match goal with |- context [set_payload ?p _] => set (p' := p) end.
  fold (with_payload s d cap (raw 0) p').
  assert (lanes_ok (with_payload s d cap (raw 0) p') /\ payload_null p' = false /\
    forall j, 0 <= j < count s -> row_at (with_payload s d cap (raw 0) p') j = row_at s j)
    as (Hl & Hn & Hr).
  2: { eexists. split; [done|]. split; [done|]. split; [apply with_payload_frame|]. done. }
  subst p'. destruct (negb (payload_null (payload s)) && _) eqn:Hsame.
  2: { apply convert_loop_ok; try done; try lia.
       - subst fresh. by destruct (domain_is d MAL_MAP_KEYS_INT32).
       - pose proof (la_count s Hs). lia. }
  apply andb_true_iff in Hsame as [Hnn%negb_true_iff Hw%row_width_eq].
  destruct Hs as [Hcnt Hcp Hsm Hp]. destruct Hfresh as [_ Hfc Hfs Hfp]. subst fresh.
  destruct (domain_is d MAL_MAP_KEYS_INT32) eqn:Ed.
  - apply domain_is_true in Ed. destruct (payload s) as [|ks vs|ps] eqn:Ep; [done| |tauto].
    destruct Hp as (Hd & Hlk & Hlv & Hf). simpl in Hfp. destruct Hfp as (_ & Hfk & Hfv & Hff).
    split; [|split; [done|]].
    + split; simpl; try done; [lia|]. split_and!; try done.
      * rewrite copy_rows_len; lia.
      * rewrite copy_rows_len; lia.
      * unfold copy_rows. apply Forall_app. split; [by apply Forall_take|by apply Forall_drop].
    + intros j Hj. unfold row_at, mal_map_value_at, mal_map_key_at. cbn -[arr_get].
      rewrite Ep, Hd, Ed. cbn -[arr_get]. by rewrite !copy_rows_get by lia.
  - pose proof (proj1 (domain_is_false _ _) Ed) as Hd'.
    destruct (payload s) as [|ks vs|ps] eqn:Ep; [done|tauto|].
    destruct Hp as (Hd & Hlp). simpl in Hfp. destruct Hfp as (_ & Hfl).
    pose proof (proj2 (domain_is_false _ _) Hd) as Hdf.
    split; [|split; [done|]].
    + split; simpl; try done; [lia|]. split; [done|]. rewrite copy_rows_len; lia.
    + intros j Hj. unfold row_at, mal_map_value_at, mal_map_key_at. cbn -[arr_get].
      rewrite Ep, Ed, Hdf. cbn -[arr_get]. by rewrite !copy_rows_get by lia.
Qed.
End replace.
