(* ===== verification/MapStore.v ===== *)
(** The invariant of a Map store (MapObject) and what its parts do under it:
    capacities, the rebuilt index, lookups through the inline scan, the index
    probe and the entry hint, and compaction. *)

From S2P Require Import Prelude F64 Value Key HashIndex MapObject MapRows.

(** * Capacities *)

Lemma capacity_loop_ok fuel : forall cap required k,
  4 <= cap < 2 ^ 31 -> 0 <= k -> 2 ^ 31 <= cap * 2 ^ k ->
  (Z.to_nat k < fuel)%nat ->
  exists r, capacity_loop fuel cap required = Ret r /\
    match r with
    | Some c => required <= c /\ cap <= c < 2 ^ 31
    | None => 2 ^ 30 < required
    end.
Proof.
  induction fuel as [|fuel IH]; intros cap required k Hc Hk Hp Hf; [lia|].
  cbn [capacity_loop]. destruct (Z.ltb_spec cap required) as [Hlt|Hge].
  2: { exists (Some cap). split; [done|lia]. }
  change (INT32_MAX / 2) with (2 ^ 30 - 1).
  destruct (Z.ltb_spec (2 ^ 30 - 1) cap); [exists None; split; [done|lia]|].
  unfold u32. rewrite wrap_small by (unfold in_u; lia).
  assert (0 < k). { destruct (decide (k = 0)) as [->|]; [|lia]. lia. }
  assert (2 ^ k = 2 * 2 ^ (k - 1)) by (rewrite <- Z.pow_succ_r by lia; f_equal; lia).
  destruct (IH (cap * 2) required (k - 1)) as (r & -> & Hres); [lia|lia|nia|lia|].
  exists r. split; [done|]. destruct r; lia.
Qed.

Lemma map_capacity_ok required minimum :
  4 <= minimum < 2 ^ 31 ->
  exists r, mal_map_capacity required minimum = Ret r /\
    match r with
    | Some c => required <= c /\ minimum <= c < 2 ^ 31
    | None => 2 ^ 30 < required
    end.
Proof.
  intros Hm. unfold mal_map_capacity, INT32_MAX.
  destruct (Z.ltb_spec (2 ^ 31 - 1 - 1) required); [exists None; split; [done|lia]|].
  apply (capacity_loop_ok capacity_fuel minimum required 31); try lia.
  unfold capacity_fuel. lia.
Qed.

Lemma slot_capacity_loop_ok fuel : forall m members,
  0 <= m <= 26 -> (Z.to_nat (26 - m) < fuel)%nat ->
  exists r, slot_capacity_loop fuel (16 * 2 ^ m) members = Ret r /\
    match r with
    | Some c => capacity_ok c /\ mal_hash_index_fits members c = true
    | None => 2 ^ 29 < members
    end.
Proof.
  induction fuel as [|fuel IH]; intros m members Hm Hf; [lia|]. cbn [slot_capacity_loop].
  destruct (mal_hash_index_fits members (16 * 2 ^ m)) eqn:Hfit; cbn [negb].
  { eexists. split; [done|]. split; [by exists m|done]. }
  change (INT32_MAX / 2) with (2 ^ 30 - 1).
  assert (2 ^ m <= 2 ^ 26) by (apply Z.pow_le_mono_r; lia).
  destruct (Z.ltb_spec (2 ^ 30 - 1) (16 * 2 ^ m)) as [Hbig|Hsmall].
  - exists None. split; [done|]. unfold mal_hash_index_fits in Hfit. apply Z.leb_gt in Hfit.
    assert (2 ^ m = 2 ^ 26) as E by lia. rewrite E in Hfit.
    change (16 * 2 ^ 26 - 16 * 2 ^ 26 / 8) with (7 * 2 ^ 27) in Hfit. lia.
  - assert (m < 26).
    { destruct (decide (m = 26)) as [->|]; [|lia]. lia. }
    unfold u32. rewrite wrap_small by (unfold in_u; pose proof (Z.pow_nonneg 2 m); lia).
    replace (16 * 2 ^ m * 2) with (16 * 2 ^ (m + 1)) by (rewrite Z.pow_add_r by lia; lia).
    apply IH; lia.
Qed.

Lemma map_slot_capacity_ok members :
  exists r, mal_map_slot_capacity members = Ret r /\
    match r with
    | Some c => capacity_ok c /\ mal_hash_index_fits members c = true
    | None => 2 ^ 29 < members
    end.
Proof.
  unfold mal_map_slot_capacity.
  destruct (slot_capacity_loop_ok capacity_fuel 0 members) as (r & Hr & Hspec);
    [lia|unfold capacity_fuel; lia|].
  change MAL_HASH_GROUP_WIDTH with (16 * 2 ^ 0). rewrite Hr. cbn.
  destruct r as [c|]; [|by exists None].
  destruct Hspec as [Hc Hfit]. pose proof (capacity_bound c Hc).
  destruct (Z.ltb_spec (SIZE_MAX / (4 + 1)) c) as [Hb|_].
  - exfalso. assert (2 ^ 31 <= SIZE_MAX / (4 + 1)) by (by vm_compute). lia.
  - exists (Some c). done.
Qed.

(** * The invariant *)

Section store.
Context `{KH : KeyHeap}.

(** The hash of the live row [i], for the index. *)
Definition entry_upto (s : MalMapStorage) (n i : Z) : option Z :=
  if (0 <=? i) && (i <? n) then (fun r => mal_key_hash_value r.1) <$> row_at s i else None.
Definition entry_of (s : MalMapStorage) : Z -> option Z := entry_upto s (count s).

Definition hint_ok (s : MalMapStorage) : Prop :=
  entry_hint s = 0 \/
  (1 <= entry_hint s <= count s /\
   exists v, row_at s (entry_hint s - 1) = Some (hint_key s, v)).

Definition index_part (s : MalMapStorage) : Prop :=
  if payload_null (payload s)
  then slot_capacity s = 0 /\ deleted_slots s = 0 /\ slots s = [] /\ controls s = []
  else index_ok (slot_capacity s) (slots s) (controls s) (entry_of s) (size s) (deleted_slots s) /\
       mal_hash_index_fits (size s + deleted_slots s) (slot_capacity s) = true.

(** Inline keys mirror the tombstones of the value lane. *)
Definition mirror (s : MalMapStorage) : Prop :=
  payload_null (payload s) = true ->
  forall i, 0 <= i < count s ->
    (arr_get (small s) i = MAL_VALUE_EMPTY <-> arr_get (small_values s) i = MAL_VALUE_EMPTY).

Record storage_ok (s : MalMapStorage) : Prop := {
  st_lanes : lanes_ok s;
  st_mirror : mirror s;
  st_keys : keys_ok (domain s) (contents s);
  st_size : size s = arr_len (contents s);
  st_index : index_part s;
  st_hint : hint_ok s;
  st_pins : 0 <= pins s <= UINT32_MAX;
  st_reserve : 0 <= reserve_size s < 2 ^ 31;
}.

Context `{KL : !KeyHeapLaws KH}.
Variable MASK_SHIFT : Z.
Hypothesis Hshift : 0 <= MASK_SHIFT.
Variable raw : Z -> Z.

(** ** Facts about rows under the invariant *)

Lemma row_key_ok s i k v :
  keys_ok (domain s) (contents s) -> 0 <= i < count s -> row_at s i = Some (k, v) ->
  key_ok (domain s) k.
Proof using Type.
  intros [Hf _] Hi Hr. rewrite Forall_forall in Hf.
  apply (Hf (k, v)). rewrite contents_live. apply live_from_elem. exists i. split; [lia|done].
Qed.

Lemma rows_distinct s i j k v k' v' :
  keys_ok (domain s) (contents s) -> 0 <= i -> i < j -> j < count s ->
  row_at s i = Some (k, v) -> row_at s j = Some (k', v') -> mal_key_value_equals k k' = false.
Proof using Type.
  intros [_ Hd] Hi Hij Hj Ri Rj. rewrite contents_live in Hd.
  replace (count s) with (i + (1 + (count s - i - 1))) in Hd by lia.
  rewrite !live_from_app, !Z.add_0_l, live_from_one, Ri in Hd by lia.
  apply distinct_app in Hd as (_ & Hd & _). simpl in Hd. destruct Hd as [Hf _].
  rewrite Forall_forall in Hf. apply (Hf (k', v')).
  apply live_from_elem. exists j. split; [lia|done].
Qed.

Lemma key_equals_sym a b : mal_key_value_equals a b = mal_key_value_equals b a.
Proof using KL.
  pose proof (key_equals_equiv (H:=KH)) as [_ Hsym _].
  destruct (mal_key_value_equals a b) eqn:E.
  - symmetry. by apply Hsym.
  - destruct (mal_key_value_equals b a) eqn:E'; [|done]. apply Hsym in E'. congruence.
Qed.

Lemma key_equals_refl a : mal_key_value_equals a a = true.
Proof using KL. pose proof (key_equals_equiv (H:=KH)) as [Hr _ _]. apply Hr. Qed.

Lemma key_equals_trans a b c :
  mal_key_value_equals a b = true -> mal_key_value_equals b c = true ->
  mal_key_value_equals a c = true.
Proof using KL. pose proof (key_equals_equiv (H:=KH)) as [_ _ Ht]. apply Ht. Qed.

(** At most one row holds a key equal to a given one. *)
Lemma rows_unique s i j k v k' v' q :
  keys_ok (domain s) (contents s) -> 0 <= i < count s -> 0 <= j < count s ->
  row_at s i = Some (k, v) -> row_at s j = Some (k', v') ->
  mal_key_value_equals k q = true -> mal_key_value_equals k' q = true -> i = j.
Proof using KL.
  intros Hk Hi Hj Ri Rj Ek Ek'.
  assert (mal_key_value_equals k k' = true) as E.
  { eapply key_equals_trans; [done|]. by rewrite key_equals_sym. }
  destruct (Z.lt_total i j) as [Hlt|[->|Hlt]]; [|done|].
  - rewrite (rows_distinct s i j k v k' v') in E by (done || lia). done.
  - rewrite key_equals_sym, (rows_distinct s j i k' v' k v) in E by (done || lia). done.
Qed.

(** ** The rebuilt index *)

Lemma entry_upto_hash s n i h : entry_upto s n i = Some h -> in_u 64 h.
Proof using Type.
  unfold entry_upto. destruct (_ && _); [|done].
  destruct (row_at s i) as [[k v]|]; [|done]. simpl. intros [= <-]. apply key_hash_range.
Qed.

Lemma entry_upto_step s n i : 0 <= n ->
  entry_upto s (n + 1) i =
    if i =? n then (fun r => mal_key_hash_value r.1) <$> row_at s n else entry_upto s n i.
Proof using Type.
  intros Hn. unfold entry_upto.
  destruct (Z.eqb_spec i n) as [->|].
  - destruct (Z.leb_spec 0 n), (Z.ltb_spec n (n + 1)); try lia. done.
  - destruct (Z.leb_spec 0 i), (Z.ltb_spec i (n + 1)), (Z.ltb_spec i n); try lia; done.
Qed.

Lemma fill_loop_ok s cap fuel : forall i sl ct,
  payload_null (payload s) = false -> 0 <= i -> i + Z.of_nat fuel = count s ->
  arr_len (contents s) < cap ->
  index_ok cap sl ct (entry_upto s i) (arr_len (live_from s 0 i)) 0 ->
  exists sl' ct', fill_loop MASK_SHIFT fuel s i sl ct cap = Ret (sl', ct') /\
    index_ok cap sl' ct' (entry_of s) (arr_len (contents s)) 0.
Proof using Hshift.
  induction fuel as [|fuel IH]; intros i sl ct Hp Hi Hf Hroom Hok; cbn [fill_loop].
  - exists sl, ct. split; [done|]. assert (count s = i) as E by lia.
    unfold entry_of. rewrite contents_live. by rewrite E.
  - assert (live_from s 0 (i + 1) = live_from s 0 i ++ live_from s i 1) as Hl.
    { by rewrite live_from_app by lia. }
    rewrite live_from_one in Hl.
    assert (mal_map_is_live s i = negb (mal_map_value_at s i =? MAL_VALUE_EMPTY)) as Hlive.
    { unfold mal_map_is_live. by rewrite Hp. }
    assert (row_at s i = if mal_map_value_at s i =? MAL_VALUE_EMPTY then None
            else Some (mal_map_key_at s i, mal_map_value_at s i)) as Hrow by done.
    rewrite Hlive. destruct (mal_map_value_at s i =? MAL_VALUE_EMPTY); cbn [negb].
    + apply IH; try done; try lia. rewrite Hl, Hrow, app_nil_r.
      eapply index_ok_ext; [|done]. intros j. rewrite entry_upto_step, Hrow by lia. simpl.
      destruct (Z.eqb_spec j i) as [->|]; [|done]. unfold entry_upto. by rewrite Z.ltb_irrefl, andb_false_r.
    + assert (arr_len (live_from s 0 i) < arr_len (contents s)) as Hlt.
      { rewrite contents_live. replace (count s) with (i + (1 + Z.of_nat fuel)) by lia.
        rewrite !live_from_app, !Z.add_0_l, live_from_one, Hrow, !arr_len_app by lia. pose proof (arr_len_nonneg (live_from s (i + 1) (Z.of_nat fuel))).
        unfold arr_len at 3. simpl. lia. }
      set (h := mal_key_hash_value (mal_map_key_at s i)).
      destruct (empty_slot_spec MASK_SHIFT Hshift cap (io_capacity _ _ _ _ _ _ Hok) ct
                  (index_has_empty _ _ _ _ _ _ Hok ltac:(lia)) h)
        as (r & -> & Hr & He & Hre).
      cbn [mbind outcome_bind].
      pose proof (index_insert_ok cap sl ct _ _ _ r i h Hok) as Hins.
      cbv beta zeta iota delta [mal_hash_index_insert] in Hins |- *.
      rewrite He in Hins. change (Z.b2z (deleted_control MAL_HASH_EMPTY)) with 0 in Hins.
      apply IH; try done; try lia. rewrite Hl, Hrow, arr_len_app.
      eapply index_ok_ext; [|apply Hins].
      * intros j. rewrite entry_upto_step, Hrow by lia. done.
      * split; [done|]. split; [done|]. by right.
      * unfold entry_upto. by rewrite Z.ltb_irrefl, andb_false_r.
      * apply key_hash_range.
Qed.

Lemma fill_slots_ok s sl ct cap :
  payload_null (payload s) = false -> 0 <= count s -> capacity_ok cap -> arr_len sl = cap ->
  mal_hash_index_fits (arr_len (contents s)) cap = true ->
  exists sl' ct', mal_map_fill_slots MASK_SHIFT s sl ct cap = Ret (set_index sl' ct' cap 0 s) /\
    index_ok cap sl' ct' (entry_of s) (arr_len (contents s)) 0.
Proof using Hshift.
  intros Hp Hc Hcap Hsl Hfit. unfold mal_map_fill_slots.
  pose proof (fits_lt _ _ Hcap Hfit).
  destruct (fill_loop_ok s cap (Z.to_nat (count s)) 0 sl (mal_hash_index_reset ct cap))
    as (sl' & ct' & -> & Hok); try done; try lia.
  { eapply index_ok_ext; [|by apply index_reset_ok]. intros i. unfold entry_upto.
    destruct (Z.leb_spec 0 i), (Z.ltb_spec i 0); try lia; done. }
  exists sl', ct'. done.
Qed.

Lemma rehash_ok s cap :
  payload_null (payload s) = false -> 0 <= count s -> capacity_ok cap ->
  mal_hash_index_fits (arr_len (contents s)) cap = true ->
  exists sl' ct', mal_map_rehash MASK_SHIFT raw s cap = Ret (set_index sl' ct' cap 0 s) /\
    index_ok cap sl' ct' (entry_of s) (arr_len (contents s)) 0.
Proof using Hshift.
  intros Hp Hc Hcap Hfit. unfold mal_map_rehash, mal_hash_index_bytes.
  pose proof (capacity_bound cap Hcap).
  destruct (Z.ltb_spec (SIZE_MAX / (4 + 1)) cap) as [Hb|_].
  { exfalso. assert (2 ^ 31 <= SIZE_MAX / (4 + 1)) by (by vm_compute). lia. }
  apply fill_slots_ok; try done. apply raw_words_len. lia.
Qed.

(** ** Probing *)

(** The candidate comparison of the probe, on the row a bucket names. *)
Definition same_row (s : MalMapStorage) (d : MalMapKeyDomain) (key int_key x : Z) : bool :=
  let index := u32 x in
  if domain_is d MAL_MAP_KEYS_INT32 then arr_get (int32_keys (payload s)) index =? int_key
  else
    let candidate := fst (arr_get (pair_rows (payload s)) index) in
    if candidate =? key then true
    else if domain_is d MAL_MAP_KEYS_STRING
            && string_equals (mal_value_to_heap candidate) (mal_value_to_heap key) then true
    else domain_is d MAL_MAP_KEYS_GENERIC && mal_key_value_equals candidate key.

(** The domain a probe is specialised to. *)
Definition probe_domain (d : MalMapKeyDomain) : MalMapKeyDomain :=
  match d with
  | MAL_MAP_KEYS_INT32 | MAL_MAP_KEYS_STRING | MAL_MAP_KEYS_GENERIC => d
  | _ => MAL_MAP_KEYS_IDENTITY
  end.

Lemma key_equals_identity a b :
  in_u 64 a -> in_u 64 b -> (kind_of b = KObject \/ kind_of b = KSymbol) ->
  mal_key_value_equals a b = (a =? b).
Proof using Type.
  intros Ha Hb Hk. unfold mal_key_value_equals. destruct (a =? b); [done|].
  assert (mal_value_is_string b = false) as ->.
  { apply not_true_iff_false. rewrite kind_string by done. destruct Hk; congruence. }
  assert (mal_value_is_bigint b = false) as ->.
  { apply not_true_iff_false. rewrite kind_bigint by done. destruct Hk; congruence. }
  by rewrite !andb_false_r.
Qed.

(** Specialising the comparison to the domain loses nothing. *)
Lemma same_row_ok s i k v key :
  lanes_ok s -> payload_null (payload s) = false -> 0 <= i < count s ->
  row_at s i = Some (k, v) -> key_ok (domain s) k ->
  canonical key -> key_in_domain (domain s) key ->
  same_row s (probe_domain (domain s)) key (i32 (f64_to_int key)) i = mal_key_value_equals k key.
Proof using KL.
  intros Hs Hp Hi Hr (Hck & _ & Hdk) Hckey Hdkey. unfold same_row.
  destruct (la_count s Hs) as [_ Hcc]. pose proof (la_capacity s Hs) as Hcap.
  assert (u32 i = i) as -> by (apply wrap_small; unfold in_u; lia).
  pose proof (proj1 Hck) as Hrk. pose proof (proj1 Hckey) as Hrkey.
  unfold row_at in Hr. destruct (mal_map_value_at s i =? MAL_VALUE_EMPTY); [done|].
  injection Hr as Hk _. unfold mal_map_key_at in Hk. rewrite Hp in Hk.
  pose proof (la_payload s Hs) as Hl.
  assert (domain s = MAL_MAP_KEYS_INT32 -> f64_of_int (i32 (f64_to_int key)) = key) as Hint.
  { intros E. rewrite E in Hdkey. by apply int32_domain_key. }
  destruct (payload s) as [|ks vs|ps]; [done| |].
  - destruct Hl as (Hd & Hlk & _ & Hf). pose proof (Hint Hd) as Hkey.
    rewrite Hd in Hk |- *. cbn -[arr_get] in Hk |- *.
    unfold mal_value_from_f64 in Hk.
    assert (in_i 32 (arr_get ks i)) as Hn.
    { rewrite Forall_lookup in Hf. eapply Hf. apply arr_get_lookup. lia. }
    assert (in_i 32 (i32 (f64_to_int key))) as Hm by (apply swrap_range; lia).
    rewrite key_equals_words.
    + set (m := i32 (f64_to_int key)) in *. clearbody m. rewrite <- Hk, <- Hkey.
      destruct (Z.eqb_spec (arr_get ks i) m) as [->|E]; [by rewrite Z.eqb_refl|].
      symmetry. apply Z.eqb_neq. intros E'. apply E.
      by apply f64_of_int_inj in E'; try apply i32_abs.
    + left. rewrite <- Hk. apply of_int_kind. by apply i32_abs.
    + done.
    + done.
  - destruct Hl as [Hd Hlp]. pose proof (proj2 (domain_is_false _ _) Hd) as Hdf.
    rewrite Hdf in Hk. cbn -[arr_get] in Hk |- *.
    rewrite Hk. destruct (domain s) eqn:Ed; try done; cbn.
    + rewrite key_equals_words by (auto). by destruct (k =? key).
    + unfold mal_key_value_equals. destruct (k =? key); [done|].
      simpl in Hdk, Hdkey. rewrite (proj2 (kind_string k Hrk) Hdk), (proj2 (kind_string key Hrkey) Hdkey).
      cbn. by destruct (string_equals _ _).
    + rewrite key_equals_identity by done. by destruct (k =? key).
    + destruct (Z.eqb_spec k key) as [->|]; [by rewrite key_equals_refl|done].
Qed.

(** The row holding a key equal to [key]. *)
Definition holds (s : MalMapStorage) (key i : Z) : Prop :=
  0 <= i < count s /\ exists k v, row_at s i = Some (k, v) /\ mal_key_value_equals k key = true.
Definition absent (s : MalMapStorage) (key : Z) : Prop :=
  forall i k v, 0 <= i < count s -> row_at s i = Some (k, v) -> mal_key_value_equals k key = false.

Lemma absent_or_holds s key i : absent s key -> holds s key i -> False.
Proof using Type. intros Ha (Hi & k & v & Hr & He). rewrite (Ha i k v) in He; done. Qed.

Definition find_result (s : MalMapStorage) (key : Z) (insert : bool) (r : Z) : Prop :=
  (0 <= r < slot_capacity s /\ live_control (arr_get (controls s) r) = true /\
   holds s key (arr_get (slots s) r)) \/
  (absent s key /\
   if insert then reusable (slot_capacity s) (controls s) (mal_key_hash_value key) r
   else r = UINT32_MAX).

Lemma probe_ok s key insert :
  lanes_ok s -> payload_null (payload s) = false -> keys_ok (domain s) (contents s) ->
  index_ok (slot_capacity s) (slots s) (controls s) (entry_of s) (size s) (deleted_slots s) ->
  size s + deleted_slots s < slot_capacity s ->
  canonical key -> key_in_domain (domain s) key ->
  exists r, mal_map_probe MASK_SHIFT s key (i32 (f64_to_int key)) (mal_key_hash_value key) insert = Ret r /\
    find_result s key insert r.
Proof using Hshift KL.
  intros Hs Hp Hk Hok Hroom Hck Hdk.
  assert (mal_map_probe MASK_SHIFT s key (i32 (f64_to_int key)) (mal_key_hash_value key) insert
    = grouped_probe MASK_SHIFT (controls s) (slot_capacity s)
        (fun x => same_row s (probe_domain (domain s)) key (i32 (f64_to_int key)) (arr_get (slots s) x))
        (mal_key_hash_value key) insert) as ->.
  { unfold mal_map_probe, mal_map_probe_in. by destruct (domain s). }
  assert (forall i h, entry_of s i = Some h -> exists k v, 0 <= i < count s /\
            row_at s i = Some (k, v) /\ h = mal_key_hash_value k /\
            same_row s (probe_domain (domain s)) key (i32 (f64_to_int key)) i
            = mal_key_value_equals k key) as Hent.
  { intros i h He. unfold entry_of, entry_upto in He.
    destruct (Z.leb_spec 0 i), (Z.ltb_spec i (count s)); try done; cbn [andb] in He.
    destruct (row_at s i) as [[k v]|] eqn:Hr; [|done]. injection He as <-.
    exists k, v. split; [lia|]. split; [done|]. split; [done|].
    eapply same_row_ok; try done. by eapply row_key_ok. }
  destruct (index_probe_spec MASK_SHIFT Hshift _ _ _ _ _ _ Hok Hroom (mal_key_hash_value key)
    (key_hash_range key)
    (same_row s (probe_domain (domain s)) key (i32 (f64_to_int key)))) with (insert := insert)
    as (r & Hr & Hres).
  { intros i h He Hsame. destruct (Hent i h He) as (k & v & _ & _ & -> & E).
    rewrite E in Hsame. by apply key_equals_hash. }
  exists r. split; [exact Hr|].
  destruct Hres as [(Hrange & Hlive & (h & He) & Hsame)|(Hno & Hr')].
  - left. split; [done|]. split; [done|].
    destruct (Hent _ h He) as (k & v & Hi & Hrow & _ & E). split; [done|].
    exists k, v. split; [done|]. congruence.
  - right. split; [|done]. intros i k v Hi Hrow.
    assert (entry_of s i = Some (mal_key_hash_value k)) as He.
    { unfold entry_of, entry_upto. destruct (Z.leb_spec 0 i), (Z.ltb_spec i (count s)); try lia.
      by rewrite Hrow. }
    destruct (Hent i _ He) as (k' & v' & _ & Hrow' & _ & E).
    rewrite Hrow in Hrow'. injection Hrow' as <- <-. rewrite <- E. by eapply Hno.
Qed.

Lemma find_slot_ok s key :
  lanes_ok s -> payload_null (payload s) = false -> keys_ok (domain s) (contents s) ->
  index_ok (slot_capacity s) (slots s) (controls s) (entry_of s) (size s) (deleted_slots s) ->
  size s + deleted_slots s < slot_capacity s ->
  canonical key -> key_in_domain (domain s) key ->
  exists r, mal_map_find_slot MASK_SHIFT s key (mal_key_hash_value key) = Ret r /\
    find_result s key true r.
Proof using Hshift KL.
  intros. destruct (probe_ok s key true) as (r & Hr & Hf); try done. exists r. split; [|done].
  rewrite <- Hr. unfold mal_map_find_slot, mal_map_probe, mal_map_probe_in.
  by destruct (domain s).
Qed.

Lemma absent_outside s key :
  keys_ok (domain s) (contents s) -> canonical key -> ~ key_in_domain (domain s) key -> absent s key.
Proof using Type.
  intros Hk Hc Hd i k v Hi Hr. destruct (mal_key_value_equals k key) eqn:E; [|done].
  destruct Hd. destruct (row_key_ok s i k v Hk Hi Hr) as (Hck & _ & Hdk).
  by eapply domain_closed.
Qed.

Lemma lookup_slot_ok s key :
  lanes_ok s -> payload_null (payload s) = false -> keys_ok (domain s) (contents s) ->
  index_ok (slot_capacity s) (slots s) (controls s) (entry_of s) (size s) (deleted_slots s) ->
  size s + deleted_slots s < slot_capacity s -> canonical key ->
  exists r, mal_map_lookup_slot MASK_SHIFT s key = Ret r /\ find_result s key false r.
Proof using Hshift KL.
  intros Hs Hp Hk Hok Hroom Hc. unfold mal_map_lookup_slot.
  pose proof (query_in_domain_spec s key Hc) as Hq.
  destruct (mal_map_query_in_domain s key) as [n|].
  - destruct Hq as [Hd Hn].
    destruct (probe_ok s key false) as (r & Hr & Hf); try done. exists r. split; [|done].
    rewrite <- Hr. unfold mal_map_probe, mal_map_probe_in.
    destruct (domain s) eqn:Ed; try done. by destruct (Hn eq_refl) as [-> _].
  - exists UINT32_MAX. split; [done|]. right. split; [|done]. by apply absent_outside.
Qed.
(** ** Lookups *)

Lemma key_equals_slow_ok d c key :
  key_ok d c -> canonical key ->
  (c =? key) || mal_map_key_equals_slow d c key = mal_key_value_equals c key.
Proof using KL.
  intros (Hc & _ & Hd) Hk. pose proof (proj1 Hc) as Hrc. pose proof (proj1 Hk) as Hrk.
  assert (kind_of c = KDouble -> mal_key_value_equals c key = (c =? key)) as Hdbl.
  { intros. rewrite key_equals_words; auto. }
  unfold mal_map_key_equals_slow. destruct d; cbn; rewrite ?orb_false_r.
  - done.
  - symmetry. apply Hdbl. pose proof (key_domain_class c Hrc) as Hcl. simpl in Hd.
    by rewrite Hd in Hcl.
  - symmetry. by apply Hdbl.
  - unfold mal_key_value_equals. destruct (c =? key); [done|]. simpl in Hd.
    pose proof (proj2 (kind_string c Hrc) Hd) as Hsc. rewrite Hsc, (string_not_bigint _ Hsc). cbn.
    by destruct (mal_value_is_string key).
  - rewrite key_equals_sym, key_equals_identity by done. by rewrite Z.eqb_sym.
  - destruct (Z.eqb_spec c key) as [->|]; [by rewrite key_equals_refl|done].
Qed.

(** Entries are one-based; 0 is absent. *)
Definition entry_result (s : MalMapStorage) (key e : Z) : Prop :=
  (e = 0 /\ absent s key) \/ (1 <= e <= count s /\ holds s key (e - 1)).

Lemma small_row s i :
  mirror s -> payload_null (payload s) = true -> 0 <= i < count s ->
  row_at s i = if arr_get (small s) i =? MAL_VALUE_EMPTY then None
               else Some (arr_get (small s) i, arr_get (small_values s) i).
Proof using Type.
  intros Hm Hp Hi. destruct (Hm Hp i Hi) as [He1 He2].
  unfold row_at, mal_map_value_at, mal_map_key_at. rewrite Hp.
  destruct (Z.eqb_spec (arr_get (small_values s) i) MAL_VALUE_EMPTY),
    (Z.eqb_spec (arr_get (small s) i) MAL_VALUE_EMPTY); done || (exfalso; auto).
Qed.

Lemma small_find_loop_ok s key fuel : forall i,
  mirror s -> payload_null (payload s) = true -> keys_ok (domain s) (contents s) ->
  canonical key -> 0 <= i -> i + Z.of_nat fuel = count s ->
  let e := small_find_loop fuel s key i in
  (e = 0 /\ forall j k v, i <= j < count s -> row_at s j = Some (k, v) ->
              mal_key_value_equals k key = false) \/
  (i < e <= count s /\ holds s key (e - 1)).
Proof using KL.
  induction fuel as [|fuel IH]; intros i Hm Hp Hk Hc Hi Hf; cbn [small_find_loop].
  - left. split; [done|]. intros; lia.
  - destruct (Z.ltb_spec i (count s)); [|lia].
    pose proof (small_row s i Hm Hp ltac:(lia)) as Hrow.
    destruct (arr_get (small s) i =? MAL_VALUE_EMPTY) eqn:Ee; cbn [negb andb].
    + destruct (IH (i + 1)) as [[E Ha]|[Hr Hh]]; try done; try lia.
      * left. split; [done|]. intros j k v Hj Hrj. destruct (decide (j = i)) as [->|]; [congruence|].
        eapply Ha; [|done]. lia.
      * right. split; [lia|done].
    + pose proof (row_key_ok s i _ _ Hk ltac:(lia) Hrow) as Hko.
      rewrite key_equals_slow_ok by done.
      destruct (mal_key_value_equals (arr_get (small s) i) key) eqn:Eq.
      * right. split; [lia|]. replace (i + 1 - 1) with i by lia. split; [lia|]. eauto.
      * destruct (IH (i + 1)) as [[E Ha]|[Hr Hh]]; try done; try lia.
        -- left. split; [done|]. intros j k v Hj Hrj. destruct (decide (j = i)) as [->|].
           { rewrite Hrow in Hrj. by injection Hrj as <- <-. }
           eapply Ha; [|done]. lia.
        -- right. split; [lia|done].
Qed.

Lemma small_find_ok s key :
  mirror s -> payload_null (payload s) = true -> keys_ok (domain s) (contents s) ->
  canonical key -> 0 <= count s -> entry_result s key (mal_map_small_find s key).
Proof using KL.
  intros Hm Hp Hk Hc Hn. unfold mal_map_small_find.
  destruct (small_find_loop_ok s key (Z.to_nat (count s)) 0) as [[E Ha]|[Hr Hh]]; try done; try lia.
  - left. split; [done|]. intros i k v Hi. by apply Ha.
  - right. split; [lia|done].
Qed.

Lemma index_room s :
  storage_ok s -> payload_null (payload s) = false ->
  index_ok (slot_capacity s) (slots s) (controls s) (entry_of s) (size s) (deleted_slots s) /\
  size s + deleted_slots s < slot_capacity s.
Proof using Type.
  intros Hok Hp. pose proof (st_index s Hok) as Hi. unfold index_part in Hi. rewrite Hp in Hi.
  destruct Hi as [Hi Hfit]. split; [done|]. eapply fits_lt; [|done]. apply Hi.
Qed.

Lemma bucket_entry s r :
  lanes_ok s -> 0 <= arr_get (slots s) r < count s ->
  u32 (arr_get (slots s) r) = arr_get (slots s) r /\
  u32 (u32 (arr_get (slots s) r) + 1) = arr_get (slots s) r + 1.
Proof using Type.
  intros Hs Hr. pose proof (la_count s Hs). pose proof (la_capacity s Hs).
  unfold u32. rewrite !(wrap_small 32); rewrite ?(wrap_small 32); unfold in_u; lia || done.
Qed.

Lemma storage_find_ok s key :
  storage_ok s -> canonical key ->
  exists e, mal_map_storage_find MASK_SHIFT (Some s) key = Ret e /\ entry_result s key e.
Proof using Hshift KL.
  intros Hok Hc. pose proof Hok as [Hl Hm Hk Hsz Hix Hh Hpn Hrs].
  pose proof (la_count s Hl). unfold mal_map_storage_find.
  destruct (Z.eqb_spec (size s) 0) as [E0|].
  { exists 0. split; [done|]. left. split; [done|]. intros i k v Hi Hr. exfalso.
    assert ((k, v) ∈ contents s) as Hin.
    { rewrite contents_live. apply live_from_elem. exists i. split; [lia|done]. }
    unfold arr_len in Hsz. destruct (contents s); [by apply not_elem_of_nil in Hin|simpl in Hsz; lia]. }
  destruct (payload_null (payload s)) eqn:Hp.
  { eexists. split; [done|]. apply small_find_ok; try done. lia. }
  destruct (index_room s Hok Hp) as [Hi Hroom].
  destruct (lookup_slot_ok s key) as (r & -> & Hr); try done. cbn.
  eexists. split; [done|].
  destruct Hr as [(Hrr & _ & Hho)|(Ha & ->)].
  - pose proof (capacity_bound _ (io_capacity _ _ _ _ _ _ Hi)).
    destruct (Z.eqb_spec r UINT32_MAX) as [->|]; [unfold UINT32_MAX in *; lia|].
    destruct (bucket_entry s r Hl (proj1 Hho)) as [_ ->]. right.
    split; [pose proof (proj1 Hho); lia|]. by rewrite Z.add_simpl_r.
  - by left.
Qed.

(** ** The entry hint *)

Lemma hint_row s e :
  storage_ok s -> entry_hint s = e -> e <> 0 ->
  1 <= e <= count s /\ exists v, row_at s (e - 1) = Some (hint_key s, v).
Proof using Type. intros Hok <- Hne. destruct (st_hint s Hok) as [?|?]; done. Qed.

(** A hint that answers names the row of an equal key. *)
Lemma entry_hint_ok s key :
  storage_ok s -> canonical key ->
  let e := mal_map_storage_entry_hint (Some s) key in
  e = 0 \/ (1 <= e <= count s /\ holds s key (e - 1)).
Proof using KL.
  intros Hok Hc. unfold mal_map_storage_entry_hint.
  destruct (Z.eqb_spec (entry_hint s) 0) as [|Hne]; [by left|].
  destruct (hint_row s _ Hok eq_refl Hne) as (Hr & v & Hv).
  assert (mal_key_value_equals (hint_key s) key = true ->
          1 <= entry_hint s <= count s /\ holds s key (entry_hint s - 1)) as Hyes.
  { intros E. split; [done|]. split; [lia|]. eauto. }
  destruct (Z.eqb_spec (hint_key s) key) as [<-|].
  { right. apply Hyes, key_equals_refl. }
  destruct (_ && _); [by left|].
  destruct (mal_key_value_equals (hint_key s) key) eqn:E; [|by left]. right. by apply Hyes.
Qed.

Lemma remember_entry_ok s e :
  storage_ok s -> 1 <= e <= count s -> row_at s (e - 1) <> None ->
  storage_ok (mal_map_storage_remember_entry e s).
Proof using Type.
  intros Hok He Hr. unfold mal_map_storage_remember_entry.
  destruct (Z.eqb_spec (entry_hint s) e); [done|].
  destruct (Z.eqb_spec e 0); [lia|]. destruct Hok as [[? ? ? ?] Hm Hk Hsz Hix Hh Hpn Hrs].
  split; try done. right. split; [done|]. cbn.
  unfold row_at in Hr |- *. cbn.
  change (mal_map_value_at (set_hint _ _ s)) with (mal_map_value_at s).
  change (mal_map_key_at (set_hint _ _ s)) with (mal_map_key_at s).
  destruct (mal_map_value_at s (e - 1) =? MAL_VALUE_EMPTY); [done|]. by eexists.
Qed.
(** ** Compaction *)

Lemma omap_map_Some {A} (l : list A) : omap id (map Some l) = l.
Proof using Type. induction l as [|x l IH]; csimpl; [done|]. by rewrite IH. Qed.

Lemma contents_ext s s' :
  count s' = count s -> (forall i, 0 <= i < count s -> row_at s' i = row_at s i) ->
  contents s' = contents s.
Proof using Type.
  intros Hc Hr. rewrite !contents_live, Hc. apply live_from_ext. intros. apply Hr. lia.
Qed.

Lemma entry_of_ext s s' :
  count s' = count s -> (forall i, 0 <= i < count s -> row_at s' i = row_at s i) ->
  forall i, entry_of s' i = entry_of s i.
Proof using Type.
  intros Hc Hr i. unfold entry_of, entry_upto. rewrite Hc.
  destruct (Z.leb_spec 0 i), (Z.ltb_spec i (count s)); try done. cbn [andb]. by rewrite Hr.
Qed.

Lemma copy_rows_seq (f : Z -> Z) n (blk : list Z) i :
  0 <= i < n -> arr_get (copy_rows n (map f (seqZ 0 n)) blk) i = f i.
Proof using Type.
  intros Hi. rewrite copy_rows_get; [|lia|].
  - apply arr_get_of_lookup. rewrite list_lookup_fmap, lookup_seqZ_lt by lia. simpl.
    do 2 f_equal. lia.
  - unfold arr_len. rewrite length_map, length_seqZ. lia.
Qed.

Lemma compact_to_small_ok s n :
  lanes_ok s -> count s = n -> 0 <= n <= 4 ->
  (forall i, 0 <= i < n -> exists k v, row_at s i = Some (k, v) /\ k <> MAL_VALUE_EMPTY) ->
  let s' := compact_to_small s n in
  lanes_ok s' /\ mirror s' /\ contents s' = contents s.
Proof using Type.
  intros Hs Hc Hn Hrows s'. destruct (la_small s Hs) as [Hks Hvs].
  assert (arr_len (copy_rows n (map (mal_map_key_at s) (seqZ 0 n)) (small s)) = 4) as Hlk.
  { rewrite copy_rows_len; [done| |lia]. unfold arr_len. rewrite length_map, length_seqZ. lia. }
  assert (arr_len (copy_rows n (map (mal_map_value_at s) (seqZ 0 n)) (small_values s)) = 4) as Hlv.
  { rewrite copy_rows_len; [done| |lia]. unfold arr_len. rewrite length_map, length_seqZ. lia. }
  split; [|split].
  - split; cbn; unfold MAL_MAP_SMALL_CAPACITY; try done; lia.
  - intros _ i Hi. cbn -[arr_get copy_rows] in *. rewrite Hc in Hi. rewrite !copy_rows_seq by lia.
    destruct (Hrows i Hi) as (k & v & Hr & Hk). unfold row_at in Hr.
    destruct (Z.eqb_spec (mal_map_value_at s i) MAL_VALUE_EMPTY); [done|].
    injection Hr as -> _. done.
  - apply contents_ext; [done|]. intros i Hi. rewrite Hc in Hi. unfold row_at.
    assert (mal_map_value_at s' i = mal_map_value_at s i) as ->
      by (exact (copy_rows_seq (mal_map_value_at s) n (small_values s) i Hi)).
    assert (mal_map_key_at s' i = mal_map_key_at s i) as ->
      by (exact (copy_rows_seq (mal_map_key_at s) n (small s) i Hi)).
    done.
Qed.

(** What compaction leaves alone. *)
Definition compact_frame (s s' : MalMapStorage) : Prop :=
  contents s' = contents s /\ size s' = size s /\ count s' = size s /\ pins s' = pins s /\
  owner_released s' = owner_released s /\ entry_hint s' = 0 /\
  reserve_size s' <= reserve_size s.

(** The rows after the sliding loop. *)
Lemma compact_slide s :
  lanes_ok s -> keys_ok (domain s) (contents s) -> size s = arr_len (contents s) ->
  exists s1, (if negb (size s =? 0) then compact_loop (Z.to_nat (count s)) s 0 0 else (s, 0))
             = (s1, size s) /\
    lanes_ok s1 /\ same_shape s s1 /\ rows_from s1 0 (size s) = map Some (contents s).
Proof using Type.
  intros Hs Hk Hsz. pose proof (la_count s Hs) as Hc.
  destruct (Z.eqb_spec (size s) 0) as [E|Hne]; cbn [negb].
  - exists s. rewrite E. split; [done|]. split; [done|]. split; [by repeat split|].
    rewrite E in Hsz. unfold arr_len in Hsz. destruct (contents s); [done|simpl in Hsz; lia].
  - pose proof (compact_loop_ok (Z.to_nat (count s)) s 0 0 Hs) as H.
    rewrite Z2Nat.id, <- contents_live in H by lia.
    destruct (compact_loop (Z.to_nat (count s)) s 0 0) as [s1 n].
    destruct H as (Hl & Hsh & Hr & ->); try lia.
    { intros k v Hin. destruct Hk as [Hf _]. rewrite Forall_forall in Hf.
      apply key_ok_storable. by apply (Hf (k, v)). }
    exists s1. rewrite Hsz, Z.add_0_l in *. split; [done|]. by split_and!.
Qed.

Lemma lanes_set_count s n : lanes_ok s -> 0 <= n <= count s -> lanes_ok (set_count n s).
Proof using Type. intros [Hc Hcp Hsm Hp] Hn. split; cbn; done || lia. Qed.

Lemma compact_ok s :
  storage_ok s -> pins s = 0 -> size s <= 2 ^ 29 ->
  exists s', mal_map_compact MASK_SHIFT raw s = Ret s' /\ storage_ok s' /\ compact_frame s s'.
Proof using Hshift.
  intros Hok Hpin Hmax. pose proof Hok as [Hl Hm Hk Hsz Hix Hh Hpn Hrs].
  unfold mal_map_compact. rewrite Hpin, Z.eqb_refl. cbn [negb].
  set (s0 := set_hint 0 MAL_VALUE_EMPTY s).
  assert (lanes_ok s0) as Hl0 by (destruct Hl; by split).
  destruct (compact_slide s0 Hl0 Hk Hsz) as (s1 & -> & Hl1 & Hsh & Hrows).
  change (size s0) with (size s) in *. change (contents s0) with (contents s) in *.
  destruct Hsh as (F1 & C1 & D1 & P1).
  destruct F1 as (Fsl & Fct & Fsz & Fcnt & Fsc & Fds & Fpn & Frs & Feh & Fhk & Fow).
  subst s0. cbn in Fsl, Fct, Fsz, Fcnt, Fsc, Fds, Fpn, Frs, Feh, Fhk, Fow, C1, D1, P1.
  assert (0 <= size s <= count s) as Hszr.
  { rewrite Hsz. split; [apply arr_len_nonneg|]. rewrite contents_live.
    apply live_from_len. apply (la_count s Hl). }
  assert (lanes_ok (set_count (size s) s1)) as Hl2.
  { apply lanes_set_count; [done|]. rewrite Fcnt. exact Hszr. }
  set (s2 := set_count (size s) s1) in *.
  assert (contents s2 = contents s) as Hcont.
  { rewrite contents_live. unfold live_from. change (rows_from s2 0 (count s2)) with
      (rows_from s1 0 (size s)). by rewrite Hrows, omap_map_Some. }
  assert (keys_ok (domain s2) (contents s2)) as Hk2.
  { rewrite Hcont. change (domain s2) with (domain s1). by rewrite D1. }
  destruct (Z.leb_spec (size s) MAL_MAP_SMALL_CAPACITY) as [Hsmall|Hbig];
    unfold MAL_MAP_SMALL_CAPACITY in *.
  - assert (forall i, 0 <= i < size s -> exists k v, row_at s2 i = Some (k, v) /\ k <> MAL_VALUE_EMPTY)
      as Hlive.
    { intros i Hi.
      assert (exists r, row_at s2 i = Some r) as [[k v] Hr].
      { assert (rows_from s1 0 (size s) !! Z.to_nat i = Some (row_at s1 i)) as Hlk.
        { rewrite rows_from_lookup by lia. done. }
        rewrite Hrows, list_lookup_fmap in Hlk.
        destruct (contents s !! Z.to_nat i) as [r|] eqn:E; [|done].
        injection Hlk as Hr. exists r. exact (eq_sym Hr). }
      exists k, v. split; [done|]. eapply row_key_ok; [exact Hk2| |exact Hr]. exact Hi. }
    destruct (compact_to_small_ok s2 (size s)) as (Hl3 & Hm3 & Hc3); try done; try lia.
    eexists. split; [done|]. rewrite Hcont in Hc3. split.
    + split; cbn -[compact_to_small]; try done.
      * rewrite Hc3. destruct Hk as [Hf Hd]. split; [|done].
        cbn. destruct (Z.eqb_spec (size s) 0) as [E|]; [|by rewrite D1].
        rewrite E in Hsz. unfold arr_len in Hsz. destruct (contents s); [done|simpl in Hsz; lia].
      * rewrite Hc3. cbn. by rewrite Fsz.
      * left. cbn. by rewrite Feh.
      * cbn. by rewrite Fpn.
    + split_and!; try done; cbn; try congruence. lia.
  - assert (payload_null (payload s1) = false) as Hp1.
    { destruct (payload_null (payload s1)) eqn:E; [|done].
      pose proof (la_payload s1 Hl1) as Hp. pose proof (la_count s1 Hl1) as Hcs.
      rewrite Fcnt in Hcs.
      destruct (payload s1); [lia|done|done]. }
    destruct (map_capacity_ok (size s) 4) as (r & Hr & Hcap); [lia|]. unfold or_abort. rewrite Hr. cbn [mbind outcome_bind].
    destruct r as [cap|]; [|lia]. cbn [mbind outcome_bind].
    assert (exists s3, (if cap <? capacity s2 then mal_map_replace_payload raw s2 (domain s2) cap else Ret s2)
              = Ret s3 /\ lanes_ok s3 /\ same_frame s2 s3 /\ domain s3 = domain s2 /\
              payload_null (payload s3) = false /\
              forall i, 0 <= i < count s2 -> row_at s3 i = row_at s2 i)
      as (s3 & -> & Hl3 & F3 & D3 & P3 & R3).
    { destruct (Z.ltb_spec cap (capacity s2)).
      - destruct (replace_payload_ok raw s2 (domain s2) cap) as (s3 & -> & ? & ? & ? & ? & ? & ?);
          try done; [change (count s2) with (size s); lia|lia| |].
        { intros k v Hin Ed. destruct Hk2 as [Hf _]. rewrite Forall_forall in Hf.
          destruct (Hf (k, v) Hin) as (Hck & _ & Hdk). apply int32_domain_key; [done|].
          rewrite Ed in Hdk. exact Hdk. }
        exists s3. by split_and!.
      - exists s2. split_and!; done || apply same_frame_refl. }
    cbn [mbind outcome_bind].
    destruct F3 as (Gsl & Gct & Gsz & Gcnt & Gsc & Gds & Gpn & Grs & Geh & Ghk & Gow).
    cbn in Gsl, Gct, Gsz, Gcnt, Gsc, Gds, Gpn, Grs, Geh, Ghk, Gow, D3.
    assert (contents s3 = contents s) as Hc3.
    { rewrite <- Hcont. by apply contents_ext. }
    destruct (map_slot_capacity_ok (size s)) as (rs & -> & Hsc). cbn [mbind outcome_bind].
    destruct rs as [sl|]; [|lia]. destruct Hsc as [Hsco Hfit]. cbn [mbind outcome_bind].
    assert (payload_null (payload s) = false) as Hp0 by congruence.
    assert (0 <= count s3) as Hc3n by (rewrite Gcnt; exact (proj1 Hszr)).
    assert (exists sl' ct', (if negb (sl =? slot_capacity s3) then mal_map_rehash MASK_SHIFT raw s3 sl
              else mal_map_fill_slots MASK_SHIFT s3 (slots s3) (controls s3) sl)
              = Ret (set_index sl' ct' sl 0 s3) /\
              index_ok sl sl' ct' (entry_of s3) (arr_len (contents s3)) 0)
      as (sl' & ct' & -> & Hnew).
    { destruct (Z.eqb_spec sl (slot_capacity s3)) as [E|]; cbn [negb].
      - apply fill_slots_ok; try done; [|by rewrite Hc3, <- Hsz].
        destruct (index_room s Hok Hp0) as [Hi _]. rewrite Gsl. cbn. rewrite Fsl. cbn.
        rewrite E, Gsc. cbn. rewrite Fsc. apply Hi.
      - apply rehash_ok; try done. by rewrite Hc3, <- Hsz. }
    eexists. split; [done|].
    assert (size s3 = size s) as Es3 by (rewrite Gsz; exact Fsz).
    split.
    + split; cbn -[arr_get].
      * destruct Hl3; by split.
      * intros Hp. cbn in Hp. congruence.
      * change (contents (set_index sl' ct' sl 0 s3)) with (contents s3). rewrite Hc3, D3.
        change (domain s2) with (domain s1). by rewrite D1.
      * change (contents (set_index sl' ct' sl 0 s3)) with (contents s3). by rewrite Hc3, Es3.
      * unfold index_part. cbn. rewrite P3, Es3. change (entry_of (set_index sl' ct' sl 0 s3)) with (entry_of s3).
        rewrite Hsz, <- Hc3. split; [done|]. rewrite Z.add_0_r, Hc3, <- Hsz. done.
      * left. cbn. by rewrite Geh.
      * rewrite Gpn. cbn. by rewrite Fpn.
      * rewrite Grs. cbn. by rewrite Frs.
    + split_and!; cbn; try done; try congruence. lia.
Qed.
End store.
