(* ===== verification/MapInsert.v ===== *)
(** Insertion into a Map store (MapObject): the search, the inline and the
    hashed arms, and [mal_map_object_upsert_canonical] as a whole. *)

From S2P Require Import Prelude F64 Value Key HashIndex MapObject MapRows MapStore.

(** Stores above this many rows and reserved entries may reach the 2^30 limits
    of the capacities, where the code aborts. *)
Definition MAP_ROOM : Z := 2 ^ 29.
Definition has_room (s : MalMapStorage) : Prop := count s + reserve_size s < MAP_ROOM.

Section insert.
Context `{KH : KeyHeap} `{KL : !KeyHeapLaws KH}.
Variable MASK_SHIFT : Z.
Hypothesis Hshift : 0 <= MASK_SHIFT.
Variable raw : Z -> Z.

Lemma size_le_count s : storage_ok s -> 0 <= size s <= count s.
Proof using Type.
  intros Hok. rewrite (st_size s Hok). split; [apply arr_len_nonneg|].
  rewrite contents_live. apply live_from_len. apply (la_count s (st_lanes s Hok)).
Qed.

(** ** Compaction when due *)

Lemma compact_if_due_ok s :
  storage_ok s -> size s <= MAP_ROOM ->
  exists s', compact_if_due MASK_SHIFT raw s = Ret s' /\ storage_ok s' /\
    contents s' = contents s /\ count s' <= count s /\ reserve_size s' <= reserve_size s /\
    pins s' = pins s /\ owner_released s' = owner_released s /\
    (pins s <> 0 -> s' = s).
Proof using Hshift.
  intros Hok Hmax. unfold compact_if_due.
  destruct (mal_map_should_compact s) eqn:E.
  - unfold mal_map_should_compact in E. rewrite !andb_true_iff in E.
    destruct E as [[Hp%Z.eqb_eq _] _].
    destruct (compact_ok MASK_SHIFT Hshift raw s Hok Hp Hmax)
      as (s' & -> & Hok' & Hc & Hsz & Hcnt & Hpn & How & _ & Hr).
    pose proof (size_le_count s Hok). exists s'. split_and!; try done; lia.
  - exists s. split_and!; done || lia.
Qed.

(** ** Appending a row *)

Section append.
Variables s s' : MalMapStorage.
Variables k v : Z.
Hypothesis Hcount : count s' = count s + 1.
Hypothesis Hn : 0 <= count s.
Hypothesis Hrows : forall i, 0 <= i < count s -> row_at s' i = row_at s i.
Hypothesis Hnew : row_at s' (count s) = Some (k, v).

Lemma append_contents : contents s' = contents s ++ [(k, v)].
Proof using Hcount Hn Hrows Hnew.
  rewrite !contents_live, Hcount, live_from_app, Z.add_0_l, live_from_one, Hnew by lia.
  f_equal. apply live_from_ext. intros. apply Hrows. lia.
Qed.

Lemma append_keys d :
  keys_ok d (contents s) -> key_ok d k -> absent s k -> keys_ok d (contents s').
Proof using Hcount Hn Hrows Hnew.
  intros [Hf Hd] Hk Ha. rewrite append_contents. split.
  - apply Forall_app. split; [done|]. constructor; [exact Hk|constructor].
  - apply distinct_app. split; [done|]. split; [split; [constructor|done]|].
    apply Forall_forall. intros [k' v'] Hin. constructor; [|constructor].
    rewrite contents_live in Hin. apply live_from_elem in Hin as (i & Hi & Hr).
    eapply Ha; [|exact Hr]. lia.
Qed.

Lemma append_hint : entry_hint s' = entry_hint s -> hint_key s' = hint_key s ->
  hint_ok s -> hint_ok s'.
Proof using Hcount Hn Hrows.
  unfold hint_ok. intros -> -> [?|(Hr & v' & Hv)]; [by left|]. right.
  split; [lia|]. exists v'. rewrite Hrows by lia. done.
Qed.

Lemma append_entry i :
  entry_of s' i = if i =? count s then Some (mal_key_hash_value k) else entry_of s i.
Proof using Hcount Hn Hrows Hnew.
  unfold entry_of. rewrite Hcount, entry_upto_step by lia.
  destruct (Z.eqb_spec i (count s)) as [->|]; [by rewrite Hnew|].
  unfold entry_upto. destruct (Z.leb_spec 0 i), (Z.ltb_spec i (count s)); try done.
  cbn [andb]. rewrite Hrows by lia. done.
Qed.
End append.

Lemma keys_widen d d' l :
  keys_ok d l -> (forall k, key_ok d k -> key_ok d' k) -> keys_ok d' l.
Proof using Type.
  intros [Hf Hd] Hw. split; [|done]. eapply Forall_impl; [exact Hf|]. intros r. apply Hw.
Qed.

Lemma key_ok_join d d' k : key_ok d k -> key_ok (mal_map_join_domain d d') k.
Proof using Type.
  intros (Hc & Hne & Hd). split_and!; try done. apply join_domain_left; [apply Hc|done].
Qed.

Lemma key_ok_insertion s k :
  canonical k -> k <> MAL_VALUE_EMPTY ->
  key_ok (mal_map_join_domain (domain s) (insertion_domain s k)) k.
Proof using Type.
  intros Hc Hne. split_and!; try done. apply join_insertion_domain. apply Hc.
Qed.

(** ** The search *)

Definition search_result (s : MalMapStorage) (key : Z) (known : bool) (hash slot existing : Z)
  : Prop :=
  (existing <> 0 /\ 1 <= existing <= count s /\ holds s key (existing - 1)) \/
  (existing = 0 /\ absent s key /\
   (known = true -> hash = mal_key_hash_value key /\
                    reusable (slot_capacity s) (controls s) hash slot)).

Lemma upsert_search_ok s key :
  storage_ok s -> canonical key ->
  let accepts := mal_map_accepts_domain s (insertion_domain s key) in
  let known := negb (payload_null (payload s)) && accepts in
  exists hash slot existing,
    upsert_search MASK_SHIFT s key accepts known = Ret (hash, slot, existing) /\
    search_result s key known hash slot existing.
Proof using Hshift KL.
  intros Hok Hc accepts known. pose proof Hok as [Hl Hm Hk Hsz Hix Hh Hpn Hrs].
  pose proof (la_count s Hl) as Hcnt.
  pose proof (accepts_domain_spec s key (proj1 Hc)) as Ha. fold accepts in Ha.
  unfold upsert_search, search_result. destruct known eqn:Hkn; subst known.
  - apply andb_true_iff in Hkn as [Hp%negb_true_iff Hacc]. apply Ha in Hacc.
    destruct (index_room s Hok Hp) as [Hi Hroom].
    destruct (find_slot_ok MASK_SHIFT Hshift s key) as (r & -> & Hr); try done.
    cbn [mbind outcome_bind]. do 3 eexists. split; [done|].
    change (mal_hash_slot_live (controls s) r) with (live_control (arr_get (controls s) r)).
    destruct Hr as [(Hrr & Hlive & Hho)|(Hab & Hre)].
    + rewrite Hlive. destruct (bucket_entry s r Hl (proj1 Hho)) as [_ ->].
      pose proof (proj1 Hho). left. rewrite Z.add_simpl_r. split_and!; try done; lia.
    + right. destruct Hre as (Hrange & Hreach & Hctl).
      rewrite (live_not_reusable _ Hctl). done.
  - destruct accepts eqn:Hacc.
    + do 3 eexists. split; [done|]. rewrite andb_true_r, negb_false_iff in Hkn.
      destruct (small_find_ok s key) as [[-> Hab]|[Hr Hho]]; try done; try lia.
      * by right.
      * left. split_and!; try done; lia.
    + do 3 eexists. split; [done|]. right. split; [done|]. split; [|done].
      apply absent_outside; try done. intros Hd. apply Ha in Hd. done.
Qed.

(** The rows keep their positions. *)
Definition kept (s s' : MalMapStorage) : Prop :=
  forall i, 0 <= i < count s -> row_at s' i = row_at s i.

(** ** The inline arm *)

Lemma upsert_small_ok s key :
  storage_ok s -> payload_null (payload s) = true -> count s < 4 ->
  canonical key -> key <> MAL_VALUE_EMPTY -> absent s key ->
  let d := mal_map_join_domain (domain s) (insertion_domain s key) in
  let s' := set_size (u32 (size s + 1)) (upsert_small s key d) in
  storage_ok s' /\ contents s' = contents s ++ [(key, MAL_VALUE_UNDEFINED)] /\
  count s' = count s + 1 /\ row_at s' (count s) = Some (key, MAL_VALUE_UNDEFINED) /\ kept s s'.
Proof using Type.
  intros Hok Hp Hc4 Hck Hne Hab d s'. pose proof Hok as [Hl Hm Hk Hsz Hix Hh Hpn Hrs].
  pose proof (size_le_count s Hok) as Hsr. destruct (la_small s Hl) as [Hlk Hlv].
  destruct (payload s) eqn:Ep; [|done|done].
  assert (count s' = count s + 1) as Hcount.
  { cbn. unfold u32. rewrite wrap_small; [done|unfold in_u; lia]. }
  assert (size s' = size s + 1) as Hsize.
  { cbn. unfold u32. rewrite wrap_small; [done|unfold in_u; lia]. }
  assert (forall i, 0 <= i -> arr_get (small s') i = if i =? count s then key else arr_get (small s) i) as Gk.
  { intros i Hi. cbn -[arr_get]. destruct (Z.eqb_spec i (count s)) as [->|];
      [apply arr_get_set_eq|apply arr_get_set_ne]; lia. }
  assert (forall i, 0 <= i -> arr_get (small_values s') i
            = if i =? count s then MAL_VALUE_UNDEFINED else arr_get (small_values s) i) as Gv.
  { intros i Hi. cbn -[arr_get]. destruct (Z.eqb_spec i (count s)) as [->|];
      [apply arr_get_set_eq|apply arr_get_set_ne]; lia. }
  assert (payload s' = PNull) as Ep' by (cbn; done).
  assert (forall i, 0 <= i -> row_at s' i
            = if i =? count s then Some (key, MAL_VALUE_UNDEFINED) else row_at s i) as Hrow.
  { intros i Hi. unfold row_at, mal_map_value_at, mal_map_key_at. rewrite Ep, Ep'.
    cbn [payload_null]. rewrite Gk, Gv by done. by destruct (i =? count s). }
  assert (forall i, 0 <= i < count s -> row_at s' i = row_at s i) as Hrows.
  { intros i Hi. rewrite Hrow by lia. destruct (Z.eqb_spec i (count s)); [lia|done]. }
  assert (row_at s' (count s) = Some (key, MAL_VALUE_UNDEFINED)) as Hnew.
  { rewrite Hrow by lia. by rewrite Z.eqb_refl. }
  pose proof (append_contents s s' _ _ Hcount ltac:(lia) Hrows Hnew) as Hcont.
  split; [|by split_and!]. split.
  - destruct Hl as [Hcc Hcp _ Hpl]. rewrite Ep in Hpl. split.
    + rewrite Hcount. change (capacity s') with (capacity s). lia.
    + exact Hcp.
    + cbn. rewrite !arr_len_set. done.
    + rewrite Ep'. exact Hpl.
  - intros _ i Hi. rewrite Gk, Gv by lia. destruct (Z.eqb_spec i (count s)); [done|].
    apply Hm; [by rewrite Ep|lia].
  - eapply append_keys; try done; [lia| |by apply key_ok_insertion].
    eapply keys_widen; [exact Hk|]. intros. by apply key_ok_join.
  - rewrite Hsize, Hcont, arr_len_app, Hsz. done.
  - unfold index_part in *. rewrite Ep' , Ep in *. exact Hix.
  - apply (append_hint s s' Hcount ltac:(lia) Hrows); done.
  - exact Hpn.
  - exact Hrs.
Qed.
(** ** The hashed arm *)

(** A spilled store on which a free bucket was found for a new key. *)
Record insert_ready (s : MalMapStorage) (key slot : Z) : Prop := {
  ir_lanes : lanes_ok s;
  ir_spilled : payload_null (payload s) = false;
  ir_keys : keys_ok (domain s) (contents s);
  ir_key : key_ok (domain s) key;
  ir_absent : absent s key;
  ir_size : size s = arr_len (contents s);
  ir_room : count s < capacity s;
  ir_index : index_ok (slot_capacity s) (slots s) (controls s) (entry_of s) (size s) (deleted_slots s);
  ir_slot : reusable (slot_capacity s) (controls s) (mal_key_hash_value key) slot;
  ir_fits : mal_hash_index_fits
    (size s + 1 + deleted_slots s - Z.b2z (deleted_control (arr_get (controls s) slot)))
    (slot_capacity s) = true;
  ir_hint : hint_ok s;
  ir_pins : 0 <= pins s <= UINT32_MAX;
}.

(** The writes of a hashed insertion. *)
Definition insert_row (s : MalMapStorage) (key hash slot : Z) : MalMapStorage :=
  let index := count s in
  let s1 := write_row index key MAL_VALUE_UNDEFINED s in
  let s1 := set_count (u32 (count s1 + 1)) s1 in
  let deleted :=
    if arr_get (controls s1) slot =? MAL_HASH_DELETED
    then u32 (deleted_slots s1 - 1) else deleted_slots s1 in
  let '(sl, ct) := mal_hash_index_insert (slots s1) (controls s1) slot index hash in
  set_reserve_size 0 (set_index sl ct (slot_capacity s1) deleted s1).

Lemma count_member P (l : list Z) i :
  0 <= i < arr_len l -> P (arr_get l i) = true -> 1 <= HashIndex.count P l <= arr_len l.
Proof using Type.
  intros Hi Hp. split.
  - pose proof (count_set P l i (arr_get l i) Hi) as E. rewrite Hp in E.
    assert (arr_set l i (arr_get l i) = l) as El.
    { apply list_insert_id. by apply arr_get_lookup. }
    destruct (Z.le_gt_cases 1 (HashIndex.count P l)); [done|].
    pose proof (count_nonneg P l). assert (HashIndex.count P l = 0) as E0 by lia.
    clear - Hi Hp E0. revert i Hi Hp E0. unfold arr_len, arr_get.
    induction l as [|x l IH]; intros i Hi Hp E0; simpl in *; [lia|].
    pose proof (count_nonneg P l).
    destruct (decide (i = 0)) as [->|]; [simpl in Hp; rewrite Hp in E0; simpl in E0; lia|].
    destruct (P x); simpl in E0; [lia|].
    apply (IH (i - 1)); [lia| |lia].
    replace (Z.to_nat i) with (S (Z.to_nat (i - 1))) in Hp by lia. exact Hp.
  - clear. unfold arr_len. induction l as [|x l IH]; simpl; [lia|]. destruct (P x); simpl; lia.
Qed.

Lemma insert_row_deleted s key slot :
  insert_ready s key slot ->
  (if arr_get (controls s) slot =? MAL_HASH_DELETED
   then u32 (deleted_slots s - 1) else deleted_slots s)
  = deleted_slots s - Z.b2z (deleted_control (arr_get (controls s) slot)).
Proof using Type.
  intros Hr. pose proof (ir_index _ _ _ Hr) as Hi. destruct (ir_slot _ _ _ Hr) as (Hs & _ & _).
  unfold deleted_control. destruct (arr_get (controls s) slot =? MAL_HASH_DELETED) eqn:E; simpl; [|lia].
  pose proof (count_member deleted_control (controls s) slot) as Hm.
  rewrite (io_controls _ _ _ _ _ _ Hi), (io_deleted _ _ _ _ _ _ Hi) in Hm.
  pose proof (capacity_bound _ (io_capacity _ _ _ _ _ _ Hi)).
  specialize (Hm Hs E). unfold u32. rewrite wrap_small; [done|unfold in_u; lia].
Qed.

Lemma insert_row_ok s key slot :
  insert_ready s key slot ->
  let s' := set_size (u32 (size s + 1)) (insert_row s key (mal_key_hash_value key) slot) in
  storage_ok s' /\ contents s' = contents s ++ [(key, MAL_VALUE_UNDEFINED)] /\
  count s' = count s + 1 /\ row_at s' (count s) = Some (key, MAL_VALUE_UNDEFINED) /\
  pins s' = pins s /\ owner_released s' = owner_released s /\ kept s s'.
Proof using Type.
  intros Hr s'. pose proof (insert_row_deleted s key slot Hr) as Hdel.
  destruct Hr as [Hl Hp Hk Hkey Hab Hsz Hroom Hidx Hslot Hfit Hh Hpn].
  pose proof (la_count s Hl) as Hcnt. pose proof (la_capacity s Hl) as Hcp.
  assert (0 <= count s < capacity s) as Hir by lia.
  assert (0 <= size s <= count s) as Hsr.
  { rewrite Hsz. split; [apply arr_len_nonneg|]. rewrite contents_live. apply live_from_len. lia. }
  pose proof (key_ok_storable s key Hkey) as Hst.
  set (s1 := write_row (count s) key MAL_VALUE_UNDEFINED s).
  pose proof (write_row_lanes s Hl (count s) key MAL_VALUE_UNDEFINED) as Hl1. fold s1 in Hl1.
  pose proof (write_row_at s Hl (count s) key MAL_VALUE_UNDEFINED Hir Hst) as Hrow. fold s1 in Hrow.
  destruct (write_row_frame s (count s) key MAL_VALUE_UNDEFINED) as (F & C1 & D1 & P1).
  fold s1 in F, C1, D1, P1.
  destruct F as (Fsl & Fct & Fsz & Fcnt & Fsc & Fds & Fpn & Frs & Feh & Fhk & Fow).
  assert (s' = set_size (size s + 1) (set_reserve_size 0
    (set_index (arr_set (slots s) slot (count s))
       (arr_set (controls s) slot (mal_hash_tag (mal_key_hash_value key))) (slot_capacity s)
       (deleted_slots s - Z.b2z (deleted_control (arr_get (controls s) slot)))
       (set_count (count s + 1) s1)))) as Es.
  { subst s'. unfold insert_row. fold s1. cbn -[arr_get arr_set].
    rewrite Fct, Fds, Fcnt, Fsl, Fsc, Hdel. unfold u32.
    rewrite !(wrap_small 32) by (unfold in_u; lia). done. }
  clearbody s'. subst s'. cbn -[arr_get arr_set contents row_at] in *.
  set (s' := set_size _ _).
  assert (count s' = count s + 1) as Hcount by done.
  assert (forall i, 0 <= i < count s -> row_at s' i = row_at s i) as Hrows.
  { intros i Hi. change (row_at s' i) with (row_at s1 i). rewrite Hrow by lia.
    destruct (Z.eqb_spec i (count s)); [lia|done]. }
  assert (row_at s' (count s) = Some (key, MAL_VALUE_UNDEFINED)) as Hnew.
  { change (row_at s' (count s)) with (row_at s1 (count s)). rewrite Hrow by lia.
    by rewrite Z.eqb_refl. }
  pose proof (append_contents s s' _ _ Hcount ltac:(lia) Hrows Hnew) as Hcont.
  pose proof (index_insert_ok _ _ _ _ _ _ slot (count s) (mal_key_hash_value key) Hidx Hslot) as Hins.
  cbv beta zeta iota delta [mal_hash_index_insert] in Hins.
  split; [|split_and!; try exact Hrows; cbn; try done; congruence].
  split.
  - destruct Hl1 as [Hc1 Hcp1 Hsm1 Hpl1]. split; cbn; try done. rewrite C1. lia.
  - intros Hx. cbn in Hx. congruence.
  - eapply append_keys; try done; [lia| |]; cbn; rewrite D1; done.
  - cbn. rewrite Hcont, arr_len_app, Hsz. done.
  - unfold index_part. cbn -[arr_get arr_set]. rewrite P1, Hp. split.
    + eapply index_ok_ext; [|apply Hins].
      * intros i. symmetry. exact (append_entry s s' key MAL_VALUE_UNDEFINED Hcount ltac:(lia) Hrows Hnew i).
      * unfold entry_of, entry_upto. by rewrite Z.ltb_irrefl, andb_false_r.
      * apply key_hash_range.
    + by rewrite Z.add_sub_assoc.
  - apply (append_hint s s' Hcount ltac:(lia) Hrows); done.
  - cbn. by rewrite Fpn.
  - cbn. lia.
Qed.
(** The store with its rows laid out for the wider domain, its index and
    descriptor untouched. *)
Record widened (s s1 : MalMapStorage) (d : MalMapKeyDomain) : Prop := {
  wi_lanes : lanes_ok s1;
  wi_frame : same_frame s s1;
  wi_domain : domain s1 = d;
  wi_spilled : payload_null (payload s1) = false;
  wi_rows : forall i, 0 <= i < count s -> row_at s1 i = row_at s i;
  wi_room : count s < capacity s1;
}.

Lemma set_domain_rows s d i :
  (domain_is d MAL_MAP_KEYS_INT32 = domain_is (domain s) MAL_MAP_KEYS_INT32) ->
  row_at (set_domain d s) i = row_at s i.
Proof using Type.
  intros E. unfold row_at, mal_map_value_at, mal_map_key_at. cbn -[arr_get domain_is]. by rewrite E.
Qed.

Lemma widen_ok s d cap :
  storage_ok s -> (forall k, key_ok (domain s) k -> key_ok d k) ->
  count s < cap -> 4 <= cap < 2 ^ 31 ->
  exists s1,
    (if payload_null (payload s) || negb (cap =? capacity s)
        || negb (mal_map_row_width d =? mal_map_row_width (domain s))
     then mal_map_replace_payload raw s d cap else Ret (set_domain d s)) = Ret s1 /\
    widened s s1 d.
Proof using Type.
  intros Hok Hw Hc Hcap. pose proof Hok as [Hl Hm Hk Hsz Hix Hh Hpn Hrs].
  destruct (payload_null (payload s) || negb (cap =? capacity s)
            || negb (mal_map_row_width d =? mal_map_row_width (domain s))) eqn:E.
  - destruct (replace_payload_ok raw s d cap) as (s1 & -> & Hl1 & F & C & D & P & R); try done; [lia| |].
    { intros k v Hin Ed. destruct Hk as [Hf _]. rewrite Forall_forall in Hf.
      destruct (Hw k (Hf (k, v) Hin)) as (Hck & _ & Hdk). apply int32_domain_key; [done|].
      rewrite Ed in Hdk. exact Hdk. }
    exists s1. split; [done|]. split; try done. lia.
  - rewrite !orb_false_iff, !negb_false_iff in E. destruct E as [[Hp Hcc%Z.eqb_eq] Hwd%row_width_eq].
    assert (domain_is d MAL_MAP_KEYS_INT32 = domain_is (domain s) MAL_MAP_KEYS_INT32) as Ed.
    { destruct (domain_is d MAL_MAP_KEYS_INT32) eqn:E1,
        (domain_is (domain s) MAL_MAP_KEYS_INT32) eqn:E2; try done;
        rewrite ?domain_is_true, ?domain_is_false in *;
        first [destruct E2; by apply Hwd | destruct E1; by apply Hwd]. }
    eexists. split; [done|]. split.
    + destruct Hl as [? ? ? Hpl]. split; try done. cbn.
      destruct (payload s); [done| |]; destruct Hpl as [Hd Hpl]; (split; [|done]);
        [by apply Hwd|]. intros Hd'. by apply Hd, Hwd.
    + by repeat split.
    + done.
    + exact Hp.
    + intros i _. by apply set_domain_rows.
    + cbn. lia.
Qed.

(** The free bucket a hashed insertion ends up with, rebuilding the index when
    the occupancy limit would be passed. *)
Lemma upsert_bucket_ok s s1 d key known hash missing :
  storage_ok s -> widened s s1 d -> has_room s ->
  (forall k, key_ok (domain s) k -> key_ok d k) -> key_ok d key -> absent s key ->
  (known = true -> payload_null (payload s) = false /\ hash = mal_key_hash_value key /\
                   reusable (slot_capacity s) (controls s) hash missing) ->
  let members := if u32 (size s1 + 1) <? reserve_size s1 then reserve_size s1 else u32 (size s1 + 1) in
  let reuses := known && (arr_get (controls s1) missing =? MAL_HASH_DELETED) in
  exists s2 slot,
    ('(s2, known) ←
       (if (slot_capacity s1 =? 0)
           || negb (mal_hash_index_fits
                      (u64 (members + deleted_slots s1 - Z.b2z reuses)) (slot_capacity s1))
        then sl ← or_abort (mal_map_slot_capacity members);
             s2 ← mal_map_rehash MASK_SHIFT raw s1 sl; Ret (s2, false)
        else Ret (s1, known));
     let hash := if (known : bool) then hash else mal_key_hash_value key in
     slot ← (if known then Ret missing else mal_map_find_slot MASK_SHIFT s2 key hash);
     Ret (s2, hash, slot)) = Ret (s2, mal_key_hash_value key, slot) /\
    insert_ready s2 key slot /\ contents s2 = contents s /\ count s2 = count s /\ size s2 = size s /\
    pins s2 = pins s /\ owner_released s2 = owner_released s /\ kept s s2.
Proof using Hshift KL.
  intros Hok [Hl1 F D1 P1 R1 Hroom1] Hroom Hw Hkey Hab Hknown members reuses.
  pose proof Hok as [Hl Hm Hk Hsz Hix Hh Hpn Hrs]. pose proof (size_le_count s Hok) as Hsr.
  unfold has_room, MAP_ROOM in Hroom.
  destruct F as (Fsl & Fct & Fsz & Fcnt & Fsc & Fds & Fpn & Frs & Feh & Fhk & Fow).
  assert (contents s1 = contents s) as Hc1 by (by apply contents_ext).
  assert (forall i, entry_of s1 i = entry_of s i) as He1 by (by apply entry_of_ext).
  assert (absent s1 key) as Hab1.
  { intros i k v Hi. rewrite Fcnt in Hi. rewrite R1 by done. by apply Hab. }
  assert (keys_ok (domain s1) (contents s1)) as Hk1.
  { rewrite D1, Hc1. eapply keys_widen; done. }
  assert (hint_ok s1) as Hh1.
  { unfold hint_ok in *. rewrite Feh, Fhk, Fcnt. destruct Hh as [?|(Hr & v & Hv)]; [by left|].
    right. split; [done|]. exists v. rewrite R1 by lia. done. }
  assert (u32 (size s1 + 1) = size s + 1) as Hsu.
  { rewrite Fsz. unfold u32. apply wrap_small. unfold in_u. lia. }
  assert (size s + 1 <= members <= 2 ^ 29) as Hmem.
  { subst members. rewrite Hsu, Frs. destruct (Z.ltb_spec (size s + 1) (reserve_size s)); lia. }
  assert (forall sl ct cap del slot,
    index_ok cap sl ct (entry_of s1) (size s1) del ->
    reusable cap ct (mal_key_hash_value key) slot ->
    mal_hash_index_fits (size s1 + 1 + del - Z.b2z (deleted_control (arr_get ct slot))) cap = true ->
    insert_ready (set_index sl ct cap del s1) key slot) as Hready.
  { intros sl ct cap del slot Hi Hre Hfit. split; cbn; try done.
    - destruct Hl1; by split.
    - by rewrite D1.
    - change (contents (set_index sl ct cap del s1)) with (contents s1). rewrite Hc1. congruence.
    - by rewrite Fcnt.
    - by rewrite Fpn. }
  (* After a rebuild, or with no known bucket, the bucket is searched for. *)
  assert (forall s2, lanes_ok s2 -> payload_null (payload s2) = false ->
    domain s2 = d -> contents s2 = contents s -> absent s2 key ->
    index_ok (slot_capacity s2) (slots s2) (controls s2) (entry_of s2) (size s2) (deleted_slots s2) ->
    size s2 + deleted_slots s2 < slot_capacity s2 ->
    exists slot, mal_map_find_slot MASK_SHIFT s2 key (mal_key_hash_value key) = Ret slot /\
      reusable (slot_capacity s2) (controls s2) (mal_key_hash_value key) slot) as Hsearch.
  { intros s2 Hl2 Hp2 Hd2 Hc2 Ha2 Hi2 Hr2.
    destruct (find_slot_ok MASK_SHIFT Hshift s2 key) as (slot & Hs & Hf); try done.
    - rewrite Hd2, Hc2. eapply keys_widen; done.
    - apply Hkey.
    - rewrite Hd2. apply Hkey.
    - exists slot. split; [done|]. destruct Hf as [(_ & _ & Hho)|[_ ?]]; [|done].
      exfalso. by eapply absent_or_holds. }
  destruct (_ || _) eqn:Efit.
  - destruct (map_slot_capacity_ok members) as (r & Hr & Hspec). unfold or_abort. rewrite Hr. cbn [mbind outcome_bind].
    destruct r as [cap|]; [|lia]. destruct Hspec as [Hcap Hfits]. cbn [mbind outcome_bind].
    assert (mal_hash_index_fits (size s + 1) cap = true) as Hf1.
    { apply Z.leb_le. apply Z.leb_le in Hfits. lia. }
    destruct (rehash_ok MASK_SHIFT Hshift raw s1 cap P1) as (sl & ct & -> & Hnew); try done.
    { apply (la_count s1 Hl1). }
    { rewrite Hc1, <- Hsz. apply Z.leb_le. apply Z.leb_le in Hf1. lia. }
    cbn [mbind outcome_bind].
    assert (size s1 = arr_len (contents s1)) as Es1 by congruence.
    rewrite <- Es1 in Hnew.
    pose proof (fits_lt _ _ Hcap Hf1) as Hlt.
    destruct (Hsearch (set_index sl ct cap 0 s1)) as (slot & -> & Hre); try done.
    { destruct Hl1; by split. }
    { cbn. lia. }
    cbn [mbind outcome_bind]. exists (set_index sl ct cap 0 s1), slot.
    split; [done|]. split; [|by split_and!].
    apply Hready; try done. apply Z.leb_le. apply Z.leb_le in Hf1.
    rewrite Fsz. destruct (deleted_control _); simpl; lia.
  - apply orb_false_iff in Efit as [Hsc0%Z.eqb_neq Hfits%negb_false_iff].
    assert (payload_null (payload s) = false) as Hp.
    { destruct (payload_null (payload s)) eqn:E; [|done]. unfold index_part in Hix. rewrite E in Hix.
      rewrite Fsc in Hsc0. tauto. }
    destruct (index_room s Hok Hp) as [Hidx Hlt].
    assert (index_ok (slot_capacity s1) (slots s1) (controls s1) (entry_of s1) (size s1) (deleted_slots s1)) as Hidx1.
    { rewrite Fsc, Fsl, Fct, Fsz, Fds. eapply index_ok_ext; [|done]. intros i. by rewrite He1. }
    assert (0 <= deleted_slots s1 <= 2 ^ 30) as Hdr.
    { rewrite Fds. pose proof (io_deleted _ _ _ _ _ _ Hidx). pose proof (capacity_bound _ (io_capacity _ _ _ _ _ _ Hidx)).
      pose proof (count_nonneg deleted_control (controls s)). lia. }
    assert (forall slot, (known = true -> slot = missing) ->
      reusable (slot_capacity s1) (controls s1) (mal_key_hash_value key) slot ->
      insert_ready s1 key slot) as Hgo.
    { intros slot Hsl Hre. destruct s1 as [p1 sl1 ct1 z1 n1 c1 sc1 del1 pn1 rs1 eh1 hk1 d1 ow1 sm1 sv1].
      apply (Hready sl1 ct1 sc1 del1 slot); try done. cbn -[arr_get] in *.
      apply Z.leb_le. apply Z.leb_le in Hfits. unfold u64 in Hfits.
      rewrite wrap_small in Hfits
        by (unfold in_u; subst reuses; destruct (known && _); simpl; lia).
      subst reuses. unfold deleted_control. destruct known; cbn -[arr_get] in Hfits.
      - rewrite Hsl by done. lia.
      - destruct (_ =? MAL_HASH_DELETED); simpl; lia. }
    cbn [mbind outcome_bind]. destruct known.
    + destruct (Hknown eq_refl) as (_ & -> & Hre). exists s1, missing. split; [done|].
      split; [|by split_and!]. apply Hgo; [done|]. by rewrite Fsc, Fct.
    + destruct (Hsearch s1) as (slot & -> & Hre); try done.
      { lia. }
      exists s1, slot. split; [done|]. split; [|by split_and!]. by apply Hgo.
Qed.
Lemma store_row s i k :
  payload_null (payload s) = false ->
  set_value_at i MAL_VALUE_UNDEFINED (set_payload (mal_map_store_key (payload s) (domain s) i k) s)
  = write_row i k MAL_VALUE_UNDEFINED s.
Proof using Type. intros Hp. unfold write_row, update_key. by rewrite Hp. Qed.

(** An insertion appended the key with an undefined value. *)
Definition appended (s s' : MalMapStorage) (key : Z) : Prop :=
  storage_ok s' /\ contents s' = contents s ++ [(key, MAL_VALUE_UNDEFINED)] /\
  count s' = count s + 1 /\ row_at s' (count s) = Some (key, MAL_VALUE_UNDEFINED) /\
  pins s' = pins s /\ owner_released s' = owner_released s /\
  reserve_size s' <= reserve_size s /\ kept s s'.

Lemma upsert_hashed_ok s key known hash missing :
  storage_ok s -> has_room s -> canonical key -> key <> MAL_VALUE_EMPTY -> absent s key ->
  (known = true -> payload_null (payload s) = false /\ hash = mal_key_hash_value key /\
                   reusable (slot_capacity s) (controls s) hash missing) ->
  let d := mal_map_join_domain (domain s) (insertion_domain s key) in
  exists s1, upsert_hashed MASK_SHIFT raw s key d known hash missing = Ret s1 /\
    size s1 = size s /\ appended s (set_size (u32 (size s1 + 1)) s1) key.
Proof using Hshift KL.
  intros Hok Hroom Hck Hne Hab Hknown d. pose proof (size_le_count s Hok) as Hsr.
  pose proof (st_lanes s Hok) as Hl. pose proof (la_capacity s Hl) as Hcp.
  pose proof (la_count s Hl) as Hcnt. pose proof (st_reserve s Hok) as Hrs.
  pose proof Hroom as Hroom'. unfold has_room, MAP_ROOM in Hroom'.
  assert (forall k, key_ok (domain s) k -> key_ok d k) as Hw by (intros; by apply key_ok_join).
  unfold upsert_hashed. set (desired := if size s <? reserve_size s then _ else _).
  assert (count s + 1 <= desired <= 2 ^ 29) as Hdes.
  { subst desired. unfold u32, u64.
    destruct (Z.ltb_spec (size s) (reserve_size s));
      rewrite ?(wrap_small 32), ?(wrap_small 64); unfold in_u; try lia;
      rewrite ?(wrap_small 32); unfold in_u; lia. }
  destruct (map_capacity_ok desired (if payload_null (payload s) then 4 else capacity s))
    as (r & Hr & Hcap); [destruct (payload_null _); lia|].
  unfold or_abort. rewrite Hr. cbn [mbind outcome_bind].
  destruct r as [cap|]; [|lia]. cbn [mbind outcome_bind].
  destruct (widen_ok s d cap Hok Hw) as (s1 & -> & Hwid);
    [lia|destruct (payload_null _); lia|].
  cbn [mbind outcome_bind].
  destruct (upsert_bucket_ok s s1 d key known hash missing) as (s2 & slot & Hb & Hready & Hc2 & Hn2 & Hz2 & Hp2 & Ho2 & Hk2);
    try done; [by apply key_ok_insertion|].
  apply bind_Ret_inv in Hb as ([s2' kn] & HA & Hb). unfold or_abort in HA. rewrite HA.
  cbn [mbind outcome_bind]. apply bind_Ret_inv in Hb as (slot' & HB & [= -> Hh ->]).
  rewrite Hh in *. rewrite HB. cbn [mbind outcome_bind].
  pose proof (ir_spilled _ _ _ Hready) as Hsp.
  rewrite store_row by done. rewrite <- Hn2.
  eexists. split; [done|]. rewrite Hn2.
  destruct (insert_row_ok s2 key slot Hready) as (H1 & H2 & H3 & H4 & H5 & H6 & H7).
  unfold insert_row in H1, H2, H3, H4, H5, H6, H7.
  destruct (write_row_frame s2 (count s2) key MAL_VALUE_UNDEFINED) as ((_ & _ & Fz & _) & _).
  cbn -[arr_get arr_set contents row_at write_row] in H1, H2, H3, H4, H5, H6, H7 |- *.
  rewrite Hn2 in *. rewrite Fz, Hz2 in *. split; [done|].
  split_and!; try done; try congruence; try (cbn; first [congruence | lia]).
  intros i Hi. rewrite H7 by (rewrite Hn2; done). by apply Hk2.
Qed.

(** ** The whole insertion *)

Definition storage_of (w : MapWorld) : MalMapStorage :=
  match entries w with Some s => s | None => new_storage end.

Lemma new_storage_ok : storage_ok new_storage.
Proof using Type.
  split.
  - split; cbn; done || lia.
  - intros _ i Hi. cbn in Hi. lia.
  - split; constructor.
  - done.
  - by repeat split.
  - by left.
  - done.
  - done.
Qed.

Lemma upsert_ok w key :
  storage_ok (storage_of w) -> has_room (storage_of w) ->
  canonical key -> key <> MAL_VALUE_EMPTY ->
  let s := storage_of w in
  exists e (inserted : bool) s',
    mal_map_object_upsert_canonical MASK_SHIFT raw w key
    = Ret (e, inserted, mkWorld (Some s') (satb w) (cards w ++ (if inserted then [key] else []))) /\
    storage_ok s' /\ 1 <= e <= count s' /\ count s' <= count s + Z.b2z inserted /\
    pins s' = pins s /\ owner_released s' = owner_released s /\ reserve_size s' <= reserve_size s /\
    (pins s <> 0 -> count s' = count s + Z.b2z inserted /\ kept s s') /\
    if inserted
    then absent s key /\ contents s' = contents s ++ [(key, MAL_VALUE_UNDEFINED)] /\
         row_at s' (e - 1) = Some (key, MAL_VALUE_UNDEFINED)
    else contents s' = contents s /\ holds s' key (e - 1).
Proof using Hshift KL.
  intros Hok Hroom Hck Hne s. pose proof (size_le_count s Hok) as Hsr.
  pose proof (st_reserve s Hok) as Hrs. unfold has_room in Hroom. fold s in Hroom, Hok.
  unfold mal_map_object_upsert_canonical.
  assert (mal_map_object_storage w = (s, mkWorld (Some s) (satb w) (cards w))) as ->.
  { subst s. unfold mal_map_object_storage, storage_of. destruct w as [[?|] ? ?]; done. }
  destruct (compact_if_due_ok s Hok) as (s1 & -> & Hok1 & Hc1 & Hn1 & Hr1 & Hp1 & Ho1 & Hpin); [lia|].
  cbn [mbind outcome_bind]. fold (insertion_domain s1 key).
  destruct (upsert_search_ok s1 key Hok1 Hck) as (hash & slot & ex & Hsearch & Hres).
  rewrite Hsearch. cbn [mbind outcome_bind].
  assert (absent s1 key -> absent s key) as Habs.
  { intros Ha i k v Hi Hr. destruct (mal_key_value_equals k key) eqn:E; [|done]. exfalso.
    assert ((k, v) ∈ contents s1) as Hin.
    { rewrite Hc1, contents_live. apply live_from_elem. exists i. split; [lia|done]. }
    rewrite contents_live in Hin. apply live_from_elem in Hin as (j & Hj & Hrj).
    rewrite (Ha j k v) in E by (done || lia). done. }
  destruct Hres as [(Hne0 & Her & Hho)|(-> & Hab & Hkn)].
  { destruct (Z.eqb_spec ex 0); [done|]. cbn [negb].
    exists ex, false, s1. rewrite app_nil_r. split; [done|]. split_and!; try done; try (cbn; lia).
    intros Hps. rewrite (Hpin Hps). split; [cbn; lia|done]. }
  rewrite Z.eqb_refl. cbn [negb].
  assert (has_room s1) as Hroom1 by (unfold has_room, MAP_ROOM in *; lia).
  set (d := mal_map_join_domain (domain s1) (insertion_domain s1 key)).
  assert (exists s2,
    (if payload_null (payload s1) && (count s1 <? MAL_MAP_SMALL_CAPACITY)
     then Ret (upsert_small s1 key d)
     else upsert_hashed MASK_SHIFT raw s1 key d
            (negb (payload_null (payload s1)) && mal_map_accepts_domain s1 (insertion_domain s1 key))
            hash slot) = Ret s2 /\
    appended s1 (set_size (u32 (size s2 + 1)) s2) key) as (s2 & -> & Happ).
  { destruct (payload_null (payload s1) && (count s1 <? MAL_MAP_SMALL_CAPACITY)) eqn:E.
    - apply andb_true_iff in E as [Hp Hc4%Z.ltb_lt].
      eexists. split; [done|].
      destruct (upsert_small_ok s1 key) as (A & B & C & D & E); try done.
    - destruct (upsert_hashed_ok s1 key
        (negb (payload_null (payload s1)) && mal_map_accepts_domain s1 (insertion_domain s1 key))
        hash slot) as (s2 & Hu & Hz & Happ); try done.
      + intros Hk. destruct (Hkn Hk) as [-> Hre].
        apply andb_true_iff in Hk as [Hp%negb_true_iff _]. done.
      + exists s2. split; [exact Hu|exact Happ]. }
  cbn [mbind outcome_bind]. destruct Happ as (A & B & C & D & E & F & G & H).
  assert (0 <= count s1) as Hc0 by (apply (la_count s1 (st_lanes s1 Hok1))).
  assert (u32 (count s1 + 1) = count s1 + 1) as Hu.
  { unfold u32. apply wrap_small. unfold in_u, MAP_ROOM in *. lia. }
  exists (count s1 + 1), true, (set_size (u32 (size s2 + 1)) s2).
  rewrite Hu. split; [done|]. rewrite Z.add_simpl_r.
  split_and!; try done; try congruence; cbn [Z.b2z]; try lia; auto.
  intros Hps. rewrite <- (Hpin Hps). split; [exact C|exact H].
Qed.
End insert.
