(* ===== verification/MapUpdate.v ===== *)
(** Updates and deletions of a Map store (MapObject): replacing the value of an
    entry (with the adoption of a compact equal string key), erasing an entry,
    clearing and reserving. *)

From S2P Require Import Prelude F64 Value HeapString Key HashIndex MapObject MapRows MapStore MapInsert.

Section update.
Context `{KH : KeyHeap} `{KL : !KeyHeapLaws KH} `{SM : StringMeta}.
Variable MASK_SHIFT : Z.
Hypothesis Hshift : 0 <= MASK_SHIFT.
Variable raw : Z -> Z.
Variable marking : bool.

(** The rows around position [i]. *)
Definition before (s : MalMapStorage) (i : Z) : list (Z * Z) := live_from s 0 i.
Definition after (s : MalMapStorage) (i : Z) : list (Z * Z) := live_from s (i + 1) (count s - i - 1).

Lemma contents_split s i :
  0 <= i < count s ->
  contents s = before s i ++ match row_at s i with Some r => [r] | None => [] end ++ after s i.
Proof using Type.
  intros Hi. rewrite contents_live. unfold before, after.
  replace (count s) with (i + (1 + (count s - i - 1))) at 1 by lia.
  by rewrite !live_from_app, !Z.add_0_l, live_from_one by lia.
Qed.

(** Only row [i] changed. *)
Definition row_changed (s s' : MalMapStorage) (i : Z) (r : option (Z * Z)) : Prop :=
  count s' = count s /\ forall j, 0 <= j -> row_at s' j = if j =? i then r else row_at s j.

Lemma row_changed_contents s s' i r :
  0 <= i < count s -> row_changed s s' i r ->
  contents s' = before s i ++ match r with Some r => [r] | None => [] end ++ after s i.
Proof using Type.
  intros Hi [Hc Hr]. rewrite (contents_split s' i) by lia.
  rewrite Hr, Z.eqb_refl by lia. unfold before, after. rewrite Hc. f_equal; [|f_equal].
  - apply live_from_ext. intros j Hj. rewrite Hr by lia. destruct (Z.eqb_spec j i); [lia|done].
  - apply live_from_ext. intros j Hj. rewrite Hr by lia. destruct (Z.eqb_spec j i); [lia|done].
Qed.

Lemma key_equals_replace a b c :
  mal_key_value_equals a b = true -> mal_key_value_equals a c = mal_key_value_equals b c.
Proof using KL.
  intros E. destruct (mal_key_value_equals b c) eqn:Eb.
  - by eapply key_equals_trans.
  - destruct (mal_key_value_equals a c) eqn:Ea; [|done].
    rewrite (key_equals_trans b a c) in Eb; [done|by rewrite key_equals_sym|done].
Qed.

(** Replacing a key by an equal one keeps the keys distinct. *)
Lemma keys_replace d l1 k v l2 k' v' :
  keys_ok d (l1 ++ (k, v) :: l2) -> mal_key_value_equals k' k = true -> key_ok d k' ->
  keys_ok d (l1 ++ (k', v') :: l2).
Proof using KL.
  intros [Hf Hd] E Hk. rewrite Forall_app, Forall_cons in Hf. destruct Hf as (Hf1 & _ & Hf2).
  apply distinct_app in Hd as (Hd1 & [Hk2 Hd2] & Hc). split.
  - rewrite Forall_app, Forall_cons. done.
  - apply distinct_app. split; [done|]. split; [split; [|done]|].
    + eapply Forall_impl; [exact Hk2|]. intros r Hr. by rewrite (key_equals_replace k' k).
    + eapply Forall_impl; [exact Hc|]. intros r Hr. apply Forall_cons in Hr as [Hr1 Hr2].
      constructor; [|done]. simpl in *.
      rewrite key_equals_sym, (key_equals_replace k' k) by done. by rewrite key_equals_sym.
Qed.

(** The descriptor fields an update keeps. *)
Definition same_descriptor (s s' : MalMapStorage) : Prop :=
  slots s' = slots s /\ controls s' = controls s /\ size s' = size s /\
  slot_capacity s' = slot_capacity s /\ deleted_slots s' = deleted_slots s /\
  pins s' = pins s /\ reserve_size s' = reserve_size s /\
  owner_released s' = owner_released s /\ domain s' = domain s /\
  payload_null (payload s') = payload_null (payload s).

Lemma replace_row_ok s s' i k v k' v' :
  storage_ok s -> 0 <= i < count s -> row_at s i = Some (k, v) ->
  mal_key_value_equals k' k = true -> key_ok (domain s) k' ->
  lanes_ok s' -> mirror s' -> hint_ok s' -> same_descriptor s s' ->
  row_changed s s' i (Some (k', v')) ->
  storage_ok s' /\ contents s' = before s i ++ (k', v') :: after s i.
Proof using KL.
  intros Hok Hi Hr Ek Hk' Hl' Hm' Hh' (Esl & Ect & Esz & Esc & Eds & Epn & Ers & Eow & Ed & Ep) Hch.
  pose proof Hok as [Hl Hm Hk Hsz Hix Hh Hpn Hrs].
  pose proof (row_changed_contents s s' i _ Hi Hch) as Hcont. simpl in Hcont.
  pose proof (contents_split s i Hi) as Hsplit. rewrite Hr in Hsplit. simpl in Hsplit.
  destruct Hch as [Hcnt Hrow]. split; [|done]. split; try done.
  - rewrite Hcont, Ed. rewrite Hsplit in Hk. by eapply keys_replace.
  - rewrite Hcont, Esz, Hsz, Hsplit, !arr_len_app. unfold arr_len. simpl. lia.
  - unfold index_part in *. rewrite Ep. destruct (payload_null (payload s)); [by rewrite Esc, Eds, Esl, Ect|].
    rewrite Esc, Eds, Esl, Ect, Esz. destruct Hix as [Hi' Hfit]. split; [|done].
    eapply index_ok_ext; [|done]. intros j. unfold entry_of, entry_upto. rewrite Hcnt.
    destruct (Z.leb_spec 0 j), (Z.ltb_spec j (count s)); try done. cbn [andb].
    rewrite Hrow by lia. destruct (Z.eqb_spec j i) as [->|]; [|done].
    rewrite Hr. simpl. f_equal. apply key_equals_hash. by rewrite key_equals_sym.
  - by rewrite Epn.
  - by rewrite Ers.
Qed.

(** ** The value write *)

Lemma set_value_ok s i k v v' :
  storage_ok s -> 0 <= i < count s -> row_at s i = Some (k, v) -> v' <> MAL_VALUE_EMPTY ->
  storage_ok (set_value_at i v' s) /\
  contents (set_value_at i v' s) = before s i ++ (k, v') :: after s i /\
  row_changed s (set_value_at i v' s) i (Some (k, v')) /\ same_descriptor s (set_value_at i v' s) /\
  entry_hint (set_value_at i v' s) = entry_hint s /\ hint_key (set_value_at i v' s) = hint_key s.
Proof using KL.
  intros Hok Hi Hr Hv. pose proof Hok as [Hl Hm Hk Hsz Hix Hh Hpn Hrs].
  pose proof (la_count s Hl) as Hc. assert (0 <= i < capacity s) as Hic by lia.
  destruct (frame_set_value s i v') as ((Fsl & Fct & Fsz & Fcnt & Fsc & Fds & Fpn & Frs & Feh & Fhk & Fow) & C & D & P).
  assert (mal_map_key_at s i = k) as Hki.
  { unfold row_at in Hr. destruct (_ =? _); [done|]. by injection Hr. }
  assert (row_changed s (set_value_at i v' s) i (Some (k, v'))) as Hch.
  { split; [done|]. intros j Hj. unfold row_at.
    rewrite value_at_set_value, key_at_set_value by done.
    destruct (Z.eqb_spec j i) as [->|]; [|done].
    destruct (Z.eqb_spec v' MAL_VALUE_EMPTY); [done|]. by rewrite Hki. }
  assert (same_descriptor s (set_value_at i v' s)) as Hd by (by split_and!).
  destruct (replace_row_ok s (set_value_at i v' s) i k v k v') as [H1 H2]; try done.
  - apply key_equals_refl.
  - by eapply row_key_ok.
  - by apply lanes_set_value.
  - intros Hp j Hj. rewrite P in Hp. rewrite Fcnt in Hj.
    pose proof (value_at_set_value s Hl i Hic v' j ltac:(lia)) as Ev.
    pose proof (key_at_set_value s Hl i Hic v' j ltac:(lia)) as Ek.
    unfold mal_map_key_at, mal_map_value_at in Ev, Ek. rewrite P, Hp in Ev, Ek. rewrite Ev, Ek.
    destruct (Z.eqb_spec j i) as [->|]; [|by apply Hm].
    assert (arr_get (small s) i = k) as -> by (unfold mal_map_key_at in Hki; by rewrite Hp in Hki).
    split; [|done]. intros ->. by destruct (row_key_ok s i _ v Hk Hi Hr) as (_ & ? & _).
  - unfold hint_ok in *. rewrite Feh, Fhk, Fcnt. destruct Hh as [?|(Hr' & v0 & Hv0)]; [by left|].
    right. split; [done|]. destruct Hch as [_ Hrow].
    destruct (decide (entry_hint s - 1 = i)) as [E|].
    + exists v'. rewrite Hrow by lia. rewrite E, Z.eqb_refl. rewrite E, Hr in Hv0. by injection Hv0 as -> _.
    + exists v0. rewrite Hrow by lia. destruct (Z.eqb_spec (entry_hint s - 1) i); done.
Qed.

(** ** The key write *)

Lemma update_key_ok s i k v k' :
  storage_ok s -> 0 <= i < count s -> row_at s i = Some (k, v) ->
  mal_key_value_equals k' k = true -> canonical k' -> k' <> MAL_VALUE_EMPTY ->
  let s' := update_key s i k' in
  let s'' := if entry_hint s' =? i + 1 then set_hint (i + 1) k' s' else s' in
  storage_ok s'' /\ contents s'' = before s i ++ (k', v) :: after s i /\ same_descriptor s s'' /\
  row_changed s s'' i (Some (k', v)).
Proof using KL.
  intros Hok Hi Hr Ek Hck Hne s' s''. pose proof Hok as [Hl Hm Hk Hsz Hix Hh Hpn Hrs].
  pose proof (la_count s Hl) as Hc. assert (0 <= i < capacity s) as Hic by lia.
  destruct (row_key_ok s i k v Hk Hi Hr) as (Hckk & Hkne & Hdk).
  assert (key_ok (domain s) k') as Hk'.
  { split_and!; try done. eapply domain_closed; [exact Hckk|done|done|]. by rewrite key_equals_sym. }
  pose proof (key_ok_storable s k' Hk') as Hst.
  destruct (frame_update_key s i k') as ((Fsl & Fct & Fsz & Fcnt & Fsc & Fds & Fpn & Frs & Feh & Fhk & Fow) & C & D & P).
  fold s' in Fsl, Fct, Fsz, Fcnt, Fsc, Fds, Fpn, Frs, Feh, Fhk, Fow, C, D, P.
  assert (row_changed s s' i (Some (k', v))) as Hch.
  { split; [done|]. intros j Hj. unfold row_at, s'.
    rewrite value_at_update_key, key_at_update_key by done.
    destruct (Z.eqb_spec j i) as [->|]; [|done].
    unfold row_at in Hr. destruct (mal_map_value_at s i =? MAL_VALUE_EMPTY); [done|]. by injection Hr as _ ->. }
  assert (same_descriptor s s'') as Hd.
  { subst s''. destruct (_ =? _); by split_and!. }
  assert (row_changed s s'' i (Some (k', v))) as Hch2.
  { subst s''. destruct (_ =? _); exact Hch. }
  destruct (replace_row_ok s s'' i k v k' v) as [H1 H2]; try done.
  - assert (lanes_ok s') as Hl' by (by apply lanes_update_key).
    subst s''. destruct (_ =? _); [|done]. destruct Hl'; by split.
  - assert (mirror s') as Hm'.
    { intros Hp j Hj. rewrite P in Hp. rewrite Fcnt in Hj.
      pose proof (value_at_update_key s Hl i Hic k' j ltac:(lia)) as Ev.
      pose proof (key_at_update_key s Hl i Hic k' j ltac:(lia) Hst) as Ek'.
      unfold mal_map_key_at, mal_map_value_at in Ev, Ek'. fold s' in Ev, Ek'. rewrite P, Hp in Ev, Ek'.
      rewrite Ev, Ek'. destruct (Z.eqb_spec j i) as [->|]; [|by apply Hm].
      split; [done|]. intros E. apply Hm in E; [|done|done].
      rewrite small_row, E in Hr by done. done. }
    subst s''. destruct (_ =? _); [|done]. exact Hm'.
  - subst s''. unfold hint_ok. destruct Hch as [_ Hrow].
    destruct (Z.eqb_spec (entry_hint s') (i + 1)) as [E|E].
    + right. cbn. rewrite Fcnt. split; [lia|]. exists v.
      change (row_at (set_hint (i + 1) k' s') (i + 1 - 1)) with (row_at s' (i + 1 - 1)).
      rewrite Hrow, Z.add_simpl_r, Z.eqb_refl by lia. done.
    + rewrite Feh, Fhk, Fcnt in *. destruct Hh as [?|(Hr' & v0 & Hv0)]; [by left|].
      right. split; [done|]. exists v0. rewrite Hrow by lia.
      destruct (Z.eqb_spec (entry_hint s - 1) i); [lia|done].
Qed.
(** ** The entry update *)

(** What one update recorded for the collector: the values it dropped when
    marking, and the values it stored. *)
Definition recorded (w w' : MapWorld) (dropped stored : list Z) : Prop :=
  (marking = true -> satb w' = satb w ++ dropped) /\
  (marking = false -> satb w' = satb w) /\
  cards w' = cards w ++ stored.

Lemma update_entry_ok w s e key value :
  storage_ok s -> 1 <= e <= count s -> holds s key (e - 1) ->
  canonical key -> key <> MAL_VALUE_EMPTY -> value <> MAL_VALUE_EMPTY ->
  exists s' k v k',
    row_at s (e - 1) = Some (k, v) /\
    entries (mal_map_object_update_entry marking w s e key value) = Some s' /\
    storage_ok s' /\ contents s' = before s (e - 1) ++ (k', value) :: after s (e - 1) /\
    mal_key_value_equals k' key = true /\ (k' = k \/ k' = key) /\
    same_descriptor s s' /\ row_changed s s' (e - 1) (Some (k', value)) /\
    recorded w (mal_map_object_update_entry marking w s e key value)
      (v :: if k' =? k then [] else [k]) ((if k' =? k then [] else [k']) ++ [value]).
Proof using KL.
  intros Hok He (Hi & k & v & Hr & Ek) Hck Hne Hv.
  pose proof (st_lanes s Hok) as Hl. pose proof (la_count s Hl). pose proof (la_capacity s Hl).
  unfold mal_map_object_update_entry.
  assert (u32 (e - 1) = e - 1) as -> by (apply wrap_small; unfold in_u; lia).
  destruct (set_value_ok s (e - 1) k v value Hok Hi Hr Hv) as (Hok1 & Hc1 & Hch1 & Hd1 & Eh1 & Ehk1).
  set (s1 := set_value_at (e - 1) value s) in *.
  assert (mal_map_key_at s1 (e - 1) = k) as ->.
  { pose proof (proj2 Hch1 (e - 1) ltac:(lia)) as Hr1. rewrite Z.eqb_refl in Hr1.
    unfold row_at in Hr1. destruct (_ =? _); [done|]. by injection Hr1. }
  assert (mal_map_value_at s (e - 1) = v) as ->.
  { unfold row_at in Hr. destruct (_ =? _); [done|]. by injection Hr. }
  destruct (mal_value_is_string key && negb (k =? key) && adopts_key k key) eqn:Ea.
  - rewrite !andb_true_iff in Ea. destruct Ea as [[_ Hkk%negb_true_iff] _].
    apply Z.eqb_neq in Hkk.
    assert (row_at s1 (e - 1) = Some (k, value)) as Hr1.
    { rewrite (proj2 Hch1) by lia. by rewrite Z.eqb_refl. }
    destruct (update_key_ok s1 (e - 1) k value key) as (Hok2 & Hc2 & Hd2 & Hch2); try done.
    { destruct Hch1 as [-> _]. lia. }
    { by rewrite key_equals_sym. }
    replace (e - 1 + 1) with e in * by lia.
    eexists _, k, v, key. split; [done|].
    destruct (Z.eqb_spec key k); [congruence|].
    split; [by destruct marking|]. split; [exact Hok2|]. split.
    { rewrite Hc2. unfold before, after. destruct Hch1 as [Hcnt1 Hrow1]. rewrite Hcnt1.
      f_equal; [|f_equal]; apply live_from_ext; intros j Hj; rewrite Hrow1 by lia;
        destruct (Z.eqb_spec j (e - 1)); done || lia. }
    split; [apply key_equals_refl|]. split; [by right|]. split.
    { destruct Hd1 as (? & ? & ? & ? & ? & ? & ? & ? & ? & ?).
      destruct Hd2 as (? & ? & ? & ? & ? & ? & ? & ? & ? & ?). split_and!; congruence. }
    split.
    { destruct (Hch2) as [Hcnt2 Hrow2]. destruct Hch1 as [Hcnt1 Hrow1]. split; [congruence|].
      intros j Hj. rewrite Hrow2, Hrow1 by done. by destruct (j =? e - 1). }
    unfold recorded. destruct marking; cbn; rewrite <- ?app_assoc; done.
  - eexists s1, k, v, k. split; [done|]. rewrite Z.eqb_refl.
    split; [by destruct marking|]. split; [done|]. split; [done|]. split; [done|].
    split; [by left|]. split; [done|]. split; [exact Hch1|].
    unfold recorded. destruct marking; done.
Qed.

(** ** Deletion *)

(** The store after its row [i] became a tombstone. *)
Lemma erase_row_ok s s' i k v :
  storage_ok s -> 0 <= i < count s -> row_at s i = Some (k, v) ->
  lanes_ok s' -> mirror s' -> hint_ok s' -> row_changed s s' i None ->
  size s' = size s - 1 -> domain s' = domain s -> pins s' = pins s -> reserve_size s' = reserve_size s ->
  index_part s' ->
  storage_ok s' /\ contents s' = before s i ++ after s i.
Proof using Type.
  intros Hok Hi Hr Hl' Hm' Hh' Hch Esz Ed Epn Ers Hix'.
  pose proof Hok as [Hl Hm Hk Hsz Hix Hh Hpn Hrs].
  pose proof (row_changed_contents s s' i _ Hi Hch) as Hcont. simpl in Hcont.
  pose proof (contents_split s i Hi) as Hsplit. rewrite Hr in Hsplit. simpl in Hsplit.
  split; [|done]. split; try done.
  - rewrite Hcont, Ed. rewrite Hsplit in Hk. destruct Hk as [Hf Hd]. split.
    + rewrite Forall_app, Forall_cons in Hf. destruct Hf as (Hf1 & _ & Hf2). by apply Forall_app.
    + apply distinct_app in Hd as (Hd1 & [_ Hd2] & Hc). apply distinct_app.
      split; [done|]. split; [done|]. eapply Forall_impl; [exact Hc|].
      intros r Hr'. apply Forall_cons in Hr' as [_ ?]. done.
  - rewrite Esz, Hsz, Hcont, Hsplit, !arr_len_app. unfold arr_len. simpl. lia.
  - by rewrite Epn.
  - by rewrite Ers.
Qed.
(** The tombstone write of [delete_row], inline and spilled. *)
Definition kill_row (i : Z) (s : MalMapStorage) : MalMapStorage :=
  let s := if payload_null (payload s)
           then set_small (arr_set (small s) i MAL_VALUE_EMPTY) (small_values s) s else s in
  set_value_at i MAL_VALUE_EMPTY s.

Lemma kill_row_ok s i :
  lanes_ok s -> mirror s -> 0 <= i < count s ->
  lanes_ok (kill_row i s) /\ mirror (kill_row i s) /\ row_changed s (kill_row i s) i None /\
  same_frame s (kill_row i s) /\ domain (kill_row i s) = domain s /\
  payload_null (payload (kill_row i s)) = payload_null (payload s).
Proof using Type.
  intros Hl Hm Hi. pose proof (la_count s Hl) as Hc. assert (0 <= i < capacity s) as Hic by lia.
  unfold kill_row. destruct (payload_null (payload s)) eqn:Hp.
  - set (s0 := set_small _ _ s).
    assert (lanes_ok s0) as Hl0.
    { destruct Hl as [? ? ? ?]. split; cbn; rewrite ?arr_len_set; done. }
    assert (0 <= i < capacity s0) as Hic0 by exact Hic.
    destruct (frame_set_value s0 i MAL_VALUE_EMPTY) as (F & C & D & P).
    split; [by apply lanes_set_value|].
    assert (forall j, 0 <= j -> mal_map_value_at (set_value_at i MAL_VALUE_EMPTY s0) j
              = if j =? i then MAL_VALUE_EMPTY else mal_map_value_at s j) as Gv.
    { intros j Hj. rewrite value_at_set_value by done. destruct (j =? i); [done|].
      unfold mal_map_value_at. cbn [payload set_small s0]. by rewrite Hp. }
    assert (forall j, 0 <= j -> mal_map_key_at (set_value_at i MAL_VALUE_EMPTY s0) j
              = if j =? i then MAL_VALUE_EMPTY else mal_map_key_at s j) as Gk.
    { intros j Hj. rewrite key_at_set_value by done. unfold mal_map_key_at.
      cbn -[arr_get arr_set]. rewrite Hp. destruct (la_small s Hl) as [Hlk _].
      pose proof (la_payload s Hl) as Hpl. destruct (payload s); [|done|done].
      destruct (Z.eqb_spec j i) as [->|]; [apply arr_get_set_eq|apply arr_get_set_ne]; lia. }
    split; [|split; [|split; [|split; [done|]]]].
    + intros _ j Hj. assert (count s0 = count s) as Ec by done.
      destruct F as (_ & _ & _ & Fc & _). rewrite Fc, Ec in Hj.
      specialize (Gv j ltac:(lia)). specialize (Gk j ltac:(lia)).
      unfold mal_map_value_at, mal_map_key_at in Gv, Gk. rewrite P in Gv, Gk.
      cbn [payload set_small s0] in Gv, Gk. rewrite Hp in Gv, Gk. rewrite Gv, Gk.
      destruct (j =? i); [done|]. by apply Hm.
    + split; [apply F|]. intros j Hj. unfold row_at. rewrite Gv, Gk by done. by destruct (j =? i).
    + exact F.
    + rewrite P. exact Hp.
  - destruct (frame_set_value s i MAL_VALUE_EMPTY) as (F & C & D & P).
    split; [by apply lanes_set_value|].
    split; [intros Hp'; rewrite P in Hp'; congruence|].
    split; [|by rewrite P].
    split; [apply F|]. intros j Hj. unfold row_at.
    rewrite value_at_set_value, key_at_set_value by done.
    by destruct (Z.eqb_spec j i) as [->|].
Qed.

Lemma delete_row_eq w s i :
  0 <= i < 2 ^ 31 -> 1 <= size s < 2 ^ 31 ->
  let s0 := if entry_hint s =? i + 1 then set_hint 0 MAL_VALUE_EMPTY s else s in
  delete_row marking w s i =
    (mal_gc_write_barrier marking (mal_map_value_at s i)
       (mal_gc_write_barrier marking (mal_map_key_at s i) w),
     set_size (size s - 1) (kill_row i s0)).
Proof using Type.
  intros Hi Hz s0. unfold delete_row.
  assert (u32 (i + 1) = i + 1) as -> by (apply wrap_small; unfold in_u; lia).
  fold s0. assert (mal_map_value_at s0 i = mal_map_value_at s i /\ mal_map_key_at s0 i = mal_map_key_at s i
    /\ size s0 = size s) as (-> & -> & Hsz0).
  { subst s0. by destruct (_ =? _). }
  f_equal. fold (kill_row i s0). f_equal.
  assert (size (kill_row i s0) = size s0) as ->.
  { unfold kill_row. destruct (payload_null (payload s0)).
    - by destruct (frame_set_value (set_small (arr_set (small s0) i MAL_VALUE_EMPTY) (small_values s0) s0)
          i MAL_VALUE_EMPTY) as ((_ & _ & -> & _) & _).
    - by destruct (frame_set_value s0 i MAL_VALUE_EMPTY) as ((_ & _ & -> & _) & _). }
  rewrite Hsz0. apply wrap_small. unfold in_u. lia.
Qed.

(** A found row with its bucket erased. *)
Definition bucket_erased (s s1 : MalMapStorage) (i : Z) : Prop :=
  exists ct del, s1 = set_index (slots s) ct (slot_capacity s) del s /\
    if payload_null (payload s) then ct = controls s /\ del = deleted_slots s
    else index_ok (slot_capacity s) (slots s) ct
           (fun j => if j =? i then None else entry_of s j) (size s - 1) del /\
         mal_hash_index_fits (size s - 1 + del) (slot_capacity s) = true.

Lemma delete_find_ok s key :
  storage_ok s -> canonical key ->
  exists r, delete_find MASK_SHIFT s key = Ret r /\
    match r with
    | None => absent s key
    | Some (i, s1) => holds s key i /\ bucket_erased s s1 i
    end.
Proof using Hshift KL.
  intros Hok Hc. pose proof Hok as [Hl Hm Hk Hsz Hix Hh Hpn Hrs].
  pose proof (la_count s Hl) as Hcnt. unfold delete_find, bucket_erased.
  destruct (payload_null (payload s)) eqn:Hp.
  - eexists. split; [done|].
    destruct (small_find_ok s key) as [[-> Ha]|[Hr Hho]]; try done; try lia.
    destruct (Z.eqb_spec (mal_map_small_find s key) 0); [lia|]. split; [done|].
    exists (controls s), (deleted_slots s). split; [by destruct s|done].
  - destruct (index_room s Hok Hp) as [Hi Hroom].
    destruct (lookup_slot_ok MASK_SHIFT Hshift s key) as (r & -> & Hr); try done.
    cbn [mbind outcome_bind].
    destruct Hr as [(Hrr & Hlive & Hho)|(Ha & ->)]; [|by exists None].
    pose proof (capacity_bound _ (io_capacity _ _ _ _ _ _ Hi)) as Hcb.
    destruct (Z.eqb_spec r UINT32_MAX) as [->|]; [unfold UINT32_MAX in *; lia|].
    destruct (bucket_entry s r Hl (proj1 Hho)) as [-> _].
    pose proof (index_erase_ok MASK_SHIFT Hshift _ _ _ _ _ _ r Hi Hrr Hlive) as He.
    destruct (mal_hash_controls_erase MASK_SHIFT (controls s) r) as [ct d].
    eexists. split; [done|]. split; [done|]. exists ct, (deleted_slots s + Z.b2z d).
    split.
    { f_equal. apply wrap_small. pose proof (io_deleted _ _ _ _ _ _ Hi).
      pose proof (count_nonneg deleted_control (controls s)).
      pose proof (size_le_count s Hok).
      unfold in_u. destruct d; simpl; lia. }
    split; [exact He|]. pose proof (st_index s Hok) as Hx. unfold index_part in Hx. rewrite Hp in Hx.
    destruct Hx as [_ Hfit]. apply Z.leb_le. apply Z.leb_le in Hfit. destruct d; simpl; lia.
Qed.

Lemma kill_found_ok s s1 i k v :
  storage_ok s -> 0 <= i < count s -> row_at s i = Some (k, v) -> bucket_erased s s1 i ->
  let s0 := if entry_hint s1 =? i + 1 then set_hint 0 MAL_VALUE_EMPTY s1 else s1 in
  let s' := set_size (size s1 - 1) (kill_row i s0) in
  storage_ok s' /\ contents s' = before s i ++ after s i /\ count s' = count s /\
  pins s' = pins s /\ owner_released s' = owner_released s /\ reserve_size s' = reserve_size s /\
  row_changed s s' i None.
Proof using Type.
  intros Hok Hi Hr (ct & del & -> & Her) s0 s'.
  pose proof Hok as [Hl Hm Hk Hsz Hix Hh Hpn Hrs].
  assert (lanes_ok s0 /\ mirror s0 /\ count s0 = count s /\ slots s0 = slots s /\ controls s0 = ct /\
          slot_capacity s0 = slot_capacity s /\ deleted_slots s0 = del /\ pins s0 = pins s /\
          reserve_size s0 = reserve_size s /\ owner_released s0 = owner_released s /\
          domain s0 = domain s /\ payload s0 = payload s /\
          (forall j, row_at s0 j = row_at s j)) as
    (Hl0 & Hm0 & Ec & Esl & Ect & Esc & Eds & Epn & Ers & Eow & Ed & Ep & Erow).
  { subst s0. destruct Hl as [? ? ? ?]. destruct (_ =? _); split_and!; try done; by split. }
  assert (entry_hint s0 = 0 \/
          (entry_hint s0 = entry_hint s /\ hint_key s0 = hint_key s /\ entry_hint s <> i + 1)) as Hh0.
  { subst s0. cbn. destruct (Z.eqb_spec (entry_hint s) (i + 1)); [by left|by right]. }
  destruct (kill_row_ok s0 i Hl0 Hm0 ltac:(lia)) as (Hl1 & Hm1 & [Hc1 Hrow1] & F & D1 & P1).
  destruct F as (Fsl & Fct & Fsz & Fcnt & Fsc & Fds & Fpn & Frs & Feh & Fhk & Fow).
  assert (row_changed s s' i None) as Hch.
  { split; [cbn; congruence|]. intros j Hj. change (row_at s' j) with (row_at (kill_row i s0) j).
    rewrite Hrow1, Erow by done. done. }
  destruct (erase_row_ok s s' i k v) as [H1 H2]; try done; cbn; try congruence.
  - destruct Hl1; by split.
  - unfold hint_ok. cbn. rewrite Feh, Fhk, Fcnt, Ec.
    destruct Hh0 as [E|(E & Ek & Hne)]; [by left|]. rewrite E, Ek.
    destruct Hh as [?|(Hhr & v0 & Hv0)]; [by left|]. right. split; [done|]. exists v0.
    change (row_at s') with (row_at (kill_row i s0)). rewrite Hrow1, Erow by lia.
    destruct (Z.eqb_spec (entry_hint s - 1) i); [lia|done].
  - unfold index_part. cbn. rewrite P1, Ep. unfold index_part in Hix.
    destruct (payload_null (payload s)).
    + destruct Her as [-> ->]. by rewrite Fsc, Esc, Fds, Eds, Fsl, Esl, Fct, Ect.
    + destruct Her as [Hi' Hfit]. rewrite Fsc, Esc, Fds, Eds, Fsl, Esl, Fct, Ect. split; [|done].
      eapply index_ok_ext; [|exact Hi']. intros j. unfold entry_of, entry_upto.
      cbn. rewrite Fcnt, Ec. change (row_at s' j) with (row_at (kill_row i s0) j).
      destruct (Z.eqb_spec j i) as [->|].
      * destruct (Z.leb_spec 0 i), (Z.ltb_spec i (count s)); try lia. cbn [andb].
        rewrite Hrow1 by lia. by rewrite Z.eqb_refl.
      * destruct (Z.leb_spec 0 j), (Z.ltb_spec j (count s)); try done. cbn [andb].
        rewrite Hrow1 by lia. destruct (Z.eqb_spec j i); [done|]. by rewrite Erow.
  - split; [done|]. split; [done|]. split_and!; try done; cbn; congruence.
Qed.

(** [mal_map_object_delete_canonical] removes the entry of an equal key, keeps
    the order of the others, and shades the key and the value it drops. *)
Lemma delete_ok w key :
  storage_ok (storage_of w) -> size (storage_of w) <= MAP_ROOM -> canonical key ->
  let s := storage_of w in
  exists b w', mal_map_object_delete_canonical MASK_SHIFT raw marking w key = Ret (b, w') /\
    storage_ok (storage_of w') /\ pins (storage_of w') = pins s /\
    count (storage_of w') <= count s /\ reserve_size (storage_of w') <= reserve_size s /\
    owner_released (storage_of w') = owner_released s /\
    if b : bool
    then exists i k v, 0 <= i < count s /\ row_at s i = Some (k, v) /\ mal_key_value_equals k key = true /\
           contents (storage_of w') = before s i ++ after s i /\
           (pins s <> 0 -> row_changed s (storage_of w') i None) /\ recorded w w' [k; v] []
    else absent s key /\ w' = w.
Proof using Hshift KL.
  intros Hok Hroom Hc s. unfold mal_map_object_delete_canonical, storage_of in *.
  destruct w as [[s0|] sb cd]; cbn -[contents delete_find delete_row compact_if_due] in *; subst s.
  2: { exists false, (mkWorld None sb cd). split_and!; try done. intros i k v Hi. cbn in Hi. lia. }
  destruct (Z.eqb_spec (size s0) 0) as [E0|Hne].
  { exists false, (mkWorld (Some s0) sb cd). split_and!; try done; cbn; try lia.
    intros i k v Hi Hr. exfalso.
    assert ((k, v) ∈ contents s0) as Hin.
    { rewrite contents_live. apply live_from_elem. exists i. split; [lia|done]. }
    pose proof (st_size s0 Hok) as Hsz. unfold arr_len in Hsz.
    destruct (contents s0); [by apply not_elem_of_nil in Hin|simpl in Hsz; lia]. }
  destruct (delete_find_ok s0 key Hok Hc) as (r & -> & Hr). cbn [mbind outcome_bind].
  destruct r as [[i s1]|].
  2: { exists false, (mkWorld (Some s0) sb cd). split_and!; try done; cbn; lia. }
  destruct Hr as [(Hi & k & v & Hrow & Ek) Her].
  pose proof (size_le_count s0 Hok) as Hsr. pose proof (st_lanes s0 Hok) as Hl.
  pose proof (la_count s0 Hl) as Hcn. pose proof (la_capacity s0 Hl) as Hcp.
  destruct (kill_found_ok s0 s1 i k v Hok Hi Hrow Her) as (Hok' & Hcont & Hcnt & Hp' & Ho' & Hr' & Hch).
  assert (size s1 = size s0) as Hs1 by (destruct Her as (ct & del & -> & _); done).
  rewrite delete_row_eq by lia.
  destruct (compact_if_due_ok MASK_SHIFT Hshift raw _ Hok') as (s2 & -> & Hok2 & Hc2 & Hn2 & Hr2 & Hp2 & Ho2 & Hpin).
  { cbn. unfold MAP_ROOM in *. lia. }
  cbn [mbind outcome_bind].
  assert (mal_map_key_at s1 i = k /\ mal_map_value_at s1 i = v) as [-> ->].
  { destruct Her as (ct & del & -> & _).
    change (mal_map_key_at s0 i = k /\ mal_map_value_at s0 i = v).
    unfold row_at in Hrow. destruct (_ =? _); [done|]. by injection Hrow. }
  do 2 eexists. split; [done|]. cbn -[contents]. split; [done|].
  split; [congruence|]. split; [lia|]. split; [lia|]. split; [congruence|].
  exists i, k, v. split_and!; try done; try lia; [congruence| |].
  { intros Hps. rewrite Hpin; [exact Hch|]. by rewrite Hp'. }
  unfold recorded, mal_gc_write_barrier. destruct marking; cbn; rewrite ?app_nil_r, <- ?app_assoc; done.
Qed.
End update.
