(* ===== verification/MapClear.v ===== *)
(** Clearing and reserving (MapObject): [mal_map_object_clear] for cursors at
    rest and for pinned stores, [mal_map_object_compact] and
    [mal_map_object_reserve]. *)

From S2P Require Import Prelude F64 Value HeapString Key HashIndex MapObject MapRows MapStore MapInsert MapUpdate.

Section clear.
Context `{KH : KeyHeap} `{KL : !KeyHeapLaws KH} `{SM : StringMeta}.
Variable MASK_SHIFT : Z.
Hypothesis Hshift : 0 <= MASK_SHIFT.
Variable raw : Z -> Z.
Variable marking : bool.

(** ** Shading *)

Definition row_words (l : list (Z * Z)) : list Z := flat_map (fun r => [fst r; snd r]) l.

Lemma clear_shade_ok fuel : forall s i w,
  clear_shade true fuel s i w
  = mkWorld (entries w) (satb w ++ row_words (live_from s i (Z.of_nat fuel))) (cards w).
Proof using Type.
  induction fuel as [|fuel IH]; intros s i w; cbn [clear_shade].
  - rewrite app_nil_r. by destruct w.
  - replace (Z.of_nat (S fuel)) with (1 + Z.of_nat fuel) by lia.
    rewrite live_from_app, live_from_one by lia. unfold row_at.
    destruct (_ =? _); rewrite IH; [done|]. cbn. by rewrite <- !app_assoc.
Qed.

(** ** Tombstones *)

Lemma fill_rows_len {A} n (f : A -> A) l : arr_len (fill_rows n f l) = arr_len l.
Proof using Type.
  unfold fill_rows, arr_len. rewrite length_app, length_map, length_take, length_drop. lia.
Qed.

Lemma fill_rows_get {A} `{Inhabited A} n (f : A -> A) l i :
  0 <= i < n -> n <= arr_len l -> arr_get (fill_rows n f l) i = f (arr_get l i).
Proof using Type.
  intros Hi Hn. unfold arr_len in Hn. apply arr_get_of_lookup. unfold fill_rows.
  rewrite lookup_app_l by (rewrite length_map, length_take; lia).
  rewrite list_lookup_fmap, lookup_take_lt by lia.
  destruct (lookup_lt_is_Some_2 l (Z.to_nat i)) as [x Hx]; [lia|].
  rewrite Hx. simpl. by rewrite (arr_get_of_lookup _ _ _ Hx).
Qed.

Lemma contents_dead s : (forall i, 0 <= i < count s -> row_at s i = None) -> contents s = [].
Proof using Type.
  intros Hd. destruct (contents s) as [|r l] eqn:E; [done|].
  assert (r ∈ contents s) as Hin by (rewrite E; left).
  rewrite contents_live in Hin. apply live_from_elem in Hin as (j & Hj & Hr).
  rewrite Hd in Hr by lia. done.
Qed.

(** A store whose rows are all dead, whose hint is cleared and whose index is
    reset. *)
Lemma dead_storage_ok s :
  lanes_ok s -> mirror s -> (forall i, 0 <= i < count s -> row_at s i = None) ->
  size s = 0 -> entry_hint s = 0 -> deleted_slots s = 0 ->
  (if payload_null (payload s) then slot_capacity s = 0 /\ slots s = [] /\ controls s = []
   else index_ok (slot_capacity s) (slots s) (controls s) (fun _ => None) 0 0) ->
  0 <= pins s <= UINT32_MAX -> 0 <= reserve_size s < 2 ^ 31 ->
  storage_ok s /\ contents s = [].
Proof using Type.
  intros Hl Hm Hd Hsz Hh Hds Hix Hpn Hrs. pose proof (contents_dead s Hd) as Hc.
  split; [|done]. split; try done.
  - rewrite Hc. split; constructor.
  - by rewrite Hc, Hsz.
  - unfold index_part. destruct (payload_null (payload s)); [by destruct Hix as (? & ? & ?)|].
    rewrite Hsz, Hds. split.
    + eapply index_ok_ext; [|exact Hix]. intros i. unfold entry_of, entry_upto.
      destruct (Z.leb_spec 0 i), (Z.ltb_spec i (count s)); try done. cbn [andb].
      by rewrite Hd by lia.
    + pose proof (capacity_bound _ (io_capacity _ _ _ _ _ _ Hix)).
      apply Z.leb_le. assert (0 <= slot_capacity s / 8 <= slot_capacity s); [|lia].
      split; [apply Z.div_pos; lia|apply Z.div_le_upper_bound; lia].
  - by left.
Qed.

(** The descriptor [clear] hands to compaction or to the tombstone fill. *)
Definition emptied (s : MalMapStorage) : MalMapStorage := set_size 0 (set_hint 0 MAL_VALUE_EMPTY s).

Lemma clear_pinned_rows s :
  lanes_ok s ->
  let s' := clear_pinned (emptied s) in
  lanes_ok s' /\ mirror s' /\ count s' = count s /\
  payload_null (payload s') = payload_null (payload s) /\
  (forall i, 0 <= i < count s -> row_at s' i = None).
Proof using Type.
  intros [Hc Hcp [Hks Hvs] Hp] s'.
  assert (forall sl ct cap del t, lanes_ok t -> mirror t ->
            lanes_ok (set_index sl ct cap del t) /\ mirror (set_index sl ct cap del t)) as Hset.
  { intros sl ct cap del t [? ? ? ?] Hm. split; [by split|exact Hm]. }
  subst s'. unfold clear_pinned. cbn -[arr_get fill_rows].
  destruct (payload s) as [|ks vs|ps] eqn:Ep; cbn [payload_null].
  - assert (forall i, 0 <= i < count s ->
      arr_get (fill_rows (count s) (fun _ => MAL_VALUE_EMPTY) (small_values s)) i = MAL_VALUE_EMPTY) as Hv.
    { intros. apply (fill_rows_get (count s) (fun _ => MAL_VALUE_EMPTY)); lia. }
    assert (forall i, 0 <= i < count s ->
      arr_get (fill_rows (count s) (fun _ => MAL_VALUE_EMPTY) (small s)) i = MAL_VALUE_EMPTY) as Hk.
    { intros. apply (fill_rows_get (count s) (fun _ => MAL_VALUE_EMPTY)); lia. }
    set (t := set_small _ _ _).
    assert (lanes_ok t /\ mirror t) as [Hlt Hmt].
    { split.
      - split; cbn -[fill_rows]; rewrite ?fill_rows_len; try done. cbn. by rewrite Ep.
      - intros _ i Hi. cbn -[arr_get fill_rows] in *. by rewrite Hv, Hk. }
    destruct (_ =? _); cbn [negb]; (split; [by apply Hset|split; [by apply Hset|]]);
      (split; [done|split; [by cbn; rewrite Ep|]]); intros i Hi; unfold row_at, mal_map_value_at;
      cbn -[arr_get fill_rows]; rewrite Ep; cbn [payload_null]; rewrite Hv by done; done.
  - destruct Hp as (Hd & Hlk & Hlv & Hf). rewrite Hd. cbn -[arr_get fill_rows].
    assert (forall i, 0 <= i < count s ->
      arr_get (fill_rows (count s) (fun _ => MAL_VALUE_EMPTY) vs) i = MAL_VALUE_EMPTY) as Hv.
    { intros. apply (fill_rows_get (count s) (fun _ => MAL_VALUE_EMPTY)); lia. }
    set (t := set_payload _ _).
    assert (lanes_ok t /\ mirror t) as [Hlt Hmt].
    { split; [|done]. split; cbn -[fill_rows]; try done. by rewrite fill_rows_len. }
    destruct (_ =? _); cbn [negb]; (split; [by apply Hset|split; [by apply Hset|]]);
      (split; [done|split; [done|]]); intros i Hi; unfold row_at, mal_map_value_at;
      cbn -[arr_get fill_rows]; rewrite Hd; cbn -[arr_get fill_rows]; rewrite Hv by done; done.
  - destruct Hp as (Hd & Hlp). pose proof (proj2 (domain_is_false _ _) Hd) as Hdf.
    rewrite Hdf. cbn -[arr_get fill_rows].
    assert (forall i, 0 <= i < count s ->
      snd (arr_get (fill_rows (count s) (fun row => (fst row, MAL_VALUE_EMPTY)) ps) i) = MAL_VALUE_EMPTY) as Hv.
    { intros i Hi. by rewrite (fill_rows_get (count s) (fun row => (fst row, MAL_VALUE_EMPTY))) by lia. }
    set (t := set_payload _ _).
    assert (lanes_ok t /\ mirror t) as [Hlt Hmt].
    { split; [|done]. split; cbn -[fill_rows]; try done. by rewrite fill_rows_len. }
    destruct (_ =? _); cbn [negb]; (split; [by apply Hset|split; [by apply Hset|]]);
      (split; [done|split; [done|]]); intros i Hi; unfold row_at, mal_map_value_at;
      cbn -[arr_get fill_rows]; rewrite Hdf; cbn -[arr_get fill_rows]; rewrite Hv by done; done.
Qed.

Lemma clear_pinned_ok s :
  storage_ok s ->
  storage_ok (clear_pinned (emptied s)) /\ contents (clear_pinned (emptied s)) = [] /\
  pins (clear_pinned (emptied s)) = pins s /\ count (clear_pinned (emptied s)) = count s /\
  reserve_size (clear_pinned (emptied s)) = reserve_size s /\
  owner_released (clear_pinned (emptied s)) = owner_released s.
Proof using Type.
  intros [Hl Hm Hk Hsz Hix Hh Hpn Hrs].
  destruct (clear_pinned_rows s Hl) as (Hl' & Hm' & Hc' & Hp' & Hr').
  set (s' := clear_pinned (emptied s)) in *.
  assert (size s' = 0 /\ entry_hint s' = 0 /\ deleted_slots s' = 0 /\ slots s' = slots s /\
          slot_capacity s' = slot_capacity s /\ pins s' = pins s /\ reserve_size s' = reserve_size s /\
          owner_released s' = owner_released s /\
          controls s' = if slot_capacity s =? 0 then controls s
                        else mal_hash_index_reset (controls s) (slot_capacity s))
    as (E1 & E2 & E3 & E4 & E5 & E6 & E7 & E8 & E9).
  { subst s'. unfold clear_pinned. cbn -[fill_rows mal_hash_index_reset].
    destruct (payload_null (payload s)), (domain_is (domain s) MAL_MAP_KEYS_INT32);
      cbn -[fill_rows mal_hash_index_reset]; destruct (slot_capacity s =? 0);
      cbn -[fill_rows mal_hash_index_reset]; split_and!; done. }
  destruct (dead_storage_ok s') as [H1 H2]; try done; try congruence.
  - intros i Hi. apply Hr'. lia.
  - rewrite Hp', E4, E5, E9. unfold index_part in Hix. destruct (payload_null (payload s)).
    + destruct Hix as (-> & _ & -> & ->). done.
    + destruct Hix as [Hi _].
      pose proof (capacity_bound _ (io_capacity _ _ _ _ _ _ Hi)).
      destruct (Z.eqb_spec (slot_capacity s) 0); [lia|]. apply index_reset_ok; apply Hi.
Qed.

Lemma clear_compact_ok s :
  storage_ok s -> pins s = 0 ->
  exists s', mal_map_compact MASK_SHIFT raw (emptied s) = Ret s' /\ storage_ok s' /\
    contents s' = [] /\ pins s' = pins s /\ count s' = 0 /\ reserve_size s' = 0 /\
    owner_released s' = owner_released s.
Proof using Type.
  intros Hok Hpin. pose proof Hok as [Hl Hm Hk Hsz Hix Hh Hpn Hrs].
  unfold mal_map_compact. cbn -[compact_to_small]. rewrite Hpin. cbn -[compact_to_small].
  eexists. split; [done|].
  destruct (compact_to_small_ok (set_count 0 (set_hint 0 MAL_VALUE_EMPTY (emptied s))) 0)
    as (Hl3 & Hm3 & Hc3); try done; try lia.
  { apply lanes_set_count; [destruct Hl; by split|]. cbn. pose proof (la_count s Hl). lia. }
  destruct (dead_storage_ok (compact_to_small (set_count 0 (set_hint 0 MAL_VALUE_EMPTY (emptied s))) 0))
    as [H1 H2]; try done.
  { cbn. intros i Hi. lia. }
Qed.

(** [mal_map_object_clear] leaves no entry, keeps pins, and shades every key
    and value it drops when the collector is marking. *)
Lemma clear_ok w :
  storage_ok (storage_of w) ->
  let s := storage_of w in
  exists w', mal_map_object_clear MASK_SHIFT raw marking w = Ret w' /\
    storage_ok (storage_of w') /\ contents (storage_of w') = [] /\
    pins (storage_of w') = pins s /\ count (storage_of w') <= count s /\
    (pins s <> 0 -> count (storage_of w') = count s) /\
    reserve_size (storage_of w') <= reserve_size s /\
    owner_released (storage_of w') = owner_released s /\
    recorded marking w w' (row_words (contents s)) [].
Proof using Type.
  intros Hok s. unfold mal_map_object_clear, storage_of in *.
  destruct w as [[s0|] sb cd]; cbn [entries] in *; subst s.
  2: { eexists. split; [done|]. cbn [entries satb cards]. split_and!; try done; try lia.
       unfold recorded. cbn. rewrite !app_nil_r. done. }
  set (w1 := if marking then _ else _).
  assert (recorded marking (mkWorld (Some s0) sb cd) w1 (row_words (contents s0)) [] /\
          entries w1 = Some s0) as [Hrec Hent].
  { subst w1. destruct marking.
    - rewrite clear_shade_ok. cbn -[row_words live_from]. rewrite Z2Nat.id by apply (la_count s0 (st_lanes s0 Hok)).
      split; [|done]. unfold recorded. cbn -[row_words live_from]. rewrite app_nil_r. done.
    - split; [|done]. unfold recorded. cbn. by rewrite app_nil_r. }
  fold (emptied s0). change (pins (emptied s0)) with (pins s0). change (count (emptied s0)) with (count s0).
  pose proof (la_count s0 (st_lanes s0 Hok)) as Hc0. pose proof (st_reserve s0 Hok) as Hr0.
  destruct (Z.eqb_spec (pins s0) 0) as [Hp|Hp]; [destruct (Z.eqb_spec (count s0) 0) as [Hc|Hc]|];
    cbn [andb negb].
  - destruct (clear_pinned_ok s0 Hok) as (H1 & H2 & H3 & H4 & H5 & H6). cbn [mbind outcome_bind].
    eexists. split; [done|]. cbn [with_storage entries]. split_and!; try done; lia.
  - destruct (clear_compact_ok s0 Hok Hp) as (s' & -> & H1 & H2 & H3 & H4 & H5 & H6).
    cbn [mbind outcome_bind]. eexists. split; [done|]. cbn [with_storage entries].
    split_and!; try done; lia.
  - destruct (clear_pinned_ok s0 Hok) as (H1 & H2 & H3 & H4 & H5 & H6). cbn [mbind outcome_bind].
    eexists. split; [done|]. cbn [with_storage entries]. split_and!; try done; lia.
Qed.

(** ** Reservation *)

(** Both growth steps keep every row and the whole invariant. *)
Definition grown (s s' : MalMapStorage) : Prop :=
  storage_ok s' /\ contents s' = contents s /\ pins s' = pins s /\ count s' = count s /\
  owner_released s' = owner_released s /\ reserve_size s' = reserve_size s /\
  size s' = size s /\ payload_null (payload s') = false /\ kept s s'.

Lemma grow_rows_ok s cap :
  storage_ok s -> payload_null (payload s) = false -> capacity s < cap < 2 ^ 31 ->
  exists s', mal_map_replace_payload raw s (domain s) cap = Ret s' /\ grown s s'.
Proof using Type.
  intros Hok Hp Hcap. pose proof Hok as [Hl Hm Hk Hsz Hix Hh Hpn Hrs].
  pose proof (la_count s Hl). pose proof (la_capacity s Hl).
  destruct (replace_payload_ok raw s (domain s) cap) as (s' & -> & Hl' & F & C & D & P & R);
    try done; try lia.
  { intros k v Hin Ed. destruct Hk as [Hf _]. rewrite Forall_forall in Hf.
    destruct (Hf (k, v) Hin) as (Hck & _ & Hdk). apply int32_domain_key; [done|].
    rewrite Ed in Hdk. exact Hdk. }
  destruct F as (Fsl & Fct & Fsz & Fcnt & Fsc & Fds & Fpn & Frs & Feh & Fhk & Fow).
  assert (contents s' = contents s) as Hc by (by apply contents_ext).
  exists s'. split; [done|]. split; [|by split_and!]. split; try done.
  - intros Hp'. congruence.
  - by rewrite Hc, D.
  - by rewrite Hc, Fsz.
  - unfold index_part in *. rewrite Hp in Hix. rewrite P, Fsc, Fds, Fsl, Fct, Fsz.
    destruct Hix as [Hi Hfit]. split; [|done]. eapply index_ok_ext; [|exact Hi].
    intros i. symmetry. by apply entry_of_ext.
  - unfold hint_ok in *. rewrite Feh, Fhk, Fcnt. destruct Hh as [?|(Hr & v & Hv)]; [by left|].
    right. split; [done|]. exists v. by rewrite R by lia.
  - by rewrite Fpn.
  - by rewrite Frs.
Qed.

Lemma grow_index_ok s sl :
  storage_ok s -> payload_null (payload s) = false -> capacity_ok sl ->
  mal_hash_index_fits (size s) sl = true ->
  exists s', mal_map_rehash MASK_SHIFT raw s sl = Ret s' /\ grown s s'.
Proof using Hshift.
  intros Hok Hp Hsl Hfit. pose proof Hok as [Hl Hm Hk Hsz Hix Hh Hpn Hrs].
  destruct (rehash_ok MASK_SHIFT Hshift raw s sl) as (sl' & ct' & -> & Hnew); try done.
  { apply (la_count s Hl). }
  { by rewrite <- Hsz. }
  eexists. split; [done|]. split; [|by split_and!]. split; try done.
  - destruct Hl; by split.
  - unfold index_part. cbn -[mal_hash_index_fits]. rewrite Hp, Hsz, Z.add_0_r, <- Hsz.
    split; [|done]. rewrite Hsz. exact Hnew.
Qed.

Definition reserved (w w' : MapWorld) (n : Z) : Prop :=
  let s := storage_of w in
  storage_ok (storage_of w') /\ contents (storage_of w') = contents s /\
  pins (storage_of w') = pins s /\ count (storage_of w') = count s /\
  owner_released (storage_of w') = owner_released s /\
  reserve_size (storage_of w') <= Z.max (reserve_size s) n /\
  satb w' = satb w /\ cards w' = cards w /\ kept s (storage_of w').

Lemma reserve_rows_ok w n sl :
  storage_ok (storage_of w) -> has_room (storage_of w) -> size (storage_of w) < n < 2 ^ 31 ->
  payload_null (payload (storage_of w)) = false ->
  capacity_ok sl -> mal_hash_index_fits n sl = true ->
  let s := storage_of w in
  exists r, mal_map_capacity (u64 (count s + n - size s)) (capacity s) = Ret r /\
    match r with
    | None => 2 ^ 29 < n
    | Some cap =>
        cap < 2 ^ 31 /\
        exists s', (s ← (if capacity s <? cap then mal_map_replace_payload raw s (domain s) cap else Ret s);
                    if slot_capacity s <? sl then mal_map_rehash MASK_SHIFT raw s sl else Ret s)
                   = Ret s' /\ reserved w (with_storage s' w) n
    end.
Proof using Hshift.
  intros Hok Hroom Hn Hp Hsl Hfit s. pose proof (st_lanes s Hok) as Hl.
  pose proof (la_count s Hl). pose proof (la_capacity s Hl). pose proof (size_le_count s Hok).
  pose proof (st_reserve s Hok). unfold has_room, MAP_ROOM in Hroom. fold s in Hroom, Hn, Hp, Hok.
  unfold u64. rewrite wrap_small by (unfold in_u; lia).
  destruct (map_capacity_ok (count s + n - size s) (capacity s)) as (r & -> & Hcap); [lia|].
  exists r. split; [done|]. destruct r as [cap|]; [|lia]. split; [lia|].
  assert (exists s1, (if capacity s <? cap then mal_map_replace_payload raw s (domain s) cap else Ret s) = Ret s1
            /\ grown s s1) as (s1 & -> & G1 & G2 & G3 & G4 & G5 & G6 & G7 & G8 & G9).
  { destruct (Z.ltb_spec (capacity s) cap); [apply grow_rows_ok; done || lia|].
    exists s. by split_and!. }
  cbn [mbind outcome_bind].
  assert (exists s2, (if slot_capacity s1 <? sl then mal_map_rehash MASK_SHIFT raw s1 sl else Ret s1) = Ret s2
            /\ grown s1 s2) as (s2 & -> & K1 & K2 & K3 & K4 & K5 & K6 & K7 & K8 & K9).
  { destruct (Z.ltb_spec (slot_capacity s1) sl); [|by exists s1; split_and!].
    apply grow_index_ok; try done. apply Z.leb_le. apply Z.leb_le in Hfit. lia. }
  exists s2. split; [done|]. unfold reserved, storage_of. cbn [with_storage entries].
  fold (storage_of w). fold s. split_and!; try done; try congruence; [lia|].
  intros i Hi. rewrite K9 by lia. by apply G9.
Qed.

(** [mal_map_object_reserve] keeps the entries, and refuses only a size the
    row or index capacity cannot reach. *)
Lemma reserve_ok w n :
  storage_ok (storage_of w) -> has_room (storage_of w) -> 0 <= n < 2 ^ 64 ->
  exists b w', mal_map_object_reserve MASK_SHIFT raw w n = Ret (b, w') /\
    reserved w w' n /\ (n <= 2 ^ 29 -> b = true).
Proof using Hshift.
  intros Hok Hroom Hn. unfold mal_map_object_reserve.
  set (s := storage_of w) in *.
  destruct (map_capacity_ok n 4) as (r & -> & Hcap); [lia|]. cbn [mbind outcome_bind].
  assert (forall (b : bool) w', w' = w \/ w' = with_storage s w -> (n <= 2 ^ 29 -> b = true) ->
    exists b' w'', Ret (b, w') = Ret (b', w'') /\ reserved w w'' n /\ (n <= 2 ^ 29 -> b' = true)) as Hsame.
  { intros b w' [->| ->] Hb; (eexists b, _; split; [done|]); (split; [|done]);
      split_and!; try done; apply Z.le_max_l. }
  destruct r as [cap|]; [|apply Hsame; [by left|intros; lia]].
  destruct (map_slot_capacity_ok n) as (rs & -> & Hsc). cbn [mbind outcome_bind].
  destruct rs as [sl|]; [|apply Hsame; [by left|intros; lia]].
  destruct (Z.leb_spec n (mal_map_object_size w)) as [|Hlt]; [apply Hsame; [by left|done]|].
  assert (mal_map_object_storage w = (s, with_storage s w) /\ mal_map_object_size w = size s) as [-> Hsz].
  { subst s. unfold mal_map_object_storage, storage_of, mal_map_object_size.
    destruct w as [[?|] ? ?]; done. }
  assert (forall c d, c < 2 ^ 31 -> (SIZE_MAX / mal_map_row_width d <? c) = false) as Hwidth.
  { intros c d Hc. apply Z.ltb_ge. transitivity (2 ^ 59); [lia|].
    unfold mal_map_row_width. destruct (domain_is d MAL_MAP_KEYS_INT32); by vm_compute. }
  rewrite Hwidth by lia. destruct (payload_null (payload s)) eqn:Hp.
  - eexists true, _. split; [done|]. split; [|done].
    unfold u32. rewrite wrap_small by (unfold in_u; lia).
    destruct (Z.ltb_spec (reserve_size s) n); [|split_and!; done || apply Z.le_max_l].
    split_and!; try done; [|apply Z.le_max_r]. destruct Hok as [Hl Hm Hk Hsz' Hix Hh Hpn Hrs].
    destruct Hl. split; try done. cbn. lia.
  - destruct (reserve_rows_ok w n sl) as (r & Hr & Hres); try done; try lia.
    { fold s. lia. }
    { apply Hsc. }
    { apply Hsc. }
    fold s in Hr. rewrite Hr. cbn [mbind outcome_bind]. destruct r as [c|].
    2: { apply Hsame; [by right|intros; lia]. }
    destruct Hres as (Hc & s' & Hs' & Hres'). rewrite Hwidth by done. fold s in Hs'.
    destruct (if capacity s <? c then _ else _) as [s1| |]; cbn [mbind outcome_bind] in *; try done.
    rewrite Hs'. cbn [mbind outcome_bind]. eexists true, _. split; [done|].
    split; [|done]. exact Hres'.
Qed.
End clear.
