(* ===== verification/MapFind.v ===== *)
(** Hinted lookups, hinted and borrowed stores, and cursors of a Map store
    (MapObject): every path names the row a plain search names, and a cursor
    walks the live rows in insertion order. *)

From S2P Require Import Prelude F64 Value HeapString Key HashIndex MapObject MapRows MapStore MapInsert MapUpdate MapClear.

Lemma pair_words (k v k' v' : Z) (l : list Z) x :
  v ∈ l -> (k' <> k -> k ∈ l) -> x ∈ row_words [(k, v)] -> x ∈ row_words [(k', v')] \/ x ∈ l.
Proof.
  cbn. rewrite !elem_of_cons. intros Hv Hk [->|[->|Hx]]; [|by right|by apply not_elem_of_nil in Hx].
  destruct (decide (k' = k)) as [->|Hne]; [left; by left|right; by apply Hk].
Qed.

Section find.
Context `{KH : KeyHeap} `{KL : !KeyHeapLaws KH} `{SM : StringMeta}.
Variable MASK_SHIFT : Z.
Hypothesis Hshift : 0 <= MASK_SHIFT.
Variable raw : Z -> Z.
Variable marking : bool.

(** What a hinted lookup may change: the hint. *)
Definition same_rows (s s' : MalMapStorage) : Prop :=
  count s' = count s /\ (forall i, row_at s' i = row_at s i) /\
  pins s' = pins s /\ owner_released s' = owner_released s /\
  reserve_size s' = reserve_size s /\ size s' = size s.

Lemma same_rows_refl s : same_rows s s.
Proof using Type. by split_and!. Qed.

Lemma same_rows_contents s s' : same_rows s s' -> contents s' = contents s.
Proof using Type. intros (Hc & Hr & _). by apply contents_ext. Qed.

Lemma same_rows_holds s s' key e : same_rows s s' -> entry_result s key e -> entry_result s' key e.
Proof using Type.
  intros (Hc & Hr & _) [[-> Ha]|[He (Hi & k & v & Hrow & Ek)]].
  - left. split; [done|]. intros i k v Hi. rewrite Hr. rewrite Hc in Hi. by apply Ha.
  - right. rewrite Hc. split; [done|]. split; [by rewrite Hc|]. exists k, v. by rewrite Hr.
Qed.

Lemma remember_same_rows e s : same_rows s (mal_map_storage_remember_entry e s).
Proof using Type.
  unfold mal_map_storage_remember_entry. destruct (_ =? _); by split_and!.
Qed.

(** On int32 and identity stores the leaf lookup searches as the general one. *)
Lemma find_bits_search s key :
  canonical key -> mal_map_storage_finds_bits (Some s) = true ->
  match mal_map_query_in_domain s key with
  | None => Ret UINT32_MAX
  | Some int_key =>
      if domain_is (domain s) MAL_MAP_KEYS_INT32
      then mal_map_probe_in MASK_SHIFT s MAL_MAP_KEYS_INT32 key int_key (mal_key_hash_mix key) false
      else mal_map_probe_in MASK_SHIFT s MAL_MAP_KEYS_IDENTITY key 0 (mal_key_hash_mix key) false
  end = mal_map_lookup_slot MASK_SHIFT s key.
Proof using Type.
  intros Hc Hb. unfold mal_map_lookup_slot. pose proof (query_in_domain_spec s key Hc) as Hq.
  destruct (mal_map_query_in_domain s key) as [n|]; [|done]. destruct Hq as [Hd _].
  cbn in Hb. apply andb_true_iff in Hb as [_ Hb].
  assert (mal_key_hash_value key = mal_key_hash_mix key) as ->.
  { pose proof (proj1 Hc) as Hr. unfold mal_key_hash_value.
    assert (kind_of key <> KString /\ kind_of key <> KBigInt) as [Hs Hbi].
    { apply orb_true_iff in Hb as [Hb|Hb]; apply domain_is_true in Hb; rewrite Hb in Hd; simpl in Hd.
      - pose proof (key_domain_class key Hr) as Hcl. rewrite Hd in Hcl. rewrite Hcl. done.
      - destruct Hd as [-> | ->]; done. }
    destruct (mal_value_is_string key) eqn:E1; [by apply kind_string in E1|].
    destruct (mal_value_is_bigint key) eqn:E2; [by apply kind_bigint in E2|]. done. }
  unfold mal_map_probe. destruct (domain s); done.
Qed.

Lemma find_bits_ok s key :
  storage_ok s -> canonical key -> mal_map_storage_finds_bits (Some s) = true ->
  exists e s', mal_map_storage_find_bits MASK_SHIFT s key = Ret (e, s') /\
    storage_ok s' /\ same_rows s s' /\ entry_result s key e.
Proof using Hshift KL.
  intros Hok Hc Hb. unfold mal_map_storage_find_bits.
  destruct (negb (entry_hint s =? 0) && (hint_key s =? key)) eqn:Eh.
  { apply andb_true_iff in Eh as [Hne%negb_true_iff%Z.eqb_neq Ek%Z.eqb_eq].
    destruct (hint_row s _ Hok eq_refl Hne) as (Hr & v & Hv).
    exists (entry_hint s), s. split; [done|]. split; [done|]. split; [apply same_rows_refl|].
    right. split; [done|]. split; [lia|]. exists (hint_key s), v. split; [done|].
    rewrite Ek. apply key_equals_refl. }
  pose proof (find_bits_search s key Hc Hb) as Hs.
  assert (payload_null (payload s) = false) as Hp
    by (cbn in Hb; apply andb_true_iff in Hb as [Hb _]; by apply negb_true_iff).
  destruct (index_room s Hok Hp) as [Hi Hroom].
  pose proof (capacity_bound _ (io_capacity _ _ _ _ _ _ Hi)) as Hcb.
  destruct (lookup_slot_ok MASK_SHIFT Hshift s key) as (r & Hr & Hres); try done; try apply Hok.
  assert (absent s key -> exists e s', Ret (0, s) = Ret (e, s') /\
    storage_ok s' /\ same_rows s s' /\ entry_result s key e) as Hmiss.
  { intros Ha. exists 0, s. split; [done|]. split; [done|]. split; [apply same_rows_refl|by left]. }
  rewrite Hr in Hs. destruct (mal_map_query_in_domain s key) as [m|].
  2: { apply Hmiss. injection Hs as <-. destruct Hres as [(Hrr & _)|(Ha & _)]; [|done].
       unfold UINT32_MAX in *. lia. }
  rewrite Hs. cbn [mbind outcome_bind].
  destruct Hres as [(Hrr & _ & Hho)|(Ha & ->)]; [|by apply Hmiss].
  destruct (Z.eqb_spec r UINT32_MAX) as [->|]; [unfold UINT32_MAX in *; lia|].
  destruct (bucket_entry s r (st_lanes s Hok) (proj1 Hho)) as [_ ->].
  pose proof (proj1 Hho) as Hr1.
  do 2 eexists. split; [done|]. split; [|split; [apply remember_same_rows|]].
  - apply remember_entry_ok; [done|lia|]. rewrite Z.add_simpl_r.
    destruct Hho as (_ & k & v & Hv & _). by rewrite Hv.
  - right. split; [lia|]. by rewrite Z.add_simpl_r.
Qed.

(** [mal_map_object_find_hinted] names the entry of an equal key, whatever the
    hint holds. *)
Lemma find_hinted_ok w key :
  storage_ok (storage_of w) -> canonical key ->
  let s := storage_of w in
  exists e w', mal_map_object_find_hinted MASK_SHIFT w key = Ret (e, w') /\
    storage_ok (storage_of w') /\ same_rows s (storage_of w') /\ entry_result s key e /\
    satb w' = satb w /\ cards w' = cards w /\ (entries w = None -> w' = w).
Proof using Hshift KL.
  intros Hok Hc s. unfold mal_map_object_find_hinted, storage_of in *.
  destruct w as [[s0|] sb cd]; cbn [entries] in *; subst s.
  2: { exists 0, (mkWorld None sb cd). split_and!; try done. left. split; [done|].
       intros i k v Hi. cbn in Hi. lia. }
  destruct (mal_map_storage_finds_bits (Some s0)) eqn:Hb; cbn [negb].
  - destruct (find_bits_ok s0 key Hok Hc Hb) as (e & s' & -> & Hok' & Hs & He).
    cbn [mbind outcome_bind]. do 2 eexists. split; [done|]. cbn. by split_and!.
  - unfold mal_map_storage_find_hinted. cbn [entries].
    destruct (entry_hint_ok s0 key Hok Hc) as [->|[Hr Hho]].
    + cbn [negb Z.eqb]. destruct (storage_find_ok MASK_SHIFT Hshift s0 key Hok Hc) as (e & -> & He).
      cbn [mbind outcome_bind]. do 2 eexists. split; [done|].
      destruct He as [[-> Ha]|[Hr (Hi & k & v & Hrow & Ek)]].
      * cbn [negb Z.eqb entries]. split_and!; try done. by left.
      * destruct (Z.eqb_spec e 0); [lia|]. cbn.
        split; [apply remember_entry_ok; [done|done|by rewrite Hrow]|].
        split; [apply remember_same_rows|]. split_and!; try done. right. split; [done|]. by split; eauto.
    + destruct (Z.eqb_spec (mal_map_storage_entry_hint (Some s0) key) 0); [lia|]. cbn [negb].
      do 2 eexists. split; [done|]. cbn [entries]. split_and!; try done. by right.
Qed.

(** ** Stores *)

Lemma split_unique l1 : forall k v l2 l3 k' v' l4 q,
  distinct (l1 ++ (k, v) :: l2) -> l1 ++ (k, v) :: l2 = l3 ++ (k', v') :: l4 ->
  mal_key_value_equals k q = true -> mal_key_value_equals k' q = true ->
  l1 = l3 /\ (k, v) = (k', v') /\ l2 = l4.
Proof using KL.
  assert (forall k l k' v' l' q,
    Forall (fun r : Z * Z => mal_key_value_equals k r.1 = false) (l ++ (k', v') :: l') ->
    mal_key_value_equals k q = true -> mal_key_value_equals k' q = true -> False) as Hno.
  { intros k l k' v' l' q Hf E E'. apply Forall_app in Hf as [_ [Hf _]%Forall_cons].
    simpl in Hf. rewrite (key_equals_trans k q k') in Hf; [done|done|by rewrite key_equals_sym]. }
  induction l1 as [|[a b] l1 IH]; intros k v l2 [|[a' b'] l3] k' v' l4 q Hd E Ek Ek'; simpl in *.
  - injection E. intros -> -> ->. done.
  - destruct Hd as [Hf _]. injection E. intros -> -> ->. exfalso. by eapply (Hno a').
  - destruct Hd as [Hf _]. injection E. intros _ -> ->. exfalso.
    eapply (Hno k'); [exact Hf|exact Ek'|exact Ek].
  - destruct Hd as [_ Hd]. injection E. intros E' -> ->.
    destruct (IH _ _ _ _ _ _ _ q Hd E' Ek Ek') as (-> & ? & ?). done.
Qed.

(** The list after a value was stored under a key: in the place of the equal
    key, or at the end. *)
Definition stored (c : list (Z * Z)) (key value : Z) (c' : list (Z * Z)) : Prop :=
  exists l1 l2 k', mal_key_value_equals k' key = true /\ c' = l1 ++ (k', value) :: l2 /\
    ((exists k v, mal_key_value_equals k key = true /\ c = l1 ++ (k, v) :: l2) \/
     (l2 = [] /\ c = l1 /\ Forall (fun r => mal_key_value_equals r.1 key = false) c)).

Lemma absent_contents s key :
  absent s key <-> Forall (fun r => mal_key_value_equals r.1 key = false) (contents s).
Proof using Type.
  rewrite Forall_forall, contents_live. split.
  - intros Ha [k v] Hin. apply live_from_elem in Hin as (j & Hj & Hr). eapply Ha; [|exact Hr]. lia.
  - intros Hf i k v Hi Hr. apply (Hf (k, v)). apply live_from_elem. exists i. split; [lia|done].
Qed.

Lemma holds_split s key i :
  holds s key i -> exists k v, row_at s i = Some (k, v) /\ mal_key_value_equals k key = true /\
    contents s = before s i ++ (k, v) :: after s i.
Proof using Type.
  intros (Hi & k & v & Hr & Ek). exists k, v. split; [done|]. split; [done|].
  rewrite (contents_split s i Hi). by rewrite Hr.
Qed.

(** The mutator's obligations to the collector: what left the map was shaded
    while marking, what entered it was carded, and no record was lost. *)
Definition words (w : MapWorld) : list Z := row_words (contents (storage_of w)).
Record barriers_ok (w w' : MapWorld) : Prop := {
  ba_satb : satb w `prefix_of` satb w';
  ba_cards : cards w `prefix_of` cards w';
  ba_dropped : marking = true -> forall x, x ∈ words w -> x ∈ words w' \/ x ∈ satb w';
  ba_entered : forall x, x ∈ words w' -> x ∈ words w \/ x ∈ cards w';
}.

(** Open cursors survive: no row moves, and a row keeps its key or dies. *)
Definition cursor_stable (s s' : MalMapStorage) : Prop :=
  count s <= count s' /\
  forall i, 0 <= i < count s ->
    match row_at s i with
    | None => row_at s' i = None
    | Some (k, _) =>
        match row_at s' i with None => True | Some (k', _) => mal_key_value_equals k' k = true end
    end.

(** What every operation of a map object keeps. *)
Record stepped (w w' : MapWorld) : Prop := {
  sp_ok : storage_ok (storage_of w');
  sp_barriers : barriers_ok w w';
  sp_count : count (storage_of w') <= count (storage_of w) + 1;
  sp_pins : pins (storage_of w') = pins (storage_of w);
  sp_owner : owner_released (storage_of w') = owner_released (storage_of w);
  sp_reserve : reserve_size (storage_of w') <= reserve_size (storage_of w);
  sp_cursor : pins (storage_of w) <> 0 -> cursor_stable (storage_of w) (storage_of w');
}.

Lemma row_words_app l l' : row_words (l ++ l') = row_words l ++ row_words l'.
Proof using Type. apply flat_map_app. Qed.

Lemma elem_row_words x l : x ∈ row_words l <-> exists r, r ∈ l /\ (x = r.1 \/ x = r.2).
Proof using Type.
  rewrite list_elem_of_In. unfold row_words. rewrite in_flat_map.
  split; intros (r & Hin & Hx); exists r; rewrite list_elem_of_In in *; (split; [done|]).
  - destruct Hx as [<-|[<-|[]]]; [by left|by right].
  - destruct Hx as [-> | ->]; [by left|right; by left].
Qed.

Lemma kept_cursor s s' : kept s s' -> count s <= count s' -> cursor_stable s s'.
Proof using KL.
  intros Hk Hc. split; [done|]. intros i Hi. rewrite Hk by done.
  destruct (row_at s i) as [[k v]|]; [apply key_equals_refl|done].
Qed.

Lemma cursor_trans s s' s'' : cursor_stable s s' -> cursor_stable s' s'' -> cursor_stable s s''.
Proof using KL.
  intros [Hc Hr] [Hc' Hr']. split; [lia|]. intros i Hi.
  specialize (Hr i Hi). specialize (Hr' i ltac:(lia)).
  destruct (row_at s i) as [[k v]|].
  - destruct (row_at s' i) as [[k' v']|].
    + destruct (row_at s'' i) as [[k'' v'']|]; [|done]. by eapply key_equals_trans.
    + by rewrite Hr'.
  - by rewrite Hr in Hr'.
Qed.

Lemma changed_cursor s s' i r :
  row_changed s s' i r ->
  (forall k v k' v', row_at s i = Some (k, v) -> r = Some (k', v') -> mal_key_value_equals k' k = true) ->
  (row_at s i = None -> r = None) -> cursor_stable s s'.
Proof using KL.
  intros [Hc Hr] Hk Hn. split; [lia|]. intros j Hj. rewrite Hr by lia.
  destruct (Z.eqb_spec j i) as [->|].
  - destruct (row_at s i) as [[k v]|] eqn:E; [|by apply Hn].
    destruct r as [[k' v']|]; [|done]. by eapply Hk.
  - destruct (row_at s j) as [[k v]|]; [apply key_equals_refl|done].
Qed.

(** A step that changes neither the entries nor the records. *)
Record quiet (w w' : MapWorld) : Prop := {
  qu_ok : storage_ok (storage_of w');
  qu_contents : contents (storage_of w') = contents (storage_of w);
  qu_records : satb w' = satb w /\ cards w' = cards w;
  qu_count : count (storage_of w') <= count (storage_of w);
  qu_pins : pins (storage_of w') = pins (storage_of w);
  qu_owner : owner_released (storage_of w') = owner_released (storage_of w);
  qu_reserve : reserve_size (storage_of w') <= reserve_size (storage_of w);
  qu_cursor : pins (storage_of w) <> 0 -> cursor_stable (storage_of w) (storage_of w');
}.

Lemma quiet_stepped w w1 w2 : quiet w w1 -> stepped w1 w2 -> stepped w w2.
Proof using KL.
  intros [Q1 Q2 [Q3 Q4] Q5 Q6 Q7 Q8 Q9] [S1 [B1 B2 B3 B4] S3 S4 S5 S6 S7].
  split; try done; try lia; try congruence.
  - unfold words in *. rewrite Q2 in B3, B4. split; rewrite <- ?Q3, <- ?Q4; done.
  - intros Hp. eapply cursor_trans; [by apply Q9|]. apply S7. congruence.
Qed.

Lemma quiet_refl w : storage_ok (storage_of w) -> quiet w w.
Proof using KL. intros. split; try done. intros _. by apply kept_cursor. Qed.

Lemma quiet_step w w' : quiet w w' -> stepped w w'.
Proof using KL.
  intros [Q1 Q2 [Q3 Q4] Q5 Q6 Q7 Q8 Q9]. split; try done; try lia.
  split; unfold words; rewrite ?Q2, ?Q3, ?Q4; try done; intros; by left.
Qed.

Lemma quiet_same w w' :
  storage_ok (storage_of w') -> same_rows (storage_of w) (storage_of w') ->
  satb w' = satb w -> cards w' = cards w -> quiet w w'.
Proof using KL.
  intros Hok Hs Hsb Hcd. pose proof (same_rows_contents _ _ Hs) as Hc.
  destruct Hs as (Hcnt & Hrow & Hp & Ho & Hr & _). split; try done; try lia.
  intros _. apply kept_cursor; [|lia]. intros i _. apply Hrow.
Qed.

Lemma recorded_trans w w1 w2 dr st dr' st' :
  recorded marking w w1 dr st -> recorded marking w1 w2 dr' st' ->
  recorded marking w w2 (dr ++ dr') (st ++ st').
Proof using Type.
  intros (A & B & C) (A' & B' & C'). split_and!.
  - intros Hm. by rewrite A', A, app_assoc by done.
  - intros Hm. by rewrite B', B by done.
  - by rewrite C', C, app_assoc.
Qed.

Lemma barriers_intro w w' l1 d d' l2 dr st :
  contents (storage_of w) = l1 ++ d ++ l2 -> contents (storage_of w') = l1 ++ d' ++ l2 ->
  recorded marking w w' dr st ->
  (forall x, x ∈ row_words d -> x ∈ row_words d' \/ x ∈ dr) ->
  (forall x, x ∈ row_words d' -> x ∈ row_words d \/ x ∈ st) ->
  barriers_ok w w'.
Proof using Type.
  intros Hc Hc' (A & B & C) Hdr Hst. split; unfold words; rewrite ?Hc, ?Hc', ?row_words_app.
  - destruct marking; [rewrite A by done; by eexists|by rewrite B].
  - rewrite C. by eexists.
  - intros Hm x. rewrite A by done. rewrite !elem_of_app. intros [Hx|[Hx|Hx]].
    + left. by left.
    + destruct (Hdr x Hx); [left; right; by left|right; by right].
    + left. right. by right.
  - intros x. rewrite C. rewrite !elem_of_app. intros [Hx|[Hx|Hx]].
    + left. by left.
    + destruct (Hst x Hx); [left; right; by left|right; by right].
    + left. right. by right.
Qed.

(** The write of a value at a found or fresh entry. *)
Record wrote (w1 : MapWorld) (e key value : Z) (k v k' : Z) (dr st : list Z) (w2 : MapWorld)
  : Prop := {
  wr_row : row_at (storage_of w1) (e - 1) = Some (k, v);
  wr_ok : storage_ok (storage_of w2);
  wr_key : mal_key_value_equals k' key = true /\ (k' = k \/ k' = key);
  wr_frame : same_descriptor (storage_of w1) (storage_of w2);
  wr_change : row_changed (storage_of w1) (storage_of w2) (e - 1) (Some (k', value));
  wr_record : recorded marking w1 w2 dr st /\ value ∈ st /\ (k' <> k -> k ∈ dr /\ k' ∈ st);
}.

Lemma wrote_contents w1 e key value k v k' dr st w2 :
  1 <= e <= count (storage_of w1) -> wrote w1 e key value k v k' dr st w2 ->
  contents (storage_of w1) = before (storage_of w1) (e - 1) ++ (k, v) :: after (storage_of w1) (e - 1) /\
  contents (storage_of w2) = before (storage_of w1) (e - 1) ++ (k', value) :: after (storage_of w1) (e - 1).
Proof using Type.
  intros He [Hr _ _ _ Hch _]. split.
  - rewrite (contents_split (storage_of w1) (e - 1)) by lia. by rewrite Hr.
  - assert (0 <= e - 1 < count (storage_of w1)) as Hi by lia.
    exact (row_changed_contents _ _ _ _ Hi Hch).
Qed.

(** A value written at an entry of an equal key. *)
Lemma store_found w e key value k v k' dr st w2 :
  storage_ok (storage_of w) -> 1 <= e <= count (storage_of w) ->
  mal_key_value_equals k key = true -> v ∈ dr -> wrote w e key value k v k' dr st w2 ->
  stepped w w2 /\ stored (contents (storage_of w)) key value (contents (storage_of w2)).
Proof using KL.
  intros Hok He Ek Hv Hw. destruct (wrote_contents w e key value k v k' dr st w2 He Hw) as [Hc1 Hc2].
  destruct Hw as [Hr Hok2 [Ek' Hkk] (_ & _ & _ & _ & _ & Dp & Dr & Do & _) Hch (Hrec & Hval & Hkd)].
  assert (mal_key_value_equals k' k = true) as Ekk.
  { eapply key_equals_trans; [exact Ek'|]. by rewrite key_equals_sym. }
  split.
  - split; try done; try lia.
    + eapply (barriers_intro w w2 (before (storage_of w) (e - 1)) [(k, v)] [(k', value)]
        (after (storage_of w) (e - 1))); [exact Hc1|exact Hc2|exact Hrec| |].
      * intros x. apply pair_words; [done|]. intros Hne. by apply Hkd.
      * intros x. apply pair_words; [done|]. intros Hne. apply Hkd. congruence.
    + destruct Hch. lia.
    + intros _. eapply changed_cursor; [exact Hch| |congruence].
      intros k0 v0 k1 v1 E0 [= <- <-]. rewrite Hr in E0. by injection E0 as <- <-.
  - exists (before (storage_of w) (e - 1)), (after (storage_of w) (e - 1)), k'.
    split; [done|]. split; [done|]. left. by exists k, v.
Qed.

(** A value written at the entry an insertion appended. *)
Lemma store_fresh w w1 e key value k' dr st w2 :
  storage_ok (storage_of w) -> storage_ok (storage_of w1) -> 1 <= e <= count (storage_of w1) ->
  absent (storage_of w) key ->
  contents (storage_of w1) = contents (storage_of w) ++ [(key, MAL_VALUE_UNDEFINED)] ->
  count (storage_of w1) <= count (storage_of w) + 1 ->
  pins (storage_of w1) = pins (storage_of w) ->
  owner_released (storage_of w1) = owner_released (storage_of w) ->
  reserve_size (storage_of w1) <= reserve_size (storage_of w) ->
  (pins (storage_of w) <> 0 -> cursor_stable (storage_of w) (storage_of w1)) ->
  recorded marking w w1 [] [key] -> wrote w1 e key value key MAL_VALUE_UNDEFINED k' dr st w2 ->
  stepped w w2 /\ stored (contents (storage_of w)) key value (contents (storage_of w2)).
Proof using KL.
  intros Hok Hok1 He Hab Hc1 Hcnt Hp Ho Hr Hcur Hrec1 Hw.
  destruct (wrote_contents w1 e key value _ _ k' dr st w2 He Hw) as [Hs1 Hs2].
  destruct Hw as [Hrow Hok2 [Ek' Hkk] (_ & _ & _ & _ & _ & Dp & Dr & Do & _) Hch (Hrec & Hval & _)].
  assert (k' = key) as -> by (by destruct Hkk).
  destruct (split_unique (before (storage_of w1) (e - 1)) key MAL_VALUE_UNDEFINED
    (after (storage_of w1) (e - 1)) (contents (storage_of w)) key MAL_VALUE_UNDEFINED [] key)
    as (Hb & _ & Ha); try apply key_equals_refl.
  { rewrite <- Hs1. apply (st_keys _ Hok1). }
  { by rewrite <- Hs1, Hc1. }
  rewrite Hb, Ha in Hs2.
  split.
  - split; try done; try lia; try congruence.
    + eapply (barriers_intro w w2 (contents (storage_of w)) [] [(key, value)] []);
        [by rewrite app_nil_r|by rewrite Hs2|exact (recorded_trans _ _ _ _ _ _ _ Hrec1 Hrec)|intros x Hx; by apply not_elem_of_nil in Hx|].
      intros x Hx. right. cbn in Hx |- *. rewrite !elem_of_cons in *.
      destruct Hx as [->|[->|Hx]]; [by left|by right|by apply not_elem_of_nil in Hx].
    + destruct Hch. lia.
    + intros Hps. eapply cursor_trans; [by apply Hcur|].
      eapply changed_cursor; [exact Hch| |congruence].
      intros k0 v0 k1 v1 E0 [= <- <-]. rewrite Hrow in E0. injection E0 as <- <-. apply key_equals_refl.
  - exists (contents (storage_of w)), [], key. split; [done|]. split; [done|]. right.
    split; [done|]. split; [done|]. by apply absent_contents.
Qed.

Lemma update_wrote w s e key value :
  entries w = Some s -> storage_ok s -> 1 <= e <= count s -> holds s key (e - 1) ->
  canonical key -> key <> MAL_VALUE_EMPTY -> value <> MAL_VALUE_EMPTY ->
  exists k v k' dr st, v ∈ dr /\
    wrote w e key value k v k' dr st (mal_map_object_update_entry marking w s e key value).
Proof using KL.
  intros Hs Hok He Hho Hc Hne Hv.
  destruct (update_entry_ok marking w s e key value Hok He Hho Hc Hne Hv)
    as (s' & k & v & k' & Hr & Hent & Hok' & _ & Ek & Hkk & Hd & Hch & Hrec).
  assert (storage_of w = s) as Es by (unfold storage_of; by rewrite Hs).
  assert (storage_of (mal_map_object_update_entry marking w s e key value) = s') as Es'
    by (unfold storage_of; by rewrite Hent).
  exists k, v, k'. do 2 eexists. split; [|split; [| | | | |split; [exact Hrec|]]];
    rewrite ?Es', ?Es; try done.
  - left.
  - split; [apply elem_of_app; right; left|]. intros Hkn.
    destruct (Z.eqb_spec k' k); [done|]. split; [right; left|left].
Qed.

Lemma fresh_wrote w s e key value :
  entries w = Some s -> storage_ok s -> 1 <= e <= count s ->
  row_at s (e - 1) = Some (key, MAL_VALUE_UNDEFINED) -> value <> MAL_VALUE_EMPTY ->
  wrote w e key value key MAL_VALUE_UNDEFINED key [] [value]
    (mal_gc_card value (with_storage (set_value_at (e - 1) value s) w)).
Proof using KL.
  intros Hs Hok He Hr Hv.
  destruct (set_value_ok s (e - 1) key MAL_VALUE_UNDEFINED value) as (H1 & _ & H3 & H4 & _); try done; [lia|].
  assert (storage_of w = s) as Es by (unfold storage_of; by rewrite Hs).
  split; rewrite ?Es; try done.
  - split; [apply key_equals_refl|by left].
  - split; [|split; [left|done]]. unfold recorded. cbn. by rewrite app_nil_r.
Qed.

(** A write after an insertion or a hit of the search. *)
Lemma upsert_wrote w key value e (ins : bool) s1 k v k' dr st w2 :
  let s := storage_of w in
  let w1 := mkWorld (Some s1) (satb w) (cards w ++ (if ins then [key] else [])) in
  storage_ok s -> storage_ok s1 -> 1 <= e <= count s1 -> count s1 <= count s + Z.b2z ins ->
  pins s1 = pins s -> owner_released s1 = owner_released s -> reserve_size s1 <= reserve_size s ->
  (pins s <> 0 -> count s1 = count s + Z.b2z ins /\ kept s s1) ->
  (if ins
   then absent s key /\ contents s1 = contents s ++ [(key, MAL_VALUE_UNDEFINED)] /\
        row_at s1 (e - 1) = Some (key, MAL_VALUE_UNDEFINED)
   else contents s1 = contents s /\ holds s1 key (e - 1)) ->
  (ins = false -> v ∈ dr) -> wrote w1 e key value k v k' dr st w2 ->
  stepped w w2 /\ stored (contents s) key value (contents (storage_of w2)).
Proof using KL.
  intros s w1 Hok Hok1 He Hcnt Hp Ho Hr Hkeep Hres Hin Hw.
  assert (pins s <> 0 -> cursor_stable s s1) as Hcur.
  { intros Hps. destruct (Hkeep Hps) as [E Hk]. apply kept_cursor; [done|]. destruct ins; simpl in E; lia. }
  pose proof (wr_row _ _ _ _ _ _ _ _ _ _ Hw) as Hrow. change (storage_of w1) with s1 in Hrow.
  destruct ins; cbn [Z.b2z] in Hcnt.
  - destruct Hres as (Hab & Hc1 & Hrow'). rewrite Hrow' in Hrow. injection Hrow as <- <-.
    eapply (store_fresh w w1); try done.
    unfold recorded, w1. cbn. rewrite app_nil_r. done.
  - destruct Hres as [Hc1 (_ & k0 & v0 & Hr0 & Ek)]. rewrite Hr0 in Hrow. injection Hrow as -> ->.
    destruct (store_found w1 e key value k v k' dr st w2 Hok1 He Ek (Hin eq_refl) Hw) as [Hst Hsto].
    change (storage_of w1) with s1 in Hsto. rewrite Hc1 in Hsto.
    split; [|done]. eapply quiet_stepped; [|exact Hst].
    split; try done; [by cbn; rewrite app_nil_r|cbn; fold s; lia].
Qed.

(** [mal_map_object_set_canonical] stores in place or at the end. *)
Lemma set_canonical_ok w key value :
  storage_ok (storage_of w) -> has_room (storage_of w) ->
  canonical key -> key <> MAL_VALUE_EMPTY -> value <> MAL_VALUE_EMPTY ->
  exists w', mal_map_object_set_canonical MASK_SHIFT raw marking w key value = Ret w' /\
    stepped w w' /\ stored (contents (storage_of w)) key value (contents (storage_of w')).
Proof using Hshift KL.
  intros Hok Hroom Hc Hne Hv. unfold mal_map_object_set_canonical.
  destruct (upsert_ok MASK_SHIFT Hshift raw w key Hok Hroom Hc Hne)
    as (e & ins & s1 & -> & Hok1 & He & Hcnt & Hp & Ho & Hr & Hkeep & Hres).
  cbn [mbind outcome_bind entries]. eexists. split; [done|].
  destruct (update_wrote (mkWorld (Some s1) (satb w) (cards w ++ (if ins then [key] else []))) s1 e key value)
    as (k & v & k' & dr & st & Hin & Hw); try done.
  { destruct ins; [|apply Hres]. destruct Hres as (_ & _ & Hrow).
    split; [lia|]. exists key, MAL_VALUE_UNDEFINED. split; [done|apply key_equals_refl]. }
  by eapply upsert_wrote.
Qed.

Lemma stepped_quiet w w1 w2 : stepped w w1 -> quiet w1 w2 -> stepped w w2.
Proof using KL.
  intros [S1 [B1 B2 B3 B4] S3 S4 S5 S6 S7] [Q1 Q2 [Q3 Q4] Q5 Q6 Q7 Q8 Q9].
  split; try done; try lia; try congruence.
  - unfold words in *. split; unfold words; rewrite ?Q2, ?Q3, ?Q4; done.
  - intros Hp. eapply cursor_trans; [by apply S7|]. apply Q9. congruence.
Qed.

(** Remembering the entry just written changes the hint only. *)
Lemma remember_quiet w e :
  storage_ok (storage_of w) -> 1 <= e <= count (storage_of w) ->
  row_at (storage_of w) (e - 1) <> None -> quiet w (mal_map_object_remember_entry w e).
Proof using KL.
  intros Hok He Hr. unfold mal_map_object_remember_entry, storage_of in *.
  destruct (entries w) as [s|] eqn:Es; [|cbn in He; lia].
  apply quiet_same; unfold storage_of; cbn [with_storage entries satb cards]; try done.
  - by apply remember_entry_ok.
  - rewrite Es. apply remember_same_rows.
Qed.

Lemma wrote_remember w e key value k v k' dr st w2 :
  1 <= e <= count (storage_of w) -> wrote w e key value k v k' dr st w2 ->
  quiet w2 (mal_map_object_remember_entry w2 e) /\
  contents (storage_of (mal_map_object_remember_entry w2 e)) = contents (storage_of w2).
Proof using KL.
  intros He [Hr Hok2 _ _ [Hc Hrow] _].
  assert (quiet w2 (mal_map_object_remember_entry w2 e)) as Q.
  { apply remember_quiet; [done|lia|]. rewrite Hrow by lia. by rewrite Z.eqb_refl. }
  split; [done|]. apply (qu_contents _ _ Q).
Qed.

(** The update of an entry known to hold an equal key. *)
Lemma update_hit_ok w s e key value :
  entries w = Some s -> storage_ok s -> 1 <= e <= count s -> holds s key (e - 1) ->
  canonical key -> key <> MAL_VALUE_EMPTY -> value <> MAL_VALUE_EMPTY ->
  let w' := mal_map_object_remember_entry (mal_map_object_update_entry marking w s e key value) e in
  stepped w w' /\ stored (contents s) key value (contents (storage_of w')).
Proof using KL.
  intros Es Hok He Hho Hc Hne Hv w'.
  assert (storage_of w = s) as Ew by (unfold storage_of; by rewrite Es).
  destruct (update_wrote w s e key value) as (k & v & k' & dr & st & Hin & Hw); try done.
  destruct Hho as (_ & k0 & v0 & Hr0 & Ek).
  pose proof (wr_row _ _ _ _ _ _ _ _ _ _ Hw) as Hrow. rewrite Ew, Hr0 in Hrow. injection Hrow as -> ->.
  rewrite <- Ew in Hok, He.
  destruct (store_found w e key value k v k' dr st _ Hok He Ek Hin Hw) as [Hst Hsto].
  destruct (wrote_remember w e key value k v k' dr st _ He Hw) as [Q Hc'].
  split; [by eapply stepped_quiet|]. subst w'. rewrite Hc'. by rewrite Ew in Hsto.
Qed.

Lemma set_hinted_ok w key value :
  storage_ok (storage_of w) -> has_room (storage_of w) ->
  canonical key -> key <> MAL_VALUE_EMPTY -> value <> MAL_VALUE_EMPTY ->
  exists w', mal_map_object_set_hinted MASK_SHIFT raw marking w key value = Ret w' /\
    stepped w w' /\ stored (contents (storage_of w)) key value (contents (storage_of w')).
Proof using Hshift KL.
  intros Hok Hroom Hc Hne Hv. unfold mal_map_object_set_hinted.
  destruct (Z.eqb_spec (mal_map_storage_entry_hint (entries w) key) 0) as [E|E].
  - destruct (upsert_ok MASK_SHIFT Hshift raw w key Hok Hroom Hc Hne)
      as (e & ins & s1 & -> & Hok1 & He & Hcnt & Hp & Ho & Hr & Hkeep & Hres).
    cbn [mbind outcome_bind entries]. eexists. split; [done|].
    set (w1 := mkWorld (Some s1) _ _).
    assert (exists k v k' dr st, (ins = false -> v ∈ dr) /\ wrote w1 e key value k v k' dr st
      (if ins then mal_gc_card value (with_storage (set_value_at (e - 1) value s1) w1)
       else mal_map_object_update_entry marking w1 s1 e key value))
      as (k & v & k' & dr & st & Hin & Hw).
    { destruct ins.
      - do 5 eexists. split; [|apply fresh_wrote]; done || apply Hres.
      - destruct (update_wrote w1 s1 e key value) as (k & v & k' & dr & st & Hin & Hw); try done; [apply Hres|].
        by exists k, v, k', dr, st. }
    destruct (upsert_wrote w key value e ins s1 k v k' dr st _ Hok Hok1 He Hcnt Hp Ho Hr Hkeep Hres Hin Hw)
      as [Hst Hsto].
    destruct (wrote_remember w1 e key value k v k' dr st _ He Hw) as [Q Hc'].
    split; [by eapply stepped_quiet|]. by rewrite Hc'.
  - cbn [mbind outcome_bind].
    destruct (entries w) as [s|] eqn:Es; [|done].
    assert (storage_of w = s) as Ew by (unfold storage_of; by rewrite Es).
    rewrite Ew in *. destruct (entry_hint_ok s key Hok Hc) as [?|[He Hho]]; [done|].
    eexists. split; [done|]. by apply update_hit_ok.
Qed.

Lemma live_row s i :
  mirror s -> 0 <= i < count s -> mal_map_is_live s i = true ->
  row_at s i = Some (mal_map_key_at s i, mal_map_value_at s i).
Proof using Type.
  intros Hm Hi Hl. unfold mal_map_is_live in Hl. unfold row_at.
  destruct (payload_null (payload s)) eqn:Hp; [|apply negb_true_iff in Hl; by rewrite Hl].
  apply negb_true_iff, Z.eqb_neq in Hl. destruct (Z.eqb_spec (mal_map_value_at s i) MAL_VALUE_EMPTY) as [E|]; [|done].
  unfold mal_map_value_at in E. rewrite Hp in E. apply Hm in E; done.
Qed.

(** [mal_map_object_set_borrowed] trusts a borrowed entry only after checking
    that it still is a live row of an equal key. *)
Lemma set_borrowed_ok w key value e :
  storage_ok (storage_of w) -> has_room (storage_of w) -> 0 <= e ->
  canonical key -> key <> MAL_VALUE_EMPTY -> value <> MAL_VALUE_EMPTY ->
  exists w', mal_map_object_set_borrowed MASK_SHIFT raw marking w key value e = Ret w' /\
    stepped w w' /\ stored (contents (storage_of w)) key value (contents (storage_of w')).
Proof using Hshift KL.
  intros Hok Hroom He0 Hc Hne Hv. unfold mal_map_object_set_borrowed.
  destruct (entries w) as [s|] eqn:Es; [|by apply set_hinted_ok].
  assert (storage_of w = s) as Ew by (unfold storage_of; by rewrite Es).
  destruct (_ && _) eqn:Ehit; [|by apply set_hinted_ok].
  rewrite !andb_true_iff in Ehit. destruct Ehit as [[[Hz%negb_true_iff%Z.eqb_neq Hle%Z.leb_le] Hlive] Heq].
  rewrite Ew in *. eexists. split; [done|].
  apply update_hit_ok; try done; [lia|].
  assert (0 <= e - 1 < count s) as Hi by lia.
  pose proof (live_row s (e - 1) (st_mirror s Hok) Hi Hlive) as Hrow.
  rewrite key_equals_slow_ok in Heq; [|eapply row_key_ok; [apply Hok|exact Hi|exact Hrow]|done].
  split; [done|]. eauto.
Qed.

(** ** Removal *)

Definition removed (c : list (Z * Z)) (key : Z) (c' : list (Z * Z)) : Prop :=
  exists l1 k v l2, mal_key_value_equals k key = true /\ c = l1 ++ (k, v) :: l2 /\ c' = l1 ++ l2.

Lemma delete_step_ok w key :
  storage_ok (storage_of w) -> size (storage_of w) <= MAP_ROOM -> canonical key ->
  exists (b : bool) w', mal_map_object_delete_canonical MASK_SHIFT raw marking w key = Ret (b, w') /\
    stepped w w' /\
    if b then removed (contents (storage_of w)) key (contents (storage_of w'))
    else Forall (fun r => mal_key_value_equals r.1 key = false) (contents (storage_of w)) /\ w' = w.
Proof using Hshift KL.
  intros Hok Hroom Hc.
  destruct (delete_ok MASK_SHIFT Hshift raw marking w key Hok Hroom Hc)
    as (b & w' & Hd & Hok' & Hp & Hcnt & Hr & Ho & Hres).
  exists b, w'. split; [done|]. destruct b.
  - destruct Hres as (i & k & v & Hi & Hrow & Ek & Hc' & Hch & Hrec).
    assert (contents (storage_of w) = before (storage_of w) i ++ [(k, v)] ++ after (storage_of w) i) as Hc0.
    { rewrite (contents_split (storage_of w) i Hi). by rewrite Hrow. }
    split; [|by exists (before (storage_of w) i), k, v, (after (storage_of w) i)].
    split; try done; [|lia|].
    + eapply (barriers_intro w w' (before (storage_of w) i) [(k, v)] [] (after (storage_of w) i));
        [done|done|exact Hrec| |].
      * intros x Hx. right. exact Hx.
      * intros x Hx. by apply not_elem_of_nil in Hx.
    + intros Hps. eapply changed_cursor; [by apply Hch|done|congruence].
  - destruct Hres as [Ha ->]. split; [apply quiet_step, quiet_refl, Hok|].
    split; [by apply absent_contents|done].
Qed.

Lemma clear_step_ok w :
  storage_ok (storage_of w) ->
  exists w', mal_map_object_clear MASK_SHIFT raw marking w = Ret w' /\
    stepped w w' /\ contents (storage_of w') = [].
Proof using KL.
  intros Hok. destruct (clear_ok MASK_SHIFT raw marking w Hok)
    as (w' & Hd & Hok' & Hc & Hp & Hcnt & Hcp & Hr & Ho & Hrec).
  exists w'. split; [done|]. split; [|done]. split; try done; [|lia|].
  - eapply (barriers_intro w w' [] (contents (storage_of w)) [] []); [by rewrite app_nil_r|done|exact Hrec| |].
    + intros x Hx. by right.
    + intros x Hx. by apply not_elem_of_nil in Hx.
  - intros Hps. split; [by rewrite Hcp|]. intros i Hi.
    assert (row_at (storage_of w') i = None) as ->.
    { destruct (row_at (storage_of w') i) as [r|] eqn:E; [|done].
      assert (r ∈ contents (storage_of w')) as Hin.
      { rewrite contents_live. apply live_from_elem. exists i. rewrite Hcp by done. split; [lia|done]. }
      rewrite Hc in Hin. by apply not_elem_of_nil in Hin. }
    by destruct (row_at (storage_of w) i) as [[]|].
Qed.

Lemma compact_step_ok w :
  storage_ok (storage_of w) -> size (storage_of w) <= MAP_ROOM ->
  exists w', mal_map_object_compact MASK_SHIFT raw w = Ret w' /\ quiet w w'.
Proof using Hshift KL.
  intros Hok Hroom. unfold mal_map_object_compact.
  destruct (entries w) as [s|] eqn:Es; [|exists w; split; [done|by apply quiet_refl]].
  assert (storage_of w = s) as Ew by (unfold storage_of; by rewrite Es).
  rewrite Ew in *.
  destruct (compact_if_due_ok MASK_SHIFT Hshift raw s Hok Hroom) as (s' & -> & A & B & C & D & E & F & G).
  cbn [mbind outcome_bind]. eexists. split; [done|].
  split; rewrite ?Ew; try done. intros Hps. cbn. rewrite (G Hps). by apply kept_cursor.
Qed.

(** ** Cursors *)

Lemma iter_loop_ok fuel : forall s i,
  (forall m, m = Z.to_nat (count s - i) -> (m < fuel)%nat) -> 0 <= i <= count s ->
  match iter_loop fuel s i with
  | (Some r, j) => i < j <= count s /\
      live_from s i (count s - i) = r :: live_from s j (count s - j)
  | (None, j) => j = count s /\ live_from s i (count s - i) = []
  end.
Proof using Type.
  induction fuel as [|fuel IH]; intros s i Hf Hi; [specialize (Hf _ eq_refl); lia|].
  specialize (Hf _ eq_refl). cbn [iter_loop]. destruct (Z.ltb_spec i (count s)) as [Hlt|Hge].
  2: { split; [lia|]. by replace (count s - i) with 0 by lia. }
  assert (live_from s i (count s - i)
    = match row_at s i with Some r => [r] | None => [] end ++ live_from s (i + 1) (count s - (i + 1))) as ->.
  { replace (count s - i) with (1 + (count s - (i + 1))) by lia.
    by rewrite live_from_app, live_from_one by lia. }
  unfold row_at. destruct (_ =? _).
  - specialize (IH s (i + 1)). destruct (iter_loop fuel s (i + 1)) as [[r|] j]; simpl.
    + destruct IH as [? ->]; [intros; lia|lia|]. split; [lia|done].
    + apply IH; intros; lia.
  - split; [lia|done].
Qed.

(** One step of a cursor: the first live row at or after it. *)
Lemma iter_next_ok s i :
  0 <= i <= count s ->
  match mal_map_iter_next s i with
  | (Some r, j) => i < j <= count s /\
      live_from s i (count s - i) = r :: live_from s j (count s - j)
  | (None, j) => j = count s /\ live_from s i (count s - i) = []
  end.
Proof using Type. intros Hi. apply iter_loop_ok; [intros; lia|done]. Qed.

(** A cursor run to its end over an unchanging store. *)
Fixpoint drain (fuel : nat) (s : MalMapStorage) (i : Z) : list (Z * Z) :=
  match fuel with
  | O => []
  | S fuel =>
      match mal_map_iter_next s i with
      | (Some r, j) => r :: drain fuel s j
      | (None, _) => []
      end
  end.

Lemma drain_ok fuel : forall s i,
  0 <= i <= count s -> (Z.to_nat (count s - i) < fuel)%nat ->
  drain fuel s i = live_from s i (count s - i).
Proof using Type.
  induction fuel as [|fuel IH]; intros s i Hi Hf; [lia|]. cbn [drain].
  pose proof (iter_next_ok s i Hi) as H. destruct (mal_map_iter_next s i) as [[r|] j].
  - destruct H as [Hj ->]. f_equal. apply IH; lia.
  - by destruct H as [_ ->].
Qed.
End find.
