(* ===== verification/MapRefine.v ===== *)
(** The Map object implements the ordered association list of ECMAScript's
    [[MapData]]: the abstract specification, the refinement of every operation,
    and runs of operations from a fresh map. *)

From S2P Require Import Prelude F64 Value HeapString HeapStringSpec Key HashIndex HeapSizes.
From S2P Require Import MapObject MapRows MapStore MapInsert MapUpdate MapClear MapFind.

(** * The specification *)

(** A list of keys and values, oldest first, searched with a comparison. *)
Section data.
Variable same : Z -> Z -> bool.

Fixpoint data_lookup (l : list (Z * Z)) (key : Z) : option Z :=
  match l with
  | [] => None
  | (k, v) :: l => if same k key then Some v else data_lookup l key
  end.
(** The value replaces that of an equal key, whose key stays, or is appended. *)
Fixpoint data_set (l : list (Z * Z)) (key value : Z) : list (Z * Z) :=
  match l with
  | [] => [(key, value)]
  | (k, v) :: l => if same k key then (k, value) :: l else (k, v) :: data_set l key value
  end.
Fixpoint data_delete (l : list (Z * Z)) (key : Z) : list (Z * Z) :=
  match l with
  | [] => []
  | (k, v) :: l => if same k key then l else (k, v) :: data_delete l key
  end.

Lemma data_lookup_skip l1 l2 key :
  Forall (fun r => same r.1 key = false) l1 -> data_lookup (l1 ++ l2) key = data_lookup l2 key.
Proof using Type. induction 1 as [|[k v] l Hr _ IH]; simpl in *; [done|]. by rewrite Hr. Qed.

Lemma data_set_skip l1 l2 key value :
  Forall (fun r => same r.1 key = false) l1 -> data_set (l1 ++ l2) key value = l1 ++ data_set l2 key value.
Proof using Type. induction 1 as [|[k v] l Hr _ IH]; simpl in *; [done|]. by rewrite Hr, IH. Qed.

Lemma data_delete_skip l1 l2 key :
  Forall (fun r => same r.1 key = false) l1 -> data_delete (l1 ++ l2) key = l1 ++ data_delete l2 key.
Proof using Type. induction 1 as [|[k v] l Hr _ IH]; simpl in *; [done|]. by rewrite Hr, IH. Qed.
End data.

Inductive map_op : Type :=
  | MGet (key : Z) | MGetHinted (key : Z) | MHas (key : Z) | MSize | MEntries
  | MSet (key value : Z) | MSetHinted (key value : Z) | MSetBorrowed (key value entry : Z)
  | MDelete (key : Z) | MClear | MCompact | MReserve (desired_size : Z) | MPin | MUnpin.

Inductive map_result : Type :=
  | RValue (v : Z) | RBool (b : bool) | RSize (n : Z) | REntries (l : list (Z * Z)) | RUnit.

Section refine.
Context `{KH : KeyHeap} `{KL : !KeyHeapLaws KH} `{SM : StringMeta}.
Variable MASK_SHIFT : Z.
Hypothesis Hshift : 0 <= MASK_SHIFT.
Variable raw : Z -> Z.
Variable marking : bool.

(** ** Abstract and concrete steps *)

(** ECMAScript's operations on [[MapData]]; layout requests do nothing. *)
Definition spec_step (l : list (Z * Z)) (op : map_op) : map_result * list (Z * Z) :=
  match op with
  | MGet key | MGetHinted key =>
      (RValue (default MAL_VALUE_UNDEFINED (data_lookup same_value_zero l key)), l)
  | MHas key => (RBool (bool_decide (is_Some (data_lookup same_value_zero l key))), l)
  | MSize => (RSize (arr_len l), l)
  | MEntries => (REntries l, l)
  | MSet key value | MSetHinted key value | MSetBorrowed key value _ =>
      (RUnit, data_set same_value_zero l key value)
  | MDelete key =>
      (RBool (bool_decide (is_Some (data_lookup same_value_zero l key))),
       data_delete same_value_zero l key)
  | MClear => (RUnit, [])
  | MReserve _ => (RBool true, l)
  | MCompact | MPin | MUnpin => (RUnit, l)
  end.

Definition map_step (w : MapWorld) (op : map_op) : outcome (map_result * MapWorld) :=
  match op with
  | MGet key => v ← mal_map_object_get MASK_SHIFT w key; Ret (RValue v, w)
  | MGetHinted key =>
      '(v, w) ← mal_map_object_get_hinted MASK_SHIFT w (mal_collection_canonical_value key);
      Ret (RValue v, w)
  | MHas key => b ← mal_map_object_has MASK_SHIFT w key; Ret (RBool b, w)
  | MSize => Ret (RSize (mal_map_object_size w), w)
  | MEntries =>
      Ret (REntries (match entries w with
                     | None => []
                     | Some s => drain (S (Z.to_nat (count s))) s 0
                     end), w)
  | MSet key value => w ← mal_map_object_set MASK_SHIFT raw marking w key value; Ret (RUnit, w)
  | MSetHinted key value =>
      w ← mal_map_object_set_hinted MASK_SHIFT raw marking w (mal_collection_canonical_value key) value;
      Ret (RUnit, w)
  | MSetBorrowed key value entry =>
      w ← mal_map_object_set_borrowed MASK_SHIFT raw marking w
            (mal_collection_canonical_value key) value entry;
      Ret (RUnit, w)
  | MDelete key =>
      '(b, w) ← mal_map_object_delete MASK_SHIFT raw marking w key; Ret (RBool b, w)
  | MClear => w ← mal_map_object_clear MASK_SHIFT raw marking w; Ret (RUnit, w)
  | MCompact => w ← mal_map_object_compact MASK_SHIFT raw w; Ret (RUnit, w)
  | MReserve n => '(b, w) ← mal_map_object_reserve MASK_SHIFT raw w n; Ret (RBool b, w)
  | MPin =>
      match entries w with
      | None => Ret (RUnit, w)
      | Some s => s ← mal_map_storage_pin s; Ret (RUnit, with_storage s w)
      end
  | MUnpin =>
      match entries w with
      | None => Ret (RUnit, w)
      | Some s => Ret (RUnit, mkWorld (mal_map_storage_unpin s) (satb w) (cards w))
      end
  end.

(** Keys and values a program can pass. *)
Definition key_arg (k : Z) : Prop := boxed k /\ k <> MAL_VALUE_EMPTY.
Definition op_ok (op : map_op) : Prop :=
  match op with
  | MGet k | MGetHinted k | MHas k | MDelete k => key_arg k
  | MSet k v | MSetHinted k v => key_arg k /\ v <> MAL_VALUE_EMPTY
  | MSetBorrowed k v e => key_arg k /\ v <> MAL_VALUE_EMPTY /\ 0 <= e
  | MReserve n => 0 <= n < 2 ^ 28
  | _ => True
  end.

(** ** Representation *)

(** A stored row stands for an entry: an equal key, the same value. *)
Definition stands_for (r a : Z * Z) : Prop :=
  boxed a.1 /\ mal_key_value_equals r.1 (mal_collection_canonical_value a.1) = true /\ r.2 = a.2.
Definition represents (c l : list (Z * Z)) : Prop := Forall2 stands_for c l.

Lemma stands_same r a key :
  stands_for r a -> boxed key ->
  mal_key_value_equals r.1 (mal_collection_canonical_value key) = same_value_zero a.1 key.
Proof using KL.
  intros (Ha & E & _) Hk. rewrite (key_equals_replace _ _ _ E).
  by apply canonical_same_value_zero.
Qed.

Lemma represents_lookup c l key :
  represents c l -> boxed key ->
  data_lookup mal_key_value_equals c (mal_collection_canonical_value key)
  = data_lookup same_value_zero l key.
Proof using KL.
  intros Hr Hk. induction Hr as [|[k v] [k' v'] c l Hs _ IH]; [done|].
  pose proof (stands_same _ _ key Hs Hk) as E. destruct Hs as (_ & _ & Hv). simpl in *.
  rewrite E, Hv. by destruct (same_value_zero k' key).
Qed.

Lemma represents_delete c l key :
  represents c l -> boxed key ->
  represents (data_delete mal_key_value_equals c (mal_collection_canonical_value key))
             (data_delete same_value_zero l key).
Proof using KL.
  intros Hr Hk. induction Hr as [|[k v] [k' v'] c l Hs Hr IH]; [constructor|].
  pose proof (stands_same _ _ key Hs Hk) as E. simpl in *. rewrite E.
  destruct (same_value_zero k' key); [done|]. by constructor.
Qed.

Lemma represents_set c l key value :
  represents c l -> boxed key ->
  represents (data_set mal_key_value_equals c (mal_collection_canonical_value key) value)
             (data_set same_value_zero l key value).
Proof using KL.
  intros Hr Hk. induction Hr as [|[k v] [k' v'] c l Hs Hr IH]; simpl.
  - constructor; [|constructor]. split; [done|]. split; [apply key_equals_refl|done].
  - pose proof (stands_same _ _ key Hs Hk) as E. simpl in E. rewrite E.
    destruct (same_value_zero k' key); [|by constructor].
    destruct Hs as (? & ? & _). constructor; [|done]. by split_and!.
Qed.

(** Rows whose keys are exchanged for equal ones. *)
Definition rows_equiv (c c' : list (Z * Z)) : Prop :=
  Forall2 (fun r r' => mal_key_value_equals r.1 r'.1 = true /\ r.2 = r'.2) c c'.

#[local] Instance rows_equiv_equivalence : Equivalence rows_equiv.
Proof using KL.
  split.
  - intros c. induction c; constructor; [|done]. split; [apply key_equals_refl|done].
  - intros c c' H. induction H as [|r r' c c' [E E'] _ IH]; constructor; [|done].
    split; [by rewrite key_equals_sym|done].
  - intros c c' c'' H. revert c''. induction H as [|r r' c c' [E E'] _ IH]; intros c'' H'; inversion H' as [|? r'' ? ? [F F']]; subst;
      constructor; [|by apply IH]. split; [by eapply key_equals_trans|congruence].
Qed.

#[local] Instance represents_proper : Proper (rows_equiv ==> eq ==> iff) represents.
Proof using KL.
  assert (forall c c' l, rows_equiv c c' -> represents c l -> represents c' l) as H.
  { intros c c' l Hc Hr. revert c' Hc.
    induction Hr as [|r a c l (Hb & E & Hv) _ IH]; intros c' Hc; inversion Hc as [|? r' ? ? [F F']]; subst;
      constructor; [|by apply IH]. split; [done|]. split; [|congruence].
    eapply key_equals_trans; [|exact E]. by rewrite key_equals_sym. }
  intros c c' Hc l ? <-. split; apply H; [done|by symmetry].
Qed.

(** ** Lookups, stores and removals on rows *)

(** Before an entry of an equal key no key is equal. *)
Lemma distinct_before l1 k v l2 key :
  distinct (l1 ++ (k, v) :: l2) -> mal_key_value_equals k key = true ->
  Forall (fun r => mal_key_value_equals r.1 key = false) l1.
Proof using KL.
  intros Hd Ek. apply distinct_app in Hd as (_ & _ & Hc).
  eapply Forall_impl; [exact Hc|]. intros r Hr. apply Forall_cons in Hr as [Hr _]. simpl in Hr.
  rewrite key_equals_sym, <- (key_equals_replace k key) by done. by rewrite key_equals_sym.
Qed.

Lemma entry_lookup s key e :
  storage_ok s -> entry_result s key e ->
  (e = 0 /\ data_lookup mal_key_value_equals (contents s) key = None) \/
  (e <> 0 /\ data_lookup mal_key_value_equals (contents s) key = Some (mal_map_storage_value s e)).
Proof using KL.
  intros Hok [[-> Ha]|[He Hho]].
  - left. split; [done|]. apply absent_contents in Ha.
    pose proof (data_lookup_skip mal_key_value_equals (contents s) [] key Ha) as E.
    by rewrite app_nil_r in E.
  - right. split; [lia|]. destruct (holds_split s key (e - 1) Hho) as (k & v & Hr & Ek & Hc).
    pose proof (st_keys s Hok) as [_ Hd]. rewrite Hc in Hd |- *.
    rewrite data_lookup_skip by (by eapply distinct_before). simpl. rewrite Ek.
    unfold mal_map_storage_value. unfold row_at in Hr. destruct (_ =? _); [done|]. congruence.
Qed.

Lemma stored_set c key value c' :
  distinct c -> stored c key value c' -> rows_equiv (data_set mal_key_value_equals c key value) c'.
Proof using KL.
  intros Hd (l1 & l2 & k' & Ek' & -> & [(k & v & Ek & ->)|(-> & -> & Hf)]).
  - rewrite data_set_skip by (by eapply distinct_before). simpl. rewrite Ek.
    apply Forall2_app; [apply (reflexivity (R := rows_equiv))|].
    constructor; [|apply (reflexivity (R := rows_equiv))]. split; [|done].
    simpl. eapply key_equals_trans; [exact Ek|]. by rewrite key_equals_sym.
  - pose proof (data_set_skip mal_key_value_equals l1 [] key value Hf) as E.
    rewrite app_nil_r in E. rewrite E. simpl.
    apply Forall2_app; [apply (reflexivity (R := rows_equiv))|].
    constructor; [|constructor]. split; [|done]. simpl. by rewrite key_equals_sym.
Qed.

Lemma removed_delete c key c' :
  distinct c -> removed c key c' -> data_delete mal_key_value_equals c key = c'.
Proof using KL.
  intros Hd (l1 & k & v & l2 & Ek & -> & ->).
  rewrite data_delete_skip by (by eapply distinct_before). simpl. by rewrite Ek.
Qed.

(** ** One operation *)

Lemma key_arg_canonical k :
  key_arg k ->
  canonical (mal_collection_canonical_value k) /\ mal_collection_canonical_value k <> MAL_VALUE_EMPTY.
Proof using Type.
  intros [Hb Hne]. split; [by apply canonical_value_canonical|].
  destruct (number_of k) as [x|] eqn:Hx.
  - destruct (canonical_number_of k x (proj1 Hb) Hx) as [-> _].
    pose proof (canonical_double_kind k x Hb Hx) as Hk. intros E. by rewrite E in Hk.
  - by destruct (canonical_not_number k (proj1 Hb) Hx) as [-> _].
Qed.

(** The state after at most [n] operations, standing for the list [l]. *)
Record map_inv (n : Z) (w : MapWorld) (l : list (Z * Z)) : Prop := {
  mi_ok : storage_ok (storage_of w);
  mi_represents : represents (contents (storage_of w)) l;
  mi_count : count (storage_of w) <= n;
  mi_reserve : reserve_size (storage_of w) <= 2 ^ 28;
  mi_pins : pins (storage_of w) <= n;
  mi_owner : owner_released (storage_of w) = false;
}.

Definition result_rel (r a : map_result) : Prop :=
  match r, a with
  | REntries c, REntries l => represents c l
  | _, _ => r = a
  end.

(** The outcome of one step against the specification. *)
Definition step_refines (n : Z) (w : MapWorld) (l : list (Z * Z)) (op : map_op) : Prop :=
  exists r w', map_step w op = Ret (r, w') /\ result_rel r (spec_step l op).1 /\
    map_inv (n + 1) w' (spec_step l op).2 /\ barriers_ok marking w w' /\
    (pins (storage_of w) <> 0 -> cursor_stable (storage_of w) (storage_of w')).

Lemma inv_room n w l : n < 2 ^ 28 -> map_inv n w l ->
  has_room (storage_of w) /\ size (storage_of w) <= MAP_ROOM.
Proof using Type.
  intros Hn [Hok _ Hc Hr _ _]. pose proof (size_le_count _ Hok). unfold has_room, MAP_ROOM. lia.
Qed.

Lemma stepped_inv n w l w' l' :
  map_inv n w l -> stepped marking w w' -> represents (contents (storage_of w')) l' ->
  map_inv (n + 1) w' l'.
Proof using Type.
  intros [Hok _ Hc Hr Hp Ho] [S1 _ S3 S4 S5 S6 _] Hrep. split; try done; try lia. congruence.
Qed.

(** A read leaves the state as it is. *)
Lemma read_refines n w l op r :
  map_inv n w l -> map_step w op = Ret (r, w) -> result_rel r (spec_step l op).1 ->
  (spec_step l op).2 = l -> step_refines n w l op.
Proof using KL.
  intros Hi Hs Hr Hl. exists r, w. split; [done|]. split; [done|]. rewrite Hl.
  pose proof (quiet_step marking w w (quiet_refl w (mi_ok _ _ _ Hi))) as Hst.
  split; [|split; [apply Hst|apply Hst]].
  eapply stepped_inv; [done|exact Hst|apply Hi].
Qed.

Lemma get_value w key e :
  storage_ok (storage_of w) -> entry_result (storage_of w) key e ->
  value_or_undefined (entries w) e
  = default MAL_VALUE_UNDEFINED (data_lookup mal_key_value_equals (contents (storage_of w)) key).
Proof using KL.
  intros Hok He. unfold value_or_undefined.
  destruct (entry_lookup _ key e Hok He) as [[-> ->]|[Hne ->]]; [done|].
  destruct (Z.eqb_spec e 0); [done|]. unfold storage_of in *.
  destruct (entries w) as [s|]; [done|]. exfalso. destruct He as [[? _]|[He _]]; [done|]. cbn in He. lia.
Qed.

Lemma find_canonical_ok w key :
  storage_ok (storage_of w) -> canonical key ->
  exists e, mal_map_object_find_canonical MASK_SHIFT w key = Ret e /\ entry_result (storage_of w) key e.
Proof using Hshift KL.
  intros Hok Hc. unfold mal_map_object_find_canonical, storage_of in *.
  destruct (entries w) as [s|]; [by apply storage_find_ok|].
  exists 0. split; [done|]. left. split; [done|]. intros i k v Hi. cbn in Hi. lia.
Qed.

Lemma read_ok n w l op :
  map_inv n w l -> op_ok op ->
  match op with MGet _ | MHas _ | MSize | MEntries => step_refines n w l op | _ => True end.
Proof using Hshift KL.
  intros Hi Hop. pose proof (mi_ok _ _ _ Hi) as Hok. pose proof (mi_represents _ _ _ Hi) as Hrep.
  destruct op; try done.
  - destruct (key_arg_canonical key Hop) as [Hc _].
    destruct (find_canonical_ok w _ Hok Hc) as (e & He & Hres).
    eapply read_refines; [done| | |done].
    + cbn. unfold mal_map_object_get. rewrite He. done.
    + simpl. f_equal. rewrite (get_value w _ e Hok Hres). f_equal.
      apply represents_lookup; [done|apply Hop].
  - destruct (key_arg_canonical key Hop) as [Hc _].
    destruct (find_canonical_ok w _ Hok Hc) as (e & He & Hres).
    eapply read_refines; [done| | |done].
    + cbn. unfold mal_map_object_has, mal_map_object_has_canonical. rewrite He. done.
    + simpl. f_equal. rewrite <- (represents_lookup _ _ key Hrep) by apply Hop.
      destruct (entry_lookup _ _ e Hok Hres) as [[-> ->]|[Hne ->]]; [done|].
      destruct (Z.eqb_spec e 0); done.
  - eapply read_refines; [done|done| |done]. simpl. f_equal.
    assert (mal_map_object_size w = size (storage_of w)) as ->
      by (unfold mal_map_object_size, storage_of; by destruct (entries w)).
    rewrite (st_size _ Hok). unfold arr_len. by rewrite (Forall2_length _ _ _ Hrep).
  - eapply read_refines; [done|done| |done]. cbn [result_rel spec_step fst].
    assert (match entries w with None => [] | Some s => drain (S (Z.to_nat (count s))) s 0 end
            = contents (storage_of w)) as ->; [|done].
    unfold storage_of in *. destruct (entries w) as [s|]; [|done].
    pose proof (la_count s (st_lanes s Hok)). rewrite drain_ok by lia.
    by rewrite contents_live, Z.sub_0_r.
Qed.

Lemma store_refines n w l op key value w' :
  map_inv n w l -> boxed key ->
  map_step w op = Ret (RUnit, w') -> spec_step l op = (RUnit, data_set same_value_zero l key value) ->
  stepped marking w w' ->
  stored (contents (storage_of w)) (mal_collection_canonical_value key) value (contents (storage_of w')) ->
  step_refines n w l op.
Proof using KL.
  intros Hi Hb Hs Hsp Hst Hsto. exists RUnit, w'. rewrite Hsp. split; [done|]. split; [done|].
  split; [|split; apply Hst]. eapply stepped_inv; [done|exact Hst|].
  apply stored_set in Hsto; [|apply (st_keys _ (mi_ok _ _ _ Hi))].
  rewrite <- Hsto. apply represents_set; [apply Hi|done].
Qed.

Lemma write_ok n w l op :
  n < 2 ^ 28 -> map_inv n w l -> op_ok op ->
  match op with MSet _ _ | MSetHinted _ _ | MSetBorrowed _ _ _ | MDelete _ | MClear => step_refines n w l op
  | _ => True end.
Proof using Hshift KL.
  intros Hn Hi Hop. pose proof (mi_ok _ _ _ Hi) as Hok. pose proof (mi_represents _ _ _ Hi) as Hrep.
  destruct (inv_room n w l Hn Hi) as [Hroom Hsz].
  destruct op; try done.
  - destruct Hop as [Hk Hv]. destruct (key_arg_canonical key Hk) as [Hc Hne].
    destruct (set_canonical_ok MASK_SHIFT Hshift raw marking w _ value Hok Hroom Hc Hne Hv) as (w' & Hs & Hst & Hsto).
    eapply (store_refines n w l _ key value w'); try done; [apply Hk|].
    cbn. unfold mal_map_object_set. by rewrite Hs.
  - destruct Hop as [Hk Hv]. destruct (key_arg_canonical key Hk) as [Hc Hne].
    destruct (set_hinted_ok MASK_SHIFT Hshift raw marking w _ value Hok Hroom Hc Hne Hv) as (w' & Hs & Hst & Hsto).
    eapply (store_refines n w l _ key value w'); try done; [apply Hk|].
    cbn [map_step]. by rewrite Hs.
  - destruct Hop as (Hk & Hv & He). destruct (key_arg_canonical key Hk) as [Hc Hne].
    destruct (set_borrowed_ok MASK_SHIFT Hshift raw marking w _ value entry Hok Hroom He Hc Hne Hv) as (w' & Hs & Hst & Hsto).
    eapply (store_refines n w l _ key value w'); try done; [apply Hk|].
    cbn [map_step]. by rewrite Hs.
  - destruct (key_arg_canonical key Hop) as [Hc _].
    destruct (delete_step_ok MASK_SHIFT Hshift raw marking w _ Hok Hsz Hc) as (b & w' & Hs & Hst & Hres).
    assert (bool_decide (is_Some (data_lookup same_value_zero l key)) = b /\
            data_delete mal_key_value_equals (contents (storage_of w)) (mal_collection_canonical_value key)
            = contents (storage_of w')) as [Hb Hdel].
    { rewrite <- (represents_lookup _ _ key Hrep) by apply Hop.
      pose proof (st_keys _ Hok) as [_ Hd]. destruct b.
      - split; [|by apply removed_delete]. destruct Hres as (l1 & k & v & l2 & Ek & Hc1 & _).
        rewrite Hc1 in Hd |- *. rewrite data_lookup_skip by (by eapply distinct_before).
        simpl. by rewrite Ek.
      - destruct Hres as [Hf ->].
        pose proof (data_lookup_skip _ _ [] _ Hf) as E. pose proof (data_delete_skip _ _ [] _ Hf) as E'.
        rewrite app_nil_r in E, E'. rewrite E, E'. split; [done|]. simpl. apply app_nil_r. }
    exists (RBool b), w'. cbn [map_step]. unfold mal_map_object_delete. rewrite Hs.
    split; [done|]. split; [simpl; by rewrite Hb|]. split; [|split; apply Hst].
    eapply stepped_inv; [done|exact Hst|]. rewrite <- Hdel. apply represents_delete; [done|apply Hop].
  - destruct (clear_step_ok MASK_SHIFT raw marking w Hok) as (w' & Hs & Hst & Hc).
    exists RUnit, w'. cbn [map_step]. rewrite Hs. split; [done|]. split; [done|].
    split; [|split; apply Hst]. eapply stepped_inv; [done|exact Hst|]. rewrite Hc. constructor.
Qed.

(** A change of the pin count. *)
Lemma repin_ok n w s l p :
  entries w = Some s -> storage_ok s -> represents (contents s) l ->
  count s <= n -> reserve_size s <= 2 ^ 28 -> owner_released s = false -> 0 <= p <= n + 1 -> n < 2 ^ 28 ->
  let w' := with_storage (set_pins p s) w in
  map_inv (n + 1) w' l /\ barriers_ok marking w w' /\
  (pins (storage_of w) <> 0 -> cursor_stable (storage_of w) (storage_of w')).
Proof using KL.
  intros Es Hok Hrep Hc Hr Ho Hp Hn w'.
  assert (storage_of w = s) as Ew by (unfold storage_of; by rewrite Es).
  split; [|split].
  - split; cbn; try done; try lia. destruct Hok as [[] ? ? ? ? ? ? ?]. split; try done; cbn; try by split.
    unfold UINT32_MAX. lia.
  - split; unfold words; rewrite ?Ew; try done; intros; by left.
  - intros _. rewrite Ew. by apply kept_cursor.
Qed.

(** The layout requests, the hinted read and the pins. *)
Lemma layout_ok n w l op :
  0 <= n < 2 ^ 28 -> map_inv n w l -> op_ok op ->
  match op with MGetHinted _ | MCompact | MReserve _ | MPin | MUnpin => step_refines n w l op
  | _ => True end.
Proof using Hshift KL.
  intros Hn Hi Hop. pose proof (mi_ok _ _ _ Hi) as Hok. pose proof (mi_represents _ _ _ Hi) as Hrep.
  destruct (inv_room n w l (proj2 Hn) Hi) as [Hroom Hsz].
  destruct op; try done.
  - destruct (key_arg_canonical key Hop) as [Hc _].
    destruct (find_hinted_ok MASK_SHIFT Hshift w _ Hok Hc) as (e & w' & Hf & Hok' & Hs & He & Hsb & Hcd & _).
    pose proof (quiet_same w w' Hok' Hs Hsb Hcd) as Q. pose proof (quiet_step marking w w' Q) as Hst.
    do 2 eexists. split.
    { cbn [map_step]. unfold mal_map_object_get_hinted. rewrite Hf. done. }
    split.
    { simpl. f_equal. rewrite (get_value w' (mal_collection_canonical_value key) e Hok')
        by (by eapply same_rows_holds). f_equal.
      rewrite (qu_contents _ _ Q). apply represents_lookup; [done|apply Hop]. }
    split; [|split; apply Hst]. eapply stepped_inv; [done|exact Hst|].
    by rewrite (qu_contents _ _ Q).
  - destruct (compact_step_ok MASK_SHIFT Hshift raw w Hok Hsz) as (w' & Hs & Q).
    pose proof (quiet_step marking w w' Q) as Hst.
    exists RUnit, w'. cbn [map_step]. rewrite Hs. split; [done|]. split; [done|].
    split; [|split; apply Hst]. eapply stepped_inv; [done|exact Hst|]. by rewrite (qu_contents _ _ Q).
  - destruct (reserve_ok MASK_SHIFT Hshift raw w desired_size Hok Hroom) as (b & w' & Hs & Hres & Hb);
      [simpl in Hop; lia|].
    simpl in Hop. rewrite Hb in Hs by lia. destruct Hres as (R1 & R2 & R3 & R4 & R5 & R6 & R7 & R8 & R9).
    destruct Hi as [_ _ Hc0 Hr0 Hp0 Ho0].
    exists (RBool true), w'. cbn [map_step]. rewrite Hs. split; [done|]. split; [done|].
    split; [split; simpl; try done; [by rewrite R2|lia|lia|lia|congruence]|]. split.
    + split; unfold words; rewrite ?R2, ?R7, ?R8; try done; intros; by left.
    + intros _. apply kept_cursor; [done|lia].
  - cbn [map_step]. destruct (entries w) as [s|] eqn:Es.
    2: { eapply (read_refines n w l MPin RUnit); try done. cbn [map_step]. by rewrite Es. }
    assert (storage_of w = s) as Ew by (unfold storage_of; by rewrite Es). rewrite Ew in *.
    destruct Hi as [_ _ Hc0 Hr0 Hp0 Ho0]. rewrite Ew in *.
    assert (mal_map_storage_pin s = Ret (set_pins (pins s + 1) s)) as Hpin.
    { unfold mal_map_storage_pin. destruct (Z.eqb_spec (pins s) UINT32_MAX); [unfold UINT32_MAX in *; lia|done]. }
    exists RUnit, (with_storage (set_pins (pins s + 1) s) w). cbn [map_step]. rewrite Es, Hpin.
    split; [done|]. split; [done|]. apply (repin_ok n w s); try done; pose proof (st_pins s Hok); lia.
  - cbn [map_step]. destruct (entries w) as [s|] eqn:Es.
    2: { eapply (read_refines n w l MUnpin RUnit); try done. cbn [map_step]. by rewrite Es. }
    assert (storage_of w = s) as Ew by (unfold storage_of; by rewrite Es).
    destruct Hi as [_ _ Hc0 Hr0 Hp0 Ho0]. rewrite Ew in *.
    assert (exists p, 0 <= p <= pins s /\ mal_map_storage_unpin s = Some (set_pins p s)) as (p & Hp & Hun).
    { unfold mal_map_storage_unpin. destruct (Z.eqb_spec (pins s) 0) as [E|].
      - exists (pins s). split; [lia|]. by destruct s.
      - exists (pins s - 1). pose proof (st_pins s Hok). split; [lia|]. cbn.
        by rewrite Ho0, andb_false_r. }
    exists RUnit, (with_storage (set_pins p s) w). cbn [map_step]. rewrite Es, Hun.
    split; [done|]. split; [done|]. apply (repin_ok n w s); try done; lia.
Qed.

(** Every operation refines its specification. *)
Lemma step_ok n w l op :
  0 <= n < 2 ^ 28 -> map_inv n w l -> op_ok op -> step_refines n w l op.
Proof using Hshift KL.
  intros Hn Hi Hop. pose proof (read_ok n w l op Hi Hop). pose proof (write_ok n w l op (proj2 Hn) Hi Hop).
  pose proof (layout_ok n w l op Hn Hi Hop). by destruct op.
Qed.

(** ** Runs *)

Fixpoint run_map (w : MapWorld) (ops : list map_op) : outcome (list map_result * MapWorld) :=
  match ops with
  | [] => Ret ([], w)
  | op :: ops => '(r, w) ← map_step w op; '(rs, w) ← run_map w ops; Ret (r :: rs, w)
  end.
Fixpoint run_spec (l : list (Z * Z)) (ops : list map_op) : list map_result * list (Z * Z) :=
  match ops with
  | [] => ([], l)
  | op :: ops => let '(r, l) := spec_step l op in let '(rs, l) := run_spec l ops in (r :: rs, l)
  end.

(** The states of a map, the number of operations behind them, and the list
    they stand for. *)
Inductive reachable : Z -> MapWorld -> list (Z * Z) -> Prop :=
| reach_init : reachable 0 mal_map_object_init []
| reach_step n w l op r w' :
    reachable n w l -> n < 2 ^ 28 -> op_ok op -> map_step w op = Ret (r, w') ->
    reachable (n + 1) w' (spec_step l op).2.

Lemma init_inv : map_inv 0 mal_map_object_init [].
Proof using Type. split; try done; [exact new_storage_ok|constructor]. Qed.

Lemma reachable_inv n w l : reachable n w l -> 0 <= n /\ map_inv n w l.
Proof using Hshift KL.
  induction 1 as [|n w l op r w' _ [Hn IH] Hlt Hop Hs]; [split; [lia|apply init_inv]|].
  destruct (step_ok n w l op ltac:(lia) IH Hop) as (r' & w'' & Hs' & _ & Hi & _).
  rewrite Hs in Hs'. injection Hs' as <- <-. split; [lia|done].
Qed.

Lemma barriers_refl w : barriers_ok marking w w.
Proof using Type. split; try done; intros; by left. Qed.

Lemma barriers_trans w w1 w2 :
  barriers_ok marking w w1 -> barriers_ok marking w1 w2 -> barriers_ok marking w w2.
Proof using Type.
  intros [A B C D] [A' B' C' D']. split.
  - by transitivity (satb w1).
  - by transitivity (cards w1).
  - intros Hm x Hx. destruct (C Hm x Hx) as [H|H]; [by apply C'|]. right.
    destruct A' as [y ->]. apply elem_of_app. by left.
  - intros x Hx. destruct (D' x Hx) as [H|H]; [|by right].
    destruct (D x H) as [|H']; [by left|]. right. destruct B' as [y ->]. apply elem_of_app. by left.
Qed.

Lemma run_ok ops : forall n w l,
  0 <= n -> n + Z.of_nat (length ops) <= 2 ^ 28 -> map_inv n w l -> Forall op_ok ops ->
  exists rs w', run_map w ops = Ret (rs, w') /\
    Forall2 result_rel rs (run_spec l ops).1 /\
    map_inv (n + Z.of_nat (length ops)) w' (run_spec l ops).2 /\ barriers_ok marking w w'.
Proof using Hshift KL.
  induction ops as [|op ops IH]; intros n w l Hn Hlen Hi Hf; simpl in *.
  - exists [], w. rewrite Z.add_0_r. split_and!; try done. apply barriers_refl.
  - apply Forall_cons in Hf as [Hop Hf].
    destruct (step_ok n w l op ltac:(lia) Hi Hop) as (r & w1 & -> & Hr & Hi1 & Hb1 & _).
    cbn [mbind outcome_bind]. destruct (spec_step l op) as [a l1]. simpl in *.
    destruct (IH (n + 1) w1 l1 ltac:(lia) ltac:(lia) Hi1 Hf) as (rs & w2 & -> & Hrs & Hi2 & Hb2).
    cbn [mbind outcome_bind]. destruct (run_spec l1 ops) as [rs' l2]. simpl in *.
    exists (r :: rs), w2. split; [done|]. split; [by constructor|]. split.
    + replace (n + Z.of_nat (S (length ops))) with (n + 1 + Z.of_nat (length ops)) by lia. done.
    + by eapply barriers_trans.
Qed.

(** C1. Any sequence of Map operations, run from a fresh map, returns: no
    allocation-size abort, no lost fuel. The results are those of the same
    operations on ECMAScript's ordered list of entries compared with
    SameValueZero, and the store left behind stands for that list. *)
Theorem map_run_refines ops :
  Forall op_ok ops -> Z.of_nat (length ops) <= 2 ^ 28 ->
  exists rs w', run_map mal_map_object_init ops = Ret (rs, w') /\
    Forall2 result_rel rs (run_spec [] ops).1 /\
    represents (contents (storage_of w')) (run_spec [] ops).2.
Proof using Hshift KL.
  intros Hf Hlen.
  destruct (run_ok ops 0 mal_map_object_init [] ltac:(lia) ltac:(lia) init_inv Hf)
    as (rs & w' & Hr & Hrs & Hi & _).
  exists rs, w'. split; [done|]. split; [done|]. apply Hi.
Qed.

(** C2. Every reachable store satisfies the layout invariant: lanes of the
    right capacity for the key domain, no duplicate key, an index that reaches
    every live row within the occupancy limit, a hint that names a live row. *)
Theorem map_reachable_invariant n w l : reachable n w l -> storage_ok (storage_of w).
Proof using Hshift KL. intros Hr. apply (reachable_inv n w l Hr). Qed.

(** C4. Over any run of operations the collector's records cover the change:
    while marking, every word that was in the map is still in it or was
    shaded, and every word that entered it was carded. *)
Theorem map_barriers n w l ops rs w' :
  reachable n w l -> n + Z.of_nat (length ops) <= 2 ^ 28 -> Forall op_ok ops ->
  run_map w ops = Ret (rs, w') -> barriers_ok marking w w'.
Proof using Hshift KL.
  intros Hr Hlen Hf Hrun. destruct (reachable_inv n w l Hr) as [Hn Hi].
  destruct (run_ok ops n w l Hn Hlen Hi Hf) as (rs' & w'' & Hrun' & _ & _ & Hb).
  rewrite Hrun in Hrun'. by injection Hrun' as <- <-.
Qed.

(** While a cursor pins the store no operation moves a row: a live row
    keeps its position until it dies, a dead row stays dead, and new rows come
    after all of them. *)
Theorem map_pinned_rows_stable n w l op :
  reachable n w l -> n < 2 ^ 28 -> op_ok op -> pins (storage_of w) <> 0 ->
  exists r w', map_step w op = Ret (r, w') /\ cursor_stable (storage_of w) (storage_of w').
Proof using Hshift KL.
  intros Hr Hlt Hop Hp. destruct (reachable_inv n w l Hr) as [Hn Hi].
  destruct (step_ok n w l op ltac:(lia) Hi Hop) as (r & w' & Hs & _ & _ & _ & Hc).
  exists r, w'. split; [done|]. by apply Hc.
Qed.

(** The hinted lookup and the plain lookup name the same entry, for any
    store that satisfies the invariant and any canonical key. *)
Theorem map_find_paths_agree w key :
  storage_ok (storage_of w) -> canonical key ->
  exists e w', mal_map_object_find_canonical MASK_SHIFT w key = Ret e /\
    mal_map_object_find_hinted MASK_SHIFT w key = Ret (e, w') /\
    contents (storage_of w') = contents (storage_of w).
Proof using Hshift KL.
  intros Hok Hc. destruct (find_canonical_ok w key Hok Hc) as (e & He & Hres).
  destruct (find_hinted_ok MASK_SHIFT Hshift w key Hok Hc) as (e' & w' & He' & _ & Hs & Hres' & _).
  exists e, w'. split; [done|]. split; [|by apply same_rows_contents].
  assert (e' = e) as ->; [|done].
  destruct Hres as [[-> Ha]|[Hr Hho]], Hres' as [[-> Ha']|[Hr' Hho']]; try done.
  - exfalso. by eapply absent_or_holds.
  - exfalso. by eapply absent_or_holds.
  - destruct Hho as (Hi & k & v & Hrow & Ek), Hho' as (Hi' & k' & v' & Hrow' & Ek').
    pose proof (rows_unique _ _ _ k v k' v' key (st_keys _ Hok) Hi Hi' Hrow Hrow' Ek Ek'). lia.
Qed.
End refine.
