(* ===== verification/MapWitness.v ===== *)
(** A concrete string heap (two leaves, their concatenation flat and as a rope)
    on which the Map theorems of MapRefine are applied. *)

From S2P Require Import Prelude CheckedSize F64 Value HeapString HeapStringSpec HeapStringTheorems Key HashIndex HeapSizes.
From S2P Require Import MapObject MapRows MapStore MapInsert MapUpdate MapClear MapFind MapRefine.

Module Demo.
Import StringDemo.

#[local] Instance heap : KeyHeap := string_key_heap strings (fun _ => 0).
#[local] Instance laws : KeyHeapLaws heap.
Proof. apply string_key_heap_laws; [apply strings_ok|]. intros. by vm_compute. Qed.
#[local] Instance meta : StringMeta := {|
  string_storage p := mal_string_storage (strings p);
  string_latin1 p := str_latin1 (str_info (strings p));
  string_length p := mal_string_length (strings p);
  string_retained_capacity p := 0;
  |}.

(** The flat string at 48, the rope at 64 with the same units, the numbers 1 and
    NaN, and seven integers to leave the inline rows. *)
Definition flat_ab : Z := mal_value_from_string 48.
Definition rope_ab : Z := mal_value_from_string 64.
Definition one : Z := mal_value_from_i32 1.

Definition program : list map_op :=
  [MSet flat_ab one; MGet rope_ab; MSet MAL_VALUE_NAN flat_ab; MGet MAL_VALUE_NAN; MPin]
  ++ map (fun i => MSet (mal_value_from_i32 i) one) (seqZ 0 7)
  ++ [MSet MAL_VALUE_NEGATIVE_ZERO rope_ab; MGet (mal_value_from_i32 0); MSize;
      MDelete rope_ab; MHas flat_ab; MGetHinted one; MSetBorrowed one rope_ab 3; MUnpin;
      MCompact; MReserve 100; MEntries; MClear; MSize].

Lemma boxed_i32 n : in_i 32 n -> key_arg (mal_value_from_i32 n).
Proof.
  intros Hn. pose proof (from_i32_kind n Hn) as Hk. split.
  - split; [by apply from_i32_range|]. split; [intros _; by rewrite to_i32_from_i32|].
    intros Hd. congruence.
  - intros E. rewrite E in Hk. done.
Qed.

Lemma program_ok : Forall op_ok program.
Proof.
  assert (key_arg flat_ab /\ key_arg rope_ab /\ key_arg MAL_VALUE_NAN /\
          key_arg MAL_VALUE_NEGATIVE_ZERO) as (H1 & H2 & H3 & H4).
  { split_and!; (split; [split; [by vm_compute|split; [by vm_compute|]]|by vm_compute]); done. }
  assert (forall n, 0 <= n < 7 -> key_arg (mal_value_from_i32 n)) as H5.
  { intros. apply boxed_i32. unfold in_i. simpl. lia. }
  repeat constructor; try done; try (apply H5; lia); try (by vm_compute); simpl; lia.
Qed.

Lemma map_run_refines_witness :
  Forall op_ok program /\
  exists rs w', run_map 0 (fun _ => 0) true mal_map_object_init program = Ret (rs, w') /\
    Forall2 result_rel rs (run_spec [] program).1 /\
    represents (contents (storage_of w')) (run_spec [] program).2.
Proof.
  split; [exact program_ok|].
  apply (map_run_refines 0 ltac:(lia) (fun _ => 0) true program program_ok). by vm_compute.
Defined.

(** The world after the first nine operations: pinned, seven entries. *)
Definition prefix : list map_op := take 9 program.
Definition pinned_world : MapWorld :=
  match run_map 0 (fun _ => 0) true mal_map_object_init prefix with
  | Ret (_, w) => w
  | _ => mal_map_object_init
  end.

Lemma run_reachable ops : forall n w l rs w',
  reachable 0 (fun _ => 0) true n w l -> n + Z.of_nat (length ops) <= 2 ^ 28 -> Forall op_ok ops ->
  run_map 0 (fun _ => 0) true w ops = Ret (rs, w') ->
  reachable 0 (fun _ => 0) true (n + Z.of_nat (length ops)) w' (run_spec l ops).2.
Proof.
  induction ops as [|op ops IH]; intros n w l rs w' Hr Hn Hf Hrun.
  - injection Hrun as <- <-. by rewrite Z.add_0_r.
  - cbn [run_map] in Hrun. apply Forall_cons in Hf as [Hop Hf]. simpl in Hn.
    apply bind_Ret_inv in Hrun as ([r w1] & Hs & Hrun). cbn [mbind outcome_bind] in Hrun.
    apply bind_Ret_inv in Hrun as ([rs1 w2] & Hrun & [= <- <-]).
    pose proof (reach_step _ _ _ n w l op r w1 Hr ltac:(lia) Hop Hs) as Hr1.
    specialize (IH (n + 1) w1 (spec_step l op).2 rs1 w2 Hr1 ltac:(lia) Hf Hrun).
    cbn [run_spec]. destruct (spec_step l op) as [a l1]. simpl in IH |- *.
    destruct (run_spec l1 ops) as [rs' l2]. simpl in *.
    replace (n + Z.of_nat (S (length ops))) with (n + 1 + Z.of_nat (length ops)) by lia. done.
Qed.

Lemma prefix_reachable : reachable 0 (fun _ => 0) true 9 pinned_world (run_spec [] prefix).2.
Proof.
  destruct (run_map 0 (fun _ => 0) true mal_map_object_init prefix) as [[rs w]| |] eqn:E;
    [|by vm_compute in E|by vm_compute in E].
  unfold pinned_world. rewrite E.
  apply (run_reachable prefix 0 mal_map_object_init [] rs); [constructor|done| |done].
  apply Forall_take, program_ok.
Qed.

Lemma map_reachable_invariant_witness :
  arr_len (contents (storage_of pinned_world)) = 6 /\ storage_ok (storage_of pinned_world).
Proof.
  split; [by vm_compute|].
  apply (map_reachable_invariant 0 ltac:(lia) (fun _ => 0) true 9 _ _ prefix_reachable).
Defined.

Lemma map_barriers_witness :
  exists rs w', run_map 0 (fun _ => 0) true pinned_world (drop 9 program) = Ret (rs, w') /\
    barriers_ok true pinned_world w'.
Proof.
  destruct (run_map 0 (fun _ => 0) true pinned_world (drop 9 program)) as [[rs w]| |] eqn:E;
    [|by vm_compute in E|by vm_compute in E].
  exists rs, w. split; [done|].
  apply (map_barriers 0 ltac:(lia) (fun _ => 0) true 9 pinned_world _ (drop 9 program) rs w prefix_reachable);
    [by vm_compute|apply Forall_drop, program_ok|exact E].
Defined.

Lemma map_pinned_rows_stable_witness :
  pins (storage_of pinned_world) = 1 /\
  exists r w', map_step 0 (fun _ => 0) true pinned_world (MDelete rope_ab) = Ret (r, w') /\
    cursor_stable (storage_of pinned_world) (storage_of w').
Proof.
  split; [by vm_compute|].
  apply (map_pinned_rows_stable 0 ltac:(lia) (fun _ => 0) true 9 pinned_world _ (MDelete rope_ab) prefix_reachable);
    [lia| |by vm_compute].
  pose proof program_ok as H. rewrite Forall_forall in H.
  apply (H (MDelete rope_ab)). apply list_elem_of_In. by vm_compute; tauto.
Defined.

Lemma map_find_paths_agree_witness :
  exists e w', mal_map_object_find_canonical 0 pinned_world rope_ab = Ret e /\
    mal_map_object_find_hinted 0 pinned_world rope_ab = Ret (e, w') /\
    contents (storage_of w') = contents (storage_of pinned_world).
Proof.
  apply (map_find_paths_agree 0 ltac:(lia) pinned_world rope_ab).
  - apply (reachable_inv 0 ltac:(lia) (fun _ => 0) true 9 _ _ prefix_reachable).
  - split_and!; [by vm_compute|by vm_compute|by vm_compute|done].
Defined.
End Demo.
