(* ===== verification/Endian.v ===== *)
(** Byte transport of scalars: [runtime/src/endian.h] (explicit byte order, used
    by DataView and the serializers) and the integer reinterpretations of
    [runtime/src/scalar_bits.h]. A buffer is the list of its bytes. *)

From S2P Require Import Prelude.

(** * [endian.h] *)

(** [byte b k]: the conversion [(uN) bytes[b] << k]. *)
Definition byte_at (bytes : list Z) (index shift : Z) : Z := Z.shiftl (arr_get bytes index) shift.

Definition mal_load_u16_le (bytes : list Z) : Z :=
  u16 (Z.lor (byte_at bytes 0 0) (byte_at bytes 1 8)).
Definition mal_load_u16_be (bytes : list Z) : Z :=
  u16 (Z.lor (byte_at bytes 0 8) (byte_at bytes 1 0)).
Definition mal_load_u32_le (bytes : list Z) : Z :=
  Z.lor (Z.lor (Z.lor (byte_at bytes 0 0) (byte_at bytes 1 8)) (byte_at bytes 2 16)) (byte_at bytes 3 24).
Definition mal_load_u32_be (bytes : list Z) : Z :=
  Z.lor (Z.lor (Z.lor (byte_at bytes 0 24) (byte_at bytes 1 16)) (byte_at bytes 2 8)) (byte_at bytes 3 0).
Definition mal_load_u64_le (bytes : list Z) : Z :=
  Z.lor (Z.lor (Z.lor (Z.lor (Z.lor (Z.lor (Z.lor
    (byte_at bytes 0 0) (byte_at bytes 1 8)) (byte_at bytes 2 16)) (byte_at bytes 3 24))
    (byte_at bytes 4 32)) (byte_at bytes 5 40)) (byte_at bytes 6 48)) (byte_at bytes 7 56).
Definition mal_load_u64_be (bytes : list Z) : Z :=
  Z.lor (Z.lor (Z.lor (Z.lor (Z.lor (Z.lor (Z.lor
    (byte_at bytes 0 56) (byte_at bytes 1 48)) (byte_at bytes 2 40)) (byte_at bytes 3 32))
    (byte_at bytes 4 24)) (byte_at bytes 5 16)) (byte_at bytes 6 8)) (byte_at bytes 7 0).

Definition mal_store_u16_le (bytes : list Z) (value : Z) : list Z :=
  let bytes := arr_set bytes 0 (u8 value) in
  arr_set bytes 1 (u8 (Z.shiftr value 8)).
Definition mal_store_u16_be (bytes : list Z) (value : Z) : list Z :=
  let bytes := arr_set bytes 0 (u8 (Z.shiftr value 8)) in
  arr_set bytes 1 (u8 value).
Definition mal_store_u32_le (bytes : list Z) (value : Z) : list Z :=
  let bytes := arr_set bytes 0 (u8 value) in
  let bytes := arr_set bytes 1 (u8 (Z.shiftr value 8)) in
  let bytes := arr_set bytes 2 (u8 (Z.shiftr value 16)) in
  arr_set bytes 3 (u8 (Z.shiftr value 24)).
Definition mal_store_u32_be (bytes : list Z) (value : Z) : list Z :=
  let bytes := arr_set bytes 0 (u8 (Z.shiftr value 24)) in
  let bytes := arr_set bytes 1 (u8 (Z.shiftr value 16)) in
  let bytes := arr_set bytes 2 (u8 (Z.shiftr value 8)) in
  arr_set bytes 3 (u8 value).
(** The loop of the 64-bit stores from [index] on. *)
Fixpoint store_u64_loop (fuel : nat) (shift : Z -> Z) (bytes : list Z) (value index : Z) : list Z :=
  match fuel with
  | O => bytes
  | S fuel =>
      store_u64_loop fuel shift (arr_set bytes index (u8 (Z.shiftr value (shift index)))) value (index + 1)
  end.
Definition mal_store_u64_le (bytes : list Z) (value : Z) : list Z :=
  store_u64_loop 8 (fun index => index * 8) bytes value 0.
Definition mal_store_u64_be (bytes : list Z) (value : Z) : list Z :=
  store_u64_loop 8 (fun index => (7 - index) * 8) bytes value 0.

(** * [scalar_bits.h] *)

(** A [memcpy] between integers of one width reads the same bits. *)
Definition mal_scalar_i8_from_bits (bits : Z) : Z := swrap 8 bits.
Definition mal_scalar_i16_from_bits (bits : Z) : Z := swrap 16 bits.
Definition mal_scalar_i32_from_bits (bits : Z) : Z := swrap 32 bits.
Definition mal_scalar_i64_from_bits (bits : Z) : Z := swrap 64 bits.

(** * Round trips *)

(** Bit [i] of byte [k / 8] of a value, moved back to its place. *)
Lemma byte_bit v k i :
  0 <= k -> 0 <= i ->
  Z.testbit (Z.shiftl (u8 (Z.shiftr v k)) k) i = (k <=? i) && (i <? k + 8) && Z.testbit v i.
Proof.
  intros Hk Hi. rewrite Z.shiftl_spec by lia. unfold u8, wrap.
  destruct (Z.leb_spec k i); cbn [andb]; [|by rewrite Z.testbit_neg_r by lia].
  destruct (Z.ltb_spec i (k + 8)); cbn [andb].
  - rewrite Z.mod_pow2_bits_low, Z.shiftr_spec by lia. f_equal. lia.
  - by rewrite Z.mod_pow2_bits_high by lia.
Qed.

Lemma in_u_bits n v i : 0 <= n -> in_u n v -> n <= i -> Z.testbit v i = false.
Proof.
  intros Hn Hv Hi. rewrite <- (Z.mod_small v (2 ^ n)) by done. by rewrite Z.mod_pow2_bits_high by lia.
Qed.

(** Solves [v = lor of the bytes of v]. *)
Ltac join_bytes n Hv :=
  apply Z.bits_inj'; let i := fresh "i" in let Hi := fresh in
  intros i Hi; rewrite ?Z.lor_spec, ?byte_bit by lia;
  destruct (Z.lt_ge_cases i n);
  [ destruct (Z.testbit _ i); [lia|by rewrite !andb_false_r]
  | rewrite (in_u_bits n _ i) by (done || lia); by rewrite !andb_false_r ].

Lemma join_u64_le v : in_u 64 v ->
  Z.lor (Z.lor (Z.lor (Z.lor (Z.lor (Z.lor (Z.lor
    (Z.shiftl (u8 (Z.shiftr v 0)) 0) (Z.shiftl (u8 (Z.shiftr v 8)) 8)) (Z.shiftl (u8 (Z.shiftr v 16)) 16))
    (Z.shiftl (u8 (Z.shiftr v 24)) 24)) (Z.shiftl (u8 (Z.shiftr v 32)) 32))
    (Z.shiftl (u8 (Z.shiftr v 40)) 40)) (Z.shiftl (u8 (Z.shiftr v 48)) 48))
    (Z.shiftl (u8 (Z.shiftr v 56)) 56) = v.
Proof. intros Hv. join_bytes 64 Hv. Qed.

(** The three widths, so that the laws are stated once. *)
Inductive width : Type := W16 | W32 | W64.
Definition width_bytes (w : width) : Z := match w with W16 => 2 | W32 => 4 | W64 => 8 end.
Definition width_bits (w : width) : Z := 8 * width_bytes w.
Definition load (w : width) (big : bool) : list Z -> Z :=
  match w, big with
  | W16, false => mal_load_u16_le | W16, true => mal_load_u16_be
  | W32, false => mal_load_u32_le | W32, true => mal_load_u32_be
  | W64, false => mal_load_u64_le | W64, true => mal_load_u64_be
  end.
Definition store (w : width) (big : bool) : list Z -> Z -> list Z :=
  match w, big with
  | W16, false => mal_store_u16_le | W16, true => mal_store_u16_be
  | W32, false => mal_store_u32_le | W32, true => mal_store_u32_be
  | W64, false => mal_store_u64_le | W64, true => mal_store_u64_be
  end.

(** Byte [i] of the stored image. *)
Definition image_shift (w : width) (big : bool) (i : Z) : Z :=
  if big then (width_bytes w - 1 - i) * 8 else i * 8.

Lemma arr_get_set_if (l : list Z) i j x :
  0 <= i < arr_len l -> 0 <= j -> arr_get (arr_set l i x) j = if j =? i then x else arr_get l j.
Proof.
  intros Hi Hj. destruct (Z.eqb_spec j i) as [->|].
  - by apply arr_get_set_eq.
  - apply arr_get_set_ne; lia.
Qed.

Lemma store_get w big bytes v i :
  width_bytes w <= arr_len bytes -> 0 <= i ->
  arr_get (store w big bytes v) i
  = if i <? width_bytes w then u8 (Z.shiftr v (image_shift w big i)) else arr_get bytes i.
Proof.
  intros Hl Hi. unfold image_shift.
  destruct w, big; cbn [store store_u64_loop width_bytes] in *;
    unfold mal_store_u16_le, mal_store_u16_be, mal_store_u32_le, mal_store_u32_be,
      mal_store_u64_le, mal_store_u64_be; cbn [store_u64_loop]; cbn [Z.add];
    rewrite !arr_get_set_if by (rewrite ?arr_len_set; lia);
    repeat match goal with |- context [i =? ?k] => destruct (Z.eqb_spec i k) as [->|] end;
    cbn; try lia; try done;
    match goal with |- context [i <? ?k] => destruct (Z.ltb_spec i k); [lia|done] end.
Qed.

Lemma store_len w big bytes v : arr_len (store w big bytes v) = arr_len bytes.
Proof.
  destruct w, big; cbn [store];
    unfold mal_store_u16_le, mal_store_u16_be, mal_store_u32_le, mal_store_u32_be,
      mal_store_u64_le, mal_store_u64_be; cbn [store_u64_loop]; by rewrite !arr_len_set.
Qed.

(** Two bytes or-ed stay within 16 bits. *)
Lemma u16_join a b i j :
  in_u 8 a -> in_u 8 b -> 0 <= i <= 8 -> 0 <= j <= 8 -> in_u 16 (Z.lor (Z.shiftl a i) (Z.shiftl b j)).
Proof.
  intros Ha Hb Hi Hj.
  assert (forall x k, in_u 8 x -> 0 <= k <= 8 -> in_u 16 (Z.shiftl x k)) as H.
  { unfold in_u. intros x k Hx Hk. rewrite Z.shiftl_mul_pow2 by lia.
    assert (2 ^ k <= 2 ^ 8) by (apply Z.pow_le_mono_r; lia).
    assert (0 < 2 ^ k) by (apply Z.pow_pos_nonneg; lia). change (2 ^ 16) with (2 ^ 8 * 2 ^ 8). nia. }
  apply lor_range; [lia|by apply H|by apply H].
Qed.

Lemma u8_range v : in_u 8 (u8 v).
Proof. by apply wrap_range. Qed.

(** The load of any buffer that holds the image of [v]. *)
Lemma load_image w big bytes v :
  in_u (width_bits w) v ->
  (forall i, 0 <= i < width_bytes w -> arr_get bytes i = u8 (Z.shiftr v (image_shift w big i))) ->
  load w big bytes = v.
Proof.
  intros Hv Hb. unfold width_bits in Hv.
  destruct w, big; cbn [load width_bytes image_shift] in *;
    unfold mal_load_u16_le, mal_load_u16_be, mal_load_u32_le, mal_load_u32_be,
      mal_load_u64_le, mal_load_u64_be, byte_at;
    rewrite !Hb by lia; unfold image_shift, u16; cbn -[Z.shiftl Z.shiftr Z.lor u8 wrap Z.pow];
    rewrite ?(wrap_small 16) by (apply u16_join; apply u8_range || lia).
  - join_bytes 16 Hv.
  - join_bytes 16 Hv.
  - join_bytes 32 Hv.
  - join_bytes 32 Hv.
  - join_bytes 64 Hv.
  - join_bytes 64 Hv.
Qed.

(** Byte [i] of the loaded value is the byte the load read for it. *)
Lemma load_byte w big bytes i :
  Forall (in_u 8) bytes -> width_bytes w <= arr_len bytes -> 0 <= i < width_bytes w ->
  u8 (Z.shiftr (load w big bytes) (image_shift w big i)) = arr_get bytes i.
Proof.
  intros Hf Hl Hi.
  assert (forall k, 0 <= k < width_bytes w -> in_u 8 (arr_get bytes k)) as Hr.
  { intros k Hk. rewrite Forall_lookup in Hf. apply (Hf (Z.to_nat k)), arr_get_lookup. lia. }
  assert (forall k j, 0 <= k < width_bytes w -> 8 <= j -> Z.testbit (arr_get bytes k) j = false) as Hhi.
  { intros k j Hk Hj. eapply (in_u_bits 8); [lia|by apply Hr|done]. }
  apply Z.bits_inj'. intros n Hn. unfold u8, wrap.
  destruct (Z.lt_ge_cases n 8) as [H8|H8].
  2: { rewrite Z.mod_pow2_bits_high by lia. by rewrite Hhi. }
  rewrite Z.mod_pow2_bits_low by lia.
  assert (0 <= image_shift w big i) as Hs by (unfold image_shift; destruct w, big; simpl in *; lia).
  rewrite Z.shiftr_spec by lia.
  assert (i = 0 \/ i = 1 \/ i = 2 \/ i = 3 \/ i = 4 \/ i = 5 \/ i = 6 \/ i = 7) as Hcase
    by (destruct w; simpl in *; lia).
  destruct w, big; cbn [load width_bytes] in *;
    unfold mal_load_u16_le, mal_load_u16_be, mal_load_u32_le, mal_load_u32_be,
      mal_load_u64_le, mal_load_u64_be, byte_at, u16, image_shift in *; cbn [width_bytes] in *;
    rewrite ?(wrap_small 16) by (apply u16_join; [apply Hr; lia|apply Hr; lia|lia|lia]);
    rewrite !Z.lor_spec, !Z.shiftl_spec by lia;
    destruct Hcase as [->|[->|[->|[->|[->|[->|[->| ->]]]]]]]; try lia; clear Hi Hs;
    repeat match goal with
    | |- context [Z.testbit (arr_get bytes ?k) ?j] =>
        first [rewrite (Z.testbit_neg_r (arr_get bytes k) j) by lia | rewrite (Hhi k j) by lia]
    end; rewrite ?orb_false_r, ?orb_false_l; f_equal; lia.
Qed.

Lemma load_range w big bytes :
  Forall (in_u 8) bytes -> width_bytes w <= arr_len bytes -> in_u (width_bits w) (load w big bytes).
Proof.
  intros Hf Hl. unfold width_bits.
  assert (forall k s, 0 <= k < width_bytes w -> 0 <= s <= width_bits w - 8 ->
            in_u (8 * width_bytes w) (byte_at bytes k s)) as Hr.
  { intros k s Hk Hs. unfold byte_at.
    assert (in_u 8 (arr_get bytes k)) as [H1 H2].
    { rewrite Forall_lookup in Hf. apply (Hf (Z.to_nat k)), arr_get_lookup. lia. }
    unfold in_u. rewrite Z.shiftl_mul_pow2 by lia. unfold width_bits in Hs.
    assert (2 ^ s <= 2 ^ (8 * width_bytes w - 8)) by (apply Z.pow_le_mono_r; lia).
    assert (2 ^ (8 * width_bytes w) = 2 ^ (8 * width_bytes w - 8) * 2 ^ 8) as ->.
    { rewrite <- Z.pow_add_r by lia. f_equal. lia. }
    assert (0 < 2 ^ s) by (apply Z.pow_pos_nonneg; lia). nia. }
  unfold width_bits in Hr.
  destruct w, big; cbn [load width_bytes] in *;
    unfold mal_load_u16_le, mal_load_u16_be, mal_load_u32_le, mal_load_u32_be,
      mal_load_u64_le, mal_load_u64_be; try (by apply wrap_range);
    repeat (apply lor_range; [lia| |]); apply Hr; lia.
Qed.

Lemma arr_get_rev_take (l : list Z) n i :
  0 <= i < n -> n <= arr_len l -> arr_get (reverse (take (Z.to_nat n) l)) i = arr_get l (n - 1 - i).
Proof.
  intros Hi Hn. unfold arr_len in Hn. apply arr_get_of_lookup.
  rewrite reverse_lookup by (rewrite length_take; lia).
  rewrite length_take, lookup_take_lt by lia.
  replace (Z.to_nat n `min` length l - S (Z.to_nat i))%nat with (Z.to_nat (n - 1 - i)) by lia.
  apply arr_get_lookup. unfold arr_len. lia.
Qed.

(** A scalar stored in either byte order at any of the three widths is read
    back by the load of the same order, and the bytes past it are untouched. *)
Theorem endian_store_load w big bytes v :
  width_bytes w <= arr_len bytes -> in_u (width_bits w) v ->
  load w big (store w big bytes v) = v /\
  forall i, width_bytes w <= i -> arr_get (store w big bytes v) i = arr_get bytes i.
Proof.
  intros Hl Hv. assert (0 < width_bytes w) by (by destruct w). split.
  - apply load_image; [done|]. intros i Hi. rewrite store_get by lia.
    destruct (Z.ltb_spec i (width_bytes w)); [done|lia].
  - intros i Hi. rewrite store_get by lia. destruct (Z.ltb_spec i (width_bytes w)); [lia|done].
Qed.

Lemma endian_store_load_witness :
  load W32 true (store W32 true [1; 2; 3; 4; 5] 0xdeadbeef) = 0xdeadbeef.
Proof. apply (endian_store_load W32 true [1; 2; 3; 4; 5] 0xdeadbeef); by vm_compute. Defined.

(** Storing back a loaded scalar restores the buffer, and the two orders
    read reversed images of each other. *)
Theorem endian_load_store w big bytes :
  Forall (in_u 8) bytes -> width_bytes w <= arr_len bytes ->
  store w big bytes (load w big bytes) = bytes /\
  load w (negb big) (reverse (take (Z.to_nat (width_bytes w)) bytes)) = load w big bytes.
Proof.
  intros Hf Hl. assert (0 < width_bytes w) by (by destruct w). split.
  - apply arr_ext; [apply store_len|]. intros i Hi. rewrite store_get by lia.
    destruct (Z.ltb_spec i (width_bytes w)); [|done]. apply load_byte; done || lia.
  - pose proof (load_range w big bytes Hf Hl) as Hv. apply load_image; [done|]. intros i Hi.
    rewrite (arr_get_rev_take bytes (width_bytes w) i) by done.
    rewrite <- (load_byte w big bytes) by (done || lia). do 2 f_equal.
    unfold image_shift. destruct big; simpl; lia.
Qed.

Lemma endian_load_store_witness :
  store W64 false [1; 2; 3; 4; 5; 6; 7; 255; 9] (load W64 false [1; 2; 3; 4; 5; 6; 7; 255; 9])
  = [1; 2; 3; 4; 5; 6; 7; 255; 9].
Proof.
  apply (endian_load_store W64 false [1; 2; 3; 4; 5; 6; 7; 255; 9]); [|by vm_compute].
  repeat constructor; by vm_compute.
Defined.

(** The signed reinterpretations keep the bits and land in the signed range. *)
Lemma scalar_bits_roundtrip n bits :
  0 < n -> in_u n bits -> wrap n (swrap n bits) = bits /\ in_i n (swrap n bits).
Proof.
  intros Hn Hb. rewrite wrap_swrap, wrap_small by (done || lia). split; [done|by apply swrap_range].
Qed.
