(* ===== verification/Base64.v ===== *)
(** Base64 and hexadecimal text: [runtime/src/base64.c], [runtime/src/hex.c], the
    strict decoders of Uint8Array in [runtime/src/builtin_typed_array.c] and the
    forgiving decoder of Node's Buffer in [runtime/src/runtime/node_buffer.c].
    Bytes and code units are integers; an output buffer is the list of the bytes
    written so far. *)

From Stdlib Require Import Ascii String.
From S2P Require Import Prelude CheckedSize.

Inductive MalBase64Alphabet : Type :=
  MAL_BASE64_ALPHABET_STANDARD | MAL_BASE64_ALPHABET_URL | MAL_BASE64_ALPHABET_EITHER.
#[export] Instance alphabet_eq_dec : EqDecision MalBase64Alphabet.
Proof. solve_decision. Defined.

(** The bytes of a C string literal. *)
Definition literal (s : string) : list Z :=
  map (fun c => Z.of_N (N_of_ascii c)) (list_ascii_of_string s).

Definition mal_base64_alphabet_standard : list Z :=
  Eval cbv in literal "ABCDEFGHIJKLMNOPQRSTUVWXYZabcdefghijklmnopqrstuvwxyz0123456789+/".
Definition mal_base64_alphabet_url : list Z :=
  Eval cbv in literal "ABCDEFGHIJKLMNOPQRSTUVWXYZabcdefghijklmnopqrstuvwxyz0123456789-_".

(** The code's character constants. *)
Definition PAD : Z := 61.
Definition in_range (lo c hi : Z) : bool := (lo <=? c) && (c <=? hi).

Definition mal_base64_encoded_length (input_length : Z) (padding : bool) (limit : Z) : option Z :=
  match mal_checked_size_multiply (input_length / 3) 4 limit with
  | None => None
  | Some full_length =>
      let remaining := input_length mod 3 in
      let tail_length := if remaining =? 0 then 0 else if padding then 4 else remaining + 1 in
      mal_checked_size_add full_length tail_length limit
  end.

Definition mal_base64_is_ascii_whitespace (unit : Z) : bool :=
  (unit =? 0x09) || (unit =? 0x0a) || (unit =? 0x0c) || (unit =? 0x0d) || (unit =? 0x20).

Definition mal_base64_decode_digit (unit : Z) (alphabet : MalBase64Alphabet) : Z :=
  if in_range 65 unit 90 then unit - 65
  else if in_range 97 unit 122 then unit - 97 + 26
  else if in_range 48 unit 57 then unit - 48 + 52
  else if (unit =? 43) && negb (bool_decide (alphabet = MAL_BASE64_ALPHABET_URL)) then 62
  else if (unit =? 47) && negb (bool_decide (alphabet = MAL_BASE64_ALPHABET_URL)) then 63
  else if (unit =? 45) && negb (bool_decide (alphabet = MAL_BASE64_ALPHABET_STANDARD)) then 62
  else if (unit =? 95) && negb (bool_decide (alphabet = MAL_BASE64_ALPHABET_STANDARD)) then 63
  else -1.

(** * Encoding *)

(** The bytes a block writes; the block is the input's next one to three bytes. *)
Definition mal_base64_encode_block (input : list Z) (alphabet : MalBase64Alphabet) (padding : bool)
  : list Z :=
  let input_length := arr_len input in
  if input_length =? 0 then []
  else
    let digits := if bool_decide (alphabet = MAL_BASE64_ALPHABET_URL)
                  then mal_base64_alphabet_url else mal_base64_alphabet_standard in
    let word := Z.shiftl (u8 (arr_get input 0)) 16 in
    let word := if 1 <? input_length then Z.lor word (Z.shiftl (u8 (arr_get input 1)) 8) else word in
    let word := if 2 <? input_length then Z.lor word (u8 (arr_get input 2)) else word in
    [arr_get digits (Z.land (Z.shiftr word 18) 0x3f); arr_get digits (Z.land (Z.shiftr word 12) 0x3f)]
    ++ (if 1 <? input_length then [arr_get digits (Z.land (Z.shiftr word 6) 0x3f)]
        else if padding then [PAD] else [])
    ++ (if 2 <? input_length then [arr_get digits (Z.land word 0x3f)]
        else if padding then [PAD] else []).

(** The loop over the rest of the input. *)
Fixpoint encode_loop (fuel : nat) (input : list Z) (alphabet : MalBase64Alphabet) (padding : bool)
  : list Z :=
  match fuel with
  | O => []
  | S fuel =>
      if arr_len input =? 0 then []
      else
        let remaining := arr_len input in
        let block_length := if remaining <? 3 then remaining else 3 in
        mal_base64_encode_block (take (Z.to_nat block_length) input) alphabet padding
        ++ encode_loop fuel (drop (Z.to_nat block_length) input) alphabet padding
  end.
Definition mal_base64_encode (input : list Z) (alphabet : MalBase64Alphabet) (padding : bool) : list Z :=
  encode_loop (S (length input)) input alphabet padding.

(** * The strict decoder of Uint8Array *)

Inductive MalB64LastChunk : Type := MAL_B64_LOOSE | MAL_B64_STRICT | MAL_B64_STOP.
#[export] Instance last_chunk_eq_dec : EqDecision MalB64LastChunk.
Proof. solve_decision. Defined.

(** The return value: [false] raises a SyntaxError; the units read and the bytes
    written are reported either way. *)
Record Decoded : Type := mkDecoded { ok : bool; read : Z; written : list Z }.

(** Where the digit loop stopped: it returned, or the tail from unit [i] on is
    left with the pending sextets. *)
Inductive LoopExit : Type :=
  | LoopReturn (d : Decoded)
  | LoopTail (rest : list Z) (i : Z) (out : list Z) (read : Z) (acc nsext : Z).

Fixpoint decode_loop (rest : list Z) (i : Z) (url : bool) (max_out : Z)
    (out : list Z) (read acc nsext : Z) : LoopExit :=
  match rest with
  | [] => LoopTail [] i out read acc nsext
  | c :: rest' =>
      if mal_base64_is_ascii_whitespace c then decode_loop rest' (i + 1) url max_out out read acc nsext
      else if c =? PAD then LoopTail rest i out read acc nsext
      else
        let v := mal_base64_decode_digit c
                   (if url then MAL_BASE64_ALPHABET_URL else MAL_BASE64_ALPHABET_STANDARD) in
        if v <? 0 then LoopReturn (mkDecoded false read out)
        else
          let acc := Z.lor (u32 (Z.shiftl acc 6)) v in
          let nsext := nsext + 1 in
          let i := i + 1 in
          if nsext =? 4 then
            if max_out <? arr_len out + 3 then LoopReturn (mkDecoded true read out)
            else
              let out := out ++ [Z.land (Z.shiftr acc 16) 0xff; Z.land (Z.shiftr acc 8) 0xff;
                                 Z.land acc 0xff] in
              if arr_len out =? max_out then LoopReturn (mkDecoded true i out)
              else decode_loop rest' i url max_out out i 0 0
          else decode_loop rest' i url max_out out read acc nsext
  end.

(** Only whitespace is left. *)
Definition only_whitespace (rest : list Z) : bool := forallb mal_base64_is_ascii_whitespace rest.

Fixpoint skip_whitespace (rest : list Z) : list Z :=
  match rest with
  | c :: rest' => if mal_base64_is_ascii_whitespace c then skip_whitespace rest' else rest
  | [] => []
  end.

(** The padding characters seen, up to [needed], each with the whitespace after it. *)
Fixpoint take_padding (needed : nat) (rest : list Z) : Z * list Z :=
  match needed with
  | O => (0, rest)
  | S needed =>
      match rest with
      | c :: rest' =>
          if c =? PAD then
            let '(seen, rest) := take_padding needed (skip_whitespace rest') in (1 + seen, rest)
          else (0, rest)
      | [] => (0, [])
      end
  end.

(** The bytes of the final partial chunk, high byte first. *)
Definition tail_bytes (value produced : Z) : list Z :=
  map (fun b => Z.land (Z.shiftr value (b * 8)) 0xff) (reverse (seqZ 0 produced)).

Definition decode_tail (len : Z) (last_chunk : MalB64LastChunk) (max_out : Z)
    (rest out : list Z) (read acc nsext : Z) : Decoded :=
  if nsext =? 0 then
    if only_whitespace rest then mkDecoded true len out else mkDecoded false read out
  else
    let has_padding := match rest with c :: _ => c =? PAD | [] => false end in
    let produced := if nsext =? 2 then 1 else 2 in
    let used_bits := produced * 8 in
    let extra_mask := if nsext =? 1 then 0 else Z.shiftl 1 (nsext * 6 - used_bits) - 1 in
    let emit :=
      let value := Z.shiftr acc (nsext * 6 - used_bits) in
      mkDecoded true len
        (if arr_len out + produced <=? max_out then out ++ tail_bytes value produced else out) in
    if (2 <=? nsext) && (max_out <? arr_len out + produced) then mkDecoded true read out
    else if negb has_padding then
      if bool_decide (last_chunk = MAL_B64_STOP) then mkDecoded true read out
      else if nsext =? 1 then mkDecoded false read out
      else if bool_decide (last_chunk = MAL_B64_STRICT) then mkDecoded false read out
      else emit
    else if nsext =? 1 then mkDecoded false read out
    else
      let needed_padding := 4 - nsext in
      let '(seen, rest) := take_padding (Z.to_nat needed_padding) rest in
      if seen <? needed_padding then
        mkDecoded (bool_decide (last_chunk = MAL_B64_STOP)) read out
      else if negb (only_whitespace rest) then mkDecoded false read out
      else if bool_decide (last_chunk = MAL_B64_STRICT) && negb (Z.land acc extra_mask =? 0)
      then mkDecoded false read out
      else emit.

Definition mal_b64_decode (s : list Z) (url : bool) (last_chunk : MalB64LastChunk) (max_out : Z)
  : Decoded :=
  if max_out =? 0 then mkDecoded true 0 []
  else
    match decode_loop s 0 url max_out [] 0 0 0 with
    | LoopReturn d => d
    | LoopTail rest _ out read acc nsext => decode_tail (arr_len s) last_chunk max_out rest out read acc nsext
    end.

(** * The forgiving decoder of Buffer *)

(** The units of the string up to padding, a full buffer, or the end. *)
Fixpoint forgiving_loop (units : list Z) (capacity : Z) (out : list Z) (accumulator sextets : Z)
  : list Z * Z * Z :=
  match units with
  | [] => (out, accumulator, sextets)
  | unit :: units =>
      if unit =? PAD then (out, accumulator, sextets)
      else
        let digit := mal_base64_decode_digit unit MAL_BASE64_ALPHABET_EITHER in
        if digit <? 0 then forgiving_loop units capacity out accumulator sextets
        else
          let accumulator := Z.lor (u32 (Z.shiftl accumulator 6)) digit in
          let sextets := sextets + 1 in
          if sextets =? 4 then
            let block := [u8 (Z.shiftr accumulator 16); u8 (Z.shiftr accumulator 8); u8 accumulator] in
            let room := capacity - arr_len out in
            let copy := if room <? 3 then room else 3 in
            let out := out ++ take (Z.to_nat copy) block in
            if arr_len out =? capacity then (out, accumulator, sextets)
            else forgiving_loop units capacity out 0 0
          else forgiving_loop units capacity out accumulator sextets
  end.

Definition push_byte (capacity b : Z) (out : list Z) : list Z :=
  if arr_len out <? capacity then out ++ [b] else out.

Definition mal_buffer_decode_base64_into (units : list Z) (capacity : Z) : list Z :=
  if capacity =? 0 then []
  else
    let '(out, accumulator, sextets) := forgiving_loop units capacity [] 0 0 in
    if sextets =? 2 then push_byte capacity (Z.land (Z.shiftr accumulator 4) 0xff) out
    else if sextets =? 3 then
      push_byte capacity (Z.land (Z.shiftr accumulator 2) 0xff)
        (push_byte capacity (Z.land (Z.shiftr accumulator 10) 0xff) out)
    else out.

(** * Hexadecimal *)

Definition mal_hex_lower_digits : list Z := Eval cbv in literal "0123456789abcdef".

Definition mal_hex_encoded_length (input_length limit : Z) : option Z :=
  mal_checked_size_multiply input_length 2 limit.

Definition mal_hex_decode_digit (unit : Z) : Z :=
  if in_range 48 unit 57 then unit - 48
  else if in_range 97 unit 102 then unit - 97 + 10
  else if in_range 65 unit 70 then unit - 65 + 10
  else -1.

Definition mal_hex_encode_byte_lower (value : Z) : list Z :=
  let octet := u8 value in
  [arr_get mal_hex_lower_digits (Z.shiftr octet 4); arr_get mal_hex_lower_digits (Z.land octet 0x0f)].
Definition mal_hex_encode_lower (input : list Z) : list Z :=
  flat_map mal_hex_encode_byte_lower input.

Fixpoint hex_loop (rest : list Z) (i max_out : Z) (out : list Z) : Decoded :=
  match rest with
  | a :: b :: rest =>
      if max_out <? arr_len out + 1 then mkDecoded true i out
      else
        let hi := mal_hex_decode_digit a in
        let lo := mal_hex_decode_digit b in
        if (hi <? 0) || (lo <? 0) then mkDecoded false i out
        else hex_loop rest (i + 2) max_out (out ++ [u8 (Z.lor (Z.shiftl hi 4) lo)])
  | _ => mkDecoded true i out
  end.
Definition mal_hex_decode (s : list Z) (max_out : Z) : Decoded :=
  if negb (arr_len s mod 2 =? 0) then mkDecoded false 0 []
  else hex_loop s 0 max_out [].
