(* ===== verification/Base64Spec.v ===== *)
(** Round trips, lengths and bounds of the base64 and hexadecimal codecs. *)

From Stdlib Require Import String.
From S2P Require Import Prelude CheckedSize Base64.
#[local] Open Scope list_scope.

(** * Digits *)

Definition digits_of (alphabet : MalBase64Alphabet) : list Z :=
  if bool_decide (alphabet = MAL_BASE64_ALPHABET_URL) then mal_base64_alphabet_url
  else mal_base64_alphabet_standard.

(** [reads e d]: a decoder for alphabet [d] accepts the digits of encoder [e]. *)
Definition reads (e d : MalBase64Alphabet) : bool :=
  match e, d with
  | _, MAL_BASE64_ALPHABET_EITHER => true
  | MAL_BASE64_ALPHABET_URL, MAL_BASE64_ALPHABET_URL => true
  | MAL_BASE64_ALPHABET_URL, MAL_BASE64_ALPHABET_STANDARD => false
  | _, MAL_BASE64_ALPHABET_STANDARD => true
  | _, MAL_BASE64_ALPHABET_URL => false
  end.

Lemma digit_roundtrip e d x :
  reads e d = true -> 0 <= x < 64 ->
  mal_base64_decode_digit (arr_get (digits_of e) x) d = x /\
  mal_base64_is_ascii_whitespace (arr_get (digits_of e) x) = false /\
  (arr_get (digits_of e) x =? PAD) = false.
Proof.
  intros Hr Hx.
  assert (forallb (fun x => (mal_base64_decode_digit (arr_get (digits_of e) x) d =? x) &&
    negb (mal_base64_is_ascii_whitespace (arr_get (digits_of e) x)) &&
    negb (arr_get (digits_of e) x =? PAD)) (seqZ 0 64) = true) as H.
  { destruct e, d; try done; by vm_compute. }
  rewrite forallb_forall in H. specialize (H x). rewrite !andb_true_iff, !negb_true_iff, Z.eqb_eq in H.
  destruct H as [[H1 H2] H3]; [|done].
  apply list_elem_of_In, elem_of_seqZ. lia.
Qed.

(** * Sextets *)

Lemma land_63 x : Z.land x 0x3f = x mod 64.
Proof. exact (land_mask 6 x ltac:(lia)). Qed.
Lemma land_255 x : Z.land x 0xff = x mod 256.
Proof. exact (land_mask 8 x ltac:(lia)). Qed.

Lemma push_sextet acc v :
  0 <= acc < 2 ^ 18 -> 0 <= v < 64 -> Z.lor (u32 (Z.shiftl acc 6)) v = acc * 64 + v.
Proof.
  intros Ha Hv. unfold u32. rewrite wrap_small.
  - rewrite lor_shiftl_add'; simpl; lia.
  - rewrite Z.shiftl_mul_pow2 by lia. unfold in_u. lia.
Qed.

(** The 24-bit word of a block. *)
Definition word (a b c : Z) : Z := a * 65536 + b * 256 + c.

Lemma lor_byte_low hi lo : 0 <= lo < 256 -> (exists k, hi = k * 256) -> Z.lor hi lo = hi + lo.
Proof.
  intros Hl [k ->]. change (k * 256) with (k * 2 ^ 8).
  rewrite <- Z.shiftl_mul_pow2, lor_shiftl_add' by (simpl; lia). rewrite Z.shiftl_mul_pow2; lia.
Qed.

Lemma block_word a b c :
  in_u 8 a -> in_u 8 b -> in_u 8 c ->
  Z.lor (Z.lor (Z.shiftl (u8 a) 16) (Z.shiftl (u8 b) 8)) (u8 c) = word a b c.
Proof.
  intros Ha Hb Hc. unfold u8. rewrite !wrap_small by done. unfold in_u in *.
  assert (Z.lor (Z.shiftl a 16) (Z.shiftl b 8) = a * 65536 + b * 256) as ->.
  { rewrite lor_shiftl_add' by (rewrite ?Z.shiftl_mul_pow2; lia). rewrite Z.shiftl_mul_pow2; lia. }
  rewrite lor_byte_low; [unfold word; lia|lia|]. exists (a * 256 + b). lia.
Qed.

Lemma block_word2 a b :
  in_u 8 a -> in_u 8 b -> Z.lor (Z.shiftl (u8 a) 16) (Z.shiftl (u8 b) 8) = word a b 0.
Proof.
  intros Ha Hb. rewrite <- (block_word a b 0) by done. by rewrite Z.lor_0_r.
Qed.

Lemma block_word1 a : in_u 8 a -> Z.shiftl (u8 a) 16 = word a 0 0.
Proof. intros Ha. rewrite <- block_word2 by done. by rewrite Z.lor_0_r. Qed.

Definition sextet (w n : Z) : Z := Z.land (Z.shiftr w (6 * n)) 0x3f.

Lemma sextet_eq w n : 0 <= n -> sextet w n = w / 2 ^ (6 * n) mod 64.
Proof. intros. unfold sextet. rewrite land_63, Z.shiftr_div_pow2 by lia. done. Qed.

Lemma sextet_range w n : 0 <= n -> 0 <= sextet w n < 64.
Proof. intros. rewrite sextet_eq by done. apply Z.mod_pos_bound. lia. Qed.

(** What [mal_base64_encode_block] writes, digit by digit. *)
Lemma encode_block3 a b c alphabet padding :
  in_u 8 a -> in_u 8 b -> in_u 8 c ->
  mal_base64_encode_block [a; b; c] alphabet padding
  = map (fun n => arr_get (digits_of alphabet) (sextet (word a b c) n)) [3; 2; 1; 0].
Proof.
  intros. unfold mal_base64_encode_block. change (arr_len [a; b; c]) with 3.
  change (arr_get [a; b; c] 0) with a. change (arr_get [a; b; c] 1) with b. change (arr_get [a; b; c] 2) with c.
  cbv beta zeta iota delta [Z.eqb Z.ltb Z.compare Pos.compare Pos.compare_cont Pos.eqb].
  rewrite block_word by done. done.
Qed.

Lemma encode_block2 a b alphabet padding :
  in_u 8 a -> in_u 8 b ->
  mal_base64_encode_block [a; b] alphabet padding
  = map (fun n => arr_get (digits_of alphabet) (sextet (word a b 0) n)) [3; 2; 1]
    ++ (if padding then [PAD] else []).
Proof.
  intros. unfold mal_base64_encode_block. change (arr_len [a; b]) with 2.
  change (arr_get [a; b] 0) with a. change (arr_get [a; b] 1) with b.
  cbv beta zeta iota delta [Z.eqb Z.ltb Z.compare Pos.compare Pos.compare_cont Pos.eqb].
  rewrite block_word2 by done. done.
Qed.

Lemma encode_block1 a alphabet padding :
  in_u 8 a ->
  mal_base64_encode_block [a] alphabet padding
  = map (fun n => arr_get (digits_of alphabet) (sextet (word a 0 0) n)) [3; 2]
    ++ (if padding then [PAD; PAD] else []).
Proof.
  intros. unfold mal_base64_encode_block. change (arr_len [a]) with 1.
  change (arr_get [a] 0) with a.
  cbv beta zeta iota delta [Z.eqb Z.ltb Z.compare Pos.compare Pos.compare_cont Pos.eqb].
  rewrite block_word1 by done. by destruct padding.
Qed.

(** * The strict decoder *)

Lemma tail_one_byte a : in_u 8 a -> tail_bytes a 1 = [a].
Proof.
  intros Ha. change (tail_bytes a 1) with [Z.land (Z.shiftr a 0) 255].
  rewrite Z.shiftr_0_r, land_255. rewrite Z.mod_small; [done|exact Ha].
Qed.

Lemma tail_two_bytes a b : in_u 8 a -> in_u 8 b -> tail_bytes (a * 256 + b) 2 = [a; b].
Proof.
  unfold in_u. intros Ha Hb.
  change (tail_bytes (a * 256 + b) 2)
    with [Z.land (Z.shiftr (a * 256 + b) 8) 255; Z.land (Z.shiftr (a * 256 + b) 0) 255].
  rewrite !land_255, Z.shiftr_0_r, Z.shiftr_div_pow2 by lia.
  f_equal; [|f_equal]; Z.to_euclidean_division_equations; lia.
Qed.

Definition decoder_alphabet (url : bool) : MalBase64Alphabet :=
  if url then MAL_BASE64_ALPHABET_URL else MAL_BASE64_ALPHABET_STANDARD.

Section decode.
Variables (e : MalBase64Alphabet) (url : bool) (max_out : Z).
Hypothesis Hreads : reads e (decoder_alphabet url) = true.

Let D (x : Z) : Z := arr_get (digits_of e) x.

Lemma loop_digit x rest i out read acc nsext :
  0 <= x < 64 -> 0 <= acc < 2 ^ 18 -> nsext + 1 <> 4 ->
  decode_loop (D x :: rest) i url max_out out read acc nsext
  = decode_loop rest (i + 1) url max_out out read (acc * 64 + x) (nsext + 1).
Proof using Hreads.
  intros Hx Ha Hn. destruct (digit_roundtrip e (decoder_alphabet url) x Hreads Hx) as (E1 & E2 & E3).
  unfold D. cbn [decode_loop]. rewrite E2, E3. fold (decoder_alphabet url). rewrite E1.
  destruct (Z.ltb_spec x 0); [lia|]. rewrite push_sextet by done.
  destruct (Z.eqb_spec (nsext + 1) 4); done.
Qed.

Lemma loop_last x rest i out read acc :
  0 <= x < 64 -> 0 <= acc < 2 ^ 18 -> arr_len out + 3 <= max_out ->
  let w := acc * 64 + x in
  let out' := out ++ [w / 65536 mod 256; w / 256 mod 256; w mod 256] in
  decode_loop (D x :: rest) i url max_out out read acc 3
  = if arr_len out' =? max_out then LoopReturn (mkDecoded true (i + 1) out')
    else decode_loop rest (i + 1) url max_out out' (i + 1) 0 0.
Proof using Hreads.
  intros Hx Ha Hn w out'. destruct (digit_roundtrip e (decoder_alphabet url) x Hreads Hx) as (E1 & E2 & E3).
  unfold D. cbn [decode_loop]. rewrite E2, E3. fold (decoder_alphabet url). rewrite E1.
  destruct (Z.ltb_spec x 0); [lia|]. rewrite push_sextet by done.
  change (3 + 1 =? 4) with true. cbn match.
  destruct (Z.ltb_spec max_out (arr_len out + 3)); [lia|].
  rewrite !land_255, !Z.shiftr_div_pow2 by lia. done.
Qed.

(** A full block of digits yields its three bytes. *)
Lemma loop_block a b c rest i out read :
  in_u 8 a -> in_u 8 b -> in_u 8 c -> arr_len out + 3 <= max_out ->
  decode_loop (map (fun n => D (sextet (word a b c) n)) [3; 2; 1; 0] ++ rest) i url max_out out read 0 0
  = if arr_len out + 3 =? max_out then LoopReturn (mkDecoded true (i + 4) (out ++ [a; b; c]))
    else decode_loop rest (i + 4) url max_out (out ++ [a; b; c]) (i + 4) 0 0.
Proof using Hreads.
  unfold in_u. intros Ha Hb Hc Hm. cbn [map app].
  rewrite loop_digit by (done || lia || apply sextet_range; lia).
  rewrite loop_digit by (done || lia || (try apply sextet_range; pose proof (sextet_range (word a b c) 3 ltac:(lia)); lia)).
  pose proof (sextet_range (word a b c) 3 ltac:(lia)). pose proof (sextet_range (word a b c) 2 ltac:(lia)).
  pose proof (sextet_range (word a b c) 1 ltac:(lia)). pose proof (sextet_range (word a b c) 0 ltac:(lia)).
  rewrite loop_digit by (done || lia). change (0 + 1 + 1 + 1) with 3. rewrite loop_last by lia.
  rewrite arr_len_app. change (arr_len [_; _; _]) with 3.
  assert ((((0 * 64 + sextet (word a b c) 3) * 64 + sextet (word a b c) 2) * 64 + sextet (word a b c) 1) * 64
          + sextet (word a b c) 0 = word a b c) as ->.
  { rewrite !sextet_eq by lia. unfold word. change (6 * 0) with 0. change (6 * 1) with 6.
    change (6 * 2) with 12. change (6 * 3) with 18. Z.to_euclidean_division_equations. lia. }
  assert (word a b c / 65536 mod 256 = a /\ word a b c / 256 mod 256 = b /\ word a b c mod 256 = c)
    as (-> & -> & ->) by (unfold word; Z.to_euclidean_division_equations; lia).
  by replace (i + 1 + 1 + 1 + 1) with (i + 4) by lia.
Qed.

Lemma encode_loop_step n a b c input padding :
  encode_loop (S n) (a :: b :: c :: input) e padding
  = mal_base64_encode_block [a; b; c] e padding ++ encode_loop n input e padding.
Proof using Type.
  cbn [encode_loop]. unfold arr_len.
  destruct (Z.eqb_spec (Z.of_nat (length (a :: b :: c :: input))) 0); [simpl in *; lia|].
  destruct (Z.ltb_spec (Z.of_nat (length (a :: b :: c :: input))) 3); [simpl in *; lia|]. done.
Qed.

(** The rest of [mal_b64_decode] after its digit loop. *)
Definition finish (last_chunk : MalB64LastChunk) (len : Z) (x : LoopExit) : Decoded :=
  match x with
  | LoopReturn d => d
  | LoopTail rest _ out read acc nsext => decode_tail len last_chunk max_out rest out read acc nsext
  end.

Lemma loop_pads k i out read acc nsext :
  decode_loop (replicate k PAD) i url max_out out read acc nsext
  = LoopTail (replicate k PAD) i out read acc nsext.
Proof using Type. by destruct k. Qed.

(** The last, partial block: its padding is complete or absent. *)
Lemma finish_partial last_chunk len out read acc nsext k :
  nsext = 2 \/ nsext = 3 -> k = 0%nat \/ Z.of_nat k = 4 - nsext ->
  k <> 0%nat \/ last_chunk = MAL_B64_LOOSE ->
  let produced := if nsext =? 2 then 1 else 2 in
  arr_len out + produced <= max_out ->
  Z.land acc (Z.shiftl 1 (nsext * 6 - produced * 8) - 1) = 0 ->
  decode_tail len last_chunk max_out (replicate k PAD) out read acc nsext
  = mkDecoded true len (out ++ tail_bytes (Z.shiftr acc (nsext * 6 - produced * 8)) produced).
Proof using Type.
  intros Hn Hk Hl produced Hroom Hextra. unfold decode_tail. fold produced.
  destruct (Z.eqb_spec nsext 0); [lia|]. destruct (Z.eqb_spec nsext 1); [lia|].
  destruct (Z.ltb_spec max_out (arr_len out + produced)); [lia|]. rewrite andb_false_r.
  destruct (Z.leb_spec (arr_len out + produced) max_out); [|lia].
  destruct Hk as [->|Hk].
  - destruct Hl as [?| ->]; done.
  - destruct k as [|k]; [destruct Hl as [?| ->]; done|].
    cbn [replicate]. change (PAD =? PAD) with true. cbn [negb].
    assert (take_padding (Z.to_nat (4 - nsext)) (PAD :: replicate k PAD) = (4 - nsext, [])) as ->.
    { rewrite <- Hk, Nat2Z.id. destruct k as [|[|k]]; [done|done|simpl in Hk; lia]. }
    rewrite Z.ltb_irrefl. cbn [only_whitespace forallb negb]. rewrite Hextra.
    by rewrite Z.eqb_refl, andb_false_r.
Qed.

Definition pads (padding : bool) (k : nat) : list Z := replicate (if padding then k else 0%nat) PAD.

Lemma decode_one a i out read last_chunk padding :
  in_u 8 a -> arr_len out + 1 <= max_out -> padding = true \/ last_chunk = MAL_B64_LOOSE ->
  let s := map (fun n => D (sextet (word a 0 0) n)) [3; 2] ++ pads padding 2 in
  finish last_chunk (i + arr_len s) (decode_loop s i url max_out out read 0 0)
  = mkDecoded true (i + arr_len s) (out ++ [a]).
Proof using Hreads.
  intros Ha Hm Hp s. unfold in_u in Ha. generalize (i + arr_len s). intros len. unfold s. clear s. cbn [map app].
  pose proof (sextet_range (word a 0 0) 3 ltac:(lia)). pose proof (sextet_range (word a 0 0) 2 ltac:(lia)).
  rewrite loop_digit by (done || lia). rewrite loop_digit by (done || lia). unfold pads. rewrite loop_pads. cbn [finish]. change (0 + 1 + 1) with 2.
  assert ((0 * 64 + sextet (word a 0 0) 3) * 64 + sextet (word a 0 0) 2 = a * 16) as ->.
  { rewrite !sextet_eq by lia. unfold word. change (6 * 2) with 12. change (6 * 3) with 18.
    Z.to_euclidean_division_equations. lia. }
  rewrite finish_partial; try done.
  - change (2 * 6 - (if 2 =? 2 then 1 else 2) * 8) with 4. change (if 2 =? 2 then 1 else 2) with 1.
    rewrite Z.shiftr_div_pow2 by lia. change (2 ^ 4) with 16.
    rewrite Z.div_mul by lia. by rewrite tail_one_byte.
  - by left.
  - destruct padding; [by right|by left].
  - destruct padding; [by left|right]. by destruct Hp.
  - change (Z.land (a * 16) (2 ^ 4 - 1) = 0). rewrite land_mask by lia. change (2 ^ 4) with 16. by apply Z.mod_mul.
Qed.

Lemma decode_two a b i out read last_chunk padding :
  in_u 8 a -> in_u 8 b -> arr_len out + 2 <= max_out -> padding = true \/ last_chunk = MAL_B64_LOOSE ->
  let s := map (fun n => D (sextet (word a b 0) n)) [3; 2; 1] ++ pads padding 1 in
  finish last_chunk (i + arr_len s) (decode_loop s i url max_out out read 0 0)
  = mkDecoded true (i + arr_len s) (out ++ [a; b]).
Proof using Hreads.
  intros Ha Hb Hm Hp s. unfold in_u in Ha, Hb. generalize (i + arr_len s). intros len. unfold s. clear s. cbn [map app].
  pose proof (sextet_range (word a b 0) 3 ltac:(lia)). pose proof (sextet_range (word a b 0) 2 ltac:(lia)).
  pose proof (sextet_range (word a b 0) 1 ltac:(lia)).
  rewrite loop_digit by (done || lia). rewrite loop_digit by (done || lia). rewrite loop_digit by (done || lia).
  unfold pads. rewrite loop_pads. cbn [finish]. change (0 + 1 + 1 + 1) with 3.
  assert (((0 * 64 + sextet (word a b 0) 3) * 64 + sextet (word a b 0) 2) * 64 + sextet (word a b 0) 1
          = (a * 256 + b) * 4) as ->.
  { rewrite !sextet_eq by lia. unfold word. change (6 * 1) with 6. change (6 * 2) with 12. change (6 * 3) with 18.
    Z.to_euclidean_division_equations. lia. }
  rewrite finish_partial; try done.
  - change (3 * 6 - (if 3 =? 2 then 1 else 2) * 8) with 2. change (if 3 =? 2 then 1 else 2) with 2.
    rewrite Z.shiftr_div_pow2 by lia. change (2 ^ 2) with 4.
    rewrite Z.div_mul by lia. by rewrite tail_two_bytes.
  - by right.
  - destruct padding; [by right|by left].
  - destruct padding; [by left|right]. by destruct Hp.
  - change (Z.land ((a * 256 + b) * 4) (2 ^ 2 - 1) = 0). rewrite land_mask by lia. change (2 ^ 2) with 4. by apply Z.mod_mul.
Qed.

(** The encoder's three kinds of block, with the padding they end in. *)
Lemma encode_loop_last n input padding :
  Forall (in_u 8) input ->
  encode_loop (S n) input e padding =
  match input with
  | [] => []
  | [a] => map (fun n => D (sextet (word a 0 0) n)) [3; 2] ++ pads padding 2 ++ encode_loop n [] e padding
  | [a; b] => map (fun n => D (sextet (word a b 0) n)) [3; 2; 1] ++ pads padding 1 ++ encode_loop n [] e padding
  | a :: b :: c :: input =>
      map (fun n => D (sextet (word a b c) n)) [3; 2; 1; 0] ++ encode_loop n input e padding
  end.
Proof using Type.
  intros Hf. destruct input as [|a [|b [|c input]]]; [done| | |].
  - apply Forall_cons in Hf as [Ha _]. cbn [encode_loop]. change (arr_len [a]) with 1.
    change (1 =? 0) with false. change (Z.to_nat (if 1 <? 3 then 1 else 3)) with 1%nat. cbn [take drop].
    rewrite encode_block1 by done. rewrite <- app_assoc. unfold pads. by destruct padding.
  - apply Forall_cons in Hf as [Ha [Hb _]%Forall_cons]. cbn [encode_loop]. change (arr_len [a; b]) with 2.
    change (2 =? 0) with false. change (Z.to_nat (if 2 <? 3 then 2 else 3)) with 2%nat. cbn [take drop].
    rewrite encode_block2 by done. rewrite <- app_assoc. unfold pads. by destruct padding.
  - apply Forall_cons in Hf as [Ha [Hb [Hc _]%Forall_cons]%Forall_cons].
    rewrite encode_loop_step. by rewrite encode_block3.
Qed.

Lemma encode_loop_nil n padding : encode_loop n [] e padding = [].
Proof using Type. by destruct n. Qed.

(** Decoding the encoder's text from any point of a block boundary. *)
Lemma decode_encoded last_chunk padding fuel : forall input i out read,
  (length input < fuel)%nat -> Forall (in_u 8) input ->
  arr_len out + arr_len input <= max_out -> arr_len out < max_out ->
  (padding = true \/ last_chunk = MAL_B64_LOOSE \/ arr_len input mod 3 = 0) ->
  let s := encode_loop fuel input e padding in
  finish last_chunk (i + arr_len s) (decode_loop s i url max_out out read 0 0)
  = mkDecoded true (i + arr_len s) (out ++ input).
Proof using Hreads.
  induction fuel as [|fuel IH]; intros input i out rd Hfuel Hf Hm Hlt Hpad; [lia|]. cbv zeta.
  rewrite encode_loop_last by done.
  destruct input as [|a [|b [|c input]]].
  - cbn. by rewrite app_nil_r.
  - apply Forall_cons in Hf as [Ha _]. rewrite encode_loop_nil, app_nil_r.
    apply decode_one; [done|exact Hm|]. destruct Hpad as [?|[?|Hx]]; [by left|by right|by vm_compute in Hx].
  - apply Forall_cons in Hf as [Ha [Hb _]%Forall_cons]. rewrite encode_loop_nil, app_nil_r.
    apply decode_two; [done|done|exact Hm|]. destruct Hpad as [?|[?|Hx]]; [by left|by right|by vm_compute in Hx].
  - apply Forall_cons in Hf as [Ha [Hb [Hc Hf]%Forall_cons]%Forall_cons].
    assert (arr_len (a :: b :: c :: input) = 3 + arr_len input) as El by (unfold arr_len; simpl length; lia).
    rewrite El in Hm, Hpad. pose proof (arr_len_nonneg input).
    rewrite loop_block by (done || lia). rewrite arr_len_app.
    change (arr_len (map _ [3; 2; 1; 0])) with 4.
    replace (out ++ a :: b :: c :: input) with ((out ++ [a; b; c]) ++ input) by (by rewrite <- app_assoc).
    destruct (Z.eqb_spec (arr_len out + 3) max_out).
    + assert (input = []) as -> by (destruct input; [done|unfold arr_len in *; simpl in *; lia]).
      rewrite encode_loop_nil, app_nil_r. cbn [finish]. done.
    + rewrite Z.add_assoc. apply IH; try done; rewrite ?arr_len_app; change (arr_len [a; b; c]) with 3.
      * simpl in Hfuel. lia.
      * lia.
      * lia.
      * destruct Hpad as [?|[?|Hx]]; [by left|right; by left|right; right].
        rewrite <- Hx. symmetry. rewrite Z.add_comm. exact (Z.mod_add (arr_len input) 1 3 ltac:(lia)).
Qed.
End decode.

(** C31. What the base64 encoder writes, the Uint8Array decoder reads back: every
    byte, all the text consumed, no error, in every mode when the text is padded
    and in the loose mode otherwise. *)
Theorem base64_roundtrip input (url padding : bool) last_chunk max_out :
  Forall (in_u 8) input -> arr_len input <= max_out -> 0 < max_out ->
  (padding = true \/ last_chunk = MAL_B64_LOOSE \/ arr_len input mod 3 = 0) ->
  let text := mal_base64_encode input (decoder_alphabet url) padding in
  mal_b64_decode text url last_chunk max_out = mkDecoded true (arr_len text) input.
Proof.
  intros Hf Hm Hpos Hpad text. unfold mal_b64_decode.
  destruct (Z.eqb_spec max_out 0); [lia|].
  assert (reads (decoder_alphabet url) (decoder_alphabet url) = true) as Hr by (by destruct url).
  exact (decode_encoded (decoder_alphabet url) url max_out Hr last_chunk padding (S (length input))
    input 0 [] 0 ltac:(lia) Hf ltac:(change (arr_len (@nil Z)) with 0; lia) Hpos Hpad).
Qed.

Lemma base64_roundtrip_witness :
  mal_b64_decode (mal_base64_encode [0; 255; 16; 131; 7] MAL_BASE64_ALPHABET_URL true) true MAL_B64_STRICT 5
  = mkDecoded true 8 [0; 255; 16; 131; 7].
Proof.
  apply (base64_roundtrip [0; 255; 16; 131; 7] true true MAL_B64_STRICT 5); [|by vm_compute|lia|by left].
  repeat constructor; by vm_compute.
Defined.

(** * Length *)

Definition encoded_size (n : Z) (padding : bool) : Z :=
  n / 3 * 4 + (if n mod 3 =? 0 then 0 else if padding then 4 else n mod 3 + 1).

Lemma encode_loop_len e padding fuel : forall input,
  (length input < fuel)%nat -> Forall (in_u 8) input ->
  arr_len (encode_loop fuel input e padding) = encoded_size (arr_len input) padding.
Proof.
  induction fuel as [|fuel IH]; intros input Hl Hf; [lia|]. rewrite encode_loop_last by done.
  destruct input as [|a [|b [|c input]]].
  - done.
  - rewrite encode_loop_nil. by destruct padding.
  - rewrite encode_loop_nil. by destruct padding.
  - apply Forall_cons in Hf as [_ [_ [_ Hf]%Forall_cons]%Forall_cons].
    rewrite arr_len_app, IH by (done || (simpl in Hl; lia)).
    change (arr_len (map _ [3; 2; 1; 0])) with 4.
    assert (arr_len (a :: b :: c :: input) = arr_len input + 1 * 3) as -> by (unfold arr_len; simpl length; lia).
    unfold encoded_size. rewrite Z.div_add, Z.mod_add by lia. lia.
Qed.

(** [mal_base64_encoded_length] is exact: the length of the text the encoder
    writes, refused exactly when it passes the limit. *)
Theorem base64_encoded_length_exact input alphabet padding limit :
  Forall (in_u 8) input -> in_u 62 (arr_len input) -> in_u 64 limit ->
  let n := arr_len (mal_base64_encode input alphabet padding) in
  mal_base64_encoded_length (arr_len input) padding limit = if n <=? limit then Some n else None.
Proof.
  intros Hf Hn Hl n. unfold n, mal_base64_encode. rewrite encode_loop_len by (done || lia).
  unfold mal_base64_encoded_length, encoded_size. unfold in_u in *.
  pose proof (Z.div_pos (arr_len input) 3). pose proof (Z.mod_pos_bound (arr_len input) 3).
  assert (arr_len input / 3 <= arr_len input) by (apply Z.div_le_upper_bound; lia).
  rewrite checked_size_multiply_spec by (unfold in_u; lia).
  set (tail := if arr_len input mod 3 =? 0 then 0 else _).
  assert (0 <= tail <= 4) by (subst tail; destruct (_ =? 0), padding; lia).
  destruct (Z.leb_spec (arr_len input / 3 * 4) limit).
  - rewrite checked_size_add_spec by (unfold in_u; lia). done.
  - destruct (Z.leb_spec (arr_len input / 3 * 4 + tail) limit); [lia|done].
Qed.

Lemma base64_encoded_length_exact_witness :
  mal_base64_encoded_length 5 true 100
  = let n := arr_len (mal_base64_encode [1; 2; 3; 4; 5] MAL_BASE64_ALPHABET_STANDARD true) in
    if n <=? 100 then Some n else None.
Proof.
  apply (base64_encoded_length_exact [1; 2; 3; 4; 5] MAL_BASE64_ALPHABET_STANDARD true 100);
    [|by vm_compute|by vm_compute].
  repeat constructor; by vm_compute.
Defined.

(** * Bounds of the strict decoder *)

Lemma byte_land x : in_u 8 (Z.land x 0xff).
Proof. rewrite land_255. apply Z.mod_pos_bound. lia. Qed.

Definition bounded (max_out len : Z) (d : Decoded) : Prop :=
  arr_len (written d) <= max_out /\ Forall (in_u 8) (written d) /\ 0 <= read d <= len.

Lemma decode_loop_bounded url max_out len rest : forall i out rd acc nsext,
  arr_len out <= max_out -> Forall (in_u 8) out -> 0 <= rd <= i -> i + arr_len rest = len ->
  match decode_loop rest i url max_out out rd acc nsext with
  | LoopReturn d => bounded max_out len d
  | LoopTail rest' _ out' rd' _ _ => arr_len out' <= max_out /\ Forall (in_u 8) out' /\ 0 <= rd' <= len
  end.
Proof.
  induction rest as [|c rest IH]; intros i out rd acc nsext Hm Hf Hr Hl; cbn [decode_loop].
  - unfold arr_len in Hl. simpl in Hl. split_and!; done || lia.
  - assert (arr_len (c :: rest) = 1 + arr_len rest) as El by (unfold arr_len; simpl length; lia).
    pose proof (arr_len_nonneg rest).
    destruct (mal_base64_is_ascii_whitespace c); [apply IH; done || lia|].
    destruct (c =? PAD); [split_and!; done || lia|].
    destruct (_ <? 0); [by split_and!; cbn; try lia|].
    destruct (_ =? 4); [|apply IH; done || lia].
    destruct (Z.ltb_spec max_out (arr_len out + 3)); [by split_and!; cbn; try lia|].
    set (out' := out ++ _).
    assert (arr_len out' = arr_len out + 3 /\ Forall (in_u 8) out') as [E3 F3].
    { subst out'. rewrite arr_len_app, Forall_app. split; [done|]. split; [done|].
      repeat constructor; apply byte_land. }
    destruct (_ =? max_out); [by split_and!; cbn; try lia|]. apply IH; done || lia.
Qed.

Lemma tail_bytes_bounded value produced :
  0 <= produced -> arr_len (tail_bytes value produced) = produced /\ Forall (in_u 8) (tail_bytes value produced).
Proof.
  intros Hp. unfold tail_bytes. split.
  - unfold arr_len. rewrite length_map, length_reverse, length_seqZ. lia.
  - apply Forall_forall. intros x Hx. apply list_elem_of_fmap in Hx as (b & -> & _). apply byte_land.
Qed.

(** For any text and any buffer size the Uint8Array decoder writes at most
    that many bytes, each a byte, and reports a position inside the text. *)
Theorem base64_decode_bounds s url last_chunk max_out :
  0 <= max_out -> bounded max_out (arr_len s) (mal_b64_decode s url last_chunk max_out).
Proof.
  intros Hm. unfold mal_b64_decode. pose proof (arr_len_nonneg s).
  destruct (Z.eqb_spec max_out 0) as [->|]; [split_and!; cbn; try done; lia|].
  pose proof (decode_loop_bounded url max_out (arr_len s) s 0 [] 0 0 0) as Hb.
  destruct (decode_loop s 0 url max_out [] 0 0 0) as [d|rest i out rd acc nsext];
    [apply Hb; done || (cbn; lia)|].
  destruct Hb as (H1 & H2 & H3); try done || (cbn; lia).
  assert (bounded max_out (arr_len s) (mkDecoded true rd out)) as Hstop by (by split_and!; cbn; try lia).
  assert (forall b, bounded max_out (arr_len s) (mkDecoded b rd out)) as Hany by (intros b; exact Hstop).
  unfold decode_tail. destruct (nsext =? 0).
  { destruct (only_whitespace rest); [by split_and!; cbn; try lia|done]. }
  set (produced := if nsext =? 2 then 1 else 2).
  assert (0 <= produced) by (subst produced; destruct (nsext =? 2); lia).
  match goal with |- context [mkDecoded true (arr_len s) ?o] => set (emit := o) end.
  assert (bounded max_out (arr_len s) (mkDecoded true (arr_len s) emit)) as Hemit.
  { subst emit. destruct (Z.leb_spec (arr_len out + produced) max_out); [|by split_and!; cbn; try lia].
    destruct (tail_bytes_bounded (Z.shiftr acc (nsext * 6 - produced * 8)) produced) as [E F]; [done|].
    split_and!; cbn; try lia; [rewrite arr_len_app; lia|by apply Forall_app]. }
  destruct (_ && _); [done|]. destruct (negb _).
  - destruct (bool_decide _); [done|]. destruct (nsext =? 1); [done|]. by destruct (bool_decide _).
  - destruct (nsext =? 1); [done|]. destruct (take_padding _ rest) as [seen rest'].
    destruct (seen <? 4 - nsext); [done|]. destruct (negb _); [done|]. by destruct (_ && _).
Qed.

Lemma base64_decode_bounds_witness :
  bounded 2 5 (mal_b64_decode [90; 109; 57; 118; 33] false MAL_B64_LOOSE 2).
Proof. apply (base64_decode_bounds [90; 109; 57; 118; 33] false MAL_B64_LOOSE 2). lia. Defined.

(** * The forgiving decoder *)

Lemma arr_len_take n (l : list Z) : arr_len (take n l) = Z.of_nat (n `min` length l).
Proof. unfold arr_len. by rewrite length_take. Qed.

Section forgiving.
Variables (e : MalBase64Alphabet) (capacity : Z).
Let D (x : Z) : Z := arr_get (digits_of e) x.

Lemma forgiving_digit x units out acc n :
  0 <= x < 64 -> 0 <= acc < 2 ^ 18 -> n + 1 <> 4 ->
  forgiving_loop (D x :: units) capacity out acc n
  = forgiving_loop units capacity out (acc * 64 + x) (n + 1).
Proof using Type.
  intros Hx Ha Hn.
  destruct (digit_roundtrip e MAL_BASE64_ALPHABET_EITHER x) as (E1 & _ & E3); [by destruct e|done|].
  unfold D. cbn [forgiving_loop]. rewrite E3, E1.
  destruct (Z.ltb_spec x 0); [lia|]. rewrite push_sextet by done.
  by destruct (Z.eqb_spec (n + 1) 4).
Qed.

Lemma forgiving_block a b c units out :
  in_u 8 a -> in_u 8 b -> in_u 8 c -> 0 <= capacity - arr_len out ->
  let out' := out ++ take (Z.to_nat (capacity - arr_len out)) [a; b; c] in
  forgiving_loop (map (fun n => D (sextet (word a b c) n)) [3; 2; 1; 0] ++ units) capacity out 0 0
  = if arr_len out' =? capacity then (out', word a b c, 4)
    else forgiving_loop units capacity out' 0 0.
Proof using Type.
  intros Ha Hb Hc Hroom out'. unfold in_u in Ha, Hb, Hc. cbn [map app].
  pose proof (sextet_range (word a b c) 3 ltac:(lia)). pose proof (sextet_range (word a b c) 2 ltac:(lia)).
  pose proof (sextet_range (word a b c) 1 ltac:(lia)). pose proof (sextet_range (word a b c) 0 ltac:(lia)).
  do 3 rewrite forgiving_digit by (done || lia). change (0 + 1 + 1 + 1) with 3.
  destruct (digit_roundtrip e MAL_BASE64_ALPHABET_EITHER (sextet (word a b c) 0)) as (E1 & _ & E3);
    [by destruct e|done|].
  unfold D. cbn [forgiving_loop]. rewrite E3, E1.
  destruct (Z.ltb_spec (sextet (word a b c) 0) 0); [lia|]. rewrite push_sextet by lia.
  assert ((((0 * 64 + sextet (word a b c) 3) * 64 + sextet (word a b c) 2) * 64 + sextet (word a b c) 1) * 64
          + sextet (word a b c) 0 = word a b c) as ->.
  { rewrite !sextet_eq by lia. unfold word. change (6 * 0) with 0. change (6 * 1) with 6.
    change (6 * 2) with 12. change (6 * 3) with 18. clear out'. Z.to_euclidean_division_equations. lia. }
  change (3 + 1 =? 4) with true. cbn match. change (3 + 1) with 4.
  assert (u8 (Z.shiftr (word a b c) 16) = a /\ u8 (Z.shiftr (word a b c) 8) = b /\ u8 (word a b c) = c)
    as (-> & -> & ->).
  { rewrite !Z.shiftr_div_pow2 by lia. unfold u8, wrap, word. clear out'.
    change (2 ^ 16) with 65536. change (2 ^ 8) with 256. Z.to_euclidean_division_equations. lia. }
  assert (take (Z.to_nat (if capacity - arr_len out <? 3 then capacity - arr_len out else 3)) [a; b; c]
          = take (Z.to_nat (capacity - arr_len out)) [a; b; c]) as ->; [|done].
  destruct (Z.ltb_spec (capacity - arr_len out) 3); [done|].
  rewrite !take_ge; [done|simpl; lia|simpl; lia].
Qed.

Lemma forgiving_pads k out acc n :
  forgiving_loop (replicate k PAD) capacity out acc n = (out, acc, n).
Proof using Type. by destruct k. Qed.

(** The bytes pushed for the pending sextets. *)
Definition flush (x : list Z * Z * Z) : list Z :=
  let '(out, accumulator, sextets) := x in
  if sextets =? 2 then push_byte capacity (Z.land (Z.shiftr accumulator 4) 0xff) out
  else if sextets =? 3 then
    push_byte capacity (Z.land (Z.shiftr accumulator 2) 0xff)
      (push_byte capacity (Z.land (Z.shiftr accumulator 10) 0xff) out)
  else out.

Lemma push_take b (out : list Z) l :
  arr_len out <= capacity ->
  push_byte capacity b (out ++ take (Z.to_nat (capacity - arr_len out)) l)
  = out ++ take (Z.to_nat (capacity - arr_len out)) (l ++ [b]).
Proof using Type.
  intros Hc. unfold push_byte. rewrite arr_len_app. unfold arr_len in *. rewrite length_take.
  destruct (Z.ltb_spec (Z.of_nat (length out) + Z.of_nat (Z.to_nat (capacity - Z.of_nat (length out)) `min` length l)) capacity).
  - rewrite <- app_assoc. f_equal. rewrite !take_ge; [done|rewrite length_app; simpl; lia|lia].
  - f_equal. rewrite take_app_le by lia. done.
Qed.

Lemma forgiving_one a out padding :
  in_u 8 a -> arr_len out <= capacity ->
  flush (forgiving_loop (map (fun n => D (sextet (word a 0 0) n)) [3; 2] ++ pads padding 2) capacity out 0 0)
  = out ++ take (Z.to_nat (capacity - arr_len out)) [a].
Proof using Type.
  intros Ha Hc. unfold in_u in Ha. cbn [map app].
  pose proof (sextet_range (word a 0 0) 3 ltac:(lia)). pose proof (sextet_range (word a 0 0) 2 ltac:(lia)).
  do 2 rewrite forgiving_digit by (done || lia). unfold pads. rewrite forgiving_pads.
  assert ((0 * 64 + sextet (word a 0 0) 3) * 64 + sextet (word a 0 0) 2 = a * 16) as ->.
  { rewrite !sextet_eq by lia. unfold word. change (6 * 2) with 12. change (6 * 3) with 18.
    Z.to_euclidean_division_equations. lia. }
  cbn [flush]. change (0 + 1 + 1 =? 2) with true. cbn match.
  assert (Z.land (Z.shiftr (a * 16) 4) 255 = a) as ->.
  { rewrite land_255, Z.shiftr_div_pow2 by lia. change (2 ^ 4) with 16. rewrite Z.div_mul, Z.mod_small; lia. }
  pose proof (push_take a out [] Hc) as E. rewrite take_nil, app_nil_r in E. exact E.
Qed.

Lemma forgiving_two a b out padding :
  in_u 8 a -> in_u 8 b -> arr_len out <= capacity ->
  flush (forgiving_loop (map (fun n => D (sextet (word a b 0) n)) [3; 2; 1] ++ pads padding 1) capacity out 0 0)
  = out ++ take (Z.to_nat (capacity - arr_len out)) [a; b].
Proof using Type.
  intros Ha Hb Hc. unfold in_u in Ha, Hb. cbn [map app].
  pose proof (sextet_range (word a b 0) 3 ltac:(lia)). pose proof (sextet_range (word a b 0) 2 ltac:(lia)).
  pose proof (sextet_range (word a b 0) 1 ltac:(lia)).
  do 3 rewrite forgiving_digit by (done || lia). unfold pads. rewrite forgiving_pads.
  assert (((0 * 64 + sextet (word a b 0) 3) * 64 + sextet (word a b 0) 2) * 64 + sextet (word a b 0) 1
          = (a * 256 + b) * 4) as ->.
  { rewrite !sextet_eq by lia. unfold word. change (6 * 1) with 6. change (6 * 2) with 12. change (6 * 3) with 18.
    Z.to_euclidean_division_equations. lia. }
  cbn [flush]. change (0 + 1 + 1 + 1 =? 2) with false. change (0 + 1 + 1 + 1 =? 3) with true. cbn match.
  assert (Z.land (Z.shiftr ((a * 256 + b) * 4) 10) 255 = a /\ Z.land (Z.shiftr ((a * 256 + b) * 4) 2) 255 = b)
    as [-> ->].
  { rewrite !land_255, !Z.shiftr_div_pow2 by lia. change (2 ^ 10) with 1024. change (2 ^ 2) with 4.
    Z.to_euclidean_division_equations. lia. }
  pose proof (push_take a out [] Hc) as E. rewrite take_nil, app_nil_r in E. rewrite E.
  exact (push_take b out [a] Hc).
Qed.

Lemma forgiving_encoded padding fuel : forall input out,
  (length input < fuel)%nat -> Forall (in_u 8) input -> arr_len out <= capacity ->
  flush (forgiving_loop (encode_loop fuel input e padding) capacity out 0 0)
  = out ++ take (Z.to_nat (capacity - arr_len out)) input.
Proof using Type.
  induction fuel as [|fuel IH]; intros input out Hl Hf Hc; [lia|]. rewrite encode_loop_last by done.
  destruct input as [|a [|b [|c input]]].
  - cbn. by rewrite take_nil, app_nil_r.
  - apply Forall_cons in Hf as [Ha _]. rewrite encode_loop_nil, app_nil_r. by apply forgiving_one.
  - apply Forall_cons in Hf as [Ha [Hb _]%Forall_cons]. rewrite encode_loop_nil, app_nil_r.
    by apply forgiving_two.
  - apply Forall_cons in Hf as [Ha [Hb [Hc' Hf]%Forall_cons]%Forall_cons].
    rewrite forgiving_block by (done || lia). cbv zeta. simpl length in Hl.
    change (a :: b :: c :: input) with ([a; b; c] ++ input).
    rewrite arr_len_app, arr_len_take. simpl length.
    destruct (Z.eqb_spec (arr_len out + Z.of_nat (Z.to_nat (capacity - arr_len out) `min` 3)) capacity) as [E|E].
    + cbn [flush]. change (4 =? 2) with false. change (4 =? 3) with false. cbn match.
      f_equal. rewrite take_app_le; [done|simpl; lia].
    + rewrite IH; [|lia|done|rewrite arr_len_app, arr_len_take; simpl length; lia].
      rewrite arr_len_app, arr_len_take. simpl length.
      rewrite <- app_assoc. f_equal. rewrite !take_ge by (simpl; lia).
      rewrite take_app_ge by (simpl; lia). f_equal. f_equal. simpl length. lia.
Qed.
End forgiving.

(** Node's forgiving decoder reads back the text of either alphabet, padded
    or not, and fills a short buffer with the leading bytes. *)
Theorem base64_forgiving_roundtrip input alphabet padding capacity :
  Forall (in_u 8) input -> 0 <= capacity ->
  mal_buffer_decode_base64_into (mal_base64_encode input alphabet padding) capacity
  = take (Z.to_nat capacity) input.
Proof.
  intros Hf Hc. unfold mal_buffer_decode_base64_into.
  destruct (Z.eqb_spec capacity 0) as [->|]; [done|].
  pose proof (forgiving_encoded alphabet capacity padding (S (length input)) input [] ltac:(lia) Hf Hc) as E.
  change (arr_len (@nil Z)) with 0 in E. rewrite Z.sub_0_r in E. exact E.
Qed.

Lemma base64_forgiving_roundtrip_witness :
  mal_buffer_decode_base64_into (mal_base64_encode [9; 200; 3; 77] MAL_BASE64_ALPHABET_URL false) 3
  = [9; 200; 3].
Proof.
  apply (base64_forgiving_roundtrip [9; 200; 3; 77] MAL_BASE64_ALPHABET_URL false 3); [|lia].
  repeat constructor; by vm_compute.
Defined.

(** * Hexadecimal *)

Lemma hex_byte_roundtrip b :
  in_u 8 b ->
  exists h l, mal_hex_encode_byte_lower b = [h; l] /\
    0 <= mal_hex_decode_digit h /\ 0 <= mal_hex_decode_digit l /\
    u8 (Z.lor (Z.shiftl (mal_hex_decode_digit h) 4) (mal_hex_decode_digit l)) = b.
Proof.
  intros Hb.
  assert (forallb (fun b => match mal_hex_encode_byte_lower b with
    | [h; l] => (0 <=? mal_hex_decode_digit h) && (0 <=? mal_hex_decode_digit l) &&
        (u8 (Z.lor (Z.shiftl (mal_hex_decode_digit h) 4) (mal_hex_decode_digit l)) =? b)
    | _ => false end) (seqZ 0 256) = true) as H by (by vm_compute).
  rewrite forallb_forall in H.
  assert (b ∈ seqZ 0 256) as Hin by (apply elem_of_seqZ; unfold in_u in Hb; lia).
  apply list_elem_of_In in Hin. specialize (H b Hin).
  do 2 eexists. split; [reflexivity|]. unfold mal_hex_encode_byte_lower in H.
  rewrite !andb_true_iff, !Z.leb_le, Z.eqb_eq in H. by destruct H as [[? ?] ?].
Qed.

Lemma hex_loop_encoded max_out input : forall i out,
  Forall (in_u 8) input -> arr_len out + arr_len input <= max_out ->
  hex_loop (mal_hex_encode_lower input) i max_out out
  = mkDecoded true (i + 2 * arr_len input) (out ++ input).
Proof.
  induction input as [|b input IH]; intros i out Hf Hm.
  - cbn. by rewrite app_nil_r, Z.add_0_r.
  - apply Forall_cons in Hf as [Hb Hf].
    destruct (hex_byte_roundtrip b Hb) as (h & l & E & Hh & Hl & Eb).
    unfold mal_hex_encode_lower. cbn [flat_map]. rewrite E. cbn [app hex_loop].
    fold (mal_hex_encode_lower input).
    assert (arr_len (b :: input) = 1 + arr_len input) as El by (unfold arr_len; simpl length; lia).
    rewrite El in *. pose proof (arr_len_nonneg input).
    destruct (Z.ltb_spec max_out (arr_len out + 1)); [lia|].
    destruct (Z.ltb_spec (mal_hex_decode_digit h) 0); [lia|].
    destruct (Z.ltb_spec (mal_hex_decode_digit l) 0); [lia|]. cbn [orb]. rewrite Eb.
    rewrite IH; [|done|rewrite arr_len_app; change (arr_len [b]) with 1; lia].
    rewrite <- app_assoc. f_equal. lia.
Qed.

Lemma hex_encode_len input : arr_len (mal_hex_encode_lower input) = 2 * arr_len input.
Proof.
  induction input as [|b input IH]; [done|].
  unfold mal_hex_encode_lower in *. cbn [flat_map]. rewrite arr_len_app, IH.
  change (arr_len (mal_hex_encode_byte_lower b)) with 2. unfold arr_len. simpl length. lia.
Qed.

(** Hexadecimal text of any bytes is decoded back to them. *)
Theorem hex_roundtrip input max_out :
  Forall (in_u 8) input -> arr_len input <= max_out ->
  mal_hex_decode (mal_hex_encode_lower input) max_out
  = mkDecoded true (2 * arr_len input) input.
Proof.
  intros Hf Hm. unfold mal_hex_decode. rewrite hex_encode_len.
  rewrite (Z.mul_comm 2), Z.mod_mul by lia. cbn [Z.eqb negb].
  rewrite hex_loop_encoded; [|done|change (arr_len (@nil Z)) with 0; lia].
  rewrite Z.add_0_l, Z.mul_comm. done.
Qed.

Lemma hex_roundtrip_witness :
  mal_hex_decode (mal_hex_encode_lower [0; 255; 171]) 3 = mkDecoded true 6 [0; 255; 171].
Proof. apply (hex_roundtrip [0; 255; 171] 3); [|by vm_compute]. repeat constructor; by vm_compute. Defined.

(** * Corner cases of the strict decoder *)

(** In the stop-before-partial mode a block whose padding is malformed, as in
    [Zg=A], is left unread instead of rejected. *)
Example stop_mode_malformed_padding :
  mal_b64_decode (literal "Zg=A") false MAL_B64_STOP 10 = mkDecoded true 0 [] /\
  mal_b64_decode (literal "Zg=A") false MAL_B64_LOOSE 10 = mkDecoded false 0 [].
Proof. by vm_compute. Qed.

(** With room for one byte, a third digit that no longer fits does not stop the
    decoder: the units after it are still validated. *)
Example full_target_validates_rest :
  mal_b64_decode (literal "Zm9") false MAL_B64_LOOSE 1 = mkDecoded true 0 [] /\
  mal_b64_decode (literal "Zm9!") false MAL_B64_LOOSE 1 = mkDecoded false 0 [].
Proof. by vm_compute. Qed.
