(* ===== verification/Utf.v ===== *)
(** Text encodings: the surrogate arithmetic of [runtime/src/utf16.h], the byte
    decoder of [runtime/src/utf16.c] and the UTF-8 conversions of
    [runtime/src/utf8.c]. Buffers are lists of units or bytes, positions are
    integers, an output buffer is the list written so far. *)

From S2P Require Import Prelude.

(** * [utf16.h] *)

Definition mal_utf16_is_lead_surrogate (unit : Z) : bool := (0xD800 <=? unit) && (unit <=? 0xDBFF).
Definition mal_utf16_is_trail_surrogate (unit : Z) : bool := (0xDC00 <=? unit) && (unit <=? 0xDFFF).
Definition mal_utf16_is_surrogate (unit : Z) : bool := (0xD800 <=? unit) && (unit <=? 0xDFFF).
Definition mal_utf16_is_pair (lead trail : Z) : bool :=
  mal_utf16_is_lead_surrogate lead && mal_utf16_is_trail_surrogate trail.
Definition mal_utf16_compose_pair (lead trail : Z) : Z :=
  u32 (u32 (0x10000 + u32 (Z.shiftl (u32 (lead - 0xD800)) 10)) + u32 (trail - 0xDC00)).

(** The blocks of 32 units, then the rest. *)
Definition or_units (units : list Z) : Z := fold_left Z.lor units 0.
Fixpoint latin1_blocks (fuel : nat) (units : list Z) : option (list Z) :=
  match fuel with
  | O => Some units
  | S fuel =>
      if 32 <=? arr_len units then
        if 0xff <? or_units (take 32 units) then None else latin1_blocks fuel (drop 32 units)
      else Some units
  end.
Definition mal_utf16_units_fit_latin1 (units : list Z) : bool :=
  match latin1_blocks (length units) units with
  | None => false
  | Some rest => or_units rest <=? 0xff
  end.

Definition mal_utf16_emit_pair (scalar : Z) : list Z :=
  let adjusted := u32 (scalar - 0x10000) in
  [u16 (0xD800 + Z.shiftr adjusted 10); u16 (0xDC00 + Z.land adjusted 0x3ff)].

Definition mal_utf16_code_point_width (units : list Z) (length index : Z) : Z :=
  if (index + 1 <? length) && mal_utf16_is_pair (arr_get units index) (arr_get units (index + 1))
  then 2 else 1.
(** The result, the scalar and the width. *)
Definition mal_utf16_read_scalar (units : list Z) (length index : Z) : bool * Z * Z :=
  let first := arr_get units index in
  let width := mal_utf16_code_point_width units length index in
  if width =? 2 then (true, mal_utf16_compose_pair first (arr_get units (index + 1)), width)
  else (negb (mal_utf16_is_surrogate first), first, width).

(** * [utf16.c] *)

Definition unit_at (bytes : list Z) (big_endian : bool) (i : Z) : Z :=
  let first := u8 (arr_get bytes i) in
  let second := u8 (arr_get bytes (i + 1)) in
  if big_endian then u16 (Z.lor (Z.shiftl first 8) second) else u16 (Z.lor (Z.shiftl second 8) first).

(** The loop from byte [i] with [out] written: the position, the output, the error. *)
Fixpoint utf16_loop (fuel : nat) (bytes : list Z) (len : Z) (big_endian : bool)
    (i : Z) (out : list Z) (had_error : bool) : outcome (Z * list Z * bool) :=
  match fuel with
  | O => NoFuel
  | S fuel =>
      if i + 1 <? len then
        let unit := unit_at bytes big_endian i in
        let i := i + 2 in
        if mal_utf16_is_lead_surrogate unit then
          if (i + 1 <? len) && mal_utf16_is_trail_surrogate (unit_at bytes big_endian i) then
            utf16_loop fuel bytes len big_endian (i + 2)
              (out ++ [unit; unit_at bytes big_endian i]) had_error
          else utf16_loop fuel bytes len big_endian i (out ++ [0xFFFD]) true
        else if mal_utf16_is_trail_surrogate unit then
          utf16_loop fuel bytes len big_endian i (out ++ [0xFFFD]) true
        else utf16_loop fuel bytes len big_endian i (out ++ [unit]) had_error
      else Ret (i, out, had_error)
  end.
(** [None] is the null return of a length whose buffer size would overflow. *)
Definition mal_utf16_decode_report (bytes : list Z) (big_endian : bool)
  : outcome (option (list Z * bool)) :=
  let len := arr_len bytes in
  let capacity := len / 2 + len mod 2 in
  if SIZE_MAX / 2 <? capacity then Ret None
  else
    '(i, out, had_error) ← utf16_loop (S (length bytes)) bytes len big_endian 0 [] false;
    Ret (Some (if i <? len then (out ++ [0xFFFD], true) else (out, had_error))).

(** * [utf8.c]: encoding *)

(** The scalar of the unit at [index], a lone surrogate replaced, and its width. *)
Definition scalar_at (units : list Z) (len index : Z) : Z * Z :=
  let '(ok, scalar, width) := mal_utf16_read_scalar units len index in
  ((if ok : bool then scalar else 0xFFFD), width).

Definition mal_utf8_scalar_width (scalar : Z) : Z :=
  if scalar <? 0x80 then 1 else if scalar <? 0x800 then 2 else if scalar <? 0x10000 then 3 else 4.

Fixpoint encoded_length_loop (fuel : nat) (units : list Z) (len index output_length : Z) : outcome Z :=
  match fuel with
  | O => NoFuel
  | S fuel =>
      if index <? len then
        let '(scalar, width) := scalar_at units len index in
        encoded_length_loop fuel units len (index + (width - 1) + 1)
          (output_length + mal_utf8_scalar_width scalar)
      else Ret output_length
  end.
Definition mal_utf8_encoded_length (units : list Z) : outcome Z :=
  encoded_length_loop (S (length units)) units (arr_len units) 0 0.

Definition mal_utf8_write_scalar (scalar width : Z) : list Z :=
  if width =? 1 then [u8 scalar]
  else if width =? 2 then
    [u8 (Z.lor 0xC0 (Z.shiftr scalar 6)); u8 (Z.lor 0x80 (Z.land scalar 0x3F))]
  else if width =? 3 then
    [u8 (Z.lor 0xE0 (Z.shiftr scalar 12)); u8 (Z.lor 0x80 (Z.land (Z.shiftr scalar 6) 0x3F));
     u8 (Z.lor 0x80 (Z.land scalar 0x3F))]
  else
    [u8 (Z.lor 0xF0 (Z.shiftr scalar 18)); u8 (Z.lor 0x80 (Z.land (Z.shiftr scalar 12) 0x3F));
     u8 (Z.lor 0x80 (Z.land (Z.shiftr scalar 6) 0x3F)); u8 (Z.lor 0x80 (Z.land scalar 0x3F))].

(** The units read and the bytes written. *)
Fixpoint encode_into_loop (fuel : nat) (units : list Z) (len capacity read : Z) (out : list Z)
  : outcome (Z * list Z) :=
  match fuel with
  | O => NoFuel
  | S fuel =>
      if read <? len then
        let '(c, width) := scalar_at units len read in
        let encoded_width := mal_utf8_scalar_width c in
        if capacity - arr_len out <? encoded_width then Ret (read, out)
        else encode_into_loop fuel units len capacity (read + width)
               (out ++ mal_utf8_write_scalar c encoded_width)
      else Ret (read, out)
  end.
Definition mal_utf8_encode_into (units : list Z) (capacity : Z) : outcome (Z * list Z) :=
  encode_into_loop (S (length units)) units (arr_len units) capacity 0 [].
Definition mal_utf8_encode (units : list Z) : outcome (option (list Z)) :=
  let len := arr_len units in
  if (SIZE_MAX - 1) / 3 <? len then Ret None
  else '(_, out) ← mal_utf8_encode_into units (u64 (len * 3 + 1)); Ret (Some out).

(** * [utf8.c]: decoding *)

(** The initial [cp], [n], [second_min], [second_max] of a lead byte; [None] is
    the last arm, an illegal byte. *)
Definition lead_class (b : Z) : option (Z * Z * Z * Z) :=
  if b <? 0x80 then Some (b, 1, 0x80, 0xBF)
  else if (0xC2 <=? b) && (b <=? 0xDF) then Some (Z.land b 0x1F, 2, 0x80, 0xBF)
  else if (0xE0 <=? b) && (b <=? 0xEF) then
    Some (Z.land b 0x0F, 3, (if b =? 0xE0 then 0xA0 else 0x80), (if b =? 0xED then 0x9F else 0xBF))
  else if (0xF0 <=? b) && (b <=? 0xF4) then
    Some (Z.land b 0x07, 4, (if b =? 0xF0 then 0x90 else 0x80), (if b =? 0xF4 then 0x8F else 0xBF))
  else None.

(** The continuation bytes [k .. n): the code point and the bytes consumed;
    [inr consumed] is a malformed or truncated sequence. *)
Fixpoint continuation (fuel : nat) (bytes : list Z) (len i k n second_min second_max cp : Z)
  : Z + Z :=
  match fuel with
  | O => inl cp
  | S fuel =>
      if k <? n then
        if len - i <=? k then inr k
        else
          let cont := u8 (arr_get bytes (i + k)) in
          let minimum := if k =? 1 then second_min else 0x80 in
          let maximum := if k =? 1 then second_max else 0xBF in
          if (cont <? minimum) || (maximum <? cont) then inr k
          else continuation fuel bytes len i (k + 1) n second_min second_max
                 (Z.lor (u32 (Z.shiftl cp 6)) (Z.land cont 0x3F))
      else inl cp
  end.

(** The code point, the next offset and the error flag. *)
Definition mal_utf8_read_scalar (bytes : list Z) (len i : Z) (had_error : bool) : Z * Z * bool :=
  match lead_class (u8 (arr_get bytes i)) with
  | None => (0xFFFD, i + 1, true)
  | Some (cp, n, second_min, second_max) =>
      match continuation 4 bytes len i 1 n second_min second_max cp with
      | inl cp => (cp, i + n, had_error)
      | inr consumed => (0xFFFD, i + consumed, true)
      end
  end.

Fixpoint valid_loop (fuel : nat) (bytes : list Z) (len offset : Z) (had_error : bool) : outcome bool :=
  match fuel with
  | O => NoFuel
  | S fuel =>
      if (offset <? len) && negb had_error then
        let '(_, offset, had_error) := mal_utf8_read_scalar bytes len offset had_error in
        valid_loop fuel bytes len offset had_error
      else Ret (negb had_error)
  end.
Definition mal_utf8_is_valid (bytes : list Z) : outcome bool :=
  valid_loop (S (length bytes)) bytes (arr_len bytes) 0 false.

(** The units of a decoded code point. *)
Definition decoded_units (cp : Z) : list Z :=
  if cp <=? 0xFFFF then [u16 cp] else mal_utf16_emit_pair cp.
Fixpoint utf8_decode_loop (fuel : nat) (bytes : list Z) (len i : Z) (out : list Z) (had_error : bool)
  : outcome (list Z * bool) :=
  match fuel with
  | O => NoFuel
  | S fuel =>
      if i <? len then
        let '(cp, i, had_error) := mal_utf8_read_scalar bytes len i had_error in
        utf8_decode_loop fuel bytes len i (out ++ decoded_units cp) had_error
      else Ret (out, had_error)
  end.
Definition mal_utf8_decode_report (bytes : list Z) : outcome (option (list Z * bool)) :=
  let len := arr_len bytes in
  if SIZE_MAX / 2 - 1 <? len then Ret None
  else r ← utf8_decode_loop (S (length bytes)) bytes len 0 [] false; Ret (Some r).
