(* ===== verification/UtfSpec.v ===== *)
(** What the text encodings compute: UTF-16 units and UTF-8 bytes as encodings of
    lists of Unicode scalar values, round trips, bounds, and totality. *)

From S2P Require Import Prelude Utf.

(** * Scalar values *)

Definition is_scalar (s : Z) : Prop := 0 <= s < 0xD800 \/ 0xE000 <= s <= 0x10FFFF.

(** A unit on its own: a lone surrogate stands for U+FFFD. *)
Definition lone (u : Z) : Z := if mal_utf16_is_surrogate u then 0xFFFD else u.

(** The scalar values of UTF-16 units, with replacement. *)
Fixpoint utf16_scalars (units : list Z) : list Z :=
  match units with
  | [] => []
  | a :: tl =>
      match tl with
      | b :: rest =>
          if mal_utf16_is_pair a b then mal_utf16_compose_pair a b :: utf16_scalars rest
          else lone a :: utf16_scalars tl
      | [] => [lone a]
      end
  end.

Lemma utf16_scalars_cons2 a b rest :
  utf16_scalars (a :: b :: rest)
  = if mal_utf16_is_pair a b then mal_utf16_compose_pair a b :: utf16_scalars rest
    else lone a :: utf16_scalars (b :: rest).
Proof. done. Qed.

(** UTF-8 of one scalar, by arithmetic. *)
Definition utf8_of (s : Z) : list Z :=
  if s <? 0x80 then [s]
  else if s <? 0x800 then [0xC0 + s / 64; 0x80 + s mod 64]
  else if s <? 0x10000 then [0xE0 + s / 4096; 0x80 + s / 64 mod 64; 0x80 + s mod 64]
  else [0xF0 + s / 262144; 0x80 + s / 4096 mod 64; 0x80 + s / 64 mod 64; 0x80 + s mod 64].
(** UTF-16 of one scalar. *)
Definition utf16_of (s : Z) : list Z :=
  if s <? 0x10000 then [s]
  else [0xD800 + (s - 0x10000) / 1024; 0xDC00 + (s - 0x10000) mod 1024].

(** ** Surrogate pairs *)

Ltac unfold_tests :=
  unfold mal_utf16_is_pair, mal_utf16_is_lead_surrogate, mal_utf16_is_trail_surrogate,
    mal_utf16_is_surrogate in *.

Lemma compose_pair_eq a b :
  mal_utf16_is_pair a b = true ->
  mal_utf16_compose_pair a b = 0x10000 + (a - 0xD800) * 1024 + (b - 0xDC00) /\
  0x10000 <= mal_utf16_compose_pair a b <= 0x10FFFF.
Proof.
  unfold_tests. intros H. unfold mal_utf16_compose_pair, u32.
  assert (0 <= a - 0xD800 < 1024 /\ 0 <= b - 0xDC00 < 1024) as [Ha Hb] by lia.
  rewrite (wrap_small 32 (a - 0xD800)), (wrap_small 32 (b - 0xDC00)) by (unfold in_u; lia).
  rewrite Z.shiftl_mul_pow2 by lia. change (2 ^ 10) with 1024.
  rewrite (wrap_small 32 ((a - 0xD800) * 1024)) by (unfold in_u; lia).
  rewrite (wrap_small 32 (0x10000 + (a - 0xD800) * 1024)) by (unfold in_u; lia).
  rewrite wrap_small by (unfold in_u; lia). lia.
Qed.

Lemma emit_pair_eq s :
  0x10000 <= s <= 0x10FFFF -> mal_utf16_emit_pair s = utf16_of s.
Proof.
  intros Hs. unfold mal_utf16_emit_pair, utf16_of. destruct (Z.ltb_spec s 0x10000); [lia|].
  unfold u32. rewrite (wrap_small 32) by (unfold in_u; lia).
  change 0x3ff with (2 ^ 10 - 1). rewrite land_mask, Z.shiftr_div_pow2 by lia. change (2 ^ 10) with 1024.
  unfold u16. rewrite !(wrap_small 16); [done| |]; unfold in_u; Z.to_euclidean_division_equations; lia.
Qed.

Lemma utf16_of_pair s :
  0x10000 <= s <= 0x10FFFF ->
  exists a b, utf16_of s = [a; b] /\ mal_utf16_is_pair a b = true /\ mal_utf16_compose_pair a b = s.
Proof.
  intros Hs. unfold utf16_of. destruct (Z.ltb_spec s 0x10000); [lia|].
  do 2 eexists. split; [done|].
  assert (mal_utf16_is_pair (0xD800 + (s - 0x10000) / 1024) (0xDC00 + (s - 0x10000) mod 1024) = true) as Hp.
  { unfold_tests. Z.to_euclidean_division_equations. lia. }
  split; [done|]. destruct (compose_pair_eq _ _ Hp) as [-> _]. Z.to_euclidean_division_equations. lia.
Qed.

Lemma decoded_units_eq s : is_scalar s -> decoded_units s = utf16_of s.
Proof.
  intros Hs. unfold decoded_units. destruct (Z.leb_spec s 0xFFFF).
  - unfold utf16_of. destruct (Z.ltb_spec s 0x10000); [|lia]. unfold u16.
    rewrite wrap_small; [done|]. unfold in_u. destruct Hs; lia.
  - apply emit_pair_eq. destruct Hs; lia.
Qed.

Lemma lone_scalar u : in_u 16 u -> is_scalar (lone u).
Proof. unfold lone, in_u, is_scalar. unfold_tests. intros Hu. destruct (_ && _) eqn:E; lia. Qed.

Lemma scalars_scalar units : Forall (in_u 16) units -> Forall is_scalar (utf16_scalars units).
Proof.
  assert (forall n units, (length units < n)%nat -> Forall (in_u 16) units -> Forall is_scalar (utf16_scalars units)) as H.
  { induction n as [|n IH]; intros us Hl Hf; [lia|].
    destruct us as [|a [|b rest]]; [constructor| |].
    - apply Forall_cons in Hf as [Ha _]. constructor; [by apply lone_scalar|constructor].
    - apply Forall_cons in Hf as [Ha Hf]. simpl in Hl. rewrite utf16_scalars_cons2.
      destruct (mal_utf16_is_pair a b) eqn:E.
      + constructor; [destruct (compose_pair_eq a b E) as [_ ?]; right; lia|].
        apply Forall_cons in Hf as [_ Hf]. apply IH; [lia|done].
      + constructor; [by apply lone_scalar|]. apply IH; [simpl; lia|done]. }
  intros Hf. by apply (H (S (length units))); [lia|].
Qed.

(** Units that encode scalars read back as those scalars. *)
Lemma scalars_of_utf16 ss : Forall is_scalar ss -> utf16_scalars (flat_map utf16_of ss) = ss.
Proof.
  induction 1 as [|s ss Hs Hf IH]; [done|]. cbn [flat_map].
  destruct (Z.lt_ge_cases s 0x10000) as [Hlt|Hge].
  - unfold utf16_of at 1. destruct (Z.ltb_spec s 0x10000); [|lia]. cbn [app].
    assert (lone s = s) as El by (unfold lone; unfold_tests; destruct (_ && _) eqn:E; [destruct Hs; lia|done]).
    destruct (flat_map utf16_of ss) as [|b rest] eqn:E; [cbn; by rewrite El, <- IH|].
    rewrite utf16_scalars_cons2.
    destruct (mal_utf16_is_pair s b) eqn:Ep; [unfold_tests; destruct Hs; lia|]. by rewrite El, IH.
  - destruct (utf16_of_pair s) as (a & b & -> & Hp & Hc); [destruct Hs; lia|]. cbn [app].
    by rewrite utf16_scalars_cons2, Hp, Hc, IH.
Qed.

(** ** Bytes *)

Lemma tag_byte tag n a : 0 <= n -> 0 <= a < 2 ^ n -> Z.lor (tag * 2 ^ n) a = tag * 2 ^ n + a.
Proof.
  intros Hn Ha. rewrite <- Z.shiftl_mul_pow2 by lia. rewrite lor_shiftl_add' by lia.
  rewrite Z.shiftl_mul_pow2 by lia. lia.
Qed.

Lemma cont_byte x : u8 (Z.lor 0x80 (Z.land x 0x3F)) = 0x80 + x mod 64.
Proof.
  change 0x3F with (2 ^ 6 - 1). rewrite land_mask by lia. change 0x80 with (2 * 2 ^ 6).
  pose proof (Z.mod_pos_bound x (2 ^ 6)). rewrite tag_byte by lia.
  unfold u8. rewrite wrap_small; [done|unfold in_u; lia].
Qed.

Lemma write_scalar_eq s :
  is_scalar s -> mal_utf8_write_scalar s (mal_utf8_scalar_width s) = utf8_of s /\
  arr_len (utf8_of s) = mal_utf8_scalar_width s.
Proof.
  intros Hs. assert (0 <= s <= 0x10FFFF) as Hr by (destruct Hs; lia).
  unfold mal_utf8_write_scalar, mal_utf8_scalar_width, utf8_of. rewrite !cont_byte, !Z.shiftr_div_pow2 by lia.
  destruct (Z.ltb_spec s 0x80); [|destruct (Z.ltb_spec s 0x800); [|destruct (Z.ltb_spec s 0x10000)]].
  - cbn -[u8]. unfold u8. rewrite wrap_small; [done|unfold in_u; lia].
  - change (2 =? 1) with false. change (2 =? 2) with true. cbn match. split; [|done].
    change 0xC0 with (6 * 2 ^ 5). rewrite tag_byte; [|lia|Z.to_euclidean_division_equations; lia].
    unfold u8. rewrite wrap_small; [done|unfold in_u; Z.to_euclidean_division_equations; lia].
  - change (3 =? 1) with false. change (3 =? 2) with false. change (3 =? 3) with true. cbn match. split; [|done].
    change 0xE0 with (14 * 2 ^ 4). rewrite tag_byte; [|lia|Z.to_euclidean_division_equations; lia].
    unfold u8. rewrite wrap_small; [done|unfold in_u; Z.to_euclidean_division_equations; lia].
  - change (4 =? 1) with false. change (4 =? 2) with false. change (4 =? 3) with false. cbn match. split; [|done].
    change 0xF0 with (30 * 2 ^ 3). rewrite tag_byte; [|lia|Z.to_euclidean_division_equations; lia].
    unfold u8. rewrite wrap_small; [done|unfold in_u; Z.to_euclidean_division_equations; lia].
Qed.

(** * Positions and suffixes *)

Lemma drop_cons (l : list Z) i x rest :
  0 <= i -> drop (Z.to_nat i) l = x :: rest ->
  arr_get l i = x /\ i < arr_len l /\ drop (Z.to_nat (i + 1)) l = rest.
Proof.
  intros Hi Hd. assert (l !! Z.to_nat i = Some x) as Hx.
  { rewrite <- (Nat.add_0_r (Z.to_nat i)), <- lookup_drop, Hd. done. }
  split; [by apply arr_get_of_lookup|]. split.
  - apply lookup_lt_Some in Hx. unfold arr_len. lia.
  - replace (Z.to_nat (i + 1)) with (Z.to_nat i + 1)%nat by lia.
    rewrite <- drop_drop. by rewrite Hd.
Qed.

Lemma drop_in_range (l : list Z) i : 0 <= i < arr_len l -> exists rest, drop (Z.to_nat i) l = arr_get l i :: rest.
Proof.
  intros Hi. pose proof (arr_get_lookup l i Hi) as Hx.
  exists (drop (S (Z.to_nat i)) l). by apply drop_S.
Qed.

Lemma drop_end (l : list Z) i : arr_len l <= i -> drop (Z.to_nat i) l = [].
Proof. intros. apply drop_ge. unfold arr_len in *. lia. Qed.

Lemma drop_app_pos (l pre rest : list Z) i :
  0 <= i -> drop (Z.to_nat i) l = pre ++ rest -> drop (Z.to_nat (i + arr_len pre)) l = rest.
Proof.
  intros Hi Hd. unfold arr_len. replace (Z.to_nat (i + Z.of_nat (length pre))) with (Z.to_nat i + length pre)%nat by lia.
  rewrite <- drop_drop, Hd. apply drop_app_length.
Qed.

(** The scalar at a position is the first scalar of the suffix there. *)
Lemma scalar_at_suffix units i :
  0 <= i < arr_len units ->
  exists s w, scalar_at units (arr_len units) i = (s, w) /\ 1 <= w <= 2 /\ i + w <= arr_len units /\
    utf16_scalars (drop (Z.to_nat i) units) = s :: utf16_scalars (drop (Z.to_nat (i + w)) units).
Proof.
  intros Hi. destruct (drop_in_range units i Hi) as [rest Hd].
  destruct (drop_cons units i _ rest ltac:(lia) Hd) as (_ & _ & Hd1).
  unfold scalar_at, mal_utf16_read_scalar, mal_utf16_code_point_width.
  destruct rest as [|b rest].
  - assert (arr_len units <= i + 1) as Hend.
    { destruct (Z.le_gt_cases (arr_len units) (i + 1)); [done|].
      destruct (drop_in_range units (i + 1)) as [? E]; [lia|]. congruence. }
    destruct (Z.ltb_spec (i + 1) (arr_len units)); [lia|]. cbn [andb Z.eqb]. cbn -[lone].
    do 2 eexists. split; [done|]. split; [lia|]. split; [lia|]. rewrite Hd, Hd1. cbn.
    unfold lone. by destruct (mal_utf16_is_surrogate _).
  - destruct (drop_cons units (i + 1) b rest ltac:(lia) Hd1) as (Hb & Hlt & Hd2).
    destruct (Z.ltb_spec (i + 1) (arr_len units)); [|lia]. cbn [andb]. rewrite Hb, Hd, utf16_scalars_cons2.
    destruct (mal_utf16_is_pair (arr_get units i) b).
    + cbn -[mal_utf16_compose_pair]. do 2 eexists. split; [done|]. split; [lia|]. split; [lia|].
      replace (i + 2) with (i + 1 + 1) by lia. by rewrite Hd2.
    + cbn -[lone]. do 2 eexists. split; [done|]. split; [lia|]. split; [lia|]. rewrite Hd1.
      unfold lone. by destruct (mal_utf16_is_surrogate _).
Qed.

(** * Encoding *)

(** The encoder stops at the end or before the first scalar that does not fit. *)
Definition fits_or_done (capacity : Z) (out : list Z) (rest : list Z) : Prop :=
  match rest with
  | [] => True
  | s :: _ => capacity < arr_len out + mal_utf8_scalar_width s
  end.

Lemma scalars_split_app (l1 l2 : list Z) : flat_map utf8_of (l1 ++ l2) = flat_map utf8_of l1 ++ flat_map utf8_of l2.
Proof. apply flat_map_app. Qed.

Lemma encode_into_loop_ok units capacity fuel : forall i out,
  Forall (in_u 16) units -> 0 <= i <= arr_len units -> (Z.to_nat (arr_len units - i) < fuel)%nat ->
  arr_len out <= capacity ->
  exists read ss,
    encode_into_loop fuel units (arr_len units) capacity i out = Ret (read, out ++ flat_map utf8_of ss) /\
    i <= read <= arr_len units /\ arr_len (out ++ flat_map utf8_of ss) <= capacity /\
    utf16_scalars (drop (Z.to_nat i) units) = ss ++ utf16_scalars (drop (Z.to_nat read) units) /\
    fits_or_done capacity (out ++ flat_map utf8_of ss) (utf16_scalars (drop (Z.to_nat read) units)).
Proof.
  induction fuel as [|fuel IH]; intros i out Hf Hi Hl Hc; [lia|]. cbn [encode_into_loop].
  destruct (Z.ltb_spec i (arr_len units)) as [Hlt|Hge].
  2: { exists i, []. cbn [flat_map]. rewrite app_nil_r. split_and!; try done; try lia.
       by rewrite drop_end by lia. }
  destruct (scalar_at_suffix units i ltac:(lia)) as (s & w & -> & Hw & Hiw & Hs).
  assert (is_scalar s) as Hsc.
  { pose proof (scalars_scalar (drop (Z.to_nat i) units)) as H. rewrite Hs in H.
    specialize (H ltac:(by apply Forall_drop)). by apply Forall_cons in H as [? _]. }
  destruct (write_scalar_eq s Hsc) as [-> Hlen].
  destruct (Z.ltb_spec (capacity - arr_len out) (mal_utf8_scalar_width s)) as [Hno|Hyes].
  - exists i, []. cbn [flat_map]. rewrite app_nil_r. split_and!; try done; try lia.
    rewrite Hs. cbn [fits_or_done]. lia.
  - destruct (IH (i + w) (out ++ utf8_of s)) as (read & ss & -> & Hr & Hb & Hsp & Hfit);
      [done|lia|lia|rewrite arr_len_app; lia|].
    exists read, (s :: ss). cbn [flat_map]. rewrite app_assoc.
    split; [done|]. split; [lia|]. split; [done|]. rewrite Hs, Hsp. done.
Qed.

Lemma utf8_of_len s : 1 <= arr_len (utf8_of s) <= 4.
Proof. unfold utf8_of. repeat destruct (_ <? _); done. Qed.

(** Three bytes per unit are always enough. *)
Lemma utf8_size units :
  Forall (in_u 16) units -> arr_len (flat_map utf8_of (utf16_scalars units)) <= 3 * arr_len units.
Proof.
  assert (forall n units, (length units < n)%nat -> Forall (in_u 16) units ->
    arr_len (flat_map utf8_of (utf16_scalars units)) <= 3 * arr_len units) as H.
  { induction n as [|n IH]; intros us Hl Hf; [lia|].
    assert (forall u, in_u 16 u -> arr_len (utf8_of (lone u)) <= 3) as Hlone.
    { intros u Hu. unfold lone, in_u in *. destruct (mal_utf16_is_surrogate u); [done|]. unfold utf8_of.
      destruct (u <? 0x80), (u <? 0x800), (Z.ltb_spec u 0x10000); try done. lia. }
    destruct us as [|a [|b rest]]; [done| |].
    - apply Forall_cons in Hf as [Ha _]. cbn [utf16_scalars flat_map]. rewrite app_nil_r.
      specialize (Hlone a Ha). change (arr_len [a]) with 1. lia.
    - apply Forall_cons in Hf as [Ha Hf]. simpl in Hl. rewrite utf16_scalars_cons2.
      assert (forall (x : Z) l, arr_len (x :: l) = 1 + arr_len l) as El by (intros; unfold arr_len; simpl length; lia).
      destruct (mal_utf16_is_pair a b).
      + apply Forall_cons in Hf as [_ Hf]. cbn [flat_map]. rewrite arr_len_app, !El.
        specialize (IH rest ltac:(lia) Hf). pose proof (utf8_of_len (mal_utf16_compose_pair a b)). lia.
      + cbn [flat_map]. rewrite arr_len_app, (El a).
        specialize (IH (b :: rest) ltac:(simpl; lia) Hf). specialize (Hlone a Ha). lia. }
  intros Hf. by apply (H (S (length units))); [lia|].
Qed.

(** * Decoding *)

Lemma land_low k x : 0 <= k -> Z.land x (2 ^ k - 1) = x mod 2 ^ k.
Proof. apply land_mask. Qed.

Lemma lead_ascii b : 0 <= b < 0x80 -> lead_class b = Some (b, 1, 0x80, 0xBF).
Proof. intros. unfold lead_class. destruct (Z.ltb_spec b 0x80); [done|lia]. Qed.

Lemma lead_two x : 2 <= x < 32 -> lead_class (0xC0 + x) = Some (x, 2, 0x80, 0xBF).
Proof.
  intros Hx. unfold lead_class. destruct (Z.ltb_spec (0xC0 + x) 0x80); [lia|].
  destruct ((0xC2 <=? 0xC0 + x) && (0xC0 + x <=? 0xDF)) eqn:E; [|lia].
  change 0x1F with (2 ^ 5 - 1). rewrite land_low by lia.
  replace ((0xC0 + x) mod 2 ^ 5) with x; [done|]. Z.to_euclidean_division_equations. lia.
Qed.

Lemma lead_three x : 0 <= x < 16 ->
  lead_class (0xE0 + x) = Some (x, 3, (if x =? 0 then 0xA0 else 0x80), (if x =? 13 then 0x9F else 0xBF)).
Proof.
  intros Hx. unfold lead_class. destruct (Z.ltb_spec (0xE0 + x) 0x80); [lia|].
  destruct ((0xC2 <=? 0xE0 + x) && (0xE0 + x <=? 0xDF)) eqn:E; [lia|].
  destruct ((0xE0 <=? 0xE0 + x) && (0xE0 + x <=? 0xEF)) eqn:E2; [|lia].
  change 0x0F with (2 ^ 4 - 1). rewrite land_low by lia.
  replace ((0xE0 + x) mod 2 ^ 4) with x by (Z.to_euclidean_division_equations; lia).
  replace (0xE0 + x =? 0xE0) with (x =? 0) by lia. by replace (0xE0 + x =? 0xED) with (x =? 13) by lia.
Qed.

Lemma lead_four x : 0 <= x < 5 ->
  lead_class (0xF0 + x) = Some (x, 4, (if x =? 0 then 0x90 else 0x80), (if x =? 4 then 0x8F else 0xBF)).
Proof.
  intros Hx. unfold lead_class. destruct (Z.ltb_spec (0xF0 + x) 0x80); [lia|].
  destruct ((0xC2 <=? 0xF0 + x) && (0xF0 + x <=? 0xDF)) eqn:E; [lia|].
  destruct ((0xE0 <=? 0xF0 + x) && (0xF0 + x <=? 0xEF)) eqn:E2; [lia|].
  destruct ((0xF0 <=? 0xF0 + x) && (0xF0 + x <=? 0xF4)) eqn:E3; [|lia].
  change 0x07 with (2 ^ 3 - 1). rewrite land_low by lia.
  replace ((0xF0 + x) mod 2 ^ 3) with x by (Z.to_euclidean_division_equations; lia).
  replace (0xF0 + x =? 0xF0) with (x =? 0) by lia. by replace (0xF0 + x =? 0xF4) with (x =? 4) by lia.
Qed.

(** One continuation byte. *)
Lemma continuation_step fuel bytes len i k n lo hi cp y :
  arr_get bytes (i + k) = 0x80 + y -> 0 <= y < 64 -> 0 <= cp < 2 ^ 20 -> k < n -> k < len - i ->
  (if k =? 1 then lo else 0x80) <= 0x80 + y <= (if k =? 1 then hi else 0xBF) ->
  continuation (S fuel) bytes len i k n lo hi cp
  = continuation fuel bytes len i (k + 1) n lo hi (cp * 64 + y).
Proof.
  intros Hb Hy Hc Hk Hl Hr. cbn [continuation].
  destruct (Z.ltb_spec k n); [|lia]. destruct (Z.leb_spec (len - i) k); [lia|].
  rewrite Hb. unfold u8. rewrite wrap_small by (unfold in_u; lia).
  destruct (Z.ltb_spec (0x80 + y) (if k =? 1 then lo else 0x80)); [lia|].
  destruct (Z.ltb_spec (if k =? 1 then hi else 0xBF) (0x80 + y)); [lia|]. cbn [orb].
  f_equal. change 0x3F with (2 ^ 6 - 1). rewrite land_low by lia.
  replace ((0x80 + y) mod 2 ^ 6) with y by (Z.to_euclidean_division_equations; lia).
  unfold u32. rewrite wrap_small by (rewrite Z.shiftl_mul_pow2 by lia; unfold in_u; lia).
  rewrite lor_shiftl_add' by lia. lia.
Qed.

Lemma continuation_end fuel bytes len i n lo hi cp :
  continuation fuel bytes len i n n lo hi cp = inl cp.
Proof. destruct fuel; cbn [continuation]; [done|]. by rewrite Z.ltb_irrefl. Qed.

(** Reading the UTF-8 of a scalar yields it. *)
Lemma read_scalar_encoded bytes i s rest err :
  0 <= i -> is_scalar s -> drop (Z.to_nat i) bytes = utf8_of s ++ rest ->
  mal_utf8_read_scalar bytes (arr_len bytes) i err = (s, i + arr_len (utf8_of s), err).
Proof.
  intros Hi Hs Hd. assert (0 <= s <= 0x10FFFF) as Hr by (destruct Hs; lia).
  unfold mal_utf8_read_scalar. unfold utf8_of in *.
  destruct (Z.ltb_spec s 0x80); [|destruct (Z.ltb_spec s 0x800); [|destruct (Z.ltb_spec s 0x10000)]];
    cbn [app] in Hd.
  - destruct (drop_cons _ _ _ _ Hi Hd) as (-> & _ & _). unfold u8. rewrite wrap_small by (unfold in_u; lia).
    by rewrite lead_ascii, continuation_end by lia.
  - destruct (drop_cons _ _ _ _ Hi Hd) as (-> & _ & Hd1).
    destruct (drop_cons _ (i + 1) _ _ ltac:(lia) Hd1) as (E1 & L1 & _).
    assert (2 <= s / 64 < 32 /\ 0 <= s mod 64 < 64 /\ s = s / 64 * 64 + s mod 64) as (B0 & B1 & B2)
      by (Z.to_euclidean_division_equations; lia).
    unfold u8. rewrite wrap_small by (unfold in_u; lia). rewrite lead_two by lia.
    rewrite (continuation_step _ _ _ _ _ _ _ _ _ (s mod 64)); [|done|lia|lia|lia|lia|cbn; lia].
    rewrite continuation_end. by rewrite <- B2.
  - destruct (drop_cons _ _ _ _ Hi Hd) as (-> & _ & Hd1).
    destruct (drop_cons _ (i + 1) _ _ ltac:(lia) Hd1) as (E1 & L1 & Hd2).
    destruct (drop_cons _ (i + 1 + 1) _ _ ltac:(lia) Hd2) as (E2 & L2 & _).
    assert (0 <= s / 4096 < 16 /\ 0 <= s / 64 mod 64 < 64 /\ 0 <= s mod 64 < 64 /\
            s = (s / 4096 * 64 + s / 64 mod 64) * 64 + s mod 64 /\
            (s / 4096 = 0 -> 32 <= s / 64 mod 64) /\ (s / 4096 = 13 -> s / 64 mod 64 < 32))
      as (B0 & B1 & B2 & B3 & B4 & B5).
    { destruct Hs; Z.to_euclidean_division_equations; lia. }
    unfold u8. rewrite wrap_small by (unfold in_u; lia). rewrite lead_three by lia.
    rewrite (continuation_step _ _ _ _ _ _ _ _ _ (s / 64 mod 64));
      [|done|lia|lia|lia|lia|cbn [Z.eqb Pos.eqb]; destruct (Z.eqb_spec (s / 4096) 0), (Z.eqb_spec (s / 4096) 13); lia].
    replace (i + 1 + 1) with (i + 2) in * by lia. change (1 + 1) with 2.
    rewrite (continuation_step _ _ _ _ _ _ _ _ _ (s mod 64)); [|exact E2|lia|lia|lia|lia|cbn; lia].
    change (2 + 1) with 3. rewrite continuation_end. by rewrite <- B3.
  - destruct (drop_cons _ _ _ _ Hi Hd) as (-> & _ & Hd1).
    destruct (drop_cons _ (i + 1) _ _ ltac:(lia) Hd1) as (E1 & L1 & Hd2).
    destruct (drop_cons _ (i + 1 + 1) _ _ ltac:(lia) Hd2) as (E2 & L2 & Hd3).
    destruct (drop_cons _ (i + 1 + 1 + 1) _ _ ltac:(lia) Hd3) as (E3 & L3 & _).
    assert (0 <= s / 262144 < 5 /\ 0 <= s / 4096 mod 64 < 64 /\ 0 <= s / 64 mod 64 < 64 /\ 0 <= s mod 64 < 64 /\
            s = ((s / 262144 * 64 + s / 4096 mod 64) * 64 + s / 64 mod 64) * 64 + s mod 64 /\
            (s / 262144 = 0 -> 16 <= s / 4096 mod 64) /\ (s / 262144 = 4 -> s / 4096 mod 64 < 16))
      as (B0 & B1 & B2 & B2' & B3 & B4 & B5).
    { Z.to_euclidean_division_equations; lia. }
    unfold u8. rewrite wrap_small by (unfold in_u; lia). rewrite lead_four by lia.
    replace (i + 1 + 1) with (i + 2) in * by lia. replace (i + 2 + 1) with (i + 3) in * by lia.
    rewrite (continuation_step _ _ _ _ _ _ _ _ _ (s / 4096 mod 64));
      [|done|lia|lia|lia|lia|cbn [Z.eqb Pos.eqb]; destruct (Z.eqb_spec (s / 262144) 0), (Z.eqb_spec (s / 262144) 4); lia].
    change (1 + 1) with 2.
    rewrite (continuation_step _ _ _ _ _ _ _ _ _ (s / 64 mod 64)); [|exact E2|lia|lia|lia|lia|cbn; lia].
    change (2 + 1) with 3.
    rewrite (continuation_step _ _ _ _ _ _ _ _ _ (s mod 64)); [|exact E3|lia|lia|lia|lia|cbn; lia].
    change (3 + 1) with 4. rewrite continuation_end. by rewrite <- B3.
Qed.

Lemma continuation_inv fuel bytes i k n lo hi cp :
  Forall (in_u 8) bytes -> 0 <= i -> 0 <= k < n -> 0 <= cp < 2 ^ 20 -> 0x80 <= lo -> hi <= 0xBF ->
  let len := arr_len bytes in
  continuation (S fuel) bytes len i k n lo hi cp = inr k \/
  exists y, 0 <= y < 64 /\ (if k =? 1 then lo else 0x80) <= 0x80 + y <= (if k =? 1 then hi else 0xBF) /\
    k < len - i /\ arr_get bytes (i + k) = 0x80 + y /\
    continuation (S fuel) bytes len i k n lo hi cp = continuation fuel bytes len i (k + 1) n lo hi (cp * 64 + y).
Proof.
  intros Hf Hi Hk Hc Hlo Hhi len.
  destruct (Z.le_gt_cases (len - i) k) as [Hend|Hin].
  { left. cbn [continuation]. destruct (Z.ltb_spec k n); [|lia]. by destruct (Z.leb_spec (len - i) k); [|lia]. }
  assert (in_u 8 (arr_get bytes (i + k))) as Hb.
  { rewrite Forall_lookup in Hf. apply (Hf (Z.to_nat (i + k))), arr_get_lookup. lia. }
  set (lo' := if k =? 1 then lo else 0x80). set (hi' := if k =? 1 then hi else 0xBF).
  assert (0x80 <= lo' /\ hi' <= 0xBF) as [Hlo' Hhi'] by (subst lo' hi'; destruct (k =? 1); lia).
  destruct (decide (lo' <= arr_get bytes (i + k) <= hi')) as [Hr|Hr].
  - right. exists (arr_get bytes (i + k) - 0x80). split_and!; try lia.
    apply continuation_step; try lia.
  - left. cbn [continuation]. destruct (Z.ltb_spec k n); [|lia]. destruct (Z.leb_spec (len - i) k); [lia|].
    unfold u8. rewrite wrap_small by done. fold lo' hi'.
    destruct (Z.ltb_spec (arr_get bytes (i + k)) lo'); [done|].
    by destruct (Z.ltb_spec hi' (arr_get bytes (i + k))); [|lia].
Qed.

(** What a read at a position inside the buffer does. *)
Definition read_ok (bytes : list Z) (i : Z) (err : bool) (r : Z * Z * bool) : Prop :=
  let '(cp, j, err') := r in
  is_scalar cp /\ i < j <= arr_len bytes /\
  ((err' = err /\ drop (Z.to_nat i) bytes = utf8_of cp ++ drop (Z.to_nat j) bytes) \/
   (err' = true /\ cp = 0xFFFD)).

Lemma drop_get_cons (l : list Z) i :
  0 <= i < arr_len l -> drop (Z.to_nat i) l = arr_get l i :: drop (Z.to_nat (i + 1)) l.
Proof.
  intros Hi. destruct (drop_in_range l i Hi) as [rest Hd].
  destruct (drop_cons l i _ rest ltac:(lia) Hd) as (_ & _ & <-). done.
Qed.

Lemma read_error bytes i err k :
  0 <= i -> 1 <= k <= arr_len bytes - i -> read_ok bytes i err (0xFFFD, i + k, true).
Proof. intros. split; [right; lia|]. split; [lia|]. by right. Qed.

Lemma read_scalar_ok bytes i err :
  Forall (in_u 8) bytes -> 0 <= i < arr_len bytes ->
  read_ok bytes i err (mal_utf8_read_scalar bytes (arr_len bytes) i err).
Proof.
  intros Hf Hi.
  assert (in_u 8 (arr_get bytes i)) as Hb.
  { rewrite Forall_lookup in Hf. apply (Hf (Z.to_nat i)), arr_get_lookup. lia. }
  pose proof (drop_get_cons bytes i Hi) as D0.
  unfold mal_utf8_read_scalar. unfold u8. rewrite wrap_small by done.
  set (b := arr_get bytes i) in *. unfold in_u in Hb.
  assert (b < 0x80 \/ 0x80 <= b < 0xC2 \/ (exists x, b = 0xC0 + x /\ 2 <= x < 32) \/
          (exists x, b = 0xE0 + x /\ 0 <= x < 16) \/ (exists x, b = 0xF0 + x /\ 0 <= x < 5) \/ 0xF5 <= b)
    as Hcase.
  { destruct (decide (b < 0x80)); [by left|]. destruct (decide (b < 0xC2)); [right; left; lia|].
    destruct (decide (b < 0xE0)); [right; right; left; exists (b - 0xC0); lia|].
    destruct (decide (b < 0xF0)); [do 3 right; left; exists (b - 0xE0); lia|].
    destruct (decide (b < 0xF5)); [do 4 right; left; exists (b - 0xF0); lia|]. do 5 right. lia. }
  assert (forall bad, lead_class b = None -> read_ok bytes i err
            match lead_class b with None => (0xFFFD, i + 1, true) | Some p => bad p end) as Hbad.
  { intros bad ->. apply read_error; lia. }
  destruct Hcase as [Ha|[Hn|[(x & Eb & Hx)|[(x & Eb & Hx)|[(x & Eb & Hx)|Hn]]]]].
  - rewrite lead_ascii, continuation_end by lia. split; [left; lia|]. split; [lia|]. left. split; [done|].
    unfold utf8_of. destruct (Z.ltb_spec b 0x80); [|lia]. exact D0.
  - apply Hbad. unfold lead_class. destruct (Z.ltb_spec b 0x80); [lia|].
    destruct (_ && _) eqn:E1; [lia|]. destruct ((0xE0 <=? b) && _) eqn:E2; [lia|].
    destruct ((0xF0 <=? b) && _) eqn:E3; [lia|done].
  - rewrite Eb, lead_two by lia.
    destruct (continuation_inv 3 bytes i 1 2 0x80 0xBF x Hf) as [->|(y & Hy & _ & Hl & Hg & ->)]; try lia.
    { apply read_error; lia. }
    rewrite continuation_end. pose proof (drop_get_cons bytes (i + 1) ltac:(lia)) as D1.
    split; [left; lia|]. split; [lia|]. left. split; [done|]. rewrite D0, D1, Hg, Eb.
    unfold utf8_of. destruct (Z.ltb_spec (x * 64 + y) 0x80); [lia|]. destruct (Z.ltb_spec (x * 64 + y) 0x800); [|lia].
    cbn [app]. rewrite <- Z.add_assoc. f_equal; [|f_equal]; Z.to_euclidean_division_equations; lia.
  - rewrite Eb, lead_three by lia.
    set (lo := if x =? 0 then 0xA0 else 0x80). set (hi := if x =? 13 then 0x9F else 0xBF).
    assert (0x80 <= lo /\ hi <= 0xBF) as [Hlo Hhi] by (subst lo hi; destruct (x =? 0), (x =? 13); lia).
    destruct (continuation_inv 3 bytes i 1 3 lo hi x Hf)
      as [->|(y & Hy & Hyr & Hl & Hg & ->)]; try lia.
    { apply read_error; lia. }
    change (1 + 1) with 2.
    destruct (continuation_inv 2 bytes i 2 3 lo hi (x * 64 + y) Hf)
      as [->|(z & Hz & _ & Hl2 & Hg2 & ->)]; try lia.
    { apply read_error; lia. }
    change (2 + 1) with 3. rewrite continuation_end. cbn [Z.eqb Pos.eqb] in Hyr. subst lo hi.
    pose proof (drop_get_cons bytes (i + 1) ltac:(lia)) as D1.
    pose proof (drop_get_cons bytes (i + 2) ltac:(lia)) as D2.
    assert (0x800 <= (x * 64 + y) * 64 + z < 0x10000 /\ is_scalar ((x * 64 + y) * 64 + z)) as [Hr Hs].
    { unfold is_scalar. destruct (Z.eqb_spec x 0), (Z.eqb_spec x 13); lia. }
    split; [done|]. split; [lia|]. left. split; [done|].
    rewrite D0, D1. replace (i + 1 + 1) with (i + 2) by lia. rewrite D2, Hg, Hg2, Eb.
    unfold utf8_of. destruct (Z.ltb_spec ((x * 64 + y) * 64 + z) 0x80); [lia|].
    destruct (Z.ltb_spec ((x * 64 + y) * 64 + z) 0x800); [lia|].
    destruct (Z.ltb_spec ((x * 64 + y) * 64 + z) 0x10000); [|lia]. cbn [app].
    replace (i + 2 + 1) with (i + 3) by lia.
    f_equal; [|f_equal; [|f_equal]]; clear - Hx Hy Hz; Z.to_euclidean_division_equations; lia.
  - rewrite Eb, lead_four by lia.
    set (lo := if x =? 0 then 0x90 else 0x80). set (hi := if x =? 4 then 0x8F else 0xBF).
    assert (0x80 <= lo /\ hi <= 0xBF) as [Hlo Hhi] by (subst lo hi; destruct (x =? 0), (x =? 4); lia).
    destruct (continuation_inv 3 bytes i 1 4 lo hi x Hf)
      as [->|(y & Hy & Hyr & Hl & Hg & ->)]; try lia.
    { apply read_error; lia. }
    change (1 + 1) with 2.
    destruct (continuation_inv 2 bytes i 2 4 lo hi (x * 64 + y) Hf)
      as [->|(z & Hz & _ & Hl2 & Hg2 & ->)]; try lia.
    { apply read_error; lia. }
    change (2 + 1) with 3.
    destruct (continuation_inv 1 bytes i 3 4 lo hi ((x * 64 + y) * 64 + z) Hf)
      as [->|(w & Hw & _ & Hl3 & Hg3 & ->)]; try lia.
    { apply read_error; lia. }
    change (3 + 1) with 4. rewrite continuation_end. cbn [Z.eqb Pos.eqb] in Hyr. subst lo hi.
    pose proof (drop_get_cons bytes (i + 1) ltac:(lia)) as D1.
    pose proof (drop_get_cons bytes (i + 2) ltac:(lia)) as D2.
    pose proof (drop_get_cons bytes (i + 3) ltac:(lia)) as D3.
    set (s := ((x * 64 + y) * 64 + z) * 64 + w).
    assert (0x10000 <= s <= 0x10FFFF) as Hr by (destruct (Z.eqb_spec x 0), (Z.eqb_spec x 4); lia).
    split; [right; lia|]. split; [lia|]. left. split; [done|].
    rewrite D0, D1. replace (i + 1 + 1) with (i + 2) by lia. rewrite D2.
    replace (i + 2 + 1) with (i + 3) by lia. rewrite D3, Hg, Hg2, Hg3, Eb.
    unfold utf8_of. destruct (Z.ltb_spec s 0x80); [lia|].
    destruct (Z.ltb_spec s 0x800); [lia|]. destruct (Z.ltb_spec s 0x10000); [lia|]. cbn [app].
    replace (i + 3 + 1) with (i + 4) by lia. subst s.
    f_equal; [|f_equal; [|f_equal; [|f_equal]]]; clear - Hx Hy Hz Hw; Z.to_euclidean_division_equations; lia.
  - apply Hbad. unfold lead_class. destruct (Z.ltb_spec b 0x80); [lia|].
    destruct (_ && _) eqn:E1; [lia|]. destruct ((0xE0 <=? b) && _) eqn:E2; [lia|].
    destruct ((0xF0 <=? b) && _) eqn:E3; [lia|done].
Qed.

Lemma utf16_of_len s : 1 <= arr_len (utf16_of s) <= 2.
Proof. unfold utf16_of. by destruct (_ <? _). Qed.

(** A read consumes at least as many bytes as it yields units. *)
Lemma read_units_fit bytes i err cp j err' :
  0 <= i -> read_ok bytes i err (cp, j, err') -> arr_len (utf16_of cp) <= j - i.
Proof.
  intros Hi (Hs & Hj & [[_ Hd]|[_ ->]]); [|change (arr_len (utf16_of 0xFFFD)) with 1; lia].
  assert (arr_len (drop (Z.to_nat i) bytes) = arr_len (utf8_of cp) + arr_len (drop (Z.to_nat j) bytes)) as E
    by (by rewrite Hd, arr_len_app).
  unfold arr_len in E. rewrite !length_drop in E. unfold arr_len in *.
  assert (Z.of_nat (length (utf16_of cp)) <= Z.of_nat (length (utf8_of cp))); [|lia].
  unfold utf16_of, utf8_of.
  destruct (Z.ltb_spec cp 0x10000), (Z.ltb_spec cp 0x80), (Z.ltb_spec cp 0x800); simpl; lia.
Qed.

Lemma decode_loop_ok bytes fuel : forall i out err,
  Forall (in_u 8) bytes -> 0 <= i <= arr_len bytes -> (Z.to_nat (arr_len bytes - i) < fuel)%nat ->
  exists ss err',
    utf8_decode_loop fuel bytes (arr_len bytes) i out err = Ret (out ++ flat_map utf16_of ss, err') /\
    valid_loop fuel bytes (arr_len bytes) i err = Ret (negb err') /\
    Forall is_scalar ss /\ arr_len (flat_map utf16_of ss) <= arr_len bytes - i /\
    (err = true -> err' = true) /\
    (err' = false -> drop (Z.to_nat i) bytes = flat_map utf8_of ss).
Proof.
  induction fuel as [|fuel IH]; intros i out err Hf Hi Hl; [lia|]. cbn [utf8_decode_loop valid_loop].
  destruct (Z.ltb_spec i (arr_len bytes)) as [Hlt|Hge].
  2: { exists [], err. cbn [flat_map andb]. rewrite app_nil_r. split_and!; try done.
       - change (arr_len (@nil Z)) with 0. lia.
       - intros _. by rewrite drop_end by lia. }
  pose proof (read_scalar_ok bytes i err Hf ltac:(lia)) as Hr.
  destruct (mal_utf8_read_scalar bytes (arr_len bytes) i err) as [[cp j] err1] eqn:E.
  pose proof (read_units_fit bytes i err cp j err1 ltac:(lia) Hr) as Hfit.
  destruct Hr as (Hs & Hj & Hr).
  rewrite decoded_units_eq by done.
  destruct (IH j (out ++ utf16_of cp) err1 Hf ltac:(lia) ltac:(lia))
    as (ss & err' & -> & Hv & Hss & Hlen & Hst & Hd).
  exists (cp :: ss), err'. cbn [flat_map]. rewrite app_assoc, arr_len_app.
  split; [done|]. split.
  { cbn [andb]. destruct err; cbn [negb]; [|done].
    assert (err1 = true) as -> by (destruct Hr as [[-> _]|[-> _]]; done). by rewrite (Hst eq_refl). }
  split; [by constructor|]. split; [lia|]. split.
  - intros ->. apply Hst. destruct Hr as [[-> _]|[-> _]]; done.
  - intros He. rewrite <- Hd by done. destruct Hr as [[_ Hr]|[-> _]]; [done|]. by rewrite (Hst eq_refl) in He.
Qed.

(** Decoding the UTF-8 of scalars yields their UTF-16. *)
Lemma decode_loop_encoded bytes fuel : forall ss i out err,
  Forall is_scalar ss -> 0 <= i -> drop (Z.to_nat i) bytes = flat_map utf8_of ss ->
  (length ss < fuel)%nat ->
  utf8_decode_loop fuel bytes (arr_len bytes) i out err = Ret (out ++ flat_map utf16_of ss, err).
Proof.
  induction fuel as [|fuel IH]; intros ss i out err Hs Hi Hd Hl; [lia|]. cbn [utf8_decode_loop].
  destruct ss as [|s ss]; cbn [flat_map] in *.
  - rewrite app_nil_r. destruct (Z.ltb_spec i (arr_len bytes)); [|done].
    destruct (drop_in_range bytes i ltac:(lia)) as [r E]. congruence.
  - apply Forall_cons in Hs as [Hs Hss]. pose proof (utf8_of_len s) as Hlen.
    assert (i < arr_len bytes) as Hlt.
    { destruct (utf8_of s) as [|x r] eqn:E; [change (arr_len (@nil Z)) with 0 in Hlen; lia|].
      cbn [app] in Hd. by destruct (drop_cons bytes i x _ Hi Hd) as (_ & ? & _). }
    destruct (Z.ltb_spec i (arr_len bytes)); [|lia].
    rewrite (read_scalar_encoded bytes i s _ err Hi Hs Hd), decoded_units_eq by done.
    rewrite (IH ss); try done; [by rewrite app_assoc|lia|by apply drop_app_pos|simpl in Hl; lia].
Qed.

Lemma utf8_len_scalars ss : arr_len ss <= arr_len (flat_map utf8_of ss).
Proof.
  induction ss as [|s ss IH]; [done|]. cbn [flat_map]. rewrite arr_len_app.
  pose proof (utf8_of_len s). unfold arr_len in *. simpl length. lia.
Qed.

(** ** Well-formed UTF-16 *)

(** No lone surrogate. *)
Fixpoint utf16_well_formed (units : list Z) : bool :=
  match units with
  | [] => true
  | a :: tl =>
      match tl with
      | b :: rest =>
          if mal_utf16_is_pair a b then utf16_well_formed rest
          else negb (mal_utf16_is_surrogate a) && utf16_well_formed tl
      | [] => negb (mal_utf16_is_surrogate a)
      end
  end.

Lemma pair_units a b : mal_utf16_is_pair a b = true -> utf16_of (mal_utf16_compose_pair a b) = [a; b].
Proof.
  intros Hp. destruct (compose_pair_eq a b Hp) as [E Hr]. unfold utf16_of.
  destruct (Z.ltb_spec (mal_utf16_compose_pair a b) 0x10000); [lia|]. rewrite E.
  unfold_tests. f_equal; [|f_equal]; Z.to_euclidean_division_equations; lia.
Qed.

(** Replacement changes exactly the units that are not well formed. *)
Lemma replaced_units units :
  Forall (in_u 16) units ->
  (flat_map utf16_of (utf16_scalars units) = units <-> utf16_well_formed units = true).
Proof.
  assert (forall n units, (length units < n)%nat -> Forall (in_u 16) units ->
    (flat_map utf16_of (utf16_scalars units) = units <-> utf16_well_formed units = true)) as H.
  { induction n as [|n IH]; intros us Hl Hf; [lia|].
    assert (forall u l l', in_u 16 u -> (utf16_of (lone u) ++ l = u :: l' <->
              mal_utf16_is_surrogate u = false /\ l = l')) as Hlone.
    { intros u l l' Hu. unfold lone, in_u in *. destruct (mal_utf16_is_surrogate u) eqn:E.
      - split; [|by intros [? _]]. intros [= <- _]. by vm_compute in E.
      - unfold utf16_of. destruct (Z.ltb_spec u 0x10000); [|lia]. cbn [app].
        split; [intros [= ->]; done|by intros [_ ->]]. }
    destruct us as [|a [|b rest]]; [done| |].
    - apply Forall_cons in Hf as [Ha _]. cbn [utf16_scalars flat_map utf16_well_formed].
      rewrite Hlone by done. rewrite negb_true_iff. by split; [intros [? _]|].
    - apply Forall_cons in Hf as [Ha Hf]. simpl in Hl. rewrite utf16_scalars_cons2.
      change (utf16_well_formed (a :: b :: rest)) with
        (if mal_utf16_is_pair a b then utf16_well_formed rest
         else negb (mal_utf16_is_surrogate a) && utf16_well_formed (b :: rest)).
      destruct (mal_utf16_is_pair a b) eqn:E; cbn [flat_map].
      + rewrite (pair_units a b E). cbn [app]. apply Forall_cons in Hf as [_ Hf].
        rewrite <- (IH rest ltac:(lia) Hf). split; [by intros [= ?]|by intros ->].
      + rewrite Hlone by done. rewrite (IH (b :: rest) ltac:(simpl; lia) Hf), andb_true_iff, negb_true_iff. done. }
  intros Hf. by apply (H (S (length units))); [lia|].
Qed.

(** * The conversions *)

(** The encoder's output for a buffer of three bytes per unit. *)
Lemma utf8_encode_ok units :
  Forall (in_u 16) units -> arr_len units < 2 ^ 60 ->
  mal_utf8_encode units = Ret (Some (flat_map utf8_of (utf16_scalars units))).
Proof.
  intros Hf Hl. pose proof (arr_len_nonneg units) as H0. unfold mal_utf8_encode.
  destruct (Z.ltb_spec ((SIZE_MAX - 1) / 3) (arr_len units)) as [Hbig|_].
  { exfalso. assert (2 ^ 60 <= (SIZE_MAX - 1) / 3) by (by vm_compute). lia. }
  unfold u64. rewrite wrap_small by (unfold in_u; lia). unfold mal_utf8_encode_into.
  destruct (encode_into_loop_ok units (arr_len units * 3 + 1) (S (length units)) 0 [] Hf)
    as (read & ss & -> & Hr & Hb & Hsp & Hfit); try (change (arr_len (@nil Z)) with 0); unfold arr_len in *; try lia.
  cbn [mbind outcome_bind app]. do 2 f_equal. change (drop (Z.to_nat 0) units) with units in Hsp.
  cbn [app] in Hfit. destruct (utf16_scalars (drop (Z.to_nat read) units)) as [|s rest] eqn:E.
  { by rewrite Hsp, app_nil_r. }
  exfalso. pose proof (utf8_size units Hf) as Hsize. rewrite Hsp, flat_map_app in Hsize.
  cbn [flat_map fits_or_done] in *. unfold arr_len in *. rewrite !length_app in Hsize.
  assert (is_scalar s) as Hs.
  { pose proof (scalars_scalar (drop (Z.to_nat read) units)) as H. rewrite E in H.
    specialize (H ltac:(by apply Forall_drop)). by apply Forall_cons in H as [? _]. }
  destruct (write_scalar_eq s Hs) as [_ Hw]. unfold arr_len in Hw. lia.
Qed.

(** C30. UTF-16 encoded to UTF-8 and decoded back is the text with each lone
    surrogate replaced by U+FFFD, without a reported error; well-formed text is
    unchanged. *)
Theorem utf8_roundtrip units :
  Forall (in_u 16) units -> arr_len units < 2 ^ 60 ->
  exists bytes,
    mal_utf8_encode units = Ret (Some bytes) /\
    mal_utf8_decode_report bytes = Ret (Some (flat_map utf16_of (utf16_scalars units), false)) /\
    (utf16_well_formed units = true -> flat_map utf16_of (utf16_scalars units) = units).
Proof.
  intros Hf Hl. exists (flat_map utf8_of (utf16_scalars units)).
  split; [by apply utf8_encode_ok|]. split; [|by apply replaced_units].
  pose proof (utf8_size units Hf) as Hsize. unfold mal_utf8_decode_report.
  destruct (Z.ltb_spec (SIZE_MAX / 2 - 1) (arr_len (flat_map utf8_of (utf16_scalars units)))) as [Hbig|_].
  { exfalso. assert (3 * 2 ^ 60 <= SIZE_MAX / 2 - 1) by (by vm_compute). lia. }
  rewrite (decode_loop_encoded _ _ (utf16_scalars units)); try done; [by apply scalars_scalar|].
  pose proof (utf8_len_scalars (utf16_scalars units)). unfold arr_len in *. lia.
Qed.

Lemma utf8_roundtrip_witness :
  exists bytes, mal_utf8_encode [97; 0x20ac; 0xd83d; 0xde00; 0xdc00] = Ret (Some bytes) /\
    mal_utf8_decode_report bytes = Ret (Some ([97; 0x20ac; 0xd83d; 0xde00; 0xfffd], false)).
Proof.
  destruct (utf8_roundtrip [97; 0x20ac; 0xd83d; 0xde00; 0xdc00]) as (bytes & H1 & H2 & _);
    [repeat constructor; by vm_compute|by vm_compute|]. by exists bytes.
Defined.

(** The length loop counts the bytes of the suffix. *)
Lemma encoded_length_loop_ok units fuel : forall i n,
  Forall (in_u 16) units -> 0 <= i <= arr_len units -> (Z.to_nat (arr_len units - i) < fuel)%nat ->
  encoded_length_loop fuel units (arr_len units) i n
  = Ret (n + arr_len (flat_map utf8_of (utf16_scalars (drop (Z.to_nat i) units)))).
Proof.
  induction fuel as [|fuel IH]; intros i n Hf Hi Hl; [lia|]. cbn [encoded_length_loop].
  destruct (Z.ltb_spec i (arr_len units)) as [Hlt|Hge].
  2: { rewrite drop_end by lia. cbn. by rewrite Z.add_0_r. }
  destruct (scalar_at_suffix units i ltac:(lia)) as (s & w & -> & Hw & Hiw & Hs).
  rewrite Hs. cbn [flat_map]. rewrite arr_len_app.
  assert (is_scalar s) as Hsc.
  { pose proof (scalars_scalar (drop (Z.to_nat i) units)) as H. rewrite Hs in H.
    specialize (H ltac:(by apply Forall_drop)). by apply Forall_cons in H as [? _]. }
  destruct (write_scalar_eq s Hsc) as [_ ->].
  replace (i + (w - 1) + 1) with (i + w) by lia. rewrite IH by (done || lia). f_equal. lia.
Qed.

(** [mal_utf8_encoded_length] is the number of bytes [mal_utf8_encode]
    writes, and never more than three per unit. *)
Theorem utf8_encoded_length_exact units :
  Forall (in_u 16) units -> arr_len units < 2 ^ 60 ->
  exists bytes, mal_utf8_encode units = Ret (Some bytes) /\
    mal_utf8_encoded_length units = Ret (arr_len bytes) /\ arr_len bytes <= 3 * arr_len units.
Proof.
  intros Hf Hl. exists (flat_map utf8_of (utf16_scalars units)).
  split; [by apply utf8_encode_ok|]. split; [|by apply utf8_size].
  unfold mal_utf8_encoded_length. rewrite encoded_length_loop_ok; [done|done| |]; unfold arr_len; lia.
Qed.

Lemma utf8_encoded_length_exact_witness :
  exists bytes, mal_utf8_encode [233; 0xd83d; 0xde00] = Ret (Some bytes) /\
    mal_utf8_encoded_length [233; 0xd83d; 0xde00] = Ret (arr_len bytes) /\ arr_len bytes <= 9.
Proof.
  apply (utf8_encoded_length_exact [233; 0xd83d; 0xde00]); [repeat constructor; by vm_compute|by vm_compute].
Defined.

(** C39. [mal_utf8_encode_into] never passes its capacity, writes whole scalars
    only, reports the units behind them, and stops early only before a scalar
    that does not fit. *)
Theorem utf8_encode_into_bounded units capacity :
  Forall (in_u 16) units -> 0 <= capacity ->
  exists read out ss,
    mal_utf8_encode_into units capacity = Ret (read, out) /\
    0 <= read <= arr_len units /\ arr_len out <= capacity /\ out = flat_map utf8_of ss /\
    utf16_scalars units = ss ++ utf16_scalars (drop (Z.to_nat read) units) /\
    fits_or_done capacity out (utf16_scalars (drop (Z.to_nat read) units)).
Proof.
  intros Hf Hc. pose proof (arr_len_nonneg units).
  destruct (encode_into_loop_ok units capacity (S (length units)) 0 [] Hf)
    as (read & ss & He & Hr & Hb & Hsp & Hfit); try (change (arr_len (@nil Z)) with 0); try (unfold arr_len in *; lia).
  exists read, (flat_map utf8_of ss), ss. by split_and!; try done; try lia.
Qed.

Lemma utf8_encode_into_bounded_witness :
  exists read out ss,
    mal_utf8_encode_into [97; 0xd83d; 0xde00; 98] 4 = Ret (read, out) /\
    0 <= read <= 4 /\ arr_len out <= 4 /\ out = flat_map utf8_of ss /\
    utf16_scalars [97; 0xd83d; 0xde00; 98] = ss ++ utf16_scalars (drop (Z.to_nat read) [97; 0xd83d; 0xde00; 98]) /\
    fits_or_done 4 out (utf16_scalars (drop (Z.to_nat read) [97; 0xd83d; 0xde00; 98])).
Proof.
  apply (utf8_encode_into_bounded [97; 0xd83d; 0xde00; 98] 4); [repeat constructor; by vm_compute|lia].
Defined.

(** C34. The decoder is total on any bytes: it returns, its output is well-formed
    UTF-16 no longer than the input, it reports an error exactly when the
    validator rejects, and accepted bytes are those the encoder writes for the
    decoded text. *)
Theorem utf8_decode_total bytes :
  Forall (in_u 8) bytes -> arr_len bytes < 2 ^ 60 ->
  exists units err,
    mal_utf8_decode_report bytes = Ret (Some (units, err)) /\
    mal_utf8_is_valid bytes = Ret (negb err) /\
    arr_len units <= arr_len bytes /\ utf16_well_formed units = true /\
    (err = false -> mal_utf8_encode units = Ret (Some bytes)).
Proof.
  intros Hf Hl. pose proof (arr_len_nonneg bytes). unfold mal_utf8_decode_report, mal_utf8_is_valid.
  destruct (Z.ltb_spec (SIZE_MAX / 2 - 1) (arr_len bytes)) as [Hbig|_].
  { exfalso. assert (2 ^ 60 <= SIZE_MAX / 2 - 1) by (by vm_compute). lia. }
  destruct (decode_loop_ok bytes (S (length bytes)) 0 [] false Hf) as (ss & err & -> & -> & Hs & Hlen & _ & Hd);
    try (unfold arr_len in *; lia).
  rewrite Z.sub_0_r in Hlen. cbn [mbind outcome_bind app]. exists (flat_map utf16_of ss), err.
  assert (Forall (in_u 16) (flat_map utf16_of ss)) as Hu.
  { clear - Hs. induction Hs as [|s ss Hs _ IH]; [constructor|]. cbn [flat_map]. apply Forall_app. split; [|done].
    unfold utf16_of, is_scalar, in_u in *. destruct (Z.ltb_spec s 0x10000); repeat constructor;
      Z.to_euclidean_division_equations; lia. }
  split; [done|]. split; [done|]. split; [done|]. split.
  { apply replaced_units; [done|]. by rewrite scalars_of_utf16. }
  intros He. rewrite utf8_encode_ok; [|done|lia]. rewrite scalars_of_utf16 by done. by rewrite <- Hd.
Qed.

Lemma utf8_decode_total_witness :
  exists units err,
    mal_utf8_decode_report [0xe2; 0x82; 0x41; 0xf0; 0x9f; 0x98; 0x80] = Ret (Some (units, err)) /\
    mal_utf8_is_valid [0xe2; 0x82; 0x41; 0xf0; 0x9f; 0x98; 0x80] = Ret (negb err) /\
    arr_len units <= 7 /\ utf16_well_formed units = true /\
    (err = false -> mal_utf8_encode units = Ret (Some [0xe2; 0x82; 0x41; 0xf0; 0x9f; 0x98; 0x80])).
Proof.
  apply (utf8_decode_total [0xe2; 0x82; 0x41; 0xf0; 0x9f; 0x98; 0x80]);
    [repeat constructor; by vm_compute|by vm_compute].
Defined.

(** * UTF-16 bytes *)

(** The units of the whole byte pairs. *)
Fixpoint byte_units (bytes : list Z) (big_endian : bool) : list Z :=
  match bytes with
  | a :: b :: rest => (if big_endian then a * 256 + b else b * 256 + a) :: byte_units rest big_endian
  | _ => []
  end.

Lemma unit_at_suffix bytes big i a b rest :
  Forall (in_u 8) bytes -> 0 <= i -> drop (Z.to_nat i) bytes = a :: b :: rest ->
  unit_at bytes big i = (if big then a * 256 + b else b * 256 + a) /\
  i + 1 < arr_len bytes /\ drop (Z.to_nat (i + 2)) bytes = rest.
Proof.
  intros Hf Hi Hd. destruct (drop_cons bytes i a _ Hi Hd) as (Ea & _ & Hd1).
  destruct (drop_cons bytes (i + 1) b _ ltac:(lia) Hd1) as (Eb & Hl & Hd2).
  assert (in_u 8 a /\ in_u 8 b) as [Ha Hb].
  { pose proof (Forall_drop _ (Z.to_nat i) _ Hf) as H. rewrite Hd in H.
    by apply Forall_cons in H as [? [? _]%Forall_cons]. }
  split; [|split; [done|by replace (i + 2) with (i + 1 + 1) by lia]].
  unfold unit_at, u8, in_u in *. rewrite Ea, Eb, !(wrap_small 8) by (unfold in_u; lia).
  unfold u16. destruct big; rewrite lor_shiftl_add' by lia; rewrite wrap_small; unfold in_u; lia.
Qed.

Lemma utf16_loop_ok bytes big fuel : forall i out err,
  Forall (in_u 8) bytes -> 0 <= i <= arr_len bytes -> (Z.to_nat (arr_len bytes - i) < fuel)%nat ->
  let units := byte_units (drop (Z.to_nat i) bytes) big in
  exists j,
    utf16_loop fuel bytes (arr_len bytes) big i out err
    = Ret (j, out ++ flat_map utf16_of (utf16_scalars units), err || negb (utf16_well_formed units)) /\
    j = arr_len bytes - (arr_len bytes - i) mod 2.
Proof.
  induction fuel as [|fuel IH]; intros i out err Hf Hi Hl units; [lia|]. cbn [utf16_loop].
  destruct (Z.ltb_spec (i + 1) (arr_len bytes)) as [Hlt|Hge].
  2: { exists i. assert (units = []) as ->.
       { subst units. destruct (Z.eq_dec i (arr_len bytes)) as [->|]; [by rewrite drop_end by lia|].
         rewrite drop_get_cons by lia. by rewrite drop_end by lia. }
       cbn. rewrite app_nil_r, orb_false_r. split; [done|].
       assert (arr_len bytes - i = 0 \/ arr_len bytes - i = 1) as [E|E] by lia;
         rewrite E; [change (0 mod 2) with 0|change (1 mod 2) with 1]; lia. }
  pose proof (drop_get_cons bytes i ltac:(lia)) as D0. pose proof (drop_get_cons bytes (i + 1) ltac:(lia)) as D1.
  rewrite D1 in D0. destruct (unit_at_suffix bytes big i _ _ _ Hf ltac:(lia) D0) as (Eu & _ & Hd).
  rewrite <- Hd in D0. set (u := unit_at bytes big i) in *.
  assert (units = u :: byte_units (drop (Z.to_nat (i + 2)) bytes) big) as Hun.
  { subst units. rewrite D0. cbn [byte_units]. by rewrite <- Eu. }
  assert (in_u 16 u) as Hu by (subst u; unfold unit_at; destruct big; apply wrap_range; lia).
  assert (forall (x : Z) e, (forall v rest, byte_units (drop (Z.to_nat (i + 2)) bytes) big = v :: rest ->
              mal_utf16_is_pair u v = false) -> x = lone u -> e = mal_utf16_is_surrogate u ->
    exists j, utf16_loop fuel bytes (arr_len bytes) big (i + 2) (out ++ [x]) (err || e)
      = Ret (j, out ++ flat_map utf16_of (utf16_scalars units), err || negb (utf16_well_formed units)) /\
      j = arr_len bytes - (arr_len bytes - i) mod 2) as Hone.
  { intros x e Hnp -> ->.
    destruct (IH (i + 2) (out ++ [lone u]) (err || mal_utf16_is_surrogate u) Hf ltac:(lia) ltac:(lia)) as (j & -> & ->).
    set (us := byte_units (drop (Z.to_nat (i + 2)) bytes) big) in *.
    assert (utf16_scalars units = lone u :: utf16_scalars us /\
            utf16_well_formed units = negb (mal_utf16_is_surrogate u) && utf16_well_formed us) as [-> ->].
    { rewrite Hun. destruct us as [|v rest] eqn:E; [by cbn; rewrite andb_true_r|].
      rewrite utf16_scalars_cons2. rewrite (Hnp v rest eq_refl). split; [done|].
      cbn [utf16_well_formed]. by rewrite (Hnp v rest eq_refl). }
    eexists. split.
    - cbn [flat_map]. rewrite <- app_assoc. do 2 f_equal; [|by destruct err, (mal_utf16_is_surrogate u), (utf16_well_formed us)].
      f_equal. f_equal. cbn [app]. f_equal. unfold utf16_of. destruct (Z.ltb_spec (lone u) 0x10000); [done|].
      exfalso. unfold lone, in_u in *. destruct (mal_utf16_is_surrogate u); lia.
    - replace (arr_len bytes - i) with (arr_len bytes - (i + 2) + 1 * 2) by lia. by rewrite Z.mod_add by lia. }
  destruct (mal_utf16_is_lead_surrogate u) eqn:Elead.
  - assert (mal_utf16_is_surrogate u = true) as Es by (unfold_tests; lia).
    destruct ((i + 2 + 1 <? arr_len bytes) && mal_utf16_is_trail_surrogate (unit_at bytes big (i + 2))) eqn:Et.
    + apply andb_true_iff in Et as [Hlt2%Z.ltb_lt Htr].
      pose proof (drop_get_cons bytes (i + 2) ltac:(lia)) as D2. pose proof (drop_get_cons bytes (i + 2 + 1) ltac:(lia)) as D3.
      rewrite D3 in D2. destruct (unit_at_suffix bytes big (i + 2) _ _ _ Hf ltac:(lia) D2) as (Ev & _ & Hd2).
      rewrite <- Hd2 in D2. set (v := unit_at bytes big (i + 2)) in *.
      destruct (IH (i + 2 + 2) (out ++ [u; v]) err Hf ltac:(lia) ltac:(lia)) as (j & -> & ->).
      assert (mal_utf16_is_pair u v = true) as Hp by (unfold mal_utf16_is_pair; by rewrite Elead, Htr).
      rewrite D2 in Hun. cbn [byte_units] in Hun. rewrite <- Ev in Hun. rewrite Hun, utf16_scalars_cons2.
      cbn [utf16_well_formed]. rewrite Hp. cbn [flat_map]. rewrite (pair_units u v Hp), <- app_assoc.
      eexists. split; [done|]. replace (arr_len bytes - i) with (arr_len bytes - (i + 2 + 2) + 2 * 2) by lia.
      by rewrite Z.mod_add by lia.
    + replace true with (err || true) by (by destruct err).
      apply Hone; [|by unfold lone; rewrite Es|done].
      intros v rest Hv. unfold mal_utf16_is_pair. rewrite Elead. cbn [andb].
      destruct (Z.ltb_spec (i + 2 + 1) (arr_len bytes)) as [Hlt2|Hge2].
      * pose proof (drop_get_cons bytes (i + 2) ltac:(lia)) as D2. pose proof (drop_get_cons bytes (i + 2 + 1) ltac:(lia)) as D3.
        rewrite D3 in D2. destruct (unit_at_suffix bytes big (i + 2) _ _ _ Hf ltac:(lia) D2) as (Ev & _ & _).
        rewrite D2 in Hv. cbn [byte_units] in Hv. rewrite <- Ev in Hv. by injection Hv as <- _.
      * exfalso. destruct (Z.eq_dec (i + 2) (arr_len bytes)) as [E|].
        -- by rewrite drop_end in Hv by lia.
        -- rewrite drop_get_cons in Hv by lia. by rewrite drop_end in Hv by lia.
  - assert (forall v, mal_utf16_is_pair u v = false) as Hnp by (intros; unfold mal_utf16_is_pair; by rewrite Elead).
    destruct (mal_utf16_is_trail_surrogate u) eqn:Etr.
    + assert (mal_utf16_is_surrogate u = true) as Es by (unfold_tests; lia).
      replace true with (err || true) by (by destruct err). apply Hone; [done|by unfold lone; rewrite Es|done].
    + assert (mal_utf16_is_surrogate u = false) as Es by (unfold_tests; lia).
      assert (u = lone u) as Hx by (by unfold lone; rewrite Es).
      pose proof (Hone u false (fun v _ _ => Hnp v) Hx (eq_sym Es)) as Hj. by rewrite (orb_false_r err) in Hj.
Qed.

(** The UTF-16 byte decoder returns the units of the byte pairs with every
    lone surrogate replaced, a U+FFFD for an odd byte at the end, and reports an
    error exactly when it replaced something. *)
Theorem utf16_decode_spec bytes big :
  Forall (in_u 8) bytes -> arr_len bytes < 2 ^ 60 ->
  let units := byte_units bytes big in
  let odd := negb (arr_len bytes mod 2 =? 0) in
  mal_utf16_decode_report bytes big
  = Ret (Some (flat_map utf16_of (utf16_scalars units) ++ (if odd then [0xFFFD] else []),
               odd || negb (utf16_well_formed units))).
Proof.
  intros Hf Hl units odd. pose proof (arr_len_nonneg bytes) as H0. unfold mal_utf16_decode_report.
  destruct (Z.ltb_spec (SIZE_MAX / 2) (arr_len bytes / 2 + arr_len bytes mod 2)) as [Hbig|_].
  { exfalso. assert (2 ^ 61 <= SIZE_MAX / 2) by (by vm_compute).
    pose proof (Z.mod_pos_bound (arr_len bytes) 2). pose proof (Z.div_lt_upper_bound (arr_len bytes) 2 (2 ^ 60)). lia. }
  destruct (utf16_loop_ok bytes big (S (length bytes)) 0 [] false Hf) as (j & -> & ->);
    try (unfold arr_len in *; lia).
  cbn [mbind outcome_bind]. rewrite Z.sub_0_r. change (drop (Z.to_nat 0) bytes) with bytes. fold units.
  pose proof (Z.mod_pos_bound (arr_len bytes) 2 ltac:(lia)).
  subst odd. destruct (Z.eqb_spec (arr_len bytes mod 2) 0) as [E|E];
    destruct (Z.ltb_spec (arr_len bytes - arr_len bytes mod 2) (arr_len bytes)); try lia; cbn [negb orb app].
  - by rewrite app_nil_r.
  - done.
Qed.

Lemma utf16_decode_spec_witness :
  mal_utf16_decode_report [0x3d; 0xd8; 0; 0xde; 0; 0xdc; 1] false
  = Ret (Some ([0xd83d; 0xde00; 0xfffd; 0xfffd], true)).
Proof.
  apply (utf16_decode_spec [0x3d; 0xd8; 0; 0xde; 0; 0xdc; 1] false);
    [repeat constructor; by vm_compute|by vm_compute].
Defined.

(** * Latin-1 *)

Lemma or_units_acc units : forall a, fold_left Z.lor units a = Z.lor a (fold_left Z.lor units 0).
Proof.
  induction units as [|u units IH]; intros a; cbn [fold_left]; [by rewrite Z.lor_0_r|].
  rewrite IH, (IH (Z.lor 0 u)), Z.lor_0_l. by rewrite Z.lor_assoc.
Qed.

Lemma lor_le_mask a b n : 0 <= n -> 0 <= a -> 0 <= b -> (Z.lor a b < 2 ^ n <-> a < 2 ^ n /\ b < 2 ^ n).
Proof.
  intros Hn Ha Hb. split.
  - intros Hl. assert (forall x, 0 <= x -> (forall i, n <= i -> Z.testbit x i = false) -> x < 2 ^ n) as Hsmall.
    { intros x Hx Hbits. assert (x = x mod 2 ^ n) as E; [|rewrite E; apply Z.mod_pos_bound; lia].
      apply Z.bits_inj'. intros i Hi. destruct (Z.lt_ge_cases i n).
      - by rewrite Z.mod_pow2_bits_low by lia.
      - rewrite Z.mod_pow2_bits_high by lia. by apply Hbits. }
    assert (forall i, n <= i -> Z.testbit (Z.lor a b) i = false) as Hbits.
    { intros i Hi. rewrite <- (Z.mod_small (Z.lor a b) (2 ^ n)) by (split; [by apply Z.lor_nonneg|done]).
      by rewrite Z.mod_pow2_bits_high by lia. }
    split; apply Hsmall; try done; intros i Hi; specialize (Hbits i Hi); rewrite Z.lor_spec in Hbits;
      by apply orb_false_iff in Hbits as [? ?].
  - intros [? ?]. by apply (lor_range a b n).
Qed.

Lemma or_units_small units :
  Forall (in_u 16) units -> 0 <= or_units units /\ (or_units units <= 0xff <-> Forall (fun u => u <= 0xff) units).
Proof.
  unfold or_units. induction 1 as [|u units Hu _ [IH0 IH]]; [split; [done|split; [constructor|done]]|].
  unfold in_u in Hu. cbn [fold_left]. rewrite or_units_acc, Z.lor_0_l. split; [apply Z.lor_nonneg; lia|].
  rewrite Forall_cons, <- IH.
  assert (forall x, x <= 0xff <-> x < 2 ^ 8) as Hx by (intros; lia).
  rewrite !Hx. apply lor_le_mask; lia.
Qed.

Lemma latin1_blocks_ok fuel : forall units,
  Forall (in_u 16) units ->
  match latin1_blocks fuel units with
  | None => ~ Forall (fun u => u <= 0xff) units
  | Some rest => Forall (in_u 16) rest /\ (Forall (fun u => u <= 0xff) rest <-> Forall (fun u => u <= 0xff) units)
  end.
Proof.
  induction fuel as [|fuel IH]; intros units Hf; cbn [latin1_blocks]; [done|].
  destruct (32 <=? arr_len units); [|done].
  destruct (or_units_small (take 32 units)) as [_ Hs]; [by apply Forall_take|].
  destruct (Z.ltb_spec 0xff (or_units (take 32 units))) as [Hb|Hb].
  - intros Hall. apply (Forall_take _ 32) in Hall. apply Hs in Hall. lia.
  - specialize (IH (drop 32 units) ltac:(by apply Forall_drop)).
    assert (Forall (fun u => u <= 0xff) (drop 32 units) <-> Forall (fun u => u <= 0xff) units) as Hd.
    { rewrite <- (take_drop 32 units) at 2. rewrite Forall_app. split; [|by intros [_ ?]].
      intros. split; [by apply Hs|done]. }
    destruct (latin1_blocks fuel (drop 32 units)); [by rewrite <- Hd|by rewrite <- Hd].
Qed.

(** The blocked or-reduction decides whether every unit is a Latin-1 unit. *)
Theorem fit_latin1_exact units :
  Forall (in_u 16) units ->
  mal_utf16_units_fit_latin1 units = forallb (fun u => u <=? 0xff) units.
Proof.
  intros Hf. apply eq_true_iff_eq. rewrite forallb_forall. unfold mal_utf16_units_fit_latin1.
  pose proof (latin1_blocks_ok (length units) units Hf) as Hb.
  assert ((forall x, In x units -> (x <=? 0xff) = true) <-> Forall (fun u => u <= 0xff) units) as ->.
  { rewrite Forall_forall. setoid_rewrite Z.leb_le. by setoid_rewrite list_elem_of_In. }
  destruct (latin1_blocks (length units) units) as [rest|]; [|done].
  destruct Hb as [Hr <-]. rewrite Z.leb_le. by apply or_units_small.
Qed.

Lemma fit_latin1_exact_witness :
  mal_utf16_units_fit_latin1 (replicate 40 65 ++ [256]) = forallb (fun u => u <=? 0xff) (replicate 40 65 ++ [256]).
Proof. apply (fit_latin1_exact (replicate 40 65 ++ [256])). repeat constructor; by vm_compute. Defined.
