(* ===== verification/BigInt.v ===== *)
(** BigInts of bigint128.h, bigint128.c and heap_bigint.c: 128-bit
    two's-complement arithmetic done on unsigned words, StringToBigInt and the
    radix printers. *)

From S2P Require Import Prelude F64.

Definition MAL_BIGINT128_WIDTH : Z := 128.

Definition mal_bigint128_bits (value : Z) : Z := u128 value.
(** memcpy of the 16 bytes into a signed variable. *)
Definition mal_bigint128_from_bits (bits : Z) : Z := i128 bits.

Definition mal_bigint128_add (left right : Z) : Z :=
  mal_bigint128_from_bits (u128 (u128 left + u128 right)).
Definition mal_bigint128_subtract (left right : Z) : Z :=
  mal_bigint128_from_bits (u128 (u128 left - u128 right)).
Definition mal_bigint128_multiply (left right : Z) : Z :=
  mal_bigint128_from_bits (u128 (u128 left * u128 right)).
Definition mal_bigint128_negate (value : Z) : Z :=
  mal_bigint128_from_bits (u128 (0 - u128 value)).
Definition mal_bigint128_bit_and (left right : Z) : Z :=
  mal_bigint128_from_bits (Z.land (u128 left) (u128 right)).
Definition mal_bigint128_bit_or (left right : Z) : Z :=
  mal_bigint128_from_bits (Z.lor (u128 left) (u128 right)).
Definition mal_bigint128_bit_xor (left right : Z) : Z :=
  mal_bigint128_from_bits (Z.lxor (u128 left) (u128 right)).
Definition mal_bigint128_bit_not (value : Z) : Z :=
  mal_bigint128_from_bits (u128 (Z.lnot (u128 value))).

(** * Shifts *)

Definition mal_bigint128_count_magnitude (count : Z) : Z :=
  let bits := u128 count in
  if count <? 0 then u128 (0 - bits) else bits.

Definition mal_bigint128_shift_left_positive (value count : Z) : Z :=
  if MAL_BIGINT128_WIDTH <=? count then 0
  else mal_bigint128_from_bits (u128 (Z.shiftl (u128 value) (u32 count))).

Definition mal_bigint128_shift_right_positive (value count : Z) : Z :=
  if MAL_BIGINT128_WIDTH <=? count then
    if value <? 0 then mal_bigint128_from_bits (u128 (Z.lnot 0)) else 0
  else if count =? 0 then value
  else
    let shift := u32 count in
    let shifted := Z.shiftr (u128 value) shift in
    mal_bigint128_from_bits
      (if value <? 0
       then Z.lor shifted (u128 (Z.shiftl (u128 (Z.lnot 0)) (MAL_BIGINT128_WIDTH - shift)))
       else shifted).

Definition mal_bigint128_shift_left (value count : Z) : Z :=
  let magnitude := mal_bigint128_count_magnitude count in
  if count <? 0 then mal_bigint128_shift_right_positive value magnitude
  else mal_bigint128_shift_left_positive value magnitude.
Definition mal_bigint128_shift_right (value count : Z) : Z :=
  let magnitude := mal_bigint128_count_magnitude count in
  if count <? 0 then mal_bigint128_shift_left_positive value magnitude
  else mal_bigint128_shift_right_positive value magnitude.

(** * Division *)

Definition mal_bigint128_is_min (value : Z) : bool := u128 value =? Z.shiftl 1 127.

(** C's [/] and [%] truncate toward zero; [None] is the [false] return. *)
Definition mal_bigint128_divide (dividend divisor : Z) : option Z :=
  if divisor =? 0 then None
  else if mal_bigint128_is_min dividend && (divisor =? -1) then Some dividend
  else Some (Z.quot dividend divisor).
Definition mal_bigint128_remainder (dividend divisor : Z) : option Z :=
  if divisor =? 0 then None
  else if mal_bigint128_is_min dividend && (divisor =? -1) then Some 0
  else Some (Z.rem dividend divisor).

(** * Exponentiation *)

(** [while (remaining != 0)]: 128 halvings empty a 128-bit word. *)
Fixpoint exponent_loop (fuel : nat) (base remaining result : Z) : outcome Z :=
  match fuel with
  | O => NoFuel
  | S fuel =>
      if remaining =? 0 then Ret result
      else
        let result :=
          if negb (Z.land remaining 1 =? 0) then mal_bigint128_multiply result base else result in
        exponent_loop fuel (mal_bigint128_multiply base base) (Z.shiftr remaining 1) result
  end.
Definition mal_bigint128_exponentiate (base exponent : Z) : outcome Z :=
  exponent_loop 129 base (u128 exponent) 1.

(** * Conversions *)

(** [trunc]: the fraction bits below the binary point are dropped. *)
Definition f64_trunc (b : Z) : Z :=
  let e := f64_exponent b in
  if 1075 <=? e then b
  else if e <? 1023 then (if f64_sign b then 2 ^ 63 else 0)
  else b - b mod 2 ^ (1075 - e).
Definition f64_is_finite (b : Z) : bool := f64_magnitude b <? 2047 * 2 ^ 52.

(** After the integrality test the magnitude is at least 1, so [frexp] sees a
    normal double: [ldexp(fraction, 53)] is its 53-bit significand. *)
Definition mal_bigint128_from_number (number : Z) : option Z :=
  if negb (f64_is_finite number) || negb (f64_eqb (f64_trunc number) number) then None
  else if f64_eqb number 0 then Some 0
  else
    let negative := f64_ltb number 0 in
    let exponent := f64_exponent number - 1022 in
    let significand := 2 ^ 52 + f64_fraction number in
    let shift := exponent - 53 in
    let bits :=
      if MAL_BIGINT128_WIDTH <=? shift then 0
      else if 0 <=? shift then u128 (Z.shiftl significand shift)
      else Z.shiftr significand (- shift) in
    let bits := if negative then u128 (0 - bits) else bits in
    Some (mal_bigint128_from_bits bits).

Definition mal_bigint128_as_uint_n (value bits : Z) : Z :=
  if bits =? 0 then 0
  else if MAL_BIGINT128_WIDTH <=? bits then value
  else
    let mask := Z.shiftl 1 (u32 bits) - 1 in
    mal_bigint128_from_bits (Z.land (u128 value) mask).

Definition mal_bigint128_as_int_n (value bits : Z) : Z :=
  if bits =? 0 then 0
  else if MAL_BIGINT128_WIDTH <=? bits then value
  else
    let mask := Z.shiftl 1 (u32 bits) - 1 in
    let result := Z.land (u128 value) mask in
    let sign := Z.shiftl 1 (u32 bits - 1) in
    let result :=
      if negb (Z.land result sign =? 0) then Z.lor result (u128 (Z.lnot mask)) else result in
    mal_bigint128_from_bits result.

(** * StringToBigInt *)

(** WhiteSpace and LineTerminator of ecma_whitespace.h. *)
Definition mal_ecma_is_string_whitespace (unit : Z) : bool :=
  if (0x0020 <? unit) && (unit <? 0x00A0) then false
  else existsb (Z.eqb unit)
         [0x0009; 0x000A; 0x000B; 0x000C; 0x000D; 0x0020; 0x00A0; 0x1680; 0x2000; 0x2001; 0x2002;
          0x2003; 0x2004; 0x2005; 0x2006; 0x2007; 0x2008; 0x2009; 0x200A; 0x2028; 0x2029; 0x202F;
          0x205F; 0x3000; 0xFEFF].

Definition mal_bigint128_digit_value (unit : Z) : Z :=
  if (48 <=? unit) && (unit <=? 57) then unit - 48
  else if (97 <=? unit) && (unit <=? 122) then unit - 97 + 10
  else if (65 <=? unit) && (unit <=? 90) then unit - 65 + 10
  else -1.

(** The two trimming loops; the text is the units from [start] to [end]. *)
Fixpoint trim_start (text : list Z) : list Z :=
  match text with
  | u :: rest => if mal_ecma_is_string_whitespace u then trim_start rest else text
  | [] => []
  end.
Definition trim_end (text : list Z) : list Z := reverse (trim_start (reverse text)).

Definition radix_shift (radix : Z) : Z := if radix =? 16 then 4 else if radix =? 8 then 3 else 1.

Fixpoint radix_loop (radix : Z) (text : list Z) (accumulator : Z) : option Z :=
  match text with
  | [] => Some accumulator
  | u :: rest =>
      let digit := mal_bigint128_digit_value u in
      if (digit <? 0) || (radix <=? digit) then None
      else radix_loop radix rest (Z.lor (u128 (Z.shiftl accumulator (radix_shift radix))) digit)
  end.

(** One group of decimal digits: [chunk] and [multiplier] are 64-bit. *)
Fixpoint group_loop (text : list Z) (chunk multiplier : Z) : option (Z * Z) :=
  match text with
  | [] => Some (chunk, multiplier)
  | u :: rest =>
      if (u <? 48) || (57 <? u) then None
      else group_loop rest (u64 (chunk * 10 + (u - 48))) (u64 (multiplier * 10))
  end.

Definition decimal_chunk_base : Z := 10000000000000000000.

(** [while (start < end)]: the first group takes the odd digits, the others 19. *)
Fixpoint decimal_loop (fuel : nat) (text : list Z) (group_length accumulator : Z) : outcome (option Z) :=
  match fuel with
  | O => NoFuel
  | S fuel =>
      match text with
      | [] => Ret (Some accumulator)
      | _ =>
          match group_loop (take (Z.to_nat group_length) text) 0 1 with
          | None => Ret None
          | Some (chunk, multiplier) =>
              let base := if group_length =? 19 then decimal_chunk_base else multiplier in
              decimal_loop fuel (drop (Z.to_nat group_length) text) 19
                (u128 (u128 (accumulator * base) + chunk))
          end
      end
  end.

Definition parse_digits (radix : Z) (text : list Z) : outcome (option Z) :=
  if negb (radix =? 10) then Ret (radix_loop radix text 0)
  else
    let group_length := arr_len text mod 19 in
    let group_length := if group_length =? 0 then 19 else group_length in
    decimal_loop (S (length text)) text group_length 0.

(** The radix prefix: only without a sign, and only when a unit follows it or
    the two units end the text. *)
Definition radix_prefix (had_sign : bool) (text : list Z) : Z * list Z :=
  match text with
  | 48 :: prefix :: rest =>
      if had_sign then (10, text)
      else if (prefix =? 120) || (prefix =? 88) then (16, rest)
      else if (prefix =? 111) || (prefix =? 79) then (8, rest)
      else if (prefix =? 98) || (prefix =? 66) then (2, rest)
      else (10, text)
  | _ => (10, text)
  end.

(** [None] is [*ok = false]. *)
Definition mal_bigint128_parse (code_units : list Z) : outcome (option Z) :=
  match trim_end (trim_start code_units) with
  | [] => Ret (Some 0)
  | first :: rest =>
      let had_sign := (first =? 43) || (first =? 45) in
      let negative := first =? 45 in
      let text := if had_sign then rest else first :: rest in
      let '(radix, text) := radix_prefix had_sign text in
      match text with
      | [] => Ret None
      | _ =>
          r ← parse_digits radix text;
          match r with
          | None => Ret None
          | Some accumulator =>
              let accumulator := if negative then u128 (0 - accumulator) else accumulator in
              Ret (Some (mal_bigint128_from_bits accumulator))
          end
      end
  end.

(** * Printing (heap_bigint.c) *)

(** The [do .. while] of [mal_bigint_write_u64_decimal], least digit first. *)
Fixpoint reverse_digits (fuel : nat) (value : Z) : outcome (list Z) :=
  match fuel with
  | O => NoFuel
  | S fuel =>
      let digit := 48 + value mod 10 in
      let value := value / 10 in
      if negb (value =? 0) then
        rest ← reverse_digits fuel value;
        Ret (digit :: rest)
      else Ret [digit]
  end.

Definition mal_bigint_write_u64_decimal (value min_digits : Z) : outcome (list Z) :=
  digits ← reverse_digits 20 value;
  Ret (reverse (digits ++ replicate (Z.to_nat min_digits - length digits) 48)).

(** The chunks of 19 digits, least first. *)
Fixpoint chunk_loop (fuel : nat) (magnitude : Z) : outcome (list Z) :=
  match fuel with
  | O => NoFuel
  | S fuel =>
      let chunk := u64 (magnitude mod decimal_chunk_base) in
      let magnitude := magnitude / decimal_chunk_base in
      if negb (magnitude =? 0) then
        rest ← chunk_loop fuel magnitude;
        Ret (chunk :: rest)
      else Ret [chunk]
  end.

Fixpoint write_chunks (chunks : list Z) : outcome (list Z) :=
  match chunks with
  | [] => Ret []
  | chunk :: rest =>
      text ← mal_bigint_write_u64_decimal chunk 19;
      tail ← write_chunks rest;
      Ret (text ++ tail)
  end.

Definition magnitude_of (value : Z) : Z :=
  if value <? 0 then u128 (u128 (Z.lnot (u128 value)) + 1) else u128 value.

Definition mal_bigint_to_decimal_string (value : Z) : outcome (list Z) :=
  if value =? 0 then Ret [48]
  else
    chunks ← chunk_loop 3 (magnitude_of value);
    match reverse chunks with
    | [] => Abort
    | top :: rest =>
        head ← mal_bigint_write_u64_decimal top 1;
        tail ← write_chunks rest;
        Ret ((if value <? 0 then [45] else []) ++ head ++ tail)
    end.

Definition digit_unit (digit : Z) : Z := if digit <? 10 then 48 + digit else 97 + digit - 10.

(** The digit loop of a radix, least digit first: shifts for the powers of two. *)
Fixpoint radix_digits (fuel : nat) (radix shift magnitude : Z) : outcome (list Z) :=
  match fuel with
  | O => NoFuel
  | S fuel =>
      if negb (0 <? magnitude) then Ret []
      else
        let digit := if negb (shift =? 0) then Z.land magnitude (radix - 1) else magnitude mod radix in
        let magnitude := if negb (shift =? 0) then Z.shiftr magnitude shift else magnitude / radix in
        rest ← radix_digits fuel radix shift magnitude;
        Ret (digit_unit digit :: rest)
  end.

Definition mal_bigint_to_string (value radix : Z) : outcome (list Z) :=
  let radix := if (radix <? 2) || (36 <? radix) then 10 else radix in
  if radix =? 10 then mal_bigint_to_decimal_string value
  else if value =? 0 then Ret [48]
  else
    let shift :=
      if radix =? 2 then 1 else if radix =? 4 then 2 else if radix =? 8 then 3
      else if radix =? 16 then 4 else if radix =? 32 then 5 else 0 in
    digits ← radix_digits 129 radix shift (magnitude_of value);
    Ret (reverse (digits ++ (if value <? 0 then [45] else []))).
