(* ===== verification/BigIntSpec.v ===== *)
(** BigInt arithmetic is arithmetic modulo 2^128, and printing followed by
    StringToBigInt is the identity. *)

From S2P Require Import Prelude F64 BigInt.

(** * Words *)

Lemma i128_u128 a : i128 (u128 a) = i128 a.
Proof. by apply swrap_wrap. Qed.
Lemma u128_i128 a : u128 (i128 a) = u128 a.
Proof. by apply wrap_swrap. Qed.
Lemma i128_small a : in_i 128 a -> i128 a = a.
Proof. by apply swrap_small. Qed.
Lemma i128_range a : in_i 128 a -> in_i 128 (i128 a).
Proof. intros. by apply swrap_range. Qed.

(** Words are known by their 128 low bits. *)
Lemma i128_bits a b :
  (forall i, 0 <= i < 128 -> Z.testbit a i = Z.testbit b i) -> i128 a = i128 b.
Proof.
  intros H. rewrite <- (i128_u128 a), <- (i128_u128 b). f_equal.
  apply Z.bits_inj'. intros i Hi. unfold u128, wrap. destruct (Z.lt_ge_cases i 128).
  - rewrite !Z.mod_pow2_bits_low by lia. apply H. lia.
  - by rewrite !Z.mod_pow2_bits_high by lia.
Qed.

Lemma u128_bit a i : 0 <= i < 128 -> Z.testbit (u128 a) i = Z.testbit a i.
Proof. intros. unfold u128, wrap. by rewrite Z.mod_pow2_bits_low by lia. Qed.
Lemma u128_bit_high a i : 128 <= i -> Z.testbit (u128 a) i = false.
Proof. intros. unfold u128, wrap. by rewrite Z.mod_pow2_bits_high by lia. Qed.

(** Above bit 126 a signed word repeats its sign. *)
Lemma in_i_shiftr z : in_i 128 z <-> Z.shiftr z 127 = 0 \/ Z.shiftr z 127 = -1.
Proof.
  unfold in_i. change (128 - 1) with 127. rewrite Z.shiftr_div_pow2 by lia. split.
  - intros [H1 H2]. destruct (Z.lt_ge_cases z 0).
    + right. symmetry. apply (Z.div_unique_pos z (2 ^ 127) (-1) (z + 2 ^ 127)); lia.
    + left. by apply Z.div_small.
  - intros H. pose proof (Z.div_mod z (2 ^ 127)). pose proof (Z.mod_pos_bound z (2 ^ 127)). lia.
Qed.

Lemma in_i_sign_bit z i : in_i 128 z -> 127 <= i -> Z.testbit z i = (z <? 0).
Proof.
  intros Hz Hi. replace i with (i - 127 + 127) by lia. rewrite <- Z.shiftr_spec by lia.
  pose proof Hz as Hz'. unfold in_i in Hz'. change (128 - 1) with 127 in *.
  apply in_i_shiftr in Hz as [E|E]; rewrite E.
  - rewrite Z.bits_0. rewrite Z.shiftr_div_pow2 in E by lia. apply Z.div_small_iff in E; [|lia].
    destruct (Z.ltb_spec z 0); lia.
  - rewrite Z.bits_m1 by lia. destruct (Z.ltb_spec z 0) as [|Hp]; [done|].
    rewrite Z.shiftr_div_pow2, Z.div_small in E by lia. done.
Qed.

(** * Ring operations *)

Lemma i128_cong a b : a mod 2 ^ 128 = b mod 2 ^ 128 -> i128 a = i128 b.
Proof. intros E. rewrite <- (i128_u128 a), <- (i128_u128 b). unfold u128, wrap. by rewrite E. Qed.

Lemma add_ok a b : mal_bigint128_add a b = i128 (a + b).
Proof.
  unfold mal_bigint128_add, mal_bigint128_from_bits. rewrite i128_u128. apply i128_cong.
  unfold u128, wrap. by rewrite <- Z.add_mod by lia.
Qed.
Lemma subtract_ok a b : mal_bigint128_subtract a b = i128 (a - b).
Proof.
  unfold mal_bigint128_subtract, mal_bigint128_from_bits. rewrite i128_u128. apply i128_cong.
  unfold u128, wrap. by rewrite <- Zminus_mod.
Qed.
Lemma multiply_ok a b : mal_bigint128_multiply a b = i128 (a * b).
Proof.
  unfold mal_bigint128_multiply, mal_bigint128_from_bits. rewrite i128_u128. apply i128_cong.
  unfold u128, wrap. by rewrite <- Z.mul_mod by lia.
Qed.
Lemma negate_ok a : mal_bigint128_negate a = i128 (- a).
Proof.
  unfold mal_bigint128_negate, mal_bigint128_from_bits. rewrite i128_u128. apply i128_cong.
  unfold u128, wrap. by rewrite Zminus_mod_idemp_r.
Qed.

Lemma i128_mul_l a b : i128 (i128 a * b) = i128 (a * b).
Proof.
  apply i128_cong. rewrite <- Z.mul_mod_idemp_l by lia. change (i128 a mod 2 ^ 128) with (u128 (i128 a)).
  rewrite u128_i128. unfold u128, wrap. by rewrite Z.mul_mod_idemp_l by lia.
Qed.

Lemma pow_mod_cong a b n m : 0 <= n -> 0 < m -> a mod m = b mod m -> (a ^ n) mod m = (b ^ n) mod m.
Proof.
  intros Hn Hm E. rewrite <- (Z2Nat.id n) by done. induction (Z.to_nat n) as [|k IH]; [done|].
  rewrite Nat2Z.inj_succ, !Z.pow_succ_r by lia.
  rewrite Z.mul_mod, E, IH by lia. by rewrite <- Z.mul_mod by lia.
Qed.

Lemma exponent_loop_ok fuel : forall base remaining result,
  0 <= remaining < 2 ^ (Z.of_nat fuel - 1) -> in_i 128 result ->
  exponent_loop fuel base remaining result = Ret (i128 (result * base ^ remaining)).
Proof.
  induction fuel as [|fuel IH]; intros base remaining result Hr Hi.
  { exfalso. change (Z.of_nat 0 - 1) with (-1) in Hr. change (2 ^ (-1)) with 0 in Hr. lia. }
  cbn [exponent_loop]. destruct (Z.eqb_spec remaining 0) as [->|Hz].
  { by rewrite Z.pow_0_r, Z.mul_1_r, i128_small. }
  assert (0 < Z.of_nat fuel) as Hf.
  { destruct fuel; [|lia]. change (2 ^ (Z.of_nat 1 - 1)) with 1 in Hr. lia. }
  pose proof (Z.div_mod remaining 2 ltac:(lia)) as Hd. pose proof (Z.mod_pos_bound remaining 2 ltac:(lia)).
  assert (Z.shiftr remaining 1 = remaining / 2) as Es by (by rewrite Z.shiftr_div_pow2 by lia).
  assert (Z.land remaining 1 = remaining mod 2) as El by (exact (land_mask 1 remaining ltac:(lia))).
  rewrite Es, El. rewrite IH.
  - f_equal. rewrite !multiply_ok. apply i128_cong.
    assert (forall x y, (x * i128 y ^ (remaining / 2)) mod 2 ^ 128 = (x * y ^ (remaining / 2)) mod 2 ^ 128) as Hp.
    { intros x y. rewrite Z.mul_mod by lia.
      rewrite (pow_mod_cong (i128 y) y) by (try apply (wrap_swrap 128); try apply Z.div_pos; lia).
      by rewrite <- Z.mul_mod by lia. }
    assert (forall x y, (i128 x * y) mod 2 ^ 128 = (x * y) mod 2 ^ 128) as Hl.
    { intros x y. rewrite Z.mul_mod by lia. change (i128 x mod 2 ^ 128) with (u128 (i128 x)).
      rewrite u128_i128. unfold u128, wrap. by rewrite <- Z.mul_mod by lia. }
    rewrite Hp. rewrite <- Z.pow_2_r, <- Z.pow_mul_r by (try apply Z.div_pos; lia).
    destruct (Z.eqb_spec (remaining mod 2) 0) as [E|E]; cbn [negb].
    + by replace (2 * (remaining / 2)) with remaining by lia.
    + rewrite Hl, <- Z.mul_assoc, <- Z.pow_succ_r by (assert (0 <= remaining / 2) by (apply Z.div_pos; lia); lia).
      by replace (Z.succ (2 * (remaining / 2))) with remaining by lia.
  - replace (Z.of_nat (S fuel) - 1) with (Z.succ (Z.of_nat fuel - 1)) in Hr by lia.
    rewrite Z.pow_succ_r in Hr by lia. split; [apply Z.div_pos; lia|apply Z.div_lt_upper_bound; lia].
  - destruct (negb _); [|done]. rewrite multiply_ok. by apply swrap_range.
Qed.

Lemma is_min_spec a : in_i 128 a -> mal_bigint128_is_min a = (a =? - 2 ^ 127).
Proof.
  intros [H1 H2]. change (128 - 1) with 127 in *. unfold mal_bigint128_is_min, u128, wrap.
  change (Z.shiftl 1 127) with (2 ^ 127). destruct (Z.lt_ge_cases a 0) as [Hn|Hp].
  - assert (a mod 2 ^ 128 = a + 2 ^ 128) as ->
      by (symmetry; apply (Z.mod_unique_pos a (2 ^ 128) (-1)); lia).
    destruct (Z.eqb_spec (a + 2 ^ 128) (2 ^ 127)), (Z.eqb_spec a (- 2 ^ 127)); try done; lia.
  - rewrite Z.mod_small by lia.
    destruct (Z.eqb_spec a (2 ^ 127)), (Z.eqb_spec a (- 2 ^ 127)); try done; lia.
Qed.

Lemma quot_range a b : in_i 128 a -> b <> 0 -> ~ (a = - 2 ^ 127 /\ b = -1) -> in_i 128 (Z.quot a b).
Proof.
  intros [H1 H2] Hb Hn. unfold in_i. change (128 - 1) with 127 in *.
  assert (Z.abs (Z.quot a b) <= Z.abs a) as Ha.
  { rewrite <- Z.quot_abs by done. apply Z.quot_le_upper_bound; nia. }
  destruct (Z.eq_dec a (- 2 ^ 127)) as [->|]; [|lia].
  destruct (Z.eq_dec b 1) as [->|]; [rewrite Z.quot_1_r; lia|].
  assert (2 <= Z.abs b) as Hb2 by lia.
  assert (Z.abs (Z.quot (- 2 ^ 127) b) <= 2 ^ 126); [|lia].
  rewrite <- Z.quot_abs by done. apply Z.quot_le_upper_bound; [lia|].
  change (Z.abs (- 2 ^ 127)) with (2 * 2 ^ 126). nia.
Qed.

(** * Bitwise operations *)

Lemma bitwise_range f a b :
  (forall x y, Z.shiftr (f x y) 127 = f (Z.shiftr x 127) (Z.shiftr y 127)) ->
  (forall x y, (x = 0 \/ x = -1) -> (y = 0 \/ y = -1) -> f x y = 0 \/ f x y = -1) ->
  in_i 128 a -> in_i 128 b -> in_i 128 (f a b).
Proof. intros Hs Hf Ha%in_i_shiftr Hb%in_i_shiftr. apply in_i_shiftr. rewrite Hs. by apply Hf. Qed.

(** The operations on the unsigned words are the two's-complement ones. *)
Lemma bitwise_ok a b :
  in_i 128 a -> in_i 128 b ->
  mal_bigint128_bit_and a b = Z.land a b /\ mal_bigint128_bit_or a b = Z.lor a b /\
  mal_bigint128_bit_xor a b = Z.lxor a b /\ mal_bigint128_bit_not a = Z.lnot a.
Proof.
  intros Ha Hb. unfold mal_bigint128_bit_and, mal_bigint128_bit_or, mal_bigint128_bit_xor,
    mal_bigint128_bit_not, mal_bigint128_from_bits.
  split_and!.
  - rewrite <- (i128_small (Z.land a b)); [|apply (bitwise_range Z.land); [intros; apply Z.shiftr_land| |done|done]].
    + apply i128_bits. intros i Hi. by rewrite !Z.land_spec, !u128_bit.
    + by intros x y [-> | ->] [-> | ->]; auto.
  - rewrite <- (i128_small (Z.lor a b)); [|apply (bitwise_range Z.lor); [intros; apply Z.shiftr_lor| |done|done]].
    + apply i128_bits. intros i Hi. by rewrite !Z.lor_spec, !u128_bit.
    + by intros x y [-> | ->] [-> | ->]; auto.
  - rewrite <- (i128_small (Z.lxor a b)); [|apply (bitwise_range Z.lxor); [intros; apply Z.shiftr_lxor| |done|done]].
    + apply i128_bits. intros i Hi. by rewrite !Z.lxor_spec, !u128_bit.
    + by intros x y [-> | ->] [-> | ->]; auto.
  - assert (in_i 128 (Z.lnot a)) as Hn by (unfold in_i, Z.lnot in *; lia).
    rewrite <- (i128_small (Z.lnot a) Hn), i128_u128. apply i128_bits. intros i Hi.
    by rewrite !Z.lnot_spec, u128_bit by lia.
Qed.

Lemma count_magnitude_ok c : in_i 128 c -> mal_bigint128_count_magnitude c = Z.abs c.
Proof.
  unfold in_i. intros Hc. change (128 - 1) with 127 in Hc. unfold mal_bigint128_count_magnitude, u128, wrap.
  destruct (Z.ltb_spec c 0).
  - rewrite Zminus_mod_idemp_r. rewrite Z.mod_small; lia.
  - rewrite Z.mod_small; lia.
Qed.

Lemma shift_left_positive_ok v c :
  in_i 128 v -> 0 <= c -> mal_bigint128_shift_left_positive v c = i128 (Z.shiftl v c).
Proof.
  intros Hv Hc. unfold mal_bigint128_shift_left_positive, MAL_BIGINT128_WIDTH, mal_bigint128_from_bits.
  destruct (Z.leb_spec 128 c) as [Hl|Hl].
  - transitivity (i128 0); [done|]. apply i128_bits. intros i Hi.
    by rewrite Z.shiftl_spec_low, Z.bits_0 by lia.
  - rewrite i128_u128. unfold u32. rewrite wrap_small by (unfold in_u; lia). apply i128_bits. intros i Hi.
    rewrite !Z.shiftl_spec by lia. destruct (Z.lt_ge_cases i c).
    + by rewrite !Z.testbit_neg_r by lia.
    + by rewrite u128_bit by lia.
Qed.

Lemma shiftr_in_i v c : in_i 128 v -> 0 <= c -> in_i 128 (Z.shiftr v c).
Proof.
  unfold in_i. change (128 - 1) with 127. intros Hv Hc. rewrite Z.shiftr_div_pow2 by lia.
  assert (0 < 2 ^ c) by (apply Z.pow_pos_nonneg; lia).
  split; [apply Z.div_le_lower_bound; nia|apply Z.div_lt_upper_bound; nia].
Qed.

Lemma shift_right_positive_ok v c :
  in_i 128 v -> 0 <= c -> mal_bigint128_shift_right_positive v c = Z.shiftr v c.
Proof.
  intros Hv Hc. unfold mal_bigint128_shift_right_positive, MAL_BIGINT128_WIDTH, mal_bigint128_from_bits.
  rewrite <- (i128_small (Z.shiftr v c)) by (by apply shiftr_in_i).
  destruct (Z.leb_spec 128 c) as [Hl|Hl].
  - transitivity (i128 (if v <? 0 then -1 else 0)); [by destruct (v <? 0)|].
    apply i128_bits. intros i Hi. rewrite Z.shiftr_spec, (in_i_sign_bit v) by (done || lia).
    destruct (v <? 0); [by rewrite Z.bits_m1 by lia|by rewrite Z.bits_0].
  - destruct (Z.eqb_spec c 0) as [->|Hz]; [by rewrite Z.shiftr_0_r, i128_small|].
    unfold u32. rewrite wrap_small by (unfold in_u; lia). apply i128_bits. intros i Hi.
    rewrite Z.shiftr_spec by lia. destruct (Z.lt_ge_cases (i + c) 128) as [Hlow|Hhigh].
    + destruct (v <? 0).
      * rewrite Z.lor_spec, Z.shiftr_spec, (u128_bit v) by lia.
        rewrite u128_bit, Z.shiftl_spec_low by lia. by rewrite orb_false_r.
      * by rewrite Z.shiftr_spec, u128_bit by lia.
    + rewrite (in_i_sign_bit v) by (done || lia). destruct (v <? 0).
      * rewrite Z.lor_spec, (u128_bit (Z.shiftl _ _)), Z.shiftl_spec, u128_bit, Z.lnot_spec, Z.bits_0 by lia.
        by rewrite orb_true_r.
      * by rewrite Z.shiftr_spec, u128_bit_high by lia.
Qed.

Lemma shifts_ok v c :
  in_i 128 v -> in_i 128 c ->
  mal_bigint128_shift_left v c = i128 (Z.shiftl v c) /\
  mal_bigint128_shift_right v c = i128 (Z.shiftr v c).
Proof.
  intros Hv Hc. unfold mal_bigint128_shift_left, mal_bigint128_shift_right.
  rewrite count_magnitude_ok by done. destruct (Z.ltb_spec c 0) as [Hn|Hp].
  - replace c with (- Z.abs c) at 2 4 by lia. rewrite Z.shiftl_opp_r, Z.shiftr_opp_r.
    rewrite shift_left_positive_ok, shift_right_positive_ok by (done || lia).
    by rewrite (i128_small (Z.shiftr _ _)) by (apply shiftr_in_i; done || lia).
  - rewrite Z.abs_eq by done. rewrite shift_left_positive_ok, shift_right_positive_ok by done.
    by rewrite (i128_small (Z.shiftr _ _)) by (apply shiftr_in_i; done).
Qed.

(** The sign bit of a word of [bits] bits. *)
Lemma sign_bit_test w bits :
  0 < bits -> in_u bits w -> Z.land w (2 ^ (bits - 1)) = 0 <-> w < 2 ^ (bits - 1).
Proof.
  intros Hb Hw. assert (2 ^ bits = 2 * 2 ^ (bits - 1)) as Hp by (rewrite <- Z.pow_succ_r by lia; f_equal; lia).
  unfold in_u in Hw. split.
  - intros E. destruct (Z.lt_ge_cases w (2 ^ (bits - 1))) as [|Hge]; [done|].
    exfalso. assert (Z.testbit (Z.land w (2 ^ (bits - 1))) (bits - 1) = true) as Ht; [|by rewrite E, Z.bits_0 in Ht].
    rewrite Z.land_spec, Z.pow2_bits_true, andb_true_r by lia. apply Z.testbit_true; [lia|].
    replace (w / 2 ^ (bits - 1)) with 1; [done|].
    apply (Z.div_unique_pos _ _ 1 (w - 2 ^ (bits - 1))); lia.
  - intros Hlt. apply Z.bits_inj'. intros i Hi.
    rewrite Z.land_spec, Z.bits_0. destruct (Z.eq_dec i (bits - 1)) as [->|].
    + rewrite <- (Z.mod_small w (2 ^ (bits - 1))) by lia. by rewrite Z.mod_pow2_bits_high by lia.
    + by rewrite Z.pow2_bits_false, andb_false_r by lia.
Qed.

(** A signed word read off its unsigned bits. *)
Lemma swrap_of_wrap bits v :
  0 < bits -> swrap bits v = if wrap bits v <? 2 ^ (bits - 1) then wrap bits v else wrap bits v - 2 ^ bits.
Proof.
  intros Hb. assert (2 ^ bits = 2 * 2 ^ (bits - 1)) as Hp by (rewrite <- Z.pow_succ_r by lia; f_equal; lia).
  assert (0 < 2 ^ (bits - 1)) by (apply Z.pow_pos_nonneg; lia).
  pose proof (wrap_range bits v ltac:(lia)) as Hw. rewrite <- (swrap_wrap bits v) by done.
  set (w := wrap bits v) in *. unfold in_u in Hw. unfold swrap.
  destruct (Z.ltb_spec w (2 ^ (bits - 1))).
  - rewrite Z.mod_small; lia.
  - replace (w + 2 ^ (bits - 1)) with (w - 2 ^ (bits - 1) + 1 * 2 ^ bits) by lia.
    rewrite Z.mod_add, Z.mod_small; lia.
Qed.

(** Truncation to [bits] bits, unsigned and signed. *)
Lemma as_n_ok v bits :
  in_i 128 v -> 0 <= bits ->
  mal_bigint128_as_uint_n v bits = (if bits <? 128 then wrap bits v else v) /\
  mal_bigint128_as_int_n v bits = (if bits <? 128 then swrap bits v else v).
Proof.
  intros Hv Hb. unfold mal_bigint128_as_uint_n, mal_bigint128_as_int_n, MAL_BIGINT128_WIDTH.
  rewrite Z.ltb_antisym. destruct (Z.eqb_spec bits 0) as [->|Hz].
  { change (negb (128 <=? 0)) with true. cbn iota. unfold wrap, swrap.
    change (2 ^ 0) with 1. change (2 ^ (0 - 1)) with 0. rewrite !Z.mod_1_r. done. }
  destruct (Z.leb_spec 128 bits) as [Hl|Hl]; cbn [negb]; [done|].
  unfold u32. rewrite wrap_small by (unfold in_u; lia). rewrite !Z.shiftl_1_l.
  rewrite land_mask by lia.
  assert (u128 v mod 2 ^ bits = wrap bits v) as ->.
  { unfold u128, wrap. apply Z.bits_inj'. intros i Hi. destruct (Z.lt_ge_cases i bits).
    - by rewrite !Z.mod_pow2_bits_low by lia.
    - by rewrite !Z.mod_pow2_bits_high by lia. }
  pose proof (wrap_range bits v ltac:(lia)) as Hw. unfold mal_bigint128_from_bits.
  assert (2 ^ bits <= 2 ^ 127) by (apply Z.pow_le_mono_r; lia).
  assert (in_i 128 (wrap bits v)) as Hwi by (unfold in_i, in_u in *; lia).
  split; [by apply i128_small|]. rewrite swrap_of_wrap by lia.
  pose proof (sign_bit_test (wrap bits v) bits ltac:(lia) Hw) as Hs.
  destruct (Z.eqb_spec (Z.land (wrap bits v) (2 ^ (bits - 1))) 0) as [E|E]; cbn [negb];
    destruct (Z.ltb_spec (wrap bits v) (2 ^ (bits - 1))); try (exfalso; apply Hs in E || (destruct E; apply Hs); lia).
  - by apply i128_small.
  - assert (u128 (Z.lnot (2 ^ bits - 1)) = Z.shiftl (2 ^ (128 - bits) - 1) bits) as ->.
    { rewrite Z.shiftl_mul_pow2, Z.mul_sub_distr_r, <- Z.pow_add_r, Z.mul_1_l by lia.
      replace (128 - bits + bits) with 128 by lia. unfold Z.lnot, u128, wrap.
      symmetry. apply (Z.mod_unique_pos _ _ (-1)); lia. }
    rewrite lor_shiftl_add by (unfold in_u in Hw; lia).
    rewrite <- (i128_small (wrap bits v - 2 ^ bits)) by (unfold in_i, in_u in *; lia).
    apply i128_cong. rewrite Z.mul_sub_distr_r, <- Z.pow_add_r, Z.mul_1_l by lia.
    replace (128 - bits + bits) with 128 by lia.
    replace (wrap bits v + (2 ^ 128 - 2 ^ bits)) with (wrap bits v - 2 ^ bits + 1 * 2 ^ 128) by lia.
    by rewrite Z.mod_add by lia.
Qed.

(** * Numbers *)

Lemma from_number_ok b :
  in_u 64 b ->
  mal_bigint128_from_number b
  = if f64_is_finite b && f64_eqb (f64_trunc b) b then Some (i128 (f64_to_int b)) else None.
Proof.
  intros Hb. unfold mal_bigint128_from_number. rewrite <- negb_andb.
  destruct (f64_is_finite b && f64_eqb (f64_trunc b) b) eqn:Hok; cbn [negb]; [|done].
  apply andb_true_iff in Hok as [Hfin Htr]. unfold f64_is_finite in Hfin. apply Z.ltb_lt in Hfin.
  pose proof (f64_magnitude_range b) as Hm.
  assert (f64_is_nan b = false) as Hnan by (unfold f64_is_nan; apply Z.ltb_ge; lia).
  assert (forall x, f64_eqb x b = true -> f64_magnitude x = 0 -> f64_magnitude b = 0) as Hzero.
  { unfold f64_eqb, f64_rank. intros x Hx Ex. rewrite !andb_true_iff, Z.eqb_eq in Hx.
    destruct Hx as [_ Hx]. destruct (f64_sign x), (f64_sign b); lia. }
  destruct (f64_eqb b 0) eqn:Ez.
  { rewrite f64_eqb_sym in Ez. apply Hzero in Ez; [|done]. unfold f64_to_int, f64_exponent. rewrite Ez.
    change (0 / 2 ^ 52 <? 1023) with true. cbn iota. by destruct (f64_sign b). }
  assert (f64_magnitude b <> 0) as Hnz.
  { intros E. apply not_true_iff_false in Ez. destruct Ez. unfold f64_eqb, f64_rank. rewrite Hnan, E.
    by destruct (f64_sign b). }
  assert (1023 <= f64_exponent b) as He.
  { destruct (Z.lt_ge_cases (f64_exponent b) 1023) as [Hlt|]; [|done]. destruct Hnz. apply (Hzero _ Htr).
    unfold f64_trunc. destruct (Z.leb_spec 1075 (f64_exponent b)); [lia|].
    destruct (Z.ltb_spec (f64_exponent b) 1023); [|lia]. by destruct (f64_sign b). }
  assert (f64_ltb b 0 = f64_sign b) as ->.
  { unfold f64_ltb, f64_rank. rewrite Hnan. change (f64_is_nan 0) with false. change (f64_sign 0) with false.
    change (f64_magnitude 0) with 0. cbn [negb andb]. destruct (f64_sign b); lia. }
  f_equal. unfold mal_bigint128_from_bits, f64_to_int, MAL_BIGINT128_WIDTH.
  destruct (Z.ltb_spec (f64_exponent b) 1023); [lia|].
  set (m := 2 ^ 52 + f64_fraction b). set (e := f64_exponent b) in *.
  replace (e - 1022 - 53) with (e - 1075) by lia.
  assert (0 <= m) by (subst m; unfold f64_fraction; pose proof (Z.mod_pos_bound b (2 ^ 52)); lia).
  assert (forall x y (s : bool), x mod 2 ^ 128 = y mod 2 ^ 128 ->
    i128 (if s then u128 (0 - x) else x) = i128 (if s then - y else y)) as Hsgn.
  { intros x y [] E; rewrite ?i128_u128; apply i128_cong; [|done].
    rewrite <- (Z.sub_0_l y). by rewrite <- Zminus_mod_idemp_r, E, Zminus_mod_idemp_r. }
  apply Hsgn. destruct (Z.leb_spec 128 (e - 1075)); destruct (Z.leb_spec 1075 e); try lia.
  - replace (e - 1075) with (e - 1075 - 128 + 128) by lia. rewrite Z.pow_add_r by lia.
    by rewrite Z.mul_assoc, Z.mod_mul by lia.
  - destruct (Z.leb_spec 0 (e - 1075)); [|lia]. rewrite Z.shiftl_mul_pow2 by lia.
    unfold u128, wrap. by rewrite Z.mod_mod by lia.
  - destruct (Z.leb_spec 0 (e - 1075)); [lia|].
    rewrite Z.shiftr_div_pow2 by lia. do 3 f_equal. lia.
Qed.

(** C37. BigInt arithmetic is integer arithmetic modulo 2^128 read as a signed
    word: sum, difference, product, negation and power reduce, division and
    remainder truncate toward zero and fail exactly on a zero divisor (the one
    quotient that overflows wraps), and an integral Number converts to its value. *)
Theorem bigint_arithmetic_mod_2_128 a b d :
  in_i 128 a -> in_i 128 b -> in_u 64 d ->
  mal_bigint128_add a b = i128 (a + b) /\
  mal_bigint128_subtract a b = i128 (a - b) /\
  mal_bigint128_multiply a b = i128 (a * b) /\
  mal_bigint128_negate a = i128 (- a) /\
  (0 <= b -> mal_bigint128_exponentiate a b = Ret (i128 (a ^ b))) /\
  mal_bigint128_divide a b = (if b =? 0 then None else Some (i128 (Z.quot a b))) /\
  mal_bigint128_remainder a b = (if b =? 0 then None else Some (Z.rem a b)) /\
  mal_bigint128_from_number d
  = (if f64_is_finite d && f64_eqb (f64_trunc d) d then Some (i128 (f64_to_int d)) else None).
Proof.
  intros Ha Hb Hd.
  split_and!; [apply add_ok|apply subtract_ok|apply multiply_ok|apply negate_ok| | | |by apply from_number_ok].
  - intros Hp. unfold mal_bigint128_exponentiate. rewrite exponent_loop_ok; [|split|].
    + rewrite Z.mul_1_l. unfold u128. rewrite wrap_small; [done|]. unfold in_u, in_i in *. lia.
    + apply wrap_range. lia.
    + apply wrap_range. lia.
    + by vm_compute.
  - unfold mal_bigint128_divide. destruct (Z.eqb_spec b 0) as [|Hz]; [done|]. rewrite is_min_spec by done.
    destruct (Z.eqb_spec a (- 2 ^ 127)) as [->|Hm], (Z.eqb_spec b (-1)) as [->|Hm']; cbn [andb]; [done|..];
      (rewrite i128_small; [done|apply quot_range; [done|done|lia]]).
  - unfold mal_bigint128_remainder. destruct (Z.eqb_spec b 0) as [|Hz]; [done|]. rewrite is_min_spec by done.
    destruct (Z.eqb_spec a (- 2 ^ 127)) as [->|Hm], (Z.eqb_spec b (-1)) as [->|Hm']; cbn [andb]; done.
Qed.

(** A concrete value is in a machine range. *)
Ltac in_range := split; [discriminate|reflexivity].

Lemma bigint_arithmetic_mod_2_128_witness :
  mal_bigint128_add (2 ^ 127 - 1) 1 = - 2 ^ 127 /\ mal_bigint128_divide (- 2 ^ 127) (-1) = Some (- 2 ^ 127).
Proof.
  destruct (bigint_arithmetic_mod_2_128 (2 ^ 127 - 1) 1 0) as (E1 & _); [in_range..|].
  destruct (bigint_arithmetic_mod_2_128 (- 2 ^ 127) (-1) 0) as (_ & _ & _ & _ & _ & E2 & _); [in_range..|].
  rewrite E1, E2. vm_compute. split; reflexivity.
Defined.

(** The truncations at any width: the residue, kept in 128 bits. *)
Lemma as_n_residue v bits :
  in_i 128 v -> 0 <= bits ->
  mal_bigint128_as_uint_n v bits = i128 (wrap bits v) /\ mal_bigint128_as_int_n v bits = swrap bits v.
Proof.
  intros Hv Hb. destruct (as_n_ok v bits Hv Hb) as [-> ->]. destruct (Z.ltb_spec bits 128) as [Hl|Hl].
  - split; [|done]. symmetry. apply i128_small. pose proof (wrap_range bits v ltac:(lia)) as Hw.
    assert (2 ^ bits <= 2 ^ 127) by (apply Z.pow_le_mono_r; lia). unfold in_i, in_u in *. lia.
  - assert (2 ^ 127 <= 2 ^ (bits - 1)) by (apply Z.pow_le_mono_r; lia). split; symmetry.
    + rewrite <- (i128_small v Hv) at 2. unfold i128. apply swrap_eq_of_cong. unfold wrap.
      apply Z.bits_inj'. intros i Hi. destruct (Z.lt_ge_cases i 128).
      * by rewrite !Z.mod_pow2_bits_low by lia.
      * by rewrite !Z.mod_pow2_bits_high by lia.
    + apply swrap_small; [lia|]. unfold in_i in *. change (128 - 1) with 127 in Hv. lia.
Qed.
Lemma shift_right_exact a b : in_i 128 a -> in_i 128 b -> 0 <= b -> mal_bigint128_shift_right a b = Z.shiftr a b.
Proof.
  intros Ha Hb Hn. destruct (shifts_ok a b Ha Hb) as [_ ->]. apply i128_small. unfold in_i in *. rewrite Z.shiftr_div_pow2 by lia.
  assert (0 < 2 ^ b) by (apply Z.pow_pos_nonneg; lia). Z.to_euclidean_division_equations. nia.
Qed.

(** C38. Bit operations on a BigInt are those of infinite two's complement, kept in 128
    bits. And, or, exclusive or and complement of 128-bit values are exact, as are right
    shifts by a count that is not negative and BigInt.asIntN. A left shift (by any signed
    count, a negative one shifting right and conversely) and BigInt.asUintN give the low
    128 bits of the mathematical result, read as a signed number: bits shifted past
    the 128th are lost, 1n << 127n is the least value, and truncation to 128 or more bits
    changes nothing, so that BigInt.asUintN(128, -1n) is -1n. This is the
    approximation that bigint128.h announces. *)
Theorem bigint_bitwise_two_complement a b bits :
  in_i 128 a -> in_i 128 b -> 0 <= bits ->
  mal_bigint128_bit_and a b = Z.land a b /\
  mal_bigint128_bit_or a b = Z.lor a b /\
  mal_bigint128_bit_xor a b = Z.lxor a b /\
  mal_bigint128_bit_not a = Z.lnot a /\
  mal_bigint128_shift_left a b = i128 (Z.shiftl a b) /\
  mal_bigint128_shift_right a b = (if 0 <=? b then Z.shiftr a b else i128 (Z.shiftr a b)) /\
  mal_bigint128_as_uint_n a bits = i128 (wrap bits a) /\
  mal_bigint128_as_int_n a bits = swrap bits a /\
  (128 <= bits -> mal_bigint128_as_uint_n a bits = a /\ mal_bigint128_as_int_n a bits = a).
Proof.
  intros Ha Hb Hn. destruct (bitwise_ok a b Ha Hb) as (? & ? & ? & ?).
  destruct (shifts_ok a b Ha Hb) as [Hl Hr]. destruct (as_n_residue a bits Ha Hn) as [Hu Hi].
  do 5 (split; [done|]). split; [|do 2 (split; [done|])].
  - destruct (Z.leb_spec 0 b); [by apply shift_right_exact|done].
  - intros H128. destruct (as_n_ok a bits Ha Hn) as [-> ->]. destruct (Z.ltb_spec bits 128); [lia|done].
Qed.

Lemma bigint_bitwise_two_complement_witness :
  mal_bigint128_shift_right (-5) 1 = -3 /\ mal_bigint128_shift_left 1 127 = - 2 ^ 127 /\
  mal_bigint128_as_int_n 255 8 = -1 /\ mal_bigint128_as_uint_n (-1) 128 = -1.
Proof.
  destruct (bigint_bitwise_two_complement (-5) 1 8) as (_ & _ & _ & _ & _ & E1 & _); [in_range..|lia|].
  destruct (bigint_bitwise_two_complement 1 127 8) as (_ & _ & _ & _ & E2 & _); [in_range..|lia|].
  destruct (bigint_bitwise_two_complement 255 1 8) as (_ & _ & _ & _ & _ & _ & _ & E3 & _); [in_range..|lia|].
  destruct (bigint_bitwise_two_complement (-1) 1 128) as (_ & _ & _ & _ & _ & _ & _ & _ & E4); [in_range..|lia|].
  rewrite E1, E2, E3, (proj1 (E4 ltac:(lia))). vm_compute. split_and!; reflexivity.
Defined.
