(* ===== verification/BigIntText.v ===== *)
(** Printing a BigInt and StringToBigInt: the printed text, in decimal and in
    the prefixed radices, parses back to the value. *)

From S2P Require Import Prelude F64 BigInt BigIntSpec.

(** * Digits *)

Definition is_digit (u : Z) : Prop := 48 <= u <= 57.

(** The number a decimal text denotes, most significant digit first. *)
Definition dval (text : list Z) : Z := fold_left (fun a u => a * 10 + (u - 48)) text 0.

Lemma dval_acc text : forall a,
  fold_left (fun a u => a * 10 + (u - 48)) text a = a * 10 ^ arr_len text + dval text.
Proof.
  unfold dval. induction text as [|u text IH]; intros a; cbn [fold_left].
  - change (arr_len []) with 0. lia.
  - rewrite IH, (IH (0 * 10 + (u - 48))).
    replace (arr_len (u :: text)) with (Z.succ (arr_len text)) by (unfold arr_len; cbn [length]; lia).
    rewrite Z.pow_succ_r by apply arr_len_nonneg. lia.
Qed.

Lemma dval_app a b : dval (a ++ b) = dval a * 10 ^ arr_len b + dval b.
Proof. unfold dval at 1. rewrite fold_left_app. apply dval_acc. Qed.

Lemma dval_range text : Forall is_digit text -> 0 <= dval text < 10 ^ arr_len text.
Proof.
  induction text as [|u text IH] using rev_ind; intros H; [done|].
  apply Forall_app in H as [Ht Hu]. apply Forall_cons in Hu as [Hu _]. specialize (IH Ht).
  rewrite dval_app, arr_len_app. change (arr_len [u]) with 1. change (dval [u]) with (u - 48).
  rewrite Z.pow_add_r by (apply arr_len_nonneg || lia). unfold is_digit in Hu. lia.
Qed.

(** * Parsing decimal text *)

Lemma group_loop_ok text : forall chunk multiplier,
  Forall is_digit text -> 0 <= chunk < multiplier -> multiplier * 10 ^ arr_len text <= 10 ^ 19 ->
  group_loop text chunk multiplier
  = Some (chunk * 10 ^ arr_len text + dval text, multiplier * 10 ^ arr_len text).
Proof.
  induction text as [|u text IH]; intros chunk multiplier Hf Hc Hm; cbn [group_loop].
  - change (arr_len []) with 0. do 2 f_equal; [change (dval []) with 0|]; lia.
  - apply Forall_cons in Hf as [Hu Hf]. unfold is_digit in Hu.
    destruct (Z.ltb_spec u 48), (Z.ltb_spec 57 u); try lia. cbn [orb].
    replace (arr_len (u :: text)) with (Z.succ (arr_len text)) in * by (unfold arr_len; cbn [length]; lia).
    pose proof (arr_len_nonneg text). rewrite Z.pow_succ_r in * by done.
    assert (0 < 10 ^ arr_len text) by (apply Z.pow_pos_nonneg; lia).
    unfold u64. rewrite !wrap_small by (unfold in_u; nia). rewrite IH by (done || nia).
    do 2 f_equal; [|lia].
    change (u :: text) with ([u] ++ text). rewrite dval_app. change (dval [u]) with (u - 48). lia.
Qed.

Lemma decimal_loop_ok fuel : forall text group acc,
  Forall is_digit text -> 0 < group <= 19 -> 0 <= acc ->
  (text = [] \/ (group <= arr_len text /\ (arr_len text - group) mod 19 = 0)) ->
  (length text < fuel)%nat ->
  exists r, decimal_loop fuel text group acc = Ret (Some r) /\ 0 <= r /\
    r mod 2 ^ 128 = (acc * 10 ^ arr_len text + dval text) mod 2 ^ 128 /\ (text = [] -> r = acc).
Proof.
  induction fuel as [|fuel IH]; intros text group acc Hf Hg Ha Hd Hl; [lia|]. cbn [decimal_loop].
  destruct text as [|u text0].
  { exists acc. change (arr_len []) with 0. change (dval []) with 0. rewrite Z.mul_1_r, Z.add_0_r. done. }
  set (text := u :: text0) in *. destruct Hd as [Hd|[Hle Hmod]]; [done|].
  assert (arr_len (take (Z.to_nat group) text) = group) as Ht by (unfold arr_len in *; rewrite length_take; lia).
  assert (arr_len (drop (Z.to_nat group) text) = arr_len text - group) as Hdr
    by (unfold arr_len in *; rewrite length_drop; lia).
  rewrite group_loop_ok; [|by apply Forall_take|lia|rewrite Ht, Z.mul_1_l; apply Z.pow_le_mono_r; lia].
  rewrite Ht, Z.mul_0_l, Z.add_0_l, Z.mul_1_l.
  assert ((if group =? 19 then decimal_chunk_base else 10 ^ group) = 10 ^ group) as ->
    by (by destruct (Z.eqb_spec group 19) as [->|]).
  set (chunk := dval (take (Z.to_nat group) text)).
  destruct (IH (drop (Z.to_nat group) text) 19 (u128 (u128 (acc * 10 ^ group) + chunk)))
    as (r & -> & Hr & Hv & _).
  - by apply Forall_drop.
  - lia.
  - apply wrap_range. lia.
  - destruct (drop (Z.to_nat group) text) as [|x rest] eqn:E; [by left|right]. rewrite <- E in *. rewrite Hdr.
    assert (0 < arr_len text - group) by (rewrite <- Hdr, E; unfold arr_len; cbn [length]; lia).
    pose proof (Z.div_mod (arr_len text - group) 19 ltac:(lia)). split; [lia|].
    replace (arr_len text - group - 19) with (arr_len text - group + (-1) * 19) by lia.
    by rewrite Z.mod_add by lia.
  - unfold arr_len in *. rewrite length_drop. lia.
  - exists r. split; [done|]. split; [done|]. split; [|done]. rewrite Hv, Hdr.
    set (p := 10 ^ (arr_len text - group)).
    assert (dval text = chunk * p + dval (drop (Z.to_nat group) text)) as ->.
    { subst chunk p. rewrite <- Hdr, <- dval_app. by rewrite take_drop. }
    assert (10 ^ arr_len text = 10 ^ group * p) as ->
      by (subst p; rewrite <- Z.pow_add_r by lia; f_equal; lia).
    unfold u128, wrap. rewrite Z.add_mod_idemp_l by lia.
    rewrite <- Z.add_mod_idemp_l, Z.mul_mod_idemp_l, Z.add_mod_idemp_l by lia. f_equal. lia.
Qed.

(** * No whitespace to trim *)

Definition solid (u : Z) : Prop := mal_ecma_is_string_whitespace u = false.

Lemma ascii_solid u : 0x20 < u < 0xA0 -> solid u.
Proof.
  intros Hu. unfold solid, mal_ecma_is_string_whitespace.
  destruct (Z.ltb_spec 0x20 u), (Z.ltb_spec u 0xA0); (done || lia).
Qed.

Lemma trim_start_solid text : Forall solid text -> trim_start text = text.
Proof. destruct text as [|u text]; [done|]. intros [Hu _]%Forall_cons. cbn [trim_start]. unfold solid in Hu. by rewrite Hu. Qed.

Lemma trim_solid text : Forall solid text -> trim_end (trim_start text) = text.
Proof.
  intros H. unfold trim_end. rewrite (trim_start_solid text) by done.
  rewrite trim_start_solid; [apply reverse_involutive|by apply Forall_reverse].
Qed.

Lemma digits_solid text : Forall is_digit text -> Forall solid text.
Proof. intros H. eapply Forall_impl; [exact H|]. intros u Hu. apply ascii_solid. unfold is_digit in Hu. lia. Qed.

Lemma parse_decimal_digits text :
  Forall is_digit text -> text <> [] ->
  exists r, parse_digits 10 text = Ret (Some r) /\ r mod 2 ^ 128 = dval text mod 2 ^ 128.
Proof.
  intros Hf Hne. unfold parse_digits. cbn [negb Z.eqb Pos.eqb].
  assert (0 < arr_len text) by (destruct text; [done|unfold arr_len; cbn [length]; lia]).
  pose proof (Z.mod_pos_bound (arr_len text) 19 ltac:(lia)). pose proof (Z.mod_le (arr_len text) 19 ltac:(lia) ltac:(lia)).
  set (g := if arr_len text mod 19 =? 0 then 19 else arr_len text mod 19).
  pose proof (Z.div_mod (arr_len text) 19 ltac:(lia)) as Hdm.
  destruct (decimal_loop_ok (S (length text)) text g 0) as (r & -> & _ & Hr & _); try done.
  - subst g. destruct (Z.eqb_spec (arr_len text mod 19) 0); lia.
  - right. subst g. destruct (Z.eqb_spec (arr_len text mod 19) 0) as [E|E]; (split; [lia|]).
    + replace (arr_len text - 19) with ((arr_len text / 19 - 1) * 19) by lia. apply Z.mod_mul. lia.
    + replace (arr_len text - arr_len text mod 19) with (arr_len text / 19 * 19) by lia. apply Z.mod_mul. lia.
  - lia.
  - by exists r.
Qed.

Lemma radix_prefix_digits sign text : Forall is_digit text -> radix_prefix sign text = (10, text).
Proof.
  intros H. unfold radix_prefix. repeat (case_match; try done); subst;
    apply Forall_cons in H as [_ [H _]%Forall_cons]; unfold is_digit in H;
    repeat match goal with E : (_ || _) = true |- _ => rewrite orb_true_iff, !Z.eqb_eq in E end; lia.
Qed.

Lemma parse_signed_digits (negative : bool) text :
  Forall is_digit text -> text <> [] ->
  mal_bigint128_parse ((if negative then [45] else []) ++ text)
  = Ret (Some (i128 (if negative then - dval text else dval text))).
Proof.
  intros Hf Hne. destruct (parse_decimal_digits text Hf Hne) as (r & Hp & Hr).
  assert (Forall solid ((if negative then [45] else []) ++ text)) as Hs.
  { apply Forall_app. split; [|by apply digits_solid]. destruct negative; [|done].
    apply Forall_singleton. by apply ascii_solid. }
  unfold mal_bigint128_parse. rewrite trim_solid by done. destruct negative; cbn [app].
  - cbn [Z.eqb Pos.eqb orb]. rewrite radix_prefix_digits by done.
    destruct text as [|u text']; [done|]. rewrite Hp. cbn [mbind outcome_bind]. do 2 f_equal.
    unfold mal_bigint128_from_bits. rewrite i128_u128. apply i128_cong.
    rewrite <- (Z.sub_0_l (dval _)). by rewrite <- Zminus_mod_idemp_r, Hr, Zminus_mod_idemp_r.
  - destruct text as [|u text']; [done|]. pose proof Hf as [Hu _]%Forall_cons. unfold is_digit in Hu.
    destruct (Z.eqb_spec u 43), (Z.eqb_spec u 45); try lia. cbn [orb].
    rewrite radix_prefix_digits by done. rewrite Hp. cbn [mbind outcome_bind]. do 2 f_equal. by apply i128_cong.
Qed.

(** * Printing decimal text *)

(** The number a text denotes, least significant digit first. *)
Fixpoint le_val (digits : list Z) : Z :=
  match digits with [] => 0 | u :: rest => (u - 48) + 10 * le_val rest end.

Lemma dval_reverse digits : dval (reverse digits) = le_val digits.
Proof.
  induction digits as [|u digits IH]; [done|]. rewrite reverse_cons, dval_app, IH.
  change (arr_len [u]) with 1. change (dval [u]) with (u - 48). cbn [le_val]. lia.
Qed.

Lemma le_val_pad digits n : le_val (digits ++ replicate n 48) = le_val digits.
Proof.
  induction digits as [|u digits IH]; cbn [app le_val]; [|by rewrite IH].
  induction n as [|n IH]; [done|]. cbn [replicate le_val]. rewrite IH. lia.
Qed.

Lemma reverse_digits_ok fuel : forall value,
  0 <= value < 10 ^ Z.of_nat fuel -> (0 < fuel)%nat ->
  exists ds, reverse_digits fuel value = Ret ds /\ Forall is_digit ds /\ le_val ds = value /\ ds <> [] /\
    forall k, 1 <= k -> value < 10 ^ k -> arr_len ds <= k.
Proof.
  induction fuel as [|fuel IH]; intros value Hv Hf; [lia|]. cbn [reverse_digits].
  pose proof (Z.mod_pos_bound value 10 ltac:(lia)). pose proof (Z.div_mod value 10 ltac:(lia)) as Hd.
  assert (0 <= value / 10) by (apply Z.div_pos; lia).
  assert (is_digit (48 + value mod 10)) as Hdig by (unfold is_digit; lia).
  destruct (Z.eqb_spec (value / 10) 0) as [E|E]; cbn [negb].
  - exists [48 + value mod 10]. split_and!; [done|by apply Forall_singleton|cbn; lia|done|].
    intros k Hk _. change (arr_len [48 + value mod 10]) with 1. lia.
  - destruct (IH (value / 10)) as (ds & -> & Hds & Hval & Hne & Hlen).
    + replace (Z.of_nat (S fuel)) with (Z.succ (Z.of_nat fuel)) in Hv by lia. rewrite Z.pow_succ_r in Hv by lia.
      split; [done|apply Z.div_lt_upper_bound; lia].
    + destruct fuel; [|lia]. exfalso. change (10 ^ Z.of_nat 1) with 10 in Hv. rewrite Z.div_small in E by lia. lia.
    + cbn [mbind outcome_bind]. eexists. split; [done|].
      split_and!; [by constructor|cbn [le_val]; rewrite Hval; lia|done|]. intros k Hk Hlt.
      replace (arr_len (48 + value mod 10 :: ds)) with (arr_len ds + 1) by (unfold arr_len; cbn [length]; lia).
      destruct (Z.eq_dec k 1) as [->|]; [exfalso; apply E, Z.div_small; lia|].
      assert (arr_len ds <= k - 1); [|lia]. apply Hlen; [lia|]. apply Z.div_lt_upper_bound; [lia|].
      rewrite <- Z.pow_succ_r by lia. by replace (Z.succ (k - 1)) with k by lia.
Qed.

Lemma write_u64_decimal_ok value min_digits :
  0 <= value < 2 ^ 64 -> 1 <= min_digits ->
  exists text, mal_bigint_write_u64_decimal value min_digits = Ret text /\ Forall is_digit text /\
    dval text = value /\ text <> [] /\ (value < 10 ^ min_digits -> arr_len text = min_digits) /\
    forall k, min_digits <= k -> value < 10 ^ k -> arr_len text <= k.
Proof.
  intros Hv Hm. unfold mal_bigint_write_u64_decimal.
  destruct (reverse_digits_ok 20 value) as (ds & -> & Hds & Hval & Hne & Hlen); [|lia|].
  { change (Z.of_nat 20) with 20. lia. }
  cbn [mbind outcome_bind]. eexists. split; [done|]. rewrite dval_reverse, le_val_pad.
  assert (arr_len (reverse (ds ++ replicate (Z.to_nat min_digits - length ds) 48))
          = Z.max (arr_len ds) min_digits) as Hl.
  { unfold arr_len. rewrite length_reverse, length_app, length_replicate. lia. }
  split_and!.
  - apply Forall_reverse, Forall_app. split; [done|]. apply Forall_replicate. unfold is_digit. lia.
  - done.
  - intros E%(f_equal reverse). rewrite reverse_involutive in E. destruct ds; done.
  - intros Hlt. specialize (Hlen min_digits ltac:(lia) Hlt). lia.
  - intros k Hk Hlt. specialize (Hlen k ltac:(lia) Hlt). lia.
Qed.

Definition is_chunk (c : Z) : Prop := 0 <= c < decimal_chunk_base.

(** Chunks, least significant first. *)
Fixpoint cval (chunks : list Z) : Z :=
  match chunks with [] => 0 | c :: rest => c + decimal_chunk_base * cval rest end.

Lemma cval_snoc rest top : cval (rest ++ [top]) = cval rest + decimal_chunk_base ^ arr_len rest * top.
Proof.
  induction rest as [|c rest IH]; [change (arr_len []) with 0; cbn; lia|]. cbn [app cval]. rewrite IH.
  replace (arr_len (c :: rest)) with (Z.succ (arr_len rest)) by (unfold arr_len; cbn [length]; lia).
  rewrite Z.pow_succ_r by apply arr_len_nonneg. lia.
Qed.

Lemma chunk_loop_ok fuel : forall m,
  0 <= m < decimal_chunk_base ^ Z.of_nat fuel -> (0 < fuel)%nat ->
  exists rest top, chunk_loop fuel m = Ret (rest ++ [top]) /\ Forall is_chunk rest /\ is_chunk top /\
    cval (rest ++ [top]) = m /\ (length rest < fuel)%nat.
Proof.
  induction fuel as [|fuel IH]; intros m Hm Hf; [lia|]. cbn [chunk_loop].
  assert (0 < decimal_chunk_base < 2 ^ 64) as HB by done.
  pose proof (Z.mod_pos_bound m decimal_chunk_base ltac:(lia)). pose proof (Z.div_mod m decimal_chunk_base ltac:(lia)).
  assert (0 <= m / decimal_chunk_base) by (apply Z.div_pos; lia).
  unfold u64. rewrite wrap_small by (unfold in_u; lia).
  destruct (Z.eqb_spec (m / decimal_chunk_base) 0) as [E|E]; cbn [negb].
  - exists [], (m mod decimal_chunk_base). split_and!; [done|done|done| |cbn; lia]. cbn [app cval]. lia.
  - destruct (IH (m / decimal_chunk_base)) as (rest & top & -> & Hr & Ht & Hv & Hl).
    + replace (Z.of_nat (S fuel)) with (Z.succ (Z.of_nat fuel)) in Hm by lia. rewrite Z.pow_succ_r in Hm by lia.
      split; [done|apply Z.div_lt_upper_bound; lia].
    + destruct fuel; [|lia]. exfalso. change (decimal_chunk_base ^ Z.of_nat 1) with decimal_chunk_base in Hm.
      apply E, Z.div_small. lia.
    + cbn [mbind outcome_bind]. exists (m mod decimal_chunk_base :: rest), top.
      split_and!; [done|by constructor|done| |cbn; lia]. cbn [app cval]. rewrite Hv. lia.
Qed.

(** Full chunks print as 19 digits each. *)
Lemma write_chunks_ok chunks : Forall is_chunk chunks ->
  exists text, write_chunks (reverse chunks) = Ret text /\ Forall is_digit text /\
    arr_len text = 19 * arr_len chunks /\ dval text = cval chunks.
Proof.
  assert (forall l, Forall is_chunk l -> exists text, write_chunks l = Ret text /\ Forall is_digit text /\
    arr_len text = 19 * arr_len l /\ dval text = cval (reverse l)) as Hw.
  { induction l as [|c l IH]; intros Hf; [by exists []|]. apply Forall_cons in Hf as [Hc Hf].
    destruct (IH Hf) as (tail & Ht & Hd & Hlen & Hv). unfold is_chunk in Hc.
    assert (decimal_chunk_base = 10 ^ 19) as HB by done.
    destruct (write_u64_decimal_ok c 19) as (text & E & Htd & Htv & _ & Htl & _); [lia|lia|].
    specialize (Htl ltac:(lia)). cbn [write_chunks]. rewrite E. cbn [mbind outcome_bind]. rewrite Ht.
    cbn [mbind outcome_bind]. eexists. split; [reflexivity|]. split; [apply Forall_app; split; assumption|].
    rewrite arr_len_app, dval_app, Htv, Hv, Htl, Hlen.
    replace (arr_len (c :: l)) with (arr_len l + 1) by (unfold arr_len; cbn [length]; lia).
    split; [lia|]. rewrite reverse_cons, cval_snoc.
    assert (arr_len (reverse l) = arr_len l) as -> by (unfold arr_len; by rewrite length_reverse).
    rewrite HB, <- Z.pow_mul_r by (pose proof (arr_len_nonneg l); lia). lia. }
  intros Hf. destruct (Hw (reverse chunks)) as (text & E & Hd & Hl & Hv); [by apply Forall_reverse|].
  exists text. rewrite Hl, Hv, reverse_involutive. split_and!; [done|done| |done].
  unfold arr_len. by rewrite length_reverse.
Qed.

Lemma magnitude_of_ok v : in_i 128 v -> magnitude_of v = Z.abs v.
Proof.
  unfold in_i, magnitude_of, u128, wrap. change (128 - 1) with 127. intros Hv.
  destruct (Z.ltb_spec v 0); [|rewrite Z.mod_small; lia].
  rewrite Z.add_mod_idemp_l by lia. unfold Z.lnot.
  replace (Z.pred (- (v mod 2 ^ 128)) + 1) with (0 - v mod 2 ^ 128) by lia.
  rewrite Zminus_mod_idemp_r. rewrite Z.mod_small; lia.
Qed.

Lemma decimal_string_ok v :
  in_i 128 v ->
  exists digits, mal_bigint_to_decimal_string v = Ret ((if v <? 0 then [45] else []) ++ digits) /\
    Forall is_digit digits /\ digits <> [] /\ dval digits = Z.abs v /\ arr_len digits <= 39.
Proof.
  intros Hv. unfold mal_bigint_to_decimal_string. destruct (Z.eqb_spec v 0) as [->|Hz].
  { exists [48]. split_and!; [done|by apply Forall_singleton|done|done|by vm_compute]. }
  rewrite magnitude_of_ok by done. unfold in_i in Hv. change (128 - 1) with 127 in Hv.
  assert (decimal_chunk_base = 10 ^ 19) as HB by done.
  destruct (chunk_loop_ok 3 (Z.abs v)) as (rest & top & -> & Hr & Ht & Hc & Hl); [|lia|].
  { change (decimal_chunk_base ^ Z.of_nat 3) with (10 ^ 57). lia. }
  cbn [mbind outcome_bind]. rewrite reverse_app. cbn [reverse rev_append app].
  change (reverse [top]) with [top]. cbn [app].
  unfold is_chunk in Ht.
  destruct (write_u64_decimal_ok top 1) as (head & E & Hhd & Hhv & Hhn & _ & Hhl); [lia|lia|].
  rewrite E. cbn [mbind outcome_bind]. destruct (write_chunks_ok rest Hr) as (tail & -> & Htd & Htl & Htv).
  cbn [mbind outcome_bind]. exists (head ++ tail). split; [reflexivity|]. split; [apply Forall_app; split; assumption|].
  split; [destruct head; [contradiction|discriminate]|]. rewrite cval_snoc in Hc.
  split.
  - rewrite dval_app, Hhv, Htv, Htl, Z.pow_mul_r by (pose proof (arr_len_nonneg rest); lia). rewrite <- HB. lia.
  - rewrite arr_len_app, Htl. unfold arr_len in *. pose proof (Hhl 19 ltac:(lia) ltac:(lia)) as H19.
    destruct (decide (length rest = 2%nat)) as [E2|]; [|lia].
    assert (top < 10 ^ 1) as Htop; [|pose proof (Hhl 1 ltac:(lia) Htop); lia].
    assert (0 <= cval rest).
    { rewrite <- Htv. by apply dval_range. }
    rewrite E2 in Hc. change (decimal_chunk_base ^ Z.of_nat 2) with (10 ^ 38) in Hc. lia.
Qed.

(** * Radix text *)

(** Digits below the radix, least significant first, as units. *)
Fixpoint rval (radix : Z) (digits : list Z) : Z :=
  match digits with [] => 0 | d :: rest => d + radix * rval radix rest end.

Lemma digit_unit_value d : 0 <= d < 36 -> mal_bigint128_digit_value (digit_unit d) = d.
Proof.
  intros Hd. unfold digit_unit, mal_bigint128_digit_value. destruct (Z.ltb_spec d 10).
  - destruct (Z.leb_spec 48 (48 + d)), (Z.leb_spec (48 + d) 57); cbn [andb]; lia.
  - destruct (Z.leb_spec 48 (97 + d - 10)), (Z.leb_spec (97 + d - 10) 57); try lia; cbn [andb];
      destruct (Z.leb_spec 97 (97 + d - 10)), (Z.leb_spec (97 + d - 10) 122); cbn [andb]; lia.
Qed.

(** The three prefixed radices. *)
Definition prefixed (radix : Z) : Prop := radix = 2 \/ radix = 8 \/ radix = 16.
Definition prefix_units (radix : Z) : list Z :=
  [48; if radix =? 16 then 120 else if radix =? 8 then 111 else 98].

Lemma prefixed_pow radix : prefixed radix -> radix = 2 ^ radix_shift radix /\ 1 <= radix_shift radix <= 4.
Proof. intros [-> |[-> | ->]]; by vm_compute. Qed.

Definition print_shift (radix : Z) : Z :=
  if radix =? 2 then 1 else if radix =? 4 then 2 else if radix =? 8 then 3
  else if radix =? 16 then 4 else if radix =? 32 then 5 else 0.

Lemma radix_digits_ok radix fuel : forall m,
  prefixed radix -> 0 <= m < radix ^ (Z.of_nat fuel - 1) ->
  exists ds, radix_digits fuel radix (radix_shift radix) m = Ret (map digit_unit ds) /\
    Forall (fun d => 0 <= d < radix) ds /\ rval radix ds = m /\ (length ds < fuel)%nat /\ (m <> 0 -> ds <> []).
Proof.
  induction fuel as [|fuel IH]; intros m Hp Hm; destruct (prefixed_pow radix Hp) as [Hr Hs].
  { exfalso. change (Z.of_nat 0 - 1) with (-1) in Hm. rewrite Z.pow_neg_r in Hm by lia. lia. }
  cbn [radix_digits]. destruct (Z.ltb_spec 0 m) as [Hpos|]; cbn [negb].
  2: { exists []. assert (m = 0) as -> by lia. split_and!; [done|done|done|cbn; lia|done]. }
  assert (2 <= radix) by (destruct Hp as [-> |[-> | ->]]; lia).
  destruct (Z.eqb_spec (radix_shift radix) 0); [lia|]. cbn [negb].
  assert (Z.land m (radix - 1) = m mod radix) as ->.
  { rewrite Hr at 1. rewrite land_mask by lia. by rewrite <- Hr. }
  rewrite Z.shiftr_div_pow2, <- Hr by lia.
  pose proof (Z.mod_pos_bound m radix ltac:(lia)). pose proof (Z.div_mod m radix ltac:(lia)) as Hd.
  assert (0 < Z.of_nat fuel) as Hf.
  { destruct fuel; [|lia]. change (Z.of_nat 1 - 1) with 0 in Hm. rewrite Z.pow_0_r in Hm. lia. }
  destruct (IH (m / radix) Hp) as (ds & -> & Hf2 & Hv & Hl & _).
  { replace (Z.of_nat (S fuel) - 1) with (Z.succ (Z.of_nat fuel - 1)) in Hm by lia.
    rewrite Z.pow_succ_r in Hm by lia.
    split; [apply Z.div_pos; lia|apply Z.div_lt_upper_bound; lia]. }
  cbn [mbind outcome_bind]. exists (m mod radix :: ds).
  split_and!; [reflexivity|by constructor|cbn [rval]; rewrite Hv; lia|cbn; lia|discriminate].
Qed.

Lemma rval_range radix ds : 0 < radix -> Forall (fun d => 0 <= d < radix) ds ->
  0 <= rval radix ds < radix ^ arr_len ds.
Proof.
  intros Hr. induction 1 as [|d ds Hd _ IH]; [done|]. cbn [rval].
  replace (arr_len (d :: ds)) with (Z.succ (arr_len ds)) by (unfold arr_len; cbn [length]; lia).
  rewrite Z.pow_succ_r by apply arr_len_nonneg. nia.
Qed.

Lemma radix_loop_ok radix ds : forall acc,
  prefixed radix -> Forall (fun d => 0 <= d < radix) ds -> 0 <= acc ->
  acc * radix ^ arr_len ds + rval radix ds < 2 ^ 128 ->
  radix_loop radix (map digit_unit (reverse ds)) acc = Some (acc * radix ^ arr_len ds + rval radix ds).
Proof.
  induction ds as [|d ds IH] using rev_ind; intros acc Hp Hf Ha Hlt.
  { change (arr_len []) with 0. cbn. f_equal. lia. }
  apply Forall_app in Hf as [Hf [Hd _]%Forall_cons]. destruct (prefixed_pow radix Hp) as [Hr Hs].
  assert (2 <= radix <= 16) by (destruct Hp as [-> |[-> | ->]]; lia).
  assert (rval radix (ds ++ [d]) = rval radix ds + radix ^ arr_len ds * d) as Hsn.
  { clear. induction ds as [|x ds IH]; [change (arr_len []) with 0; cbn; lia|]. cbn [app rval]. rewrite IH.
    replace (arr_len (x :: ds)) with (Z.succ (arr_len ds)) by (unfold arr_len; cbn [length]; lia).
    rewrite Z.pow_succ_r by apply arr_len_nonneg. lia. }
  rewrite Hsn in *. rewrite arr_len_app in *. change (arr_len [d]) with 1 in *.
  pose proof (arr_len_nonneg ds). rewrite Z.pow_add_r, Z.pow_1_r in * by lia.
  pose proof (rval_range radix ds ltac:(lia) Hf). assert (0 < radix ^ arr_len ds) by (apply Z.pow_pos_nonneg; lia).
  rewrite reverse_snoc. cbn [map radix_loop]. rewrite digit_unit_value by lia.
  destruct (Z.ltb_spec d 0), (Z.leb_spec radix d); try lia. cbn [orb].
  assert (Z.lor (u128 (Z.shiftl acc (radix_shift radix))) d = acc * radix + d) as ->.
  { unfold u128. rewrite wrap_small.
    - rewrite lor_shiftl_add' by lia. rewrite <- Hr. lia.
    - rewrite Z.shiftl_mul_pow2, <- Hr by lia. unfold in_u. nia. }
  rewrite IH by (done || nia). f_equal. lia.
Qed.

Lemma digit_unit_solid d : 0 <= d < 36 -> solid (digit_unit d).
Proof. intros. apply ascii_solid. unfold digit_unit. destruct (Z.ltb_spec d 10); lia. Qed.

Lemma parse_prefixed radix ds :
  prefixed radix -> Forall (fun d => 0 <= d < radix) ds -> ds <> [] -> rval radix ds < 2 ^ 128 ->
  mal_bigint128_parse (prefix_units radix ++ map digit_unit (reverse ds)) = Ret (Some (i128 (rval radix ds))).
Proof.
  intros Hp Hf Hne Hlt. assert (2 <= radix <= 16) by (destruct Hp as [-> |[-> | ->]]; lia).
  pose proof (radix_loop_ok radix ds 0 Hp Hf ltac:(lia) ltac:(lia)) as Hl. rewrite Z.mul_0_l, Z.add_0_l in Hl.
  set (text := map digit_unit (reverse ds)) in *.
  assert (text <> []) as Hnt.
  { subst text. intros E%map_eq_nil%(f_equal reverse). rewrite reverse_involutive in E. done. }
  assert (Forall solid (prefix_units radix ++ text)) as Hsol.
  { apply Forall_app. split.
    - destruct Hp as [-> |[-> | ->]]; (apply Forall_cons; split; [by apply ascii_solid|]);
        apply Forall_singleton; by apply ascii_solid.
    - subst text. apply Forall_fmap. apply Forall_reverse. eapply Forall_impl; [exact Hf|].
      intros d Hd. cbn beta in Hd. apply digit_unit_solid. lia. }
  unfold mal_bigint128_parse. rewrite trim_solid by done.
  assert (radix_prefix false (prefix_units radix ++ text) = (radix, text)) as Hpre
    by (by destruct Hp as [-> |[-> | ->]]).
  unfold prefix_units in *. cbn [app] in *. cbn [Z.eqb Pos.eqb orb]. rewrite Hpre.
  destruct text as [|u text']; [done|]. unfold parse_digits.
  assert (negb (radix =? 10) = true) as -> by (by destruct Hp as [-> |[-> | ->]]).
  rewrite Hl. reflexivity.
Qed.

(** C36. Text round trip: the decimal text of any BigInt, and the binary, octal
    and hexadecimal text of a non-negative one behind its prefix, fits the
    printer's buffer and is parsed back to the value by StringToBigInt. *)
Theorem bigint_text_roundtrip v :
  in_i 128 v ->
  (exists text, mal_bigint_to_string v 10 = Ret text /\ arr_len text <= 40 /\
     mal_bigint128_parse text = Ret (Some v)) /\
  (0 <= v -> forall radix, prefixed radix ->
   exists text, mal_bigint_to_string v radix = Ret text /\ arr_len text <= 140 /\
     mal_bigint128_parse (prefix_units radix ++ text) = Ret (Some v)).
Proof.
  intros Hv. split.
  - destruct (decimal_string_ok v Hv) as (ds & E & Hd & Hne & Hval & Hl).
    exists ((if v <? 0 then [45] else []) ++ ds). split; [exact E|]. split.
    + rewrite arr_len_app. destruct (v <? 0); [change (arr_len [45]) with 1|change (arr_len []) with 0]; lia.
    + rewrite parse_signed_digits by done. rewrite Hval. do 2 f_equal.
      assert ((if v <? 0 then - Z.abs v else Z.abs v) = v) as -> by (destruct (Z.ltb_spec v 0); lia).
      by apply i128_small.
  - intros Hp radix Hr. unfold mal_bigint_to_string.
    assert ((if (radix <? 2) || (36 <? radix) then 10 else radix) = radix) as ->
      by (by destruct Hr as [-> |[-> | ->]]).
    assert ((radix =? 10) = false) as -> by (by destruct Hr as [-> |[-> | ->]]).
    destruct (Z.eqb_spec v 0) as [->|Hz].
    + exists [48]. split_and!; [done|by vm_compute|by destruct Hr as [-> |[-> | ->]]; vm_compute].
    + replace (if radix =? 2 then 1 else _) with (radix_shift radix) by (by destruct Hr as [-> |[-> | ->]]).
      rewrite magnitude_of_ok by done. rewrite Z.abs_eq by done. unfold in_i in Hv. change (128 - 1) with 127 in Hv.
      assert (2 ^ 128 <= radix ^ (Z.of_nat 129 - 1)) by (destruct Hr as [-> |[-> | ->]]; by vm_compute).
      destruct (radix_digits_ok radix 129 v Hr ltac:(lia)) as (ds & -> & Hf & Hval & Hl & Hne).
      cbn [mbind outcome_bind]. destruct (Z.ltb_spec v 0); [lia|]. rewrite app_nil_r.
      eexists. split; [reflexivity|]. split; [unfold arr_len; rewrite length_reverse, length_map; lia|].
      assert (reverse (map digit_unit ds) = map digit_unit (reverse ds)) as -> by (by rewrite <- fmap_reverse).
      rewrite parse_prefixed; [|done|done|by apply Hne|rewrite Hval; lia]. rewrite Hval, i128_small; [done|]. unfold in_i. change (128 - 1) with 127. lia.
Qed.

Lemma bigint_text_roundtrip_witness :
  exists text, mal_bigint_to_string (- 2 ^ 127) 10 = Ret text /\ arr_len text <= 40 /\
    mal_bigint128_parse text = Ret (Some (- 2 ^ 127)).
Proof. apply (bigint_text_roundtrip (- 2 ^ 127)). by vm_compute. Defined.
