(* ===== verification/Linked.v ===== *)
(** Singly linked lists in memory: nodes by address, a field [nx] that holds the
    address of the next node, and the list of addresses they spell. Shared by the
    run queue, the fiber list, the slabs and the reaction and job queues. *)

From stdpp Require Import gmap.
From S2P Require Import Prelude.

Section Linked.
Context {X : Type}.
Implicit Types (nx : X -> option Z) (fs : gmap Z X) (l : list Z).

(** The chain of [nx] pointers through the nodes of [l]. *)
Definition linked (nx : X -> option Z) (fs : gmap Z X) (l : list Z) : Prop :=
  forall i f, l !! i = Some f -> exists x, fs !! f = Some x /\ nx x = l !! S i.

Lemma linked_nil nx fs : linked nx fs [].
Proof. by intros i f. Qed.

Lemma linked_lookup nx fs l f : linked nx fs l -> f ∈ l -> is_Some (fs !! f).
Proof. intros Hl [i Hi]%list_elem_of_lookup. destruct (Hl i f Hi) as (x & -> & _). by eexists. Qed.

Lemma linked_cons nx fs f l :
  linked nx fs (f :: l) <-> (exists x, fs !! f = Some x /\ nx x = head l) /\ linked nx fs l.
Proof.
  split.
  - intros H. split.
    + destruct (H 0%nat f eq_refl) as (x & Hx & E). exists x. split; [done|]. rewrite E. by destruct l.
    + intros i g Hi. exact (H (S i) g Hi).
  - intros [(x & Hx & E) H] [|i] g Hi; [|exact (H i g Hi)].
    injection Hi as <-. exists x. split; [done|]. rewrite E. by destruct l.
Qed.

(** Maps that agree on [nx] for the nodes of the list. *)
Lemma linked_ext nx fs fs' l :
  (forall f x, f ∈ l -> fs !! f = Some x -> exists x', fs' !! f = Some x' /\ nx x' = nx x) ->
  linked nx fs l -> linked nx fs' l.
Proof.
  intros He H i f Hi. destruct (H i f Hi) as (x & Hx & E).
  destruct (He f x (list_elem_of_lookup_2 _ _ _ Hi) Hx) as (x' & Hx' & E'). exists x'. by rewrite E'.
Qed.

(** A write that keeps the link field, and one to a node off the list. *)
Lemma linked_insert nx fs l f x x' :
  fs !! f = Some x -> nx x' = nx x -> linked nx fs l -> linked nx (<[f := x']> fs) l.
Proof.
  intros Hf E. apply linked_ext. intros g y Hg Hy. destruct (decide (g = f)) as [->|].
  - exists x'. rewrite lookup_insert_eq. split; [done|]. congruence.
  - exists y. by rewrite lookup_insert_ne.
Qed.
Lemma linked_insert_ne nx fs l f x : f ∉ l -> linked nx fs l -> linked nx (<[f := x]> fs) l.
Proof.
  intros Hf. apply linked_ext. intros g y Hg Hy. exists y. rewrite lookup_insert_ne; [done|]. by intros ->.
Qed.
Lemma linked_delete nx fs l f : f ∉ l -> linked nx fs l -> linked nx (delete f fs) l.
Proof.
  intros Hf. apply linked_ext. intros g y Hg Hy. exists y. rewrite lookup_delete_ne; [done|]. by intros ->.
Qed.

(** Appending: the old last node points to the new one. *)
Lemma linked_snoc nx fs l t f :
  linked nx fs (l ++ [t]) -> f ∉ l ++ [t] -> forall x, fs !! f = Some x -> nx x = None ->
  forall y y', fs !! t = Some y -> nx y' = Some f -> NoDup (l ++ [t]) ->
  linked nx (<[t := y']> fs) (l ++ [t; f]).
Proof.
  intros Hl Hf x Hx Hxn y y' Hy Hy' Hnd i g Hi.
  replace (l ++ [t; f]) with ((l ++ [t]) ++ [f]) in * by (by rewrite <- app_assoc).
  apply NoDup_app in Hnd as (_ & Hdis & _).
  destruct (Nat.lt_trichotomy i (length l)) as [Hlt|[->|Hgt]].
  - rewrite lookup_app_l in Hi by (rewrite length_app; cbn; lia).
    destruct (Hl i g Hi) as (z & Hz & E). rewrite lookup_app_l in Hi by done.
    exists z. rewrite lookup_insert_ne.
    + split; [done|]. rewrite E. symmetry. apply lookup_app_l. rewrite length_app. cbn. lia.
    + intros <-. apply (Hdis t); [by eapply list_elem_of_lookup_2|by apply list_elem_of_singleton].
  - rewrite lookup_app_l in Hi by (rewrite length_app; cbn; lia).
    rewrite list_lookup_middle in Hi by done. injection Hi as <-. exists y'. rewrite lookup_insert_eq.
    split; [done|]. rewrite Hy'. rewrite lookup_app_r by (rewrite length_app; cbn; lia).
    rewrite length_app. cbn [length]. by replace (S (length l) - (length l + 1))%nat with 0%nat by lia.
  - rewrite lookup_app_r in Hi by (rewrite length_app; cbn; lia).
    rewrite length_app in Hi. cbn [length] in Hi.
    destruct (i - (length l + 1))%nat as [|k] eqn:Ek; [|by destruct k].
    injection Hi as <-. exists x. rewrite lookup_insert_ne.
    + split; [done|]. rewrite Hxn. symmetry. apply lookup_ge_None. rewrite !length_app. cbn. lia.
    + intros ->. apply Hf. apply elem_of_app. right. by apply list_elem_of_singleton.
Qed.

(** Redirecting the link before a node takes it off the list. *)
Lemma linked_unlink nx fs l1 p f l2 x y y' :
  linked nx fs (l1 ++ p :: f :: l2) -> NoDup (l1 ++ p :: f :: l2) ->
  fs !! f = Some x -> fs !! p = Some y -> nx y' = nx x ->
  linked nx (<[p := y']> fs) (l1 ++ p :: l2).
Proof.
  intros Hl Hnd Hx Hy Ey. induction l1 as [|a l1 IH]; cbn [app] in *.
  - apply linked_cons in Hl as [_ Hl]. apply linked_cons in Hl as [(x' & Hx' & Ex) Hl].
    apply NoDup_cons in Hnd as [Hp Hnd]. apply linked_cons. split.
    + exists y'. rewrite lookup_insert_eq. split; [done|]. congruence.
    + apply linked_insert_ne; [|done]. by apply not_elem_of_cons in Hp as [_ ?].
  - apply linked_cons in Hl as [(z & Hz & Ez) Hl]. apply NoDup_cons in Hnd as [Ha Hnd].
    apply linked_cons. split; [|by apply IH]. exists z. rewrite lookup_insert_ne.
    + split; [done|]. rewrite Ez. by destruct l1.
    + intros <-. apply Ha. apply elem_of_app. right. by apply list_elem_of_here.
Qed.

End Linked.
