(* ===== verification/Scheduler.v ===== *)
(** The isolate scheduler of host/scheduler.c and the fiber records of fiber.c:
    the intrusive run queue, the swap of the execution slice around a switch,
    preemption at safepoints, and the reaping of finished fibers.

    Fibers are addresses in a finite map; following a pointer to a fiber that was
    freed, or unmapping a stack that is not mapped, is [Abort], so a step that
    returns does neither. The raw stack switch moves control only: after a worker
    switches to the main fiber the model goes on in [mal_sched_run], behind its
    own switch. *)

From stdpp Require Import gmap.
From S2P Require Import Prelude Value.

Inductive MalFiberState : Set :=
| MAL_FIBER_NEW | MAL_FIBER_RUNNING | MAL_FIBER_RUNNABLE | MAL_FIBER_BLOCKED | MAL_FIBER_FINISHED.

#[export] Instance MalFiberState_eq_dec : EqDecision MalFiberState.
Proof. solve_decision. Defined.

(** The slice of VM state a fiber owns; pointers and counters are words. *)
Record MalFiberExec : Type := mkExec {
  value_stack : Z; value_stack_size : Z; value_stack_capacity : Z;
  frames : Z; frame_count : Z; frame_capacity : Z;
  native_frames : Z; native_frame_count : Z; native_frame_capacity : Z;
  proxy_dispatch_depth : Z; exact_script_call : Z; stack_limit : Z;
  gc_native_frames : Z; frame_seq : Z; completion : Z * Z;
  async_context : Z; root_frame_head : Z; root_span_head : Z; current_realm : Z;
}.

Record MalFiber : Type := mkFiber {
  state : MalFiberState;
  is_main : bool;
  stack_base : option Z;
  stack_size : Z;
  reductions_left : Z;
  exec : MalFiberExec;
  next : option Z;
  rq_next : option Z;
}.

(** The isolate as the scheduler sees it: the fibers in memory, the mapped stacks
    with their sizes, the live slice
    in MalVm, the fiber list head and the current fiber of the VM, and the fields
    of [MalScheduler]. *)
Record SchedWorld : Type := mkSched {
  fibers : gmap Z MalFiber;
  stacks : gmap Z Z;
  vm_exec : MalFiberExec;
  vm_current_fiber : Z;
  fibers_head : option Z;
  main_fiber : Z;
  current : Z;
  run_head : option Z;
  run_tail : option Z;
  default_budget : Z;
}.

Definition set_state (x : MalFiberState) (f : MalFiber) : MalFiber :=
  mkFiber x (is_main f) (stack_base f) (stack_size f) (reductions_left f) (exec f) (next f) (rq_next f).
Definition set_reductions (x : Z) (f : MalFiber) : MalFiber :=
  mkFiber (state f) (is_main f) (stack_base f) (stack_size f) x (exec f) (next f) (rq_next f).
Definition set_exec (x : MalFiberExec) (f : MalFiber) : MalFiber :=
  mkFiber (state f) (is_main f) (stack_base f) (stack_size f) (reductions_left f) x (next f) (rq_next f).
Definition set_next (x : option Z) (f : MalFiber) : MalFiber :=
  mkFiber (state f) (is_main f) (stack_base f) (stack_size f) (reductions_left f) (exec f) x (rq_next f).
Definition set_rq_next (x : option Z) (f : MalFiber) : MalFiber :=
  mkFiber (state f) (is_main f) (stack_base f) (stack_size f) (reductions_left f) (exec f) (next f) x.

Definition with_fibers (fs : gmap Z MalFiber) (w : SchedWorld) : SchedWorld :=
  mkSched fs (stacks w) (vm_exec w) (vm_current_fiber w) (fibers_head w) (main_fiber w) (current w)
    (run_head w) (run_tail w) (default_budget w).
Definition with_stacks (m : gmap Z Z) (w : SchedWorld) : SchedWorld :=
  mkSched (fibers w) m (vm_exec w) (vm_current_fiber w) (fibers_head w) (main_fiber w) (current w)
    (run_head w) (run_tail w) (default_budget w).
Definition with_queue (h t : option Z) (w : SchedWorld) : SchedWorld :=
  mkSched (fibers w) (stacks w) (vm_exec w) (vm_current_fiber w) (fibers_head w) (main_fiber w)
    (current w) h t (default_budget w).
Definition with_vm (x : MalFiberExec) (f : Z) (w : SchedWorld) : SchedWorld :=
  mkSched (fibers w) (stacks w) x f (fibers_head w) (main_fiber w) (current w)
    (run_head w) (run_tail w) (default_budget w).
Definition with_current (f : Z) (w : SchedWorld) : SchedWorld :=
  mkSched (fibers w) (stacks w) (vm_exec w) (vm_current_fiber w) (fibers_head w) (main_fiber w) f
    (run_head w) (run_tail w) (default_budget w).
Definition with_head (h : option Z) (w : SchedWorld) : SchedWorld :=
  mkSched (fibers w) (stacks w) (vm_exec w) (vm_current_fiber w) h (main_fiber w) (current w)
    (run_head w) (run_tail w) (default_budget w).

(** [*f], and [f->field = ..]. *)
Definition deref (w : SchedWorld) (f : Z) : outcome MalFiber :=
  match fibers w !! f with Some x => Ret x | None => Abort end.
Definition modify (f : Z) (g : MalFiber -> MalFiber) (w : SchedWorld) : outcome SchedWorld :=
  x ← deref w f; Ret (with_fibers (<[f := g x]> (fibers w)) w).

(** * Run queue *)

Definition mal_sched_enqueue (f : Z) (w : SchedWorld) : outcome SchedWorld :=
  w ← modify f (set_rq_next None) w;
  match run_tail w with
  | Some t =>
      w ← modify t (set_rq_next (Some f)) w;
      Ret (with_queue (run_head w) (Some f) w)
  | None => Ret (with_queue (Some f) (Some f) w)
  end.

Definition mal_sched_dequeue (w : SchedWorld) : outcome (option Z * SchedWorld) :=
  match run_head w with
  | None => Ret (None, w)
  | Some f =>
      x ← deref w f;
      let h := rq_next x in
      let t := match h with None => None | Some _ => run_tail w end in
      w ← modify f (set_rq_next None) (with_queue h t w);
      Ret (Some f, w)
  end.

(** * Execution slices *)

(** Field by field, as in the C. *)
Definition copy_exec (x : MalFiberExec) : MalFiberExec :=
  mkExec (value_stack x) (value_stack_size x) (value_stack_capacity x)
    (frames x) (frame_count x) (frame_capacity x)
    (native_frames x) (native_frame_count x) (native_frame_capacity x)
    (proxy_dispatch_depth x) (exact_script_call x) (stack_limit x)
    (gc_native_frames x) (frame_seq x) (completion x)
    (async_context x) (root_frame_head x) (root_span_head x) (current_realm x).

Definition mal_fiber_save_exec (f : Z) (w : SchedWorld) : outcome SchedWorld :=
  modify f (set_exec (copy_exec (vm_exec w))) w.
Definition mal_fiber_load_exec (f : Z) (w : SchedWorld) : outcome SchedWorld :=
  x ← deref w f;
  Ret (with_vm (copy_exec (exec x)) f w).

Definition mal_sched_switch (from to : Z) (w : SchedWorld) : outcome SchedWorld :=
  w ← mal_fiber_save_exec from w;
  w ← mal_fiber_load_exec to w;
  Ret (with_current to w).

(** * Fiber list *)

(** The walk that stops at the fiber or at the end: [pp] is the head slot or
    the [next] field of a fiber. *)
Fixpoint unlink_loop (fuel : nat) (f : Z) (pp : option Z) (slot : option Z) (w : SchedWorld)
    : outcome SchedWorld :=
  match fuel with
  | O => NoFuel
  | S fuel =>
      match slot with
      | None => Ret w
      | Some g =>
          if g =? f then
            x ← deref w f;
            match pp with
            | None => Ret (with_head (next x) w)
            | Some p => modify p (set_next (next x)) w
            end
          else
            x ← deref w g;
            unlink_loop fuel f (Some g) (next x) w
      end
  end.

(** munmap of the whole range. *)
Definition unmap_stack (x : MalFiber) (w : SchedWorld) : outcome SchedWorld :=
  match stack_base x with
  | None => Ret w
  | Some base =>
      match stacks w !! base with
      | Some size => if size =? stack_size x then Ret (with_stacks (delete base (stacks w)) w) else Abort
      | None => Abort
      end
  end.

(** Unlink, unmap, then free: the main fiber has no stack of its own and its
    record is not freed. *)
Definition mal_fiber_destroy (f : Z) (w : SchedWorld) : outcome SchedWorld :=
  w ← unlink_loop (S (size (fibers w))) f None (fibers_head w) w;
  x ← deref w f;
  w ← unmap_stack x w;
  Ret (if is_main x then w else with_fibers (delete f (fibers w)) w).

Definition MAL_FIBER_STACK_MARGIN : Z := 64 * 1024.
Definition MAL_FIBER_DEFAULT_FRAMES : Z := 1024.
Definition MAL_FIBER_DEFAULT_STACK_SIZE : Z := 256 * 1024.
Definition MAL_FIBER_DEFAULT_VALUE_STACK : Z := 8192.

Definition mal_fiber_page_round (page n : Z) : Z :=
  Z.land (u64 (n + page - 1)) (u64 (Z.lnot (page - 1))).

(** What the allocators hand a spawn: the record's address, the mapped range
    ([None] is MAP_FAILED) and the two buffers. *)
Record allocation : Type := mkAllocation {
  a_fiber : Z; a_base : option Z; a_value_stack : Z; a_frames : Z;
}.

(** The slice of a fresh fiber: empty buffers, NORMAL completion of undefined,
    the async context and the realm of the spawner. *)
Definition fresh_exec (page base value_stack_capacity : Z) (a : allocation) (x : MalFiberExec)
    : MalFiberExec :=
  mkExec (a_value_stack a) 0 value_stack_capacity (a_frames a) 0 MAL_FIBER_DEFAULT_FRAMES
    0 0 0 0 0 (base + page + MAL_FIBER_STACK_MARGIN) 0 0 (0, MAL_VALUE_UNDEFINED)
    (async_context x) 0 0 (current_realm x).

Definition mal_fiber_create (page : Z) (a : allocation) (stack_size value_stack_capacity : Z)
    (w : SchedWorld) : option Z * SchedWorld :=
  let stack_size := if stack_size =? 0 then MAL_FIBER_DEFAULT_STACK_SIZE else stack_size in
  let stack_size := u64 (mal_fiber_page_round page stack_size + page) in
  match a_base a with
  | None => (None, w)
  | Some base =>
      let value_stack_capacity :=
        if value_stack_capacity <=? 0 then MAL_FIBER_DEFAULT_VALUE_STACK else value_stack_capacity in
      let x := mkFiber MAL_FIBER_NEW false (Some base) stack_size 0
                 (fresh_exec page base value_stack_capacity a (vm_exec w)) (fibers_head w) None in
      let w := with_stacks (<[base := stack_size]> (stacks w)) w in
      (Some (a_fiber a), with_head (Some (a_fiber a)) (with_fibers (<[a_fiber a := x]> (fibers w)) w))
  end.

Definition mal_sched_spawn (page : Z) (a : allocation) (w : SchedWorld) : outcome (option Z * SchedWorld) :=
  let '(f, w) := mal_fiber_create page a 0 0 w in
  match f with
  | None => Ret (None, w)
  | Some f =>
      w ← modify f (set_state MAL_FIBER_RUNNABLE) w;
      w ← mal_sched_enqueue f w;
      Ret (Some f, w)
  end.

(** [mal_fiber_init_main] on a VM with no fibers, then [mal_sched_init]. *)
Definition MAL_SCHED_DEFAULT_BUDGET : Z := 1000.
Definition mal_fiber_init_main (main : Z) (x : MalFiberExec) : gmap Z MalFiber :=
  {[ main := mkFiber MAL_FIBER_RUNNING true None 0 0 (copy_exec x) None None ]}.
Definition mal_sched_init (main : Z) (x : MalFiberExec) : SchedWorld :=
  mkSched (mal_fiber_init_main main x) ∅ x main (Some main) main main None None
    MAL_SCHED_DEFAULT_BUDGET.

(** * Scheduling *)

(** [mal_sched_run] behind its switch: the worker [f] came back. *)
Definition run_settle (f : Z) (w : SchedWorld) : outcome SchedWorld :=
  x ← deref w f;
  match state x with
  | MAL_FIBER_FINISHED => mal_fiber_destroy f w
  | MAL_FIBER_RUNNABLE => mal_sched_enqueue f w
  | _ => Ret w
  end.

(** One iteration of [mal_sched_run] up to its switch; [None] when the queue is
    empty and the loop asks the collector and the reactor. *)
Definition run_dispatch (w : SchedWorld) : outcome (option Z * SchedWorld) :=
  '(f, w) ← mal_sched_dequeue w;
  match f with
  | None => Ret (None, w)
  | Some f =>
      x ← deref w f;
      if bool_decide (state x = MAL_FIBER_FINISHED) then
        w ← mal_fiber_destroy f w;
        Ret (None, w)
      else
        w ← modify f (set_reductions (default_budget w)) w;
        w ← modify f (set_state MAL_FIBER_RUNNING) w;
        w ← mal_sched_switch (main_fiber w) f w;
        Ret (Some f, w)
  end.

Definition leave (s : MalFiberState) (w : SchedWorld) : outcome SchedWorld :=
  let self := current w in
  w ← modify self (set_state s) w;
  w ← mal_sched_switch self (main_fiber w) w;
  run_settle self w.
Definition mal_sched_yield (w : SchedWorld) : outcome SchedWorld := leave MAL_FIBER_RUNNABLE w.
Definition mal_sched_block (w : SchedWorld) : outcome SchedWorld := leave MAL_FIBER_BLOCKED w.
(** [mal_fiber_bootstrap] after the entry returns, and [mal_sched_fiber_exit]. *)
Definition mal_sched_fiber_exit (w : SchedWorld) : outcome SchedWorld := leave MAL_FIBER_FINISHED w.

Definition mal_sched_wake (f : Z) (w : SchedWorld) : outcome SchedWorld :=
  x ← deref w f;
  if bool_decide (state x = MAL_FIBER_BLOCKED) then
    w ← modify f (set_state MAL_FIBER_RUNNABLE) w;
    mal_sched_enqueue f w
  else Ret w.

Definition mal_sched_preempt (w : SchedWorld) : outcome SchedWorld :=
  let self := current w in
  if self =? main_fiber w then Ret w
  else
    x ← deref w self;
    if 0 <? reductions_left x then modify self (set_reductions (reductions_left x - 1)) w
    else mal_sched_yield w.

(** * Events *)

(** What can happen next: the loop dispatches, the running code works on its
    slice, passes a safepoint, spawns, wakes, yields, blocks or returns. *)
Inductive event : Type :=
| EDispatch | EWork (x : MalFiberExec) | ESafepoint | ESpawn (a : allocation)
| EWake (f : Z) | EYield | EBlock | EExit.

Definition on_main (w : SchedWorld) : bool := current w =? main_fiber w.

(** When the event can occur: workers yield, block and exit, the main fiber
    dispatches, the allocators hand out fresh addresses, a waker holds a live
    fiber. *)
Definition enabled (w : SchedWorld) (e : event) : Prop :=
  match e with
  | EDispatch => on_main w = true
  | EWork _ | ESafepoint => True
  | ESpawn a =>
      fibers w !! a_fiber a = None /\ forall base, a_base a = Some base -> stacks w !! base = None
  | EWake f => is_Some (fibers w !! f)
  | EYield | EBlock | EExit => on_main w = false
  end.

Definition sched_step (page : Z) (w : SchedWorld) (e : event) : outcome SchedWorld :=
  match e with
  | EDispatch => '(_, w) ← run_dispatch w; Ret w
  | EWork x => Ret (with_vm x (vm_current_fiber w) w)
  | ESafepoint => mal_sched_preempt w
  | ESpawn a => '(_, w) ← mal_sched_spawn page a w; Ret w
  | EWake f => mal_sched_wake f w
  | EYield => mal_sched_yield w
  | EBlock => mal_sched_block w
  | EExit => mal_sched_fiber_exit w
  end.

Fixpoint sched_run (page : Z) (w : SchedWorld) (es : list event) : outcome SchedWorld :=
  match es with
  | [] => Ret w
  | e :: es => w ← sched_step page w e; sched_run page w es
  end.

(** Each event can occur when its turn comes. *)
Fixpoint all_enabled (page : Z) (w : SchedWorld) (es : list event) : Prop :=
  match es with
  | [] => True
  | e :: es => enabled w e /\ forall w', sched_step page w e = Ret w' -> all_enabled page w' es
  end.
