(* ===== verification/SchedulerSpec.v ===== *)
(** The scheduler's invariant: the run queue and the fiber list are the linked
    lists they stand for, exactly the runnable fibers are queued, one fiber runs,
    and no step follows a pointer to a freed fiber. *)

From stdpp Require Import gmap.
From S2P Require Import Prelude Linked Scheduler.

(** * The run queue *)

Record queue_ok (w : SchedWorld) (q : list Z) : Prop := {
  qo_linked : linked rq_next (fibers w) q;
  qo_head : run_head w = head q;
  qo_tail : run_tail w = last q;
  qo_nodup : NoDup q;
}.

(** Two fiber maps that differ in run-queue links only. *)
Definition same_but_rq (fs fs' : gmap Z MalFiber) : Prop :=
  forall g, set_rq_next None <$> fs' !! g = set_rq_next None <$> fs !! g.

#[local] Instance same_but_rq_equiv : Equivalence same_but_rq.
Proof.
  split; [by intros fs g|by intros fs fs' H g|]. intros a b c H1 H2 g. by rewrite H2, H1.
Qed.

Lemma same_but_rq_insert fs f x r : fs !! f = Some x -> same_but_rq fs (<[f := set_rq_next r x]> fs).
Proof.
  intros Hx g. destruct (decide (g = f)) as [->|]; [|by rewrite lookup_insert_ne].
  by rewrite lookup_insert_eq, Hx.
Qed.

Lemma same_but_rq_lookup fs fs' g x :
  same_but_rq fs fs' -> fs !! g = Some x -> exists r, fs' !! g = Some (set_rq_next r x).
Proof.
  intros H Hx. specialize (H g). rewrite Hx in H. cbn in H.
  destruct (fs' !! g) as [x'|] eqn:E; [|done]. exists (rq_next x').
  unfold set_rq_next in *. destruct x, x'. cbn in *. congruence.
Qed.

Lemma same_but_rq_sym fs fs' : same_but_rq fs fs' -> same_but_rq fs' fs.
Proof. by intros H g. Qed.

(** What a queue operation leaves alone. *)
Definition same_sched (w w' : SchedWorld) : Prop :=
  same_but_rq (fibers w) (fibers w') /\ stacks w' = stacks w /\ vm_exec w' = vm_exec w /\ vm_current_fiber w' = vm_current_fiber w /\
  fibers_head w' = fibers_head w /\ main_fiber w' = main_fiber w /\ current w' = current w /\
  default_budget w' = default_budget w.

Lemma modify_ok f g w x :
  fibers w !! f = Some x -> modify f g w = Ret (with_fibers (<[f := g x]> (fibers w)) w).
Proof. intros H. unfold modify, deref. by rewrite H. Qed.

Lemma enqueue_ok w q f x :
  queue_ok w q -> f ∉ q -> fibers w !! f = Some x ->
  exists w', mal_sched_enqueue f w = Ret w' /\ queue_ok w' (q ++ [f]) /\ same_sched w w'.
Proof.
  intros [Hl Hh Ht Hn] Hf Hx. unfold mal_sched_enqueue. rewrite (modify_ok _ _ _ _ Hx).
  cbn [mbind outcome_bind]. set (fs1 := <[f := set_rq_next None x]> (fibers w)).
  assert (linked rq_next fs1 q) as Hl1 by (by apply linked_insert_ne).
  assert (same_but_rq (fibers w) fs1) as Hs1 by (by apply same_but_rq_insert).
  assert (fs1 !! f = Some (set_rq_next None x)) as Hf1 by apply lookup_insert_eq.
  assert (NoDup (q ++ [f])) as Hn'.
  { apply NoDup_app. split; [done|]. split; [|apply NoDup_singleton].
    intros g Hg ->%list_elem_of_singleton. done. }
  cbn [run_tail with_fibers]. rewrite Ht. destruct q as [|a q] using rev_ind.
  - eexists. split; [done|]. split; [split; try done|by split_and!].
    cbn [app fibers with_queue with_fibers]. apply linked_cons. split; [|apply linked_nil].
    by eexists.
  - clear IHq. rewrite last_snoc.
    destruct (linked_lookup _ _ _ a Hl1) as [y Hy]; [apply elem_of_app; right; by apply list_elem_of_singleton|].
    rewrite (modify_ok _ _ (with_fibers fs1 w) y Hy). cbn [mbind outcome_bind].
    eexists. split; [done|]. split; [|split_and!; try done].
    + split; cbn [fibers run_head run_tail with_queue with_fibers].
      * rewrite <- app_assoc. cbn [app].
        by eapply (linked_snoc _ fs1 q a f Hl1 Hf); [exact Hf1|done|exact Hy|done|].
      * rewrite Hh. by destruct q.
      * by rewrite last_snoc.
      * done.
    + cbn [fibers with_queue with_fibers]. transitivity fs1; [done|]. by apply same_but_rq_insert.
Qed.

Lemma dequeue_ok w f q :
  queue_ok w (f :: q) ->
  exists w', mal_sched_dequeue w = Ret (Some f, w') /\ queue_ok w' q /\ same_sched w w'.
Proof.
  intros [Hl Hh Ht Hn]. apply NoDup_cons in Hn as [Hf Hn]. apply linked_cons in Hl as [(x & Hx & E) Hl].
  unfold mal_sched_dequeue. rewrite Hh. cbn [head]. unfold deref at 1. rewrite Hx. cbn [mbind outcome_bind].
  rewrite (modify_ok _ _ (with_queue _ _ w) x Hx). cbn [mbind outcome_bind].
  eexists. split; [done|]. split; [split|split_and!; try done];
    cbn [fibers run_head run_tail with_queue with_fibers].
  - by apply linked_insert_ne.
  - done.
  - rewrite E, Ht. by destruct q.
  - done.
  - by apply same_but_rq_insert.
Qed.

Lemma dequeue_empty w : queue_ok w [] -> mal_sched_dequeue w = Ret (None, w).
Proof. intros [_ Hh _ _]. unfold mal_sched_dequeue. by rewrite Hh. Qed.

(** * The fiber list *)

Record list_ok (w : SchedWorld) (all : list Z) : Prop := {
  lo_linked : linked next (fibers w) all;
  lo_head : fibers_head w = head all;
  lo_nodup : NoDup all;
  lo_dom : forall f, f ∈ all <-> is_Some (fibers w !! f);
}.

Lemma list_ok_same w w' all :
  fibers_head w' = fibers_head w ->
  (forall g x, fibers w !! g = Some x -> exists x', fibers w' !! g = Some x' /\ next x' = next x) ->
  (forall g, is_Some (fibers w' !! g) -> is_Some (fibers w !! g)) ->
  list_ok w all -> list_ok w' all.
Proof.
  intros Hh He Hb [Hl Hd Hn Hdom]. split; [|by rewrite Hh|done|].
  - eapply linked_ext; [|exact Hl]. intros f x _. apply He.
  - intros f. rewrite Hdom. split; [|apply Hb]. intros [x Hx]. destruct (He f x Hx) as (x' & -> & _). by eexists.
Qed.

Lemma all_size w all : list_ok w all -> length all = size (fibers w).
Proof.
  intros [_ _ Hn Hd]. rewrite <- size_dom, <- (size_list_to_set (C := gset Z) all) by done.
  f_equal. apply set_eq. intros f. by rewrite elem_of_list_to_set, Hd, elem_of_dom.
Qed.

(** * Unlinking and reaping *)

(** Two fibers that differ in their list link only. *)
Definition drop_next (x : MalFiber) : MalFiber := set_next None x.

Lemma drop_next_insert (fs : gmap Z MalFiber) p y r g :
  fs !! p = Some y -> drop_next <$> <[p := set_next r y]> fs !! g = drop_next <$> fs !! g.
Proof.
  intros Hy. destruct (decide (g = p)) as [->|]; [|by rewrite lookup_insert_ne].
  by rewrite lookup_insert_eq, Hy.
Qed.

Lemma drop_next_lookup (fs fs' : gmap Z MalFiber) g x :
  drop_next <$> fs' !! g = drop_next <$> fs !! g -> fs !! g = Some x ->
  exists r, fs' !! g = Some (set_next r x).
Proof.
  intros H Hx. rewrite Hx in H. destruct (fs' !! g) as [x'|]; [|done]. exists (next x').
  unfold drop_next, set_next in *. destruct x, x'. cbn in *. congruence.
Qed.

Lemma drop_next_fmap {A} (h : MalFiber -> A) (fs fs' : gmap Z MalFiber) g :
  (forall x, h (drop_next x) = h x) -> drop_next <$> fs' !! g = drop_next <$> fs !! g ->
  h <$> fs' !! g = h <$> fs !! g.
Proof.
  intros Hh E. assert (forall o : option MalFiber, h <$> o = h <$> (drop_next <$> o)) as Ho.
  { intros [x|]; [|done]. cbn. by rewrite Hh. }
  by rewrite (Ho (fs' !! g)), E, <- Ho.
Qed.

(** The walk reaches the fiber and redirects the link before it. *)
Lemma unlink_walk f w l2 : forall mid p fuel x,
  linked next (fibers w) (p :: mid ++ f :: l2) -> f ∉ mid -> fibers w !! f = Some x ->
  (length mid < fuel)%nat ->
  exists p' y, last (p :: mid) = Some p' /\ fibers w !! p' = Some y /\
    unlink_loop fuel f (Some p) (head (mid ++ f :: l2)) w
    = Ret (with_fibers (<[p' := set_next (next x) y]> (fibers w)) w).
Proof.
  induction mid as [|m mid IH]; intros p fuel x Hl Hf Hx Hfuel; (destruct fuel as [|fuel]; [cbn in *; lia|]).
  - apply linked_cons in Hl as [(y & Hy & _) _]. exists p, y. split_and!; [done..|].
    cbn [app head unlink_loop]. rewrite Z.eqb_refl. unfold deref at 1. rewrite Hx. cbn [mbind outcome_bind].
    by apply modify_ok.
  - apply linked_cons in Hl as [_ Hl]. apply not_elem_of_cons in Hf as [Hm Hf].
    destruct (IH m fuel x Hl Hf Hx) as (p' & y & E1 & E2 & E3); [cbn in Hfuel; lia|].
    exists p', y. split_and!; [by rewrite last_cons_cons|done|].
    cbn [app head unlink_loop]. destruct (Z.eqb_spec m f) as [->|]; [done|].
    apply linked_cons in Hl as [(z & Hz & Ez) _]. unfold deref at 1. rewrite Hz. cbn [mbind outcome_bind].
    by rewrite Ez.
Qed.

(** Unlinking: the list loses the fiber, nothing but links changes. *)
Lemma unlink_ok w all f x :
  list_ok w all -> fibers w !! f = Some x ->
  exists l1 l2 fs h, all = l1 ++ f :: l2 /\
    unlink_loop (S (size (fibers w))) f None (fibers_head w) w = Ret (with_head h (with_fibers fs w)) /\
    linked next fs (l1 ++ l2) /\ h = head (l1 ++ l2) /\
    (forall g, drop_next <$> fs !! g = drop_next <$> fibers w !! g).
Proof.
  intros Hok Hx. pose proof (all_size _ _ Hok) as Hsz. destruct Hok as [Hl Hh Hn Hd].
  destruct (list_elem_of_split all f) as (l1 & l2 & ->); [apply Hd; by eexists|].
  exists l1, l2. rewrite Hh, <- Hsz. destruct l1 as [|a l1].
  - exists (fibers w), (head l2). split_and!; [done| | |done|done].
    + cbn [app head length unlink_loop]. rewrite Z.eqb_refl. unfold deref. rewrite Hx. cbn [mbind outcome_bind].
      apply linked_cons in Hl as [(x' & Hx' & E) _]. assert (x' = x) as -> by congruence. rewrite E.
      by destruct w.
    + by apply linked_cons in Hl as [_ Hl].
  - cbn [app] in *. apply NoDup_cons in Hn as [Ha Hn'].
    assert (f ∉ l1) as Hf1.
    { apply NoDup_app in Hn' as (_ & Hdis & _). intros H. apply (Hdis f H). apply list_elem_of_here. }
    destruct (unlink_walk f w l2 l1 a (S (length (l1 ++ f :: l2))) x Hl Hf1 Hx) as (p & y & Ep & Hy & Er);
      [rewrite length_app; cbn; lia|].
    exists (<[p := set_next (next x) y]> (fibers w)), (Some a). split_and!; [done| |..].
    + cbn [head length]. remember (S (length (l1 ++ f :: l2))) as n eqn:En. clear En.
      cbn [unlink_loop]. destruct (Z.eqb_spec a f) as [->|].
      { destruct Ha. apply elem_of_app. right. apply list_elem_of_here. }
      apply linked_cons in Hl as [(z & Hz & Ez) _]. unfold deref at 1. rewrite Hz. cbn [mbind outcome_bind].
      rewrite Ez, Er. f_equal. unfold with_head, with_fibers. cbn. by rewrite Hh.
    + apply last_Some in Ep as [l' El]. change (a :: l1 ++ l2) with ((a :: l1) ++ l2).
      change (a :: l1 ++ f :: l2) with ((a :: l1) ++ f :: l2) in Hl.
      assert (NoDup ((a :: l1) ++ f :: l2)) as Hn by (by apply NoDup_cons).
      rewrite El, <- app_assoc in *.
      by apply (linked_unlink next (fibers w) l' p f l2 x y).
    + done.
    + intros g. by apply drop_next_insert.
Qed.

(** Reaping a worker: off the list, its stack unmapped, its record freed. *)
Lemma destroy_ok w all f x b :
  list_ok w all -> fibers w !! f = Some x -> is_main x = false ->
  stack_base x = Some b -> stacks w !! b = Some (stack_size x) ->
  exists w' all', mal_fiber_destroy f w = Ret w' /\ list_ok w' all' /\
    fibers w' !! f = None /\
    (forall g, g <> f -> drop_next <$> fibers w' !! g = drop_next <$> fibers w !! g) /\
    stacks w' = delete b (stacks w) /\ vm_exec w' = vm_exec w /\ vm_current_fiber w' = vm_current_fiber w /\
    main_fiber w' = main_fiber w /\ current w' = current w /\ run_head w' = run_head w /\
    run_tail w' = run_tail w /\ default_budget w' = default_budget w.
Proof.
  intros Hok Hx Hm Hb Hs. destruct (unlink_ok w all f x Hok Hx) as (l1 & l2 & fs & h & -> & E & Hl & Hh & Hfs).
  destruct (drop_next_lookup _ _ _ _ (Hfs f) Hx) as (r & Hr). destruct Hok as [_ _ Hn Hd].
  assert (f ∉ l1 ++ l2) as Hf.
  { rewrite <- Permutation_middle in Hn. by apply NoDup_cons in Hn as [? _]. }
  exists (with_stacks (delete b (stacks w)) (with_head h (with_fibers (delete f fs) w))), (l1 ++ l2).
  split_and!; try done.
  - unfold mal_fiber_destroy. rewrite E. cbn [mbind outcome_bind]. unfold deref.
    cbn [fibers with_head with_fibers]. rewrite Hr. cbn [mbind outcome_bind].
    unfold unmap_stack. cbn [stack_base set_next stack_size is_main]. rewrite Hb.
    cbn [stacks with_head with_fibers]. rewrite Hs, Z.eqb_refl. cbn [mbind outcome_bind]. by rewrite Hm.
  - split.
    + by apply linked_delete.
    + done.
    + rewrite <- Permutation_middle in Hn. by apply NoDup_cons in Hn as [_ ?].
    + intros g. cbn [fibers with_stacks with_head with_fibers]. destruct (decide (g = f)) as [->|Hg].
      * rewrite lookup_delete_eq. split; [done|]. by intros [].
      * rewrite lookup_delete_ne by done.
        assert (g ∈ l1 ++ l2 <-> g ∈ l1 ++ f :: l2) as ->.
        { rewrite !elem_of_app, elem_of_cons. tauto. }
        rewrite (Hd g). specialize (Hfs g). split; intros [z Hz]; rewrite Hz in Hfs.
        -- by destruct (fs !! g).
        -- by destruct (fibers w !! g).
  - apply lookup_delete_eq.
  - intros g Hg. cbn [fibers with_stacks with_head with_fibers]. by rewrite lookup_delete_ne.
Qed.
