(* ===== verification/SchedulerRefine.v ===== *)
(** The scheduler refines a machine without pointers: a list of ready fibers, the
    running fiber with what is left of its quantum, and one execution slice per
    fiber that no other fiber touches. *)

From stdpp Require Import gmap.
From S2P Require Import Prelude Value Linked Scheduler SchedulerSpec.

(** * The abstract machine *)

Record Spec : Type := mkSpec {
  s_main : Z;
  s_quantum : Z;
  s_ready : list Z;
  s_running : Z;
  s_left : Z;
  s_slices : gmap Z MalFiberExec;
}.

Definition spec_to_main (ready : list Z) (slices : gmap Z MalFiberExec) (s : Spec) : Spec :=
  mkSpec (s_main s) (s_quantum s) ready (s_main s) (s_left s) slices.

(** A fiber that is neither running, nor the main one, nor ready waits for a wake. *)
Definition spec_waiting (s : Spec) (f : Z) : bool :=
  negb (bool_decide (f = s_running s)) && negb (bool_decide (f = s_main s))
  && negb (bool_decide (f ∈ s_ready s)).

Definition spec_yield (s : Spec) : Spec := spec_to_main (s_ready s ++ [s_running s]) (s_slices s) s.

Definition spec_step (page : Z) (s : Spec) (e : event) : Spec :=
  match e with
  | EDispatch =>
      match s_ready s with
      | [] => s
      | f :: ready => mkSpec (s_main s) (s_quantum s) ready f (s_quantum s) (s_slices s)
      end
  | EWork x =>
      mkSpec (s_main s) (s_quantum s) (s_ready s) (s_running s) (s_left s) (<[s_running s := x]> (s_slices s))
  | ESafepoint =>
      if s_running s =? s_main s then s
      else if 0 <? s_left s then
        mkSpec (s_main s) (s_quantum s) (s_ready s) (s_running s) (s_left s - 1) (s_slices s)
      else spec_yield s
  | ESpawn a =>
      match a_base a, s_slices s !! s_running s with
      | Some base, Some x =>
          mkSpec (s_main s) (s_quantum s) (s_ready s ++ [a_fiber a]) (s_running s) (s_left s)
            (<[a_fiber a := fresh_exec page base MAL_FIBER_DEFAULT_VALUE_STACK a x]> (s_slices s))
      | _, _ => s
      end
  | EWake f =>
      if spec_waiting s f then
        mkSpec (s_main s) (s_quantum s) (s_ready s ++ [f]) (s_running s) (s_left s) (s_slices s)
      else s
  | EYield => spec_yield s
  | EBlock => spec_to_main (s_ready s) (s_slices s) s
  | EExit => spec_to_main (s_ready s) (delete (s_running s) (s_slices s)) s
  end.

Fixpoint spec_run (page : Z) (s : Spec) (es : list event) : Spec :=
  match es with [] => s | e :: es => spec_run page (spec_step page s e) es end.

Definition spec_init (main : Z) (x : MalFiberExec) : Spec :=
  mkSpec main MAL_SCHED_DEFAULT_BUDGET [] main 0 {[ main := x ]}.

(** * The invariant *)

(** The fields of a fiber the scheduler never writes after its creation. *)
Definition static_fields (x : MalFiber) : bool * option Z * Z := (is_main x, stack_base x, stack_size x).

(** What holds of ownership: the fiber list is the heap, the main fiber is the
    one without a stack, every mapped stack has one owner. *)
Record static_ok (w : SchedWorld) (all : list Z) : Prop := {
  so_list : list_ok w all;
  so_main : is_Some (fibers w !! main_fiber w);
  so_is_main : forall f x, fibers w !! f = Some x -> is_main x = true <-> f = main_fiber w;
  so_stack : forall f x, fibers w !! f = Some x -> f <> main_fiber w ->
    exists b, stack_base x = Some b /\ stacks w !! b = Some (stack_size x);
  so_no_stack : forall x, fibers w !! main_fiber w = Some x -> stack_base x = None;
  so_inj : forall f g x y b, fibers w !! f = Some x -> fibers w !! g = Some y ->
    stack_base x = Some b -> stack_base y = Some b -> f = g;
  so_owned : forall b n, stacks w !! b = Some n ->
    exists f x, fibers w !! f = Some x /\ stack_base x = Some b;
}.

(** What holds of the states, relative to the queue contents. *)
Record states_ok (w : SchedWorld) (q : list Z) : Prop := {
  st_runnable : forall f x, fibers w !! f = Some x -> state x = MAL_FIBER_RUNNABLE <-> f ∈ q;
  st_running : forall f x, fibers w !! f = Some x ->
    state x = MAL_FIBER_RUNNING <-> f = current w \/ f = main_fiber w;
  st_live : forall f x, fibers w !! f = Some x ->
    state x <> MAL_FIBER_NEW /\ state x <> MAL_FIBER_FINISHED;
  st_budget : forall f x, fibers w !! f = Some x -> 0 <= reductions_left x <= default_budget w;
  st_current : is_Some (fibers w !! current w);
  st_vm : vm_current_fiber w = current w;
}.

Record sched_ok (w : SchedWorld) (q all : list Z) : Prop := {
  ok_static : static_ok w all;
  ok_states : states_ok w q;
  ok_queue : queue_ok w q;
}.

(** What the world stands for. *)
Record stands_for (w : SchedWorld) (s : Spec) : Prop := {
  sf_main : s_main s = main_fiber w;
  sf_quantum : s_quantum s = default_budget w;
  sf_running : s_running s = current w;
  sf_left : s_running s <> s_main s ->
    exists x, fibers w !! current w = Some x /\ reductions_left x = s_left s;
  sf_slices : forall f, s_slices s !! f
    = if decide (f = current w) then Some (vm_exec w) else exec <$> fibers w !! f;
}.

Definition represents (w : SchedWorld) (s : Spec) : Prop :=
  (exists all, sched_ok w (s_ready s) all) /\ stands_for w s.

(** * Frame lemmas *)

Lemma static_ok_frame w w' all :
  list_ok w' all -> stacks w' = stacks w -> main_fiber w' = main_fiber w ->
  (forall f, static_fields <$> fibers w' !! f = static_fields <$> fibers w !! f) ->
  static_ok w all -> static_ok w' all.
Proof.
  intros Hl Es Em Hf [_ H1 H2 H3 H4 H5 H6].
  assert (forall f x', fibers w' !! f = Some x' -> exists x, fibers w !! f = Some x /\
    is_main x' = is_main x /\ stack_base x' = stack_base x /\ stack_size x' = stack_size x) as Hb.
  { intros f x' Hx. specialize (Hf f). rewrite Hx in Hf. destruct (fibers w !! f) as [x|]; [|done].
    cbn in Hf. injection Hf as -> -> ->. by exists x. }
  split; rewrite ?Em, ?Es; try done.
  - destruct H1 as [x Hx]. specialize (Hf (main_fiber w)). rewrite Hx in Hf.
    destruct (fibers w' !! main_fiber w); [by eexists|done].
  - intros f x' (x & Hx & -> & _ & _)%Hb. by apply H2.
  - intros f x' (x & Hx & _ & -> & ->)%Hb. by apply H3.
  - intros x' (x & Hx & _ & -> & _)%Hb. by apply H4.
  - intros f g x' y' b (x & Hx & _ & -> & _)%Hb (y & Hy & _ & -> & _)%Hb. intros E1 E2. exact (H5 f g x y b Hx Hy E1 E2).
  - intros b n (f & x & Hx & E)%H6. pose proof (Hf f) as Hff. rewrite Hx in Hff.
    destruct (fibers w' !! f) as [x'|] eqn:Hx'; [|done]. exists f, x'. split; [done|].
    destruct (Hb f x' Hx') as (x2 & Hx2 & _ & -> & _). congruence.
Qed.

Lemma same_sched_lookup w w' g x' :
  same_sched w w' -> fibers w' !! g = Some x' -> exists x r, fibers w !! g = Some x /\ x' = set_rq_next r x.
Proof.
  intros (H & _) Hx. specialize (H g). rewrite Hx in H. destruct (fibers w !! g) as [x|]; [|done].
  exists x, (rq_next x'). split; [done|]. unfold set_rq_next in *. destruct x, x'. cbn in *. congruence.
Qed.

Lemma same_sched_fmap {A} (h : MalFiber -> A) w w' g :
  (forall r x, h (set_rq_next r x) = h x) -> same_sched w w' -> h <$> fibers w' !! g = h <$> fibers w !! g.
Proof.
  intros Hh Hs. destruct (fibers w !! g) as [x|] eqn:Hx.
  - destruct Hs as [Hs _]. destruct (same_but_rq_lookup _ _ _ _ Hs Hx) as (r & ->). cbn. by rewrite Hh.
  - destruct (fibers w' !! g) as [x'|] eqn:Hx'; [|done].
    destruct (same_sched_lookup _ _ _ _ Hs Hx') as (x & r & ? & _). congruence.
Qed.

(** A step that moves queue links only keeps the rest of the invariant. *)
Lemma static_ok_queue w w' all : same_sched w w' -> static_ok w all -> static_ok w' all.
Proof.
  intros Hs Hok. pose proof Hs as (_ & Es & _ & _ & Eh & Em & _).
  apply (static_ok_frame w); [|done..|by intros f; apply same_sched_fmap|done].
  apply (list_ok_same w); [done| | |by apply so_list].
  - intros g x Hx. destruct Hs as [Hs _]. destruct (same_but_rq_lookup _ _ _ _ Hs Hx) as (r & ->). by eexists.
  - intros g [x Hx]. destruct (same_sched_lookup _ _ _ _ Hs Hx) as (y & r & -> & _). by eexists.
Qed.

Lemma states_ok_queue w w' q : same_sched w w' -> states_ok w q -> states_ok w' q.
Proof.
  intros Hs [H1 H2 H3 H4 H5 H6]. pose proof Hs as (Hq & _ & _ & Ev & _ & Em & Ec & Eb).
  split; rewrite ?Em, ?Ec, ?Eb, ?Ev; try done.
  1-4: intros f x' Hx; destruct (same_sched_lookup _ _ _ _ Hs Hx) as (x & r & Hx2 & ->); cbn; eauto.
  destruct H5 as [x Hx]. destruct (same_but_rq_lookup _ _ _ _ Hq Hx) as (r & ->). by eexists.
Qed.

Lemma stands_for_queue w w' s : same_sched w w' -> stands_for w s -> stands_for w' s.
Proof.
  intros Hs [H1 H2 H3 H4 H5]. pose proof Hs as (Hq & _ & Ex & _ & _ & Em & Ec & Eb).
  split; rewrite ?Em, ?Ec, ?Eb, ?Ex; try done.
  - intros Hn. destruct (H4 Hn) as (x & Hx & E). destruct (same_but_rq_lookup _ _ _ _ Hq Hx) as (r & ->).
    by eexists.
  - intros f. rewrite H5. case_decide; [done|]. symmetry. by apply same_sched_fmap.
Qed.

(** Enqueueing a fiber whose state already says runnable. *)
Lemma enqueue_represents w all q f s :
  static_ok w all -> states_ok w (q ++ [f]) -> queue_ok w q -> f ∉ q -> is_Some (fibers w !! f) ->
  stands_for w s -> s_ready s = q ++ [f] ->
  exists w', mal_sched_enqueue f w = Ret w' /\ represents w' s.
Proof.
  intros H1 H2 H3 Hf [x Hx] H4 E. destruct (enqueue_ok w q f x H3 Hf Hx) as (w' & Er & Hq & Hs).
  exists w'. split; [done|]. split; [|by apply (stands_for_queue w)]. exists all. rewrite E.
  split; [by apply (static_ok_queue w)|by apply (states_ok_queue w)|done].
Qed.

(** A write to one fiber that keeps its links and its fixed fields. *)
Lemma static_ok_update w w' all f x y :
  fibers w !! f = Some x -> fibers w' = <[f := y]> (fibers w) ->
  static_fields y = static_fields x -> next y = next x ->
  stacks w' = stacks w -> main_fiber w' = main_fiber w -> fibers_head w' = fibers_head w ->
  static_ok w all -> static_ok w' all.
Proof.
  intros Hx Ef Ey En Es Em Eh Hok. apply (static_ok_frame w); [|done..| |done].
  - apply (list_ok_same w); [done| | |by apply so_list]; rewrite Ef.
    + intros g z Hz. destruct (decide (g = f)) as [->|].
      * exists y. rewrite lookup_insert_eq. split; [done|]. congruence.
      * exists z. by rewrite lookup_insert_ne.
    + intros g. destruct (decide (g = f)) as [->|]; [by rewrite Hx|by rewrite lookup_insert_ne].
  - intros g. rewrite Ef. destruct (decide (g = f)) as [->|]; [|by rewrite lookup_insert_ne].
    rewrite lookup_insert_eq, Hx. cbn. by rewrite Ey.
Qed.

Lemma queue_ok_update w w' q f x y :
  fibers w !! f = Some x -> fibers w' = <[f := y]> (fibers w) -> rq_next y = rq_next x ->
  run_head w' = run_head w -> run_tail w' = run_tail w -> queue_ok w q -> queue_ok w' q.
Proof.
  intros Hx Ef Er Eh Et [H1 H2 H3 H4]. split; [|congruence..|done]. rewrite Ef. by eapply linked_insert.
Qed.

(** * Leaving a worker *)

Lemma copy_exec_id x : copy_exec x = x.
Proof. by destruct x. Qed.

Lemma switch_ok from to w x y :
  fibers w !! from = Some x -> fibers w !! to = Some y -> from <> to ->
  mal_sched_switch from to w
  = Ret (with_current to (with_vm (exec y) to (with_fibers (<[from := set_exec (vm_exec w) x]> (fibers w)) w))).
Proof.
  intros Hx Hy Hn. unfold mal_sched_switch, mal_fiber_save_exec. rewrite (modify_ok _ _ _ _ Hx).
  cbn [mbind outcome_bind]. unfold mal_fiber_load_exec, deref. cbn [fibers with_fibers].
  rewrite lookup_insert_ne, Hy by done. cbn [mbind outcome_bind]. by rewrite !copy_exec_id.
Qed.

(** The world behind the switch of [leave]. *)
Definition left_world (st : MalFiberState) (w : SchedWorld) (x y : MalFiber) : SchedWorld :=
  with_current (main_fiber w) (with_vm (exec y) (main_fiber w)
    (with_fibers (<[current w := set_exec (vm_exec w) (set_state st x)]> (fibers w)) w)).

Section Leave.
Context (w : SchedWorld) (q all : list Z) (s : Spec) (x y : MalFiber).
Hypotheses (Hok : sched_ok w q all) (Hs : stands_for w s) (Hw : current w <> main_fiber w)
  (Hx : fibers w !! current w = Some x) (Hy : fibers w !! main_fiber w = Some y).

Lemma leave_settle st : leave st w = run_settle (current w) (left_world st w x y).
Proof.
  unfold leave. rewrite (modify_ok _ _ _ _ Hx). cbn [mbind outcome_bind].
  rewrite (switch_ok _ _ _ (set_state st x) y); [| | |done].
  - cbn [mbind outcome_bind fibers with_fibers vm_exec main_fiber]. by rewrite insert_insert_eq.
  - apply lookup_insert_eq.
  - cbn [fibers with_fibers main_fiber]. by rewrite lookup_insert_ne.
Qed.

Lemma left_current st :
  fibers (left_world st w x y) !! current w = Some (set_exec (vm_exec w) (set_state st x)).
Proof. apply lookup_insert_eq. Qed.
Lemma left_other st f : f <> current w -> fibers (left_world st w x y) !! f = fibers w !! f.
Proof. intros Hf. cbn. by rewrite lookup_insert_ne. Qed.

Lemma left_static st : static_ok (left_world st w x y) all.
Proof. by eapply static_ok_update; [exact Hx|done..|apply Hok]. Qed.

Lemma left_queue st : queue_ok (left_world st w x y) q.
Proof. by eapply queue_ok_update; [exact Hx|done..|apply Hok]. Qed.

Lemma left_not_queued : current w ∉ q.
Proof.
  intros H. destruct Hok as [_ [H1 H2 _ _ _ _] _]. apply (H1 _ _ Hx) in H.
  assert (state x = MAL_FIBER_RUNNING) by (apply (H2 _ _ Hx); by left). congruence.
Qed.

(** Every other fiber keeps its state relative to the new current fiber. *)
Lemma left_states_other st f z :
  f <> current w -> fibers (left_world st w x y) !! f = Some z ->
  (state z = MAL_FIBER_RUNNABLE <-> f ∈ q) /\
  (state z = MAL_FIBER_RUNNING <-> f = main_fiber w) /\
  (state z <> MAL_FIBER_NEW /\ state z <> MAL_FIBER_FINISHED) /\
  0 <= reductions_left z <= default_budget w.
Proof.
  intros Hf Hz. rewrite left_other in Hz by done. destruct Hok as [_ [H1 H2 H3 H4 _ _] _].
  split_and!; [by apply H1| |by apply H3 with f|by apply H3 with f|by eapply H4..].
  rewrite (H2 _ _ Hz). tauto.
Qed.

Lemma left_states st q' :
  st <> MAL_FIBER_NEW -> st <> MAL_FIBER_FINISHED -> st <> MAL_FIBER_RUNNING ->
  (st = MAL_FIBER_RUNNABLE <-> current w ∈ q') -> (forall f, f <> current w -> f ∈ q' <-> f ∈ q) ->
  states_ok (left_world st w x y) q'.
Proof.
  intros N1 N2 N3 Hc Hq. pose proof (st_budget _ _ (ok_states _ _ _ Hok) _ _ Hx) as Hb.
  split; cbn [current main_fiber default_budget left_world with_current with_vm with_fibers vm_current_fiber].
  1-4: intros f z Hz; destruct (decide (f = current w)) as [->|Hf];
    [rewrite left_current in Hz; injection Hz as <-; cbn
    |destruct (left_states_other st f z Hf Hz) as (S1 & S2 & S3 & S4)].
  - done.
  - by rewrite Hq.
  - split; [done|]. tauto.
  - rewrite S2. tauto.
  - done.
  - done.
  - done.
  - done.
  - rewrite left_other by done. by eexists.
  - done.
Qed.

Lemma left_stands st ready : stands_for (left_world st w x y) (spec_to_main ready (s_slices s) s).
Proof.
  destruct Hs as [H1 H2 H3 H4 H5]. split; cbn [spec_to_main s_main s_quantum s_running s_slices]; try done.
  intros f. rewrite H5.
  change (current (left_world st w x y)) with (main_fiber w).
  change (vm_exec (left_world st w x y)) with (exec y).
  destruct (decide (f = current w)) as [->|Hf].
  - rewrite decide_False by done. by rewrite left_current.
  - rewrite (left_other st f Hf). case_decide as Hm; [|done]. by rewrite Hm, Hy.
Qed.
End Leave.

(** * The steps *)

Lemma on_main_false w : on_main w = false -> current w <> main_fiber w.
Proof. unfold on_main. intros H. by apply Z.eqb_neq in H. Qed.

Lemma current_fibers w q all :
  sched_ok w q all ->
  exists x y, fibers w !! current w = Some x /\ fibers w !! main_fiber w = Some y.
Proof. intros [[_ [y Hy] _ _ _ _ _] [_ _ _ _ [x Hx] _] _]. by exists x, y. Qed.

Lemma yield_step w s :
  represents w s -> current w <> main_fiber w ->
  exists w', mal_sched_yield w = Ret w' /\ represents w' (spec_yield s).
Proof.
  intros [[all Hok] Hs] Hw. destruct (current_fibers _ _ _ Hok) as (x & y & Hx & Hy).
  pose proof (left_not_queued _ _ _ _ Hok Hx) as Hnq.
  unfold mal_sched_yield. rewrite (leave_settle w x y Hw Hx Hy).
  unfold run_settle, deref. rewrite left_current. cbn [mbind outcome_bind state set_exec set_state].
  apply (enqueue_represents _ all (s_ready s)).
  - by apply (left_static w (s_ready s)).
  - apply (left_states w (s_ready s) all); try done.
    + split; [|done]. intros _. apply elem_of_app. right. by apply list_elem_of_singleton.
    + intros f Hf. rewrite elem_of_app, list_elem_of_singleton. tauto.
  - by apply (left_queue w (s_ready s) all).
  - done.
  - rewrite left_current. by eexists.
  - by apply left_stands.
  - cbn. by rewrite (sf_running _ _ Hs).
Qed.

Lemma block_step w s :
  represents w s -> current w <> main_fiber w ->
  exists w', mal_sched_block w = Ret w' /\ represents w' (spec_step 0 s EBlock).
Proof.
  intros [[all Hok] Hs] Hw. destruct (current_fibers _ _ _ Hok) as (x & y & Hx & Hy).
  pose proof (left_not_queued _ _ _ _ Hok Hx) as Hnq.
  unfold mal_sched_block. rewrite (leave_settle w x y Hw Hx Hy).
  unfold run_settle, deref. rewrite left_current. cbn [mbind outcome_bind state set_exec set_state].
  eexists. split; [done|]. split; [|by apply left_stands]. exists all. split.
  - by apply (left_static w (s_ready s)).
  - by apply (left_states w (s_ready s) all).
  - by apply (left_queue w (s_ready s) all).
Qed.

(** Reaping the fiber that exited. *)
Lemma static_ok_destroy w w' all all' f x b :
  static_ok w all -> fibers w !! f = Some x -> f <> main_fiber w -> stack_base x = Some b ->
  list_ok w' all' -> fibers w' !! f = None ->
  (forall g, g <> f -> drop_next <$> fibers w' !! g = drop_next <$> fibers w !! g) ->
  stacks w' = delete b (stacks w) -> main_fiber w' = main_fiber w -> static_ok w' all'.
Proof.
  intros [_ H1 H2 H3 H4 H5 H6] Hx Hm Hb Hl Hf Hg Es Em.
  assert (forall g z, fibers w' !! g = Some z -> g <> f /\ exists z' r, fibers w !! g = Some z' /\ z = set_next r z') as Hz.
  { intros g z Hz. assert (g <> f) as Hn by congruence. split; [done|].
    specialize (Hg g Hn). rewrite Hz in Hg. destruct (fibers w !! g) as [z'|] eqn:Ez; [|done].
    exists z', (next z). split; [done|]. unfold drop_next, set_next in *. destruct z, z'. cbn in *. congruence. }
  split; rewrite ?Em, ?Es; try done.
  - destruct H1 as [y Hy]. destruct (drop_next_lookup _ _ _ _ (Hg _ (not_eq_sym Hm)) Hy) as (r & ->). by eexists.
  - intros g z Hgz. destruct (Hz g z Hgz) as (_ & z' & r & Hz' & ->). exact (H2 g z' Hz').
  - intros g z Hgz Hgm. destruct (Hz g z Hgz) as (Hgf & z' & r & Hz' & ->).
    destruct (H3 g z' Hz' Hgm) as (b' & E1 & E2). exists b'. split; [done|]. cbn.
    rewrite lookup_delete_ne; [done|]. intros <-. apply Hgf. by apply (H5 g f z' x b).
  - intros z Hgz. destruct (Hz _ z Hgz) as (_ & z' & r & Hz' & ->). exact (H4 z' Hz').
  - intros g1 g2 z1 z2 b' Hz1 Hz2. destruct (Hz _ _ Hz1) as (_ & z1' & r1 & ? & ->).
    destruct (Hz _ _ Hz2) as (_ & z2' & r2 & ? & ->). cbn. intros. by apply (H5 g1 g2 z1' z2' b').
  - intros b' n Hb'. apply lookup_delete_Some in Hb' as [Hbb Hb']. destruct (H6 _ _ Hb') as (g & z & Hgz & Ez).
    assert (g <> f) as Hgf by (intros ->; congruence).
    destruct (drop_next_lookup _ _ _ _ (Hg _ Hgf) Hgz) as (r & Hr). exists g. by eexists.
Qed.

Lemma exit_step w s :
  represents w s -> current w <> main_fiber w ->
  exists w', mal_sched_fiber_exit w = Ret w' /\ represents w' (spec_step 0 s EExit).
Proof.
  intros [[all Hok] Hs] Hw. destruct (current_fibers _ _ _ Hok) as (x & y & Hx & Hy).
  pose proof (left_not_queued _ _ _ _ Hok Hx) as Hnq.
  unfold mal_sched_fiber_exit. rewrite (leave_settle w x y Hw Hx Hy).
  unfold run_settle, deref. rewrite left_current. cbn [mbind outcome_bind state set_exec set_state].
  pose proof (left_static w _ _ x y Hok Hx MAL_FIBER_FINISHED) as Hst.
  pose proof (left_current w x y MAL_FIBER_FINISHED) as Hlc.
  destruct (so_stack _ _ Hst _ _ Hlc Hw) as (b & Eb & Es).
  destruct (destroy_ok _ all _ _ b (so_list _ _ Hst) Hlc) as (w' & all' & Er & Hl & Hn & Hg & E1 & E2 & E3 & E4 & E5 & E6 & E7 & E8);
    [|done..|].
  { destruct (is_main _) eqn:E; [|done]. by apply (so_is_main _ _ Hst _ _ Hlc) in E. }
  exists w'. split; [done|].
  assert (forall g z, fibers w' !! g = Some z -> g <> current w /\ exists z' r, fibers w !! g = Some z' /\ z = set_next r z') as Hz.
  { intros g z Hz. assert (g <> current w) as Hne by congruence. split; [done|]. specialize (Hg g Hne).
    rewrite Hz, left_other in Hg by done. destruct (fibers w !! g) as [z'|] eqn:Ez; [|done].
    exists z', (next z). split; [done|]. unfold drop_next, set_next in *. destruct z, z'. cbn in *. congruence. }
  split.
  - exists all'. split.
    + by eapply static_ok_destroy.
    + split; rewrite ?E3, ?E4, ?E5, ?E8.
      1-4: intros g z Hgz; destruct (Hz g z Hgz) as (Hgc & z' & r & Hz' & ->);
        rewrite <- (left_other w x y MAL_FIBER_FINISHED g Hgc) in Hz';
        destruct (left_states_other w (s_ready s) all x y Hok MAL_FIBER_FINISHED g z' Hgc Hz') as (S1 & S2 & S3 & S4);
        cbn; try done.
      * rewrite S2. tauto.
      * cbn. rewrite <- (left_other w x y MAL_FIBER_FINISHED) in Hy by done.
        destruct (drop_next_lookup _ _ _ _ (Hg _ (not_eq_sym Hw)) Hy) as (r & Hr). rewrite Hr. by eexists.
      * done.
    + pose proof (left_queue w _ _ x y Hok Hx MAL_FIBER_FINISHED) as [Q1 Q2 Q3 Q4].
      split; [|by rewrite E6|by rewrite E7|done]. eapply linked_ext; [|exact Q1].
      intros g z Hgq Hgz. assert (g <> current w) as Hgc by (by intros ->).
      destruct (drop_next_lookup _ _ _ _ (Hg _ Hgc) Hgz) as (r & Hr). exists (set_next r z). by split.
  - pose proof (left_stands w s x y Hs Hw Hy MAL_FIBER_FINISHED (s_ready s)) as [F1 F2 F3 F4 F5].
    cbn [spec_to_main s_slices] in F5.
    split; rewrite ?E2, ?E4, ?E5, ?E8; try done. intros g. cbn [spec_step spec_to_main s_slices].
    rewrite (sf_running _ _ Hs). destruct (decide (g = current w)) as [->|Hgc].
    + rewrite lookup_delete_eq, Hn. cbn. by rewrite decide_False.
    + rewrite lookup_delete_ne by done. rewrite (F5 g). case_decide; [done|].
      symmetry. apply drop_next_fmap; [done|by apply Hg].
Qed.

(** * Entering a worker *)

Definition entered_fiber (w : SchedWorld) (x : MalFiber) : MalFiber :=
  set_state MAL_FIBER_RUNNING (set_reductions (default_budget w) x).
(** The world behind the switch of a dispatch. *)
Definition entered_world (f : Z) (w : SchedWorld) (x y : MalFiber) : SchedWorld :=
  with_current f (with_vm (exec x) f
    (with_fibers (<[main_fiber w := set_exec (vm_exec w) y]> (<[f := entered_fiber w x]> (fibers w))) w)).

Section Enter.
Context (w : SchedWorld) (f : Z) (q all : list Z) (s : Spec) (x y : MalFiber).
Hypotheses (Hst : static_ok w all) (Hss : states_ok w (f :: q)) (Hq : queue_ok w q) (Hs : stands_for w s)
  (Hc : current w = main_fiber w) (Hx : fibers w !! f = Some x) (Hy : fibers w !! main_fiber w = Some y)
  (Hfq : f ∉ q).

Lemma entered_runnable : state x = MAL_FIBER_RUNNABLE.
Proof. apply (st_runnable _ _ Hss _ _ Hx). apply list_elem_of_here. Qed.

Lemma entered_not_main : f <> main_fiber w.
Proof.
  intros E. assert (state x = MAL_FIBER_RUNNING) as H by (apply (st_running _ _ Hss _ _ Hx); by right).
  rewrite entered_runnable in H. done.
Qed.

Lemma entered_lookup g :
  fibers (entered_world f w x y) !! g
  = if decide (g = f) then Some (entered_fiber w x)
    else if decide (g = main_fiber w) then Some (set_exec (vm_exec w) y) else fibers w !! g.
Proof.
  pose proof entered_not_main. cbn. repeat case_decide; subst.
  - rewrite lookup_insert_ne by done. apply lookup_insert_eq.
  - apply lookup_insert_eq.
  - by rewrite !lookup_insert_ne.
Qed.

Lemma entered_static : static_ok (entered_world f w x y) all.
Proof.
  apply (static_ok_update (with_fibers (<[f := entered_fiber w x]> (fibers w)) w) _ all (main_fiber w) y
    (set_exec (vm_exec w) y)); try done.
  - cbn. rewrite lookup_insert_ne; [done|]. apply entered_not_main.
  - by apply (static_ok_update w _ all f x (entered_fiber w x)).
Qed.

Lemma entered_queue : queue_ok (entered_world f w x y) q.
Proof.
  apply (queue_ok_update (with_fibers (<[f := entered_fiber w x]> (fibers w)) w) _ q (main_fiber w) y
    (set_exec (vm_exec w) y)); try done.
  - cbn. rewrite lookup_insert_ne; [done|]. apply entered_not_main.
  - by apply (queue_ok_update w _ q f x (entered_fiber w x)).
Qed.

(** The state of each fiber after the switch. *)
Lemma entered_cases g z :
  fibers (entered_world f w x y) !! g = Some z ->
  g = f /\ z = entered_fiber w x \/
  g = main_fiber w /\ g <> f /\ z = set_exec (vm_exec w) y \/
  g <> f /\ g <> main_fiber w /\ fibers w !! g = Some z.
Proof.
  rewrite entered_lookup. intros H. case_decide; [injection H as <-; by left|].
  case_decide; [injection H as <-; right; by left|]. right. by right.
Qed.

Lemma entered_states : states_ok (entered_world f w x y) q.
Proof.
  pose proof entered_not_main as Hm. pose proof Hss as [S1 S2 S3 S4 _ _].
  assert (state y = MAL_FIBER_RUNNING) as Hsy by (apply (S2 _ _ Hy); by right).
  assert (main_fiber w ∉ q) as Hmq.
  { intros H. assert (state y = MAL_FIBER_RUNNABLE); [|congruence]. apply (S1 _ _ Hy). by right. }
  assert (0 <= default_budget w) as Hb by (specialize (S4 _ _ Hx); lia).
  split; change (main_fiber (entered_world f w x y)) with (main_fiber w);
    change (current (entered_world f w x y)) with f;
    change (default_budget (entered_world f w x y)) with (default_budget w); try done.
  1-4: intros g z [(-> & ->)|[(-> & Hgf & ->)|(Hgf & Hgm & Hz)]]%entered_cases; cbn; rewrite ?Hsy.
  - done.
  - done.
  - rewrite (S1 _ _ Hz), elem_of_cons. tauto.
  - tauto.
  - tauto.
  - rewrite (S2 _ _ Hz), Hc. tauto.
  - done.
  - done.
  - by apply (S3 g).
  - lia.
  - by apply (S4 (main_fiber w)).
  - by apply (S4 g).
  - rewrite entered_lookup, decide_True by done. by eexists.
Qed.

Lemma entered_stands ready :
  stands_for (entered_world f w x y)
    (mkSpec (s_main s) (s_quantum s) ready f (s_quantum s) (s_slices s)).
Proof.
  destruct Hs as [F1 F2 F3 F4 F5]. pose proof entered_not_main as Hm.
  split; cbn [s_main s_quantum s_running s_left s_slices]; try done.
  - intros _. change (current (entered_world f w x y)) with f. rewrite entered_lookup, decide_True by done.
    by eexists.
  - intros g. rewrite F5, Hc, entered_lookup. change (current (entered_world f w x y)) with f.
    change (vm_exec (entered_world f w x y)) with (exec x).
    repeat case_decide; subst; try done. by rewrite Hx.
Qed.
End Enter.

Lemma dispatch_step w s :
  represents w s -> on_main w = true ->
  exists w', run_dispatch w = Ret (head (s_ready s), w') /\ represents w' (spec_step 0 s EDispatch).
Proof.
  intros [[all Hok] Hs] Hm. apply Z.eqb_eq in Hm. unfold run_dispatch. cbn [spec_step].
  destruct (s_ready s) as [|f q] eqn:Eq.
  { rewrite dequeue_empty by apply Hok. cbn [mbind outcome_bind]. exists w. split; [done|].
    split; [|done]. exists all. by rewrite Eq. }
  destruct Hok as [Hst Hss Hq]. pose proof (qo_nodup _ _ Hq) as [Hfq _]%NoDup_cons.
  destruct (linked_lookup _ _ _ f (qo_linked _ _ Hq)) as [x0 Hx0]; [apply list_elem_of_here|].
  destruct (dequeue_ok w f q Hq) as (w1 & -> & Hq1 & Hsame). cbn [mbind outcome_bind].
  apply (static_ok_queue _ _ _ Hsame) in Hst. apply (states_ok_queue _ _ _ Hsame) in Hss.
  apply (stands_for_queue _ _ _ Hsame) in Hs. destruct Hsame as (Hrq & _ & _ & _ & _ & Em & Ec & _).
  destruct (same_but_rq_lookup _ _ _ _ Hrq Hx0) as (r & Hx). set (x := set_rq_next r x0) in *.
  destruct (so_main _ _ Hst) as [y Hy]. assert (current w1 = main_fiber w1) as Hc by congruence.
  pose proof (entered_runnable _ _ _ _ Hss Hx) as Hsx. pose proof (entered_not_main _ _ _ _ Hss Hx) as Hfm.
  unfold deref at 1. rewrite Hx. cbn [mbind outcome_bind]. rewrite bool_decide_eq_false_2 by congruence.
  rewrite (modify_ok _ _ _ _ Hx). cbn [mbind outcome_bind].
  rewrite (modify_ok _ _ _ (set_reductions (default_budget w1) x)) by apply lookup_insert_eq.
  cbn [mbind outcome_bind fibers with_fibers main_fiber default_budget]. rewrite insert_insert_eq.
  rewrite (switch_ok _ _ _ y (entered_fiber w1 x)); [|cbn; by rewrite lookup_insert_ne|cbn; apply lookup_insert_eq|done].
  exists (entered_world f w1 x y). split; [done|]. split; [exists all; split|].
  - by apply (entered_static w1 f q).
  - by apply (entered_states w1 f q).
  - by apply (entered_queue w1 f q).
  - by apply (entered_stands w1 f q).
Qed.

(** * Waking, working, passing a safepoint *)

Lemma blocked_is_waiting w q all s f x :
  sched_ok w q all -> stands_for w s -> s_ready s = q -> fibers w !! f = Some x ->
  bool_decide (state x = MAL_FIBER_BLOCKED) = spec_waiting s f.
Proof.
  intros [_ [S1 S2 S3 _ _ _] _] [F1 _ F3 _ _] Eq Hx. unfold spec_waiting. rewrite F1, F3, Eq.
  specialize (S1 _ _ Hx). specialize (S2 _ _ Hx). specialize (S3 _ _ Hx).
  apply Bool.eq_iff_eq_true. rewrite bool_decide_eq_true, !andb_true_iff, !negb_true_iff, !bool_decide_eq_false.
  destruct (state x); intuition congruence.
Qed.

(** A state or budget write to a fiber leaves what the world stands for. *)
Lemma stands_for_update w s f x y :
  fibers w !! f = Some x -> exec y = exec x -> (f = current w -> reductions_left y = reductions_left x) ->
  stands_for w s -> stands_for (with_fibers (<[f := y]> (fibers w)) w) s.
Proof.
  intros Hx Ee Er [F1 F2 F3 F4 F5]. split; cbn [main_fiber default_budget current vm_exec fibers with_fibers]; try done.
  - intros Hn. destruct (F4 Hn) as (z & Hz & E). destruct (decide (f = current w)) as [->|].
    + exists y. rewrite lookup_insert_eq. split; [done|]. rewrite (Er eq_refl). congruence.
    + exists z. by rewrite lookup_insert_ne.
  - intros g. rewrite F5. case_decide; [done|]. destruct (decide (g = f)) as [->|]; [|by rewrite lookup_insert_ne].
    rewrite lookup_insert_eq, Hx. cbn. by rewrite Ee.
Qed.

Lemma states_ok_wake w q f x :
  states_ok w q -> fibers w !! f = Some x -> state x = MAL_FIBER_BLOCKED ->
  states_ok (with_fibers (<[f := set_state MAL_FIBER_RUNNABLE x]> (fibers w)) w) (q ++ [f]).
Proof.
  intros [S1 S2 S3 S4 S5 S6] Hx Hb. pose proof (S2 _ _ Hx) as Hr. rewrite Hb in Hr.
  split; cbn [main_fiber default_budget current fibers with_fibers vm_current_fiber]; try done.
  1-4: intros g z; destruct (decide (g = f)) as [->|Hg];
    [rewrite lookup_insert_eq; intros [= <-]; cbn|rewrite lookup_insert_ne by done; intros Hz].
  - rewrite elem_of_app, list_elem_of_singleton. tauto.
  - rewrite elem_of_app, list_elem_of_singleton, (S1 _ _ Hz). tauto.
  - split; [done|]. intros ?%Hr. done.
  - by apply S2.
  - done.
  - by apply (S3 g).
  - by apply (S4 f).
  - by apply (S4 g).
  - destruct (decide (current w = f)) as [->|]; [rewrite lookup_insert_eq; by eexists|by rewrite lookup_insert_ne].
Qed.

Lemma wake_step w s f :
  represents w s -> is_Some (fibers w !! f) ->
  exists w', mal_sched_wake f w = Ret w' /\ represents w' (spec_step 0 s (EWake f)).
Proof.
  intros [[all Hok] Hs] [x Hx]. unfold mal_sched_wake, deref. rewrite Hx. cbn [mbind outcome_bind spec_step].
  rewrite (blocked_is_waiting _ _ _ _ _ _ Hok Hs eq_refl Hx).
  destruct (spec_waiting s f) eqn:Ew; [|exists w; split; [done|]; split; [by exists all|done]].
  rewrite <- (blocked_is_waiting _ _ _ _ _ _ Hok Hs eq_refl Hx) in Ew. apply bool_decide_eq_true in Ew.
  rewrite (modify_ok _ _ _ _ Hx). cbn [mbind outcome_bind]. destruct Hok as [Hst Hss Hq].
  assert (f ∉ s_ready s) as Hf by (intros ?%(st_runnable _ _ Hss _ _ Hx); congruence).
  apply (enqueue_represents _ all (s_ready s)); [| | |done| | |done].
  - by apply (static_ok_update w _ all f x (set_state MAL_FIBER_RUNNABLE x)).
  - by apply states_ok_wake.
  - by apply (queue_ok_update w _ _ f x (set_state MAL_FIBER_RUNNABLE x)).
  - cbn. rewrite lookup_insert_eq. by eexists.
  - destruct (stands_for_update w s f x (set_state MAL_FIBER_RUNNABLE x) Hx eq_refl (fun _ => eq_refl) Hs). by split.
Qed.

Lemma work_step w s x :
  represents w s -> represents (with_vm x (vm_current_fiber w) w) (spec_step 0 s (EWork x)).
Proof.
  intros [[all [[L M1 M2 M3 M4 M5 M6] [S1 S2 S3 S4 S5 S6] [Q1 Q2 Q3 Q4]]] [F1 F2 F3 F4 F5]].
  split; [exists all; split; split; try done|split; try done].
  - destruct L. by split.
  - intros f. cbn [spec_step s_slices]. change (current (with_vm _ _ w)) with (current w). rewrite F3.
    destruct (decide (f = current w)) as [->|]; [by rewrite lookup_insert_eq|].
    rewrite lookup_insert_ne by done. by rewrite F5, decide_False.
Qed.

Lemma safepoint_step w s :
  represents w s -> exists w', mal_sched_preempt w = Ret w' /\ represents w' (spec_step 0 s ESafepoint).
Proof.
  intros Hrep. pose proof Hrep as [[all Hok] Hs]. pose proof Hs as [F1 F2 F3 F4 F5].
  unfold mal_sched_preempt. cbn [spec_step]. rewrite F1, F3.
  destruct (Z.eqb_spec (current w) (main_fiber w)) as [|Hn]; [by exists w|].
  destruct F4 as (x & Hx & El); [congruence|]. unfold deref. rewrite Hx. cbn [mbind outcome_bind]. rewrite El.
  destruct (Z.ltb_spec 0 (s_left s)); [|by apply yield_step].
  rewrite (modify_ok _ _ _ _ Hx). eexists. split; [done|]. destruct Hok as [Hst [S1 S2 S3 S4 S5 S6] Hq].
  split; [exists all; split|].
  - by apply (static_ok_update w _ all (current w) x (set_reductions (s_left s - 1) x)).
  - cbn [s_ready]. split; cbn [main_fiber default_budget current fibers with_fibers vm_current_fiber]; try done.
    1-4: intros g z; destruct (decide (g = current w)) as [->|Hg];
      [rewrite lookup_insert_eq; intros [= <-]; cbn|rewrite lookup_insert_ne by done]; eauto.
    + specialize (S4 _ _ Hx). lia.
    + rewrite lookup_insert_eq. by eexists.
  - by apply (queue_ok_update w _ _ (current w) x (set_reductions (s_left s - 1) x)).
  - split; cbn [main_fiber default_budget current fibers with_fibers vm_exec s_main s_quantum s_running s_left s_slices]; try done.
    + intros _. rewrite lookup_insert_eq. by eexists.
    + intros g. rewrite F5. case_decide; [done|]. by rewrite lookup_insert_ne.
Qed.

(** * Spawning *)

Definition spawned_fiber (page base : Z) (a : allocation) (w : SchedWorld) : MalFiber :=
  mkFiber MAL_FIBER_RUNNABLE false (Some base)
    (u64 (mal_fiber_page_round page MAL_FIBER_DEFAULT_STACK_SIZE + page)) 0
    (fresh_exec page base MAL_FIBER_DEFAULT_VALUE_STACK a (vm_exec w)) (fibers_head w) None.
(** The world between the creation and the enqueue. *)
Definition spawned_world (page base : Z) (a : allocation) (w : SchedWorld) : SchedWorld :=
  with_head (Some (a_fiber a))
    (with_fibers (<[a_fiber a := spawned_fiber page base a w]> (fibers w))
       (with_stacks (<[base := stack_size (spawned_fiber page base a w)]> (stacks w)) w)).

Section Spawn.
Context (page base : Z) (a : allocation) (w : SchedWorld) (q all : list Z) (s : Spec).
Hypotheses (Hok : sched_ok w q all) (Hs : stands_for w s)
  (Ha : fibers w !! a_fiber a = None) (Hb : stacks w !! base = None).

Lemma spawned_cases g z :
  fibers (spawned_world page base a w) !! g = Some z ->
  g = a_fiber a /\ z = spawned_fiber page base a w \/ g <> a_fiber a /\ fibers w !! g = Some z.
Proof.
  cbn. destruct (decide (g = a_fiber a)) as [->|]; [rewrite lookup_insert_eq|rewrite lookup_insert_ne by done].
  - intros [= <-]. by left.
  - by right.
Qed.

Lemma spawned_keeps g z :
  fibers w !! g = Some z -> g <> a_fiber a /\ fibers (spawned_world page base a w) !! g = Some z.
Proof. intros Hz. assert (g <> a_fiber a) by congruence. cbn. by rewrite lookup_insert_ne. Qed.

Lemma spawned_list : list_ok (spawned_world page base a w) (a_fiber a :: all).
Proof.
  destruct Hok as [[[L1 L2 L3 L4] _ _ _ _ _ _] _ _].
  assert (a_fiber a ∉ all) as Hn by (intros H%L4; rewrite Ha in H; by destruct H).
  split; cbn.
  - apply linked_cons. split; [|by apply linked_insert_ne]. eexists. rewrite lookup_insert_eq. by split.
  - done.
  - by apply NoDup_cons.
  - intros g. rewrite elem_of_cons, L4. destruct (decide (g = a_fiber a)) as [->|].
    + rewrite lookup_insert_eq. split; [by eexists|by left].
    + rewrite lookup_insert_ne by done. tauto.
Qed.

Lemma spawned_static : static_ok (spawned_world page base a w) (a_fiber a :: all).
Proof.
  pose proof Hok as [[_ [y Hy] M2 M3 M4 M5 M6] _ _].
  destruct (spawned_keeps _ _ Hy) as [Hm _].
  assert (forall g x b, fibers w !! g = Some x -> stack_base x = Some b -> b <> base) as Hbase.
  { intros g x b Hx Eb ->. destruct (decide (g = main_fiber w)) as [->|Hg].
    - rewrite (M4 x Hx) in Eb. done.
    - destruct (M3 g x Hx Hg) as (b' & Eb' & Es). congruence. }
  split; [by apply spawned_list|..].
  - exists y. by apply spawned_keeps.
  - intros g z [(-> & ->)|(Hg & Hz)]%spawned_cases; [|exact (M2 g z Hz)]. cbn. split; [done|]. intros E. by destruct Hm.
  - intros g z [(-> & ->)|(Hg & Hz)]%spawned_cases Hgm.
    + exists base. split; [done|]. apply lookup_insert_eq.
    + destruct (M3 g z Hz Hgm) as (b & E1 & E2). exists b. split; [done|]. cbn. rewrite lookup_insert_ne; [done|].
      intros <-. by apply (Hbase g z base).
  - intros z [(E & _)|(Hg & Hz)]%spawned_cases; [|exact (M4 z Hz)]. cbn in E. congruence.
  - intros g g' z z' b [(-> & ->)|(Hg & Hz)]%spawned_cases [(-> & ->)|(Hg' & Hz')]%spawned_cases E E'.
    + done.
    + injection E as <-. by destruct (Hbase g' z' base Hz' E').
    + injection E' as <-. by destruct (Hbase g z base Hz E).
    + exact (M5 g g' z z' b Hz Hz' E E').
  - intros b n Hn. cbn in Hn. destruct (decide (b = base)) as [->|].
    + exists (a_fiber a), (spawned_fiber page base a w). split; [apply lookup_insert_eq|done].
    + rewrite lookup_insert_ne in Hn by done. destruct (M6 b n Hn) as (g & z & Hz & E).
      exists g, z. split; [by apply spawned_keeps|done].
Qed.

Lemma spawned_states : states_ok (spawned_world page base a w) (q ++ [a_fiber a]).
Proof.
  pose proof Hok as [[_ [y Hy] _ _ _ _ _] [S1 S2 S3 S4 [x Hx] S6] _].
  destruct (spawned_keeps _ _ Hy) as [Hm _]. destruct (spawned_keeps _ _ Hx) as [Hc Hx'].
  assert (0 <= default_budget w) as H0 by (specialize (S4 _ _ Hx); lia).
  split; [| | | |by exists x|done];
    intros g z [(-> & ->)|(Hg & Hz)]%spawned_cases; cbn.
  - rewrite elem_of_app, list_elem_of_singleton. tauto.
  - rewrite elem_of_app, list_elem_of_singleton, (S1 _ _ Hz). tauto.
  - split; [done|]. intuition congruence.
  - exact (S2 g z Hz).
  - done.
  - exact (S3 g z Hz).
  - lia.
  - exact (S4 g z Hz).
Qed.

Lemma spawned_queue : a_fiber a ∉ q /\ queue_ok (spawned_world page base a w) q.
Proof.
  destruct Hok as [_ _ [Q1 Q2 Q3 Q4]].
  assert (a_fiber a ∉ q) as Hn by (intros H; destruct (linked_lookup _ _ _ _ Q1 H); congruence).
  split; [done|]. split; [by apply linked_insert_ne|done..].
Qed.

Lemma spawned_stands ready :
  stands_for (spawned_world page base a w)
    (mkSpec (s_main s) (s_quantum s) ready (s_running s) (s_left s)
      (<[a_fiber a := fresh_exec page base MAL_FIBER_DEFAULT_VALUE_STACK a (vm_exec w)]> (s_slices s))).
Proof.
  destruct Hs as [F1 F2 F3 F4 F5]. pose proof Hok as [_ [_ _ _ _ [x Hx] _] _].
  destruct (spawned_keeps _ _ Hx) as [Hc Hx'].
  split; try done; cbn [s_main s_quantum s_running s_left s_slices].
  - intros Hn. destruct (F4 Hn) as (z & Hz & E). exists z. split; [by apply spawned_keeps|done].
  - intros g. change (current (spawned_world page base a w)) with (current w). cbn.
    destruct (decide (g = a_fiber a)) as [->|].
    + rewrite !lookup_insert_eq, decide_False; done.
    + rewrite !lookup_insert_ne by done. apply F5.
Qed.
End Spawn.

Lemma spawn_step page w s a :
  represents w s -> enabled w (ESpawn a) ->
  exists w', mal_sched_spawn page a w = Ret (a_base a ≫= fun _ => Some (a_fiber a), w') /\
    represents w' (spec_step page s (ESpawn a)).
Proof.
  intros [[all Hok] Hs] [Ha Hb]. unfold mal_sched_spawn, mal_fiber_create. cbn [spec_step].
  destruct (a_base a) as [base|] eqn:Ebase.
  2:{ exists w. split; [done|]. split; [by exists all|done]. }
  specialize (Hb base eq_refl). cbn [Z.eqb Z.leb Z.compare]. rewrite (sf_slices _ _ Hs), (sf_running _ _ Hs).
  rewrite decide_True by done. destruct (spawned_queue page base a w _ _ Hok Ha) as [Hn Hq].
  rewrite (modify_ok _ _ _ _ (lookup_insert_eq _ _ _)). cbn [mbind outcome_bind].
  cbn [fibers with_head with_fibers with_stacks]. rewrite insert_insert_eq.
  destruct (enqueue_represents (spawned_world page base a w) (a_fiber a :: all) (s_ready s) (a_fiber a) (mkSpec (s_main s) (s_quantum s) (s_ready s ++ [a_fiber a]) (s_running s) (s_left s)
      (<[a_fiber a := fresh_exec page base MAL_FIBER_DEFAULT_VALUE_STACK a (vm_exec w)]> (s_slices s))))
    as (w' & Er & Hrep).
  - by apply (spawned_static page base a w (s_ready s)).
  - by eapply spawned_states.
  - done.
  - done.
  - eexists. apply lookup_insert_eq.
  - by apply (spawned_stands page base a w (s_ready s) all).
  - done.
  - exists w'. split; [|by rewrite (sf_running _ _ Hs) in Hrep].
    change (with_fibers _ _) with (spawned_world page base a w). rewrite Er. done.
Qed.
