(* ===== verification/SchedulerTheorems.v ===== *)
(** What the scheduler guarantees: refinement of the abstract machine over any
    run, slices that no other fiber can touch, dispatch in queue order, and a
    bounded quantum. *)

From stdpp Require Import gmap.
From S2P Require Import Prelude Value Linked Scheduler SchedulerSpec SchedulerRefine.

Lemma sched_step_represents page w s e :
  represents w s -> enabled w e ->
  exists w', sched_step page w e = Ret w' /\ represents w' (spec_step page s e).
Proof.
  intros Hr He. destruct e; cbn [sched_step enabled] in *.
  - destruct (dispatch_step w s Hr He) as (w' & -> & H). by exists w'.
  - eexists. split; [done|]. by apply work_step.
  - by apply safepoint_step.
  - destruct (spawn_step page w s a Hr He) as (w' & -> & H). by exists w'.
  - by apply wake_step.
  - by apply yield_step; [|apply on_main_false].
  - by apply block_step; [|apply on_main_false].
  - by apply exit_step; [|apply on_main_false].
Qed.

Lemma sched_run_represents page es : forall w s,
  represents w s -> all_enabled page w es ->
  exists w', sched_run page w es = Ret w' /\ represents w' (spec_run page s es).
Proof.
  induction es as [|e es IH]; intros w s Hr He; cbn [sched_run spec_run]; [by exists w|].
  destruct He as [He Hes]. destruct (sched_step_represents page w s e Hr He) as (w' & Es & Hr').
  rewrite Es. cbn [mbind outcome_bind]. apply IH; [done|]. by apply Hes.
Qed.

Lemma init_represents main x : represents (mal_sched_init main x) (spec_init main x).
Proof.
  assert (forall g z, fibers (mal_sched_init main x) !! g = Some z ->
    g = main /\ z = mkFiber MAL_FIBER_RUNNING true None 0 0 (copy_exec x) None None) as Hf.
  { intros g z Hz. unfold mal_sched_init, mal_fiber_init_main in Hz. cbn [fibers] in Hz.
    apply lookup_singleton_Some in Hz as [-> <-]. done. }
  assert (is_Some (fibers (mal_sched_init main x) !! main)) as Hm by (eexists; apply lookup_singleton_eq).
  split; [exists [main]|].
  - split; split; try done.
    + split; [|done|by apply NoDup_singleton|].
      * apply linked_cons. split; [|apply linked_nil]. eexists. split; [apply lookup_singleton_eq|done].
      * intros g. rewrite list_elem_of_singleton. split; [by intros ->|]. intros [z Hz]. by apply Hf in Hz as [-> _].
    + intros g z [-> ->]%Hf. done.
    + intros g z [-> ->]%Hf. done.
    + intros z [_ ->]%Hf. done.
    + intros g g' z z' b [-> ->]%Hf [-> ->]%Hf. done.
    + intros g z [-> ->]%Hf. by split; [|intros ?%elem_of_nil].
    + intros g z [-> ->]%Hf. cbn. tauto.
    + intros g z [-> ->]%Hf. done.
    + intros g z [-> ->]%Hf. done.
    + apply NoDup_nil_2.
  - split; try done. intros f. cbn. case_decide as H.
    + subst. apply lookup_singleton_eq.
    + unfold mal_fiber_init_main. rewrite !lookup_singleton_ne by done. done.
Qed.

(** C5. Refinement: every run of scheduler events (dispatch, work on the slice,
    safepoint, spawn, wake, yield, block, exit), each possible when it occurs,
    returns from a fresh scheduler, so no step follows a freed fiber or unmaps a
    stack twice; the world it reaches is well formed (queue and fiber list are
    acyclic linked lists, exactly the RUNNABLE fibers are queued, only the current
    and the main fiber are RUNNING, no FINISHED fiber stays linked, mapped stacks
    have one live owner each) and stands for the state of the queue machine. *)
Theorem sched_refines_queue_machine page main x es :
  all_enabled page (mal_sched_init main x) es ->
  exists w, sched_run page (mal_sched_init main x) es = Ret w /\
    represents w (spec_run page (spec_init main x) es).
Proof. apply sched_run_represents, init_represents. Qed.

(** A run: two workers, one blocked and woken, preempted, finished. *)
Definition demo_exec : MalFiberExec := mkExec 0 0 0 0 0 0 0 0 0 0 0 0 0 0 (0, 0) 7 0 0 9.
Definition demo_alloc (a b : Z) : allocation := mkAllocation a (Some b) (a + 1) (a + 2).
Definition demo_events : list event :=
  [ESpawn (demo_alloc 100 4096); ESpawn (demo_alloc 200 8192); EDispatch; EBlock; EDispatch; EWake 100;
   ESafepoint; EYield; EDispatch; EWork demo_exec; EExit].

(** Decides the enabledness of a concrete run. *)
Lemma all_enabled_cons page w e es w' :
  enabled w e -> sched_step page w e = Ret w' -> all_enabled page w' es -> all_enabled page w (e :: es).
Proof. intros He Hs Hes. split; [done|]. intros w2 E. rewrite Hs in E. injection E as <-. exact Hes. Qed.

Ltac run_enabled :=
  repeat (eapply all_enabled_cons;
    [ first [ exact I | reflexivity | (eexists; reflexivity)
            | (split; [reflexivity | intros ? [= <-]; reflexivity]) ]
    | vm_compute; reflexivity | ]); exact I.

Lemma demo_enabled : all_enabled 4096 (mal_sched_init 1 demo_exec) demo_events.
Proof. run_enabled. Qed.

Lemma sched_refines_queue_machine_witness :
  exists w, sched_run 4096 (mal_sched_init 1 demo_exec) demo_events = Ret w /\
    represents w (spec_run 4096 (spec_init 1 demo_exec) demo_events).
Proof. apply sched_refines_queue_machine. exact demo_enabled. Defined.

(** * Slice isolation *)

(** The slice of a fiber: live in the VM while it runs, saved otherwise. *)
Definition slice_of (w : SchedWorld) (f : Z) : option MalFiberExec :=
  if decide (f = current w) then Some (vm_exec w) else exec <$> fibers w !! f.

(** [f] itself neither works nor exits during the run, and is not re-created. *)
Fixpoint untouched (page : Z) (w : SchedWorld) (f : Z) (es : list event) : Prop :=
  match es with
  | [] => True
  | e :: es =>
      match e with
      | EWork _ | EExit => current w <> f
      | _ => True
      end /\ forall w', sched_step page w e = Ret w' -> untouched page w' f es
  end.

Lemma spec_step_slice page w s e f x :
  represents w s -> enabled w e ->
  match e with EWork _ | EExit => current w <> f | _ => True end ->
  s_slices s !! f = Some x -> s_slices (spec_step page s e) !! f = Some x.
Proof.
  intros [[all [_ [_ _ _ _ [y Hy] _] _]] [F1 F2 F3 F4 F5]] He Hu Hx. destruct e; cbn [spec_step].
  - by destruct (s_ready s).
  - cbn. rewrite lookup_insert_ne; [done|]. by rewrite F3.
  - destruct (_ =? _); [done|]. by destruct (_ <? _).
  - destruct (a_base a), (s_slices s !! s_running s); try done. cbn.
    rewrite lookup_insert_ne; [done|]. intros <-. destruct He as [He _]. rewrite F5, He in Hx.
    destruct (decide (a_fiber a = current w)) as [E|]; [congruence|done].
  - by destruct (spec_waiting _ _).
  - done.
  - done.
  - cbn. rewrite lookup_delete_ne; [done|]. by rewrite F3.
Qed.

(** C33. Isolation: over any run from a reachable world, a fiber that neither
    works nor exits during it owns at the end exactly the slice of VM state it
    owned at the start, wherever the slice sits (in the VM or saved) and whatever
    the other fibers did. *)
Theorem sched_slice_isolation page main x0 es0 es w w' f x :
  all_enabled page (mal_sched_init main x0) es0 ->
  sched_run page (mal_sched_init main x0) es0 = Ret w ->
  all_enabled page w es -> sched_run page w es = Ret w' ->
  untouched page w f es -> slice_of w f = Some x -> slice_of w' f = Some x.
Proof.
  intros He0 E0. destruct (sched_run_represents page es0 _ _ (init_represents main x0) He0) as (w2 & E & Hr).
  assert (w2 = w) as -> by congruence. revert Hr. generalize (spec_run page (spec_init main x0) es0).
  clear He0 E0 E. revert w. induction es as [|e es IH]; intros w s Hr He Er Hu Hx.
  { cbn in Er. by injection Er as <-. }
  destruct He as [He Hes]. destruct Hu as [Hu Hus].
  destruct (sched_step_represents page w s e Hr He) as (w1 & E1 & Hr1).
  cbn [sched_run] in Er. rewrite E1 in Er. cbn [mbind outcome_bind] in Er.
  apply (IH w1 (spec_step page s e)); try done; [by apply Hes|by apply Hus|].
  unfold slice_of. rewrite <- (sf_slices _ _ (proj2 Hr1)). apply (spec_step_slice page w); try done.
  rewrite (sf_slices _ _ (proj2 Hr)). exact Hx.
Qed.

(** A is spawned, works and yields; B runs and yields; A is resumed. *)
Definition demo_slice : MalFiberExec := mkExec 101 5 8192 102 2 1024 0 0 0 0 0 0 0 3 (0, 0) 7 0 0 9.
Definition demo_before : list event :=
  [ESpawn (demo_alloc 100 4096); ESpawn (demo_alloc 200 8192); EDispatch; EWork demo_slice; EYield].
Definition demo_after : list event := [EDispatch; EWork demo_exec; EYield; EDispatch].

Lemma untouched_cons page w f e es w' :
  match e with EWork _ | EExit => current w <> f | _ => True end ->
  sched_step page w e = Ret w' -> untouched page w' f es -> untouched page w f (e :: es).
Proof. intros He Hs Hes. split; [done|]. intros w2 E. rewrite Hs in E. injection E as <-. exact Hes. Qed.

Lemma sched_slice_isolation_witness :
  exists w w', sched_run 4096 (mal_sched_init 1 demo_exec) demo_before = Ret w /\
    sched_run 4096 w demo_after = Ret w' /\ current w' = 100 /\ slice_of w' 100 = Some demo_slice.
Proof.
  eexists _, _. split; [vm_compute; reflexivity|]. split; [vm_compute; reflexivity|]. split; [reflexivity|].
  eapply (sched_slice_isolation 4096 1 demo_exec demo_before demo_after).
  - run_enabled.
  - vm_compute; reflexivity.
  - run_enabled.
  - vm_compute; reflexivity.
  - repeat (eapply untouched_cons; [first [exact I|by vm_compute]|vm_compute; reflexivity|]); exact I.
  - vm_compute; reflexivity.
Defined.

(** * Fairness *)

Definition is_dispatch (e : event) : bool := match e with EDispatch => true | _ => false end.
Definition is_safepoint (e : event) : bool := match e with ESafepoint => true | _ => false end.
Fixpoint count_events (p : event -> bool) (es : list event) : nat :=
  match es with [] => 0 | e :: es => if p e then S (count_events p es) else count_events p es end.

(** Only a dispatch takes from the queue; everything else appends. *)
Lemma spec_step_ready page s e :
  is_dispatch e = false -> exists l, s_ready (spec_step page s e) = s_ready s ++ l.
Proof.
  intros He. assert (exists l, s_ready s = s_ready s ++ l) as H0 by (exists []; by rewrite app_nil_r).
  destruct e; cbn [spec_step]; try done.
  - destruct (_ =? _); [done|]. destruct (_ <? _); [done|]. by exists [s_running s].
  - destruct (a_base a), (s_slices s !! s_running s); try done. by exists [a_fiber a].
  - destruct (spec_waiting s f); [|done]. by exists [f].
  - by exists [s_running s].
Qed.

(** Fairness: of a reachable world, the fiber at position k of the run queue
    is the one the (k+1)-st dispatch switches to, whatever spawns, wakes, yields,
    preemptions, blocks and exits happen before it: no fiber is overtaken or lost. *)
Theorem sched_fifo_fairness page es w s k f :
  represents w s -> s_ready s !! k = Some f -> all_enabled page w es ->
  (k < count_events is_dispatch es)%nat ->
  exists es1 es2 w1 w2, es = es1 ++ EDispatch :: es2 /\ count_events is_dispatch es1 = k /\
    sched_run page w es1 = Ret w1 /\ run_dispatch w1 = Ret (Some f, w2) /\ current w2 = f.
Proof.
  revert w s k. induction es as [|e es IH]; intros w s k Hr Hk He Hc; cbn [count_events] in Hc; [lia|].
  destruct He as [He Hes]. destruct (sched_step_represents page w s e Hr He) as (w1 & E1 & Hr1).
  specialize (Hes w1 E1). destruct (is_dispatch e) eqn:Ed.
  - destruct e; try done. destruct (dispatch_step w s Hr He) as (w2 & E2 & Hr2).
    assert (w2 = w1) as -> by (cbn [sched_step] in E1; rewrite E2 in E1; cbn in E1; congruence).
    cbn [spec_step] in Hr1. destruct (s_ready s) as [|h r] eqn:Eq; [done|]. destruct k as [|k].
    + injection Hk as ->. exists [], es, w, w1. split_and!; try done. by rewrite <- (sf_running _ _ (proj2 Hr1)).
    + destruct (IH w1 _ k Hr1 Hk Hes) as (es1 & es2 & v1 & v2 & -> & En & Er & Hd); [lia|].
      exists (EDispatch :: es1), es2, v1, v2. cbn [sched_run app count_events is_dispatch]. rewrite E1, En.
      destruct Hd. by split_and!.
  - destruct (spec_step_ready page s e Ed) as (l & El).
    destruct (IH w1 _ k Hr1) as (es1 & es2 & v1 & v2 & -> & En & Er & Hd); [|done|done|].
    { rewrite El. by apply lookup_app_l_Some. }
    exists (e :: es1), es2, v1, v2. cbn [sched_run app count_events]. rewrite Ed, E1.
    destruct Hd. by split_and!.
Qed.

(** Two workers queued behind each other, reached by [demo_before]. *)
Definition demo_world : SchedWorld :=
  match sched_run 4096 (mal_sched_init 1 demo_exec) demo_before with
  | Ret w => w
  | _ => mal_sched_init 1 demo_exec
  end.
Lemma demo_represents : represents demo_world (spec_run 4096 (spec_init 1 demo_exec) demo_before).
Proof.
  destruct (sched_run_represents 4096 demo_before _ _ (init_represents 1 demo_exec)) as (w & E & Hr); [run_enabled|].
  unfold demo_world. by rewrite E.
Qed.

Lemma sched_fifo_fairness_witness :
  exists es1 es2 w1 w2, [EDispatch; EWake 100; EBlock; EDispatch] = es1 ++ EDispatch :: es2 /\
    count_events is_dispatch es1 = 1%nat /\ sched_run 4096 demo_world es1 = Ret w1 /\
    run_dispatch w1 = Ret (Some 100, w2) /\ current w2 = 100.
Proof.
  apply (sched_fifo_fairness 4096 _ demo_world _ 1 100 demo_represents);
    [vm_compute; reflexivity|run_enabled|cbn; lia].
Defined.

(** * The quantum *)

(** What a running fiber does between two switches. *)
Definition stays (e : event) : bool :=
  match e with EWork _ | ESafepoint | ESpawn _ | EWake _ => true | _ => false end.

(** The budget the abstract machine counts down. *)
Lemma spec_step_stays page s e :
  stays e = true -> s_running s <> s_main s -> s_running (spec_step page s e) <> s_main s ->
  s_main (spec_step page s e) = s_main s /\
  s_left (spec_step page s e) = (if is_safepoint e then s_left s - 1 else s_left s) /\
  (is_safepoint e = true -> 0 < s_left s).
Proof.
  intros He Hn Hn'. destruct e; try done; cbn [spec_step is_safepoint] in *.
  - destruct (Z.eqb_spec (s_running s) (s_main s)); [done|]. by destruct (Z.ltb_spec 0 (s_left s)).
  - by destruct (a_base a), (s_slices s !! s_running s).
  - by destruct (spec_waiting s f).
Qed.

Lemma stays_quantum page es : forall w s,
  represents w s -> s_running s <> s_main s -> 0 <= s_left s -> all_enabled page w es -> forallb stays es = true ->
  s_left s < Z.of_nat (count_events is_safepoint es) ->
  exists es1 es2 w', es = es1 ++ es2 /\ sched_run page w es1 = Ret w' /\ on_main w' = true.
Proof.
  induction es as [|e es IH]; intros w s Hr Hn H0 He Hst Hc; cbn [count_events] in Hc; [cbn in Hc; lia|].
  destruct He as [He Hes]. cbn [forallb] in Hst. apply andb_true_iff in Hst as [Hse Hst].
  destruct (sched_step_represents page w s e Hr He) as (w1 & E1 & Hr1). specialize (Hes w1 E1).
  destruct (decide (s_running (spec_step page s e) = s_main s)) as [Em|Hn'].
  - exists [e], es, w1. split; [done|]. cbn [sched_run]. rewrite E1. split; [done|].
    pose proof Hr1 as [_ [F1 _ F3 _ _]]. unfold on_main. apply Z.eqb_eq. rewrite <- F3, Em, <- F1.
    destruct e; try done; cbn [spec_step].
    + destruct (_ =? _); [done|]. by destruct (_ <? _).
    + by destruct (a_base a), (s_slices s !! s_running s).
    + by destruct (spec_waiting s f).
  - destruct (spec_step_stays page s e Hse Hn Hn') as (E2 & E3 & E4).
    destruct (IH w1 _ Hr1) as (es1 & es2 & w' & -> & Er & Ho); try done.
    + by rewrite E2.
    + rewrite E3. destruct (is_safepoint e); [specialize (E4 eq_refl)|]; lia.
    + rewrite E3. destruct (is_safepoint e); lia.
    + exists (e :: es1), es2, w'. cbn [sched_run app]. by rewrite E1.
Qed.

(** Bounded quantum: a worker that keeps running (working, spawning, waking)
    is back on the scheduler's fiber after at most default_budget + 1 safepoints:
    a loop that polls cannot starve its peers. *)
Theorem sched_quantum_bounded page es w s :
  represents w s -> on_main w = false -> all_enabled page w es -> forallb stays es = true ->
  default_budget w < Z.of_nat (count_events is_safepoint es) ->
  exists es1 es2 w', es = es1 ++ es2 /\ sched_run page w es1 = Ret w' /\ on_main w' = true.
Proof.
  intros Hr Hm He Hst Hc. pose proof Hr as [[all [_ [_ _ _ S4 _ _] _]] [F1 F2 F3 F4 _]].
  apply Z.eqb_neq in Hm. assert (s_running s <> s_main s) as Hn by congruence.
  destruct (F4 Hn) as (x & Hx & El). specialize (S4 _ _ Hx). apply (stays_quantum page es w s); try done; lia.
Qed.

Lemma all_enabled_safepoints page n : forall w, all_enabled page w (replicate n ESafepoint).
Proof. induction n as [|n IH]; intros w; [done|]. split; [done|]. intros w' _. apply IH. Qed.

Definition demo_running : SchedWorld :=
  match sched_run 4096 demo_world [EDispatch] with Ret w => w | _ => demo_world end.
Lemma demo_running_represents :
  represents demo_running (spec_run 4096 (spec_run 4096 (spec_init 1 demo_exec) demo_before) [EDispatch]).
Proof.
  destruct (sched_run_represents 4096 [EDispatch] _ _ demo_represents) as (w & E & Hr); [run_enabled|].
  unfold demo_running. by rewrite E.
Qed.

Lemma sched_quantum_bounded_witness :
  exists es1 es2 w', replicate 1001 ESafepoint = es1 ++ es2 /\
    sched_run 4096 demo_running es1 = Ret w' /\ on_main w' = true.
Proof.
  apply (sched_quantum_bounded 4096 _ demo_running _ demo_running_represents);
    [vm_compute; reflexivity|apply all_enabled_safepoints|vm_compute; reflexivity|vm_compute; reflexivity].
Defined.
