(* ===== verification/Slab.v ===== *)
(** The slabs of promise_object.c and microtask.c: blocks of 32 KiB aligned to
    their size, cut into nodes that go through a free list per block. A node finds
    its block by masking its address. The two users differ in the node type and in
    what they do with an empty block, which their own files model.

    aligned_alloc is a parameter: it returns a block address, aligned and unused. *)

From stdpp Require Import gmap.
From S2P Require Import Prelude Linked.

Definition SLAB_BLOCK_SIZE : Z := 32768.
(** Two pointers and two 32-bit counters before the nodes. *)
Definition SLAB_HEADER : Z := 24.

Record SlabBlock : Type := mkBlock {
  block_next : option Z;
  free_list : option Z;
  next_unused : Z;
  live_count : Z;
}.

(** What a slab needs of its nodes: the link field and the size. *)
Class Node (N : Type) := {
  node_next : N -> option Z;
  node_set_next : option Z -> N -> N;
  node_size : Z;
}.
Class NodeLaws (N : Type) `{Node N} : Prop := {
  node_next_set : forall r x, node_next (node_set_next r x) = r;
  node_size_ok : 8 <= node_size <= SLAB_BLOCK_SIZE - SLAB_HEADER;
}.

Record Slab (N : Type) : Type := mkSlab {
  slab_mem : gmap Z SlabBlock;
  slab_nodes : gmap Z N;
  slab_blocks : option Z;
  slab_active : option Z;
}.
Arguments mkSlab {N}. Arguments slab_mem {N}. Arguments slab_nodes {N}.
Arguments slab_blocks {N}. Arguments slab_active {N}.

Definition empty_slab {N} : Slab N := mkSlab ∅ ∅ None None.

Section Slab.
Context {N : Type} `{HN : Node N} (aligned_alloc : gmap Z SlabBlock -> Z).
Implicit Types (s : Slab N).

Definition per_block : Z := (SLAB_BLOCK_SIZE - SLAB_HEADER) / node_size.
Definition slot_address (b i : Z) : Z := b + SLAB_HEADER + i * node_size.
Definition block_of (a : Z) : Z := Z.land a (Z.lnot (SLAB_BLOCK_SIZE - 1)).

Definition set_mem (m : gmap Z SlabBlock) s : Slab N := mkSlab m (slab_nodes s) (slab_blocks s) (slab_active s).
Definition set_nodes (m : gmap Z N) s : Slab N := mkSlab (slab_mem s) m (slab_blocks s) (slab_active s).
Definition set_blocks (h : option Z) s : Slab N := mkSlab (slab_mem s) (slab_nodes s) h (slab_active s).
Definition set_active (h : option Z) s : Slab N := mkSlab (slab_mem s) (slab_nodes s) (slab_blocks s) h.

Definition block_deref s (b : Z) : outcome SlabBlock :=
  match slab_mem s !! b with Some x => Ret x | None => Abort end.
Definition node_deref s (a : Z) : outcome N :=
  match slab_nodes s !! a with Some x => Ret x | None => Abort end.
Definition node_write (a : Z) (x : N) s : Slab N := set_nodes (<[a := x]> (slab_nodes s)) s.

Definition has_capacity (b : SlabBlock) : bool :=
  match free_list b with Some _ => true | None => next_unused b <? per_block end.

(** [for (block = blocks; block != nullptr; block = block->next)]. *)
Fixpoint search_blocks (fuel : nat) s (cur : option Z) : outcome (option Z) :=
  match fuel with
  | O => NoFuel
  | S fuel =>
      match cur with
      | None => Ret None
      | Some b =>
          x ← block_deref s b;
          if has_capacity x then Ret (Some b) else search_blocks fuel s (block_next x)
      end
  end.

Definition new_block s : Z * Slab N :=
  let b := aligned_alloc (slab_mem s) in
  (b, set_active (Some b) (set_blocks (Some b)
        (set_mem (<[b := mkBlock (slab_blocks s) None 0 0]> (slab_mem s)) s))).

Definition find_slow s : outcome (Z * Slab N) :=
  r ← search_blocks (S (size (slab_mem s))) s (slab_blocks s);
  match r with
  | Some b => Ret (b, set_active (Some b) s)
  | None => Ret (new_block s)
  end.

(** The active block while it has room, else the first block with room, else a
    new one. *)
Definition find_block s : outcome (Z * Slab N) :=
  match slab_active s with
  | None => find_slow s
  | Some b =>
      x ← block_deref s b;
      if has_capacity x then Ret (b, s) else find_slow s
  end.

(** A recycled node if there is one, else the next unused slot. *)
Definition take_node (b : Z) s : outcome (Z * Slab N) :=
  x ← block_deref s b;
  match free_list x with
  | Some a =>
      n ← node_deref s a;
      Ret (a, set_mem (<[b := mkBlock (block_next x) (node_next n) (next_unused x) (u32 (live_count x + 1))]> (slab_mem s)) s)
  | None =>
      Ret (slot_address b (next_unused x),
           set_mem (<[b := mkBlock (block_next x) None (u32 (next_unused x + 1)) (u32 (live_count x + 1))]> (slab_mem s)) s)
  end.

(** The node goes to the front of its block's free list; the block becomes the
    active one. Returns the block. *)
Definition push_free (a : Z) s : outcome (Z * Slab N) :=
  let b := block_of a in
  x ← block_deref s b;
  n ← node_deref s a;
  let s := node_write a (node_set_next (free_list x) n) s in
  let x := mkBlock (block_next x) (Some a) (next_unused x) (u32 (live_count x - 1)) in
  Ret (b, set_active (Some b) (set_mem (<[b := x]> (slab_mem s)) s)).

(** [while ( *link != block) link = &( *link)->next]: [pp] is the head or the
    [next] field of a block. *)
Fixpoint unlink_block (fuel : nat) (b : Z) (pp slot : option Z) s : outcome (Slab N) :=
  match fuel with
  | O => NoFuel
  | S fuel =>
      match slot with
      | None => Abort
      | Some c =>
          x ← block_deref s c;
          if c =? b then
            match pp with
            | None => Ret (set_blocks (block_next x) s)
            | Some p =>
                y ← block_deref s p;
                Ret (set_mem (<[p := mkBlock (block_next x) (free_list y) (next_unused y) (live_count y)]> (slab_mem s)) s)
            end
          else unlink_block fuel b (Some c) (block_next x) s
      end
  end.

(** The nodes of a freed block are gone. *)
Definition free_block (b : Z) s : outcome (Slab N) :=
  s ← unlink_block (S (size (slab_mem s))) b None (slab_blocks s) s;
  Ret (mkSlab (delete b (slab_mem s)) (filter (fun p => block_of p.1 <> b) (slab_nodes s))
         (slab_blocks s) None).

(** * Invariant *)

(** A block whose free list spells [fl]. *)
Record block_ok (nodes : gmap Z N) (b : Z) (x : SlabBlock) (fl : list Z) : Prop := {
  bo_aligned : b mod SLAB_BLOCK_SIZE = 0;
  bo_used : 0 <= next_unused x <= per_block;
  bo_live : live_count x = next_unused x - Z.of_nat (length fl);
  bo_live_pos : 0 <= live_count x;
  bo_linked : linked node_next nodes fl;
  bo_head : free_list x = head fl;
  bo_nodup : NoDup fl;
  bo_slots : forall a, a ∈ fl -> exists i, 0 <= i < next_unused x /\ a = slot_address b i;
}.

Record slab_ok (s : Slab N) (bs : list Z) (fls : Z -> list Z) : Prop := {
  sl_linked : linked block_next (slab_mem s) bs;
  sl_head : slab_blocks s = head bs;
  sl_nodup : NoDup bs;
  sl_dom : forall b, b ∈ bs <-> is_Some (slab_mem s !! b);
  sl_block : forall b x, slab_mem s !! b = Some x -> block_ok (slab_nodes s) b x (fls b);
  sl_active : forall b, slab_active s = Some b -> is_Some (slab_mem s !! b);
}.

(** The addresses handed out and not given back. *)
Definition live (s : Slab N) (fls : Z -> list Z) (a : Z) : Prop :=
  exists b x i, slab_mem s !! b = Some x /\ 0 <= i < next_unused x /\ a = slot_address b i /\ a ∉ fls b.
Definition owns (s : Slab N) (L : gset Z) : Prop :=
  exists bs fls, slab_ok s bs fls /\ forall a, a ∈ L <-> live s fls a.

(** * Addresses *)

Section Addresses.
Context `{HL : !NodeLaws N}.

Lemma per_block_bound : 0 < per_block /\ SLAB_HEADER + per_block * node_size <= SLAB_BLOCK_SIZE.
Proof using HL.
  pose proof (node_size_ok (N := N)) as Hs. unfold per_block. change (SLAB_BLOCK_SIZE - SLAB_HEADER) with 32744 in *.
  change SLAB_HEADER with 24. change SLAB_BLOCK_SIZE with 32768.
  assert (0 < node_size) as H0 by lia. pose proof (Z.mul_div_le 32744 node_size H0) as H. rewrite Z.mul_comm in H.
  split; [apply Z.div_str_pos; lia|]. set (m := 32744 / node_size * node_size) in *. clearbody m. lia.
Qed.

Lemma per_block_u32 : per_block < 2 ^ 32 - 1.
Proof using HL. pose proof per_block_bound. pose proof (node_size_ok (N := N)). unfold SLAB_BLOCK_SIZE, SLAB_HEADER in *. nia. Qed.

Lemma block_of_slot b i : b mod SLAB_BLOCK_SIZE = 0 -> 0 <= i < per_block -> block_of (slot_address b i) = b.
Proof using HL.
  intros Hb Hi. unfold block_of, slot_address. pose proof per_block_bound as [_ Hp]. pose proof (node_size_ok (N := N)) as Hs.
  assert (0 <= SLAB_HEADER + i * node_size < SLAB_BLOCK_SIZE) as Hr by (unfold SLAB_HEADER, SLAB_BLOCK_SIZE in *; nia).
  set (o := SLAB_HEADER + i * node_size) in *. replace (b + SLAB_HEADER + i * node_size) with (b + o) by (unfold o; lia).
  change (SLAB_BLOCK_SIZE - 1) with (Z.ones 15). rewrite <- Z.ldiff_land.
  rewrite Z.ldiff_ones_r, Z.shiftl_mul_pow2, Z.shiftr_div_pow2 by lia. change (2 ^ 15) with SLAB_BLOCK_SIZE.
  assert (b = SLAB_BLOCK_SIZE * (b / SLAB_BLOCK_SIZE)) as Eb by (apply Z.div_exact; [done|exact Hb]).
  assert ((b + o) / SLAB_BLOCK_SIZE = b / SLAB_BLOCK_SIZE) as ->; [|lia].
  rewrite Eb at 1. rewrite (Z.mul_comm SLAB_BLOCK_SIZE), Z.div_add_l, (Z.div_small o) by done. lia.
Qed.

Lemma slot_inj b i j : slot_address b i = slot_address b j -> i = j.
Proof using HL. unfold slot_address. pose proof (node_size_ok (N := N)). nia. Qed.
End Addresses.
End Slab.
