(* ===== verification/SlabSpec.v ===== *)
(** The slab operations keep [slab_ok] and manage the set of live nodes: a node handed out
    was not live, a node given back is found in its own block, and a block is freed only
    when none of its nodes is live. Lists threaded through slab nodes:
    [node_lists s loose ls] says that the live nodes of the slab are exactly the nodes of
    the lists [ls], linked in order, and the [loose] nodes, each once; the lemmas are the
    moves the reaction and job queues make. *)

From stdpp Require Import gmap.
From S2P Require Import Prelude Linked Slab.

Section SlabSpec.
Context {N : Type} `{HN : Node N} `{HL : !NodeLaws N}.
Context (aligned_alloc : gmap Z SlabBlock -> Z).
Implicit Types (s : Slab N).

(** Every slot of a block that was used, in order. *)
Definition slots (b n : Z) : list Z := slot_address b <$> seqZ 0 n.

Lemma elem_of_slots b n a : a ∈ slots b n <-> exists i, 0 <= i < n /\ a = slot_address b i.
Proof.
  unfold slots. rewrite list_elem_of_fmap. setoid_rewrite elem_of_seqZ.
  split; intros (i & H1 & H2); exists i; (split; [lia || done|lia || done]).
Qed.

Lemma slots_length b n : 0 <= n -> Z.of_nat (length (slots b n)) = n.
Proof. intros. unfold slots. rewrite length_fmap, length_seqZ. lia. Qed.

(** Counting: free nodes are slots, so a live slot leaves room and no room
    leaves no live slot. *)
Lemma free_submseteq nodes b x fl : block_ok nodes b x fl -> fl ⊆+ slots b (next_unused x).
Proof.
  intros H. apply NoDup_submseteq; [apply H|]. intros a Ha. apply elem_of_slots. by apply (bo_slots _ _ _ _ H).
Qed.

Lemma live_room nodes b x fl i :
  block_ok nodes b x fl -> 0 <= i < next_unused x -> slot_address b i ∉ fl -> 1 <= live_count x.
Proof.
  intros H Hi Hn. assert (slot_address b i :: fl ⊆+ slots b (next_unused x)) as Hs.
  { apply NoDup_submseteq; [apply NoDup_cons; split; [done|apply H]|].
    intros a [->|Ha]%elem_of_cons; [apply elem_of_slots; eauto|]. apply elem_of_slots. by apply (bo_slots _ _ _ _ H). }
  apply submseteq_length in Hs. cbn [length] in Hs. pose proof (slots_length b (next_unused x) ltac:(lia)).
  rewrite (bo_live _ _ _ _ H). lia.
Qed.

Lemma no_live nodes b x fl i :
  block_ok nodes b x fl -> live_count x = 0 -> 0 <= i < next_unused x -> slot_address b i ∈ fl.
Proof.
  intros H H0 Hi. destruct (decide (slot_address b i ∈ fl)) as [|Hn]; [done|].
  pose proof (live_room _ _ _ _ _ H Hi Hn). lia.
Qed.

(** * Live nodes and their blocks *)

Section Live.
Context (s : Slab N) (bs : list Z) (fls : Z -> list Z) (Hok : slab_ok s bs fls).

Lemma free_block_of c x a : slab_mem s !! c = Some x -> a ∈ fls c -> block_of a = c.
Proof using HL Hok.
  intros Hc Ha. pose proof (sl_block _ _ _ Hok _ _ Hc) as H. destruct (bo_slots _ _ _ _ H _ Ha) as (i & Hi & ->).
  pose proof (bo_used _ _ _ _ H). apply block_of_slot; [apply H|lia].
Qed.

Lemma live_block_of a :
  live s fls a -> exists x i, slab_mem s !! block_of a = Some x /\ 0 <= i < next_unused x /\
    a = slot_address (block_of a) i /\ a ∉ fls (block_of a).
Proof using HL Hok.
  intros (b & x & i & Hb & Hi & -> & Hn). pose proof (sl_block _ _ _ Hok _ _ Hb) as H.
  assert (block_of (slot_address b i) = b) as E.
  { apply block_of_slot; [apply H|]. pose proof (bo_used _ _ _ _ H). lia. }
  exists x, i. by rewrite E.
Qed.

Lemma live_not_free a c x : live s fls a -> slab_mem s !! c = Some x -> a ∉ fls c.
Proof using HL Hok.
  intros Ha Hc Hf. destruct (live_block_of a Ha) as (y & i & _ & _ & _ & Hn).
  rewrite (free_block_of c x a Hc Hf) in Hn. done.
Qed.

(** Writing a live node disturbs no free list. *)
Lemma node_write_ok a n : live s fls a -> slab_ok (node_write a n s) bs fls.
Proof using HL Hok.
  intros Ha. pose proof Hok as [H1 H2 H3 H4 H5 H6]. split; try done.
  intros b x Hb. pose proof (H5 b x Hb) as [B1 B2 B3 B4 B5 B6 B7 B8]. split; try done.
  apply linked_insert_ne; [|done]. by apply (live_not_free a b x).
Qed.
End Live.

Lemma live_write s fls a n a' : live (node_write a n s) fls a' <-> live s fls a'.
Proof. done. Qed.

(** * Finding a block *)

Lemma search_blocks_ok s : forall bs fuel,
  linked block_next (slab_mem s) bs -> (length bs < fuel)%nat ->
  exists r, search_blocks fuel s (head bs) = Ret r /\
    forall b, r = Some b -> exists x, slab_mem s !! b = Some x /\ has_capacity x = true.
Proof.
  induction bs as [|b bs IH]; intros [|fuel] Hl Hf; cbn [length] in Hf; try lia.
  - exists None. by split.
  - apply linked_cons in Hl as [(x & Hx & E) Hl]. cbn [head search_blocks]. unfold block_deref at 1. rewrite Hx.
    cbn [mbind outcome_bind]. destruct (has_capacity x) eqn:Hc.
    + exists (Some b). split; [done|]. intros b' [= <-]. by exists x.
    + rewrite E. apply IH; [done|lia].
Qed.

Lemma slab_size s bs fls : slab_ok s bs fls -> length bs = size (slab_mem s).
Proof.
  intros [_ _ Hn Hd _ _]. rewrite <- size_dom, <- (size_list_to_set (C := gset Z) bs) by done.
  f_equal. apply set_eq. intros f. by rewrite elem_of_list_to_set, Hd, elem_of_dom.
Qed.

Lemma set_active_ok s bs fls b :
  slab_ok s bs fls -> is_Some (slab_mem s !! b) -> slab_ok (set_active (Some b) s) bs fls.
Proof. intros [H1 H2 H3 H4 H5 H6] Hb. split; try done. by intros c [= <-]. Qed.

(** How finding a block changes the block memory. *)
Definition found (b : Z) (m m' : gmap Z SlabBlock) : Prop :=
  m' = m \/ m !! b = None /\ exists h, m' = <[b := mkBlock h None 0 0]> m.

Hypothesis alloc_fresh : forall m, m !! aligned_alloc m = None.
Hypothesis alloc_aligned : forall m, aligned_alloc m mod SLAB_BLOCK_SIZE = 0.

Lemma new_block_ok s bs fls b s' :
  slab_ok s bs fls -> new_block aligned_alloc s = (b, s') ->
  slab_ok s' (b :: bs) (fun c => if decide (c = b) then [] else fls c) /\
  slab_mem s' !! b = Some (mkBlock (slab_blocks s) None 0 0) /\ found b (slab_mem s) (slab_mem s') /\
  slab_nodes s' = slab_nodes s /\
  (forall a, live s' (fun c => if decide (c = b) then [] else fls c) a <-> live s fls a).
Proof.
  intros [H1 H2 H3 H4 H5 H6] [= <- <-]. set (b := aligned_alloc (slab_mem s)).
  pose proof (alloc_fresh (slab_mem s)) as Hf. fold b in Hf. cbn.
  assert (b ∉ bs) as Hb by (intros [x Hx]%H4; congruence).
  assert (slab_mem s !! b = None) as Hf' by done.
  split_and!; [|apply lookup_insert_eq|right; split; [done|by eexists]|done|].
  - split; cbn.
    + apply linked_cons. split; [|by apply linked_insert_ne]. eexists. rewrite lookup_insert_eq. by split.
    + done.
    + by apply NoDup_cons.
    + intros c. rewrite elem_of_cons, H4. destruct (decide (c = b)) as [->|].
      * rewrite lookup_insert_eq. split; [by eexists|by left].
      * rewrite lookup_insert_ne by done. tauto.
    + intros c x. destruct (decide (c = b)) as [->|].
      * rewrite lookup_insert_eq. intros [= <-]. pose proof per_block_bound as [Hp _].
        split; cbn; try done; [apply alloc_aligned|lia|apply NoDup_nil_2|by intros a ?%elem_of_nil].
      * rewrite lookup_insert_ne by done. apply H5.
    + intros c [= <-]. rewrite lookup_insert_eq. by eexists.
  - intros a. unfold live. cbn. split; intros (c & x & i & Hc & Hi & -> & Hn).
    + destruct (decide (c = b)) as [->|].
      * rewrite lookup_insert_eq in Hc. injection Hc as <-. cbn in Hi. lia.
      * rewrite lookup_insert_ne in Hc by done. by exists c, x, i.
    + assert (c <> b) by congruence. exists c, x, i. rewrite lookup_insert_ne by done.
      split_and!; try done; [lia|lia|]. by rewrite decide_False.
Qed.

Lemma find_slow_ok s bs fls :
  slab_ok s bs fls ->
  exists b s' bs' fls' x, find_slow aligned_alloc s = Ret (b, s') /\ slab_ok s' bs' fls' /\
    slab_mem s' !! b = Some x /\ has_capacity x = true /\ found b (slab_mem s) (slab_mem s') /\
    slab_nodes s' = slab_nodes s /\ (forall a, live s' fls' a <-> live s fls a).
Proof.
  intros Hok. unfold find_slow. rewrite (sl_head _ _ _ Hok), <- (slab_size _ _ _ Hok).
  destruct (search_blocks_ok s bs (S (length bs)) (sl_linked _ _ _ Hok)) as (r & -> & Hr); [lia|].
  cbn [mbind outcome_bind]. destruct r as [b|].
  - destruct (Hr b eq_refl) as (x & Hx & Hc). exists b, (set_active (Some b) s), bs, fls, x.
    split_and!; try done; [by apply set_active_ok|by left].
  - destruct (new_block aligned_alloc s) as [b s'] eqn:E.
    destruct (new_block_ok _ _ _ _ _ Hok E) as (Hok' & Hb & Hf & Hn & Hlv).
    eexists b, s', _, _, _. split_and!; try done. unfold has_capacity. cbn. pose proof per_block_bound as [? _]. lia.
Qed.

Lemma find_block_ok s bs fls :
  slab_ok s bs fls ->
  exists b s' bs' fls' x, find_block aligned_alloc s = Ret (b, s') /\ slab_ok s' bs' fls' /\
    slab_mem s' !! b = Some x /\ has_capacity x = true /\ found b (slab_mem s) (slab_mem s') /\
    slab_nodes s' = slab_nodes s /\ (forall a, live s' fls' a <-> live s fls a).
Proof.
  intros Hok. unfold find_block. destruct (slab_active s) as [b|] eqn:Ea; [|by eapply find_slow_ok].
  destruct (sl_active _ _ _ Hok b Ea) as [x Hx]. unfold block_deref. rewrite Hx. cbn [mbind outcome_bind].
  destruct (has_capacity x) eqn:Hc; [|by eapply find_slow_ok]. exists b, s, bs, fls, x. split_and!; try done. by left.
Qed.

(** * Taking and returning a node *)

(** Replacing one block record and its free list. *)
Lemma slab_ok_update s bs fls b x x' fl nodes act :
  slab_ok s bs fls -> slab_mem s !! b = Some x -> block_next x' = block_next x ->
  block_ok nodes b x' fl ->
  (forall c y, c <> b -> slab_mem s !! c = Some y -> linked node_next nodes (fls c)) ->
  (forall c, act = Some c -> is_Some (slab_mem s !! c)) ->
  slab_ok (mkSlab (<[b := x']> (slab_mem s)) nodes (slab_blocks s) act) bs (fun c => if decide (c = b) then fl else fls c).
Proof.
  intros [H1 H2 H3 H4 H5 H6] Hx En Hb Ho Ha. split; cbn [slab_mem slab_nodes slab_blocks slab_active]; try done.
  - by apply (linked_insert block_next _ _ b x x').
  - intros c. rewrite H4. destruct (decide (c = b)) as [->|]; [|by rewrite lookup_insert_ne].
    rewrite lookup_insert_eq, Hx. split; by eexists.
  - intros c y. destruct (decide (c = b)) as [->|Hc].
    + rewrite lookup_insert_eq. by intros [= <-].
    + rewrite lookup_insert_ne by done. intros Hy. destruct (H5 c y Hy). split; try done. by apply (Ho c y).
  - intros c Hc. destruct (decide (c = b)) as [->|].
    + rewrite lookup_insert_eq. by eexists.
    + rewrite lookup_insert_ne by done. by apply Ha.
Qed.

(** Live nodes, split at one block. *)
Definition live_in (x : SlabBlock) (b : Z) (fl : list Z) (a : Z) : Prop :=
  exists i, 0 <= i < next_unused x /\ a = slot_address b i /\ a ∉ fl.
Definition live_out (s : Slab N) (fls : Z -> list Z) (b a : Z) : Prop :=
  exists c y i, c <> b /\ slab_mem s !! c = Some y /\ 0 <= i < next_unused y /\ a = slot_address c i /\ a ∉ fls c.

Lemma live_split s fls b x a :
  slab_mem s !! b = Some x -> live s fls a <-> live_in x b (fls b) a \/ live_out s fls b a.
Proof.
  intros Hx. split.
  - intros (c & y & i & Hy & Hi & Ha & Hn). destruct (decide (c = b)) as [->|].
    + left. exists i. assert (y = x) as -> by congruence. split_and!; done || lia.
    + right. by exists c, y, i.
  - intros [(i & Hi & Ha & Hn)|(c & y & i & Hc & Hy & Hi & Ha & Hn)]; [by exists b, x, i|by exists c, y, i].
Qed.

Lemma live_update s fls b x' fl nodes act a :
  live (mkSlab (<[b := x']> (slab_mem s)) nodes (slab_blocks s) act) (fun c => if decide (c = b) then fl else fls c) a
  <-> live_in x' b fl a \/ live_out s fls b a.
Proof.
  rewrite (live_split _ _ b x') by (cbn; by rewrite lookup_insert_eq). rewrite decide_True by done.
  assert (forall P Q R : Prop, Q <-> R -> P \/ Q <-> P \/ R) as Hor by tauto. apply Hor.
  unfold live_out. cbn [slab_mem].
  split; intros (c & y & i & Hc & Hy & Hi & Ha & Hn); exists c, y, i.
  - rewrite lookup_insert_ne in Hy by done. rewrite decide_False in Hn by done. split_and!; done || lia.
  - rewrite lookup_insert_ne, decide_False by done. split_and!; done || lia.
Qed.

(** A slot of the block is not live elsewhere. *)
Lemma live_out_block s bs fls b a : slab_ok s bs fls -> live_out s fls b a -> block_of a <> b.
Proof.
  intros Hok (c & y & i & Hc & Hy & Hi & -> & Hn). pose proof (sl_block _ _ _ Hok _ _ Hy) as H.
  rewrite block_of_slot; [done|apply H|]. pose proof (bo_used _ _ _ _ H). lia.
Qed.

(** What a slab looks like after a node was taken from block [b]. *)
Definition taken (s : Slab N) (bs : list Z) (fls : Z -> list Z) (b : Z) (x : SlabBlock) (a : Z) (s' : Slab N) : Prop :=
  exists fls' x', slab_ok s' bs fls' /\ slab_nodes s' = slab_nodes s /\ slab_mem s' = <[b := x']> (slab_mem s) /\
    live_count x' = live_count x + 1 /\ ~ live s fls a /\ (forall a', live s' fls' a' <-> a' = a \/ live s fls a').

(** Any new record of [b] with that node off its free slots will do. *)
Lemma taken_update s bs fls b x a fl x' :
  slab_ok s bs fls -> slab_mem s !! b = Some x -> block_next x' = block_next x ->
  block_ok (slab_nodes s) b x' fl -> live_count x' = live_count x + 1 -> block_of a = b ->
  ~ live_in x b (fls b) a -> (forall a', live_in x' b fl a' <-> a' = a \/ live_in x b (fls b) a') ->
  taken s bs fls b x a (set_mem (<[b := x']> (slab_mem s)) s).
Proof.
  intros Hok Hx En Hb El Ea Hn Hi. exists (fun c => if decide (c = b) then fl else fls c), x'. split_and!; try done.
  - apply (slab_ok_update s bs fls b x x' fl); try done; [|apply Hok].
    intros c y _ Hy. by destruct (sl_block _ _ _ Hok _ _ Hy).
  - rewrite (live_split _ _ b x _ Hx). intros [H|H]; [done|]. by apply (live_out_block _ _ _ _ _ Hok) in H.
  - intros a'. unfold set_mem. rewrite live_update, (live_split s fls b x a' Hx), Hi. tauto.
Qed.

Lemma take_node_ok s bs fls b x :
  slab_ok s bs fls -> slab_mem s !! b = Some x -> has_capacity x = true ->
  exists a s', take_node b s = Ret (a, s') /\ taken s bs fls b x a s'.
Proof.
  intros Hok Hx Hc. pose proof (sl_block _ _ _ Hok _ _ Hx) as [B1 B2 B3 B4 B5 B6 B7 B8].
  pose proof per_block_u32 as Hpu. unfold take_node, block_deref. rewrite Hx. cbn [mbind outcome_bind].
  unfold has_capacity in Hc. rewrite B6 in *. destruct (fls b) as [|a fl] eqn:Ef; cbn [head length] in *.
  - apply Z.ltb_lt in Hc.
    assert (u32 (next_unused x + 1) = next_unused x + 1) as -> by (apply wrap_small; unfold in_u; lia).
    assert (u32 (live_count x + 1) = live_count x + 1) as -> by (apply wrap_small; unfold in_u; lia).
    eexists _, _. split; [done|]. apply (taken_update s bs fls b x _ []); try done.
    + split; cbn; try done; try lia. by intros a ?%elem_of_nil.
    + apply block_of_slot; [done|lia].
    + intros (i & Hi & E & _). apply slot_inj in E. lia.
    + intros a'. rewrite Ef. unfold live_in. cbn [next_unused]. split.
      * intros (i & Hi & -> & Hn). destruct (decide (i = next_unused x)) as [->|]; [by left|].
        right. exists i. split_and!; try done; lia.
      * intros [->|(i & Hi & -> & Hn)]; eexists; (split; [|split; [done|apply not_elem_of_nil]]); lia.
  - apply linked_cons in B5 as [(n & Hn & En) B5]. unfold node_deref. rewrite Hn. cbn [mbind outcome_bind].
    apply NoDup_cons in B7 as [Ha B7]. destruct (B8 a) as (ia & Hia & Eia); [by left|].
    assert (u32 (live_count x + 1) = live_count x + 1) as -> by (apply wrap_small; unfold in_u; lia).
    eexists _, _. split; [done|]. apply (taken_update s bs fls b x _ fl); try done.
    + split; cbn; try done; try lia. intros a' Ha'. apply B8. by right.
    + subst a. apply block_of_slot; [done|lia].
    + rewrite Ef. intros (i & Hi & E & Hnf). apply Hnf. by left.
    + intros a'. rewrite Ef. unfold live_in. cbn [next_unused]. setoid_rewrite not_elem_of_cons. split.
      * intros (i & Hi & E & Hnf). destruct (decide (a' = a)) as [->|]; [by left|]. right. by exists i.
      * intros [->|(i & Hi & E & _ & Hnf)]; [by exists ia|by exists i].
Qed.

(** Giving a live node back. *)
Lemma push_free_ok s bs fls a n :
  slab_ok s bs fls -> live s fls a -> slab_nodes s !! a = Some n ->
  exists s' fls' x x', push_free a s = Ret (block_of a, s') /\ slab_ok s' bs fls' /\
    slab_mem s !! block_of a = Some x /\ slab_mem s' = <[block_of a := x']> (slab_mem s) /\
    next_unused x' = next_unused x /\ live_count x' = live_count x - 1 /\ 1 <= live_count x /\ 1 <= next_unused x /\
    slab_nodes s' = <[a := node_set_next (free_list x) n]> (slab_nodes s) /\
    (forall a', live s' fls' a' <-> a' <> a /\ live s fls a').
Proof.
  intros Hok Ha Hn. destruct (live_block_of _ _ _ Hok _ Ha) as (x & i & Hx & Hi & Ei & Hnf).
  set (b := block_of a) in *. pose proof (sl_block _ _ _ Hok _ _ Hx) as Hb.
  pose proof Hb as [B1 B2 B3 B4 B5 B6 B7 B8]. pose proof per_block_u32 as Hpu.
  assert (1 <= live_count x) as Hlc by (apply (live_room _ _ _ _ i Hb Hi); by rewrite <- Ei).
  assert (u32 (live_count x - 1) = live_count x - 1) as Eu by (apply wrap_small; unfold in_u; lia).
  unfold push_free, block_deref, node_deref. fold b. rewrite Hx. cbn [mbind outcome_bind]. rewrite Hn.
  cbn [mbind outcome_bind]. rewrite Eu.
  set (x' := mkBlock (block_next x) (Some a) (next_unused x) (live_count x - 1)).
  set (nodes := <[a := node_set_next (free_list x) n]> (slab_nodes s)).
  exists (mkSlab (<[b := x']> (slab_mem s)) nodes (slab_blocks s) (Some b)),
    (fun c => if decide (c = b) then a :: fls b else fls c), x, x'.
  split_and!; try done; [|lia|].
  - apply (slab_ok_update s bs fls b x x' (a :: fls b)); try done.
    + split; cbn [next_unused live_count free_list x']; try done.
      * cbn [length]. lia.
      * lia.
      * apply linked_cons. split; [|by apply linked_insert_ne]. eexists. split; [apply lookup_insert_eq|].
        by rewrite node_next_set.
      * by apply NoDup_cons.
      * intros a' [->|Ha']%elem_of_cons; [by exists i|by apply B8].
    + intros c y Hc Hy. apply linked_insert_ne; [by apply (live_not_free _ _ _ Hok _ _ y)|].
      by destruct (sl_block _ _ _ Hok _ _ Hy).
    + intros c [= <-]. by eexists.
  - intros a'. rewrite live_update, (live_split s fls b x a' Hx). unfold live_in. cbn [next_unused x'].
    setoid_rewrite not_elem_of_cons. split.
    + intros [(j & Hj & E & Hne & Hnf')|Ho].
      * split; [done|]. left. by exists j.
      * split; [|by right]. intros ->. by apply (live_out_block _ _ _ _ _ Hok) in Ho.
    + intros [Hne [(j & Hj & E & Hnf')|Ho]]; [left; by exists j|by right].
Qed.

(** * Freeing an empty block *)

(** Block records up to their list link. *)
Definition same_but_next (x y : SlabBlock) : Prop :=
  free_list x = free_list y /\ next_unused x = next_unused y /\ live_count x = live_count y.

Lemma unlink_block_walk s b l2 : forall mid p fuel,
  linked block_next (slab_mem s) (p :: mid ++ b :: l2) -> b ∉ mid -> (length mid < fuel)%nat ->
  exists p' x y, last (p :: mid) = Some p' /\ slab_mem s !! b = Some x /\ slab_mem s !! p' = Some y /\
    unlink_block fuel b (Some p) (head (mid ++ b :: l2)) s
    = Ret (set_mem (<[p' := mkBlock (block_next x) (free_list y) (next_unused y) (live_count y)]> (slab_mem s)) s).
Proof.
  induction mid as [|m mid IH]; intros p fuel Hl Hb Hf; (destruct fuel as [|fuel]; [cbn in *; lia|]).
  - cbn [app] in Hl. apply linked_cons in Hl as [(y & Hy & _) Hl]. apply linked_cons in Hl as [(x & Hx & _) _].
    exists p, x, y. split_and!; try done. cbn [app head unlink_block]. unfold block_deref. rewrite Hx.
    cbn [mbind outcome_bind]. rewrite Z.eqb_refl, Hy. done.
  - cbn [app] in Hl. apply linked_cons in Hl as [_ Hl]. apply not_elem_of_cons in Hb as [Hm Hb].
    destruct (IH m fuel Hl Hb) as (p' & x & y & E1 & Hx & Hy & E3); [cbn in Hf; lia|].
    exists p', x, y. split_and!; [by rewrite last_cons_cons|done|done|].
    cbn [app head unlink_block]. apply linked_cons in Hl as [(z & Hz & Ez) _]. unfold block_deref. rewrite Hz.
    cbn [mbind outcome_bind]. destruct (Z.eqb_spec m b) as [->|]; [done|]. by rewrite Ez.
Qed.

Lemma unlink_block_ok s bs fls b x :
  slab_ok s bs fls -> slab_mem s !! b = Some x ->
  exists l1 l2 m h, bs = l1 ++ b :: l2 /\
    unlink_block (S (size (slab_mem s))) b None (slab_blocks s) s = Ret (set_blocks h (set_mem m s)) /\
    linked block_next m (l1 ++ l2) /\ h = head (l1 ++ l2) /\
    (forall c, option_relation same_but_next (fun _ => False) (fun _ => False) (m !! c) (slab_mem s !! c)).
Proof.
  intros Hok Hx. pose proof (slab_size _ _ _ Hok) as Hsz. destruct Hok as [Hl Hh Hn Hd _ _].
  assert (forall o : option SlabBlock, option_relation same_but_next (fun _ => False) (fun _ => False) o o) as Hrefl
    by (intros [y|]; by repeat split).
  destruct (list_elem_of_split bs b) as (l1 & l2 & ->); [apply Hd; by eexists|].
  exists l1, l2. rewrite Hh, <- Hsz. destruct l1 as [|a l1].
  - exists (slab_mem s), (head l2). split_and!; [done| | |done|done].
    + cbn [app head length unlink_block]. unfold block_deref. rewrite Hx. cbn [mbind outcome_bind]. rewrite Z.eqb_refl.
      apply linked_cons in Hl as [(x' & Hx' & E) _]. assert (x' = x) as -> by congruence. rewrite E. by destruct s.
    + by apply linked_cons in Hl as [_ Hl].
  - cbn [app] in *. apply NoDup_cons in Hn as [Ha Hn'].
    assert (b ∉ l1) as Hb1.
    { apply NoDup_app in Hn' as (_ & Hdis & _). intros H. apply (Hdis b H). apply list_elem_of_here. }
    destruct (unlink_block_walk s b l2 l1 a (S (length (l1 ++ b :: l2))) Hl Hb1) as (p & x' & y & Ep & Hx' & Hy & Er);
      [rewrite length_app; cbn; lia|]. assert (x' = x) as -> by congruence.
    eexists (<[p := _]> (slab_mem s)), (Some a). split_and!; [done| |..].
    + cbn [head length]. remember (S (length (l1 ++ b :: l2))) as n eqn:En. clear En.
      cbn [unlink_block]. apply linked_cons in Hl as [(z & Hz & Ez) _]. unfold block_deref. rewrite Hz.
      cbn [mbind outcome_bind]. destruct (Z.eqb_spec a b) as [->|].
      { destruct Ha. apply elem_of_app. right. apply list_elem_of_here. }
      rewrite Ez, Er. unfold set_blocks, set_mem. cbn. by rewrite Hh.
    + apply last_Some in Ep as [l' El]. change (a :: l1 ++ l2) with ((a :: l1) ++ l2).
      change (a :: l1 ++ b :: l2) with ((a :: l1) ++ b :: l2) in Hl.
      assert (NoDup ((a :: l1) ++ b :: l2)) as Hn by (by apply NoDup_cons).
      rewrite El, <- app_assoc in *. by apply (linked_unlink block_next (slab_mem s) l' p b l2 x y).
    + done.
    + intros c. destruct (decide (c = p)) as [->|]; [|by rewrite lookup_insert_ne].
      rewrite lookup_insert_eq, Hy. by repeat split.
Qed.

Lemma free_block_ok s bs fls b x :
  slab_ok s bs fls -> slab_mem s !! b = Some x -> live_count x = 0 ->
  exists s' bs', free_block b s = Ret s' /\ slab_ok s' bs' fls /\ slab_mem s' !! b = None /\
    (forall c, c <> b -> option_relation same_but_next (fun _ => False) (fun _ => False) (slab_mem s' !! c) (slab_mem s !! c)) /\
    (forall a, live s' fls a <-> live s fls a) /\
    (forall a, block_of a <> b -> slab_nodes s' !! a = slab_nodes s !! a).
Proof.
  intros Hok Hx H0. destruct (unlink_block_ok s bs fls b x Hok Hx) as (l1 & l2 & m & h & -> & E & Hl & Hh & Hm).
  set (s' := mkSlab (delete b m) (filter (fun p => block_of p.1 <> b) (slab_nodes s)) h None).
  pose proof Hok as [H1 H2 H3 H4 H5 H6]. rewrite <- Permutation_middle in H3. apply NoDup_cons in H3 as [Hb H3].
  assert (forall a, block_of a <> b -> slab_nodes s' !! a = slab_nodes s !! a) as Hnodes.
  { intros a Ha. cbn. destruct (slab_nodes s !! a) as [n|] eqn:En.
    - by apply map_lookup_filter_Some.
    - apply map_lookup_filter_None. by left. }
  assert (forall c y', slab_mem s' !! c = Some y' -> c <> b /\ exists y, slab_mem s !! c = Some y /\ same_but_next y' y) as Hback.
  { intros c y' Hy. cbn in Hy. apply lookup_delete_Some in Hy as [Hc Hy]. split; [done|].
    specialize (Hm c). rewrite Hy in Hm. destruct (slab_mem s !! c) as [y|]; [by exists y|done]. }
  exists s', (l1 ++ l2). split_and!; [unfold free_block; by rewrite E| |apply lookup_delete_eq| | |done].
  - split; [by apply linked_delete|done|done| | |done].
    + intros c. cbn. assert (c ∈ l1 ++ b :: l2 <-> c = b \/ c ∈ l1 ++ l2) as Hin
        by (rewrite !elem_of_app, elem_of_cons; tauto).
      destruct (decide (c = b)) as [->|Hc].
      * rewrite lookup_delete_eq. split; [done|by intros []].
      * rewrite lookup_delete_ne by done. specialize (H4 c). specialize (Hm c).
        destruct (m !! c), (slab_mem s !! c); try done; split; try (by eexists); intros;
          try (destruct H4 as [H4 H4']; destruct (H4 ltac:(tauto)); done); destruct H4 as [_ H4]; specialize (H4 ltac:(by eexists)); tauto.
    + intros c y' Hy. destruct (Hback c y' Hy) as (Hc & y & Hy' & E1 & E2 & E3).
      pose proof (H5 c y Hy') as [B1 B2 B3 B4 B5 B6 B7 B8].
      split; rewrite ?E1, ?E2, ?E3; try done. eapply linked_ext; [|exact B5].
      intros a n Ha Hn. exists n. split; [|done]. rewrite Hnodes; [done|]. by rewrite (free_block_of _ _ _ Hok c y a).
  - intros c Hc. cbn. rewrite lookup_delete_ne by done. apply Hm.
  - intros a. unfold live. split; intros (c & y & i & Hy & Hi & -> & Hn).
    + destruct (Hback c y Hy) as (Hc & y0 & Hy' & _ & E2 & _). exists c, y0, i. rewrite <- E2. split_and!; done || lia.
    + assert (c <> b) as Hc.
      { intros ->. assert (y = x) as -> by congruence. apply Hn. by apply (no_live (slab_nodes s) b x); [apply H5| |]. }
      specialize (Hm c). rewrite Hy in Hm. destruct (m !! c) as [y'|] eqn:Em; [|done].
      exists c, y', i. cbn. rewrite lookup_delete_ne by done. destruct Hm as (_ & E2 & _). rewrite E2. split_and!; done || lia.
Qed.
End SlabSpec.

Section NodeLists.
Context {N : Type} `{HN : Node N} `{HL : !NodeLaws N}.
Implicit Types (s : Slab N).

Definition strip (x : N) : N := node_set_next None x.

Record node_lists s (loose : list Z) (ls : list (list Z)) : Prop := {
  nl_owns : exists L, owns s L /\ forall a, a ∈ L <-> a ∈ loose ++ concat ls;
  nl_nodup : NoDup (loose ++ concat ls);
  nl_linked : Forall (linked node_next (slab_nodes s)) ls;
  nl_loose : Forall (fun a => is_Some (slab_nodes s !! a)) loose;
}.

(** The order of the lists, and empty ones, do not matter. *)
#[global] Instance node_lists_perm s loose : Proper (Permutation ==> impl) (node_lists s loose).
Proof.
  intros ls ls' Hp [(L & Ho & HLs) Hn Hl Hlo].
  assert (loose ++ concat ls ≡ₚ loose ++ concat ls') as E by (by rewrite Hp).
  split; [|by rewrite <- E|by rewrite <- Hp|done]. exists L. split; [done|]. intros a. by rewrite HLs, E.
Qed.

Lemma node_lists_nil s loose ls : node_lists s loose ([] :: ls) <-> node_lists s loose ls.
Proof.
  split; intros [Ho Hn Hl Hlo]; split; try done.
  - by apply Forall_cons in Hl as [_ Hl].
  - apply Forall_cons. split; [apply linked_nil|done].
Qed.

Lemma node_lists_empty : node_lists empty_slab [] [].
Proof.
  split; cbn; [|apply NoDup_nil_2|done|done]. exists ∅. split; [|set_solver]. exists [], (fun _ => []). split.
  - split; cbn; try done; [apply NoDup_nil_2|]. intros b. split; [by intros ?%elem_of_nil|by intros []].
  - intros a. split; [set_solver|]. intros (b & x & i & Hb & _). done.
Qed.

(** Two memories that agree up to links away from one node. *)
Definition agree_except s s' (a : Z) : Prop :=
  forall a', a' <> a -> strip <$> slab_nodes s' !! a' = strip <$> slab_nodes s !! a'.

(** The nodes of [l] hold the records [xs]. *)
Definition holds s (l : list Z) (xs : list N) : Prop :=
  Forall2 (fun a x => strip <$> slab_nodes s !! a = Some x) l xs.

Lemma holds_ext s s' l xs :
  (forall a, a ∈ l -> strip <$> slab_nodes s' !! a = strip <$> slab_nodes s !! a) -> holds s l xs -> holds s' l xs.
Proof.
  intros He H. induction H as [|a x l xs Ha H IH]; constructor.
  - rewrite He; [done|]. apply list_elem_of_here.
  - apply IH. intros b Hb. apply He. by right.
Qed.

Lemma holds_except s s' a l xs : agree_except s s' a -> a ∉ l -> holds s l xs -> holds s' l xs.
Proof. intros He Hn. apply holds_ext. intros b Hb. apply He. by intros ->. Qed.

(** * Moves that touch no memory *)

Lemma node_lists_pop s loose a l ls :
  node_lists s loose ((a :: l) :: ls) -> node_lists s (a :: loose) (l :: ls).
Proof.
  intros [(L & Ho & HLs) Hn Hl Hlo]. apply Forall_cons in Hl as [Hl Hls]. cbn [concat] in *.
  assert (loose ++ (a :: l) ++ concat ls ≡ₚ (a :: loose) ++ l ++ concat ls) as E
    by (cbn; by rewrite <- Permutation_middle).
  split.
  - exists L. split; [done|]. intros b. cbn [concat]. by rewrite HLs, E.
  - cbn [concat]. by rewrite <- E.
  - apply linked_cons in Hl as [_ Hl]. by apply Forall_cons.
  - apply linked_cons in Hl as [(x & Hx & _) _]. apply Forall_cons. split; [by eexists|done].
Qed.

(** A loose node with no successor is a list of its own. *)
Lemma node_lists_singleton s loose a x ls :
  node_lists s (a :: loose) ls -> slab_nodes s !! a = Some x -> node_next x = None -> node_lists s loose ([a] :: ls).
Proof.
  intros [(L & Ho & HLs) Hn Hl Hlo] Hx Ex. apply Forall_cons in Hlo as [_ Hlo].
  assert (loose ++ concat ([a] :: ls) ≡ₚ (a :: loose) ++ concat ls) as E
    by (cbn; by rewrite <- Permutation_middle).
  split; [| |apply Forall_cons; split; [|done]|done].
  - exists L. split; [done|]. intros b. by rewrite HLs, E.
  - by rewrite E.
  - apply linked_cons. split; [by exists x|apply linked_nil].
Qed.

(** * Writes *)

Lemma node_write_same s a x a' : a' <> a -> slab_nodes (node_write a x s) !! a' = slab_nodes s !! a'.
Proof. intros. cbn. by rewrite lookup_insert_ne. Qed.
Lemma node_write_eq s a x : slab_nodes (node_write a x s) !! a = Some x.
Proof. cbn. apply lookup_insert_eq. Qed.

Lemma owns_write s L a x : owns s L -> a ∈ L -> owns (node_write a x s) L.
Proof using HL.
  intros (bs & fls & Hok & HLs) Ha. exists bs, fls. split; [|done]. apply node_write_ok; [done|]. by apply HLs.
Qed.

Lemma node_lists_write_loose s a x loose ls :
  node_lists s (a :: loose) ls -> node_lists (node_write a x s) (a :: loose) ls.
Proof using HL.
  intros [(L & Ho & HLs) Hn Hl Hlo]. split; [|done| |].
  - exists L. split; [|done]. apply owns_write; [done|]. apply HLs. left.
  - cbn [app] in Hn. apply NoDup_cons in Hn as [Hn _]. rewrite elem_of_app in Hn.
    apply Forall_forall. intros l Hin. rewrite Forall_forall in Hl. apply linked_insert_ne; [|by apply Hl].
    intros Ha. apply Hn. right. apply list_elem_of_In, in_concat. exists l. by rewrite <- !list_elem_of_In.
  - apply Forall_forall. intros b Hb. rewrite Forall_forall in Hlo. cbn.
    destruct (decide (b = a)) as [->|]; [rewrite lookup_insert_eq; by eexists|].
    rewrite lookup_insert_ne by done. by apply Hlo.
Qed.

(** Pushing a loose node in front of a list. *)
Lemma node_lists_push s a x loose l ls :
  node_lists s (a :: loose) (l :: ls) -> node_next x = head l -> node_lists (node_write a x s) loose ((a :: l) :: ls).
Proof using HL.
  intros H Ex. apply (node_lists_write_loose s a x) in H. destruct H as [(L & Ho & HLs) Hn Hl Hlo].
  apply Forall_cons in Hl as [Hl Hls]. apply Forall_cons in Hlo as [_ Hlo]. cbn [concat] in *.
  assert (loose ++ (a :: l) ++ concat ls ≡ₚ (a :: loose) ++ l ++ concat ls) as E
    by (cbn; by rewrite <- Permutation_middle).
  split; cbn [concat]; [| |apply Forall_cons; split; [|done]|done].
  - exists L. split; [done|]. intros b. by rewrite HLs, E.
  - by rewrite E.
  - apply linked_cons. split; [|done]. exists x. by rewrite node_write_eq.
Qed.

(** Appending a loose node without successor behind the last node of a list. *)
Lemma node_lists_append s a x t y loose l ls :
  node_lists s (a :: loose) ((l ++ [t]) :: ls) -> slab_nodes s !! a = Some x -> node_next x = None ->
  slab_nodes s !! t = Some y ->
  node_lists (node_write t (node_set_next (Some a) y) s) loose ((l ++ [t; a]) :: ls).
Proof using HL.
  intros [(L & Ho & HLs) Hn Hl Hlo] Hx Ex Hy. apply Forall_cons in Hl as [Hl Hls]. apply Forall_cons in Hlo as [_ Hlo].
  cbn [concat] in *.
  assert (loose ++ (l ++ [t; a]) ++ concat ls ≡ₚ (a :: loose) ++ (l ++ [t]) ++ concat ls) as E.
  { change [t; a] with ([t] ++ [a]). rewrite (app_assoc l [t] [a]). cbn [app].
    rewrite (Permutation_app_comm (l ++ [t]) [a]). cbn [app]. by rewrite <- Permutation_middle. }
  assert (t ∈ (a :: loose) ++ (l ++ [t]) ++ concat ls) as Ht
    by (rewrite !elem_of_app; right; left; right; by apply list_elem_of_singleton).
  assert (NoDup (l ++ [t]) /\ a ∉ l ++ [t]) as [Hnl Hal].
  { cbn [app] in Hn. apply NoDup_cons in Hn as [Hna Hn]. apply NoDup_app in Hn as (_ & _ & Hn).
    apply NoDup_app in Hn as (Hn & _ & _). split; [done|]. rewrite !elem_of_app in *. tauto. }
  assert (forall l', l' ∈ ls -> t ∉ l') as Hother.
  { intros l' Hin Htl. cbn [app] in Hn. apply NoDup_cons in Hn as [_ Hn]. apply NoDup_app in Hn as (_ & _ & Hn).
    apply NoDup_app in Hn as (_ & Hdis & _). apply (Hdis t).
    - apply elem_of_app. right. by apply list_elem_of_singleton.
    - apply list_elem_of_In, in_concat. exists l'. by rewrite <- !list_elem_of_In. }
  split; cbn [concat]; [| |apply Forall_cons; split|].
  - exists L. split; [apply owns_write; [done|by apply HLs]|]. intros b. by rewrite HLs, E.
  - by rewrite E.
  - apply (linked_snoc node_next (slab_nodes s) l t a Hl Hal x Hx Ex y); [done|apply node_next_set|done].
  - apply Forall_forall. intros l' Hin. rewrite Forall_forall in Hls. apply linked_insert_ne; [by apply Hother|by apply Hls].
  - apply Forall_forall. intros b Hb. rewrite Forall_forall in Hlo. cbn.
    destruct (decide (b = t)) as [->|]; [rewrite lookup_insert_eq; by eexists|].
    rewrite lookup_insert_ne by done. by apply Hlo.
Qed.

(** * Allocation and release *)

(** Ownership survives any change of memory that keeps the owned nodes. *)
Lemma node_lists_ext s s' L loose ls :
  owns s' L -> (forall a, a ∈ L <-> a ∈ loose ++ concat ls) -> NoDup (loose ++ concat ls) ->
  Forall (linked node_next (slab_nodes s)) ls -> Forall (fun a => is_Some (slab_nodes s !! a)) loose ->
  (forall a, a ∈ loose ++ concat ls -> slab_nodes s' !! a = slab_nodes s !! a) -> node_lists s' loose ls.
Proof.
  intros Ho HLs Hn Hl Hlo He. split; [by exists L|done| |].
  - apply Forall_forall. intros l Hin. rewrite Forall_forall in Hl. eapply linked_ext; [|by apply Hl].
    intros a x Ha Hx. exists x. split; [|done]. rewrite He; [done|]. apply elem_of_app. right.
    apply list_elem_of_In, in_concat. exists l. by rewrite <- !list_elem_of_In.
  - apply Forall_forall. intros a Ha. rewrite Forall_forall in Hlo. rewrite He; [by apply Hlo|].
    apply elem_of_app. by left.
Qed.

Context (aligned_alloc : gmap Z SlabBlock -> Z).
Hypothesis alloc_fresh : forall m, m !! aligned_alloc m = None.
Hypothesis alloc_aligned : forall m, aligned_alloc m mod SLAB_BLOCK_SIZE = 0.

Lemma node_lists_alloc s loose ls :
  node_lists s loose ls ->
  exists b s1 x a s2 x', find_block aligned_alloc s = Ret (b, s1) /\ block_deref s1 b = Ret x /\
    take_node b s1 = Ret (a, s2) /\ (a ∉ loose ++ concat ls) /\ slab_nodes s2 = slab_nodes s /\
    found b (slab_mem s) (slab_mem s1) /\ slab_mem s1 !! b = Some x /\ slab_mem s2 = <[b := x']> (slab_mem s1) /\
    0 <= live_count x /\ live_count x' = live_count x + 1 /\
    (forall n, node_lists (node_write a n s2) (a :: loose) ls).
Proof using HL alloc_aligned alloc_fresh.
  intros [(L & (bs & fls & Hok & HLv) & HLs) Hn Hl Hlo].
  destruct (find_block_ok _ alloc_fresh alloc_aligned s bs fls Hok) as (b & s1 & bs1 & fls1 & x & E1 & Hok1 & Hx & Hc & Hf & En1 & Hlv1).
  destruct (take_node_ok s1 bs1 fls1 b x Hok1 Hx Hc) as (a & s2 & E2 & fls2 & x' & Hok2 & En2 & Em & El & Hna & Hlv2).
  assert (a ∉ loose ++ concat ls) as Ha by (rewrite <- HLs, HLv, <- Hlv1; done).
  exists b, s1, x, a, s2, x'. split_and!; try done.
  - unfold block_deref. by rewrite Hx.
  - by rewrite En2.
  - apply (sl_block _ _ _ Hok1 _ _ Hx).
  - intros n. apply (node_lists_ext (node_write a n s) _ ({[a]} ∪ L)).
    + apply owns_write; [|set_solver]. exists bs1, fls2. split; [done|]. intros a'. rewrite Hlv2, Hlv1, <- HLv. set_solver.
    + intros a'. cbn [app]. rewrite elem_of_cons, <- HLs. set_solver.
    + cbn [app]. by apply NoDup_cons.
    + apply Forall_forall. intros l Hin. rewrite Forall_forall in Hl. apply linked_insert_ne; [|by apply Hl].
      intros Hal. apply Ha. apply elem_of_app. right. apply list_elem_of_In, in_concat. exists l. by rewrite <- !list_elem_of_In.
    + apply Forall_forall. intros c Hc'. cbn. destruct (decide (c = a)) as [->|]; [rewrite lookup_insert_eq; by eexists|].
      rewrite lookup_insert_ne by done. rewrite Forall_forall in Hlo. apply Hlo.
      apply elem_of_cons in Hc' as [|]; done.
    + intros a' _. cbn. by rewrite En2, En1.
Qed.

(** Giving back the loose node [a]; the client decides whether an empty block is
    freed. *)
Lemma node_lists_release s a loose ls :
  node_lists s (a :: loose) ls ->
  exists s1 x x', push_free a s = Ret (block_of a, s1) /\ block_deref s1 (block_of a) = Ret x' /\
    slab_mem s !! block_of a = Some x /\ slab_mem s1 = <[block_of a := x']> (slab_mem s) /\
    next_unused x' = next_unused x /\ 1 <= next_unused x /\ 1 <= live_count x /\ live_count x' = live_count x - 1 /\
    node_lists s1 loose ls /\
    (forall c, c ∈ loose ++ concat ls -> slab_nodes s1 !! c = slab_nodes s !! c) /\
    (live_count x' = 0 -> exists s2, free_block (block_of a) s1 = Ret s2 /\ node_lists s2 loose ls /\
       slab_mem s2 !! block_of a = None /\
       (forall c, c <> block_of a -> option_relation same_but_next (fun _ => False) (fun _ => False) (slab_mem s2 !! c) (slab_mem s1 !! c)) /\
       (forall c, c ∈ loose ++ concat ls -> slab_nodes s2 !! c = slab_nodes s !! c)).
Proof using HL.
  intros [(L & (bs & fls & Hok & HLv) & HLs) Hn Hl Hlo]. cbn [app] in *. apply NoDup_cons in Hn as [Ha Hn].
  apply Forall_cons in Hlo as [[n Hna] Hlo].
  assert (live s fls a) as Hlive by (apply HLv, HLs; left).
  destruct (push_free_ok s bs fls a n Hok Hlive Hna) as (s1 & fls1 & x & x' & E1 & Hok1 & Hx & Em & En & El & Hlc & Hnu & Enodes & Hlv1).
  assert (forall c, c ∈ loose ++ concat ls -> slab_nodes s1 !! c = slab_nodes s !! c) as Hag.
  { intros c Hc. rewrite Enodes, lookup_insert_ne; [done|]. by intros ->. }
  assert (forall c, c ∈ L ∖ {[a]} <-> c ∈ loose ++ concat ls) as HLs1.
  { intros c. rewrite elem_of_difference, elem_of_singleton, HLs, elem_of_cons. split; [tauto|].
    intros Hc. split; [by right|]. by intros ->. }
  assert (forall c, c ∈ L ∖ {[a]} <-> live s1 fls1 c) as HLv1.
  { intros c. rewrite elem_of_difference, elem_of_singleton, HLv, Hlv1. tauto. }
  exists s1, x, x'. split_and!; try done.
  - unfold block_deref. by rewrite Em, lookup_insert_eq.
  - apply (node_lists_ext s s1 (L ∖ {[a]})); try done. by exists bs, fls1.
  - intros H0. assert (slab_mem s1 !! block_of a = Some x') as Hx1 by (by rewrite Em, lookup_insert_eq).
    destruct (free_block_ok s1 bs fls1 (block_of a) x' Hok1 Hx1 H0) as (s2 & bs2 & E2 & Hok2 & Hm2 & Hms & Hlv2 & Hnd2).
    assert (forall c, c ∈ loose ++ concat ls -> slab_nodes s2 !! c = slab_nodes s !! c) as Hag2.
    { intros c Hc. rewrite Hnd2; [by apply Hag|]. intros Eb. apply HLs1, HLv1, Hlv2 in Hc.
      destruct (live_block_of _ _ _ Hok2 _ Hc) as (y & i & Hy & _). rewrite Eb, Hm2 in Hy. done. }
    exists s2. split_and!; try done.
    apply (node_lists_ext s s2 (L ∖ {[a]})); try done. exists bs2, fls1. split; [done|]. intros c. by rewrite HLv1, Hlv2.
Qed.
End NodeLists.
