(* ===== verification/Promise.v ===== *)
(** Promises and the microtask queue: promise_object.c, microtask.c and the
    registration functions of builtin_promise.c, as built with MAL_NODE and
    MAL_PRIMORDIALS_LOCKED. Reaction and job nodes live in slabs; a promise owns a
    linked list of reactions, the VM a linked list of jobs. Dereferencing a node
    that is not allocated is [Abort].

    Running a job is the interpreter's business: [drain_begin] takes the job off
    the queue and installs its context, the code it runs is any sequence of the
    operations below, [drain_end] recycles the node. Counters, the root spans of a
    context scope and the async owner of a promise are not modelled. *)

From stdpp Require Import gmap.
From S2P Require Import Prelude F64 Value Slab.

Inductive MalPromiseState : Set := MAL_PROMISE_PENDING | MAL_PROMISE_FULFILLED | MAL_PROMISE_REJECTED.
#[export] Instance MalPromiseState_eq_dec : EqDecision MalPromiseState.
Proof. solve_decision. Defined.

Record MalPromiseReaction : Type := mkReaction {
  r_next : option Z;
  cap_resolve : Z; cap_reject : Z; on_fulfilled : Z; on_rejected : Z;
  r_context : Z;
}.

Record MalPromiseObject : Type := mkPromise {
  p_state : MalPromiseState;
  is_handled : bool;
  result : Z;
  reactions_head : option Z;
  reactions_tail : option Z;
}.

Inductive MalJobKind : Set :=
| MAL_JOB_PROMISE_REACTION | MAL_JOB_PROMISE_ALL | MAL_JOB_PROMISE_RESOLVE_THENABLE | MAL_JOB_ASYNC_AWAIT
| MAL_JOB_ASYNC_GENERATOR_RETURN | MAL_JOB_ASYNC_FROM_SYNC | MAL_JOB_DISPOSE_RESOURCES | MAL_JOB_HOST_CALLBACK.

(** The union of a job; [PNone] until it is written. *)
Inductive JobPayload : Type :=
| PNone
| PReaction (handler cap_resolve cap_reject argument : Z)
| PThenable (then_ thenable resolve_fn reject_fn : Z)
| PHost (fn data argument : Z).

Record MalJob : Type := mkJob {
  j_next : option Z;
  kind : MalJobKind;
  is_reject : bool;
  iterator_done : bool;
  close_on_rejection : bool;
  j_context : Z;
  payload : JobPayload;
}.

(** The 48-byte reaction node and the 56-byte job node. *)
#[export] Instance reaction_node : Node MalPromiseReaction := {|
  node_next := r_next;
  node_set_next r x := mkReaction r (cap_resolve x) (cap_reject x) (on_fulfilled x) (on_rejected x) (r_context x);
  node_size := 48;
|}.
#[export] Instance job_node : Node MalJob := {|
  node_next := j_next;
  node_set_next r x := mkJob r (kind x) (is_reject x) (iterator_done x) (close_on_rejection x) (j_context x) (payload x);
  node_size := 56;
|}.
#[export] Instance reaction_node_laws : NodeLaws MalPromiseReaction.
Proof. split; [done|cbn; unfold SLAB_BLOCK_SIZE, SLAB_HEADER; lia]. Qed.
#[export] Instance job_node_laws : NodeLaws MalJob.
Proof. split; [done|cbn; unfold SLAB_BLOCK_SIZE, SLAB_HEADER; lia]. Qed.

(** The isolate as these files see it. [shaded] and [cards] record the calls of
    mal_gc_write_barrier and mal_gc_card, [async_scope] is the drain loop's saved
    context while it has one installed. *)
Record PromiseVm : Type := mkVm {
  reactions : Slab MalPromiseReaction;
  reaction_pool : option Z;
  reaction_pool_count : Z;
  jobs : Slab MalJob;
  job_idle_block_count : Z;
  job_head : option Z;
  job_tail : option Z;
  active_job : option Z;
  promises : gmap Z MalPromiseObject;
  async_context : Z;
  async_scope : option Z;
  unhandled_rejections : list Z;
  shaded : list Z;
  cards : list (Z * Z);
}.

Definition with_reactions (x : Slab MalPromiseReaction) (v : PromiseVm) : PromiseVm :=
  mkVm x (reaction_pool v) (reaction_pool_count v) (jobs v) (job_idle_block_count v) (job_head v) (job_tail v)
    (active_job v) (promises v) (async_context v) (async_scope v) (unhandled_rejections v) (shaded v) (cards v).
Definition with_pool (x : option Z) (n : Z) (v : PromiseVm) : PromiseVm :=
  mkVm (reactions v) x n (jobs v) (job_idle_block_count v) (job_head v) (job_tail v)
    (active_job v) (promises v) (async_context v) (async_scope v) (unhandled_rejections v) (shaded v) (cards v).
Definition with_jobs (x : Slab MalJob) (idle : Z) (v : PromiseVm) : PromiseVm :=
  mkVm (reactions v) (reaction_pool v) (reaction_pool_count v) x idle (job_head v) (job_tail v)
    (active_job v) (promises v) (async_context v) (async_scope v) (unhandled_rejections v) (shaded v) (cards v).
Definition with_job_queue (h t : option Z) (v : PromiseVm) : PromiseVm :=
  mkVm (reactions v) (reaction_pool v) (reaction_pool_count v) (jobs v) (job_idle_block_count v) h t
    (active_job v) (promises v) (async_context v) (async_scope v) (unhandled_rejections v) (shaded v) (cards v).
Definition with_active (x : option Z) (v : PromiseVm) : PromiseVm :=
  mkVm (reactions v) (reaction_pool v) (reaction_pool_count v) (jobs v) (job_idle_block_count v) (job_head v) (job_tail v)
    x (promises v) (async_context v) (async_scope v) (unhandled_rejections v) (shaded v) (cards v).
Definition with_promises (x : gmap Z MalPromiseObject) (v : PromiseVm) : PromiseVm :=
  mkVm (reactions v) (reaction_pool v) (reaction_pool_count v) (jobs v) (job_idle_block_count v) (job_head v) (job_tail v)
    (active_job v) x (async_context v) (async_scope v) (unhandled_rejections v) (shaded v) (cards v).
Definition with_context (c : Z) (scope : option Z) (v : PromiseVm) : PromiseVm :=
  mkVm (reactions v) (reaction_pool v) (reaction_pool_count v) (jobs v) (job_idle_block_count v) (job_head v) (job_tail v)
    (active_job v) (promises v) c scope (unhandled_rejections v) (shaded v) (cards v).
Definition with_unhandled (x : list Z) (v : PromiseVm) : PromiseVm :=
  mkVm (reactions v) (reaction_pool v) (reaction_pool_count v) (jobs v) (job_idle_block_count v) (job_head v) (job_tail v)
    (active_job v) (promises v) (async_context v) (async_scope v) x (shaded v) (cards v).
(** mal_gc_write_barrier and mal_gc_card. *)
Definition shade (xs : list Z) (v : PromiseVm) : PromiseVm :=
  mkVm (reactions v) (reaction_pool v) (reaction_pool_count v) (jobs v) (job_idle_block_count v) (job_head v) (job_tail v)
    (active_job v) (promises v) (async_context v) (async_scope v) (unhandled_rejections v) (shaded v ++ xs) (cards v).
Definition card (xs : list (Z * Z)) (v : PromiseVm) : PromiseVm :=
  mkVm (reactions v) (reaction_pool v) (reaction_pool_count v) (jobs v) (job_idle_block_count v) (job_head v) (job_tail v)
    (active_job v) (promises v) (async_context v) (async_scope v) (unhandled_rejections v) (shaded v) (cards v ++ xs).

Definition promise_deref (v : PromiseVm) (p : Z) : outcome MalPromiseObject :=
  match promises v !! p with Some x => Ret x | None => Abort end.
Definition promise_write (p : Z) (x : MalPromiseObject) (v : PromiseVm) : PromiseVm :=
  with_promises (<[p := x]> (promises v)) v.

(** * Internal tags *)

Definition mal_promise_await_reaction_tag : Z := mal_value_from_i32 INT32_MIN.
Definition mal_promise_async_generator_return_reaction_tag : Z := mal_value_from_i32 (INT32_MIN + 1).
Definition mal_promise_async_from_sync_reaction_tag (done close_on_rejection : bool) : Z :=
  let flags := Z.lor (if done then 1 else 0) (if close_on_rejection then 2 else 0) in
  mal_value_from_i32 (INT32_MIN + 2 + flags).
Definition mal_promise_is_async_from_sync_reaction_tag (value : Z) : option (bool * bool) :=
  if negb (mal_value_is_int32 value) then None
  else
    let tag := mal_value_to_i32 value in
    if (tag <? INT32_MIN + 2) || (INT32_MIN + 5 <? tag) then None
    else
      let flags := tag - (INT32_MIN + 2) in
      Some (negb (Z.land flags 1 =? 0), negb (Z.land flags 2 =? 0)).
Definition mal_promise_dispose_resources_reaction_tag : Z := mal_value_from_i32 (INT32_MIN + 6).
Definition mal_promise_all_reaction_tag : Z := mal_value_from_i32 (INT32_MIN + 7).

(** [(u32) mal_ops_number_as_f64(value)]. *)
Definition mal_ops_number_as_f64 (value : Z) : Z :=
  if value <? MAL_VALUE_TAG_BASE then mal_value_to_f64 value
  else f64_of_int (i32 (Z.land value MASK_INT32)).
Definition index_of_number (value : Z) : Z := u32 (f64_to_int (mal_ops_number_as_f64 value)).

Section Promise.
Context (h : HeapCells) (aligned_alloc : gmap Z SlabBlock -> Z) (promise_constructor : Z).

Definition mal_async_internal_value (cell : Z) : Z :=
  if cell =? 0 then MAL_VALUE_UNDEFINED else mal_value_from_heap h cell.

(** * Reaction nodes *)

Definition MAL_PROMISE_REACTION_POOL_LIMIT : Z := 4096.

Definition mal_promise_allocate_reaction (v : PromiseVm) : outcome (Z * PromiseVm) :=
  '(b, s) ← find_block aligned_alloc (reactions v);
  '(a, s) ← take_node b s;
  Ret (a, with_reactions s v).

Definition mal_promise_release_reaction (a : Z) (v : PromiseVm) : outcome PromiseVm :=
  '(b, s) ← push_free a (reactions v);
  x ← block_deref s b;
  if negb (live_count x =? 0) then Ret (with_reactions s v)
  else
    s ← free_block b s;
    Ret (with_reactions s v).

(** The words of a reaction the collector traces. *)
Definition reaction_words (x : MalPromiseReaction) : list Z :=
  [on_fulfilled x; on_rejected x; cap_resolve x; cap_reject x; mal_async_internal_value (r_context x)].
Definition cleared_reaction (x : MalPromiseReaction) : MalPromiseReaction :=
  mkReaction (r_next x) MAL_VALUE_UNDEFINED MAL_VALUE_UNDEFINED MAL_VALUE_UNDEFINED MAL_VALUE_UNDEFINED 0.

(** A node from the pool, else from the slab. *)
Definition take_reaction (v : PromiseVm) : outcome (Z * PromiseVm) :=
  match reaction_pool v with
  | None => mal_promise_allocate_reaction v
  | Some a =>
      x ← node_deref (reactions v) a;
      Ret (a, with_pool (r_next x) (reaction_pool_count v - 1) v)
  end.

Definition mal_promise_append_reaction_internal (p onf onr cr cj : Z) (v : PromiseVm) : outcome PromiseVm :=
  '(a, v) ← take_reaction v;
  let x := mkReaction None cr cj onf onr (async_context v) in
  let v := with_reactions (node_write a x (reactions v)) v in
  o ← promise_deref v p;
  v ← match reactions_tail o with
      | None => Ret (promise_write p (mkPromise (p_state o) (is_handled o) (result o) (Some a) (reactions_tail o)) v)
      | Some t =>
          y ← node_deref (reactions v) t;
          Ret (with_reactions (node_write t (node_set_next (Some a) y) (reactions v)) v)
      end;
  o ← promise_deref v p;
  let v := promise_write p (mkPromise (p_state o) (is_handled o) (result o) (reactions_head o) (Some a)) v in
  Ret (card (map (pair p) (reaction_words x)) v).

Definition mal_promise_append_reaction (p onf onr cr cj : Z) (v : PromiseVm) : outcome PromiseVm :=
  mal_promise_append_reaction_internal p onf onr cr cj v.
Definition mal_promise_append_await_reaction (p state : Z) (v : PromiseVm) : outcome PromiseVm :=
  mal_promise_append_reaction_internal p MAL_VALUE_UNDEFINED MAL_VALUE_UNDEFINED
    mal_promise_await_reaction_tag state v.
Definition mal_promise_append_all_reaction (p state index : Z) (v : PromiseVm) : outcome PromiseVm :=
  mal_promise_append_reaction_internal p (mal_value_from_u32 index) MAL_VALUE_UNDEFINED
    mal_promise_all_reaction_tag state v.
Definition mal_promise_append_async_generator_return_reaction (p generator realm_anchor : Z) (v : PromiseVm)
    : outcome PromiseVm :=
  mal_promise_append_reaction_internal p realm_anchor MAL_VALUE_UNDEFINED
    mal_promise_async_generator_return_reaction_tag generator v.
Definition mal_promise_append_async_from_sync_reaction (p sync_iterator result_promise realm_anchor : Z)
    (done close_on_rejection : bool) (v : PromiseVm) : outcome PromiseVm :=
  mal_promise_append_reaction_internal p result_promise realm_anchor
    (mal_promise_async_from_sync_reaction_tag done close_on_rejection) sync_iterator v.
Definition mal_promise_append_dispose_resources_reaction (p stack result_promise realm_anchor : Z) (v : PromiseVm)
    : outcome PromiseVm :=
  mal_promise_append_reaction_internal p result_promise realm_anchor
    mal_promise_dispose_resources_reaction_tag stack v.

(** Frees a pending list without scheduling it. *)
Fixpoint mal_promise_free_reactions (fuel : nat) (list : option Z) (v : PromiseVm) : outcome PromiseVm :=
  match fuel with
  | O => NoFuel
  | S fuel =>
      match list with
      | None => Ret v
      | Some a =>
          x ← node_deref (reactions v) a;
          let v := shade (reaction_words x) v in
          let v := with_reactions (node_write a (cleared_reaction x) (reactions v)) v in
          v ← mal_promise_release_reaction a v;
          mal_promise_free_reactions fuel (r_next x) v
      end
  end.

Definition mal_promise_recycle_barriered_reaction (a : Z) (v : PromiseVm) : outcome PromiseVm :=
  x ← node_deref (reactions v) a;
  let v := with_reactions (node_write a (cleared_reaction x) (reactions v)) v in
  if MAL_PROMISE_REACTION_POOL_LIMIT <=? reaction_pool_count v then mal_promise_release_reaction a v
  else
    let v := with_reactions (node_write a (node_set_next (reaction_pool v) (cleared_reaction x)) (reactions v)) v in
    Ret (with_pool (Some a) (reaction_pool_count v + 1) v).

Fixpoint mal_promise_barrier_reactions (fuel : nat) (list : option Z) (v : PromiseVm) : outcome PromiseVm :=
  match fuel with
  | O => NoFuel
  | S fuel =>
      match list with
      | None => Ret v
      | Some a =>
          x ← node_deref (reactions v) a;
          mal_promise_barrier_reactions fuel (r_next x) (shade (reaction_words x) v)
      end
  end.

(** * Jobs *)

Definition MAL_PROMISE_JOB_RETAINED_BLOCK_LIMIT : Z := 6.

Definition mal_job_new (k : MalJobKind) (v : PromiseVm) : outcome (Z * PromiseVm) :=
  '(b, s) ← find_block aligned_alloc (jobs v);
  x ← block_deref s b;
  let idle := if (live_count x =? 0) && negb (next_unused x =? 0)
              then job_idle_block_count v - 1 else job_idle_block_count v in
  '(a, s) ← take_node b s;
  Ret (a, with_jobs (node_write a (mkJob None k false false false (async_context v) PNone) s) idle v).

Definition mal_job_release (a : Z) (v : PromiseVm) : outcome PromiseVm :=
  '(b, s) ← push_free a (jobs v);
  x ← block_deref s b;
  if negb (live_count x =? 0) then Ret (with_jobs s (job_idle_block_count v) v)
  else if job_idle_block_count v <? MAL_PROMISE_JOB_RETAINED_BLOCK_LIMIT
  then Ret (with_jobs s (job_idle_block_count v + 1) v)
  else
    s ← free_block b s;
    Ret (with_jobs s (job_idle_block_count v) v).

(** The traced words of a job's payload, and the payload with them cleared. *)
Definition payload_words (p : JobPayload) : list Z :=
  match p with
  | PNone => []
  | PReaction a b c d => [a; b; c; d]
  | PThenable a b c d => [a; b; c; d]
  | PHost _ _ a => [a]
  end.
Definition cleared_payload (p : JobPayload) : JobPayload :=
  let u := MAL_VALUE_UNDEFINED in
  match p with
  | PNone => PNone
  | PReaction _ _ _ _ => PReaction u u u u
  | PThenable _ _ _ _ => PThenable u u u u
  | PHost _ _ _ => PHost 0 0 u
  end.

Definition mal_job_recycle (a : Z) (v : PromiseVm) : outcome PromiseVm :=
  x ← node_deref (jobs v) a;
  let v := shade (payload_words (payload x) ++ [mal_async_internal_value (j_context x)]) v in
  let x := mkJob (j_next x) (kind x) (is_reject x) (iterator_done x) (close_on_rejection x) 0
             (cleared_payload (payload x)) in
  let v := with_jobs (node_write a x (jobs v)) (job_idle_block_count v) v in
  mal_job_release a (with_active None v).

Definition mal_vm_enqueue (a : Z) (v : PromiseVm) : outcome PromiseVm :=
  match job_tail v with
  | None => Ret (with_job_queue (Some a) (Some a) v)
  | Some t =>
      x ← node_deref (jobs v) t;
      Ret (with_job_queue (job_head v) (Some a)
             (with_jobs (node_write t (node_set_next (Some a) x) (jobs v)) (job_idle_block_count v) v))
  end.

(** A new job of the kind with these fields, at the end of the queue. *)
Definition enqueue_new (k : MalJobKind) (reject done close : bool) (context : option Z) (p : JobPayload)
    (v : PromiseVm) : outcome PromiseVm :=
  '(a, v) ← mal_job_new k v;
  x ← node_deref (jobs v) a;
  let c := match context with Some c => c | None => j_context x end in
  let x := mkJob (j_next x) (kind x) reject done close c p in
  mal_vm_enqueue a (with_jobs (node_write a x (jobs v)) (job_idle_block_count v) v).

Definition mal_vm_enqueue_async_from_sync_job_with_context (sync_iterator result_promise realm_anchor : Z)
    (done close reject : bool) (argument context : Z) (v : PromiseVm) : outcome PromiseVm :=
  enqueue_new MAL_JOB_ASYNC_FROM_SYNC reject done close (Some context)
    (PReaction sync_iterator result_promise realm_anchor argument) v.
Definition mal_vm_enqueue_async_from_sync_job (sync_iterator result_promise realm_anchor : Z)
    (done close reject : bool) (argument : Z) (v : PromiseVm) : outcome PromiseVm :=
  mal_vm_enqueue_async_from_sync_job_with_context sync_iterator result_promise realm_anchor done close reject argument
    (async_context v) v.
Definition mal_vm_enqueue_dispose_resources_job_with_context (stack result_promise realm_anchor : Z) (reject : bool)
    (argument context : Z) (v : PromiseVm) : outcome PromiseVm :=
  enqueue_new MAL_JOB_DISPOSE_RESOURCES reject false false (Some context)
    (PReaction stack result_promise realm_anchor argument) v.
Definition mal_vm_enqueue_dispose_resources_job (stack result_promise realm_anchor : Z) (reject : bool)
    (argument : Z) (v : PromiseVm) : outcome PromiseVm :=
  mal_vm_enqueue_dispose_resources_job_with_context stack result_promise realm_anchor reject argument (async_context v) v.
Definition mal_vm_enqueue_reaction_job_with_context (handler : Z) (reject : bool) (cr cj argument context : Z)
    (v : PromiseVm) : outcome PromiseVm :=
  enqueue_new MAL_JOB_PROMISE_REACTION reject false false (Some context) (PReaction handler cr cj argument) v.
Definition mal_vm_enqueue_reaction_job (handler : Z) (reject : bool) (cr cj argument : Z) (v : PromiseVm)
    : outcome PromiseVm :=
  mal_vm_enqueue_reaction_job_with_context handler reject cr cj argument (async_context v) v.
Definition mal_vm_enqueue_host_job (fn data : Z) (reject : bool) (argument : Z) (v : PromiseVm) : outcome PromiseVm :=
  enqueue_new MAL_JOB_HOST_CALLBACK reject false false None (PHost fn data argument) v.
Definition mal_vm_enqueue_promise_all_job_with_context (state index : Z) (reject : bool) (argument context : Z)
    (v : PromiseVm) : outcome PromiseVm :=
  enqueue_new MAL_JOB_PROMISE_ALL reject false false (Some context)
    (PReaction state (mal_value_from_u32 index) MAL_VALUE_UNDEFINED argument) v.
Definition mal_vm_enqueue_promise_all_job (state index : Z) (reject : bool) (argument : Z) (v : PromiseVm)
    : outcome PromiseVm :=
  mal_vm_enqueue_promise_all_job_with_context state index reject argument (async_context v) v.
Definition mal_vm_enqueue_await_job_with_context (state : Z) (reject : bool) (argument context : Z)
    (v : PromiseVm) : outcome PromiseVm :=
  enqueue_new MAL_JOB_ASYNC_AWAIT reject false false (Some context)
    (PReaction state MAL_VALUE_UNDEFINED MAL_VALUE_UNDEFINED argument) v.
Definition mal_vm_enqueue_await_job (state : Z) (reject : bool) (argument : Z) (v : PromiseVm) : outcome PromiseVm :=
  mal_vm_enqueue_await_job_with_context state reject argument (async_context v) v.
Definition mal_vm_enqueue_async_generator_return_job_with_context (generator realm_anchor : Z) (reject : bool)
    (argument context : Z) (v : PromiseVm) : outcome PromiseVm :=
  enqueue_new MAL_JOB_ASYNC_GENERATOR_RETURN reject false false (Some context)
    (PReaction generator realm_anchor MAL_VALUE_UNDEFINED argument) v.
Definition mal_vm_enqueue_async_generator_return_job (generator realm_anchor : Z) (reject : bool) (argument : Z)
    (v : PromiseVm) : outcome PromiseVm :=
  mal_vm_enqueue_async_generator_return_job_with_context generator realm_anchor reject argument (async_context v) v.
Definition mal_vm_enqueue_thenable_job (then_ thenable resolve_fn reject_fn : Z) (v : PromiseVm) : outcome PromiseVm :=
  enqueue_new MAL_JOB_PROMISE_RESOLVE_THENABLE false false false None
    (PThenable then_ thenable resolve_fn reject_fn) v.
Definition mal_vm_enqueue_promise_adoption_job (captured_then source target target_constructor : Z) (v : PromiseVm)
    : outcome PromiseVm :=
  enqueue_new MAL_JOB_PROMISE_RESOLVE_THENABLE false false false None
    (PThenable captured_then source target target_constructor) v.

(** * Settlement *)

(** The job a reaction asks for, chosen by its tag. *)
Definition trigger_one (x : MalPromiseReaction) (reject : bool) (argument : Z) (v : PromiseVm) : outcome PromiseVm :=
  let c := r_context x in
  if cap_resolve x =? mal_promise_all_reaction_tag then
    mal_vm_enqueue_promise_all_job_with_context (cap_reject x) (index_of_number (on_fulfilled x)) reject argument c v
  else if cap_resolve x =? mal_promise_await_reaction_tag then
    mal_vm_enqueue_await_job_with_context (cap_reject x) reject argument c v
  else if cap_resolve x =? mal_promise_async_generator_return_reaction_tag then
    mal_vm_enqueue_async_generator_return_job_with_context (cap_reject x) (on_fulfilled x) reject argument c v
  else if cap_resolve x =? mal_promise_dispose_resources_reaction_tag then
    mal_vm_enqueue_dispose_resources_job_with_context (cap_reject x) (on_fulfilled x) (on_rejected x) reject argument c v
  else
    match mal_promise_is_async_from_sync_reaction_tag (cap_resolve x) with
    | Some (done, close) =>
        mal_vm_enqueue_async_from_sync_job_with_context (cap_reject x) (on_fulfilled x) (on_rejected x)
          done close reject argument c v
    | None =>
        let handler := if reject then on_rejected x else on_fulfilled x in
        mal_vm_enqueue_reaction_job_with_context handler reject (cap_resolve x) (cap_reject x) argument c v
    end.

Fixpoint mal_promise_trigger_reactions (fuel : nat) (list : option Z) (reject : bool) (argument : Z) (v : PromiseVm)
    : outcome PromiseVm :=
  match fuel with
  | O => NoFuel
  | S fuel =>
      match list with
      | None => Ret v
      | Some a =>
          x ← node_deref (reactions v) a;
          v ← trigger_one x reject argument v;
          v ← mal_promise_recycle_barriered_reaction a v;
          mal_promise_trigger_reactions fuel (r_next x) reject argument v
      end
  end.

(** Enough turns for any list of nodes in memory. *)
Definition list_fuel (v : PromiseVm) : nat := S (size (slab_nodes (reactions v))).

Definition mal_value_from_promise_object (p : Z) : Z := Z.lor MAL_VALUE_OBJECT (Z.land p MAKS_PTR).
Definition mal_vm_note_unhandled_rejection (p : Z) (v : PromiseVm) : PromiseVm :=
  with_unhandled (unhandled_rejections v ++ [p]) v.

Definition mal_promise_fulfill (p value : Z) (v : PromiseVm) : outcome PromiseVm :=
  o ← promise_deref v p;
  if negb (bool_decide (p_state o = MAL_PROMISE_PENDING)) then Ret v
  else
    let v := promise_write p (mkPromise MAL_PROMISE_FULFILLED (is_handled o) value (reactions_head o) (reactions_tail o)) v in
    let v := card [(p, value)] v in
    let list := reactions_head o in
    v ← mal_promise_barrier_reactions (list_fuel v) list v;
    let v := promise_write p (mkPromise MAL_PROMISE_FULFILLED (is_handled o) value None None) v in
    mal_promise_trigger_reactions (list_fuel v) list false value v.

Definition mal_promise_reject (p reason : Z) (v : PromiseVm) : outcome PromiseVm :=
  o ← promise_deref v p;
  if negb (bool_decide (p_state o = MAL_PROMISE_PENDING)) then Ret v
  else
    let v := promise_write p (mkPromise MAL_PROMISE_REJECTED (is_handled o) reason (reactions_head o) (reactions_tail o)) v in
    let v := card [(p, reason)] v in
    let list := reactions_head o in
    v ← mal_promise_barrier_reactions (list_fuel v) list v;
    let v := promise_write p (mkPromise MAL_PROMISE_REJECTED (is_handled o) reason None None) v in
    let v := if negb (is_handled o)
             then mal_vm_note_unhandled_rejection (mal_value_from_promise_object p) v else v in
    mal_promise_trigger_reactions (list_fuel v) list true reason v.

Definition mal_promise_object_new (p : Z) (v : PromiseVm) : PromiseVm :=
  promise_write p (mkPromise MAL_PROMISE_PENDING false MAL_VALUE_UNDEFINED None None) v.

(** The finalizer of a collected promise (gc.c), after which the cell is gone. *)
Definition finalize_promise (p : Z) (v : PromiseVm) : outcome PromiseVm :=
  o ← promise_deref v p;
  v ← mal_promise_free_reactions (list_fuel v) (reactions_head o) v;
  Ret (with_promises (delete p (promises v)) v).

(** * Registration (builtin_promise.c) *)

(** [promise->is_handled = true]. *)
Definition mark_handled (p : Z) (v : PromiseVm) : outcome (MalPromiseObject * PromiseVm) :=
  o ← promise_deref v p;
  let o := mkPromise (p_state o) true (result o) (reactions_head o) (reactions_tail o) in
  Ret (o, promise_write p o v).

Definition mal_promise_perform_then (p onf onr cr cj : Z) (v : PromiseVm) : outcome PromiseVm :=
  let fulfill_handler := if mal_value_is_callable h onf then onf else MAL_VALUE_UNDEFINED in
  let reject_handler := if mal_value_is_callable h onr then onr else MAL_VALUE_UNDEFINED in
  '(o, v) ← mark_handled p v;
  match p_state o with
  | MAL_PROMISE_PENDING => mal_promise_append_reaction p fulfill_handler reject_handler cr cj v
  | MAL_PROMISE_FULFILLED => mal_vm_enqueue_reaction_job fulfill_handler false cr cj (result o) v
  | MAL_PROMISE_REJECTED => mal_vm_enqueue_reaction_job reject_handler true cr cj (result o) v
  end.
Definition mal_promise_perform_await (p state : Z) (v : PromiseVm) : outcome PromiseVm :=
  '(o, v) ← mark_handled p v;
  match p_state o with
  | MAL_PROMISE_PENDING => mal_promise_append_await_reaction p state v
  | MAL_PROMISE_FULFILLED => mal_vm_enqueue_await_job state false (result o) v
  | MAL_PROMISE_REJECTED => mal_vm_enqueue_await_job state true (result o) v
  end.
Definition mal_promise_perform_async_generator_return (p generator : Z) (v : PromiseVm) : outcome PromiseVm :=
  let realm_anchor := promise_constructor in
  '(o, v) ← mark_handled p v;
  match p_state o with
  | MAL_PROMISE_PENDING => mal_promise_append_async_generator_return_reaction p generator realm_anchor v
  | MAL_PROMISE_FULFILLED => mal_vm_enqueue_async_generator_return_job generator realm_anchor false (result o) v
  | MAL_PROMISE_REJECTED => mal_vm_enqueue_async_generator_return_job generator realm_anchor true (result o) v
  end.
Definition mal_promise_perform_async_from_sync (p sync_iterator : Z) (done close : bool)
    (result_promise realm_anchor : Z) (v : PromiseVm) : outcome PromiseVm :=
  '(o, v) ← mark_handled p v;
  match p_state o with
  | MAL_PROMISE_PENDING =>
      mal_promise_append_async_from_sync_reaction p sync_iterator result_promise realm_anchor done close v
  | MAL_PROMISE_FULFILLED =>
      mal_vm_enqueue_async_from_sync_job sync_iterator result_promise realm_anchor done close false (result o) v
  | MAL_PROMISE_REJECTED =>
      mal_vm_enqueue_async_from_sync_job sync_iterator result_promise realm_anchor done close true (result o) v
  end.
Definition mal_promise_perform_async_dispose (p result_promise realm_anchor : Z) (v : PromiseVm) : outcome PromiseVm :=
  let discard_fulfillment := MAL_VALUE_EMPTY in
  '(o, v) ← mark_handled p v;
  match p_state o with
  | MAL_PROMISE_PENDING =>
      mal_promise_append_reaction p discard_fulfillment MAL_VALUE_UNDEFINED result_promise realm_anchor v
  | MAL_PROMISE_FULFILLED =>
      mal_vm_enqueue_reaction_job discard_fulfillment false result_promise realm_anchor (result o) v
  | MAL_PROMISE_REJECTED =>
      mal_vm_enqueue_reaction_job MAL_VALUE_UNDEFINED true result_promise realm_anchor (result o) v
  end.
Definition mal_promise_perform_dispose_resources (p stack result_promise realm_anchor : Z) (v : PromiseVm)
    : outcome PromiseVm :=
  '(o, v) ← mark_handled p v;
  match p_state o with
  | MAL_PROMISE_PENDING => mal_promise_append_dispose_resources_reaction p stack result_promise realm_anchor v
  | MAL_PROMISE_FULFILLED =>
      mal_vm_enqueue_dispose_resources_job stack result_promise realm_anchor false (result o) v
  | MAL_PROMISE_REJECTED =>
      mal_vm_enqueue_dispose_resources_job stack result_promise realm_anchor true (result o) v
  end.

(** One element of the intrinsic Promise.all traversal. *)
Definition perform_all_element (p state index : Z) (v : PromiseVm) : outcome PromiseVm :=
  '(o, v) ← mark_handled p v;
  if bool_decide (p_state o = MAL_PROMISE_PENDING) then mal_promise_append_all_reaction p state index v
  else mal_vm_enqueue_promise_all_job state index (bool_decide (p_state o = MAL_PROMISE_REJECTED)) (result o) v.

(** * The drain loop *)

Definition mal_vm_has_pending_jobs (v : PromiseVm) : bool :=
  match job_head v with Some _ => true | None => false end.

Definition mal_async_context_scope_enter (context : Z) (v : PromiseVm) : PromiseVm :=
  with_context context (Some (async_context v)) v.
Definition mal_async_context_scope_exit (v : PromiseVm) : PromiseVm :=
  match async_scope v with Some previous => with_context previous None v | None => v end.

(** One turn of the loop up to the switch on the job's kind. *)
Definition drain_begin (v : PromiseVm) : outcome PromiseVm :=
  match job_head v with
  | None => Ret v
  | Some a =>
      x ← node_deref (jobs v) a;
      let v := with_job_queue (j_next x) (match j_next x with None => None | Some _ => job_tail v end) v in
      let v := with_active (Some a) v in
      match async_scope v with
      | None => Ret (mal_async_context_scope_enter (j_context x) v)
      | Some _ =>
          if negb (j_context x =? async_context v)
          then Ret (mal_async_context_scope_enter (j_context x) (mal_async_context_scope_exit v))
          else Ret v
      end
  end.
(** The rest of the turn. *)
Definition drain_end (v : PromiseVm) : outcome PromiseVm :=
  match active_job v with
  | None => Abort
  | Some a => mal_job_recycle a v
  end.
(** The loop is left. *)
Definition drain_stop (v : PromiseVm) : PromiseVm := mal_async_context_scope_exit v.

End Promise.
