(* ===== verification/PromiseSpec.v ===== *)
(** The promise machine of ECMAScript, and how the runtime's memory stands for
    it: promises with a list of pending reactions, a list of jobs, the job that
    runs and the async context. *)

From stdpp Require Import gmap.
From S2P Require Import Prelude F64 Value Linked Slab SlabSpec Promise.

(** * The abstract machine *)

(** What a registration waits for: a handler pair with its capability, or one of
    the runtime's typed continuations. *)
Inductive reaction : Type :=
| RThen (onf onr cr cj : Z)
| RAwait (state : Z)
| RAll (state index : Z)
| RGenReturn (generator anchor : Z)
| RFromSync (sync_iterator result_promise anchor : Z) (done close : bool)
| RDispose (stack result_promise anchor : Z).

(** A user's capability is not an int32, so it is none of the internal tags; an
    element of Promise.all has a 32-bit index. *)
Definition reaction_ok (r : reaction) : Prop :=
  match r with
  | RThen _ _ cr _ => mal_value_is_int32 cr = false
  | RAll _ index => 0 <= index < 2 ^ 32
  | _ => True
  end.

(** The job that settlement schedules for a reaction. *)
Definition job_of (reject : bool) (argument : Z) (rc : reaction * Z) : MalJob :=
  let u := MAL_VALUE_UNDEFINED in
  match rc.1 with
  | RThen onf onr cr cj =>
      mkJob None MAL_JOB_PROMISE_REACTION reject false false rc.2
        (PReaction (if reject then onr else onf) cr cj argument)
  | RAwait state => mkJob None MAL_JOB_ASYNC_AWAIT reject false false rc.2 (PReaction state u u argument)
  | RAll state index =>
      mkJob None MAL_JOB_PROMISE_ALL reject false false rc.2 (PReaction state (mal_value_from_u32 index) u argument)
  | RGenReturn generator anchor =>
      mkJob None MAL_JOB_ASYNC_GENERATOR_RETURN reject false false rc.2 (PReaction generator anchor u argument)
  | RFromSync it rp anchor done close =>
      mkJob None MAL_JOB_ASYNC_FROM_SYNC reject done close rc.2 (PReaction it rp anchor argument)
  | RDispose stack rp anchor =>
      mkJob None MAL_JOB_DISPOSE_RESOURCES reject false false rc.2 (PReaction stack rp anchor argument)
  end.

Record SPromise : Type := mkSPromise {
  sp_state : MalPromiseState;
  sp_handled : bool;
  sp_result : Z;
  sp_reactions : list (reaction * Z);
}.

Record SVm : Type := mkSVm {
  sv_promises : gmap Z SPromise;
  sv_jobs : list MalJob;
  sv_active : option MalJob;
  sv_context : Z;
  sv_scope : option Z;
  sv_unhandled : list Z;
}.

(** * Encoding of reactions *)

Definition encode (rc : reaction * Z) : MalPromiseReaction :=
  let u := MAL_VALUE_UNDEFINED in
  match rc.1 with
  | RThen onf onr cr cj => mkReaction None cr cj onf onr rc.2
  | RAwait state => mkReaction None mal_promise_await_reaction_tag state u u rc.2
  | RAll state index => mkReaction None mal_promise_all_reaction_tag state (mal_value_from_u32 index) u rc.2
  | RGenReturn generator anchor =>
      mkReaction None mal_promise_async_generator_return_reaction_tag generator anchor u rc.2
  | RFromSync it rp anchor done close =>
      mkReaction None (mal_promise_async_from_sync_reaction_tag done close) it rp anchor rc.2
  | RDispose stack rp anchor => mkReaction None mal_promise_dispose_resources_reaction_tag stack rp anchor rc.2
  end.

Lemma index_roundtrip i : 0 <= i < 2 ^ 32 -> index_of_number (mal_value_from_u32 i) = i.
Proof.
  intros Hi. unfold index_of_number, mal_ops_number_as_f64, mal_value_from_u32.
  assert (Z.abs i < 2 ^ 53) as Ha by lia.
  destruct (Z.leb_spec i INT32_MAX) as [Hle|Hgt].
  - assert (Z.lor MAL_VALUE_INT32 i = mal_value_from_i32 i) as ->
      by (unfold mal_value_from_i32, u32; rewrite wrap_small; [done|unfold in_u; lia]).
    assert (in_i 32 i) as H32 by (unfold in_i, INT32_MAX in *; cbn; lia).
    destruct (Z.ltb_spec (mal_value_from_i32 i) MAL_VALUE_TAG_BASE) as [Hlt|_].
    + exfalso. pose proof (from_i32_kind i H32) as Hk. pose proof (from_i32_range i H32) as Hr.
      assert (kind_of (mal_value_from_i32 i) = KDouble); [|congruence].
      apply (kind_test_iff _ KDouble Hr). by apply Z.ltb_lt.
    + fold (mal_value_to_i32 (mal_value_from_i32 i)). rewrite to_i32_from_i32, f64_to_of_int by done.
      apply wrap_small. unfold in_u. lia.
  - assert (f64_of_int i < 2 ^ 63) as Hs.
    { pose proof (f64_of_int_range i Ha) as Hr. pose proof (f64_sign_spec _ Hr) as E.
      rewrite f64_sign_of_int in E by (unfold INT32_MAX in *; lia). destruct (Z.ltb_spec i 0); [lia|]. lia. }
    destruct (Z.ltb_spec (f64_of_int i) MAL_VALUE_TAG_BASE) as [_|Hge]; [|unfold MAL_VALUE_TAG_BASE in Hge; lia].
    unfold mal_value_to_f64. rewrite f64_to_of_int by done. apply wrap_small. unfold in_u. lia.
Qed.

Section Refine.
Context (h : HeapCells) (aligned_alloc : gmap Z SlabBlock -> Z) (promise_constructor : Z).

Definition enqueue_job (j : MalJob) : PromiseVm -> outcome PromiseVm :=
  enqueue_new aligned_alloc (kind j) (is_reject j) (iterator_done j) (close_on_rejection j) (Some (j_context j)) (payload j).

(** The tag of a reaction selects its job. *)
Lemma trigger_one_ok rc x reject argument v :
  reaction_ok rc.1 -> strip x = encode rc ->
  trigger_one aligned_alloc x reject argument v = enqueue_job (job_of reject argument rc) v.
Proof.
  destruct rc as [r c]. intros Hr Hx. destruct x as [nx cr cj onf onr ctx].
  cbn in Hx. unfold trigger_one. cbn [cap_resolve cap_reject on_fulfilled on_rejected r_context].
  destruct r; cbn in Hx, Hr; injection Hx as -> -> -> -> ->.
  - assert (forall t, mal_value_is_int32 t = true -> (cr0 =? t) = false) as Hne.
    { intros t Ht. apply Z.eqb_neq. intros ->. congruence. }
    rewrite !Hne by done. unfold mal_promise_is_async_from_sync_reaction_tag. rewrite Hr. by destruct reject.
  - reflexivity.
  - rewrite Z.eqb_refl, index_roundtrip by done. reflexivity.
  - reflexivity.
  - destruct done, close; reflexivity.
  - reflexivity.
Qed.
End Refine.
