(* ===== verification/PromiseLists.v ===== *)
(** The job queue and the reaction lists. The linked list of jobs and the running job own
    the nodes of the job slab, and the retained empty blocks are counted exactly; the
    promises' lists and the pool own the nodes of the reaction slab, and each list holds
    the encodings of the pending reactions. *)

From stdpp Require Import gmap.
From S2P Require Import Prelude F64 Value Linked Slab SlabSpec Promise PromiseSpec.

(** * Idle blocks *)

Definition idle (x : SlabBlock) : bool := (live_count x =? 0) && negb (next_unused x =? 0).
Definition idle_count (m : gmap Z SlabBlock) : Z := Z.of_nat (size (filter (fun p => idle p.2 = true) m)).
Definition one_if (b : bool) : Z := if b then 1 else 0.

Lemma idle_fresh m b x : m !! b = None -> idle_count (<[b := x]> m) = idle_count m + one_if (idle x).
Proof.
  intros Hb. unfold idle_count. destruct (idle x) eqn:E; cbn [one_if].
  - rewrite map_filter_insert_True by done. rewrite map_size_insert_None; [lia|]. apply map_lookup_filter_None. by left.
  - rewrite map_filter_insert_False by (cbn; congruence). rewrite delete_id by done. lia.
Qed.

Lemma idle_delete m b x : m !! b = Some x -> idle_count (delete b m) = idle_count m - one_if (idle x).
Proof.
  intros Hb. rewrite <- (insert_delete_id m b x Hb) at 2. rewrite idle_fresh by apply lookup_delete_eq. lia.
Qed.

Lemma idle_update m b x x' :
  m !! b = Some x -> idle_count (<[b := x']> m) = idle_count m - one_if (idle x) + one_if (idle x').
Proof.
  intros Hb. rewrite <- insert_delete_eq, idle_fresh by apply lookup_delete_eq. rewrite (idle_delete m b x Hb). lia.
Qed.

Lemma idle_same m m' :
  (forall c, option_relation same_but_next (fun _ => False) (fun _ => False) (m' !! c) (m !! c)) ->
  idle_count m' = idle_count m.
Proof.
  intros H. unfold idle_count. rewrite <- !size_dom. do 2 f_equal. apply set_eq. intros c.
  rewrite !elem_of_dom. specialize (H c).
  split; intros [x Hx]; apply map_lookup_filter_Some in Hx as [Hx Hi]; rewrite Hx in H.
  - destruct (m !! c) as [y|] eqn:Ey; [|done]. exists y. apply map_lookup_filter_Some. split; [done|].
    destruct H as (_ & E1 & E2). unfold idle in *. cbn in *. by rewrite <- E1, <- E2.
  - destruct (m' !! c) as [y|] eqn:Ey; [|done]. exists y. apply map_lookup_filter_Some. split; [done|].
    destruct H as (_ & E1 & E2). unfold idle in *. cbn in *. by rewrite E1, E2.
Qed.

Lemma idle_found b m m' : found b m m' -> idle_count m' = idle_count m.
Proof. intros [->|(Hb & hd & ->)]; [done|]. rewrite idle_fresh by done. cbn. lia. Qed.

(** * The queue *)

Definition active_list (v : PromiseVm) : list Z := option_list (active_job v).

Record jobs_ok (v : PromiseVm) (ql : list Z) (js : list MalJob) (act : option MalJob) : Prop := {
  jo_lists : node_lists (jobs v) (active_list v) [ql];
  jo_head : job_head v = head ql;
  jo_tail : job_tail v = last ql;
  jo_holds : holds (jobs v) ql js;
  jo_active :
    match active_job v, act with
    | None, None => True
    | Some a, Some j => strip <$> slab_nodes (jobs v) !! a = Some j
    | _, _ => False
    end;
  jo_idle : job_idle_block_count v = idle_count (slab_mem (jobs v));
  jo_limit : job_idle_block_count v <= MAL_PROMISE_JOB_RETAINED_BLOCK_LIMIT;
}.
Definition jobs_rep (v : PromiseVm) (js : list MalJob) (act : option MalJob) : Prop := exists ql, jobs_ok v ql js act.

(** What a job operation changes. *)
Definition job_change (v v' : PromiseVm) : Prop :=
  exists s i hd tl, v' = with_job_queue hd tl (with_jobs s i v).

Section Jobs.
Context (h : HeapCells) (aligned_alloc : gmap Z SlabBlock -> Z).
Hypothesis alloc_fresh : forall m, m !! aligned_alloc m = None.
Hypothesis alloc_aligned : forall m, aligned_alloc m mod SLAB_BLOCK_SIZE = 0.

(** Linking an unlinked job behind the queue. *)
Lemma job_enqueue_ok v ql js act a j :
  node_lists (jobs v) (a :: active_list v) [ql] -> job_head v = head ql -> job_tail v = last ql ->
  holds (jobs v) ql js -> slab_nodes (jobs v) !! a = Some j -> j_next j = None ->
  match active_job v, act with
  | None, None => True
  | Some c, Some j => strip <$> slab_nodes (jobs v) !! c = Some j
  | _, _ => False
  end ->
  job_idle_block_count v = idle_count (slab_mem (jobs v)) ->
  job_idle_block_count v <= MAL_PROMISE_JOB_RETAINED_BLOCK_LIMIT ->
  exists v', mal_vm_enqueue a v = Ret v' /\ jobs_ok v' (ql ++ [a]) (js ++ [j]) act /\ job_change v v'.
Proof.
  intros Hl Hh Ht Hj Ha En Hact Hi Hlim. unfold mal_vm_enqueue. rewrite Ht.
  assert (strip j = j) as Es by (destruct j; cbn in *; by subst).
  assert (a ∉ ql) as Hna.
  { pose proof (nl_nodup _ _ _ Hl) as Hn. cbn [app concat] in Hn. apply NoDup_cons in Hn as [Hn _].
    rewrite elem_of_app, app_nil_r in Hn. tauto. }
  destruct ql as [|t l] using rev_ind.
  - cbn [last]. eexists. split; [done|]. apply Forall2_nil_inv_l in Hj as ->. split.
    + split; cbn; try done.
      * exact (node_lists_singleton _ _ a j [] (proj1 (node_lists_nil _ _ _) Hl) Ha En).
      * constructor; [|constructor]. rewrite Ha. exact (f_equal Some Es).
    + exists (jobs v), (job_idle_block_count v), (Some a), (Some a). by destruct v.
  - clear IHl. rewrite last_snoc. apply Forall2_app_inv_l in Hj as (js1 & js2 & Hj1 & Hj2 & ->).
    inversion Hj2 as [|? jt ? ? Hjt Hnil]; subst. apply Forall2_nil_inv_l in Hnil as ->.
    destruct (slab_nodes (jobs v) !! t) as [y|] eqn:Hy; [|done]. cbn in Hjt. injection Hjt as <-.
    unfold node_deref. rewrite Hy. cbn [mbind outcome_bind].
    assert (t <> a) as Hta by (intros ->; apply Hna, elem_of_app; right; by apply list_elem_of_singleton).
    set (s1 := node_write t (node_set_next (Some a) y) (jobs v)).
    assert (forall c, strip <$> slab_nodes s1 !! c = strip <$> slab_nodes (jobs v) !! c) as Hag.
    { intros c. cbn. destruct (decide (c = t)) as [->|]; [|by rewrite lookup_insert_ne].
      by rewrite lookup_insert_eq, Hy. }
    eexists. split; [done|]. split; [|by eexists _, _, _, _].
    split; cbn [jobs with_job_queue with_jobs active_job job_head job_tail job_idle_block_count active_list]; fold s1.
    + rewrite <- app_assoc. exact (node_lists_append _ a j t y _ l [] Hl Ha En Hy).
    + rewrite Hh. by destruct l.
    + by rewrite last_snoc.
    + apply (holds_ext (jobs v) s1); [by intros; apply Hag|]. repeat apply Forall2_app; [done| |].
      * constructor; [|constructor]. by rewrite Hy.
      * constructor; [|constructor]. rewrite Ha. exact (f_equal Some Es).
    + destruct (active_job v), act; try done. by rewrite Hag.
    + done.
    + done.
Qed.

(** A new job appears at the end of the queue, the other fields are kept. *)
Lemma enqueue_new_ok v js act k reject done close context p :
  jobs_rep v js act ->
  exists v', enqueue_new aligned_alloc k reject done close context p v = Ret v' /\ job_change v v' /\
    jobs_rep v' (js ++ [mkJob None k reject done close (default (async_context v) context) p]) act.
Proof using alloc_aligned alloc_fresh.
  intros (ql & [Hl Hh Ht Hj Hact Hi Hlim]).
  destruct (node_lists_alloc aligned_alloc alloc_fresh alloc_aligned _ _ _ Hl)
    as (b & s1 & x & a & s2 & x' & E1 & Ex & E2 & Hna & En & Hf & Hx & Em & Hlc & Hlc' & Hnl).
  unfold enqueue_new, mal_job_new. rewrite E1. cbn [mbind outcome_bind]. rewrite Ex. cbn [mbind outcome_bind].
  rewrite E2. cbn [mbind outcome_bind]. unfold node_deref at 1. cbn [jobs with_jobs]. rewrite node_write_eq.
  cbn [mbind outcome_bind j_next kind j_context job_idle_block_count with_jobs].
  set (idle' := if (live_count x =? 0) && negb (next_unused x =? 0) then _ else _).
  set (j := mkJob None k reject done close _ p). set (s3 := node_write a j (node_write a _ s2)).
  assert (s3 = node_write a j s2) as E3 by (unfold s3, node_write, set_nodes; cbn; by rewrite insert_insert_eq).
  set (v1 := with_jobs s3 idle' _).
  assert (idle' = idle_count (slab_mem s2) /\ idle' <= MAL_PROMISE_JOB_RETAINED_BLOCK_LIMIT) as [Ei Hlim'].
  { rewrite Em, (idle_update _ b x x' Hx), (idle_found _ _ _ Hf), <- Hi.
    assert (idle x' = false) as -> by (unfold idle; destruct (Z.eqb_spec (live_count x') 0); [lia|done]).
    unfold idle', idle. destruct ((live_count x =? 0) && negb (next_unused x =? 0)); cbn; lia. }
  assert (forall c, c ∈ active_list v ++ ql -> slab_nodes s3 !! c = slab_nodes (jobs v) !! c) as Hag.
  { intros c Hc. rewrite E3. cbn. rewrite lookup_insert_ne, En; [done|]. intros <-. apply Hna. cbn. by rewrite app_nil_r. }
  assert (jobs v1 = s3) as Ej by done.
  destruct (job_enqueue_ok v1 ql js act a j) as (v' & Er & Hok & Hch); rewrite ?Ej; try done.
  - rewrite E3. apply Hnl.
  - apply (holds_ext (jobs v)); [|done]. intros c Hc. rewrite Hag; [done|]. apply elem_of_app. by right.
  - rewrite E3. apply node_write_eq.
  - change (active_job v1) with (active_job v). destruct (active_job v) as [c|] eqn:Ec, act; try done.
    rewrite Hag; [done|]. unfold active_list. rewrite Ec. cbn. left.
  - exists v'. split; [exact Er|]. split; [|exists (ql ++ [a])].
    + destruct Hch as (s' & i & hd & tl & ->). by eexists _, _, _, _.
    + by replace (default (async_context v) context) with (match context with Some c => c | None => async_context v end) by (by destruct context).
Qed.

(** Taking the first job. *)
Lemma begin_ok v j js :
  jobs_rep v (j :: js) None ->
  exists a x, job_head v = Some a /\ slab_nodes (jobs v) !! a = Some x /\ strip x = j /\
    jobs_rep (with_active (Some a) (with_job_queue (j_next x) (match j_next x with None => None | Some _ => job_tail v end) v)) js (Some j).
Proof.
  intros (ql & [Hl Hh Ht Hj Hact Hi Hlim]). inversion Hj as [|a j' l js' Ha Hj']; subst.
  destruct (slab_nodes (jobs v) !! a) as [x|] eqn:Hx; [|done]. cbn in Ha. injection Ha as Ea.
  pose proof (nl_linked _ _ _ Hl) as Hlk. apply Forall_cons in Hlk as [Hlk _].
  apply linked_cons in Hlk as [(x2 & Hx2 & En) _]. assert (x2 = x) as -> by congruence. cbn in En.
  exists a, x. split_and!; [done|done|done|]. exists l.
  destruct (active_job v) eqn:Ea'; [done|]. unfold active_list in Hl. rewrite Ea' in Hl.
  split; cbn; try done.
  - by apply node_lists_pop.
  - rewrite En, Ht. by destruct l.
  - rewrite Hx. cbn. by rewrite Ea.
Qed.

(** What no job operation touches. *)
Definition frame_jobs (v v' : PromiseVm) : Prop :=
  reactions v' = reactions v /\ reaction_pool v' = reaction_pool v /\ reaction_pool_count v' = reaction_pool_count v /\
  promises v' = promises v /\ async_context v' = async_context v /\ async_scope v' = async_scope v /\
  unhandled_rejections v' = unhandled_rejections v.

Lemma job_change_frame v v' : job_change v v' -> frame_jobs v v'.
Proof. intros (s & i & hd & tl & ->). by repeat split. Qed.

(** Releasing the loose node of a finished job. *)
Lemma release_ok v a ql js :
  node_lists (jobs v) [a] [ql] -> job_head v = head ql -> job_tail v = last ql -> holds (jobs v) ql js ->
  active_job v = None -> job_idle_block_count v = idle_count (slab_mem (jobs v)) ->
  job_idle_block_count v <= MAL_PROMISE_JOB_RETAINED_BLOCK_LIMIT ->
  exists v', mal_job_release a v = Ret v' /\ jobs_rep v' js None /\ frame_jobs v v'.
Proof.
  intros Hl Hh Ht Hj Hact Hi Hlim.
  destruct (node_lists_release _ _ _ _ Hl) as (s1 & x & x' & E1 & Ex & Hx & Em & Eu & Hu & Hlc & Hlc' & Hnl & Hag & Hfree).
  cbn [app concat] in Hag. setoid_rewrite app_nil_r in Hag.
  assert (idle x = false) as Hix by (unfold idle; destruct (Z.eqb_spec (live_count x) 0); [lia|done]).
  assert (idle_count (slab_mem s1) = idle_count (slab_mem (jobs v)) + one_if (live_count x' =? 0)) as Eidle.
  { rewrite Em, (idle_update _ _ x x' Hx), Hix. unfold idle. cbn [one_if].
    destruct (Z.eqb_spec (live_count x') 0); cbn; [|lia]. rewrite Eu. destruct (Z.eqb_spec (next_unused x) 0); [lia|]. cbn. lia. }
  unfold mal_job_release. rewrite E1. cbn [mbind outcome_bind]. rewrite Ex. cbn [mbind outcome_bind].
  assert (forall s, (forall c, c ∈ ql -> slab_nodes s !! c = slab_nodes (jobs v) !! c) -> holds s ql js) as Hhold.
  { intros s Hs. apply (holds_ext (jobs v)); [|done]. intros c Hc. by rewrite Hs. }
  assert (forall s i, node_lists s [] [ql] -> (forall c, c ∈ ql -> slab_nodes s !! c = slab_nodes (jobs v) !! c) ->
    i = idle_count (slab_mem s) -> i <= MAL_PROMISE_JOB_RETAINED_BLOCK_LIMIT ->
    exists v', Ret (with_jobs s i v) = Ret v' /\ jobs_rep v' js None /\ frame_jobs v v') as Hdone.
  { intros s i Hs Hss Hsi Hil. eexists. split; [done|]. split; [|by repeat split]. exists ql.
    split; cbn; try done; [|by apply Hhold|by rewrite Hact]. unfold active_list. cbn. by rewrite Hact. }
  destruct (Z.eqb_spec (live_count x') 0) as [H0|Hn0]; cbn [negb one_if] in *.
  - destruct (Z.ltb_spec (job_idle_block_count v) MAL_PROMISE_JOB_RETAINED_BLOCK_LIMIT).
    + apply Hdone; try done; lia.
    + destruct (Hfree H0) as (s2 & E2 & Hnl2 & Hm2 & Hms & Hag2). rewrite E2. cbn [mbind outcome_bind].
      cbn [app concat] in Hag2. setoid_rewrite app_nil_r in Hag2. apply Hdone; try done.
      assert (idle_count (slab_mem s2) = idle_count (delete (block_of a) (slab_mem s1))) as ->.
      { apply idle_same. intros c. destruct (decide (c = block_of a)) as [->|Hc].
        - by rewrite Hm2, lookup_delete_eq.
        - rewrite lookup_delete_ne by done. by apply Hms. }
      assert (slab_mem s1 !! block_of a = Some x') as Hx' by (by rewrite Em, lookup_insert_eq).
      rewrite (idle_delete _ _ _ Hx'). unfold idle. rewrite H0, Eu. cbn.
      destruct (Z.eqb_spec (next_unused x) 0); [lia|]. cbn. lia.
  - apply Hdone; try done. lia.
Qed.

Lemma end_ok v js j :
  jobs_rep v js (Some j) -> exists v', drain_end h v = Ret v' /\ jobs_rep v' js None /\ frame_jobs v v'.
Proof.
  intros (ql & [Hl Hh Ht Hj Hact Hi Hlim]). unfold drain_end. unfold active_list in Hl.
  destruct (active_job v) as [a|] eqn:Ea; [|done]. cbn [option_list] in Hl. unfold mal_job_recycle, node_deref.
  destruct (slab_nodes (jobs v) !! a) as [x|] eqn:Hx; [|done]. cbn [mbind outcome_bind].
  set (v1 := with_active None _).
  assert (a ∉ ql) as Hna.
  { pose proof (nl_nodup _ _ _ Hl) as Hn. cbn [app concat] in Hn. apply NoDup_cons in Hn as [Hn _].
    by rewrite app_nil_r in Hn. }
  destruct (release_ok v1 a ql js) as (v' & Er & Hrep & Hfr); try done.
  - by apply node_lists_write_loose.
  - apply (holds_ext (jobs v)); [|done]. intros c Hc. cbn. rewrite lookup_insert_ne; [done|]. by intros ->.
  - exists v'. split; [exact Er|]. by split.
Qed.
End Jobs.

(** The address lists of all promises. *)
Definition plists (m : gmap Z MalPromiseObject) (rl : Z -> list Z) : list (list Z) :=
  (fun kv => rl kv.1) <$> map_to_list m.

Definition upd (p : Z) (l : list Z) (rl : Z -> list Z) : Z -> list Z := fun q => if decide (q = p) then l else rl q.

Lemma plists_split m rl p o : m !! p = Some o -> plists m rl ≡ₚ rl p :: plists (delete p m) rl.
Proof. intros Hp. unfold plists. by rewrite <- (map_to_list_delete m p o Hp). Qed.

Lemma plists_ext m rl rl' : (forall p o, m !! p = Some o -> rl p = rl' p) -> plists m rl = plists m rl'.
Proof.
  intros H. unfold plists. apply list_fmap_ext. intros i [p o] Hi. cbn. apply (H p o).
  apply elem_of_map_to_list. by eapply list_elem_of_lookup_2.
Qed.

Lemma plists_fresh m rl p o l : m !! p = None -> plists (<[p := o]> m) (upd p l rl) ≡ₚ l :: plists m rl.
Proof.
  intros Hp. unfold plists. rewrite map_to_list_insert by done. cbn. unfold upd at 1. rewrite decide_True by done.
  change (l :: plists m (upd p l rl) ≡ₚ l :: plists m rl).
  rewrite (plists_ext m (upd p l rl) rl); [done|]. intros q x Hq. unfold upd. rewrite decide_False; [done|]. intros ->. congruence.
Qed.

Lemma plists_insert m rl p o l : plists (<[p := o]> m) (upd p l rl) ≡ₚ l :: plists (delete p m) rl.
Proof. rewrite <- insert_delete_eq. by rewrite plists_fresh by apply lookup_delete_eq. Qed.

Lemma elem_of_plists m rl p o a : m !! p = Some o -> a ∈ rl p -> a ∈ concat (plists m rl).
Proof.
  intros Hp Ha. rewrite (plists_split m rl p o Hp). cbn. apply elem_of_app. by left.
Qed.

(** A promise object stands for an abstract promise. *)
Record promise_ok (s : Slab MalPromiseReaction) (l : list Z) (o : MalPromiseObject) (sp : SPromise) : Prop := {
  po_state : p_state o = sp_state sp;
  po_handled : is_handled o = sp_handled sp;
  po_result : result o = sp_result sp;
  po_head : reactions_head o = head l;
  po_tail : reactions_tail o = last l;
  po_holds : holds s l (encode <$> sp_reactions sp);
  po_reactions : Forall (fun rc => reaction_ok rc.1) (sp_reactions sp);
  po_settled : sp_state sp <> MAL_PROMISE_PENDING -> sp_reactions sp = [];
}.

Lemma promise_ok_ext s s' l o sp :
  (forall a, a ∈ l -> strip <$> slab_nodes s' !! a = strip <$> slab_nodes s !! a) ->
  promise_ok s l o sp -> promise_ok s' l o sp.
Proof. intros He [H1 H2 H3 H4 H5 H6 H7 H8]. split; try done. by apply (holds_ext s). Qed.

Definition promise_rel (s : Slab MalPromiseReaction) (l : list Z) (o : option MalPromiseObject) (sp : option SPromise) : Prop :=
  match o, sp with
  | None, None => True
  | Some o, Some sp => promise_ok s l o sp
  | _, _ => False
  end.

(** [det] is a list detached from its promise that is being worked off. *)
Record reactions_ok (v : PromiseVm) (rl : Z -> list Z) (pool det : list Z) (m : gmap Z SPromise) : Prop := {
  ro_lists : node_lists (reactions v) [] (pool :: det :: plists (promises v) rl);
  ro_pool : reaction_pool v = head pool;
  ro_count : reaction_pool_count v = Z.of_nat (length pool);
  ro_promises : forall p, promise_rel (reactions v) (rl p) (promises v !! p) (m !! p);
}.
Definition reactions_rep (v : PromiseVm) (det : list Z) (m : gmap Z SPromise) : Prop :=
  exists rl pool, reactions_ok v rl pool det m.

(** What no reaction operation touches. *)
Definition frame_reactions (v v' : PromiseVm) : Prop :=
  jobs v' = jobs v /\ job_idle_block_count v' = job_idle_block_count v /\ job_head v' = job_head v /\
  job_tail v' = job_tail v /\ active_job v' = active_job v /\ async_context v' = async_context v /\
  async_scope v' = async_scope v /\ unhandled_rejections v' = unhandled_rejections v.

(** The promises keep their contents when memory changes off their lists. *)
Lemma promises_ext (v : PromiseVm) s' rl (m : gmap Z SPromise) a :
  (forall p, promise_rel (reactions v) (rl p) (promises v !! p) (m !! p)) ->
  a ∉ concat (plists (promises v) rl) ->
  (forall c, c ∈ concat (plists (promises v) rl) -> c <> a ->
     strip <$> slab_nodes s' !! c = strip <$> slab_nodes (reactions v) !! c) ->
  forall p, promise_rel s' (rl p) (promises v !! p) (m !! p).
Proof.
  intros Hp Ha He p. specialize (Hp p). unfold promise_rel in *.
  destruct (promises v !! p) as [o|] eqn:Ho, (m !! p) as [sp|]; try done.
  apply (promise_ok_ext (reactions v)); [|done]. intros c Hc. apply He.
  - by apply (elem_of_plists _ _ p o).
  - intros ->. apply Ha. by apply (elem_of_plists _ _ p o).
Qed.

Section Reactions.
Context (h : HeapCells) (aligned_alloc : gmap Z SlabBlock -> Z).
Hypothesis alloc_fresh : forall m, m !! aligned_alloc m = None.
Hypothesis alloc_aligned : forall m, aligned_alloc m mod SLAB_BLOCK_SIZE = 0.

(** The release of a loose reaction node. *)
Lemma release_reaction_ok v a ls :
  node_lists (reactions v) [a] ls ->
  exists s, mal_promise_release_reaction a v = Ret (with_reactions s v) /\ node_lists s [] ls /\
    (forall c, c ∈ concat ls -> slab_nodes s !! c = slab_nodes (reactions v) !! c).
Proof.
  intros Hl. destruct (node_lists_release _ _ _ _ Hl) as (s1 & x & x' & E1 & Ex & _ & _ & _ & _ & _ & _ & Hnl & Hag & Hfree).
  unfold mal_promise_release_reaction. rewrite E1. cbn [mbind outcome_bind]. rewrite Ex. cbn [mbind outcome_bind].
  destruct (Z.eqb_spec (live_count x') 0) as [H0|]; cbn [negb]; [|by exists s1].
  destruct (Hfree H0) as (s2 & E2 & Hnl2 & _ & _ & Hag2). rewrite E2. cbn [mbind outcome_bind]. by exists s2.
Qed.

(** The first node of a detached list, loose. *)
Lemma detach_ok v rl pool a det m :
  reactions_ok v rl pool (a :: det) m ->
  node_lists (reactions v) [a] (det :: pool :: plists (promises v) rl) /\
  a ∉ concat (det :: pool :: plists (promises v) rl) /\
  exists x, slab_nodes (reactions v) !! a = Some x /\ r_next x = head det.
Proof.
  intros [Hl _ _ _].
  assert (node_lists (reactions v) [] ((a :: det) :: pool :: plists (promises v) rl)) as Hl1.
  { eapply node_lists_perm; [|exact Hl]. apply Permutation_swap. }
  pose proof (node_lists_pop _ _ _ _ _ Hl1) as Hl2. split; [done|]. split.
  - pose proof (nl_nodup _ _ _ Hl2) as Hn. cbn [app] in Hn. by apply NoDup_cons in Hn as [Hn _].
  - pose proof (nl_linked _ _ _ Hl1) as Hk. apply Forall_cons in Hk as [Hk _]. by apply linked_cons in Hk as [(x & Hx & E) _]; exists x.
Qed.

(** Memory written at the loose node and given a new owner. *)
Lemma detached_rest v s rl pool pool' a det m v' :
  reactions_ok v rl pool (a :: det) m -> a ∉ concat (det :: pool :: plists (promises v) rl) ->
  (forall c, c ∈ concat (plists (promises v) rl) -> slab_nodes s !! c = slab_nodes (reactions v) !! c) ->
  node_lists s [] (pool' :: det :: plists (promises v) rl) ->
  reactions v' = s -> promises v' = promises v -> reaction_pool v' = head pool' ->
  reaction_pool_count v' = Z.of_nat (length pool') -> reactions_rep v' det m.
Proof.
  intros [_ _ _ Hp] Ha He Hl Er Epr Epl Ec. exists rl, pool'. cbn [concat] in Ha. rewrite !elem_of_app in Ha.
  split; rewrite ?Er, ?Epr; try done.
  apply (promises_ext v s rl m a Hp); [tauto|]. intros c Hc _. by rewrite He.
Qed.

(** Recycling the first node of the detached list. *)
Lemma recycle_ok v a det m :
  reactions_rep v (a :: det) m ->
  exists v', mal_promise_recycle_barriered_reaction a v = Ret v' /\ reactions_rep v' det m /\
    frame_reactions v v' /\ promises v' = promises v /\
    (forall c, c ∈ det -> slab_nodes (reactions v') !! c = slab_nodes (reactions v) !! c).
Proof.
  intros (rl & pool & Hok). destruct (detach_ok _ _ _ _ _ _ Hok) as (Hl & Ha & x & Hx & _).
  pose proof Hok as [_ Hpl Hct _]. unfold mal_promise_recycle_barriered_reaction, node_deref. rewrite Hx.
  cbn [mbind outcome_bind reaction_pool_count reaction_pool reactions with_reactions].
  set (s1 := node_write a (cleared_reaction x) (reactions v)).
  assert (node_lists s1 [a] (det :: pool :: plists (promises v) rl)) as Hl1 by (by apply node_lists_write_loose).
  assert (forall c, c ∈ concat (det :: pool :: plists (promises v) rl) -> c <> a) as Hne by (intros c Hc ->; done).
  assert (forall c, c ∈ det -> c ∈ concat (det :: pool :: plists (promises v) rl)) as Hd
    by (intros c Hc; cbn; rewrite !elem_of_app; tauto).
  assert (forall c, c ∈ concat (plists (promises v) rl) -> c ∈ concat (det :: pool :: plists (promises v) rl)) as Hpr
    by (intros c Hc; cbn; rewrite !elem_of_app; tauto).
  destruct (Z.leb_spec MAL_PROMISE_REACTION_POOL_LIMIT (reaction_pool_count v)).
  - destruct (release_reaction_ok (with_reactions s1 v) a _ Hl1) as (s2 & -> & Hl2 & Hag).
    assert (forall c, c ∈ concat (det :: pool :: plists (promises v) rl) -> slab_nodes s2 !! c = slab_nodes (reactions v) !! c) as Hag'.
    { intros c Hc. rewrite Hag by done. cbn. rewrite lookup_insert_ne; [done|]. intros <-. by destruct (Hne a Hc). }
    eexists. split; [done|]. split; [|split; [by repeat split|split; [done|intros c Hc; apply Hag'; by apply Hd]]].
    apply (detached_rest v s2 rl pool pool a det m); try done; [intros c Hc; apply Hag'; by apply Hpr|].
    eapply node_lists_perm; [|exact Hl2]. apply Permutation_swap.
  - set (x' := node_set_next (reaction_pool v) (cleared_reaction x)).
    assert (node_lists (node_write a x' s1) [] ((a :: pool) :: det :: plists (promises v) rl)) as Hl2.
    { apply node_lists_push; [|cbn; by rewrite Hpl]. eapply node_lists_perm; [|exact Hl1]. apply Permutation_swap. }
    assert (forall c, c ∈ concat (det :: pool :: plists (promises v) rl) ->
      slab_nodes (node_write a x' s1) !! c = slab_nodes (reactions v) !! c) as Hag'.
    { intros c Hc. cbn. rewrite !lookup_insert_ne; [done|..]; intros <-; by destruct (Hne a Hc). }
    eexists. split; [done|]. split; [|split; [by repeat split|split; [done|intros c Hc; apply Hag'; by apply Hd]]].
    apply (detached_rest v (node_write a x' s1) rl pool (a :: pool) a det m); try done;
      [intros c Hc; apply Hag'; by apply Hpr|]. cbn [length reaction_pool_count with_pool with_reactions]. lia.
Qed.

(** Freeing the detached list (a pending promise was collected). *)
Lemma free_reactions_ok det : forall fuel v m,
  reactions_rep v det m -> (length det < fuel)%nat ->
  exists v', mal_promise_free_reactions h fuel (head det) v = Ret v' /\ reactions_rep v' [] m /\
    frame_reactions v v' /\ promises v' = promises v.
Proof.
  induction det as [|a det IH]; intros [|fuel] v m Hrep Hf; cbn [length] in Hf; try lia.
  - exists v. by repeat split.
  - destruct Hrep as (rl & pool & Hok). destruct (detach_ok _ _ _ _ _ _ Hok) as (Hl & Ha & x & Hx & En).
    pose proof Hok as [_ Hpl Hct _]. cbn [head mal_promise_free_reactions]. unfold node_deref. rewrite Hx.
    cbn [mbind outcome_bind reactions shade]. set (s1 := node_write a (cleared_reaction x) (reactions v)).
    assert (node_lists s1 [a] (det :: pool :: plists (promises v) rl)) as Hl1 by (by apply node_lists_write_loose).
    set (v1 := with_reactions s1 _).
    destruct (release_reaction_ok v1 a _ Hl1) as (s2 & -> & Hl2 & Hag). cbn [mbind outcome_bind]. rewrite En.
    destruct (IH fuel (with_reactions s2 v1) m) as (v' & Er & Hrep & Hfr & Hpr); [|lia|].
    + apply (detached_rest v s2 rl pool pool a det m); try done.
      * intros c Hc. rewrite Hag by (cbn; rewrite !elem_of_app; tauto). cbn. rewrite lookup_insert_ne; [done|].
        intros <-. apply Ha. cbn. rewrite !elem_of_app. tauto.
      * eapply node_lists_perm; [|exact Hl2]. apply Permutation_swap.
    + exists v'. split; [exact Er|]. split; [done|]. split; [|done]. done.
Qed.

(** * Appending *)

(** A node for a new reaction, loose, from the pool or the slab. *)
Lemma take_reaction_ok v rl pool m :
  reactions_ok v rl pool [] m ->
  exists a s pool' hd n, take_reaction aligned_alloc v = Ret (a, with_pool hd n (with_reactions s v)) /\
    hd = head pool' /\ n = Z.of_nat (length pool') /\ a ∉ concat (plists (promises v) rl) /\
    slab_nodes s = slab_nodes (reactions v) /\
    (forall x, node_lists (node_write a x s) [a] (pool' :: plists (promises v) rl)).
Proof using alloc_aligned alloc_fresh.
  intros [Hl Hpl Hct _]. unfold take_reaction. rewrite Hpl.
  assert (node_lists (reactions v) [] (pool :: plists (promises v) rl)) as Hl0.
  { apply (node_lists_nil (reactions v) []). eapply node_lists_perm; [|exact Hl]. apply Permutation_swap. }
  destruct pool as [|a pool]; cbn [head].
  - destruct (node_lists_alloc aligned_alloc alloc_fresh alloc_aligned _ _ _ Hl0)
      as (b & s1 & x & a & s2 & x' & E1 & Ex & E2 & Hna & En & _ & _ & _ & _ & _ & Hnl).
    unfold mal_promise_allocate_reaction. rewrite E1. cbn [mbind outcome_bind]. rewrite E2. cbn [mbind outcome_bind].
    exists a, s2, [], (reaction_pool v), (reaction_pool_count v). split; [by destruct v|]. split_and!; try done.
  - pose proof (nl_linked _ _ _ Hl0) as Hk. apply Forall_cons in Hk as [Hk _].
    apply linked_cons in Hk as [(x & Hx & En) _]. unfold node_deref. rewrite Hx. cbn [mbind outcome_bind].
    apply node_lists_pop in Hl0. exists a, (reactions v), pool, (r_next x), (reaction_pool_count v - 1).
    split; [by destruct v|]. split_and!; try done.
    + cbn [length] in Hct. lia.
    + pose proof (nl_nodup _ _ _ Hl0) as Hn. cbn [app concat] in Hn. apply NoDup_cons in Hn as [Hn _].
      rewrite elem_of_app in Hn. tauto.
    + intros y. by apply node_lists_write_loose.
Qed.

Definition add_reaction (rc : reaction * Z) (sp : SPromise) : SPromise :=
  mkSPromise (sp_state sp) (sp_handled sp) (sp_result sp) (sp_reactions sp ++ [rc]).

(** The new list of the promise is in memory and the object points to it. *)
Lemma appended_rep v v' rl pool m p o sp a rc s :
  (forall q, promise_rel (reactions v) (rl q) (promises v !! q) (m !! q)) ->
  promises v !! p = Some o -> m !! p = Some sp -> sp_state sp = MAL_PROMISE_PENDING -> reaction_ok rc.1 ->
  a ∉ concat (plists (promises v) rl) ->
  (forall c, c <> a -> strip <$> slab_nodes s !! c = strip <$> slab_nodes (reactions v) !! c) ->
  strip <$> slab_nodes s !! a = Some (encode rc) ->
  node_lists s [] ((rl p ++ [a]) :: pool :: plists (delete p (promises v)) rl) ->
  reactions v' = s -> reaction_pool v' = head pool -> reaction_pool_count v' = Z.of_nat (length pool) ->
  promises v' = <[p := mkPromise (p_state o) (is_handled o) (result o) (head (rl p ++ [a])) (Some a)]> (promises v) ->
  reactions_rep v' [] (<[p := add_reaction rc sp]> m).
Proof.
  intros Hp Ho Hsp Hst Hrc Ha He Hea Hl Er Epl Ec Epr. exists (upd p (rl p ++ [a]) rl), pool.
  split; rewrite ?Er, ?Epr; try done.
  - eapply node_lists_perm; [|by apply (proj2 (node_lists_nil _ _ _)) in Hl; exact Hl].
    rewrite plists_insert. rewrite (Permutation_swap [] pool). apply perm_skip. apply Permutation_swap.
  - intros q. unfold upd. destruct (decide (q = p)) as [->|Hq].
    + rewrite !lookup_insert_eq. specialize (Hp p). rewrite Ho, Hsp in Hp. destruct Hp as [P1 P2 P3 P4 P5 P6 P7 P8].
      split; cbn; try done.
      * by rewrite last_snoc.
      * rewrite fmap_app. apply Forall2_app; [|by repeat constructor]. apply (holds_except (reactions v) s a); try done.
        intros Hin. apply Ha. by apply (elem_of_plists _ _ p o).
      * apply Forall_app. split; [done|]. by repeat constructor.
    + rewrite !lookup_insert_ne by done.
      apply (promises_ext v s rl m a Hp Ha). intros c _ Hc. by apply He.
Qed.

Lemma append_internal_ok v m p sp onf onr cr cj r :
  reactions_rep v [] m -> m !! p = Some sp -> sp_state sp = MAL_PROMISE_PENDING -> reaction_ok r ->
  encode (r, async_context v) = mkReaction None cr cj onf onr (async_context v) ->
  exists v', mal_promise_append_reaction_internal h aligned_alloc p onf onr cr cj v = Ret v' /\
    reactions_rep v' [] (<[p := add_reaction (r, async_context v) sp]> m) /\ frame_reactions v v'.
Proof using alloc_aligned alloc_fresh.
  intros (rl & pool & Hok) Hsp Hst Hr Henc.
  destruct (take_reaction_ok v rl pool m Hok) as (a & s & pool' & hd & n & Et & -> & -> & Ha & En & Hnl).
  pose proof Hok as [_ _ _ Hp]. pose proof (Hp p) as Hpp. unfold promise_rel in Hpp. rewrite Hsp in Hpp.
  destruct (promises v !! p) as [o|] eqn:Ho; [|done]. destruct Hpp as [P1 P2 P3 P4 P5 P6 P7 P8].
  unfold mal_promise_append_reaction_internal. rewrite Et. cbn [mbind outcome_bind async_context with_pool with_reactions reactions].
  set (x := mkReaction None cr cj onf onr (async_context v)). set (s1 := node_write a x s).
  unfold promise_deref. cbn [promises with_reactions with_pool]. rewrite Ho. cbn [mbind outcome_bind].
  assert (forall c, c <> a -> strip <$> slab_nodes s1 !! c = strip <$> slab_nodes (reactions v) !! c) as He1.
  { intros c Hc. cbn. by rewrite lookup_insert_ne, En. }
  assert (slab_nodes s1 !! a = Some x) as Hx1 by apply node_write_eq.
  assert (node_lists s1 [a] (rl p :: pool' :: plists (delete p (promises v)) rl)) as Hl1.
  { eapply node_lists_perm; [|apply (Hnl x)]. rewrite (plists_split _ _ p o Ho). apply Permutation_swap. }
  assert (a ∉ rl p) as Hap by (intros Hin; apply Ha; by apply (elem_of_plists _ _ p o)).
  rewrite P5. destruct (rl p) as [|t l] eqn:Erl using rev_ind.
  - cbn [last mbind outcome_bind]. unfold promise_deref. cbn [promises promise_write with_promises with_reactions with_pool].
    rewrite lookup_insert_eq. cbn [mbind outcome_bind]. eexists. split; [done|]. split; [|by repeat split].
    apply (appended_rep v _ rl pool' m p o sp a (r, async_context v) s1); try done.
    + rewrite Hx1, Henc. done.
    + rewrite Erl. by apply (node_lists_singleton s1 [] a x); [apply node_lists_nil| |].
    + cbn. rewrite insert_insert_eq, Erl. done.
  - clear IHl. rewrite last_snoc. unfold node_deref. cbn [reactions with_reactions].
    pose proof (nl_linked _ _ _ Hl1) as Hk. apply Forall_cons in Hk as [Hk _].
    destruct (linked_lookup _ _ _ t Hk) as [y Hy]; [apply elem_of_app; right; by apply list_elem_of_singleton|].
    rewrite Hy. cbn [mbind outcome_bind]. unfold promise_deref. cbn [promises promise_write with_promises with_reactions with_pool].
    rewrite Ho. cbn [mbind outcome_bind]. eexists. split; [done|]. split; [|by repeat split].
    assert (t <> a) as Hta by (intros ->; apply Hap, elem_of_app; right; by apply list_elem_of_singleton).
    apply (appended_rep v _ rl pool' m p o sp a (r, async_context v) (node_write t (node_set_next (Some a) y) s1)); try done.
    + intros c Hc. rewrite <- He1 by done. destruct (decide (c = t)) as [->|].
      * by rewrite node_write_eq, Hy.
      * by rewrite node_write_same.
    + rewrite node_write_same, Hx1, Henc by done. done.
    + rewrite Erl, <- app_assoc. by apply (node_lists_append s1 a x t y).
    + cbn. rewrite P4, Erl. by destruct l.
Qed.
End Reactions.
