(* ===== verification/PromiseRefine.v ===== *)
(** The runtime's promise operations simulate the abstract promise machine. *)

From stdpp Require Import gmap.
From S2P Require Import Prelude F64 Value Linked Slab SlabSpec Promise PromiseSpec PromiseLists.

(** * Frames *)

Lemma jobs_rep_same v v' js act :
  jobs v' = jobs v -> job_idle_block_count v' = job_idle_block_count v -> job_head v' = job_head v ->
  job_tail v' = job_tail v -> active_job v' = active_job v -> jobs_rep v js act -> jobs_rep v' js act.
Proof.
  intros E1 E2 E3 E4 E5 (ql & [H1 H2 H3 H4 H5 H6 H7]). exists ql.
  unfold active_list in *. split; unfold active_list; rewrite ?E1, ?E2, ?E3, ?E4, ?E5; done.
Qed.
Lemma jobs_rep_frame v v' js act : frame_reactions v v' -> jobs_rep v js act -> jobs_rep v' js act.
Proof. intros (E1 & E2 & E3 & E4 & E5 & _). by apply jobs_rep_same. Qed.

Lemma reactions_rep_frame v v' det m : frame_jobs v v' -> reactions_rep v det m -> reactions_rep v' det m.
Proof.
  intros (E1 & E2 & E3 & E4 & _) (rl & pool & [H1 H2 H3 H4]). exists rl, pool.
  split; rewrite ?E1, ?E2, ?E3, ?E4; done.
Qed.

(** A list of owned nodes is no longer than the memory. *)
Lemma node_lists_length {N} `{Node N} (s : Slab N) loose l ls :
  node_lists s loose (l :: ls) -> (length l < S (size (slab_nodes s)))%nat.
Proof.
  intros [_ Hn Hl _]. apply Forall_cons in Hl as [Hl _]. cbn [concat] in Hn.
  apply NoDup_app in Hn as (_ & _ & Hn). apply NoDup_app in Hn as (Hn & _ & _).
  rewrite <- (size_list_to_set (C := gset Z) l), <- size_dom by done.
  enough (list_to_set l ⊆ dom (slab_nodes s)) as Hsub by (apply subseteq_size in Hsub; lia).
  intros a Ha%elem_of_list_to_set. apply elem_of_dom. by apply (linked_lookup _ _ _ a Hl).
Qed.

Lemma det_length v det m : reactions_rep v det m -> (length det < list_fuel v)%nat.
Proof.
  intros (rl & pool & [Hl _ _ _]). unfold list_fuel.
  apply (node_lists_length _ [] det (pool :: plists (promises v) rl)).
  eapply node_lists_perm; [|exact Hl]. apply Permutation_swap.
Qed.

Lemma det_linked v det m : reactions_rep v det m -> linked r_next (slab_nodes (reactions v)) det.
Proof.
  intros (rl & pool & [Hl _ _ _]). pose proof (nl_linked _ _ _ Hl) as Hk.
  apply Forall_cons in Hk as [_ Hk]. by apply Forall_cons in Hk as [Hk _].
Qed.

Section Ops.
Context (h : HeapCells) (aligned_alloc : gmap Z SlabBlock -> Z) (promise_constructor : Z).
Hypothesis alloc_fresh : forall m, m !! aligned_alloc m = None.
Hypothesis alloc_aligned : forall m, aligned_alloc m mod SLAB_BLOCK_SIZE = 0.

(** * Barriers *)

(** Every word of every reaction of the list is shaded, in order. *)
Lemma barrier_ok det : forall fuel v xs,
  linked r_next (slab_nodes (reactions v)) det -> holds (reactions v) det xs -> (length det < fuel)%nat ->
  mal_promise_barrier_reactions h fuel (head det) v = Ret (shade (concat (reaction_words h <$> xs)) v).
Proof.
  induction det as [|a det IH]; intros [|fuel] v xs Hl Hh Hf; cbn [length] in Hf; try lia.
  - inversion Hh; subst. cbn. f_equal. destruct v. unfold shade. cbn. by rewrite app_nil_r.
  - inversion Hh as [|? x ? xs' Hx Hh']; subst. apply linked_cons in Hl as [(y & Hy & En) Hl].
    cbn [head mal_promise_barrier_reactions]. unfold node_deref. rewrite Hy. cbn [mbind outcome_bind]. rewrite En.
    rewrite (IH fuel (shade (reaction_words h y) v) xs'); [|done|done|lia].
    rewrite Hy in Hx. cbn in Hx. injection Hx as <-. f_equal. destruct v. unfold shade. cbn. by rewrite <- app_assoc.
Qed.

(** * Settlement *)

Lemma job_of_eta reject argument rc :
  mkJob None (kind (job_of reject argument rc)) (is_reject (job_of reject argument rc))
    (iterator_done (job_of reject argument rc)) (close_on_rejection (job_of reject argument rc))
    (j_context (job_of reject argument rc)) (payload (job_of reject argument rc)) = job_of reject argument rc.
Proof. destruct rc as [[] c]; reflexivity. Qed.

(** Unchanged by a batch of reactions: the loop's context and the rest. *)
Definition same_rest (v v' : PromiseVm) : Prop :=
  async_context v' = async_context v /\ async_scope v' = async_scope v /\
  unhandled_rejections v' = unhandled_rejections v.

Lemma frame_jobs_rest v v' : frame_jobs v v' -> same_rest v v'.
Proof. by intros (_ & _ & _ & _ & ? & ? & ?). Qed.
Lemma frame_reactions_rest v v' : frame_reactions v v' -> same_rest v v'.
Proof. by intros (_ & _ & _ & _ & _ & ? & ? & ?). Qed.

Lemma trigger_ok reject argument det : forall fuel v m rs js act,
  reactions_rep v det m -> holds (reactions v) det (encode <$> rs) -> Forall (fun rc => reaction_ok rc.1) rs ->
  jobs_rep v js act -> (length det < fuel)%nat ->
  exists v', mal_promise_trigger_reactions aligned_alloc fuel (head det) reject argument v = Ret v' /\
    reactions_rep v' [] m /\ jobs_rep v' (js ++ (job_of reject argument <$> rs)) act /\ same_rest v v'.
Proof using alloc_aligned alloc_fresh.
  induction det as [|a det IH]; intros [|fuel] v m rs js act Hr Hh Hok Hj Hf; cbn [length] in Hf; try lia.
  - apply Forall2_nil_inv_l in Hh. destruct rs; [|done]. exists v. rewrite app_nil_r. by repeat split.
  - destruct rs as [|rc rs]; [by inversion Hh|]. inversion Hh as [|? ? ? ? Hx Hh']; subst. apply Forall_cons in Hok as [Hrc Hok].
    pose proof (det_linked _ _ _ Hr) as Hl. apply linked_cons in Hl as [(x & Hxa & En) _]. cbn in En.
    cbn [head mal_promise_trigger_reactions]. unfold node_deref. rewrite Hxa in *. cbn [mbind outcome_bind] in *.
    injection Hx as Hx. rewrite (trigger_one_ok aligned_alloc rc x reject argument v Hrc Hx).
    destruct (enqueue_new_ok aligned_alloc alloc_fresh alloc_aligned v js act
      (kind (job_of reject argument rc)) (is_reject (job_of reject argument rc)) (iterator_done (job_of reject argument rc))
      (close_on_rejection (job_of reject argument rc)) (Some (j_context (job_of reject argument rc))) (payload (job_of reject argument rc)) Hj)
      as (v1 & E1 & Hch & Hj1). apply job_change_frame in Hch. unfold enqueue_job. rewrite E1. cbn [mbind outcome_bind default] in *.
    rewrite job_of_eta in Hj1. apply (reactions_rep_frame _ _ _ _ Hch) in Hr.
    destruct (recycle_ok v1 a det m Hr) as (v2 & E2 & Hr2 & Hf2 & _ & Hn2). rewrite E2. cbn [mbind outcome_bind]. rewrite En.
    pose proof Hch as (Er1 & _).
    destruct (IH fuel v2 m rs (js ++ [job_of reject argument rc]) act Hr2) as (v' & E' & Hr' & Hj' & Hs'); [|done| |lia|].
    + apply (holds_ext (reactions v)); [|done]. intros c Hc. by rewrite Hn2, Er1.
    + by apply (jobs_rep_frame v1).
    + exists v'. split; [exact E'|]. split; [done|]. split.
      * by rewrite fmap_cons, cons_middle, app_assoc.
      * destruct Hs' as (? & ? & ?). destruct (frame_jobs_rest _ _ Hch) as (? & ? & ?).
        destruct (frame_reactions_rest _ _ Hf2) as (? & ? & ?). split_and!; congruence.
Qed.

Definition settle (st : MalPromiseState) (value : Z) (sp : SPromise) : SPromise :=
  mkSPromise st (sp_handled sp) value [].

(** The list of a promise that is being settled, detached. *)
Lemma detach_promise v m p o sp v' st value :
  reactions_rep v [] m -> promises v !! p = Some o -> m !! p = Some sp -> st <> MAL_PROMISE_PENDING ->
  reactions v' = reactions v -> reaction_pool v' = reaction_pool v -> reaction_pool_count v' = reaction_pool_count v ->
  promises v' = <[p := mkPromise st (is_handled o) value None None]> (promises v) ->
  exists l, reactions_head o = head l /\ holds (reactions v) l (encode <$> sp_reactions sp) /\
    Forall (fun rc => reaction_ok rc.1) (sp_reactions sp) /\ linked r_next (slab_nodes (reactions v)) l /\
    reactions_rep v' l (<[p := settle st value sp]> m).
Proof.
  intros (rl & pool & [Hl Hpl Hct Hp]) Ho Hsp Hst E1 E2 E3 E4. pose proof (Hp p) as Hpp. unfold promise_rel in Hpp.
  rewrite Ho, Hsp in Hpp. destruct Hpp as [P1 P2 P3 P4 P5 P6 P7 P8]. exists (rl p). split_and!; try done.
  - pose proof (nl_linked _ _ _ Hl) as Hk. rewrite (plists_split _ _ p o Ho) in Hk.
    apply Forall_cons in Hk as [_ Hk]. apply Forall_cons in Hk as [_ Hk]. by apply Forall_cons in Hk as [Hk _].
  - exists (upd p [] rl), pool. split; rewrite ?E1, ?E2, ?E3, ?E4; try done.
    + eapply node_lists_perm; [|exact Hl]. rewrite plists_insert, (plists_split _ _ p o Ho). apply perm_skip.
      apply Permutation_swap.
    + intros q. unfold upd. destruct (decide (q = p)) as [->|Hq].
      * rewrite !lookup_insert_eq. by split; cbn; try done; constructor.
      * rewrite !lookup_insert_ne by done. apply Hp.
Qed.

(** * The abstract operations *)

Definition set_sp (p : Z) (sp : SPromise) (s : SVm) : SVm :=
  mkSVm (<[p := sp]> (sv_promises s)) (sv_jobs s) (sv_active s) (sv_context s) (sv_scope s) (sv_unhandled s).
Definition add_jobs (js : list MalJob) (s : SVm) : SVm :=
  mkSVm (sv_promises s) (sv_jobs s ++ js) (sv_active s) (sv_context s) (sv_scope s) (sv_unhandled s).
Definition add_unhandled (ps : list Z) (s : SVm) : SVm :=
  mkSVm (sv_promises s) (sv_jobs s) (sv_active s) (sv_context s) (sv_scope s) (sv_unhandled s ++ ps).
Definition set_context (c : Z) (scope : option Z) (s : SVm) : SVm :=
  mkSVm (sv_promises s) (sv_jobs s) (sv_active s) c scope (sv_unhandled s).

Definition rejects (st : MalPromiseState) : bool := bool_decide (st = MAL_PROMISE_REJECTED).

(** Settling: once, with a job per reaction in registration order. *)
Definition spec_settle (p : Z) (st : MalPromiseState) (value : Z) (s : SVm) : SVm :=
  match sv_promises s !! p with
  | Some sp =>
      if bool_decide (sp_state sp = MAL_PROMISE_PENDING) then
        add_unhandled (if rejects st && negb (sp_handled sp) then [mal_value_from_promise_object p] else [])
          (add_jobs (job_of (rejects st) value <$> sp_reactions sp) (set_sp p (settle st value sp) s))
      else s
  | None => s
  end.

(** Registering: kept while pending, else its job at once. *)
Definition spec_register (p : Z) (r : reaction) (s : SVm) : SVm :=
  match sv_promises s !! p with
  | Some sp =>
      let sp := mkSPromise (sp_state sp) true (sp_result sp) (sp_reactions sp) in
      match sp_state sp with
      | MAL_PROMISE_PENDING => set_sp p (add_reaction (r, sv_context s) sp) s
      | st => add_jobs [job_of (rejects st) (sp_result sp) (r, sv_context s)] (set_sp p sp s)
      end
  | None => s
  end.

Record rep (v : PromiseVm) (s : SVm) : Prop := {
  rep_reactions : reactions_rep v [] (sv_promises s);
  rep_jobs : jobs_rep v (sv_jobs s) (sv_active s);
  rep_context : async_context v = sv_context s;
  rep_scope : async_scope v = sv_scope s;
  rep_unhandled : unhandled_rejections v = sv_unhandled s;
}.

(** The object behind an abstract promise. *)
Lemma promise_object v m p sp :
  reactions_rep v [] m -> m !! p = Some sp ->
  exists o, promises v !! p = Some o /\ p_state o = sp_state sp /\ is_handled o = sp_handled sp /\ result o = sp_result sp.
Proof.
  intros (rl & pool & [_ _ _ Hp]) Hsp. specialize (Hp p). unfold promise_rel in Hp. rewrite Hsp in Hp.
  destruct (promises v !! p) as [o|]; [|done]. destruct Hp. by exists o.
Qed.

(** The common tail of fulfill and reject, from the detached list on. *)
Lemma settle_tail v v' m p o sp st value js act reject :
  reactions_rep v [] m -> promises v !! p = Some o -> m !! p = Some sp -> st <> MAL_PROMISE_PENDING ->
  jobs_rep v' js act ->
  reactions v' = reactions v -> reaction_pool v' = reaction_pool v -> reaction_pool_count v' = reaction_pool_count v ->
  promises v' = <[p := mkPromise st (is_handled o) value None None]> (promises v) ->
  exists w, mal_promise_trigger_reactions aligned_alloc (list_fuel v') (reactions_head o) reject value v' = Ret w /\
    reactions_rep w [] (<[p := settle st value sp]> m) /\
    jobs_rep w (js ++ (job_of reject value <$> sp_reactions sp)) act /\ same_rest v' w.
Proof using alloc_aligned alloc_fresh.
  intros Hr Ho Hsp Hst Hj E1 E2 E3 E4.
  destruct (detach_promise v m p o sp v' st value Hr Ho Hsp Hst E1 E2 E3 E4) as (l & Hh & Hho & Hro & _ & Hr').
  rewrite Hh. apply trigger_ok; try done.
  - by rewrite E1.
  - by apply (det_length _ _ _ Hr').
Qed.

Lemma settle_barrier v m p o sp :
  reactions_rep v [] m -> promises v !! p = Some o -> m !! p = Some sp ->
  forall w, reactions w = reactions v ->
  mal_promise_barrier_reactions h (list_fuel w) (reactions_head o) w
  = Ret (shade (concat (reaction_words h <$> (encode <$> sp_reactions sp))) w).
Proof.
  intros Hr Ho Hsp w Ew.
  destruct (detach_promise v m p o sp (promise_write p (mkPromise MAL_PROMISE_FULFILLED (is_handled o) 0 None None) v)
    MAL_PROMISE_FULFILLED 0 Hr Ho Hsp) as (l & Hh & Hho & _ & Hl & Hr'); try done.
  rewrite Hh. apply barrier_ok; rewrite ?Ew; try done. unfold list_fuel. rewrite Ew. exact (det_length _ _ _ Hr').
Qed.

Lemma fulfill_step v s p value :
  rep v s -> is_Some (sv_promises s !! p) ->
  exists v', mal_promise_fulfill h aligned_alloc p value v = Ret v' /\ rep v' (spec_settle p MAL_PROMISE_FULFILLED value s).
Proof using alloc_aligned alloc_fresh.
  intros [Hr Hj Hc Hsc Hu] [sp Hsp]. destruct (promise_object v _ p sp Hr Hsp) as (o & Ho & Es & Eh & _).
  unfold mal_promise_fulfill, promise_deref, spec_settle. rewrite Ho, Hsp. cbn [mbind outcome_bind]. rewrite Es.
  destruct (bool_decide (sp_state sp = MAL_PROMISE_PENDING)); cbn [negb]; [|by exists v].
  rewrite (settle_barrier v _ p o sp Hr Ho Hsp) by done. cbn [mbind outcome_bind].
  set (v1 := promise_write p _ (shade _ _)).
  destruct (settle_tail v v1 _ p o sp MAL_PROMISE_FULFILLED value (sv_jobs s) (sv_active s) false Hr Ho Hsp)
    as (w & E & Hrw & Hjw & H1 & H2 & H3); try done.
  { by apply (jobs_rep_same v). }
  { cbn. by rewrite insert_insert_eq. }
  exists w. split; [exact E|]. split; cbn; [done|done|by rewrite H1|by rewrite H2|by rewrite H3, app_nil_r].
Qed.

Lemma reject_step v s p value :
  rep v s -> is_Some (sv_promises s !! p) ->
  exists v', mal_promise_reject h aligned_alloc p value v = Ret v' /\ rep v' (spec_settle p MAL_PROMISE_REJECTED value s).
Proof using alloc_aligned alloc_fresh.
  intros [Hr Hj Hc Hsc Hu] [sp Hsp]. destruct (promise_object v _ p sp Hr Hsp) as (o & Ho & Es & Eh & _).
  unfold mal_promise_reject, promise_deref, spec_settle. rewrite Ho, Hsp. cbn [mbind outcome_bind]. rewrite Es.
  destruct (bool_decide (sp_state sp = MAL_PROMISE_PENDING)); cbn [negb]; [|by exists v].
  rewrite (settle_barrier v _ p o sp Hr Ho Hsp) by done. cbn [mbind outcome_bind].
  set (v0 := promise_write p _ (shade _ _)).
  set (us := if negb (sp_handled sp) then [mal_value_from_promise_object p] else []).
  assert ((if negb (is_handled o) then mal_vm_note_unhandled_rejection (mal_value_from_promise_object p) v0 else v0)
    = with_unhandled (unhandled_rejections v ++ us) v0) as ->.
  { unfold us. rewrite Eh. destruct (sp_handled sp); [|done]. cbn [negb]. rewrite app_nil_r. by destruct v. }
  destruct (settle_tail v (with_unhandled (unhandled_rejections v ++ us) v0) _ p o sp MAL_PROMISE_REJECTED value
    (sv_jobs s) (sv_active s) true Hr Ho Hsp) as (w & E & Hrw & Hjw & H1 & H2 & H3); try done.
  { by apply (jobs_rep_same v). }
  { cbn. by rewrite insert_insert_eq. }
  exists w. split; [exact E|]. split; cbn; [done|done|by rewrite H1|by rewrite H2|]. rewrite H3. cbn. by rewrite Hu.
Qed.

(** * Registration *)

(** The entry points of builtin_promise.c that wait on a promise. *)
Inductive registration : Type :=
| GThen (onf onr cr cj : Z)
| GAwait (state : Z)
| GGenReturn (generator : Z)
| GFromSync (sync_iterator : Z) (done close : bool) (result_promise anchor : Z)
| GAsyncDispose (result_promise anchor : Z)
| GDispose (stack result_promise anchor : Z)
| GAll (state index : Z).

Definition perform (g : registration) (p : Z) : PromiseVm -> outcome PromiseVm :=
  match g with
  | GThen onf onr cr cj => mal_promise_perform_then h aligned_alloc p onf onr cr cj
  | GAwait state => mal_promise_perform_await h aligned_alloc p state
  | GGenReturn generator => mal_promise_perform_async_generator_return h aligned_alloc promise_constructor p generator
  | GFromSync it done close rp anchor => mal_promise_perform_async_from_sync h aligned_alloc p it done close rp anchor
  | GAsyncDispose rp anchor => mal_promise_perform_async_dispose h aligned_alloc p rp anchor
  | GDispose stack rp anchor => mal_promise_perform_dispose_resources h aligned_alloc p stack rp anchor
  | GAll state index => perform_all_element h aligned_alloc p state index
  end.

(** What each waits with: handlers that are not callable count as absent. *)
Definition reaction_of (g : registration) : reaction :=
  match g with
  | GThen onf onr cr cj =>
      RThen (if mal_value_is_callable h onf then onf else MAL_VALUE_UNDEFINED)
        (if mal_value_is_callable h onr then onr else MAL_VALUE_UNDEFINED) cr cj
  | GAwait state => RAwait state
  | GGenReturn generator => RGenReturn generator promise_constructor
  | GFromSync it done close rp anchor => RFromSync it rp anchor done close
  | GAsyncDispose rp anchor => RThen MAL_VALUE_EMPTY MAL_VALUE_UNDEFINED rp anchor
  | GDispose stack rp anchor => RDispose stack rp anchor
  | GAll state index => RAll state index
  end.

Definition append_encoded (e : MalPromiseReaction) (p : Z) : PromiseVm -> outcome PromiseVm :=
  mal_promise_append_reaction_internal h aligned_alloc p (on_fulfilled e) (on_rejected e) (cap_resolve e) (cap_reject e).

(** One shape for the seven: the promise is marked, then the reaction is appended
    or its job is queued. *)
Lemma perform_eq g p v :
  perform g p v =
    ('(o, v) ← mark_handled p v;
     match p_state o with
     | MAL_PROMISE_PENDING => append_encoded (encode (reaction_of g, async_context v)) p v
     | st => enqueue_job aligned_alloc (job_of (rejects st) (result o) (reaction_of g, async_context v)) v
     end).
Proof.
  destruct g; cbn [perform];
    unfold mal_promise_perform_then, mal_promise_perform_await, mal_promise_perform_async_generator_return,
      mal_promise_perform_async_from_sync, mal_promise_perform_async_dispose, mal_promise_perform_dispose_resources, perform_all_element;
    (destruct (mark_handled p v) as [[o v1]| |]; [|reflexivity..]); cbn [mbind outcome_bind];
    destruct (p_state o); reflexivity.
Qed.

(** A write to a promise object that keeps its list. *)
Lemma promise_write_ok v m p o sp o' sp' :
  reactions_rep v [] m -> promises v !! p = Some o -> m !! p = Some sp ->
  p_state o' = sp_state sp' -> is_handled o' = sp_handled sp' -> result o' = sp_result sp' ->
  reactions_head o' = reactions_head o -> reactions_tail o' = reactions_tail o ->
  sp_reactions sp' = sp_reactions sp -> sp_state sp' = sp_state sp ->
  reactions_rep (promise_write p o' v) [] (<[p := sp']> m).
Proof.
  intros (rl & pool & [Hl Hpl Hct Hp]) Ho Hsp E1 E2 E3 E4 E5 E6 E7. exists rl, pool. split; cbn; try done.
  - assert (plists (<[p := o']> (promises v)) rl ≡ₚ plists (promises v) rl) as E.
    { rewrite (plists_split (<[p := o']> (promises v)) rl p o') by apply lookup_insert_eq.
      by rewrite delete_insert_eq, (plists_split _ _ p o Ho). }
    eapply node_lists_perm; [|exact Hl]. by rewrite E.
  - intros q. destruct (decide (q = p)) as [->|Hq]; [|by rewrite !lookup_insert_ne].
    rewrite !lookup_insert_eq. specialize (Hp p). rewrite Ho, Hsp in Hp. destruct Hp as [P1 P2 P3 P4 P5 P6 P7 P8].
    split; [done|done|done|congruence|congruence|by rewrite E6|by rewrite E6|]. by rewrite E6, E7.
Qed.

Lemma mark_handled_ok v m p sp :
  reactions_rep v [] m -> m !! p = Some sp ->
  exists o v', mark_handled p v = Ret (o, v') /\ p_state o = sp_state sp /\ result o = sp_result sp /\
    reactions_rep v' [] (<[p := mkSPromise (sp_state sp) true (sp_result sp) (sp_reactions sp)]> m) /\ frame_reactions v v'.
Proof.
  intros Hr Hsp. destruct (promise_object v _ p sp Hr Hsp) as (o & Ho & Es & Eh & Er).
  unfold mark_handled, promise_deref. rewrite Ho. cbn [mbind outcome_bind].
  eexists _, _. split; [done|]. split_and!; [done|done| |by repeat split]. by eapply promise_write_ok.
Qed.

(** A queued job at the level of the machine. *)
Lemma add_job_step v s k reject done close context p :
  rep v s ->
  exists v', enqueue_new aligned_alloc k reject done close context p v = Ret v' /\
    rep v' (add_jobs [mkJob None k reject done close (default (sv_context s) context) p] s).
Proof using alloc_aligned alloc_fresh.
  intros [Hr Hj Hc Hsc Hu].
  destruct (enqueue_new_ok aligned_alloc alloc_fresh alloc_aligned v _ _ k reject done close context p Hj) as (v' & E & Hch & Hj').
  apply job_change_frame in Hch. destruct (frame_jobs_rest _ _ Hch) as (H1 & H2 & H3). rewrite Hc in Hj'.
  exists v'. split; [done|]. split; cbn; [by apply (reactions_rep_frame v)|done|congruence..].
Qed.

Lemma register_step v s g p :
  rep v s -> is_Some (sv_promises s !! p) -> reaction_ok (reaction_of g) ->
  exists v', perform g p v = Ret v' /\ rep v' (spec_register p (reaction_of g) s).
Proof using alloc_aligned alloc_fresh.
  intros [Hr Hj Hc Hsc Hu] [sp Hsp] Hg. rewrite perform_eq. unfold spec_register. rewrite Hsp.
  destruct (mark_handled_ok v _ p sp Hr Hsp) as (o & v1 & E1 & Es & Er & Hr1 & Hf1). rewrite E1. cbn [mbind outcome_bind].
  rewrite Es, Er. destruct (frame_reactions_rest _ _ Hf1) as (H1 & H2 & H3). rewrite H1, Hc.
  set (sp1 := mkSPromise (sp_state sp) true (sp_result sp) (sp_reactions sp)) in *.
  assert (rep v1 (set_sp p sp1 s)) as Hrep1
    by (split; cbn; [done|by apply (jobs_rep_frame v)|congruence..]).
  assert (forall st, exists v', enqueue_job aligned_alloc (job_of (rejects st) (sp_result sp) (reaction_of g, sv_context s)) v1 = Ret v' /\
    rep v' (add_jobs [job_of (rejects st) (sp_result sp) (reaction_of g, sv_context s)] (set_sp p sp1 s))) as Hjob.
  { intros st. set (j := job_of _ _ _). destruct (add_job_step v1 _ (kind j) (is_reject j) (iterator_done j) (close_on_rejection j)
      (Some (j_context j)) (payload j) Hrep1) as (v' & E & Hrep). exists v'. split; [done|].
    cbn [default] in Hrep. unfold j in Hrep. by rewrite job_of_eta in Hrep. }
  cbn [sp_state sp1]. destruct (sp_state sp) eqn:Est; [|apply Hjob..].
  unfold append_encoded. set (e := encode _).
  destruct (append_internal_ok h aligned_alloc alloc_fresh alloc_aligned v1 _ p sp1 (on_fulfilled e) (on_rejected e) (cap_resolve e)
    (cap_reject e) (reaction_of g) Hr1) as (v' & E & Hr' & Hf'); [apply lookup_insert_eq|done|done| |].
  { rewrite H1, Hc. by destruct g. }
  rewrite H1, Hc, insert_insert_eq in Hr'. destruct (frame_reactions_rest _ _ Hf') as (G1 & G2 & G3).
  exists v'. split; [done|]. split; cbn; [done| |congruence..].
  apply (jobs_rep_frame v1); [done|]. by apply (jobs_rep_frame v).
Qed.
End Ops.
