(* ===== verification/PromiseTheorems.v ===== *)
(** Runs of the promise runtime: refinement of the abstract machine, jobs in
    registration order whatever the order of registration and settlement, and a
    collector that sees every word that leaves a reaction list. *)

From stdpp Require Import gmap.
From S2P Require Import Prelude F64 Value Linked Slab SlabSpec Promise PromiseSpec PromiseLists PromiseRefine.

(** * Operations *)

Inductive promise_op : Type :=
| ONew (p : Z)
| ORegister (p : Z) (g : registration)
| OFulfill (p value : Z)
| OReject (p reason : Z)
| OFinalize (p : Z)
| OHostJob (fn data : Z) (reject : bool) (argument : Z)
| OThenable (then_ thenable resolve_fn reject_fn : Z)
| OAdopt (captured_then source target target_constructor : Z)
| OContext (c : Z)
| OBegin
| OEnd
| OStop.

Section Run.
Context (h : HeapCells) (aligned_alloc : gmap Z SlabBlock -> Z) (promise_constructor : Z).

Definition promise_step (v : PromiseVm) (op : promise_op) : outcome PromiseVm :=
  match op with
  | ONew p => Ret (mal_promise_object_new p v)
  | ORegister p g => perform h aligned_alloc promise_constructor g p v
  | OFulfill p value => mal_promise_fulfill h aligned_alloc p value v
  | OReject p reason => mal_promise_reject h aligned_alloc p reason v
  | OFinalize p => finalize_promise h p v
  | OHostJob fn data reject argument => mal_vm_enqueue_host_job aligned_alloc fn data reject argument v
  | OThenable t th rs rj => mal_vm_enqueue_thenable_job aligned_alloc t th rs rj v
  | OAdopt t src tg ct => mal_vm_enqueue_promise_adoption_job aligned_alloc t src tg ct v
  | OContext c => Ret (with_context c (async_scope v) v)
  | OBegin => drain_begin v
  | OEnd => drain_end h v
  | OStop => Ret (drain_stop v)
  end.

(** The machine of ECMAScript: promises, a queue of jobs and the async context. *)
Definition spec_op (s : SVm) (op : promise_op) : SVm :=
  match op with
  | ONew p => set_sp p (mkSPromise MAL_PROMISE_PENDING false MAL_VALUE_UNDEFINED []) s
  | ORegister p g => spec_register p (reaction_of h promise_constructor g) s
  | OFulfill p value => spec_settle p MAL_PROMISE_FULFILLED value s
  | OReject p reason => spec_settle p MAL_PROMISE_REJECTED reason s
  | OFinalize p =>
      mkSVm (delete p (sv_promises s)) (sv_jobs s) (sv_active s) (sv_context s) (sv_scope s) (sv_unhandled s)
  | OHostJob fn data reject argument =>
      add_jobs [mkJob None MAL_JOB_HOST_CALLBACK reject false false (sv_context s) (PHost fn data argument)] s
  | OThenable t th rs rj =>
      add_jobs [mkJob None MAL_JOB_PROMISE_RESOLVE_THENABLE false false false (sv_context s) (PThenable t th rs rj)] s
  | OAdopt t src tg ct =>
      add_jobs [mkJob None MAL_JOB_PROMISE_RESOLVE_THENABLE false false false (sv_context s) (PThenable t src tg ct)] s
  | OContext c => set_context c (sv_scope s) s
  | OBegin =>
      match sv_jobs s with
      | [] => s
      | j :: js =>
          mkSVm (sv_promises s) js (Some j) (j_context j) (Some (default (sv_context s) (sv_scope s))) (sv_unhandled s)
      end
  | OEnd => mkSVm (sv_promises s) (sv_jobs s) None (sv_context s) (sv_scope s) (sv_unhandled s)
  | OStop => set_context (default (sv_context s) (sv_scope s)) None s
  end.

(** When an operation may occur: promises that exist, fresh cells, capabilities
    that are no int32, one job at a time. *)
Definition op_enabled (s : SVm) (op : promise_op) : Prop :=
  match op with
  | ONew p => sv_promises s !! p = None
  | ORegister p g => is_Some (sv_promises s !! p) /\ reaction_ok (reaction_of h promise_constructor g)
  | OFulfill p _ | OReject p _ | OFinalize p => is_Some (sv_promises s !! p)
  | OBegin => sv_active s = None
  | OEnd => is_Some (sv_active s)
  | _ => True
  end.

Fixpoint promise_run (v : PromiseVm) (ops : list promise_op) : outcome PromiseVm :=
  match ops with [] => Ret v | op :: ops => v ← promise_step v op; promise_run v ops end.
Fixpoint spec_run (s : SVm) (ops : list promise_op) : SVm :=
  match ops with [] => s | op :: ops => spec_run (spec_op s op) ops end.
Fixpoint ops_enabled (s : SVm) (ops : list promise_op) : Prop :=
  match ops with [] => True | op :: ops => op_enabled s op /\ ops_enabled (spec_op s op) ops end.

Definition new_vm : PromiseVm := mkVm empty_slab None 0 empty_slab 0 None None None ∅ 0 None [] [] [].
Definition new_machine : SVm := mkSVm ∅ [] None 0 None [].

(** * The remaining steps *)

Lemma new_step v s p :
  rep v s -> sv_promises s !! p = None -> rep (mal_promise_object_new p v) (spec_op s (ONew p)).
Proof.
  intros [(rl & pool & [Hl Hpl Hct Hp]) Hj Hc Hsc Hu] Hn. split; cbn; try done; [|by apply (jobs_rep_same v)].
  pose proof (Hp p) as Hpp. unfold promise_rel in Hpp. rewrite Hn in Hpp. destruct (promises v !! p) eqn:Ho; [done|].
  exists (upd p [] rl), pool. split; cbn; try done.
  - eapply node_lists_perm; [|by apply (proj2 (node_lists_nil _ _ _)) in Hl; exact Hl].
    rewrite plists_fresh by done. apply Permutation_swap.
  - intros q. unfold upd. destruct (decide (q = p)) as [->|].
    + rewrite !lookup_insert_eq. by split; cbn; try done; constructor.
    + rewrite !lookup_insert_ne by done. apply Hp.
Qed.

(** Freeing a list does not look at the promises. *)
Lemma free_reactions_promises q fuel : forall l v,
  mal_promise_free_reactions h fuel l (with_promises q v)
  = match mal_promise_free_reactions h fuel l v with Ret w => Ret (with_promises q w) | Abort => Abort | NoFuel => NoFuel end.
Proof.
  induction fuel as [|fuel IH]; intros l v; [done|]. cbn [mal_promise_free_reactions].
  destruct l as [a|]; [|done]. unfold node_deref. cbn [reactions with_promises].
  destruct (slab_nodes (reactions v) !! a) as [x|]; [|done]. cbn [mbind outcome_bind].
  unfold mal_promise_release_reaction. cbn [reactions with_promises with_reactions shade].
  destruct (push_free a _) as [[b s1]| |]; [|done|done]. cbn [mbind outcome_bind].
  destruct (block_deref s1 b) as [y| |]; [|done|done]. cbn [mbind outcome_bind].
  destruct (negb (live_count y =? 0)).
  - cbn [mbind outcome_bind]. apply (IH _ (with_reactions s1 (with_reactions _ (shade (reaction_words h x) v)))).
  - destruct (free_block b s1) as [s2| |]; [|done|done]. cbn [mbind outcome_bind].
    apply (IH _ (with_reactions s2 (with_reactions _ (shade (reaction_words h x) v)))).
Qed.

(** A promise removed, its list detached. *)
Lemma remove_promise v m p o :
  reactions_rep v [] m -> promises v !! p = Some o ->
  exists l, reactions_head o = head l /\ reactions_rep (with_promises (delete p (promises v)) v) l (delete p m).
Proof.
  intros (rl & pool & [Hl Hpl Hct Hp]) Ho. exists (rl p). split.
  - specialize (Hp p). unfold promise_rel in Hp. rewrite Ho in Hp. destruct (m !! p); [|done]. by destruct Hp.
  - exists rl, pool. split; cbn; try done.
    + eapply node_lists_perm; [|apply (proj1 (node_lists_nil (reactions v) [] _)); eapply node_lists_perm; [|exact Hl]].
      * apply perm_skip. by apply (plists_split _ _ p o).
      * apply Permutation_swap.
    + intros q. destruct (decide (q = p)) as [->|]; [by rewrite !lookup_delete_eq|]. by rewrite !lookup_delete_ne.
Qed.

Lemma finalize_step v s p :
  rep v s -> is_Some (sv_promises s !! p) ->
  exists v', finalize_promise h p v = Ret v' /\ rep v' (spec_op s (OFinalize p)).
Proof.
  intros [Hr Hj Hc Hsc Hu] [sp Hsp]. destruct (promise_object v _ p sp Hr Hsp) as (o & Ho & _).
  destruct (remove_promise v _ p o Hr Ho) as (l & Hh & Hr').
  destruct (free_reactions_ok h l (list_fuel v) _ _ Hr') as (w & E & Hrw & Hf & Epr).
  { exact (det_length _ _ _ Hr'). }
  pose proof (free_reactions_promises (promises v) (list_fuel v) (head l) (with_promises (delete p (promises v)) v)) as Hcom.
  rewrite E in Hcom. replace (with_promises (promises v) (with_promises (delete p (promises v)) v)) with v in Hcom by (by destruct v).
  unfold finalize_promise, promise_deref. rewrite Ho. cbn [mbind outcome_bind]. rewrite Hh, Hcom. cbn [mbind outcome_bind].
  cbn [promises with_promises] in Epr |- *. rewrite <- Epr.
  destruct (frame_reactions_rest _ _ Hf) as (H1 & H2 & H3).
  eexists. split; [done|]. replace (with_promises _ _) with w by (destruct w; cbn in *; by rewrite Epr).
  split; cbn; [done| |by rewrite H1|by rewrite H2|by rewrite H3]. apply (jobs_rep_frame _ _ _ _ Hf). by apply (jobs_rep_same v).
Qed.

Lemma begin_step v s : rep v s -> sv_active s = None -> exists v', drain_begin v = Ret v' /\ rep v' (spec_op s OBegin).
Proof.
  intros [Hr Hj Hc Hsc Hu] Ha. unfold drain_begin. cbn [spec_op]. destruct (sv_jobs s) as [|j js] eqn:Ej.
  - pose proof Hj as (ql & [_ Hh _ Hho _ _ _]). apply Forall2_nil_inv_r in Hho as ->. rewrite Hh. exists v.
    split; [done|]. split; try done. by rewrite Ej.
  - rewrite Ha in Hj. destruct (begin_ok v j js Hj) as (a & x & Hhd & Hx & Es & Hj'). rewrite Hhd. unfold node_deref. rewrite Hx.
    cbn [mbind outcome_bind]. set (v1 := with_active _ _) in *.
    assert (j_context x = j_context j) as Ecx by (by rewrite <- Es).
    assert (reactions_rep v1 [] (sv_promises s)) as Hr1 by (destruct Hr as (rl & pool & [? ? ? ?]); by exists rl, pool).
    change (async_scope v1) with (async_scope v). rewrite Hsc.
    assert (forall c sc, rep (with_context c sc v1) (mkSVm (sv_promises s) js (Some j) c sc (sv_unhandled s))) as Hdone.
    { intros c sc. split; cbn; try done.
      - destruct Hr1 as (rl & pool & [? ? ? ?]). by exists rl, pool.
      - by apply (jobs_rep_same v1). }
    destruct (sv_scope s) as [prev|] eqn:Esc; cbn [default].
    + destruct (Z.eqb_spec (j_context x) (async_context v1)) as [E|]; cbn [negb].
      * exists v1. split; [done|]. replace v1 with (with_context (j_context j) (Some prev) v1); [apply Hdone|].
        rewrite <- Ecx, E. unfold v1 in *. destruct v; cbn in *. by rewrite Hsc.
      * eexists. split; [done|]. unfold mal_async_context_scope_exit. change (async_scope v1) with (async_scope v). rewrite Hsc.
        unfold mal_async_context_scope_enter. cbn [async_context with_context]. rewrite Ecx. apply (Hdone (j_context j) (Some prev)).
    + eexists. split; [done|]. unfold mal_async_context_scope_enter. rewrite Ecx. change (async_context v1) with (async_context v).
      rewrite Hc. apply Hdone.
Qed.

Lemma end_step v s : rep v s -> is_Some (sv_active s) -> exists v', drain_end h v = Ret v' /\ rep v' (spec_op s OEnd).
Proof.
  intros [Hr Hj Hc Hsc Hu] [j Ha]. rewrite Ha in Hj. destruct (end_ok h v _ j Hj) as (v' & E & Hj' & Hf).
  destruct (frame_jobs_rest _ _ Hf) as (H1 & H2 & H3). exists v'. split; [done|].
  split; cbn; [by apply (reactions_rep_frame v)|done|congruence..].
Qed.

Lemma context_rep v s c sc : rep v s -> rep (with_context c sc v) (set_context c sc s).
Proof.
  intros [(rl & pool & [? ? ? ?]) Hj Hc Hsc Hu]. split; cbn; try done; [by exists rl, pool|by apply (jobs_rep_same v)].
Qed.

(** * Runs *)

Lemma init_rep : rep new_vm new_machine.
Proof.
  split; try done.
  - exists (fun _ => []), []. split; try done. apply (proj2 (node_lists_nil _ _ _)), (proj2 (node_lists_nil _ _ _)). apply node_lists_empty.
  - exists []. split; try done; [|constructor]. apply (proj2 (node_lists_nil _ _ _)). apply node_lists_empty.
Qed.

Hypothesis alloc_fresh : forall m, m !! aligned_alloc m = None.
Hypothesis alloc_aligned : forall m, aligned_alloc m mod SLAB_BLOCK_SIZE = 0.

Lemma promise_step_rep v s op :
  rep v s -> op_enabled s op -> exists v', promise_step v op = Ret v' /\ rep v' (spec_op s op).
Proof using alloc_aligned alloc_fresh.
  intros Hr He. destruct op; cbn [promise_step spec_op op_enabled] in *.
  - eexists. split; [done|]. by apply new_step.
  - destruct He. by apply register_step.
  - by apply fulfill_step.
  - by apply reject_step.
  - by apply finalize_step.
  - by apply (add_job_step aligned_alloc alloc_fresh alloc_aligned v s _ _ _ _ None).
  - by apply (add_job_step aligned_alloc alloc_fresh alloc_aligned v s _ _ _ _ None).
  - by apply (add_job_step aligned_alloc alloc_fresh alloc_aligned v s _ _ _ _ None).
  - eexists. split; [done|]. rewrite (rep_scope _ _ Hr). by apply context_rep.
  - by apply begin_step.
  - by apply end_step.
  - eexists. split; [done|]. unfold drain_stop, mal_async_context_scope_exit. rewrite (rep_scope _ _ Hr).
    destruct (sv_scope s) eqn:Es; [by apply context_rep|]. cbn [default].
    replace (set_context _ _ _) with s; [done|]. destruct s; cbn in *. by subst.
Qed.

Lemma promise_run_rep ops : forall v s,
  rep v s -> ops_enabled s ops -> exists v', promise_run v ops = Ret v' /\ rep v' (spec_run s ops).
Proof using alloc_aligned alloc_fresh.
  induction ops as [|op ops IH]; intros v s Hr He; [by exists v|]. destruct He as [He Hes].
  destruct (promise_step_rep v s op Hr He) as (v1 & E1 & Hr1). cbn [promise_run]. rewrite E1. by apply IH.
Qed.

(** * Settlement and registration commute *)

(** With the same context, a reaction registered before a fulfilment and one
    registered after it leave the machine in the same state. *)
Lemma spec_commute s p r value :
  (exists sp, sv_promises s !! p = Some sp /\ sp_state sp = MAL_PROMISE_PENDING) ->
  spec_settle p MAL_PROMISE_FULFILLED value (spec_register p r s)
  = spec_register p r (spec_settle p MAL_PROMISE_FULFILLED value s).
Proof.
  intros (sp & Hsp & Est). unfold spec_settle at 2. rewrite Hsp. rewrite bool_decide_true by done.
  unfold spec_register. rewrite Hsp, Est. cbn [sv_promises sv_context add_unhandled add_jobs set_sp].
  rewrite lookup_insert_eq. cbn [sp_state settle rejects]. unfold spec_settle. cbn [sv_promises set_sp]. rewrite lookup_insert_eq.
  cbn [sp_state add_reaction]. rewrite bool_decide_true by done.
  unfold add_unhandled, add_jobs, set_sp, settle. cbn.
  rewrite !insert_insert_eq, fmap_app, !app_nil_r. by rewrite <- app_assoc.
Qed.

(** * Settled promises *)

Definition settled (p : Z) (st : MalPromiseState) (value : Z) (s : SVm) : Prop :=
  exists sp, sv_promises s !! p = Some sp /\ sp_state sp = st /\ sp_result sp = value.

Lemma settled_step s op p st value :
  st <> MAL_PROMISE_PENDING -> settled p st value s -> op_enabled s op -> op <> OFinalize p -> settled p st value (spec_op s op).
Proof.
  intros Hst (sp & Hsp & Es & Er) He Hop.
  assert (forall q st' w, settled p st value (spec_settle q st' w s)) as Hset.
  { intros q st' w. unfold spec_settle, settled. destruct (sv_promises s !! q) as [sq|] eqn:Hq; [|by exists sp].
    case_bool_decide as Hb; [|by exists sp]. exists sp. cbn. rewrite lookup_insert_ne; [done|]. intros ->. congruence. }
  destruct op; cbn [spec_op op_enabled] in *; try (by exists sp); try apply Hset.
  - exists sp. cbn. rewrite lookup_insert_ne; [done|]. congruence.
  - unfold spec_register, settled. destruct (sv_promises s !! p0) as [sq|] eqn:Hq; [|by exists sp]. cbn [sp_state].
    destruct (decide (p0 = p)) as [->|Hne].
    + rewrite Hsp in Hq. injection Hq as <-. rewrite Es.
      destruct st; [done|..]; cbn; rewrite lookup_insert_eq; by eexists.
    + destruct (sp_state sq); cbn; rewrite lookup_insert_ne by done; by exists sp.
  - exists sp. cbn. rewrite lookup_delete_ne; [done|]. congruence.
  - destruct (sv_jobs s); by exists sp.
Qed.

Lemma settled_run ops p st value : st <> MAL_PROMISE_PENDING -> forall s,
  settled p st value s -> ops_enabled s ops -> OFinalize p ∉ ops -> settled p st value (spec_run s ops).
Proof.
  intros Hst. induction ops as [|op ops IH]; intros s Hs He Hn; [done|]. destruct He as [He Hes].
  apply not_elem_of_cons in Hn as [Hn Hns]. apply IH; [|done|done]. apply settled_step; try done.
Qed.

Lemma rep_settled v s p o :
  rep v s -> promises v !! p = Some o -> settled p (p_state o) (result o) s.
Proof.
  intros [(rl & pool & [_ _ _ Hp]) _ _ _ _] Ho. specialize (Hp p). unfold promise_rel in Hp. rewrite Ho in Hp.
  unfold settled. destruct (sv_promises s !! p) as [sp|]; [|done]. destruct Hp. by exists sp.
Qed.
Lemma settled_rep v s p st value :
  rep v s -> settled p st value s -> exists o, promises v !! p = Some o /\ p_state o = st /\ result o = value.
Proof.
  intros [Hr _ _ _ _] (sp & Hsp & Es & Er). destruct (promise_object v _ p sp Hr Hsp) as (o & Ho & E1 & _ & E2).
  exists o. split_and!; congruence.
Qed.
End Run.

(** The empty job blocks that are kept hold 3504 jobs of 56 bytes. *)
Lemma retained_job_capacity : MAL_PROMISE_JOB_RETAINED_BLOCK_LIMIT * per_block (N := MalJob) = 3504.
Proof. reflexivity. Qed.

(** * An allocator *)

(** Blocks one after the other, above every block in use: the hypotheses on
    aligned_alloc can hold. *)
Definition bump_alloc (m : gmap Z SlabBlock) : Z :=
  SLAB_BLOCK_SIZE * (1 + map_fold (fun b _ n => Z.max b n) 0 m).

Lemma bump_above (m : gmap Z SlabBlock) b : is_Some (m !! b) -> b <= map_fold (fun b _ n => Z.max b n) 0 m.
Proof.
  revert b. induction m as [|k x m Hk Hf IH] using map_first_key_ind; intros b Hb; [by destruct Hb|].
  rewrite map_fold_insert_first_key by done. destruct (decide (b = k)) as [->|Hne]; [lia|].
  rewrite lookup_insert_ne in Hb by done. specialize (IH b Hb). lia.
Qed.
Lemma bump_positive (m : gmap Z SlabBlock) : 0 <= map_fold (fun b _ n => Z.max b n) 0 m.
Proof.
  induction m as [|k x m Hk Hf IH] using map_first_key_ind; [done|].
  rewrite map_fold_insert_first_key by done. lia.
Qed.
Lemma bump_fresh m : m !! bump_alloc m = None.
Proof.
  destruct (m !! bump_alloc m) as [x|] eqn:E; [|done]. exfalso.
  pose proof (bump_above m (bump_alloc m) ltac:(by eexists)) as Hle. pose proof (bump_positive m).
  unfold bump_alloc, SLAB_BLOCK_SIZE in *. lia.
Qed.
Lemma bump_aligned m : bump_alloc m mod SLAB_BLOCK_SIZE = 0.
Proof. unfold bump_alloc. rewrite Z.mul_comm. apply Z_mod_mult. Qed.


(** * Properties *)

(** C6. The promise runtime refines the promise machine of ECMAScript: from a new
    isolate, every sequence of operations on promises that exist runs without
    dereferencing a released node or running out of a list, and leaves promises,
    pending reactions in registration order, queued and running jobs, async context and
    unhandled rejections as the machine says. Block allocation only has to return fresh aligned blocks. *)
Theorem promise_run_refines h aligned_alloc promise_constructor ops :
  (forall m, m !! aligned_alloc m = None) -> (forall m, aligned_alloc m mod SLAB_BLOCK_SIZE = 0) ->
  ops_enabled h promise_constructor new_machine ops ->
  exists v, promise_run h aligned_alloc promise_constructor new_vm ops = Ret v /\
    rep v (spec_run h promise_constructor new_machine ops).
Proof. intros Hf Ha He. apply promise_run_rep; try done. apply init_rep. Qed.

(** Registering a reaction and fulfilling its promise commute: in either order
    both calls return, and the two isolates stand for one and the same machine
    state, so the handler's job is queued at the same place with the same context. *)
Theorem register_fulfill_commute h aligned_alloc promise_constructor v s p g value :
  (forall m, m !! aligned_alloc m = None) -> (forall m, aligned_alloc m mod SLAB_BLOCK_SIZE = 0) ->
  rep v s -> (exists o, promises v !! p = Some o /\ p_state o = MAL_PROMISE_PENDING) ->
  reaction_ok (reaction_of h promise_constructor g) ->
  exists v1 v2 s',
    promise_run h aligned_alloc promise_constructor v [ORegister p g; OFulfill p value] = Ret v1 /\
    promise_run h aligned_alloc promise_constructor v [OFulfill p value; ORegister p g] = Ret v2 /\
    rep v1 s' /\ rep v2 s'.
Proof.
  intros Hf Ha Hr (o & Ho & Es) Hg. destruct (rep_settled v s p o Hr Ho) as (sp & Hsp & Es' & _). rewrite Es in Es'.
  destruct (promise_run_rep h aligned_alloc promise_constructor Hf Ha [ORegister p g; OFulfill p value] v s Hr) as (v1 & E1 & H1).
  { cbn. split_and!; try done. unfold spec_register. rewrite Hsp. cbn [sp_state]. rewrite Es'. cbn. by rewrite lookup_insert_eq. }
  destruct (promise_run_rep h aligned_alloc promise_constructor Hf Ha [OFulfill p value; ORegister p g] v s Hr) as (v2 & E2 & H2).
  { cbn. split_and!; try done. unfold spec_settle. rewrite Hsp, bool_decide_true by done. cbn. by rewrite lookup_insert_eq. }
  exists v1, v2, (spec_register p (reaction_of h promise_constructor g) (spec_settle p MAL_PROMISE_FULFILLED value s)).
  split_and!; try done. cbn [spec_run spec_op] in H1. rewrite spec_commute in H1; [done|by exists sp].
Qed.

(** C7. A promise settles once: whatever runs afterwards, until the collector
    finalizes it, its state and its result stay as the first settlement left them. *)
Theorem settled_forever h aligned_alloc promise_constructor v s p o ops :
  (forall m, m !! aligned_alloc m = None) -> (forall m, aligned_alloc m mod SLAB_BLOCK_SIZE = 0) ->
  rep v s -> promises v !! p = Some o -> p_state o <> MAL_PROMISE_PENDING ->
  ops_enabled h promise_constructor s ops -> OFinalize p ∉ ops ->
  exists v' o', promise_run h aligned_alloc promise_constructor v ops = Ret v' /\
    promises v' !! p = Some o' /\ p_state o' = p_state o /\ result o' = result o.
Proof.
  intros Hf Ha Hr Ho Hst He Hn.
  destruct (promise_run_rep h aligned_alloc promise_constructor Hf Ha ops v s Hr He) as (v' & E & Hr').
  destruct (settled_rep v' _ p (p_state o) (result o) Hr') as (o' & Ho' & E1 & E2).
  { apply settled_run; try done. by apply (rep_settled v). }
  by exists v', o'.
Qed.

(** * Examples *)

Module PromiseDemo.
Definition cells : HeapCells := {|
  cell_type _ := MAL_HEAP_OBJECT;
  cell_string_length _ := 0;
  cell_bigint_value _ := 0;
  cell_wrapper_kind _ := MAL_PRIMITIVE_WRAPPER_NUMBER;
  cell_wrapper_data _ := 0;
  cell_proxy_callable _ := false;
|}.
Definition then_ : registration := GThen MAL_VALUE_UNDEFINED MAL_VALUE_UNDEFINED MAL_VALUE_UNDEFINED MAL_VALUE_UNDEFINED.

(** Two reactions on one promise and one on another, a rejection nobody handles,
    a job that runs, a promise that dies with its reactions. *)
Definition program : list promise_op :=
  [ONew 16; ONew 32; ORegister 16 then_; OContext 5; ORegister 16 (GAwait 7); ORegister 32 (GAll 9 3000000000);
   OFulfill 16 MAL_VALUE_TRUE; OFulfill 16 MAL_VALUE_FALSE; OBegin; ONew 48; OReject 48 MAL_VALUE_NULL;
   OHostJob 1 2 false 3; OEnd; OFinalize 32; OBegin; ORegister 16 (GDispose 1 2 3); OEnd; OStop].

Ltac op_enabled_at :=
  cbn [op_enabled];
  first [exact I | reflexivity | (eexists; reflexivity)
        | split; [eexists; reflexivity | first [exact I | reflexivity | split; [discriminate|reflexivity]]]].
Ltac run_enabled := repeat (split; [op_enabled_at|]); exact I.

Lemma promise_run_refines_witness :
  exists v, promise_run cells bump_alloc 0 new_vm program = Ret v /\ rep v (spec_run cells 0 new_machine program).
Proof.
  apply (promise_run_refines cells bump_alloc 0 program bump_fresh bump_aligned). run_enabled.
Defined.

(** A pending promise with one reaction. *)
Definition started : list promise_op := [ONew 16; ORegister 16 then_].

Lemma register_fulfill_commute_witness :
  exists v, promise_run cells bump_alloc 0 new_vm started = Ret v /\ exists v1 v2 s',
    promise_run cells bump_alloc 0 v [ORegister 16 (GAwait 7); OFulfill 16 MAL_VALUE_TRUE] = Ret v1 /\
    promise_run cells bump_alloc 0 v [OFulfill 16 MAL_VALUE_TRUE; ORegister 16 (GAwait 7)] = Ret v2 /\
    rep v1 s' /\ rep v2 s'.
Proof.
  destruct (promise_run_rep cells bump_alloc 0 bump_fresh bump_aligned started new_vm new_machine init_rep) as (v & E & Hr);
    [run_enabled|].
  exists v. split; [exact E|].
  apply (register_fulfill_commute cells bump_alloc 0 v (spec_run cells 0 new_machine started) 16 (GAwait 7) MAL_VALUE_TRUE
    bump_fresh bump_aligned Hr); [|exact I].
  apply (settled_rep v _ 16 MAL_PROMISE_PENDING MAL_VALUE_UNDEFINED) in Hr as (o & Ho & Es & _); [by exists o|].
  eexists; split_and!; reflexivity.
Defined.

Lemma settled_forever_witness :
  exists v, promise_run cells bump_alloc 0 new_vm (started ++ [OFulfill 16 MAL_VALUE_TRUE]) = Ret v /\
  exists v' o', promise_run cells bump_alloc 0 v [OReject 16 MAL_VALUE_NULL; OBegin; ORegister 16 then_; OEnd] = Ret v' /\
    promises v' !! 16 = Some o' /\ p_state o' = MAL_PROMISE_FULFILLED /\ result o' = MAL_VALUE_TRUE.
Proof.
  set (ops := started ++ _). destruct (promise_run_rep cells bump_alloc 0 bump_fresh bump_aligned ops new_vm new_machine init_rep)
    as (v & E & Hr); [run_enabled|]. exists v. split; [exact E|].
  pose proof (settled_rep v _ 16 MAL_PROMISE_FULFILLED MAL_VALUE_TRUE Hr) as (o & Ho & Es & Er); [eexists; split_and!; reflexivity|].
  rewrite <- Es, <- Er.
  apply (settled_forever cells bump_alloc 0 v (spec_run cells 0 new_machine ops) 16 o _ bump_fresh bump_aligned Hr Ho).
  - by rewrite Es.
  - run_enabled.
  - by vm_compute; intros H; repeat (apply elem_of_cons in H as [H|H]; [discriminate|]); apply elem_of_nil in H.
Defined.
End PromiseDemo.
