(* ===== verification/StringHeap.v ===== *)
(** The string cells as shared memory: writing the header of one cell is seen
    through every cell that refers to it. Two writes matter to the intern stores:
    the cached hash and the property-atom bit. *)

From S2P Require Import Prelude CheckedSize HeapString HeapStringSpec Key.

Definition StringHeap : Type := Z -> MalString.

(** * Writing a header *)

Fixpoint put_info (p : Z) (i : MalStringInfo) (s : MalString) : MalString :=
  match s with
  | SFlat j st u => SFlat (if str_addr j =? p then i else j) st u
  | SDependent j q o => SDependent (if str_addr j =? p then i else j) (put_info p i q) o
  | SCons j l r => SCons (if str_addr j =? p then i else j) (put_info p i l) (put_info p i r)
  end.
Definition write_info (p : Z) (i : MalStringInfo) (heap : StringHeap) : StringHeap :=
  fun q => put_info p i (heap q).

(** [mal_string_hash] fills the cache of the cell it hashes. *)
Definition heap_hash (heap : StringHeap) (p : Z) : Z * StringHeap :=
  let '(hash, s) := mal_string_hash (heap p) in (hash, write_info p (str_info s) heap).

(** [string->property_atom = true]. *)
Definition mark_property_atom (p : Z) (heap : StringHeap) : StringHeap :=
  let i := str_info (heap p) in
  write_info p (mkStringInfo (str_addr i) (str_length i) (str_hash i) (str_hash_valid i) true (str_latin1 i)) heap.

Definition is_atom (heap : StringHeap) (p : Z) : Prop := str_property_atom (str_info (heap p)) = true.
Definition text (heap : StringHeap) (p : Z) : list Z := units (heap p).

(** * What a header write keeps *)

Lemma put_info_info p i s : str_info (put_info p i s) = if addr s =? p then i else str_info s.
Proof. by destruct s. Qed.
Lemma put_info_payload p i s : flat_payload (put_info p i s) = flat_payload s.
Proof. by destruct s. Qed.

Section write.
Context (heap : StringHeap) (p : Z) (i : MalStringInfo).
Hypothesis Hheap : string_heap_ok heap.
Hypothesis Haddr : str_addr i = p.
Hypothesis Hlen : str_length i = str_length (str_info (heap p)).
Hypothesis Hlat : str_latin1 i = str_latin1 (str_info (heap p)).
Hypothesis Hinfo : info_ok i (text heap p).

Lemma put_info_addr s : addr (put_info p i s) = addr s.
Proof using Haddr.
  unfold addr. rewrite put_info_info. unfold addr. destruct (Z.eqb_spec (str_addr (str_info s)) p); congruence.
Qed.

(** A header that changes is the header of the cell at [p]. *)
Lemma coherent_info s : coherent heap s -> addr s = p -> s = heap p.
Proof using Type. intros Hs E. rewrite <- E. destruct s; exact (proj1 Hs). Qed.

Lemma put_length s : coherent heap s -> mal_string_length (put_info p i s) = mal_string_length s.
Proof using Hlen.
  intros Hs. unfold mal_string_length. rewrite put_info_info.
  destruct (Z.eqb_spec (addr s) p) as [E|]; [|done]. by rewrite (coherent_info s Hs E).
Qed.

Lemma put_units s : coherent heap s -> units (put_info p i s) = units s.
Proof using Hlen.
  induction s as [j st u|j q IH o|j l IHl r IHr]; intros Hs; pose proof (put_length _ Hs) as E;
    unfold mal_string_length in E; cbn [put_info str_info units] in *.
  - by rewrite E.
  - by rewrite put_info_payload, E.
  - destruct Hs as (_ & Hl & Hr). by rewrite IHl, IHr.
Qed.

Lemma put_info_ok s : coherent heap s -> wf_string s -> info_ok (str_info (put_info p i s)) (units s).
Proof using Hinfo.
  intros Hs Hw. rewrite put_info_info. destruct (Z.eqb_spec (addr s) p) as [E|]; [|by apply wf_info].
  by rewrite (coherent_info s Hs E).
Qed.

Lemma put_lane j st u :
  coherent heap (SFlat j st u) -> lane_ok j st u -> lane_ok (if str_addr j =? p then i else j) st u.
Proof using Hlen Hlat.
  intros Hs Hl. destruct (Z.eqb_spec (str_addr j) p) as [E|]; [|done].
  pose proof (coherent_info _ Hs E) as Eh. unfold lane_ok. rewrite Hlen, Hlat, <- Eh. exact Hl.
Qed.

Lemma put_wf s : coherent heap s -> wf_string s -> wf_string (put_info p i s).
Proof using Hlen Hlat Hinfo.
  induction s as [j st u|j q IH o|j l IHl r IHr]; intros Hs Hw; pose proof (put_info_ok _ Hs Hw) as Hi;
    pose proof (put_units _ Hs) as Hu; pose proof (put_length _ Hs) as El; unfold mal_string_length in El;
    cbn [put_info str_info wf_string] in *; (split; [by rewrite Hu|]); destruct Hw as [Hj Hw].
  - by apply put_lane.
  - destruct q as [pj pst pu| |]; [|done|done]. destruct Hw as (Hla & Hpi & Ho & Hb). destruct Hs as [_ Hq].
    pose proof (put_length _ Hq) as Elq. unfold mal_string_length in Elq. pose proof (put_units _ Hq) as Huq.
    cbn [put_info str_info] in *. split_and!; [by apply put_lane| |done|lia].
    rewrite Huq. destruct (Z.eqb_spec (str_addr pj) p) as [E|]; [|done]. by rewrite (coherent_info _ Hq E).
  - destruct Hs as (_ & Hl & Hr), Hw as (Hwl & Hwr & Elr). split_and!; [by apply IHl|by apply IHr|].
    rewrite El, !put_length by done. exact Elr.
Qed.

Lemma put_coherent s : coherent heap s -> coherent (write_info p i heap) (put_info p i s).
Proof using Haddr.
  intros Hs. assert (forall t, t = heap (addr t) -> put_info p i t = write_info p i heap (addr (put_info p i t))) as Hc.
  { intros t Ht. rewrite put_info_addr. unfold write_info. by rewrite <- Ht. }
  induction s as [j st u|j q IH o|j l IHl r IHr]; cbn [coherent] in Hs; destruct Hs as [Ht Hs];
    apply Hc in Ht; (split; [exact Ht|]); cbn [put_info].
  - done.
  - by apply IH.
  - destruct Hs. split; [by apply IHl|by apply IHr].
Qed.

Lemma write_text q : text (write_info p i heap) q = text heap q.
Proof using Hlen Hheap. apply put_units. apply (sh_coherent _ Hheap). Qed.

Lemma write_header q : str_info (write_info p i heap q) = if q =? p then i else str_info (heap q).
Proof using Hheap. unfold write_info. rewrite put_info_info. by rewrite (sh_addr _ Hheap). Qed.

Lemma write_heap_ok :
  (forall q r, str_property_atom (if q =? p then i else str_info (heap q)) = true ->
    str_property_atom (if r =? p then i else str_info (heap r)) = true -> text heap q = text heap r -> q = r) ->
  string_heap_ok (write_info p i heap).
Proof using Haddr Hlen Hlat Hinfo Hheap.
  intros Hat. split.
  - intros q. apply put_wf; [apply (sh_coherent _ Hheap)|apply (sh_wf _ Hheap)].
  - intros q. unfold write_info. rewrite put_info_addr. apply (sh_addr _ Hheap).
  - intros q. apply put_coherent, (sh_coherent _ Hheap).
  - intros q r. rewrite !write_header. intros Hq Hr E. apply Hat; try done.
    by rewrite <- !write_text.
Qed.
End write.

Lemma set_info_info i s : str_info (set_info i s) = i.
Proof. by destruct s. Qed.

(** * The two writes *)

(** Only caches differ: the same texts and the same atoms. *)
Definition same_strings (heap heap' : StringHeap) : Prop :=
  string_heap_ok heap' /\ (forall p, text heap' p = text heap p) /\ (forall p, is_atom heap' p <-> is_atom heap p).

Lemma same_strings_refl heap : string_heap_ok heap -> same_strings heap heap.
Proof. by split. Qed.
Lemma same_strings_trans h1 h2 h3 : same_strings h1 h2 -> same_strings h2 h3 -> same_strings h1 h3.
Proof.
  intros (_ & T1 & A1) (H3 & T2 & A2). split; [done|]. split; intros p; [by rewrite T2|by rewrite A2].
Qed.

Lemma heap_hash_ok heap p :
  string_heap_ok heap ->
  exists heap', heap_hash heap p = (mal_string_hash_code_units (text heap p), heap') /\ same_strings heap heap'.
Proof.
  intros Hh. pose proof (sh_wf _ Hh p) as Hw. pose proof (string_hash_value _ Hw) as Hv.
  unfold heap_hash. destruct (mal_string_hash (heap p)) as [hash s] eqn:E. cbn [fst] in Hv. subst hash.
  eexists. split; [done|]. pose proof (wf_info _ Hw) as Hi. pose proof (sh_addr _ Hh p) as Ha.
  assert (str_addr (str_info s) = p /\ str_length (str_info s) = str_length (str_info (heap p)) /\
    str_latin1 (str_info s) = str_latin1 (str_info (heap p)) /\
    str_property_atom (str_info s) = str_property_atom (str_info (heap p)) /\ info_ok (str_info s) (text heap p)) as (H1 & H2 & H3 & H4 & H5).
  { unfold mal_string_hash in E. destruct (str_hash_valid (str_info (heap p))) eqn:Ev; [by simplify_eq|].
    destruct (hash_slow_cache _ Hw) as (Hw' & Hu' & Ha' & _). rewrite E in Hw', Hu', Ha'. cbn [snd] in *.
    apply wf_info in Hw'. rewrite Hu' in Hw'. unfold mal_string_hash_slow in E. rewrite Ev in E.
    injection E as _ <-. rewrite set_info_info in *. by split_and!. }
  assert (forall q, str_property_atom (if q =? p then str_info s else str_info (heap q)) = str_property_atom (str_info (heap q))) as Hat.
  { intros q. destruct (Z.eqb_spec q p) as [->|]; done. }
  split; [|split].
  - apply write_heap_ok; try done. intros q r. rewrite !Hat. apply (sh_atoms _ Hh).
  - intros q. by apply write_text.
  - intros q. unfold is_atom. rewrite write_header by done. by rewrite Hat.
Qed.

Lemma mark_atom_ok heap p :
  string_heap_ok heap -> (forall q, is_atom heap q -> text heap q = text heap p -> q = p) ->
  string_heap_ok (mark_property_atom p heap) /\ (forall q, text (mark_property_atom p heap) q = text heap q) /\
  (forall q, is_atom (mark_property_atom p heap) q <-> q = p \/ is_atom heap q).
Proof.
  intros Hh Hnew. unfold mark_property_atom. set (i := mkStringInfo _ _ _ _ _ _).
  pose proof (wf_info _ (sh_wf _ Hh p)) as Hi. pose proof (sh_addr _ Hh p) as Ha.
  split; [|split].
  - apply write_heap_ok; try done. intros q r. destruct (Z.eqb_spec q p) as [->|], (Z.eqb_spec r p) as [->|]; try done.
    + intros _ Hr E. symmetry. by apply Hnew.
    + intros Hq _ E. by apply Hnew.
    + apply (sh_atoms _ Hh).
  - intros q. by apply write_text.
  - intros q. unfold is_atom. rewrite write_header by done. destruct (Z.eqb_spec q p) as [->|]; [naive_solver|].
    split; [by right|by intros [|]].
Qed.
