(* ===== verification/Intern.v ===== *)
(** The intern stores of runtime/src/intern_store.c: property atoms, the
    Symbol.for registry and the cache of native function sources. Each is an open
    addressing table over the control bytes of hash_index.h, keyed by the text of a
    string; entries are never removed. The three copies of the code differ in the
    bucket type, which is the [EntryKind] argument here.

    The heap is the string cells and the symbols; hashing fills the hash cache of a
    cell and interning marks it, so every operation threads the heap. Counters and
    the byte accounting of the allocator are not modelled. *)

From S2P Require Import Prelude CheckedSize HeapString HeapStringSpec Key StringHeap HashIndex.

Record MalSymbol : Type := mkSymbol { description : Z; registered : bool }.

Record InternHeap : Type := mkInternHeap {
  strings : StringHeap;
  symbols : Z -> MalSymbol;
}.
Definition set_strings (s : StringHeap) (h : InternHeap) : InternHeap := mkInternHeap s (symbols h).
Definition set_registered (p : Z) (h : InternHeap) : InternHeap :=
  mkInternHeap (strings h)
    (fun q => if q =? p then mkSymbol (description (symbols h p)) true else symbols h q).

(** A bucket type: the string that names an entry, its width in bytes, and the
    content of a bucket that was never written. *)
Record EntryKind (E : Type) : Type := mkKind {
  entry_name : InternHeap -> E -> Z;
  entry_width : Z;
  entry_null : E;
}.
Arguments mkKind {_} _ _ _. Arguments entry_name {_} _ _ _. Arguments entry_width {_} _. Arguments entry_null {_} _.

Record Buckets (E : Type) : Type := mkBuckets {
  st_buckets : list E;
  st_controls : list Z;
  st_size : Z;
  st_capacity : Z;
}.
Arguments mkBuckets {_} _ _ _ _. Arguments st_buckets {_} _. Arguments st_controls {_} _.
Arguments st_size {_} _. Arguments st_capacity {_} _.
Definition empty_buckets {E} : Buckets E := mkBuckets [] [] 0 0.

Definition mal_intern_grown_capacity (capacity : Z) : outcome Z :=
  if capacity =? 0 then Ret MAL_HASH_GROUP_WIDTH
  else if UINT32_MAX / 2 <? capacity then Abort
  else Ret (u32 (capacity * 2)).

Definition mal_intern_hash (h : InternHeap) (p : Z) : Z * InternHeap :=
  let '(hash, s) := heap_hash (strings h) p in (mal_key_hash_mix hash, set_strings s h).

Section Store.
(** 2 on NEON, 0 elsewhere. *)
Variable MASK_SHIFT : Z.
Context {E : Type} (K : EntryKind E).

Definition mal_intern_allocate (capacity : Z) : outcome (list E * list Z) :=
  if SIZE_MAX / (entry_width K + 1) <? capacity then Abort
  else Ret (replicate (Z.to_nat capacity) (entry_null K), replicate (Z.to_nat capacity) MAL_HASH_EMPTY).

#[local] Instance entry_inhabited : Inhabited E := populate (entry_null K).
Definition bucket (st : Buckets E) (slot : Z) : E := arr_get (st_buckets st) slot.

(** [candidate == probe || mal_string_equals(candidate, probe)]. *)
Definition same_name (h : InternHeap) (candidate probe : Z) : outcome bool :=
  if candidate =? probe then Ret true else mal_string_equals (strings h candidate) (strings h probe).

(** [while (matches != 0)]: at most one iteration per lane of the group. *)
Fixpoint slot_candidates (fuel : nat) (h : InternHeap) (st : Buckets E) (probe group matches : Z) : outcome (option Z) :=
  match fuel with
  | O => Ret None
  | S fuel =>
      if matches =? 0 then Ret None
      else
        let slot := group + mal_hash_mask_first MASK_SHIFT matches in
        same ← same_name h (entry_name K h (bucket st slot)) probe;
        if (same : bool) then Ret (Some slot)
        else slot_candidates fuel h st probe group (Z.land matches (matches - 1))
  end.

Fixpoint slot_loop (fuel : nat) (h : InternHeap) (st : Buckets E) (probe hash : Z) (state : MalHashProbe) : outcome Z :=
  match fuel with
  | O => NoFuel
  | S fuel =>
      let group := probe_group state in
      found ← slot_candidates 16 h st probe group
                (mal_hash_group_match MASK_SHIFT (st_controls st) group (mal_hash_tag hash));
      match found with
      | Some slot => Ret slot
      | None =>
          let empty := mal_hash_group_match MASK_SHIFT (st_controls st) group MAL_HASH_EMPTY in
          if negb (empty =? 0) then Ret (group + mal_hash_mask_first MASK_SHIFT empty)
          else
            state ← mal_hash_probe_next state;
            slot_loop fuel h st probe hash state
      end
  end.
Definition store_slot (st : Buckets E) (h : InternHeap) (probe hash : Z) : outcome Z :=
  slot_loop (probe_fuel (st_capacity st)) h st probe hash (mal_hash_probe hash (st_capacity st)).

(** [for (u32 i = 0; i < store->capacity; i++)] over the old buckets. *)
Fixpoint rehash_loop (slots : list Z) (st grown : Buckets E) (h : InternHeap) : outcome (Buckets E * InternHeap) :=
  match slots with
  | [] => Ret (grown, h)
  | i :: slots =>
      if arr_get (st_controls st) i =? MAL_HASH_EMPTY then rehash_loop slots st grown h
      else
        let entry := bucket st i in
        let '(hash, h) := mal_intern_hash h (entry_name K h entry) in
        slot ← mal_hash_controls_empty_slot MASK_SHIFT (st_controls grown) (st_capacity grown) hash;
        rehash_loop slots st
          (mkBuckets (arr_set (st_buckets grown) slot entry) (arr_set (st_controls grown) slot (mal_hash_tag hash))
             (st_size grown) (st_capacity grown)) h
  end.
Definition store_grow (st : Buckets E) (h : InternHeap) : outcome (Buckets E * InternHeap) :=
  capacity ← mal_intern_grown_capacity (st_capacity st);
  '(buckets, controls) ← mal_intern_allocate capacity;
  rehash_loop (seqZ 0 (st_capacity st)) st (mkBuckets buckets controls (st_size st) capacity) h.

Definition store_find (st : Buckets E) (h : InternHeap) (probe : Z) : outcome (option E * InternHeap) :=
  if negb (st_size st =? 0) then
    let '(hash, h) := mal_intern_hash h probe in
    slot ← store_slot st h probe hash;
    if negb (arr_get (st_controls st) slot =? MAL_HASH_EMPTY) then Ret (Some (bucket st slot), h)
    else Ret (None, h)
  else Ret (None, h).

(** The common part of the insertions: the entry that is already there, or the
    free slot in a store with room, with the hash. *)
Definition insert_slot (st : Buckets E) (h : InternHeap) (name : Z)
  : outcome ((E + Z * Z * Buckets E) * InternHeap) :=
  let '(hash, h) := mal_intern_hash h name in
  slot ← (if negb (st_size st =? 0) then store_slot st h name hash else Ret 0);
  if negb (st_size st =? 0) && negb (arr_get (st_controls st) slot =? MAL_HASH_EMPTY)
  then Ret (inl (bucket st slot), h)
  else if negb (mal_hash_index_fits (st_size st + 1) (st_capacity st)) then
    '(st, h) ← store_grow st h;
    slot ← mal_hash_controls_empty_slot MASK_SHIFT (st_controls st) (st_capacity st) hash;
    Ret (inr (slot, hash, st), h)
  else Ret (inr (slot, hash, st), h).
Definition insert_at (slot hash : Z) (e : E) (st : Buckets E) : Buckets E :=
  mkBuckets (arr_set (st_buckets st) slot e) (arr_set (st_controls st) slot (mal_hash_tag hash))
    (u32 (st_size st + 1)) (st_capacity st).

(** [while ( *cursor < store->capacity)]. *)
Fixpoint next_loop (fuel : nat) (st : Buckets E) (cursor : Z) : outcome (option E * Z) :=
  match fuel with
  | O => NoFuel
  | S fuel =>
      if cursor <? st_capacity st then
        if negb (arr_get (st_controls st) cursor =? MAL_HASH_EMPTY) then Ret (Some (bucket st cursor), u32 (cursor + 1))
        else next_loop fuel st (u32 (cursor + 1))
      else Ret (None, cursor)
  end.
Definition store_next (st : Buckets E) (cursor : Z) : outcome (option E * Z) :=
  if st_capacity st =? 0 then Ret (None, cursor)
  else next_loop (S (Z.to_nat (st_capacity st))) st cursor.
End Store.

(** * Property atoms *)

Definition atom_kind : EntryKind Z := mkKind (fun _ p => p) 8 0.

(** [recent] is the first [recent_count] elements of the array. *)
Record MalAtomStore : Type := mkAtomStore {
  atom_buckets : Buckets Z;
  recent : list Z;
  recent_capacity : Z;
}.
Definition empty_atoms : MalAtomStore := mkAtomStore empty_buckets [] 0.

Section Atoms.
Variable MASK_SHIFT : Z.

Definition mal_atom_store_slot (a : MalAtomStore) := store_slot MASK_SHIFT atom_kind (atom_buckets a).
Definition mal_atom_store_grow (a : MalAtomStore) (h : InternHeap) : outcome (MalAtomStore * InternHeap) :=
  '(st, h) ← store_grow MASK_SHIFT atom_kind (atom_buckets a) h;
  Ret (mkAtomStore st (recent a) (recent_capacity a), h).
Definition mal_atom_store_find (a : MalAtomStore) (h : InternHeap) (probe : Z) : outcome (option Z * InternHeap) :=
  store_find MASK_SHIFT atom_kind (atom_buckets a) h probe.
Definition mal_atom_store_intern (a : MalAtomStore) (h : InternHeap) (candidate : Z)
  : outcome (Z * MalAtomStore * InternHeap) :=
  '(r, h) ← insert_slot MASK_SHIFT atom_kind (atom_buckets a) h candidate;
  match r with
  | inl canonical => Ret (canonical, a, set_strings (mark_property_atom canonical (strings h)) h)
  | inr (slot, hash, st) =>
      capacity ← (if arr_len (recent a) =? recent_capacity a then mal_intern_grown_capacity (recent_capacity a)
                  else Ret (recent_capacity a));
      let h := set_strings (mark_property_atom candidate (strings h)) h in
      Ret (candidate, mkAtomStore (insert_at slot hash candidate st) (recent a ++ [candidate]) capacity, h)
  end.
Definition mal_atom_store_next (a : MalAtomStore) (cursor : Z) : outcome (option Z * Z) :=
  store_next atom_kind (atom_buckets a) cursor.
Definition mal_atom_store_take_recent (a : MalAtomStore) : list Z * MalAtomStore :=
  (recent a, mkAtomStore (atom_buckets a) [] (recent_capacity a)).
Definition mal_atom_store_size (a : MalAtomStore) : Z := st_size (atom_buckets a).
Definition mal_atom_store_capacity (a : MalAtomStore) : Z := st_capacity (atom_buckets a).
Definition mal_atom_store_free (a : MalAtomStore) : MalAtomStore := empty_atoms.
End Atoms.

(** * The symbol registry *)

Definition symbol_kind : EntryKind Z := mkKind (fun h p => description (symbols h p)) 8 0.

Section Symbols.
Variable MASK_SHIFT : Z.

Definition mal_symbol_registry_slot := store_slot MASK_SHIFT symbol_kind.
Definition mal_symbol_registry_grow := store_grow MASK_SHIFT symbol_kind.
Definition mal_symbol_registry_find (st : Buckets Z) (h : InternHeap) (description : Z) : outcome (option Z * InternHeap) :=
  store_find MASK_SHIFT symbol_kind st h description.
Definition mal_symbol_registry_insert (st : Buckets Z) (h : InternHeap) (candidate : Z)
  : outcome (Z * Buckets Z * InternHeap) :=
  '(r, h) ← insert_slot MASK_SHIFT symbol_kind st h (description (symbols h candidate));
  match r with
  | inl canonical => Ret (canonical, st, set_registered canonical h)
  | inr (slot, hash, st) => Ret (candidate, insert_at slot hash candidate st, set_registered candidate h)
  end.
Definition mal_symbol_registry_next (st : Buckets Z) (cursor : Z) : outcome (option Z * Z) :=
  store_next symbol_kind st cursor.
Definition mal_symbol_registry_size (st : Buckets Z) : Z := st_size st.
Definition mal_symbol_registry_capacity (st : Buckets Z) : Z := st_capacity st.
Definition mal_symbol_registry_free (st : Buckets Z) : Buckets Z := empty_buckets.
End Symbols.

(** * Sources of native functions *)

Record MalNativeSourceEntry : Type := mkSource { source_name : Z; source : Z }.
Definition source_kind : EntryKind MalNativeSourceEntry := mkKind (fun _ => source_name) 16 (mkSource 0 0).

Section Sources.
Variable MASK_SHIFT : Z.

Definition mal_native_source_cache_slot := store_slot MASK_SHIFT source_kind.
Definition mal_native_source_cache_grow := store_grow MASK_SHIFT source_kind.
Definition mal_native_source_cache_find (st : Buckets MalNativeSourceEntry) (h : InternHeap) (name : Z)
  : outcome (option Z * InternHeap) :=
  '(r, h) ← store_find MASK_SHIFT source_kind st h name;
  Ret (option_map source r, h).
Definition mal_native_source_cache_insert (st : Buckets MalNativeSourceEntry) (h : InternHeap) (name src : Z)
  : outcome (Z * Buckets MalNativeSourceEntry * InternHeap) :=
  '(r, h) ← insert_slot MASK_SHIFT source_kind st h name;
  match r with
  | inl entry => Ret (source entry, st, h)
  | inr (slot, hash, st) => Ret (src, insert_at slot hash (mkSource name src) st, h)
  end.
Definition mal_native_source_cache_next (st : Buckets MalNativeSourceEntry) (cursor : Z)
  : outcome (option MalNativeSourceEntry * Z) :=
  store_next source_kind st cursor.
Definition mal_native_source_cache_size (st : Buckets MalNativeSourceEntry) : Z := st_size st.
Definition mal_native_source_cache_capacity (st : Buckets MalNativeSourceEntry) : Z := st_capacity st.
Definition mal_native_source_cache_free (st : Buckets MalNativeSourceEntry) : Buckets MalNativeSourceEntry := empty_buckets.
End Sources.
