(* ===== verification/InternSpec.v ===== *)
(** The invariant of an intern store: the live buckets are a finite map from text
    to entry, one bucket per text, and the control bytes are a valid index of
    their hashes. Lookup, insertion and growth are stated on that map. *)

From stdpp Require Import gmap.
From S2P Require Import Prelude CheckedSize HeapString HeapStringSpec Key StringHeap HashIndex Intern.

(** * Control bytes *)

Lemma count_zero P l x : count P l = 0 -> x ∈ l -> P x = false.
Proof.
  induction l as [|y l IH]; cbn [count]; intros Hc Hx; [by apply elem_of_nil in Hx|].
  pose proof (count_nonneg P l). apply elem_of_cons in Hx as [->|Hx].
  - destruct (P y); [cbn in Hc; lia|done].
  - apply IH; [|done]. destruct (P y); cbn in Hc; lia.
Qed.

Lemma arr_get_elem (l : list Z) x : arr_get l x = 1 \/ arr_get l x ∈ l.
Proof.
  unfold arr_get. rewrite list_lookup_total_alt.
  destruct (l !! Z.to_nat x) as [y|] eqn:E; cbn; [right; by eapply list_elem_of_lookup_2|by left].
Qed.

Lemma arr_get_ids n s : 0 <= s < n -> arr_get (seqZ 0 n) s = s.
Proof. intros Hs. apply arr_get_of_lookup. rewrite lookup_seqZ_lt by lia. f_equal. lia. Qed.

(** What a store asks of its entries: the name does not depend on the string
    cells, and a bucket is at most two pointers wide. *)
Class EntryLaws {E : Type} (K : EntryKind E) : Prop := {
  name_ext : forall h h' e, symbols h' = symbols h -> entry_name K h' e = entry_name K h e;
  width_ok : 0 <= entry_width K <= 16;
}.
#[export] Instance atom_laws : EntryLaws atom_kind.
Proof. split; [done|cbn; lia]. Qed.
#[export] Instance source_laws : EntryLaws source_kind.
Proof. split; [done|cbn; lia]. Qed.
#[export] Instance symbol_laws : EntryLaws symbol_kind.
Proof. split; [|cbn; lia]. intros h h' e Es. cbn. by rewrite Es. Qed.

Section Spec.
Variable MASK_SHIFT : Z.
Hypothesis Hshift : 0 <= MASK_SHIFT.
Context {E : Type} (K : EntryKind E).

Definition name_text (h : InternHeap) (e : E) : list Z := text (strings h) (entry_name K h e).
Definition text_hash (t : list Z) : Z := mal_key_hash_mix (mal_string_hash_code_units t).

Definition live_at (st : Buckets E) (s : Z) : bool := live_control (arr_get (st_controls st) s).
Definition slot_hash (h : InternHeap) (st : Buckets E) (s : Z) : option Z :=
  if (0 <=? s) && (s <? st_capacity st) && live_at st s then Some (text_hash (name_text h (bucket K st s))) else None.

Record table_ok (h : InternHeap) (st : Buckets E) (m : gmap (list Z) E) : Prop := {
  to_index : index_ok (st_capacity st) (seqZ 0 (st_capacity st)) (st_controls st) (slot_hash h st) (Z.of_nat (size m)) 0;
  to_buckets : arr_len (st_buckets st) = st_capacity st;
  to_entry : forall s, 0 <= s < st_capacity st -> live_at st s = true ->
    m !! name_text h (bucket K st s) = Some (bucket K st s);
  to_complete : forall t e, m !! t = Some e ->
    name_text h e = t /\ exists s, 0 <= s < st_capacity st /\ live_at st s = true /\ bucket K st s = e;
  to_distinct : forall s s', 0 <= s < st_capacity st -> 0 <= s' < st_capacity st ->
    live_at st s = true -> live_at st s' = true ->
    name_text h (bucket K st s) = name_text h (bucket K st s') -> s = s';
}.

Lemma slot_hash_live h st s :
  0 <= s < st_capacity st -> live_at st s = true -> slot_hash h st s = Some (text_hash (name_text h (bucket K st s))).
Proof.
  intros Hs Hl. unfold slot_hash. rewrite Hl. destruct (Z.leb_spec 0 s); [|lia].
  by destruct (Z.ltb_spec s (st_capacity st)); [|lia].
Qed.
Lemma slot_hash_some h st s x :
  slot_hash h st s = Some x ->
  0 <= s < st_capacity st /\ live_at st s = true /\ x = text_hash (name_text h (bucket K st s)).
Proof.
  unfold slot_hash. destruct (Z.leb_spec 0 s), (Z.ltb_spec s (st_capacity st)), (live_at st s) eqn:E0; cbn; try done.
  by intros [= <-].
Qed.

(** There are no tombstones: a bucket is EMPTY or live. *)
Lemma not_deleted h st m s : table_ok h st m -> arr_get (st_controls st) s <> MAL_HASH_DELETED.
Proof.
  intros [Hi _ _ _ _] Hd. pose proof (io_deleted _ _ _ _ _ _ Hi) as Hc.
  destruct (arr_get_elem (st_controls st) s) as [E0|Hin]; [rewrite E0 in Hd; done|].
  pose proof (count_zero _ _ _ Hc Hin) as Hz. rewrite Hd in Hz. done.
Qed.
Lemma empty_or_live h st m s :
  table_ok h st m -> 0 <= s < st_capacity st -> (arr_get (st_controls st) s =? MAL_HASH_EMPTY) = negb (live_at st s).
Proof.
  intros Ht Hs. pose proof (not_deleted h st m s Ht) as Hd. destruct Ht as [Hi _ _ _ _].
  pose proof (io_control_ok _ _ _ _ _ _ Hi) as Hc. rewrite Forall_forall in Hc.
  assert (arr_get (st_controls st) s ∈ st_controls st) as Hin.
  { eapply list_elem_of_lookup_2, arr_get_lookup. by rewrite (io_controls _ _ _ _ _ _ Hi). }
  unfold live_at, live_control. specialize (Hc _ Hin) as [Hx|[Hx|Hx]]; [by rewrite Hx|done|].
  unfold MAL_HASH_EMPTY in *. destruct (Z.ltb_spec (arr_get (st_controls st) s) 0x80); [|lia]. apply Z.eqb_neq. lia.
Qed.

(** * Probing *)

Lemma same_name_ok h p q :
  string_heap_ok (strings h) -> same_name h p q = Ret (bool_decide (text (strings h) p = text (strings h) q)).
Proof.
  intros Hh. unfold same_name. destruct (Z.eqb_spec p q) as [->|]; [by rewrite bool_decide_true|].
  by apply string_equals_ok.
Qed.

Section probe.
Context (h : InternHeap) (st : Buckets E) (m : gmap (list Z) E) (probe : Z).
Hypothesis Hheap : string_heap_ok (strings h).
Hypothesis Hok : table_ok h st m.
Let hit s := bool_decide (name_text h (bucket K st s) = text (strings h) probe).

Lemma slot_candidates_ok fuel group : forall matches,
  slot_candidates MASK_SHIFT K fuel h st probe group matches = Ret (probe_candidates MASK_SHIFT fuel hit group matches).
Proof using Hheap.
  induction fuel as [|fuel IH]; intros matches; cbn [slot_candidates probe_candidates]; [done|].
  destruct (matches =? 0); [done|]. rewrite same_name_ok by done. cbn [mbind outcome_bind].
  fold (name_text h (bucket K st (group + mal_hash_mask_first MASK_SHIFT matches))).
  fold (hit (group + mal_hash_mask_first MASK_SHIFT matches)).
  destruct (hit _); [done|]. apply IH.
Qed.

Lemma slot_loop_ok fuel hash : forall state,
  slot_loop MASK_SHIFT K fuel h st probe hash state
  = probe_loop MASK_SHIFT fuel (st_controls st) hit (mal_hash_tag hash) true state UINT32_MAX.
Proof using Hheap Hok Hshift.
  induction fuel as [|fuel IH]; intros state; cbn [slot_loop probe_loop]; [done|].
  rewrite slot_candidates_ok. cbn [mbind outcome_bind].
  destruct (probe_candidates _ _ _ _ _); [done|].
  replace (mal_hash_group_match MASK_SHIFT (st_controls st) (probe_group state) MAL_HASH_DELETED) with 0.
  - rewrite Z.eqb_refl. cbn [andb negb]. change (0 =? 0) with true. cbn [negb]. destruct (negb _); [done|].
    destruct (mal_hash_probe_next state); [|done|done]. apply IH.
  - symmetry. apply group_match_zero; [done|]. intros (i & _ & Hd). by apply (not_deleted h st m) in Hd.
Qed.

Lemma store_slot_probe r hash :
  grouped_probe MASK_SHIFT (st_controls st) (st_capacity st) hit hash true = Ret r ->
  store_slot MASK_SHIFT K st h probe hash = Ret r.
Proof using Hheap Hok Hshift.
  intros Er. etransitivity; [|exact Er]. unfold store_slot, grouped_probe. apply slot_loop_ok.
Qed.

Lemma store_slot_ok :
  Z.of_nat (size m) < st_capacity st ->
  exists r, store_slot MASK_SHIFT K st h probe (text_hash (text (strings h) probe)) = Ret r /\ 0 <= r < st_capacity st /\
    match m !! text (strings h) probe with
    | Some e => live_at st r = true /\ bucket K st r = e
    | None => live_at st r = false /\ reusable (st_capacity st) (st_controls st) (text_hash (text (strings h) probe)) r
    end.
Proof using Hheap Hok Hshift.
  intros Hroom. pose proof (to_index _ _ _ Hok) as Hi. set (t := text (strings h) probe).
  pose proof (index_has_empty _ _ _ _ _ _ Hi ltac:(lia)) as He.
  destruct (grouped_probe_spec MASK_SHIFT Hshift _ (io_capacity _ _ _ _ _ _ Hi) (st_controls st) He (text_hash t) hit true)
    as (r & Er & Hr). exists r. split; [by apply store_slot_probe|].
  destruct Hr as [(Hrange & Htag & Hhit & _)|[Hno Hre]].
  - split; [done|]. apply bool_decide_eq_true in Hhit. fold t in Hhit.
    assert (live_at st r = true) as Hl by (unfold live_at; rewrite Htag; apply tag_live, hash_mix_range).
    rewrite <- Hhit, (to_entry _ _ _ Hok) by done. done.
  - pose proof Hre as (Hrange & _ & Hc). split; [done|]. destruct (m !! t) as [e|] eqn:Em.
    + exfalso. destruct (to_complete _ _ _ Hok t e Em) as (Ht & s & Hs & Hl & Hb).
      pose proof (slot_hash_live h st s Hs Hl) as Hsh. rewrite Hb, Ht in Hsh.
      destruct (io_entry _ _ _ _ _ _ Hi s _ Hsh) as (s' & Hs' & Eid & Htag & Hreach). rewrite arr_get_ids in Eid by done. subst s'.
      specialize (Hno s Hs Hreach Htag). unfold hit in Hno. rewrite Hb, Ht in Hno. by rewrite bool_decide_true in Hno.
    + split; [|done]. by apply live_not_reusable.
Qed.
End probe.

(** * Insertion *)

Definition with_entry (r hash : Z) (e : E) (sz : Z) (st : Buckets E) : Buckets E :=
  mkBuckets (arr_set (st_buckets st) r e) (arr_set (st_controls st) r (mal_hash_tag hash)) sz (st_capacity st).

Lemma bucket_with_entry r hash e sz st s :
  arr_len (st_buckets st) = st_capacity st -> 0 <= r < st_capacity st -> 0 <= s ->
  bucket K (with_entry r hash e sz st) s = if s =? r then e else bucket K st s.
Proof.
  intros Hl Hr Hs. unfold bucket, with_entry. cbn [st_buckets].
  destruct (Z.eqb_spec s r) as [->|]; [by rewrite arr_get_set_eq by lia|]. by rewrite arr_get_set_ne by lia.
Qed.
Lemma live_with_entry r hash e sz st s :
  arr_len (st_controls st) = st_capacity st -> 0 <= r < st_capacity st -> 0 <= s -> in_u 64 hash ->
  live_at (with_entry r hash e sz st) s = (s =? r) || live_at st s.
Proof.
  intros Hl Hr Hs Hh. unfold live_at, with_entry. cbn [st_controls].
  destruct (Z.eqb_spec s r) as [->|]; [by rewrite arr_get_set_eq, tag_live by (done || lia)|]. by rewrite arr_get_set_ne by lia.
Qed.

Lemma insert_ok h st m r e sz :
  table_ok h st m -> live_at st r = false ->
  reusable (st_capacity st) (st_controls st) (text_hash (name_text h e)) r -> m !! name_text h e = None ->
  table_ok h (with_entry r (text_hash (name_text h e)) e sz st) (<[name_text h e := e]> m).
Proof.
  intros Ht Hlr Hre Hm. pose proof Ht as [Hi Hb He Hc Hd]. set (hash := text_hash (name_text h e)) in *.
  pose proof (hash_mix_range (mal_string_hash_code_units (name_text h e))) as Hh. change (in_u 64 hash) in Hh.
  pose proof Hre as (Hr & _). pose proof (io_controls _ _ _ _ _ _ Hi) as Hlc.
  set (st' := with_entry r hash e sz st).
  assert (forall s, 0 <= s -> bucket K st' s = if s =? r then e else bucket K st s) as HB.
  { intros s Hs. by apply bucket_with_entry. }
  assert (forall s, 0 <= s -> live_at st' s = (s =? r) || live_at st s) as HL.
  { intros s Hs. by apply live_with_entry. }
  assert (forall s, 0 <= s < st_capacity st -> live_at st s = true -> name_text h (bucket K st s) <> name_text h e) as Hnew.
  { intros s Hs Hl E0. apply He in Hl; [|done]. rewrite E0 in Hl. congruence. }
  split.
  - pose proof (index_insert_ok _ _ _ _ _ _ r r hash Hi Hre) as Hins.
    assert (slot_hash h st r = None) as Hn by (unfold slot_hash; rewrite Hlr; by rewrite andb_false_r).
    specialize (Hins Hn Hh). unfold mal_hash_index_insert in Hins.
    assert (arr_set (seqZ 0 (st_capacity st)) r r = seqZ 0 (st_capacity st)) as Eids.
    { unfold arr_set. apply list_insert_id. rewrite lookup_seqZ_lt by lia. f_equal. lia. }
    rewrite Eids in Hins. rewrite map_size_insert_None by done.
    assert (arr_get (st_controls st) r = MAL_HASH_EMPTY) as Er.
    { pose proof (empty_or_live h st m r Ht Hr) as Ex. rewrite Hlr in Ex. by apply Z.eqb_eq. }
    rewrite Er in Hins. change (deleted_control MAL_HASH_EMPTY) with false in Hins. cbn [Z.b2z] in Hins.
    replace (Z.of_nat (size m) + 1) with (Z.of_nat (S (size m))) in Hins by lia.
    eapply index_ok_ext; [|exact Hins]. intros j. unfold slot_hash. change (st_capacity st') with (st_capacity st).
    destruct (Z.leb_spec 0 j), (Z.ltb_spec j (st_capacity st)); cbn [andb]; try (destruct (Z.eqb_spec j r); [lia|done]).
    rewrite HL, HB by done. destruct (Z.eqb_spec j r); done.
  - cbn. by rewrite arr_len_set.
  - intros s Hs Hl. change (st_capacity st') with (st_capacity st) in Hs. rewrite HL in Hl by lia. rewrite HB by lia.
    destruct (Z.eqb_spec s r); [by rewrite lookup_insert_eq|]. rewrite lookup_insert_ne by (intros E0; by apply (Hnew s)).
    by apply He.
  - intros t e' Hl. apply lookup_insert_Some in Hl as [[<- <-]|[Hne Hl]].
    + split; [done|]. exists r. rewrite HL, HB, Z.eqb_refl by lia. done.
    + destruct (Hc t e' Hl) as (Et & s & Hs & Hls & Eb). split; [done|]. exists s. rewrite HL, HB by lia.
      destruct (Z.eqb_spec s r) as [->|]; [congruence|done].
  - intros s s' Hs Hs'. change (st_capacity st') with (st_capacity st) in Hs, Hs'. rewrite !HL, !HB by lia.
    destruct (Z.eqb_spec s r) as [->|], (Z.eqb_spec s' r) as [->|]; cbn [orb]; try done.
    + intros _ Hl E0. exfalso. by apply (Hnew s').
    + intros Hl _ E0. exfalso. by apply (Hnew s).
    + by apply Hd.
Qed.

(** * The heap *)

(** Only hash caches differ. *)
Definition same_heap (h h' : InternHeap) : Prop :=
  same_strings (strings h) (strings h') /\ symbols h' = symbols h.

Context {HK : EntryLaws K}.

Lemma same_heap_text h h' e : same_heap h h' -> name_text h' e = name_text h e.
Proof using HK. intros [(_ & Ht & _) Es]. unfold name_text. by rewrite (name_ext h h') by done. Qed.

Lemma same_heap_trans h1 h2 h3 : same_heap h1 h2 -> same_heap h2 h3 -> same_heap h1 h3.
Proof. intros [H1 E1] [H2 E2]. split; [by eapply same_strings_trans|congruence]. Qed.

Lemma intern_hash_ok h p :
  string_heap_ok (strings h) ->
  exists h', mal_intern_hash h p = (text_hash (text (strings h) p), h') /\ same_heap h h'.
Proof.
  intros Hh. destruct (heap_hash_ok (strings h) p Hh) as (s & Eh & Hs). exists (set_strings s h).
  unfold mal_intern_hash. by rewrite Eh.
Qed.

Lemma table_ok_heap h h' st m : (forall e, name_text h' e = name_text h e) -> table_ok h st m -> table_ok h' st m.
Proof.
  intros He [Hi Hb Hen Hc Hd]. split; try done.
  - eapply index_ok_ext; [|exact Hi]. intros s. unfold slot_hash. by rewrite He.
  - intros s Hs Hl. rewrite He. by apply Hen.
  - intros t e. rewrite He. apply Hc.
  - intros s s'. rewrite !He. apply Hd.
Qed.

(** * Growth *)

(** The bound on the entries of a store, so that no capacity passes 2^30. *)
Definition INTERN_ROOM : Z := 2 ^ 28.

Lemma fresh_table_ok h sz c :
  capacity_ok c ->
  table_ok h (mkBuckets (replicate (Z.to_nat c) (entry_null K)) (replicate (Z.to_nat c) MAL_HASH_EMPTY) sz c) ∅.
Proof.
  intros Hc. pose proof (capacity_bound c Hc). set (st := mkBuckets _ _ _ _).
  assert (forall s, 0 <= s < c -> live_at st s = false) as Hn.
  { intros s Hs. unfold live_at. cbn. by rewrite arr_get_replicate. }
  split; cbn [st_capacity st_buckets st]; try done.
  - eapply index_ok_ext; [|apply (index_reset_ok c (seqZ 0 c) [] Hc)].
    + intros s. unfold slot_hash. cbn [st_capacity st]. destruct (Z.leb_spec 0 s), (Z.ltb_spec s c); cbn [andb]; try done.
      by rewrite Hn.
    + unfold arr_len. rewrite length_seqZ. lia.
  - apply arr_len_replicate. lia.
  - intros s Hs Hl. by rewrite Hn in Hl.
  - intros s s' Hs _ Hl. by rewrite Hn in Hl.
Qed.

Section rehash.
Context (h0 : InternHeap) (st : Buckets E) (m : gmap (list Z) E).
Hypothesis Hst : table_ok h0 st m.

(** The entries of the slots below [i]. *)
Definition moved (i : Z) (mg : gmap (list Z) E) : Prop :=
  forall t e, mg !! t = Some e <->
    exists s, 0 <= s < i /\ live_at st s = true /\ bucket K st s = e /\ name_text h0 e = t.

Lemma moved_subseteq i mg : i <= st_capacity st -> moved i mg -> mg ⊆ m.
Proof using Hst.
  intros Hi Hm. apply map_subseteq_spec. intros t e Ht. apply Hm in Ht as (s & Hs & Hl & <- & <-).
  apply (to_entry _ _ _ Hst); [lia|done].
Qed.
Lemma moved_all mg : moved (st_capacity st) mg -> mg = m.
Proof using Hst.
  intros Hm. apply map_eq. intros t. apply option_eq. intros e. rewrite (Hm t e). split.
  - intros (s & Hs & Hl & <- & <-). by apply (to_entry _ _ _ Hst).
  - intros Ht. destruct (to_complete _ _ _ Hst t e Ht) as (En & s & ? & ? & ?). by exists s.
Qed.
Lemma moved_skip i mg : live_at st i = false -> moved i mg -> moved (i + 1) mg.
Proof.
  intros Hl Hm t e. rewrite (Hm t e). split; intros (s & Hs & Hls & Hb & Ht); exists s; (split; [|done]); [lia|].
  destruct (decide (s = i)) as [->|]; [congruence|lia].
Qed.
Lemma moved_new i mg :
  0 <= i < st_capacity st -> live_at st i = true -> moved i mg ->
  mg !! name_text h0 (bucket K st i) = None /\ moved (i + 1) (<[name_text h0 (bucket K st i) := bucket K st i]> mg).
Proof using Hst.
  intros Hi Hl Hm. assert (forall s, 0 <= s < i -> live_at st s = true -> name_text h0 (bucket K st s) <> name_text h0 (bucket K st i)) as Hd.
  { intros s Hs Hls E0. apply (to_distinct _ _ _ Hst) in E0; [lia|lia|done..]. }
  split.
  - apply eq_None_not_Some. intros [e He]. apply Hm in He as (s & Hs & Hls & <- & Et). by apply (Hd s).
  - intros t e. rewrite lookup_insert_Some, (Hm t e). split.
    + intros [[<- <-]|[_ (s & Hs & ?)]]; [exists i; split; [lia|done]|]. exists s. split; [lia|done].
    + intros (s & Hs & Hls & <- & <-). destruct (decide (s = i)) as [->|]; [by left|right].
      split; [symmetry; apply Hd; [lia|done]|]. exists s. split; [lia|done].
Qed.

Lemma store_rehash_ok n : forall i grown mg h,
  0 <= i -> i + Z.of_nat n = st_capacity st -> same_heap h0 h -> table_ok h grown mg -> moved i mg ->
  Z.of_nat (size m) < st_capacity grown ->
  exists grown' h', rehash_loop MASK_SHIFT K (seqZ i (Z.of_nat n)) st grown h = Ret (grown', h') /\
    same_heap h0 h' /\ table_ok h' grown' m /\ st_size grown' = st_size grown /\ st_capacity grown' = st_capacity grown.
Proof using Hst Hshift HK.
  induction n as [|n IH]; intros i grown mg h Hi Hn Hh Hg Hm Hroom.
  - exists grown, h. cbn [rehash_loop]. rewrite (moved_all mg) in Hg by (by replace (st_capacity st) with i by lia). done.
  - rewrite seqZ_cons by lia. replace (Z.pred (Z.of_nat (S n))) with (Z.of_nat n) by lia. cbn [rehash_loop].
    replace (Z.succ i) with (i + 1) by lia. rewrite (empty_or_live h0 st m) by (done || lia).
    destruct (live_at st i) eqn:El; cbn [negb]; [|apply (IH (i + 1) grown mg); try done; [lia|lia|by apply moved_skip]].
    destruct (moved_new i mg ltac:(lia) El Hm) as [Hnone Hm']. pose proof Hh as [[Hok _] _].
    destruct (intern_hash_ok h (entry_name K h (bucket K st i)) Hok) as (h1 & E1 & Hh1). rewrite E1.
    change (text (strings h) (entry_name K h (bucket K st i))) with (name_text h (bucket K st i)).
    pose proof (same_heap_trans _ _ _ Hh Hh1) as Hh01.
    apply (table_ok_heap h h1) in Hg; [|intros; by apply same_heap_text]. pose proof (to_index _ _ _ Hg) as Hix.
    assert (Z.of_nat (size mg) < st_capacity grown) as Hroom'.
    { pose proof (map_subseteq_size _ _ (moved_subseteq i mg ltac:(lia) Hm)). lia. }
    rewrite <- (same_heap_text h h1 (bucket K st i) Hh1).
    destruct (empty_slot_spec MASK_SHIFT Hshift _ (io_capacity _ _ _ _ _ _ Hix) _ (index_has_empty _ _ _ _ _ _ Hix ltac:(lia))
      (text_hash (name_text h1 (bucket K st i)))) as (r & Er & Hr & Hc & Hre). rewrite Er. cbn [mbind outcome_bind].
    rewrite <- (same_heap_text h0 h1 (bucket K st i) Hh01) in Hnone, Hm'.
    apply (IH (i + 1) (with_entry r (text_hash (name_text h1 (bucket K st i))) (bucket K st i) (st_size grown) grown)
      (<[name_text h1 (bucket K st i) := bucket K st i]> mg) h1);
      [lia|lia|done| |exact Hm'|done].
    apply insert_ok; [done|unfold live_at; by rewrite Hc| |done]. split; [done|]. split; [done|by right].
Qed.
End rehash.

Definition store_rep (h : InternHeap) (st : Buckets E) (m : gmap (list Z) E) : Prop :=
  (st = empty_buckets /\ m = ∅) \/
  (m <> ∅ /\ table_ok h st m /\ st_size st = Z.of_nat (size m) /\ mal_hash_index_fits (st_size st) (st_capacity st) = true).

Lemma grown_capacity_ok c n :
  capacity_ok c -> mal_hash_index_fits n c = true -> mal_hash_index_fits (n + 1) c = false -> n < INTERN_ROOM ->
  mal_intern_grown_capacity c = Ret (2 * c) /\ capacity_ok (2 * c) /\ mal_hash_index_fits (n + 1) (2 * c) = true.
Proof.
  intros (k & Hk & ->) Hf Hnf Hn. unfold mal_hash_index_fits, INTERN_ROOM in *.
  apply Z.leb_le in Hf. apply Z.leb_gt in Hnf.
  assert (1 <= 2 ^ k) by (apply (Z.pow_le_mono_r 2 0 k); lia).
  replace (16 * 2 ^ k / 8) with (2 * 2 ^ k) in * by (rewrite <- (Z.div_mul (2 * 2 ^ k) 8) by lia; f_equal; lia).
  assert (k <= 25) as Hk25.
  { destruct (Z.leb_spec k 25); [done|]. assert (2 ^ 26 <= 2 ^ k) by (apply Z.pow_le_mono_r; lia). lia. }
  assert (2 ^ k <= 2 ^ 25) by (apply Z.pow_le_mono_r; lia).
  replace (2 * (16 * 2 ^ k)) with (16 * 2 ^ (k + 1)) by (rewrite Z.pow_add_r by lia; lia).
  split; [|split].
  - unfold mal_intern_grown_capacity. destruct (Z.eqb_spec (16 * 2 ^ k) 0); [lia|].
    destruct (Z.ltb_spec (UINT32_MAX / 2) (16 * 2 ^ k)) as [Hlt|_]; [change (UINT32_MAX / 2) with 2147483647 in Hlt; lia|].
    rewrite Z.pow_add_r by lia. f_equal. unfold u32. rewrite wrap_small by (unfold in_u; lia). lia.
  - exists (k + 1). lia.
  - rewrite Z.pow_add_r by lia. replace (16 * (2 ^ k * 2 ^ 1) / 8) with (4 * 2 ^ k)
      by (rewrite <- (Z.div_mul (4 * 2 ^ k) 8) by lia; f_equal; lia). apply Z.leb_le. lia.
Qed.

Lemma allocate_ok c : capacity_ok c ->
  mal_intern_allocate K c = Ret (replicate (Z.to_nat c) (entry_null K), replicate (Z.to_nat c) MAL_HASH_EMPTY).
Proof using HK.
  pose proof (width_ok (K := K)) as Hwidth.
  intros Hc. pose proof (capacity_bound c Hc). unfold mal_intern_allocate.
  destruct (Z.ltb_spec (SIZE_MAX / (entry_width K + 1)) c) as [Hlt|]; [|done]. exfalso.
  assert (SIZE_MAX / 17 <= SIZE_MAX / (entry_width K + 1)) by (apply Z.div_le_compat_l; unfold SIZE_MAX; lia).
  unfold SIZE_MAX in *. change ((2 ^ 64 - 1) / 17) with 1085102592571150095 in *. lia.
Qed.

Lemma store_grow_ok h st m :
  string_heap_ok (strings h) -> store_rep h st m -> Z.of_nat (size m) < INTERN_ROOM ->
  mal_hash_index_fits (st_size st + 1) (st_capacity st) = false ->
  exists st' h', store_grow MASK_SHIFT K st h = Ret (st', h') /\ same_heap h h' /\ table_ok h' st' m /\
    st_size st' = Z.of_nat (size m) /\ mal_hash_index_fits (Z.of_nat (size m) + 1) (st_capacity st') = true.
Proof using Hshift HK.
  intros Hh Hrep Hsz Hnf. unfold store_grow.
  assert (same_heap h h) as Hhh by (split; [by apply same_strings_refl|done]).
  destruct Hrep as [[-> ->]|(Hne & Ht & Esz & Hf)].
  - assert (capacity_ok 16) as Hc by (exists 0; done). cbn [st_capacity empty_buckets]. 
    change (mal_intern_grown_capacity 0) with (Ret 16 : outcome Z). cbn [mbind outcome_bind]. rewrite allocate_ok by done.
    cbn [mbind outcome_bind]. eexists _, h. split; [done|]. split; [done|]. split; [by apply fresh_table_ok|done].
  - pose proof (io_capacity _ _ _ _ _ _ (to_index _ _ _ Ht)) as Hc. rewrite Esz in Hf, Hnf.
    destruct (grown_capacity_ok (st_capacity st) (Z.of_nat (size m)) Hc Hf Hnf Hsz) as (E1 & Hc' & Hf'). rewrite E1. cbn [mbind outcome_bind].
    rewrite allocate_ok by done. cbn [mbind outcome_bind].
    pose proof (capacity_bound _ Hc). pose proof (fits_lt _ _ Hc' Hf').
    destruct (store_rehash_ok h st m Ht (Z.to_nat (st_capacity st)) 0
      (mkBuckets (replicate (Z.to_nat (2 * st_capacity st)) (entry_null K)) (replicate (Z.to_nat (2 * st_capacity st)) MAL_HASH_EMPTY)
         (st_size st) (2 * st_capacity st)) ∅ h) as (st' & h' & Er & Hh' & Ht' & Es & Ec); try done; try (cbn; lia).
    + by apply fresh_table_ok.
    + intros t e. rewrite lookup_empty. split; [done|]. intros (s & ? & _). lia.
    + rewrite Z2Nat.id in Er by lia. exists st', h'. split; [exact Er|]. split_and!; try done; [by rewrite Es|by rewrite Ec].
Qed.

(** * Lookup and insertion *)

Lemma rep_find h st m p :
  string_heap_ok (strings h) -> store_rep h st m ->
  exists h', store_find MASK_SHIFT K st h p = Ret (m !! text (strings h) p, h') /\ same_heap h h'.
Proof using Hshift HK.
  intros Hh Hrep. unfold store_find. assert (same_heap h h) as Hhh by (split; [by apply same_strings_refl|done]).
  destruct Hrep as [[-> ->]|(Hne & Ht & Esz & Hf)]; [by exists h|].
  apply map_size_non_empty_iff in Hne. destruct (Z.eqb_spec (st_size st) 0); [lia|]. cbn [negb].
  destruct (intern_hash_ok h p Hh) as (h1 & E1 & Hh1). rewrite E1.
  apply (table_ok_heap h h1) in Ht; [|intros; by apply same_heap_text]. pose proof Hh1 as [(Hok & Htx & _) _].
  pose proof (fits_lt _ _ (io_capacity _ _ _ _ _ _ (to_index _ _ _ Ht)) Hf).
  destruct (store_slot_ok h1 st m p Hok Ht ltac:(lia)) as (r & Er & Hr & Hm). rewrite <- (Htx p), Er. cbn [mbind outcome_bind].
  rewrite (empty_or_live h1 st m) by done. exists h1. split; [|done].
  destruct (m !! text (strings h1) p) as [e|]; destruct Hm as [-> Hb]; cbn [negb]; [by rewrite Hb|done].
Qed.

(** Where an entry that is not there may be written. *)
Definition room_at (h : InternHeap) (st : Buckets E) (m : gmap (list Z) E) (t : list Z) (r : Z) : Prop :=
  table_ok h st m /\ live_at st r = false /\ reusable (st_capacity st) (st_controls st) (text_hash t) r /\
  st_size st = Z.of_nat (size m) /\ mal_hash_index_fits (Z.of_nat (size m) + 1) (st_capacity st) = true.

Lemma rep_insert_slot h st m p :
  string_heap_ok (strings h) -> store_rep h st m -> Z.of_nat (size m) < INTERN_ROOM ->
  exists h', same_heap h h' /\
    match m !! text (strings h) p with
    | Some e => insert_slot MASK_SHIFT K st h p = Ret (inl e, h') /\ store_rep h' st m
    | None => exists r st', insert_slot MASK_SHIFT K st h p = Ret (inr (r, text_hash (text (strings h) p), st'), h') /\
                room_at h' st' m (text (strings h) p) r
    end.
Proof using Hshift HK.
  intros Hh Hrep Hsz. unfold insert_slot. destruct (intern_hash_ok h p Hh) as (h1 & E1 & Hh1). rewrite E1.
  pose proof Hh1 as [(Hok & Htx & _) _]. set (t := text (strings h) p).
  assert (store_rep h1 st m) as Hrep1.
  { destruct Hrep as [?|(? & Ht & ?)]; [by left|right]. split; [done|]. split; [|done].
    apply (table_ok_heap h); [|done]. intros. by apply same_heap_text. }
  assert (mal_hash_index_fits (st_size st + 1) (st_capacity st) = false -> exists st' h' r,
    store_grow MASK_SHIFT K st h1 = Ret (st', h') /\ same_heap h h' /\
    mal_hash_controls_empty_slot MASK_SHIFT (st_controls st') (st_capacity st') (text_hash t) = Ret r /\ room_at h' st' m t r) as Hgrow.
  { intros Hnf. destruct (store_grow_ok h1 st m Hok Hrep1 Hsz Hnf) as (st' & h2 & E2 & Hh2 & Ht2 & Es2 & Hf2).
    pose proof (to_index _ _ _ Ht2) as Hix. pose proof (fits_lt _ _ (io_capacity _ _ _ _ _ _ Hix) Hf2).
    destruct (empty_slot_spec MASK_SHIFT Hshift _ (io_capacity _ _ _ _ _ _ Hix) _ (index_has_empty _ _ _ _ _ _ Hix ltac:(lia))
      (text_hash t)) as (r & Er & Hr & Hc & Hre).
    exists st', h2, r. split; [done|]. split; [by eapply same_heap_trans|]. split; [done|].
    split; [done|]. split; [unfold live_at; by rewrite Hc|]. split; [|done]. split; [done|]. split; [done|by right]. }
  destruct Hrep1 as [[-> ->]|(Hne & Ht & Esz & Hf)].
  - rewrite lookup_empty. cbn [st_size empty_buckets]. rewrite Z.eqb_refl. cbn [negb mbind outcome_bind andb].
    destruct (Hgrow eq_refl) as (st' & h' & r & E2 & Hh' & Er & Hroom). exists h'. split; [done|].
    change (mal_hash_index_fits (0 + 1) (st_capacity empty_buckets)) with false. cbn [negb]. rewrite E2. cbn [mbind outcome_bind].
    rewrite Er. by exists r, st'.
  - apply map_size_non_empty_iff in Hne as Hsz0. destruct (Z.eqb_spec (st_size st) 0); [lia|]. cbn [negb andb].
    pose proof (fits_lt _ _ (io_capacity _ _ _ _ _ _ (to_index _ _ _ Ht)) Hf).
    destruct (store_slot_ok h1 st m p Hok Ht ltac:(lia)) as (r & Er & Hr & Hm). rewrite (Htx p) in Er, Hm. fold t in Er, Hm. rewrite Er.
    cbn [mbind outcome_bind]. rewrite (empty_or_live h1 st m) by done.
    destruct (m !! t) as [e|]; destruct Hm as [Hl Hb]; rewrite Hl; cbn [negb].
    + exists h1. split; [done|]. rewrite Hb. split; [done|]. by right.
    + destruct (mal_hash_index_fits (st_size st + 1) (st_capacity st)) eqn:Ef; cbn [negb].
      * exists h1. split; [done|]. exists r, st. split; [done|]. split; [done|]. split; [done|]. split; [done|].
        split; [done|]. by rewrite <- Esz.
      * destruct (Hgrow eq_refl) as (st' & h' & r' & E2 & Hh' & Er' & Hroom). exists h'. split; [done|]. rewrite E2.
        cbn [mbind outcome_bind]. rewrite Er'. by exists r', st'.
Qed.

Lemma rep_insert_at h st m r e :
  room_at h st m (name_text h e) r -> m !! name_text h e = None -> Z.of_nat (size m) < INTERN_ROOM ->
  store_rep h (insert_at r (text_hash (name_text h e)) e st) (<[name_text h e := e]> m).
Proof.
  intros (Ht & Hl & Hre & Es & Hf) Hm Hsz. right. split; [apply insert_non_empty|].
  assert (u32 (st_size st + 1) = Z.of_nat (size m) + 1) as Eu.
  { unfold u32. rewrite wrap_small; [lia|]. unfold in_u, INTERN_ROOM in *. lia. }
  split; [by apply (insert_ok h st m r e (u32 (st_size st + 1)))|]. cbn [st_size st_capacity insert_at].
  rewrite Eu. split; [|done]. rewrite map_size_insert_None by done. lia.
Qed.
End Spec.
