(* ===== verification/InternTheorems.v ===== *)
(** Runs of the intern stores: each refines a finite map from text to the first
    entry inserted with it, the collector's scan visits every entry once, and
    interning keeps the string heap one on which string equality is right. *)

From stdpp Require Import gmap.
From S2P Require Import Prelude CheckedSize HeapString HeapStringSpec Key StringHeap HashIndex Intern InternSpec.

(** * Scanning *)

(** [while ((entry = next(&store, &cursor)) != nullptr)], as the collector does. *)
Fixpoint scan {E} (K : EntryKind E) (fuel : nat) (st : Buckets E) (cursor : Z) : outcome (list E) :=
  match fuel with
  | O => NoFuel
  | S fuel =>
      '(r, cursor) ← store_next K st cursor;
      match r with
      | None => Ret []
      | Some e => l ← scan K fuel st cursor; Ret (e :: l)
      end
  end.
Definition scan_all {E} (K : EntryKind E) (st : Buckets E) : outcome (list E) :=
  scan K (S (Z.to_nat (st_capacity st))) st 0.

Section Scan.
Context {E : Type} (K : EntryKind E) (h : InternHeap) (st : Buckets E) (m : gmap (list Z) E).
Hypothesis Hst : table_ok K h st m.

(** The live slots from [i] on. *)
Definition live_from (n : nat) (i : Z) : list Z := filter (fun s => live_at st s = true) (seqZ i (Z.of_nat n)).

Lemma live_from_S n i : live_from (S n) i = if live_at st i then i :: live_from n (i + 1) else live_from n (i + 1).
Proof.
  unfold live_from. rewrite seqZ_cons by lia. replace (Z.pred (Z.of_nat (S n))) with (Z.of_nat n) by lia.
  replace (Z.succ i) with (i + 1) by lia. rewrite filter_cons.
  destruct (live_at st i); [by rewrite decide_True|by rewrite decide_False].
Qed.

Lemma capacity_small : 16 <= st_capacity st <= 2 ^ 30.
Proof using Hst. apply capacity_bound, (io_capacity _ _ _ _ _ _ (to_index _ _ _ _ Hst)). Qed.

Lemma next_loop_ok n : forall fuel i,
  0 <= i -> i + Z.of_nat n = st_capacity st -> (n < fuel)%nat ->
  (live_from n i = [] /\ next_loop K fuel st i = Ret (None, st_capacity st)) \/
  (exists n' s, i <= s /\ (n' < n)%nat /\ s + 1 + Z.of_nat n' = st_capacity st /\ live_from n i = s :: live_from n' (s + 1) /\
     next_loop K fuel st i = Ret (Some (bucket K st s), s + 1)).
Proof using Hst.
  pose proof capacity_small as Hcap. induction n as [|n IH]; intros [|fuel] i Hi Hn Hf; try lia; cbn [next_loop].
  - left. split; [done|]. destruct (Z.ltb_spec i (st_capacity st)); [lia|]. do 2 f_equal. lia.
  - destruct (Z.ltb_spec i (st_capacity st)); [|lia]. rewrite (empty_or_live K h st m), negb_involutive by (done || lia).
    rewrite live_from_S. assert (u32 (i + 1) = i + 1) as -> by (apply wrap_small; unfold in_u; lia).
    destruct (live_at st i); [right; exists n, i; split_and!; try done; lia|].
    destruct (IH fuel (i + 1)) as [?|(n' & s & ? & ? & ?)]; [lia|lia|lia|by left|]. right. exists n', s. split; [lia|]. split; [lia|done].
Qed.

Lemma scan_ok n : forall fuel i,
  0 <= i -> i + Z.of_nat n = st_capacity st -> (n < fuel)%nat -> scan K fuel st i = Ret (bucket K st <$> live_from n i).
Proof using Hst.
  pose proof capacity_small as Hcap. induction n as [n IH] using lt_wf_ind. intros [|fuel] i Hi Hn Hf; [lia|]. cbn [scan].
  unfold store_next. destruct (Z.eqb_spec (st_capacity st) 0); [lia|].
  destruct (next_loop_ok n (S (Z.to_nat (st_capacity st))) i Hi Hn ltac:(lia)) as [[El En]|(n' & s & Hs & Hn' & Hsum & El & En)];
    rewrite En, El; cbn [mbind outcome_bind]; [done|].
  rewrite (IH n') by lia. done.
Qed.

Lemma scan_all_ok : exists l, scan_all K st = Ret l /\ l ≡ₚ (map_to_list m).*2.
Proof using Hst.
  pose proof capacity_small as Hcap. set (n := Z.to_nat (st_capacity st)). exists (bucket K st <$> live_from n 0).
  split; [unfold scan_all; apply scan_ok; lia|].
  set (pairs := (fun s => (name_text K h (bucket K st s), bucket K st s)) <$> live_from n 0).
  assert (forall s, s ∈ live_from n 0 <-> 0 <= s < st_capacity st /\ live_at st s = true) as Hin.
  { intros s. unfold live_from. rewrite list_elem_of_filter, elem_of_seqZ. subst n. rewrite Z2Nat.id, Z.add_0_l by lia. tauto. }
  replace (bucket K st <$> live_from n 0) with (pairs.*2) by (unfold pairs; by rewrite <- list_fmap_compose).
  apply fmap_Permutation, NoDup_Permutation.
  - apply NoDup_fmap_2_strong; [|apply NoDup_filter, NoDup_seqZ].
    intros s s' Hs%Hin Hs'%Hin [= En _]. destruct Hs, Hs'. by apply (to_distinct _ _ _ _ Hst).
  - apply NoDup_map_to_list.
  - intros [t e]. rewrite elem_of_map_to_list. unfold pairs. rewrite list_elem_of_fmap. split.
    + intros (s & [= -> ->] & [Hs Hl]%Hin). by apply (to_entry _ _ _ _ Hst).
    + intros Ht. destruct (to_complete _ _ _ _ Hst t e Ht) as (En & s & Hs & Hl & Eb). exists s.
      rewrite Eb, En. split; [done|]. by apply Hin.
Qed.
End Scan.

Lemma rep_scan {E} (K : EntryKind E) h st m :
  store_rep K h st m -> exists l, scan_all K st = Ret l /\ l ≡ₚ (map_to_list m).*2.
Proof.
  intros [[-> ->]|(_ & Ht & _)]; [|by eapply scan_all_ok]. exists []. by rewrite map_to_list_empty.
Qed.

Lemma rep_name {E} (K : EntryKind E) h st m t e : store_rep K h st m -> m !! t = Some e -> name_text K h e = t.
Proof. intros [[-> ->]|(_ & Ht & _)] Hm; [done|]. by apply (to_complete _ _ _ _ Ht). Qed.

Lemma rep_heap {E} (K : EntryKind E) h h' st m :
  (forall e, name_text K h' e = name_text K h e) -> store_rep K h st m -> store_rep K h' st m.
Proof.
  intros He [?|(? & Ht & ?)]; [by left|right]. split; [done|]. split; [by apply (table_ok_heap K h)|done].
Qed.

(** * Property atoms *)

Inductive atom_op : Type :=
| AIntern (p : Z)
| AFind (p : Z)
| AMinorRoots
| AMajorRoots.

(** A string or null, or the strings a collection visits. *)
Inductive atom_result : Type :=
| RString (p : option Z)
| RStrings (l : list Z).

(** The table by text and the atoms inserted since the last minor collection. *)
Record AtomTable : Type := mkAtomTable { table : gmap (list Z) Z; fresh_atoms : list Z }.

Section AtomRun.
Context (MASK_SHIFT : Z) (T : Z -> list Z).

Definition atom_step (a : MalAtomStore) (h : InternHeap) (op : atom_op) : outcome (atom_result * MalAtomStore * InternHeap) :=
  match op with
  | AIntern p => '(q, a, h) ← mal_atom_store_intern MASK_SHIFT a h p; Ret (RString (Some q), a, h)
  | AFind p => '(r, h) ← mal_atom_store_find MASK_SHIFT a h p; Ret (RString r, a, h)
  | AMinorRoots => let '(l, a) := mal_atom_store_take_recent a in Ret (RStrings l, a, h)
  | AMajorRoots => l ← scan_all atom_kind (atom_buckets a); Ret (RStrings l, a, h)
  end.
Fixpoint atom_run (a : MalAtomStore) (h : InternHeap) (ops : list atom_op)
  : outcome (list atom_result * MalAtomStore * InternHeap) :=
  match ops with
  | [] => Ret ([], a, h)
  | op :: ops =>
      '(r, a, h) ← atom_step a h op;
      '(rs, a, h) ← atom_run a h ops;
      Ret (r :: rs, a, h)
  end.

(** [T] is the text of each string, which no operation changes. *)
Definition atom_spec (s : AtomTable) (op : atom_op) : atom_result * AtomTable :=
  match op with
  | AIntern p =>
      match table s !! T p with
      | Some q => (RString (Some q), s)
      | None => (RString (Some p), mkAtomTable (<[T p := p]> (table s)) (fresh_atoms s ++ [p]))
      end
  | AFind p => (RString (table s !! T p), s)
  | AMinorRoots => (RStrings (fresh_atoms s), mkAtomTable (table s) [])
  | AMajorRoots => (RStrings (map_to_list (table s)).*2, s)
  end.
Fixpoint atom_spec_run (s : AtomTable) (ops : list atom_op) : list atom_result * AtomTable :=
  match ops with
  | [] => ([], s)
  | op :: ops => let '(r, s) := atom_spec s op in let '(rs, s) := atom_spec_run s ops in (r :: rs, s)
  end.

(** A full walk visits in bucket order. *)
Definition result_rel (r r' : atom_result) : Prop :=
  match r, r' with
  | RString p, RString q => p = q
  | RStrings l, RStrings l' => l ≡ₚ l'
  | _, _ => False
  end.

Record atoms_rep (a : MalAtomStore) (h : InternHeap) (s : AtomTable) : Prop := {
  ar_heap : string_heap_ok (strings h);
  ar_text : forall p, text (strings h) p = T p;
  ar_store : store_rep atom_kind h (atom_buckets a) (table s);
  ar_recent : recent a = fresh_atoms s;
  ar_recent_room : arr_len (recent a) <= recent_capacity a;
  ar_recent_size : arr_len (recent a) <= Z.of_nat (size (table s));
  ar_atoms : forall p, is_atom (strings h) p <-> table s !! T p = Some p;
}.

Hypothesis Hshift : 0 <= MASK_SHIFT.

Lemma same_heap_rep a h h' s : same_heap h h' -> atoms_rep a h s -> atoms_rep a h' s.
Proof.
  intros [(Hok & Ht & Ha) Es] [H1 H2 H3 H4 H5 H6 H7]. split; try done.
  - intros p. by rewrite Ht.
  - apply (rep_heap _ h); [|done]. intros e. unfold name_text. cbn. by rewrite Ht.
  - intros p. by rewrite Ha.
Qed.

(** The atom of a text is the only one marked with it. *)
Lemma mark_rep a h s p :
  string_heap_ok (strings h) -> (forall q, text (strings h) q = T q) -> store_rep atom_kind h (atom_buckets a) (table s) ->
  recent a = fresh_atoms s -> arr_len (recent a) <= recent_capacity a -> arr_len (recent a) <= Z.of_nat (size (table s)) ->
  table s !! T p = Some p -> (forall q, q = p \/ is_atom (strings h) q <-> table s !! T q = Some q) ->
  atoms_rep a (set_strings (mark_property_atom p (strings h)) h) s.
Proof.
  intros Hh Ht Hst Hre Hroom Hsz Hp Hat. destruct (mark_atom_ok (strings h) p Hh) as (Hh' & Ht' & Ha').
  { intros q Hq E. rewrite !Ht in E. pose proof (proj1 (Hat q) (or_intror Hq)) as Hq'. rewrite E in Hq'. congruence. }
  split; cbn [strings set_strings]; try done.
  - intros q. by rewrite Ht'.
  - apply (rep_heap _ h); [|done]. intros e. apply Ht'.
  - intros q. by rewrite Ha', Hat.
Qed.

Lemma grown_recent_ok n : 0 <= n < INTERN_ROOM -> exists c, mal_intern_grown_capacity n = Ret c /\ n < c.
Proof.
  intros Hn. unfold mal_intern_grown_capacity, INTERN_ROOM in *. destruct (Z.eqb_spec n 0) as [->|]; [by eexists|].
  destruct (Z.ltb_spec (UINT32_MAX / 2) n) as [Hlt|_]; [change (UINT32_MAX / 2) with 2147483647 in Hlt; lia|].
  eexists. split; [done|]. unfold u32. rewrite wrap_small; [lia|]. unfold in_u. lia.
Qed.

Lemma intern_ok a h s p :
  atoms_rep a h s -> Z.of_nat (size (table s)) < INTERN_ROOM ->
  exists q a' h', mal_atom_store_intern MASK_SHIFT a h p = Ret (q, a', h') /\
    result_rel (RString (Some q)) (atom_spec s (AIntern p)).1 /\ atoms_rep a' h' (atom_spec s (AIntern p)).2.
Proof using Hshift.
  intros Hrep Hsz. pose proof Hrep as [Hh Ht Hst Hre Hroom Hrs Hat].
  destruct (rep_insert_slot MASK_SHIFT Hshift atom_kind h (atom_buckets a) (table s) p Hh Hst Hsz) as (h1 & Hh1 & Hm).
  pose proof (same_heap_rep a h h1 s Hh1 Hrep) as [G1 G2 G3 _ _ _ G7]. rewrite Ht in Hm.
  unfold mal_atom_store_intern. cbn [atom_spec]. destruct (table s !! T p) as [q|] eqn:Em.
  - destruct Hm as [E Hst1]. rewrite E. cbn [mbind outcome_bind fst snd]. eexists q, a, _. split; [done|]. split; [done|].
    pose proof (rep_name _ _ _ _ _ _ G3 Em) as En. cbn in En. unfold name_text in En. cbn in En. rewrite G2 in En.
    apply mark_rep; try done; [by rewrite En|]. intros r. rewrite <- G7. split; [intros [->|]; [apply G7; by rewrite En|done]|by right].
  - destruct Hm as (r & st' & E & Hat'). rewrite E. cbn [mbind outcome_bind fst snd]. rewrite <- (G2 p) in E, Em, Hat' |- *.
    change (text (strings h1) p) with (name_text atom_kind h1 p) in *.
    pose proof (rep_insert_at atom_kind h1 st' (table s) r p Hat' Em Hsz) as Hst'.
    assert (exists c, (if arr_len (recent a) =? recent_capacity a then mal_intern_grown_capacity (recent_capacity a)
      else Ret (recent_capacity a)) = Ret c /\ arr_len (recent a) < c) as (c & Ec & Hc).
    { pose proof (arr_len_nonneg (recent a)). destruct (Z.eqb_spec (arr_len (recent a)) (recent_capacity a)) as [<-|];
        [apply grown_recent_ok; lia|]. eexists. split; [done|lia]. }
    rewrite Ec. cbn [mbind outcome_bind]. eexists p, _, _. split; [done|]. split; [done|].
    apply mark_rep; cbn [atom_buckets recent recent_capacity table fresh_atoms]; try done.
    + by rewrite Hre.
    + unfold arr_len in *. rewrite length_app. cbn. lia.
    + rewrite map_size_insert_None by done. unfold arr_len in *. rewrite length_app. cbn. lia.
    + change (name_text atom_kind h1 p) with (text (strings h1) p). rewrite G2. apply lookup_insert_eq.
    + intros q. change (name_text atom_kind h1 p) with (text (strings h1) p) in *. rewrite G2 in *. rewrite G7. split.
      * intros [->|Hq]; [apply lookup_insert_eq|]. rewrite lookup_insert_ne; [done|]. congruence.
      * intros Hq. apply lookup_insert_Some in Hq as [[_ ->]|[_ Hq]]; [by left|by right].
Qed.

Lemma atom_step_ok a h s op :
  atoms_rep a h s -> Z.of_nat (size (table s)) < INTERN_ROOM ->
  exists r a' h', atom_step a h op = Ret (r, a', h') /\ result_rel r (atom_spec s op).1 /\ atoms_rep a' h' (atom_spec s op).2.
Proof using Hshift.
  intros Hrep Hsz. destruct op as [p|p| |]; cbn [atom_step].
  - destruct (intern_ok a h s p Hrep Hsz) as (q & a' & h' & E & Hr & Hrep'). rewrite E. by eexists _, _, _.
  - destruct (rep_find MASK_SHIFT Hshift atom_kind h _ _ p (ar_heap _ _ _ Hrep) (ar_store _ _ _ Hrep)) as (h' & E & Hh').
    unfold mal_atom_store_find. rewrite E. cbn [mbind outcome_bind]. eexists _, _, _. split; [done|]. cbn.
    split; [by rewrite (ar_text _ _ _ Hrep)|by apply (same_heap_rep a h)].
  - eexists _, _, _. split; [done|]. destruct Hrep as [H1 H2 H3 H4 H5 H6 H7]. split; [cbn; by rewrite H4|].
    split; cbn; try done; unfold arr_len in *; cbn; lia.
  - destruct (rep_scan _ _ _ _ (ar_store _ _ _ Hrep)) as (l & E & Hl). rewrite E. by eexists _, _, _.
Qed.

Lemma atom_spec_size s op : (size (table (atom_spec s op).2) <= S (size (table s)))%nat.
Proof.
  destruct op as [p|p| |]; cbn; try lia. destruct (table s !! T p) eqn:E; cbn; [lia|]. by rewrite map_size_insert_None.
Qed.

Lemma atom_run_ok ops : forall a h s,
  atoms_rep a h s -> Z.of_nat (size (table s)) + Z.of_nat (length ops) < INTERN_ROOM ->
  exists rs a' h', atom_run a h ops = Ret (rs, a', h') /\
    Forall2 result_rel rs (atom_spec_run s ops).1 /\ atoms_rep a' h' (atom_spec_run s ops).2.
Proof using Hshift.
  induction ops as [|op ops IH]; intros a h s Hrep Hsz; cbn [atom_run atom_spec_run]; [by eexists _, _, _|].
  cbn [length] in Hsz. destruct (atom_step_ok a h s op Hrep ltac:(lia)) as (r & a1 & h1 & E1 & Hr & Hrep1).
  pose proof (atom_spec_size s op) as Hs1. rewrite E1. cbn [mbind outcome_bind].
  destruct (atom_spec s op) as [r' s1]. cbn [fst snd] in *.
  destruct (IH a1 h1 s1 Hrep1 ltac:(lia)) as (rs & a' & h' & E2 & Hrs & Hrep'). rewrite E2. cbn [mbind outcome_bind].
  destruct (atom_spec_run s1 ops) as [rs' s']. eexists _, _, _. split; [done|]. split; [by constructor|done].
Qed.

Lemma atoms_init h :
  string_heap_ok (strings h) -> (forall p, text (strings h) p = T p) -> (forall p, ~ is_atom (strings h) p) ->
  atoms_rep empty_atoms h (mkAtomTable ∅ []).
Proof.
  intros Hh Ht Hn. split; cbn; try done; [by left|]. intros p. rewrite lookup_empty. split; [by intros ?%Hn|done].
Qed.
End AtomRun.

(** * The symbol registry *)

Inductive symbol_op : Type :=
| SInsert (p : Z)
| SFind (d : Z)
| SRoots.

Section SymbolRun.
Context (MASK_SHIFT : Z) (T D : Z -> list Z).

Definition symbol_step (st : Buckets Z) (h : InternHeap) (op : symbol_op) : outcome (atom_result * Buckets Z * InternHeap) :=
  match op with
  | SInsert p => '(q, st, h) ← mal_symbol_registry_insert MASK_SHIFT st h p; Ret (RString (Some q), st, h)
  | SFind d => '(r, h) ← mal_symbol_registry_find MASK_SHIFT st h d; Ret (RString r, st, h)
  | SRoots => l ← scan_all symbol_kind st; Ret (RStrings l, st, h)
  end.
Fixpoint symbol_run (st : Buckets Z) (h : InternHeap) (ops : list symbol_op)
  : outcome (list atom_result * Buckets Z * InternHeap) :=
  match ops with
  | [] => Ret ([], st, h)
  | op :: ops =>
      '(r, st, h) ← symbol_step st h op;
      '(rs, st, h) ← symbol_run st h ops;
      Ret (r :: rs, st, h)
  end.

(** Symbol.for: [T] is the text of a string, [D] the description of a symbol. *)
Definition symbol_spec (m : gmap (list Z) Z) (op : symbol_op) : atom_result * gmap (list Z) Z :=
  match op with
  | SInsert p =>
      match m !! D p with
      | Some q => (RString (Some q), m)
      | None => (RString (Some p), <[D p := p]> m)
      end
  | SFind d => (RString (m !! T d), m)
  | SRoots => (RStrings (map_to_list m).*2, m)
  end.
Fixpoint symbol_spec_run (m : gmap (list Z) Z) (ops : list symbol_op) : list atom_result * gmap (list Z) Z :=
  match ops with
  | [] => ([], m)
  | op :: ops => let '(r, m) := symbol_spec m op in let '(rs, m) := symbol_spec_run m ops in (r :: rs, m)
  end.

Record symbols_rep (st : Buckets Z) (h : InternHeap) (m : gmap (list Z) Z) : Prop := {
  sr_heap : string_heap_ok (strings h);
  sr_text : forall p, text (strings h) p = T p;
  sr_name : forall p, name_text symbol_kind h p = D p;
  sr_store : store_rep symbol_kind h st m;
  sr_registered : forall p, registered (symbols h p) = true <-> m !! D p = Some p;
}.

Hypothesis Hshift : 0 <= MASK_SHIFT.

Lemma symbols_heap st h h' m : same_heap h h' -> symbols_rep st h m -> symbols_rep st h' m.
Proof.
  intros Hsame [H1 H2 H3 H4 H5]. assert (forall p, name_text symbol_kind h' p = name_text symbol_kind h p) as Hn
    by (intros; by apply same_heap_text; [apply _|]).
  pose proof Hsame as [(Hok & Ht & _) Es]. split; [done| | | |]; intros.
  - by rewrite Ht.
  - by rewrite Hn.
  - by apply (rep_heap _ h).
  - by rewrite Es.
Qed.

Lemma register_name h p q : name_text symbol_kind (set_registered p h) q = name_text symbol_kind h q.
Proof. unfold name_text. cbn. destruct (Z.eqb_spec q p) as [->|]; done. Qed.

(** Registering the symbol that owns its description. *)
Lemma register_rep st h m p :
  string_heap_ok (strings h) -> (forall q, text (strings h) q = T q) -> (forall q, name_text symbol_kind h q = D q) ->
  store_rep symbol_kind h st m -> m !! D p = Some p ->
  (forall q, q = p \/ registered (symbols h q) = true <-> m !! D q = Some q) ->
  symbols_rep st (set_registered p h) m.
Proof.
  intros Hh Ht Hn Hst Hp Hr. split; try done.
  - intros q. by rewrite register_name.
  - apply (rep_heap _ h); [|done]. intros q. apply register_name.
  - intros q. rewrite <- Hr. cbn. destruct (Z.eqb_spec q p) as [->|]; cbn; [tauto|]. tauto.
Qed.

Lemma symbol_step_ok st h m op :
  symbols_rep st h m -> Z.of_nat (size m) < INTERN_ROOM ->
  exists r st' h', symbol_step st h op = Ret (r, st', h') /\ result_rel r (symbol_spec m op).1 /\
    symbols_rep st' h' (symbol_spec m op).2.
Proof using Hshift.
  intros Hrep Hsz. pose proof Hrep as [Hh Ht Hn Hst Hr]. destruct op as [p|d|]; cbn [symbol_step].
  - destruct (rep_insert_slot MASK_SHIFT Hshift symbol_kind h st m (description (symbols h p)) Hh Hst Hsz) as (h1 & Hh1 & Hm).
    pose proof (symbols_heap st h h1 m Hh1 Hrep) as [G1 G2 G3 G4 G5].
    change (text (strings h) (description (symbols h p))) with (name_text symbol_kind h p) in Hm. rewrite Hn in Hm.
    unfold mal_symbol_registry_insert. cbn [symbol_spec]. destruct (m !! D p) as [q|] eqn:Em.
    + destruct Hm as [E Hst1]. rewrite E. cbn [mbind outcome_bind]. eexists _, _, _. split; [done|]. split; [done|].
      pose proof (rep_name _ _ _ _ _ _ G4 Em) as En. rewrite G3 in En.
      apply register_rep; try done; [by rewrite En|]. intros r. rewrite <- G5. split; [intros [->|]; [apply G5; by rewrite En|done]|by right].
    + destruct Hm as (r & st' & E & Hroom). rewrite E. cbn [mbind outcome_bind]. eexists _, _, _. split; [done|]. split; [done|].
      rewrite <- (G3 p) in Em, Hroom |- *. pose proof (rep_insert_at symbol_kind h1 st' m r p Hroom Em Hsz) as Hst'. cbn [snd].
      rewrite (G3 p) in *. apply register_rep; try done; [apply lookup_insert_eq|].
      intros q. rewrite G5. split.
      * intros [->|Hq]; [apply lookup_insert_eq|]. rewrite lookup_insert_ne; [done|]. congruence.
      * intros Hq. apply lookup_insert_Some in Hq as [[_ ->]|[_ Hq]]; [by left|by right].
  - destruct (rep_find MASK_SHIFT Hshift symbol_kind h st m d Hh Hst) as (h' & E & Hh').
    unfold mal_symbol_registry_find. rewrite E. cbn [mbind outcome_bind]. eexists _, _, _. split; [done|]. cbn.
    split; [by rewrite Ht|by apply (symbols_heap st h)].
  - destruct (rep_scan _ _ _ _ Hst) as (l & E & Hl). rewrite E. by eexists _, _, _.
Qed.

Lemma symbol_spec_size m op : (size (symbol_spec m op).2 <= S (size m))%nat.
Proof.
  destruct op as [p|d|]; cbn; try lia. destruct (m !! D p) eqn:E; cbn; [lia|]. by rewrite map_size_insert_None.
Qed.

Lemma symbol_run_ok ops : forall st h m,
  symbols_rep st h m -> Z.of_nat (size m) + Z.of_nat (length ops) < INTERN_ROOM ->
  exists rs st' h', symbol_run st h ops = Ret (rs, st', h') /\
    Forall2 result_rel rs (symbol_spec_run m ops).1 /\ symbols_rep st' h' (symbol_spec_run m ops).2.
Proof using Hshift.
  induction ops as [|op ops IH]; intros st h m Hrep Hsz; cbn [symbol_run symbol_spec_run]; [by eexists _, _, _|].
  cbn [length] in Hsz. destruct (symbol_step_ok st h m op Hrep ltac:(lia)) as (r & st1 & h1 & E1 & Hr & Hrep1).
  pose proof (symbol_spec_size m op) as Hs1. rewrite E1. cbn [mbind outcome_bind].
  destruct (symbol_spec m op) as [r' m1]. cbn [fst snd] in *.
  destruct (IH st1 h1 m1 Hrep1 ltac:(lia)) as (rs & st' & h' & E2 & Hrs & Hrep'). rewrite E2. cbn [mbind outcome_bind].
  destruct (symbol_spec_run m1 ops) as [rs' m']. eexists _, _, _. split; [done|]. split; [by constructor|done].
Qed.
End SymbolRun.

(** * Sources of native functions *)

(** The first source cached under a name stays. *)
Lemma source_insert_ok MASK_SHIFT st h m name src :
  0 <= MASK_SHIFT -> string_heap_ok (strings h) -> store_rep source_kind h st m -> Z.of_nat (size m) < INTERN_ROOM ->
  exists st' h', same_heap h h' /\
    match m !! text (strings h) name with
    | Some e => mal_native_source_cache_insert MASK_SHIFT st h name src = Ret (source e, st', h') /\ store_rep source_kind h' st' m
    | None => mal_native_source_cache_insert MASK_SHIFT st h name src = Ret (src, st', h') /\
        store_rep source_kind h' st' (<[text (strings h) name := mkSource name src]> m)
    end.
Proof.
  intros HS Hh Hst Hsz. destruct (rep_insert_slot MASK_SHIFT HS source_kind h st m name Hh Hst Hsz) as (h1 & Hh1 & Hm).
  unfold mal_native_source_cache_insert. pose proof Hh1 as [(_ & Ht & _) _].
  destruct (m !! text (strings h) name) as [e|] eqn:Em.
  - destruct Hm as [E Hst']. exists st, h1. rewrite E. done.
  - destruct Hm as (r & st' & E & Hroom). rewrite E. cbn [mbind outcome_bind].
    eexists _, h1. split; [done|]. split; [done|]. rewrite <- (Ht name) in *.
    by apply (rep_insert_at source_kind h1 st' m r (mkSource name src)).
Qed.

(** * Properties *)

(** C8. From a heap whose strings are not yet atoms, every sequence of interning,
    lookups and collections on the atom store returns; the answers are those of a
    table that maps a text to the first string interned with it, minor collections
    visit exactly the atoms inserted since the last one in order, full collections
    visit every atom once, and the heap keeps its texts and its invariant. *)
Theorem atom_run_refines MASK_SHIFT h ops :
  0 <= MASK_SHIFT -> string_heap_ok (strings h) -> (forall p, ~ is_atom (strings h) p) ->
  Z.of_nat (length ops) < INTERN_ROOM ->
  exists rs a' h', atom_run MASK_SHIFT empty_atoms h ops = Ret (rs, a', h') /\
    Forall2 result_rel rs (atom_spec_run (text (strings h)) (mkAtomTable ∅ []) ops).1 /\
    atoms_rep (text (strings h)) a' h' (atom_spec_run (text (strings h)) (mkAtomTable ∅ []) ops).2.
Proof. intros HS Hh Hn Hlen. apply atom_run_ok; [done| |done]. by apply atoms_init. Qed.

(** After any such run string equality still is equality of the original
    texts, although it compares property atoms by address only. *)
Theorem atoms_compare_by_address MASK_SHIFT h ops rs a' h' :
  0 <= MASK_SHIFT -> string_heap_ok (strings h) -> (forall p, ~ is_atom (strings h) p) ->
  Z.of_nat (length ops) < INTERN_ROOM -> atom_run MASK_SHIFT empty_atoms h ops = Ret (rs, a', h') ->
  (forall p q, mal_string_equals (strings h' p) (strings h' q)
     = Ret (bool_decide (text (strings h) p = text (strings h) q))) /\
  (forall p q, is_atom (strings h') p -> is_atom (strings h') q ->
     mal_string_equals (strings h' p) (strings h' q) = Ret (p =? q)).
Proof.
  intros HS Hh Hn Hlen Er.
  destruct (atom_run_ok MASK_SHIFT (text (strings h)) HS ops empty_atoms h (mkAtomTable ∅ []) (atoms_init _ h Hh (fun _ => eq_refl) Hn) Hlen)
    as (rs2 & a2 & h2 & E2 & _ & [G1 G2 _ _ _ _ _]). rewrite Er in E2. injection E2 as <- <- <-.
  assert (forall p q, mal_string_equals (strings h' p) (strings h' q) = Ret (bool_decide (text (strings h) p = text (strings h) q))) as Heq.
  { intros p q. rewrite string_equals_ok by done. fold (text (strings h') p) (text (strings h') q). by rewrite !G2. }
  split; [done|]. intros p q Hp Hq. rewrite Heq. f_equal. rewrite <- !G2.
  destruct (Z.eqb_spec p q) as [->|Hne]; [by apply bool_decide_true|]. apply bool_decide_false. intros E. by apply Hne, (sh_atoms _ G1).
Qed.

(** The Symbol.for registry: every sequence of insertions, lookups and root
    scans returns with the answers of a table from description to the first symbol
    registered with it, and a symbol carries the registered bit exactly when the
    registry answers with it. *)
Theorem symbol_run_refines MASK_SHIFT h ops :
  0 <= MASK_SHIFT -> string_heap_ok (strings h) -> (forall p, registered (symbols h p) = false) ->
  Z.of_nat (length ops) < INTERN_ROOM ->
  let T := text (strings h) in let D p := T (description (symbols h p)) in
  exists rs st' h', symbol_run MASK_SHIFT empty_buckets h ops = Ret (rs, st', h') /\
    Forall2 result_rel rs (symbol_spec_run T D ∅ ops).1 /\ symbols_rep T D st' h' (symbol_spec_run T D ∅ ops).2.
Proof.
  intros HS Hh Hn Hlen T D. apply symbol_run_ok; [done| |done]. split; try done; [by left|].
  intros p. rewrite Hn, lookup_empty. done.
Qed.

(** * Examples *)

(** Cell [p] holds the one-unit text [p mod 32]; symbol [p] is described by it. *)
Module InternDemo.
Definition cell (p : Z) : MalString :=
  SFlat (mkStringInfo p 1 0 false false true) MAL_STRING_STORAGE_OWNED [p mod 32].
Definition heap : InternHeap := mkInternHeap cell (fun p => mkSymbol p false).

Lemma heap_ok : string_heap_ok (strings heap).
Proof.
  split; cbn; try done. intros p. pose proof (Z.mod_pos_bound p 32).
  assert (in_u 8 (p mod 32) /\ in_u 16 (p mod 32)) as [H8 H16] by (unfold in_u; lia).
  split; [split; [by unfold MAL_STRING_MAX_CODE_UNITS, INT32_MAX|]; split; [done|]|].
  - intros _. repeat constructor; apply H8.
  - split_and!; try done; intros; repeat constructor; try apply H8; try apply H16.
Qed.

(** Forty strings, thirty-two texts: two growths; then a walk and two minors. *)
Definition program : list atom_op :=
  map AIntern (seqZ 0 40) ++ [AFind 70; AFind 31; AMajorRoots; AMinorRoots; AIntern 64; AMinorRoots].

Lemma atom_run_refines_witness :
  exists rs a' h', atom_run 2 empty_atoms heap program = Ret (rs, a', h') /\
    Forall2 result_rel rs (atom_spec_run (text (strings heap)) (mkAtomTable ∅ []) program).1 /\
    atoms_rep (text (strings heap)) a' h' (atom_spec_run (text (strings heap)) (mkAtomTable ∅ []) program).2.
Proof. apply (atom_run_refines 2 heap program); [lia|apply heap_ok|discriminate|reflexivity]. Defined.

Lemma atoms_compare_by_address_witness :
  exists rs a' h', atom_run 0 empty_atoms heap [AIntern 3; AIntern 4] = Ret (rs, a', h') /\
    mal_string_equals (strings h' 3) (strings h' 4) = Ret false.
Proof.
  destruct (atom_run_ok 0 (text (strings heap)) ltac:(lia) [AIntern 3; AIntern 4] empty_atoms heap (mkAtomTable ∅ [])
    (atoms_init _ heap heap_ok (fun _ => eq_refl) ltac:(discriminate)) ltac:(reflexivity)) as (rs & a' & h' & E & _).
  exists rs, a', h'. split; [exact E|].
  exact (proj1 (atoms_compare_by_address 0 heap [AIntern 3; AIntern 4] rs a' h' ltac:(lia) heap_ok ltac:(discriminate) ltac:(reflexivity) E) 3 4).
Defined.

Definition symbol_program : list symbol_op := map SInsert (seqZ 0 40) ++ [SFind 70; SRoots; SInsert 64].

Lemma symbol_run_refines_witness :
  let T := text (strings heap) in
  exists rs st' h', symbol_run 0 empty_buckets heap symbol_program = Ret (rs, st', h') /\
    Forall2 result_rel rs (symbol_spec_run T T ∅ symbol_program).1 /\
    symbols_rep T T st' h' (symbol_spec_run T T ∅ symbol_program).2.
Proof. apply (symbol_run_refines 0 heap symbol_program); [lia|apply heap_ok|reflexivity|reflexivity]. Defined.
End InternDemo.
