(* ===== verification/TextBuffer.v ===== *)
(** The growable text output of runtime/src/text_buffer.h and text_buffer.c: code
    units appended to raw memory that starts in Latin-1, one byte per unit, and is
    widened in place to UTF-16 by the first unit that needs it.

    Memory is a list of bytes; a read or write outside of it, or through a null
    pointer, is [Abort]. UTF-16 units are little-endian pairs. The allocator is a
    parameter: the [k]-th request for [n] bytes fails or gives memory with any
    content. Formatting of fractional Numbers is not modelled. *)

From S2P Require Import Prelude CheckedSize HeapString Utf.

(** * Memory *)

Definition mem_get (m : list Z) (i : Z) : outcome Z :=
  if (0 <=? i) && (i <? arr_len m) then Ret (arr_get m i) else Abort.
Definition mem_read (m : list Z) (offset size : Z) : outcome (list Z) :=
  if (0 <=? offset) && (0 <=? size) && (offset + size <=? arr_len m) then Ret (slice m offset size) else Abort.
(** [memcpy(m + offset, bytes, length)]. *)
Definition mem_write (m : list Z) (offset : Z) (bytes : list Z) : outcome (list Z) :=
  if (0 <=? offset) && (offset + arr_len bytes <=? arr_len m) then
    Ret (take (Z.to_nat offset) m ++ bytes ++ drop (Z.to_nat (offset + arr_len bytes)) m)
  else Abort.

(** Two overlapping moves cover a short copy. *)
Definition mal_text_buffer_copy_bytes (m : list Z) (offset : Z) (from : list Z) : outcome (list Z) :=
  let size := arr_len from in
  if 16 <? size then mem_write m offset from
  else if 8 <=? size then
    head ← mem_read from 0 8;
    tail ← mem_read from (size - 8) 8;
    m ← mem_write m offset head;
    mem_write m (offset + size - 8) tail
  else if 4 <=? size then
    head ← mem_read from 0 4;
    tail ← mem_read from (size - 4) 4;
    m ← mem_write m offset head;
    mem_write m (offset + size - 4) tail
  else if negb (size =? 0) then
    b ← mem_get from 0;
    m ← mem_write m offset [b];
    b ← mem_get from (size / 2);
    m ← mem_write m (offset + size / 2) [b];
    b ← mem_get from (size - 1);
    mem_write m (offset + (size - 1)) [b]
  else Ret m.

(** * Buffers *)

Inductive MalTextBufferStatus : Set :=
| MAL_TEXT_BUFFER_OK | MAL_TEXT_BUFFER_LENGTH_OVERFLOW | MAL_TEXT_BUFFER_ALLOCATION_FAILURE.
#[export] Instance MalTextBufferStatus_eq_dec : EqDecision MalTextBufferStatus.
Proof. solve_decision. Defined.

(** [tb_requests] counts the requests made to the allocator. *)
Record MalTextBuffer : Type := mkTextBuffer {
  tb_heap : option Z;
  tb_data : option (list Z);
  tb_length : Z;
  tb_capacity : Z;
  tb_status : MalTextBufferStatus;
  tb_utf16 : bool;
  tb_requests : Z;
}.
Definition zero_buffer : MalTextBuffer := mkTextBuffer None None 0 0 MAL_TEXT_BUFFER_OK false 0.

Definition set_status (s : MalTextBufferStatus) (b : MalTextBuffer) : MalTextBuffer :=
  mkTextBuffer (tb_heap b) (tb_data b) (tb_length b) (tb_capacity b) s (tb_utf16 b) (tb_requests b).
Definition set_data (d : option (list Z)) (length : Z) (b : MalTextBuffer) : MalTextBuffer :=
  mkTextBuffer (tb_heap b) d length (tb_capacity b) (tb_status b) (tb_utf16 b) (tb_requests b).
Definition set_capacity (c : Z) (b : MalTextBuffer) : MalTextBuffer :=
  mkTextBuffer (tb_heap b) (tb_data b) (tb_length b) c (tb_status b) (tb_utf16 b) (tb_requests b).

(** A status, as every operation returns one. *)
Definition fail (s : MalTextBufferStatus) (b : MalTextBuffer) : outcome (MalTextBufferStatus * MalTextBuffer) :=
  Ret (s, set_status s b).
Definition is_ok (b : MalTextBuffer) : bool := bool_decide (tb_status b = MAL_TEXT_BUFFER_OK).

Definition MAL_TEXT_BUFFER_INITIAL_CAPACITY : Z := 16.

(** [sizeof(c16)] or [sizeof(u8)]. *)
Definition unit_width (utf16 : bool) : Z := if utf16 then 2 else 1.
(** The bytes of units in an encoding: a Latin-1 store truncates. *)
Definition unit_bytes (utf16 : bool) (units : list Z) : list Z :=
  if utf16 then c16_bytes units else map u8 units.

(** Storing units after the live ones. *)
Definition store_units (units : list Z) (b : MalTextBuffer) : outcome MalTextBuffer :=
  match tb_data b with
  | None => Abort
  | Some m =>
      m ← mem_write m (tb_length b * unit_width (tb_utf16 b)) (unit_bytes (tb_utf16 b) units);
      Ret (set_data (Some m) (tb_length b + arr_len units) b)
  end.

Definition mal_text_buffer_fits (b : MalTextBuffer) (extra : Z) : bool :=
  is_ok b && match tb_data b with Some _ => true | None => false end &&
  (extra <=? u64 (tb_capacity b - tb_length b)).

(** Widening backwards: [((c16 * ) grown)[i - 1] = ((const u8 * ) grown)[i - 1]]. *)
Fixpoint widen_loop (i : nat) (m : list Z) : outcome (list Z) :=
  match i with
  | O => Ret m
  | S i =>
      b ← mem_get m (Z.of_nat i);
      m ← mem_write m (2 * Z.of_nat i) [b; 0];
      widen_loop i m
  end.

Section Ops.
Variable raw_alloc : Z -> Z -> option (list Z).
Variable current_heap : Z.

(** The content moves, the rest is what the allocator left there. *)
Definition mal_heap_try_realloc_raw (k : Z) (old : option (list Z)) (bytes : Z) : option (list Z) :=
  match raw_alloc k bytes with
  | None => None
  | Some fresh =>
      let kept := take (Z.to_nat bytes) (default [] old) in
      Some (kept ++ drop (length kept) fresh)
  end.

Definition mal_text_buffer_grow (b : MalTextBuffer) (extra : Z) (utf16 : bool)
  : outcome (MalTextBufferStatus * MalTextBuffer) :=
  if negb (is_ok b) then Ret (tb_status b, b)
  else
    match mal_checked_size_add (tb_length b) extra MAL_STRING_MAX_CODE_UNITS with
    | None => fail MAL_TEXT_BUFFER_LENGTH_OVERFLOW b
    | Some required =>
        let promote := utf16 && negb (tb_utf16 b) in
        if (required <=? tb_capacity b) && negb promote &&
           (match tb_data b with Some _ => true | None => false end || (tb_capacity b =? 0))
        then Ret (MAL_TEXT_BUFFER_OK, b)
        else
          capacity ←
            (if tb_capacity b <? required then
               mal_checked_size_growth (tb_capacity b) required MAL_TEXT_BUFFER_INITIAL_CAPACITY MAL_STRING_MAX_CODE_UNITS
             else Ret (Some (tb_capacity b)));
          match capacity with
          | None => fail MAL_TEXT_BUFFER_LENGTH_OVERFLOW b
          | Some capacity =>
              match mal_checked_size_multiply (unit_width (utf16 || tb_utf16 b)) capacity SIZE_MAX with
              | None => fail MAL_TEXT_BUFFER_LENGTH_OVERFLOW b
              | Some bytes =>
                  if bytes =? 0 then
                    Ret (MAL_TEXT_BUFFER_OK,
                         mkTextBuffer (tb_heap b) (tb_data b) (tb_length b) (tb_capacity b) (tb_status b)
                           (tb_utf16 b || utf16) (tb_requests b))
                  else
                    let heap := default current_heap (tb_heap b) in
                    let k := tb_requests b in
                    let b := mkTextBuffer (Some heap) (tb_data b) (tb_length b) (tb_capacity b) (tb_status b)
                               (tb_utf16 b) (k + 1) in
                    match mal_heap_try_realloc_raw k (tb_data b) bytes with
                    | None => fail MAL_TEXT_BUFFER_ALLOCATION_FAILURE b
                    | Some grown =>
                        grown ← (if promote then widen_loop (Z.to_nat (tb_length b)) grown else Ret grown);
                        Ret (MAL_TEXT_BUFFER_OK,
                             mkTextBuffer (tb_heap b) (Some grown) (tb_length b) capacity (tb_status b)
                               (tb_utf16 b || utf16) (tb_requests b))
                    end
              end
          end
    end.

Definition mal_text_buffer_prepare (b : MalTextBuffer) (extra : Z) (utf16 : bool)
  : outcome (MalTextBufferStatus * MalTextBuffer) :=
  if mal_text_buffer_fits b extra && (negb utf16 || tb_utf16 b) then Ret (MAL_TEXT_BUFFER_OK, b)
  else mal_text_buffer_grow b extra utf16.
Definition mal_text_buffer_reserve (b : MalTextBuffer) (extra : Z) := mal_text_buffer_prepare b extra false.
Definition mal_text_buffer_reserve_utf16 (b : MalTextBuffer) (extra : Z) := mal_text_buffer_prepare b extra true.

Definition mal_text_buffer_hint_capacity (b : MalTextBuffer) (extra : Z)
  : outcome (MalTextBufferStatus * MalTextBuffer) :=
  if negb (is_ok b) then Ret (tb_status b, b)
  else match tb_data b with
  | Some _ => mal_text_buffer_reserve b extra
  | None =>
      match mal_checked_size_add (tb_length b) extra MAL_STRING_MAX_CODE_UNITS with
      | None => fail MAL_TEXT_BUFFER_LENGTH_OVERFLOW b
      | Some required =>
          Ret (MAL_TEXT_BUFFER_OK,
               if tb_capacity b <? required then
                 set_capacity (if required <? MAL_TEXT_BUFFER_INITIAL_CAPACITY
                               then MAL_TEXT_BUFFER_INITIAL_CAPACITY else required) b
               else b)
      end
  end.

(** [if (status == MAL_TEXT_BUFFER_OK)] store the units in the encoding reached. *)
Definition store_if_ok (units : list Z) (r : MalTextBufferStatus * MalTextBuffer)
  : outcome (MalTextBufferStatus * MalTextBuffer) :=
  if bool_decide (r.1 = MAL_TEXT_BUFFER_OK) then b ← store_units units r.2; Ret (r.1, b) else Ret r.

Definition mal_text_buffer_push_slow (b : MalTextBuffer) (code_unit : Z)
  : outcome (MalTextBufferStatus * MalTextBuffer) :=
  r ← mal_text_buffer_prepare b 1 (255 <? code_unit);
  store_if_ok [code_unit] r.
Definition mal_text_buffer_push (b : MalTextBuffer) (code_unit : Z) : outcome (MalTextBufferStatus * MalTextBuffer) :=
  if mal_text_buffer_fits b 1 && (tb_utf16 b || (code_unit <=? 255)) then
    b ← store_units [code_unit] b; Ret (MAL_TEXT_BUFFER_OK, b)
  else mal_text_buffer_push_slow b code_unit.

Definition mal_text_buffer_append_units_slow (b : MalTextBuffer) (units : list Z)
  : outcome (MalTextBufferStatus * MalTextBuffer) :=
  if (arr_len units =? 0) || negb (is_ok b) then Ret (tb_status b, b)
  else if u64 (MAL_STRING_MAX_CODE_UNITS - tb_length b) <? arr_len units then fail MAL_TEXT_BUFFER_LENGTH_OVERFLOW b
  else
    let utf16 := tb_utf16 b || negb (mal_utf16_units_fit_latin1 units) in
    r ← mal_text_buffer_prepare b (arr_len units) utf16;
    store_if_ok units r.

(** The inline fast path, with its short copies. *)
Definition copy_in (bytes : list Z) (length : Z) (b : MalTextBuffer) : outcome (MalTextBufferStatus * MalTextBuffer) :=
  match tb_data b with
  | None => Abort
  | Some m =>
      m ← mal_text_buffer_copy_bytes m (tb_length b * unit_width (tb_utf16 b)) bytes;
      Ret (MAL_TEXT_BUFFER_OK, set_data (Some m) (tb_length b + length) b)
  end.
Definition mal_text_buffer_append_units (b : MalTextBuffer) (units : list Z)
  : outcome (MalTextBufferStatus * MalTextBuffer) :=
  if tb_utf16 b && mal_text_buffer_fits b (arr_len units) then copy_in (c16_bytes units) (arr_len units) b
  else mal_text_buffer_append_units_slow b units.

Definition mal_text_buffer_append_latin1_slow (b : MalTextBuffer) (units : list Z)
  : outcome (MalTextBufferStatus * MalTextBuffer) :=
  if arr_len units =? 0 then Ret (tb_status b, b)
  else
    r ← mal_text_buffer_prepare b (arr_len units) false;
    store_if_ok units r.
Definition mal_text_buffer_append_latin1 (b : MalTextBuffer) (units : list Z)
  : outcome (MalTextBufferStatus * MalTextBuffer) :=
  if negb (tb_utf16 b) && mal_text_buffer_fits b (arr_len units) then copy_in units (arr_len units) b
  else mal_text_buffer_append_latin1_slow b units.

(** A segment goes through the append of its encoding. *)
Definition append_segment (b : MalTextBuffer) (segment : MalStringSegment) : outcome (MalTextBufferStatus * MalTextBuffer) :=
  if seg_latin1 segment then mal_text_buffer_append_latin1 b (mal_string_copy_segment_to segment)
  else mal_text_buffer_append_units b (mal_string_copy_segment_to segment).

Fixpoint segment_loop (fuel : nat) (it : MalStringIterator) (b : MalTextBuffer) : outcome MalTextBuffer :=
  match fuel with
  | O => NoFuel
  | S fuel =>
      r ← mal_string_iterator_next it;
      match r with
      | None => Ret b
      | Some (segment, it) =>
          '(status, b) ← append_segment b segment;
          if bool_decide (status = MAL_TEXT_BUFFER_OK) then segment_loop fuel it b else Ret b
      end
  end.
Definition mal_text_buffer_append_segmented (b : MalTextBuffer) (s : MalString) (offset length : Z)
  : outcome (MalTextBufferStatus * MalTextBuffer) :=
  '(_, b) ← (match tb_data b with
             | None => mal_text_buffer_hint_capacity b length
             | Some _ => Ret (tb_status b, b)
             end);
  it ← mal_string_iterator_init s offset length;
  b ← segment_loop (S (Z.to_nat length)) it b;
  Ret (tb_status b, b).

Definition mal_text_buffer_append_range (b : MalTextBuffer) (s : MalString) (offset length : Z)
  : outcome (MalTextBufferStatus * MalTextBuffer) :=
  if (length =? 0) || negb (is_ok b) then Ret (tb_status b, b)
  else if u64 (MAL_STRING_MAX_CODE_UNITS - tb_length b) <? length then fail MAL_TEXT_BUFFER_LENGTH_OVERFLOW b
  else
    r ← mal_string_try_get_segment s offset length;
    match r with
    | Some segment => append_segment b segment
    | None => mal_text_buffer_append_segmented b s offset length
    end.
Definition mal_text_buffer_append_string (b : MalTextBuffer) (s : MalString) : outcome (MalTextBufferStatus * MalTextBuffer) :=
  mal_text_buffer_append_range b s 0 (mal_string_length s).

(** The units a buffer holds, read through its pointer. *)
Definition mal_text_buffer_code_unit_at (b : MalTextBuffer) (index : Z) : outcome Z :=
  match tb_data b with
  | None => Abort
  | Some m =>
      if tb_utf16 b then
        lo ← mem_get m (2 * index);
        hi ← mem_get m (2 * index + 1);
        Ret (Z.lor lo (Z.shiftl hi 8))
      else mem_get m index
  end.
Fixpoint read_units (n : nat) (index : Z) (b : MalTextBuffer) : outcome (list Z) :=
  match n with
  | O => Ret []
  | S n =>
      u ← mal_text_buffer_code_unit_at b index;
      rest ← read_units n (index + 1) b;
      Ret (u :: rest)
  end.

(** [buffer == source]. *)
Definition append_self (b : MalTextBuffer) : outcome (MalTextBufferStatus * MalTextBuffer) :=
  let length := tb_length b in
  if length =? 0 then Ret (tb_status b, b)
  else
    '(status, b) ← mal_text_buffer_reserve b length;
    if negb (bool_decide (status = MAL_TEXT_BUFFER_OK)) then Ret (tb_status b, b)
    else
      let bytes := u64 (length * unit_width (tb_utf16 b)) in
      match tb_data b with
      | None => Abort
      | Some m =>
          copy ← mem_read m 0 bytes;
          m ← mem_write m bytes copy;
          Ret (MAL_TEXT_BUFFER_OK, set_data (Some m) (tb_length b + length) b)
      end.
(** [buffer != source]: the source is a distinct buffer, left as it is. *)
Definition append_other (b source : MalTextBuffer) : outcome (MalTextBufferStatus * MalTextBuffer) :=
  if negb (is_ok source) then
    let b := if is_ok b then set_status (tb_status source) b else b in
    Ret (tb_status b, b)
  else
    units ← read_units (Z.to_nat (tb_length source)) 0 source;
    if tb_utf16 source then mal_text_buffer_append_units b units else mal_text_buffer_append_latin1 b units.
Definition mal_text_buffer_append_buffer (b : MalTextBuffer) (source : option MalTextBuffer)
  : outcome (MalTextBufferStatus * MalTextBuffer) :=
  match source with None => append_self b | Some source => append_other b source end.

(** [ascii] up to its NUL. *)
Definition mal_text_buffer_append_ascii (b : MalTextBuffer) (ascii : list Z) : outcome (MalTextBufferStatus * MalTextBuffer) :=
  mal_text_buffer_append_latin1 b ascii.

(** [do ... while (magnitude != 0)], from the last digit. *)
Fixpoint i32_digits (fuel : nat) (magnitude : Z) (digits : list Z) : outcome (list Z) :=
  match fuel with
  | O => NoFuel
  | S fuel =>
      let digits := u8 (48 + magnitude mod 10) :: digits in
      if magnitude / 10 =? 0 then Ret digits else i32_digits fuel (magnitude / 10) digits
  end.
Definition mal_text_buffer_append_i32 (b : MalTextBuffer) (value : Z) : outcome (MalTextBufferStatus * MalTextBuffer) :=
  let negative := value <? 0 in
  let magnitude := if negative then u32 (- value) else u32 value in
  digits ← i32_digits 11 magnitude [];
  mal_text_buffer_append_latin1 b (if negative then 45 :: digits else digits).

Definition mal_text_buffer_truncate (b : MalTextBuffer) (length : Z) : outcome MalTextBuffer :=
  if tb_length b <? length then Abort else Ret (set_data (tb_data b) length b).

(** The arguments of the string constructor: encoding, memory and length. *)
Definition NewString : Type := bool * option (list Z) * Z.
Definition mal_text_buffer_copy (b : MalTextBuffer) : option NewString :=
  if is_ok b then Some (tb_utf16 b, tb_data b, tb_length b) else None.
Definition mal_text_buffer_dispose (b : MalTextBuffer) : outcome MalTextBuffer :=
  match tb_data b, tb_heap b with
  | Some _, None => Abort
  | _, _ => Ret zero_buffer
  end.

Definition MAL_STRING_INLINE_CODE_UNITS : Z := 8.
Definition MAL_STRING_INLINE_LATIN1_CODE_UNITS : Z := 16.

(** Slack of more than half of a large buffer is given back if memory allows. *)
Definition mal_text_buffer_finish (heap : Z) (b : MalTextBuffer) : outcome (option NewString * MalTextBuffer) :=
  if negb (is_ok b) then
    b ← mal_text_buffer_dispose b;
    Ret (None, b)
  else if match tb_heap b with Some h => negb (h =? heap) | None => false end then Abort
  else
    let inline_length := if tb_utf16 b then MAL_STRING_INLINE_CODE_UNITS else MAL_STRING_INLINE_LATIN1_CODE_UNITS in
    data ←
      (if (inline_length <? tb_length b) && (1024 <? tb_capacity b) && (tb_length b <? tb_capacity b / 2) then
         let bytes := u64 (tb_length b * unit_width (tb_utf16 b)) in
         match raw_alloc (tb_requests b) bytes, tb_data b with
         | None, data => Ret data
         | Some _, None => Abort
         | Some trimmed, Some m =>
             copy ← mem_read m 0 bytes;
             m ← mem_write trimmed 0 copy;
             Ret (Some m)
         end
       else Ret (tb_data b));
    Ret (Some (tb_utf16 b, data, tb_length b), zero_buffer).
End Ops.
