(* ===== verification/TextBufferSpec.v ===== *)
(** What a text buffer holds, and that every operation keeps it: the invariant
    [buffer_ok b us] (memory of the right size whose live part encodes the units [us]),
    the short copies, widening in place, growth, and the appends, each of which ends with
    the units appended, with the text unchanged and the length limit passed, or with a
    prefix appended and the allocator to blame. *)

From S2P Require Import Prelude CheckedSize HeapString HeapStringSpec Utf UtfSpec TextBuffer.

(** * Memory *)

Definition splice (m : list Z) (offset : Z) (bytes : list Z) : list Z :=
  take (Z.to_nat offset) m ++ bytes ++ drop (Z.to_nat (offset + arr_len bytes)) m.

Lemma mem_write_eq m offset bytes :
  0 <= offset -> offset + arr_len bytes <= arr_len m -> mem_write m offset bytes = Ret (splice m offset bytes).
Proof.
  intros Ho Hl. unfold mem_write. destruct (Z.leb_spec 0 offset); [|lia].
  by destruct (Z.leb_spec (offset + arr_len bytes) (arr_len m)); [|lia].
Qed.
Lemma mem_read_eq m offset n :
  0 <= offset -> 0 <= n -> offset + n <= arr_len m -> mem_read m offset n = Ret (slice m offset n).
Proof.
  intros Ho Hn Hl. unfold mem_read. destruct (Z.leb_spec 0 offset), (Z.leb_spec 0 n); try lia.
  by destruct (Z.leb_spec (offset + n) (arr_len m)); [|lia].
Qed.
Lemma mem_get_eq m i : 0 <= i < arr_len m -> mem_get m i = Ret (arr_get m i).
Proof. intros Hi. unfold mem_get. destruct (Z.leb_spec 0 i), (Z.ltb_spec i (arr_len m)); try lia. done. Qed.

Lemma splice_len m offset bytes :
  0 <= offset -> offset + arr_len bytes <= arr_len m -> arr_len (splice m offset bytes) = arr_len m.
Proof. intros Ho Hl. unfold splice, arr_len in *. rewrite !length_app, length_take, length_drop. lia. Qed.

Lemma splice_get m offset bytes i :
  0 <= offset -> offset + arr_len bytes <= arr_len m -> 0 <= i < arr_len m ->
  arr_get (splice m offset bytes) i
  = if (offset <=? i) && (i <? offset + arr_len bytes) then arr_get bytes (i - offset) else arr_get m i.
Proof.
  intros Ho Hl Hi. apply arr_get_of_lookup. unfold splice, arr_len in *.
  destruct (Z.leb_spec offset i), (Z.ltb_spec i (offset + Z.of_nat (length bytes))); cbn [andb].
  - rewrite lookup_app_r, length_take_le, lookup_app_l by (rewrite ?length_take; lia).
    rewrite <- (arr_get_lookup bytes (i - offset)) by (unfold arr_len; lia). f_equal. lia.
  - rewrite lookup_app_r, length_take_le, lookup_app_r, lookup_drop by (rewrite ?length_take; lia).
    rewrite <- (arr_get_lookup m i) by (unfold arr_len; lia). f_equal. lia.
  - rewrite lookup_app_l, lookup_take_lt by (rewrite ?length_take; lia). by rewrite <- (arr_get_lookup m i) by (unfold arr_len; lia).
  - lia.
Qed.

(** Writing right after a prefix extends it. *)
Lemma splice_prefix m offset bytes p :
  0 <= offset -> offset + arr_len bytes <= arr_len m -> take (Z.to_nat offset) m = p ->
  take (Z.to_nat (offset + arr_len bytes)) (splice m offset bytes) = p ++ bytes.
Proof.
  intros Ho Hl Hp. unfold splice, arr_len in *. rewrite Hp, app_assoc. subst p.
  rewrite take_app_le by (rewrite length_app, length_take; lia). apply take_ge. rewrite length_app, length_take. lia.
Qed.

(** * Short copies *)

Lemma splice_two m offset from n :
  0 <= n <= arr_len from -> arr_len from <= 2 * n -> 0 <= offset -> offset + arr_len from <= arr_len m ->
  splice (splice m offset (slice from 0 n)) (offset + arr_len from - n) (slice from (arr_len from - n) n)
  = splice m offset from.
Proof.
  intros Hn H2 Ho Hl. assert (arr_len (slice from 0 n) = n) as E1 by (apply slice_len; lia).
  assert (arr_len (slice from (arr_len from - n) n) = n) as E2 by (apply slice_len; lia).
  apply arr_ext; rewrite !splice_len; rewrite ?splice_len; rewrite ?E1, ?E2; try lia.
  intros i Hi. rewrite !splice_get, E1, E2; rewrite ?splice_len, ?E1, ?E2; try lia.
  destruct (Z.leb_spec offset i), (Z.ltb_spec i (offset + arr_len from)), (Z.leb_spec (offset + arr_len from - n) i),
    (Z.ltb_spec i (offset + arr_len from - n + n)), (Z.ltb_spec i (offset + n)); cbn [andb]; try lia; try done;
    rewrite arr_get_slice by lia; f_equal; lia.
Qed.

Lemma copy_two m offset from n :
  0 <= n <= arr_len from -> arr_len from <= 2 * n -> 0 <= offset -> offset + arr_len from <= arr_len m ->
  (head ← mem_read from 0 n;
   tail ← mem_read from (arr_len from - n) n;
   m ← mem_write m offset head;
   mem_write m (offset + arr_len from - n) tail) = mem_write m offset from.
Proof.
  intros Hn H2 Ho Hl. assert (arr_len (slice from 0 n) = n) as E1 by (apply slice_len; lia).
  assert (arr_len (slice from (arr_len from - n) n) = n) as E2 by (apply slice_len; lia).
  rewrite !mem_read_eq by lia. cbn [mbind outcome_bind]. rewrite mem_write_eq by (rewrite ?E1; lia). cbn [mbind outcome_bind].
  rewrite mem_write_eq by (rewrite ?splice_len; rewrite ?E1, ?E2; lia). by rewrite splice_two, mem_write_eq by lia.
Qed.

Lemma splice_app m offset x y :
  0 <= offset -> offset + arr_len x + arr_len y <= arr_len m ->
  splice (splice m offset x) (offset + arr_len x) y = splice m offset (x ++ y).
Proof.
  intros Ho Hl. pose proof (arr_len_nonneg x). pose proof (arr_len_nonneg y).
  apply arr_ext; rewrite ?splice_len; rewrite ?splice_len, ?arr_len_app; try lia.
  intros i Hi. rewrite !splice_get; rewrite ?splice_len, ?arr_len_app; try lia.
  destruct (Z.leb_spec (offset + arr_len x) i), (Z.ltb_spec i (offset + arr_len x + arr_len y)), (Z.leb_spec offset i),
    (Z.ltb_spec i (offset + arr_len x)), (Z.ltb_spec i (offset + (arr_len x + arr_len y))); cbn [andb]; try lia; try done.
  - unfold arr_get, arr_len in *. rewrite !list_lookup_total_alt, lookup_app_r by lia. do 2 f_equal. lia.
  - by rewrite arr_get_app_l by lia.
Qed.
Lemma splice_same m offset x y :
  0 <= offset -> offset + arr_len x <= arr_len m -> arr_len y = arr_len x ->
  splice (splice m offset x) offset y = splice m offset y.
Proof.
  intros Ho Hl E. pose proof (arr_len_nonneg x).
  apply arr_ext; rewrite ?splice_len; rewrite ?splice_len, ?E; try lia.
  intros i Hi. rewrite !splice_get; rewrite ?splice_len, ?E; try lia.
  by destruct (Z.leb_spec offset i), (Z.ltb_spec i (offset + arr_len x)).
Qed.

(** Lengths of spliced memory. *)
Ltac len_solve :=
  repeat match goal with |- context [arr_len [?b]] => change (arr_len [b]) with 1 end;
  repeat (rewrite splice_len; [|len_solve|len_solve]); lia || done.

(** The three stores of a copy of at most three bytes. *)
Lemma copy_tiny m offset from :
  0 < arr_len from < 4 -> 0 <= offset -> offset + arr_len from <= arr_len m ->
  mal_text_buffer_copy_bytes m offset from = mem_write m offset from.
Proof.
  intros Hs Ho Hl. rewrite (mem_write_eq m offset from) by done.
  destruct from as [|x [|y [|z [|]]]]; try (unfold arr_len in Hs; cbn in Hs; lia).
  - change (mal_text_buffer_copy_bytes m offset [x]) with
      (m ← mem_write m offset [x]; m ← mem_write m (offset + 0) [x]; mem_write m (offset + 0) [x]).
    rewrite Z.add_0_r. change (arr_len [x]) with 1 in Hl.
    repeat (rewrite mem_write_eq; [cbn [mbind outcome_bind]|len_solve|len_solve]).
    by rewrite !splice_same by len_solve.
  - change (mal_text_buffer_copy_bytes m offset [x; y]) with
      (m ← mem_write m offset [x]; m ← mem_write m (offset + 1) [y]; mem_write m (offset + 1) [y]).
    change (arr_len [x; y]) with 2 in Hl.
    repeat (rewrite mem_write_eq; [cbn [mbind outcome_bind]|len_solve|len_solve]).
    rewrite splice_same by len_solve. f_equal. apply (splice_app m offset [x] [y]); len_solve.
  - change (mal_text_buffer_copy_bytes m offset [x; y; z]) with
      (m ← mem_write m offset [x]; m ← mem_write m (offset + 1) [y]; mem_write m (offset + 2) [z]).
    change (arr_len [x; y; z]) with 3 in Hl.
    repeat (rewrite mem_write_eq; [cbn [mbind outcome_bind]|len_solve|len_solve]).
    pose proof (splice_app m offset [x] [y]) as E2. change (arr_len [x]) with 1 in E2. rewrite E2 by len_solve. f_equal.
    apply (splice_app m offset [x; y] [z]); [lia|]. change (arr_len [x; y]) with 2. len_solve.
Qed.

Lemma copy_bytes_ok m offset from :
  0 <= offset -> offset + arr_len from <= arr_len m ->
  mal_text_buffer_copy_bytes m offset from = Ret (splice m offset from).
Proof.
  intros Ho Hl. rewrite <- mem_write_eq by done. pose proof (arr_len_nonneg from).
  destruct (decide (0 < arr_len from < 4)) as [Hs|Hs]; [by apply copy_tiny|].
  unfold mal_text_buffer_copy_bytes. destruct (Z.ltb_spec 16 (arr_len from)); [done|].
  destruct (Z.leb_spec 8 (arr_len from)); [apply copy_two; lia|].
  destruct (Z.leb_spec 4 (arr_len from)); [apply copy_two; lia|].
  destruct (Z.eqb_spec (arr_len from) 0) as [E|]; [|lia]. cbn [negb].
  rewrite mem_write_eq by lia. f_equal.
  destruct from; [|unfold arr_len in E; cbn in E; lia]. unfold splice, arr_len. cbn. rewrite Z.add_0_r. by rewrite take_drop.
Qed.

(** * Encodings *)

Lemma unit_bytes_len utf16 us : arr_len (unit_bytes utf16 us) = arr_len us * unit_width utf16.
Proof.
  destruct utf16; cbn [unit_bytes unit_width]; [rewrite c16_bytes_len; lia|]. unfold arr_len. rewrite length_map. lia.
Qed.
Lemma unit_bytes_app utf16 us vs : unit_bytes utf16 (us ++ vs) = unit_bytes utf16 us ++ unit_bytes utf16 vs.
Proof.
  destruct utf16; cbn [unit_bytes]; [|apply map_app]. unfold c16_bytes. by rewrite map_app, concat_app.
Qed.
Lemma unit_bytes_take utf16 us n :
  0 <= n <= arr_len us -> unit_bytes utf16 (take (Z.to_nat n) us) = take (Z.to_nat (n * unit_width utf16)) (unit_bytes utf16 us).
Proof.
  intros Hn. rewrite <- (take_drop (Z.to_nat n) us) at 2. rewrite unit_bytes_app.
  pose proof (unit_bytes_len utf16 (take (Z.to_nat n) us)) as El. unfold arr_len in *. rewrite length_take in El.
  assert (unit_width utf16 = 1 \/ unit_width utf16 = 2) as Hw by (destruct utf16; cbn; lia).
  rewrite take_app_le by (destruct Hw as [E|E]; rewrite E in *; lia). symmetry. apply take_ge.
  destruct Hw as [E|E]; rewrite E in *; lia.
Qed.
Lemma c16_get us j : 0 <= j < arr_len us ->
  arr_get (c16_bytes us) (2 * j) = u8 (arr_get us j) /\ arr_get (c16_bytes us) (2 * j + 1) = u8 (Z.shiftr (arr_get us j) 8).
Proof.
  unfold arr_len. revert j. induction us as [|u us IH]; intros j Hj; cbn [length] in Hj; [lia|].
  change (c16_bytes (u :: us)) with ([u8 u; u8 (Z.shiftr u 8)] ++ c16_bytes us). destruct (decide (j = 0)) as [->|]; [done|].
  destruct (IH (j - 1) ltac:(lia)) as [E1 E2].
  assert (forall (v : Z) l i, 0 < i -> arr_get (v :: l) i = arr_get l (i - 1)) as Ec.
  { intros v l i Hi. unfold arr_get. rewrite !list_lookup_total_alt. replace (Z.to_nat i) with (S (Z.to_nat (i - 1))) by lia. done. }
  cbn [app]. rewrite !Ec by lia. rewrite <- E1, <- E2. split; f_equal; lia.
Qed.

(** * Widening in place *)

Lemma widen_loop_ok n : forall m,
  2 * Z.of_nat n <= arr_len m ->
  exists r, widen_loop n m = Ret r /\ arr_len r = arr_len m /\
    (forall j, 0 <= j < Z.of_nat n -> arr_get r (2 * j) = arr_get m j /\ arr_get r (2 * j + 1) = 0) /\
    (forall i, 2 * Z.of_nat n <= i < arr_len m -> arr_get r i = arr_get m i).
Proof.
  induction n as [|n IH]; intros m Hm; cbn [widen_loop]; [exists m; split_and!; try done; intros; lia|].
  rewrite mem_get_eq by lia. cbn [mbind outcome_bind]. set (b := arr_get m (Z.of_nat n)).
  assert (arr_len [b; 0] = 2) as E2 by done. rewrite mem_write_eq by (rewrite ?E2; lia). cbn [mbind outcome_bind].
  assert (forall i, 0 <= i < arr_len m -> arr_get (splice m (2 * Z.of_nat n) [b; 0]) i
    = if (2 * Z.of_nat n <=? i) && (i <? 2 * Z.of_nat n + 2) then arr_get [b; 0] (i - 2 * Z.of_nat n) else arr_get m i) as Hg.
  { intros i Hi. rewrite splice_get by (rewrite ?E2; lia). by rewrite E2. }
  assert (arr_len (splice m (2 * Z.of_nat n) [b; 0]) = arr_len m) as El by (apply splice_len; rewrite ?E2; lia).
  destruct (IH (splice m (2 * Z.of_nat n) [b; 0])) as (r & Er & Elr & Hlow & Hhigh); [lia|].
  exists r. split; [done|]. split; [lia|]. split.
  - intros j Hj. destruct (decide (j = Z.of_nat n)) as [->|].
    + rewrite !Hhigh, !Hg by lia. destruct (Z.leb_spec (2 * Z.of_nat n) (2 * Z.of_nat n)), (Z.ltb_spec (2 * Z.of_nat n) (2 * Z.of_nat n + 2)),
        (Z.leb_spec (2 * Z.of_nat n) (2 * Z.of_nat n + 1)), (Z.ltb_spec (2 * Z.of_nat n + 1) (2 * Z.of_nat n + 2)); try lia. cbn [andb].
      replace (2 * Z.of_nat n - 2 * Z.of_nat n) with 0 by lia. replace (2 * Z.of_nat n + 1 - 2 * Z.of_nat n) with 1 by lia. done.
    + destruct (Hlow j ltac:(lia)) as [E1 ->]. rewrite E1, Hg by lia. split; [|done].
      destruct (Z.leb_spec (2 * Z.of_nat n) j); [lia|done].
  - intros i Hi. rewrite Hhigh, Hg by lia. destruct (Z.ltb_spec i (2 * Z.of_nat n + 2)); [lia|]. by rewrite andb_false_r.
Qed.

(** Latin-1 units widened are the same units in UTF-16. *)
Lemma widen_units m us :
  Forall (in_u 8) us -> take (length us) m = map u8 us -> 2 * arr_len us <= arr_len m ->
  exists r, widen_loop (length us) m = Ret r /\ arr_len r = arr_len m /\
    take (Z.to_nat (arr_len us * 2)) r = c16_bytes us.
Proof.
  intros Hu Ht Hm. unfold arr_len in Hm at 1. destruct (widen_loop_ok (length us) m Hm) as (r & Er & El & Hr & _).
  exists r. split; [done|]. split; [done|].
  apply arr_ext; [rewrite c16_bytes_len; unfold arr_len in *; rewrite length_take; lia|].
  assert (arr_len (take (Z.to_nat (arr_len us * 2)) r) = arr_len us * 2) as El2 by (unfold arr_len in *; rewrite length_take; lia).
  rewrite El2. intros i Hi. assert (arr_get (take (Z.to_nat (arr_len us * 2)) r) i = arr_get r i) as ->.
  { unfold arr_get. rewrite !list_lookup_total_alt, lookup_take_lt by lia. done. }
  set (j := i / 2). pose proof (Z.div_mod i 2 ltac:(lia)) as Hdm. pose proof (Z.mod_pos_bound i 2 ltac:(lia)) as Hmod. fold j in Hdm.
  assert (0 <= j < arr_len us) as Hj by lia. destruct (Hr j Hj) as [E1 E2]. destruct (c16_get us j Hj) as [G1 G2].
  assert (arr_get m j = u8 (arr_get us j)) as Em.
  { apply arr_get_of_lookup. rewrite <- (lookup_take_lt m (length us)) by (unfold arr_len in Hj; lia). rewrite Ht.
    rewrite list_lookup_fmap, (arr_get_lookup us j) by done. done. }
  assert (in_u 8 (arr_get us j)) as Hb.
  { rewrite Forall_forall in Hu. apply Hu. eapply list_elem_of_lookup_2, (arr_get_lookup us j). done. }
  assert (i mod 2 = 0 \/ i mod 2 = 1) as [E|E] by lia; rewrite E in Hdm; rewrite Hdm.
  - rewrite Z.add_0_r, E1, G1. done.
  - rewrite E2, G2. unfold in_u in Hb. rewrite Z.shiftr_div_pow2 by lia. rewrite Z.div_small by lia. done.
Qed.

(** * The invariant *)

Record buffer_ok (b : MalTextBuffer) (us : list Z) : Prop := {
  bo_length : tb_length b = arr_len us;
  bo_max : arr_len us <= MAL_STRING_MAX_CODE_UNITS;
  bo_capacity : 0 <= tb_capacity b <= MAL_STRING_MAX_CODE_UNITS;
  bo_units : Forall (in_u 16) us;
  bo_latin1 : tb_utf16 b = false -> Forall (in_u 8) us;
  bo_data :
    match tb_data b with
    | None => us = []
    | Some m => arr_len m = tb_capacity b * unit_width (tb_utf16 b) /\ arr_len us <= tb_capacity b /\
        take (Z.to_nat (arr_len us * unit_width (tb_utf16 b))) m = unit_bytes (tb_utf16 b) us /\ is_Some (tb_heap b)
    end;
}.

Lemma zero_buffer_ok : buffer_ok zero_buffer [].
Proof. split; cbn; try done. Qed.

(** Memory for [n] more units in the encoding. *)
Definition ready (b : MalTextBuffer) (us : list Z) (n : Z) : Prop :=
  is_Some (tb_data b) /\ arr_len us + n <= tb_capacity b.

(** Only the live units and the memory change. *)
Definition same_shape (b b' : MalTextBuffer) : Prop :=
  tb_heap b' = tb_heap b /\ tb_capacity b' = tb_capacity b /\ tb_status b' = tb_status b /\ tb_utf16 b' = tb_utf16 b /\
  tb_requests b' = tb_requests b.

Definition fits_encoding (b : MalTextBuffer) (l : list Z) : Prop :=
  Forall (in_u 16) l /\ (tb_utf16 b = false -> Forall (in_u 8) l).

(** Bytes written after the live ones extend the text. *)
Lemma extend_ok b us l m :
  buffer_ok b us -> fits_encoding b l -> tb_data b = Some m -> arr_len us + arr_len l <= tb_capacity b ->
  0 <= tb_length b * unit_width (tb_utf16 b) /\
  tb_length b * unit_width (tb_utf16 b) + arr_len (unit_bytes (tb_utf16 b) l) <= arr_len m /\
  buffer_ok (set_data (Some (splice m (tb_length b * unit_width (tb_utf16 b)) (unit_bytes (tb_utf16 b) l))) (tb_length b + arr_len l) b) (us ++ l).
Proof.
  intros [Hl Hmax Hc Hu H1 Hd] [Hl16 Hl8] Em Hroom. rewrite Em in Hd. destruct Hd as (Ha & Hcap & Ht & Hh).
  pose proof (arr_len_nonneg us). pose proof (arr_len_nonneg l). rewrite unit_bytes_len, Hl.
  assert (unit_width (tb_utf16 b) = 1 \/ unit_width (tb_utf16 b) = 2) as Hw by (destruct (tb_utf16 b); cbn; lia).
  assert (0 <= arr_len us * unit_width (tb_utf16 b)) by nia.
  assert (arr_len us * unit_width (tb_utf16 b) + arr_len l * unit_width (tb_utf16 b) <= arr_len m) as Hfit by (rewrite Ha; nia).
  split; [done|]. split; [done|]. split; cbn.
  - by rewrite arr_len_app.
  - rewrite arr_len_app. lia.
  - done.
  - by apply Forall_app.
  - intros E. apply Forall_app. split; [by apply H1|by apply Hl8].
  - rewrite splice_len by (rewrite ?unit_bytes_len; lia). rewrite arr_len_app. split_and!; [done|done| |done].
    rewrite unit_bytes_app, Z.mul_add_distr_r, <- (unit_bytes_len (tb_utf16 b) l).
    apply splice_prefix; [done|rewrite unit_bytes_len; lia|done].
Qed.

Lemma store_units_ok b us l :
  buffer_ok b us -> fits_encoding b l -> ready b us (arr_len l) ->
  exists b', store_units l b = Ret b' /\ buffer_ok b' (us ++ l) /\ same_shape b b'.
Proof.
  intros Hok Hf [[m Em] Hroom]. destruct (extend_ok b us l m Hok Hf Em Hroom) as (H1 & H2 & H3).
  unfold store_units. rewrite Em, mem_write_eq by done. cbn [mbind outcome_bind]. eexists. split; [done|]. split; [done|by repeat split].
Qed.

Lemma copy_in_ok b us l :
  buffer_ok b us -> fits_encoding b l -> ready b us (arr_len l) ->
  exists b', copy_in (unit_bytes (tb_utf16 b) l) (arr_len l) b = Ret (MAL_TEXT_BUFFER_OK, b') /\ buffer_ok b' (us ++ l) /\ same_shape b b'.
Proof.
  intros Hok Hf [[m Em] Hroom]. destruct (extend_ok b us l m Hok Hf Em Hroom) as (H1 & H2 & H3).
  unfold copy_in. rewrite Em, copy_bytes_ok by done. cbn [mbind outcome_bind]. eexists. split; [done|]. split; [done|by repeat split].
Qed.

(** A header that changes neither memory nor text. *)
Lemma buffer_ok_header b b' us :
  buffer_ok b us -> tb_length b' = tb_length b -> tb_data b' = tb_data b -> tb_utf16 b' = tb_utf16 b ->
  tb_capacity b' = tb_capacity b -> (is_Some (tb_heap b) -> is_Some (tb_heap b')) -> buffer_ok b' us.
Proof.
  intros [Hl Hmax Hc Hu H1 Hd] E1 E2 E3 E4 E5. split; rewrite ?E1, ?E2, ?E3, ?E4; try done.
  destruct (tb_data b); [|done]. destruct Hd as (? & ? & ? & ?). split_and!; try done. by apply E5.
Qed.

Lemma max_small : MAL_STRING_MAX_CODE_UNITS = 2147483647.
Proof. done. Qed.

Lemma arr_len_zero (l : list Z) : arr_len l = 0 -> l = [].
Proof. intros E. destruct l; [done|]. unfold arr_len in E. cbn [length] in E. lia. Qed.

(** * Growth *)

Section Grow.
Context (raw_alloc : Z -> Z -> option (list Z)) (current_heap : Z).
Hypothesis alloc_size : forall k n fresh, raw_alloc k n = Some fresh -> length fresh = Z.to_nat n.

Definition refused : Prop := exists k n, raw_alloc k n = None.

(** How a request for room ends. *)
Definition grown (b : MalTextBuffer) (us : list Z) (n : Z) (utf16 : bool) (st : MalTextBufferStatus) (b' : MalTextBuffer) : Prop :=
  buffer_ok b' us /\ tb_status b' = st /\
  match st with
  | MAL_TEXT_BUFFER_OK =>
      tb_status b = MAL_TEXT_BUFFER_OK /\ tb_utf16 b' = tb_utf16 b || utf16 /\ arr_len us + n <= MAL_STRING_MAX_CODE_UNITS /\
      (0 < n -> ready b' us n)
  | MAL_TEXT_BUFFER_LENGTH_OVERFLOW =>
      tb_status b = MAL_TEXT_BUFFER_LENGTH_OVERFLOW \/
      tb_status b = MAL_TEXT_BUFFER_OK /\ MAL_STRING_MAX_CODE_UNITS < arr_len us + n
  | MAL_TEXT_BUFFER_ALLOCATION_FAILURE =>
      tb_status b = MAL_TEXT_BUFFER_ALLOCATION_FAILURE \/ tb_status b = MAL_TEXT_BUFFER_OK /\ refused
  end.

Lemma realloc_prefix k old bytes m n :
  mal_heap_try_realloc_raw raw_alloc k old bytes = Some m -> arr_len (default [] old) <= bytes -> 0 <= n <= arr_len (default [] old) ->
  arr_len m = bytes /\ take (Z.to_nat n) m = take (Z.to_nat n) (default [] old).
Proof using alloc_size.
  unfold mal_heap_try_realloc_raw. destruct (raw_alloc k bytes) as [fresh|] eqn:Ef; [|done]. intros [= <-] Ho Hn.
  apply alloc_size in Ef. unfold arr_len in *. rewrite (take_ge (default [] old) (Z.to_nat bytes)) by lia. split.
  - rewrite length_app, length_drop. lia.
  - by rewrite take_app_le by lia.
Qed.

(** The new capacity covers the request and never shrinks. *)
Lemma new_capacity_ok capacity required :
  0 <= capacity <= MAL_STRING_MAX_CODE_UNITS -> 0 <= required <= MAL_STRING_MAX_CODE_UNITS ->
  exists c,
    (if capacity <? required then
       mal_checked_size_growth capacity required MAL_TEXT_BUFFER_INITIAL_CAPACITY MAL_STRING_MAX_CODE_UNITS
     else Ret (Some capacity)) = Ret (Some c) /\
    required <= c <= MAL_STRING_MAX_CODE_UNITS /\ capacity <= c.
Proof.
  rewrite max_small. intros Hc Hq. destruct (Z.ltb_spec capacity required) as [Hlt|Hge]; [|exists capacity; split; [done|lia]].
  destruct (checked_size_growth_spec capacity required MAL_TEXT_BUFFER_INITIAL_CAPACITY 2147483647) as (r & Er & Hr);
    try (unfold in_u, MAL_TEXT_BUFFER_INITIAL_CAPACITY in *; lia).
  rewrite Er. destruct r as [c|].
  - exists c. destruct Hr as (_ & Hr & Hs & _). split; [done|]. split; [lia|]. destruct (Z.eqb_spec capacity 0); lia.
  - exfalso. revert Hr. unfold MAL_TEXT_BUFFER_INITIAL_CAPACITY.
    destruct (Z.leb_spec required 2147483647), (Z.leb_spec capacity 2147483647); try lia.
    cbn [andb Z.leb]. change (16 <=? 2147483647) with true. cbn [andb].
    destruct (Z.eqb_spec capacity 0) as [E0|]; [done|]. destruct (Z.eqb_spec capacity 0); done.
Qed.

(** Reallocated memory holds the live units, widened when the encoding changes. *)
Lemma moved_units_ok b us utf16 c g k :
  buffer_ok b us -> arr_len us <= c -> tb_capacity b <= c ->
  mal_heap_try_realloc_raw raw_alloc k (tb_data b) (unit_width (utf16 || tb_utf16 b) * c) = Some g ->
  exists g', (if utf16 && negb (tb_utf16 b) then widen_loop (Z.to_nat (tb_length b)) g else Ret g) = Ret g' /\
    arr_len g' = unit_width (utf16 || tb_utf16 b) * c /\
    take (Z.to_nat (arr_len us * unit_width (tb_utf16 b || utf16))) g' = unit_bytes (tb_utf16 b || utf16) us.
Proof using alloc_size.
  intros [Hl _ _ _ H1 Hd] Hus Hcap Eg. pose proof (arr_len_nonneg us). set (bytes := unit_width (utf16 || tb_utf16 b) * c) in *.
  assert (arr_len (default [] (tb_data b)) <= bytes /\
    take (Z.to_nat (arr_len us * unit_width (tb_utf16 b))) (default [] (tb_data b)) = unit_bytes (tb_utf16 b) us /\
    arr_len us * unit_width (tb_utf16 b) <= arr_len (default [] (tb_data b))) as (Hsz & Hpre & Hpl).
  { destruct (tb_data b) as [m|]; cbn [from_option id].
    - destruct Hd as (Ha & Hc & Ht & _). rewrite Ha. subst bytes. split_and!; try done.
      + destruct utf16, (tb_utf16 b); cbn in *; lia.
      + destruct (tb_utf16 b); cbn in *; lia.
    - subst us. subst bytes. split_and!; [unfold arr_len in *; cbn in *; destruct (utf16 || tb_utf16 b); cbn; lia|by destruct (tb_utf16 b)|].
      by destruct (tb_utf16 b). }
  destruct (realloc_prefix _ _ _ _ (arr_len us * unit_width (tb_utf16 b)) Eg Hsz) as [Elg Etg].
  { split; [|done]. destruct (tb_utf16 b); cbn; lia. }
  rewrite Hpre in Etg. destruct utf16, (tb_utf16 b) eqn:Eu; cbn [andb negb orb]; try (by exists g).
  cbn [unit_width unit_bytes] in Etg. rewrite Hl. replace (Z.to_nat (arr_len us)) with (length us) by (unfold arr_len; lia).
  destruct (widen_units g us) as (r & Er & Elr & Etr); [by apply H1| | |].
  - rewrite <- Etg. f_equal. unfold arr_len. lia.
  - rewrite Elg. subst bytes. cbn [orb unit_width]. lia.
  - exists r. split; [done|]. split; [lia|done].
Qed.

(** [bytes == 0]: no units and no capacity, whatever the encoding. *)
Lemma no_bytes_ok b us utf16 :
  buffer_ok b us -> us = [] -> tb_capacity b = 0 ->
  buffer_ok (mkTextBuffer (tb_heap b) (tb_data b) (tb_length b) (tb_capacity b) (tb_status b) (tb_utf16 b || utf16) (tb_requests b)) us.
Proof.
  intros [Hl Hmax Hc Hu H1 Hd] -> E0. split; cbn; try done. destruct (tb_data b) as [m|]; [|done].
  destruct Hd as (Ha & _ & _ & Hh). rewrite E0 in *. split_and!; try done. by destruct (tb_utf16 b || utf16).
Qed.

Lemma buffer_grow_ok b us n utf16 :
  buffer_ok b us -> in_u 64 n ->
  exists st b', mal_text_buffer_grow raw_alloc current_heap b n utf16 = Ret (st, b') /\ grown b us n utf16 st b'.
Proof using alloc_size.
  intros Hok Hn. unfold in_u in Hn. pose proof Hok as [Hl Hmax Hc Hu H1 Hd]. pose proof (arr_len_nonneg us) as Hpos.
  unfold mal_text_buffer_grow, is_ok. case_bool_decide as Es; cbn [negb].
  2: { exists (tb_status b), b. split; [done|]. split; [done|]. split; [done|]. destruct (tb_status b); [done|by left|by left]. }
  rewrite checked_size_add_spec by (unfold in_u in *; rewrite ?max_small in *; lia).
  destruct (Z.leb_spec (tb_length b + n) MAL_STRING_MAX_CODE_UNITS) as [Hle|Hgt].
  2: { eexists _, _. split; [done|]. split; [by apply (buffer_ok_header b)|]. split; [done|]. right. split; [done|]. lia. }
  set (required := tb_length b + n) in *. set (promote := utf16 && negb (tb_utf16 b)).
  destruct ((required <=? tb_capacity b) && negb promote && _) eqn:Efast.
  { apply andb_true_iff in Efast as [Hf Hdc]. apply andb_true_iff in Hf as [Hrc Hnp]. apply Z.leb_le in Hrc.
    exists MAL_TEXT_BUFFER_OK, b. split; [done|]. split; [done|]. split; [done|]. split; [done|]. split_and!; [|lia|].
    - subst promote. by destruct utf16, (tb_utf16 b).
    - intros Hn0. destruct (tb_data b) as [m|] eqn:Ed; [split; [by rewrite Ed; eexists|subst required; lia]|].
      exfalso. apply Z.eqb_eq in Hdc. subst required. lia. }
  destruct (new_capacity_ok (tb_capacity b) required Hc ltac:(subst required; lia)) as (c & Ec & Hcr & Hcc).
  rewrite Ec. cbn [mbind outcome_bind].
  assert (unit_width (utf16 || tb_utf16 b) = 1 \/ unit_width (utf16 || tb_utf16 b) = 2) as Hw by (destruct (utf16 || tb_utf16 b); cbn; lia).
  rewrite max_small in *. rewrite checked_size_multiply_spec by (unfold in_u, SIZE_MAX; lia).
  destruct (Z.leb_spec (unit_width (utf16 || tb_utf16 b) * c) SIZE_MAX) as [_|Hbad]; [|unfold SIZE_MAX in Hbad; lia].
  destruct (Z.eqb_spec (unit_width (utf16 || tb_utf16 b) * c) 0) as [Hb0|Hb0].
  { assert (us = []) as Eus by (apply arr_len_zero; subst required; lia).
    eexists MAL_TEXT_BUFFER_OK, _. split; [done|]. split; [apply no_bytes_ok; [done|done|lia]|].
    split; [done|]. split; [done|]. split_and!; [done|rewrite max_small; subst required; lia|intros; exfalso; subst required; lia]. }
  set (b1 := mkTextBuffer _ _ _ _ _ _ (tb_requests b + 1)). cbn [tb_data b1].
  destruct (mal_heap_try_realloc_raw raw_alloc (tb_requests b) (tb_data b) _) as [g|] eqn:Eg.
  2: { eexists _, _. split; [done|]. split; [apply (buffer_ok_header b); try done; by eexists|]. split; [done|]. right. split; [done|].
    unfold mal_heap_try_realloc_raw in Eg. destruct (raw_alloc (tb_requests b) _) eqn:Ef in Eg; [done|]. by eexists _, _. }
  destruct (moved_units_ok b us utf16 c g _ Hok ltac:(subst required; lia) Hcc Eg) as (g' & Eg' & Elg' & Etg').
  change (tb_length b1) with (tb_length b). subst promote. rewrite Eg'. cbn [mbind outcome_bind]. eexists _, _. split; [done|].
  split; [|split; [done|split; [done|split_and!; [done|rewrite max_small; subst required; lia|]]]].
  - split; cbn [tb_length tb_capacity tb_utf16 tb_data tb_heap b1]; try done; [rewrite max_small; lia| |].
    + intros E. apply H1. by destruct (tb_utf16 b).
    + rewrite Elg'. split_and!; [rewrite (orb_comm utf16); lia|subst required; lia|done|by eexists].
  - intros _. split; [by eexists|]. cbn. subst required. lia.
Qed.
End Grow.

Section Ops.
Context (raw_alloc : Z -> Z -> option (list Z)) (current_heap : Z).
Hypothesis alloc_size : forall k n fresh, raw_alloc k n = Some fresh -> length fresh = Z.to_nat n.

(** How an append of [l] ends. *)
Definition appended (b : MalTextBuffer) (us l : list Z) (st : MalTextBufferStatus) (b' : MalTextBuffer) : Prop :=
  tb_status b' = st /\
  match st with
  | MAL_TEXT_BUFFER_OK => tb_status b = MAL_TEXT_BUFFER_OK /\ buffer_ok b' (us ++ l)
  | MAL_TEXT_BUFFER_LENGTH_OVERFLOW =>
      buffer_ok b' us /\
      (tb_status b = MAL_TEXT_BUFFER_LENGTH_OVERFLOW \/
       tb_status b = MAL_TEXT_BUFFER_OK /\ MAL_STRING_MAX_CODE_UNITS < arr_len us + arr_len l)
  | MAL_TEXT_BUFFER_ALLOCATION_FAILURE =>
      (tb_status b = MAL_TEXT_BUFFER_ALLOCATION_FAILURE /\ buffer_ok b' us) \/
      (tb_status b = MAL_TEXT_BUFFER_OK /\ refused raw_alloc /\ exists k, buffer_ok b' (us ++ take k l))
  end.

(** Nothing to append, or an error from before. *)
Lemma appended_same b us l : buffer_ok b us -> l = [] \/ tb_status b <> MAL_TEXT_BUFFER_OK -> appended b us l (tb_status b) b.
Proof.
  intros Hok Hl. split; [done|]. destruct (tb_status b) eqn:E; [|split; [done|by left]|by left].
  destruct Hl as [->|]; [|done]. by rewrite app_nil_r.
Qed.

Lemma appended_overflow b us l :
  buffer_ok b us -> tb_status b = MAL_TEXT_BUFFER_OK -> MAL_STRING_MAX_CODE_UNITS < arr_len us + arr_len l ->
  appended b us l MAL_TEXT_BUFFER_LENGTH_OVERFLOW (set_status MAL_TEXT_BUFFER_LENGTH_OVERFLOW b).
Proof. intros Hok Es Hl. split; [done|]. split; [by apply (buffer_ok_header b)|by right]. Qed.

(** [length == 0 || status != OK]. *)
Lemma guard_true n b : (n =? 0) || negb (is_ok b) = true -> n = 0 \/ tb_status b <> MAL_TEXT_BUFFER_OK.
Proof.
  intros E. apply orb_true_iff in E as [E|E]; [left; lia|right]. apply negb_true_iff in E. by apply bool_decide_eq_false in E.
Qed.
Lemma guard_false n b : (n =? 0) || negb (is_ok b) = false -> n <> 0 /\ tb_status b = MAL_TEXT_BUFFER_OK.
Proof. intros E. apply orb_false_iff in E as [E Es]. split; [lia|]. by apply negb_false_iff, bool_decide_eq_true in Es. Qed.
Lemma appended_guard b us l :
  buffer_ok b us -> (arr_len l =? 0) || negb (is_ok b) = true -> appended b us l (tb_status b) b.
Proof. intros Hok E. apply appended_same; [done|]. destruct (guard_true _ _ E) as [?|?]; [left; by apply arr_len_zero|by right]. Qed.

Lemma fits_ready b us n :
  buffer_ok b us -> mal_text_buffer_fits b n = true -> tb_status b = MAL_TEXT_BUFFER_OK /\ ready b us n.
Proof.
  intros [Hl _ Hc _ _ Hd] Hf. rewrite max_small in Hc. unfold mal_text_buffer_fits, is_ok in Hf.
  apply andb_true_iff in Hf as [Hf Hn]. apply andb_true_iff in Hf as [Hs Hm]. apply bool_decide_eq_true in Hs.
  split; [done|]. unfold ready. destruct (tb_data b) as [m|]; [|done]. destruct Hd as (_ & Hcap & _). split; [by eexists|].
  pose proof (arr_len_nonneg us). rewrite Hl in Hn. unfold u64 in Hn. rewrite wrap_small in Hn by (unfold in_u; lia). lia.
Qed.

Lemma prepare_ok b us n utf16 :
  buffer_ok b us -> in_u 64 n ->
  exists st b', mal_text_buffer_prepare raw_alloc current_heap b n utf16 = Ret (st, b') /\ grown raw_alloc b us n utf16 st b'.
Proof using alloc_size.
  intros Hok Hn. unfold mal_text_buffer_prepare. destruct (mal_text_buffer_fits b n && (negb utf16 || tb_utf16 b)) eqn:E; [|by apply buffer_grow_ok].
  apply andb_true_iff in E as [Hf He]. destruct (fits_ready b us n Hok Hf) as [Hs Hr].
  exists MAL_TEXT_BUFFER_OK, b. split; [done|]. split; [done|]. split; [done|]. split; [done|]. split_and!; [| |done].
  - by destruct utf16, (tb_utf16 b).
  - destruct Hr as [_ Hr]. pose proof (bo_capacity _ _ Hok). lia.
Qed.

Lemma store_if_ok_ok b us l utf16 st b1 :
  grown raw_alloc b us (arr_len l) utf16 st b1 -> 0 < arr_len l -> Forall (in_u 16) l ->
  (tb_utf16 b || utf16 = false -> Forall (in_u 8) l) ->
  exists st' b', store_if_ok l (st, b1) = Ret (st', b') /\ appended b us l st' b'.
Proof.
  intros (Hok & Es & Hst) Hl H16 H8. unfold store_if_ok. cbn [fst snd]. case_bool_decide as E.
  - subst st. rewrite E in Hst. destruct Hst as (Hb & Hu & _ & Hr).
    destruct (store_units_ok b1 us l Hok) as (b' & Eb & Hok' & Hsh); [split; [done|by rewrite Hu]|by apply Hr|].
    rewrite Eb. cbn [mbind outcome_bind]. exists MAL_TEXT_BUFFER_OK, b'. rewrite E. split; [done|].
    destruct Hsh as (_ & _ & Hs' & _). split; [congruence|done].
  - exists st, b1. split; [done|]. split; [done|]. destruct st; [done|split; [done|done]|].
    destruct Hst as [Hs|[Hs Href]]; [by left|right]. split; [done|]. split; [done|]. exists 0%nat. by rewrite take_0, app_nil_r.
Qed.

Definition ends_appended (r : outcome (MalTextBufferStatus * MalTextBuffer)) (b : MalTextBuffer) (us l : list Z) : Prop :=
  exists st b', r = Ret (st, b') /\ appended b us l st b'.

Lemma prepare_store_ok b us l utf16 :
  buffer_ok b us -> 0 < arr_len l -> in_u 64 (arr_len l) -> Forall (in_u 16) l ->
  (tb_utf16 b || utf16 = false -> Forall (in_u 8) l) ->
  ends_appended (r ← mal_text_buffer_prepare raw_alloc current_heap b (arr_len l) utf16; store_if_ok l r) b us l.
Proof using alloc_size.
  intros Hok Hl Hn H16 H8. destruct (prepare_ok b us (arr_len l) utf16 Hok Hn) as (st & b1 & E & Hg). rewrite E.
  by apply (store_if_ok_ok b us l utf16 st b1).
Qed.

(** The fast path. *)
Lemma fast_ok b us l r :
  buffer_ok b us -> mal_text_buffer_fits b (arr_len l) = true ->
  (exists b', r = Ret (MAL_TEXT_BUFFER_OK, b') /\ buffer_ok b' (us ++ l) /\ same_shape b b') -> ends_appended r b us l.
Proof.
  intros Hok Hf (b' & -> & Hok' & Hsh). destruct (fits_ready b us _ Hok Hf) as [Hs _].
  exists MAL_TEXT_BUFFER_OK, b'. split; [done|]. destruct Hsh as (_ & _ & Hs' & _). split; [congruence|done].
Qed.

Lemma push_ok b us u : buffer_ok b us -> in_u 16 u -> ends_appended (mal_text_buffer_push raw_alloc current_heap b u) b us [u].
Proof using alloc_size.
  intros Hok Hu. unfold mal_text_buffer_push. assert (arr_len [u] = 1) as E1 by done.
  assert (u <= 255 -> Forall (in_u 8) [u]) as H8 by (intros; apply Forall_singleton; unfold in_u in *; lia).
  assert (Forall (in_u 16) [u]) as H16 by by apply Forall_singleton.
  destruct (mal_text_buffer_fits b 1 && (tb_utf16 b || (u <=? 255))) eqn:E.
  - apply andb_true_iff in E as [Hf He].
    assert (fits_encoding b [u]) as Hfe.
    { split; [done|]. intros Eu. rewrite Eu in He. cbn in He. apply H8. lia. }
    apply (fast_ok b us [u]); try done. destruct (fits_ready b us 1 Hok Hf) as [_ Hr].
    destruct (store_units_ok b us [u] Hok Hfe Hr) as (b' & Eb & ? & ?). rewrite Eb. by exists b'.
  - apply (prepare_store_ok b us [u] (255 <? u)); [done|rewrite E1; lia|rewrite E1; unfold in_u; lia|done|].
    intros Eu. apply orb_false_iff in Eu as [_ Eu]. apply H8. lia.
Qed.

Lemma fit_latin1_units l : Forall (in_u 16) l -> mal_utf16_units_fit_latin1 l = true -> Forall (in_u 8) l.
Proof.
  intros H16 Hf. rewrite fit_latin1_exact in Hf by done. rewrite forallb_forall in Hf. rewrite Forall_forall in *.
  intros u Hu. specialize (H16 u Hu). apply list_elem_of_In in Hu. specialize (Hf u Hu). unfold in_u in *. lia.
Qed.

Lemma append_units_ok b us l :
  buffer_ok b us -> Forall (in_u 16) l -> in_u 64 (arr_len l) ->
  ends_appended (mal_text_buffer_append_units raw_alloc current_heap b l) b us l.
Proof using alloc_size.
  intros Hok H16 Hl. unfold mal_text_buffer_append_units. destruct (tb_utf16 b && mal_text_buffer_fits b (arr_len l)) eqn:E.
  - apply andb_true_iff in E as [Eu Hf]. assert (fits_encoding b l) as Hfe by (split; [done|congruence]).
    apply (fast_ok b us l); try done. destruct (fits_ready b us _ Hok Hf) as [_ Hr].
    destruct (copy_in_ok b us l Hok Hfe Hr) as (b' & Eb & ? & ?). rewrite Eu in Eb. by exists b'.
  - unfold mal_text_buffer_append_units_slow. pose proof (arr_len_nonneg l).
    destruct ((arr_len l =? 0) || negb (is_ok b)) eqn:E0.
    + exists (tb_status b), b. split; [done|]. by apply appended_guard.
    + destruct (guard_false _ _ E0) as [Hl0 Es].
      pose proof Hok as [El Hmax _ _ _ _]. pose proof (arr_len_nonneg us). rewrite El.
      unfold u64. rewrite wrap_small by (rewrite max_small in *; unfold in_u; lia).
      destruct (Z.ltb_spec (MAL_STRING_MAX_CODE_UNITS - arr_len us) (arr_len l)).
      * eexists _, _. split; [done|]. apply appended_overflow; [done|done|lia].
      * apply prepare_store_ok; try done; [lia|]. intros Hn. apply orb_false_iff in Hn as [_ Hn]. apply orb_false_iff in Hn as [_ Hn].
        apply fit_latin1_units; [done|]. by destruct (mal_utf16_units_fit_latin1 l).
Qed.

Lemma latin1_units l : Forall (in_u 8) l -> Forall (in_u 16) l.
Proof. intros H. eapply Forall_impl; [exact H|]. unfold in_u. cbn. intros; lia. Qed.
Lemma latin1_bytes l : Forall (in_u 8) l -> map u8 l = l.
Proof. induction 1 as [|u l Hu _ IH]; cbn; [done|]. rewrite IH. unfold u8. by rewrite wrap_small. Qed.

Lemma append_latin1_ok b us l :
  buffer_ok b us -> Forall (in_u 8) l -> in_u 64 (arr_len l) ->
  ends_appended (mal_text_buffer_append_latin1 raw_alloc current_heap b l) b us l.
Proof using alloc_size.
  intros Hok H8 Hl. pose proof (latin1_units l H8) as H16. unfold mal_text_buffer_append_latin1.
  destruct (negb (tb_utf16 b) && mal_text_buffer_fits b (arr_len l)) eqn:E.
  - apply andb_true_iff in E as [Eu Hf]. assert (fits_encoding b l) as Hfe by done.
    apply (fast_ok b us l); try done. destruct (fits_ready b us _ Hok Hf) as [_ Hr]. apply negb_true_iff in Eu.
    destruct (copy_in_ok b us l Hok Hfe Hr) as (b' & Eb & ? & ?). rewrite Eu in Eb. cbn [unit_bytes] in Eb.
    rewrite latin1_bytes in Eb by done. by exists b'.
  - unfold mal_text_buffer_append_latin1_slow. pose proof (arr_len_nonneg l). destruct (Z.eqb_spec (arr_len l) 0).
    + exists (tb_status b), b. split; [done|]. apply appended_same; [done|]. left. by apply arr_len_zero.
    + apply prepare_store_ok; try done; lia.
Qed.

(** * Strings *)

Lemma append_segment_ok b us seg l :
  buffer_ok b us -> seg_ok seg l -> in_u 64 (arr_len l) -> ends_appended (append_segment raw_alloc current_heap b seg) b us l.
Proof using alloc_size.
  intros Hok [Hlen Hu Hr H1] Hl. unfold append_segment. assert (mal_string_copy_segment_to seg = l) as -> by done.
  destruct (seg_latin1 seg); [apply append_latin1_ok; try done; by apply H1|by apply append_units_ok].
Qed.

Lemma segment_loop_ok fuel : forall it b us,
  it_ok it -> it_reverse it = false -> parts_total (it_stack it) <= MAL_STRING_MAX_CODE_UNITS ->
  (Z.to_nat (parts_total (it_stack it)) < fuel)%nat -> buffer_ok b us -> tb_status b = MAL_TEXT_BUFFER_OK ->
  arr_len us + arr_len (pending it) <= MAL_STRING_MAX_CODE_UNITS ->
  exists b', segment_loop raw_alloc current_heap fuel it b = Ret b' /\ appended b us (pending it) (tb_status b') b' /\
    tb_status b' <> MAL_TEXT_BUFFER_LENGTH_OVERFLOW.
Proof using alloc_size.
  induction fuel as [|fuel IH]; intros it b us Hit Hr Ht Hf Hok Hs Hmax; [lia|]. cbn [segment_loop].
  pose proof (iterator_next_ok it Hit Ht) as Hn. destruct (it_stack it) as [|p stack] eqn:Hst.
  - rewrite Hn. cbn [mbind outcome_bind]. exists b. split; [done|]. split; [|congruence]. apply appended_same; [done|]. left.
    unfold pending. by rewrite Hr, Hst.
  - destruct Hn as ([seg it'] & -> & l & Hseg & Hpos & Hit' & Hr' & Hp & Htot). cbn [mbind outcome_bind].
    pose proof (parts_count _ (io_parts _ Hit')) as Hc'. pose proof (arr_len_nonneg (it_stack it')).
    unfold glue in Hp. rewrite Hr in Hp. rewrite Hp, arr_len_app in Hmax. cbn [fst snd] in *.
    pose proof (arr_len_nonneg l). pose proof (arr_len_nonneg us). pose proof (arr_len_nonneg (pending it')). rewrite max_small in *.
    destruct (append_segment_ok b us seg l Hok Hseg ltac:(unfold in_u; lia)) as (st & b1 & E & Hs1 & Ha). rewrite E. cbn [mbind outcome_bind].
    case_bool_decide as Est.
    + subst st. rewrite Est in Ha. destruct Ha as [_ Hok1].
      destruct (IH it' b1 (us ++ l)) as (b' & Eb & (_ & Hb') & Hno); try done; try (rewrite ?arr_len_app, ?max_small; lia || congruence).
      exists b'. split; [done|]. split; [|done]. split; [done|]. rewrite Hp. destruct (tb_status b'); [|done|].
      * destruct Hb' as [_ Hb']. by rewrite <- app_assoc in Hb'.
      * destruct Hb' as [[Hx _]|(_ & Href & k & Hb')]; [congruence|]. right. split; [done|]. split; [done|].
        exists (length l + k)%nat. rewrite take_app_add. by rewrite app_assoc.
    + exists b1. split; [done|]. rewrite Hs1. destruct st; [done| |].
      * destruct Ha as [_ [Hx|[_ Hx]]]; [congruence|]. rewrite max_small in Hx. lia.
      * split; [|done]. split; [done|]. destruct Ha as [[Hx _]|(_ & Href & k & Hb')]; [congruence|]. right. split; [done|]. split; [done|].
        exists (Nat.min k (length l)). rewrite Hp, take_app_le by lia. rewrite <- (take_ge l (length l)) in Hb' by lia.
        by rewrite take_take in Hb'.
Qed.

Lemma hint_fresh_ok b us n :
  buffer_ok b us -> tb_data b = None -> tb_status b = MAL_TEXT_BUFFER_OK -> in_u 64 n ->
  exists b', mal_text_buffer_hint_capacity raw_alloc current_heap b n = Ret (tb_status b', b') /\ buffer_ok b' us /\
    tb_status b' = if arr_len us + n <=? MAL_STRING_MAX_CODE_UNITS then MAL_TEXT_BUFFER_OK else MAL_TEXT_BUFFER_LENGTH_OVERFLOW.
Proof.
  intros Hok Ed Es Hn. pose proof Hok as [Elen Hmax Hc ? ? Hd]. pose proof (arr_len_nonneg us). unfold in_u in Hn. rewrite max_small in *.
  unfold mal_text_buffer_hint_capacity, is_ok. rewrite Es, Ed.
  rewrite bool_decide_true by done. cbn [negb]. rewrite Elen, checked_size_add_spec by (rewrite ?max_small; unfold in_u; lia). rewrite max_small.
  destruct (Z.leb_spec (arr_len us + n) 2147483647).
  2: { exists (set_status MAL_TEXT_BUFFER_LENGTH_OVERFLOW b). split; [done|]. split; [by apply (buffer_ok_header b)|done]. }
  destruct (tb_capacity b <? arr_len us + n) eqn:Ec; [|exists b; split; [by rewrite Es|done]].
  eexists (set_capacity _ b). split; [cbn; by rewrite Es|]. split; [|done]. rewrite Ed in Hd.
  split; cbn; try done; [|by rewrite Ed]. rewrite max_small. unfold MAL_TEXT_BUFFER_INITIAL_CAPACITY.
  destruct (Z.ltb_spec (arr_len us + n) 16); lia.
Qed.

Lemma append_range_ok b us s offset n :
  buffer_ok b us -> wf_string s -> 0 <= offset -> 0 <= n -> offset + n <= mal_string_length s ->
  ends_appended (mal_text_buffer_append_range raw_alloc current_heap b s offset n) b us (slice (units s) offset n).
Proof using alloc_size.
  intros Hok Hw Ho Hn Hb. pose proof (wf_length s Hw) as Hl. pose proof (wf_length_range s Hw) as Hr.
  assert (arr_len (slice (units s) offset n) = n) as El by (apply slice_len; lia).
  unfold mal_text_buffer_append_range. pose proof Hok as [Elen Hmax _ _ _ _]. pose proof (arr_len_nonneg us).
  destruct ((n =? 0) || negb (is_ok b)) eqn:E0.
  { exists (tb_status b), b. split; [done|]. apply appended_guard; [done|by rewrite El]. }
  destruct (guard_false _ _ E0) as [Hn0 Es]. rewrite Elen.
  unfold u64. rewrite wrap_small by (rewrite max_small in *; unfold in_u; lia).
  destruct (Z.ltb_spec (MAL_STRING_MAX_CODE_UNITS - arr_len us) n).
  { eexists _, _. split; [done|]. apply appended_overflow; [done|done|lia]. }
  destruct (try_get_segment_ok s offset n Hw Ho Hn Hb) as (r & Er & Hseg). rewrite Er. cbn [mbind outcome_bind]. destruct r as [seg|].
  { apply append_segment_ok; try done. rewrite El. rewrite max_small in *. unfold in_u. lia. }
  unfold mal_text_buffer_append_segmented.
  assert (exists st1 b1, (match tb_data b with None => mal_text_buffer_hint_capacity raw_alloc current_heap b n | Some _ => Ret (tb_status b, b) end)
    = Ret (st1, b1) /\ buffer_ok b1 us /\ tb_status b1 = MAL_TEXT_BUFFER_OK) as (st1 & b1 & E1 & Hok1 & Hs1).
  { destruct (tb_data b) as [m|] eqn:Ed; [by eexists _, _|].
    destruct (hint_fresh_ok b us n Hok Ed Es) as (b1 & E1 & Hok1 & Hs1); [rewrite max_small in *; unfold in_u; lia|].
    exists (tb_status b1), b1. split; [done|]. split; [done|]. destruct (Z.leb_spec (arr_len us + n) MAL_STRING_MAX_CODE_UNITS); [done|lia]. }
  rewrite E1. cbn [mbind outcome_bind].
  destruct (iterator_init_ok s offset n Hw Ho Hn Hb) as (it & Ei & Hit & Hrev & Hp & Htot & Hpm). rewrite Ei. cbn [mbind outcome_bind].
  destruct (segment_loop_ok (S (Z.to_nat n)) it b1 us Hit Hrev Hpm) as (b' & Eb & (_ & Ha) & _); try done; [lia|rewrite Hp, El; lia|].
  rewrite Eb. cbn [mbind outcome_bind]. eexists _, _. split; [done|]. split; [done|]. rewrite Hp in Ha. rewrite Hs1 in Ha. by rewrite Es.
Qed.
End Ops.
