(* ===== verification/TextBufferTheorems.v ===== *)
(** Runs of text buffer operations: they return, memory is respected, and the text is
    the one a specification with a sticky status builds; a finished buffer hands over
    the memory of its text. *)

From S2P Require Import Prelude CheckedSize HeapString HeapStringSpec Utf UtfSpec BigIntText TextBuffer TextBufferSpec.

(** * Reading a buffer *)

(** The memory behind a pointer starts with the units. *)
Definition holds (utf16 : bool) (data : option (list Z)) (us : list Z) : Prop :=
  Forall (in_u 16) us /\ (utf16 = false -> Forall (in_u 8) us) /\
  match data with
  | None => us = []
  | Some m => take (Z.to_nat (arr_len us * unit_width utf16)) m = unit_bytes utf16 us
  end.

Lemma buffer_holds b us : buffer_ok b us -> holds (tb_utf16 b) (tb_data b) us.
Proof. intros [_ _ _ Hu H1 Hd]. split; [done|]. split; [done|]. destruct (tb_data b); [|done]. by destruct Hd as (_ & _ & ? & _). Qed.

Lemma c16_join u : in_u 16 u -> Z.lor (u8 u) (Z.shiftl (u8 (Z.shiftr u 8)) 8) = u.
Proof.
  unfold in_u, u8. intros Hu. pose proof (wrap_range 8 u ltac:(lia)). rewrite lor_shiftl_add by (done || lia).
  rewrite Z.shiftr_div_pow2 by lia. rewrite (wrap_small 8 (u / 2 ^ 8)).
  2: { split; [apply Z.div_pos; lia|apply Z.div_lt_upper_bound; lia]. }
  unfold wrap. pose proof (Z.div_mod u (2 ^ 8)). lia.
Qed.

Lemma buffer_unit_at_ok b us i :
  holds (tb_utf16 b) (tb_data b) us -> 0 <= i < arr_len us -> mal_text_buffer_code_unit_at b i = Ret (arr_get us i).
Proof.
  intros (Hu & H1 & Hd) Hi. unfold mal_text_buffer_code_unit_at.
  destruct (tb_data b) as [m|]; [|subst us; unfold arr_len in Hi; cbn in Hi; lia].
  pose proof (unit_bytes_len (tb_utf16 b) us) as Hb. rewrite <- Hd in Hb.
  assert (arr_len us * unit_width (tb_utf16 b) <= arr_len m) as Hm.
  { unfold arr_len in *. rewrite length_take in Hb. lia. }
  assert (forall j, 0 <= j < arr_len us * unit_width (tb_utf16 b) -> arr_get m j = arr_get (unit_bytes (tb_utf16 b) us) j) as Hg.
  { intros j Hj. rewrite <- (take_drop (Z.to_nat (arr_len us * unit_width (tb_utf16 b))) m), Hd.
    apply arr_get_app_l. rewrite unit_bytes_len. lia. }
  destruct (tb_utf16 b); cbn [unit_width unit_bytes] in *.
  - rewrite !mem_get_eq by lia. cbn [mbind outcome_bind]. rewrite !Hg by lia. destruct (c16_get us i Hi) as [-> ->].
    f_equal. apply c16_join. rewrite Forall_forall in Hu. apply Hu. eapply list_elem_of_lookup_2. by apply arr_get_lookup.
  - rewrite mem_get_eq, Hg by lia. by rewrite latin1_bytes by auto.
Qed.

Lemma read_units_ok b us : holds (tb_utf16 b) (tb_data b) us -> forall n i,
  0 <= i -> i + Z.of_nat n <= arr_len us -> read_units n i b = Ret (slice us i (Z.of_nat n)).
Proof.
  intros Hh. induction n as [|n IH]; intros i Hi Hn; cbn [read_units]; [done|].
  rewrite (buffer_unit_at_ok b us i Hh) by lia. cbn [mbind outcome_bind]. rewrite IH by lia. cbn [mbind outcome_bind]. f_equal.
  unfold slice, arr_len in *. rewrite !Nat2Z.id. rewrite (drop_S us (arr_get us i) (Z.to_nat i)) by (apply arr_get_lookup; unfold arr_len; lia).
  cbn [take firstn]. f_equal. f_equal. f_equal. lia.
Qed.

(** The text of a buffer. *)
Definition live (b : MalTextBuffer) : list Z :=
  match read_units (Z.to_nat (tb_length b)) 0 b with Ret us => us | _ => [] end.

Lemma read_all_ok b us :
  holds (tb_utf16 b) (tb_data b) us -> read_units (Z.to_nat (arr_len us)) 0 b = Ret us.
Proof.
  intros Hh. pose proof (arr_len_nonneg us). rewrite (read_units_ok b us Hh) by lia. f_equal.
  unfold slice, arr_len. rewrite drop_0. apply take_ge. lia.
Qed.
Lemma live_ok b us : buffer_ok b us -> live b = us.
Proof. intros Hok. unfold live. by rewrite (bo_length _ _ Hok), (read_all_ok b us (buffer_holds b us Hok)). Qed.

(** * Decimal text *)

Fixpoint decimal (fuel : nat) (n : Z) : list Z :=
  match fuel with
  | O => []
  | S fuel => (if n / 10 =? 0 then [] else decimal fuel (n / 10)) ++ [48 + n mod 10]
  end.
(** The decimal text of a 32-bit integer. *)
Definition i32_text (v : Z) : list Z := (if v <? 0 then [45] else []) ++ decimal 10 (Z.abs v).

Lemma decimal_step n : 0 <= n -> 0 <= n / 10 /\ n = 10 * (n / 10) + n mod 10 /\ 0 <= n mod 10 < 10.
Proof.
  intros Hn. pose proof (Z.div_mod n 10 ltac:(lia)). pose proof (Z.mod_pos_bound n 10 ltac:(lia)).
  pose proof (Z.div_pos n 10 Hn ltac:(lia)). lia.
Qed.
Lemma pow10_S fuel : 10 ^ Z.of_nat (S fuel) = 10 * 10 ^ Z.of_nat fuel.
Proof. rewrite Nat2Z.inj_succ, Z.pow_succ_r by lia. lia. Qed.

(** Digits, of the value, without a leading zero, as many as the bound allows. *)
Lemma decimal_ok fuel : forall n, 0 <= n < 10 ^ Z.of_nat fuel -> (0 < fuel)%nat ->
  dval (decimal fuel n) = n /\ Forall is_digit (decimal fuel n) /\ arr_len (decimal fuel n) <= Z.of_nat fuel /\
  (0 < n -> exists d rest, decimal fuel n = d :: rest /\ d <> 48).
Proof.
  induction fuel as [|fuel IH]; intros n Hn Hf; [lia|]. rewrite pow10_S in Hn. cbn [decimal].
  destruct (decimal_step n) as (Hd & Hdm & Hm); [lia|]. destruct (Z.eqb_spec (n / 10) 0) as [E|E].
  - cbn [app]. change (dval [48 + n mod 10]) with (48 + n mod 10 - 48). split_and!.
    + lia.
    + apply Forall_singleton. unfold is_digit. lia.
    + unfold arr_len. cbn [length]. lia.
    + intros Hpos. eexists _, _. split; [done|]. lia.
  - assert (0 < fuel)%nat as Hf'. { destruct fuel; [|lia]. cbn in Hn. lia. }
    destruct (IH (n / 10)) as (Hv & Hds & Hl & Hz); [lia|done|]. rewrite dval_app, Hv, arr_len_app.
    change (dval [48 + n mod 10]) with (48 + n mod 10 - 48). change (arr_len [48 + n mod 10]) with 1. split_and!.
    + lia.
    + apply Forall_app. split; [done|]. apply Forall_singleton. unfold is_digit. lia.
    + lia.
    + intros _. destruct Hz as (d & rest & -> & Hne); [lia|]. by eexists _, _.
Qed.

Lemma i32_digits_ok fuel : forall n acc, 0 <= n < 10 ^ Z.of_nat fuel -> (0 < fuel)%nat ->
  i32_digits fuel n acc = Ret (decimal fuel n ++ acc).
Proof.
  induction fuel as [|fuel IH]; intros n acc Hn Hf; [lia|]. rewrite pow10_S in Hn. cbn [decimal i32_digits].
  destruct (decimal_step n) as (Hd & Hdm & Hm); [lia|]. unfold u8. rewrite !wrap_small by (unfold in_u; lia).
  destruct (Z.eqb_spec (n / 10) 0) as [E|E]; [done|].
  assert (0 < fuel)%nat as Hf'. { destruct fuel; [|lia]. cbn in Hn. lia. }
  rewrite IH by lia. by rewrite <- app_assoc.
Qed.

Lemma decimal_fuel n : 0 <= n < 10 ^ 10 -> decimal 11 n = decimal 10 n.
Proof.
  assert (forall fuel m, 0 <= m < 10 ^ Z.of_nat fuel -> (0 < fuel)%nat -> decimal (S fuel) m = decimal fuel m) as H.
  { induction fuel as [|fuel IH]; intros m Hm Hf; [lia|]. rewrite pow10_S in Hm. destruct (decimal_step m) as (Hd & Hdm & Hmm); [lia|].
    cbn [decimal]. destruct (Z.eqb_spec (m / 10) 0) as [|E]; [done|]. f_equal.
    destruct fuel as [|fuel]; [cbn in Hm; lia|]. apply IH; lia. }
  intros Hn. by apply H; [|lia].
Qed.

Lemma i32_text_ok v : in_i 32 v ->
  Forall (in_u 8) (i32_text v) /\ arr_len (i32_text v) <= 11.
Proof.
  unfold in_i. intros Hv. destruct (decimal_ok 10 (Z.abs v)) as (_ & Hd & Hl & _); [lia|lia|]. unfold i32_text. split.
  - apply Forall_app. split; [destruct (v <? 0); [apply Forall_singleton; unfold in_u; lia|done]|].
    eapply Forall_impl; [exact Hd|]. unfold is_digit, in_u. intros; lia.
  - rewrite arr_len_app. change (Z.of_nat 10) with 10 in Hl. destruct (v <? 0); unfold arr_len in *; cbn [length] in *; lia.
Qed.

(** * Operations *)

Inductive text_op : Type :=
| TPush (u : Z)
| TUnits (l : list Z)
| TLatin1 (l : list Z)
| TAscii (l : list Z)
| TRange (s : MalString) (offset length : Z)
| TString (s : MalString)
| TSelf
| TOther (source : MalTextBuffer)
| TI32 (v : Z)
| TReserve (n : Z)
| TReserve16 (n : Z)
| THint (n : Z)
| TTruncate (n : Z).

(** What a caller owes: units and bytes in range, strings that are well formed, ranges
    inside of them, a source buffer with its invariant. *)
Definition op_ok (op : text_op) : Prop :=
  match op with
  | TPush u => in_u 16 u
  | TUnits l => Forall (in_u 16) l /\ in_u 64 (arr_len l)
  | TLatin1 l | TAscii l => Forall (in_u 8) l /\ in_u 64 (arr_len l)
  | TRange s offset n => wf_string s /\ 0 <= offset /\ 0 <= n /\ offset + n <= mal_string_length s
  | TString s => wf_string s
  | TSelf => True
  | TOther source => exists us, buffer_ok source us
  | TI32 v => in_i 32 v
  | TReserve n | TReserve16 n | THint n => in_u 64 n
  | TTruncate n => 0 <= n
  end.

(** The text an operation adds to [us]. *)
Definition adds (us : list Z) (op : text_op) : list Z :=
  match op with
  | TPush u => [u]
  | TUnits l | TLatin1 l | TAscii l => l
  | TRange s offset n => slice (units s) offset n
  | TString s => units s
  | TSelf => us
  | TOther source => live source
  | TI32 v => i32_text v
  | TReserve _ | TReserve16 _ | THint _ | TTruncate _ => []
  end.
(** The room it asks for. *)
Definition room (us : list Z) (op : text_op) : Z :=
  match op with
  | TReserve n | TReserve16 n | THint n => n
  | _ => arr_len (adds us op)
  end.
Definition source_status (op : text_op) : MalTextBufferStatus :=
  match op with TOther source => tb_status source | _ => MAL_TEXT_BUFFER_OK end.

(** * The specification *)

(** Appends and reservations. Nothing happens after a failure; an operation adds its
    text, passes the limit, or is refused memory part of the way. *)
Inductive text_step (refused : Prop) (us : list Z) (op : text_op) : MalTextBufferStatus -> list Z -> MalTextBufferStatus -> Prop :=
| ts_failed st : st <> MAL_TEXT_BUFFER_OK -> text_step refused us op st us st
| ts_source : source_status op <> MAL_TEXT_BUFFER_OK -> text_step refused us op MAL_TEXT_BUFFER_OK us (source_status op)
| ts_done :
    source_status op = MAL_TEXT_BUFFER_OK -> arr_len us + room us op <= MAL_STRING_MAX_CODE_UNITS ->
    text_step refused us op MAL_TEXT_BUFFER_OK (us ++ adds us op) MAL_TEXT_BUFFER_OK
| ts_overflow :
    source_status op = MAL_TEXT_BUFFER_OK -> MAL_STRING_MAX_CODE_UNITS < arr_len us + room us op ->
    text_step refused us op MAL_TEXT_BUFFER_OK us MAL_TEXT_BUFFER_LENGTH_OVERFLOW
| ts_refused k :
    source_status op = MAL_TEXT_BUFFER_OK -> refused ->
    text_step refused us op MAL_TEXT_BUFFER_OK (us ++ take k (adds us op)) MAL_TEXT_BUFFER_ALLOCATION_FAILURE.

Definition is_truncate (op : text_op) : bool := match op with TTruncate _ => true | _ => false end.

(** Runs. Truncation works after a failure too, and aborts past the length. *)
Inductive text_steps (refused : Prop) : list Z -> MalTextBufferStatus -> list text_op -> option (list Z * MalTextBufferStatus) -> Prop :=
| tss_nil us st : text_steps refused us st [] (Some (us, st))
| tss_op us st op us1 st1 ops r :
    is_truncate op = false -> text_step refused us op st us1 st1 -> text_steps refused us1 st1 ops r ->
    text_steps refused us st (op :: ops) r
| tss_truncate us st n ops r :
    n <= arr_len us -> text_steps refused (take (Z.to_nat n) us) st ops r -> text_steps refused us st (TTruncate n :: ops) r
| tss_past us st n ops : arr_len us < n -> text_steps refused us st (TTruncate n :: ops) None.

(** * The operations meet it *)

Section Run.
Context (raw_alloc : Z -> Z -> option (list Z)) (current_heap : Z).

Definition text_apply (op : text_op) (b : MalTextBuffer) : outcome (MalTextBufferStatus * MalTextBuffer) :=
  match op with
  | TPush u => mal_text_buffer_push raw_alloc current_heap b u
  | TUnits l => mal_text_buffer_append_units raw_alloc current_heap b l
  | TLatin1 l => mal_text_buffer_append_latin1 raw_alloc current_heap b l
  | TAscii l => mal_text_buffer_append_ascii raw_alloc current_heap b l
  | TRange s offset n => mal_text_buffer_append_range raw_alloc current_heap b s offset n
  | TString s => mal_text_buffer_append_string raw_alloc current_heap b s
  | TSelf => mal_text_buffer_append_buffer raw_alloc current_heap b None
  | TOther source => mal_text_buffer_append_buffer raw_alloc current_heap b (Some source)
  | TI32 v => mal_text_buffer_append_i32 raw_alloc current_heap b v
  | TReserve n => mal_text_buffer_reserve raw_alloc current_heap b n
  | TReserve16 n => mal_text_buffer_reserve_utf16 raw_alloc current_heap b n
  | THint n => mal_text_buffer_hint_capacity raw_alloc current_heap b n
  | TTruncate n => b ← mal_text_buffer_truncate b n; Ret (tb_status b, b)
  end.
Fixpoint text_run (ops : list text_op) (b : MalTextBuffer) : outcome MalTextBuffer :=
  match ops with
  | [] => Ret b
  | op :: ops => '(_, b) ← text_apply op b; text_run ops b
  end.

Hypothesis alloc_size : forall k n fresh, raw_alloc k n = Some fresh -> length fresh = Z.to_nat n.

(** An operation ends as the specification allows, and returns the status it leaves. *)
Definition steps_to (op : text_op) (b : MalTextBuffer) (us : list Z) : Prop :=
  exists b' us', text_apply op b = Ret (tb_status b', b') /\ buffer_ok b' us' /\
    text_step (refused raw_alloc) us op (tb_status b) us' (tb_status b').

Lemma appended_step op b us :
  source_status op = MAL_TEXT_BUFFER_OK -> room us op = arr_len (adds us op) ->
  ends_appended raw_alloc (text_apply op b) b us (adds us op) -> steps_to op b us.
Proof.
  intros Hs Hroom (st & b' & E & <- & Ha). unfold steps_to. rewrite E. exists b'. destruct (tb_status b') eqn:Es'.
  - destruct Ha as [-> Hok]. exists (us ++ adds us op). split; [done|]. split; [done|]. apply ts_done; [done|].
    rewrite Hroom, <- arr_len_app. apply (bo_max _ _ Hok).
  - destruct Ha as [Hok Hst]. exists us. split; [done|]. split; [done|]. destruct Hst as [->|[-> Hl]]; [by apply ts_failed|].
    apply ts_overflow; [done|lia].
  - destruct Ha as [[-> Hok]|(-> & Href & k & Hok)]; [exists us; split; [done|]; split; [done|]; by apply ts_failed|].
    exists (us ++ take k (adds us op)). split; [done|]. split; [done|]. by apply ts_refused.
Qed.

Lemma grown_step op b us n utf16 :
  buffer_ok b us -> in_u 64 n -> adds us op = [] -> room us op = n -> source_status op = MAL_TEXT_BUFFER_OK ->
  text_apply op b = mal_text_buffer_prepare raw_alloc current_heap b n utf16 -> steps_to op b us.
Proof using alloc_size.
  intros Hok Hn Ha Hr Hs E. destruct (prepare_ok raw_alloc current_heap alloc_size b us n utf16 Hok Hn) as (st & b' & E' & Hok' & Es & Hg).
  exists b', us. rewrite E, E', Es. split; [done|]. split; [done|]. rewrite <- (app_nil_r us) at 2. rewrite <- Ha.
  destruct st.
  - destruct Hg as (-> & _ & Hl & _). apply ts_done; [done|lia].
  - rewrite Ha, app_nil_r. destruct Hg as [->|[-> Hl]]; [by apply ts_failed|]. apply ts_overflow; [done|lia].
  - destruct Hg as [->|[-> Href]]; [rewrite Ha, app_nil_r; by apply ts_failed|]. rewrite Ha. change [] with (take 0 ([] : list Z)).
    rewrite <- Ha. by apply ts_refused.
Qed.

Lemma hint_step b us n : buffer_ok b us -> in_u 64 n -> steps_to (THint n) b us.
Proof using alloc_size.
  intros Hok Hn. destruct (decide (tb_status b = MAL_TEXT_BUFFER_OK)) as [Es|Es].
  - destruct (tb_data b) as [m|] eqn:Ed.
    + apply (grown_step (THint n) b us n false); try done. cbn [text_apply]. unfold mal_text_buffer_hint_capacity, is_ok.
      rewrite bool_decide_true by done. by rewrite Ed.
    + destruct (hint_fresh_ok raw_alloc current_heap b us n Hok Ed Es Hn) as (b' & E & Hok' & Hs).
      exists b', us. split; [done|]. split; [done|]. rewrite Es, Hs.
      destruct (Z.leb_spec (arr_len us + n) MAL_STRING_MAX_CODE_UNITS); [|by apply ts_overflow].
      rewrite <- (app_nil_r us) at 2. by apply (ts_done _ us (THint n)).
  - exists b, us. split; [|split; [done|by apply ts_failed]]. cbn [text_apply]. unfold mal_text_buffer_hint_capacity, is_ok.
    by rewrite bool_decide_false.
Qed.

(** Appending a buffer to itself copies its first half. *)
Lemma self_step b us : buffer_ok b us -> steps_to TSelf b us.
Proof using alloc_size.
  intros Hok. pose proof Hok as [Hl Hmax _ H16 _ _]. pose proof (arr_len_nonneg us) as Hp. rewrite max_small in Hmax.
  apply (appended_step TSelf b us); try done. cbn [adds text_apply mal_text_buffer_append_buffer]. unfold append_self. rewrite Hl.
  destruct (Z.eqb_spec (arr_len us) 0) as [E0|E0].
  { exists (tb_status b), b. split; [done|]. apply appended_same; [done|]. left. by apply arr_len_zero. }
  destruct (prepare_ok raw_alloc current_heap alloc_size b us (arr_len us) false Hok) as (st & b1 & E & Hok1 & Es & Hg); [unfold in_u; lia|].
  unfold mal_text_buffer_reserve. rewrite E. cbn [mbind outcome_bind]. case_bool_decide as Est; cbn [negb].
  2: { exists (tb_status b1), b1. split; [done|]. split; [done|]. rewrite Es. destruct st; [done|done|].
    destruct Hg as [->|[-> Href]]; [by left|right]. split; [done|]. split; [done|]. exists 0%nat. by rewrite take_0, app_nil_r. }
  subst st. rewrite Est in Hg. destruct Hg as (Hs & Hu & Hlim & Hr). destruct Hr as [[m Em] Hroom]; [lia|].
  destruct (extend_ok b1 us us m Hok1) as (Hx & Hy & Hok2); [split; [done|apply (bo_latin1 _ _ Hok1)]|done|lia|].
  pose proof (bo_data _ _ Hok1) as Hd1. pose proof (bo_length _ _ Hok1) as Hl1. rewrite Em in *. destruct Hd1 as (_ & _ & Ht & _).
  rewrite Hl1, unit_bytes_len in *. set (w := unit_width (tb_utf16 b1)) in *.
  assert (u64 (arr_len us * w) = arr_len us * w) as ->.
  { apply wrap_small. unfold in_u. subst w. destruct (tb_utf16 b1); cbn [unit_width]; lia. }
  rewrite mem_read_eq by lia. cbn [mbind outcome_bind]. unfold slice. rewrite drop_0, Ht.
  rewrite mem_write_eq by (rewrite ?unit_bytes_len; lia). cbn [mbind outcome_bind].
  eexists MAL_TEXT_BUFFER_OK, _. split; [done|]. split; [done|]. split; [done|]. done.
Qed.

Lemma other_step b us source : buffer_ok b us -> op_ok (TOther source) -> steps_to (TOther source) b us.
Proof using alloc_size.
  intros Hok [src Hsrc]. destruct (decide (tb_status source = MAL_TEXT_BUFFER_OK)) as [Es|Es].
  - apply (appended_step (TOther source) b us); try done. cbn [adds text_apply mal_text_buffer_append_buffer].
    unfold append_other, is_ok. rewrite bool_decide_true by done. cbn [negb]. rewrite (live_ok _ _ Hsrc).
    rewrite (bo_length _ _ Hsrc), (read_all_ok _ _ (buffer_holds _ _ Hsrc)). cbn [mbind outcome_bind].
    pose proof (bo_max _ _ Hsrc) as Hm. pose proof (arr_len_nonneg src). rewrite max_small in Hm.
    destruct (tb_utf16 source) eqn:Eu; [apply append_units_ok|apply append_latin1_ok]; try done; try (unfold in_u; lia).
    + apply (bo_units _ _ Hsrc).
    + by apply (bo_latin1 _ _ Hsrc).
  - unfold steps_to. cbn [text_apply mal_text_buffer_append_buffer]. unfold append_other, is_ok. rewrite bool_decide_false by done. cbn [negb].
    case_bool_decide as Eb.
    + exists (set_status (tb_status source) b), us. split; [done|]. split; [by apply (buffer_ok_header b)|]. rewrite Eb.
      by apply (ts_source _ us (TOther source)).
    + exists b, us. split; [done|]. split; [done|]. by apply ts_failed.
Qed.

Lemma i32_step b us v : buffer_ok b us -> in_i 32 v -> steps_to (TI32 v) b us.
Proof using alloc_size.
  intros Hok Hv. destruct (i32_text_ok v Hv) as [H8 Hlen]. pose proof (arr_len_nonneg (i32_text v)).
  apply (appended_step (TI32 v) b us); try done. cbn [adds text_apply]. unfold in_i in Hv.
  unfold mal_text_buffer_append_i32.
  assert ((if v <? 0 then u32 (- v) else u32 v) = Z.abs v) as ->.
  { unfold u32. destruct (Z.ltb_spec v 0); rewrite wrap_small by (unfold in_u; lia); lia. }
  rewrite i32_digits_ok by lia. cbn [mbind outcome_bind]. rewrite app_nil_r, decimal_fuel by lia.
  assert ((if v <? 0 then 45 :: decimal 10 (Z.abs v) else decimal 10 (Z.abs v)) = i32_text v) as ->.
  { unfold i32_text. by destruct (v <? 0). }
  apply append_latin1_ok; try done. unfold in_u. lia.
Qed.

Lemma slice_all (l : list Z) : slice l 0 (arr_len l) = l.
Proof. unfold slice, arr_len. rewrite drop_0, Nat2Z.id. apply take_ge. lia. Qed.

(** Every operation but truncation. *)
Lemma apply_ok op b us : buffer_ok b us -> op_ok op -> is_truncate op = false -> steps_to op b us.
Proof using alloc_size.
  intros Hok Hop Ht. destruct op as [u|l|l|l|s o n|s| |source|v|n|n|n|n]; cbn [op_ok] in Hop; try done.
  - apply (appended_step (TPush u) b us); try done. by apply push_ok.
  - destruct Hop. apply (appended_step (TUnits l) b us); try done. by apply append_units_ok.
  - destruct Hop. apply (appended_step (TLatin1 l) b us); try done. by apply append_latin1_ok.
  - destruct Hop. apply (appended_step (TAscii l) b us); try done. by apply append_latin1_ok.
  - destruct Hop as (? & ? & ? & ?). apply (appended_step (TRange s o n) b us); try done. by apply append_range_ok.
  - apply (appended_step (TString s) b us); try done. cbn [adds].
    pose proof (wf_length s Hop) as Hl. rewrite <- (slice_all (units s)). rewrite Hl.
    apply append_range_ok; try done; pose proof (arr_len_nonneg (units s)); lia.
  - by apply self_step.
  - by apply other_step.
  - by apply i32_step.
  - by apply (grown_step (TReserve n) b us n false).
  - by apply (grown_step (TReserve16 n) b us n true).
  - by apply hint_step.
Qed.

Lemma truncate_ok b us n :
  buffer_ok b us -> 0 <= n ->
  if n <=? arr_len us then
    exists b', mal_text_buffer_truncate b n = Ret b' /\ buffer_ok b' (take (Z.to_nat n) us) /\ tb_status b' = tb_status b
  else mal_text_buffer_truncate b n = Abort.
Proof.
  intros [Hl Hmax Hc Hu H1 Hd] Hn. unfold mal_text_buffer_truncate. rewrite Hl.
  destruct (Z.leb_spec n (arr_len us)), (Z.ltb_spec (arr_len us) n); try lia; [|done].
  eexists. split; [done|]. split; [|done].
  assert (arr_len (take (Z.to_nat n) us) = n) as En by (unfold arr_len in *; rewrite length_take; lia).
  split; cbn; rewrite ?En; try done; [lia|by apply Forall_take|intros; apply Forall_take; auto|].
  destruct (tb_data b) as [m|]; [|subst us; by rewrite take_nil]. destruct Hd as (Ha & Hcap & Ht & Hh). split_and!; try done; [lia|].
  rewrite unit_bytes_take by lia. rewrite <- Ht, take_take. f_equal.
  assert (unit_width (tb_utf16 b) = 1 \/ unit_width (tb_utf16 b) = 2) as Hw by (destruct (tb_utf16 b); cbn; lia). nia.
Qed.

Lemma text_run_ok ops : forall b us, buffer_ok b us -> Forall op_ok ops ->
  exists r, text_steps (refused raw_alloc) us (tb_status b) ops r /\
    match r with
    | Some (us', st') => exists b', text_run ops b = Ret b' /\ buffer_ok b' us' /\ tb_status b' = st'
    | None => text_run ops b = Abort
    end.
Proof using alloc_size.
  induction ops as [|op ops IH]; intros b us Hok Hops; cbn [text_run].
  - exists (Some (us, tb_status b)). split; [constructor|]. by exists b.
  - apply Forall_cons in Hops as [Hop Hops]. destruct (is_truncate op) eqn:Et.
    + destruct op as [| | | | | | | | | | | |n]; try done. cbn [text_apply]. pose proof (truncate_ok b us n Hok Hop) as Ht.
      destruct (Z.leb_spec n (arr_len us)) as [Hle|Hgt].
      * destruct Ht as (b' & -> & Hok' & Es). cbn [mbind outcome_bind]. destruct (IH b' _ Hok' Hops) as (r & Hr & Hm). exists r.
        split; [|done]. apply tss_truncate; [done|]. by rewrite <- Es.
      * rewrite Ht. exists None. split; [by apply tss_past|done].
    + destruct (apply_ok op b us Hok Hop Et) as (b' & us' & E & Hok' & Hs). rewrite E. cbn [mbind outcome_bind].
      destruct (IH b' us' Hok' Hops) as (r & Hr & Hm). exists r. split; [|done]. by apply (tss_op _ us _ op us' (tb_status b')).
Qed.
End Run.

(** * Finishing *)

(** The text of the memory handed to the string constructor. *)
Definition new_string_text (s : NewString) : outcome (list Z) :=
  let '(utf16, data, length) := s in
  read_units (Z.to_nat length) 0 (mkTextBuffer None data length length MAL_TEXT_BUFFER_OK utf16 0).

Lemma finish_ok raw_alloc heap b us :
  (forall k n fresh, raw_alloc k n = Some fresh -> length fresh = Z.to_nat n) -> buffer_ok b us ->
  tb_status b = MAL_TEXT_BUFFER_OK -> tb_heap b = None \/ tb_heap b = Some heap ->
  exists data, mal_text_buffer_finish raw_alloc heap b = Ret (Some (tb_utf16 b, data, arr_len us), zero_buffer) /\
    new_string_text (tb_utf16 b, data, arr_len us) = Ret us.
Proof.
  intros Halloc Hok Es Hheap. pose proof Hok as [Hl Hmax _ H16 H8 Hd]. pose proof (arr_len_nonneg us). rewrite max_small in Hmax.
  unfold mal_text_buffer_finish, is_ok. rewrite bool_decide_true by done. cbn [negb].
  assert ((match tb_heap b with Some h => negb (h =? heap) | None => false end) = false) as ->.
  { destruct Hheap as [->| ->]; [done|]. by rewrite Z.eqb_refl. }
  assert (forall data, holds (tb_utf16 b) data us -> new_string_text (tb_utf16 b, data, arr_len us) = Ret us) as Hread.
  { intros data Hh. unfold new_string_text. by apply read_all_ok. }
  rewrite Hl.
  destruct (_ && _ && _) eqn:Etrim; [|eexists; split; [done|]; by apply Hread, buffer_holds].
  assert (u64 (arr_len us * unit_width (tb_utf16 b)) = arr_len us * unit_width (tb_utf16 b)) as ->.
  { apply wrap_small. unfold in_u. destruct (tb_utf16 b); cbn [unit_width]; lia. }
  destruct (raw_alloc (tb_requests b) _) as [trimmed|] eqn:Ea.
  2: { eexists. split; [done|]. by apply Hread, buffer_holds. }
  apply Halloc in Ea. destruct (tb_data b) as [m|] eqn:Em.
  2: { exfalso. subst us. apply andb_true_iff in Etrim as [Etrim _]. apply andb_true_iff in Etrim as [Etrim _]. 
    unfold arr_len in Etrim. by destruct (tb_utf16 b). }
  destruct Hd as (Ha & Hcap & Ht & _).
  assert (arr_len us * unit_width (tb_utf16 b) <= arr_len m /\ 0 <= arr_len us * unit_width (tb_utf16 b)) as [Hfit Hp].
  { rewrite Ha. destruct (tb_utf16 b); cbn [unit_width]; lia. }
  rewrite mem_read_eq by lia. cbn [mbind outcome_bind]. unfold slice. rewrite drop_0, Ht.
  assert (arr_len trimmed = arr_len us * unit_width (tb_utf16 b)) as Et by (unfold arr_len at 1; rewrite Ea; lia).
  rewrite mem_write_eq by (rewrite ?unit_bytes_len; lia). cbn [mbind outcome_bind]. eexists. split; [done|].
  apply Hread. split; [done|]. split; [done|]. rewrite <- (unit_bytes_len (tb_utf16 b) us).
  by apply (splice_prefix trimmed 0 _ []); [|rewrite unit_bytes_len; lia|rewrite take_0].
Qed.

(** * Claims *)

(** The text a run builds when nothing fails. *)
Fixpoint text_spec (us : list Z) (ops : list text_op) : option (list Z) :=
  match ops with
  | [] => Some us
  | TTruncate n :: ops => if n <=? arr_len us then text_spec (take (Z.to_nat n) us) ops else None
  | op :: ops =>
      if bool_decide (source_status op = MAL_TEXT_BUFFER_OK) && (arr_len us + room us op <=? MAL_STRING_MAX_CODE_UNITS)
      then text_spec (us ++ adds us op) ops else None
  end.

Lemma steps_spec refused us st ops r us' :
  text_steps refused us st ops r -> ~ refused -> st = MAL_TEXT_BUFFER_OK -> text_spec us ops = Some us' -> r = Some (us', st).
Proof.
  intros Hs Hno. induction Hs as [us st|us st op us1 st1 ops r Ht Hstep _ IH|us st n ops r Hn _ IH|us st n ops Hn]; intros Hst Hspec.
  - cbn in Hspec. by injection Hspec as ->.
  - assert (bool_decide (source_status op = MAL_TEXT_BUFFER_OK) && (arr_len us + room us op <=? MAL_STRING_MAX_CODE_UNITS) = true /\
      text_spec (us ++ adds us op) ops = Some us') as [Hc Hrest].
    { destruct op; try done; cbn [text_spec] in Hspec; destruct (_ && _); done. }
    apply andb_true_iff in Hc as [Hc1 Hc2]. apply bool_decide_eq_true in Hc1. apply Z.leb_le in Hc2. subst st.
    inversion Hstep; subst; try done; [by apply IH|lia].
  - cbn [text_spec] in Hspec. destruct (Z.leb_spec n (arr_len us)); [|lia]. by apply IH.
  - cbn [text_spec] in Hspec. destruct (Z.leb_spec n (arr_len us)); [lia|done].
Qed.

(** C9. Memory safety and refinement: over any allocator, any run of appends,
    reservations and truncations from an empty buffer returns, aborting only when it
    truncates past the length, and its text and status are those of the specification,
    where a failure leaves the text as it was or with a prefix of what was appended and
    sticks. *)
Theorem text_run_refines raw_alloc current_heap ops :
  (forall k n fresh, raw_alloc k n = Some fresh -> length fresh = Z.to_nat n) -> Forall op_ok ops ->
  exists r, text_steps (refused raw_alloc) [] MAL_TEXT_BUFFER_OK ops r /\
    match r with
    | Some (us, st) => exists b, text_run raw_alloc current_heap ops zero_buffer = Ret b /\ live b = us /\ tb_status b = st
    | None => text_run raw_alloc current_heap ops zero_buffer = Abort
    end.
Proof.
  intros Halloc Hops. destruct (text_run_ok raw_alloc current_heap Halloc ops zero_buffer [] zero_buffer_ok Hops) as (r & Hr & Hm).
  exists r. split; [done|]. destruct r as [[us st]|]; [|done]. destruct Hm as (b & E & Hok & Hs). exists b. split; [done|].
  split; [by apply live_ok|done].
Qed.

(** C10. Building a string: when memory is granted and the specification stays within the
    limit, every operation succeeds and finishing hands over memory that holds exactly
    the specified text, in one byte per unit only when every unit fits. *)
Theorem text_builder_correct raw_alloc current_heap ops us :
  (forall k n fresh, raw_alloc k n = Some fresh -> length fresh = Z.to_nat n) -> (forall k n, raw_alloc k n <> None) ->
  Forall op_ok ops -> text_spec [] ops = Some us ->
  exists b, text_run raw_alloc current_heap ops zero_buffer = Ret b /\ tb_status b = MAL_TEXT_BUFFER_OK /\
    forall heap, tb_heap b = None \/ tb_heap b = Some heap ->
      exists utf16 data,
        mal_text_buffer_finish raw_alloc heap b = Ret (Some (utf16, data, arr_len us), zero_buffer) /\
        new_string_text (utf16, data, arr_len us) = Ret us /\ (utf16 = false -> Forall (in_u 8) us).
Proof.
  intros Halloc Hgrant Hops Hspec. destruct (text_run_ok raw_alloc current_heap Halloc ops zero_buffer [] zero_buffer_ok Hops) as (r & Hr & Hm).
  apply (steps_spec _ _ _ _ _ us) in Hr as ->; [|intros (k & n & E); by apply (Hgrant k n)|done|done].
  destruct Hm as (b & E & Hok & Hs). exists b. split; [done|]. split; [done|]. intros heap Hh.
  destruct (finish_ok raw_alloc heap b us Halloc Hok Hs Hh) as (data & Ef & Et).
  exists (tb_utf16 b), data. split; [done|]. split; [done|]. apply (bo_latin1 _ _ Hok).
Qed.

Module TextBufferDemo.
(** Zeroed memory for every request, and memory for the first one only. *)
Definition grants (k n : Z) : option (list Z) := Some (replicate (Z.to_nat n) 0).
Definition grants_once (k n : Z) : option (list Z) := if k =? 0 then grants k n else None.

Lemma grants_size k n fresh : grants k n = Some fresh -> length fresh = Z.to_nat n.
Proof. intros [= <-]. apply length_replicate. Qed.
Lemma grants_once_size k n fresh : grants_once k n = Some fresh -> length fresh = Z.to_nat n.
Proof. unfold grants_once. destruct (k =? 0); [apply grants_size|done]. Qed.

Definition source : MalTextBuffer := mkTextBuffer (Some 7) (Some [65; 66; 0]) 2 3 MAL_TEXT_BUFFER_OK false 1.
Lemma source_buffer_ok : buffer_ok source [65; 66].
Proof. split; cbn; try done; repeat constructor; done. Qed.

(** Latin-1 text, a source buffer, an integer, a unit that widens, the text twice. *)
Definition ops : list text_op :=
  [THint 3; TLatin1 [104; 105]; TOther source; TI32 (-2147483648); TPush 0x20ac; TSelf; TTruncate 19; TReserve 40; TUnits [0xd83d; 0xde00]].
Lemma demo_ops_ok : Forall op_ok ops.
Proof.
  repeat constructor; cbn; try (unfold in_u, in_i, arr_len; cbn; lia). exists [65; 66]. exact source_buffer_ok.
Qed.

Lemma text_run_refines_witness :
  exists r, text_steps (refused grants_once) [] MAL_TEXT_BUFFER_OK ops r /\
    match r with
    | Some (us, st) => exists b, text_run grants_once 7 ops zero_buffer = Ret b /\ live b = us /\ tb_status b = st
    | None => text_run grants_once 7 ops zero_buffer = Abort
    end.
Proof. apply (text_run_refines grants_once 7 ops); [exact grants_once_size|exact demo_ops_ok]. Defined.

(** The start of that run, evaluated: the first request is granted, widening is not. *)
Example refused_run_text :
  (b ← text_run grants_once 7 (take 5 ops) zero_buffer; Ret (live b, tb_status b))
  = Ret ([104; 105; 65; 66; 45; 50; 49; 52; 55; 52; 56; 51; 54; 52; 56], MAL_TEXT_BUFFER_ALLOCATION_FAILURE).
Proof. by vm_compute. Qed.

Definition text : list Z :=
  [104; 105; 65; 66; 45; 50; 49; 52; 55; 52; 56; 51; 54; 52; 56; 0x20ac; 104; 105; 65; 0xd83d; 0xde00].
Lemma text_builder_correct_witness :
  exists b, text_run grants 7 ops zero_buffer = Ret b /\ tb_status b = MAL_TEXT_BUFFER_OK /\
    forall heap, tb_heap b = None \/ tb_heap b = Some heap ->
      exists utf16 data,
        mal_text_buffer_finish grants heap b = Ret (Some (utf16, data, arr_len text), zero_buffer) /\
        new_string_text (utf16, data, arr_len text) = Ret text /\ (utf16 = false -> Forall (in_u 8) text).
Proof. apply (text_builder_correct grants 7 ops text); [exact grants_size|done|exact demo_ops_ok|by vm_compute]. Defined.
End TextBufferDemo.
