(* ===== verification/LinearProbe.v ===== *)
(** Open addressing with linear probing over a power of two of slots, as the two
    indexes of runtime/src/shape.c use it. A table stands for the list of its entries
    in insertion order; a search finds the first that matches. *)

From S2P Require Import Prelude.

Section Probe.
Context {X : Type} `{Inhabited X} (empty : X -> bool).

(** [while (slots[slot] is used) slot = (slot + 1) & mask]. *)
Fixpoint probe_empty (fuel : nat) (slots : list X) (mask slot : Z) : outcome Z :=
  match fuel with
  | O => NoFuel
  | S fuel =>
      if empty (arr_get slots slot) then Ret slot
      else probe_empty fuel slots mask (Z.land (slot + 1) mask)
  end.

(** The same walk, until an entry matches. *)
Fixpoint probe_find (fuel : nat) (hit : X -> bool) (slots : list X) (mask slot : Z) : outcome (option X) :=
  match fuel with
  | O => NoFuel
  | S fuel =>
      let entry := arr_get slots slot in
      if empty entry then Ret None
      else if hit entry then Ret (Some entry)
      else probe_find fuel hit slots mask (Z.land (slot + 1) mask)
  end.

(** * Tables *)

Context (home : X -> Z).

Definition at_step (capacity h : Z) (d : nat) : Z := (h + Z.of_nat d) mod capacity.

(** [l] in insertion order, [ps] their slots: an entry sits after slots that earlier
    entries fill, counted from its home. *)
Record probe_table (slots : list X) (capacity : Z) (l : list X) (ps : list Z) : Prop := {
  pt_power : exists k, 0 <= k /\ capacity = 2 ^ k;
  pt_slots : arr_len slots = capacity;
  pt_length : length ps = length l;
  pt_distinct : NoDup ps;
  pt_at : forall i p, ps !! i = Some p -> 0 <= p < capacity /\ l !! i = Some (arr_get slots p) /\ empty (arr_get slots p) = false;
  pt_free : forall p, 0 <= p < capacity -> p ∉ ps -> empty (arr_get slots p) = true;
  pt_chain : forall i p x, ps !! i = Some p -> l !! i = Some x ->
    exists d, (Z.of_nat d < capacity) /\ p = at_step capacity (home x) d /\
      forall j, (j < d)%nat -> exists i', (i' < i)%nat /\ ps !! i' = Some (at_step capacity (home x) j);
}.

Lemma power_pos capacity : (exists k, 0 <= k /\ capacity = 2 ^ k) -> 0 < capacity.
Proof. intros (k & Hk & ->). lia. Qed.
Lemma mask_mod capacity x : (exists k, 0 <= k /\ capacity = 2 ^ k) -> Z.land x (capacity - 1) = x mod capacity.
Proof. intros (k & Hk & ->). by apply land_mask. Qed.

Lemma at_step_range capacity h d : 0 < capacity -> 0 <= at_step capacity h d < capacity.
Proof. intros. apply Z.mod_pos_bound. lia. Qed.
Lemma at_step_next capacity h d : 0 < capacity -> (at_step capacity h d + 1) mod capacity = at_step capacity h (S d).
Proof.
  intros Hc. unfold at_step. rewrite Zplus_mod_idemp_l. f_equal. lia.
Qed.

(** Every slot is some step from home. *)
Lemma at_step_onto capacity h p : 0 <= p < capacity -> exists d, Z.of_nat d < capacity /\ at_step capacity h d = p.
Proof.
  intros Hp. exists (Z.to_nat ((p - h) mod capacity)). pose proof (Z.mod_pos_bound (p - h) capacity ltac:(lia)).
  unfold at_step. rewrite Z2Nat.id by lia. split; [lia|]. rewrite Zplus_mod_idemp_r.
  replace (h + (p - h)) with p by lia. apply Z.mod_small. lia.
Qed.

(** A table that is not full has a free slot. *)
Lemma free_slot capacity (ps : list Z) :
  (forall p, p ∈ ps -> 0 <= p < capacity) -> NoDup ps -> Z.of_nat (length ps) < capacity ->
  exists p, 0 <= p < capacity /\ p ∉ ps.
Proof.
  intros Hr Hd Hl. destruct (decide (Exists (fun p => p ∉ ps) (seqZ 0 capacity))) as [He|He].
  - apply Exists_exists in He as (p & Hp & Hn). apply elem_of_seqZ in Hp. exists p. split; [lia|done].
  - exfalso. apply not_Exists_Forall in He; [|intros p; apply _]. rewrite Forall_forall in He.
    assert (seqZ 0 capacity ⊆+ ps) as Hs.
    { apply NoDup_submseteq; [apply NoDup_seqZ|]. intros p Hp. specialize (He p Hp). by apply dec_stable. }
    apply submseteq_length in Hs. rewrite length_seqZ in Hs. lia.
Qed.

Section Search.
Context (slots : list X) (capacity : Z) (l : list X) (ps : list Z).
Hypothesis Ht : probe_table slots capacity l ps.
Hypothesis Hroom : Z.of_nat (length l) < capacity.

Lemma table_pos : 0 < capacity.
Proof using Ht. apply power_pos, (pt_power _ _ _ _ Ht). Qed.

(** The first free step from a hash. *)
Lemma first_free h : exists d, Z.of_nat d < capacity /\ (at_step capacity h d ∉ ps) /\
  forall j, (j < d)%nat -> at_step capacity h j ∈ ps.
Proof using Ht Hroom.
  destruct (free_slot capacity ps) as (p & Hp & Hn).
  { intros p Hp. apply list_elem_of_lookup_1 in Hp as [i Hi]. by apply (pt_at _ _ _ _ Ht i). }
  { apply (pt_distinct _ _ _ _ Ht). }
  { by rewrite (pt_length _ _ _ _ Ht). }
  destruct (at_step_onto capacity h p Hp) as (d & Hd & Ed). subst p.
  assert (forall n, (n <= d)%nat -> (exists e, (e <= d)%nat /\ (at_step capacity h e ∉ ps) /\ forall j, (j < e)%nat -> at_step capacity h j ∈ ps)
    \/ forall j, (j < n)%nat -> at_step capacity h j ∈ ps) as Hfirst.
  { induction n as [|n IH]; intros Hle; [right; lia|]. destruct IH as [?|Hall]; [lia|by left|].
    destruct (decide (at_step capacity h n ∈ ps)) as [Hin|Hout].
    - right. intros j Hj. destruct (decide (j = n)) as [->|]; [done|]. apply Hall. lia.
    - left. exists n. split; [lia|done]. }
  destruct (Hfirst d ltac:(lia)) as [(e & He & Hout & Hall)|Hall].
  - exists e. split; [lia|done].
  - exists d. done.
Qed.

Lemma step_mask h d : Z.land (at_step capacity h d + 1) (capacity - 1) = at_step capacity h (S d).
Proof using Ht. rewrite mask_mod by apply (pt_power _ _ _ _ Ht). apply at_step_next, table_pos. Qed.

Lemma occupied_slot p : p ∈ ps -> empty (arr_get slots p) = false.
Proof using Ht. intros Hp. apply list_elem_of_lookup_1 in Hp as [i Hi]. by apply (pt_at _ _ _ _ Ht i). Qed.

Lemma probe_empty_from h e fuel : forall d,
  (d <= e)%nat -> (e - d < fuel)%nat -> (forall j, (d <= j < e)%nat -> at_step capacity h j ∈ ps) ->
  empty (arr_get slots (at_step capacity h e)) = true ->
  probe_empty fuel slots (capacity - 1) (at_step capacity h d) = Ret (at_step capacity h e).
Proof using Ht.
  induction fuel as [|fuel IH]; intros d Hd Hf Hocc He; [lia|]. cbn [probe_empty].
  destruct (decide (d = e)) as [->|]; [by rewrite He|].
  rewrite occupied_slot by (apply Hocc; lia). rewrite step_mask. apply IH; [lia|lia| |done]. intros j Hj. apply Hocc. lia.
Qed.

Lemma probe_find_from hit h e fuel : forall d,
  (d <= e)%nat -> (e - d < fuel)%nat ->
  (forall j, (d <= j < e)%nat -> at_step capacity h j ∈ ps /\ hit (arr_get slots (at_step capacity h j)) = false) ->
  empty (arr_get slots (at_step capacity h e)) = true \/ hit (arr_get slots (at_step capacity h e)) = true ->
  probe_find fuel hit slots (capacity - 1) (at_step capacity h d)
  = Ret (if empty (arr_get slots (at_step capacity h e)) then None else Some (arr_get slots (at_step capacity h e))).
Proof using Ht.
  induction fuel as [|fuel IH]; intros d Hd Hf Hocc He; [lia|]. cbn [probe_find].
  destruct (decide (d = e)) as [->|].
  { destruct (empty (arr_get slots (at_step capacity h e))); [done|]. by destruct He as [?| ->]. }
  destruct (Hocc d ltac:(lia)) as [Hin Hno]. rewrite occupied_slot by done. rewrite Hno, step_mask.
  apply IH; [lia|lia| |done]. intros j Hj. apply Hocc. lia.
Qed.

Lemma hash_start hash : Z.land hash (capacity - 1) = at_step capacity hash 0.
Proof using Ht. rewrite mask_mod by apply (pt_power _ _ _ _ Ht). unfold at_step. f_equal. lia. Qed.

Lemma filter_none (P : X -> bool) (k : list X) : (forall y, y ∈ k -> P y <> true) -> filter (fun x => P x = true) k = [].
Proof.
  induction k as [|y k IH]; intros Hno; [done|]. rewrite filter_cons_False by (apply Hno; left).
  apply IH. intros z Hz. apply Hno. by right.
Qed.

(** A search returns the first entry that matches, when matches share a home. *)
Lemma probe_find_ok hit hash fuel :
  (Z.to_nat capacity <= fuel)%nat ->
  (forall x, x ∈ l -> hit x = true -> home x mod capacity = hash mod capacity) ->
  probe_find fuel hit slots (capacity - 1) (Z.land hash (capacity - 1)) = Ret (head (filter (fun x => hit x = true) l)).
Proof using Ht Hroom.
  intros Hf Hhome. pose proof table_pos as Hpos. rewrite hash_start.
  destruct (list_find (fun x => hit x = true) l) as [[k x]|] eqn:Ef.
  - apply list_find_Some in Ef as (Hk & Hx & Hfirst).
    destruct (lookup_lt_is_Some_2 ps k) as [p Hp]. { rewrite (pt_length _ _ _ _ Ht). by eapply lookup_lt_Some. }
    destruct (pt_at _ _ _ _ Ht k p Hp) as (Hpr & Hlk & Hocc). rewrite Hk in Hlk. injection Hlk as Hlk.
    destruct (pt_chain _ _ _ _ Ht k p x Hp Hk) as (d & Hd & Ed & Hch).
    assert (forall j, at_step capacity (home x) j = at_step capacity hash j) as Est.
    { intros j. unfold at_step. rewrite <- Zplus_mod_idemp_l, (Hhome x), Zplus_mod_idemp_l; [done| |done].
      by eapply list_elem_of_lookup_2. }
    rewrite Est in Ed. rewrite (probe_find_from hit hash d fuel 0); [|lia|lia| |].
    + rewrite <- Ed, Hocc, <- Hlk. f_equal.
      rewrite <- (take_drop_middle l k x Hk), filter_app, filter_cons_True by done.
      rewrite filter_none; [done|]. intros y Hy2.
      apply list_elem_of_lookup_1 in Hy2 as [i Hi]. apply lookup_take_Some in Hi as [Hi Hlt]. by apply (Hfirst i y Hi).
    + intros j Hj. destruct (Hch j ltac:(lia)) as (i' & Hlt & Hi'). rewrite Est in Hi'. split; [by eapply list_elem_of_lookup_2|].
      destruct (pt_at _ _ _ _ Ht i' _ Hi') as (_ & Hl' & _). apply not_true_is_false. intros Hh. by apply (Hfirst i' _ Hl').
    + right. by rewrite <- Ed, <- Hlk.
  - apply list_find_None in Ef. rewrite Forall_forall in Ef. destruct (first_free hash) as (d & Hd & Hout & Hin).
    assert (empty (arr_get slots (at_step capacity hash d)) = true) as He.
    { apply (pt_free _ _ _ _ Ht); [by apply at_step_range|done]. }
    rewrite (probe_find_from hit hash d fuel 0); [|lia|lia| |by left].
    + rewrite He. by rewrite filter_none.
    + intros j Hj. split; [apply Hin; lia|]. specialize (Hin j ltac:(lia)). apply list_elem_of_lookup_1 in Hin as [i Hi].
      destruct (pt_at _ _ _ _ Ht i _ Hi) as (_ & Hl' & _). apply not_true_is_false. intros Hh.
      by apply (Ef (arr_get slots (at_step capacity hash j))); [eapply list_elem_of_lookup_2|].
Qed.

(** An insertion appends to the list. *)
Lemma probe_insert_ok x fuel :
  (Z.to_nat capacity <= fuel)%nat -> empty x = false ->
  exists p, probe_empty fuel slots (capacity - 1) (Z.land (home x) (capacity - 1)) = Ret p /\ 0 <= p < capacity /\
    probe_table (arr_set slots p x) capacity (l ++ [x]) (ps ++ [p]).
Proof using Ht Hroom.
  intros Hf Hx. pose proof table_pos as Hpos. destruct (first_free (home x)) as (d & Hd & Hout & Hin).
  pose proof (at_step_range capacity (home x) d Hpos) as Hr. set (p := at_step capacity (home x) d) in *.
  pose proof (pt_slots _ _ _ _ Ht) as Hs. pose proof (pt_length _ _ _ _ Ht) as Hlen.
  assert (forall q, q ∈ ps -> arr_get (arr_set slots p x) q = arr_get slots q) as Hne.
  { intros q Hq. pose proof Hq as Hq'. apply list_elem_of_lookup_1 in Hq' as [i Hi]. destruct (pt_at _ _ _ _ Ht i q Hi) as (? & _).
    apply arr_get_set_ne; [lia|lia|]. intros ->. done. }
  exists p. split; [|split; [done|]].
  { rewrite hash_start. apply (probe_empty_from (home x) d); [lia|lia|intros j Hj; apply Hin; lia|]. by apply (pt_free _ _ _ _ Ht). }
  split.
  - apply (pt_power _ _ _ _ Ht).
  - by rewrite arr_len_set.
  - rewrite !length_app. cbn. lia.
  - apply NoDup_app. split_and!; [apply (pt_distinct _ _ _ _ Ht)| |apply NoDup_singleton].
    intros q Hq Hq'. apply list_elem_of_singleton in Hq'. by subst q.
  - intros i q Hi. apply lookup_app_Some in Hi as [Hi|[Hge Hi]].
    + rewrite Hne by (by eapply list_elem_of_lookup_2). destruct (pt_at _ _ _ _ Ht i q Hi) as (? & Hl & ?). split_and!; try done; try lia.
      by apply lookup_app_l_Some.
    + apply list_lookup_singleton_Some in Hi as [Hi <-]. rewrite arr_get_set_eq by lia. split_and!; try done; try lia.
      rewrite lookup_app_r by lia. by replace (i - length l)%nat with 0%nat by lia.
  - intros q Hq Hn. rewrite not_elem_of_app, not_elem_of_cons in Hn. destruct Hn as (Hn & Hqp & _).
    rewrite arr_get_set_ne by (lia || congruence). by apply (pt_free _ _ _ _ Ht).
  - intros i q y Hi Hy. apply lookup_app_Some in Hi as [Hi|[Hge Hi]].
    + assert (i < length l)%nat. { rewrite <- Hlen. by eapply lookup_lt_Some. } rewrite lookup_app_l in Hy by lia.
      destruct (pt_chain _ _ _ _ Ht i q y Hi Hy) as (e & He & Ee & Hch). exists e. split; [done|]. split; [done|].
      intros j Hj. destruct (Hch j Hj) as (i' & ? & Hi'). exists i'. split; [done|]. by apply lookup_app_l_Some.
    + apply list_lookup_singleton_Some in Hi as [Hi <-]. rewrite lookup_app_r in Hy by lia.
      replace (i - length l)%nat with 0%nat in Hy by lia. injection Hy as <-. exists d. split; [done|]. split; [done|].
      intros j Hj. specialize (Hin j Hj). apply list_elem_of_lookup_1 in Hin as [i' Hi']. exists i'.
      split; [|by apply lookup_app_l_Some]. apply lookup_lt_Some in Hi'. lia.
Qed.
End Search.

Lemma filter_map_get (slots : list X) (k : list Z) :
  filter (fun x => empty x = false) (map (arr_get slots) k) = map (arr_get slots) (filter (fun p => empty (arr_get slots p) = false) k).
Proof.
  induction k as [|p k IH]; [done|]. cbn [map]. rewrite !filter_cons, IH. by destruct (decide (empty (arr_get slots p) = false)).
Qed.

(** The filled slots hold the entries. *)
Lemma probe_table_perm slots capacity l ps :
  probe_table slots capacity l ps -> filter (fun x => empty x = false) slots ≡ₚ l.
Proof.
  intros Ht. pose proof (pt_slots _ _ _ _ Ht) as Hs. pose proof (pt_length _ _ _ _ Ht) as Hlen.
  assert (slots = map (arr_get slots) (seqZ 0 capacity)) as ->.
  { apply arr_ext.
    - unfold arr_len in *. rewrite length_map, length_seqZ. lia.
    - intros i Hi. symmetry. apply arr_get_of_lookup. apply list_lookup_fmap_Some. exists i. split; [done|].
      apply lookup_seqZ. lia. }
  rewrite filter_map_get.
  assert (l = map (arr_get slots) ps) as ->.
  { apply list_eq. intros i. rewrite list_lookup_fmap. destruct (ps !! i) as [p|] eqn:Ep; cbn.
    - by destruct (pt_at _ _ _ _ Ht i p Ep) as (_ & ? & _).
    - apply lookup_ge_None in Ep. apply lookup_ge_None. lia. }
  apply Permutation_map, NoDup_Permutation.
  - apply NoDup_filter, NoDup_seqZ.
  - apply (pt_distinct _ _ _ _ Ht).
  - intros p. rewrite list_elem_of_filter, elem_of_seqZ. split.
    + intros [He Hp]. destruct (decide (p ∈ ps)) as [|Hn]; [done|]. rewrite (pt_free _ _ _ _ Ht p) in He; [done|lia|done].
    + intros Hp. apply list_elem_of_lookup_1 in Hp as [i Hi]. destruct (pt_at _ _ _ _ Ht i p Hi) as (? & _ & ?). split; [done|lia].
Qed.
Lemma probe_table_empty slots capacity :
  (exists k, 0 <= k /\ capacity = 2 ^ k) -> arr_len slots = capacity -> (forall p, 0 <= p < capacity -> empty (arr_get slots p) = true) ->
  probe_table slots capacity [] [].
Proof. intros Hp Hs He. split; try done; [apply NoDup_nil_2|]. auto. Qed.
End Probe.
