(* ===== verification/Shape.v ===== *)
(** Object shapes of runtime/src/shape.h and shape.c: the tree of property layouts
    that objects share. A shape lists its properties; adding one, sealing and freezing
    lead along interned edges to child shapes. Wide shapes find keys through a hash
    index built by their first lookup; shapes with many edges index them too.

    Shapes live at addresses given in order by the allocator, which does not fail.
    Transition nodes are written once and owned by the list of their parent, so a list
    holds them by value. Using a shape that was freed is [Abort]. Counters are not
    modelled. *)

From stdpp Require Import gmap.
From S2P Require Import Prelude F64 Value HeapString HeapStringSpec Key LinearProbe.

Definition MAL_SHAPE_ORDINARY_SLOTS : Z := 64.
Definition MAL_SHAPE_MAX_INLINE_SLOTS : Z := 255.
Definition MAL_SHAPE_REMOVAL_BUDGET : Z := 4096.
Definition MAL_SHAPE_TRANSITION_INDEX_THRESHOLD : Z := 8.
Definition MAL_SHAPE_FIND_INDEX_THRESHOLD : Z := 4.

Definition MAL_PROPERTY_WRITABLE : Z := 1.
Definition MAL_PROPERTY_ENUMERABLE : Z := 2.
Definition MAL_PROPERTY_CONFIGURABLE : Z := 4.
Definition default_attrs : Z := Z.lor (Z.lor MAL_PROPERTY_WRITABLE MAL_PROPERTY_ENUMERABLE) MAL_PROPERTY_CONFIGURABLE.

Record MalShapeProp : Type := mkProp { prop_key : Z; prop_slot : Z; prop_attrs : Z }.
#[export] Instance MalShapeProp_inhabited : Inhabited MalShapeProp := populate (mkProp 0 0 0).

Inductive MalShapeTransitionKind : Set :=
| MAL_SHAPE_TRANSITION_ADD | MAL_SHAPE_TRANSITION_SEAL | MAL_SHAPE_TRANSITION_FREEZE.
#[export] Instance MalShapeTransitionKind_eq_dec : EqDecision MalShapeTransitionKind.
Proof. solve_decision. Defined.

Record MalShapeTransition : Type := mkTransition {
  tr_key : Z;
  tr_child : Z;
  tr_attrs : Z;
  tr_kind : MalShapeTransitionKind;
}.

(** Entries hold the hash above the position plus one; zero is free. *)
Record MalShapeFindIndex : Type := mkFindIndex { fi_mask : Z; fi_entries : list Z }.

Definition MalShapeTransitionIndexSlot : Type := option (Z * MalShapeTransition).
Record MalShapeTransitionIndex : Type := mkTransitionIndex {
  ti_capacity : Z;
  ti_size : Z;
  ti_complete : bool;
  ti_slots : list MalShapeTransitionIndexSlot;
}.

(** [transitions] is newest first. *)
Record MalShape : Type := mkShape {
  inline_count : Z;
  props : list MalShapeProp;
  transition_index : option MalShapeTransitionIndex;
  transitions : list MalShapeTransition;
  for_in_keys : option Z;
  tree_root : option Z;
  find_index : option MalShapeFindIndex;
}.
Definition set_find_index (i : MalShapeFindIndex) (s : MalShape) : MalShape :=
  mkShape (inline_count s) (props s) (transition_index s) (transitions s) (for_in_keys s) (tree_root s) (Some i).
Definition set_transitions (ti : option MalShapeTransitionIndex) (ts : list MalShapeTransition) (s : MalShape) : MalShape :=
  mkShape (inline_count s) (props s) ti ts (for_in_keys s) (tree_root s) (find_index s).

(** The part of [MalHeap] shapes use: memory, the next address, root and budget. *)
Record ShapeHeap : Type := mkShapeHeap {
  shapes : gmap Z MalShape;
  shape_brk : Z;
  shape_root : option Z;
  shape_removal_budget : Z;
}.
Definition with_shapes (m : gmap Z MalShape) (h : ShapeHeap) : ShapeHeap :=
  mkShapeHeap m (shape_brk h) (shape_root h) (shape_removal_budget h).
Definition deref_shape (h : ShapeHeap) (p : Z) : outcome MalShape :=
  match shapes h !! p with Some s => Ret s | None => Abort end.
Definition store_shape (p : Z) (s : MalShape) (h : ShapeHeap) : ShapeHeap := with_shapes (<[p := s]> (shapes h)) h.
(** [malloc(sizeof(MalShape))] and its initialisation. *)
Definition alloc_shape (s : MalShape) (h : ShapeHeap) : Z * ShapeHeap :=
  (shape_brk h, mkShapeHeap (<[shape_brk h := s]> (shapes h)) (shape_brk h + 1) (shape_root h) (shape_removal_budget h)).

Definition empty_shape (root : option Z) : MalShape := mkShape 0 [] None [] None root None.
(** The dictionary sentinel. *)
Definition mal_shape_dictionary_empty : MalShape := empty_shape None.

Definition mal_shape_heap_init (h : ShapeHeap) : ShapeHeap :=
  let '(root, h) := alloc_shape (empty_shape (Some (shape_brk h))) h in
  mkShapeHeap (shapes h) (shape_brk h) (Some root) MAL_SHAPE_REMOVAL_BUDGET.
Definition mal_shape_root (h : ShapeHeap) : outcome Z :=
  match shape_root h with Some root => Ret root | None => Abort end.

Definition mal_shape_attrs_are_default (attrs : Z) : bool := attrs =? default_attrs.

Section Shapes.
Context `{KeyHeap}.

Definition mal_shape_transition_hash (key attrs : Z) : Z :=
  let hash := if mal_value_is_string key then string_hash (mal_value_to_heap key) else key in
  Z.lxor hash (u64 (attrs + 0x9e3779b97f4a7c15 + u64 (Z.shiftl hash 6) + Z.shiftr hash 2)).

Definition mal_shape_find_key_hash (key : Z) : Z :=
  let hash :=
    if mal_value_is_string key then string_hash (mal_value_to_heap key)
    else u64 (key * 0x9E3779B97F4A7C15) in
  u32 (Z.lxor hash (Z.shiftr hash 32)).

(** * The index of a wide shape *)

(** [while (capacity < inline_count * 2) capacity *= 2]. *)
Fixpoint find_capacity_loop (fuel : nat) (count capacity : Z) : outcome Z :=
  match fuel with
  | O => NoFuel
  | S fuel => if capacity <? count * 2 then find_capacity_loop fuel count (u32 (capacity * 2)) else Ret capacity
  end.
Definition entry_empty (entry : Z) : bool := entry =? 0.
Fixpoint find_build_loop (indices : list Z) (ps : list MalShapeProp) (mask : Z) (entries : list Z) : outcome (list Z) :=
  match indices with
  | [] => Ret entries
  | i :: indices =>
      let hash := mal_shape_find_key_hash (prop_key (arr_get ps i)) in
      slot ← probe_empty entry_empty (S (Z.to_nat mask)) entries mask (Z.land hash mask);
      find_build_loop indices ps mask (arr_set entries slot (Z.lor (Z.shiftl hash 32) (i + 1)))
  end.
Definition mal_shape_find_index_build (s : MalShape) : outcome MalShapeFindIndex :=
  capacity ← find_capacity_loop 8 (inline_count s) 16;
  entries ← find_build_loop (seqZ 0 (inline_count s)) (props s) (capacity - 1) (replicate (Z.to_nat capacity) 0);
  Ret (mkFindIndex (capacity - 1) entries).

(** * Lookup *)

Fixpoint find_scan (indices : list Z) (ps : list MalShapeProp) (key : Z) : Z :=
  match indices with
  | [] => -1
  | i :: indices => if mal_key_value_equals (prop_key (arr_get ps i)) key then i else find_scan indices ps key
  end.
Definition find_hit (ps : list MalShapeProp) (hash key entry : Z) : bool :=
  (u32 (Z.shiftr entry 32) =? hash) && mal_key_value_equals (prop_key (arr_get ps (i32 (u32 entry) - 1))) key.

Definition mal_shape_find_wide (h : ShapeHeap) (p key : Z) : outcome (Z * ShapeHeap) :=
  s ← deref_shape h p;
  if inline_count s <=? 1 then Abort
  else if MAL_SHAPE_FIND_INDEX_THRESHOLD <=? inline_count s then
    '(index, h) ← (match find_index s with
                   | Some index => Ret (index, h)
                   | None => index ← mal_shape_find_index_build s; Ret (index, store_shape p (set_find_index index s) h)
                   end);
    let hash := mal_shape_find_key_hash key in
    entry ← probe_find entry_empty (S (Z.to_nat (fi_mask index))) (find_hit (props s) hash key)
              (fi_entries index) (fi_mask index) (Z.land hash (fi_mask index));
    Ret (match entry with Some entry => i32 (u32 entry) - 1 | None => -1 end, h)
  else Ret (find_scan (seqZ 0 (inline_count s)) (props s) key, h).

Definition mal_shape_find (h : ShapeHeap) (p key : Z) : outcome (Z * ShapeHeap) :=
  s ← deref_shape h p;
  if 1 <? inline_count s then mal_shape_find_wide h p key
  else if inline_count s =? 0 then Ret (-1, h)
  else Ret (if mal_key_value_equals (prop_key (arr_get (props s) 0)) key then 0 else -1, h).

(** * The index of transitions *)

Definition slot_empty (slot : MalShapeTransitionIndexSlot) : bool := match slot with None => true | Some _ => false end.

Definition mal_shape_transition_index_new (capacity : Z) : MalShapeTransitionIndex :=
  mkTransitionIndex capacity 0 true (replicate (Z.to_nat capacity) None).
Definition mal_shape_transition_index_insert (index : MalShapeTransitionIndex) (hash : Z) (t : MalShapeTransition)
  : outcome MalShapeTransitionIndex :=
  let mask := ti_capacity index - 1 in
  slot ← probe_empty slot_empty (Z.to_nat (ti_capacity index)) (ti_slots index) mask (Z.land hash mask);
  Ret (mkTransitionIndex (ti_capacity index) (u32 (ti_size index + 1)) (ti_complete index)
         (arr_set (ti_slots index) slot (Some (hash, t)))).

Fixpoint grow_loop (old : list MalShapeTransitionIndexSlot) (index : MalShapeTransitionIndex) : outcome MalShapeTransitionIndex :=
  match old with
  | [] => Ret index
  | None :: old => grow_loop old index
  | Some (hash, t) :: old => index ← mal_shape_transition_index_insert index hash t; grow_loop old index
  end.
Definition mal_shape_transition_index_grow (old : MalShapeTransitionIndex) : outcome MalShapeTransitionIndex :=
  let index := mal_shape_transition_index_new (u32 (ti_capacity old * 2)) in
  grow_loop (ti_slots old) (mkTransitionIndex (ti_capacity index) (ti_size index) (ti_complete old) (ti_slots index)).
Definition mal_shape_transition_index_add (index : MalShapeTransitionIndex) (t : MalShapeTransition)
  : outcome MalShapeTransitionIndex :=
  let hash := mal_shape_transition_hash (tr_key t) (tr_attrs t) in
  index ← (if ti_capacity index <? u32 (u32 (ti_size index + 1) * 2) then mal_shape_transition_index_grow index else Ret index);
  mal_shape_transition_index_insert index hash t.

Fixpoint index_build_loop (ts : list MalShapeTransition) (index : MalShapeTransitionIndex) : outcome MalShapeTransitionIndex :=
  match ts with
  | [] => Ret index
  | t :: ts =>
      if negb (bool_decide (tr_kind t = MAL_SHAPE_TRANSITION_ADD)) then index_build_loop ts index
      else index ← mal_shape_transition_index_add index t; index_build_loop ts index
  end.
Definition mal_shape_transition_index_build (ts : list MalShapeTransition) : outcome MalShapeTransitionIndex :=
  index_build_loop ts (mal_shape_transition_index_new (MAL_SHAPE_TRANSITION_INDEX_THRESHOLD * 2)).

Definition transition_hit (key attrs hash : Z) (slot : MalShapeTransitionIndexSlot) : bool :=
  match slot with
  | None => false
  | Some (h, t) => (h =? hash) && (tr_attrs t =? attrs) && mal_key_value_equals (tr_key t) key
  end.
Definition mal_shape_transition_index_find (index : MalShapeTransitionIndex) (key attrs hash : Z)
  : outcome (option MalShapeTransition) :=
  let mask := ti_capacity index - 1 in
  slot ← probe_find slot_empty (Z.to_nat (ti_capacity index)) (transition_hit key attrs hash) (ti_slots index) mask (Z.land hash mask);
  Ret (match slot with Some (Some (_, t)) => Some t | _ => None end).

(** The walk of the list, counting the edges it compares. *)
Definition is_add (key attrs : Z) (t : MalShapeTransition) : bool :=
  bool_decide (tr_kind t = MAL_SHAPE_TRANSITION_ADD) && (tr_attrs t =? attrs) && mal_key_value_equals (tr_key t) key.
Fixpoint list_search (ts : list MalShapeTransition) (key attrs comparisons : Z) : option MalShapeTransition * Z :=
  match ts with
  | [] => (None, comparisons)
  | t :: ts =>
      if negb (bool_decide (tr_kind t = MAL_SHAPE_TRANSITION_ADD)) then list_search ts key attrs comparisons
      else if (tr_attrs t =? attrs) && mal_key_value_equals (tr_key t) key then (Some t, comparisons + 1)
      else list_search ts key attrs (comparisons + 1)
  end.

Definition mal_shape_find_add_transition (h : ShapeHeap) (p key attrs : Z) : outcome (option Z) :=
  s ← deref_shape h p;
  found ← (match transition_index s with
           | None => Ret None
           | Some index =>
               m ← mal_shape_transition_index_find index key attrs (mal_shape_transition_hash key attrs);
               Ret (match m with
                    | Some t => Some (Some (tr_child t))
                    | None => if ti_complete index then Some None else None
                    end)
           end);
  match found with
  | Some r => Ret r
  | None => Ret (option_map tr_child (find (is_add key attrs) (transitions s)))
  end.

(** * Edges *)

Definition mal_shape_add_property (h : ShapeHeap) (p key attrs : Z) : outcome (Z * ShapeHeap) :=
  s ← deref_shape h p;
  if MAL_SHAPE_MAX_INLINE_SLOTS <=? inline_count s then Abort
  else
    '(m, search) ←
      (match transition_index s with
       | None => Ret (None, true)
       | Some index =>
           m ← mal_shape_transition_index_find index key attrs (mal_shape_transition_hash key attrs);
           Ret (m, match m with Some _ => false | None => negb (ti_complete index) end)
       end);
    let '(m, comparisons) := if search : bool then list_search (transitions s) key attrs 0 else (m, 0) in
    match m with
    | Some t => Ret (tr_child t, h)
    | None =>
        let '(child, h) :=
          alloc_shape (mkShape (inline_count s + 1) (props s ++ [mkProp key (inline_count s) attrs]) None [] None (tree_root s) None) h in
        let t := mkTransition key child attrs MAL_SHAPE_TRANSITION_ADD in
        let ts := t :: transitions s in
        index ← (match transition_index s with
                 | Some index => index ← mal_shape_transition_index_add index t; Ret (Some index)
                 | None =>
                     if MAL_SHAPE_TRANSITION_INDEX_THRESHOLD <=? comparisons + 1
                     then index ← mal_shape_transition_index_build ts; Ret (Some index)
                     else Ret None
                 end);
        Ret (child, store_shape p (set_transitions index ts s) h)
    end.

Fixpoint from_keys_loop (keys : list Z) (shape : Z) (h : ShapeHeap) : outcome (Z * ShapeHeap) :=
  match keys with
  | [] => Ret (shape, h)
  | key :: keys => '(shape, h) ← mal_shape_add_property h shape key default_attrs; from_keys_loop keys shape h
  end.
(** [keys] are the boxed strings. *)
Definition mal_shape_from_string_keys (h : ShapeHeap) (keys : list Z) : outcome (Z * ShapeHeap) :=
  root ← mal_shape_root h;
  from_keys_loop keys root h.

Fixpoint remove_loop (indices : list Z) (index : Z) (ps : list MalShapeProp) (next : Z) (h : ShapeHeap)
  : outcome (option Z * ShapeHeap) :=
  match indices with
  | [] => Ret (Some next, h)
  | i :: indices =>
      if i =? index then remove_loop indices index ps next h
      else
        let prop := arr_get ps i in
        found ← mal_shape_find_add_transition h next (prop_key prop) (prop_attrs prop);
        match found with
        | Some child => remove_loop indices index ps child h
        | None =>
            if shape_removal_budget h =? 0 then Ret (None, h)
            else
              let h := mkShapeHeap (shapes h) (shape_brk h) (shape_root h) (shape_removal_budget h - 1) in
              '(child, h) ← mal_shape_add_property h next (prop_key prop) (prop_attrs prop);
              remove_loop indices index ps child h
        end
  end.
Definition mal_shape_remove_property (h : ShapeHeap) (p index : Z) : outcome (option Z * ShapeHeap) :=
  s ← deref_shape h p;
  match tree_root s with
  | None => Ret (None, h)
  | Some root =>
      if MAL_SHAPE_ORDINARY_SLOTS <? inline_count s then Ret (None, h)
      else remove_loop (seqZ 0 (inline_count s)) index (props s) root h
  end.

(** Attributes cleared by an integrity level, and its edge. *)
Definition clear_mask (clear_writable : bool) : Z :=
  if clear_writable then Z.lor MAL_PROPERTY_CONFIGURABLE MAL_PROPERTY_WRITABLE else MAL_PROPERTY_CONFIGURABLE.
Definition clears (clear : Z) (p : MalShapeProp) : bool :=
  mal_value_is_string (prop_key p) && negb (Z.land (prop_attrs p) clear =? 0).
Definition clear_prop (clear : Z) (p : MalShapeProp) : MalShapeProp :=
  if mal_value_is_string (prop_key p) then mkProp (prop_key p) (prop_slot p) (Z.land (prop_attrs p) (u8 (Z.lnot clear))) else p.
Definition integrity_kind (clear_writable : bool) : MalShapeTransitionKind :=
  if clear_writable then MAL_SHAPE_TRANSITION_FREEZE else MAL_SHAPE_TRANSITION_SEAL.

Definition mal_shape_set_integrity (h : ShapeHeap) (p : Z) (clear_writable : bool) : outcome (Z * ShapeHeap) :=
  s ← deref_shape h p;
  let clear := clear_mask clear_writable in
  if negb (existsb (clears clear) (props s)) then Ret (p, h)
  else
    let kind := integrity_kind clear_writable in
    match find (fun t => bool_decide (tr_kind t = kind)) (transitions s) with
    | Some t => Ret (tr_child t, h)
    | None =>
        let '(child, h) :=
          alloc_shape (mkShape (inline_count s) (map (clear_prop clear) (props s)) None [] None (tree_root s) None) h in
        let ts := mkTransition 0 child 0 kind :: transitions s in
        Ret (child, store_shape p (set_transitions (transition_index s) ts s) h)
    end.

(** * Walks *)

(** [visit] of the collector, as the list of values visited. The cached key arrays are
    held boxed. *)
Fixpoint mal_shape_visit_child_keys (fuel : nat) (h : ShapeHeap) (p : Z) : outcome (list Z) :=
  match fuel with
  | O => NoFuel
  | S fuel =>
      s ← deref_shape h p;
      rest ← (fix walk (ts : list MalShapeTransition) : outcome (list Z) :=
                match ts with
                | [] => Ret []
                | t :: ts =>
                    below ← mal_shape_visit_child_keys fuel h (tr_child t);
                    rest ← walk ts;
                    Ret ((if bool_decide (tr_kind t = MAL_SHAPE_TRANSITION_ADD) then [tr_key t] else []) ++ below ++ rest)
                end) (transitions s);
      Ret (match for_in_keys s with Some a => [a] | None => [] end ++ rest)
  end.
Definition mal_shape_visit_transition_keys (h : ShapeHeap) : outcome (list Z) :=
  root ← mal_shape_root h;
  mal_shape_visit_child_keys (S (size (shapes h))) h root.

(** [free] of a shape: using it again aborts. *)
Definition free_shape (p : Z) (h : ShapeHeap) : outcome ShapeHeap :=
  _ ← deref_shape h p;
  Ret (with_shapes (delete p (shapes h)) h).
Fixpoint mal_shape_free_children (fuel : nat) (p : Z) (h : ShapeHeap) : outcome ShapeHeap :=
  match fuel with
  | O => NoFuel
  | S fuel =>
      s ← deref_shape h p;
      (fix walk (ts : list MalShapeTransition) (h : ShapeHeap) : outcome ShapeHeap :=
         match ts with
         | [] => Ret h
         | t :: ts =>
             h ← mal_shape_free_children fuel (tr_child t) h;
             h ← free_shape (tr_child t) h;
             walk ts h
         end) (transitions s) h
  end.
Definition mal_shape_heap_free (h : ShapeHeap) : outcome ShapeHeap :=
  match shape_root h with
  | None => Ret h
  | Some root =>
      h ← mal_shape_free_children (S (size (shapes h))) root h;
      h ← free_shape root h;
      Ret (mkShapeHeap (shapes h) (shape_brk h) None (shape_removal_budget h))
  end.
End Shapes.
