(* ===== verification/ShapeIndex.v ===== *)
(** The two indexes of a shape: the lookup through the hash index of a wide shape is
    the scan of its properties, and the index of transitions holds the added ones. *)

From stdpp Require Import gmap.
From S2P Require Import Prelude F64 Value HeapString HeapStringSpec Key LinearProbe Shape.

Section Index.
Context `{HK : KeyHeap, HL : !KeyHeapLaws HK}.

(** Property keys are strings and symbols; what matters is that none is a BigInt. *)
Definition shape_key (k : Z) : Prop := in_u 64 k /\ mal_value_is_bigint k = false.

Lemma find_hash_range k : in_u 32 (mal_shape_find_key_hash k).
Proof. apply wrap_range. lia. Qed.

(** Equal keys hash alike, and are strings alike. *)
Lemma equal_keys a b : shape_key a -> mal_key_value_equals a b = true ->
  a = b \/ (mal_value_is_string a = true /\ mal_value_is_string b = true /\ string_equals (mal_value_to_heap a) (mal_value_to_heap b) = true).
Proof.
  intros [_ Ha]. unfold mal_key_value_equals. rewrite Ha. destruct (Z.eqb_spec a b) as [->|]; [by left|].
  destruct (mal_value_is_string a), (mal_value_is_string b); cbn [andb]; try done. intros. by right.
Qed.
Lemma equal_keys_string a b : shape_key a -> mal_key_value_equals a b = true -> mal_value_is_string a = mal_value_is_string b.
Proof. intros Ha He. destruct (equal_keys a b Ha He) as [->|(-> & -> & _)]; done. Qed.
Lemma equal_keys_hash a b : shape_key a -> mal_key_value_equals a b = true -> mal_shape_find_key_hash a = mal_shape_find_key_hash b.
Proof using HL.
  intros Ha He. destruct (equal_keys a b Ha He) as [->|(Sa & Sb & E)]; [done|]. unfold mal_shape_find_key_hash. rewrite Sa, Sb.
  by rewrite (string_equals_hash _ _ E).
Qed.
Lemma equal_keys_transition a b attrs :
  shape_key a -> mal_key_value_equals a b = true -> mal_shape_transition_hash a attrs = mal_shape_transition_hash b attrs.
Proof using HL.
  intros Ha He. destruct (equal_keys a b Ha He) as [->|(Sa & Sb & E)]; [done|]. unfold mal_shape_transition_hash. rewrite Sa, Sb.
  by rewrite (string_equals_hash _ _ E).
Qed.

(** * Finding a key *)

Definition find_entry (ps : list MalShapeProp) (i : Z) : Z :=
  Z.lor (Z.shiftl (mal_shape_find_key_hash (prop_key (arr_get ps i))) 32) (i + 1).
Definition entry_home (entry : Z) : Z := Z.shiftr entry 32.

Lemma find_entry_ok ps i : 0 <= i <= 255 ->
  entry_empty (find_entry ps i) = false /\ entry_home (find_entry ps i) = mal_shape_find_key_hash (prop_key (arr_get ps i)) /\
  i32 (u32 (find_entry ps i)) - 1 = i.
Proof.
  intros Hi. pose proof (find_hash_range (prop_key (arr_get ps i))) as Hh. unfold in_u in Hh. unfold find_entry, entry_empty, entry_home.
  set (hash := mal_shape_find_key_hash _) in *. rewrite lor_shiftl_add' by lia. split_and!.
  - lia.
  - apply shiftr_add_mul; lia.
  - unfold u32, i32. unfold wrap. rewrite Z.mod_add by lia. rewrite Z.mod_small by lia. rewrite swrap_small; unfold in_i; lia.
Qed.

Lemma find_hit_entry ps i key : 0 <= i <= 255 -> shape_key (prop_key (arr_get ps i)) ->
  find_hit ps (mal_shape_find_key_hash key) key (find_entry ps i) = mal_key_value_equals (prop_key (arr_get ps i)) key.
Proof using HL.
  intros Hi Hk. destruct (find_entry_ok ps i Hi) as (_ & Eh & Ei). unfold find_hit. rewrite Ei. unfold entry_home in Eh. rewrite Eh.
  pose proof (find_hash_range (prop_key (arr_get ps i))). unfold u32. rewrite wrap_small by done.
  destruct (mal_key_value_equals (prop_key (arr_get ps i)) key) eqn:E; [|apply andb_false_r].
  rewrite (equal_keys_hash _ _ Hk E), Z.eqb_refl. done.
Qed.

(** The index of the properties. *)
Definition find_index_rep (ps : list MalShapeProp) (index : MalShapeFindIndex) : Prop :=
  exists pos, probe_table entry_empty entry_home (fi_entries index) (fi_mask index + 1) (map (find_entry ps) (seqZ 0 (arr_len ps))) pos /\
    arr_len ps < fi_mask index + 1.

Lemma find_capacity_ok count : 0 <= count <= 255 ->
  exists k, 4 <= k <= 9 /\ find_capacity_loop 8 count 16 = Ret (2 ^ k) /\ count * 2 <= 2 ^ k.
Proof.
  intros Hc.
  assert (forall fuel k, 4 <= k -> (Z.to_nat (9 - k) < fuel)%nat -> k <= 9 ->
    exists k', k <= k' <= 9 /\ find_capacity_loop fuel count (2 ^ k) = Ret (2 ^ k') /\ count * 2 <= 2 ^ k') as Hloop.
  { induction fuel as [|fuel IH]; intros k Hk Hf H9; [lia|]. cbn [find_capacity_loop].
    destruct (Z.ltb_spec (2 ^ k) (count * 2)) as [Hlt|]; [|exists k; split; [lia|done]].
    assert (k < 9). { destruct (decide (k = 9)) as [->|]; [lia|lia]. }
    assert (u32 (2 ^ k * 2) = 2 ^ (k + 1)) as ->.
    { rewrite Z.pow_add_r, Z.pow_1_r by lia. apply wrap_small. unfold in_u. pose proof (Z.pow_le_mono_r 2 k 9). lia. }
    destruct (IH (k + 1)) as (k' & ? & ? & ?); [lia|lia|lia|]. exists k'. split; [lia|done]. }
  destruct (Hloop 8%nat 4) as (k & Hk & E & Hle); [lia|lia|lia|]. exists k. done.
Qed.

Lemma find_build_ok ps mask : forall n i entries pos,
  0 <= i -> i + Z.of_nat n <= 255 -> i + Z.of_nat n < mask + 1 ->
  probe_table entry_empty entry_home entries (mask + 1) (map (find_entry ps) (seqZ 0 i)) pos ->
  exists entries' pos', find_build_loop (seqZ i (Z.of_nat n)) ps mask entries = Ret entries' /\
    probe_table entry_empty entry_home entries' (mask + 1) (map (find_entry ps) (seqZ 0 (i + Z.of_nat n))) pos'.
Proof.
  induction n as [|n IH]; intros i entries pos Hi Hn Hm Ht.
  { exists entries, pos. split; [done|]. by replace (i + Z.of_nat 0) with i by lia. }
  rewrite seqZ_cons by lia. cbn [find_build_loop]. destruct (find_entry_ok ps i ltac:(lia)) as (He & Eh & _).
  destruct (probe_insert_ok entry_empty entry_home entries (mask + 1) _ pos Ht) with (x := find_entry ps i) (fuel := S (Z.to_nat mask))
    as (slot & Es & Hr & Ht'); [rewrite length_map, length_seqZ; lia|lia|done|].
  rewrite Eh in Es. replace (mask + 1 - 1) with mask in Es by lia. rewrite Es. cbn [mbind outcome_bind].
  replace (Z.pred (Z.of_nat (S n))) with (Z.of_nat n) by lia. replace (Z.succ i) with (i + 1) by lia.
  destruct (IH (i + 1) (arr_set entries slot (find_entry ps i)) (pos ++ [slot])) as (e' & p' & E & Hp'); [lia|lia|lia| |].
  - rewrite seqZ_app, map_app by lia. cbn. by rewrite Z.add_0_l.
  - exists e', p'. split; [done|]. by replace (i + Z.of_nat (S n)) with (i + 1 + Z.of_nat n) by lia.
Qed.

Lemma find_index_build_ok s :
  inline_count s = arr_len (props s) -> arr_len (props s) <= 255 ->
  exists index, mal_shape_find_index_build s = Ret index /\ find_index_rep (props s) index.
Proof.
  intros Hc Hl. pose proof (arr_len_nonneg (props s)). unfold mal_shape_find_index_build. rewrite Hc.
  destruct (find_capacity_ok (arr_len (props s))) as (k & Hk & -> & Hle); [lia|]. cbn [mbind outcome_bind].
  assert (2 ^ k <> 0) by lia. pose proof (Z.pow_le_mono_r 2 4 k ltac:(lia) ltac:(lia)).
  destruct (find_build_ok (props s) (2 ^ k - 1) (length (props s)) 0 (replicate (Z.to_nat (2 ^ k)) 0) []) as (e' & p' & E & Ht).
  - lia.
  - unfold arr_len in *. lia.
  - unfold arr_len in *. lia.
  - cbn [seqZ map]. replace (2 ^ k - 1 + 1) with (2 ^ k) by lia. apply probe_table_empty.
    + exists k. lia.
    + rewrite arr_len_replicate; lia.
    + intros p Hp. by rewrite arr_get_replicate by lia.
  - unfold arr_len. rewrite E. cbn [mbind outcome_bind]. eexists. split; [done|]. exists p'. cbn [fi_entries fi_mask].
    split; [done|]. unfold arr_len in *. lia.
Qed.

(** The position of the first property with an equal key, or -1. *)
Definition first_prop (ps : list MalShapeProp) (key : Z) : Z :=
  match list_find (fun p => mal_key_value_equals (prop_key p) key = true) ps with
  | Some (i, _) => Z.of_nat i
  | None => -1
  end.

Lemma scan_first ps key : forall n i,
  0 <= i -> i + Z.of_nat n = arr_len ps -> (forall j p, Z.of_nat j < i -> ps !! j = Some p -> mal_key_value_equals (prop_key p) key = false) ->
  find_scan (seqZ i (Z.of_nat n)) ps key = first_prop ps key.
Proof.
  induction n as [|n IH]; intros i Hi Hn Hno.
  - cbn. unfold first_prop. destruct (list_find _ ps) as [[j p]|] eqn:E; [|done]. apply list_find_Some in E as (Hj & Hp & _).
    rewrite (Hno j p) in Hp; [done| |done]. apply lookup_lt_Some in Hj. unfold arr_len in Hn. lia.
  - rewrite seqZ_cons by lia. cbn [find_scan]. pose proof (arr_get_lookup ps i ltac:(unfold arr_len in *; lia)) as Hg.
    destruct (mal_key_value_equals (prop_key (arr_get ps i)) key) eqn:E.
    + unfold first_prop. rewrite (proj2 (list_find_Some _ _ (Z.to_nat i) (arr_get ps i))); [lia|].
      split_and!; [done|done|]. intros j p Hj Hlt. rewrite (Hno j p); [done|lia|done].
    + replace (Z.pred (Z.of_nat (S n))) with (Z.of_nat n) by lia. apply IH; [lia|lia|]. intros j p Hj Hp.
      destruct (decide (Z.of_nat j = i)) as [<-|]; [|apply (Hno j); [lia|done]]. rewrite Nat2Z.id in Hg. congruence.
Qed.

(** The first entry that matches is the entry of the first such property. *)
Lemma entries_first ps key : forall n i,
  0 <= i -> i + Z.of_nat n = arr_len ps -> arr_len ps <= 255 -> Forall (fun p => shape_key (prop_key p)) ps ->
  match head (filter (fun e => find_hit ps (mal_shape_find_key_hash key) key e = true) (map (find_entry ps) (seqZ i (Z.of_nat n)))) with
  | Some e => i32 (u32 e) - 1
  | None => -1
  end = find_scan (seqZ i (Z.of_nat n)) ps key.
Proof using HL.
  induction n as [|n IH]; intros i Hi Hn Hl Hk; [done|]. rewrite seqZ_cons by lia. cbn [map find_scan].
  pose proof (arr_get_lookup ps i ltac:(unfold arr_len in *; lia)) as Hg.
  rewrite filter_cons. rewrite find_hit_entry; [|lia|rewrite Forall_lookup in Hk; by apply (Hk _ _ Hg)].
  destruct (find_entry_ok ps i ltac:(lia)) as (_ & _ & Ei).
  destruct (mal_key_value_equals (prop_key (arr_get ps i)) key); cbn [decide decide_rel bool_eq_dec bool_rec bool_rect sumbool_rec sumbool_rect].
  - done.
  - replace (Z.pred (Z.of_nat (S n))) with (Z.of_nat n) by lia. apply IH; try done; lia.
Qed.

Lemma find_probe_ok ps index key :
  find_index_rep ps index -> arr_len ps <= 255 -> Forall (fun p => shape_key (prop_key p)) ps ->
  exists r, probe_find entry_empty (S (Z.to_nat (fi_mask index))) (find_hit ps (mal_shape_find_key_hash key) key)
    (fi_entries index) (fi_mask index) (Z.land (mal_shape_find_key_hash key) (fi_mask index)) = Ret r /\
    match r with Some e => i32 (u32 e) - 1 | None => -1 end = first_prop ps key.
Proof using HL.
  intros (pos & Ht & Hlt) Hl Hk. pose proof (arr_len_nonneg ps).
  pose proof (probe_find_ok entry_empty entry_home _ _ _ pos Ht) as Hp. rewrite length_map, length_seqZ in Hp.
  specialize (Hp ltac:(lia) (find_hit ps (mal_shape_find_key_hash key) key) (mal_shape_find_key_hash key) (S (Z.to_nat (fi_mask index))) ltac:(lia)).
  replace (fi_mask index + 1 - 1) with (fi_mask index) in Hp by lia. rewrite Hp.
  - eexists. split; [done|]. replace (arr_len ps) with (Z.of_nat (length ps)) by done.
    rewrite (entries_first ps key (length ps) 0) by (done || lia). apply scan_first; [lia|done|]. lia.
  - intros e He Hh. apply list_elem_of_fmap in He as (i & -> & Hi). apply elem_of_seqZ in Hi.
    destruct (find_entry_ok ps i ltac:(lia)) as (_ & Eh & _). rewrite Eh. unfold find_hit in Hh. apply andb_true_iff in Hh as [Hh _].
    apply Z.eqb_eq in Hh. unfold entry_home in Eh. rewrite Eh in Hh. unfold u32 in Hh.
    rewrite wrap_small in Hh by apply find_hash_range. by rewrite Hh.
Qed.

(** * Finding an edge *)

Definition slot_home (slot : MalShapeTransitionIndexSlot) : Z := match slot with Some (hash, _) => hash | None => 0 end.
Definition edge_hash (t : MalShapeTransition) : Z := mal_shape_transition_hash (tr_key t) (tr_attrs t).
Definition edge_slot (t : MalShapeTransition) : MalShapeTransitionIndexSlot := Some (edge_hash t, t).
Definition is_add_kind (t : MalShapeTransition) : bool := bool_decide (tr_kind t = MAL_SHAPE_TRANSITION_ADD).
Definition add_edges (ts : list MalShapeTransition) : list MalShapeTransition := filter (fun t => is_add_kind t = true) ts.

(** A table of edges, in the order they were inserted, at most half full. *)
Definition edge_table (index : MalShapeTransitionIndex) (l : list MalShapeTransition) : Prop :=
  exists pos, probe_table slot_empty slot_home (ti_slots index) (ti_capacity index) (map edge_slot l) pos /\
    ti_size index = arr_len l /\ ti_complete index = true /\ 16 <= ti_capacity index /\ arr_len l * 2 <= ti_capacity index.
Definition index_rep (index : MalShapeTransitionIndex) (ts : list MalShapeTransition) : Prop :=
  exists l, l ≡ₚ add_edges ts /\ edge_table index l /\ (ti_capacity index = 16 \/ ti_capacity index <= 4 * arr_len l).

(** More edges than any shape gets. *)
Definition EDGE_ROOM : Z := 2 ^ 28.

Lemma raw_insert_ok index pos l t :
  probe_table slot_empty slot_home (ti_slots index) (ti_capacity index) (map edge_slot l) pos -> arr_len l < ti_capacity index ->
  exists index' pos', mal_shape_transition_index_insert index (edge_hash t) t = Ret index' /\
    probe_table slot_empty slot_home (ti_slots index') (ti_capacity index') (map edge_slot (l ++ [t])) pos' /\
    ti_size index' = u32 (ti_size index + 1) /\ ti_capacity index' = ti_capacity index /\ ti_complete index' = ti_complete index.
Proof.
  intros Ht Hroom. unfold mal_shape_transition_index_insert.
  destruct (probe_insert_ok slot_empty slot_home (ti_slots index) (ti_capacity index) _ pos Ht)
    with (x := edge_slot t) (fuel := Z.to_nat (ti_capacity index)) as (slot & Es & Hr & Ht'); [rewrite length_map; unfold arr_len in Hroom; lia|lia|done|].
  cbn [slot_home edge_slot] in Es. rewrite Es. cbn [mbind outcome_bind]. eexists _, (pos ++ [slot]). split; [done|].
  cbn [ti_slots ti_capacity ti_size ti_complete]. rewrite map_app. done.
Qed.

Lemma insert_edge_ok index l t :
  edge_table index l -> (arr_len l + 1) * 2 <= ti_capacity index -> arr_len l < EDGE_ROOM ->
  exists index', mal_shape_transition_index_insert index (edge_hash t) t = Ret index' /\ edge_table index' (l ++ [t]) /\
    ti_capacity index' = ti_capacity index.
Proof.
  intros (pos & Ht & Hs & Hc & H16 & Hhalf) Hroom Hl. pose proof (arr_len_nonneg l). unfold EDGE_ROOM in Hl.
  destruct (raw_insert_ok index pos l t Ht) as (index' & pos' & E & Ht' & Es & Ec & Eo); [lia|].
  exists index'. split; [done|]. split; [|done]. exists pos'. rewrite Ec in Ht'. rewrite Es, Ec, Eo, arr_len_app, Hs. change (arr_len [t]) with 1.
  unfold u32. rewrite wrap_small by (unfold in_u; lia). split_and!; try done; lia.
Qed.

Lemma grow_loop_ok old : forall index l,
  edge_table index l -> (forall s, s ∈ old -> match s with Some (hash, t) => hash = edge_hash t | None => True end) ->
  let more := omap (fun s : MalShapeTransitionIndexSlot => snd <$> s) old in
  (arr_len l + arr_len more) * 2 <= ti_capacity index -> arr_len l + arr_len more <= EDGE_ROOM ->
  exists index', grow_loop old index = Ret index' /\ edge_table index' (l ++ more) /\ ti_capacity index' = ti_capacity index.
Proof.
  induction old as [|[[hash t]|] old IH]; intros index l Ht Hold; cbn [omap list_omap fmap option_fmap option_map snd grow_loop]; intros Hcap Hroom.
  - exists index. by rewrite app_nil_r.
  - assert (hash = edge_hash t) as -> by (apply (Hold (Some (hash, t))); left).
    set (more := omap (fun s : MalShapeTransitionIndexSlot => snd <$> s) old) in *. pose proof (arr_len_nonneg more). pose proof (arr_len_nonneg l).
    assert (arr_len (t :: more) = arr_len more + 1) as Em by (unfold arr_len; cbn [length]; lia). rewrite Em in *.
    destruct Ht as (pos & Hp & Hs & Hc & H16 & Hhalf).
    destruct (raw_insert_ok index pos l t Hp) as (index1 & pos1 & E & Ht' & Es & Ec & Eo); [lia|]. rewrite E. cbn [mbind outcome_bind].
    destruct (IH index1 (l ++ [t])) as (index' & E' & Ht'' & Ec').
    + exists pos1. rewrite Ec in Ht'. rewrite Es, Ec, Eo, arr_len_app, Hs. change (arr_len [t]) with 1. unfold EDGE_ROOM in *.
      unfold u32. rewrite wrap_small by (unfold in_u; lia). split_and!; try done; lia.
    + intros s Hin. apply Hold. by right.
    + rewrite arr_len_app, Ec. change (arr_len [t]) with 1. fold more. lia.
    + rewrite arr_len_app. change (arr_len [t]) with 1. fold more. lia.
    + exists index'. split; [done|]. split; [|congruence]. fold more in Ht''. by rewrite <- app_assoc in Ht''.
  - apply IH; [done| |done|done]. intros s Hin. apply Hold. by right.
Qed.

(** The edges in the slots of a table are its list. *)
Lemma table_edges slots capacity l pos :
  probe_table slot_empty slot_home slots capacity (map edge_slot l) pos ->
  omap (fun s : MalShapeTransitionIndexSlot => snd <$> s) slots ≡ₚ l /\
  (forall s, s ∈ slots -> match s with Some (hash, t) => hash = edge_hash t | None => True end).
Proof.
  intros Ht. pose proof (probe_table_perm _ _ _ _ _ _ Ht) as Hp.
  set (f := fun s : MalShapeTransitionIndexSlot => snd <$> s) in *. split.
  - assert (omap f slots = omap f (filter (fun x => slot_empty x = false) slots)) as ->.
    { clear. induction slots as [|[x|] slots IH]; [done|..].
      - rewrite filter_cons_True by done. cbn. by rewrite IH.
      - rewrite filter_cons_False by done. cbn. done. }
    rewrite Hp. clear. induction l as [|t l IH]; [done|]. cbn. by rewrite IH.
  - intros [[hash t]|] Hs; [|done]. assert (Some (hash, t) ∈ map edge_slot l) as Hin.
    { rewrite <- Hp. by apply list_elem_of_filter. }
    apply list_elem_of_fmap in Hin as (u & Hu & _). by injection Hu as -> ->.
Qed.

Lemma index_new_ok capacity k :
  4 <= k -> capacity = 2 ^ k -> edge_table (mal_shape_transition_index_new capacity) [].
Proof.
  intros Hk ->. pose proof (Z.pow_le_mono_r 2 4 k ltac:(lia) Hk). exists []. cbn [ti_slots ti_capacity ti_size ti_complete mal_shape_transition_index_new].
  split_and!; try done; try lia; [|unfold arr_len; cbn; lia]. apply probe_table_empty.
  - exists k. lia.
  - apply arr_len_replicate. lia.
  - intros p Hp. by rewrite arr_get_replicate.
Qed.

Lemma index_grow_ok index l :
  edge_table index l -> ti_capacity index < EDGE_ROOM * 4 -> arr_len l < EDGE_ROOM ->
  exists index' l', mal_shape_transition_index_grow index = Ret index' /\ l' ≡ₚ l /\ edge_table index' l' /\
    ti_capacity index' = ti_capacity index * 2.
Proof.
  intros (pos & Hp & Hs & Hc & H16 & Hhalf) Hcap Hroom. unfold EDGE_ROOM in *. unfold mal_shape_transition_index_grow.
  assert (u32 (ti_capacity index * 2) = ti_capacity index * 2) as -> by (apply wrap_small; unfold in_u; lia).
  destruct (pt_power _ _ _ _ _ _ Hp) as (k & Hk & Ek).
  assert (4 <= k). { destruct (Z.le_gt_cases 4 k); [done|]. pose proof (Z.pow_lt_mono_r 2 k 4). lia. }
  destruct (table_edges _ _ _ _ Hp) as [Hperm Hold].
  pose proof (index_new_ok (ti_capacity index * 2) (k + 1) ltac:(lia) ltac:(rewrite Z.pow_add_r by lia; lia)) as Hnew.
  destruct (grow_loop_ok (ti_slots index) (mal_shape_transition_index_new (ti_capacity index * 2)) [] Hnew Hold) as (index' & E & Ht & Ec).
  - unfold arr_len in *. rewrite (Permutation_length Hperm). cbn [ti_capacity mal_shape_transition_index_new length]. lia.
  - unfold arr_len, EDGE_ROOM in *. rewrite (Permutation_length Hperm). cbn [length]. lia.
  - exists index', ([] ++ omap (fun s : MalShapeTransitionIndexSlot => snd <$> s) (ti_slots index)). rewrite Hc. split; [done|]. done.
Qed.

Lemma index_add_ok index ts t :
  index_rep index ts -> is_add_kind t = true -> arr_len ts + 1 < EDGE_ROOM ->
  exists index', mal_shape_transition_index_add index t = Ret index' /\ index_rep index' (t :: ts).
Proof.
  intros (l & Hl & Ht & Hbig) Hk Hroom. assert (arr_len l <= arr_len ts) as Hle.
  { unfold arr_len. rewrite (Permutation_length Hl). unfold add_edges. apply inj_le, length_filter. }
  pose proof (arr_len_nonneg l). unfold mal_shape_transition_index_add. fold (edge_hash t).
  assert (forall l', l' ≡ₚ l -> l' ++ [t] ≡ₚ add_edges (t :: ts)) as Hperm.
  { intros l' Hl'. unfold add_edges. rewrite filter_cons_True by done. fold (add_edges ts). rewrite Hl', Hl.
    symmetry. apply Permutation_cons_append. }
  pose proof Ht as (pos & Hp & Hs & Hc & H16 & Hhalf). rewrite Hs.
  assert (u32 (u32 (arr_len l + 1) * 2) = (arr_len l + 1) * 2) as ->.
  { unfold u32, EDGE_ROOM in *. rewrite (wrap_small 32 (arr_len l + 1)) by (unfold in_u; lia). apply wrap_small. unfold in_u. lia. }
  assert (exists index1 l1, (if ti_capacity index <? (arr_len l + 1) * 2 then mal_shape_transition_index_grow index else Ret index) = Ret index1 /\
    l1 ≡ₚ l /\ edge_table index1 l1 /\ (arr_len l + 1) * 2 <= ti_capacity index1 /\
    (ti_capacity index1 = 16 \/ ti_capacity index1 <= 4 * (arr_len l + 1))) as (index1 & l1 & -> & Hl1 & Ht1 & Hroom1 & Hbig1).
  { destruct (Z.ltb_spec (ti_capacity index) ((arr_len l + 1) * 2)) as [Hlt|Hge].
    - destruct (index_grow_ok index l Ht) as (index1 & l1 & E & Hl1 & Ht1 & Ec); [unfold EDGE_ROOM in *; lia|lia|].
      exists index1, l1. split_and!; try done; lia.
    - exists index, l. split_and!; try done; lia. }
  cbn [mbind outcome_bind]. assert (arr_len l1 = arr_len l) as El by (unfold arr_len; by rewrite (Permutation_length Hl1)).
  destruct (insert_edge_ok index1 l1 t Ht1) as (index' & E & Ht' & Ec); [lia|lia|]. exists index'. split; [done|].
  exists (l1 ++ [t]). split; [by apply Hperm|]. split; [done|]. rewrite Ec, arr_len_app, El. change (arr_len [t]) with 1. lia.
Qed.

(** Building it from the list. *)
Lemma index_build_ok ts : arr_len ts + 1 < EDGE_ROOM ->
  exists index, mal_shape_transition_index_build ts = Ret index /\ index_rep index ts.
Proof.
  intros Hroom. unfold mal_shape_transition_index_build.
  assert (forall ts2 ts1 index, index_rep index ts1 -> arr_len ts1 + arr_len ts2 + 1 < EDGE_ROOM ->
    exists index', index_build_loop ts2 index = Ret index' /\ index_rep index' (reverse ts2 ++ ts1)) as Hloop.
  { induction ts2 as [|t ts2 IH]; intros ts1 index Hrep Hr; cbn [index_build_loop]; [by exists index|].
    pose proof (arr_len_nonneg ts2). assert (arr_len (t :: ts2) = arr_len ts2 + 1) as E1 by (unfold arr_len; cbn [length]; lia).
    assert (arr_len (t :: ts1) = arr_len ts1 + 1) as E2 by (unfold arr_len; cbn [length]; lia).
    fold (is_add_kind t). rewrite reverse_cons, <- app_assoc. cbn [app]. destruct (is_add_kind t) eqn:Et; cbn [negb].
    - destruct (index_add_ok index ts1 t Hrep Et) as (index1 & -> & Hrep1); [lia|]. cbn [mbind outcome_bind]. apply IH; [done|lia].
    - apply IH; [|lia]. destruct Hrep as (l & Hl & Ht). exists l. split; [|done]. unfold add_edges. by rewrite filter_cons_False by congruence. }
  destruct (Hloop ts [] (mal_shape_transition_index_new (MAL_SHAPE_TRANSITION_INDEX_THRESHOLD * 2))) as (index & E & Hrep).
  - exists []. split; [done|]. split; [by apply (index_new_ok _ 4)|by left].
  - unfold arr_len in *. cbn [length]. lia.
  - exists index. split; [done|]. rewrite app_nil_r in Hrep. destruct Hrep as (l & Hl & Ht). exists l. split; [|done].
    rewrite Hl. unfold add_edges. apply filter_Permutation, reverse_Permutation.
Qed.

(** The edge for a property, when no two edges are for the same one. *)
Lemma index_find_ok index ts key attrs :
  index_rep index ts -> Forall (fun t => shape_key (tr_key t)) ts ->
  (forall t u, t ∈ ts -> u ∈ ts -> is_add key attrs t = true -> is_add key attrs u = true -> t = u) ->
  mal_shape_transition_index_find index key attrs (mal_shape_transition_hash key attrs) = Ret (find (is_add key attrs) ts).
Proof using HL.
  intros (l & Hl & (pos & Hp & Hs & Hc & H16 & Hhalf) & _) Hk Huniq. unfold mal_shape_transition_index_find. rewrite Forall_forall in Hk.
  assert (forall t, t ∈ l <-> t ∈ ts /\ is_add_kind t = true) as Hin.
  { intros t. rewrite Hl. unfold add_edges. rewrite list_elem_of_filter. tauto. }
  assert (forall t, t ∈ l -> transition_hit key attrs (mal_shape_transition_hash key attrs) (edge_slot t) = is_add key attrs t) as Hhit.
  { intros t Ht. apply Hin in Ht as [Ht Hadd]. cbn [transition_hit edge_slot]. unfold is_add. fold (is_add_kind t). rewrite Hadd. cbn [andb].
    destruct (Z.eqb_spec (tr_attrs t) attrs) as [Ea|]; [|by rewrite andb_false_r]. rewrite andb_true_r.
    destruct (mal_key_value_equals (tr_key t) key) eqn:Ek; [|by rewrite andb_false_r]. unfold edge_hash.
    rewrite (equal_keys_transition _ _ _ (Hk t Ht) Ek), Ea, Z.eqb_refl. done. }
  rewrite (probe_find_ok slot_empty slot_home _ _ _ pos Hp).
  2: { rewrite length_map. unfold arr_len in *. lia. }
  2: { lia. }
  2: { intros x Hx Hh. apply list_elem_of_fmap in Hx as (t & -> & Ht). cbn [transition_hit edge_slot slot_home] in *.
    apply andb_true_iff in Hh as [Hh _]. apply andb_true_iff in Hh as [Hh _]. apply Z.eqb_eq in Hh. by rewrite Hh. }
  cbn [mbind outcome_bind]. f_equal. destruct (find (is_add key attrs) ts) as [u|] eqn:Ef.
  - apply find_some in Ef as [Hu Hadd]. apply list_elem_of_In in Hu.
    assert (is_add_kind u = true) as Hku. { unfold is_add in Hadd. apply andb_true_iff in Hadd as [Hadd _]. by apply andb_true_iff in Hadd as [? _]. }
    assert (edge_slot u ∈ filter (fun x => transition_hit key attrs (mal_shape_transition_hash key attrs) x = true) (map edge_slot l)) as Hf.
    { apply list_elem_of_filter. split; [rewrite Hhit; [done|by apply Hin]|]. apply list_elem_of_fmap. exists u. split; [done|by apply Hin]. }
    destruct (filter _ _) as [|x rest] eqn:Efl; [by apply elem_of_nil in Hf|]. cbn [head].
    assert (x ∈ x :: rest) as Hx by left. rewrite <- Efl in Hx. apply list_elem_of_filter in Hx as [Hx1 Hx2].
    apply list_elem_of_fmap in Hx2 as (t & -> & Ht). rewrite Hhit in Hx1 by done. cbn [edge_slot]. f_equal.
    apply Huniq; try done. by apply Hin.
  - rewrite filter_none; [done|]. intros x Hx Hh. apply list_elem_of_fmap in Hx as (t & -> & Ht). rewrite Hhit in Hh by done.
    apply Hin in Ht as [Ht _]. apply list_elem_of_In in Ht. by rewrite (find_none _ _ Ef t Ht) in Hh.
Qed.
End Index.
