(* ===== verification/ShapeSpec.v ===== *)
(** The tree of shapes: its invariant, the path of edges that leads to a shape, and the
    layout a path stands for. Paths are compared up to equal keys; a shape has one path
    and a path one shape. The operations keep the tree: a lookup is a scan, an edge is
    found where it was made, and making one extends the tree by one path. *)

From stdpp Require Import gmap.
From S2P Require Import Prelude F64 Value HeapString HeapStringSpec Key LinearProbe Shape ShapeIndex.

(** * Paths and layouts *)

Inductive edge : Type := EAdd (key attrs : Z) | ESeal | EFreeze.
Definition edge_of (t : MalShapeTransition) : edge :=
  match tr_kind t with
  | MAL_SHAPE_TRANSITION_ADD => EAdd (tr_key t) (tr_attrs t)
  | MAL_SHAPE_TRANSITION_SEAL => ESeal
  | MAL_SHAPE_TRANSITION_FREEZE => EFreeze
  end.

(** Keys and attributes in slot order. *)
Definition layout_t : Type := list (Z * Z).
Definition clear_pair (clear : Z) (kv : Z * Z) : Z * Z :=
  if mal_value_is_string kv.1 then (kv.1, Z.land kv.2 (u8 (Z.lnot clear))) else kv.
(** What ECMA-262 SetIntegrityLevel takes away: [[Configurable]] (bit 2 of the attributes)
    when sealing, [[Writable]] (bit 0) too when freezing. *)
Definition integrity_mask (freeze : bool) : Z := if freeze then 2 ^ 2 + 2 ^ 0 else 2 ^ 2.
Lemma integrity_mask_spec freeze : clear_mask freeze = integrity_mask freeze.
Proof. by destruct freeze. Qed.
(** Every other attribute is kept, and the properties under symbols keep all of theirs. *)
Lemma integrity_pair freeze key attrs i :
  0 <= i < 8 ->
  Z.testbit (clear_pair (integrity_mask freeze) (key, attrs)).2 i
  = Z.testbit attrs i && negb (mal_value_is_string key && ((i =? 2) || (freeze && (i =? 0)))).
Proof.
  intros Hi. unfold clear_pair. cbn [fst snd]. destruct (mal_value_is_string key); [|by rewrite andb_true_r].
  cbn [snd andb]. rewrite Z.land_spec. f_equal. assert (i ∈ seqZ 0 8) as Hm by (apply elem_of_seqZ; lia).
  change (seqZ 0 8) with [0; 1; 2; 3; 4; 5; 6; 7] in Hm.
  repeat (apply elem_of_cons in Hm as [->|Hm]; [by destruct freeze|]). by apply not_elem_of_nil in Hm.
Qed.
Definition layout_step (l : layout_t) (e : edge) : layout_t :=
  match e with
  | EAdd key attrs => l ++ [(key, attrs)]
  | ESeal => map (clear_pair (integrity_mask false)) l
  | EFreeze => map (clear_pair (integrity_mask true)) l
  end.
Definition layout (es : list edge) : layout_t := fold_left layout_step es [].

Definition pair_of (p : MalShapeProp) : Z * Z := (prop_key p, prop_attrs p).
Definition prop_pairs (s : MalShape) : layout_t := map pair_of (props s).

Section Tree.
Context `{HK : KeyHeap, HL : !KeyHeapLaws HK}.

Definition edge_eqb (e e' : edge) : bool :=
  match e, e' with
  | EAdd k a, EAdd k' a' => mal_key_value_equals k k' && (a =? a')
  | ESeal, ESeal | EFreeze, EFreeze => true
  | _, _ => false
  end.
Definition edge_equiv (e e' : edge) : Prop := edge_eqb e e' = true.

#[export] Instance edge_equiv_equivalence : Equivalence edge_equiv.
Proof using HL.
  pose proof key_equals_equiv as [Hr Hs Ht]. split.
  - intros [k a| |]; unfold edge_equiv; cbn; try done. by rewrite (Hr k), Z.eqb_refl.
  - intros [k a| |] [k' a'| |]; unfold edge_equiv; cbn; try done. rewrite !andb_true_iff, !Z.eqb_eq. intros [? ->]. split; [by apply Hs|done].
  - intros [k a| |] [k' a'| |] [k'' a''| |]; unfold edge_equiv; cbn; try done. rewrite !andb_true_iff, !Z.eqb_eq.
    intros [? ->] [? ->]. split; [by eapply Ht|done].
Qed.

(** Paths up to equal keys. *)
Definition path_equiv : relation (list edge) := Forall2 edge_equiv.
#[export] Instance path_equiv_equivalence : Equivalence path_equiv.
Proof using HL. unfold path_equiv. split; apply _. Qed.
#[export] Instance path_snoc_proper : Proper (path_equiv ==> edge_equiv ==> path_equiv) (fun es e => es ++ [e]).
Proof using HL. intros es es' Hes e e' He. apply Forall2_app; [done|]. by constructor. Qed.

Lemma path_equiv_snoc es e es' e' : path_equiv (es ++ [e]) (es' ++ [e']) <-> path_equiv es es' /\ edge_equiv e e'.
Proof using HL.
  split; [|by intros [? ?]; apply path_snoc_proper]. intros Hf. apply Forall2_app_inv in Hf as [? Hl].
  - split; [done|]. by inversion Hl.
  - apply Forall2_length in Hf. rewrite !length_app in Hf. cbn in Hf. lia.
Qed.

(** * The invariant *)

Record shape_ok (h : ShapeHeap) (p : Z) (s : MalShape) : Prop := {
  so_count : inline_count s = arr_len (props s);
  so_limit : arr_len (props s) <= MAL_SHAPE_MAX_INLINE_SLOTS;
  so_keys : Forall (fun q => shape_key (prop_key q)) (props s);
  so_slots : forall i q, props s !! i = Some q -> prop_slot q = Z.of_nat i;
  so_root : tree_root s = shape_root h;
  so_find : forall index, find_index s = Some index -> find_index_rep (props s) index;
  so_index : forall index, transition_index s = Some index -> index_rep index (transitions s);
  so_edge_keys : Forall (fun t => shape_key (tr_key t)) (transitions s);
  so_distinct : forall t u, t ∈ transitions s -> u ∈ transitions s -> edge_equiv (edge_of t) (edge_of u) -> t = u;
  so_nodup : NoDup (map tr_child (transitions s));
  so_children : forall t, t ∈ transitions s -> p < tr_child t /\
    exists c, shapes h !! tr_child t = Some c /\ prop_pairs c = layout_step (prop_pairs s) (edge_of t);
}.

Record heap_ok (h : ShapeHeap) : Prop := {
  ho_root : exists r s, shape_root h = Some r /\ shapes h !! r = Some s /\ props s = [];
  ho_brk : forall p s, shapes h !! p = Some s -> p < shape_brk h;
  ho_low : forall r p, shape_root h = Some r -> is_Some (shapes h !! p) -> r <= p;
  ho_shapes : forall p s, shapes h !! p = Some s -> shape_ok h p s;
  ho_parent : forall p, is_Some (shapes h !! p) ->
    shape_root h = Some p \/ exists q s t, shapes h !! q = Some s /\ t ∈ transitions s /\ tr_child t = p;
  ho_tree : forall q s t q' s' t',
    shapes h !! q = Some s -> t ∈ transitions s -> shapes h !! q' = Some s' -> t' ∈ transitions s' ->
    tr_child t = tr_child t' -> q = q';
  ho_top : forall q s t, shapes h !! q = Some s -> t ∈ transitions s -> shape_root h <> Some (tr_child t);
}.

(** The edges from the root to a shape. *)
Inductive shape_path (h : ShapeHeap) : Z -> list edge -> Prop :=
| sp_root r : shape_root h = Some r -> shape_path h r []
| sp_edge p es s t :
    shape_path h p es -> shapes h !! p = Some s -> t ∈ transitions s -> shape_path h (tr_child t) (es ++ [edge_of t]).

Lemma path_live h p es : heap_ok h -> shape_path h p es -> exists s, shapes h !! p = Some s.
Proof using HL.
  intros Hh Hp. destruct Hp as [r Hr|p es s t _ Hs Ht].
  - destruct (ho_root _ Hh) as (r' & s & Hr' & Hs & _). exists s. congruence.
  - destruct (so_children _ _ _ (ho_shapes _ Hh p s Hs) t Ht) as (_ & c & Hc & _). by exists c.
Qed.

(** A path ends at one shape, whatever keys spell it. *)
Lemma path_shape h p es : heap_ok h -> shape_path h p es -> forall p' es', shape_path h p' es' -> path_equiv es es' -> p = p'.
Proof using HL.
  intros Hh Hp. induction Hp as [r Hr|p es s t Hp IH Hs Ht]; intros p' es' Hp' He.
  - destruct Hp' as [r' Hr'|p' es' s' t' Hp' Hs' Ht']; [congruence|]. apply Forall2_length in He. rewrite length_app in He. cbn in He. lia.
  - destruct Hp' as [r' Hr'|p' es' s' t' Hp' Hs' Ht']; [apply Forall2_length in He; rewrite length_app in He; cbn in He; lia|].
    apply path_equiv_snoc in He as [He Het]. assert (p = p') as -> by (by eapply IH). rewrite Hs in Hs'. injection Hs' as <-.
    by rewrite (so_distinct _ _ _ (ho_shapes _ Hh p' s Hs) t t' Ht Ht' Het).
Qed.

(** A shape has one path. *)
Lemma shape_one_path h p es : heap_ok h -> shape_path h p es -> forall es', shape_path h p es' -> es = es'.
Proof using HL.
  intros Hh Hp. induction Hp as [r Hr|p es s t Hp IH Hs Ht]; intros es' Hp'.
  - inversion Hp' as [|p' es'' s' t' _ Hs' Ht' Ec]; [done|]. exfalso. apply (ho_top _ Hh p' s' t' Hs' Ht'). congruence.
  - inversion Hp' as [r Hr|p' es'' s' t' Hp'' Hs' Ht' Ec]; [exfalso; subst; by apply (ho_top _ Hh p s t Hs Ht)|].
    subst. assert (p' = p) as -> by (symmetry; by eapply (ho_tree _ Hh p s t p' s' t')). rewrite Hs in Hs'. injection Hs' as <-.
    rewrite (IH es'') by done. do 3 f_equal.
    pose proof (so_nodup _ _ _ (ho_shapes _ Hh p s Hs)) as Hnd.
    apply list_elem_of_lookup_1 in Ht as [i Hi]. apply list_elem_of_lookup_1 in Ht' as [j Hj].
    assert (i = j) as ->; [|congruence]. eapply (NoDup_lookup _ i j (tr_child t) Hnd).
    + rewrite list_lookup_fmap, Hi. done.
    + rewrite list_lookup_fmap, Hj. cbn. congruence.
Qed.

Lemma layout_snoc es e : layout (es ++ [e]) = layout_step (layout es) e.
Proof using HL. unfold layout. by rewrite fold_left_app. Qed.

Lemma path_layout h p es s : heap_ok h -> shape_path h p es -> shapes h !! p = Some s -> prop_pairs s = layout es.
Proof using HL.
  intros Hh Hp. revert s. induction Hp as [r Hr|p es s0 t Hp IH Hs Ht]; intros s Hc.
  - destruct (ho_root _ Hh) as (r' & s' & Hr' & Hs' & Hps). assert (r' = r) as -> by congruence. rewrite Hs' in Hc. injection Hc as <-.
    unfold prop_pairs. by rewrite Hps.
  - destruct (so_children _ _ _ (ho_shapes _ Hh p s0 Hs) t Ht) as (_ & c & Hc' & Hl). rewrite Hc' in Hc. injection Hc as <-.
    by rewrite Hl, layout_snoc, (IH s0).
Qed.

(** Every shape has a path: parents sit at lower addresses. *)
Lemma shape_has_path h p s : heap_ok h -> shapes h !! p = Some s -> exists es, shape_path h p es.
Proof using HL.
  intros Hh Hs. destruct (ho_root _ Hh) as (r & sr & Hr & Hsr & _).
  assert (forall n p, p - r <= Z.of_nat n -> is_Some (shapes h !! p) -> exists es, shape_path h p es) as Hall.
  { induction n as [|n IH]; intros q Hq Hl; destruct (ho_parent _ Hh q Hl) as [Hq'|(q' & s' & t & Hs' & Ht & <-)];
      try (exists []; by apply sp_root).
    - destruct (so_children _ _ _ (ho_shapes _ Hh q' s' Hs') t Ht) as (Hlt & _). exfalso.
      pose proof (ho_low _ Hh r q' Hr ltac:(by eexists)). lia.
    - destruct (so_children _ _ _ (ho_shapes _ Hh q' s' Hs') t Ht) as (Hlt & _).
      destruct (IH q' ltac:(lia) ltac:(by eexists)) as [es Hes]. exists (es ++ [edge_of t]). by eapply sp_edge. }
  eapply (Hall (Z.to_nat (p - r))); [lia|by eexists].
Qed.

(** * Growth of the tree *)

(** Shapes keep their properties and their edges. *)
Definition extends (h h' : ShapeHeap) : Prop :=
  shape_root h' = shape_root h /\
  forall p s, shapes h !! p = Some s ->
    exists s', shapes h' !! p = Some s' /\ props s' = props s /\ forall t, t ∈ transitions s -> t ∈ transitions s'.

Lemma extends_refl h : extends h h.
Proof using HL. split; [done|]. intros p s Hs. by exists s. Qed.
Lemma extends_trans h h1 h2 : extends h h1 -> extends h1 h2 -> extends h h2.
Proof using HL.
  intros [Hr1 H1] [Hr2 H2]. split; [congruence|]. intros p s Hs. destruct (H1 p s Hs) as (s1 & Hs1 & Hp1 & Ht1).
  destruct (H2 p s1 Hs1) as (s2 & Hs2 & Hp2 & Ht2). exists s2. split; [done|]. split; [congruence|]. auto.
Qed.
Lemma extends_path h h' p es : extends h h' -> shape_path h p es -> shape_path h' p es.
Proof using HL.
  intros [Hr He] Hp. induction Hp as [r Hr'|p es s t Hp IH Hs Ht]; [apply sp_root; congruence|].
  destruct (He p s Hs) as (s' & Hs' & _ & Ht'). eapply sp_edge; eauto.
Qed.

(** Filling the lookup index of a shape. *)
Lemma set_find_index_ok h p s index :
  heap_ok h -> shapes h !! p = Some s -> find_index_rep (props s) index ->
  heap_ok (store_shape p (set_find_index index s) h) /\ extends h (store_shape p (set_find_index index s) h).
Proof using HL.
  intros Hh Hs Hi. set (h' := store_shape p (set_find_index index s) h).
  assert (forall q s0, shapes h !! q = Some s0 -> exists s', shapes h' !! q = Some s' /\ props s' = props s0 /\ transitions s' = transitions s0 /\
    inline_count s' = inline_count s0 /\ tree_root s' = tree_root s0 /\ transition_index s' = transition_index s0 /\
    (find_index s' = find_index s0 \/ find_index s' = Some index /\ props s0 = props s)) as Hto.
  { intros q s0 Hq. unfold h', store_shape. cbn [shapes with_shapes]. destruct (decide (q = p)) as [->|].
    - rewrite lookup_insert_eq. rewrite Hs in Hq. injection Hq as <-. eexists. split; [done|]. cbn. split_and!; try done. by right.
    - rewrite lookup_insert_ne by done. exists s0. split_and!; try done. by left. }
  assert (forall q s', shapes h' !! q = Some s' -> exists s0, shapes h !! q = Some s0) as Hfrom.
  { intros q s' Hq. unfold h', store_shape in Hq. cbn [shapes with_shapes] in Hq. apply lookup_insert_Some in Hq as [[<- _]|[_ Hq]]; by eexists. }
  split.
  2: { split; [done|]. intros q s0 Hq. destruct (Hto q s0 Hq) as (s' & Hs' & Hp & Ht & _). exists s'. split; [done|]. split; [done|]. by rewrite Ht. }
  assert (forall q s' t, shapes h' !! q = Some s' -> t ∈ transitions s' -> exists s0, shapes h !! q = Some s0 /\ t ∈ transitions s0) as Hedge.
  { intros q s' t Hq Ht. destruct (Hfrom q s' Hq) as (s0 & Hs0). destruct (Hto q s0 Hs0) as (s'' & Hs'' & _ & Ht' & _). exists s0. split; [done|]. congruence. }
  split.
  - destruct (ho_root _ Hh) as (r & sr & Hr & Hsr & Hp). destruct (Hto r sr Hsr) as (s' & Hs' & Hp' & _). exists r, s'. split_and!; try done. congruence.
  - intros q s' Hq. destruct (Hfrom q s' Hq) as (s0 & Hs0). by apply (ho_brk _ Hh q s0).
  - intros r q Hr [s' Hq]. destruct (Hfrom q s' Hq) as (s0 & Hs0). apply (ho_low _ Hh r q Hr). by eexists.
  - intros q s' Hq. destruct (Hfrom q s' Hq) as (s0 & Hs0). destruct (Hto q s0 Hs0) as (s'' & Hs'' & Hp & Ht & Hc & Hr & Hti & Hf).
    rewrite Hq in Hs''. injection Hs'' as <-. destruct (ho_shapes _ Hh q s0 Hs0) as [? ? ? ? ? Hfi ? ? ? ? Hch].
    split; rewrite ?Hp, ?Ht, ?Hc, ?Hr, ?Hti; try done.
    + intros i Ei. destruct Hf as [Hf|[Hf E]]; [apply Hfi; congruence|]. rewrite E. congruence.
    + intros t Hin. destruct (Hch t Hin) as (Hlt & c & Hc' & Hl). split; [done|]. destruct (Hto _ c Hc') as (c' & Hc'' & Hpc & _).
      exists c'. split; [done|]. unfold prop_pairs in *. by rewrite Hpc, Hp.
  - intros q [s' Hq]. destruct (Hfrom q s' Hq) as (s0 & Hs0). destruct (ho_parent _ Hh q) as [|(q' & s1 & t & Hs1 & Ht & E)]; [by eexists|by left|].
    right. destruct (Hto q' s1 Hs1) as (s1' & Hs1' & _ & Ht' & _). exists q', s1', t. split; [done|]. split; [congruence|done].
  - intros q1 s1 t1 q2 s2 t2 Hq1 Ht1 Hq2 Ht2. destruct (Hedge _ _ _ Hq1 Ht1) as (? & ? & ?). destruct (Hedge _ _ _ Hq2 Ht2) as (? & ? & ?).
    by eapply (ho_tree _ Hh).
  - intros q1 s1 t1 Hq1 Ht1. destruct (Hedge _ _ _ Hq1 Ht1) as (? & ? & ?). by eapply (ho_top _ Hh).
Qed.

(** A fresh child behind a new edge. *)
Section NewEdge.
Context (h : ShapeHeap) (p : Z) (s c : MalShape) (t : MalShapeTransition) (index : option MalShapeTransitionIndex).
Hypothesis Hh : heap_ok h.
Hypothesis Hs : shapes h !! p = Some s.
Hypothesis Hchild : tr_child t = shape_brk h.
Hypothesis Hkey : shape_key (tr_key t).
Hypothesis Hnew : forall u, u ∈ transitions s -> ~ edge_equiv (edge_of t) (edge_of u).
Hypothesis Hindex : forall i, index = Some i -> index_rep i (t :: transitions s).
Hypothesis Hc_count : inline_count c = arr_len (props c).
Hypothesis Hc_limit : arr_len (props c) <= MAL_SHAPE_MAX_INLINE_SLOTS.
Hypothesis Hc_keys : Forall (fun q => shape_key (prop_key q)) (props c).
Hypothesis Hc_slots : forall i q, props c !! i = Some q -> prop_slot q = Z.of_nat i.
Hypothesis Hc_root : tree_root c = tree_root s.
Hypothesis Hc_bare : find_index c = None /\ transition_index c = None /\ transitions c = [].
Hypothesis Hc_layout : prop_pairs c = layout_step (prop_pairs s) (edge_of t).

Definition new_edge_heap : ShapeHeap :=
  store_shape p (set_transitions index (t :: transitions s) s) (alloc_shape c h).2.

Lemma new_edge_p : p < shape_brk h.
Proof using Hh Hs. by apply (ho_brk _ Hh p s). Qed.
Lemma brk_fresh : shapes h !! shape_brk h = None.
Proof using Hh. destruct (shapes h !! shape_brk h) as [x|] eqn:E; [|done]. pose proof (ho_brk _ Hh _ _ E). lia. Qed.

(** Where the shapes of the grown heap come from. *)
Lemma new_edge_lookup q :
  shapes new_edge_heap !! q =
    if decide (q = p) then Some (set_transitions index (t :: transitions s) s)
    else if decide (q = shape_brk h) then Some c else shapes h !! q.
Proof using Hh Hs.
  pose proof new_edge_p. unfold new_edge_heap, store_shape, alloc_shape. cbn [shapes with_shapes snd].
  destruct (decide (q = p)) as [->|]; [by rewrite lookup_insert_eq|]. rewrite lookup_insert_ne by done.
  destruct (decide (q = shape_brk h)) as [->|]; [by rewrite lookup_insert_eq|by rewrite lookup_insert_ne].
Qed.

Lemma new_edge_old q s0 : shapes h !! q = Some s0 ->
  exists s', shapes new_edge_heap !! q = Some s' /\ props s' = props s0 /\ inline_count s' = inline_count s0 /\ tree_root s' = tree_root s0 /\
    find_index s' = find_index s0 /\ (forall u, u ∈ transitions s0 -> u ∈ transitions s') /\
    (forall u, u ∈ transitions s' -> u ∈ transitions s0 \/ u = t /\ q = p).
Proof using Hh Hs.
  intros Hq. rewrite new_edge_lookup. destruct (decide (q = p)) as [->|].
  - rewrite Hs in Hq. injection Hq as <-. eexists. split; [done|]. cbn. split_and!; try done.
    + intros u Hu. by right.
    + intros u Hu. apply elem_of_cons in Hu as [->|Hu]; [by right|by left].
  - destruct (decide (q = shape_brk h)) as [->|]; [by rewrite brk_fresh in Hq|]. exists s0. split_and!; try done. by left.
Qed.

Lemma new_edge_extends : extends h new_edge_heap.
Proof using Hh Hs.
  split; [done|]. intros q s0 Hq. destruct (new_edge_old q s0 Hq) as (s' & ? & ? & _ & _ & _ & ? & _). by exists s'.
Qed.

(** An edge of the grown heap. *)
Lemma new_edge_edges q s' u : shapes new_edge_heap !! q = Some s' -> u ∈ transitions s' ->
  (exists s0, shapes h !! q = Some s0 /\ u ∈ transitions s0) \/ (q = p /\ u = t).
Proof using Hh Hs Hc_bare.
  intros Hq Hu. rewrite new_edge_lookup in Hq. destruct (decide (q = p)) as [->|].
  - injection Hq as <-. cbn in Hu. apply elem_of_cons in Hu as [->|Hu]; [by right|left; by exists s].
  - destruct (decide (q = shape_brk h)) as [->|]; [|left; by exists s']. injection Hq as <-.
    destruct Hc_bare as (_ & _ & E). rewrite E in Hu. by apply elem_of_nil in Hu.
Qed.

Lemma old_child_live q s0 u : shapes h !! q = Some s0 -> u ∈ transitions s0 -> tr_child u < shape_brk h.
Proof using Hh.
  intros Hq Hu. destruct (so_children _ _ _ (ho_shapes _ Hh q s0 Hq) u Hu) as (_ & c0 & Hc0 & _). by apply (ho_brk _ Hh _ c0).
Qed.

Lemma new_parent_ok : shape_ok new_edge_heap p (set_transitions index (t :: transitions s) s).
Proof using All.
  destruct (ho_shapes _ Hh p s Hs) as [? ? ? ? ? ? ? ? Hd Hn Hch]. split; cbn; try done.
  - by apply Forall_cons.
  - intros u v Hu Hv He. apply elem_of_cons in Hu as [->|Hu], Hv as [->|Hv]; [done| | |by apply Hd].
    + by apply Hnew in Hv.
    + apply Hnew in Hu. by symmetry in He.
  - apply NoDup_cons. split; [|done]. intros Hin. apply list_elem_of_fmap in Hin as (u & E & Hu).
    pose proof (old_child_live p s u Hs Hu). lia.
  - intros u Hu. apply elem_of_cons in Hu as [->|Hu].
    + pose proof new_edge_p. rewrite Hchild, new_edge_lookup. split; [done|]. rewrite decide_False by lia. rewrite decide_True by done. by exists c.
    + destruct (Hch u Hu) as (Hlt & c0 & Hc0 & Hl). split; [done|]. destruct (new_edge_old _ _ Hc0) as (c' & Hc' & Ep & _).
      exists c'. split; [done|]. unfold prop_pairs in *. by rewrite Ep.
Qed.

Lemma new_child_ok : shape_ok new_edge_heap (shape_brk h) c.
Proof using All.
  destruct Hc_bare as (Ef & Ei & Et). pose proof (so_root _ _ _ (ho_shapes _ Hh p s Hs)).
  split; rewrite ?Ef, ?Ei, ?Et; try done; [change (shape_root new_edge_heap) with (shape_root h); congruence|intros t0 u0 Hin; by apply elem_of_nil in Hin|apply NoDup_nil_2|].
  intros u Hu. by apply elem_of_nil in Hu.
Qed.

Lemma new_edge_ok : heap_ok new_edge_heap.
Proof using All.
  pose proof new_edge_p as Hp. split.
  - destruct (ho_root _ Hh) as (r & sr & Hr & Hsr & Hps). destruct (new_edge_old r sr Hsr) as (s' & Hs' & Ep & _).
    exists r, s'. split_and!; try done. congruence.
  - intros q s' Hq. cbn. rewrite new_edge_lookup in Hq. destruct (decide (q = p)) as [->|]; [lia|].
    destruct (decide (q = shape_brk h)) as [->|]; [lia|]. pose proof (ho_brk _ Hh q s' Hq). lia.
  - intros r q Hr [s' Hq]. rewrite new_edge_lookup in Hq.
    pose proof (ho_low _ Hh r p Hr ltac:(by eexists)). destruct (decide (q = p)) as [->|]; [done|].
    destruct (decide (q = shape_brk h)) as [->|]; [lia|]. apply (ho_low _ Hh r q Hr). by eexists.
  - intros q s' Hq. rewrite new_edge_lookup in Hq. destruct (decide (q = p)) as [->|]; [injection Hq as <-; apply new_parent_ok|].
    destruct (decide (q = shape_brk h)) as [->|]; [injection Hq as <-; apply new_child_ok|].
    destruct (ho_shapes _ Hh q s' Hq) as [? ? ? ? ? ? ? ? ? ? Hch]. split; try done. intros u Hu. destruct (Hch u Hu) as (Hlt & c0 & Hc0 & Hl).
    split; [done|]. destruct (new_edge_old _ _ Hc0) as (c' & Hc' & Ep & _). exists c'. split; [done|]. unfold prop_pairs in *. by rewrite Ep.
  - intros q Hq. destruct (decide (q = shape_brk h)) as [->|Hne].
    + right. exists p, (set_transitions index (t :: transitions s) s), t. rewrite new_edge_lookup, decide_True by done.
      split; [done|]. split; [by left|done].
    + assert (is_Some (shapes h !! q)) as Hq'.
      { destruct Hq as [s' Hq]. rewrite new_edge_lookup in Hq. destruct (decide (q = p)) as [->|]; [by eexists|].
        rewrite decide_False in Hq by done. by eexists. }
      destruct (ho_parent _ Hh q Hq') as [|(q' & s1 & u & Hs1 & Hu & E)]; [by left|right].
      destruct (new_edge_old q' s1 Hs1) as (s1' & Hs1' & _ & _ & _ & _ & Ht' & _). exists q', s1', u. split_and!; try done. auto.
  - intros q1 s1 u1 q2 s2 u2 Hq1 Hu1 Hq2 Hu2 E.
    destruct (new_edge_edges _ _ _ Hq1 Hu1) as [(? & Ha & Hb)|[-> ->]], (new_edge_edges _ _ _ Hq2 Hu2) as [(? & Ha' & Hb')|[-> ->]]; try done.
    + by eapply (ho_tree _ Hh q1 _ u1 q2 _ u2).
    + pose proof (old_child_live _ _ _ Ha Hb). lia.
    + pose proof (old_child_live _ _ _ Ha' Hb'). lia.
  - intros q s' u Hq Hu. destruct (new_edge_edges _ _ _ Hq Hu) as [(? & Ha & Hb)|[-> ->]]; [by eapply (ho_top _ Hh)|].
    destruct (ho_root _ Hh) as (r & sr & Hr & Hsr & _). cbn. rewrite Hr, Hchild. pose proof (ho_brk _ Hh r sr Hsr). intros E. injection E as E. lia.
Qed.

Lemma new_edge_path es : shape_path h p es -> shape_path new_edge_heap (shape_brk h) (es ++ [edge_of t]).
Proof using HL Hh Hs Hchild.
  intros Hp. rewrite <- Hchild. eapply sp_edge; [by apply (extends_path h); [apply new_edge_extends|]| |].
  - rewrite new_edge_lookup, decide_True by done. done.
  - by left.
Qed.

(** The grown tree has one more path. *)
Lemma new_edge_paths q es' : shape_path new_edge_heap q es' ->
  shape_path h q es' \/ (q = shape_brk h /\ exists es, shape_path h p es /\ es' = es ++ [edge_of t]).
Proof using HL Hh Hs Hchild Hc_bare.
  induction 1 as [r Hr|q es s' u Hp IH Hq Hu]; [left; by apply sp_root|].
  destruct (new_edge_edges _ _ _ Hq Hu) as [(s0 & Ha & Hb)|[-> ->]].
  - destruct IH as [IH|[-> _]]; [left; by eapply sp_edge|]. by rewrite brk_fresh in Ha.
  - destruct IH as [IH|[E _]]; [|pose proof new_edge_p; lia]. right. split; [done|]. by exists es.
Qed.
Lemma new_edge_size : size (shapes new_edge_heap) = S (size (shapes h)).
Proof using Hh Hs.
  unfold new_edge_heap, store_shape, alloc_shape. cbn [shapes with_shapes snd]. rewrite map_size_insert_Some.
  - by rewrite map_size_insert_None by apply brk_fresh.
  - pose proof new_edge_p. rewrite lookup_insert_ne by lia. by eexists.
Qed.
End NewEdge.
End Tree.

Section Ops.
Context `{HK : KeyHeap, HL : !KeyHeapLaws HK}.

Lemma deref_ok h p s : shapes h !! p = Some s -> deref_shape h p = Ret s.
Proof. intros E. unfold deref_shape. by rewrite E. Qed.

(** * Lookup *)

(** Nothing but caches changes. *)
Definition same_tree (h h' : ShapeHeap) : Prop :=
  extends h h' /\ extends h' h /\ shape_removal_budget h' = shape_removal_budget h /\ size (shapes h') = size (shapes h).
Lemma same_tree_refl h : same_tree h h.
Proof using HL. split_and!; try done; apply extends_refl. Qed.

Lemma extends_back h p s index : shapes h !! p = Some s -> extends (store_shape p (set_find_index index s) h) h.
Proof using HL.
  intros Hs. split; [done|]. intros q s' Hq. cbn [shapes store_shape with_shapes] in Hq. apply lookup_insert_Some in Hq as [[<- <-]|[_ Hq]].
  - by exists s.
  - by exists s'.
Qed.

Lemma find_ok h p s key :
  heap_ok h -> shapes h !! p = Some s ->
  exists h', mal_shape_find h p key = Ret (first_prop (props s) key, h') /\ heap_ok h' /\ same_tree h h'.
Proof using HL.
  intros Hh Hs. pose proof (ho_shapes _ Hh p s Hs) as Hok. pose proof Hok as [Hc Hl Hk _ _ Hfi _ _ _ _ _].
  unfold MAL_SHAPE_MAX_INLINE_SLOTS in Hl. unfold mal_shape_find. rewrite (deref_ok h p s Hs). cbn [mbind outcome_bind]. rewrite Hc.
  assert (forall i, 0 <= i -> i = arr_len (props s) -> find_scan (seqZ 0 i) (props s) key = first_prop (props s) key) as Hscan.
  { intros i Hi ->. apply scan_first; [lia|done|lia]. }
  destruct (Z.ltb_spec 1 (arr_len (props s))) as [Hw|Hn].
  - unfold mal_shape_find_wide. rewrite (deref_ok h p s Hs). cbn [mbind outcome_bind]. rewrite Hc.
    destruct (Z.leb_spec (arr_len (props s)) 1); [lia|]. unfold MAL_SHAPE_FIND_INDEX_THRESHOLD.
    destruct (Z.leb_spec 4 (arr_len (props s))) as [H4|_].
    2: { exists h. rewrite Hscan by lia. split; [done|]. split; [done|]. apply same_tree_refl. }
    assert (exists index h', (match find_index s with
                   | Some index => Ret (index, h)
                   | None => index ← mal_shape_find_index_build s; Ret (index, store_shape p (set_find_index index s) h)
                   end) = Ret (index, h') /\ find_index_rep (props s) index /\ heap_ok h' /\ same_tree h h') as (index & h' & -> & Hrep & Hh' & Hst).
    { destruct (find_index s) as [index|] eqn:Ef.
      - exists index, h. split; [done|]. split; [by apply Hfi|]. split; [done|apply same_tree_refl].
      - destruct (find_index_build_ok s Hc Hl) as (index & Eb & Hrep). rewrite Eb. cbn [mbind outcome_bind]. eexists index, _. split; [done|].
        split; [done|]. destruct (set_find_index_ok h p s index Hh Hs Hrep) as [Hh' He]. split; [done|]. split_and!; [done|by apply extends_back|done|].
        cbn [shapes store_shape with_shapes]. by apply map_size_insert_Some; eexists. }
    cbn [mbind outcome_bind]. destruct (find_probe_ok (props s) index key Hrep Hl Hk) as (r & -> & Er). cbn [mbind outcome_bind].
    exists h'. rewrite Er. done.
  - exists h. split; [|split; [done|apply same_tree_refl]]. destruct (Z.eqb_spec (arr_len (props s)) 0) as [E0|].
    + rewrite <- Hscan with (i := 0) by lia. done.
    + pose proof (arr_len_nonneg (props s)). rewrite <- Hscan with (i := 1) by lia. done.
Qed.

(** * Edges *)

Lemma is_add_edge key attrs t : is_add key attrs t = true <-> edge_equiv (edge_of t) (EAdd key attrs).
Proof using HL.
  unfold is_add, edge_equiv, edge_of. destruct (tr_kind t); cbn [bool_decide decide_rel andb]; cbn; try done.
  by rewrite andb_comm.
Qed.

(** The edge for a property, if it was made. *)
Lemma edge_unique h p s key attrs t u :
  heap_ok h -> shapes h !! p = Some s -> t ∈ transitions s -> u ∈ transitions s -> is_add key attrs t = true -> is_add key attrs u = true -> t = u.
Proof using HL.
  intros Hh Hs Ht Hu Et Eu. apply is_add_edge in Et, Eu. apply (so_distinct _ _ _ (ho_shapes _ Hh p s Hs)); try done.
  by rewrite Et, Eu.
Qed.

Lemma index_find_edge h p s index key attrs :
  heap_ok h -> shapes h !! p = Some s -> transition_index s = Some index ->
  mal_shape_transition_index_find index key attrs (mal_shape_transition_hash key attrs) = Ret (find (is_add key attrs) (transitions s)) /\
  ti_complete index = true.
Proof using HL.
  intros Hh Hs Ei. pose proof (ho_shapes _ Hh p s Hs) as Hok. pose proof (so_index _ _ _ Hok index Ei) as Hrep. split.
  - apply index_find_ok; [done|apply (so_edge_keys _ _ _ Hok)|]. intros t u. by eapply edge_unique.
  - by destruct Hrep as (l & _ & (pos & _ & _ & ? & _) & _).
Qed.

Lemma find_add_transition_ok h p s key attrs :
  heap_ok h -> shapes h !! p = Some s ->
  mal_shape_find_add_transition h p key attrs = Ret (option_map tr_child (find (is_add key attrs) (transitions s))).
Proof using HL.
  intros Hh Hs. unfold mal_shape_find_add_transition. rewrite (deref_ok h p s Hs). cbn [mbind outcome_bind].
  destruct (transition_index s) as [index|] eqn:Ei; [|done].
  destruct (index_find_edge h p s index key attrs Hh Hs Ei) as [-> ->]. cbn [mbind outcome_bind]. by destruct (find _ _).
Qed.

Lemma list_search_ok ts key attrs : forall n, 0 <= n ->
  (list_search ts key attrs n).1 = find (is_add key attrs) ts /\ 0 <= (list_search ts key attrs n).2.
Proof using HL.
  induction ts as [|t ts IH]; intros n Hn; [done|]. cbn [list_search find]. unfold is_add at 1.
  destruct (bool_decide (tr_kind t = MAL_SHAPE_TRANSITION_ADD)); cbn [negb andb]; [|by apply IH].
  destruct ((tr_attrs t =? attrs) && mal_key_value_equals (tr_key t) key); [cbn; split; [done|lia]|]. apply IH. lia.
Qed.

(** Shapes named by a path, up to equal keys. *)
Definition known (h : ShapeHeap) (es : list edge) : Prop := exists q es', shape_path h q es' /\ path_equiv es' es.

(** The path [es] leads to [c] in the heap after, and no other path is new. *)
Record grew (h h' : ShapeHeap) (es : list edge) (c : Z) : Prop := {
  gr_ok : heap_ok h';
  gr_extends : extends h h';
  gr_path : exists es', shape_path h' c es' /\ path_equiv es' es;
  gr_known : forall x, known h' x <-> known h x \/ path_equiv es x;
  gr_size : (size (shapes h') <= S (size (shapes h)))%nat;
  gr_budget : shape_removal_budget h' = shape_removal_budget h;
}.

Lemma known_equiv h es es' : known h es -> path_equiv es es' -> known h es'.
Proof using HL. intros (q & x & Hp & He) E. exists q, x. split; [done|]. by rewrite He. Qed.

(** An edge that was there. *)
Lemma old_edge_grew h p s es es0 t :
  heap_ok h -> shape_path h p es0 -> path_equiv es0 es -> shapes h !! p = Some s -> t ∈ transitions s -> forall e, edge_equiv (edge_of t) e ->
  grew h h (es ++ [e]) (tr_child t).
Proof using HL.
  intros Hh Hp Heq Hs Ht e He. assert (shape_path h (tr_child t) (es0 ++ [edge_of t])) as Hc by (by eapply sp_edge).
  assert (path_equiv (es0 ++ [edge_of t]) (es ++ [e])) as Hce by (by apply path_snoc_proper).
  split; try done; [apply extends_refl|by eexists| |lia]. intros x. split; [by left|]. intros [?|Hx]; [done|].
  exists (tr_child t), (es0 ++ [edge_of t]). split; [done|]. by rewrite Hce.
Qed.

(** A new edge. *)
Lemma new_edge_grew h p s c t index es es0 e :
  heap_ok h -> shape_path h p es0 -> path_equiv es0 es -> shapes h !! p = Some s -> edge_equiv (edge_of t) e ->
  tr_child t = shape_brk h -> shape_key (tr_key t) -> (forall u, u ∈ transitions s -> ~ edge_equiv (edge_of t) (edge_of u)) ->
  (forall i, index = Some i -> index_rep i (t :: transitions s)) ->
  inline_count c = arr_len (props c) -> arr_len (props c) <= MAL_SHAPE_MAX_INLINE_SLOTS ->
  Forall (fun q => shape_key (prop_key q)) (props c) -> (forall i q, props c !! i = Some q -> prop_slot q = Z.of_nat i) ->
  tree_root c = tree_root s -> find_index c = None /\ transition_index c = None /\ transitions c = [] ->
  prop_pairs c = layout_step (prop_pairs s) (edge_of t) ->
  grew h (new_edge_heap h p s c t index) (es ++ [e]) (shape_brk h).
Proof using HL.
  intros Hh Hp Heq Hs He Hch Hk Hnew Hi Hc1 Hc2 Hc3 Hc4 Hc5 Hc6 Hc7.
  assert (path_equiv (es0 ++ [edge_of t]) (es ++ [e])) as Hce by (by apply path_snoc_proper).
  pose proof (new_edge_path h p s c t index Hh Hs Hch es0 Hp) as Hpath.
  pose proof (new_edge_extends h p s c t index Hh Hs) as Hext. split.
  - by apply new_edge_ok.
  - done.
  - by eexists.
  - intros x. split.
    + intros (q & es' & Hq & Hx). destruct (new_edge_paths h p s c t index Hh Hs Hch Hc6 q es' Hq) as [Hq'|(_ & es1 & Hes1 & ->)].
      * left. by exists q, es'.
      * right. rewrite (shape_one_path h p es1 Hh Hes1 es0 Hp) in Hx. by rewrite <- Hce.
    + intros [(q & es' & Hq & Hx)|Hx].
      * exists q, es'. split; [by eapply extends_path|done].
      * exists (shape_brk h), (es0 ++ [edge_of t]). split; [done|]. by rewrite Hce.
  - by rewrite new_edge_size.
  - done.
Qed.

(** A shape has fewer edges than there are shapes. *)
Lemma edges_size h p s : heap_ok h -> shapes h !! p = Some s -> (length (transitions s) <= size (shapes h))%nat.
Proof using HL.
  intros Hh Hs. destruct (ho_shapes _ Hh p s Hs) as [_ _ _ _ _ _ _ _ _ Hnd Hch].
  rewrite <- (length_map tr_child), <- size_dom, <- (size_list_to_set (C := gset Z)) by done. apply subseteq_size. intros q Hq.
  apply elem_of_list_to_set, list_elem_of_fmap in Hq as (t & -> & Ht). destruct (Hch t Ht) as (_ & c & Hc & _). apply elem_of_dom. by eexists.
Qed.

Definition SHAPE_ROOM : Z := EDGE_ROOM - 2.

Lemma add_property_ok h p s es0 es key attrs :
  heap_ok h -> shape_path h p es0 -> path_equiv es0 es -> shapes h !! p = Some s -> shape_key key ->
  arr_len (props s) < MAL_SHAPE_MAX_INLINE_SLOTS -> Z.of_nat (size (shapes h)) < SHAPE_ROOM ->
  exists c h', mal_shape_add_property h p key attrs = Ret (c, h') /\ grew h h' (es ++ [EAdd key attrs]) c.
Proof using HL.
  intros Hh Hp Heq Hs Hk Hl Hroom. pose proof (ho_shapes _ Hh p s Hs) as Hok. pose proof Hok as [Hc _ Hks Hsl Hr _ Hix _ _ _ _].
  pose proof (edges_size h p s Hh Hs) as Hes. unfold mal_shape_add_property. rewrite (deref_ok h p s Hs). cbn [mbind outcome_bind]. rewrite Hc.
  destruct (Z.leb_spec MAL_SHAPE_MAX_INLINE_SLOTS (arr_len (props s))); [lia|].
  set (found := find (is_add key attrs) (transitions s)).
  assert (exists m search, (match transition_index s with
       | None => Ret (None, true)
       | Some index =>
           m ← mal_shape_transition_index_find index key attrs (mal_shape_transition_hash key attrs);
           Ret (m, match m with Some _ => false | None => negb (ti_complete index) end)
       end) = Ret (m, search) /\ exists n, (if search : bool then list_search (transitions s) key attrs 0 else (m, 0)) = (found, n) /\ 0 <= n)
    as (m & search & -> & n & En & Hn).
  { destruct (transition_index s) as [index|] eqn:Ei.
    - destruct (index_find_edge h p s index key attrs Hh Hs Ei) as [-> ->]. cbn [mbind outcome_bind]. fold found.
      exists found, false. split; [by destruct found|]. by exists 0.
    - exists None, true. split; [done|]. destruct (list_search_ok (transitions s) key attrs 0) as [E1 E2]; [lia|].
      destruct (list_search _ _ _ _) as [m n]. cbn in *. exists n. by rewrite E1. }
  cbn [mbind outcome_bind]. rewrite En. destruct found as [t|] eqn:Ef.
  { apply find_some in Ef as [Ht Ha]. apply list_elem_of_In in Ht. exists (tr_child t), h. split; [done|].
    apply (old_edge_grew h p s es es0 t); try done. by apply is_add_edge. }
  cbn beta iota zeta delta [alloc_shape].
  set (t := mkTransition key (shape_brk h) attrs MAL_SHAPE_TRANSITION_ADD).
  set (c := mkShape _ _ None [] None (tree_root s) None).
  assert (exists index, (match transition_index s with
                 | Some index => index ← mal_shape_transition_index_add index t; Ret (Some index)
                 | None =>
                     if MAL_SHAPE_TRANSITION_INDEX_THRESHOLD <=? n + 1
                     then index ← mal_shape_transition_index_build (t :: transitions s); Ret (Some index)
                     else Ret None
                 end) = Ret index /\ forall i, index = Some i -> index_rep i (t :: transitions s)) as (index & -> & Hrep).
  { assert (arr_len (t :: transitions s) + 1 < EDGE_ROOM) as Hr1 by (unfold arr_len, SHAPE_ROOM in *; cbn [length]; lia).
    destruct (transition_index s) as [index|] eqn:Ei.
    - destruct (index_add_ok index (transitions s) t (Hix index eq_refl) eq_refl) as (index' & -> & Hrep).
      { unfold arr_len in *. cbn [length] in Hr1. lia. }
      eexists. split; [done|]. by intros i [= <-].
    - destruct (_ <=? _); [|by exists None]. destruct (index_build_ok (t :: transitions s) Hr1) as (index' & -> & Hrep).
      eexists. split; [done|]. by intros i [= <-]. }
  cbn [mbind outcome_bind]. exists (shape_brk h), (new_edge_heap h p s c t index). split; [done|].
  assert (arr_len (props c) = arr_len (props s) + 1) as Elen by (unfold c; cbn [props]; by rewrite arr_len_app).
  apply (new_edge_grew h p s c t index es es0); try done.
  - intros u Hu He. symmetry in He. apply (is_add_edge key attrs) in He. apply list_elem_of_In in Hu. by rewrite (find_none _ _ Ef u Hu) in He.
  - rewrite Elen. lia.
  - unfold c. cbn [props]. apply Forall_app. split; [done|]. by apply Forall_singleton.
  - intros i q Hi. unfold c in Hi. cbn [props] in Hi. apply lookup_app_Some in Hi as [Hi|[Hge Hi]]; [by apply Hsl|].
    apply list_lookup_singleton_Some in Hi as [Hi <-]. cbn [prop_slot]. unfold arr_len. lia.
  - unfold c, prop_pairs. cbn [props layout_step edge_of tr_kind t]. by rewrite map_app.
Qed.
End Ops.
