(* ===== verification/ShapeRefine.v ===== *)
(** Shapes against a machine of paths: a specification shape is the sequence of edges
    that made it, and the only state is the set of paths made so far and the budget of
    deletions. *)

From stdpp Require Import gmap.
From S2P Require Import Prelude F64 Value HeapString HeapStringSpec Key LinearProbe Shape ShapeIndex ShapeSpec.

Section Refine.
Context `{HK : KeyHeap, HL : !KeyHeapLaws HK}.

(** * The machine *)

Fixpoint path_eqb (es es' : list edge) : bool :=
  match es, es' with
  | [], [] => true
  | e :: es, e' :: es' => edge_eqb e e' && path_eqb es es'
  | _, _ => false
  end.
Lemma path_eqb_spec es es' : path_eqb es es' = true <-> path_equiv es es'.
Proof.
  unfold path_equiv. revert es'. induction es as [|e es IH]; intros [|e' es']; cbn [path_eqb].
  - split; [intros; constructor|done].
  - split; [done|inversion 1].
  - split; [done|inversion 1].
  - rewrite andb_true_iff, IH. by rewrite Forall2_cons.
Qed.

Record SpecShapes : Type := mkSpec { sp_known : list (list edge); sp_budget : Z }.
Definition is_known (sp : SpecShapes) (es : list edge) : bool := existsb (path_eqb es) (sp_known sp).
Definition intern (es : list edge) (sp : SpecShapes) : SpecShapes :=
  if is_known sp es then sp else mkSpec (es :: sp_known sp) (sp_budget sp).

Definition spec_add (es : list edge) (key attrs : Z) (sp : SpecShapes) : option (list edge * SpecShapes) :=
  if MAL_SHAPE_MAX_INLINE_SLOTS <=? arr_len (layout es) then None
  else Some (es ++ [EAdd key attrs], intern (es ++ [EAdd key attrs]) sp).
Fixpoint spec_adds (keys : list Z) (es : list edge) (sp : SpecShapes) : option (list edge * SpecShapes) :=
  match keys with
  | [] => Some (es, sp)
  | key :: keys => '(es, sp) ← spec_add es key default_attrs sp; spec_adds keys es sp
  end.
(** Deletion adds the other properties again, and pays for the paths that are new. *)
Fixpoint spec_rebuild (l : layout_t) (es : list edge) (sp : SpecShapes) : option (list edge) * SpecShapes :=
  match l with
  | [] => (Some es, sp)
  | (key, attrs) :: l =>
      let es := es ++ [EAdd key attrs] in
      if is_known sp es then spec_rebuild l es sp
      else if sp_budget sp =? 0 then (None, sp)
      else spec_rebuild l es (mkSpec (es :: sp_known sp) (sp_budget sp - 1))
  end.
Definition spec_remove (es : list edge) (index : Z) (sp : SpecShapes) : option (list edge) * SpecShapes :=
  if MAL_SHAPE_ORDINARY_SLOTS <? arr_len (layout es) then (None, sp)
  else spec_rebuild (delete (Z.to_nat index) (layout es)) [] sp.
(** Deletion ends at the path of the properties that stay. *)
Lemma spec_rebuild_layout l : forall es sp es', (spec_rebuild l es sp).1 = Some es' -> layout es' = layout es ++ l.
Proof.
  induction l as [|[k a] l IH]; intros es sp es'; cbn [spec_rebuild].
  - intros [= <-]. by rewrite app_nil_r.
  - assert (layout es ++ (k, a) :: l = layout (es ++ [EAdd k a]) ++ l) as ->.
    { unfold layout. rewrite fold_left_app. cbn [fold_left layout_step]. by rewrite <- app_assoc. }
    destruct (is_known sp (es ++ [EAdd k a])); [apply IH|]. destruct (sp_budget sp =? 0); [done|apply IH].
Qed.
Definition pair_clears (clear : Z) (kv : Z * Z) : bool := mal_value_is_string kv.1 && negb (Z.land kv.2 clear =? 0).
Definition integrity_edge (clear_writable : bool) : edge := if clear_writable then EFreeze else ESeal.
Definition spec_integrity (es : list edge) (clear_writable : bool) (sp : SpecShapes) : list edge * SpecShapes :=
  if existsb (pair_clears (integrity_mask clear_writable)) (layout es)
  then (es ++ [integrity_edge clear_writable], intern (es ++ [integrity_edge clear_writable]) sp)
  else (es, sp).
Definition spec_find (es : list edge) (key : Z) : Z :=
  match list_find (fun kv => mal_key_value_equals kv.1 key = true) (layout es) with
  | Some (i, _) => Z.of_nat i
  | None => -1
  end.

(** * Layouts up to equal keys *)

Definition pair_equiv (kv kv' : Z * Z) : Prop := mal_key_value_equals kv.1 kv'.1 = true /\ kv.2 = kv'.2.
Definition layout_equiv : layout_t -> layout_t -> Prop := Forall2 pair_equiv.
Definition good_pair (kv : Z * Z) : Prop := shape_key kv.1.
Definition good_edge (e : edge) : Prop := match e with EAdd key _ => shape_key key | _ => True end.

Lemma good_layout es : Forall good_edge es -> Forall good_pair (layout es).
Proof.
  induction es as [|e es IH] using rev_ind; intros Hg; [by constructor|]. apply Forall_app in Hg as [Hg He]. inversion_clear He as [|? ? He1 _].
  rewrite layout_snoc. specialize (IH Hg). destruct e as [k a| |]; cbn [layout_step].
  - apply Forall_app. split; [done|]. apply Forall_singleton. exact He1.
  - rewrite Forall_map. eapply Forall_impl; [exact IH|]. intros [k a] Hk. unfold clear_pair, good_pair in *. cbn in *. by destruct (mal_value_is_string k).
  - rewrite Forall_map. eapply Forall_impl; [exact IH|]. intros [k a] Hk. unfold clear_pair, good_pair in *. cbn in *. by destruct (mal_value_is_string k).
Qed.

Lemma clear_equiv clear kv kv' : good_pair kv -> pair_equiv kv kv' -> pair_equiv (clear_pair clear kv) (clear_pair clear kv').
Proof.
  intros Hg [Hk Ha]. unfold clear_pair. rewrite <- (equal_keys_string _ _ Hg Hk). destruct (mal_value_is_string kv.1); [|done].
  split; [done|]. cbn. by rewrite Ha.
Qed.
Lemma map_clear_equiv clear l l' : Forall good_pair l -> layout_equiv l l' -> layout_equiv (map (clear_pair clear) l) (map (clear_pair clear) l').
Proof.
  intros Hg Hl. induction Hl as [|kv kv' l l' Hkv _ IH]; [by constructor|]. apply Forall_cons in Hg as [? ?]. cbn. constructor; [by apply clear_equiv|by apply IH].
Qed.

Lemma layout_equivalent es es' : Forall good_edge es -> path_equiv es es' -> layout_equiv (layout es) (layout es').
Proof.
  revert es'. induction es as [|e es IH] using rev_ind; intros es' Hg He.
  - apply Forall2_nil_inv_l in He as ->. by constructor.
  - destruct es' as [|e' es' _] using rev_ind; [by apply Forall2_length in He; rewrite length_app in He; cbn in He; lia|].
    apply path_equiv_snoc in He as [He Hee]. apply Forall_app in Hg as [Hg Hge]. specialize (IH es' Hg He). rewrite !layout_snoc.
    destruct e as [k a| |], e' as [k' a'| |]; try done; cbn [layout_step].
    + apply Forall2_app; [done|]. constructor; [|by constructor]. unfold edge_equiv in Hee. cbn in Hee. apply andb_true_iff in Hee as [? ?].
      split; [done|]. cbn. lia.
    + by apply map_clear_equiv; [apply good_layout|].
    + by apply map_clear_equiv; [apply good_layout|].
Qed.

Lemma layout_equiv_len l l' : layout_equiv l l' -> arr_len l = arr_len l'.
Proof. intros Hf. unfold arr_len. by rewrite (Forall2_length _ _ _ Hf). Qed.

Lemma clears_equiv clear l l' : Forall good_pair l -> layout_equiv l l' -> existsb (pair_clears clear) l = existsb (pair_clears clear) l'.
Proof.
  intros Hg Hl. induction Hl as [|kv kv' l l' [Hk Ha] _ IH]; [done|]. apply Forall_cons in Hg as [Hg Hgs]. cbn [existsb]. rewrite (IH Hgs). f_equal.
  unfold pair_clears. by rewrite (equal_keys_string _ _ Hg Hk), Ha.
Qed.

Lemma find_equiv l l' key :
  layout_equiv l l' ->
  match list_find (fun kv => mal_key_value_equals kv.1 key = true) l with Some (i, _) => Z.of_nat i | None => -1 end
  = match list_find (fun kv => mal_key_value_equals kv.1 key = true) l' with Some (i, _) => Z.of_nat i | None => -1 end.
Proof.
  intros Hl.
  assert (forall l l', layout_equiv l l' ->
    option_map fst (list_find (fun kv => mal_key_value_equals kv.1 key = true) l) = option_map fst (list_find (fun kv => mal_key_value_equals kv.1 key = true) l')) as Hf.
  { clear l l' Hl. intros l l' Hl. induction Hl as [|kv kv' l l' [Hk _] _ IH]; [done|]. cbn [list_find].
    assert (mal_key_value_equals kv.1 key = mal_key_value_equals kv'.1 key) as ->.
    { apply eq_true_iff_eq. pose proof key_equals_equiv as [_ Hsym Htr]. split; intros E; [|by eapply Htr]. eapply Htr; [by apply Hsym|done]. }
    destruct (decide _); [done|].
    destruct (list_find _ l) as [[i x]|], (list_find _ l') as [[j y]|]; cbn in *; try done. congruence. }
  specialize (Hf l l' Hl). destruct (list_find _ l) as [[i x]|], (list_find _ l') as [[j y]|]; cbn in *; try done. congruence.
Qed.

(** * What a heap stands for *)

Record shapes_rep (h : ShapeHeap) (sp : SpecShapes) : Prop := {
  sr_ok : heap_ok h;
  sr_budget : shape_removal_budget h = sp_budget sp;
  sr_known : forall es, known h es <-> is_known sp es = true;
}.
Definition names (h : ShapeHeap) (p : Z) (es : list edge) : Prop := exists es0, shape_path h p es0 /\ path_equiv es0 es.

Lemma is_known_spec sp es : is_known sp es = true <-> exists x, x ∈ sp_known sp /\ path_equiv es x.
Proof.
  unfold is_known. rewrite existsb_exists. setoid_rewrite <- list_elem_of_In. by setoid_rewrite path_eqb_spec.
Qed.
Lemma intern_known sp es x : is_known (intern es sp) x = true <-> is_known sp x = true \/ path_equiv es x.
Proof using HL.
  unfold intern. destruct (is_known sp es) eqn:E.
  - split; [by left|]. intros [?|Hx]; [done|]. apply is_known_spec in E as (y & Hy & Hey). apply is_known_spec. exists y. split; [done|].
    by rewrite <- Hx.
  - rewrite !is_known_spec. cbn [sp_known]. setoid_rewrite elem_of_cons. split.
    + intros (y & [->|Hy] & Hxy); [right; by symmetry|left; by exists y].
    + intros [(y & ? & ?)|Hx]; [exists y; auto|]. exists es. split; [by left|by symmetry].
Qed.

Lemma path_good h p es : heap_ok h -> shape_path h p es -> Forall good_edge es.
Proof.
  intros Hh Hp. induction Hp as [|p es s t Hp IH Hs Ht]; [by constructor|]. apply Forall_app. split; [done|]. constructor; [|by constructor].
  pose proof (so_edge_keys _ _ _ (ho_shapes _ Hh p s Hs)) as Hk. rewrite Forall_forall in Hk. specialize (Hk t Ht).
  unfold edge_of. by destruct (tr_kind t).
Qed.

Lemma names_live h p es : heap_ok h -> names h p es -> exists s, shapes h !! p = Some s.
Proof using HL. intros Hh (es0 & Hp & _). by eapply path_live. Qed.
Lemma names_layout h p es s : heap_ok h -> names h p es -> shapes h !! p = Some s -> layout_equiv (prop_pairs s) (layout es).
Proof using HL.
  intros Hh (es0 & Hp & He) Hs. rewrite (path_layout h p es0 s Hh Hp Hs). apply layout_equivalent; [by eapply path_good|done].
Qed.
Lemma names_extends h h' p es : extends h h' -> names h p es -> names h' p es.
Proof using HL. intros He (es0 & Hp & Heq). exists es0. split; [by eapply extends_path|done]. Qed.

(** Handles are equal exactly when their paths are. *)
Lemma names_identity h p q es es' : heap_ok h -> names h p es -> names h q es' -> p = q <-> path_equiv es es'.
Proof using HL.
  intros Hh (e0 & Hp & He) (e1 & Hq & He'). split.
  - intros <-. rewrite <- He, <- He'. by rewrite (shape_one_path h p e0 Hh Hp e1 Hq).
  - intros E. eapply (path_shape h p e0 Hh Hp); [exact Hq|]. by rewrite He, He'.
Qed.

(** What a step on the heap must do to match a step of the machine. *)
Definition grown_to (h : ShapeHeap) (h' : ShapeHeap) (sp' : SpecShapes) (c : Z) (es : list edge) (n : nat) : Prop :=
  shapes_rep h' sp' /\ extends h h' /\ names h' c es /\ (size (shapes h') <= size (shapes h) + n)%nat.

Lemma grew_rep h h' sp es c : shapes_rep h sp -> grew h h' es c -> grown_to h h' (intern es sp) c es 1.
Proof using HL.
  intros [Hh Hb Hk] [Hok Hext Hpath Hkn Hsz Hbud]. split_and!; try done; [|lia]. split; [done| |].
  - rewrite Hbud, Hb. unfold intern. by destruct (is_known sp es).
  - intros x. by rewrite Hkn, intern_known, Hk.
Qed.

Lemma add_refines h sp p es key attrs :
  shapes_rep h sp -> names h p es -> shape_key key -> Z.of_nat (size (shapes h)) < SHAPE_ROOM ->
  match spec_add es key attrs sp with
  | None => mal_shape_add_property h p key attrs = Abort
  | Some (es', sp') => exists c h', mal_shape_add_property h p key attrs = Ret (c, h') /\ grown_to h h' sp' c es' 1
  end.
Proof using HL.
  intros Hrep Hn Hk Hroom. pose proof (sr_ok _ _ Hrep) as Hh. destruct (names_live h p es Hh Hn) as (s & Hs).
  pose proof (layout_equiv_len _ _ (names_layout h p es s Hh Hn Hs)) as Hl.
  assert (arr_len (prop_pairs s) = arr_len (props s)) as El by (unfold prop_pairs, arr_len; by rewrite length_map).
  unfold spec_add. rewrite <- Hl, El. destruct (Z.leb_spec MAL_SHAPE_MAX_INLINE_SLOTS (arr_len (props s))) as [Hfull|Hlt].
  - unfold mal_shape_add_property. rewrite (deref_ok h p s Hs). cbn [mbind outcome_bind].
    rewrite (so_count _ _ _ (ho_shapes _ Hh p s Hs)). by destruct (Z.leb_spec MAL_SHAPE_MAX_INLINE_SLOTS (arr_len (props s))); [|lia].
  - destruct Hn as (es0 & Hp & He). destruct (add_property_ok h p s es0 es key attrs Hh Hp He Hs Hk Hlt Hroom) as (c & h' & E & Hg).
    exists c, h'. split; [done|]. by apply grew_rep.
Qed.

Lemma grown_trans h h1 h2 sp1 sp2 c1 c2 es1 es2 n m :
  grown_to h h1 sp1 c1 es1 n -> grown_to h1 h2 sp2 c2 es2 m -> grown_to h h2 sp2 c2 es2 (n + m).
Proof using HL. intros (? & ? & ? & ?) (? & ? & ? & ?). split_and!; try done; [by eapply extends_trans|lia]. Qed.

Lemma adds_refines keys : forall h sp p es,
  shapes_rep h sp -> names h p es -> Forall shape_key keys -> Z.of_nat (size (shapes h) + length keys) < SHAPE_ROOM ->
  match spec_adds keys es sp with
  | None => from_keys_loop keys p h = Abort
  | Some (es', sp') => exists c h', from_keys_loop keys p h = Ret (c, h') /\ grown_to h h' sp' c es' (length keys)
  end.
Proof using HL.
  induction keys as [|key keys IH]; intros h sp p es Hrep Hn Hk Hroom; cbn [spec_adds from_keys_loop length] in *.
  { exists p, h. split; [done|]. split_and!; try done; [apply extends_refl|lia]. }
  apply Forall_cons in Hk as [Hk Hks]. pose proof (add_refines h sp p es key default_attrs Hrep Hn Hk ltac:(lia)) as Ha.
  destruct (spec_add es key default_attrs sp) as [[es1 sp1]|]; cbn [mbind option_bind]; [|by rewrite Ha].
  destruct Ha as (c & h1 & E & Hg). rewrite E. cbn [mbind outcome_bind]. pose proof Hg as (Hrep1 & _ & Hn1 & Hsz).
  pose proof (IH h1 sp1 c es1 Hrep1 Hn1 Hks ltac:(lia)) as Hi. destruct (spec_adds keys es1 sp1) as [[es2 sp2]|]; [|done].
  destruct Hi as (c2 & h2 & E2 & Hg2). exists c2, h2. split; [done|]. by apply (grown_trans h h1 h2 sp1 sp2 c c2 es1 es2 1 (length keys)).
Qed.

Lemma grown_same h sp p es n : shapes_rep h sp -> names h p es -> grown_to h h sp p es n.
Proof using HL. intros Hrep Hn. split_and!; try done; [apply extends_refl|lia]. Qed.

(** * Integrity levels *)

Lemma edge_of_integrity t cw : tr_kind t = integrity_kind cw -> edge_of t = integrity_edge cw.
Proof. unfold edge_of. intros ->. by destruct cw. Qed.
Lemma integrity_of_edge t cw : edge_equiv (edge_of t) (integrity_edge cw) -> tr_kind t = integrity_kind cw.
Proof. unfold edge_of, edge_equiv. by destruct cw, (tr_kind t). Qed.

Lemma clears_pairs clear s : existsb (clears clear) (props s) = existsb (pair_clears clear) (prop_pairs s).
Proof. unfold prop_pairs. induction (props s) as [|q ps IH]; [done|]. cbn. by rewrite IH. Qed.
Lemma clear_props_pairs clear ps : map pair_of (map (clear_prop clear) ps) = map (clear_pair clear) (map pair_of ps).
Proof.
  rewrite !map_map. apply map_ext. intros q. unfold clear_prop, clear_pair, pair_of. cbn. by destruct (mal_value_is_string (prop_key q)).
Qed.

Lemma integrity_refines h sp p es cw :
  shapes_rep h sp -> names h p es ->
  exists c h', mal_shape_set_integrity h p cw = Ret (c, h') /\
    grown_to h h' (spec_integrity es cw sp).2 c (spec_integrity es cw sp).1 1.
Proof using HL.
  intros Hrep Hn. pose proof (sr_ok _ _ Hrep) as Hh. destruct (names_live h p es Hh Hn) as (s & Hs).
  pose proof (names_layout h p es s Hh Hn Hs) as Hl. pose proof (ho_shapes _ Hh p s Hs) as Hok.
  unfold mal_shape_set_integrity, spec_integrity. rewrite (deref_ok h p s Hs), integrity_mask_spec. cbn [mbind outcome_bind]. rewrite clears_pairs.
  rewrite (clears_equiv _ _ _) by (exact Hl || (unfold prop_pairs; rewrite Forall_map; exact (so_keys _ _ _ Hok))).
  destruct (existsb _ (layout es)); cbn [negb fst snd]; [|exists p, h; split; [done|by apply grown_same]].
  destruct Hn as (es0 & Hp & He). destruct (find _ (transitions s)) as [t|] eqn:Ef.
  - apply find_some in Ef as [Ht Hk]. apply list_elem_of_In in Ht. apply bool_decide_eq_true in Hk. exists (tr_child t), h. split; [done|].
    apply grew_rep; [done|]. apply (old_edge_grew h p s es es0 t); try done. by rewrite (edge_of_integrity t cw Hk).
  - cbn beta iota zeta delta [alloc_shape]. set (t := mkTransition 0 (shape_brk h) 0 (integrity_kind cw)). set (c := mkShape _ _ None [] None (tree_root s) None).
    assert (edge_of t = integrity_edge cw) as Et by (by apply edge_of_integrity).
    assert (arr_len (props c) = arr_len (props s)) as Elen by (unfold c, arr_len; cbn [props]; by rewrite length_map).
    exists (shape_brk h), (new_edge_heap h p s c t (transition_index s)). split; [done|]. apply grew_rep; [done|].
    pose proof Hok as [Hc Hlim Hks Hsl _ _ Hix _ _ _ _].
    apply (new_edge_grew h p s c t (transition_index s) es es0); try done.
    + by rewrite Et.
    + intros u Hu Heq. apply list_elem_of_In in Hu. pose proof (find_none _ _ Ef u Hu) as Hno. apply bool_decide_eq_false in Hno.
      apply Hno, integrity_of_edge. by rewrite <- Et.
    + intros i Hi. destruct (Hix i Hi) as (l & Hperm & Hrest). exists l. split; [|done]. unfold add_edges. rewrite filter_cons_False; [done|].
      unfold is_add_kind. cbn. by destruct cw.
    + by rewrite Elen.
    + by rewrite Elen.
    + unfold c. cbn [props]. rewrite Forall_map. eapply Forall_impl; [exact Hks|]. intros q Hq. unfold clear_prop. by destruct (mal_value_is_string _).
    + intros i q Hi. unfold c in Hi. cbn [props] in Hi. apply list_lookup_fmap_Some in Hi as (q0 & -> & Hi). rewrite <- (Hsl i q0 Hi).
      unfold clear_prop. by destruct (mal_value_is_string _).
    + rewrite Et. unfold c, prop_pairs. cbn [props]. rewrite clear_props_pairs. by destruct cw.
Qed.

(** * Deletion *)

(** The walk over the properties that stay. *)
Fixpoint rebuild (l : layout_t) (next : Z) (h : ShapeHeap) : outcome (option Z * ShapeHeap) :=
  match l with
  | [] => Ret (Some next, h)
  | (key, attrs) :: l =>
      found ← mal_shape_find_add_transition h next key attrs;
      match found with
      | Some child => rebuild l child h
      | None =>
          if shape_removal_budget h =? 0 then Ret (None, h)
          else
            '(child, h) ← mal_shape_add_property (mkShapeHeap (shapes h) (shape_brk h) (shape_root h) (shape_removal_budget h - 1)) next key attrs;
            rebuild l child h
      end
  end.

(** [l] starts at position [i]. *)
Definition skip (index i : Z) (l : layout_t) : layout_t := if i <=? index then delete (Z.to_nat (index - i)) l else l.

Lemma remove_loop_rebuild ps index : forall n i next h, 0 <= i -> i + Z.of_nat n = arr_len ps ->
  remove_loop (seqZ i (Z.of_nat n)) index ps next h
  = rebuild (skip index i (drop (Z.to_nat i) (map pair_of ps))) next h.
Proof.
  induction n as [|n IH]; intros i next h Hi Hn.
  - rewrite (drop_ge (map pair_of ps)) by (rewrite length_map; unfold arr_len in Hn; lia). unfold skip. destruct (i <=? index); [|done]. by destruct (Z.to_nat (index - i)).
  - rewrite seqZ_cons by lia. cbn [remove_loop]. replace (Z.pred (Z.of_nat (S n))) with (Z.of_nat n) by lia.
    pose proof (arr_get_lookup ps i ltac:(unfold arr_len in *; lia)) as Hg.
    assert (drop (Z.to_nat i) (map pair_of ps) = pair_of (arr_get ps i) :: drop (Z.to_nat (Z.succ i)) (map pair_of ps)) as Hd.
    { replace (Z.to_nat (Z.succ i)) with (S (Z.to_nat i)) by lia. apply drop_S. by rewrite list_lookup_fmap, Hg. }
    destruct (Z.eqb_spec i index) as [->|Hne].
    + rewrite IH by lia. rewrite Hd. unfold skip. destruct (Z.leb_spec (Z.succ index) index), (Z.leb_spec index index); try lia.
      by replace (Z.to_nat (index - index)) with 0%nat by lia.
    + assert (skip index i (drop (Z.to_nat i) (map pair_of ps)) = pair_of (arr_get ps i) :: skip index (Z.succ i) (drop (Z.to_nat (Z.succ i)) (map pair_of ps))) as ->.
      { rewrite Hd. unfold skip. destruct (Z.leb_spec i index), (Z.leb_spec (Z.succ i) index); try lia; [|done].
        by replace (Z.to_nat (index - i)) with (S (Z.to_nat (index - Z.succ i))) by lia. }
      cbn [rebuild pair_of]. destruct (mal_shape_find_add_transition _ _ _ _) as [[child|]| |]; cbn [mbind outcome_bind]; try done; [by apply IH; lia|].
      destruct (shape_removal_budget h =? 0); [done|]. destruct (mal_shape_add_property _ _ _ _) as [[child h']| |]; cbn [mbind outcome_bind]; try done.
      by apply IH; lia.
Qed.

Definition set_budget (n : Z) (h : ShapeHeap) : ShapeHeap := mkShapeHeap (shapes h) (shape_brk h) (shape_root h) n.
Lemma budget_extends n h : extends h (set_budget n h) /\ extends (set_budget n h) h.
Proof. split; (split; [done|]); intros p s Hs; by exists s. Qed.
Lemma budget_ok n h : heap_ok h -> heap_ok (set_budget n h).
Proof using HL.
  intros [H1 H2 H3 H4 H5 H6 H7]. split; try done. intros p s Hs. destruct (H4 p s Hs). by split.
Qed.
Lemma budget_known n h es : known (set_budget n h) es <-> known h es.
Proof using HL.
  destruct (budget_extends n h) as [H1 H2]. split; intros (q & es' & Hq & He); exists q, es'; split; try done.
  - by apply (extends_path (set_budget n h) h).
  - by apply (extends_path h (set_budget n h)).
Qed.

(** A path is known when its last edge is there. *)
Lemma known_snoc h p s es key attrs :
  heap_ok h -> names h p es -> shapes h !! p = Some s ->
  known h (es ++ [EAdd key attrs]) <-> is_Some (find (is_add key attrs) (transitions s)).
Proof using HL.
  intros Hh (es0 & Hp & He) Hs. split.
  - intros (q & es' & Hq & Heq). destruct Hq as [r Hr|q es1 s1 t Hq Hs1 Ht].
    { apply Forall2_length in Heq. rewrite length_app in Heq. cbn in Heq. lia. }
    apply path_equiv_snoc in Heq as [He1 Het]. assert (q = p) as -> by (eapply (path_shape h q es1 Hh Hq); [exact Hp|by rewrite He1]).
    rewrite Hs in Hs1. injection Hs1 as <-. apply is_add_edge in Het.
    destruct (find (is_add key attrs) (transitions s)) as [u|] eqn:Ef; [done|]. apply list_elem_of_In in Ht. by rewrite (find_none _ _ Ef t Ht) in Het.
  - intros [t Ef]. apply find_some in Ef as [Ht Ha]. apply list_elem_of_In in Ht. exists (tr_child t), (es0 ++ [edge_of t]).
    split; [by eapply sp_edge|]. apply path_snoc_proper; [done|]. by apply is_add_edge.
Qed.

Definition removed (h : ShapeHeap) (r : option Z) (r' : option (list edge)) : Prop :=
  match r, r' with Some c, Some es => names h c es | None, None => True | _, _ => False end.

(** Interning a path under another spelling of its keys. *)
Lemma respell_rep h ks b x y : path_equiv x y -> shapes_rep h (intern x (mkSpec ks b)) -> shapes_rep h (mkSpec (y :: ks) b).
Proof using HL.
  intros Hxy [Ho Hbu Hkk]. split; [done| |].
  - rewrite Hbu. unfold intern. case_match; reflexivity.
  - intros z. rewrite Hkk, intern_known, !is_known_spec. cbn [sp_known]. setoid_rewrite elem_of_cons. split.
    + intros [(u & ? & ?)|Hx]; [exists u; auto|]. exists y. split; [by left|]. by rewrite <- Hx.
    + intros (u & [->|Hu] & Hzu); [right; by rewrite Hxy, Hzu|left; by exists u].
Qed.

Lemma rebuild_refines l l' : layout_equiv l l' -> forall h sp p es,
  Forall good_pair l -> shapes_rep h sp -> names h p es ->
  Z.of_nat (size (shapes h) + length l) < SHAPE_ROOM -> arr_len (layout es) + arr_len l < MAL_SHAPE_MAX_INLINE_SLOTS ->
  exists r h', rebuild l p h = Ret (r, h') /\ shapes_rep h' (spec_rebuild l' es sp).2 /\ extends h h' /\
    (size (shapes h') <= size (shapes h) + length l)%nat /\ removed h' r (spec_rebuild l' es sp).1.
Proof using HL.
  intros Hl. induction Hl as [|[k a] [k' a'] l l' [Hk Ha] Hl IH]; intros h sp p es Hg Hrep Hn Hroom Hlen.
  { exists (Some p), h. cbn. split_and!; try done; [apply extends_refl|lia]. }
  cbn [fst snd] in Hk, Ha. subst a'. apply Forall_cons in Hg as [Hg Hgs]. pose proof (sr_ok _ _ Hrep) as Hh.
  destruct (names_live h p es Hh Hn) as (s & Hs). assert (arr_len ((k, a) :: l) = arr_len l + 1) as E1 by (unfold arr_len; cbn [length]; lia).
  pose proof (arr_len_nonneg l). cbn [length] in Hroom. cbn [rebuild spec_rebuild]. rewrite (find_add_transition_ok h p s k a Hh Hs). cbn [mbind outcome_bind].
  assert (path_equiv (es ++ [EAdd k a]) (es ++ [EAdd k' a])) as Hee.
  { apply path_equiv_snoc. split; [reflexivity|]. unfold edge_equiv. cbn. by rewrite Hk, Z.eqb_refl. }
  assert (is_known sp (es ++ [EAdd k' a]) = true <-> is_Some (find (is_add k a) (transitions s))) as Hkn.
  { rewrite <- (known_snoc h p s es k a Hh Hn Hs), <- (sr_known _ _ Hrep). split; intros Hx; eapply known_equiv; try exact Hx; [by symmetry|done]. }
  assert (arr_len (layout (es ++ [EAdd k' a])) = arr_len (layout es) + 1) as E2 by (rewrite layout_snoc; cbn [layout_step]; by rewrite arr_len_app).
  destruct (find (is_add k a) (transitions s)) as [t|] eqn:Ef; cbn [option_map].
  - rewrite (proj2 Hkn) by (by eexists). apply find_some in Ef as [Ht Hadd]. apply list_elem_of_In in Ht.
    assert (names h (tr_child t) (es ++ [EAdd k' a])) as Hn'.
    { destruct Hn as (es0 & Hp & He). exists (es0 ++ [edge_of t]). split; [by eapply sp_edge|]. rewrite <- Hee. apply path_snoc_proper; [done|].
      by apply is_add_edge. }
    destruct (IH h sp (tr_child t) (es ++ [EAdd k' a]) Hgs Hrep Hn') as (r & h' & E & ? & ? & ? & ?); [lia|lia|].
    exists r, h'. split_and!; try done. cbn [length]. lia.
  - assert (is_known sp (es ++ [EAdd k' a]) = false) as Hno. { apply not_true_is_false. intros Hx. by destruct (proj1 Hkn Hx). }
    rewrite Hno, (sr_budget _ _ Hrep). destruct (Z.eqb_spec (sp_budget sp) 0) as [Hb|Hb].
    { exists None, h. split_and!; try done; [apply extends_refl|cbn [length]; lia]. }
    fold (set_budget (sp_budget sp - 1) h). set (h1 := set_budget (sp_budget sp - 1) h).
    destruct (budget_extends (sp_budget sp - 1) h) as [Hx1 Hx2].
    assert (shapes_rep h1 (mkSpec (sp_known sp) (sp_budget sp - 1))) as Hrep1.
    { split; [by apply budget_ok|done|]. intros x. etransitivity; [apply budget_known|]. apply (sr_known _ _ Hrep). }
    assert (names h1 p es) as Hn1 by (by apply (names_extends h)).
    pose proof (add_refines h1 _ p es k a Hrep1 Hn1 Hg ltac:(cbn [shapes set_budget h1]; lia)) as Hadd. unfold spec_add in Hadd.
    destruct (Z.leb_spec MAL_SHAPE_MAX_INLINE_SLOTS (arr_len (layout es))); [lia|]. destruct Hadd as (c & h2 & E & Hrep2 & He2 & Hn2 & Hsz2).
    rewrite E. cbn [mbind outcome_bind].
    pose proof (respell_rep h2 _ _ _ _ Hee Hrep2) as Hrep2'.
    assert (names h2 c (es ++ [EAdd k' a])) as Hn2'. { destruct Hn2 as (e0 & ? & He0). exists e0. split; [done|]. by rewrite He0. }
    destruct (IH h2 _ c (es ++ [EAdd k' a]) Hgs Hrep2' Hn2') as (r & h' & E' & ? & ? & ? & ?).
    { cbn [shapes set_budget h1] in Hsz2. lia. }
    { lia. }
    exists r, h'. split_and!; try done.
    + eapply extends_trans; [exact Hx1|]. by eapply extends_trans.
    + cbn [shapes set_budget h1 length] in *. lia.
Qed.
End Refine.
