(* ===== verification/ShapeWalk.v ===== *)
(** Walks over the tree of shapes: the collector's visit meets every key, and teardown
    frees every shape once. *)

From stdpp Require Import gmap.
From S2P Require Import Prelude F64 Value HeapString HeapStringSpec Key LinearProbe Shape ShapeIndex ShapeSpec.

Section Walk.
Context `{HK : KeyHeap, HL : !KeyHeapLaws HK}.
Context (h0 : ShapeHeap).
Hypothesis Hh : heap_ok h0.

Definition child (p q : Z) : Prop := exists s t, shapes h0 !! p = Some s /\ t ∈ transitions s /\ tr_child t = q.
Definition within : Z -> Z -> Prop := rtc child.

Lemma child_up p q : child p q -> p < q.
Proof using Hh. intros (s & t & Hs & Ht & <-). by destruct (so_children _ _ _ (ho_shapes _ Hh p s Hs) t Ht). Qed.
Lemma within_up p q : within p q -> p <= q.
Proof using Hh. induction 1 as [|p q r Hc _ IH]; [lia|]. pose proof (child_up p q Hc). lia. Qed.
Lemma child_live p q : child p q -> exists s, shapes h0 !! q = Some s.
Proof using Hh. intros (s & t & Hs & Ht & <-). destruct (so_children _ _ _ (ho_shapes _ Hh p s Hs) t Ht) as (_ & c & Hc & _). by exists c. Qed.
Lemma child_parent p p' q : child p q -> child p' q -> p = p'.
Proof using Hh. intros (s & t & Hs & Ht & <-) (s' & t' & Hs' & Ht' & E). by eapply (ho_tree _ Hh p s t p' s' t'). Qed.

(** The ancestors of a shape form a chain. *)
Lemma within_chain a q : within a q -> forall b, within b q -> within a b \/ within b a.
Proof using Hh.
  revert q. apply (rtc_ind_r (fun q => forall b, within b q -> within a b \/ within b a)); [by right|]. intros q' q Ha Hc IH b Hb.
  apply rtc_inv_r in Hb as [->|(q'' & Hb & Hc')].
  - left. by eapply rtc_r.
  - assert (q'' = q') as -> by (by eapply child_parent). by apply IH.
Qed.
Lemma siblings_apart p c c' q : child p c -> child p c' -> within c q -> within c' q -> c = c'.
Proof using Hh.
  intros Hc Hc' Hq Hq'. destruct (within_chain c q Hq c' Hq') as [Hw|Hw]; apply rtc_inv_r in Hw as [?|(x & Hw & Hx)]; try done.
  - assert (x = p) as -> by (by eapply child_parent). pose proof (within_up _ _ Hw). pose proof (child_up _ _ Hc). lia.
  - assert (x = p) as -> by (by eapply child_parent). pose proof (within_up _ _ Hw). pose proof (child_up _ _ Hc'). lia.
Qed.

Lemma root_within r q s : shape_root h0 = Some r -> shapes h0 !! q = Some s -> within r q.
Proof using HL Hh.
  intros Hr Hs. destruct (shape_has_path h0 q s Hh Hs) as [es Hp]. clear Hs. induction Hp as [r' Hr'|p es s' t Hp IH Hs Ht].
  - assert (r' = r) as -> by congruence. constructor.
  - eapply rtc_r; [exact IH|]. by exists s', t.
Qed.

(** Shapes above an address: more than the depth below it. *)
Definition above (p : Z) : nat := size (filter (fun kv : Z * MalShape => p < kv.1) (shapes h0)).
Lemma above_child p q : child p q -> (above q < above p)%nat.
Proof using Hh.
  intros Hc. pose proof (child_up p q Hc) as Hlt. destruct (child_live p q Hc) as (s & Hs). unfold above.
  rewrite <- !size_dom. apply subset_size. split.
  - intros x Hx. apply elem_of_dom in Hx as [sx Hx]. apply map_lookup_filter_Some in Hx as [Hx Hp]. cbn in Hp.
    apply elem_of_dom. exists sx. apply map_lookup_filter_Some. split; [done|]. cbn. lia.
  - intros Hsub. assert (q ∈ dom (filter (fun kv : Z * MalShape => p < kv.1) (shapes h0))) as Hq.
    { apply elem_of_dom. exists s. by apply map_lookup_filter_Some. }
    apply Hsub, elem_of_dom in Hq as [sq Hq]. apply map_lookup_filter_Some in Hq as [_ Hq]. cbn in Hq. lia.
Qed.
Lemma above_bound p s : shapes h0 !! p = Some s -> (above p < size (shapes h0))%nat.
Proof using Hh.
  intros Hs. unfold above. rewrite <- !size_dom. apply subset_size. split.
  - intros x Hx. apply elem_of_dom in Hx as [sx Hx]. apply map_lookup_filter_Some in Hx as [Hx _]. apply elem_of_dom. by eexists.
  - intros Hsub. assert (p ∈ dom (shapes h0)) as Hp by (apply elem_of_dom; by eexists). apply Hsub, elem_of_dom in Hp as [sq Hp].
    apply map_lookup_filter_Some in Hp as [_ Hp]. cbn in Hp. lia.
Qed.

(** * Visiting keys *)

(** What a visit of the tree below [p] must report. *)
Definition reports (p : Z) (l : list Z) : Prop :=
  forall q s, within p q -> shapes h0 !! q = Some s ->
    (forall t, t ∈ transitions s -> tr_kind t = MAL_SHAPE_TRANSITION_ADD -> tr_key t ∈ l) /\
    (forall a, for_in_keys s = Some a -> a ∈ l).

Lemma visit_ok fuel : forall p s, shapes h0 !! p = Some s -> (above p < fuel)%nat ->
  exists l, mal_shape_visit_child_keys fuel h0 p = Ret l /\ reports p l.
Proof using Hh.
  induction fuel as [|fuel IH]; intros p s Hs Hf; [lia|]. cbn [mal_shape_visit_child_keys]. rewrite (deref_ok h0 p s Hs). cbn [mbind outcome_bind].
  set (walk := fix walk (ts : list MalShapeTransition) : outcome (list Z) := _).
  assert (forall ts, (forall t, t ∈ ts -> t ∈ transitions s) -> exists l, walk ts = Ret l /\
    forall t, t ∈ ts -> reports (tr_child t) l /\ (tr_kind t = MAL_SHAPE_TRANSITION_ADD -> tr_key t ∈ l)) as Hwalk.
  { induction ts as [|t ts IHt]; intros Hin; [exists []; split; [done|]; intros t Ht; by apply elem_of_nil in Ht|].
    assert (child p (tr_child t)) as Hc by (exists s, t; split; [done|]; split; [apply Hin; left|done]).
    destruct (child_live _ _ Hc) as (sc & Hsc). destruct (IH (tr_child t) sc Hsc) as (below & Eb & Hb); [pose proof (above_child _ _ Hc); lia|].
    destruct IHt as (rest & Er & Hr); [intros u Hu; apply Hin; by right|]. cbn. fold walk. rewrite Eb. cbn [mbind outcome_bind]. rewrite Er. cbn [mbind outcome_bind].
    eexists. split; [done|]. intros u Hu. apply elem_of_cons in Hu as [->|Hu].
    - split.
      + intros q sq Hw Hq. destruct (Hb q sq Hw Hq) as [H1 H2]. split; intros; rewrite !elem_of_app; eauto.
      + intros ->. rewrite bool_decide_true by done. by left.
    - destruct (Hr u Hu) as [H1 H2]. split.
      + intros q sq Hw Hq. destruct (H1 q sq Hw Hq). split; intros; rewrite !elem_of_app; eauto.
      + intros. rewrite !elem_of_app. eauto. }
  destruct (Hwalk (transitions s)) as (rest & Er & Hr); [done|]. fold walk. rewrite Er. cbn [mbind outcome_bind]. eexists. split; [done|].
  intros q sq Hw Hq. apply rtc_inv in Hw as [<-|(c & (s' & t & Hs' & Ht & <-) & Hw)].
  - rewrite Hs in Hq. injection Hq as <-. split.
    + intros t Ht Hk. destruct (Hr t Ht) as [_ H2]. rewrite elem_of_app. eauto.
    + intros a Ha. rewrite Ha. by left.
  - rewrite Hs in Hs'. injection Hs' as <-. destruct (Hr t Ht) as [H1 _]. destruct (H1 q sq Hw Hq). split; intros; rewrite elem_of_app; eauto.
Qed.

(** Every key of every property is the key of an edge above its shape. *)
Lemma reports_keys r l : shape_root h0 = Some r -> reports r l ->
  forall q s kv, shapes h0 !! q = Some s -> kv ∈ props s -> prop_key kv ∈ l.
Proof using HL Hh.
  intros Hr Hl q s kv Hs Hin. destruct (shape_has_path h0 q s Hh Hs) as [es Hp].
  assert (forall q es, shape_path h0 q es -> forall k a, (k, a) ∈ layout es -> k ∈ l) as Hall.
  { clear q s kv Hs Hin es Hp. intros q es Hp. induction Hp as [|p es s t Hp IH Hs Ht]; intros k a Hk; [by apply elem_of_nil in Hk|].
    rewrite layout_snoc in Hk. destruct (edge_of t) as [k' a'| |] eqn:Ee; cbn [layout_step] in Hk.
    - apply elem_of_app in Hk as [Hk|Hk]; [by eapply IH|]. apply list_elem_of_singleton in Hk. injection Hk as -> ->.
      destruct (Hl p s (root_within r p s Hr Hs) Hs) as [Hadd _]. unfold edge_of in Ee. destruct (tr_kind t) eqn:Ek; try done.
      injection Ee as <- <-. by apply Hadd.
    - apply list_elem_of_fmap in Hk as ([k0 a0] & E & Hk). unfold clear_pair in E. cbn in E. destruct (mal_value_is_string k0); injection E as -> ->; by eapply IH.
    - apply list_elem_of_fmap in Hk as ([k0 a0] & E & Hk). unfold clear_pair in E. cbn in E. destruct (mal_value_is_string k0); injection E as -> ->; by eapply IH. }
  apply (Hall q es Hp (prop_key kv) (prop_attrs kv)). rewrite <- (path_layout h0 q es s Hh Hp Hs). apply list_elem_of_fmap. by exists kv.
Qed.

(** * Teardown *)

(** The shapes of [h] below [p] are those of the tree. *)
Definition intact (h : ShapeHeap) (p : Z) : Prop := forall q, within p q -> shapes h !! q = shapes h0 !! q.
(** They are gone from [h'], and nothing else. *)
Definition freed_below (h h' : ShapeHeap) (gone : Z -> Prop) : Prop :=
  shape_root h' = shape_root h /\ (forall q, gone q -> shapes h' !! q = None) /\ (forall q, ~ gone q -> shapes h' !! q = shapes h !! q).

Lemma free_children_ok fuel : forall p s h, shapes h0 !! p = Some s -> (above p < fuel)%nat -> intact h p ->
  exists h', mal_shape_free_children fuel p h = Ret h' /\ freed_below h h' (fun q => within p q /\ q <> p).
Proof using Hh.
  induction fuel as [|fuel IH]; intros p s h Hs Hf Hi; [lia|]. cbn [mal_shape_free_children].
  rewrite (deref_ok h p s) by (rewrite Hi; [done|constructor]). cbn [mbind outcome_bind].
  set (walk := fix walk (ts : list MalShapeTransition) (h : ShapeHeap) : outcome ShapeHeap := _).
  assert (forall ts h, (forall t, t ∈ ts -> t ∈ transitions s) -> NoDup (map tr_child ts) -> (forall t, t ∈ ts -> intact h (tr_child t)) ->
    exists h', walk ts h = Ret h' /\ freed_below h h' (fun q => exists t, t ∈ ts /\ within (tr_child t) q)) as Hwalk.
  { induction ts as [|t ts IHt]; intros h1 Hin Hnd Hint.
    { exists h1. split; [done|]. split_and!; [done| |done]. intros q (t & Ht & _). by apply elem_of_nil in Ht. }
    apply NoDup_cons in Hnd as [Hnew Hnd].
    assert (child p (tr_child t)) as Hc by (exists s, t; split; [done|]; split; [apply Hin; left|done]).
    destruct (child_live _ _ Hc) as (sc & Hsc).
    destruct (IH (tr_child t) sc h1 Hsc) as (h2 & E2 & Hr2 & Hg2 & Hk2); [pose proof (above_child _ _ Hc); lia|apply Hint; left|].
    assert (shapes h2 !! tr_child t = Some sc) as Hsc2.
    { rewrite Hk2 by (intros [_ ?]; done). rewrite (Hint t ltac:(left)); [done|constructor]. }
    cbn. fold walk. rewrite E2. cbn [mbind outcome_bind]. unfold free_shape. rewrite (deref_ok h2 _ sc Hsc2). cbn [mbind outcome_bind].
    set (h3 := with_shapes (delete (tr_child t) (shapes h2)) h2).
    assert (forall q, within (tr_child t) q -> shapes h3 !! q = None) as Hg3.
    { intros q Hq. cbn [h3 shapes with_shapes]. destruct (decide (q = tr_child t)) as [->|Hne]; [apply lookup_delete_eq|].
      rewrite lookup_delete_ne by done. by apply Hg2. }
    assert (forall q, ~ within (tr_child t) q -> shapes h3 !! q = shapes h1 !! q) as Hk3.
    { intros q Hq. cbn [h3 shapes with_shapes]. rewrite lookup_delete_ne by (intros <-; apply Hq; constructor). apply Hk2. intros [? _]. done. }
    assert (forall u q, u ∈ ts -> within (tr_child u) q -> ~ within (tr_child t) q) as Hapart.
    { intros u q Hu Hq Hq'. apply Hnew. apply list_elem_of_fmap. exists u. split; [|done].
      eapply (siblings_apart p); [done| |exact Hq'|exact Hq]. exists s, u. split; [done|]. split; [apply Hin; by right|done]. }
    destruct (IHt h3) as (h' & E' & Hr' & Hg' & Hk').
    - intros u Hu. apply Hin. by right.
    - done.
    - intros u Hu q Hq. rewrite Hk3 by (by eapply Hapart). by apply (Hint u); [right|].
    - exists h'. split; [done|]. split_and!.
      + by rewrite Hr'.
      + intros q (u & Hu & Hq). apply elem_of_cons in Hu as [->|Hu]; [|apply Hg'; by exists u].
        rewrite Hk'; [by apply Hg3|]. intros (v & Hv & Hvq). by apply (Hapart v q).
      + intros q Hq. rewrite Hk' by (intros (v & Hv & Hvq); apply Hq; exists v; split; [by right|done]).
        apply Hk3. intros Hw. apply Hq. exists t. split; [by left|done]. }
  destruct (Hwalk (transitions s) h) as (h' & E & Hr & Hg & Hk); [done|apply (so_nodup _ _ _ (ho_shapes _ Hh p s Hs))| |].
  { intros t Ht q Hq. apply Hi. eapply rtc_l; [|exact Hq]. by exists s, t. }
  exists h'. split; [done|]. split_and!; [done| |].
  - intros q [Hw Hne]. apply rtc_inv in Hw as [?|(c & (s' & t & Hs' & Ht & <-) & Hw)]; [done|]. rewrite Hs in Hs'. injection Hs' as <-.
    apply Hg. by exists t.
  - intros q Hq. apply Hk. intros (t & Ht & Hw). apply Hq. assert (child p (tr_child t)) as Hc by (by exists s, t). split; [by eapply rtc_l|].
    intros ->. pose proof (child_up _ _ Hc). pose proof (within_up _ _ Hw). lia.
Qed.

Lemma heap_free_ok : exists h', mal_shape_heap_free h0 = Ret h' /\ shapes h' = ∅ /\ shape_root h' = None.
Proof using HL Hh.
  destruct (ho_root _ Hh) as (r & s & Hr & Hs & _). unfold mal_shape_heap_free. rewrite Hr.
  destruct (free_children_ok (S (size (shapes h0))) r s h0 Hs) as (h' & E & _ & Hg & Hk); [pose proof (above_bound r s Hs); lia|done|].
  rewrite E. cbn [mbind outcome_bind]. unfold free_shape. rewrite (deref_ok h' r s) by (rewrite Hk; [done|intros [_ ?]; done]). cbn [mbind outcome_bind].
  eexists. split; [done|]. split; [|done]. cbn [shapes with_shapes]. apply map_eq. intros q. rewrite lookup_empty.
  destruct (decide (q = r)) as [->|Hne]; [apply lookup_delete_eq|]. rewrite lookup_delete_ne by done.
  destruct (shapes h0 !! q) as [sq|] eqn:Eq.
  - apply Hg. split; [by eapply root_within|done].
  - rewrite Hk; [done|]. intros [Hw _]. apply rtc_inv_r in Hw as [?|(x & _ & Hc)]; [congruence|]. destruct (child_live _ _ Hc) as (? & ?). congruence.
Qed.
End Walk.
