(* ===== verification/ShapeTheorems.v ===== *)
(** Runs of shape operations refine the machine of paths, shapes are equal exactly when
    their paths are, and teardown frees each shape once. *)

From stdpp Require Import gmap.
From S2P Require Import Prelude F64 Value HeapString HeapStringSpec HeapStringTheorems Key LinearProbe Shape ShapeIndex ShapeSpec.
From S2P Require Import ShapeRefine ShapeWalk.

(** Shapes are named by the position at which the run returned them; the first is the root. *)
Inductive shape_op : Type :=
| SAdd (n : nat) (key attrs : Z)
| SFromKeys (keys : list Z)
| SRemove (n : nat) (index : Z)
| SIntegrity (n : nat) (clear_writable : bool)
| SFind (n : nat) (key : Z)
| SFindAdd (n : nat) (key attrs : Z).

(** A shape or none, or the index of a property. *)
Inductive shape_result : Type := RShape (found : bool) | RIndex (i : Z).

Definition shape_op_ok (op : shape_op) : Prop :=
  match op with
  | SAdd _ key _ | SFindAdd _ key _ | SFind _ key => shape_key key
  | SFromKeys keys => Forall shape_key keys
  | SRemove _ index => 0 <= index
  | SIntegrity _ _ => True
  end.
(** Shapes an operation may make. *)
Definition shape_cost (op : shape_op) : nat :=
  match op with SFromKeys keys => length keys | SRemove _ _ => 64 | SAdd _ _ _ | SIntegrity _ _ => 1 | _ => 0 end.

Section Run.
Context `{HK : KeyHeap, HL : !KeyHeapLaws HK}.

Definition at_handle {A} (d : A) (env : list A) (n : nat) : A := default d (env !! n).

Definition shape_step (root : Z) (op : shape_op) (env : list Z) (h : ShapeHeap) : outcome (shape_result * list Z * ShapeHeap) :=
  match op with
  | SAdd n key attrs => '(c, h) ← mal_shape_add_property h (at_handle root env n) key attrs; Ret (RShape true, env ++ [c], h)
  | SFromKeys keys => '(c, h) ← mal_shape_from_string_keys h keys; Ret (RShape true, env ++ [c], h)
  | SRemove n index =>
      '(r, h) ← mal_shape_remove_property h (at_handle root env n) index;
      Ret (match r with Some c => (RShape true, env ++ [c], h) | None => (RShape false, env, h) end)
  | SIntegrity n cw => '(c, h) ← mal_shape_set_integrity h (at_handle root env n) cw; Ret (RShape true, env ++ [c], h)
  | SFind n key => '(i, h) ← mal_shape_find h (at_handle root env n) key; Ret (RIndex i, env, h)
  | SFindAdd n key attrs =>
      r ← mal_shape_find_add_transition h (at_handle root env n) key attrs;
      Ret (match r with Some c => (RShape true, env ++ [c], h) | None => (RShape false, env, h) end)
  end.
Fixpoint shape_run (root : Z) (ops : list shape_op) (env : list Z) (h : ShapeHeap) : outcome (list shape_result * list Z * ShapeHeap) :=
  match ops with
  | [] => Ret ([], env, h)
  | op :: ops =>
      '(r, env, h) ← shape_step root op env h;
      '(rs, env, h) ← shape_run root ops env h;
      Ret (r :: rs, env, h)
  end.

(** The machine of paths; [None] is an abort. *)
Definition path_step (op : shape_op) (env : list (list edge)) (sp : SpecShapes) : option (shape_result * list (list edge) * SpecShapes) :=
  match op with
  | SAdd n key attrs => '(es, sp) ← spec_add (at_handle [] env n) key attrs sp; Some (RShape true, env ++ [es], sp)
  | SFromKeys keys => '(es, sp) ← spec_adds keys [] sp; Some (RShape true, env ++ [es], sp)
  | SRemove n index =>
      let '(r, sp) := spec_remove (at_handle [] env n) index sp in
      Some (match r with Some es => (RShape true, env ++ [es], sp) | None => (RShape false, env, sp) end)
  | SIntegrity n cw => let '(es, sp) := spec_integrity (at_handle [] env n) cw sp in Some (RShape true, env ++ [es], sp)
  | SFind n key => Some (RIndex (spec_find (at_handle [] env n) key), env, sp)
  | SFindAdd n key attrs =>
      let es := at_handle [] env n ++ [EAdd key attrs] in
      Some (if is_known sp es then (RShape true, env ++ [es], sp) else (RShape false, env, sp))
  end.
Fixpoint path_run (ops : list shape_op) (env : list (list edge)) (sp : SpecShapes) : option (list shape_result * list (list edge) * SpecShapes) :=
  match ops with
  | [] => Some ([], env, sp)
  | op :: ops =>
      '(r, env, sp) ← path_step op env sp;
      '(rs, env, sp) ← path_run ops env sp;
      Some (r :: rs, env, sp)
  end.

(** * One step *)

Record run_rep (root : Z) (env : list Z) (h : ShapeHeap) (paths : list (list edge)) (sp : SpecShapes) : Prop := {
  rr_rep : shapes_rep h sp;
  rr_root : shape_root h = Some root;
  rr_env : Forall2 (names h) env paths;
}.

Lemma handle_names root env h paths sp n : run_rep root env h paths sp -> names h (at_handle root env n) (at_handle [] paths n).
Proof using HL.
  intros [Hrep Hr He]. unfold at_handle. destruct (env !! n) as [p|] eqn:Ep.
  - destruct (Forall2_lookup_l _ _ _ _ _ He Ep) as (es & -> & Hn). done.
  - rewrite lookup_ge_None in Ep. rewrite (Forall2_length _ _ _ He) in Ep. rewrite (lookup_ge_None_2 paths n) by lia. cbn.
    exists []. split; [by apply sp_root|reflexivity].
Qed.

Lemma env_extends h h' env paths : extends h h' -> Forall2 (names h) env paths -> Forall2 (names h') env paths.
Proof using HL. intros He Hf. eapply Forall2_impl; [exact Hf|]. intros p es. by apply names_extends. Qed.

(** A step that returns a shape. *)
Lemma grown_run root env h paths sp h' sp' c es n :
  run_rep root env h paths sp -> grown_to h h' sp' c es n -> run_rep root (env ++ [c]) h' (paths ++ [es]) sp'.
Proof using HL.
  intros [_ Hr He] (Hrep' & Hext & Hn & _). split; [done|rewrite (proj1 Hext); done|]. apply Forall2_app; [by eapply env_extends|]. by constructor.
Qed.
Lemma same_run root env h paths sp h' sp' :
  run_rep root env h paths sp -> shapes_rep h' sp' -> extends h h' -> run_rep root env h' paths sp'.
Proof using HL. intros [_ Hr He] Hrep' Hext. split; [done|by rewrite (proj1 Hext)|by eapply env_extends]. Qed.

Definition step_matches (root : Z) (h : ShapeHeap) (n : nat) (r : outcome (shape_result * list Z * ShapeHeap))
  (r' : option (shape_result * list (list edge) * SpecShapes)) : Prop :=
  match r' with
  | None => r = Abort
  | Some (res, paths', sp') => exists env' h', r = Ret (res, env', h') /\ run_rep root env' h' paths' sp' /\ (size (shapes h') <= size (shapes h) + n)%nat
  end.

Lemma delete_length (l : layout_t) i : (length (delete i l) <= length l)%nat.
Proof.
  revert i. induction l as [|x l IH]; intros [|i]; try (cbn; lia). change (delete (S i) (x :: l)) with (x :: delete i l). cbn [length].
  apply le_n_S, IH.
Qed.

Lemma remove_step root env h paths sp n index :
  run_rep root env h paths sp -> 0 <= index -> Z.of_nat (size (shapes h) + 64) < SHAPE_ROOM ->
  step_matches root h 64 (shape_step root (SRemove n index) env h) (path_step (SRemove n index) paths sp).
Proof using HL.
  intros Hrr Hi Hroom. pose proof Hrr as [Hrep Hr _]. pose proof (sr_ok _ _ Hrep) as Hh. pose proof (handle_names root env h paths sp n Hrr) as Hn.
  set (p := at_handle root env n) in *. set (es := at_handle [] paths n) in *. destruct (names_live h p es Hh Hn) as (s & Hs).
  pose proof (names_layout h p es s Hh Hn Hs) as Hl. pose proof (ho_shapes _ Hh p s Hs) as Hok.
  pose proof (layout_equiv_len _ _ Hl) as Hlen. assert (arr_len (prop_pairs s) = arr_len (props s)) as El by (unfold prop_pairs, arr_len; by rewrite length_map).
  unfold step_matches. cbn [shape_step path_step]. fold p es. unfold spec_remove, mal_shape_remove_property. rewrite (deref_ok h p s Hs). cbn [mbind outcome_bind].
  rewrite (so_root _ _ _ Hok), Hr, (so_count _ _ _ Hok), <- El, Hlen. unfold MAL_SHAPE_ORDINARY_SLOTS.
  destruct (Z.ltb_spec 64 (arr_len (layout es))) as [Hwide|Hle]; cbn [mbind outcome_bind].
  { eexists _, _. split; [done|]. split; [done|lia]. }
  rewrite <- Hlen, El. replace (arr_len (props s)) with (Z.of_nat (length (props s))) by done.
  rewrite (remove_loop_rebuild (props s) index (length (props s)) 0 root h) by (lia || done). unfold skip.
  destruct (Z.leb_spec 0 index); [|lia]. rewrite drop_0, Z.sub_0_r. fold (prop_pairs s).
  assert (layout_equiv (delete (Z.to_nat index) (prop_pairs s)) (delete (Z.to_nat index) (layout es))) as Hld by (by apply Forall2_delete).
  assert (arr_len (delete (Z.to_nat index) (prop_pairs s)) <= 64) as Hd64.
  { unfold arr_len in *. pose proof (delete_length (prop_pairs s) (Z.to_nat index)). lia. }
  destruct (rebuild_refines _ _ Hld h sp root []) as (r & h' & E & Hrep' & Hext & Hsz & Hrem); try done.
  - apply Forall_delete. unfold prop_pairs. rewrite Forall_map. exact (so_keys _ _ _ Hok).
  - exists []. split; [by apply sp_root|reflexivity].
  - unfold arr_len in Hd64. lia.
  - unfold MAL_SHAPE_MAX_INLINE_SLOTS. change (arr_len (layout [])) with 0. lia.
  - rewrite E. cbn [mbind outcome_bind]. destruct (spec_rebuild _ [] sp) as [r' sp']. cbn [fst snd] in *.
    assert (size (shapes h') <= size (shapes h) + 64)%nat by (unfold arr_len in Hd64; lia).
    destruct r as [c|], r' as [es'|]; try done; eexists _, _; (split; [done|]); (split; [|done]).
    + apply (grown_run root env h paths sp h' sp' c es' 64); [done|]. by split_and!.
    + by eapply same_run.
Qed.

Lemma step_refines root env h paths sp op :
  run_rep root env h paths sp -> shape_op_ok op -> Z.of_nat (size (shapes h) + shape_cost op) < SHAPE_ROOM ->
  step_matches root h (shape_cost op) (shape_step root op env h) (path_step op paths sp).
Proof using HL.
  intros Hrr Hok Hroom. pose proof Hrr as [Hrep Hr _]. pose proof (sr_ok _ _ Hrep) as Hh.
  destruct op as [n key attrs|keys|n index|n cw|n key|n key attrs]; cbn [shape_op_ok shape_cost] in *; try (by apply remove_step; [..|lia]);
    try (pose proof (handle_names root env h paths sp n Hrr) as Hn); unfold step_matches; cbn [shape_step path_step].
  - pose proof (add_refines h sp _ _ key attrs Hrep Hn Hok ltac:(lia)) as Ha. destruct (spec_add _ _ _ _) as [[es sp']|]; cbn [mbind option_bind].
    + destruct Ha as (c & h' & -> & Hg). cbn [mbind outcome_bind]. eexists _, _. split; [done|]. split; [by eapply grown_run|]. apply Hg.
    + by rewrite Ha.
  - unfold mal_shape_from_string_keys, mal_shape_root. rewrite Hr. cbn [mbind outcome_bind].
    assert (names h root []) as Hn0 by (exists []; split; [by apply sp_root|reflexivity]).
    pose proof (adds_refines keys h sp root [] Hrep Hn0 Hok Hroom) as Ha. destruct (spec_adds _ _ _) as [[es sp']|]; cbn [mbind option_bind].
    + destruct Ha as (c & h' & -> & Hg). cbn [mbind outcome_bind]. eexists _, _. split; [done|]. split; [by eapply grown_run|]. apply Hg.
    + by rewrite Ha.
  - destruct (integrity_refines h sp _ _ cw Hrep Hn) as (c & h' & -> & Hg). cbn [mbind outcome_bind].
    destruct (spec_integrity _ _ _) as [es sp']. cbn [fst snd] in Hg. eexists _, _. split; [done|]. split; [by eapply grown_run|]. apply Hg.
  - destruct (names_live h _ _ Hh Hn) as (s & Hs). destruct (find_ok h _ s key Hh Hs) as (h' & -> & Hh' & He1 & He2 & Hb & Hsz). cbn [mbind outcome_bind].
    assert (first_prop (props s) key = spec_find (at_handle [] paths n) key) as ->.
    { unfold spec_find. rewrite <- (find_equiv _ _ key (names_layout h _ _ s Hh Hn Hs)). unfold first_prop, prop_pairs.
      rewrite list_find_fmap. destruct (list_find _ (props s)) as [[i q]|]; done. }
    eexists _, _. split; [done|]. split; [|lia]. apply (same_run root env h paths sp h' sp Hrr); [|done]. split; [done|by rewrite Hb; apply (sr_budget _ _ Hrep)|].
    intros es. rewrite <- (sr_known _ _ Hrep). split; intros (q & e' & Hq & He); exists q, e'; (split; [|done]);
      [by apply (extends_path h')|by apply (extends_path h)].
  - destruct (names_live h _ _ Hh Hn) as (s & Hs). rewrite (find_add_transition_ok h _ s key attrs Hh Hs). cbn [mbind outcome_bind].
    pose proof (known_snoc h _ s _ key attrs Hh Hn Hs) as Hk. rewrite (sr_known _ _ Hrep) in Hk.
    destruct (find (is_add key attrs) (transitions s)) as [t|] eqn:Ef; cbn [option_map].
    + rewrite (proj2 Hk) by (by eexists). eexists _, _. split; [done|]. split; [|lia].
      apply (grown_run root env h paths sp h sp _ _ 0 Hrr). apply grown_same; [done|]. apply find_some in Ef as [Ht Ha]. apply list_elem_of_In in Ht.
      destruct Hn as (es0 & Hp & He). exists (es0 ++ [edge_of t]). split; [by eapply sp_edge|]. apply path_snoc_proper; [done|by apply is_add_edge].
    + assert (is_known sp (at_handle [] paths n ++ [EAdd key attrs]) = false) as ->.
      { apply not_true_is_false. intros Hx. by destruct (proj1 Hk Hx). }
      eexists _, _. split; [done|]. split; [done|lia].
Qed.

(** * Runs *)

Definition total_cost (ops : list shape_op) : nat := sum_list (map shape_cost ops).

Lemma shape_run_ok root ops : forall env h paths sp,
  run_rep root env h paths sp -> Forall shape_op_ok ops -> Z.of_nat (size (shapes h) + total_cost ops) < SHAPE_ROOM ->
  match path_run ops paths sp with
  | None => shape_run root ops env h = Abort
  | Some (rs, paths', sp') => exists env' h', shape_run root ops env h = Ret (rs, env', h') /\ run_rep root env' h' paths' sp'
  end.
Proof using HL.
  induction ops as [|op ops IH]; intros env h paths sp Hrr Hok Hroom; cbn [path_run shape_run]; [by exists env, h|].
  apply Forall_cons in Hok as [Hop Hops]. unfold total_cost in Hroom. cbn [map sum_list sum_list_with] in Hroom. fold (total_cost ops) in Hroom.
  assert (Z.of_nat (size (shapes h) + (shape_cost op + total_cost ops)) < SHAPE_ROOM) as Hroom' by exact Hroom.
  pose proof (step_refines root env h paths sp op Hrr Hop ltac:(lia)) as Hs. unfold step_matches in Hs.
  destruct (path_step op paths sp) as [[[r paths1] sp1]|]; cbn [mbind option_bind]; [|by rewrite Hs].
  destruct Hs as (env1 & h1 & -> & Hrr1 & Hsz). cbn [mbind outcome_bind]. pose proof (IH env1 h1 paths1 sp1 Hrr1 Hops ltac:(lia)) as Hi.
  destruct (path_run ops paths1 sp1) as [[[rs paths2] sp2]|]; cbn [mbind option_bind]; [|by rewrite Hi].
  destruct Hi as (env2 & h2 & -> & Hrr2). by exists env2, h2.
Qed.

(** A new heap: the root alone. *)
Definition new_heap (base : Z) : ShapeHeap := mal_shape_heap_init (mkShapeHeap ∅ base None 0).
Definition new_spec : SpecShapes := mkSpec [[]] MAL_SHAPE_REMOVAL_BUDGET.

Lemma new_shapes base : shapes (new_heap base) = <[base := empty_shape (Some base)]> ∅.
Proof using Type. done. Qed.
Lemma new_lookup base p s : shapes (new_heap base) !! p = Some s -> p = base /\ s = empty_shape (Some base).
Proof using Type. rewrite new_shapes. intros Hs. apply lookup_insert_Some in Hs as [[<- <-]|[_ Hs]]; [done|]. by rewrite lookup_empty in Hs. Qed.

Lemma new_heap_rep base : run_rep base [base] (new_heap base) [[]] new_spec.
Proof using HL.
  assert (shapes (new_heap base) !! base = Some (empty_shape (Some base))) as Hb by (rewrite new_shapes; apply lookup_insert_eq).
  assert (heap_ok (new_heap base)) as Hh.
  { split.
    - by exists base, (empty_shape (Some base)).
    - intros p s Hs. apply new_lookup in Hs as [-> _]. cbn. lia.
    - intros r p Hr [s Hs]. apply new_lookup in Hs as [-> _]. cbn in Hr. injection Hr as <-. lia.
    - intros p s Hs. apply new_lookup in Hs as [-> ->].
      split; cbn [inline_count props empty_shape tree_root find_index transition_index transitions map]; try done; try (apply NoDup_nil_2);
        [intros t u Ht|intros t Ht]; by apply elem_of_nil in Ht.
    - intros p [s Hs]. apply new_lookup in Hs as [-> _]. by left.
    - intros q s t q' s' t' Hs Ht. apply new_lookup in Hs as [_ ->]. by apply elem_of_nil in Ht.
    - intros q s t Hs Ht. apply new_lookup in Hs as [_ ->]. by apply elem_of_nil in Ht. }
  split; [split; [done|done|]|done|].
  - intros es. rewrite is_known_spec. cbn [sp_known new_spec]. split.
    + intros (q & es' & Hq & He). exists []. split; [by left|]. inversion Hq as [r Hr|p es0 s t _ Hs Ht]; subst; [by symmetry|].
      apply new_lookup in Hs as [_ ->]. by apply elem_of_nil in Ht.
    + intros (x & Hx & He). apply list_elem_of_singleton in Hx as ->. exists base, []. split; [by apply sp_root|by symmetry].
  - constructor; [|by constructor]. exists []. split; [by apply sp_root|reflexivity].
Qed.

Lemma new_heap_size base : size (shapes (new_heap base)) = 1%nat.
Proof using Type. rewrite new_shapes. by rewrite map_size_insert_None by apply lookup_empty. Qed.

(** Two handles are related as the machine relates their paths. *)
Definition same_identity (env : list Z) (paths : list (list edge)) : Prop :=
  forall i j p q es es', env !! i = Some p -> env !! j = Some q -> paths !! i = Some es -> paths !! j = Some es' -> p = q <-> path_equiv es es'.
(** A handle has the layout of its path, with values in slot order. *)
Definition has_layout (h : ShapeHeap) (p : Z) (es : list edge) : Prop :=
  exists s, shapes h !! p = Some s /\ layout_equiv (prop_pairs s) (layout es) /\ forall i q, props s !! i = Some q -> prop_slot q = Z.of_nat i.

Lemma rep_identity root env h paths sp : run_rep root env h paths sp -> same_identity env paths /\ Forall2 (has_layout h) env paths.
Proof using HL.
  intros [Hrep _ He]. pose proof (sr_ok _ _ Hrep) as Hh. split.
  - intros i j p q es es' Hi Hj Hes Hes'. eapply (names_identity h); [done| |].
    + by apply (Forall2_lookup_lr _ _ _ _ _ _ He Hi Hes).
    + by apply (Forall2_lookup_lr _ _ _ _ _ _ He Hj Hes').
  - eapply Forall2_impl; [exact He|]. intros p es Hn. destruct (names_live h p es Hh Hn) as (s & Hs). exists s. split; [done|].
    split; [by apply (names_layout h p es s)|]. apply (so_slots _ _ _ (ho_shapes _ Hh p s Hs)).
Qed.
End Run.

(** C11. Shapes are layouts: any run of additions, deletions, integrity changes and lookups
    on a new heap answers as the machine of paths does, the abort of an addition past the
    slot limit included; each shape returned has the layout of its path in slot order, and
    two shapes returned at any times are the same exactly when their paths are, up to
    equal keys. *)
Theorem shape_run_refines `{HK : KeyHeap, HL : !KeyHeapLaws HK} base ops :
  Forall shape_op_ok ops -> Z.of_nat (S (total_cost ops)) < SHAPE_ROOM ->
  match path_run ops [[]] new_spec with
  | None => shape_run base ops [base] (new_heap base) = Abort
  | Some (rs, paths, _) => exists env h, shape_run base ops [base] (new_heap base) = Ret (rs, env, h) /\
      Forall2 (has_layout h) env paths /\ same_identity env paths
  end.
Proof.
  intros Hok Hroom. pose proof (shape_run_ok base ops [base] (new_heap base) [[]] new_spec (new_heap_rep base) Hok) as Hr.
  rewrite new_heap_size in Hr. specialize (Hr Hroom). destruct (path_run ops [[]] new_spec) as [[[rs paths] sp]|]; [|done].
  destruct Hr as (env & h & E & Hrr). exists env, h. split; [done|]. destruct (rep_identity base env h paths sp Hrr). done.
Qed.

(** C12. Walks of the shape tree: after any run the collector's visit returns and reports
    the key of every property of every shape, and teardown frees every shape exactly once
    and leaves none. *)
Theorem shape_walks_complete `{HK : KeyHeap, HL : !KeyHeapLaws HK} base ops rs env h :
  Forall shape_op_ok ops -> Z.of_nat (S (total_cost ops)) < SHAPE_ROOM ->
  shape_run base ops [base] (new_heap base) = Ret (rs, env, h) ->
  (exists l, mal_shape_visit_transition_keys h = Ret l /\
     forall p s q, shapes h !! p = Some s -> q ∈ props s -> prop_key q ∈ l) /\
  (exists h', mal_shape_heap_free h = Ret h' /\ shapes h' = ∅ /\ shape_root h' = None).
Proof.
  intros Hok Hroom E. pose proof (shape_run_ok base ops [base] (new_heap base) [[]] new_spec (new_heap_rep base) Hok) as Hr.
  rewrite new_heap_size in Hr. specialize (Hr Hroom). destruct (path_run ops [[]] new_spec) as [[[rs' paths] sp]|]; [|by rewrite Hr in E].
  destruct Hr as (env' & h' & E' & [Hrep Hroot _]). rewrite E' in E. injection E as -> -> ->. pose proof (sr_ok _ _ Hrep) as Hh.
  split; [|by apply heap_free_ok]. unfold mal_shape_visit_transition_keys, mal_shape_root. rewrite Hroot. cbn [mbind outcome_bind].
  destruct (ho_root _ Hh) as (r & s & Hr & Hs & _). assert (r = base) as -> by congruence.
  destruct (visit_ok h Hh (S (size (shapes h))) base s Hs) as (l & -> & Hl); [pose proof (above_bound h Hh base s Hs); lia|].
  exists l. split; [done|]. by eapply reports_keys.
Qed.

Module ShapeDemo.
Import StringDemo.

#[local] Instance key_heap : KeyHeap := string_key_heap strings (fun _ => 0).
#[local] Instance key_laws : KeyHeapLaws key_heap.
Proof. apply string_key_heap_laws; [apply strings_ok|]. intros. by vm_compute. Qed.

(** The flat string at 48, the rope at 64 with the same units, and symbols. *)
Definition flat_ab : Z := mal_value_from_string 48.
Definition rope_ab : Z := mal_value_from_string 64.
Definition symbol (n : Z) : Z := Z.lor MAL_VALUE_SYMBOL (16 * n).

(** The same properties twice, ten edges out of the root, a deletion, a frozen shape. *)
Definition ops : list shape_op :=
  [SAdd 0 flat_ab 7; SAdd 0 rope_ab 7; SAdd 2 (symbol 1) 7; SAdd 3 (symbol 2) 7; SAdd 4 (symbol 3) 3; SFind 5 rope_ab; SFind 5 (symbol 9)]
  ++ map (fun n => SAdd 0 (symbol n) 7) (seqZ 1 10)
  ++ [SAdd 0 rope_ab 7; SRemove 3 0; SFindAdd 0 (symbol 1) 7; SIntegrity 3 true; SIntegrity 3 false; SFromKeys [rope_ab]; SRemove 5 1].

Lemma demo_shape_ops_ok : Forall shape_op_ok ops.
Proof. repeat constructor; by vm_compute. Qed.

Definition shape_result_of (r : option (list shape_result * list (list edge) * SpecShapes)) : list shape_result :=
  match r with Some (rs, _, _) => rs | None => [] end.
(** The answers, evaluated. *)
Example demo_results :
  shape_result_of (path_run ops [[]] new_spec)
  = replicate 5 (RShape true) ++ [RIndex 0; RIndex (-1)] ++ replicate 17 (RShape true).
Proof. by vm_compute. Qed.

Lemma shape_run_refines_witness :
  match path_run ops [[]] new_spec with
  | None => shape_run 1000 ops [1000] (new_heap 1000) = Abort
  | Some (rs, paths, _) => exists env h, shape_run 1000 ops [1000] (new_heap 1000) = Ret (rs, env, h) /\
      Forall2 (has_layout h) env paths /\ same_identity env paths
  end.
Proof. apply (shape_run_refines 1000 ops); [exact demo_shape_ops_ok|by vm_compute]. Defined.

Lemma demo_run_returns : exists rs env h, shape_run 1000 ops [1000] (new_heap 1000) = Ret (rs, env, h).
Proof. eexists _, _, _. vm_compute. reflexivity. Qed.
Lemma shape_walks_complete_witness :
  exists rs env h, shape_run 1000 ops [1000] (new_heap 1000) = Ret (rs, env, h) /\
    (exists l, mal_shape_visit_transition_keys h = Ret l /\
       forall p s q, shapes h !! p = Some s -> q ∈ props s -> prop_key q ∈ l) /\
    (exists h', mal_shape_heap_free h = Ret h' /\ shapes h' = ∅ /\ shape_root h' = None).
Proof.
  destruct demo_run_returns as (rs & env & h & E). exists rs, env, h. split; [exact E|].
  apply (shape_walks_complete 1000 ops rs env h); [exact demo_shape_ops_ok|by vm_compute|exact E].
Defined.

Definition shape_env_of (r : outcome (list shape_result * list Z * ShapeHeap)) : list Z :=
  match r with Ret (_, env, _) => env | _ => [] end.
Example demo_shapes :
  shape_env_of (shape_run 1000 ops [1000] (new_heap 1000))
  = [1000; 1001; 1001; 1002; 1003; 1004] ++ seqZ 1005 10 ++ [1001; 1005; 1005; 1015; 1016; 1001; 1018].
Proof. by vm_compute. Qed.
End ShapeDemo.
