(* ===== verification/Table.v ===== *)
(** The ordered property table of runtime/src/table.c and table.h: rows in
    insertion order, two words each, with a grouped hash index over them once there
    are more than four. A row's first word packs a 48-bit identity, the key kind, the
    property flags, the ownership bit of the payload and six bits of the key hash.

    The operations thread the table and a [TableWorld]: the string cells (hashing a key
    fills its cache), the raw sidecars rows may own, and the collector's record of
    write barriers. The slot block is kept as its two lanes. Performance counters and
    the byte accounting of the allocator are not modelled. *)

From stdpp Require Import gmap.
From S2P Require Import Prelude F64 Value HeapString HeapStringSpec Key StringHeap HashIndex HeapSizes MapObject.

Definition MAL_TABLE_SMALL_MIN_CAPACITY : Z := 4.
Definition MAL_TABLE_EMPTY : Z := -1.

Definition MAL_TABLE_KIND_SHIFT : Z := 48.
Definition MAL_TABLE_KIND_MASK : Z := Z.shiftl 3 MAL_TABLE_KIND_SHIFT.
Definition MAL_TABLE_INDEX : Z := Z.shiftl 1 MAL_TABLE_KIND_SHIFT.
Definition MAL_TABLE_STRING : Z := Z.shiftl 2 MAL_TABLE_KIND_SHIFT.
Definition MAL_TABLE_SYMBOL : Z := Z.shiftl 3 MAL_TABLE_KIND_SHIFT.
Definition MAL_TABLE_IDENTITY_MASK : Z := Z.lor 0x0000ffffffffffff MAL_TABLE_KIND_MASK.
Definition MAL_TABLE_OWNS_DATA : Z := Z.shiftl 1 57.
Definition MAL_TABLE_FLAGS_SHIFT : Z := 50.
Definition MAL_TABLE_FLAGS_MASK : Z := Z.shiftl 0x7f MAL_TABLE_FLAGS_SHIFT.
Definition MAL_TABLE_HASH_SHIFT : Z := 58.
Definition MAL_TABLE_HASH_MASK : Z := Z.shiftl 0x3f MAL_TABLE_HASH_SHIFT.

(** [payload] is a union: a value word, or the address of an owned sidecar. *)
Record MalTableEntry : Type := mkEntry { te_key : Z; te_payload : Z }.
#[export] Instance MalTableEntry_inhabited : Inhabited MalTableEntry := populate (mkEntry 0 0).

Record MalTable : Type := mkTable {
  handle_epoch : Z;
  tb_size : Z;
  tombstone_count : Z;
  tb_slot_capacity : Z;
  tb_deleted_slots : Z;
  entry_count : Z;
  entry_capacity : Z;
  iterator_pins : Z;
  tb_slots : list Z;
  tb_controls : list Z;
  tb_entries : list MalTableEntry;
}.

Definition set_entries (l : list MalTableEntry) (t : MalTable) : MalTable :=
  mkTable (handle_epoch t) (tb_size t) (tombstone_count t) (tb_slot_capacity t) (tb_deleted_slots t)
    (entry_count t) (entry_capacity t) (iterator_pins t) (tb_slots t) (tb_controls t) l.
Definition set_entry_capacity (n : Z) (l : list MalTableEntry) (t : MalTable) : MalTable :=
  mkTable (handle_epoch t) (tb_size t) (tombstone_count t) (tb_slot_capacity t) (tb_deleted_slots t)
    (entry_count t) n (iterator_pins t) (tb_slots t) (tb_controls t) l.
Definition set_slots (sl ct : list Z) (cap del : Z) (t : MalTable) : MalTable :=
  mkTable (handle_epoch t) (tb_size t) (tombstone_count t) cap del
    (entry_count t) (entry_capacity t) (iterator_pins t) sl ct (tb_entries t).
Definition set_counts (sz tombs count : Z) (t : MalTable) : MalTable :=
  mkTable (handle_epoch t) sz tombs (tb_slot_capacity t) (tb_deleted_slots t)
    count (entry_capacity t) (iterator_pins t) (tb_slots t) (tb_controls t) (tb_entries t).
Definition set_iterator_pins (n : Z) (t : MalTable) : MalTable :=
  mkTable (handle_epoch t) (tb_size t) (tombstone_count t) (tb_slot_capacity t) (tb_deleted_slots t)
    (entry_count t) (entry_capacity t) n (tb_slots t) (tb_controls t) (tb_entries t).
Definition set_handle_epoch (n : Z) (t : MalTable) : MalTable :=
  mkTable n (tb_size t) (tombstone_count t) (tb_slot_capacity t) (tb_deleted_slots t)
    (entry_count t) (entry_capacity t) (iterator_pins t) (tb_slots t) (tb_controls t) (tb_entries t).

Definition entry_at (t : MalTable) (i : Z) : MalTableEntry := arr_get (tb_entries t) i.
Definition set_entry (i : Z) (e : MalTableEntry) (t : MalTable) : MalTable :=
  set_entries (arr_set (tb_entries t) i e) t.

(** The world of a table: string cells, live sidecars by address (an accessor's
    getter and setter), and the values given to the write barrier, newest first. *)
Record TableWorld : Type := mkTableWorld {
  tw_strings : StringHeap;
  tw_sidecars : gmap Z (Z * Z);
  tw_barriers : list Z;
}.
Definition set_tw_strings (h : StringHeap) (w : TableWorld) : TableWorld :=
  mkTableWorld h (tw_sidecars w) (tw_barriers w).
Definition set_tw_sidecars (s : gmap Z (Z * Z)) (w : TableWorld) : TableWorld :=
  mkTableWorld (tw_strings w) s (tw_barriers w).
Definition shade (v : Z) (w : TableWorld) : TableWorld :=
  mkTableWorld (tw_strings w) (tw_sidecars w) (v :: tw_barriers w).

(** [gc_free_raw] on a sidecar: null is ignored, freeing twice is a fault. *)
Definition free_sidecar (p : Z) (w : TableWorld) : outcome TableWorld :=
  if p =? 0 then Ret w
  else match tw_sidecars w !! p with
       | Some _ => Ret (set_tw_sidecars (delete p (tw_sidecars w)) w)
       | None => Abort
       end.

(** * Row words *)

Definition mal_table_row_live (e : MalTableEntry) : bool :=
  negb (Z.land (te_key e) MAL_TABLE_KIND_MASK =? 0).
Definition mal_table_row_owned (e : MalTableEntry) : bool :=
  negb (Z.land (te_key e) MAL_TABLE_OWNS_DATA =? 0).
(** [entry->key &= ~MAL_TABLE_KIND_MASK]. *)
Definition kill_row (e : MalTableEntry) : MalTableEntry :=
  mkEntry (Z.land (te_key e) (u64 (Z.lnot MAL_TABLE_KIND_MASK))) (te_payload e).

Definition mal_table_encode_key (key : MalKey) : outcome Z :=
  match key_kind key with
  | MAL_KEY_INDEX =>
      index ← (if mal_value_is_int32 (key_value key) then
                 let integer := mal_value_to_i32 (key_value key) in
                 if integer <? 0 then Abort else Ret (u32 integer)
               else if negb (mal_value_is_f64 (key_value key)) then Abort
               else
                 let number := mal_value_to_f64 (key_value key) in
                 if negb (f64_leb 0 number && f64_ltb number (f64_of_int UINT32_MAX))
                    || negb (f64_eqb (f64_of_int (u32 (f64_to_int number))) number)
                 then Abort else Ret (u32 (f64_to_int number)));
      Ret (Z.lor MAL_TABLE_INDEX index)
  | MAL_KEY_STRING =>
      if mal_value_is_string (key_value key) then Ret (Z.lor MAL_TABLE_STRING (Z.land (key_value key) MAKS_PTR))
      else Abort
  | MAL_KEY_SYMBOL =>
      if mal_value_is_symbol (key_value key) then Ret (Z.lor MAL_TABLE_SYMBOL (Z.land (key_value key) MAKS_PTR))
      else Abort
  | _ => Abort
  end.

Definition mal_table_key_value (key : Z) : Z :=
  let kind := Z.land key MAL_TABLE_KIND_MASK in
  if kind =? MAL_TABLE_INDEX then mal_value_from_u32 (u32 key)
  else if kind =? MAL_TABLE_STRING then Z.lor MAL_VALUE_STRING (Z.land key MAKS_PTR)
  else if kind =? MAL_TABLE_SYMBOL then Z.lor MAL_VALUE_SYMBOL (Z.land key MAKS_PTR)
  else MAL_VALUE_EMPTY.

Definition mal_table_key_hash (h : StringHeap) (key : Z) : Z * StringHeap :=
  if Z.land key MAL_TABLE_KIND_MASK =? MAL_TABLE_STRING then
    let '(hash, h) := heap_hash h (Z.land key MAKS_PTR) in (mal_key_hash_mix hash, h)
  else (mal_key_hash_mix (mal_table_key_value key), h).

Definition mal_table_decode_key (key : Z) : MalKey :=
  let kind := Z.land key MAL_TABLE_KIND_MASK in
  mkKey (if kind =? MAL_TABLE_INDEX then MAL_KEY_INDEX
         else if kind =? MAL_TABLE_STRING then MAL_KEY_STRING else MAL_KEY_SYMBOL)
        (mal_table_key_value key).

(** [hashed] compares the cached hashes first. *)
Definition mal_table_key_equals (h : StringHeap) (e : MalTableEntry) (key : Z) (hashed : bool) : outcome bool :=
  let candidate := Z.land (te_key e) MAL_TABLE_IDENTITY_MASK in
  if candidate =? key then Ret true
  else if negb (Z.land candidate MAL_TABLE_KIND_MASK =? MAL_TABLE_STRING)
          || negb (Z.land key MAL_TABLE_KIND_MASK =? MAL_TABLE_STRING) then Ret false
  else
    let a := h (mal_value_to_heap (mal_table_key_value candidate)) in
    let b := h (mal_value_to_heap (mal_table_key_value key)) in
    if hashed && negb (str_hash (str_info a) =? str_hash (str_info b)) then Ret false
    else mal_string_equals a b.

(** Entry handles are 1-based row numbers; 0 is the null handle. *)
Definition mal_table_handle (index : Z) : Z := u32 (index + 1).
Definition mal_table_handle_index (handle : Z) : Z := u32 (handle - 1).

Definition mal_table_hash_fingerprint (hash : Z) : Z :=
  Z.shiftl (Z.land (Z.shiftr hash 51) 0x3f) MAL_TABLE_HASH_SHIFT.
(** [(entry->key & MAL_TABLE_HASH_MASK) == mal_table_hash_fingerprint(hash)]. *)
Definition fingerprint_matches (e : MalTableEntry) (hash : Z) : bool :=
  Z.land (te_key e) MAL_TABLE_HASH_MASK =? mal_table_hash_fingerprint hash.

Section Table.
(** 2 on NEON, 0 elsewhere. *)
Variable MASK_SHIFT : Z.
(** What fresh raw memory holds. *)
Variable raw : Z -> Z.

Definition raw_rows (n : Z) : list MalTableEntry := map (fun i => mkEntry (raw i) (raw i)) (seqZ 0 n).

(** * Probing *)

(** The scan of a table without an index. *)
Fixpoint scan_rows (fuel : nat) (h : StringHeap) (t : MalTable) (key i : Z) : outcome (option Z) :=
  match fuel with
  | O => Ret None
  | S fuel =>
      if i <? entry_count t then
        same ← (if mal_table_row_live (entry_at t i) then mal_table_key_equals h (entry_at t i) key false
                else Ret false);
        if (same : bool) then Ret (Some i) else scan_rows fuel h t key (i + 1)
      else Ret None
  end.
Definition scan (h : StringHeap) (t : MalTable) (key : Z) : outcome (option Z) :=
  scan_rows (Z.to_nat (entry_count t)) h t key 0.

(** [while (matches != 0)] over a group: the bucket of an equal row. *)
Fixpoint table_candidates (fuel : nat) (h : StringHeap) (t : MalTable) (key hash group matches : Z)
  : outcome (option Z) :=
  match fuel with
  | O => Ret None
  | S fuel =>
      if matches =? 0 then Ret None
      else
        let slot := group + mal_hash_mask_first MASK_SHIFT matches in
        let e := entry_at t (arr_get (tb_slots t) slot) in
        same ← (if fingerprint_matches e hash then mal_table_key_equals h e key true else Ret false);
        if (same : bool) then Ret (Some slot)
        else table_candidates fuel h t key hash group (Z.land matches (matches - 1))
  end.
Definition group_candidates (h : StringHeap) (t : MalTable) (key hash group : Z) : outcome (option Z) :=
  table_candidates 16 h t key hash group
    (mal_hash_group_match MASK_SHIFT (tb_controls t) group (mal_hash_tag hash)).

Fixpoint find_loop (fuel : nat) (h : StringHeap) (t : MalTable) (key hash : Z) (probe : MalHashProbe) (available : Z)
  : outcome Z :=
  match fuel with
  | O => NoFuel
  | S fuel =>
      let group := probe_group probe in
      found ← group_candidates h t key hash group;
      match found with
      | Some slot => Ret slot
      | None =>
          let available :=
            if available =? UINT32_MAX then
              let deleted := mal_hash_group_match MASK_SHIFT (tb_controls t) group MAL_HASH_DELETED in
              if negb (deleted =? 0) then group + mal_hash_mask_first MASK_SHIFT deleted else available
            else available in
          let empty := mal_hash_group_match MASK_SHIFT (tb_controls t) group MAL_HASH_EMPTY in
          if negb (empty =? 0) then
            Ret (if available =? UINT32_MAX then group + mal_hash_mask_first MASK_SHIFT empty else available)
          else
            probe ← mal_hash_probe_next probe;
            find_loop fuel h t key hash probe available
      end
  end.
Definition mal_table_find_slot (h : StringHeap) (t : MalTable) (key hash : Z) : outcome Z :=
  if tb_slot_capacity t =? 0 then
    found ← scan h t key;
    Ret (match found with Some i => i | None => entry_count t end)
  else find_loop (probe_fuel (tb_slot_capacity t)) h t key hash (mal_hash_probe hash (tb_slot_capacity t)) UINT32_MAX.

Fixpoint lookup_loop (fuel : nat) (h : StringHeap) (t : MalTable) (key hash : Z) (probe : MalHashProbe) : outcome Z :=
  match fuel with
  | O => NoFuel
  | S fuel =>
      let group := probe_group probe in
      found ← group_candidates h t key hash group;
      match found with
      | Some slot => Ret (arr_get (tb_slots t) slot)
      | None =>
          if negb (mal_hash_group_match MASK_SHIFT (tb_controls t) group MAL_HASH_EMPTY =? 0) then Ret MAL_TABLE_EMPTY
          else
            probe ← mal_hash_probe_next probe;
            lookup_loop fuel h t key hash probe
      end
  end.
Definition mal_table_lookup_entry (h : StringHeap) (t : MalTable) (key hash : Z) : outcome Z :=
  if tb_slot_capacity t =? 0 then
    found ← scan h t key;
    Ret (match found with Some i => i32 i | None => MAL_TABLE_EMPTY end)
  else lookup_loop (probe_fuel (tb_slot_capacity t)) h t key hash (mal_hash_probe hash (tb_slot_capacity t)).

Definition mal_table_slot_entry (t : MalTable) (slot : Z) : Z :=
  if tb_slot_capacity t =? 0 then if slot <? entry_count t then i32 slot else MAL_TABLE_EMPTY
  else if mal_hash_slot_live (tb_controls t) slot then arr_get (tb_slots t) slot else MAL_TABLE_EMPTY.

(** * Growth *)

Definition mal_table_allocate_storage (t : MalTable) : MalTable :=
  if negb (entry_capacity t =? 0) then t
  else set_entry_capacity MAL_TABLE_SMALL_MIN_CAPACITY (raw_rows MAL_TABLE_SMALL_MIN_CAPACITY) t.

Fixpoint fill_table_loop (fuel : nat) (h : StringHeap) (t : MalTable) (i : Z) (sl ct : list Z) (cap : Z)
  : outcome (list Z * list Z * StringHeap) :=
  match fuel with
  | O => Ret (sl, ct, h)
  | S fuel =>
      if negb (mal_table_row_live (entry_at t i)) then fill_table_loop fuel h t (i + 1) sl ct cap
      else
        let '(hash, h) := mal_table_key_hash h (te_key (entry_at t i)) in
        slot ← mal_hash_controls_empty_slot MASK_SHIFT ct cap hash;
        let '(sl, ct) := mal_hash_index_insert sl ct slot i hash in
        fill_table_loop fuel h t (i + 1) sl ct cap
  end.
(** Fills the given slot block; it becomes the table's. *)
Definition mal_table_fill_slots (h : StringHeap) (t : MalTable) (sl ct : list Z) (cap : Z)
  : outcome (MalTable * StringHeap) :=
  if cap =? 0 then Ret (set_slots sl ct cap 0 t, h)
  else
    '(sl, ct, h) ← fill_table_loop (Z.to_nat (entry_count t)) h t 0 sl (mal_hash_index_reset ct cap) cap;
    Ret (set_slots sl ct cap 0 t, h).

Definition mal_table_rehash (h : StringHeap) (t : MalTable) (cap : Z) : outcome (MalTable * StringHeap) :=
  if cap =? 0 then mal_table_fill_slots h t [] [] 0
  else
    _ ← mal_hash_index_bytes cap;
    mal_table_fill_slots h t (raw_words raw cap) (raw_words raw cap) cap.

Definition mal_table_grow_slots_if_needed (h : StringHeap) (t : MalTable) (reuses_deleted : bool)
  : outcome (bool * MalTable * StringHeap) :=
  if (tb_slot_capacity t =? 0) && (entry_count t <? MAL_TABLE_SMALL_MIN_CAPACITY) then Ret (false, t, h)
  else if negb (tb_slot_capacity t =? 0)
          && mal_hash_index_fits (tb_size t + tb_deleted_slots t + 1 - Z.b2z reuses_deleted) (tb_slot_capacity t)
  then Ret (false, t, h)
  else
    let cap := if tb_slot_capacity t =? 0 then MAL_HASH_GROUP_WIDTH else tb_slot_capacity t in
    cap ← (if negb (mal_hash_index_fits (tb_size t + 1) cap) then
             if INT32_MAX / 2 <? cap then Abort else Ret (u32 (cap * 2))
           else Ret cap);
    '(t, h) ← mal_table_rehash h t cap;
    Ret (true, t, h).

(** [gc_realloc_raw]: the old rows, then fresh memory. *)
Definition realloc_rows (n : Z) (l : list MalTableEntry) : list MalTableEntry :=
  copy_rows (arr_len l) l (raw_rows n).

Definition mal_table_grow_entries_if_needed (t : MalTable) : outcome MalTable :=
  if entry_count t <? entry_capacity t then Ret t
  else if (INT32_MAX / 2 <? entry_capacity t) || (SIZE_MAX / 16 / 2 <? entry_capacity t) then Abort
  else
    let cap := u32 (entry_capacity t * 2) in
    Ret (set_entry_capacity cap (realloc_rows cap (tb_entries t)) t).

Definition mal_table_new : MalTable := mkTable 1 0 0 0 0 0 0 0 [] [] [].

(** Frees the sidecar of every row that owns one, dead rows included. *)
Fixpoint free_rows (rows : list MalTableEntry) (w : TableWorld) : outcome TableWorld :=
  match rows with
  | [] => Ret w
  | e :: rows =>
      w ← (if mal_table_row_owned e then free_sidecar (te_payload e) w else Ret w);
      free_rows rows w
  end.
Definition used_rows (t : MalTable) : list MalTableEntry := take (Z.to_nat (entry_count t)) (tb_entries t).
Definition mal_table_free (t : MalTable) (w : TableWorld) : outcome TableWorld := free_rows (used_rows t) w.

Definition mal_table_size (t : MalTable) : Z := tb_size t.

Definition mal_table_reserve (t : MalTable) (w : TableWorld) (desired_size : Z) : outcome (bool * MalTable * TableWorld) :=
  if desired_size <=? tb_size t then Ret (true, t, w)
  else if INT32_MAX - 1 <? desired_size then Ret (false, t, w)
  else
    let appended := desired_size - tb_size t in
    let required_entries := entry_count t + appended in
    target ← capacity_loop capacity_fuel MAL_TABLE_SMALL_MIN_CAPACITY required_entries;
    match target with
    | None => Ret (false, t, w)
    | Some target_entries =>
        if SIZE_MAX / 16 <? target_entries then Ret (false, t, w)
        else
          slots ← (if required_entries <=? MAL_TABLE_SMALL_MIN_CAPACITY then Ret (Some 0)
                   else slot_capacity_loop capacity_fuel MAL_HASH_GROUP_WIDTH desired_size);
          match slots with
          | None => Ret (false, t, w)
          | Some target_slots =>
              if SIZE_MAX / (4 + 1) <? target_slots then Ret (false, t, w)
              else
                let t := if entry_capacity t <? target_entries
                         then set_entry_capacity target_entries (realloc_rows target_entries (tb_entries t)) t
                         else t in
                if tb_slot_capacity t <? target_slots then
                  '(t, h) ← mal_table_rehash (tw_strings w) t target_slots;
                  Ret (true, t, set_tw_strings h w)
                else Ret (true, t, w)
          end
    end.

(** * Lookup and insertion *)

(** [table->slot_capacity == 0 ? 0 : mal_table_key_hash(encoded)]. *)
Definition index_hash (t : MalTable) (w : TableWorld) (encoded : Z) : Z * TableWorld :=
  if tb_slot_capacity t =? 0 then (0, w)
  else let '(hash, h) := mal_table_key_hash (tw_strings w) encoded in (hash, set_tw_strings h w).

(** The result is the entry handle; [None] is [present = false]. *)
Definition mal_table_lookup (t : MalTable) (w : TableWorld) (key : MalKey) : outcome (option Z * TableWorld) :=
  encoded ← mal_table_encode_key key;
  if tb_size t =? 0 then Ret (None, w)
  else
    let index := u32 encoded in
    if bool_decide (key_kind key = MAL_KEY_INDEX) && (index <? entry_count t)
       && mal_table_row_live (entry_at t index)
       && (Z.land (te_key (entry_at t index)) MAL_TABLE_IDENTITY_MASK =? encoded)
    then Ret (Some (mal_table_handle index), w)
    else
      let '(hash, w) := index_hash t w encoded in
      e ← mal_table_lookup_entry (tw_strings w) t encoded hash;
      if e =? MAL_TABLE_EMPTY then Ret (None, w)
      else Ret (Some (mal_table_handle (u32 e)), w).

(** Storing a row at the end and its bucket in the index. *)
Definition append_row (t : MalTable) (encoded hash index : Z) : MalTable :=
  let entry_index := entry_count t in
  let e := mkEntry (Z.lor encoded (mal_table_hash_fingerprint hash)) MAL_VALUE_UNDEFINED in
  let t := set_counts (tb_size t) (tombstone_count t) (entry_index + 1) (set_entry entry_index e t) in
  let t :=
    if negb (tb_slot_capacity t =? 0) then
      let del := if arr_get (tb_controls t) index =? MAL_HASH_DELETED then tb_deleted_slots t - 1
                 else tb_deleted_slots t in
      let '(sl, ct) := mal_hash_index_insert (tb_slots t) (tb_controls t) index entry_index hash in
      set_slots sl ct (tb_slot_capacity t) del t
    else t in
  set_counts (tb_size t + 1) (tombstone_count t) (entry_count t) t.

(** The handle and the [inserted] flag. *)
Definition mal_table_upsert_entry (t : MalTable) (w : TableWorld) (key : MalKey)
  : outcome (Z * bool * MalTable * TableWorld) :=
  encoded ← mal_table_encode_key key;
  let t := mal_table_allocate_storage t in
  let '(hash, w) := index_hash t w encoded in
  index ← mal_table_find_slot (tw_strings w) t encoded hash;
  if negb (mal_table_slot_entry t index =? MAL_TABLE_EMPTY) then
    Ret (mal_table_handle (u32 (mal_table_slot_entry t index)), false, t, w)
  else
    t ← mal_table_grow_entries_if_needed t;
    let reuses_deleted := negb (tb_slot_capacity t =? 0) && (arr_get (tb_controls t) index =? MAL_HASH_DELETED) in
    '(grown, t, h) ← mal_table_grow_slots_if_needed (tw_strings w) t reuses_deleted;
    let w := set_tw_strings h w in
    '(hash, index, w) ←
      (if (grown : bool) then
         let '(hash, h) := mal_table_key_hash (tw_strings w) encoded in
         index ← mal_table_find_slot h t encoded hash;
         Ret (hash, index, set_tw_strings h w)
       else if tb_slot_capacity t =? 0 then
         let '(hash, h) := mal_table_key_hash (tw_strings w) encoded in
         Ret (hash, index, set_tw_strings h w)
       else Ret (hash, index, w));
    Ret (mal_table_handle (entry_count t), true, append_row t encoded hash index, w).

(** * Removal *)

(** The barriers of a row that dies: its key, and its value unless it owns data. *)
Definition shade_row (e : MalTableEntry) (w : TableWorld) : TableWorld :=
  let w := shade (mal_table_key_value (te_key e)) w in
  if negb (mal_table_row_owned e) then shade (te_payload e) w else w.

Definition mal_table_delete (t : MalTable) (w : TableWorld) (key : MalKey) : outcome (bool * MalTable * TableWorld) :=
  encoded ← mal_table_encode_key key;
  if tb_size t =? 0 then Ret (false, t, w)
  else
    let '(hash, w) := index_hash t w encoded in
    index ← mal_table_find_slot (tw_strings w) t encoded hash;
    let entry_index := mal_table_slot_entry t index in
    if entry_index =? MAL_TABLE_EMPTY then Ret (false, t, w)
    else
      let e := entry_at t entry_index in
      let w := shade_row e w in
      let t := set_counts (tb_size t - 1) (tombstone_count t + 1) (entry_count t) (set_entry entry_index (kill_row e) t) in
      if negb (tb_slot_capacity t =? 0) then
        let '(ct, deleted) := mal_hash_controls_erase MASK_SHIFT (tb_controls t) index in
        Ret (true, set_slots (tb_slots t) ct (tb_slot_capacity t) (tb_deleted_slots t + Z.b2z deleted) t, w)
      else Ret (true, t, w).

(** The rows slide down over the dead ones, whose sidecars are freed. *)
Fixpoint compact_rows (fuel : nat) (t : MalTable) (w : TableWorld) (read_index write_index : Z)
  : outcome (MalTable * TableWorld * Z) :=
  match fuel with
  | O => Ret (t, w, write_index)
  | S fuel =>
      let e := entry_at t read_index in
      if negb (mal_table_row_live e) then
        w ← (if mal_table_row_owned e then free_sidecar (te_payload e) w else Ret w);
        compact_rows fuel t w (read_index + 1) write_index
      else
        let t := if negb (write_index =? read_index) then set_entry write_index e t else t in
        compact_rows fuel t w (read_index + 1) (write_index + 1)
  end.

(** [while (target < size) target *= 2]. *)
Fixpoint double_entries (fuel : nat) (target sz : Z) : outcome Z :=
  match fuel with
  | O => NoFuel
  | S fuel => if target <? sz then double_entries fuel (u32 (target * 2)) sz else Ret target
  end.
Fixpoint double_slots (fuel : nat) (target sz : Z) : outcome Z :=
  match fuel with
  | O => NoFuel
  | S fuel =>
      if negb (target =? 0) && negb (mal_hash_index_fits sz target) then double_slots fuel (u32 (target * 2)) sz
      else Ret target
  end.

Definition mal_table_compact (t : MalTable) (w : TableWorld) : outcome (MalTable * TableWorld) :=
  if negb (iterator_pins t =? 0) || (tombstone_count t =? 0) then Ret (t, w)
  else
    '(t, w, write_index) ← compact_rows (Z.to_nat (entry_count t)) t w 0 0;
    let t := set_counts (tb_size t) 0 write_index t in
    let epoch := u64 (handle_epoch t + 1) in
    let t := set_handle_epoch (if epoch =? 0 then 1 else epoch) t in
    if tb_size t =? 0 then Ret (set_entry_capacity 0 [] (set_slots [] [] 0 0 t), w)
    else
      target_entries ← double_entries capacity_fuel MAL_TABLE_SMALL_MIN_CAPACITY (tb_size t);
      let t := if target_entries <? entry_capacity t
               then set_entry_capacity target_entries
                      (copy_rows (entry_count t) (tb_entries t) (raw_rows target_entries)) t
               else t in
      target_slots ← double_slots capacity_fuel
                       (if tb_size t <=? MAL_TABLE_SMALL_MIN_CAPACITY then 0 else MAL_HASH_GROUP_WIDTH) (tb_size t);
      '(t, h) ← mal_table_rehash (tw_strings w) t target_slots;
      Ret (t, set_tw_strings h w).

(** The loop of [mal_table_clear] over the rows from [i] on. *)
Fixpoint clear_rows (fuel : nat) (t : MalTable) (w : TableWorld) (i : Z) : MalTable * TableWorld :=
  match fuel with
  | O => (t, w)
  | S fuel =>
      let e := entry_at t i in
      if mal_table_row_live e then
        clear_rows fuel (set_counts (tb_size t) (tombstone_count t + 1) (entry_count t) (set_entry i (kill_row e) t))
          (shade_row e w) (i + 1)
      else clear_rows fuel t w (i + 1)
  end.
Definition mal_table_clear (t : MalTable) (w : TableWorld) : outcome (MalTable * TableWorld) :=
  if tb_size t =? 0 then
    if (iterator_pins t =? 0) && negb (tombstone_count t =? 0) then mal_table_compact t w else Ret (t, w)
  else
    let '(t, w) := clear_rows (Z.to_nat (entry_count t)) t w 0 in
    let t := set_counts 0 (tombstone_count t) (entry_count t) t in
    let t := set_slots (tb_slots t)
               (if negb (tb_slot_capacity t =? 0) then mal_hash_index_reset (tb_controls t) (tb_slot_capacity t)
                else tb_controls t) (tb_slot_capacity t) 0 t in
    if iterator_pins t =? 0 then mal_table_compact t w else Ret (t, w).

(** The first pass of [mal_table_retain]: the keys of the rejected rows, of which
    sixteen are kept, and their number. *)
Definition rejected_row (keep : Z -> bool) (e : MalTableEntry) : bool :=
  mal_table_row_live e && negb (keep (mal_table_key_value (te_key e))).
Definition REJECTED : Z := 16.
Fixpoint retain_count (keep : Z -> bool) (rows : list MalTableEntry) (rejected : list Z) (removed : Z) : list Z * Z :=
  match rows with
  | [] => (rejected, removed)
  | e :: rows =>
      if rejected_row keep e then
        retain_count keep rows
          (if removed <? REJECTED then rejected ++ [mal_table_key_value (te_key e)] else rejected) (removed + 1)
      else retain_count keep rows rejected removed
  end.
Fixpoint retain_listed (rejected : list Z) (t : MalTable) (w : TableWorld) : outcome (MalTable * TableWorld) :=
  match rejected with
  | [] => Ret (t, w)
  | v :: rejected =>
      '(_, t, w) ← mal_table_delete t w (mal_key_from_value v);
      retain_listed rejected t w
  end.
Fixpoint retain_scan (keep : Z -> bool) (fuel : nat) (t : MalTable) (w : TableWorld) (i : Z)
  : outcome (MalTable * TableWorld) :=
  match fuel with
  | O => Ret (t, w)
  | S fuel =>
      let e := entry_at t i in
      if rejected_row keep e then
        '(_, t, w) ← mal_table_delete t w (mal_table_decode_key (te_key e));
        retain_scan keep fuel t w (i + 1)
      else retain_scan keep fuel t w (i + 1)
  end.
Fixpoint retain_dense (keep : Z -> bool) (fuel : nat) (t : MalTable) (w : TableWorld) (i : Z) : MalTable * TableWorld :=
  match fuel with
  | O => (t, w)
  | S fuel =>
      let e := entry_at t i in
      if rejected_row keep e then retain_dense keep fuel (set_entry i (kill_row e) t) (shade_row e w) (i + 1)
      else retain_dense keep fuel t w (i + 1)
  end.

Definition mal_table_retain (keep : Z -> bool) (t : MalTable) (w : TableWorld) : outcome (Z * MalTable * TableWorld) :=
  let '(rejected, removed) := retain_count keep (used_rows t) [] 0 in
  if removed =? 0 then Ret (0, t, w)
  else if removed =? tb_size t then
    '(t, w) ← mal_table_clear t w; Ret (removed, t, w)
  else
    let remaining := tb_size t - removed in
    if (removed <? REJECTED) || (removed <? remaining / 4) then
      '(t, w) ← (if removed <=? REJECTED then retain_listed rejected t w
                 else retain_scan keep (Z.to_nat (entry_count t)) t w 0);
      Ret (removed, t, w)
    else
      let '(t, w) := retain_dense keep (Z.to_nat (entry_count t)) t w 0 in
      let t := set_counts (tb_size t - removed) (tombstone_count t + removed) (entry_count t) t in
      '(t, h) ← mal_table_fill_slots (tw_strings w) t (tb_slots t) (tb_controls t) (tb_slot_capacity t);
      Ret (removed, t, set_tw_strings h w).

(** A null table is [None]. *)
Definition mal_table_pin (t : option MalTable) : option MalTable :=
  (fun t => set_iterator_pins (u32 (iterator_pins t + 1)) t) <$> t.
Definition mal_table_unpin (t : option MalTable) : option MalTable :=
  (fun t => if iterator_pins t =? 0 then t else set_iterator_pins (iterator_pins t - 1) t) <$> t.

(** * Entry handles *)

Definition handle_entry (t : MalTable) (handle : Z) : MalTableEntry := entry_at t (mal_table_handle_index handle).

Definition mal_table_entry_key (t : MalTable) (handle : Z) : MalKey :=
  mal_table_decode_key (te_key (handle_entry t handle)).
Definition mal_table_entry_data (t : MalTable) (handle : Z) : Z :=
  if mal_table_row_owned (handle_entry t handle) then te_payload (handle_entry t handle) else 0.
Definition mal_table_entry_set_owned_data (t : MalTable) (w : TableWorld) (handle data : Z) : MalTable * TableWorld :=
  let e := handle_entry t handle in
  let w := if negb (mal_table_row_owned e) then shade (te_payload e) w else w in
  let e := if negb (data =? 0) then mkEntry (Z.lor (te_key e) MAL_TABLE_OWNS_DATA) data
           else mkEntry (Z.land (te_key e) (u64 (Z.lnot MAL_TABLE_OWNS_DATA))) MAL_VALUE_UNDEFINED in
  (set_entry (mal_table_handle_index handle) e t, w).

(** [(u8) ((key & MAL_TABLE_FLAGS_MASK) >> MAL_TABLE_FLAGS_SHIFT)]. *)
Definition row_flags (e : MalTableEntry) : Z :=
  u8 (Z.shiftr (Z.land (te_key e) MAL_TABLE_FLAGS_MASK) MAL_TABLE_FLAGS_SHIFT).
Definition mal_table_entry_property_flags (t : MalTable) (handle : Z) : Z := row_flags (handle_entry t handle).
Definition mal_table_entry_set_property_flags (t : MalTable) (handle flags : Z) : outcome MalTable :=
  if negb (Z.land flags (Z.lnot 0x7f) =? 0) then Abort
  else
    let e := handle_entry t handle in
    Ret (set_entry (mal_table_handle_index handle)
           (mkEntry (Z.lor (Z.land (te_key e) (u64 (Z.lnot MAL_TABLE_FLAGS_MASK))) (Z.shiftl flags MAL_TABLE_FLAGS_SHIFT))
              (te_payload e)) t).

Definition mal_table_entry_value (t : MalTable) (handle : Z) : Z := te_payload (handle_entry t handle).
Definition mal_table_entry_set_value (t : MalTable) (w : TableWorld) (handle value : Z) : MalTable * TableWorld :=
  let e := handle_entry t handle in
  (set_entry (mal_table_handle_index handle) (mkEntry (te_key e) value) t, shade (te_payload e) w).

Definition mal_table_entry_is_live (t : MalTable) (handle : Z) : bool :=
  negb (handle =? 0) && (handle <=? entry_count t) && mal_table_row_live (handle_entry t handle).
Definition mal_table_handle_epoch (t : MalTable) : Z := handle_epoch t.

Definition mal_table_entry_matches (t : MalTable) (w : TableWorld) (handle epoch : Z) (key : MalKey)
  : outcome (bool * TableWorld) :=
  if (handle =? 0) || negb (epoch =? handle_epoch t) then Ret (false, w)
  else if entry_count t <=? mal_table_handle_index handle then Ret (false, w)
  else if negb (mal_table_row_live (handle_entry t handle)) then Ret (false, w)
  else
    encoded ← mal_table_encode_key key;
    if tb_slot_capacity t =? 0 then
      same ← mal_table_key_equals (tw_strings w) (handle_entry t handle) encoded false; Ret (same, w)
    else
      let '(hash, h) := mal_table_key_hash (tw_strings w) encoded in
      same ← (if fingerprint_matches (handle_entry t handle) hash
              then mal_table_key_equals h (handle_entry t handle) encoded true else Ret false);
      Ret (same, set_tw_strings h w).

(** * Hints *)

(** A row found through a hint, by exact identity of the stored key. *)
Definition mal_table_hinted_row (t : MalTable) (handle key : Z) : outcome (option MalTableEntry) :=
  if handle =? 0 then Ret None
  else if entry_count t <=? mal_table_handle_index handle then Ret None
  else
    let e := handle_entry t handle in
    if negb (mal_table_row_live e) then Ret None
    else
      encoded ← mal_table_encode_key (mal_key_from_value key);
      if negb (Z.land (te_key e) MAL_TABLE_IDENTITY_MASK =? encoded) then Ret None else Ret (Some e).

(** The value and the flags; [None] is the [false] return. *)
Definition mal_table_read_entry_hint (t : MalTable) (handle key : Z) : outcome (option (Z * Z)) :=
  row ← mal_table_hinted_row t handle key;
  Ret (match row with
       | Some e => if mal_table_row_owned e then None else Some (te_payload e, row_flags e)
       | None => None
       end).
(** The sidecar and the flags; [None] is null. *)
Definition mal_table_read_owned_entry_hint (t : MalTable) (handle key : Z) : outcome (option (Z * Z)) :=
  row ← mal_table_hinted_row t handle key;
  Ret (match row with
       | Some e => if negb (mal_table_row_owned e) then None else Some (te_payload e, row_flags e)
       | None => None
       end).

Definition mal_table_handle_row (t : MalTable) (handle : Z) : option MalTableEntry :=
  let index := u32 (handle - 1) in
  if index <? entry_count t then Some (entry_at t index) else None.

Definition mal_table_private_hint_read (t : MalTable) (symbol hint : Z) : option Z :=
  let index := u32 (hint - 1) in
  if entry_count t <=? index then None
  else
    let e := entry_at t index in
    if negb (Z.land (te_key e) MAL_TABLE_IDENTITY_MASK =? Z.lor MAL_TABLE_SYMBOL (Z.land symbol MAKS_PTR)) then None
    else Some (te_payload e).

Definition mal_table_named_hint_read (t : MalTable) (handle key : Z) : option (Z * Z) :=
  let kind := if mal_value_is_string key then MAL_TABLE_STRING
              else if mal_value_is_symbol key then MAL_TABLE_SYMBOL else 0 in
  match (if handle =? 0 then None else mal_table_handle_row t handle) with
  | None => None
  | Some e =>
      if (kind =? 0)
         || negb (Z.land (te_key e) (Z.lor MAL_TABLE_IDENTITY_MASK MAL_TABLE_OWNS_DATA) =? Z.lor kind (Z.land key MAKS_PTR))
      then None else Some (te_payload e, row_flags e)
  end.

(** The value cell of a private data element: the number of its row. *)
Definition mal_table_private_hint_slot (t : MalTable) (symbol hint : Z) : option Z :=
  let index := u32 (hint - 1) in
  if entry_count t <=? index then None
  else if negb (Z.land (te_key (entry_at t index)) (Z.lor MAL_TABLE_IDENTITY_MASK MAL_TABLE_OWNS_DATA)
                =? Z.lor MAL_TABLE_SYMBOL (Z.land symbol MAKS_PTR)) then None
  else Some index.

(** [symbol->private_entry_hint] is a 28-bit field; [hints] gives it by symbol
    address, and a store truncates. *)
Definition Hints : Type := Z -> Z.
Definition set_private_hint (symbol handle : Z) (hints : Hints) : Hints :=
  fun p => if p =? symbol then wrap 28 (u32 handle) else hints p.

Definition mal_table_get_private_value (t : option MalTable) (w : TableWorld) (hints : Hints) (symbol : Z)
  : outcome (option Z * TableWorld * Hints) :=
  match t with
  | None => Ret (None, w, hints)
  | Some t =>
      let key := mal_value_from_symbol symbol in
      match mal_table_private_hint_read t key (hints symbol) with
      | Some value => Ret (Some value, w, hints)
      | None =>
          '(found, w) ← mal_table_lookup t w (mkKey MAL_KEY_SYMBOL key);
          Ret (match found with
               | None => (None, w, hints)
               | Some handle => (Some (te_payload (handle_entry t handle)), w, set_private_hint symbol handle hints)
               end)
      end
  end.

Definition mal_table_private_value_slot (t : option MalTable) (w : TableWorld) (hints : Hints) (symbol : Z)
  : outcome (option Z * TableWorld * Hints) :=
  match t with
  | None => Ret (None, w, hints)
  | Some t =>
      let key := mal_value_from_symbol symbol in
      let cell (i : Z) := if negb (Z.land (te_key (entry_at t i)) MAL_TABLE_OWNS_DATA =? 0) then None else Some i in
      let hinted := match mal_table_handle_row t (hints symbol) with
                    | None => false
                    | Some e => Z.land (te_key e) MAL_TABLE_IDENTITY_MASK =? Z.lor MAL_TABLE_SYMBOL (Z.land key MAKS_PTR)
                    end in
      if hinted then Ret (cell (u32 (hints symbol - 1)), w, hints)
      else
        '(found, w) ← mal_table_lookup t w (mkKey MAL_KEY_SYMBOL key);
        Ret (match found with
             | None => (None, w, hints)
             | Some handle => (cell (mal_table_handle_index handle), w, set_private_hint symbol handle hints)
             end)
  end.

(** * Iteration *)

(** The cursor is [iter->index]. *)
Definition mal_table_iter_init : Z := 0.
Fixpoint iter_loop (fuel : nat) (t : MalTable) (index : Z) : option (MalKey * Z) * Z :=
  match fuel with
  | O => (None, index)
  | S fuel =>
      if index <? entry_count t then
        let entry_index := u32 index in
        let e := entry_at t entry_index in
        if negb (mal_table_row_live e) then iter_loop fuel t (index + 1)
        else (Some (mal_table_decode_key (te_key e), mal_table_handle entry_index), index + 1)
      else (None, index)
  end.
Definition mal_table_iter_next (t : MalTable) (index : Z) : option (MalKey * Z) * Z :=
  iter_loop (Z.to_nat (entry_count t - index)) t index.
End Table.
