(* ===== verification/TableKeys.v ===== *)
(** The words of the property table (Table). The packed row word: a 50-bit identity,
    seven flag bits, the ownership bit and six hash bits, and every mask operation of the
    table reads or replaces one of them. Property keys as the table stores them: the
    identity of a key, the property key it names, encoding and decoding, the key hash and
    the comparison of a row with a key. *)

From stdpp Require Import gmap.
From S2P Require Import Prelude F64 Value HeapString HeapStringSpec Key HashIndex StringHeap Table.

(** * Words in blocks *)

Lemma block_bits n a x i :
  0 <= n -> 0 <= a < 2 ^ n -> 0 <= i ->
  Z.testbit (a + x * 2 ^ n) i = if i <? n then Z.testbit a i else Z.testbit x (i - n).
Proof.
  intros Hn Ha Hi. rewrite <- lor_shiftl_add by lia. rewrite Z.lor_spec.
  destruct (Z.ltb_spec i n).
  - by rewrite Z.shiftl_spec_low, orb_false_r by lia.
  - rewrite Z.shiftl_spec by lia. rewrite <- (Z.mod_small a (2 ^ n)) by lia.
    by rewrite Z.mod_pow2_bits_high by lia.
Qed.

Lemma word_land_low n a b : 0 <= n -> 0 <= a < 2 ^ n -> 0 <= Z.land a b < 2 ^ n.
Proof.
  intros Hn Ha. assert (Z.land a b = Z.land a b mod 2 ^ n) as ->; [|apply Z.mod_pos_bound; lia].
  rewrite <- !Z.land_ones, <- Z.land_assoc, (Z.land_comm b), Z.land_assoc, Z.land_ones by lia.
  by rewrite Z.mod_small by lia.
Qed.

Lemma land_blocks n a b x y :
  0 <= n -> 0 <= a < 2 ^ n -> 0 <= b < 2 ^ n ->
  Z.land (a + x * 2 ^ n) (b + y * 2 ^ n) = Z.land a b + Z.land x y * 2 ^ n.
Proof.
  intros Hn Ha Hb. pose proof (word_land_low n a b Hn Ha). apply Z.bits_inj'. intros i Hi.
  rewrite Z.land_spec, !block_bits by lia. destruct (i <? n); by rewrite Z.land_spec.
Qed.

Lemma lor_blocks n a b x y :
  0 <= n -> 0 <= a < 2 ^ n -> 0 <= b < 2 ^ n ->
  Z.lor (a + x * 2 ^ n) (b + y * 2 ^ n) = Z.lor a b + Z.lor x y * 2 ^ n.
Proof.
  intros Hn Ha Hb. pose proof (lor_range a b n Hn Ha Hb) as Hr. apply Z.bits_inj'. intros i Hi.
  rewrite Z.lor_spec, !block_bits by done. destruct (i <? n); by rewrite Z.lor_spec.
Qed.

(** * The fields of a row word *)

Definition word (ident flags : Z) (owns : bool) (fp : Z) : Z :=
  ident + (flags + (Z.b2z owns + fp * 2 ^ 1) * 2 ^ 7) * 2 ^ 50.
Definition word_ok (ident flags fp : Z) : Prop :=
  0 <= ident < 2 ^ 50 /\ 0 <= flags < 2 ^ 7 /\ 0 <= fp < 2 ^ 6.

Lemma word_range ident flags owns fp : word_ok ident flags fp -> in_u 64 (word ident flags owns fp).
Proof. intros (Hi & Hf & Hh). unfold word, in_u. destruct owns; cbn [Z.b2z]; lia. Qed.

(** Every 64-bit word is one of these. *)
Lemma word_fields k :
  in_u 64 k -> exists ident flags owns fp, word_ok ident flags fp /\ k = word ident flags owns fp.
Proof.
  intros Hk. unfold in_u in Hk.
  exists (k mod 2 ^ 50), (k / 2 ^ 50 mod 2 ^ 7), (Z.odd (k / 2 ^ 57)), (k / 2 ^ 58). split.
  - split; [apply Z.mod_pos_bound; lia|]. split; [apply Z.mod_pos_bound; lia|].
    split; [apply Z.div_pos; lia|apply Z.div_lt_upper_bound; lia].
  - unfold word. pose proof (Z.div_mod k (2 ^ 50) ltac:(lia)). pose proof (Z.div_mod (k / 2 ^ 50) (2 ^ 7) ltac:(lia)) as H1.
    rewrite Z.div_div in H1 by lia. change (2 ^ 50 * 2 ^ 7) with (2 ^ 57) in H1.
    pose proof (Z.div_mod (k / 2 ^ 57) 2 ltac:(lia)) as H2. rewrite Z.div_div in H2 by lia.
    change (2 ^ 57 * 2) with (2 ^ 58) in H2. rewrite Zmod_odd in H2.
    destruct (Z.odd (k / 2 ^ 57)); cbn [Z.b2z] in *; lia.
Qed.

Section word.
Context (ident flags : Z) (owns : bool) (fp : Z).
Hypothesis Hok : word_ok ident flags fp.

Lemma word_land i f o h :
  0 <= i < 2 ^ 50 -> 0 <= f < 2 ^ 7 -> 0 <= o < 2 ^ 1 ->
  Z.land (word ident flags owns fp) (i + (f + (o + h * 2 ^ 1) * 2 ^ 7) * 2 ^ 50)
  = Z.land ident i + (Z.land flags f + (Z.land (Z.b2z owns) o + Z.land fp h * 2 ^ 1) * 2 ^ 7) * 2 ^ 50.
Proof using Hok.
  intros Hi Hf Ho. destruct Hok as (Hid & Hfl & _). unfold word.
  assert (0 <= Z.b2z owns < 2 ^ 1) by (destruct owns; cbn; lia). by rewrite !land_blocks by lia.
Qed.
Lemma word_lor i f o h :
  0 <= i < 2 ^ 50 -> 0 <= f < 2 ^ 7 -> 0 <= o < 2 ^ 1 ->
  Z.lor (word ident flags owns fp) (i + (f + (o + h * 2 ^ 1) * 2 ^ 7) * 2 ^ 50)
  = Z.lor ident i + (Z.lor flags f + (Z.lor (Z.b2z owns) o + Z.lor fp h * 2 ^ 1) * 2 ^ 7) * 2 ^ 50.
Proof using Hok.
  intros Hi Hf Ho. destruct Hok as (Hid & Hfl & _). unfold word.
  assert (0 <= Z.b2z owns < 2 ^ 1) by (destruct owns; cbn; lia). by rewrite !lor_blocks by lia.
Qed.

(** All-ones blocks keep a field. *)
Lemma land_id : Z.land ident (2 ^ 50 - 1) = ident.
Proof using Hok. destruct Hok as (Hi & _). rewrite land_mask by lia. by apply Z.mod_small. Qed.
Lemma land_flags : Z.land flags (2 ^ 7 - 1) = flags.
Proof using Hok. destruct Hok as (_ & Hf & _). rewrite land_mask by lia. by apply Z.mod_small. Qed.
Lemma land_fp : Z.land fp (2 ^ 6 - 1) = fp.
Proof using Hok. destruct Hok as (_ & _ & Hf). rewrite land_mask by lia. by apply Z.mod_small. Qed.
Lemma land_owns : Z.land (Z.b2z owns) 1 = Z.b2z owns.
Proof using Type. by destruct owns. Qed.

Lemma word_identity : Z.land (word ident flags owns fp) MAL_TABLE_IDENTITY_MASK = ident.
Proof using Hok.
  change MAL_TABLE_IDENTITY_MASK with ((2 ^ 50 - 1) + (0 + (0 + 0 * 2 ^ 1) * 2 ^ 7) * 2 ^ 50).
  rewrite word_land, land_id, !Z.land_0_r by lia. lia.
Qed.
Lemma word_kind : Z.land (word ident flags owns fp) MAL_TABLE_KIND_MASK = Z.land ident MAL_TABLE_KIND_MASK.
Proof using Hok.
  change MAL_TABLE_KIND_MASK with (3 * 2 ^ 48 + (0 + (0 + 0 * 2 ^ 1) * 2 ^ 7) * 2 ^ 50) at 1.
  rewrite word_land, !Z.land_0_r by lia. rewrite Z.add_0_r. done.
Qed.
Lemma word_pointer : Z.land (word ident flags owns fp) MAKS_PTR = Z.land ident MAKS_PTR.
Proof using Hok.
  change MAKS_PTR with ((2 ^ 48 - 1) + (0 + (0 + 0 * 2 ^ 1) * 2 ^ 7) * 2 ^ 50) at 1.
  rewrite word_land, !Z.land_0_r by lia. rewrite Z.add_0_r. done.
Qed.
Lemma word_u32 : u32 (word ident flags owns fp) = u32 ident.
Proof using Type.
  unfold u32, wrap, word. set (x := flags + _).
  replace (ident + x * 2 ^ 50) with (ident + x * 2 ^ 18 * 2 ^ 32) by lia. apply Z.mod_add. lia.
Qed.
Lemma word_hash : Z.land (word ident flags owns fp) MAL_TABLE_HASH_MASK = fp * 2 ^ 58.
Proof using Hok.
  change MAL_TABLE_HASH_MASK with (0 + (0 + (0 + (2 ^ 6 - 1) * 2 ^ 1) * 2 ^ 7) * 2 ^ 50).
  rewrite word_land, !Z.land_0_r, land_fp by lia. lia.
Qed.
Lemma word_owned payload : mal_table_row_owned (mkEntry (word ident flags owns fp) payload) = owns.
Proof using Hok.
  unfold mal_table_row_owned. cbn [te_key].
  change MAL_TABLE_OWNS_DATA with (0 + (0 + (1 + 0 * 2 ^ 1) * 2 ^ 7) * 2 ^ 50).
  rewrite word_land, !Z.land_0_r, land_owns by lia. by destruct owns.
Qed.
Lemma word_flags payload : row_flags (mkEntry (word ident flags owns fp) payload) = flags.
Proof using Hok.
  unfold row_flags. cbn [te_key]. destruct Hok as (_ & Hf & _).
  change MAL_TABLE_FLAGS_MASK with (0 + ((2 ^ 7 - 1) + (0 + 0 * 2 ^ 1) * 2 ^ 7) * 2 ^ 50).
  rewrite word_land, !Z.land_0_r, land_flags by lia.
  replace (0 + (flags + (0 + 0 * 2 ^ 1) * 2 ^ 7) * 2 ^ 50) with (0 + flags * 2 ^ 50) by lia.
  unfold MAL_TABLE_FLAGS_SHIFT. rewrite shiftr_add_mul by lia. apply wrap_small. unfold in_u. lia.
Qed.
Lemma word_named : Z.land (word ident flags owns fp) (Z.lor MAL_TABLE_IDENTITY_MASK MAL_TABLE_OWNS_DATA)
  = ident + Z.b2z owns * 2 ^ 57.
Proof using Hok.
  change (Z.lor MAL_TABLE_IDENTITY_MASK MAL_TABLE_OWNS_DATA) with ((2 ^ 50 - 1) + (0 + (1 + 0 * 2 ^ 1) * 2 ^ 7) * 2 ^ 50).
  rewrite word_land, !Z.land_0_r, land_id, land_owns by lia. lia.
Qed.

(** Writes replace one field. *)
Lemma word_kill payload :
  kill_row (mkEntry (word ident flags owns fp) payload) = mkEntry (word (Z.land ident (2 ^ 48 - 1)) flags owns fp) payload.
Proof using Hok.
  unfold kill_row. cbn [te_key te_payload]. f_equal.
  change (u64 (Z.lnot MAL_TABLE_KIND_MASK))
    with ((2 ^ 48 - 1) + ((2 ^ 7 - 1) + (1 + (2 ^ 6 - 1) * 2 ^ 1) * 2 ^ 7) * 2 ^ 50).
  by rewrite word_land, land_flags, land_owns, land_fp by lia.
Qed.
Lemma word_set_owns : Z.lor (word ident flags owns fp) MAL_TABLE_OWNS_DATA = word ident flags true fp.
Proof using Hok.
  change MAL_TABLE_OWNS_DATA with (0 + (0 + (1 + 0 * 2 ^ 1) * 2 ^ 7) * 2 ^ 50).
  rewrite word_lor, !Z.lor_0_r by lia. by destruct owns.
Qed.
Lemma word_clear_owns :
  Z.land (word ident flags owns fp) (u64 (Z.lnot MAL_TABLE_OWNS_DATA)) = word ident flags false fp.
Proof using Hok.
  change (u64 (Z.lnot MAL_TABLE_OWNS_DATA))
    with ((2 ^ 50 - 1) + ((2 ^ 7 - 1) + (0 + (2 ^ 6 - 1) * 2 ^ 1) * 2 ^ 7) * 2 ^ 50).
  by rewrite word_land, land_id, land_flags, land_fp, Z.land_0_r by lia.
Qed.
Lemma word_set_flags f :
  0 <= f < 2 ^ 7 ->
  Z.lor (Z.land (word ident flags owns fp) (u64 (Z.lnot MAL_TABLE_FLAGS_MASK))) (Z.shiftl f MAL_TABLE_FLAGS_SHIFT)
  = word ident f owns fp.
Proof using Hok.
  intros Hf. change (u64 (Z.lnot MAL_TABLE_FLAGS_MASK))
    with ((2 ^ 50 - 1) + (0 + (1 + (2 ^ 6 - 1) * 2 ^ 1) * 2 ^ 7) * 2 ^ 50).
  rewrite word_land, land_id, land_owns, land_fp, Z.land_0_r by lia. destruct Hok as (Hi & _).
  unfold MAL_TABLE_FLAGS_SHIFT. rewrite Z.shiftl_mul_pow2 by lia.
  replace (f * 2 ^ 50) with (0 + (f + 0 * 2 ^ 7) * 2 ^ 50) by lia.
  rewrite !lor_blocks, !Z.lor_0_r by lia. done.
Qed.
End word.

(** The fields of the fingerprint and of a new row. *)
Definition fp_of (hash : Z) : Z := Z.shiftr hash 51 mod 2 ^ 6.
Lemma fp_range hash : 0 <= fp_of hash < 2 ^ 6.
Proof. apply Z.mod_pos_bound. lia. Qed.
Lemma fingerprint_spec hash : mal_table_hash_fingerprint hash = fp_of hash * 2 ^ 58.
Proof.
  unfold mal_table_hash_fingerprint, MAL_TABLE_HASH_SHIFT. rewrite Z.shiftl_mul_pow2 by lia.
  by rewrite (land_mask 6) by lia.
Qed.
Lemma new_word ident hash :
  0 <= ident < 2 ^ 50 -> Z.lor ident (mal_table_hash_fingerprint hash) = word ident 0 false (fp_of hash).
Proof.
  intros Hi. rewrite fingerprint_spec.
  replace (Z.lor ident (fp_of hash * 2 ^ 58)) with (Z.lor (ident + 0 * 2 ^ 50) (0 + fp_of hash * 2 ^ 8 * 2 ^ 50))
    by (f_equal; lia).
  rewrite lor_blocks, Z.lor_0_r, Z.lor_0_l by lia. unfold word. cbn [Z.b2z]. lia.
Qed.
Lemma fingerprint_word ident flags owns fp payload hash :
  word_ok ident flags fp -> fingerprint_matches (mkEntry (word ident flags owns fp) payload) hash = (fp =? fp_of hash).
Proof.
  intros Hok. unfold fingerprint_matches. cbn [te_key]. rewrite word_hash, fingerprint_spec by done.
  pose proof (fp_range hash). destruct (Z.eqb_spec fp (fp_of hash)) as [->|]; [apply Z.eqb_refl|]. apply Z.eqb_neq. lia.
Qed.

(** A property key: an array index, a string by content, a symbol by identity. *)
Inductive PropKey : Type :=
| PIndex (n : Z)
| PString (units : list Z)
| PSymbol (p : Z).
#[export] Instance PropKey_eq_dec : EqDecision PropKey.
Proof. solve_decision. Defined.

(** * Identities *)

Definition id_kind (ident : Z) : Z := ident / 2 ^ 48.
Definition id_pointer (ident : Z) : Z := ident mod 2 ^ 48.
Definition ident_ok (ident : Z) : Prop :=
  1 <= id_kind ident <= 3 /\ (id_kind ident = 1 -> 0 <= id_pointer ident < UINT32_MAX).
Definition name_of (h : StringHeap) (ident : Z) : PropKey :=
  if id_kind ident =? 1 then PIndex (id_pointer ident)
  else if id_kind ident =? 2 then PString (text h (id_pointer ident))
  else PSymbol (id_pointer ident).

Lemma id_split ident : ident = id_pointer ident + id_kind ident * 2 ^ 48 /\ 0 <= id_pointer ident < 2 ^ 48.
Proof.
  unfold id_pointer, id_kind. pose proof (Z.div_mod ident (2 ^ 48)). pose proof (Z.mod_pos_bound ident (2 ^ 48)). lia.
Qed.
Lemma ident_range ident : ident_ok ident -> 0 <= ident < 2 ^ 50.
Proof. intros [Hk _]. pose proof (id_split ident). lia. Qed.
Lemma make_ident k p : 0 <= p < 2 ^ 48 -> id_kind (p + k * 2 ^ 48) = k /\ id_pointer (p + k * 2 ^ 48) = p.
Proof.
  intros Hp. unfold id_kind, id_pointer.
  rewrite Z.div_add, Z.mod_add, Z.div_small, Z.mod_small by lia. lia.
Qed.

Lemma kind_mask ident : 0 <= ident < 2 ^ 50 -> Z.land ident MAL_TABLE_KIND_MASK = id_kind ident * 2 ^ 48.
Proof.
  intros Hi. destruct (id_split ident) as [E Hp]. rewrite E at 1.
  change MAL_TABLE_KIND_MASK with (0 + (2 ^ 2 - 1) * 2 ^ 48). rewrite land_blocks, Z.land_0_r, land_mask by lia.
  rewrite Z.mod_small by lia. lia.
Qed.
Lemma id_pointer_mask ident : Z.land ident MAKS_PTR = id_pointer ident.
Proof. apply ptr_mask_spec. Qed.
Lemma kind_test_spec ident k :
  0 <= ident < 2 ^ 50 -> (Z.land ident MAL_TABLE_KIND_MASK =? Z.shiftl k MAL_TABLE_KIND_SHIFT) = (id_kind ident =? k).
Proof.
  intros Hi. rewrite kind_mask by done. unfold MAL_TABLE_KIND_SHIFT. rewrite Z.shiftl_mul_pow2 by lia.
  destruct (Z.eqb_spec (id_kind ident) k) as [->|]; [apply Z.eqb_refl|]. apply Z.eqb_neq. lia.
Qed.

(** The value word of an identity, and back. *)
Lemma key_value_spec ident :
  ident_ok ident ->
  mal_table_key_value ident =
    if id_kind ident =? 1 then mal_value_from_u32 (id_pointer ident)
    else if id_kind ident =? 2 then id_pointer ident + 0xFFFA * 2 ^ 48
    else id_pointer ident + 0xFFFB * 2 ^ 48.
Proof.
  intros Hok. pose proof (ident_range _ Hok) as Hr. destruct Hok as [Hk Hi]. unfold mal_table_key_value.
  unfold MAL_TABLE_INDEX, MAL_TABLE_STRING, MAL_TABLE_SYMBOL. rewrite !(kind_test_spec ident) by done. destruct (id_split ident) as [Es Hp].
  destruct (Z.eqb_spec (id_kind ident) 1) as [E1|].
  { f_equal. specialize (Hi E1). unfold u32, wrap, UINT32_MAX in *. rewrite Es at 1.
    replace (id_pointer ident + id_kind ident * 2 ^ 48) with (id_pointer ident + id_kind ident * 2 ^ 16 * 2 ^ 32) by lia.
    rewrite Z.mod_add, Z.mod_small by lia. done. }
  assert (forall c, 0 <= c < 2 ^ 16 -> Z.lor (c * 2 ^ 48) (Z.land ident MAKS_PTR) = id_pointer ident + c * 2 ^ 48) as Hb
    by (intros; by rewrite box_spec).
  destruct (Z.eqb_spec (id_kind ident) 2); [apply (Hb 0xFFFA); lia|].
  destruct (Z.eqb_spec (id_kind ident) 3); [apply (Hb 0xFFFB); lia|lia].
Qed.

(** * Encoding *)

(** The array index a Number word stands for. *)
Definition value_index (v : Z) : option Z :=
  if mal_value_is_int32 v then if mal_value_to_i32 v <? 0 then None else Some (mal_value_to_i32 v)
  else if mal_value_is_f64 v && (f64_leb 0 v && f64_ltb v (f64_of_int UINT32_MAX)
                                 && f64_eqb (f64_of_int (u32 (f64_to_int v))) v)
  then Some (u32 (f64_to_int v)) else None.

(** The property key a [MalKey] stands for; [None] where the code aborts. *)
Definition key_name (h : StringHeap) (key : MalKey) : option PropKey :=
  match key_kind key with
  | MAL_KEY_INDEX => PIndex <$> value_index (key_value key)
  | MAL_KEY_STRING =>
      if mal_value_is_string (key_value key) then Some (PString (text h (mal_value_to_heap (key_value key)))) else None
  | MAL_KEY_SYMBOL =>
      if mal_value_is_symbol (key_value key) then Some (PSymbol (mal_value_to_heap (key_value key))) else None
  | _ => None
  end.

Lemma value_index_range v n : value_index v = Some n -> 0 <= n < UINT32_MAX.
Proof.
  unfold value_index. destruct (mal_value_is_int32 v).
  { destruct (Z.ltb_spec (mal_value_to_i32 v) 0); [done|]. intros [= <-]. pose proof (to_i32_range v) as Hr.
    unfold in_i in Hr. unfold UINT32_MAX. lia. }
  destruct (mal_value_is_f64 v); [|done]. destruct (_ && _ && _) eqn:E; [|done]. intros [= <-].
  apply andb_true_iff in E as [[H0 Hlt]%andb_true_iff Heq]. set (n := u32 (f64_to_int v)) in *.
  assert (0 <= n < 2 ^ 32) as Hn by (apply (wrap_range 32); lia). unfold UINT32_MAX.
  destruct (decide (n = 2 ^ 32 - 1)) as [E|]; [|lia]. exfalso. rewrite E in Heq.
  unfold f64_eqb in Heq. unfold f64_ltb in Hlt. repeat (apply andb_true_iff in Heq as [Heq ?]; apply andb_true_iff in Hlt as [Hlt ?]).
  change UINT32_MAX with (2 ^ 32 - 1) in *. lia.
Qed.

Lemma or_index n : 0 <= n < 2 ^ 48 -> Z.lor MAL_TABLE_INDEX n = n + 1 * 2 ^ 48.
Proof. intros. unfold MAL_TABLE_INDEX, MAL_TABLE_KIND_SHIFT. by rewrite lor_shiftl_add' by lia. Qed.
Lemma or_pointer k v :
  Z.lor (Z.shiftl k MAL_TABLE_KIND_SHIFT) (Z.land v MAKS_PTR) = mal_value_to_heap v + k * 2 ^ 48 /\
  0 <= mal_value_to_heap v < 2 ^ 48.
Proof.
  unfold mal_value_to_heap. rewrite ptr_mask_spec. pose proof (Z.mod_pos_bound v (2 ^ 48)).
  unfold MAL_TABLE_KIND_SHIFT. rewrite lor_shiftl_add' by lia. lia.
Qed.

(** The identity the encoding returns. *)
Definition key_ident (key : MalKey) : option Z :=
  match key_kind key with
  | MAL_KEY_INDEX => (fun n => n + 1 * 2 ^ 48) <$> value_index (key_value key)
  | MAL_KEY_STRING =>
      if mal_value_is_string (key_value key) then Some (mal_value_to_heap (key_value key) + 2 * 2 ^ 48) else None
  | MAL_KEY_SYMBOL =>
      if mal_value_is_symbol (key_value key) then Some (mal_value_to_heap (key_value key) + 3 * 2 ^ 48) else None
  | _ => None
  end.

Lemma encode_key_spec key :
  mal_table_encode_key key = match key_ident key with Some ident => Ret ident | None => Abort end.
Proof.
  destruct key as [kind v]. unfold key_ident, mal_table_encode_key. cbn [key_kind key_value].
  destruct kind; try done.
  - unfold value_index, mal_value_to_f64. destruct (mal_value_is_int32 v).
    { pose proof (to_i32_range v) as Hr. unfold in_i in Hr. destruct (Z.ltb_spec (mal_value_to_i32 v) 0); [done|]. cbn.
      unfold u32. rewrite wrap_small by (unfold in_u; lia). by rewrite or_index by lia. }
    destruct (mal_value_is_f64 v); [|done]. cbn [negb andb]. rewrite <- negb_andb.
    destruct (_ && _ && _); [|done]. cbn. rewrite or_index; [done|].
    pose proof (wrap_range 32 (f64_to_int v)) as Hr. unfold in_u, u32 in *. lia.
  - unfold MAL_TABLE_STRING. destruct (mal_value_is_string v); [|done]. by rewrite (proj1 (or_pointer 2 v)).
  - unfold MAL_TABLE_SYMBOL. destruct (mal_value_is_symbol v); [|done]. by rewrite (proj1 (or_pointer 3 v)).
Qed.

Lemma key_ident_ok h key :
  match key_ident key with
  | Some ident => ident_ok ident /\ key_name h key = Some (name_of h ident)
  | None => key_name h key = None
  end.
Proof.
  destruct key as [kind v]. unfold key_name, key_ident. cbn [key_kind key_value].
  assert (forall k, 1 <= k <= 3 -> k <> 1 -> ident_ok (mal_value_to_heap v + k * 2 ^ 48) /\
    id_kind (mal_value_to_heap v + k * 2 ^ 48) = k /\ id_pointer (mal_value_to_heap v + k * 2 ^ 48) = mal_value_to_heap v) as Hp.
  { intros k Hk Hk1. destruct (make_ident k _ (proj2 (or_pointer 0 v))) as [Ek Ep]. unfold ident_ok. rewrite Ek. split; [|done]. split; [done|lia]. }
  destruct kind; try done.
  - destruct (value_index v) as [n|] eqn:En; cbn [fmap option_fmap option_map]; [|done].
    pose proof (value_index_range v n En) as Hr. destruct (make_ident 1 n) as [Ek Ep]; [unfold UINT32_MAX in Hr; lia|].
    unfold ident_ok, name_of. rewrite Ek, Ep. split; [|done]. split; [lia|done].
  - destruct (mal_value_is_string v); [|done]. destruct (Hp 2) as (Hi & Ek & Ep); [lia|lia|].
    unfold name_of. by rewrite Ek, Ep.
  - destruct (mal_value_is_symbol v); [|done]. destruct (Hp 3) as (Hi & Ek & Ep); [lia|lia|].
    unfold name_of. by rewrite Ek, Ep.
Qed.

(** The encoding returns an identity of the key it is given, or aborts. *)
Lemma encode_key_ok h key :
  match key_name h key with
  | Some n => exists ident, mal_table_encode_key key = Ret ident /\ ident_ok ident /\ name_of h ident = n
  | None => mal_table_encode_key key = Abort
  end.
Proof.
  rewrite encode_key_spec. pose proof (key_ident_ok h key) as Hk.
  destruct (key_ident key) as [ident|]; [|by rewrite Hk]. destruct Hk as [Hi ->]. eauto.
Qed.

(** A stored index reads back. *)
Lemma stored_index n : 0 <= n < UINT32_MAX -> value_index (mal_value_from_u32 n) = Some n.
Proof.
  intros Hn. destruct (from_u32_index n Hn) as [Hk Hv]. unfold mal_key_index_value in Hv. cbn in Hv.
  unfold UINT32_MAX in Hn. unfold mal_value_from_u32, INT32_MAX in *.
  destruct (Z.leb_spec n (2 ^ 31 - 1)) as [Hle|Hgt].
  - assert (Z.lor MAL_VALUE_INT32 n = mal_value_from_i32 n) as ->.
    { unfold mal_value_from_i32, u32. by rewrite wrap_small by (unfold in_u; lia). }
    assert (in_i 32 n) as Hi by (unfold in_i; lia). unfold value_index.
    rewrite (proj2 (kind_int32 _ (from_i32_range n Hi)) (from_i32_kind n Hi)), to_i32_from_i32 by done.
    by destruct (Z.ltb_spec n 0); [lia|].
  - assert (Z.abs n < 2 ^ 53) as Ha by lia. pose proof (f64_of_int_range n Ha) as Hr.
    assert (mal_value_is_int32 (f64_of_int n) = false) as Hi.
    { apply not_true_iff_false. rewrite kind_int32, of_int_kind by done. done. }
    unfold value_index, mal_key_kind_of, mal_value_to_f64 in *. rewrite Hi in *. injection Hv as Hv. rewrite Hv in *.
    destruct (mal_value_is_string _); [done|]. destruct (mal_value_is_symbol _); [done|].
    destruct (mal_value_is_object _); [done|]. destruct (_ && _); [done|]. by destruct (_ || _).
Qed.

Lemma pointer_value c p :
  0 <= p < 2 ^ 48 -> 0 <= c < 2 ^ 16 -> in_u 64 (p + c * 2 ^ 48) /\ class_of (p + c * 2 ^ 48) = c /\ mal_value_to_heap (p + c * 2 ^ 48) = p.
Proof.
  intros Hp Hc. pose proof (box_range c p Hc) as H1. pose proof (box_class c p) as H2. pose proof (box_payload c p) as H3.
  rewrite !(Z.mod_small p) in * by lia. unfold mal_value_to_heap. rewrite ptr_mask_spec. done.
Qed.

(** * Stored identities decode *)

(** A stored identity survives decoding and encoding, through the key's kind or
    through the kind of its value word. *)
Lemma decode_encode ident :
  ident_ok ident ->
  mal_table_encode_key (mal_table_decode_key ident) = Ret ident /\
  mal_table_encode_key (mal_key_from_value (mal_table_key_value ident)) = Ret ident.
Proof.
  intros Hok. pose proof (ident_range _ Hok) as Hr. pose proof (key_value_spec _ Hok) as Ev. destruct (id_split ident) as [Es Hp].
  assert (key_kind (mal_table_decode_key ident) = if id_kind ident =? 1 then MAL_KEY_INDEX
    else if id_kind ident =? 2 then MAL_KEY_STRING else MAL_KEY_SYMBOL) as Ek.
  { unfold mal_table_decode_key. cbn [key_kind]. unfold MAL_TABLE_INDEX, MAL_TABLE_STRING.
    by rewrite !(kind_test_spec ident). }
  assert (mal_table_decode_key ident = mal_key_from_value (mal_table_key_value ident)) as E.
  { destruct (mal_table_decode_key ident) as [k v] eqn:Ed. cbn [key_kind] in Ek. injection Ed as _ <-. subst k.
    unfold mal_key_from_value. f_equal. rewrite Ev. destruct Hok as [Hk Hi].
    destruct (Z.eqb_spec (id_kind ident) 1); [symmetry; apply from_u32_index; auto|].
    destruct (Z.eqb_spec (id_kind ident) 2).
    - destruct (pointer_value 0xFFFA (id_pointer ident)) as (Hv & Hc & _); [lia|lia|].
      unfold mal_key_kind_of. by rewrite (kind_test_class _ KString Hv : mal_value_is_string _ = _), Hc.
    - destruct (pointer_value 0xFFFB (id_pointer ident)) as (Hv & Hc & _); [lia|lia|].
      unfold mal_key_kind_of. by rewrite (kind_test_class _ KString Hv : mal_value_is_string _ = _),
        (kind_test_class _ KSymbol Hv : mal_value_is_symbol _ = _), Hc. }
  rewrite <- E, !encode_key_spec. unfold key_ident. rewrite Ek. unfold mal_table_decode_key. cbn [key_value]. rewrite Ev.
  destruct Hok as [Hk Hi]. destruct (Z.eqb_spec (id_kind ident) 1) as [E1|].
  { rewrite stored_index by auto. cbn. split; f_equal; lia. }
  destruct (Z.eqb_spec (id_kind ident) 2).
  - destruct (pointer_value 0xFFFA (id_pointer ident)) as (Hv & Hc & Ep); [lia|lia|].
    rewrite (kind_test_class _ KString Hv : mal_value_is_string _ = _), Hc, Ep. cbn. split; f_equal; lia.
  - destruct (pointer_value 0xFFFB (id_pointer ident)) as (Hv & Hc & Ep); [lia|lia|].
    rewrite (kind_test_class _ KSymbol Hv : mal_value_is_symbol _ = _), Hc, Ep. cbn. split; f_equal; lia.
Qed.

(** * Hashing *)

Definition is_hashed (h : StringHeap) (p : Z) : Prop := str_hash_valid (str_info (h p)) = true.
(** The heap after some strings were hashed: more caches are filled. *)
Definition hash_grows (h h' : StringHeap) : Prop :=
  same_strings h h' /\ forall p, is_hashed h p -> is_hashed h' p.

Lemma hash_grows_refl h : string_heap_ok h -> hash_grows h h.
Proof. split; [by apply same_strings_refl|done]. Qed.
Lemma hash_grows_trans h1 h2 h3 : hash_grows h1 h2 -> hash_grows h2 h3 -> hash_grows h1 h3.
Proof. intros [S1 H1] [S2 H2]. split; [by eapply same_strings_trans|auto]. Qed.
Lemma hash_grows_ok h h' : hash_grows h h' -> string_heap_ok h'.
Proof. intros [(H & _) _]. exact H. Qed.
Lemma hash_grows_name h h' ident : hash_grows h h' -> name_of h' ident = name_of h ident.
Proof. intros [(_ & Ht & _) _]. unfold name_of. by rewrite Ht. Qed.
Lemma hash_grows_key h h' key : hash_grows h h' -> key_name h' key = key_name h key.
Proof. intros [(_ & Ht & _) _]. unfold key_name. by rewrite Ht. Qed.

Lemma heap_hash_grows h p :
  string_heap_ok h ->
  exists h', heap_hash h p = (mal_string_hash_code_units (text h p), h') /\ hash_grows h h' /\ is_hashed h' p.
Proof.
  intros Hh. destruct (heap_hash_ok h p Hh) as (h' & E & Hs). exists h'. split; [done|].
  unfold heap_hash in E. destruct (mal_string_hash (h p)) as [hash s] eqn:Es. injection E as _ <-.
  assert (str_hash_valid (str_info s) = true) as Hv.
  { unfold mal_string_hash in Es. destruct (str_hash_valid (str_info (h p))) eqn:Ev; [by injection Es as _ <-|].
    unfold mal_string_hash_slow in Es. rewrite Ev in Es. injection Es as _ <-. by rewrite set_info_info. }
  split; [split; [done|]|]; unfold is_hashed; [intros q Hq|]; rewrite write_header by done.
  - by destruct (q =? p).
  - by rewrite Z.eqb_refl.
Qed.

Lemma hashed_value h p : string_heap_ok h -> is_hashed h p -> str_hash (str_info (h p)) = mal_string_hash_code_units (text h p).
Proof. intros Hh Hv. destruct (wf_info _ (sh_wf _ Hh p)) as (_ & Hi & _). by apply Hi. Qed.

Definition name_hash (n : PropKey) : Z :=
  mal_key_hash_mix
    match n with
    | PIndex n => mal_value_from_u32 n
    | PString t => mal_string_hash_code_units t
    | PSymbol p => p + 0xFFFB * 2 ^ 48
    end.
Lemma name_hash_range n : in_u 64 (name_hash n).
Proof. apply hash_mix_range. Qed.

(** What a stored identity keeps of the heap: its string is hashed. *)
Definition ident_hashed (h : StringHeap) (ident : Z) : Prop := id_kind ident = 2 -> is_hashed h (id_pointer ident).

Lemma key_hash_ident h ident :
  string_heap_ok h -> ident_ok ident ->
  exists h', mal_table_key_hash h ident = (name_hash (name_of h ident), h') /\ hash_grows h h' /\ ident_hashed h' ident.
Proof.
  intros Hh Hok. pose proof (ident_range _ Hok). unfold mal_table_key_hash, MAL_TABLE_STRING.
  rewrite kind_test_spec, id_pointer_mask, key_value_spec by done. unfold name_of, name_hash, ident_hashed.
  destruct (Z.eqb_spec (id_kind ident) 2) as [E2|E2].
  - destruct (heap_hash_grows h (id_pointer ident) Hh) as (h' & -> & Hg & Hv). exists h'.
    rewrite E2. done.
  - exists h. split; [|split; [by apply hash_grows_refl|done]]. by destruct (id_kind ident =? 1).
Qed.

(** The hash of a row word is that of its identity. *)
Lemma key_hash_word h ident flags owns fp :
  word_ok ident flags fp -> ident_ok ident ->
  mal_table_key_hash h (word ident flags owns fp) = mal_table_key_hash h ident.
Proof.
  intros Hw Hok. unfold mal_table_key_hash, mal_table_key_value. rewrite word_kind, word_pointer, word_u32 by done. done.
Qed.
Lemma key_value_word ident flags owns fp :
  word_ok ident flags fp -> mal_table_key_value (word ident flags owns fp) = mal_table_key_value ident.
Proof.
  intros Hw. unfold mal_table_key_value. rewrite word_kind, word_pointer, word_u32 by done. done.
Qed.
Lemma decode_word ident flags owns fp :
  word_ok ident flags fp -> mal_table_decode_key (word ident flags owns fp) = mal_table_decode_key ident.
Proof. intros Hw. unfold mal_table_decode_key. by rewrite word_kind, key_value_word by done. Qed.

(** * Comparing a row with a key *)

(** The answer of [mal_table_key_equals], which it always gives. *)
Definition row_equals (h : StringHeap) (e : MalTableEntry) (key : Z) (hashed : bool) : bool :=
  match mal_table_key_equals h e key hashed with Ret b => b | _ => false end.
Lemma key_equals_returns h e key hashed :
  string_heap_ok h -> mal_table_key_equals h e key hashed = Ret (row_equals h e key hashed).
Proof.
  intros Hh. unfold row_equals, mal_table_key_equals. destruct (_ =? key); [done|]. destruct (_ || _); [done|].
  destruct (_ && _); [done|]. by rewrite string_equals_ok.
Qed.

Lemma name_of_inj h a b :
  ident_ok a -> ident_ok b -> id_kind a <> 2 \/ id_kind b <> 2 -> name_of h a = name_of h b -> a = b.
Proof.
  intros [Ha _] [Hb _] Hne. unfold name_of. destruct (id_split a) as [Ea _], (id_split b) as [Eb _].
  destruct (Z.eqb_spec (id_kind a) 1), (Z.eqb_spec (id_kind a) 2), (Z.eqb_spec (id_kind b) 1), (Z.eqb_spec (id_kind b) 2);
    try done; try lia; intros [= E]; lia.
Qed.

Lemma row_equals_ok h ident flags owns fp payload key hashed :
  string_heap_ok h -> word_ok ident flags fp -> ident_ok ident -> ident_ok key ->
  (hashed = true -> ident_hashed h ident /\ ident_hashed h key) ->
  row_equals h (mkEntry (word ident flags owns fp) payload) key hashed = bool_decide (name_of h ident = name_of h key).
Proof.
  intros Hh Hw Hi Hk Hha. pose proof (ident_range _ Hi). pose proof (ident_range _ Hk).
  unfold row_equals, mal_table_key_equals. cbn [te_key]. rewrite word_identity by done.
  destruct (Z.eqb_spec ident key) as [->|Hne]; [by rewrite bool_decide_true|].
  unfold MAL_TABLE_STRING. rewrite !kind_test_spec by done.
  destruct (Z.eqb_spec (id_kind ident) 2) as [Ki|], (Z.eqb_spec (id_kind key) 2) as [Kk|]; cbn [negb orb].
  2-4: rewrite bool_decide_false; [done|]; intros E; apply Hne; eapply name_of_inj; eauto.
  rewrite !key_value_spec, Ki, Kk by done. change (2 =? 1) with false. change (2 =? 2) with true. cbn [orb].
  assert (forall i, mal_value_to_heap (id_pointer i + 0xFFFA * 2 ^ 48) = id_pointer i) as Hp.
  { intros i. destruct (id_split i) as [_ Hp]. by apply (pointer_value 0xFFFA). }
  rewrite !Hp.
  assert (name_of h ident = name_of h key <-> text h (id_pointer ident) = text h (id_pointer key)) as Hn.
  { unfold name_of. rewrite Ki, Kk. cbn. split; [by intros [=]|by intros ->]. }
  destruct hashed; cbn [andb].
  - destruct Hha as [H1 H2]; [done|]. rewrite !hashed_value by auto.
    destruct (Z.eqb_spec (mal_string_hash_code_units (text h (id_pointer ident))) (mal_string_hash_code_units (text h (id_pointer key)))) as [E|E];
      cbn [negb].
    + rewrite string_equals_ok by done. apply bool_decide_ext. symmetry. exact Hn.
    + rewrite bool_decide_false; [done|]. rewrite Hn. intros Et. by rewrite Et in E.
  - rewrite string_equals_ok by done. apply bool_decide_ext. symmetry. exact Hn.
Qed.
