(* ===== verification/TableSpec.v ===== *)
(** The invariant of the property table (Table) and its lookups: the rows hold
    well-formed words, live rows have distinct names, and the index, where there is
    one, finds exactly the live rows. *)

From stdpp Require Import gmap.
From S2P Require Import Prelude F64 Value HeapString HeapStringSpec Key HashIndex MapObject StringHeap Table TableKeys.

(** * Rows *)

Definition ident (e : MalTableEntry) : Z := Z.land (te_key e) MAL_TABLE_IDENTITY_MASK.
Definition row_name (h : StringHeap) (e : MalTableEntry) : PropKey := name_of h (ident e).

Definition row_ok (h : StringHeap) (e : MalTableEntry) : Prop :=
  exists i flags owns fp, word_ok i flags fp /\ te_key e = word i flags owns fp /\
    (mal_table_row_live e = true ->
     ident_ok i /\ ident_hashed h i /\ fp = fp_of (name_hash (name_of h i))).

Lemma live_word i flags owns fp payload :
  word_ok i flags fp -> mal_table_row_live (mkEntry (word i flags owns fp) payload) = negb (id_kind i =? 0).
Proof.
  intros Hw. unfold mal_table_row_live. cbn [te_key]. rewrite word_kind by done.
  pose proof (kind_test_spec i 0 (proj1 Hw)) as E. change (Z.shiftl 0 MAL_TABLE_KIND_SHIFT) with 0 in E. by rewrite E.
Qed.
Lemma live_ident i flags owns fp payload :
  word_ok i flags fp -> ident_ok i -> mal_table_row_live (mkEntry (word i flags owns fp) payload) = true.
Proof. intros Hw [Hk _]. rewrite live_word by done. by destruct (Z.eqb_spec (id_kind i) 0); [lia|]. Qed.
Lemma ident_word i flags owns fp payload : word_ok i flags fp -> ident (mkEntry (word i flags owns fp) payload) = i.
Proof. apply word_identity. Qed.

Lemma row_ok_entry h i flags owns fp payload :
  word_ok i flags fp -> (id_kind i <> 0 -> ident_ok i /\ ident_hashed h i /\ fp = fp_of (name_hash (name_of h i))) ->
  row_ok h (mkEntry (word i flags owns fp) payload).
Proof.
  intros Hw Hl. exists i, flags, owns, fp. split; [done|]. split; [done|]. intros Hv. apply Hl.
  rewrite live_word in Hv by done. destruct (Z.eqb_spec (id_kind i) 0); done.
Qed.

(** A live row in its fields. *)
Lemma row_ok_live h e :
  row_ok h e -> mal_table_row_live e = true ->
  exists flags owns, word_ok (ident e) flags (fp_of (name_hash (row_name h e))) /\
    e = mkEntry (word (ident e) flags owns (fp_of (name_hash (row_name h e)))) (te_payload e) /\
    ident_ok (ident e) /\ ident_hashed h (ident e).
Proof.
  intros (i & flags & owns & fp & Hw & Ek & Hl) Hv. destruct (Hl Hv) as (Hi & Hh & ->). exists flags, owns.
  destruct e as [k p]. cbn [te_key te_payload] in *. subst k. unfold row_name. by rewrite !ident_word by done.
Qed.

(** A live row and what is left of it when it dies. *)
Lemma kill_row_spec h e :
  row_ok h e -> row_ok h (kill_row e) /\ mal_table_row_live (kill_row e) = false /\
  te_payload (kill_row e) = te_payload e /\ mal_table_row_owned (kill_row e) = mal_table_row_owned e.
Proof.
  intros (i & flags & owns & fp & Hw & Ek & _). destruct e as [k p]. cbn [te_key] in Ek. subst k.
  rewrite word_kill by done. rewrite (land_mask 48) by lia. pose proof (Z.mod_pos_bound i (2 ^ 48)).
  assert (word_ok (i mod 2 ^ 48) flags fp) as Hw' by (destruct Hw as (? & ? & ?); repeat split; lia).
  assert (id_kind (i mod 2 ^ 48) = 0) as Hk by (apply Z.div_small; lia).
  split; [by apply row_ok_entry|]. split; [by rewrite live_word, Hk by done|]. split; [done|]. by rewrite !word_owned.
Qed.

Lemma row_ok_grows h h' e : hash_grows h h' -> row_ok h e -> row_ok h' e.
Proof.
  intros Hg (i & flags & owns & fp & Hw & Ek & Hl). exists i, flags, owns, fp. split; [done|]. split; [done|].
  intros Hv. destruct (Hl Hv) as (Hi & Hh & Hf). split; [done|]. split; [intros E; by apply Hg, Hh|].
  by rewrite (hash_grows_name h h') by done.
Qed.
Lemma row_name_grows h h' e : hash_grows h h' -> row_name h' e = row_name h e.
Proof. apply hash_grows_name. Qed.

(** * Positions *)

Definition holds_name (h : StringHeap) (n : PropKey) (e : MalTableEntry) : Prop :=
  mal_table_row_live e = true /\ row_name h e = n.
#[export] Instance holds_name_dec h n e : Decision (holds_name h n e).
Proof. unfold holds_name. apply _. Defined.

(** The row of a name. *)
Definition position (h : StringHeap) (rows : list MalTableEntry) (n : PropKey) : option nat :=
  fst <$> list_find (holds_name h n) rows.

Definition names_distinct (h : StringHeap) (rows : list MalTableEntry) : Prop :=
  forall i j e e', rows !! i = Some e -> rows !! j = Some e' ->
    mal_table_row_live e = true -> mal_table_row_live e' = true -> row_name h e = row_name h e' -> i = j.

Lemma position_some h rows n i :
  position h rows n = Some i -> exists e, rows !! i = Some e /\ holds_name h n e.
Proof.
  unfold position. destruct (list_find _ rows) as [[j e]|] eqn:E; [|done]. intros [= <-].
  apply list_find_Some in E as (H1 & H2 & _). eauto.
Qed.
Lemma position_none h rows n i e : position h rows n = None -> rows !! i = Some e -> ~ holds_name h n e.
Proof.
  unfold position. destruct (list_find _ rows) as [[j e0]|] eqn:E; [done|]. intros _ Hi.
  apply list_find_None in E. rewrite Forall_forall in E. apply E. by eapply list_elem_of_lookup_2.
Qed.
Lemma position_unique h rows n i e :
  names_distinct h rows -> rows !! i = Some e -> holds_name h n e -> position h rows n = Some i.
Proof.
  intros Hd Hi [Hl Hn]. destruct (position h rows n) as [j|] eqn:E.
  - destruct (position_some _ _ _ _ E) as (e' & Hj & Hl' & Hn'). f_equal. eapply Hd; eauto. by rewrite Hn, Hn'.
  - destruct (position_none _ _ _ _ _ E Hi). by split.
Qed.
Lemma position_absent h rows n :
  (forall i e, rows !! i = Some e -> ~ holds_name h n e) -> position h rows n = None.
Proof.
  intros Hno. destruct (position h rows n) as [j|] eqn:E; [|done].
  destruct (position_some _ _ _ _ E) as (e & Hj & Hh). by destruct (Hno j e).
Qed.
Lemma position_grows h h' rows n : hash_grows h h' -> position h' rows n = position h rows n.
Proof.
  intros Hg. unfold position. f_equal. induction rows as [|e rows IH]; [done|]. cbn [list_find].
  assert (holds_name h' n e <-> holds_name h n e) as Hi by (unfold holds_name; by rewrite (row_name_grows h h')).
  destruct (decide (holds_name h' n e)), (decide (holds_name h n e)); [done|tauto|tauto|]. by rewrite IH.
Qed.

(** * The invariant *)

(** The hash of the live row [i], for the index. *)
Definition row_hash (h : StringHeap) (e : MalTableEntry) : option Z :=
  if mal_table_row_live e then Some (name_hash (row_name h e)) else None.
Definition hash_at (h : StringHeap) (rows : list MalTableEntry) (i : Z) : option Z :=
  if 0 <=? i then rows !! Z.to_nat i ≫= row_hash h else None.

Definition live_rows (rows : list MalTableEntry) : list MalTableEntry :=
  filter (fun e => mal_table_row_live e = true) rows.

Definition index_part (h : StringHeap) (t : MalTable) : Prop :=
  if tb_slot_capacity t =? 0 then
    entry_count t <= 4 /\ tb_slots t = [] /\ tb_controls t = [] /\ tb_deleted_slots t = 0
  else
    index_ok (tb_slot_capacity t) (tb_slots t) (tb_controls t) (hash_at h (used_rows t)) (tb_size t) (tb_deleted_slots t) /\
    mal_hash_index_fits (tb_size t + tb_deleted_slots t) (tb_slot_capacity t) = true.

Record table_ok (h : StringHeap) (t : MalTable) : Prop := {
  ok_heap : string_heap_ok h;
  ok_entries : arr_len (tb_entries t) = entry_capacity t;
  ok_count : 0 <= entry_count t <= entry_capacity t;
  ok_capacity : entry_capacity t = 0 \/ 4 <= entry_capacity t < 2 ^ 31;
  ok_rows : Forall (row_ok h) (used_rows t);
  ok_names : names_distinct h (used_rows t);
  ok_size : tb_size t = arr_len (live_rows (used_rows t));
  ok_tombs : tombstone_count t = entry_count t - tb_size t;
  ok_index : index_part h t;
  ok_pins : in_u 32 (iterator_pins t);
  ok_epoch : 1 <= handle_epoch t < 2 ^ 64;
}.

Lemma hash_at_some h rows i x :
  hash_at h rows i = Some x -> 0 <= i /\ exists e, rows !! Z.to_nat i = Some e /\ mal_table_row_live e = true /\ x = name_hash (row_name h e).
Proof.
  unfold hash_at, row_hash. destruct (Z.leb_spec 0 i); [|done]. destruct (rows !! Z.to_nat i) as [e|]; [|done]. cbn.
  destruct (mal_table_row_live e) eqn:El; [|done]. intros [= <-]. eauto 6.
Qed.
Lemma hash_at_live h rows i e :
  0 <= i -> rows !! Z.to_nat i = Some e -> mal_table_row_live e = true -> hash_at h rows i = Some (name_hash (row_name h e)).
Proof.
  intros Hi He Hl. unfold hash_at, row_hash. destruct (Z.leb_spec 0 i); [|lia]. rewrite He. cbn. by rewrite Hl.
Qed.
Lemma hash_at_range h rows i x : hash_at h rows i = Some x -> in_u 64 x.
Proof. intros (_ & e & _ & _ & ->)%hash_at_some. apply name_hash_range. Qed.
Lemma hash_at_grows h h' rows i : hash_grows h h' -> hash_at h' rows i = hash_at h rows i.
Proof.
  intros Hg. unfold hash_at. destruct (0 <=? i); [|done]. destruct (rows !! Z.to_nat i) as [e|]; [|done]. cbn.
  unfold row_hash. by rewrite (row_name_grows h h').
Qed.

Lemma table_ok_grows h h' t : hash_grows h h' -> table_ok h t -> table_ok h' t.
Proof.
  intros Hg [H1 H2 H3 H4 H5 H6 H7 H8 H9 H10 H11]. split; try done.
  - by eapply hash_grows_ok.
  - eapply Forall_impl; [exact H5|]. intros e. by apply row_ok_grows.
  - intros i j e e'. rewrite !(row_name_grows h h') by done. apply H6.
  - unfold index_part in *. destruct (tb_slot_capacity t =? 0); [done|]. destruct H9 as [Hi Hf]. split; [|done].
    eapply index_ok_ext; [|exact Hi]. intros i. by rewrite (hash_at_grows h h').
Qed.

(** ** Rows of a table *)

Section rows.
Context (h : StringHeap) (t : MalTable).
Hypothesis Hok : table_ok h t.

Lemma used_len : arr_len (used_rows t) = entry_count t.
Proof using Hok.
  destruct Hok as [_ He Hc _ _ _ _ _ _ _ _]. unfold used_rows, arr_len in *. rewrite length_take. lia.
Qed.
Lemma used_lookup i : 0 <= i < entry_count t -> used_rows t !! Z.to_nat i = Some (entry_at t i).
Proof using Hok.
  intros Hi. destruct Hok as [_ He Hc _ _ _ _ _ _ _ _]. unfold used_rows. rewrite lookup_take_lt by lia.
  apply arr_get_lookup. lia.
Qed.
Lemma used_inv k e : used_rows t !! k = Some e -> Z.of_nat k < entry_count t /\ e = entry_at t (Z.of_nat k).
Proof using Hok.
  intros Hk. pose proof (lookup_lt_Some _ _ _ Hk) as Hl. pose proof used_len as Hu. unfold arr_len in Hu.
  assert (Z.of_nat k < entry_count t) by lia. split; [done|].
  pose proof (used_lookup (Z.of_nat k) ltac:(lia)) as E. rewrite Nat2Z.id in E. congruence.
Qed.
Lemma entry_ok i : 0 <= i < entry_count t -> row_ok h (entry_at t i).
Proof using Hok.
  intros Hi. eapply Forall_lookup_1; [apply (ok_rows _ _ Hok)|by apply used_lookup].
Qed.
Lemma size_range : 0 <= tb_size t <= entry_count t.
Proof using Hok.
  rewrite (ok_size _ _ Hok), <- used_len. unfold arr_len, live_rows.
  pose proof (length_filter (fun e => mal_table_row_live e = true) (used_rows t)). lia.
Qed.
End rows.

(** * Lookups *)

Section find.
Variable MASK_SHIFT : Z.
Hypothesis Hshift : 0 <= MASK_SHIFT.
Context (h : StringHeap) (t : MalTable) (key : Z).
Hypothesis Hok : table_ok h t.
Hypothesis Hkey : ident_ok key.
Let n := name_of h key.
Let rows := used_rows t.

Lemma row_equals_live e hashed :
  row_ok h e -> mal_table_row_live e = true -> (hashed = true -> ident_hashed h key) ->
  row_equals h e key hashed = bool_decide (row_name h e = n).
Proof using Hok Hkey.
  intros He Hl Hha. destruct (row_ok_live h e He Hl) as (flags & owns & Hw & Ee & Hi & Hh). rewrite Ee.
  rewrite row_equals_ok; [|apply (ok_heap _ _ Hok)|done|done|done|by intros; split; auto].
  unfold row_name. by rewrite !ident_word.
Qed.

Lemma scan_rows_ok fuel : forall i,
  0 <= i -> i + Z.of_nat fuel = entry_count t ->
  (forall j e, rows !! j = Some e -> Z.of_nat j < i -> ~ holds_name h n e) ->
  scan_rows fuel h t key i = Ret (Z.of_nat <$> position h rows n).
Proof using Hok Hkey.
  induction fuel as [|fuel IH]; intros i Hi Hf Hno; cbn [scan_rows].
  - rewrite position_absent; [done|]. intros j e Hj. apply (Hno j e Hj).
    pose proof (used_inv h t Hok j e Hj). lia.
  - destruct (Z.ltb_spec i (entry_count t)); [|lia].
    assert (rows !! Z.to_nat i = Some (entry_at t i)) as Hr by (apply (used_lookup h t Hok); lia).
    pose proof (entry_ok h t Hok i ltac:(lia)) as Hro.
    assert (forall b : bool, (b = true <-> holds_name h n (entry_at t i)) ->
      (if b then Ret (Some i) else scan_rows fuel h t key (i + 1)) = Ret (Z.of_nat <$> position h rows n)) as Hb.
    { intros b Hb. destruct b.
      - rewrite (position_unique h rows n (Z.to_nat i) (entry_at t i)); [cbn; do 2 f_equal; lia|apply (ok_names _ _ Hok)|done|tauto].
      - apply IH; [lia|lia|]. intros j e Hj Hlt. destruct (decide (Z.of_nat j = i)) as [E|].
        + intros Hh. assert (e = entry_at t i) as -> by (rewrite <- E, Nat2Z.id in Hr; congruence).
          apply Hb in Hh. done.
        + apply (Hno j e Hj). lia. }
    destruct (mal_table_row_live (entry_at t i)) eqn:El.
    + rewrite key_equals_returns by apply (ok_heap _ _ Hok). cbn [mbind outcome_bind].
      rewrite row_equals_live by done. apply Hb. rewrite bool_decide_eq_true. unfold holds_name. tauto.
    + cbn [mbind outcome_bind]. apply (Hb false). unfold holds_name. rewrite El. split; [done|by intros []].
Qed.
Lemma table_scan_ok : scan h t key = Ret (Z.of_nat <$> position h rows n).
Proof using Hok Hkey.
  unfold scan. pose proof (ok_count _ _ Hok). apply scan_rows_ok; [lia|lia|]. intros j e _ Hj. lia.
Qed.

Section indexed.
Hypothesis Hcap : tb_slot_capacity t <> 0.
Hypothesis Hhashed : ident_hashed h key.
Let hash := name_hash n.
Let same i := fingerprint_matches (entry_at t i) hash && row_equals h (entry_at t i) key true.
Let hit s := same (arr_get (tb_slots t) s).

Lemma index_of_table :
  index_ok (tb_slot_capacity t) (tb_slots t) (tb_controls t) (hash_at h rows) (tb_size t) (tb_deleted_slots t) /\
  tb_size t + tb_deleted_slots t < tb_slot_capacity t.
Proof using Hok Hcap.
  pose proof (ok_index _ _ Hok) as Hi. unfold index_part in Hi.
  destruct (Z.eqb_spec (tb_slot_capacity t) 0); [done|]. destruct Hi as [Hi Hf]. split; [done|].
  eapply fits_lt; [by eapply io_capacity|done].
Qed.

(** A row found by an entry of the index. *)
Lemma same_entry i x : hash_at h rows i = Some x -> same i = bool_decide (row_name h (entry_at t i) = n).
Proof using Hok Hkey Hhashed.
  intros (Hi & e & He & Hl & ->)%hash_at_some. destruct (used_inv h t Hok _ _ He) as [Hlt Ee].
  rewrite Z2Nat.id in Hlt, Ee by done. subst e. unfold same.
  pose proof (entry_ok h t Hok i ltac:(lia)) as Hro. rewrite row_equals_live by (done || auto).
  case_bool_decide as En; [|apply andb_false_r]. rewrite andb_true_r.
  destruct (row_ok_live h _ Hro Hl) as (flags & owns & Hw & Ee & _). rewrite Ee, fingerprint_word by done.
  apply Z.eqb_eq. by rewrite En.
Qed.

Lemma candidates_ok fuel group : forall matches,
  table_candidates MASK_SHIFT fuel h t key hash group matches = Ret (probe_candidates MASK_SHIFT fuel hit group matches).
Proof using Hok.
  induction fuel as [|fuel IH]; intros matches; cbn [table_candidates probe_candidates]; [done|].
  destruct (matches =? 0); [done|]. cbv zeta. unfold hit at 1, same at 1.
  set (e := entry_at t (arr_get (tb_slots t) (group + mal_hash_mask_first MASK_SHIFT matches))).
  destruct (fingerprint_matches e hash); cbn [andb].
  - rewrite key_equals_returns by apply (ok_heap _ _ Hok). cbn [mbind outcome_bind].
    destruct (row_equals h e key true); [done|]. apply IH.
  - cbn [mbind outcome_bind]. apply IH.
Qed.

Lemma find_loop_ok fuel : forall probe available,
  find_loop MASK_SHIFT fuel h t key hash probe available
  = probe_loop MASK_SHIFT fuel (tb_controls t) hit (mal_hash_tag hash) true probe available.
Proof using Hok.
  induction fuel as [|fuel IH]; intros probe available; cbn [find_loop probe_loop]; [done|].
  unfold group_candidates. rewrite candidates_ok. cbn [mbind outcome_bind].
  destruct (probe_candidates _ _ _ _ _); [done|]. cbn [andb negb].
  destruct (negb (_ =? 0)); [done|]. destruct (mal_hash_probe_next probe); [|done|done]. apply IH.
Qed.

Lemma lookup_loop_ok fuel : forall k,
  0 <= k < tb_slot_capacity t / 16 ->
  lookup_loop MASK_SHIFT fuel h t key hash (probe_at (tb_slot_capacity t) hash k)
  = (r ← probe_loop MASK_SHIFT fuel (tb_controls t) hit (mal_hash_tag hash) false (probe_at (tb_slot_capacity t) hash k) UINT32_MAX;
     Ret (if r =? UINT32_MAX then MAL_TABLE_EMPTY else arr_get (tb_slots t) r)).
Proof using Hok Hcap Hshift.
  pose proof (io_capacity _ _ _ _ _ _ (proj1 index_of_table)) as Hc. pose proof (capacity_bound _ Hc).
  induction fuel as [|fuel IH]; intros k Hk; cbn [lookup_loop probe_loop]; [done|].
  unfold group_candidates. rewrite candidates_ok. cbn [mbind outcome_bind].
  pose proof (group_candidates_spec MASK_SHIFT Hshift (tb_controls t) hit
    (probe_group (probe_at (tb_slot_capacity t) hash k)) (mal_hash_tag hash)) as Hg.
  destruct (probe_candidates _ _ _ _ _) as [slot|].
  - destruct Hg as (j & -> & Hj & _). cbn [probe_at probe_group mbind outcome_bind].
    pose proof (group_at_range _ Hc hash k).
    destruct (Z.eqb_spec (group_at (tb_slot_capacity t) hash k + j) UINT32_MAX) as [E|]; [unfold UINT32_MAX in E; lia|done].
  - cbn [andb]. destruct (negb (_ =? 0)); [done|]. cbn [negb].
    rewrite mal_hash_probe_step by done. destruct (Z.ltb_spec (k + 1) (tb_slot_capacity t / 16)); [|done].
    cbn [mbind outcome_bind]. apply IH. lia.
Qed.

(** What a probe finds: the bucket of the row of that name, or a bucket to put it. *)
Lemma probe_position insert :
  exists r, grouped_probe MASK_SHIFT (tb_controls t) (tb_slot_capacity t) hit hash insert = Ret r /\
    match position h rows n with
    | Some i => 0 <= r < tb_slot_capacity t /\ live_control (arr_get (tb_controls t) r) = true /\ arr_get (tb_slots t) r = Z.of_nat i
    | None => if insert then reusable (tb_slot_capacity t) (tb_controls t) hash r else r = UINT32_MAX
    end.
Proof using Hok Hkey Hshift Hcap Hhashed.
  destruct index_of_table as [Hi Hroom].
  destruct (index_probe_spec MASK_SHIFT Hshift _ _ _ _ _ _ Hi Hroom hash (name_hash_range n) same) with (insert := insert)
    as (r & Er & Hr).
  { intros i x Hx Hs. rewrite (same_entry i x Hx) in Hs. apply bool_decide_eq_true in Hs.
    apply hash_at_some in Hx as (H0 & e & He & _ & ->). destruct (used_inv h t Hok _ _ He) as [_ Ee].
    rewrite Z2Nat.id in Ee by done. subst e. unfold hash. by rewrite Hs. }
  exists r. split; [exact Er|]. destruct Hr as [(Hrange & Hlive & (x & Hx) & Hs)|[Hno Hr]].
  - rewrite (same_entry _ x Hx) in Hs. apply bool_decide_eq_true in Hs.
    apply hash_at_some in Hx as (H0 & e & He & Hl & _). destruct (used_inv h t Hok _ _ He) as [_ Ee].
    rewrite Z2Nat.id in Ee by done. subst e.
    rewrite (position_unique h rows n _ _ (ok_names _ _ Hok) He) by (by split). split; [done|]. split; [done|]. by rewrite Z2Nat.id.
  - rewrite position_absent; [done|]. intros i e He [Hl Hn]. destruct (used_inv h t Hok _ _ He) as [_ Ee].
    rewrite <- (Nat2Z.id i) in He. pose proof (hash_at_live h rows _ e (Nat2Z.is_nonneg i) He Hl) as Hx.
    specialize (Hno _ _ Hx). rewrite (same_entry _ _ Hx), <- Ee in Hno. by apply bool_decide_eq_false in Hno.
Qed.

Lemma probe_from_start r :
  capacity_ok (tb_slot_capacity t) ->
  grouped_probe MASK_SHIFT (tb_controls t) (tb_slot_capacity t) hit hash false = Ret r ->
  probe_loop MASK_SHIFT (probe_fuel (tb_slot_capacity t)) (tb_controls t) hit (mal_hash_tag hash) false
    (probe_at (tb_slot_capacity t) hash 0) UINT32_MAX = Ret r.
Proof using Type.
  intros Hc Er. rewrite <- Er. unfold grouped_probe. rewrite mal_hash_probe_start by done. reflexivity.
Qed.

Lemma lookup_indexed :
  lookup_loop MASK_SHIFT (probe_fuel (tb_slot_capacity t)) h t key hash (mal_hash_probe hash (tb_slot_capacity t))
  = Ret (match position h rows n with Some i => Z.of_nat i | None => MAL_TABLE_EMPTY end).
Proof using Hok Hkey Hshift Hcap Hhashed.
  destruct (probe_position false) as (r & Er & Hr).
  pose proof (io_capacity _ _ _ _ _ _ (proj1 index_of_table)) as Hc. pose proof (capacity_bound _ Hc).
  rewrite mal_hash_probe_start by done.
  rewrite lookup_loop_ok by (split; [lia|apply Z.div_str_pos; lia]). rewrite (probe_from_start r Hc Er).
  cbn [mbind outcome_bind]. destruct (position h rows n) as [i|].
  - destruct Hr as (Hrange & _ & ->). destruct (Z.eqb_spec r UINT32_MAX) as [E|]; [unfold UINT32_MAX in E; lia|done].
  - by rewrite Hr, Z.eqb_refl.
Qed.
End indexed.

(** The hash the callers pass: of the key, once there is an index. *)
Definition query_hash (hash : Z) : Prop := tb_slot_capacity t <> 0 -> hash = name_hash n /\ ident_hashed h key.

Lemma table_find_slot_ok hash :
  query_hash hash ->
  exists r, mal_table_find_slot MASK_SHIFT h t key hash = Ret r /\
    match position h rows n with
    | Some i => mal_table_slot_entry t r = Z.of_nat i /\
        (tb_slot_capacity t <> 0 -> 0 <= r < tb_slot_capacity t /\ live_control (arr_get (tb_controls t) r) = true /\
           arr_get (tb_slots t) r = Z.of_nat i)
    | None => mal_table_slot_entry t r = MAL_TABLE_EMPTY /\
        (tb_slot_capacity t <> 0 -> reusable (tb_slot_capacity t) (tb_controls t) (name_hash n) r)
    end.
Proof using Hok Hkey Hshift.
  intros Hq. pose proof (ok_count _ _ Hok). pose proof (ok_capacity _ _ Hok).
  unfold mal_table_find_slot, mal_table_slot_entry. destruct (Z.eqb_spec (tb_slot_capacity t) 0) as [E|Hc].
  - rewrite table_scan_ok. cbn [mbind outcome_bind]. eexists. split; [done|].
    destruct (position h rows n) as [i|] eqn:Ep; cbn [fmap option_fmap option_map].
    + destruct (position_some _ _ _ _ Ep) as (e & He & _). destruct (used_inv h t Hok _ _ He) as [Hlt _].
      destruct (Z.ltb_spec (Z.of_nat i) (entry_count t)); [|lia]. split; [|done].
      apply swrap_small; [lia|]. unfold in_i. lia.
    + by rewrite Z.ltb_irrefl.
  - destruct (Hq Hc) as [-> Hh]. destruct (probe_position Hc Hh true) as (r & Er & Hr). exists r. split.
    { rewrite <- Er. apply find_loop_ok. }
    destruct (position h rows n) as [i|].
    + destruct Hr as (Hrange & Hl & Hs). unfold mal_hash_slot_live, live_control in *. by rewrite Hl.
    + split; [|done]. destruct Hr as (_ & _ & Hc'). unfold mal_hash_slot_live.
      by rewrite (live_not_reusable _ Hc' : (_ <? _) = false).
Qed.

Lemma lookup_entry_ok hash :
  query_hash hash ->
  mal_table_lookup_entry MASK_SHIFT h t key hash = Ret (match position h rows n with Some i => Z.of_nat i | None => MAL_TABLE_EMPTY end).
Proof using Hok Hkey Hshift.
  intros Hq. pose proof (ok_count _ _ Hok). pose proof (ok_capacity _ _ Hok).
  unfold mal_table_lookup_entry. destruct (Z.eqb_spec (tb_slot_capacity t) 0) as [E|Hc].
  - rewrite table_scan_ok. cbn [mbind outcome_bind]. destruct (position h rows n) as [i|] eqn:Ep; [|done]. cbn.
    destruct (position_some _ _ _ _ Ep) as (e & He & _). destruct (used_inv h t Hok _ _ He) as [Hlt _].
    f_equal. apply swrap_small; [lia|]. unfold in_i. lia.
  - destruct (Hq Hc) as [-> Hh]. by apply lookup_indexed.
Qed.
End find.
