(* ===== verification/TableOps.v ===== *)
(** Growth and insertion of the property table (Table): the index is rebuilt over
    the same rows, the entry buffer grows under them, and an insertion appends one
    row and one bucket. *)

From stdpp Require Import gmap.
From S2P Require Import Prelude F64 Value HeapString HeapStringSpec Key HashIndex MapObject MapRows MapStore StringHeap.
From S2P Require Import Table TableKeys TableSpec.

(** The invariant without the index. *)
Record base_ok (h : StringHeap) (t : MalTable) : Prop := {
  bo_heap : string_heap_ok h;
  bo_entries : arr_len (tb_entries t) = entry_capacity t;
  bo_count : 0 <= entry_count t <= entry_capacity t;
  bo_capacity : entry_capacity t = 0 \/ 4 <= entry_capacity t < 2 ^ 31;
  bo_rows : Forall (row_ok h) (used_rows t);
  bo_names : names_distinct h (used_rows t);
  bo_size : tb_size t = arr_len (live_rows (used_rows t));
  bo_tombs : tombstone_count t = entry_count t - tb_size t;
  bo_pins : in_u 32 (iterator_pins t);
  bo_epoch : 1 <= handle_epoch t < 2 ^ 64;
}.
Lemma table_base h t : table_ok h t -> base_ok h t.
Proof. intros []. by split. Qed.
Lemma base_table h t : base_ok h t -> index_part h t -> table_ok h t.
Proof. intros [] ?. by split. Qed.

(** Rows that can be read. *)
Definition entries_fit (t : MalTable) : Prop := 0 <= entry_count t <= arr_len (tb_entries t).
Lemma base_entries h t : base_ok h t -> entries_fit t.
Proof. intros []. unfold entries_fit. lia. Qed.
Lemma used_at t i : entries_fit t -> 0 <= i < entry_count t -> used_rows t !! Z.to_nat i = Some (entry_at t i).
Proof.
  intros Hf Hi. unfold entries_fit, used_rows in *. rewrite lookup_take_lt by lia. apply arr_get_lookup. lia.
Qed.
Lemma used_length t : entries_fit t -> arr_len (used_rows t) = entry_count t.
Proof. unfold entries_fit, used_rows, arr_len. intros Hf. rewrite length_take. lia. Qed.

(** * The rebuilt index *)

Lemma hash_at_snoc h l e j :
  hash_at h (l ++ [e]) j = if j =? arr_len l then row_hash h e else hash_at h l j.
Proof.
  unfold hash_at, arr_len. destruct (Z.eqb_spec j (Z.of_nat (length l))) as [->|].
  - destruct (Z.leb_spec 0 (Z.of_nat (length l))); [|lia]. rewrite Nat2Z.id, list_lookup_middle by done. done.
  - destruct (Z.leb_spec 0 j); [|done]. destruct (decide (j < Z.of_nat (length l))).
    + by rewrite lookup_app_l by lia.
    + rewrite !lookup_ge_None_2; [done|lia|rewrite length_app; cbn; lia].
Qed.
Lemma hash_at_end h l : hash_at h l (arr_len l) = None.
Proof. unfold hash_at, arr_len. destruct (0 <=? _); [|done]. by rewrite Nat2Z.id, lookup_ge_None_2 by lia. Qed.
Lemma live_rows_snoc l e :
  live_rows (l ++ [e]) = live_rows l ++ (if mal_table_row_live e then [e] else []).
Proof.
  unfold live_rows. rewrite filter_app. f_equal. rewrite filter_cons, filter_nil.
  destruct (mal_table_row_live e); by case_decide.
Qed.

Section fill.
Variable MASK_SHIFT : Z.
Hypothesis Hshift : 0 <= MASK_SHIFT.
Variable raw : Z -> Z.

Lemma fill_table_loop_ok t cap fuel : forall h i sl ct,
  entries_fit t -> string_heap_ok h -> Forall (row_ok h) (used_rows t) ->
  0 <= i -> i + Z.of_nat fuel = entry_count t -> arr_len (live_rows (used_rows t)) < cap ->
  index_ok cap sl ct (hash_at h (take (Z.to_nat i) (used_rows t))) (arr_len (live_rows (take (Z.to_nat i) (used_rows t)))) 0 ->
  exists sl' ct' h', fill_table_loop MASK_SHIFT fuel h t i sl ct cap = Ret (sl', ct', h') /\ hash_grows h h' /\
    index_ok cap sl' ct' (hash_at h (used_rows t)) (arr_len (live_rows (used_rows t))) 0.
Proof using Hshift.
  induction fuel as [|fuel IH]; intros h i sl ct Hfit Hh Hrows Hi Hf Hroom Hok; cbn [fill_table_loop].
  - exists sl, ct, h. split; [done|]. split; [by apply hash_grows_refl|].
    pose proof (used_length t Hfit) as Hu. unfold arr_len in Hu. rewrite take_ge in Hok by lia. done.
  - pose proof (used_at t i Hfit ltac:(lia)) as He. set (e := entry_at t i) in *.
    assert (take (Z.to_nat (i + 1)) (used_rows t) = take (Z.to_nat i) (used_rows t) ++ [e]) as Ht.
    { replace (Z.to_nat (i + 1)) with (S (Z.to_nat i)) by lia. by apply take_S_r. }
    assert (arr_len (take (Z.to_nat i) (used_rows t)) = i) as Hl.
    { pose proof (used_length t Hfit) as Hu. unfold arr_len in *. rewrite length_take. lia. }
    pose proof (hash_at_end h (take (Z.to_nat i) (used_rows t))) as Hend. rewrite Hl in Hend.
    pose proof (live_rows_snoc (take (Z.to_nat i) (used_rows t)) e) as Hlr. rewrite <- Ht in Hlr.
    destruct (mal_table_row_live e) eqn:El; cbn [negb].
    + destruct (row_ok_live h e) as (flags & owns & Hw & Ee & Hid & Hhd); [by eapply Forall_lookup_1|done|].
      assert (te_key e = word (ident e) flags owns (fp_of (name_hash (row_name h e)))) as Ek by (by rewrite Ee at 1).
      rewrite Ek, key_hash_word by done. destruct (key_hash_ident h (ident e) Hh Hid) as (h1 & -> & Hg & _).
      fold (row_name h e). set (x := name_hash (row_name h e)).
      assert (arr_len (live_rows (take (Z.to_nat i) (used_rows t))) < arr_len (live_rows (used_rows t))) as Hlt.
      { rewrite <- (take_drop (Z.to_nat (i + 1)) (used_rows t)) at 2. unfold live_rows at 2. rewrite filter_app, arr_len_app.
        fold (live_rows (take (Z.to_nat (i + 1)) (used_rows t))). rewrite Hlr, arr_len_app. unfold arr_len at 3. cbn [length].
        pose proof (arr_len_nonneg (filter (fun e => mal_table_row_live e = true) (drop (Z.to_nat (i + 1)) (used_rows t)))). lia. }
      destruct (empty_slot_spec MASK_SHIFT Hshift cap (io_capacity _ _ _ _ _ _ Hok) ct
                  (index_has_empty _ _ _ _ _ _ Hok ltac:(lia)) x) as (r & -> & Hr & Hre & Hreach).
      cbn [mbind outcome_bind].
      pose proof (index_insert_ok cap sl ct _ _ _ r i x Hok) as Hins.
      cbv beta zeta iota delta [mal_hash_index_insert] in Hins |- *.
      rewrite Hre in Hins. change (Z.b2z (deleted_control MAL_HASH_EMPTY)) with 0 in Hins.
      destruct (IH h1 (i + 1) (arr_set sl r i) (arr_set ct r (mal_hash_tag x))) as (sl' & ct' & h' & E & Hg' & Hix);
        [done|by eapply hash_grows_ok| |lia|lia|lia| |].
      * eapply Forall_impl; [exact Hrows|]. intros e'. by apply row_ok_grows.
      * rewrite Hlr, arr_len_app. change (arr_len [e]) with 1. eapply index_ok_ext; [|apply Hins].
        -- intros j. rewrite (hash_at_grows h h1), Ht, hash_at_snoc, Hl by done. unfold row_hash. by rewrite El.
        -- split; [done|]. split; [done|]. by right.
        -- exact Hend.
        -- apply name_hash_range.
      * exists sl', ct', h'. split; [exact E|]. split; [by eapply hash_grows_trans|].
        eapply index_ok_ext; [|exact Hix]. intros j. by apply hash_at_grows.
    + destruct (IH h (i + 1) sl ct) as (sl' & ct' & h' & E & Hg & Hix); try done; try lia; [|by exists sl', ct', h'].
      rewrite Hlr, app_nil_r, Ht. eapply index_ok_ext; [|exact Hok]. intros j. rewrite hash_at_snoc, Hl.
      destruct (Z.eqb_spec j i) as [->|]; [|done]. unfold row_hash. by rewrite El, Hend.
Qed.

(** The slots of an index over the rows of [t]. *)
Definition index_over (h : StringHeap) (t : MalTable) (cap : Z) (sl ct : list Z) : Prop :=
  if cap =? 0 then sl = [] /\ ct = []
  else index_ok cap sl ct (hash_at h (used_rows t)) (arr_len (live_rows (used_rows t))) 0.

Lemma table_fill_ok t h cap sl ct :
  entries_fit t -> string_heap_ok h -> Forall (row_ok h) (used_rows t) ->
  capacity_ok cap -> arr_len sl = cap -> mal_hash_index_fits (arr_len (live_rows (used_rows t))) cap = true ->
  exists sl' ct' h', mal_table_fill_slots MASK_SHIFT h t sl ct cap = Ret (set_slots sl' ct' cap 0 t, h') /\ hash_grows h h' /\
    index_over h t cap sl' ct'.
Proof using Hshift.
  intros Hfit Hh Hr Hc Hs Hf. pose proof (capacity_bound cap Hc). unfold mal_table_fill_slots, index_over.
  destruct (Z.eqb_spec cap 0); [lia|].
  destruct (fill_table_loop_ok t cap (Z.to_nat (entry_count t)) h 0 sl (mal_hash_index_reset ct cap))
    as (sl' & ct' & h' & -> & Hg & Hix); try done.
  { unfold entries_fit in Hfit. lia. }
  { by eapply fits_lt. }
  { change (take (Z.to_nat 0) (used_rows t)) with (@nil MalTableEntry). change (arr_len (live_rows [])) with 0.
    eapply index_ok_ext; [|by apply index_reset_ok]. intros j. unfold hash_at. destruct (0 <=? j); [|done]. by rewrite lookup_nil. }
  by exists sl', ct', h'.
Qed.

Lemma table_rehash_ok t h cap :
  entries_fit t -> string_heap_ok h -> Forall (row_ok h) (used_rows t) ->
  cap = 0 \/ (capacity_ok cap /\ mal_hash_index_fits (arr_len (live_rows (used_rows t))) cap = true) ->
  exists sl ct h', mal_table_rehash MASK_SHIFT raw h t cap = Ret (set_slots sl ct cap 0 t, h') /\ hash_grows h h' /\
    index_over h t cap sl ct.
Proof using Hshift.
  intros Hfit Hh Hr [->|[Hc Hf]]; unfold mal_table_rehash.
  - exists [], [], h. split; [done|]. split; [by apply hash_grows_refl|done].
  - pose proof (capacity_bound cap Hc). destruct (Z.eqb_spec cap 0); [lia|]. unfold mal_hash_index_bytes.
    destruct (Z.ltb_spec (SIZE_MAX / (4 + 1)) cap) as [Hb|_].
    { exfalso. assert (2 ^ 31 <= SIZE_MAX / (4 + 1)) by (by vm_compute). lia. }
    cbn [mbind outcome_bind]. apply table_fill_ok; try done. apply raw_words_len. lia.
Qed.
End fill.

(** * Growth *)

(** The same rows and the same index, in a larger buffer. *)
Definition same_rows (t t' : MalTable) : Prop :=
  used_rows t' = used_rows t /\ entry_count t' = entry_count t /\ tb_size t' = tb_size t /\
  tombstone_count t' = tombstone_count t /\ iterator_pins t' = iterator_pins t /\ handle_epoch t' = handle_epoch t.
Definition same_slots (t t' : MalTable) : Prop :=
  tb_slot_capacity t' = tb_slot_capacity t /\ tb_deleted_slots t' = tb_deleted_slots t /\
  tb_slots t' = tb_slots t /\ tb_controls t' = tb_controls t.

Lemma table_rows_refl t : same_rows t t.
Proof. by repeat split. Qed.
Lemma same_rows_trans t1 t2 t3 : same_rows t1 t2 -> same_rows t2 t3 -> same_rows t1 t3.
Proof. unfold same_rows. intuition congruence. Qed.

Lemma base_ok_same h t t' :
  same_rows t t' -> base_ok h t -> arr_len (tb_entries t') = entry_capacity t' -> entry_count t <= entry_capacity t' ->
  4 <= entry_capacity t' < 2 ^ 31 -> base_ok h t'.
Proof.
  intros (Eu & Ec & Es & Et & Ep & Ee) [] ? ? ?. split; rewrite ?Eu, ?Ec, ?Es, ?Et, ?Ep, ?Ee; try done; [lia|by right].
Qed.
Lemma base_ok_slots h t sl ct cap del : base_ok h t -> base_ok h (set_slots sl ct cap del t).
Proof. intros []. by split. Qed.
Lemma base_ok_grows h h' t : hash_grows h h' -> base_ok h t -> base_ok h' t.
Proof.
  intros Hg [H1 H2 H3 H4 H5 H6 H7 H8 H9 H10]. split; try done.
  - by eapply hash_grows_ok.
  - eapply Forall_impl; [exact H5|]. intros e. by apply row_ok_grows.
  - intros i j e e'. rewrite !(row_name_grows h h') by done. apply H6.
Qed.
Lemma index_part_same h t t' : same_rows t t' -> same_slots t t' -> index_part h t -> index_part h t'.
Proof.
  intros (Eu & Ec & Es & _) (E1 & E2 & E3 & E4). unfold index_part. by rewrite E1, E2, E3, E4, Ec, Es, Eu.
Qed.
(** The table over an index rebuilt with enough room. *)
Lemma rebuilt_ok h h' t cap sl ct :
  base_ok h t -> hash_grows h h' -> index_over h t cap sl ct ->
  (cap = 0 -> entry_count t <= 4) -> (cap <> 0 -> mal_hash_index_fits (tb_size t) cap = true) ->
  table_ok h' (set_slots sl ct cap 0 t).
Proof.
  intros Hb Hg Hi H4 Hf. apply base_table; [by apply base_ok_slots, (base_ok_grows h)|].
  unfold index_part, index_over in *. cbn. destruct (Z.eqb_spec cap 0) as [->|Hc].
  - destruct Hi as [-> ->]. auto.
  - rewrite Z.add_0_r. split; [|by apply Hf]. rewrite (bo_size _ _ Hb).
    eapply index_ok_ext; [|exact Hi]. intros i. symmetry. by apply hash_at_grows.
Qed.

(** More rows than this are never stored in a run; capacities then fit 31 bits. *)
Definition TABLE_ROOM : Z := 2 ^ 29.

Section grow.
Variable MASK_SHIFT : Z.
Hypothesis Hshift : 0 <= MASK_SHIFT.
Variable raw : Z -> Z.

Lemma raw_rows_len n : 0 <= n -> arr_len (raw_rows raw n) = n.
Proof using Type. intros. unfold raw_rows, arr_len. rewrite length_map, length_seqZ. lia. Qed.

(** Rows copied into a buffer with room. *)
Lemma used_copied t n count :
  entries_fit t -> entry_count t <= count <= arr_len (tb_entries t) -> entry_count t <= n ->
  used_rows (set_entry_capacity n (copy_rows count (tb_entries t) (raw_rows raw n)) t) = used_rows t.
Proof using Type.
  intros Hf Hc Hn. unfold entries_fit, used_rows, set_entry_capacity, copy_rows, arr_len in *. cbn [entry_count tb_entries].
  rewrite take_app_le by (rewrite length_take; lia). rewrite take_take. f_equal. lia.
Qed.

Lemma table_grow_rows_ok h t n :
  base_ok h t -> entry_capacity t <= n -> 4 <= n < 2 ^ 31 ->
  let t' := set_entry_capacity n (realloc_rows raw n (tb_entries t)) t in
  base_ok h t' /\ same_rows t t' /\ same_slots t t'.
Proof using Type.
  intros Hb Hn Hr t'. pose proof (base_entries h t Hb) as Hf. pose proof (bo_entries _ _ Hb) as He. pose proof (bo_count _ _ Hb).
  assert (same_rows t t') as Hs.
  { split; [|by repeat split]. apply used_copied; [done|lia|lia]. }
  split; [|split; [done|by repeat split]]. eapply base_ok_same; [exact Hs|done| |cbn; lia|cbn; lia]. cbn.
  unfold realloc_rows. rewrite copy_rows_len; [apply raw_rows_len; lia|lia|rewrite raw_rows_len; lia].
Qed.

Lemma allocate_storage_ok h t :
  table_ok h t ->
  let t' := mal_table_allocate_storage raw t in
  table_ok h t' /\ same_rows t t' /\ same_slots t t' /\ 4 <= entry_capacity t'.
Proof using Type.
  intros Hok. unfold mal_table_allocate_storage. destruct (Z.eqb_spec (entry_capacity t) 0) as [E|]; cbn [negb].
  - pose proof (table_base h t Hok) as Hb. pose proof (bo_count _ _ Hb).
    assert (tb_entries t = []) as En.
    { pose proof (bo_entries _ _ Hb) as He. rewrite E in He. unfold arr_len in He. destruct (tb_entries t); [done|cbn in He; lia]. }
    destruct (table_grow_rows_ok h t 4) as (Hb' & Hs & Hl); [done|lia|lia|].
    assert (set_entry_capacity MAL_TABLE_SMALL_MIN_CAPACITY (raw_rows raw MAL_TABLE_SMALL_MIN_CAPACITY) t
            = set_entry_capacity 4 (realloc_rows raw 4 (tb_entries t)) t) as -> by (rewrite En; done).
    split; [|split; [done|split; [done|cbn; lia]]]. apply base_table; [done|].
    eapply index_part_same; [done|done|apply (ok_index _ _ Hok)].
  - pose proof (ok_capacity _ _ Hok). split; [done|]. split; [apply table_rows_refl|]. split; [by repeat split|lia].
Qed.

Lemma grow_entries_ok h t :
  table_ok h t -> 4 <= entry_capacity t -> entry_count t < TABLE_ROOM ->
  exists t', mal_table_grow_entries_if_needed raw t = Ret t' /\ table_ok h t' /\ same_rows t t' /\ same_slots t t' /\
    entry_count t' < entry_capacity t'.
Proof using Type.
  intros Hok H4 Hroom. pose proof (ok_count _ _ Hok). pose proof (ok_capacity _ _ Hok). unfold TABLE_ROOM in Hroom.
  unfold mal_table_grow_entries_if_needed. destruct (Z.ltb_spec (entry_count t) (entry_capacity t)).
  { exists t. split; [done|]. split; [done|]. split; [apply table_rows_refl|]. split; [by repeat split|done]. }
  change (INT32_MAX / 2) with (2 ^ 30 - 1). change (SIZE_MAX / 16 / 2) with (2 ^ 59 - 1).
  destruct (Z.ltb_spec (2 ^ 30 - 1) (entry_capacity t)); [lia|]. destruct (Z.ltb_spec (2 ^ 59 - 1) (entry_capacity t)); [lia|].
  cbn [orb]. unfold u32. rewrite wrap_small by (unfold in_u; lia). eexists. split; [done|].
  destruct (table_grow_rows_ok h t (entry_capacity t * 2) (table_base _ _ Hok)) as (Hb & Hs & Hl); [lia|lia|].
  split; [|split; [done|split; [done|cbn; lia]]]. apply base_table; [done|].
  eapply index_part_same; [done|done|apply (ok_index _ _ Hok)].
Qed.

Lemma fits_capacity m x : 0 <= m -> mal_hash_index_fits x (16 * 2 ^ m) = (x <=? 14 * 2 ^ m).
Proof using Type.
  intros Hm. unfold mal_hash_index_fits. replace (16 * 2 ^ m) with (2 * 2 ^ m * 8) at 2 by lia. rewrite Z.div_mul by lia.
  f_equal. lia.
Qed.

(** What an insertion needs of the index it goes into. *)
Definition slot_room (t : MalTable) (reuses : bool) : Prop :=
  if tb_slot_capacity t =? 0 then entry_count t < 4
  else mal_hash_index_fits (tb_size t + tb_deleted_slots t + 1 - Z.b2z reuses) (tb_slot_capacity t) = true.

Lemma grow_slots_ok h t reuses :
  table_ok h t -> entry_count t < TABLE_ROOM ->
  exists grown t' h', mal_table_grow_slots_if_needed MASK_SHIFT raw h t reuses = Ret (grown, t', h') /\
    hash_grows h h' /\ table_ok h' t' /\ same_rows t t' /\ tb_entries t' = tb_entries t /\ entry_capacity t' = entry_capacity t /\
    (if grown : bool then slot_room t' false /\ tb_slot_capacity t' <> 0 /\ tb_deleted_slots t' = 0
     else t' = t /\ h' = h /\ slot_room t reuses).
Proof using Hshift.
  intros Hok Hroom. pose proof (size_range h t Hok) as Hsz. unfold TABLE_ROOM in Hroom.
  unfold mal_table_grow_slots_if_needed, slot_room. pose proof (hash_grows_refl h (ok_heap _ _ Hok)) as Hrefl.
  destruct (_ && (entry_count t <? _)) eqn:Es.
  { apply andb_true_iff in Es as [Ec El]. apply Z.ltb_lt in El. exists false, t, h. rewrite Ec.
    do 3 (split; [done|]). split; [apply table_rows_refl|]. by unfold MAL_TABLE_SMALL_MIN_CAPACITY in El. }
  destruct (negb _ && _) eqn:Ef.
  { apply andb_true_iff in Ef as [Ec Ef]. exists false, t, h. destruct (tb_slot_capacity t =? 0); [done|].
    do 3 (split; [done|]). by split; [apply table_rows_refl|]. }
  set (cap0 := if tb_slot_capacity t =? 0 then MAL_HASH_GROUP_WIDTH else tb_slot_capacity t).
  assert (exists m, 0 <= m <= 26 /\ cap0 = 16 * 2 ^ m /\ tb_size t <= 14 * 2 ^ m) as (m & Hm & Ecap & Hsm).
  { subst cap0. pose proof (ok_index _ _ Hok) as Hi. unfold index_part in Hi. destruct (Z.eqb_spec (tb_slot_capacity t) 0).
    - exists 0. cbn. split; [lia|]. split; [done|]. lia.
    - destruct Hi as [Hi Hf]. destruct (io_capacity _ _ _ _ _ _ Hi) as (m & Hm & Em). exists m. split; [done|].
      split; [done|]. rewrite Em, fits_capacity in Hf by lia. apply Z.leb_le in Hf.
      pose proof (io_deleted _ _ _ _ _ _ Hi) as Hd. pose proof (count_nonneg deleted_control (tb_controls t)). lia. }
  rewrite Ecap. rewrite fits_capacity by lia. pose proof (Z.pow_pos_nonneg 2 m). pose proof (Z.pow_le_mono_r 2 m 26).
  assert (exists m', 0 <= m' <= 26 /\ tb_size t + 1 <= 14 * 2 ^ m' /\
    (if negb (tb_size t + 1 <=? 14 * 2 ^ m) then if INT32_MAX / 2 <? 16 * 2 ^ m then Abort else Ret (u32 (16 * 2 ^ m * 2))
     else Ret (16 * 2 ^ m)) = Ret (16 * 2 ^ m')) as (m' & Hm' & Hf' & ->).
  { destruct (Z.leb_spec (tb_size t + 1) (14 * 2 ^ m)); cbn [negb]; [by exists m|].
    change (INT32_MAX / 2) with (2 ^ 30 - 1). destruct (decide (m = 26)) as [->|]; [lia|].
    pose proof (Z.pow_le_mono_r 2 m 25 ltac:(lia) ltac:(lia)). destruct (Z.ltb_spec (2 ^ 30 - 1) (16 * 2 ^ m)); [lia|].
    exists (m + 1). rewrite Z.pow_add_r by lia. split; [lia|]. split; [lia|].
    unfold u32. rewrite wrap_small by (unfold in_u; lia). f_equal. lia. }
  cbn [mbind outcome_bind]. pose proof (table_base _ _ Hok) as Hb. pose proof (Z.pow_pos_nonneg 2 m').
  assert (mal_hash_index_fits (tb_size t) (16 * 2 ^ m') = true) as Hfs by (rewrite fits_capacity by lia; apply Z.leb_le; lia).
  destruct (table_rehash_ok MASK_SHIFT Hshift raw t h (16 * 2 ^ m')) as (sl & ct & h' & -> & Hg & Hi).
  { by eapply base_entries. } { apply (ok_heap _ _ Hok). } { apply (ok_rows _ _ Hok). }
  { right. split; [by exists m'|]. by rewrite <- (ok_size _ _ Hok). }
  cbn [mbind outcome_bind]. eexists true, _, h'. split; [done|]. split; [done|]. split.
  { eapply rebuilt_ok; [done|done|done|lia|done]. }
  split; [by repeat split|]. split; [done|]. split; [done|]. cbn.
  split; [|split; [lia|done]]. destruct (Z.eqb_spec (16 * 2 ^ m') 0); [lia|]. rewrite fits_capacity by lia. apply Z.leb_le. lia.
Qed.
End grow.
