(* ===== verification/TableUpdate.v ===== *)
(** Lookup, insertion and removal in the property table (Table): a lookup returns the
    handle of the row of that name, an upsert that row or a new one at the end; deletion
    leaves a dead row that still owns its sidecar, and freeing the table frees them all. *)

From stdpp Require Import gmap.
From S2P Require Import Prelude F64 Value HeapString HeapStringSpec Key HashIndex MapObject MapRows MapStore StringHeap.
From S2P Require Import Table TableKeys TableSpec TableOps.

(** Only hash caches changed. *)
Definition world_hashed (w w' : TableWorld) : Prop :=
  hash_grows (tw_strings w) (tw_strings w') /\ tw_sidecars w' = tw_sidecars w /\ tw_barriers w' = tw_barriers w.
Lemma world_hashed_refl w : string_heap_ok (tw_strings w) -> world_hashed w w.
Proof. intros. split; [by apply hash_grows_refl|done]. Qed.
Lemma world_hashed_trans w1 w2 w3 : world_hashed w1 w2 -> world_hashed w2 w3 -> world_hashed w1 w3.
Proof. intros (G1 & S1 & B1) (G2 & S2 & B2). split; [by eapply hash_grows_trans|]. split; congruence. Qed.
Lemma world_hashed_set w h : hash_grows (tw_strings w) h -> world_hashed w (set_tw_strings h w).
Proof. by split. Qed.

(** * Appending a row *)

Definition new_row (i : Z) (n : PropKey) : MalTableEntry := mkEntry (word i 0 false (fp_of (name_hash n))) MAL_VALUE_UNDEFINED.

Lemma new_word_ok i x : 0 <= i < 2 ^ 50 -> word_ok i 0 (fp_of x).
Proof. intros Hi. pose proof (fp_range x). repeat split; lia. Qed.
Lemma new_row_ok h i : ident_ok i -> ident_hashed h i -> row_ok h (new_row i (name_of h i)).
Proof. intros Hi Hh. apply row_ok_entry; [apply new_word_ok, ident_range, Hi|done]. Qed.
Lemma new_row_live i n : ident_ok i -> mal_table_row_live (new_row i n) = true /\ ident (new_row i n) = i.
Proof.
  intros Hi. pose proof (new_word_ok i (name_hash n) (ident_range i Hi)) as Hw.
  split; [by apply live_ident|by apply ident_word].
Qed.

Lemma take_arr_set {A} (l : list A) i x :
  0 <= i < arr_len l -> take (Z.to_nat (i + 1)) (arr_set l i x) = take (Z.to_nat i) l ++ [x].
Proof.
  intros Hi. unfold arr_set, arr_len in *. replace (Z.to_nat (i + 1)) with (S (Z.to_nat i)) by lia.
  rewrite (take_S_r _ _ x) by (apply list_lookup_insert_eq; lia). f_equal. apply take_insert_ge. lia.
Qed.

Lemma names_snoc h rows e :
  names_distinct h rows -> position h rows (row_name h e) = None -> names_distinct h (rows ++ [e]).
Proof.
  intros Hd Hp i j a b Hi Hj Ha Hb En.
  assert (forall k c, (rows ++ [e]) !! k = Some c -> rows !! k = Some c \/ (k = length rows /\ c = e)) as Hs.
  { intros k c Hk. apply lookup_app_Some in Hk as [Hk|[Hk Hc]]; [by left|]. right.
    apply list_lookup_singleton_Some in Hc as [? ->]. split; [lia|done]. }
  destruct (Hs _ _ Hi) as [Hi'|[-> ->]], (Hs _ _ Hj) as [Hj'|[-> ->]].
  - by eapply Hd.
  - destruct (position_none _ _ _ _ _ Hp Hi'). by split.
  - destruct (position_none _ _ _ _ _ Hp Hj'). by split.
  - done.
Qed.

Section append.
Context (h : StringHeap) (t : MalTable) (i index : Z).
Hypothesis Hok : table_ok h t.
Hypothesis Hi : ident_ok i.
Hypothesis Hh : ident_hashed h i.
Let n := name_of h i.
Hypothesis Habsent : position h (used_rows t) n = None.
Hypothesis Hroom : entry_count t < entry_capacity t.
Hypothesis Hslots : slot_room t (arr_get (tb_controls t) index =? MAL_HASH_DELETED).
Hypothesis Hindex : tb_slot_capacity t <> 0 -> reusable (tb_slot_capacity t) (tb_controls t) (name_hash n) index.
Let t' := append_row t i (name_hash n) index.

Lemma append_fields :
  entry_count t' = entry_count t + 1 /\ tb_size t' = tb_size t + 1 /\ tombstone_count t' = tombstone_count t /\
  entry_capacity t' = entry_capacity t /\ iterator_pins t' = iterator_pins t /\ handle_epoch t' = handle_epoch t /\
  tb_slot_capacity t' = tb_slot_capacity t /\
  tb_entries t' = arr_set (tb_entries t) (entry_count t) (new_row i n).
Proof using Hi.
  unfold t', append_row. cbn. pose proof (ident_range i Hi). rewrite new_word by done.
  destruct (Z.eqb_spec (tb_slot_capacity t) 0) as [E|]; cbn [negb]; by repeat split.
Qed.

Lemma append_rows : used_rows t' = used_rows t ++ [new_row i n].
Proof using Hok Hi Hroom.
  destruct append_fields as (Ec & _ & _ & _ & _ & _ & _ & Ee). unfold used_rows. rewrite Ec, Ee.
  apply take_arr_set. rewrite (ok_entries _ _ Hok). pose proof (ok_count _ _ Hok). lia.
Qed.

Lemma append_index : index_part h t'.
Proof using Hok Hi Hroom Hslots Hindex.
  pose proof (ok_index _ _ Hok) as Hix. destruct (new_row_live i n Hi) as [Hl Ei].
  assert (row_hash h (new_row i n) = Some (name_hash n)) as Hrh.
  { unfold row_hash. rewrite Hl. unfold row_name. by rewrite Ei. }
  unfold index_part, slot_room in *. destruct append_fields as (Ec & Es & _ & _ & _ & _ & Ecap & _).
  rewrite append_rows, Ec, Es, Ecap. unfold t', append_row. cbn.
  destruct (Z.eqb_spec (tb_slot_capacity t) 0) as [E0|Hne]; cbn [negb].
  - destruct Hix as (H1 & H2 & H3 & H4). cbn. split; [lia|done].
  - destruct Hix as [Hix Hf]. cbn.
    pose proof (index_insert_ok _ _ _ _ _ _ index (entry_count t) (name_hash n) Hix (Hindex Hne)) as Hins.
    cbv beta zeta iota delta [mal_hash_index_insert] in Hins.
    assert (hash_at h (used_rows t) (entry_count t) = None) as Hend.
    { rewrite <- (used_len h t Hok). apply hash_at_end. }
    specialize (Hins Hend (name_hash_range n)).
    assert ((if arr_get (tb_controls t) index =? MAL_HASH_DELETED then tb_deleted_slots t - 1 else tb_deleted_slots t)
            = tb_deleted_slots t - Z.b2z (deleted_control (arr_get (tb_controls t) index))) as ->.
    { unfold deleted_control. destruct (_ =? MAL_HASH_DELETED); cbn; lia. }
    split.
    + eapply index_ok_ext; [|exact Hins]. intros j. rewrite hash_at_snoc, (used_len h t Hok), Hrh. done.
    + unfold deleted_control. rewrite <- Hslots. f_equal. lia.
Qed.

Lemma append_ok : table_ok h t'.
Proof using Hok Hi Hh Habsent Hroom Hslots Hindex.
  pose proof append_index as Hix. destruct append_fields as (Ec & Es & Et & Eca & Ep & Ee & _ & El).
  pose proof append_rows as Er. destruct (new_row_live i n Hi) as [Hl Ei].
  apply base_table; [|done]. pose proof (table_base _ _ Hok) as [H1 H2 H3 H4 H5 H6 H7 H8 H9 H10].
  split; rewrite ?Ec, ?Es, ?Et, ?Eca, ?Ep, ?Ee, ?Er; try done; try lia.
  - by rewrite El, arr_len_set.
  - apply Forall_app. split; [done|]. apply Forall_singleton. by apply new_row_ok.
  - apply names_snoc; [done|]. unfold row_name. by rewrite Ei.
  - rewrite live_rows_snoc, Hl, arr_len_app. rewrite H7. done.
Qed.
End append.

(** * Operations *)

Lemma handle_of_index i : 0 <= i < 2 ^ 31 -> mal_table_handle i = i + 1 /\ mal_table_handle_index (i + 1) = i.
Proof.
  intros Hi. unfold mal_table_handle, mal_table_handle_index, u32. rewrite !wrap_small by (unfold in_u; lia). lia.
Qed.

Section ops.
Variable MASK_SHIFT : Z.
Hypothesis Hshift : 0 <= MASK_SHIFT.
Variable raw : Z -> Z.

Lemma index_hash_ok t w i :
  string_heap_ok (tw_strings w) -> ident_ok i ->
  exists hash w', index_hash t w i = (hash, w') /\ world_hashed w w' /\ query_hash (tw_strings w') t i hash.
Proof using Type.
  intros Hh Hi. unfold index_hash, query_hash. destruct (Z.eqb_spec (tb_slot_capacity t) 0) as [E|].
  { exists 0, w. split; [done|]. split; [by apply world_hashed_refl|done]. }
  destruct (key_hash_ident _ i Hh Hi) as (h' & -> & Hg & Hhd). eexists _, _. split; [done|].
  split; [by apply world_hashed_set|]. intros _. cbn. split; [|done]. f_equal. symmetry. by apply hash_grows_name.
Qed.

Lemma position_bound h t n i : table_ok h t -> position h (used_rows t) n = Some i -> Z.of_nat i < entry_count t.
Proof using Type. intros Hok (e & He & _)%position_some. apply (used_inv h t Hok _ _ He). Qed.

(** [handle_of]: what lookups answer for a position. *)
Definition handle_of (p : option nat) : option Z := (fun i => Z.of_nat i + 1) <$> p.

Lemma lookup_ok t w key n :
  table_ok (tw_strings w) t -> key_name (tw_strings w) key = Some n ->
  exists w', mal_table_lookup MASK_SHIFT t w key = Ret (handle_of (position (tw_strings w) (used_rows t) n), w') /\ world_hashed w w'.
Proof using Hshift.
  intros Hok Hk. set (h := tw_strings w) in *. pose proof (encode_key_ok h key) as He. rewrite Hk in He.
  destruct He as (i & Ei & Hi & <-). unfold mal_table_lookup. rewrite Ei. cbn [mbind outcome_bind].
  pose proof (world_hashed_refl w (ok_heap _ _ Hok)) as Hrefl. pose proof (ok_count _ _ Hok). pose proof (ok_capacity _ _ Hok).
  destruct (Z.eqb_spec (tb_size t) 0) as [E0|_].
  { exists w. rewrite position_absent; [done|]. intros j e Hj [Hl _].
    assert (e ∈ live_rows (used_rows t)) as Hin by (apply list_elem_of_filter; split; [done|by eapply list_elem_of_lookup_2]).
    rewrite (ok_size _ _ Hok) in E0. unfold arr_len in E0. destruct (live_rows _); [by apply elem_of_nil in Hin|cbn in E0; lia]. }
  destruct (_ && _ && _ && _) eqn:Efast.
  { repeat apply andb_true_iff in Efast as [Efast ?]. set (j := u32 i) in *. apply Z.ltb_lt in H3. apply Z.eqb_eq in H1.
    assert (0 <= j) by (apply (wrap_range 32); lia). exists w. split; [|done].
    rewrite (position_unique h (used_rows t) _ (Z.to_nat j) (entry_at t j)).
    - cbn. rewrite Z2Nat.id by done. destruct (handle_of_index j) as [-> _]; [lia|done].
    - apply (ok_names _ _ Hok).
    - apply (used_lookup h t Hok). lia.
    - split; [done|]. unfold row_name, ident. by rewrite H1. }
  destruct (index_hash_ok t w i (ok_heap _ _ Hok) Hi) as (hash & w' & -> & Hw & Hq).
  pose proof (table_ok_grows _ _ _ (proj1 Hw) Hok) as Hok'. cbv beta zeta iota.
  rewrite (lookup_entry_ok MASK_SHIFT Hshift _ t i Hok' Hi hash Hq). cbn [mbind outcome_bind].
  rewrite (position_grows h), (hash_grows_name h) by apply Hw. exists w'.
  destruct (position h (used_rows t) (name_of h i)) as [j|] eqn:Ep; [|done].
  pose proof (position_bound h t _ j Hok Ep). cbn. destruct (Z.eqb_spec (Z.of_nat j) MAL_TABLE_EMPTY) as [E|_]; [unfold MAL_TABLE_EMPTY in E; lia|].
  unfold u32. rewrite wrap_small by (unfold in_u; lia). destruct (handle_of_index (Z.of_nat j)) as [-> _]; [lia|done].
Qed.

(** The rows after an upsert: unchanged when the name is there, one more if not. *)
Definition upserted (h : StringHeap) (n : PropKey) (rows rows' : list MalTableEntry) (handle : Z) (inserted : bool) : Prop :=
  match position h rows n with
  | Some i => handle = Z.of_nat i + 1 /\ inserted = false /\ rows' = rows
  | None => handle = arr_len rows + 1 /\ inserted = true /\
      exists i, ident_ok i /\ name_of h i = n /\ rows' = rows ++ [new_row i n]
  end.

(** The insertion of a row that is not there, from the slot the search ended at. *)
Lemma upsert_new_ok t w i index hash :
  table_ok (tw_strings w) t -> ident_ok i -> query_hash (tw_strings w) t i hash -> 4 <= entry_capacity t ->
  entry_count t < TABLE_ROOM -> position (tw_strings w) (used_rows t) (name_of (tw_strings w) i) = None ->
  (tb_slot_capacity t <> 0 -> reusable (tb_slot_capacity t) (tb_controls t) (name_hash (name_of (tw_strings w) i)) index) ->
  exists t' w', (t ← mal_table_grow_entries_if_needed raw t;
    let reuses_deleted := negb (tb_slot_capacity t =? 0) && (arr_get (tb_controls t) index =? MAL_HASH_DELETED) in
    '(grown, t, h) ← mal_table_grow_slots_if_needed MASK_SHIFT raw (tw_strings w) t reuses_deleted;
    let w := set_tw_strings h w in
    '(hash, index, w) ←
      (if (grown : bool) then
         let '(hash, h) := mal_table_key_hash (tw_strings w) i in
         index ← mal_table_find_slot MASK_SHIFT h t i hash;
         Ret (hash, index, set_tw_strings h w)
       else if tb_slot_capacity t =? 0 then
         let '(hash, h) := mal_table_key_hash (tw_strings w) i in
         Ret (hash, index, set_tw_strings h w)
       else Ret (hash, index, w));
    Ret (mal_table_handle (entry_count t), true, append_row t i hash index, w))
    = Ret (entry_count t + 1, true, t', w') /\ world_hashed w w' /\ table_ok (tw_strings w') t' /\
    used_rows t' = used_rows t ++ [new_row i (name_of (tw_strings w) i)] /\
    entry_count t' = entry_count t + 1 /\ iterator_pins t' = iterator_pins t /\ handle_epoch t' = handle_epoch t.
Proof using Hshift.
  intros Hok Hi Hq H4 Hroom Hpos Hre. pose proof (ok_count _ _ Hok).
  destruct (grow_entries_ok raw _ t Hok H4 Hroom) as (t1 & -> & Hok1 & (Eu & Ec & Es & _ & Ep & Ee) & (S1 & S2 & S3 & S4) & Hlt).
  cbn [mbind outcome_bind]. set (h := tw_strings w) in *. cbv zeta.
  set (reuses := negb (tb_slot_capacity t1 =? 0) && (arr_get (tb_controls t1) index =? MAL_HASH_DELETED)).
  destruct (grow_slots_ok MASK_SHIFT Hshift raw h t1 reuses Hok1 ltac:(lia))
    as (grown & t2 & h2 & -> & Hg & Hok2 & (Eu2 & Ec2 & Es2 & _ & Ep2 & Ee2) & El2 & Eca2 & Hcase).
  cbn [mbind outcome_bind]. cbn [tw_strings set_tw_strings].
  destruct (handle_of_index (entry_count t2)) as [-> _]; [unfold TABLE_ROOM in Hroom; lia|].
  replace (entry_count t2 + 1) with (entry_count t + 1) by lia.
  assert (forall hash' index' h3, hash' = name_hash (name_of h i) -> hash_grows h2 h3 -> ident_hashed h3 i ->
    slot_room t2 (arr_get (tb_controls t2) index' =? MAL_HASH_DELETED) ->
    (tb_slot_capacity t2 <> 0 -> reusable (tb_slot_capacity t2) (tb_controls t2) (name_hash (name_of h i)) index') ->
    table_ok h3 (append_row t2 i hash' index') /\
    used_rows (append_row t2 i hash' index') = used_rows t ++ [new_row i (name_of h i)] /\
    entry_count (append_row t2 i hash' index') = entry_count t + 1 /\
    iterator_pins (append_row t2 i hash' index') = iterator_pins t /\
    handle_epoch (append_row t2 i hash' index') = handle_epoch t) as Hfin.
  { intros hash' index' h3 -> Hg3 Hhd Hsl Hrx. pose proof (hash_grows_trans _ _ _ Hg Hg3) as Hg'.
    assert (name_of h3 i = name_of h i) as En by (by apply hash_grows_name).
    pose proof (table_ok_grows _ _ _ Hg3 Hok2) as Hok3. rewrite <- En.
    assert (position h3 (used_rows t2) (name_of h3 i) = None) as Hp3.
    { rewrite (position_grows h), En, Eu2, Eu by done. exact Hpos. }
    assert (entry_count t2 < entry_capacity t2) as Hcap by lia.
    split; [apply append_ok; try done; by rewrite En|].
    rewrite (append_rows h3 t2 i index' Hok3 Hi Hcap), Eu2, Eu.
    destruct (append_fields h3 t2 i index' Hi) as (-> & _ & _ & _ & -> & -> & _).
    split; [done|]. split; [lia|]. split; congruence. }
  destruct grown.
  - destruct Hcase as (Hsl & Hc & Hd). pose proof (hash_grows_ok _ _ Hg) as Hh2.
    destruct (key_hash_ident h2 i Hh2 Hi) as (h3 & -> & Hg3 & Hhd).
    pose proof (table_ok_grows _ _ _ Hg3 Hok2) as Hok3. pose proof (hash_grows_trans _ _ _ Hg Hg3) as Hg'.
    assert (name_of h2 i = name_of h i /\ name_of h3 i = name_of h i) as [En2 En3] by (split; by apply hash_grows_name).
    destruct (table_find_slot_ok MASK_SHIFT Hshift h3 t2 i Hok3 Hi (name_hash (name_of h2 i))) as (r & -> & Hr).
    { intros _. split; [cbv zeta; by rewrite En3, En2|done]. }
    cbn [mbind outcome_bind]. rewrite (position_grows h), En3, Eu2, Eu, Hpos in Hr by done. destruct Hr as [_ Hr].
    rewrite En2. destruct (Hfin (name_hash (name_of h i)) r h3) as (F1 & F2 & F3 & F4 & F5); try done.
    { specialize (Hr Hc). destruct (Z.eqb_spec (arr_get (tb_controls t2) r) MAL_HASH_DELETED) as [Edel|]; [|done].
      exfalso. destruct (index_of_table h3 t2 Hok3 Hc) as [Hix _]. pose proof (io_deleted _ _ _ _ _ _ Hix) as Hcnt. rewrite Hd in Hcnt.
      destruct Hr as (Hrange & _ & _). rewrite <- (io_controls _ _ _ _ _ _ Hix) in Hrange.
      pose proof (count_set deleted_control (tb_controls t2) r 0 Hrange) as Hs.
      rewrite Hcnt, Edel in Hs. change (Z.b2z (deleted_control MAL_HASH_DELETED)) with 1 in Hs. change (Z.b2z (deleted_control 0)) with 0 in Hs.
      pose proof (count_nonneg deleted_control (arr_set (tb_controls t2) r 0)). lia. }
    eexists _, _. split; [reflexivity|]. split; [by split|]. by split.
  - destruct Hcase as (-> & -> & Hsl). destruct (Z.eqb_spec (tb_slot_capacity t1) 0) as [E0|Hc].
    + destruct (key_hash_ident h i (ok_heap _ _ Hok) Hi) as (h3 & -> & Hg3 & Hhd). cbn [mbind outcome_bind].
      destruct (Hfin (name_hash (name_of h i)) index h3) as (F1 & F2 & F3 & F4 & F5); try done.
      { unfold slot_room in *. by rewrite E0 in *. }
      eexists _, _. split; [reflexivity|]. split; [by split|]. by split.
    + destruct Hq as [-> Hhd]; [by rewrite <- S1|]. cbn [mbind outcome_bind].
      destruct (Hfin (name_hash (name_of h i)) index h) as (F1 & F2 & F3 & F4 & F5); try done.
      { intros _. rewrite S1, S4. apply Hre. by rewrite <- S1. }
      eexists _, _. split; [reflexivity|]. split; [by split|]. by split.
Qed.

Lemma upsert_entry_ok t w key n :
  table_ok (tw_strings w) t -> key_name (tw_strings w) key = Some n -> entry_count t < TABLE_ROOM ->
  exists handle inserted t' w', mal_table_upsert_entry MASK_SHIFT raw t w key = Ret (handle, inserted, t', w') /\
    world_hashed w w' /\ table_ok (tw_strings w') t' /\ upserted (tw_strings w) n (used_rows t) (used_rows t') handle inserted /\
    entry_count t' <= entry_count t + 1 /\ iterator_pins t' = iterator_pins t /\ handle_epoch t' = handle_epoch t.
Proof using Hshift.
  intros Hok Hk Hroom. set (h := tw_strings w) in *. pose proof (encode_key_ok h key) as He. rewrite Hk in He.
  destruct He as (i & Ei & Hi & <-). unfold mal_table_upsert_entry. rewrite Ei. cbn [mbind outcome_bind]. cbv zeta.
  destruct (allocate_storage_ok raw h t Hok) as (Hok1 & (Eu & Ec & Es & _ & Ep & Ee) & (S1 & S2 & S3 & S4) & H4).
  set (t1 := mal_table_allocate_storage raw t) in *. pose proof (used_len h t Hok) as Hul.
  destruct (index_hash_ok t1 w i (ok_heap _ _ Hok) Hi) as (hash & w1 & -> & Hw & Hq). cbv beta iota.
  pose proof (table_ok_grows _ _ _ (proj1 Hw) Hok1) as Hok2.
  assert (name_of (tw_strings w1) i = name_of h i) as En by (apply hash_grows_name, Hw).
  assert (position (tw_strings w1) (used_rows t1) (name_of (tw_strings w1) i) = position h (used_rows t) (name_of h i)) as Epos.
  { rewrite (position_grows h), En, Eu by apply Hw. done. }
  destruct (table_find_slot_ok MASK_SHIFT Hshift _ t1 i Hok2 Hi hash Hq) as (r & -> & Hr). cbn [mbind outcome_bind].
  rewrite Epos in Hr. unfold upserted. destruct (position h (used_rows t) (name_of h i)) as [j|] eqn:Ej.
  - destruct Hr as [-> _]. pose proof (position_bound h t _ j Hok Ej). unfold TABLE_ROOM in Hroom.
    destruct (Z.eqb_spec (Z.of_nat j) MAL_TABLE_EMPTY) as [E|_]; [unfold MAL_TABLE_EMPTY in E; lia|]. cbn [negb].
    unfold u32. rewrite wrap_small by (unfold in_u; lia). destruct (handle_of_index (Z.of_nat j)) as [-> _]; [lia|].
    eexists _, _, _, _. split; [done|]. split; [done|]. split; [done|]. split; [done|]. split; [lia|done].
  - destruct Hr as [-> Hre]. change (negb (MAL_TABLE_EMPTY =? MAL_TABLE_EMPTY)) with false. cbv iota.
    destruct (upsert_new_ok t1 w1 i r hash Hok2 Hi Hq H4 ltac:(lia) Epos Hre) as (t' & w' & E & Hw' & Hok' & Er & Ec' & Ep' & Ee').
    eexists _, _, _, _. split; [exact E|]. split; [by eapply world_hashed_trans|]. split; [done|].
    split; [|split; [lia|split; congruence]]. rewrite Hul. split; [lia|]. split; [done|].
    exists i. rewrite Er, Eu, En. done.
Qed.
End ops.

(** * Replacing a row *)

Definition live_count (rows : list MalTableEntry) : Z := arr_len (live_rows rows).

Lemma live_count_cons e rows : live_count (e :: rows) = Z.b2z (mal_table_row_live e) + live_count rows.
Proof.
  unfold live_count, live_rows, arr_len. rewrite filter_cons.
  destruct (mal_table_row_live e); case_decide; try done; cbn [length Z.b2z]; lia.
Qed.
Lemma live_count_insert rows : forall k e e',
  rows !! k = Some e ->
  live_count (<[k := e']> rows) = live_count rows - Z.b2z (mal_table_row_live e) + Z.b2z (mal_table_row_live e').
Proof.
  induction rows as [|x rows IH]; intros [|k] e e' He; try done.
  - injection He as ->. cbn [insert list_insert]. rewrite !live_count_cons. lia.
  - change (<[S k:=e']> (x :: rows)) with (x :: <[k:=e']> rows). rewrite !live_count_cons. cbn in He.
    rewrite (IH k e e' He). lia.
Qed.
Lemma live_count_nonneg rows : 0 <= live_count rows.
Proof. apply arr_len_nonneg. Qed.

Lemma used_set t i e :
  entries_fit t -> 0 <= i < entry_count t -> used_rows (set_entry i e t) = <[Z.to_nat i := e]> (used_rows t).
Proof.
  intros Hf Hi. unfold used_rows, set_entry, set_entries, arr_set. cbn [tb_entries entry_count].
  by rewrite take_insert_lt by lia.
Qed.

Lemma hash_at_insert h rows k e j :
  (k < length rows)%nat -> hash_at h (<[k := e]> rows) j = if j =? Z.of_nat k then row_hash h e else hash_at h rows j.
Proof.
  intros Hk. unfold hash_at. destruct (Z.eqb_spec j (Z.of_nat k)) as [->|].
  - destruct (Z.leb_spec 0 (Z.of_nat k)); [|lia]. by rewrite Nat2Z.id, list_lookup_insert_eq.
  - destruct (Z.leb_spec 0 j); [|done]. by rewrite list_lookup_insert_ne by lia.
Qed.

(** A row may die or keep its name. *)
Definition keeps_name (h : StringHeap) (e e' : MalTableEntry) : Prop :=
  mal_table_row_live e' = true -> mal_table_row_live e = true /\ row_name h e' = row_name h e.
Lemma names_insert h rows k e e' :
  names_distinct h rows -> rows !! k = Some e -> keeps_name h e e' -> names_distinct h (<[k := e']> rows).
Proof.
  intros Hd He Hk i j a b Hi Hj Ha Hb En.
  assert (forall m c, <[k := e']> rows !! m = Some c -> mal_table_row_live c = true ->
    exists c', rows !! m = Some c' /\ mal_table_row_live c' = true /\ row_name h c = row_name h c') as Hs.
  { intros m c Hm Hc. destruct (decide (m = k)) as [->|].
    - rewrite list_lookup_insert_eq in Hm by (by eapply lookup_lt_Some). injection Hm as <-. destruct (Hk Hc). eauto.
    - rewrite list_lookup_insert_ne in Hm by done. eauto. }
  destruct (Hs _ _ Hi Ha) as (a' & Hi' & Ha' & Ea), (Hs _ _ Hj Hb) as (b' & Hj' & Hb' & Eb).
  eapply Hd; [done|done|done|done|]. congruence.
Qed.

(** * Sidecars *)

Definition owned_data (rows : list MalTableEntry) : list Z :=
  omap (fun e => if mal_table_row_owned e then Some (te_payload e) else None) rows.
Definition dead_rows (rows : list MalTableEntry) : list MalTableEntry :=
  filter (fun e => mal_table_row_live e = false) rows.

(** The map without some addresses. *)
Definition without (m : gmap Z (Z * Z)) (l : list Z) : gmap Z (Z * Z) := foldr delete m l.
Lemma without_lookup m l p : without m l !! p = if decide (p ∈ l) then None else m !! p.
Proof.
  induction l as [|q l IH].
  - rewrite decide_False by (by intros ?%elem_of_nil). done.
  - change (without m (q :: l)) with (delete q (without m l)). destruct (decide (p = q)) as [->|].
    + rewrite lookup_delete_eq, decide_True by (by left). done.
    + rewrite lookup_delete_ne, IH by done. apply decide_ext. rewrite elem_of_cons. tauto.
Qed.
Lemma without_cons m p l : without (delete p m) l = without m (p :: l).
Proof.
  apply map_eq. intros q. rewrite !without_lookup. destruct (decide (q = p)) as [->|].
  - rewrite lookup_delete_eq, (decide_True (P := p ∈ p :: l)) by (by left). by destruct (decide (p ∈ l)).
  - rewrite lookup_delete_ne by done. apply decide_ext. rewrite elem_of_cons. tauto.
Qed.

(** Addresses that can be freed, each once. *)
Definition freeable (m : gmap Z (Z * Z)) (l : list Z) : Prop :=
  NoDup l /\ forall p, p ∈ l -> p <> 0 /\ is_Some (m !! p).

Lemma freeable_cons m p l :
  freeable m (p :: l) -> p <> 0 /\ is_Some (m !! p) /\ freeable (delete p m) l.
Proof.
  intros [Hn Ha]. apply NoDup_cons in Hn as [Hp Hn]. destruct (Ha p) as [H0 Hs]; [by left|]. split; [done|]. split; [done|].
  split; [done|]. intros q Hq. destruct (Ha q) as [Hq0 Hqs]; [by right|]. split; [done|].
  rewrite lookup_delete_ne; [done|]. by intros ->.
Qed.
Lemma freeable_free m p w :
  tw_sidecars w = m -> p <> 0 -> is_Some (m !! p) -> free_sidecar p w = Ret (set_tw_sidecars (delete p m) w).
Proof.
  intros <- H0 [x Hx]. unfold free_sidecar. destruct (Z.eqb_spec p 0); [done|]. by rewrite Hx.
Qed.

Lemma owned_data_cons e rows :
  owned_data (e :: rows) = (if mal_table_row_owned e then [te_payload e] else []) ++ owned_data rows.
Proof. cbn [owned_data omap list_omap]. by destruct (mal_table_row_owned e). Qed.

Lemma set_sidecars_same w : set_tw_sidecars (tw_sidecars w) w = w.
Proof. by destruct w. Qed.

Lemma free_rows_ok rows : forall w,
  freeable (tw_sidecars w) (owned_data rows) ->
  free_rows rows w = Ret (set_tw_sidecars (without (tw_sidecars w) (owned_data rows)) w).
Proof.
  induction rows as [|e rows IH]; intros w Hf; cbn [free_rows].
  - cbn. by rewrite set_sidecars_same.
  - rewrite owned_data_cons in *. destruct (mal_table_row_owned e); cbn [app] in *; [|by apply IH].
    destruct (freeable_cons _ _ _ Hf) as (H0 & Hs & Hf'). rewrite (freeable_free _ _ w eq_refl H0 Hs). cbn [mbind outcome_bind].
    rewrite IH by done. cbn. by rewrite without_cons.
Qed.

(** * Deletion *)

Section remove.
Variable MASK_SHIFT : Z.
Hypothesis Hshift : 0 <= MASK_SHIFT.
Variable raw : Z -> Z.

(** The table after row [k] died: [index] is its bucket. *)
Lemma kill_base h t k e :
  base_ok h t -> used_rows t !! k = Some e -> mal_table_row_live e = true ->
  let t' := set_counts (tb_size t - 1) (tombstone_count t + 1) (entry_count t) (set_entry (Z.of_nat k) (kill_row e) t) in
  base_ok h t' /\ used_rows t' = <[k := kill_row e]> (used_rows t).
Proof using Type.
  intros Hb Hk Hl t'. pose proof (base_entries h t Hb) as Hf. pose proof (lookup_lt_Some _ _ _ Hk) as Hlt.
  pose proof (used_length t Hf) as Hu. unfold arr_len in Hu.
  assert (used_rows t' = <[k := kill_row e]> (used_rows t)) as Eu.
  { change (used_rows t') with (used_rows (set_entry (Z.of_nat k) (kill_row e) t)). rewrite used_set by (done || lia).
    by rewrite Nat2Z.id. }
  split; [|done]. destruct Hb as [H1 H2 H3 H4 H5 H6 H7 H8 H9 H10].
  destruct (kill_row_spec h e) as (Hro & Hdead & _ & _); [by eapply Forall_lookup_1|].
  split; rewrite ?Eu; cbn; try done.
  - by rewrite arr_len_set.
  - by apply Forall_insert.
  - eapply names_insert; [done|done|]. intros Hc. congruence.
  - pose proof (live_count_insert (used_rows t) k e (kill_row e) Hk) as Hc. rewrite Hl, Hdead in Hc. unfold live_count in Hc.
    cbn [Z.b2z] in Hc. lia.
  - lia.
Qed.

Definition deleted_world (e : MalTableEntry) (w w' : TableWorld) : Prop :=
  hash_grows (tw_strings w) (tw_strings w') /\ tw_sidecars w' = tw_sidecars w /\ tw_barriers w' = tw_barriers (shade_row e w).

Lemma shade_row_world e w :
  tw_strings (shade_row e w) = tw_strings w /\ tw_sidecars (shade_row e w) = tw_sidecars w /\
  tw_barriers (shade_row e w) = (if mal_table_row_owned e then [] else [te_payload e]) ++ mal_table_key_value (te_key e) :: tw_barriers w.
Proof using Type. unfold shade_row. by destruct (mal_table_row_owned e). Qed.

Lemma table_delete_ok t w key n :
  table_ok (tw_strings w) t -> key_name (tw_strings w) key = Some n ->
  exists b t' w', mal_table_delete MASK_SHIFT t w key = Ret (b, t', w') /\ table_ok (tw_strings w') t' /\
    entry_count t' = entry_count t /\ iterator_pins t' = iterator_pins t /\ handle_epoch t' = handle_epoch t /\
    match position (tw_strings w) (used_rows t) n with
    | Some k => b = true /\ exists e, used_rows t !! k = Some e /\ used_rows t' = <[k := kill_row e]> (used_rows t) /\ deleted_world e w w'
    | None => b = false /\ used_rows t' = used_rows t /\ world_hashed w w'
    end.
Proof using Hshift.
  intros Hok Hk. set (h := tw_strings w) in *. pose proof (encode_key_ok h key) as He. rewrite Hk in He.
  destruct He as (i & Ei & Hi & <-). unfold mal_table_delete. rewrite Ei. cbn [mbind outcome_bind].
  destruct (Z.eqb_spec (tb_size t) 0) as [E0|_].
  { exists false, t, w. do 5 (split; [done|]). rewrite position_absent; [by split_and!; [..|apply world_hashed_refl, (ok_heap _ _ Hok)]|].
    intros j e Hj [Hl _]. rewrite (ok_size _ _ Hok) in E0.
    pose proof (live_count_insert _ j e (kill_row e) Hj) as Hc. rewrite Hl in Hc.
    destruct (kill_row_spec h e) as (_ & Hd & _); [eapply Forall_lookup_1; [apply (ok_rows _ _ Hok)|done]|].
    rewrite Hd in Hc. pose proof (live_count_nonneg (<[j:=kill_row e]> (used_rows t))). unfold live_count in *. cbn [Z.b2z] in Hc. lia. }
  destruct (index_hash_ok t w i (ok_heap _ _ Hok) Hi) as (hash & w1 & -> & Hw & Hq). cbv beta iota.
  pose proof (table_ok_grows _ _ _ (proj1 Hw) Hok) as Hok1.
  destruct (table_find_slot_ok MASK_SHIFT Hshift _ t i Hok1 Hi hash Hq) as (r & -> & Hr). cbn [mbind outcome_bind].
  rewrite (position_grows h), (hash_grows_name h) in Hr by apply Hw.
  destruct (position h (used_rows t) (name_of h i)) as [k|] eqn:Ek.
  2: { destruct Hr as [-> _]. change (MAL_TABLE_EMPTY =? MAL_TABLE_EMPTY) with true. exists false, t, w1. done. }
  destruct Hr as [-> Hr]. destruct (Z.eqb_spec (Z.of_nat k) MAL_TABLE_EMPTY) as [E|_]; [unfold MAL_TABLE_EMPTY in E; lia|].
  destruct (position_some _ _ _ _ Ek) as (e & He & Hl & _). destruct (used_inv h t Hok _ _ He) as [Hlt Ee]. rewrite <- Ee.
  destruct (shade_row_world e w1) as (W1 & W2 & W3). pose proof (shade_row_world e w) as (_ & _ & W4).
  assert (deleted_world e w (shade_row e w1)) as Hdw.
  { destruct Hw as (G & S & B). split; [by rewrite W1|]. split; [congruence|]. by rewrite W3, W4, B. }
  destruct (kill_base (tw_strings w1) t k e (table_base _ _ Hok1) He Hl) as [Hb Eu].
  set (t1 := set_counts _ _ _ _) in *. cbv zeta. change (tb_slot_capacity t1) with (tb_slot_capacity t).
  destruct (Z.eqb_spec (tb_slot_capacity t) 0) as [E0|Hc]; cbn [negb].
  - exists true, t1, (shade_row e w1). split; [done|]. split; [|do 3 (split; [done|]); split; [done|]; eauto].
    rewrite W1. apply base_table; [done|]. pose proof (ok_index _ _ Hok1) as Hx. unfold index_part in *.
    change (tb_slot_capacity t1) with (tb_slot_capacity t). rewrite E0 in *. exact Hx.
  - destruct (Hr Hc) as (Hrange & Hlive & Hs). destruct (index_of_table _ t Hok1 Hc) as [Hix _].
    pose proof (index_erase_ok MASK_SHIFT Hshift _ _ _ _ _ _ r Hix Hrange Hlive) as Her.
    change (tb_controls t1) with (tb_controls t). change (tb_slots t1) with (tb_slots t). change (tb_deleted_slots t1) with (tb_deleted_slots t).
    destruct (mal_hash_controls_erase MASK_SHIFT (tb_controls t) r) as [ct d].
    eexists true, _, (shade_row e w1). split; [done|]. split; [|do 3 (split; [done|]); split; [done|]; eauto].
    rewrite W1. apply base_table; [by apply base_ok_slots|]. unfold index_part. cbn. destruct (Z.eqb_spec (tb_slot_capacity t) 0); [done|].
    split.
    + eapply index_ok_ext; [|exact Her]. intros j. change (used_rows (set_slots _ _ _ _ t1)) with (used_rows t1).
      rewrite Eu, hash_at_insert, Hs by (by eapply lookup_lt_Some). destruct (j =? Z.of_nat k); [|done]. unfold row_hash.
      destruct (kill_row_spec (tw_strings w1) e) as (_ & -> & _); [|done]. eapply Forall_lookup_1; [apply (ok_rows _ _ Hok1)|done].
    + pose proof (ok_index _ _ Hok1) as Hx. unfold index_part in Hx. destruct (Z.eqb_spec (tb_slot_capacity t) 0); [done|].
      destruct Hx as [_ Hf]. apply Z.leb_le in Hf. apply Z.leb_le. destruct d; cbn [Z.b2z]; lia.
Qed.
End remove.
