(* ===== verification/TableSweep.v ===== *)
(** Compaction, clearing, filtering and reservation of the property table (Table): what
    they leave of the rows and of the sidecars. [kill_if] is the effect of the removals on
    the rows: the rows a test selects die in place. *)

From stdpp Require Import gmap.
From S2P Require Import Prelude F64 Value HeapString HeapStringSpec Key HashIndex MapObject MapRows MapStore StringHeap.
From S2P Require Import Table TableKeys TableSpec TableOps TableUpdate.

(** * Which sidecars a table owns *)

(** The live sidecars are exactly those of the rows, dead rows included. *)
Definition owns (m : gmap Z (Z * Z)) (rows : list MalTableEntry) : Prop :=
  NoDup (owned_data rows) /\ (forall p, p ∈ owned_data rows <-> is_Some (m !! p)) /\ m !! 0 = None.
(** After an operation: the sidecars of the rows that are left, with their content. *)
Definition cleaned (m m' : gmap Z (Z * Z)) (rows' : list MalTableEntry) : Prop :=
  owns m' rows' /\ forall p, p ∈ owned_data rows' -> m' !! p = m !! p.

Lemma owns_cleaned m rows : owns m rows -> cleaned m m rows.
Proof. by split. Qed.
Lemma cleaned_trans m m1 m2 rows1 rows2 :
  cleaned m m1 rows1 -> cleaned m1 m2 rows2 -> (forall p, p ∈ owned_data rows2 -> p ∈ owned_data rows1) -> cleaned m m2 rows2.
Proof. intros [_ H1] [O2 H2] Hsub. split; [done|]. intros p Hp. rewrite H2 by done. auto. Qed.

Lemma owned_data_app l l' : owned_data (l ++ l') = owned_data l ++ owned_data l'.
Proof. apply omap_app. Qed.
Lemma dead_rows_app l l' : dead_rows (l ++ l') = dead_rows l ++ dead_rows l'.
Proof. apply filter_app. Qed.

Lemma owned_data_split rows : owned_data rows ≡ₚ owned_data (live_rows rows) ++ owned_data (dead_rows rows).
Proof.
  induction rows as [|e rows IH]; [done|]. unfold live_rows, dead_rows in *. rewrite !filter_cons.
  destruct (mal_table_row_live e) eqn:El.
  - rewrite decide_True, decide_False by done. rewrite !owned_data_cons, IH. by rewrite app_assoc.
  - rewrite decide_False, decide_True by done. rewrite !owned_data_cons, IH. apply Permutation_app_swap_app.
Qed.
Lemma owned_dead_in rows p : p ∈ owned_data (dead_rows rows) -> p ∈ owned_data rows.
Proof. intros Hp. rewrite owned_data_split, elem_of_app. by right. Qed.

Lemma owns_freeable m rows : owns m rows -> freeable m (owned_data (dead_rows rows)).
Proof.
  intros (Hn & Ha & H0). split.
  - rewrite owned_data_split in Hn. by apply NoDup_app in Hn as (_ & _ & ?).
  - intros p Hp%owned_dead_in. split; [|by apply Ha]. intros ->. apply Ha in Hp. rewrite H0 in Hp. by destruct Hp.
Qed.
(** Freeing the sidecars of the dead rows leaves those of the live ones. *)
Lemma owns_compacted m rows :
  owns m rows -> cleaned m (without m (owned_data (dead_rows rows))) (live_rows rows).
Proof.
  intros (Hn & Ha & H0). rewrite owned_data_split in Hn. apply NoDup_app in Hn as (Hn & Hd & _).
  assert (forall p, p ∈ owned_data (live_rows rows) -> without m (owned_data (dead_rows rows)) !! p = m !! p) as Hkeep.
  { intros p Hp. rewrite without_lookup, decide_False; [done|]. by apply Hd. }
  split; [|done]. split; [done|]. split.
  - intros p. split.
    + intros Hp. rewrite Hkeep by done. apply Ha. rewrite owned_data_split, elem_of_app. by left.
    + rewrite without_lookup. case_decide as Hdec; [by intros []|]. intros Hs. apply Ha in Hs.
      rewrite owned_data_split, elem_of_app in Hs. by destruct Hs.
  - rewrite without_lookup. by case_decide.
Qed.

(** * Live rows *)

Lemma live_rows_cons e rows : live_rows (e :: rows) = (if mal_table_row_live e then [e] else []) ++ live_rows rows.
Proof. unfold live_rows. rewrite filter_cons. by destruct (mal_table_row_live e); case_decide. Qed.
Lemma live_rows_elem rows e : e ∈ live_rows rows <-> mal_table_row_live e = true /\ e ∈ rows.
Proof. unfold live_rows. by rewrite list_elem_of_filter. Qed.
Lemma live_rows_idemp rows : live_rows (live_rows rows) = live_rows rows.
Proof. unfold live_rows. rewrite list_filter_filter. apply list_filter_iff. tauto. Qed.
Lemma all_live rows : live_count rows = arr_len rows -> live_rows rows = rows /\ dead_rows rows = [].
Proof.
  induction rows as [|e rows IH]; [done|]. rewrite live_count_cons. unfold arr_len. cbn [length].
  assert (live_count rows <= arr_len rows) as Hle.
  { unfold live_count, live_rows, arr_len. pose proof (length_filter (fun e => mal_table_row_live e = true) rows). lia. }
  unfold arr_len in *. destruct (mal_table_row_live e) eqn:El; cbn [Z.b2z]; intros Hc; [|lia].
  destruct IH as [E1 E2]; [lia|]. rewrite live_rows_cons, El, E1. split; [done|].
  unfold dead_rows in *. rewrite filter_cons, decide_False, E2 by congruence. done.
Qed.

Lemma names_cons h e rows :
  names_distinct h (e :: rows) <->
  names_distinct h rows /\
  (mal_table_row_live e = true -> forall e', e' ∈ rows -> mal_table_row_live e' = true -> row_name h e <> row_name h e').
Proof.
  split.
  - intros Hd. split.
    + intros i j a b Hi Hj Ha Hb En. assert (S i = S j); [|lia]. by eapply (Hd (S i) (S j) a b).
    + intros He e' [j Hj]%list_elem_of_lookup_1 He' En. by eapply (Hd 0%nat (S j)) in En.
  - intros [Hd Hn] [|i] [|j] a b Hi Hj Ha Hb En; cbn in *; simplify_eq; try done.
    + exfalso. eapply Hn; [done|by eapply list_elem_of_lookup_2|done|done].
    + exfalso. eapply Hn; [done|by eapply list_elem_of_lookup_2|done|done].
    + f_equal. by eapply Hd.
Qed.
Lemma row_names_live h rows : names_distinct h rows -> names_distinct h (live_rows rows).
Proof.
  induction rows as [|e rows IH]; [done|]. intros [Hd Hn]%names_cons. rewrite live_rows_cons.
  destruct (mal_table_row_live e) eqn:El; [|by apply IH]. cbn [app]. apply names_cons. split; [by apply IH|].
  intros _ e' [_ He']%live_rows_elem He. by apply Hn.
Qed.

(** * Compaction *)

Section compact.
Variable MASK_SHIFT : Z.
Hypothesis Hshift : 0 <= MASK_SHIFT.
Variable raw : Z -> Z.

Lemma compact_rows_ok rows : forall prefix t w read write,
  read = arr_len prefix -> entry_count t = read + arr_len rows -> entry_count t <= arr_len (tb_entries t) ->
  write = live_count prefix -> take (Z.to_nat write) (tb_entries t) = live_rows prefix ->
  (forall k e, rows !! k = Some e -> entry_at t (read + Z.of_nat k) = e) ->
  freeable (tw_sidecars w) (owned_data (dead_rows rows)) ->
  exists l, compact_rows (length rows) t w read write
    = Ret (set_entries l t, set_tw_sidecars (without (tw_sidecars w) (owned_data (dead_rows rows))) w, live_count (prefix ++ rows)) /\
    arr_len l = arr_len (tb_entries t) /\ take (Z.to_nat (live_count (prefix ++ rows))) l = live_rows (prefix ++ rows).
Proof using Type.
  induction rows as [|e rows IH]; intros prefix t w read write -> Hc Hl -> Htake Hat Hfree; cbn [compact_rows length].
  - exists (tb_entries t). rewrite app_nil_r. cbn. rewrite set_sidecars_same. by destruct t.
  - assert (arr_len (e :: rows) = 1 + arr_len rows) as El by (unfold arr_len; cbn [length]; lia).
    assert (live_count prefix <= arr_len prefix) as Hle.
    { unfold live_count, live_rows, arr_len. pose proof (length_filter (fun e => mal_table_row_live e = true) prefix). lia. }
    pose proof (live_count_nonneg prefix). pose proof (arr_len_nonneg rows).
    assert (entry_at t (arr_len prefix) = e) as -> by (rewrite <- (Hat 0%nat e eq_refl); f_equal; lia).
    assert (arr_len prefix + 1 = arr_len (prefix ++ [e])) as Ep by (rewrite arr_len_app; done).
    assert (forall t', entry_count t' = entry_count t -> arr_len (tb_entries t') = arr_len (tb_entries t) ->
      (forall j, arr_len prefix < j -> entry_at t' j = entry_at t j) ->
      take (Z.to_nat (live_count (prefix ++ [e]))) (tb_entries t') = live_rows (prefix ++ [e]) ->
      forall w', freeable (tw_sidecars w') (owned_data (dead_rows rows)) -> exists l,
      compact_rows (length rows) t' w' (arr_len prefix + 1) (live_count (prefix ++ [e]))
      = Ret (set_entries l t', set_tw_sidecars (without (tw_sidecars w') (owned_data (dead_rows rows))) w', live_count (prefix ++ e :: rows)) /\
      arr_len l = arr_len (tb_entries t) /\ take (Z.to_nat (live_count (prefix ++ e :: rows))) l = live_rows (prefix ++ e :: rows)) as Hgo.
    { intros t' E1 E2 E3 E4 w' Hf'. replace (prefix ++ e :: rows) with ((prefix ++ [e]) ++ rows) by (by rewrite <- app_assoc).
      rewrite <- E2. apply IH; try done; try lia.
      intros k x Hk. rewrite E3 by lia. rewrite <- (Hat (S k) x Hk). f_equal. lia. }
    destruct (mal_table_row_live e) eqn:Elive; cbn [negb].
    + assert (dead_rows (e :: rows) = dead_rows rows) as Edead.
      { unfold dead_rows. by rewrite filter_cons, decide_False by congruence. }
      assert (live_count (prefix ++ [e]) = live_count prefix + 1 /\ live_rows (prefix ++ [e]) = live_rows prefix ++ [e]) as [Ec Er].
      { unfold live_count. rewrite live_rows_snoc, Elive, arr_len_app. done. }
      rewrite Edead in *. rewrite <- Ec.
      destruct (Z.eqb_spec (live_count prefix) (arr_len prefix)) as [Eq|Hne]; cbn [negb].
      * apply (Hgo t); try done. rewrite Ec, Er. replace (Z.to_nat (live_count prefix + 1)) with (S (Z.to_nat (live_count prefix))) by lia.
        rewrite (take_S_r _ _ e); [by rewrite Htake|].
        rewrite Eq. rewrite <- (Hat 0%nat e eq_refl), Z.add_0_r. apply arr_get_lookup. lia.
      * destruct (Hgo (set_entry (live_count prefix) e t)) with (w' := w) as (l & E & Hlen & Htk); try done.
        -- cbn. by rewrite arr_len_set.
        -- intros j Hj. unfold entry_at. cbn. apply arr_get_set_ne; lia.
        -- rewrite Ec, Er. cbn. rewrite take_arr_set by lia. by rewrite Htake.
        -- exists l. split; [|done]. rewrite E. done.
    + assert (dead_rows (e :: rows) = e :: dead_rows rows) as Edead.
      { unfold dead_rows. by rewrite filter_cons, decide_True. }
      assert (live_count (prefix ++ [e]) = live_count prefix /\ live_rows (prefix ++ [e]) = live_rows prefix) as [Ec Er].
      { unfold live_count. by rewrite live_rows_snoc, Elive, app_nil_r. }
      rewrite Edead, owned_data_cons in *. rewrite <- Ec.
      destruct (mal_table_row_owned e); cbn [app] in *.
      * destruct (freeable_cons _ _ _ Hfree) as (Hnz & Hs & Hf'). rewrite (freeable_free _ _ w eq_refl Hnz Hs). cbn [mbind outcome_bind].
        rewrite <- without_cons. refine (Hgo t eq_refl eq_refl (fun _ _ => eq_refl) _ (set_tw_sidecars _ w) Hf'). by rewrite Ec, Er.
      * cbn [mbind outcome_bind]. apply (Hgo t); try done. by rewrite Ec, Er.
Qed.

Lemma double_entries_ok fuel sz : forall target k,
  4 <= target < 2 ^ 31 -> sz <= 2 ^ 30 -> 0 <= k -> 2 ^ 31 <= target * 2 ^ k -> (Z.to_nat k < fuel)%nat ->
  exists c, double_entries fuel target sz = Ret c /\ sz <= c /\ 4 <= c < 2 ^ 31.
Proof using Type.
  induction fuel as [|fuel IH]; intros target k Ht Hs Hk Hp Hf; [lia|]. cbn [double_entries].
  destruct (Z.ltb_spec target sz); [|by exists target].
  assert (0 < k) by (destruct (decide (k = 0)) as [->|]; lia).
  assert (2 ^ k = 2 * 2 ^ (k - 1)) by (rewrite <- Z.pow_succ_r by lia; f_equal; lia).
  unfold u32. rewrite wrap_small by (unfold in_u; lia). apply (IH _ (k - 1)); [lia|lia|lia|nia|lia].
Qed.
Lemma double_slots_ok fuel sz : forall m,
  0 <= m <= 26 -> sz <= 2 ^ 29 -> (Z.to_nat (26 - m) < fuel)%nat ->
  exists c, double_slots fuel (16 * 2 ^ m) sz = Ret c /\ capacity_ok c /\ mal_hash_index_fits sz c = true.
Proof using Type.
  induction fuel as [|fuel IH]; intros m Hm Hs Hf; [lia|]. cbn [double_slots]. pose proof (Z.pow_pos_nonneg 2 m).
  destruct (Z.eqb_spec (16 * 2 ^ m) 0); [lia|]. cbn [negb andb]. destruct (mal_hash_index_fits sz (16 * 2 ^ m)) eqn:Ef; cbn [negb].
  { eexists. split; [done|]. split; [by exists m|done]. }
  rewrite fits_capacity in Ef by lia. apply Z.leb_gt in Ef. destruct (decide (m = 26)) as [->|]; [lia|].
  pose proof (Z.pow_le_mono_r 2 m 25). unfold u32. rewrite wrap_small by (unfold in_u; lia).
  replace (16 * 2 ^ m * 2) with (16 * 2 ^ (m + 1)) by (rewrite Z.pow_add_r by lia; lia). apply IH; lia.
Qed.

Definition next_epoch (epoch : Z) : Z := let e := u64 (epoch + 1) in if e =? 0 then 1 else e.
Lemma next_epoch_range e : 1 <= next_epoch e < 2 ^ 64.
Proof using Type.
  unfold next_epoch. assert (0 <= u64 (e + 1) < 2 ^ 64) by (apply (wrap_range 64); lia).
  destruct (Z.eqb_spec (u64 (e + 1)) 0); lia.
Qed.

(** The rows that are left, over a fresh index of the right size. *)
Lemma shrink_ok h t :
  base_ok h t -> tombstone_count t = 0 -> entry_count t < TABLE_ROOM -> tb_size t <> 0 ->
  exists c s t' h', double_entries capacity_fuel MAL_TABLE_SMALL_MIN_CAPACITY (tb_size t) = Ret c /\
    (let t := if c <? entry_capacity t then set_entry_capacity c (copy_rows (entry_count t) (tb_entries t) (raw_rows raw c)) t else t in
     double_slots capacity_fuel (if tb_size t <=? MAL_TABLE_SMALL_MIN_CAPACITY then 0 else MAL_HASH_GROUP_WIDTH) (tb_size t) = Ret s /\
     mal_table_rehash MASK_SHIFT raw h t s = Ret (t', h')) /\
    hash_grows h h' /\ table_ok h' t' /\ same_rows t t'.
Proof using Hshift.
  intros Hb Hz Hroom Hne. pose proof (bo_tombs _ _ Hb) as Ht. unfold TABLE_ROOM in Hroom.
  pose proof (bo_count _ _ Hb). pose proof (bo_capacity _ _ Hb). pose proof (base_entries h t Hb) as Hf. pose proof (bo_entries _ _ Hb).
  destruct (double_entries_ok capacity_fuel (tb_size t) 4 29) as (c & Ec & Hc1 & Hc2); [lia|lia|lia|lia|unfold capacity_fuel; lia|].
  set (t1 := if c <? entry_capacity t then set_entry_capacity c (copy_rows (entry_count t) (tb_entries t) (raw_rows raw c)) t else t).
  assert (base_ok h t1 /\ same_rows t t1) as [Hb1 Hs1].
  { unfold t1. destruct (Z.ltb_spec c (entry_capacity t)); [|split; [done|apply table_rows_refl]].
    assert (same_rows t (set_entry_capacity c (copy_rows (entry_count t) (tb_entries t) (raw_rows raw c)) t)) as Hs.
    { split; [|by repeat split]. apply used_copied; [done|lia|lia]. }
    split; [|done]. eapply base_ok_same; [exact Hs|done| |cbn; lia|cbn; lia]. cbn.
    rewrite copy_rows_len; [apply raw_rows_len; lia|lia|rewrite raw_rows_len; lia]. }
  assert (exists s, double_slots capacity_fuel (if tb_size t1 <=? MAL_TABLE_SMALL_MIN_CAPACITY then 0 else MAL_HASH_GROUP_WIDTH) (tb_size t1) = Ret s /\
    (s = 0 /\ tb_size t <= 4 \/ capacity_ok s /\ mal_hash_index_fits (tb_size t) s = true)) as (s & Es & Hslots).
  { replace (tb_size t1) with (tb_size t) by (by destruct Hs1 as (_ & _ & -> & _)). unfold MAL_TABLE_SMALL_MIN_CAPACITY.
    destruct (Z.leb_spec (tb_size t) 4); [exists 0; split; [done|by left]|].
    destruct (double_slots_ok capacity_fuel (tb_size t) 0) as (s & Es & Hs); [lia|lia|unfold capacity_fuel; lia|].
    exists s. split; [exact Es|by right]. }
  destruct Hs1 as (Eu & Ecn & Esz & Etb & Epn & Eep).
  destruct (table_rehash_ok MASK_SHIFT Hshift raw t1 h s) as (sl & ct & h' & Er & Hg & Hix).
  { by eapply base_entries. } { apply (bo_heap _ _ Hb). } { apply (bo_rows _ _ Hb1). }
  { destruct Hslots as [[-> _]|[Hc Hfit]]; [by left|right]. split; [done|]. by rewrite <- (bo_size _ _ Hb1), Esz. }
  exists c, s, (set_slots sl ct s 0 t1), h'. split; [exact Ec|]. split; [done|]. split; [done|]. split; [|by repeat split].
  eapply rebuilt_ok; [done|done|done| |].
  - intros ->. rewrite Ecn. destruct Hslots as [[_ ?]|[Hc _]]; [lia|]. pose proof (capacity_bound _ Hc). lia.
  - intros Hs. rewrite Esz. destruct Hslots as [[-> _]|[_ ?]]; done.
Qed.

(** Compaction leaves the live rows, in order, unless the table is pinned. *)
Lemma table_compact_ok t w :
  table_ok (tw_strings w) t -> entry_count t < TABLE_ROOM -> owns (tw_sidecars w) (used_rows t) ->
  exists t' w', mal_table_compact MASK_SHIFT raw t w = Ret (t', w') /\ table_ok (tw_strings w') t' /\
    hash_grows (tw_strings w) (tw_strings w') /\ tw_barriers w' = tw_barriers w /\ iterator_pins t' = iterator_pins t /\
    used_rows t' = (if iterator_pins t =? 0 then live_rows (used_rows t) else used_rows t) /\
    cleaned (tw_sidecars w) (tw_sidecars w') (used_rows t') /\ entry_count t' <= entry_count t /\
    handle_epoch t' = (if (iterator_pins t =? 0) && negb (tombstone_count t =? 0) then next_epoch (handle_epoch t) else handle_epoch t).
Proof using Hshift.
  intros Hok Hroom Ho. pose proof (table_base _ _ Hok) as Hb. pose proof (used_len _ _ Hok) as Hu. pose proof (ok_tombs _ _ Hok) as Htb.
  pose proof (hash_grows_refl _ (ok_heap _ _ Hok)) as Hrefl. unfold mal_table_compact.
  destruct (Z.eqb_spec (iterator_pins t) 0) as [Ep|]; cbn [negb orb andb].
  2: { exists t, w. split; [done|]. do 5 (split; [done|]). split; [by apply owns_cleaned|]. split; [lia|done]. }
  destruct (Z.eqb_spec (tombstone_count t) 0) as [Et|Et].
  { exists t, w. destruct (all_live (used_rows t)) as [El Ed].
    { unfold live_count. rewrite <- (ok_size _ _ Hok), Hu. lia. }
    rewrite El. split; [done|]. do 5 (split; [done|]). split; [by apply owns_cleaned|]. split; [lia|done]. }
  assert (Z.to_nat (entry_count t) = length (used_rows t)) as -> by (unfold arr_len in Hu; lia).
  destruct (compact_rows_ok (used_rows t) [] t w 0 0) as (l & -> & Hl & Htk); try done.
  { pose proof (base_entries _ _ Hb) as [_ ?]. lia. }
  { intros k e Hk. destruct (used_inv _ t Hok _ _ Hk) as [_ ->]. by rewrite Z.add_0_l. } { by apply owns_freeable. }
  cbn [mbind outcome_bind]. set (w1 := set_tw_sidecars _ w). rewrite app_nil_l in *.
  set (n := live_count (used_rows t)). pose proof (owns_compacted _ _ Ho) as Hcl.
  assert (n = tb_size t) as En by (symmetry; apply (ok_size _ _ Hok)). pose proof (size_range _ t Hok) as Hsz.
  set (t2 := set_handle_epoch (next_epoch (handle_epoch t)) (set_counts (tb_size t) 0 n (set_entries l t))).
  assert (used_rows t2 = live_rows (used_rows t)) as Eu2 by exact Htk.
  assert (base_ok (tw_strings w) t2) as Hb2.
  { destruct Hb as [B1 B2 B3 B4 B5 B6 B7 B8 B9 B10]. split; rewrite ?Eu2; cbn; try done.
    - by rewrite Hl.
    - lia.
    - apply Forall_forall. intros e [_ He]%live_rows_elem. by eapply Forall_forall in B5.
    - by apply row_names_live.
    - by rewrite live_rows_idemp.
    - lia.
    - apply next_epoch_range. }
  change (set_handle_epoch _ _) with t2. cbv zeta. change (tb_size t2) with (tb_size t).
  destruct (Z.eqb_spec (tb_size t) 0) as [E0|Hne].
  - eexists _, w1. split; [done|]. assert (live_rows (used_rows t) = []) as Enil.
    { unfold n, live_count, arr_len in En. destruct (live_rows (used_rows t)); [done|cbn in En; lia]. }
    set (t3 := set_entry_capacity 0 [] (set_slots [] [] 0 0 t2)). assert (used_rows t3 = []) as Eu3 by (unfold used_rows; apply take_nil).
    split.
    { destruct Hb2 as [B1 B2 B3 B4 B5 B6 B7 B8 B9 B10]. apply base_table.
      - split; rewrite ?Eu3; cbn in *; try done; [lia|by left].
      - unfold index_part. cbn. split; [lia|done]. }
    split; [done|]. split; [done|]. split; [done|]. rewrite Eu3, Enil. split; [done|]. split; [by rewrite Enil in Hcl|].
    split; [cbn; lia|done].
  - destruct (shrink_ok (tw_strings w) t2 Hb2) as (c & s & t' & h' & E1 & (E2 & E3) & Hg & Hok' & (S1 & S2 & S3 & S4 & S5 & S6));
      [done|cbn; lia|done|].
    change (tb_size t2) with (tb_size t) in E1. rewrite E1. cbn [mbind outcome_bind].
    change (tb_size t) with (tb_size t2). cbv zeta in E2. rewrite E2. cbn [mbind outcome_bind].
    change (tw_strings w1) with (tw_strings w). rewrite E3. cbn [mbind outcome_bind].
    exists t', (set_tw_strings h' w1). split; [done|]. split; [done|]. split; [done|]. split; [done|].
    rewrite S5, S1, S6, S2, Eu2. split; [done|]. split; [done|]. split; [done|]. split; [cbn; lia|done].
Qed.
End compact.

Definition kill_if (P : MalTableEntry -> bool) (rows : list MalTableEntry) : list MalTableEntry :=
  map (fun e => if P e then kill_row e else e) rows.
Definition shade_rows (P : MalTableEntry -> bool) (rows : list MalTableEntry) (w : TableWorld) : TableWorld :=
  fold_left (fun w e => if P e then shade_row e w else w) rows w.
Definition selected (P : MalTableEntry -> bool) (rows : list MalTableEntry) : list MalTableEntry :=
  filter (fun e => P e = true) rows.

Lemma selected_cons P e rows : selected P (e :: rows) = (if P e then [e] else []) ++ selected P rows.
Proof. unfold selected. rewrite filter_cons. by destruct (P e); case_decide. Qed.

Lemma shade_rows_cons P e rows w : shade_rows P (e :: rows) w = shade_rows P rows (if P e then shade_row e w else w).
Proof. done. Qed.

(** Barriers see only the trace. *)
Lemma shade_rows_world P rows : forall w,
  tw_strings (shade_rows P rows w) = tw_strings w /\ tw_sidecars (shade_rows P rows w) = tw_sidecars w.
Proof.
  induction rows as [|e rows IH]; intros w; [done|]. rewrite ?shade_rows_cons.
  destruct (IH (if P e then shade_row e w else w)) as [-> ->]. destruct (P e); [|done].
  by destruct (shade_row_world e w) as (-> & -> & _).
Qed.
(** The trace depends only on the trace. *)
Lemma shade_rows_barriers P rows : forall w w',
  tw_barriers w = tw_barriers w' -> tw_barriers (shade_rows P rows w) = tw_barriers (shade_rows P rows w').
Proof.
  induction rows as [|e rows IH]; intros w w' E; [done|]. rewrite ?shade_rows_cons.
  apply IH. destruct (P e); [|done]. destruct (shade_row_world e w) as (_ & _ & ->), (shade_row_world e w') as (_ & _ & ->).
  by rewrite E.
Qed.

Section kill.
Variable P : MalTableEntry -> bool.
Hypothesis HP : forall e, P e = true -> mal_table_row_live e = true.
Variable h : StringHeap.

Lemma kill_if_rows rows : Forall (row_ok h) rows -> Forall (row_ok h) (kill_if P rows).
Proof using Type.
  intros Hr. apply Forall_map. eapply Forall_impl; [exact Hr|]. intros e He. destruct (P e); [|done]. by apply kill_row_spec.
Qed.
Lemma kill_if_owned rows : Forall (row_ok h) rows -> owned_data (kill_if P rows) = owned_data rows.
Proof using Type.
  induction 1 as [|e rows He _ IH]; [done|]. cbn [kill_if map]. fold (kill_if P rows). rewrite !owned_data_cons, IH.
  destruct (P e); [|done]. destruct (kill_row_spec h e He) as (_ & _ & -> & ->). done.
Qed.
Lemma kill_if_live rows :
  Forall (row_ok h) rows -> live_rows (kill_if P rows) = filter (fun e => P e = false) (live_rows rows).
Proof using Type.
  induction 1 as [|e rows He _ IH]; [done|]. cbn [kill_if map]. fold (kill_if P rows). rewrite !live_rows_cons, filter_app, IH. f_equal.
  destruct (P e) eqn:Ep.
  - destruct (kill_row_spec h e He) as (_ & -> & _). destruct (mal_table_row_live e); [|done].
    by rewrite filter_cons, decide_False by congruence.
  - destruct (mal_table_row_live e); [|done]. by rewrite filter_cons, decide_True.
Qed.
Lemma kill_if_count rows :
  Forall (row_ok h) rows -> live_count (kill_if P rows) = live_count rows - arr_len (selected P rows).
Proof using HP.
  induction 1 as [|e rows He _ IH]; [done|]. cbn [kill_if map]. fold (kill_if P rows).
  rewrite !live_count_cons, selected_cons, arr_len_app, IH. destruct (P e) eqn:Ep.
  - destruct (kill_row_spec h e He) as (_ & -> & _). rewrite (HP e Ep). change (arr_len [e]) with 1. cbn [Z.b2z]. lia.
  - change (arr_len []) with 0. lia.
Qed.
Lemma kill_if_elem rows x :
  Forall (row_ok h) rows -> x ∈ kill_if P rows -> mal_table_row_live x = true -> x ∈ rows.
Proof using Type.
  intros Hr Hx Hl. apply list_elem_of_fmap in Hx as (e & -> & He). destruct (P e); [|done].
  rewrite Forall_forall in Hr. destruct (kill_row_spec h e (Hr e He)) as (_ & Hd & _). congruence.
Qed.
Lemma kill_if_names rows : Forall (row_ok h) rows -> names_distinct h rows -> names_distinct h (kill_if P rows).
Proof using Type.
  induction 1 as [|e rows He Hr IH]; [done|]. intros [Hd Hn]%names_cons. cbn [kill_if map]. fold (kill_if P rows).
  apply names_cons. split; [by apply IH|]. intros Hl e' He' Hl'. pose proof (kill_if_elem rows e' Hr He' Hl') as Hin.
  destruct (P e) eqn:Ep; [|by apply Hn]. destruct (kill_row_spec h e He) as (_ & Hdead & _). congruence.
Qed.
Lemma kill_if_length rows : arr_len (kill_if P rows) = arr_len rows.
Proof using Type. unfold kill_if, arr_len. by rewrite length_map. Qed.
Lemma kill_if_owns m rows : Forall (row_ok h) rows -> owns m rows -> owns m (kill_if P rows).
Proof using Type. intros Hr. unfold owns. by rewrite kill_if_owned. Qed.

(** The table with the selected rows dead, before its index is mended. *)
Lemma kill_if_base t sz tombs l :
  base_ok h t -> arr_len l = arr_len (tb_entries t) -> take (Z.to_nat (entry_count t)) l = kill_if P (used_rows t) ->
  sz = tb_size t - arr_len (selected P (used_rows t)) -> tombs = tombstone_count t + arr_len (selected P (used_rows t)) ->
  base_ok h (set_counts sz tombs (entry_count t) (set_entries l t)).
Proof using HP.
  intros [B1 B2 B3 B4 B5 B6 B7 B8 B9 B10] Hl Ht -> ->.
  assert (used_rows (set_counts (tb_size t - arr_len (selected P (used_rows t)))
    (tombstone_count t + arr_len (selected P (used_rows t))) (entry_count t) (set_entries l t)) = kill_if P (used_rows t)) as Eu by exact Ht.
  split; rewrite ?Eu; cbn; try done.
  - by rewrite Hl.
  - by apply kill_if_rows.
  - by apply kill_if_names.
  - fold (live_count (kill_if P (used_rows t))). rewrite kill_if_count by done. unfold live_count. lia.
  - lia.
Qed.
End kill.

(** One step of a loop that kills row by row. *)
Lemma insert_middle {A} (pre : list A) e x post i :
  i = arr_len pre -> <[Z.to_nat i := x]> (pre ++ e :: post) = pre ++ x :: post.
Proof.
  intros ->. unfold arr_len. rewrite Nat2Z.id. rewrite insert_app_r_alt by lia. by rewrite Nat.sub_diag.
Qed.
Lemma entry_middle t pre e post :
  entries_fit t -> used_rows t = pre ++ e :: post -> entry_at t (arr_len pre) = e.
Proof.
  intros Hf Eu. pose proof (used_length t Hf) as Hu. rewrite Eu, arr_len_app in Hu. unfold arr_len in Hu. cbn [length] in Hu.
  pose proof (used_at t (arr_len pre) Hf ltac:(unfold arr_len; lia)) as Ha.
  rewrite Eu in Ha. unfold arr_len in *. rewrite Nat2Z.id, list_lookup_middle in Ha by done. by injection Ha as <-.
Qed.
Lemma used_middle t pre e post x :
  entries_fit t -> used_rows t = pre ++ e :: post -> used_rows (set_entry (arr_len pre) x t) = pre ++ x :: post.
Proof.
  intros Hf Eu. pose proof (used_length t Hf) as Hu. rewrite Eu, arr_len_app in Hu. unfold arr_len in Hu. cbn [length] in Hu.
  rewrite used_set by (done || (unfold arr_len; lia)). rewrite Eu. by apply insert_middle.
Qed.

Section loops.
Variable keep : Z -> bool.

(** The loop of the dense filter. *)
Lemma retain_dense_ok rows : forall pre t w,
  entries_fit t -> used_rows t = pre ++ rows ->
  exists l, retain_dense keep (length rows) t w (arr_len pre) = (set_entries l t, shade_rows (rejected_row keep) rows w) /\
    arr_len l = arr_len (tb_entries t) /\ take (Z.to_nat (entry_count t)) l = pre ++ kill_if (rejected_row keep) rows.
Proof using Type.
  induction rows as [|e rows IH]; intros pre t w Hf Eu; cbn [retain_dense length].
  - exists (tb_entries t). cbn. split; [by destruct t|]. split; [done|]. rewrite <- Eu. done.
  - pose proof (entry_middle t pre e rows Hf Eu) as Ee. rewrite Ee.
    replace (arr_len pre + 1) with (arr_len (pre ++ [if rejected_row keep e then kill_row e else e])) by (rewrite arr_len_app; done).
    replace (pre ++ kill_if (rejected_row keep) (e :: rows))
      with ((pre ++ [if rejected_row keep e then kill_row e else e]) ++ kill_if (rejected_row keep) rows) by (by rewrite <- app_assoc).
    rewrite ?shade_rows_cons.
    destruct (rejected_row keep e) eqn:Er.
    + destruct (IH (pre ++ [kill_row e]) (set_entry (arr_len pre) (kill_row e) t) (shade_row e w)) as (l & E & Hl & Ht).
      { unfold entries_fit, set_entry in *. cbn. by rewrite arr_len_set. }
      { rewrite (used_middle t pre e rows) by done. by rewrite <- app_assoc. }
      exists l. split; [exact E|]. cbn in Hl. rewrite arr_len_set in Hl. split; [exact Hl|exact Ht].
    + apply IH; [done|]. by rewrite Eu, <- app_assoc.
Qed.

(** The loop of the clear. *)
Lemma clear_rows_ok rows : forall pre t w,
  entries_fit t -> used_rows t = pre ++ rows ->
  exists l, clear_rows (length rows) t w (arr_len pre)
    = (set_counts (tb_size t) (tombstone_count t + live_count rows) (entry_count t) (set_entries l t), shade_rows mal_table_row_live rows w) /\
    arr_len l = arr_len (tb_entries t) /\ take (Z.to_nat (entry_count t)) l = pre ++ kill_if mal_table_row_live rows.
Proof using Type.
  induction rows as [|e rows IH]; intros pre t w Hf Eu; cbn [clear_rows length].
  - exists (tb_entries t). change (live_count []) with 0. rewrite Z.add_0_r. cbn. split; [by destruct t|]. split; [done|]. rewrite <- Eu. done.
  - pose proof (entry_middle t pre e rows Hf Eu) as Ee. rewrite Ee.
    replace (arr_len pre + 1) with (arr_len (pre ++ [if mal_table_row_live e then kill_row e else e])) by (rewrite arr_len_app; done).
    replace (pre ++ kill_if mal_table_row_live (e :: rows))
      with ((pre ++ [if mal_table_row_live e then kill_row e else e]) ++ kill_if mal_table_row_live rows) by (by rewrite <- app_assoc).
    rewrite ?shade_rows_cons. rewrite live_count_cons.
    destruct (mal_table_row_live e) eqn:Er; cbn [Z.b2z].
    + set (t1 := set_counts (tb_size t) (tombstone_count t + 1) (entry_count t) (set_entry (arr_len pre) (kill_row e) t)).
      destruct (IH (pre ++ [kill_row e]) t1 (shade_row e w)) as (l & E & Hl & Ht).
      { unfold entries_fit, set_entry in *. cbn. by rewrite arr_len_set. }
      { change (used_rows t1) with (used_rows (set_entry (arr_len pre) (kill_row e) t)).
        rewrite (used_middle t pre e rows) by done. by rewrite <- app_assoc. }
      exists l. cbn in Hl. rewrite arr_len_set in Hl. split; [|split; [exact Hl|exact Ht]]. rewrite Z.add_assoc. exact E.
    + apply IH; [done|]. by rewrite Eu, <- app_assoc.
Qed.

(** The first pass: how many rows go, and the first sixteen of their keys. *)
Lemma retain_count_ok rows : forall rejected removed,
  0 <= removed ->
  retain_count keep rows rejected removed
  = (rejected ++ take (Z.to_nat (REJECTED - removed))
       (map (fun e => mal_table_key_value (te_key e)) (selected (rejected_row keep) rows)),
     removed + arr_len (selected (rejected_row keep) rows)).
Proof using Type.
  induction rows as [|e rows IH]; intros rejected removed Hr; cbn [retain_count].
  - change (selected _ []) with (@nil MalTableEntry). cbn [map]. rewrite take_nil, app_nil_r. change (arr_len []) with 0. f_equal. lia.
  - rewrite selected_cons. destruct (rejected_row keep e); cbn [app]; [|by apply IH].
    rewrite IH by lia. f_equal; [|unfold arr_len; cbn [length]; lia]. cbn [map].
    destruct (Z.ltb_spec removed REJECTED).
    + rewrite <- app_assoc. f_equal. replace (Z.to_nat (REJECTED - removed)) with (S (Z.to_nat (REJECTED - (removed + 1)))) by lia. done.
    + replace (Z.to_nat (REJECTED - removed)) with 0%nat by lia. replace (Z.to_nat (REJECTED - (removed + 1))) with 0%nat by lia. done.
Qed.
End loops.

(** * The operations *)

(** Rows keep their numbers: a row that is live was live, under the same identity. *)
Definition rows_stable (rows rows' : list MalTableEntry) : Prop :=
  (length rows <= length rows')%nat /\
  forall k e', rows' !! k = Some e' -> mal_table_row_live e' = true -> (k < length rows)%nat ->
    exists e, rows !! k = Some e /\ mal_table_row_live e = true /\ ident e = ident e'.
(** Handles survive an operation, or their generation does not. *)
Definition handles_kept (t t' : MalTable) : Prop :=
  handle_epoch t' = next_epoch (handle_epoch t) \/
  (handle_epoch t' = handle_epoch t /\ rows_stable (used_rows t) (used_rows t')).

Lemma rows_stable_refl rows : rows_stable rows rows.
Proof. split; [done|]. eauto. Qed.
Lemma kill_if_stable h P rows : Forall (row_ok h) rows -> rows_stable rows (kill_if P rows).
Proof.
  intros Hr. split; [unfold kill_if; by rewrite length_map|]. intros k e' Hk Hl _. unfold kill_if in Hk.
  rewrite list_lookup_fmap in Hk. destruct (rows !! k) as [e|] eqn:Ek; [|done]. cbn in Hk. injection Hk as <-.
  destruct (P e); [|by exists e]. destruct (kill_row_spec h e) as (_ & Hd & _); [by eapply Forall_lookup_1|congruence].
Qed.
Lemma next_epoch_ne e : 1 <= e < 2 ^ 64 -> next_epoch e <> e.
Proof.
  intros He. unfold next_epoch. destruct (decide (e = 2 ^ 64 - 1)) as [->|]; [by vm_compute|].
  unfold u64. rewrite wrap_small by (unfold in_u; lia). destruct (Z.eqb_spec (e + 1) 0); lia.
Qed.

Section filter.
Variable MASK_SHIFT : Z.
Hypothesis Hshift : 0 <= MASK_SHIFT.
Variable raw : Z -> Z.

(** The key of a live row names it, decoded or through its value word. *)
Lemma key_of_row h e :
  row_ok h e -> mal_table_row_live e = true ->
  key_name h (mal_table_decode_key (te_key e)) = Some (row_name h e) /\
  key_name h (mal_key_from_value (mal_table_key_value (te_key e))) = Some (row_name h e).
Proof using Type.
  intros Hr Hl. destruct (row_ok_live h e Hr Hl) as (flags & owned & Hw & Ee & Hi & _).
  assert (te_key e = word (ident e) flags owned (fp_of (name_hash (row_name h e)))) as Ek by (by rewrite Ee at 1).
  rewrite Ek, decode_word, key_value_word by done. destruct (decode_encode (ident e) Hi) as [E1 E2].
  assert (forall key, mal_table_encode_key key = Ret (ident e) -> key_name h key = Some (row_name h e)) as Hn.
  { intros key E. rewrite encode_key_spec in E. pose proof (key_ident_ok h key) as Hk. destruct (key_ident key); [|done].
    injection E as ->. apply Hk. }
  split; by apply Hn.
Qed.

Lemma delete_row_ok t w pre e post key :
  table_ok (tw_strings w) t -> used_rows t = pre ++ e :: post -> mal_table_row_live e = true ->
  key_name (tw_strings w) key = Some (row_name (tw_strings w) e) ->
  exists t' w', mal_table_delete MASK_SHIFT t w key = Ret (true, t', w') /\ table_ok (tw_strings w') t' /\
    used_rows t' = pre ++ kill_row e :: post /\ deleted_world e w w' /\
    entry_count t' = entry_count t /\ iterator_pins t' = iterator_pins t /\ handle_epoch t' = handle_epoch t.
Proof using Hshift.
  intros Hok Eu Hl Hk. assert (used_rows t !! length pre = Some e) as He by (rewrite Eu; by apply list_lookup_middle).
  destruct (table_delete_ok MASK_SHIFT Hshift t w key _ Hok Hk) as (b & t' & w' & E & Hok' & Ec & Ep & Ee & Hd).
  rewrite (position_unique _ _ _ (length pre) e (ok_names _ _ Hok) He) in Hd by done.
  destruct Hd as (-> & e0 & He0 & Eu' & Hdw). simplify_eq. exists t', w'. do 2 (split; [done|]).
  split; [|by split]. rewrite Eu', Eu. rewrite <- (Nat2Z.id (length pre)) at 1. by apply insert_middle.
Qed.

Section sparse.
Variable keep : Z -> bool.
Let P := rejected_row keep.

Lemma rejected_live e : P e = true -> mal_table_row_live e = true.
Proof using Type. unfold P, rejected_row. by destruct (mal_table_row_live e). Qed.

(** What a filter that deletes key by key leaves. *)
Definition filtered (t : MalTable) (w : TableWorld) (pre rows : list MalTableEntry) (t' : MalTable) (w' : TableWorld) : Prop :=
  table_ok (tw_strings w') t' /\ used_rows t' = pre ++ kill_if P rows /\ hash_grows (tw_strings w) (tw_strings w') /\
  tw_sidecars w' = tw_sidecars w /\ tw_barriers w' = tw_barriers (shade_rows P rows w) /\
  entry_count t' = entry_count t /\ iterator_pins t' = iterator_pins t /\ handle_epoch t' = handle_epoch t.

Lemma filtered_step t w pre e rows t1 w1 t' w' :
  P e = true -> deleted_world e w w1 -> entry_count t1 = entry_count t -> iterator_pins t1 = iterator_pins t ->
  handle_epoch t1 = handle_epoch t -> filtered t1 w1 (pre ++ [kill_row e]) rows t' w' -> filtered t w pre (e :: rows) t' w'.
Proof using Type.
  intros HP (G & S & B) E1 E2 E3 (F1 & F2 & F3 & F4 & F5 & F6 & F7 & F8). split; [done|].
  split; [rewrite F2, <- app_assoc; cbn; by rewrite HP|]. split; [by eapply hash_grows_trans|]. split; [congruence|].
  split; [rewrite F5, shade_rows_cons, HP; by apply shade_rows_barriers|]. split_and!; congruence.
Qed.
Lemma filtered_skip t w pre e rows t' w' :
  P e = false -> filtered t w (pre ++ [e]) rows t' w' -> filtered t w pre (e :: rows) t' w'.
Proof using Type.
  intros HP (F1 & F2 & F3 & F4 & F5 & F6). split; [done|]. split; [rewrite F2, <- app_assoc; cbn; by rewrite HP|].
  split; [done|]. split; [done|]. split; [by rewrite F5, shade_rows_cons, HP|done].
Qed.
Lemma filtered_nil t w pre : table_ok (tw_strings w) t -> used_rows t = pre ++ [] -> filtered t w pre [] t w.
Proof using Type. intros Hok Eu. split; [done|]. split; [done|]. split; [apply hash_grows_refl, (ok_heap _ _ Hok)|done]. Qed.

Lemma retain_listed_ok rows : forall pre t w,
  table_ok (tw_strings w) t -> used_rows t = pre ++ rows ->
  exists t' w', retain_listed MASK_SHIFT (map (fun e => mal_table_key_value (te_key e)) (selected P rows)) t w = Ret (t', w') /\
    filtered t w pre rows t' w'.
Proof using Hshift.
  induction rows as [|e rows IH]; intros pre t w Hok Eu.
  { exists t, w. split; [done|by apply filtered_nil]. }
  rewrite selected_cons. destruct (P e) eqn:HP; cbn [app].
  - cbn [map retain_listed]. pose proof (rejected_live e HP) as Hl.
    assert (row_ok (tw_strings w) e) as Hr by (eapply Forall_lookup_1; [apply (ok_rows _ _ Hok)|rewrite Eu; by apply list_lookup_middle]).
    destruct (delete_row_ok t w pre e rows _ Hok Eu Hl (proj2 (key_of_row _ e Hr Hl))) as (t1 & w1 & -> & Hok1 & Eu1 & Hdw & E1 & E2 & E3).
    cbn [mbind outcome_bind]. destruct (IH (pre ++ [kill_row e]) t1 w1 Hok1) as (t' & w' & E & Hf); [by rewrite Eu1, <- app_assoc|].
    exists t', w'. split; [exact E|]. by eapply filtered_step.
  - destruct (IH (pre ++ [e]) t w Hok) as (t' & w' & E & Hf); [by rewrite Eu, <- app_assoc|].
    exists t', w'. split; [exact E|]. by apply filtered_skip.
Qed.

Lemma retain_scan_ok rows : forall pre t w,
  table_ok (tw_strings w) t -> used_rows t = pre ++ rows ->
  exists t' w', retain_scan MASK_SHIFT keep (length rows) t w (arr_len pre) = Ret (t', w') /\ filtered t w pre rows t' w'.
Proof using Hshift.
  induction rows as [|e rows IH]; intros pre t w Hok Eu; cbn [retain_scan length].
  { exists t, w. split; [done|by apply filtered_nil]. }
  rewrite (entry_middle t pre e rows (base_entries _ _ (table_base _ _ Hok)) Eu). fold P.
  assert (forall x, arr_len pre + 1 = arr_len (pre ++ [x])) as El by (intros x; rewrite arr_len_app; done).
  destruct (P e) eqn:HP.
  - pose proof (rejected_live e HP) as Hl.
    assert (row_ok (tw_strings w) e) as Hr by (eapply Forall_lookup_1; [apply (ok_rows _ _ Hok)|rewrite Eu; by apply list_lookup_middle]).
    destruct (delete_row_ok t w pre e rows _ Hok Eu Hl (proj1 (key_of_row _ e Hr Hl))) as (t1 & w1 & -> & Hok1 & Eu1 & Hdw & E1 & E2 & E3).
    cbn [mbind outcome_bind]. destruct (IH (pre ++ [kill_row e]) t1 w1 Hok1) as (t' & w' & E & Hf); [by rewrite Eu1, <- app_assoc|].
    exists t', w'. rewrite (El (kill_row e)). split; [exact E|]. by eapply filtered_step.
  - destruct (IH (pre ++ [e]) t w Hok) as (t' & w' & E & Hf); [by rewrite Eu, <- app_assoc|].
    exists t', w'. rewrite (El e). split; [exact E|]. by apply filtered_skip.
Qed.
End sparse.
End filter.

Lemma selected_live rows : selected mal_table_row_live rows = live_rows rows.
Proof. done. Qed.
Lemma kill_if_none P rows : selected P rows = [] -> kill_if P rows = rows.
Proof.
  induction rows as [|e rows IH]; [done|]. rewrite selected_cons. cbn [kill_if map]. fold (kill_if P rows).
  destruct (P e); [done|]. intros E. by rewrite IH.
Qed.
(** A test that selects as many rows as are live selects them all. *)
Lemma selected_all P rows :
  (forall e, P e = true -> mal_table_row_live e = true) -> arr_len (selected P rows) = live_count rows ->
  kill_if P rows = kill_if mal_table_row_live rows /\ forall w, shade_rows P rows w = shade_rows mal_table_row_live rows w.
Proof.
  intros HP. assert (forall l, arr_len (selected P l) <= live_count l) as Hle.
  { induction l as [|e l IH]; [done|]. rewrite selected_cons, live_count_cons, arr_len_app.
    destruct (P e) eqn:E; [rewrite (HP e E)|destruct (mal_table_row_live e)]; unfold arr_len in *; cbn [length Z.b2z]; lia. }
  induction rows as [|e rows IH]; [done|]. rewrite selected_cons, live_count_cons, arr_len_app. intros E.
  specialize (Hle rows). cbn [kill_if map]. fold (kill_if P rows) (kill_if mal_table_row_live rows).
  assert (P e = mal_table_row_live e /\ arr_len (selected P rows) = live_count rows) as [Ee El].
  { destruct (P e) eqn:Ep; [rewrite (HP e Ep) in *; split; [done|]|destruct (mal_table_row_live e)]; unfold arr_len in *;
      cbn [length Z.b2z] in E; [lia|lia|split; [done|lia]]. }
  destruct (IH El) as [-> Hw]. rewrite Ee. split; [done|]. intros w. by rewrite !shade_rows_cons, Ee, Hw.
Qed.

Section clear.
Variable MASK_SHIFT : Z.
Hypothesis Hshift : 0 <= MASK_SHIFT.
Variable raw : Z -> Z.

(** What an operation that may compact promises of the rest. *)
Definition swept (t : MalTable) (w : TableWorld) (t' : MalTable) (w' : TableWorld) : Prop :=
  table_ok (tw_strings w') t' /\ hash_grows (tw_strings w) (tw_strings w') /\ iterator_pins t' = iterator_pins t /\
  entry_count t' <= entry_count t /\ cleaned (tw_sidecars w) (tw_sidecars w') (used_rows t') /\ handles_kept t t'.

Lemma swept_refl t w : table_ok (tw_strings w) t -> owns (tw_sidecars w) (used_rows t) -> swept t w t w.
Proof using Type.
  intros Hok Ho. split; [done|]. split; [apply hash_grows_refl, (ok_heap _ _ Hok)|]. split; [done|]. split; [lia|].
  split; [by apply owns_cleaned|]. right. split; [done|apply rows_stable_refl].
Qed.

Lemma compact_swept t w :
  table_ok (tw_strings w) t -> entry_count t < TABLE_ROOM -> owns (tw_sidecars w) (used_rows t) ->
  exists t' w', mal_table_compact MASK_SHIFT raw t w = Ret (t', w') /\ swept t w t' w' /\ tw_barriers w' = tw_barriers w /\
    used_rows t' = (if iterator_pins t =? 0 then live_rows (used_rows t) else used_rows t) /\
    (iterator_pins t = 0 -> tombstone_count t <> 0 -> handle_epoch t' = next_epoch (handle_epoch t)).
Proof using Hshift.
  intros Hok Hroom Ho.
  destruct (table_compact_ok MASK_SHIFT Hshift raw t w Hok Hroom Ho) as (t' & w' & E & Hok' & Hg & Eb & Ep & Eu & Hcl & Hc & Ee).
  exists t', w'. split; [done|]. split; [|split; [done|split; [done|]]].
  - do 5 (split; [done|]). unfold handles_kept. rewrite Ee.
    destruct (Z.eqb_spec (iterator_pins t) 0); cbn [andb] in *; [|right; split; [done|rewrite Eu; apply rows_stable_refl]].
    destruct (Z.eqb_spec (tombstone_count t) 0) as [E0|]; cbn [negb]; [|by left]. right. split; [done|].
    rewrite Eu. destruct (all_live (used_rows t)) as [-> _]; [|apply rows_stable_refl].
    unfold live_count. rewrite <- (ok_size _ _ Hok), (used_len _ _ Hok). pose proof (ok_tombs _ _ Hok). lia.
  - intros E1 E2. rewrite Ee. rewrite E1. destruct (Z.eqb_spec (tombstone_count t) 0); done.
Qed.

Lemma table_clear_ok t w :
  table_ok (tw_strings w) t -> entry_count t < TABLE_ROOM -> owns (tw_sidecars w) (used_rows t) ->
  exists t' w', mal_table_clear MASK_SHIFT raw t w = Ret (t', w') /\ swept t w t' w' /\
    tw_barriers w' = tw_barriers (shade_rows mal_table_row_live (used_rows t) w) /\
    used_rows t' = (if iterator_pins t =? 0 then [] else kill_if mal_table_row_live (used_rows t)).
Proof using Hshift.
  intros Hok Hroom Ho. pose proof (used_len _ _ Hok) as Hu. unfold mal_table_clear. set (h := tw_strings w) in *.
  pose proof (ok_rows _ _ Hok) as Hr. pose proof (table_base _ _ Hok) as Hb.
  assert (forall rows, live_rows rows = [] -> kill_if mal_table_row_live rows = rows /\ shade_rows mal_table_row_live rows w = w) as Hnone.
  { intros rows E. split; [by apply kill_if_none|]. clear -E. induction rows as [|e rows IH]; [done|]. rewrite live_rows_cons in E.
    rewrite shade_rows_cons. destruct (mal_table_row_live e); [done|]. by apply IH. }
  destruct (Z.eqb_spec (tb_size t) 0) as [E0|Hne].
  { assert (live_rows (used_rows t) = []) as Enil.
    { rewrite (ok_size _ _ Hok) in E0. unfold arr_len in E0. destruct (live_rows (used_rows t)); [done|cbn in E0; lia]. }
    destruct (Hnone _ Enil) as [Ek Es]. rewrite Ek, Es. destruct (Z.eqb_spec (iterator_pins t) 0) as [Ep|]; cbn [andb].
    - destruct (Z.eqb_spec (tombstone_count t) 0) as [Et|]; cbn [negb].
      + exists t, w. split; [done|]. split; [by apply swept_refl|]. split; [done|]. pose proof (ok_tombs _ _ Hok).
        unfold arr_len in Hu. destruct (used_rows t); [done|cbn in Hu; lia].
      + destruct (compact_swept t w Hok Hroom Ho) as (t' & w' & E & Hs & Eb & Eu & _). exists t', w'. rewrite Ep in Eu. cbn in Eu.
        rewrite Eu. done.
    - exists t, w. split; [done|]. split; [by apply swept_refl|done]. }
  assert (Z.to_nat (entry_count t) = length (used_rows t)) as -> by (unfold arr_len in Hu; lia).
  destruct (clear_rows_ok (used_rows t) [] t w (base_entries _ _ Hb) eq_refl) as (l & El & Hl & Htk).
  change (arr_len []) with 0 in El. rewrite El. cbv beta iota zeta.
  destruct (shade_rows_world mal_table_row_live (used_rows t) w) as [Es Ed]. set (w1 := shade_rows _ _ w) in *.
  set (t1 := set_counts 0 (tombstone_count t + live_count (used_rows t)) (entry_count t) (set_entries l t)).
  assert (base_ok h t1) as Hb1.
  { eapply kill_if_base; [done|done|done|exact Htk| |done]. rewrite selected_live, <- (ok_size _ _ Hok). lia. }
  assert (used_rows t1 = kill_if mal_table_row_live (used_rows t)) as Eu1 by exact Htk.
  match goal with |- context [iterator_pins ?x] => set (t2 := x) end.
  assert (table_ok h t2) as Hok2.
  { apply base_table; [by apply base_ok_slots|]. unfold index_part, t2. cbn.
    pose proof (ok_index _ _ Hok) as Hix. unfold index_part in Hix. destruct (Z.eqb_spec (tb_slot_capacity t) 0); cbn [negb].
    - destruct Hix as (? & -> & -> & _). done.
    - destruct Hix as [Hix Hf]. split.
      + eapply index_ok_ext; [|apply index_reset_ok; [apply (io_capacity _ _ _ _ _ _ Hix)|apply (io_slots _ _ _ _ _ _ Hix)]].
        intros i. destruct (hash_at h (used_rows _) i) as [x|] eqn:Ex; [|done].
        apply hash_at_some in Ex as (_ & e & He & Hl' & _). apply list_elem_of_lookup_2 in He.
        change (e ∈ used_rows t1) in He. rewrite Eu1 in He.
        assert (e ∈ live_rows (kill_if mal_table_row_live (used_rows t))) as Hin by (by apply live_rows_elem).
        rewrite (kill_if_live _ h) in Hin by done. apply list_elem_of_filter in Hin as [? _]. congruence.
      + apply Z.leb_le in Hf. apply Z.leb_le. pose proof (size_range _ _ Hok). pose proof (io_deleted _ _ _ _ _ _ Hix).
        pose proof (count_nonneg deleted_control (tb_controls t)). lia. }
  assert (owns (tw_sidecars w1) (used_rows t2)) as Ho2.
  { rewrite Ed. change (used_rows t2) with (used_rows t1). rewrite Eu1. by apply (kill_if_owns _ h). }
  assert (forall t' w', swept t2 w1 t' w' -> (handle_epoch t' = handle_epoch t -> used_rows t' = used_rows t2) -> swept t w t' w') as Hsw.
  { intros t' w' (S1 & S2 & S3 & S4 & S5 & S6) Hst. split; [done|]. split; [by rewrite Es in S2|]. split; [done|]. split; [done|].
    split; [by rewrite Ed in S5|]. destruct S6 as [S6|[S6 _]]; [by left|right]. split; [done|].
    rewrite Hst by done. change (used_rows t2) with (used_rows t1). rewrite Eu1. by apply (kill_if_stable h). }
  change (iterator_pins t2) with (iterator_pins t). destruct (Z.eqb_spec (iterator_pins t) 0) as [Ep|Ep].
  - destruct (compact_swept t2 w1) as (t' & w' & E & Hs & Eb & Eu & Hep); [by rewrite Es|done|done|].
    exists t', w'. split; [done|]. change (iterator_pins t2) with (iterator_pins t) in *. rewrite Ep in Eu. cbn in Eu.
    split; [|split; [done|]].
    + apply Hsw; [done|]. intros Eq. exfalso. rewrite Hep in Eq; [by apply next_epoch_ne in Eq; [|apply (ok_epoch _ _ Hok)]|done|].
      cbn. pose proof (ok_tombs _ _ Hok). pose proof (size_range _ _ Hok). unfold live_count. rewrite <- (ok_size _ _ Hok). lia.
    + rewrite Eu. change (used_rows t2) with (used_rows t1). rewrite Eu1, (kill_if_live _ h) by done.
      apply elem_of_nil_inv. intros e [He [Hl' _]%live_rows_elem]%list_elem_of_filter. congruence.
  - exists t2, w1. split; [done|]. split; [|split; [done|exact Eu1]]. apply Hsw; [|done].
    apply swept_refl; [by rewrite Es|done].
Qed.

(** * Filtering *)

Lemma retain_ok keep t w :
  table_ok (tw_strings w) t -> entry_count t < TABLE_ROOM -> owns (tw_sidecars w) (used_rows t) ->
  exists t' w', mal_table_retain MASK_SHIFT raw keep t w = Ret (arr_len (selected (rejected_row keep) (used_rows t)), t', w') /\
    swept t w t' w' /\ tw_barriers w' = tw_barriers (shade_rows (rejected_row keep) (used_rows t) w) /\
    live_rows (used_rows t') = filter (fun e => rejected_row keep e = false) (live_rows (used_rows t)).
Proof using Hshift.
  intros Hok Hroom Ho. pose proof (ok_rows _ _ Hok) as Hr. pose proof (used_len _ _ Hok) as Hu. pose proof (table_base _ _ Hok) as Hb.
  set (P := rejected_row keep). set (rows := used_rows t) in *. pose proof (rejected_live keep) as HP.
  unfold mal_table_retain. rewrite retain_count_ok by lia. cbn [app]. rewrite Z.add_0_l. fold P rows.
  set (removed := arr_len (selected P rows)). pose proof (arr_len_nonneg (selected P rows)) as Hnn. fold removed in Hnn.
  assert (forall t' w', filtered keep t w [] rows t' w' ->
    swept t w t' w' /\ tw_barriers w' = tw_barriers (shade_rows P rows w) /\
    live_rows (used_rows t') = filter (fun e => P e = false) (live_rows rows)) as Hfil.
  { intros t' w' (F1 & F2 & F3 & F4 & F5 & F6 & F7 & F8). rewrite F2. split; [|split; [done|by apply (kill_if_live _ (tw_strings w))]].
    split; [done|]. split; [done|]. split; [done|]. split; [lia|]. split.
    - rewrite F2, F4. apply owns_cleaned. by apply (kill_if_owns _ (tw_strings w)).
    - right. split; [done|]. rewrite F2. by apply (kill_if_stable (tw_strings w)). }
  destruct (Z.eqb_spec removed 0) as [E0|Hne].
  { assert (selected P rows = []) as Enil by (unfold removed, arr_len in E0; destruct (selected P rows); [done|cbn in E0; lia]).
    exists t, w. split; [by rewrite E0|]. apply Hfil. split; [done|]. cbn [app]. rewrite kill_if_none by done. split; [done|].
    split; [apply hash_grows_refl, (ok_heap _ _ Hok)|]. split; [done|]. split; [|done].
    clear -Enil. revert Enil. induction rows as [|e rows IH]; [done|]. rewrite selected_cons, shade_rows_cons. fold P.
    destruct (P e); [done|apply IH]. }
  destruct (Z.eqb_spec removed (tb_size t)) as [Eall|Hnall].
  { destruct (table_clear_ok t w Hok Hroom Ho) as (t' & w' & -> & Hs & Eb & Eu). cbn [mbind outcome_bind]. fold rows in Eu, Eb.
    destruct (selected_all P rows HP) as [Ek Ew]; [unfold live_count, rows; by rewrite <- (ok_size _ _ Hok)|].
    exists t', w'. split; [done|]. split; [done|]. split; [by rewrite Ew|]. rewrite Eu, <- Ek, <- (kill_if_live P (tw_strings w)) by done.
    destruct (iterator_pins t =? 0); [|done]. rewrite Ek, (kill_if_live _ (tw_strings w)) by done. symmetry.
    apply elem_of_nil_inv. intros e [He [Hl' _]%live_rows_elem]%list_elem_of_filter. congruence. }
  destruct (_ || _) eqn:Esparse.
  { destruct (Z.leb_spec removed REJECTED) as [Hle|_].
    - rewrite take_ge by (rewrite length_map; unfold removed, arr_len, REJECTED in *; lia).
      destruct (retain_listed_ok MASK_SHIFT Hshift keep rows [] t w Hok eq_refl) as (t' & w' & E & Hf). fold P in E. rewrite E.
      cbn [mbind outcome_bind]. exists t', w'. split; [done|by apply Hfil].
    - assert (Z.to_nat (entry_count t) = length rows) as -> by (unfold arr_len in Hu; lia).
      destruct (retain_scan_ok MASK_SHIFT Hshift keep rows [] t w Hok eq_refl) as (t' & w' & E & Hf).
      change (arr_len []) with 0 in E. rewrite E. cbn [mbind outcome_bind]. exists t', w'. split; [done|by apply Hfil]. }
  assert (Z.to_nat (entry_count t) = length rows) as -> by (unfold arr_len in Hu; lia).
  destruct (retain_dense_ok keep rows [] t w (base_entries _ _ Hb) eq_refl) as (l & El & Hl & Htk).
  change (arr_len []) with 0 in El. rewrite El. cbv beta iota zeta. fold P in Htk |- *.
  destruct (shade_rows_world P rows w) as [Es Ed]. set (w1 := shade_rows P rows w) in *.
  set (t1 := set_counts (tb_size (set_entries l t) - removed) (tombstone_count (set_entries l t) + removed) (entry_count (set_entries l t)) (set_entries l t)).
  assert (base_ok (tw_strings w) t1) as Hb1 by exact (kill_if_base P HP (tw_strings w) t _ _ l Hb Hl Htk eq_refl eq_refl).
  assert (used_rows t1 = kill_if P rows) as Eu1 by exact Htk.
  assert (exists sl ct h', mal_table_fill_slots MASK_SHIFT (tw_strings w1) t1 (tb_slots t1) (tb_controls t1) (tb_slot_capacity t1)
    = Ret (set_slots sl ct (tb_slot_capacity t) 0 t1, h') /\ hash_grows (tw_strings w) h' /\
    table_ok h' (set_slots sl ct (tb_slot_capacity t) 0 t1)) as (sl & ct & h' & -> & Hg & Hok2).
  { rewrite Es. change (tb_slot_capacity t1) with (tb_slot_capacity t). change (tb_slots t1) with (tb_slots t).
    change (tb_controls t1) with (tb_controls t). pose proof (ok_index _ _ Hok) as Hix. unfold index_part in Hix.
    destruct (Z.eqb_spec (tb_slot_capacity t) 0) as [Ec|Hc].
    - rewrite Ec. destruct Hix as (H4 & -> & -> & _). exists [], [], (tw_strings w). split; [done|].
      pose proof (hash_grows_refl _ (ok_heap _ _ Hok)) as Hrefl. split; [done|].
      eapply rebuilt_ok; [exact Hb1|exact Hrefl|done|done|done].
    - destruct Hix as [Hix Hf]. pose proof (io_deleted _ _ _ _ _ _ Hix) as Hd. pose proof (count_nonneg deleted_control (tb_controls t)).
      assert (mal_hash_index_fits (tb_size t1) (tb_slot_capacity t) = true) as Hfit.
      { apply Z.leb_le in Hf. apply Z.leb_le. cbn. lia. }
      destruct (table_fill_ok MASK_SHIFT Hshift t1 (tw_strings w) (tb_slot_capacity t) (tb_slots t) (tb_controls t))
        as (sl & ct & h' & E & Hg & Hov).
      { by eapply base_entries. } { apply (ok_heap _ _ Hok). } { apply (bo_rows _ _ Hb1). } { apply (io_capacity _ _ _ _ _ _ Hix). }
      { apply (io_slots _ _ _ _ _ _ Hix). } { by rewrite <- (bo_size _ _ Hb1). }
      exists sl, ct, h'. split; [exact E|]. split; [done|]. eapply rebuilt_ok; [exact Hb1|done|done|done|done]. }
  cbn [mbind outcome_bind]. eexists _, _. split; [done|]. apply Hfil. split; [done|]. split; [exact Eu1|]. by repeat split; try apply Hg.
Qed.

(** * Reservation *)

(** Room for [desired] live rows: enough row buffer, and enough slots. *)
Definition has_room (t : MalTable) (desired : Z) : Prop :=
  entry_count t + (desired - tb_size t) <= entry_capacity t /\
  if tb_slot_capacity t =? 0 then entry_count t + (desired - tb_size t) <= 4
  else mal_hash_index_fits desired (tb_slot_capacity t) = true.

Lemma fits_mono a c c' : capacity_ok c -> capacity_ok c' -> c <= c' -> mal_hash_index_fits a c = true -> mal_hash_index_fits a c' = true.
Proof using Type.
  intros (m & Hm & ->) (m' & Hm' & ->) Hle. rewrite !fits_capacity by lia. intros Hf%Z.leb_le. apply Z.leb_le. lia.
Qed.

Lemma table_reserve_ok t w desired :
  table_ok (tw_strings w) t -> entry_count t < TABLE_ROOM ->
  exists b t' w', mal_table_reserve MASK_SHIFT raw t w desired = Ret (b, t', w') /\ world_hashed w w' /\
    table_ok (tw_strings w') t' /\ same_rows t t' /\
    (b = true -> desired <= tb_size t \/ has_room t' desired).
Proof using Hshift.
  intros Hok Hroom. pose proof (table_base _ _ Hok) as Hb. pose proof (bo_count _ _ Hb). pose proof (bo_capacity _ _ Hb). pose proof (size_range _ _ Hok).
  unfold TABLE_ROOM in Hroom. pose proof (world_hashed_refl w (ok_heap _ _ Hok)) as Hrefl. unfold mal_table_reserve.
  assert (forall b, (b = true -> desired <= tb_size t) -> exists b0 t' w', Ret (b, t, w) = Ret (b0, t', w') /\ world_hashed w w' /\
    table_ok (tw_strings w') t' /\ same_rows t t' /\ (b0 = true -> desired <= tb_size t \/ has_room t' desired)) as Hkeep.
  { intros b Hbt. exists b, t, w. do 3 (split; [done|]). split; [apply table_rows_refl|]. intros E. left. by apply Hbt. }
  destruct (Z.leb_spec desired (tb_size t)); [by apply Hkeep|]. destruct (Z.ltb_spec (INT32_MAX - 1) desired); [by apply Hkeep|].
  unfold INT32_MAX in *. set (required := entry_count t + (desired - tb_size t)).
  destruct (capacity_loop_ok capacity_fuel 4 required 29) as (target & E & Htarget); [lia|lia|lia|unfold capacity_fuel; lia|].
  unfold MAL_TABLE_SMALL_MIN_CAPACITY. rewrite E. cbn [mbind outcome_bind]. destruct target as [c|]; [|by apply Hkeep].
  destruct (_ <? c); [by apply Hkeep|].
  assert (exists s, (if required <=? 4 then Ret (Some 0) else slot_capacity_loop capacity_fuel MAL_HASH_GROUP_WIDTH desired) = Ret s /\
    match s with Some s => s = 0 /\ required <= 4 \/ capacity_ok s /\ mal_hash_index_fits desired s = true | None => True end) as (s & -> & Hs).
  { destruct (Z.leb_spec required 4); [eexists; split; [done|by left]|].
    destruct (slot_capacity_loop_ok capacity_fuel 0 desired) as (s & Es & Hs); [lia|unfold capacity_fuel; lia|].
    exists s. split; [exact Es|]. destruct s; [by right|done]. }
  cbn [mbind outcome_bind]. destruct s as [s|]; [|by apply Hkeep]. destruct (_ <? s); [by apply Hkeep|]. cbv zeta.
  set (t1 := if entry_capacity t <? c then _ else t).
  assert (base_ok (tw_strings w) t1 /\ same_rows t t1 /\ same_slots t t1 /\ required <= entry_capacity t1) as (Hb1 & Hs1 & Hl1 & Hcap1).
  { unfold t1. destruct (Z.ltb_spec (entry_capacity t) c).
    - destruct (table_grow_rows_ok raw (tw_strings w) t c) as (B & S & L); [done|lia|lia|]. do 3 (split; [done|]). cbn. lia.
    - split; [done|]. split; [apply table_rows_refl|]. split; [by repeat split|lia]. }
  pose proof Hs1 as (Eu & Ec & Esz & Etb & Epn & Eep). pose proof Hl1 as (L1 & L2 & L3 & L4).
  pose proof (index_part_same _ t t1 Hs1 Hl1 (ok_index _ _ Hok)) as Hix1.
  destruct (Z.ltb_spec (tb_slot_capacity t1) s) as [Hlt|Hge].
  - assert (capacity_ok s /\ mal_hash_index_fits desired s = true) as [Hcs Hfs].
    { destruct Hs as [[-> _]|?]; [|done]. exfalso. unfold index_part in Hix1. destruct (Z.eqb_spec (tb_slot_capacity t1) 0); [lia|].
      destruct Hix1 as [Hix _]. pose proof (capacity_bound _ (io_capacity _ _ _ _ _ _ Hix)). lia. }
    pose proof (capacity_bound s Hcs).
    assert (mal_hash_index_fits (tb_size t1) s = true) as Hfit by (apply Z.leb_le in Hfs; apply Z.leb_le; lia).
    destruct (table_rehash_ok MASK_SHIFT Hshift raw t1 (tw_strings w) s) as (sl & ct & h' & -> & Hg & Hov).
    { by eapply base_entries. } { apply (ok_heap _ _ Hok). } { apply (bo_rows _ _ Hb1). }
    { right. split; [done|]. by rewrite <- (bo_size _ _ Hb1). }
    cbn [mbind outcome_bind]. eexists true, _, _. split; [done|]. split; [by apply world_hashed_set|]. split.
    { eapply rebuilt_ok; [done|done|done|lia|done]. }
    split; [done|]. intros _. right. split; cbn; [lia|]. destruct (Z.eqb_spec s 0); [lia|done].
  - exists true, t1, w. split; [done|]. split; [done|]. split; [by apply base_table|]. split; [done|]. intros _. right.
    split; [lia|]. unfold index_part in Hix1. destruct (Z.eqb_spec (tb_slot_capacity t1) 0) as [E0|].
    + destruct Hs as [[_ ?]|[Hcs _]]; [lia|]. pose proof (capacity_bound s Hcs). lia.
    + destruct Hix1 as [Hix _]. pose proof (io_capacity _ _ _ _ _ _ Hix) as Hcap. destruct Hs as [[-> ?]|[Hcs Hfs]].
      * destruct Hcap as (m & Hm & ->). rewrite fits_capacity by lia. apply Z.leb_le. pose proof (Z.pow_pos_nonneg 2 m). lia.
      * by apply (fits_mono desired s).
Qed.
End clear.
