(* ===== verification/PropertyStore.v ===== *)
(** Property descriptors over the table, runtime/src/property_store.c and
    property_store.h: a data property keeps its value in the row, an accessor keeps its
    getter and setter in a sidecar the row owns. Reading a sidecar that is not live is
    a fault. *)

From stdpp Require Import gmap.
From S2P Require Import Prelude Value Key StringHeap Table.

Definition MAL_PROPERTY_NONE : Z := 0.
Definition MAL_PROPERTY_WRITABLE : Z := Z.shiftl 1 0.
Definition MAL_PROPERTY_ENUMERABLE : Z := Z.shiftl 1 1.
Definition MAL_PROPERTY_CONFIGURABLE : Z := Z.shiftl 1 2.
Definition MAL_PROPERTY_ACCESSOR : Z := Z.shiftl 1 3.
Definition MAL_PROPERTY_PRIMORDIAL : Z := Z.shiftl 1 4.
Definition MAL_PROPERTY_SHADOW_WRITABLE : Z := Z.shiftl 1 5.
Definition MAL_PROPERTY_LOCKED_SETTER : Z := Z.shiftl 1 6.

Record MalPropertyDesc : Type := mkDesc { pd_flags : Z; pd_value : Z; pd_getter : Z; pd_setter : Z }.

Inductive MalPropertyReadKind : Set :=
| MAL_PROPERTY_READ_MISSING | MAL_PROPERTY_READ_DATA | MAL_PROPERTY_READ_ACCESSOR.

Definition has_accessor (flags : Z) : bool := negb (Z.land flags MAL_PROPERTY_ACCESSOR =? 0).

Section Store.
Variable MASK_SHIFT : Z.
Variable raw : Z -> Z.
(** The address [mal_heap_alloc_raw_profiled] gives a new sidecar. *)
Variable alloc_sidecar : gmap Z (Z * Z) -> Z.

(** [accessors->getter], [accessors->setter]. *)
Definition accessors_at (w : TableWorld) (p : Z) : outcome (Z * Z) :=
  match tw_sidecars w !! p with Some a => Ret a | None => Abort end.
(** [accessors->getter = g; accessors->setter = s]. *)
Definition set_accessors (p g s : Z) (w : TableWorld) : outcome TableWorld :=
  _ ← accessors_at w p;
  Ret (set_tw_sidecars (<[p := (g, s)]> (tw_sidecars w)) w).

Definition mal_property_entry_read (t : MalTable) (w : TableWorld) (handle : Z) : outcome MalPropertyDesc :=
  let flags := mal_table_entry_property_flags t handle in
  if negb (has_accessor flags) then
    Ret (mkDesc flags (mal_table_entry_value t handle) MAL_VALUE_UNDEFINED MAL_VALUE_UNDEFINED)
  else
    '(g, s) ← accessors_at w (mal_table_entry_data t handle);
    Ret (mkDesc flags MAL_VALUE_UNDEFINED g s).

Definition mal_property_entry_write (t : MalTable) (w : TableWorld) (handle : Z) (desc : MalPropertyDesc)
  : outcome (MalTable * TableWorld) :=
  let was_accessor := has_accessor (mal_table_entry_property_flags t handle) in
  let is_accessor := has_accessor (pd_flags desc) in
  let data := mal_table_entry_data t handle in
  '(t, w) ←
    (if is_accessor then
       let '(accessors, t, w) :=
         if negb was_accessor then
           let p := alloc_sidecar (tw_sidecars w) in
           let w := set_tw_sidecars (<[p := (raw 0, raw 1)]> (tw_sidecars w)) w in
           let '(t, w) := mal_table_entry_set_owned_data t w handle p in (p, t, w)
         else (data, t, w) in
       w ← set_accessors accessors (pd_getter desc) (pd_setter desc) w;
       Ret (t, w)
     else
       '(t, w) ←
         (if was_accessor then
            w ← free_sidecar data w;
            Ret (mal_table_entry_set_owned_data t w handle 0)
          else Ret (t, w));
       Ret (mal_table_entry_set_value t w handle (pd_value desc)));
  t ← mal_table_entry_set_property_flags t handle (u8 (pd_flags desc));
  Ret (t, w).

(** The handle and the descriptor; [None] is [present = false]. *)
Definition mal_property_lookup (t : MalTable) (w : TableWorld) (key : MalKey)
  : outcome (option (Z * MalPropertyDesc) * TableWorld) :=
  '(found, w) ← mal_table_lookup MASK_SHIFT t w key;
  match found with
  | None => Ret (None, w)
  | Some handle => desc ← mal_property_entry_read t w handle; Ret (Some (handle, desc), w)
  end.

Definition mal_property_read (t : MalTable) (w : TableWorld) (key : MalKey)
  : outcome (MalPropertyReadKind * Z * TableWorld) :=
  '(found, w) ← mal_table_lookup MASK_SHIFT t w key;
  match found with
  | None => Ret (MAL_PROPERTY_READ_MISSING, 0, w)
  | Some handle =>
      if negb (has_accessor (mal_table_entry_property_flags t handle)) then
        Ret (MAL_PROPERTY_READ_DATA, mal_table_entry_value t handle, w)
      else
        '(g, _) ← accessors_at w (mal_table_entry_data t handle);
        Ret (MAL_PROPERTY_READ_ACCESSOR, g, w)
  end.

(** [inserted], the handle and the descriptor. *)
Definition mal_property_ensure (t : MalTable) (w : TableWorld) (key : MalKey) (initial : MalPropertyDesc)
  : outcome (bool * Z * MalPropertyDesc * MalTable * TableWorld) :=
  '(handle, inserted, t, w) ← mal_table_upsert_entry MASK_SHIFT raw t w key;
  if (inserted : bool) then
    '(t, w) ← mal_property_entry_write t w handle initial;
    Ret (true, handle, initial, t, w)
  else
    desc ← mal_property_entry_read t w handle;
    Ret (false, handle, desc, t, w).

Definition mal_property_define (t : MalTable) (w : TableWorld) (key : MalKey) (desc : MalPropertyDesc)
  : outcome (Z * MalTable * TableWorld) :=
  '(handle, _, t, w) ← mal_table_upsert_entry MASK_SHIFT raw t w key;
  '(t, w) ← mal_property_entry_write t w handle desc;
  Ret (handle, t, w).

Definition mal_property_set_value (t : MalTable) (w : TableWorld) (key : MalKey) (value : Z)
  : outcome (Z * MalTable * TableWorld) :=
  '(handle, _, t, w) ← mal_table_upsert_entry MASK_SHIFT raw t w key;
  let desc := mkDesc (Z.lor (Z.lor MAL_PROPERTY_WRITABLE MAL_PROPERTY_ENUMERABLE) MAL_PROPERTY_CONFIGURABLE)
                value MAL_VALUE_UNDEFINED MAL_VALUE_UNDEFINED in
  '(t, w) ← mal_property_entry_write t w handle desc;
  Ret (handle, t, w).

Definition mal_property_write_entry (t : MalTable) (w : TableWorld) (handle : Z) (desc : MalPropertyDesc)
  : outcome (MalTable * TableWorld) :=
  current ← mal_property_entry_read t w handle;
  let w := shade (pd_setter current) (shade (pd_getter current) (shade (pd_value current) w)) in
  mal_property_entry_write t w handle desc.

Definition mal_property_entry_key (t : MalTable) (handle : Z) : MalKey := mal_table_entry_key t handle.
Definition mal_property_entry_desc (t : MalTable) (w : TableWorld) (handle : Z) : outcome MalPropertyDesc :=
  mal_property_entry_read t w handle.

(** [None] is the [false] return. *)
Definition mal_property_read_getter_hint (t : MalTable) (w : TableWorld) (handle key : Z) : outcome (option Z) :=
  found ← mal_table_read_owned_entry_hint t handle key;
  match found with
  | Some (accessors, flags) =>
      if (accessors =? 0) || negb (has_accessor flags) then Ret None
      else '(g, _) ← accessors_at w accessors; Ret (Some g)
  | None => Ret None
  end.
End Store.
