(* ===== verification/PropertySpec.v ===== *)
(** The property store (PropertyStore) against an ordered list of properties: the live
    rows of a table, read with their sidecars, are that list, and writing a descriptor
    replaces one entry of it. *)

From stdpp Require Import gmap.
From S2P Require Import Prelude F64 Value HeapString HeapStringSpec Key HashIndex MapObject MapRows MapStore StringHeap.
From S2P Require Import Table TableKeys TableSpec TableOps TableUpdate TableSweep PropertyStore.

(** * The abstract object *)

(** Own properties in insertion order. *)
Abbreviation Props := (list (PropKey * MalPropertyDesc)).

Fixpoint plookup (n : PropKey) (l : Props) : option MalPropertyDesc :=
  match l with
  | [] => None
  | (m, d) :: l => if decide (m = n) then Some d else plookup n l
  end.
Definition pupdate (n : PropKey) (d : MalPropertyDesc) (l : Props) : Props :=
  map (fun '(m, x) => if decide (m = n) then (m, d) else (m, x)) l.
Definition pset (n : PropKey) (d : MalPropertyDesc) (l : Props) : Props :=
  match plookup n l with Some _ => pupdate n d l | None => l ++ [(n, d)] end.
Definition premove (n : PropKey) (l : Props) : Props := filter (fun x => x.1 <> n) l.

(** The descriptor that is stored: an accessor has no value, a data property no
    accessors. *)
Definition stored (d : MalPropertyDesc) : MalPropertyDesc :=
  if has_accessor (pd_flags d) then mkDesc (pd_flags d) MAL_VALUE_UNDEFINED (pd_getter d) (pd_setter d)
  else mkDesc (pd_flags d) (pd_value d) MAL_VALUE_UNDEFINED MAL_VALUE_UNDEFINED.
Definition desc_ok (d : MalPropertyDesc) : Prop := 0 <= pd_flags d < 2 ^ 7.

Lemma plookup_app n l l' : plookup n (l ++ l') = match plookup n l with Some d => Some d | None => plookup n l' end.
Proof. induction l as [|[m d] l IH]; cbn; [done|]. by case_decide. Qed.
Lemma plookup_none n l : plookup n l = None <-> forall d, (n, d) ∉ l.
Proof.
  induction l as [|[m d] l IH]; cbn.
  - split; [|done]. intros _ d Hd. by apply elem_of_nil in Hd.
  - case_decide as E; [subst m; split; [done|]; intros Hn; destruct (Hn d); by left|]. rewrite IH. split; intros Hn x.
    + intros [[= -> _]|Hx]%elem_of_cons; [done|]. by apply (Hn x).
    + intros Hx. apply (Hn x). by right.
Qed.
Lemma pupdate_absent n d l : plookup n l = None -> pupdate n d l = l.
Proof.
  induction l as [|[m x] l IH]; [done|]. cbn. case_decide; [done|]. intros E. f_equal. by apply IH.
Qed.
Lemma premove_absent n l : plookup n l = None -> premove n l = l.
Proof.
  induction l as [|[m x] l IH]; [done|]. cbn [plookup]. case_decide; [done|]. intros E. unfold premove in *.
  rewrite filter_cons, decide_True by done. f_equal. by apply IH.
Qed.

(** * Rows as properties *)

Definition row_desc (m : gmap Z (Z * Z)) (e : MalTableEntry) : MalPropertyDesc :=
  let f := row_flags e in
  if has_accessor f then
    let '(g, s) := default (0, 0) (m !! te_payload e) in mkDesc f MAL_VALUE_UNDEFINED g s
  else mkDesc f (te_payload e) MAL_VALUE_UNDEFINED MAL_VALUE_UNDEFINED.
Definition contents (h : StringHeap) (m : gmap Z (Z * Z)) (rows : list MalTableEntry) : Props :=
  map (fun e => (row_name h e, row_desc m e)) (live_rows rows).

(** A row owns a sidecar exactly when it is an accessor. *)
Definition accessor_rows (rows : list MalTableEntry) : Prop :=
  Forall (fun e => mal_table_row_live e = true -> mal_table_row_owned e = has_accessor (row_flags e)) rows.

Record prop_ok (t : MalTable) (w : TableWorld) : Prop := {
  po_table : table_ok (tw_strings w) t;
  po_owns : owns (tw_sidecars w) (used_rows t);
  po_rows : accessor_rows (used_rows t);
}.

Lemma contents_app h m l l' : contents h m (l ++ l') = contents h m l ++ contents h m l'.
Proof. unfold contents, live_rows. by rewrite filter_app, map_app. Qed.
Lemma contents_cons h m e l :
  contents h m (e :: l) = (if mal_table_row_live e then [(row_name h e, row_desc m e)] else []) ++ contents h m l.
Proof. unfold contents. rewrite live_rows_cons. by destruct (mal_table_row_live e). Qed.
Lemma prop_contents_live h m l : contents h m (live_rows l) = contents h m l.
Proof. unfold contents. by rewrite live_rows_idemp. Qed.
Lemma contents_grows h h' m l : hash_grows h h' -> contents h' m l = contents h m l.
Proof. intros Hg. unfold contents. apply map_ext. intros e. by rewrite (row_name_grows h h'). Qed.
(** Only the sidecars of the rows matter. *)
Lemma prop_contents_ext h m m' l :
  accessor_rows l -> (forall p, p ∈ owned_data (live_rows l) -> m' !! p = m !! p) -> contents h m' l = contents h m l.
Proof.
  intros Ha Hm. unfold contents. apply map_ext_in. intros e He%list_elem_of_In. f_equal. unfold row_desc.
  destruct (has_accessor (row_flags e)) eqn:Ef; [|done]. rewrite Hm; [done|].
  apply live_rows_elem in He as [Hl Hin]. apply list_elem_of_omap. exists e. split; [by apply live_rows_elem|].
  unfold accessor_rows in Ha. rewrite Forall_forall in Ha. by rewrite (Ha e Hin Hl), Ef.
Qed.
Lemma contents_absent h m rows n : position h rows n = None -> plookup n (contents h m rows) = None.
Proof.
  intros Hp. apply plookup_none. intros d Hd. apply list_elem_of_fmap in Hd as (e & [= -> _] & [Hl He]%live_rows_elem).
  apply list_elem_of_lookup_1 in He as [k Hk]. eapply position_none; [exact Hp|exact Hk|by split].
Qed.

(** A named row splits the rows, and no other row has its name. *)
Lemma position_split h rows n k :
  names_distinct h rows -> position h rows n = Some k ->
  exists pre e post, rows = pre ++ e :: post /\ length pre = k /\ holds_name h n e /\
    forall m, plookup n (contents h m pre) = None /\ plookup n (contents h m post) = None.
Proof.
  intros Hd Hp. destruct (position_some _ _ _ _ Hp) as (e & Hk & Hn). pose proof (lookup_lt_Some _ _ _ Hk) as Hlt.
  exists (take k rows), e, (drop (S k) rows). split; [by rewrite take_drop_middle|]. split; [rewrite length_take; lia|]. split; [done|].
  assert (forall j e', rows !! j = Some e' -> holds_name h n e' -> j = k) as Huniq.
  { intros j e' Hj Hn'. pose proof (position_unique h rows n j e' Hd Hj Hn'). congruence. }
  intros m. split; apply contents_absent, position_absent; intros j e' Hj Hn'.
  - apply lookup_take_Some in Hj as [Hj Hjk]. apply Huniq in Hj; [lia|done].
  - rewrite lookup_drop in Hj. apply Huniq in Hj; [lia|done].
Qed.

Section split.
Context (h : StringHeap) (m : gmap Z (Z * Z)) (n : PropKey) (pre post : list MalTableEntry) (e : MalTableEntry).
Hypothesis Hn : holds_name h n e.
Hypothesis Hpre : plookup n (contents h m pre) = None.
Hypothesis Hpost : plookup n (contents h m post) = None.

Lemma split_contents : contents h m (pre ++ e :: post) = contents h m pre ++ (n, row_desc m e) :: contents h m post.
Proof using Hn. rewrite contents_app, contents_cons, (proj1 Hn). cbn. by rewrite (proj2 Hn). Qed.
Lemma split_lookup : plookup n (contents h m (pre ++ e :: post)) = Some (row_desc m e).
Proof using Hn Hpre. rewrite split_contents, plookup_app, Hpre. cbn. by rewrite decide_True. Qed.
Lemma split_update d : pupdate n d (contents h m (pre ++ e :: post)) = contents h m pre ++ (n, d) :: contents h m post.
Proof using Hn Hpre Hpost.
  rewrite split_contents. unfold pupdate. rewrite map_app. cbn [map]. rewrite decide_True by done.
  fold (pupdate n d (contents h m pre)) (pupdate n d (contents h m post)). by rewrite !pupdate_absent.
Qed.
Lemma split_remove : premove n (contents h m (pre ++ e :: post)) = contents h m pre ++ contents h m post.
Proof using Hn Hpre Hpost.
  rewrite split_contents. unfold premove. rewrite filter_app, filter_cons, decide_False by (cbn; by intros []).
  fold (premove n (contents h m pre)) (premove n (contents h m post)). by rewrite !premove_absent.
Qed.
End split.

(** * Sidecars of one row *)

Definition owns_list (m : gmap Z (Z * Z)) (l : list Z) : Prop :=
  NoDup l /\ (forall p, p ∈ l <-> is_Some (m !! p)) /\ m !! 0 = None.
#[export] Instance owns_list_proper m : Proper (Permutation ==> iff) (owns_list m).
Proof.
  assert (forall l l', l ≡ₚ l' -> owns_list m l -> owns_list m l') as H.
  { intros l l' E (Hn & Ha & H0). split; [by rewrite <- E|]. split; [|done]. intros p. by rewrite <- E. }
  intros l l' E. split; apply H; [done|by symmetry].
Qed.
Definition own_of (e : MalTableEntry) : list Z := if mal_table_row_owned e then [te_payload e] else [].
Lemma owned_middle pre e post : owned_data (pre ++ e :: post) ≡ₚ own_of e ++ owned_data (pre ++ post).
Proof.
  rewrite !owned_data_app, owned_data_cons. fold (own_of e). rewrite !app_assoc. apply Permutation_app_tail, Permutation_app_comm.
Qed.

Lemma owns_add m l p x : owns_list m l -> m !! p = None -> p <> 0 -> owns_list (<[p := x]> m) (p :: l).
Proof.
  intros (Hn & Ha & H0) Hp Hz. split; [apply NoDup_cons; split; [|done]; rewrite Ha, Hp; by intros []|]. split.
  - intros q. rewrite elem_of_cons, Ha. destruct (decide (q = p)) as [->|]; [rewrite lookup_insert_eq; split; [eauto|by left]|].
    rewrite lookup_insert_ne by done. tauto.
  - by rewrite lookup_insert_ne.
Qed.
Lemma sidecars_write m l p x : owns_list m (p :: l) -> owns_list (<[p := x]> m) (p :: l).
Proof.
  intros (Hn & Ha & H0). assert (is_Some (m !! p)) as Hp by (apply Ha; by left). split; [done|]. split.
  - intros q. rewrite Ha. destruct (decide (q = p)) as [->|]; [rewrite lookup_insert_eq; split; eauto|by rewrite lookup_insert_ne].
  - rewrite lookup_insert_ne; [done|]. intros ->. rewrite H0 in Hp. by destruct Hp.
Qed.
Lemma owns_free m l p : owns_list m (p :: l) -> owns_list (delete p m) l.
Proof.
  intros (Hn & Ha & H0). apply NoDup_cons in Hn as [Hp Hn]. split; [done|]. split.
  - intros q. destruct (decide (q = p)) as [->|].
    + rewrite lookup_delete_eq. split; [done|by intros []].
    + rewrite lookup_delete_ne, <- Ha, elem_of_cons by done. tauto.
  - destruct (decide (p = 0)) as [->|]; [by rewrite lookup_delete_eq|by rewrite lookup_delete_ne].
Qed.
