(* ===== verification/PropertyRefine.v ===== *)
(** The property store refines the ordered list of properties: reading and writing
    descriptors changes one property and the sidecar of its row and leaves every other
    alone, and each operation of a table acts on its contents as ECMAScript's
    own-property operations do. *)

From stdpp Require Import gmap.
From S2P Require Import Prelude F64 Value HeapString HeapStringSpec Key HashIndex MapObject MapRows MapStore StringHeap.
From S2P Require Import Table TableKeys TableSpec TableOps TableUpdate TableSweep PropertyStore PropertySpec.

(** * Rewriting a row *)

(** The same live row with other flags, ownership and payload. *)
Definition same_row (h : StringHeap) (e e' : MalTableEntry) : Prop :=
  row_ok h e' /\ mal_table_row_live e' = true /\ ident e' = ident e.

Lemma set_row_ok h t k e e' :
  table_ok h t -> used_rows t !! k = Some e -> mal_table_row_live e = true -> same_row h e e' ->
  table_ok h (set_entry (Z.of_nat k) e' t) /\ used_rows (set_entry (Z.of_nat k) e' t) = <[k := e']> (used_rows t).
Proof.
  intros Hok Hk Hl (Hr & Hl' & Ei). pose proof (table_base _ _ Hok) as Hb. pose proof (used_inv _ _ Hok _ _ Hk) as [Hlt _].
  assert (used_rows (set_entry (Z.of_nat k) e' t) = <[k := e']> (used_rows t)) as Eu.
  { rewrite used_set by (by eapply base_entries || lia). by rewrite Nat2Z.id. }
  assert (row_name h e' = row_name h e) as En by (unfold row_name; by rewrite Ei).
  split; [|done]. apply base_table.
  - destruct Hb as [B1 B2 B3 B4 B5 B6 B7 B8 B9 B10]. split; rewrite ?Eu; cbn; try done.
    + by rewrite arr_len_set.
    + by apply Forall_insert.
    + eapply names_insert; [done|done|]. by split.
    + pose proof (live_count_insert _ k e e' Hk) as Hc. rewrite Hl, Hl' in Hc. unfold live_count in Hc. lia.
  - pose proof (ok_index _ _ Hok) as Hix. unfold index_part in *. cbn. destruct (tb_slot_capacity t =? 0); [done|].
    destruct Hix as [Hix Hf]. split; [|done]. eapply index_ok_ext; [|exact Hix]. intros i. rewrite Eu.
    rewrite hash_at_insert by (by eapply lookup_lt_Some). destruct (Z.eqb_spec i (Z.of_nat k)) as [->|]; [|done].
    rewrite (hash_at_live h _ _ e) by (rewrite ?Nat2Z.id; done || lia). unfold row_hash. by rewrite Hl', En.
Qed.

Lemma flags_u8 f : 0 <= f < 2 ^ 7 -> u8 f = f /\ Z.land f (Z.lnot 0x7f) = 0.
Proof.
  intros Hf. split; [apply wrap_small; unfold in_u; lia|]. rewrite <- (Z.mod_small f (2 ^ 7)) by lia.
  rewrite <- Z.land_ones by lia. rewrite <- Z.land_assoc. change (Z.land (Z.ones 7) (Z.lnot 127)) with 0. apply Z.land_0_r.
Qed.

Section row.
Context (h : StringHeap) (t : MalTable) (k : nat) (e : MalTableEntry).
Hypothesis Hok : table_ok h t.
Hypothesis Hk : used_rows t !! k = Some e.
Hypothesis Hl : mal_table_row_live e = true.
Let handle := Z.of_nat k + 1.

Lemma row_handle : mal_table_handle_index handle = Z.of_nat k /\ handle_entry t handle = e.
Proof using Hok Hk.
  pose proof (used_inv _ _ Hok _ _ Hk) as [Hlt Ee]. pose proof (ok_count _ _ Hok). pose proof (ok_capacity _ _ Hok).
  unfold handle_entry, handle. destruct (handle_of_index (Z.of_nat k)) as [_ ->]; [lia|]. done.
Qed.
Lemma row_set_get x : handle_entry (set_entry (Z.of_nat k) x t) handle = x.
Proof using Hok Hk.
  pose proof (used_inv _ _ Hok _ _ Hk) as [Hlt _]. unfold handle_entry. rewrite (proj1 row_handle). unfold entry_at. cbn.
  apply arr_get_set_eq. rewrite (ok_entries _ _ Hok). pose proof (ok_count _ _ Hok). lia.
Qed.
Lemma row_set_set x y : set_entry (Z.of_nat k) y (set_entry (Z.of_nat k) x t) = set_entry (Z.of_nat k) y t.
Proof using Type. unfold set_entry, set_entries, arr_set. cbn. by rewrite list_insert_insert_eq. Qed.

(** The row in its fields: writes change flags, ownership and payload. *)
Lemma row_fields :
  exists i flags owned fp, word_ok i flags fp /\ te_key e = word i flags owned fp /\ row_flags e = flags /\
    mal_table_row_owned e = owned /\
    forall flags' owned' payload', 0 <= flags' < 2 ^ 7 ->
      let e' := mkEntry (word i flags' owned' fp) payload' in
      same_row h e e' /\ row_flags e' = flags' /\ mal_table_row_owned e' = owned'.
Proof using Hok Hk Hl.
  assert (row_ok h e) as Hr by (eapply Forall_lookup_1; [apply (ok_rows _ _ Hok)|done]).
  destruct (row_ok_live h e Hr Hl) as (flags & owned & Hw & Ee & Hi & Hh). set (i := ident e) in *. set (fp := fp_of _) in *.
  exists i, flags, owned, fp. split; [done|]. rewrite Ee. split; [done|].
  split; [by apply word_flags|]. split; [by apply word_owned|]. intros flags' owned' payload' Hf.
  assert (word_ok i flags' fp) as Hw' by (destruct Hw as (? & ? & ?); repeat split; lia). cbv zeta.
  split; [|split; [by apply word_flags|by apply word_owned]]. split; [apply row_ok_entry; [done|intros _; split; [done|by split]]|].
  split; [by apply live_ident|]. by rewrite !ident_word.
Qed.

(** The last step of a write. *)
Lemma set_flags_row i flags owned fp payload f :
  word_ok i flags fp -> 0 <= f < 2 ^ 7 ->
  mal_table_entry_set_property_flags (set_entry (Z.of_nat k) (mkEntry (word i flags owned fp) payload) t) handle (u8 f)
  = Ret (set_entry (Z.of_nat k) (mkEntry (word i f owned fp) payload) t).
Proof using Hok Hk.
  intros Hw Hf. destruct (flags_u8 f Hf) as [-> Em]. unfold mal_table_entry_set_property_flags. rewrite Em, row_set_get.
  change (0 =? 0) with true. cbn [negb te_key te_payload]. rewrite word_set_flags by done.
  by rewrite (proj1 row_handle), row_set_set.
Qed.
End row.

Section ops.
Variable raw : Z -> Z.
Variable alloc_sidecar : gmap Z (Z * Z) -> Z.
Hypothesis Halloc : forall m, m !! alloc_sidecar m = None /\ alloc_sidecar m <> 0.

Lemma entry_read_ok t w k e :
  prop_ok t w -> used_rows t !! k = Some e -> mal_table_row_live e = true ->
  mal_property_entry_read t w (Z.of_nat k + 1) = Ret (row_desc (tw_sidecars w) e).
Proof using Type.
  intros [Hok Ho Ha] Hk Hl. destruct (row_handle _ _ _ _ Hok Hk) as [_ Eh].
  unfold mal_property_entry_read, mal_table_entry_property_flags, mal_table_entry_value, mal_table_entry_data, row_desc. rewrite Eh.
  assert (mal_table_row_owned e = has_accessor (row_flags e)) as Eo by (eapply Forall_lookup_1 in Ha; [|done]; by apply Ha).
  destruct (has_accessor (row_flags e)); [|done]. cbn [negb]. rewrite Eo. unfold accessors_at.
  assert (is_Some (tw_sidecars w !! te_payload e)) as [[g s] Es].
  { apply Ho. apply list_elem_of_omap. exists e. split; [by eapply list_elem_of_lookup_2|by rewrite Eo]. }
  by rewrite Es.
Qed.

(** What a write leaves: the row, the sidecars, the property. *)
Definition written (w : TableWorld) (rows : list MalTableEntry) (k : nat) (e e' : MalTableEntry) (w' : TableWorld) (d : MalPropertyDesc) : Prop :=
  tw_strings w' = tw_strings w /\ same_row (tw_strings w) e e' /\ mal_table_row_owned e' = has_accessor (row_flags e') /\
  row_desc (tw_sidecars w') e' = stored d /\ owns (tw_sidecars w') (<[k := e']> rows) /\
  (forall v, v ∈ tw_barriers w -> v ∈ tw_barriers w') /\ (mal_table_row_owned e = false -> te_payload e ∈ tw_barriers w') /\
  forall pre post, rows = pre ++ e :: post -> length pre = k ->
    forall p, p ∈ owned_data (pre ++ post) -> tw_sidecars w' !! p = tw_sidecars w !! p.

Lemma entry_write_ok t w k e d :
  prop_ok t w -> used_rows t !! k = Some e -> mal_table_row_live e = true -> desc_ok d ->
  exists e' w', mal_property_entry_write raw alloc_sidecar t w (Z.of_nat k + 1) d = Ret (set_entry (Z.of_nat k) e' t, w') /\
    written w (used_rows t) k e e' w' d.
Proof using Halloc.
  intros [Hok Ho Ha] Hk Hl Hd. destruct (row_handle _ _ _ _ Hok Hk) as [Ei Eh].
  destruct (row_fields _ _ _ _ Hok Hk Hl) as (i & flags & owned & fp & Hw & Ek & Ef & Eow & Hnew).
  assert (owned = has_accessor flags) as Eacc.
  { rewrite <- Eow, <- Ef. eapply Forall_lookup_1 in Ha; [|exact Hk]. by apply Ha. }
  pose proof (take_drop_middle _ _ _ Hk) as Esplit. set (pre := take k (used_rows t)) in *. set (post := drop (S k) (used_rows t)) in *.
  assert (length pre = k) as Hpre by (pose proof (lookup_lt_Some _ _ _ Hk); unfold pre; rewrite length_take; lia).
  assert (owns_list (tw_sidecars w) (own_of e ++ owned_data (pre ++ post))) as Hol.
  { rewrite <- owned_middle, Esplit. exact Ho. }
  assert (forall p w', tw_strings w' = tw_strings w ->
    row_desc (tw_sidecars w') (mkEntry (word i (pd_flags d) (has_accessor (pd_flags d)) fp) p) = stored d ->
    owns_list (tw_sidecars w') ((if has_accessor (pd_flags d) then [p] else []) ++ owned_data (pre ++ post)) ->
    (forall q, q ∈ owned_data (pre ++ post) -> tw_sidecars w' !! q = tw_sidecars w !! q) ->
    (forall v, v ∈ tw_barriers w -> v ∈ tw_barriers w') -> (mal_table_row_owned e = false -> te_payload e ∈ tw_barriers w') ->
    written w (used_rows t) k e (mkEntry (word i (pd_flags d) (has_accessor (pd_flags d)) fp) p) w' d) as Hwr.
  { intros p w' E1 E2 E3 E4 E5 E6. destruct (Hnew (pd_flags d) (has_accessor (pd_flags d)) p Hd) as (N1 & N2 & N3).
    split; [done|]. split; [done|]. split; [by rewrite N2, N3|]. split; [done|]. split.
    - unfold owns. fold (owns_list (tw_sidecars w') (owned_data (<[k:=mkEntry (word i (pd_flags d) (has_accessor (pd_flags d)) fp) p]> (used_rows t)))).
      rewrite <- Esplit at 1. rewrite <- (Nat2Z.id k), (insert_middle pre e _ post) by (unfold arr_len; lia).
      rewrite owned_middle. unfold own_of. rewrite N3. exact E3.
    - do 2 (split; [done|]). intros pre' post' Es El q Hq. apply E4. rewrite <- Esplit in Es.
      apply app_inj_1 in Es as [Ep Eq]; [|congruence]. injection Eq as Eq. by rewrite Ep, Eq. }
  unfold mal_property_entry_write, mal_table_entry_property_flags, mal_table_entry_data. rewrite Eh, Ef, Eow, Eacc.
  assert (set_entry (Z.of_nat k) e t = t) as Eself.
  { pose proof (used_inv _ _ Hok _ _ Hk) as [Hlt ->]. unfold set_entry, set_entries, arr_set, entry_at, arr_get. destruct t. cbn in *. f_equal.
    apply list_insert_id. apply (arr_get_lookup tb_entries (Z.of_nat k)). pose proof (ok_entries _ _ Hok) as He. pose proof (ok_count _ _ Hok) as Hc. cbn in *. lia. }
  assert (e = mkEntry (word i flags owned fp) (te_payload e)) as Ee by (rewrite <- Ek; by destruct e).
  assert (forall p : Z, is_Some (tw_sidecars w !! p) -> p <> 0) as Hnz.
  { intros p Hp ->. destruct Ho as (_ & _ & H0). rewrite H0 in Hp. by destruct Hp. }
  rewrite Eacc in Eow, Ek, Ee. unfold own_of in Hol. rewrite Eow in Hol.
  destruct (has_accessor (pd_flags d)) eqn:Eis, (has_accessor flags) eqn:Ewas; cbn [negb app] in *.
  - (* accessor over accessor: the sidecar is rewritten *)
    assert (is_Some (tw_sidecars w !! te_payload e)) as [a Es] by (apply Hol; by left).
    unfold set_accessors, accessors_at. rewrite Es. cbn [mbind outcome_bind].
    pose proof (set_flags_row _ _ _ _ Hok Hk _ _ true _ (te_payload e) _ Hw Hd) as Hfl. rewrite <- Ee, Eself in Hfl.
    rewrite Hfl. cbn [mbind outcome_bind].
    eexists _, _. split; [done|]. apply Hwr; [done| |by apply sidecars_write| |done|congruence].
    + unfold row_desc, stored. destruct (Hnew (pd_flags d) true (te_payload e) Hd) as (_ & -> & _). rewrite Eis. cbn.
      by rewrite lookup_insert_eq.
    + intros q Hq. cbn. rewrite lookup_insert_ne; [done|]. destruct Hol as [Hn _]. apply NoDup_cons in Hn as [Hn _]. by intros <-.
  - (* accessor over data: a new sidecar *)
    destruct (Halloc (tw_sidecars w)) as [Hp Hpz]. set (p := alloc_sidecar (tw_sidecars w)) in *.
    unfold mal_table_entry_set_owned_data. rewrite Eh, Ei, Eow. destruct (Z.eqb_spec p 0); [done|]. cbn [negb].
    unfold set_accessors, accessors_at. cbn [tw_sidecars set_tw_sidecars shade]. rewrite lookup_insert_eq. cbn [mbind outcome_bind].
    rewrite Ek, word_set_owns by done. rewrite (set_flags_row _ _ _ _ Hok Hk _ _ _ _ _ _ Hw Hd). cbn [mbind outcome_bind].
    eexists _, _. split; [done|]. apply Hwr; [done| | | |intros v Hv; cbn; rewrite ?elem_of_cons; tauto|intros _; cbn; by left].
    + unfold row_desc, stored. destruct (Hnew (pd_flags d) true p Hd) as (_ & -> & _). rewrite Eis. cbn.
      by rewrite lookup_insert_eq.
    + cbn. rewrite insert_insert_eq. by apply owns_add.
    + intros q Hq. cbn. rewrite insert_insert_eq, lookup_insert_ne; [done|]. intros <-. apply Hol in Hq. rewrite Hp in Hq. by destruct Hq.
  - (* data over accessor: the sidecar is freed *)
    assert (is_Some (tw_sidecars w !! te_payload e)) as Hs by (apply Hol; by left).
    rewrite (freeable_free _ _ w eq_refl (Hnz _ Hs) Hs). cbn [mbind outcome_bind].
    unfold mal_table_entry_set_owned_data. rewrite Eh, Ei, Eow. change (0 =? 0) with true. cbn [negb].
    rewrite Ek, word_clear_owns by done. unfold mal_table_entry_set_value. rewrite (row_set_get _ _ _ _ Hok Hk), Ei, row_set_set. cbn [te_key te_payload].
    cbn [mbind outcome_bind]. rewrite (set_flags_row _ _ _ _ Hok Hk _ _ _ _ _ _ Hw Hd). cbn [mbind outcome_bind].
    eexists _, _. split; [done|]. apply Hwr; [done| | | |intros v Hv; cbn; rewrite ?elem_of_cons; tauto|congruence].
    + unfold row_desc, stored. destruct (Hnew (pd_flags d) false (pd_value d) Hd) as (_ & -> & _). by rewrite Eis.
    + by apply owns_free.
    + intros q Hq. cbn. rewrite lookup_delete_ne; [done|]. destruct Hol as [Hn _]. apply NoDup_cons in Hn as [Hn _]. by intros <-.
  - (* data over data *)
    cbn [mbind outcome_bind]. unfold mal_table_entry_set_value. rewrite Eh, Ei, Ek.
    rewrite (set_flags_row _ _ _ _ Hok Hk _ _ _ _ _ _ Hw Hd). cbn [mbind outcome_bind].
    eexists _, _. split; [done|]. apply Hwr; [done| |done|done|intros v Hv; cbn; rewrite ?elem_of_cons; tauto|intros _; cbn; by left].
    unfold row_desc, stored. destruct (Hnew (pd_flags d) false (pd_value d) Hd) as (_ & -> & _). by rewrite Eis.
Qed.
End ops.

(** The properties of a table. *)
Definition props_of (t : MalTable) (w : TableWorld) : Props := contents (tw_strings w) (tw_sidecars w) (used_rows t).

(** The snapshot the collector marks from: what a live row held directly, its key and
    its value, is still held by a live row or was given to the write barrier. *)
Definition satb (t : MalTable) (w : TableWorld) (t' : MalTable) (w' : TableWorld) : Prop :=
  (forall v, v ∈ tw_barriers w -> v ∈ tw_barriers w') /\
  forall e, e ∈ live_rows (used_rows t) ->
    (mal_table_key_value (te_key e) ∈ tw_barriers w' \/ exists e', e' ∈ live_rows (used_rows t') /\ ident e' = ident e) /\
    (mal_table_row_owned e = false ->
     te_payload e ∈ tw_barriers w' \/
     exists e', e' ∈ live_rows (used_rows t') /\ mal_table_row_owned e' = false /\ te_payload e' = te_payload e).

(** What every operation keeps besides the properties. *)
Definition step_ok (t : MalTable) (w : TableWorld) (t' : MalTable) (w' : TableWorld) : Prop :=
  prop_ok t' w' /\ hash_grows (tw_strings w) (tw_strings w') /\ entry_count t' <= entry_count t + 1 /\ handles_kept t t' /\
  satb t w t' w'.

Lemma satb_grows t w t' w' :
  (forall v, v ∈ tw_barriers w -> v ∈ tw_barriers w') ->
  (forall e, e ∈ live_rows (used_rows t) -> e ∈ live_rows (used_rows t')) -> satb t w t' w'.
Proof. intros Hb Hl. split; [done|]. intros e He. split; [|intros Ho]; right; exists e; auto. Qed.
Lemma satb_same t w t' w' : tw_barriers w' = tw_barriers w -> used_rows t' = used_rows t -> satb t w t' w'.
Proof. intros Hb Hu. apply satb_grows; intros ?; by rewrite ?Hb, ?Hu. Qed.
Lemma satb_insert h t w t' w' k e e' :
  used_rows t !! k = Some e -> mal_table_row_live e = true -> same_row h e e' -> used_rows t' = <[k := e']> (used_rows t) ->
  (forall v, v ∈ tw_barriers w -> v ∈ tw_barriers w') -> (mal_table_row_owned e = false -> te_payload e ∈ tw_barriers w') ->
  satb t w t' w'.
Proof.
  intros Hk Hl (_ & Hl' & Ei) Eu Hb Hv. split; [done|]. intros x [Hlx [j Hj]%list_elem_of_lookup_1]%live_rows_elem.
  assert (e' ∈ live_rows (used_rows t')) as Hin.
  { apply live_rows_elem. split; [done|]. rewrite Eu. apply list_elem_of_lookup_2 with k. apply list_lookup_insert_eq. by eapply lookup_lt_Some. }
  destruct (decide (j = k)) as [->|Hne].
  - assert (x = e) as -> by congruence. split; [right; by exists e'|]. intros Ho. left. by apply Hv.
  - assert (x ∈ live_rows (used_rows t')) as Hx.
    { apply live_rows_elem. split; [done|]. rewrite Eu. apply list_elem_of_lookup_2 with j. by rewrite list_lookup_insert_ne. }
    split; [|intros Ho]; right; by exists x.
Qed.
(** A row's key is that of its identity. *)
Lemma key_value_ident e : mal_table_key_value (ident e) = mal_table_key_value (te_key e).
Proof.
  assert (forall m, Z.land MAL_TABLE_IDENTITY_MASK m = m -> Z.land (ident e) m = Z.land (te_key e) m) as Hm.
  { intros m E. unfold ident. by rewrite <- Z.land_assoc, E. }
  assert (u32 (ident e) = u32 (te_key e)) as Eu.
  { unfold u32, wrap. rewrite <- !Z.land_ones by lia. by apply Hm. }
  unfold mal_table_key_value. rewrite Eu. by rewrite !(Hm MAL_TABLE_KIND_MASK), !(Hm MAKS_PTR).
Qed.
Lemma satb_trans t w t1 w1 t2 w2 : satb t w t1 w1 -> satb t1 w1 t2 w2 -> satb t w t2 w2.
Proof.
  intros [B1 S1] [B2 S2]. split; [auto|]. intros e He. destruct (S1 e He) as [K1 V1]. split.
  - destruct K1 as [K1|(e1 & He1 & Ei)]; [left; auto|]. destruct (S2 e1 He1) as [[K2|(e2 & He2 & Ei2)] _].
    + left. by rewrite <- key_value_ident, <- Ei, key_value_ident.
    + right. exists e2. split; [done|congruence].
  - intros Ho. destruct (V1 Ho) as [V|(e1 & He1 & Ho1 & Ep)]; [left; auto|]. destruct (S2 e1 He1) as [_ V2].
    destruct (V2 Ho1) as [V|(e2 & He2 & Ho2 & Ep2)]; [left; by rewrite <- Ep|right]. exists e2. repeat split; congruence.
Qed.

(** Barriers of the selected rows, and of those only. *)
Lemma shade_rows_elem P rows : forall w,
  (forall v, v ∈ tw_barriers w -> v ∈ tw_barriers (shade_rows P rows w)) /\
  forall e, e ∈ rows -> P e = true ->
    mal_table_key_value (te_key e) ∈ tw_barriers (shade_rows P rows w) /\
    (mal_table_row_owned e = false -> te_payload e ∈ tw_barriers (shade_rows P rows w)).
Proof.
  induction rows as [|x rows IH]; intros w; [split; [done|]; by intros e ?%elem_of_nil|]. rewrite shade_rows_cons.
  destruct (IH (if P x then shade_row x w else w)) as [B S]. destruct (shade_row_world x w) as (_ & _ & Eb). split.
  - intros v Hv. apply B. destruct (P x); [|done]. rewrite Eb, elem_of_app, elem_of_cons. auto.
  - intros e [->|He]%elem_of_cons Hp; [|by apply S]. rewrite Hp in *. split; [|intros Ho]; apply B; rewrite Eb, ?elem_of_app, elem_of_cons.
    + auto.
    + left. rewrite Ho. by left.
Qed.
Lemma satb_shaded P t w t' w' :
  tw_barriers w' = tw_barriers (shade_rows P (used_rows t) w) ->
  (forall e, e ∈ live_rows (used_rows t) -> P e = false -> e ∈ live_rows (used_rows t')) -> satb t w t' w'.
Proof.
  intros Eb Hl. unfold satb. rewrite Eb. destruct (shade_rows_elem P (used_rows t) w) as [B S]. split; [done|].
  intros e He. destruct (P e) eqn:Ep.
  - pose proof He as [_ Hin]%live_rows_elem. destruct (S e Hin Ep) as [S1 S2]. split; [by left|]. intros Ho. left. by apply S2.
  - specialize (Hl e He Ep). split; [|intros Ho]; right; by exists e.
Qed.

Lemma accessor_rows_app l l' : accessor_rows (l ++ l') <-> accessor_rows l /\ accessor_rows l'.
Proof. apply Forall_app. Qed.
Lemma accessor_live l : accessor_rows l -> accessor_rows (live_rows l).
Proof.
  intros Ha. apply Forall_forall. intros e [Hl He]%live_rows_elem. unfold accessor_rows in Ha. rewrite Forall_forall in Ha. by apply Ha.
Qed.
(** The properties depend on the live rows and their sidecars. *)
Lemma contents_cleaned h m m' rows' :
  accessor_rows rows' -> cleaned m m' rows' -> contents h m' rows' = contents h m rows'.
Proof.
  intros Ha [_ Hc]. apply prop_contents_ext; [done|]. intros p Hp. apply Hc. rewrite owned_data_split, elem_of_app. by left.
Qed.
Lemma accessor_rows_of_live rows : accessor_rows (live_rows rows) -> accessor_rows rows.
Proof.
  intros Ha. apply Forall_forall. intros e He Hl. unfold accessor_rows in Ha. rewrite Forall_forall in Ha. apply Ha; [|done].
  by apply live_rows_elem.
Qed.

Lemma rows_stable_app rows e : rows_stable rows (rows ++ [e]).
Proof.
  split; [rewrite length_app; lia|]. intros k x Hk Hl Hlt. rewrite lookup_app_l in Hk by done. by exists x.
Qed.
Lemma rows_stable_insert h rows k e e' :
  rows !! k = Some e -> mal_table_row_live e = true -> same_row h e e' -> rows_stable rows (<[k := e']> rows).
Proof.
  intros Hk Hl (_ & _ & Ei). split; [by rewrite length_insert|]. intros j x Hj Hlx Hlt.
  destruct (decide (j = k)) as [->|].
  - rewrite list_lookup_insert_eq in Hj by done. injection Hj as <-. by exists e.
  - rewrite list_lookup_insert_ne in Hj by done. by exists x.
Qed.

Section refine.
Variable MASK_SHIFT : Z.
Hypothesis Hshift : 0 <= MASK_SHIFT.
Variable raw : Z -> Z.
Variable alloc_sidecar : gmap Z (Z * Z) -> Z.
Hypothesis Halloc : forall m, m !! alloc_sidecar m = None /\ alloc_sidecar m <> 0.

(** * Writing through a handle *)

Lemma write_props t w n k d :
  prop_ok t w -> position (tw_strings w) (used_rows t) n = Some k -> desc_ok d ->
  exists t' w', mal_property_entry_write raw alloc_sidecar t w (Z.of_nat k + 1) d = Ret (t', w') /\ step_ok t w t' w' /\
    props_of t' w' = pupdate n (stored d) (props_of t w) /\ tw_strings w' = tw_strings w /\ entry_count t' = entry_count t /\
    handle_epoch t' = handle_epoch t.
Proof using Halloc.
  intros Hp Hpos Hd. pose proof Hp as [Hok Ho Ha]. set (h := tw_strings w) in *.
  destruct (position_split h _ n k (ok_names _ _ Hok) Hpos) as (pre & e & post & Eu & Hk & Hn & Habs).
  assert (used_rows t !! k = Some e) as He by (rewrite Eu, <- Hk; by apply list_lookup_middle).
  destruct (entry_write_ok raw alloc_sidecar Halloc t w k e d Hp He (proj1 Hn) Hd) as (e' & w' & E & Es & Hsame & Hacc & Hdesc & Hown & Hbar & Hpay & Hrest).
  destruct (set_row_ok h t k e e' Hok He (proj1 Hn) Hsame) as [Hok' Eu']. specialize (Hrest pre post Eu Hk).
  assert (used_rows (set_entry (Z.of_nat k) e' t) = pre ++ e' :: post) as Eu2.
  { rewrite Eu', Eu, <- (Nat2Z.id k). apply insert_middle. unfold arr_len. lia. }
  rewrite Eu in Ha. apply accessor_rows_app in Ha as [Ha1 Ha2]. apply Forall_cons in Ha2 as [_ Ha2].
  exists (set_entry (Z.of_nat k) e' t), w'. split; [done|]. split; [split|].
  - split; [by rewrite Es|by rewrite Eu'|]. rewrite Eu2. apply accessor_rows_app. split; [done|]. by constructor.
  - split; [rewrite Es; apply hash_grows_refl, (ok_heap _ _ Hok)|]. split; [cbn; lia|]. split.
    + right. split; [done|]. rewrite Eu'. exact (rows_stable_insert h _ k e e' He (proj1 Hn) Hsame).
    + exact (satb_insert h t w _ w' k e e' He (proj1 Hn) Hsame Eu' Hbar Hpay).
  - split; [|done]. unfold props_of. rewrite Es, Eu2, Eu. fold h.
    destruct (Habs (tw_sidecars w)) as [A1 A2]. rewrite (split_update _ _ _ _ _ _ Hn A1 A2).
    assert (forall l, accessor_rows l -> (forall p, p ∈ owned_data l -> p ∈ owned_data (pre ++ post)) ->
      contents h (tw_sidecars w') l = contents h (tw_sidecars w) l) as Hext.
    { intros l Hl Hsub. apply prop_contents_ext; [done|]. intros p Hp'. apply Hrest, Hsub. rewrite owned_data_split, elem_of_app. by left. }
    assert (holds_name h n e') as Hn'.
    { destruct Hsame as (_ & Hl & Ei), Hn as [_ Hn]. split; [done|]. unfold row_name in *. by rewrite Ei. }
    rewrite (split_contents h (tw_sidecars w') n pre post e' Hn'), Hdesc. f_equal; [|f_equal]; apply Hext; try done;
      intros p Hp'; rewrite owned_data_app, elem_of_app; auto.
Qed.

(** * Insertion *)

Lemma new_row_fields i n :
  ident_ok i -> mal_table_row_owned (new_row i n) = false /\ row_flags (new_row i n) = 0.
Proof using Type.
  intros Hi. pose proof (new_word_ok i (name_hash n) (ident_range i Hi)) as Hw. split; [by apply word_owned|by apply word_flags].
Qed.

Lemma upsert_props t w key n :
  prop_ok t w -> entry_count t < TABLE_ROOM -> key_name (tw_strings w) key = Some n ->
  exists k inserted t' w', mal_table_upsert_entry MASK_SHIFT raw t w key = Ret (Z.of_nat k + 1, inserted, t', w') /\
    step_ok t w t' w' /\ position (tw_strings w') (used_rows t') n = Some k /\
    match plookup n (props_of t w) with
    | Some _ => inserted = false /\ props_of t' w' = props_of t w
    | None => inserted = true /\ exists d, props_of t' w' = props_of t w ++ [(n, d)]
    end.
Proof using Hshift.
  intros [Hok Ho Ha] Hroom Hk. set (h := tw_strings w) in *.
  destruct (upsert_entry_ok MASK_SHIFT Hshift raw t w key n Hok Hk Hroom) as (handle & ins & t' & w' & E & Hw & Hok' & Hup & Hc & Hpin & Hep).
  destruct Hw as (Hg & Es & Eb). unfold upserted in Hup. fold h in Hup.
  assert (forall l, contents (tw_strings w') (tw_sidecars w') l = contents h (tw_sidecars w) l) as Ecs.
  { intros l. rewrite Es. by apply contents_grows. }
  unfold props_of. fold h.
  destruct (position h (used_rows t) n) as [k|] eqn:Epos.
  - destruct Hup as (-> & -> & Eu). exists k, false, t', w'. split; [done|]. rewrite Eu. split.
    + split; [split; [done|by rewrite Es, Eu|by rewrite Eu]|]. split; [done|]. split; [done|]. split; [right; split; [done|]; rewrite Eu; apply rows_stable_refl|by apply satb_same].
    + split; [by rewrite (position_grows h)|].
      destruct (position_split h _ n k (ok_names _ _ Hok) Epos) as (pre & e & post & Er & _ & Hn & Habs).
      rewrite Ecs, Er. by rewrite (split_lookup _ _ _ _ _ _ Hn (proj1 (Habs _))).
  - destruct Hup as (-> & -> & i & Hi & Hn & Eu). rewrite (contents_absent _ _ _ _ Epos).
    destruct (new_row_live i n Hi) as [Hl Ei]. destruct (new_row_fields i n Hi) as [Eow Efl].
    assert (owned_data (used_rows t ++ [new_row i n]) = owned_data (used_rows t)) as Eod.
    { rewrite owned_data_app, owned_data_cons, Eow. apply app_nil_r. }
    exists (length (used_rows t)), true, t', w'. unfold arr_len in *. split; [done|]. rewrite Eu. split; [|split].
    + split; [split; [done|unfold owns; by rewrite Es, Eu, Eod|]|split; [done|split; [lia|]]].
      * rewrite Eu. apply accessor_rows_app. split; [done|]. apply Forall_singleton. intros _. by rewrite Eow, Efl.
      * split; [right; split; [done|]; rewrite Eu; apply rows_stable_app|].
        apply satb_grows; [by rewrite Eb|]. intros e [He Hin]%live_rows_elem. apply live_rows_elem. rewrite Eu, elem_of_app. auto.
    + rewrite <- Eu. apply position_unique with (e := new_row i n); [apply (ok_names _ _ Hok')| |].
      * rewrite Eu. by apply list_lookup_middle.
      * split; [done|]. unfold row_name. rewrite Ei. by rewrite (hash_grows_name h).
    + split; [done|]. eexists. rewrite Ecs, contents_app, contents_cons, Hl. cbn. unfold row_name at 1. by rewrite Ei, Hn.
Qed.

Lemma step_ok_trans t w t1 w1 t2 w2 :
  prop_ok t w -> step_ok t w t1 w1 -> step_ok t1 w1 t2 w2 -> entry_count t2 <= entry_count t + 1 -> handle_epoch t1 = handle_epoch t ->
  handle_epoch t2 = handle_epoch t1 -> step_ok t w t2 w2.
Proof using Type.
  intros [Hok _ _] (_ & G1 & _ & S1 & B1) (P2 & G2 & _ & S2 & B2) Hc E1 E2. split; [done|]. split; [by eapply hash_grows_trans|]. split; [done|].
  pose proof (ok_epoch _ _ Hok) as He. split; [|by eapply satb_trans]. right. split; [congruence|].
  destruct S1 as [S1|[_ [L1 S1]]]; [rewrite E1 in S1; by apply eq_sym, next_epoch_ne in S1|].
  destruct S2 as [S2|[_ [L2 S2]]]; [rewrite E2, E1 in S2; by apply eq_sym, next_epoch_ne in S2|].
  split; [lia|]. intros k e' Hk Hl Hlt. destruct (S2 k e' Hk Hl) as (e & He' & Hl' & <-); [lia|]. by apply (S1 k e).
Qed.

(** [mal_property_define] and [mal_property_set_value]. *)
Lemma upsert_write_props t w key n d :
  prop_ok t w -> entry_count t < TABLE_ROOM -> key_name (tw_strings w) key = Some n -> desc_ok d ->
  exists k inserted t1 w1 t' w', mal_table_upsert_entry MASK_SHIFT raw t w key = Ret (Z.of_nat k + 1, inserted, t1, w1) /\
    mal_property_entry_write raw alloc_sidecar t1 w1 (Z.of_nat k + 1) d = Ret (t', w') /\ step_ok t w t' w' /\
    props_of t' w' = pset n (stored d) (props_of t w) /\
    inserted = (match plookup n (props_of t w) with Some _ => false | None => true end).
Proof using Hshift Halloc.
  intros Hp Hroom Hk Hd. destruct (upsert_props t w key n Hp Hroom Hk) as (k & ins & t1 & w1 & E & Hs & Hpos & Hup).
  destruct (write_props t1 w1 n k d (proj1 Hs) Hpos Hd) as (t' & w' & E' & Hs' & Hprops & Estr & Ecnt & Eep).
  exists k, ins, t1, w1, t', w'. split; [done|]. split; [done|]. split.
  - destruct Hs as (P1 & G1 & C1 & S1). destruct Hp as [Hok Ho Ha].
    destruct (upsert_entry_ok MASK_SHIFT Hshift raw t w key n Hok Hk Hroom) as (? & ? & ? & ? & E2 & _ & _ & _ & _ & _ & Hep).
    rewrite E in E2. injection E2 as <- <- <- <-. eapply step_ok_trans; [by split|by split|done|lia|done|done].
  - rewrite Hprops. unfold pset. destruct (plookup n (props_of t w)) eqn:El.
    + destruct Hup as [-> ->]. done.
    + destruct Hup as [-> [d0 ->]]. split; [|done]. unfold pupdate. rewrite map_app. cbn. rewrite decide_True by done.
      f_equal. by apply pupdate_absent.
Qed.
End refine.
