(* ===== verification/PropertyReads.v ===== *)
(** Removal, filtering and reading of properties: what deletion, clearing, filtering,
    compaction, reservation and the pins do to the list of properties, and lookups,
    descriptor reads, writes through a handle and the iterator against that list. *)

From stdpp Require Import gmap.
From S2P Require Import Prelude F64 Value HeapString HeapStringSpec Key HashIndex MapObject MapRows MapStore StringHeap.
From S2P Require Import Table TableKeys TableSpec TableOps TableUpdate TableSweep PropertyStore PropertySpec PropertyRefine.

(** The properties whose key passes. *)
Definition pkeep (kept : PropKey -> bool) (l : Props) : Props := filter (fun x => kept x.1 = true) l.
(** A predicate of [mal_table_retain]: it is given the key's value. *)
Definition keep_of (h : StringHeap) (kept : PropKey -> bool) (v : Z) : bool :=
  match key_name h (mal_key_from_value v) with Some n => kept n | None => true end.

Lemma keep_of_row h kept e :
  row_ok h e -> mal_table_row_live e = true -> rejected_row (keep_of h kept) e = negb (kept (row_name h e)).
Proof.
  intros Hr Hl. unfold rejected_row, keep_of. rewrite Hl. by destruct (key_of_row h e Hr Hl) as [_ ->].
Qed.

Lemma contents_filter h m kept rows :
  Forall (row_ok h) rows ->
  map (fun e => (row_name h e, row_desc m e)) (filter (fun e => rejected_row (keep_of h kept) e = false) (live_rows rows))
  = pkeep kept (contents h m rows).
Proof.
  intros Hr. unfold contents, pkeep. assert (Forall (row_ok h) (live_rows rows)) as Hr'.
  { rewrite Forall_forall in Hr |- *. intros e [_ He]%live_rows_elem. by apply Hr. }
  assert (Forall (fun e => mal_table_row_live e = true) (live_rows rows)) as Hl by apply Forall_forall, live_rows_elem.
  induction (live_rows rows) as [|e l IH]; [done|]. apply Forall_cons in Hr' as [He Hr'], Hl as [Hle Hl].
  rewrite filter_cons. cbn [map]. rewrite filter_cons, (keep_of_row h kept e He Hle). cbn [fst].
  destruct (kept (row_name h e)); cbn [negb].
  - rewrite !decide_True by done. cbn [map]. f_equal. by apply IH.
  - rewrite !decide_False by done. by apply IH.
Qed.

(** Barriers of the selected rows only. *)
Lemma shade_rows_none P rows w : (forall e, e ∈ rows -> P e = false) -> shade_rows P rows w = w.
Proof.
  induction rows as [|e rows IH]; [done|]. intros Hn. rewrite shade_rows_cons, (Hn e) by (by left). apply IH.
  intros x Hx. apply Hn. by right.
Qed.
Lemma shade_rows_app P l l' w : shade_rows P (l ++ l') w = shade_rows P l' (shade_rows P l w).
Proof. apply fold_left_app. Qed.
Lemma absent_unheld h m n rows e :
  plookup n (contents h m rows) = None -> e ∈ rows -> bool_decide (holds_name h n e) = false.
Proof.
  intros Hn He. apply bool_decide_false. intros [Hl En]. rewrite plookup_none in Hn. apply (Hn (row_desc m e)).
  apply list_elem_of_fmap. exists e. rewrite En. split; [done|]. by apply live_rows_elem.
Qed.

(** * Operations that may sweep *)

Lemma swept_props t w t' w' :
  prop_ok t w -> swept t w t' w' -> (forall e, e ∈ live_rows (used_rows t') -> e ∈ live_rows (used_rows t)) ->
  satb t w t' w' -> step_ok t w t' w' /\
  props_of t' w' = map (fun e => (row_name (tw_strings w) e, row_desc (tw_sidecars w) e)) (live_rows (used_rows t')).
Proof.
  intros [Hok Ho Ha] (Hok' & Hg & _ & Hc & Hcl & Hh) Hsub Hsatb.
  assert (accessor_rows (used_rows t')) as Ha'.
  { apply accessor_rows_of_live, Forall_forall. intros e He Hl. apply Hsub, live_rows_elem in He as [_ He].
    unfold accessor_rows in Ha. rewrite Forall_forall in Ha. by apply Ha. }
  split.
  - split; [split; [done|apply Hcl|done]|]. split; [done|]. split; [lia|done].
  - unfold props_of. rewrite (contents_grows (tw_strings w)) by done. by rewrite (contents_cleaned _ (tw_sidecars w)).
Qed.

Section sweep.
Variable MASK_SHIFT : Z.
Hypothesis Hshift : 0 <= MASK_SHIFT.
Variable raw : Z -> Z.

Lemma compact_props t w :
  prop_ok t w -> entry_count t < TABLE_ROOM ->
  exists t' w', mal_table_compact MASK_SHIFT raw t w = Ret (t', w') /\ step_ok t w t' w' /\ props_of t' w' = props_of t w.
Proof using Hshift.
  intros Hp Hroom. pose proof Hp as [Hok Ho Ha].
  destruct (compact_swept MASK_SHIFT Hshift raw t w Hok Hroom Ho) as (t' & w' & E & Hs & Eb & Eu & _).
  assert (live_rows (used_rows t') = live_rows (used_rows t)) as El.
  { rewrite Eu. destruct (_ =? _); [apply live_rows_idemp|done]. }
  destruct (swept_props t w t' w' Hp Hs) as [Hst Epr]; [by rewrite El|apply satb_grows; intros ?; by rewrite ?Eb, ?El|]. exists t', w'. split; [done|]. split; [done|].
  by rewrite Epr, El.
Qed.

Lemma clear_props t w :
  prop_ok t w -> entry_count t < TABLE_ROOM ->
  exists t' w', mal_table_clear MASK_SHIFT raw t w = Ret (t', w') /\ step_ok t w t' w' /\ props_of t' w' = [] /\
    tw_barriers w' = tw_barriers (shade_rows mal_table_row_live (used_rows t) w).
Proof using Hshift.
  intros Hp Hroom. pose proof Hp as [Hok Ho Ha].
  destruct (table_clear_ok MASK_SHIFT Hshift raw t w Hok Hroom Ho) as (t' & w' & E & Hs & Eb & Eu).
  assert (live_rows (used_rows t') = []) as El.
  { rewrite Eu. destruct (_ =? _); [done|]. rewrite (kill_if_live _ (tw_strings w)) by apply (ok_rows _ _ Hok).
    apply elem_of_nil_inv. intros e [He [Hl' _]%live_rows_elem]%list_elem_of_filter. congruence. }
  destruct (swept_props t w t' w' Hp Hs) as [Hst Epr]; [rewrite El; by intros e ?%elem_of_nil| |].
  { eapply satb_shaded; [exact Eb|]. intros e [Hl _]%live_rows_elem. congruence. }
  exists t', w'. do 2 (split; [done|]). split; [by rewrite Epr, El|done].
Qed.

Lemma retain_props kept t w :
  prop_ok t w -> entry_count t < TABLE_ROOM ->
  exists t' w', mal_table_retain MASK_SHIFT raw (keep_of (tw_strings w) kept) t w
      = Ret (arr_len (props_of t w) - arr_len (pkeep kept (props_of t w)), t', w') /\
    step_ok t w t' w' /\ props_of t' w' = pkeep kept (props_of t w) /\
    tw_barriers w' = tw_barriers (shade_rows (rejected_row (keep_of (tw_strings w) kept)) (used_rows t) w).
Proof using Hshift.
  intros Hp Hroom. pose proof Hp as [Hok Ho Ha]. pose proof (ok_rows _ _ Hok) as Hr. set (h := tw_strings w) in *. set (keep := keep_of h kept).
  destruct (retain_ok MASK_SHIFT Hshift raw keep t w Hok Hroom Ho) as (t' & w' & E & Hs & Eb & El).
  destruct (swept_props t w t' w' Hp Hs) as [Hst Epr].
  { rewrite El. by intros e [_ He]%list_elem_of_filter. }
  { eapply satb_shaded; [exact Eb|]. intros e He Hk. rewrite El. by apply list_elem_of_filter. }
  rewrite El in Epr. fold h in Epr. unfold keep in Epr. rewrite contents_filter in Epr by done. fold (props_of t w) in Epr.
  exists t', w'. rewrite E. split; [|done]. repeat f_equal. unfold props_of. fold h.
  rewrite <- (contents_filter h (tw_sidecars w) kept (used_rows t) Hr). fold keep. unfold contents, arr_len. rewrite !length_map.
  rewrite <- (kill_if_live _ h) by done.
  pose proof (kill_if_count _ (rejected_live keep) h (used_rows t) Hr) as Hc. unfold live_count, arr_len in Hc. lia.
Qed.

Lemma reserve_props t w desired :
  prop_ok t w -> entry_count t < TABLE_ROOM ->
  exists b t' w', mal_table_reserve MASK_SHIFT raw t w desired = Ret (b, t', w') /\ step_ok t w t' w' /\ props_of t' w' = props_of t w.
Proof using Hshift.
  intros [Hok Ho Ha] Hroom. destruct (table_reserve_ok MASK_SHIFT Hshift raw t w desired Hok Hroom) as (b & t' & w' & E & (Hg & Es & Eb) & Hok' & (Eu & Ec & _ & _ & _ & Ee) & _).
  exists b, t', w'. split; [done|]. split.
  - split; [split; [done|by rewrite Es, Eu|by rewrite Eu]|]. split; [done|]. split; [lia|]. split; [right; split; [done|]; rewrite Eu; apply rows_stable_refl|by apply satb_same].
  - unfold props_of. by rewrite Eu, Es, (contents_grows (tw_strings w)).
Qed.

(** Pinning changes no property. *)
Lemma pins_props t w n :
  prop_ok t w -> in_u 32 n -> step_ok t w (set_iterator_pins n t) w /\ props_of (set_iterator_pins n t) w = props_of t w.
Proof using Type.
  intros [[] Ho Ha] Hn. split; [|done]. split; [split; [by split|done|done]|].
  split; [by apply hash_grows_refl|]. split; [cbn; lia|]. split; [right; split; [done|apply rows_stable_refl]|by apply satb_same].
Qed.

(** * Deletion *)

Lemma delete_props t w key n :
  prop_ok t w -> key_name (tw_strings w) key = Some n ->
  exists t' w', mal_table_delete MASK_SHIFT t w key = Ret (bool_decide (is_Some (plookup n (props_of t w))), t', w') /\
    step_ok t w t' w' /\ props_of t' w' = premove n (props_of t w) /\
    tw_barriers w' = tw_barriers (shade_rows (fun e => bool_decide (holds_name (tw_strings w) n e)) (used_rows t) w).
Proof using Hshift.
  intros [Hok Ho Ha] Hk. set (h := tw_strings w) in *.
  destruct (table_delete_ok MASK_SHIFT Hshift t w key n Hok Hk) as (b & t' & w' & E & Hok' & Ec & Ep & Ee & Hd). fold h in Hd.
  exists t', w'. rewrite E. unfold props_of. fold h. destruct (position h (used_rows t) n) as [k|] eqn:Epos.
  - destruct Hd as (-> & e & He & Eu & Hg & Es & Eb).
    destruct (position_split h _ n k (ok_names _ _ Hok) Epos) as (pre & e0 & post & Er & Hpre & Hn & Habs).
    assert (e0 = e) as -> by (rewrite Er, list_lookup_middle in He by done; by injection He).
    destruct (Habs (tw_sidecars w)) as [A1 A2].
    assert (used_rows t' = pre ++ kill_row e :: post) as Eu'.
    { rewrite Eu, Er, <- (Nat2Z.id k). apply insert_middle. unfold arr_len. lia. }
    assert (row_ok h e) as Hrow by (eapply Forall_lookup_1; [apply (ok_rows _ _ Hok)|exact He]).
    destruct (kill_row_spec h e Hrow) as (_ & Hdead & Epay & Eown).
    rewrite Er. rewrite (split_lookup _ _ _ _ _ _ Hn A1), (split_remove _ _ _ _ _ _ Hn A1 A2). rewrite Er in Ha, Ho.
    apply accessor_rows_app in Ha as [Ha1 Ha2]. apply Forall_cons in Ha2 as [_ Ha2].
    assert (owned_data (used_rows t') = owned_data (pre ++ e :: post)) as Eod.
    { rewrite Eu', !owned_data_app, !owned_data_cons, Epay, Eown. done. }
    assert (tw_barriers w' = tw_barriers (shade_rows (fun e => bool_decide (holds_name h n e)) (pre ++ e :: post) w)) as Eb'.
    { rewrite Eb, shade_rows_app, shade_rows_cons, bool_decide_true by done.
      rewrite (shade_rows_none _ pre), (shade_rows_none _ post); [done| |]; intros x; by apply (absent_unheld h (tw_sidecars w)). }
    split; [by rewrite bool_decide_true|]. split; [|split].
    + split; [split; [done|unfold owns; by rewrite Eod, Es|]|].
      * rewrite Eu'. apply accessor_rows_app. split; [done|]. constructor; [congruence|done].
      * split; [done|]. split; [lia|]. split.
        { right. split; [done|]. rewrite Eu. split; [by rewrite length_insert|]. intros j x Hj Hl Hlt.
          destruct (decide (j = k)) as [->|]; [rewrite list_lookup_insert_eq in Hj by done; injection Hj as <-; congruence|].
          rewrite list_lookup_insert_ne in Hj by done. by exists x. }
        rewrite <- Er in Eb'. eapply satb_shaded; [exact Eb'|]. intros x [Hl Hx]%live_rows_elem Hnot%bool_decide_eq_false.
        apply live_rows_elem. split; [done|]. rewrite Er in Hx. rewrite Eu'. rewrite elem_of_app, elem_of_cons in *.
        destruct Hx as [?|[->|?]]; [by left|done|by do 2 right].
    + rewrite Eu', Es, contents_app, contents_cons, Hdead. cbn [app]. by rewrite !(contents_grows h (tw_strings w')).
    + exact Eb'.
  - destruct Hd as (-> & Eu & Hg & Es & Eb). rewrite (contents_absent _ _ _ _ Epos).
    split; [by rewrite bool_decide_false by (by intros [])|]. rewrite Eu. split; [|split].
    + split; [split; [done|by rewrite Eu, Es|by rewrite Eu]|]. split; [done|]. split; [lia|].
      split; [right; split; [done|]; rewrite Eu; apply rows_stable_refl|by apply satb_same].
    + rewrite Es, (contents_grows h) by done. by rewrite premove_absent by (by apply contents_absent).
    + rewrite Eb, shade_rows_none; [done|]. intros e. apply (absent_unheld h (tw_sidecars w)). by apply contents_absent.
Qed.
End sweep.

(** What [mal_property_read] answers of a property. *)
Definition read_answer (d : option MalPropertyDesc) : MalPropertyReadKind * Z :=
  match d with
  | None => (MAL_PROPERTY_READ_MISSING, 0)
  | Some d => if has_accessor (pd_flags d) then (MAL_PROPERTY_READ_ACCESSOR, pd_getter d) else (MAL_PROPERTY_READ_DATA, pd_value d)
  end.

Lemma hashed_props t w w' :
  prop_ok t w -> world_hashed w w' -> step_ok t w t w' /\ props_of t w' = props_of t w.
Proof.
  intros [Hok Ho Ha] (Hg & Es & Eb). split.
  - split; [split; [by eapply table_ok_grows|by rewrite Es|done]|]. split; [done|]. split; [lia|].
    split; [right; split; [done|apply rows_stable_refl]|by apply satb_same].
  - unfold props_of. by rewrite Es, (contents_grows (tw_strings w)).
Qed.

(** The row of a property that is there, and none of one that is not. *)
Lemma plookup_position t w n :
  prop_ok t w ->
  match position (tw_strings w) (used_rows t) n with
  | Some k => exists e, used_rows t !! k = Some e /\ mal_table_row_live e = true /\
                plookup n (props_of t w) = Some (row_desc (tw_sidecars w) e)
  | None => plookup n (props_of t w) = None
  end.
Proof.
  intros [Hok Ho Ha]. destruct (position _ _ n) as [k|] eqn:Epos; [|by apply contents_absent].
  destruct (position_split _ _ n k (ok_names _ _ Hok) Epos) as (pre & e & post & Er & Hk & Hn & Habs).
  exists e. unfold props_of. rewrite Er. split; [by rewrite list_lookup_middle|]. split; [apply Hn|].
  by rewrite (split_lookup _ _ _ _ _ _ Hn (proj1 (Habs _))).
Qed.

Section reads.
Variable MASK_SHIFT : Z.
Hypothesis Hshift : 0 <= MASK_SHIFT.
Variable raw : Z -> Z.
Variable alloc_sidecar : gmap Z (Z * Z) -> Z.
Hypothesis Halloc : forall m, m !! alloc_sidecar m = None /\ alloc_sidecar m <> 0.

Lemma lookup_props t w key n :
  prop_ok t w -> key_name (tw_strings w) key = Some n ->
  exists w', mal_table_lookup MASK_SHIFT t w key = Ret (handle_of (position (tw_strings w) (used_rows t) n), w') /\
    mal_property_lookup MASK_SHIFT t w key
    = Ret (match position (tw_strings w) (used_rows t) n with
           | Some k => (fun d => (Z.of_nat k + 1, d)) <$> plookup n (props_of t w)
           | None => None
           end, w') /\
    mal_property_read MASK_SHIFT t w key = Ret (read_answer (plookup n (props_of t w)), w') /\ world_hashed w w'.
Proof using Hshift.
  intros Hp Hk. destruct (lookup_ok MASK_SHIFT Hshift t w key n (po_table _ _ Hp) Hk) as (w' & E & Hw).
  exists w'. split; [done|]. unfold mal_property_lookup, mal_property_read. rewrite E. cbn [mbind outcome_bind].
  pose proof (plookup_position t w n Hp) as Hpos. destruct (hashed_props t w w' Hp Hw) as [[Hp' _] _]. pose proof Hw as (_ & Es & _).
  destruct (position _ _ n) as [k|]; cbn [handle_of fmap option_fmap option_map]; [|by rewrite Hpos].
  destruct Hpos as (e & He & Hl & ->). rewrite (entry_read_ok t w' k e Hp' He Hl), Es. cbn [mbind outcome_bind]. split; [done|].
  split; [|done]. destruct (row_handle _ _ _ _ (po_table _ _ Hp) He) as [_ Eh].
  pose proof (entry_read_ok t w' k e Hp' He Hl) as Er. unfold mal_property_entry_read in Er.
  unfold mal_table_entry_property_flags, mal_table_entry_value in *. rewrite Eh in *.
  unfold read_answer, row_desc in *. destruct (has_accessor (row_flags e)) eqn:Ea; cbn [negb] in *.
  - destruct (accessors_at _ _) as [[g s]| |]; [|done|done]. cbn [mbind outcome_bind] in *. injection Er as Er. rewrite <- Es, <- Er. cbn.
    by rewrite Ea.
  - cbn. by rewrite Ea.
Qed.

Lemma ensure_props t w key n d :
  prop_ok t w -> entry_count t < TABLE_ROOM -> key_name (tw_strings w) key = Some n -> desc_ok d ->
  exists handle t' w', mal_property_ensure MASK_SHIFT raw alloc_sidecar t w key d
    = Ret (bool_decide (plookup n (props_of t w) = None), handle, default d (plookup n (props_of t w)), t', w') /\
    step_ok t w t' w' /\
    props_of t' w' = match plookup n (props_of t w) with Some _ => props_of t w | None => props_of t w ++ [(n, stored d)] end.
Proof using Hshift Halloc.
  intros Hp Hroom Hk Hd.
  destruct (upsert_write_props MASK_SHIFT Hshift raw alloc_sidecar Halloc t w key n d Hp Hroom Hk Hd) as (k & ins & t1 & w1 & t2 & w2 & E & Ew & Hst & Epr & Eins).
  destruct (upsert_props MASK_SHIFT Hshift raw t w key n Hp Hroom Hk) as (k' & ins' & t1' & w1' & E' & Hst1 & Hpos & Hup).
  rewrite E in E'. injection E' as E1 <- <- <-. assert (k' = k) as -> by lia. unfold mal_property_ensure. rewrite E. cbn [mbind outcome_bind].
  pose proof (plookup_position t1 w1 n (proj1 Hst1)) as Hpl. rewrite Hpos in Hpl. destruct Hpl as (e & He & Hl & Epl).
  destruct (plookup n (props_of t w)) as [d0|] eqn:El.
  - destruct Hup as [-> Eup]. rewrite (entry_read_ok t1 w1 k e (proj1 Hst1) He Hl). cbn [mbind outcome_bind].
    rewrite Eup, El in Epl. injection Epl as <-. eexists _, _, _. split; [by rewrite bool_decide_false|done].
  - destruct Hup as [-> _]. rewrite Ew. cbn [mbind outcome_bind]. eexists _, _, _. split; [by rewrite bool_decide_true|].
    split; [done|]. rewrite Epr. unfold pset. by rewrite El.
Qed.

(** [mal_property_write_entry] at the handle of a property. *)
Lemma write_entry_props t w n k d :
  prop_ok t w -> position (tw_strings w) (used_rows t) n = Some k -> desc_ok d ->
  exists t' w', mal_property_write_entry raw alloc_sidecar t w (Z.of_nat k + 1) d = Ret (t', w') /\ step_ok t w t' w' /\
    props_of t' w' = pset n (stored d) (props_of t w).
Proof using Halloc.
  intros Hp Hpos Hd. pose proof (plookup_position t w n Hp) as Hpl. rewrite Hpos in Hpl. destruct Hpl as (e & He & Hl & Epl).
  unfold mal_property_write_entry. rewrite (entry_read_ok t w k e Hp He Hl). cbn [mbind outcome_bind].
  match goal with |- context [mal_property_entry_write _ _ t ?x] => set (w1 := x) end.
  assert (prop_ok t w1) as Hp1 by (by destruct Hp).
  destruct (write_props raw alloc_sidecar Halloc t w1 n k d Hp1 Hpos Hd) as (t' & w' & E & Hst & Epr & _).
  exists t', w'. split; [done|]. split; [|unfold pset; by rewrite Epl].
  destruct Hst as (S1 & S2 & S3 & S4 & S5). do 4 (split; [done|]). eapply satb_trans; [|exact S5].
  apply satb_grows; [|done]. intros v Hv. cbn. rewrite !elem_of_cons. tauto.
Qed.
End reads.

(** * Iteration *)

(** Reading every property with the iterator. *)
Fixpoint iterate (fuel : nat) (t : MalTable) (w : TableWorld) (index : Z) : outcome (list (MalKey * MalPropertyDesc)) :=
  match fuel with
  | O => NoFuel
  | S fuel =>
      match mal_table_iter_next t index with
      | (None, _) => Ret []
      | (Some (key, handle), index) =>
          desc ← mal_property_entry_desc t w handle;
          rest ← iterate fuel t w index;
          Ret ((mal_property_entry_key t handle, desc) :: rest)
      end
  end.
Definition own_properties (t : MalTable) (w : TableWorld) : outcome (list (MalKey * MalPropertyDesc)) :=
  iterate (S (Z.to_nat (mal_table_size t))) t w mal_table_iter_init.
(** The keys by name. *)
Definition named (h : StringHeap) (l : list (MalKey * MalPropertyDesc)) : list (option PropKey * MalPropertyDesc) :=
  map (fun '(key, d) => (key_name h key, d)) l.

Section iterate.
Context (t : MalTable) (w : TableWorld).
Hypothesis Hp : prop_ok t w.

(** The iterator at row [length pre]. *)
Lemma table_iter_next_ok post : forall pre,
  used_rows t = pre ++ post ->
  match live_rows post with
  | [] => exists i, mal_table_iter_next t (arr_len pre) = (None, i)
  | e :: _ => exists dead post', post = dead ++ e :: post' /\ live_rows dead = [] /\
      mal_table_iter_next t (arr_len pre)
      = (Some (mal_table_decode_key (te_key e), arr_len (pre ++ dead) + 1), arr_len (pre ++ dead ++ [e]))
  end.
Proof using Hp.
  pose proof (po_table _ _ Hp) as Hok. pose proof (used_len _ _ Hok) as Hu. pose proof (ok_count _ _ Hok). pose proof (ok_capacity _ _ Hok).
  pose proof (base_entries _ _ (table_base _ _ Hok)) as Hf.
  induction post as [|e post IH]; intros pre Er; rewrite Er, arr_len_app in Hu; unfold mal_table_iter_next.
  - exists (arr_len pre). change (arr_len []) with 0 in Hu. replace (entry_count t - arr_len pre) with 0 by lia. done.
  - assert (arr_len (e :: post) = 1 + arr_len post) as El by (unfold arr_len; cbn [length]; lia). rewrite El in Hu.
    pose proof (arr_len_nonneg post). pose proof (arr_len_nonneg pre). pose proof (entry_middle t pre e post Hf Er) as Ee.
    replace (Z.to_nat (entry_count t - arr_len pre)) with (S (Z.to_nat (entry_count t - arr_len (pre ++ [e]))))
      by (rewrite arr_len_app; change (arr_len [e]) with 1; lia).
    cbn [iter_loop]. destruct (Z.ltb_spec (arr_len pre) (entry_count t)); [|lia].
    assert (u32 (arr_len pre) = arr_len pre) as -> by (apply wrap_small; unfold in_u; lia). rewrite Ee, live_rows_cons.
    replace (arr_len pre + 1) with (arr_len (pre ++ [e])) by (by rewrite arr_len_app).
    destruct (mal_table_row_live e) eqn:Hl; cbn [negb app].
    + exists [], post. do 2 (split; [done|]). rewrite app_nil_r. f_equal. do 3 f_equal. apply handle_of_index. lia.
    + specialize (IH (pre ++ [e])). rewrite <- app_assoc in IH. specialize (IH Er). unfold mal_table_iter_next in IH.
      destruct (live_rows post); [done|]. destruct IH as (dead & post' & -> & Hd & ->). exists (e :: dead), post'.
      split; [done|]. rewrite live_rows_cons, Hl. split; [done|]. by rewrite <- !app_assoc.
Qed.

Lemma iterate_ok fuel : forall pre post,
  used_rows t = pre ++ post -> (length (live_rows post) < fuel)%nat ->
  exists l, iterate fuel t w (arr_len pre) = Ret l /\
    named (tw_strings w) l = map (fun '(n, d) => (Some n, d)) (contents (tw_strings w) (tw_sidecars w) post).
Proof using Hp.
  induction fuel as [|fuel IH]; intros pre post Er Hfuel; [lia|]. cbn [iterate]. pose proof (table_iter_next_ok post pre Er) as Hn.
  unfold contents at 1. destruct (live_rows post) as [|e l] eqn:El.
  - destruct Hn as [i ->]. by exists [].
  - destruct Hn as (dead & post' & -> & Hd & ->).
    assert (live_rows post' = l /\ mal_table_row_live e = true) as [El' Hl].
    { unfold live_rows in El. rewrite filter_app in El. fold (live_rows dead) (live_rows (e :: post')) in El.
      rewrite Hd, live_rows_cons in El. cbn [app] in El. destruct (mal_table_row_live e) eqn:Hl; [by injection El|].
      assert (e ∈ live_rows post') as [? _]%live_rows_elem by (cbn [app] in El; rewrite El; by left). congruence. }
    rewrite app_assoc in Er.
    assert (used_rows t !! length (pre ++ dead) = Some e) as He by (by rewrite Er, list_lookup_middle).
    assert (row_ok (tw_strings w) e) as Hr by (eapply Forall_lookup_1; [apply (ok_rows _ _ (po_table _ _ Hp))|exact He]).
    unfold mal_property_entry_desc, mal_property_entry_key, mal_table_entry_key.
    destruct (row_handle _ _ _ _ (po_table _ _ Hp) He) as [_ Eh]. change (arr_len (pre ++ dead)) with (Z.of_nat (length (pre ++ dead))). rewrite Eh.
    rewrite (entry_read_ok t w _ e Hp He Hl). cbn [mbind outcome_bind].
    destruct (IH (pre ++ dead ++ [e]) post') as (rest & -> & Erest).
    { rewrite Er, <- !app_assoc. done. }
    { rewrite El'. cbn in Hfuel. lia. }
    cbn [mbind outcome_bind]. eexists. split; [done|]. cbn [named map]. unfold named in Erest. rewrite Erest.
    destruct (key_of_row _ e Hr Hl) as [-> _]. unfold contents. by rewrite El'.
Qed.

(** The iterator visits every property, in order. *)
Lemma own_properties_ok :
  exists l, own_properties t w = Ret l /\ named (tw_strings w) l = map (fun '(n, d) => (Some n, d)) (props_of t w).
Proof using Hp.
  apply (iterate_ok _ []); [done|]. unfold mal_table_size. rewrite (ok_size _ _ (po_table _ _ Hp)). unfold arr_len. lia.
Qed.
End iterate.
