(* ===== verification/PropertyHints.v ===== *)
(** Cached row numbers (Table, PropertyStore): a hint that is accepted names the row a
    lookup finds, a handle is revalidated exactly when a lookup answers it, and private
    elements are read through any hint. *)

From stdpp Require Import gmap.
From S2P Require Import Prelude F64 Value HeapString HeapStringSpec Key HashIndex MapObject MapRows MapStore StringHeap.
From S2P Require Import Table TableKeys TableSpec TableOps TableUpdate TableSweep PropertyStore PropertySpec PropertyRefine PropertyReads.

Lemma ident_live e : ident_ok (ident e) -> mal_table_row_live e = true.
Proof.
  intros Hi. pose proof (kind_mask (ident e) (ident_range _ Hi)) as Hk.
  assert (Z.land (ident e) MAL_TABLE_KIND_MASK = Z.land (te_key e) MAL_TABLE_KIND_MASK) as E.
  { unfold ident. by rewrite <- Z.land_assoc. }
  unfold mal_table_row_live. rewrite <- E, Hk. destruct Hi as [Hi _]. destruct (Z.eqb_spec (id_kind (ident e) * 2 ^ 48) 0); [lia|done].
Qed.

(** The identity of a row and its ownership, in one comparison. *)
Lemma unowned_mask e i :
  0 <= i < 2 ^ 50 -> Z.land (te_key e) (Z.lor MAL_TABLE_IDENTITY_MASK MAL_TABLE_OWNS_DATA) = i <-> ident e = i /\ mal_table_row_owned e = false.
Proof.
  intros Hi. unfold ident, mal_table_row_owned.
  assert (Z.land i MAL_TABLE_IDENTITY_MASK = i) as Em.
  { change MAL_TABLE_IDENTITY_MASK with (Z.ones 50). rewrite Z.land_ones by lia. by apply Z.mod_small. }
  split.
  - intros E. split.
    + rewrite <- Em, <- E. rewrite <- Z.land_assoc. f_equal.
    + rewrite negb_false_iff, Z.eqb_eq. transitivity (Z.land i MAL_TABLE_OWNS_DATA); [rewrite <- E, <- Z.land_assoc; f_equal|].
      rewrite <- Em, <- Z.land_assoc. change (Z.land MAL_TABLE_IDENTITY_MASK MAL_TABLE_OWNS_DATA) with 0. apply Z.land_0_r.
  - intros [E1 E2%negb_false_iff%Z.eqb_eq]. rewrite Z.land_lor_distr_r, E1, E2. apply Z.lor_0_r.
Qed.
(** What the readers compare with: the identity of a string or symbol key. *)
Lemma pointer_key_ident h key n k :
  key_name h (mal_key_from_value key) = Some n ->
  (k = 2 /\ mal_value_is_string key = true) \/ (k = 3 /\ mal_value_is_string key = false /\ mal_value_is_symbol key = true) ->
  exists i, Z.lor (Z.shiftl k MAL_TABLE_KIND_SHIFT) (Z.land key MAKS_PTR) = i /\ ident_ok i /\ name_of h i = n.
Proof.
  intros Hk Hc. destruct (or_pointer k key) as [E Hr]. rewrite E. exists (mal_value_to_heap key + k * 2 ^ 48). split; [done|].
  pose proof (key_ident_ok h (mal_key_from_value key)) as Hi. rewrite Hk in Hi.
  assert (key_ident (mal_key_from_value key) = Some (mal_value_to_heap key + k * 2 ^ 48)) as Ei.
  { unfold key_ident, mal_key_from_value. cbn [key_kind key_value]. unfold mal_key_kind_of.
    destruct Hc as [[-> ->]|(-> & -> & Es)]; [done|by rewrite !Es]. }
  rewrite Ei in Hi. destruct Hi as [Hi En]. split; [done|]. by injection En.
Qed.

Section hints.
Context (t : MalTable) (w : TableWorld).
Hypothesis Hp : prop_ok t w.
Let h := tw_strings w.
Let rows := used_rows t.

(** A row with the identity of a key is its row. *)
Lemma ident_row k e : rows !! k = Some e -> ident_ok (ident e) ->
  mal_table_row_live e = true /\ position h rows (name_of h (ident e)) = Some k.
Proof using Hp.
  intros Hk Hi. pose proof (ident_live e Hi) as Hl. split; [done|].
  apply (position_unique h rows _ k e); [apply (ok_names _ _ (po_table _ _ Hp))|done|by split].
Qed.
(** The row of a key that is no string has its identity. *)
Lemma exact_row k i :
  ident_ok i -> id_kind i <> 2 -> position h rows (name_of h i) = Some k -> exists e, rows !! k = Some e /\ ident e = i.
Proof using Hp.
  intros Hi Hk (e & He & Hl & En)%position_some. exists e. split; [done|]. unfold row_name in En.
  assert (row_ok h e) as Hr by (eapply Forall_lookup_1; [apply (ok_rows _ _ (po_table _ _ Hp))|exact He]).
  destruct (row_ok_live h e Hr Hl) as (_ & _ & _ & _ & Hie & _). eapply name_of_inj; [done|done|by right|done].
Qed.

Lemma hint_index i : 0 <= i < entry_count t -> rows !! Z.to_nat i = Some (entry_at t i) /\ Z.of_nat (Z.to_nat i) = i.
Proof using Hp. intros Hi. split; [by apply (used_lookup _ _ (po_table _ _ Hp))|lia]. Qed.
Lemma count_bound : 0 <= entry_count t < 2 ^ 31.
Proof using Hp. pose proof (ok_count _ _ (po_table _ _ Hp)). pose proof (ok_capacity _ _ (po_table _ _ Hp)). lia. Qed.

(** [mal_table_handle_index] of a handle that is in range. *)
Lemma handle_index_range handle :
  in_u 32 handle -> mal_table_handle_index handle < entry_count t -> 0 < handle /\ mal_table_handle_index handle = handle - 1.
Proof using Hp.
  pose proof count_bound. unfold in_u, mal_table_handle_index. intros Hh Hi. destruct (decide (handle = 0)) as [->|].
  - exfalso. revert Hi. change (u32 (0 - 1)) with (2 ^ 32 - 1). lia.
  - split; [lia|]. apply wrap_small. unfold in_u. lia.
Qed.

(** * Hinted rows *)

Definition at_row (handle : Z) (e : MalTableEntry) (n : PropKey) : Prop :=
  exists k, handle = Z.of_nat k + 1 /\ rows !! k = Some e /\ mal_table_row_live e = true /\ position h rows n = Some k.

Lemma hinted_row_ok handle key n :
  in_u 32 handle -> key_name h (mal_key_from_value key) = Some n ->
  exists r, mal_table_hinted_row t handle key = Ret r /\
    match r with
    | Some e => at_row handle e n
    | None => forall k, position h rows n = Some k -> handle = Z.of_nat k + 1 -> exists s, n = PString s
    end.
Proof using Hp.
  intros Hh Hk. pose proof count_bound. pose proof (encode_key_ok h (mal_key_from_value key)) as He. rewrite Hk in He.
  destruct He as (i & Ee & Hi & En). unfold mal_table_hinted_row.
  destruct (Z.eqb_spec handle 0) as [->|]; [eexists; split; [done|]; intros k _ ?; exfalso; lia|].
  destruct (Z.leb_spec (entry_count t) (mal_table_handle_index handle)) as [Hge|Hlt].
  { eexists. split; [done|]. intros k Hpos ->. apply (position_bound _ _ _ _ (po_table _ _ Hp)) in Hpos.
    destruct (handle_of_index (Z.of_nat k)) as [_ E]; [lia|]. exfalso. lia. }
  destruct (handle_index_range handle Hh Hlt) as [Hpos Eidx]. unfold handle_entry. rewrite Eidx in *.
  destruct (hint_index (handle - 1)) as [Hr Ek]; [lia|]. rewrite Ee. cbn [mbind outcome_bind].
  assert (forall k, position h rows n = Some k -> handle = Z.of_nat k + 1 -> ident (entry_at t (handle - 1)) <> i -> exists s, n = PString s) as Hno.
  { intros k Hpk -> Hne. destruct (decide (id_kind i = 2)) as [E2|Hk2].
    - rewrite <- En. unfold name_of. rewrite E2. cbn. eauto.
    - rewrite <- En in Hpk. destruct (exact_row k i Hi Hk2 Hpk) as (e & Hre & Eid). replace (Z.of_nat k + 1 - 1) with (Z.of_nat k) in * by lia.
      rewrite Nat2Z.id in Hr. congruence. }
  destruct (mal_table_row_live (entry_at t (handle - 1))) eqn:Hl; cbn [negb].
  - destruct (Z.eqb_spec (Z.land (te_key (entry_at t (handle - 1))) MAL_TABLE_IDENTITY_MASK) i) as [Eid|Hne]; cbn [negb].
    + eexists. split; [done|]. fold (ident (entry_at t (handle - 1))) in Eid. exists (Z.to_nat (handle - 1)).
      split; [lia|]. split; [done|]. split; [done|]. rewrite <- En, <- Eid. apply ident_row; [done|]. by rewrite Eid.
    + eexists. split; [done|]. intros k H1 H2. by apply (Hno k).
  - eexists. split; [done|]. intros k H1 H2. apply (Hno k H1 H2). intros Eid. rewrite ident_live in Hl by (by rewrite Eid). done.
Qed.

(** A property read at its row. *)
Lemma at_row_desc handle e n : at_row handle e n -> plookup n (props_of t w) = Some (row_desc (tw_sidecars w) e) /\
  mal_table_row_owned e = has_accessor (row_flags e).
Proof using Hp.
  intros (k & -> & Hk & Hl & Hpos). pose proof (plookup_position t w n Hp) as Hpl. fold h rows in Hpl. rewrite Hpos in Hpl.
  destruct Hpl as (e' & He' & _ & ->). assert (e' = e) as -> by congruence. split; [done|].
  pose proof (po_rows _ _ Hp) as Ha. eapply Forall_lookup_1 in Ha; [|exact Hk]. by apply Ha.
Qed.

Lemma named_hint_ok handle key n :
  in_u 32 handle -> key_name h (mal_key_from_value key) = Some n ->
  match mal_table_named_hint_read t handle key with
  | Some (v, f) => exists e, at_row handle e n /\ mal_table_row_owned e = false /\ v = te_payload e /\ f = row_flags e
  | None => True
  end.
Proof using Hp.
  intros Hh Hk. pose proof count_bound. unfold mal_table_named_hint_read, mal_table_handle_row.
  fold (mal_table_handle_index handle). destruct (handle =? 0); [done|].
  destruct (Z.ltb_spec (mal_table_handle_index handle) (entry_count t)) as [Hlt|]; [|done].
  destruct (handle_index_range handle Hh Hlt) as [Hpos Eidx]. rewrite Eidx in *.
  destruct (hint_index (handle - 1)) as [Hr Ek]; [lia|].
  set (e := entry_at t (handle - 1)) in *.
  assert (forall k, (k = 2 /\ mal_value_is_string key = true) \/ (k = 3 /\ mal_value_is_string key = false /\ mal_value_is_symbol key = true) ->
    Z.land (te_key e) (Z.lor MAL_TABLE_IDENTITY_MASK MAL_TABLE_OWNS_DATA) = Z.lor (Z.shiftl k MAL_TABLE_KIND_SHIFT) (Z.land key MAKS_PTR) ->
    at_row handle e n /\ mal_table_row_owned e = false) as Hrow.
  { intros k Hc E. destruct (pointer_key_ident h key n k Hk Hc) as (i & Ei & Hi & En). rewrite Ei in E.
    apply unowned_mask in E as [E Ho]; [|by apply ident_range]. split; [|done]. exists (Z.to_nat (handle - 1)). split; [lia|].
    split; [done|]. rewrite <- En, <- E. apply ident_row; [done|]. by rewrite E. }
  destruct (mal_value_is_string key) eqn:Es; [|destruct (mal_value_is_symbol key) eqn:Ey; [|done]].
  - change (MAL_TABLE_STRING =? 0) with false. cbn [orb].
    destruct (Z.eqb_spec (Z.land (te_key e) (Z.lor MAL_TABLE_IDENTITY_MASK MAL_TABLE_OWNS_DATA)) (Z.lor MAL_TABLE_STRING (Z.land key MAKS_PTR))) as [E|]; [|done].
    exists e. destruct (Hrow 2) as [? ?]; [by left|done|]. done.
  - change (MAL_TABLE_SYMBOL =? 0) with false. cbn [orb].
    destruct (Z.eqb_spec (Z.land (te_key e) (Z.lor MAL_TABLE_IDENTITY_MASK MAL_TABLE_OWNS_DATA)) (Z.lor MAL_TABLE_SYMBOL (Z.land key MAKS_PTR))) as [E|]; [|done].
    exists e. destruct (Hrow 3) as [? ?]; [by right|done|]. done.
Qed.

(** * Handles *)

Lemma entry_matches_ok handle epoch key n :
  in_u 32 handle -> key_name h key = Some n ->
  exists w', mal_table_entry_matches t w handle epoch key
    = Ret (bool_decide (epoch = mal_table_handle_epoch t /\ handle_of (position h rows n) = Some handle), w') /\ world_hashed w w'.
Proof using Hp.
  intros Hh Hk. pose proof count_bound as Hcb. pose proof (po_table _ _ Hp) as Hok.
  pose proof (world_hashed_refl w (ok_heap _ _ Hok)) as Hrefl. pose proof (encode_key_ok h key) as He. rewrite Hk in He.
  destruct He as (i & Ee & Hi & En). unfold mal_table_entry_matches, mal_table_handle_epoch.
  assert (handle_of (position h rows n) = Some handle ->
    exists k, position h rows n = Some k /\ handle - 1 = Z.of_nat k /\ 0 <= handle - 1 < entry_count t) as Hhandle.
  { destruct (position h rows n) as [k|] eqn:Hpos; [|done]. intros [= <-]. exists k. apply (position_bound _ _ _ _ Hok) in Hpos as Hb. split; [done|]. lia. }
  destruct (_ || _) eqn:E0.
  { exists w. rewrite bool_decide_false; [done|]. intros [-> Hha]. apply orb_true_iff in E0 as [E0|E0].
    - apply Z.eqb_eq in E0 as ->. destruct (Hhandle Hha) as (k & _ & ? & ?). lia.
    - rewrite Z.eqb_refl in E0. done. }
  apply orb_false_iff in E0 as [_ Eep]. apply negb_false_iff, Z.eqb_eq in Eep as ->.
  destruct (Z.leb_spec (entry_count t) (mal_table_handle_index handle)) as [Hge|Hlt].
  { exists w. rewrite bool_decide_false; [done|]. intros [_ Hha]. destruct (Hhandle Hha) as (k & _ & Ek & Hr). revert Hge. unfold mal_table_handle_index, u32. rewrite wrap_small by (unfold in_u; lia). lia. }
  destruct (handle_index_range handle Hh Hlt) as [Hpos Eidx]. unfold handle_entry. rewrite Eidx in *.
  destruct (hint_index (handle - 1)) as [Hr Ek]; [lia|]. set (e := entry_at t (handle - 1)) in *.
  assert (row_ok h e) as Hro by (eapply Forall_lookup_1; [apply (ok_rows _ _ Hok)|exact Hr]).
  assert (bool_decide (handle_epoch t = handle_epoch t /\ handle_of (position h rows n) = Some handle)
    = mal_table_row_live e && bool_decide (row_name h e = n)) as ->.
  { apply eq_true_iff_eq. rewrite bool_decide_eq_true, andb_true_iff, bool_decide_eq_true. split.
    - intros [_ Hha]. destruct (Hhandle Hha) as (k & Hpk & E1 & _).
      apply position_some in Hpk as (e' & He' & Hl & Hn'). rewrite E1, Nat2Z.id in Hr. assert (e' = e) as -> by congruence. done.
    - intros [Hl Hn']. split; [done|]. rewrite (position_unique h rows n (Z.to_nat (handle - 1)) e); [cbn; f_equal; lia|apply (ok_names _ _ Hok)|done|by split]. }
  destruct (mal_table_row_live e) eqn:Hl; cbn [negb andb]; [|by exists w]. rewrite Ee. cbn [mbind outcome_bind].
  destruct (tb_slot_capacity t =? 0).
  { rewrite key_equals_returns by apply (ok_heap _ _ Hok). cbn [mbind outcome_bind]. exists w. split; [|done].
    fold h. rewrite (row_equals_live h t i Hok Hi e false Hro Hl) by done. by rewrite <- En. }
  destruct (key_hash_ident (tw_strings w) i (ok_heap _ _ Hok) Hi) as (h' & -> & Hg & Hhd).
  pose proof (table_ok_grows _ _ _ Hg Hok) as Hok'. fold h.
  assert (hash_at h' rows (handle - 1) = Some (name_hash (row_name h' e))) as Hat by (by apply hash_at_live; [lia| |]).
  pose proof (same_entry h' t i Hok' Hi Hhd (handle - 1) _ Hat) as Hsame. fold e in Hsame.
  rewrite (hash_grows_name h h' i Hg), En, (row_name_grows h h') in Hsame by done. rewrite En. exists (set_tw_strings h' w).
  split; [|by apply world_hashed_set]. change (entry_at t (handle - 1)) with e in Hsame. rewrite <- Hsame.
  destruct (fingerprint_matches e (name_hash n)); cbn [andb]; [|done].
  by rewrite key_equals_returns by apply (ok_heap _ _ Hok').
Qed.

(** * Private elements *)

Section private.
Variable MASK_SHIFT : Z.
Hypothesis Hshift : 0 <= MASK_SHIFT.
Variable symbol : Z.
Hypothesis Hsym : 0 <= symbol < 2 ^ 48.

Definition symbol_key : MalKey := mkKey MAL_KEY_SYMBOL (mal_value_from_symbol symbol).
Definition symbol_ident : Z := Z.lor MAL_TABLE_SYMBOL (Z.land (mal_value_from_symbol symbol) MAKS_PTR).

Lemma symbol_ident_ok : symbol_ident = symbol + 3 * 2 ^ 48 /\ ident_ok symbol_ident /\ id_kind symbol_ident = 3 /\
  name_of h symbol_ident = PSymbol symbol /\ key_name h symbol_key = Some (PSymbol symbol).
Proof using Hsym.
  assert (mal_value_from_symbol symbol = symbol + 0xFFFB * 2 ^ 48) as Ev.
  { unfold mal_value_from_symbol. change MAKS_PTR with (Z.ones 48). rewrite Z.land_ones, Z.mod_small by lia.
    change MAL_VALUE_SYMBOL with (Z.shiftl 0xFFFB 48). rewrite Z.lor_comm, lor_shiftl_add by lia. done. }
  destruct (pointer_value 0xFFFB symbol Hsym) as (Hv & Ec & Eh); [lia|].
  destruct (or_pointer 3 (mal_value_from_symbol symbol)) as [E _]. unfold symbol_ident. change MAL_TABLE_SYMBOL with (Z.shiftl 3 MAL_TABLE_KIND_SHIFT).
  rewrite E, Ev, Eh. destruct (make_ident 3 symbol Hsym) as [Ek Ep]. split; [done|]. split; [unfold ident_ok; rewrite Ek; lia|]. split; [done|].
  split; [unfold name_of; by rewrite Ek, Ep|]. unfold symbol_key, key_name. cbn [key_kind key_value]. rewrite Ev, Eh.
  by rewrite (kind_test_class _ KSymbol Hv : mal_value_is_symbol _ = _), Ec.
Qed.

(** A row found by the identity of the symbol. *)
Lemma symbol_row index :
  0 <= index < entry_count t -> ident (entry_at t index) = symbol_ident ->
  position h rows (PSymbol symbol) = Some (Z.to_nat index) /\ rows !! Z.to_nat index = Some (entry_at t index).
Proof using Hp Hsym.
  intros Hi E. destruct symbol_ident_ok as (_ & Hok & _ & En & _). destruct (hint_index index Hi) as [Hr _]. split; [|done].
  rewrite <- En, <- E. apply ident_row; [done|]. by rewrite E.
Qed.

(** The payload of the symbol's row. *)
Definition private_payload : option Z := position h rows (PSymbol symbol) ≫= fun k => te_payload <$> rows !! k.
Definition hints_ok (hints : Hints) : Prop := forall p, in_u 28 (hints p).

Lemma set_private_hint_ok hints p handle : hints_ok hints -> hints_ok (set_private_hint p handle hints).
Proof using Type. intros Hh q. unfold set_private_hint. destruct (q =? p); [|apply Hh]. apply wrap_range. lia. Qed.

Lemma get_private_ok hints :
  hints_ok hints ->
  exists w' hints', mal_table_get_private_value MASK_SHIFT (Some t) w hints symbol = Ret (private_payload, w', hints') /\
    world_hashed w w' /\ hints_ok hints'.
Proof using Hp Hshift Hsym.
  intros Hh. pose proof count_bound. pose proof (po_table _ _ Hp) as Hok. unfold mal_table_get_private_value, mal_table_private_hint_read, private_payload.
  destruct symbol_ident_ok as (_ & Hi & Hk & En & Ekey).
  assert (exists w' hints',
    ('(found, w) ← mal_table_lookup MASK_SHIFT t w (mkKey MAL_KEY_SYMBOL (mal_value_from_symbol symbol));
     Ret (match found with
          | None => (None, w, hints)
          | Some handle => (Some (te_payload (handle_entry t handle)), w, set_private_hint symbol handle hints)
          end)) = Ret (private_payload, w', hints') /\ world_hashed w w' /\ hints_ok hints') as Hslow.
  { destruct (lookup_ok MASK_SHIFT Hshift t w symbol_key (PSymbol symbol) Hok Ekey) as (w' & E & Hw).
    unfold symbol_key in E. rewrite E. cbn [mbind outcome_bind]. unfold private_payload. fold h rows.
    destruct (position h rows (PSymbol symbol)) as [k|] eqn:Hpos; cbn [handle_of fmap option_fmap option_map mbind option_bind].
    - apply position_some in Hpos as (e & He & _). destruct (row_handle _ _ _ _ Hok He) as [_ ->]. rewrite He. eexists _, _. split; [done|].
      split; [done|]. by apply set_private_hint_ok.
    - eexists _, _. done. }
  set (index := u32 (hints symbol - 1)) in *. cbv zeta.
  destruct (Z.leb_spec (entry_count t) index); [exact Hslow|].
  destruct (Z.eqb_spec (Z.land (te_key (entry_at t index)) MAL_TABLE_IDENTITY_MASK) symbol_ident) as [E|Hne]; unfold symbol_ident in *.
  - destruct (symbol_row index) as [-> Hr]; [|exact E|].
    { split; [|done]. apply (wrap_range 32). lia. }
    rewrite E, Z.eqb_refl. cbn [negb mbind option_bind]. rewrite Hr. eexists _, _. split; [done|]. split; [apply world_hashed_refl, (ok_heap _ _ Hok)|done].
  - destruct (Z.eqb_spec (Z.land (te_key (entry_at t index)) MAL_TABLE_IDENTITY_MASK)
      (Z.lor MAL_TABLE_SYMBOL (Z.land (mal_value_from_symbol symbol) MAKS_PTR))); [done|]. cbn [negb]. exact Hslow.
Qed.

(** The cell of a private data element: its row. *)
Definition private_cell : option Z :=
  position h rows (PSymbol symbol) ≫= fun k =>
    match rows !! k with Some e => if mal_table_row_owned e then None else Some (Z.of_nat k) | None => None end.

Lemma private_slot_ok hints :
  hints_ok hints ->
  exists w' hints', mal_table_private_value_slot MASK_SHIFT (Some t) w hints symbol = Ret (private_cell, w', hints') /\
    world_hashed w w' /\ hints_ok hints'.
Proof using Hp Hshift Hsym.
  intros Hh. pose proof count_bound. pose proof (po_table _ _ Hp) as Hok.
  unfold mal_table_private_value_slot, mal_table_handle_row, private_cell. cbv zeta.
  destruct symbol_ident_ok as (_ & Hi & Hk & En & Ekey).
  set (index := u32 (hints symbol - 1)) in *. set (hinted := match _ with None => false | Some e => _ end).
  assert (hinted = true -> 0 <= index < entry_count t /\ ident (entry_at t index) = symbol_ident) as Hhint.
  { unfold hinted. destruct (Z.ltb_spec index (entry_count t)); [|done]. intros E%Z.eqb_eq. split; [|exact E].
    split; [|done]. apply (wrap_range 32). lia. }
  destruct hinted.
  - destruct Hhint as [Hr E]; [done|]. destruct (symbol_row index Hr E) as [-> Hrow]. cbn [mbind option_bind]. rewrite Hrow.
    unfold mal_table_row_owned. rewrite Z2Nat.id by lia. eexists _, _.
    split; [by destruct (_ =? 0)|]. split; [apply world_hashed_refl, (ok_heap _ _ Hok)|done].
  - destruct (lookup_ok MASK_SHIFT Hshift t w symbol_key (PSymbol symbol) Hok Ekey) as (w' & E & Hw).
    unfold symbol_key in E. rewrite E. cbn [mbind outcome_bind]. fold h rows.
    destruct (position h rows (PSymbol symbol)) as [k|] eqn:Hpos; cbn [handle_of fmap option_fmap option_map mbind option_bind].
    + apply position_some in Hpos as (e & He & _). destruct (row_handle _ _ _ _ Hok He) as [-> Ee]. unfold handle_entry in Ee.
      rewrite (proj1 (row_handle _ _ _ _ Hok He)) in Ee. rewrite Ee, He. eexists _, _. split; [done|].
      split; [done|]. by apply set_private_hint_ok.
    + eexists _, _. done.
Qed.
End private.
End hints.
