(* ===== verification/PropertyRun.v ===== *)
(** Runs of property operations from a new table, and their specification on the list
    of properties. *)

From stdpp Require Import gmap.
From S2P Require Import Prelude F64 Value HeapString HeapStringSpec Key HashIndex MapObject MapRows MapStore StringHeap.
From S2P Require Import Table TableKeys TableSpec TableOps TableUpdate TableSweep PropertyStore PropertySpec PropertyRefine PropertyReads.

(** The operations of a client. [PWrite] looks the key up and writes through the
    handle; [PRetain] keeps the properties whose key passes; [PList] runs the
    iterator to its end. *)
Inductive prop_op : Type :=
| PDefine (key : MalKey) (d : MalPropertyDesc)
| PSetValue (key : MalKey) (v : Z)
| PEnsure (key : MalKey) (d : MalPropertyDesc)
| PWrite (key : MalKey) (d : MalPropertyDesc)
| PLookup (key : MalKey)
| PRead (key : MalKey)
| PDelete (key : MalKey)
| PRetain (kept : PropKey -> bool)
| PClear
| PCompact
| PReserve (desired : Z)
| PPin
| PUnpin
| PSize
| PList.

Inductive prop_answer : Type :=
| ADone
| AFlag (b : bool)
| ACount (n : Z)
| ADesc (d : option MalPropertyDesc)
| AEnsured (inserted : bool) (d : MalPropertyDesc)
| ARead (r : MalPropertyReadKind * Z)
| AList (l : list (option PropKey * MalPropertyDesc)).

Section Run.
Variable MASK_SHIFT : Z.
Variable raw : Z -> Z.
Variable alloc_sidecar : gmap Z (Z * Z) -> Z.

Definition prop_step (op : prop_op) (t : MalTable) (w : TableWorld) : outcome (prop_answer * MalTable * TableWorld) :=
  match op with
  | PDefine key d => '(_, t, w) ← mal_property_define MASK_SHIFT raw alloc_sidecar t w key d; Ret (ADone, t, w)
  | PSetValue key v => '(_, t, w) ← mal_property_set_value MASK_SHIFT raw alloc_sidecar t w key v; Ret (ADone, t, w)
  | PEnsure key d =>
      '(inserted, _, d, t, w) ← mal_property_ensure MASK_SHIFT raw alloc_sidecar t w key d; Ret (AEnsured inserted d, t, w)
  | PWrite key d =>
      '(found, w) ← mal_table_lookup MASK_SHIFT t w key;
      match found with
      | None => Ret (AFlag false, t, w)
      | Some handle => '(t, w) ← mal_property_write_entry raw alloc_sidecar t w handle d; Ret (AFlag true, t, w)
      end
  | PLookup key => '(found, w) ← mal_property_lookup MASK_SHIFT t w key; Ret (ADesc (snd <$> found), t, w)
  | PRead key => '(r, w) ← mal_property_read MASK_SHIFT t w key; Ret (ARead r, t, w)
  | PDelete key => '(b, t, w) ← mal_table_delete MASK_SHIFT t w key; Ret (AFlag b, t, w)
  | PRetain kept => '(n, t, w) ← mal_table_retain MASK_SHIFT raw (keep_of (tw_strings w) kept) t w; Ret (ACount n, t, w)
  | PClear => '(t, w) ← mal_table_clear MASK_SHIFT raw t w; Ret (ADone, t, w)
  | PCompact => '(t, w) ← mal_table_compact MASK_SHIFT raw t w; Ret (ADone, t, w)
  | PReserve desired => '(_, t, w) ← mal_table_reserve MASK_SHIFT raw t w desired; Ret (ADone, t, w)
  | PPin => Ret (ADone, default t (mal_table_pin (Some t)), w)
  | PUnpin => Ret (ADone, default t (mal_table_unpin (Some t)), w)
  | PSize => Ret (ACount (mal_table_size t), t, w)
  | PList => l ← own_properties t w; Ret (AList (named (tw_strings w) l), t, w)
  end.
Fixpoint prop_run (ops : list prop_op) (t : MalTable) (w : TableWorld) : outcome (list prop_answer * MalTable * TableWorld) :=
  match ops with
  | [] => Ret ([], t, w)
  | op :: ops =>
      '(a, t, w) ← prop_step op t w;
      '(answers, t, w) ← prop_run ops t w;
      Ret (a :: answers, t, w)
  end.
End Run.

(** * Specification *)

Definition data_desc (v : Z) : MalPropertyDesc :=
  mkDesc (Z.lor (Z.lor MAL_PROPERTY_WRITABLE MAL_PROPERTY_ENUMERABLE) MAL_PROPERTY_CONFIGURABLE) v MAL_VALUE_UNDEFINED MAL_VALUE_UNDEFINED.

Definition spec_at (h : StringHeap) (key : MalKey) (l : Props) (f : PropKey -> prop_answer * Props) : prop_answer * Props :=
  match key_name h key with Some n => f n | None => (ADone, l) end.
Definition spec_prop (h : StringHeap) (op : prop_op) (l : Props) : prop_answer * Props :=
  match op with
  | PDefine key d => spec_at h key l (fun n => (ADone, pset n (stored d) l))
  | PSetValue key v => spec_at h key l (fun n => (ADone, pset n (data_desc v) l))
  | PEnsure key d =>
      spec_at h key l (fun n =>
        match plookup n l with
        | Some old => (AEnsured false old, l)
        | None => (AEnsured true d, l ++ [(n, stored d)])
        end)
  | PWrite key d =>
      spec_at h key l (fun n =>
        match plookup n l with Some _ => (AFlag true, pset n (stored d) l) | None => (AFlag false, l) end)
  | PLookup key => spec_at h key l (fun n => (ADesc (plookup n l), l))
  | PRead key => spec_at h key l (fun n => (ARead (read_answer (plookup n l)), l))
  | PDelete key => spec_at h key l (fun n => (AFlag (bool_decide (is_Some (plookup n l))), premove n l))
  | PRetain kept => (ACount (arr_len l - arr_len (pkeep kept l)), pkeep kept l)
  | PClear => (ADone, [])
  | PCompact | PReserve _ | PPin | PUnpin => (ADone, l)
  | PSize => (ACount (arr_len l), l)
  | PList => (AList (map (fun '(n, d) => (Some n, d)) l), l)
  end.
Fixpoint spec_props (h : StringHeap) (ops : list prop_op) (l : Props) : list prop_answer * Props :=
  match ops with
  | [] => ([], l)
  | op :: ops =>
      let '(a, l) := spec_prop h op l in
      let '(answers, l) := spec_props h ops l in (a :: answers, l)
  end.

(** Keys are property keys, and flags are the seven a row keeps. *)
Definition prop_op_ok (h : StringHeap) (op : prop_op) : Prop :=
  match op with
  | PDefine key d | PEnsure key d | PWrite key d => is_Some (key_name h key) /\ desc_ok d
  | PSetValue key _ | PLookup key | PRead key | PDelete key => is_Some (key_name h key)
  | _ => True
  end.

Lemma data_desc_ok v : desc_ok (data_desc v).
Proof. unfold desc_ok. change (pd_flags (data_desc v)) with 7. lia. Qed.

(** The end of a step: its answer, what it keeps, and the properties it leaves. *)
Ltac step_done E := cbn [mbind outcome_bind]; eexists _, _, _; split; [done|]; split; [done|]; by rewrite E.

Section refine.
Variable MASK_SHIFT : Z.
Hypothesis Hshift : 0 <= MASK_SHIFT.
Variable raw : Z -> Z.
Variable alloc_sidecar : gmap Z (Z * Z) -> Z.
Hypothesis Halloc : forall m, m !! alloc_sidecar m = None /\ alloc_sidecar m <> 0.

Lemma step_refl t w : prop_ok t w -> step_ok t w t w.
Proof using Type.
  intros Hp. pose proof (ok_heap _ _ (po_table _ _ Hp)) as Hh. by apply (hashed_props t w w Hp (world_hashed_refl w Hh)).
Qed.

(** A write to a property that may not be there. *)
Lemma write_at_props t w key n d :
  prop_ok t w -> key_name (tw_strings w) key = Some n -> desc_ok d ->
  exists a t' w', prop_step MASK_SHIFT raw alloc_sidecar (PWrite key d) t w = Ret (a, t', w') /\ step_ok t w t' w' /\
    (a, props_of t' w') =
      match plookup n (props_of t w) with
      | Some _ => (AFlag true, pset n (stored d) (props_of t w))
      | None => (AFlag false, props_of t w)
      end.
Proof using Hshift Halloc.
  intros Hp Hn Hd. cbn [prop_step].
  destruct (lookup_props MASK_SHIFT Hshift t w key n Hp Hn) as (w1 & -> & _ & _ & Hw). cbn [mbind outcome_bind].
  destruct (hashed_props t w w1 Hp Hw) as [Hs1 Ep1]. pose proof (plookup_position t w n Hp) as Hpl.
  destruct (position (tw_strings w) (used_rows t) n) as [k|] eqn:Hpos; cbn [handle_of fmap option_fmap option_map].
  - destruct (write_entry_props raw alloc_sidecar Halloc t w1 n k d (proj1 Hs1)) as (t' & w' & -> & Hs & Epr); [|done|].
    { rewrite (position_grows (tw_strings w)); [done|]. apply Hw. }
    cbn [mbind outcome_bind]. eexists _, _, _. split; [done|]. split.
    * destruct Hs as (? & ? & ? & ? & Hb). do 1 (split; [done|]). split; [eapply hash_grows_trans; [apply Hw|done]|]. do 2 (split; [done|]).
      eapply satb_trans; [apply Hs1|exact Hb].
    * destruct Hpl as (e & _ & _ & ->). by rewrite Epr, Ep1.
  - eexists _, _, _. split; [done|]. split; [done|]. by rewrite Hpl, Ep1.
Qed.

Lemma prop_step_ok h op t w :
  prop_ok t w -> entry_count t < TABLE_ROOM -> hash_grows h (tw_strings w) -> prop_op_ok h op ->
  exists a t' w', prop_step MASK_SHIFT raw alloc_sidecar op t w = Ret (a, t', w') /\ step_ok t w t' w' /\
    (a, props_of t' w') = spec_prop h op (props_of t w).
Proof using Hshift Halloc.
  intros Hp Hroom Hg Hop. pose proof (step_refl t w Hp) as Hrefl.
  assert (forall key n, key_name h key = Some n -> key_name (tw_strings w) key = Some n) as Hkey.
  { intros key n E. by rewrite (hash_grows_key h). }
  destruct op as [key d|key v|key d|key d|key|key|key|kept| | |desired| | | |]; cbn [prop_step spec_prop prop_op_ok] in *;
    try match type of Hop with _ /\ _ => destruct Hop as [[n Hn] Hd] | is_Some _ => destruct Hop as [n Hn] end; unfold spec_at; try rewrite Hn; try apply Hkey in Hn.
  - destruct (upsert_write_props MASK_SHIFT Hshift raw alloc_sidecar Halloc t w key n d Hp Hroom Hn Hd)
      as (k & ins & t1 & w1 & t' & w' & E & Ew & Hs & Epr & _).
    unfold mal_property_define. rewrite E. cbn [mbind outcome_bind]. rewrite Ew. step_done Epr.
  - destruct (upsert_write_props MASK_SHIFT Hshift raw alloc_sidecar Halloc t w key n (data_desc v) Hp Hroom Hn)
      as (k & ins & t1 & w1 & t' & w' & E & Ew & Hs & Epr & _); [apply data_desc_ok|].
    unfold mal_property_set_value. rewrite E. cbn [mbind outcome_bind]. fold (data_desc v). rewrite Ew. step_done Epr.
  - destruct (ensure_props MASK_SHIFT Hshift raw alloc_sidecar Halloc t w key n d Hp Hroom Hn Hd) as (handle & t' & w' & -> & Hs & Epr).
    cbn [mbind outcome_bind]. eexists _, _, _. split; [done|]. split; [done|]. rewrite Epr.
    by destruct (plookup n (props_of t w)).
  - destruct (write_at_props t w key n d Hp Hn Hd) as (a & t' & w' & E & Hs & Epr). exists a, t', w'. cbn [prop_step] in E. by rewrite Epr.
  - destruct (lookup_props MASK_SHIFT Hshift t w key n Hp Hn) as (w1 & _ & -> & _ & Hw). cbn [mbind outcome_bind].
    destruct (hashed_props t w w1 Hp Hw) as [Hs1 Ep1]. eexists _, _, _. split; [done|]. split; [done|]. rewrite Ep1.
    pose proof (plookup_position t w n Hp) as Hpl. destruct (position _ _ n); [|by rewrite Hpl].
    destruct Hpl as (e & _ & _ & ->). done.
  - destruct (lookup_props MASK_SHIFT Hshift t w key n Hp Hn) as (w1 & _ & _ & -> & Hw). cbn [mbind outcome_bind].
    destruct (hashed_props t w w1 Hp Hw) as [Hs1 Ep1]. step_done Ep1.
  - destruct (delete_props MASK_SHIFT Hshift t w key n Hp Hn) as (t' & w' & -> & Hs & Epr & _). step_done Epr.
  - destruct (retain_props MASK_SHIFT Hshift raw kept t w Hp Hroom) as (t' & w' & -> & Hs & Epr & _). step_done Epr.
  - destruct (clear_props MASK_SHIFT Hshift raw t w Hp Hroom) as (t' & w' & -> & Hs & Epr & _). step_done Epr.
  - destruct (compact_props MASK_SHIFT Hshift raw t w Hp Hroom) as (t' & w' & -> & Hs & Epr). step_done Epr.
  - destruct (reserve_props MASK_SHIFT Hshift raw t w desired Hp Hroom) as (b & t' & w' & -> & Hs & Epr). step_done Epr.
  - destruct (pins_props t w (u32 (iterator_pins t + 1)) Hp) as [Hs Epr]; [apply (wrap_range 32); lia|].
    eexists _, _, _. split; [done|]. split; [done|]. cbn. by rewrite Epr.
  - eexists _, _, _. split; [done|]. cbn. destruct (Z.eqb_spec (iterator_pins t) 0); [done|].
    destruct (pins_props t w (iterator_pins t - 1) Hp) as [Hs Epr]; [pose proof (ok_pins _ _ (po_table _ _ Hp)); unfold in_u in *; lia|].
    by rewrite Epr.
  - eexists _, _, _. split; [done|]. split; [done|]. unfold mal_table_size. rewrite (ok_size _ _ (po_table _ _ Hp)).
    unfold props_of, contents, arr_len. by rewrite length_map.
  - destruct (own_properties_ok t w Hp) as (l & -> & El). step_done El.
Qed.

Lemma prop_run_ok h ops : forall t w,
  prop_ok t w -> hash_grows h (tw_strings w) -> Forall (prop_op_ok h) ops -> entry_count t + arr_len ops <= TABLE_ROOM ->
  exists answers t' w', prop_run MASK_SHIFT raw alloc_sidecar ops t w = Ret (answers, t', w') /\ prop_ok t' w' /\
    hash_grows h (tw_strings w') /\ entry_count t' <= entry_count t + arr_len ops /\
    (answers, props_of t' w') = spec_props h ops (props_of t w).
Proof using Hshift Halloc.
  induction ops as [|op ops IH]; intros t w Hp Hg Hops Hroom; cbn [prop_run spec_props].
  - exists [], t, w. change (arr_len []) with 0. split; [done|]. split; [done|]. split; [done|]. split; [lia|done].
  - apply Forall_cons in Hops as [Hop Hops].
    assert (arr_len (op :: ops) = 1 + arr_len ops) as El by (unfold arr_len; cbn [length]; lia). rewrite El in *. pose proof (arr_len_nonneg ops).
    destruct (prop_step_ok h op t w Hp) as (a & t1 & w1 & -> & (Hp1 & Hg1 & Hc1 & _) & <-); [lia|done|done|].
    cbn [mbind outcome_bind]. destruct (IH t1 w1) as (answers & t' & w' & -> & Hp' & Hg' & Hc' & <-); [done|by eapply hash_grows_trans|done|lia|].
    cbn [mbind outcome_bind]. exists (a :: answers), t', w'. split; [done|]. split; [done|]. split; [done|]. split; [lia|done].
Qed.
End refine.

(** The world of a new table. *)
Definition new_world (h : StringHeap) : TableWorld := mkTableWorld h ∅ [].
Lemma new_ok h : string_heap_ok h -> prop_ok mal_table_new (new_world h).
Proof.
  intros Hh. split; [|split; [constructor|split; [|done]]|constructor].
  - split; cbn; try done; try (unfold arr_len; cbn; lia).
  - intros p. cbn. rewrite lookup_empty. split; [by intros ?%elem_of_nil|by intros []].
Qed.
(** Teardown frees every sidecar that is left, once. *)
Lemma free_ok t w : prop_ok t w -> exists w', mal_table_free t w = Ret w' /\ tw_sidecars w' = ∅.
Proof.
  intros [Hok (Hn & Ha & H0) _]. unfold mal_table_free. rewrite free_rows_ok.
  - eexists. split; [done|]. cbn. apply map_eq. intros p. rewrite without_lookup, lookup_empty. destruct (decide _) as [|Hnot]; [done|].
    rewrite Ha in Hnot. by apply eq_None_not_Some.
  - split; [done|]. intros p Hp%Ha. split; [|done]. intros ->. rewrite H0 in Hp. by destruct Hp.
Qed.
