(* ===== verification/PropertyTheorems.v ===== *)
(** The property store: runs refine the list of properties and leak nothing, cached row
    numbers are sound, private elements are read through any hint, the collector's
    snapshot survives every operation, and a live handle of the current generation
    still names its key. *)

From stdpp Require Import gmap.
From S2P Require Import Prelude F64 Value HeapString HeapStringSpec HeapStringTheorems Key HashIndex MapObject MapRows MapStore.
From S2P Require Import StringHeap Table TableKeys TableSpec TableOps TableUpdate TableSweep PropertyStore PropertySpec PropertyRefine PropertyReads.
From S2P Require Import PropertyHints PropertyRun.

(** The allocator of sidecars: an address that is not in use, and not null. *)
Definition fresh_allocator (alloc_sidecar : gmap Z (Z * Z) -> Z) : Prop :=
  forall m, m !! alloc_sidecar m = None /\ alloc_sidecar m <> 0.

(** The runs considered: at most this many operations. *)
Definition RUN_ROOM : Z := 2 ^ 28.

(** A state some client has brought a new table to. *)
Definition reached (MASK_SHIFT : Z) (raw : Z -> Z) (alloc_sidecar : gmap Z (Z * Z) -> Z) (h : StringHeap) (t : MalTable) (w : TableWorld) : Prop :=
  exists ops answers, Forall (prop_op_ok h) ops /\ arr_len ops <= RUN_ROOM /\
    prop_run MASK_SHIFT raw alloc_sidecar ops mal_table_new (new_world h) = Ret (answers, t, w).

(** * Generations of handles *)

Definition epochs (n : nat) (e : Z) : Z := Nat.iter n next_epoch e.
Lemma next_epoch_mod e : 1 <= e < 2 ^ 64 -> next_epoch e = e mod (2 ^ 64 - 1) + 1.
Proof.
  intros He. unfold next_epoch. destruct (decide (e = 2 ^ 64 - 1)) as [->|]; [by vm_compute|].
  unfold u64. rewrite wrap_small by (unfold in_u; lia). destruct (Z.eqb_spec (e + 1) 0); [lia|]. rewrite Z.mod_small; lia.
Qed.
Lemma epochs_mod n e : 1 <= e < 2 ^ 64 -> epochs n e = (e - 1 + Z.of_nat n) mod (2 ^ 64 - 1) + 1.
Proof.
  intros He. induction n as [|n IH]; [rewrite Z.add_0_r, Z.mod_small; cbn; lia|].
  change (epochs (S n) e) with (next_epoch (epochs n e)). pose proof (Z.mod_pos_bound (e - 1 + Z.of_nat n) (2 ^ 64 - 1)).
  rewrite next_epoch_mod, IH by lia. rewrite Zplus_mod_idemp_l. do 2 f_equal. lia.
Qed.
(** A generation does not come back within a run. *)
Lemma epochs_fixed n e : 1 <= e < 2 ^ 64 -> Z.of_nat n < 2 ^ 64 - 1 -> epochs n e = e -> n = O.
Proof.
  intros He Hn E. rewrite epochs_mod in E by done. destruct (decide (e - 1 + Z.of_nat n < 2 ^ 64 - 1)).
  - rewrite Z.mod_small in E by lia. lia.
  - rewrite <- (Z_mod_plus_full _ (-1)), Z.mod_small in E by lia. lia.
Qed.

(** Between two states of a run: so many compactions, and without one the rows keep
    their numbers. *)
Definition handles_run (n : nat) (t t' : MalTable) : Prop :=
  exists k, (k <= n)%nat /\ handle_epoch t' = epochs k (handle_epoch t) /\ (k = O -> rows_stable (used_rows t) (used_rows t')).

Lemma rows_stable_trans l1 l2 l3 : rows_stable l1 l2 -> rows_stable l2 l3 -> rows_stable l1 l3.
Proof.
  intros [L1 S1] [L2 S2]. split; [lia|]. intros k e Hk Hl Hlt. destruct (S2 k e Hk Hl) as (e2 & H2 & Hl2 & <-); [lia|]. by apply (S1 k e2).
Qed.

Section runs.
Variable MASK_SHIFT : Z.
Hypothesis Hshift : 0 <= MASK_SHIFT.
Variable raw : Z -> Z.
Variable alloc_sidecar : gmap Z (Z * Z) -> Z.
Hypothesis Halloc : fresh_allocator alloc_sidecar.
Variable h : StringHeap.
Hypothesis Hheap : string_heap_ok h.

Lemma prop_run_handles ops : forall t w answers t' w',
  prop_ok t w -> hash_grows h (tw_strings w) -> Forall (prop_op_ok h) ops -> entry_count t + arr_len ops <= TABLE_ROOM ->
  prop_run MASK_SHIFT raw alloc_sidecar ops t w = Ret (answers, t', w') -> handles_run (length ops) t t'.
Proof using Hshift Halloc.
  induction ops as [|op ops IH]; intros t w answers t' w' Hp Hg Hops Hroom E; cbn [prop_run] in E.
  - injection E as <- <- <-. exists O. split; [done|]. split; [done|]. intros _. apply rows_stable_refl.
  - apply Forall_cons in Hops as [Hop Hops].
    assert (arr_len (op :: ops) = 1 + arr_len ops) as El by (unfold arr_len; cbn [length]; lia). rewrite El in *. pose proof (arr_len_nonneg ops).
    destruct (prop_step_ok MASK_SHIFT Hshift raw alloc_sidecar Halloc h op t w Hp) as (a & t1 & w1 & Es & (Hp1 & Hg1 & Hc1 & Hh1 & _) & _); [lia|done|done|].
    rewrite Es in E. cbn [mbind outcome_bind] in E.
    destruct (prop_run _ _ _ ops t1 w1) as [[[answers' t2] w2]| |] eqn:Er; [|done|done]. injection E as _ <- <-.
    destruct (IH t1 w1 answers' t2 w2) as (k & Hk & Ek & Hst); [done|by eapply hash_grows_trans|done|lia|done|].
    destruct Hh1 as [Hh1|[Hh1 Hs1]]; rewrite Hh1 in Ek.
    + exists (S k). split; [cbn; lia|]. split; [|done]. rewrite Ek. unfold epochs. by rewrite <- Nat.iter_succ_r.
    + exists k. split; [cbn; lia|]. split; [done|]. intros E0. eapply rows_stable_trans; [exact Hs1|]. by apply Hst.
Qed.

Lemma reached_ok t w :
  reached MASK_SHIFT raw alloc_sidecar h t w -> prop_ok t w /\ hash_grows h (tw_strings w) /\ entry_count t <= RUN_ROOM.
Proof using Hshift Halloc Hheap.
  intros (ops & answers & Hops & Hlen & E). unfold RUN_ROOM in *.
  destruct (prop_run_ok MASK_SHIFT Hshift raw alloc_sidecar Halloc h ops mal_table_new (new_world h)) as (a & t' & w' & E' & Hp & Hg & Hc & _).
  { by apply new_ok. } { by apply hash_grows_refl. } { done. } { cbn. unfold TABLE_ROOM. lia. }
  rewrite E in E'. injection E' as <- <- <-. split; [done|]. split; [done|]. cbn in Hc. lia.
Qed.
End runs.

Lemma plookup_pset n d l : plookup n (pset n d l) = Some d.
Proof.
  unfold pset. destruct (plookup n l) as [x|] eqn:E.
  - revert E. induction l as [|[m y] l IH]; cbn; [done|]. destruct (decide (m = n)); cbn; [by rewrite decide_True|by rewrite decide_False].
  - revert E. induction l as [|[m y] l IH]; cbn; [by rewrite decide_True|]. by destruct (decide (m = n)).
Qed.

(** [mal_property_set_value] on a key of any table a client can reach: whatever descriptor
    the key had, a read-only property or an accessor included, its attributes afterwards
    are all set. *)
Theorem set_value_resets_attributes MASK_SHIFT raw alloc_sidecar h t w key n v :
  0 <= MASK_SHIFT -> fresh_allocator alloc_sidecar -> string_heap_ok h -> reached MASK_SHIFT raw alloc_sidecar h t w ->
  key_name h key = Some n ->
  exists handle t' w', mal_property_set_value MASK_SHIFT raw alloc_sidecar t w key v = Ret (handle, t', w') /\
    plookup n (props_of t' w') = Some (data_desc v).
Proof.
  intros Hs Ha Hh Hr Hn. destruct (reached_ok MASK_SHIFT Hs raw alloc_sidecar Ha h Hh t w Hr) as (Hp & Hg & Hc).
  destruct (prop_step_ok MASK_SHIFT Hs raw alloc_sidecar Ha h (PSetValue key v) t w Hp) as (a & t' & w' & E & _ & Esp);
    [unfold RUN_ROOM, TABLE_ROOM in *; lia|done|by exists n|].
  cbn [prop_step spec_prop] in E, Esp. unfold spec_at in Esp. rewrite Hn in Esp. injection Esp as _ Ep.
  destruct (mal_property_set_value _ _ _ _ _ _ _) as [[[handle t1] w1]| |]; cbn in E; [|done|done]. injection E as _ -> ->.
  exists handle, t', w'. split; [done|]. by rewrite Ep, plookup_pset.
Qed.

(** * Claims *)

(** C13. A run of property operations on a new table (define, ensure, set, write, look
    up, read, delete, filter, clear, compact, reserve, pin, list) returns, answers what
    the ordered list of properties answers, leaves that list in insertion order, keeps
    the invariant of the table and of its sidecars, and freeing the table then frees
    every accessor sidecar exactly once. Setting a value is what property_store.c does: it
    replaces the whole descriptor by a writable, enumerable and configurable data
    property. The comment in property_store.h promises that only the value of an existing
    descriptor changes ([set_value_resets_attributes] is the difference). *)
Theorem property_run_refines MASK_SHIFT raw alloc_sidecar h ops :
  0 <= MASK_SHIFT -> fresh_allocator alloc_sidecar -> string_heap_ok h -> Forall (prop_op_ok h) ops -> arr_len ops <= RUN_ROOM ->
  exists answers t w, prop_run MASK_SHIFT raw alloc_sidecar ops mal_table_new (new_world h) = Ret (answers, t, w) /\
    answers = (spec_props h ops []).1 /\ props_of t w = (spec_props h ops []).2 /\ prop_ok t w /\
    exists w', mal_table_free t w = Ret w' /\ tw_sidecars w' = ∅.
Proof.
  intros Hs Ha Hh Hops Hlen. unfold RUN_ROOM in *.
  destruct (prop_run_ok MASK_SHIFT Hs raw alloc_sidecar Ha h ops mal_table_new (new_world h)) as (a & t & w & E & Hp & _ & _ & Esp).
  { by apply new_ok. } { by apply hash_grows_refl. } { done. } { cbn. unfold TABLE_ROOM. lia. }
  change (props_of mal_table_new (new_world h)) with ([] : Props) in Esp. rewrite <- Esp. exists a, t, w. do 4 (split; [done|]). by apply free_ok.
Qed.

(** C14. Whatever an operation does to a table, each key and each data value a live row
    held before is still held by a live row afterwards or was passed to the write
    barrier, as a snapshot-at-the-beginning collector requires; the operation returns. *)
Theorem property_snapshot_kept MASK_SHIFT raw alloc_sidecar h t w op :
  0 <= MASK_SHIFT -> fresh_allocator alloc_sidecar -> string_heap_ok h -> reached MASK_SHIFT raw alloc_sidecar h t w ->
  prop_op_ok h op ->
  exists a t' w', prop_step MASK_SHIFT raw alloc_sidecar op t w = Ret (a, t', w') /\ satb t w t' w'.
Proof.
  intros Hs Ha Hh Hr Hop. destruct (reached_ok MASK_SHIFT Hs raw alloc_sidecar Ha h Hh t w Hr) as (Hp & Hg & Hc).
  destruct (prop_step_ok MASK_SHIFT Hs raw alloc_sidecar Ha h op t w Hp) as (a & t' & w' & E & Hst & _);
    [unfold RUN_ROOM, TABLE_ROOM in *; lia|done|done|]. exists a, t', w'. split; [done|]. apply Hst.
Qed.

(** A lookup finds the row of a hint. *)
Lemma lookup_at_row MASK_SHIFT t w key n :
  0 <= MASK_SHIFT -> prop_ok t w -> key_name (tw_strings w) key = Some n ->
  exists found w', mal_property_lookup MASK_SHIFT t w key = Ret (found, w') /\
    (forall handle e, at_row t w handle e n -> found = Some (handle, row_desc (tw_sidecars w) e)) /\
    (forall handle d, found = Some (handle, d) -> exists e, at_row t w handle e n /\ d = row_desc (tw_sidecars w) e).
Proof.
  intros Hs Hp Hk. destruct (lookup_props MASK_SHIFT Hs t w key n Hp Hk) as (w' & _ & E & _). eexists _, w'. split; [exact E|]. split.
  - intros handle e Hat. destruct (at_row_desc t w Hp handle e n Hat) as [-> _]. destruct Hat as (k & -> & _ & _ & ->). done.
  - intros handle d Hf. pose proof (plookup_position t w n Hp) as Hpl. destruct (position _ _ n) as [k|] eqn:Hpos; [|done].
    destruct Hpl as (e & He & Hl & Epl). rewrite Epl in Hf. injection Hf as <- <-. exists e. split; [|done]. by exists k.
Qed.

(** C16. A row number kept from an earlier access is safe as a hint: whatever its value,
    a read through it that succeeds gives the value, flags or getter of the property
    the key names, at that row; and it does succeed for the right row when the key is a
    symbol or an index. *)
Theorem property_hints_sound MASK_SHIFT raw alloc_sidecar h t w handle key n :
  0 <= MASK_SHIFT -> fresh_allocator alloc_sidecar -> string_heap_ok h -> reached MASK_SHIFT raw alloc_sidecar h t w ->
  in_u 32 handle -> key_name (tw_strings w) (mal_key_from_value key) = Some n ->
  exists found value getter w', mal_property_lookup MASK_SHIFT t w (mal_key_from_value key) = Ret (found, w') /\
    mal_table_read_entry_hint t handle key = Ret value /\ mal_property_read_getter_hint t w handle key = Ret getter /\
    (forall v f, value = Some (v, f) \/ mal_table_named_hint_read t handle key = Some (v, f) ->
       found = Some (handle, mkDesc f v MAL_VALUE_UNDEFINED MAL_VALUE_UNDEFINED)) /\
    (forall g, getter = Some g -> exists f s, found = Some (handle, mkDesc f MAL_VALUE_UNDEFINED g s)) /\
    (forall d, (forall s, n <> PString s) -> found = Some (handle, d) ->
       if has_accessor (pd_flags d) then getter = Some (pd_getter d) else value = Some (pd_value d, pd_flags d)).
Proof.
  intros Hs Ha Hh Hr Hhd Hk. destruct (reached_ok MASK_SHIFT Hs raw alloc_sidecar Ha h Hh t w Hr) as (Hp & _ & _).
  destruct (lookup_at_row MASK_SHIFT t w _ n Hs Hp Hk) as (found & w' & E & Hfound & Hinv).
  destruct (hinted_row_ok t w Hp handle key n Hhd Hk) as (r & Er & Hrow). pose proof (named_hint_ok t w Hp handle key n Hhd Hk) as Hnamed.
  unfold mal_property_read_getter_hint, mal_table_read_entry_hint, mal_table_read_owned_entry_hint. rewrite Er. cbn [mbind outcome_bind].
  assert (forall e, at_row t w handle e n -> mal_table_row_owned e = false ->
    found = Some (handle, mkDesc (row_flags e) (te_payload e) MAL_VALUE_UNDEFINED MAL_VALUE_UNDEFINED)) as Hdata.
  { intros e Hat Ho. rewrite (Hfound _ _ Hat). destruct (at_row_desc t w Hp handle e n Hat) as [_ Eo]. unfold row_desc. by rewrite <- Eo, Ho. }
  assert (forall e, at_row t w handle e n -> mal_table_row_owned e = true -> exists g s,
    has_accessor (row_flags e) = true /\ te_payload e <> 0 /\ accessors_at w (te_payload e) = Ret (g, s) /\
    found = Some (handle, mkDesc (row_flags e) MAL_VALUE_UNDEFINED g s)) as Hacc.
  { intros e Hat Ho. destruct (at_row_desc t w Hp handle e n Hat) as [_ Eo]. pose proof Hat as (k & _ & Hke & _).
    assert (is_Some (tw_sidecars w !! te_payload e)) as [[g s] Es].
    { apply (po_owns _ _ Hp). apply list_elem_of_omap. exists e. split; [by eapply list_elem_of_lookup_2|by rewrite Ho]. }
    exists g, s. split; [congruence|]. split.
    - intros E0. rewrite E0 in Es. destruct (po_owns _ _ Hp) as (_ & _ & H0). congruence.
    - unfold accessors_at. rewrite Es. split; [done|]. rewrite (Hfound _ _ Hat). unfold row_desc. rewrite <- Eo, Ho, Es. done. }
  destruct r as [e|].
  - destruct (mal_table_row_owned e) eqn:Ho; cbn [negb].
    + destruct (Hacc e Hrow Ho) as (g & s & Hf & H0 & Eacc & Efound). rewrite Hf, Eacc. destruct (Z.eqb_spec (te_payload e) 0); [done|].
      cbn [orb negb mbind outcome_bind]. exists found, None, (Some g), w'. do 3 (split; [done|]). split; [|split].
      * intros v f [?|Hnm]; [done|]. rewrite Hnm in Hnamed. destruct Hnamed as (e' & Hat & Ho' & -> & ->). by apply Hdata.
      * intros g' [= <-]. by exists (row_flags e), s.
      * intros d _ Hd. rewrite Efound in Hd. injection Hd as <-. cbn. by rewrite Hf.
    + cbn [mbind outcome_bind]. eexists found, (Some _), None, w'. do 3 (split; [done|]). split; [|split; [done|]].
      * intros v f [[= <- <-]|Hnm]; [by apply Hdata|]. rewrite Hnm in Hnamed. destruct Hnamed as (e' & Hat & Ho' & -> & ->). by apply Hdata.
      * intros d _ Hd. rewrite (Hdata e Hrow Ho) in Hd. injection Hd as <-. cbn.
        destruct (at_row_desc t w Hp handle e n Hrow) as [_ <-]. by rewrite Ho.
  - cbn [mbind outcome_bind]. exists found, None, None, w'. do 3 (split; [done|]). split; [|split; [done|]].
    + intros v f [?|Hnm]; [done|]. rewrite Hnm in Hnamed. destruct Hnamed as (e' & Hat & Ho' & -> & ->). by apply Hdata.
    + intros d Hns Hd. destruct (Hinv _ _ Hd) as (e & (k & Ek & _ & _ & Hpos) & _). destruct (Hrow k Hpos Ek) as [s Es]. by destruct (Hns s).
Qed.

(** Reading a private element gives the value of the property its symbol names, and
    its data cell is that property's row, whatever hints the symbols carry; hints stay
    within their 28 bits. *)
Theorem private_element_any_hint MASK_SHIFT raw alloc_sidecar h t w hints symbol :
  0 <= MASK_SHIFT -> fresh_allocator alloc_sidecar -> string_heap_ok h -> reached MASK_SHIFT raw alloc_sidecar h t w ->
  hints_ok hints -> 0 <= symbol < 2 ^ 48 ->
  exists found value cell w0 w1 w2 hints1 hints2,
    mal_property_lookup MASK_SHIFT t w (symbol_key symbol) = Ret (found, w0) /\
    mal_table_get_private_value MASK_SHIFT (Some t) w hints symbol = Ret (value, w1, hints1) /\
    mal_table_private_value_slot MASK_SHIFT (Some t) w hints symbol = Ret (cell, w2, hints2) /\ hints_ok hints1 /\ hints_ok hints2 /\
    match found with
    | None => value = None /\ cell = None
    | Some (handle, d) =>
        if has_accessor (pd_flags d) then is_Some value /\ cell = None
        else value = Some (pd_value d) /\ cell = Some (mal_table_handle_index handle)
    end.
Proof.
  intros Hs Ha Hh Hr Hhints Hsym. destruct (reached_ok MASK_SHIFT Hs raw alloc_sidecar Ha h Hh t w Hr) as (Hp & _ & _).
  destruct (symbol_ident_ok w symbol Hsym) as (_ & _ & _ & _ & Ekey).
  destruct (lookup_at_row MASK_SHIFT t w _ _ Hs Hp Ekey) as (found & w0 & E0 & Hfound & Hinv).
  destruct (get_private_ok t w Hp MASK_SHIFT Hs symbol Hsym hints Hhints) as (w1 & hints1 & E1 & _ & H1).
  destruct (private_slot_ok t w Hp MASK_SHIFT Hs symbol Hsym hints Hhints) as (w2 & hints2 & E2 & _ & H2).
  exists found, (private_payload t w symbol), (private_cell t w symbol), w0, w1, w2, hints1, hints2. do 5 (split; [done|]).
  destruct found as [[handle d]|].
  - destruct (Hinv _ _ eq_refl) as (e & Hat & ->). destruct (at_row_desc t w Hp handle e _ Hat) as [_ Eo].
    pose proof Hat as (k & -> & Hk & Hl & Hpos). unfold private_payload, private_cell. rewrite Hpos. cbn [mbind option_bind]. rewrite Hk.
    destruct (row_handle _ _ _ _ (po_table _ _ Hp) Hk) as [-> _]. unfold row_desc.
    destruct (has_accessor (row_flags e)) eqn:Ef; [destruct (default _ _) as [g s]|]; cbn; rewrite Ef, Eo; [split; [eauto|done]|done].
  - unfold private_payload, private_cell. pose proof (plookup_position t w (PSymbol symbol) Hp) as Hpl.
    destruct (position _ _ (PSymbol symbol)) as [k|] eqn:Hpos; [|done]. destruct Hpl as (e & He & Hl & _).
    discriminate (Hfound (Z.of_nat k + 1) e). by exists k.
Qed.

(** C15. A handle a lookup gave stays good: after any further operations, if the table's
    generation is the same and the row is live, a lookup of the key still gives that
    handle; and revalidating any handle against a generation and a key succeeds exactly
    when the generation is current and a lookup gives the handle. *)
Theorem cached_handle_valid MASK_SHIFT raw alloc_sidecar h t w ops answers t' w' key handle w1 :
  0 <= MASK_SHIFT -> fresh_allocator alloc_sidecar -> string_heap_ok h -> reached MASK_SHIFT raw alloc_sidecar h t w ->
  Forall (prop_op_ok h) ops -> arr_len ops <= RUN_ROOM -> prop_run MASK_SHIFT raw alloc_sidecar ops t w = Ret (answers, t', w') ->
  is_Some (key_name h key) -> mal_table_lookup MASK_SHIFT t w key = Ret (Some handle, w1) ->
  exists found matched w2 w3, mal_table_lookup MASK_SHIFT t' w' key = Ret (found, w2) /\
    mal_table_entry_matches t' w' handle (mal_table_handle_epoch t) key = Ret (matched, w3) /\
    (mal_table_handle_epoch t' = mal_table_handle_epoch t -> mal_table_entry_is_live t' handle = true -> found = Some handle) /\
    (matched = true <-> mal_table_handle_epoch t' = mal_table_handle_epoch t /\ found = Some handle).
Proof.
  intros Hs Ha Hh Hr Hops Hlen E [n Hk] El. destruct (reached_ok MASK_SHIFT Hs raw alloc_sidecar Ha h Hh t w Hr) as (Hp & Hg & Hc).
  assert (entry_count t + arr_len ops <= TABLE_ROOM) as Hroom by (unfold RUN_ROOM, TABLE_ROOM in *; lia).
  destruct (prop_run_ok MASK_SHIFT Hs raw alloc_sidecar Ha h ops t w Hp Hg Hops Hroom) as (? & ? & ? & E' & Hp' & Hg' & _).
  rewrite E in E'. injection E' as <- <- <-.
  pose proof (prop_run_handles MASK_SHIFT Hs raw alloc_sidecar Ha h ops t w _ _ _ Hp Hg Hops Hroom E) as (k & Hkn & Ek & Hst).
  assert (forall w, hash_grows h (tw_strings w) -> key_name (tw_strings w) key = Some n) as Hkey by (intros ? Hg0; by rewrite (hash_grows_key h)).
  destruct (lookup_ok MASK_SHIFT Hs t w key n (po_table _ _ Hp) (Hkey w Hg)) as (? & El' & _). rewrite El in El'. injection El' as Hhd _.
  destruct (lookup_ok MASK_SHIFT Hs t' w' key n (po_table _ _ Hp') (Hkey w' Hg')) as (w2 & El2 & _).
  destruct (position (tw_strings w) (used_rows t) n) as [p|] eqn:Hpos; [|done]. cbn in Hhd. injection Hhd as ->.
  destruct (position_some _ _ _ _ Hpos) as (e & He & Hl & En). pose proof (count_bound t w Hp) as Hcb.
  pose proof (used_inv _ _ (po_table _ _ Hp) _ _ He) as [Hlt _].
  destruct (entry_matches_ok t' w' Hp' (Z.of_nat p + 1) (mal_table_handle_epoch t) key n) as (w3 & Em & _); [unfold in_u; lia|by apply Hkey|].
  eexists _, _, w2, w3. split; [exact El2|]. split; [exact Em|]. split.
  - intros Eep Hlive. unfold mal_table_handle_epoch in Eep. rewrite Ek in Eep.
    assert (k = O) as -> by (eapply epochs_fixed; [apply (ok_epoch _ _ (po_table _ _ Hp))|unfold arr_len, RUN_ROOM in *; lia|done]).
    unfold mal_table_entry_is_live in Hlive. apply andb_true_iff in Hlive as [Hrange Hlive]. apply andb_true_iff in Hrange as [_ Hle%Z.leb_le].
    pose proof (used_lookup _ _ (po_table _ _ Hp') (Z.of_nat p) ltac:(lia)) as Hat. rewrite Nat2Z.id in Hat.
    unfold handle_entry in Hlive. destruct (handle_of_index (Z.of_nat p)) as [_ Ehi]; [lia|]. rewrite Ehi in Hlive.
    destruct (Hst eq_refl) as [_ Hstab]. destruct (Hstab p _ Hat Hlive) as (e0 & He0 & _ & Eid); [by eapply lookup_lt_Some|].
    assert (e0 = e) as -> by congruence. rewrite (position_unique _ _ n p _ (ok_names _ _ (po_table _ _ Hp')) Hat); [done|]. split; [done|].
    unfold row_name in *. by rewrite <- Eid, (hash_grows_name h) by done; rewrite (hash_grows_name h) in En.
  - rewrite bool_decide_eq_true. split; intros [? ?]; by split.
Qed.

(** * A concrete client *)

Module PropertyDemo.
Import StringDemo.

(** One more than every address in use. *)
Definition next_sidecar (m : gmap Z (Z * Z)) : Z := map_fold (fun p _ n => Z.max n (p + 1)) 1 m.
Lemma next_sidecar_fresh : fresh_allocator next_sidecar.
Proof.
  intros m. assert (1 <= next_sidecar m /\ forall p, is_Some (m !! p) -> p < next_sidecar m) as [H1 H2].
  { apply (map_fold_weak_ind (fun n m => 1 <= n /\ forall p, is_Some (m !! p) -> p < n)).
    - split; [lia|]. intros p. rewrite lookup_empty. by intros [].
    - intros p x m' n _ [Hn Hm]. split; [lia|]. intros q. destruct (decide (q = p)) as [->|]; [lia|].
      rewrite lookup_insert_ne by done. intros Hq%Hm. lia. }
  split; [|lia]. apply eq_None_not_Some. intros Hs%H2. lia.
Qed.

Definition string_key (p : Z) : MalKey := mkKey MAL_KEY_STRING (mal_value_from_string p).
Definition index_key (n : Z) : MalKey := mkKey MAL_KEY_INDEX (mal_value_from_i32 n).
Definition private_key : MalKey := symbol_key 4096.
Definition accessor : MalPropertyDesc :=
  mkDesc (Z.lor MAL_PROPERTY_CONFIGURABLE MAL_PROPERTY_ACCESSOR) MAL_VALUE_UNDEFINED (mal_value_from_string 48) MAL_VALUE_UNDEFINED.
Definition data (v : Z) : MalPropertyDesc := data_desc (mal_value_from_i32 v).

(** A string property defined as a rope and looked up as a flat string, an accessor
    over it, enough indices to build the index, deletions, a filter and a sweep. *)
Definition build : list prop_op :=
  [PDefine (string_key 64) (data 1); PDefine private_key (data 7); PPin]
  ++ map (fun i => PSetValue (index_key i) (mal_value_from_i32 (10 * i))) (seqZ 0 6)
  ++ [PDefine (string_key 48) accessor; PEnsure (index_key 3) accessor; PEnsure (index_key 9) accessor].
Definition use : list prop_op :=
  [PRead (string_key 48); PLookup (index_key 9); PWrite (index_key 9) (data 5); PDelete (index_key 2); PDelete (index_key 2);
   PRetain (fun n => negb (bool_decide (n = PIndex 4))); PUnpin; PCompact; PReserve 40; PList; PSize; PClear; PSize].
Definition program : list prop_op := build ++ use.

Lemma prop_program_ok : Forall (prop_op_ok strings) build /\ Forall (prop_op_ok strings) use.
Proof.
  unfold build, use. change (seqZ 0 6) with [0; 1; 2; 3; 4; 5]. cbn [app map].
  split; repeat (apply Forall_cons; split; [cbn [prop_op_ok]; repeat split; try (by vm_compute); eexists; vm_compute; reflexivity|]);
    apply Forall_nil_2.
Qed.

(** The state the client builds. *)
Lemma build_reached : exists answers t w,
  prop_run 0 (fun _ => 0) next_sidecar build mal_table_new (new_world strings) = Ret (answers, t, w) /\
  reached 0 (fun _ => 0) next_sidecar strings t w.
Proof.
  destruct (prop_run_ok 0 ltac:(lia) (fun _ => 0) next_sidecar next_sidecar_fresh strings build mal_table_new (new_world strings))
    as (answers & t & w & E & _); [apply new_ok, strings_ok|apply hash_grows_refl, strings_ok|apply prop_program_ok|by vm_compute|].
  exists answers, t, w. split; [done|]. exists build, answers. split; [apply prop_program_ok|]. split; [by vm_compute|done].
Qed.

Lemma property_run_refines_witness :
  exists answers t w, prop_run 0 (fun _ => 0) next_sidecar program mal_table_new (new_world strings) = Ret (answers, t, w) /\
    answers = (spec_props strings program []).1 /\ props_of t w = (spec_props strings program []).2 /\ prop_ok t w /\
    exists w', mal_table_free t w = Ret w' /\ tw_sidecars w' = ∅.
Proof.
  apply (property_run_refines 0 (fun _ => 0) next_sidecar strings program);
    [lia|exact next_sidecar_fresh|exact strings_ok|apply Forall_app, prop_program_ok|by vm_compute].
Defined.

(** A property defined with no attribute set is writable, enumerable and configurable
    once its value is set. *)
Definition read_only (v : Z) : MalPropertyDesc := mkDesc 0 (mal_value_from_i32 v) MAL_VALUE_UNDEFINED MAL_VALUE_UNDEFINED.
Example set_value_read_only :
  (spec_props strings [PDefine private_key (read_only 1); PLookup private_key;
                       PSetValue private_key (mal_value_from_i32 2); PLookup private_key] []).1
  = [ADone; ADesc (Some (read_only 1)); ADone; ADesc (Some (data 2))] /\ pd_flags (data 2) = 7.
Proof. split; vm_compute; reflexivity. Qed.

Lemma property_snapshot_kept_witness :
  exists t w, reached 0 (fun _ => 0) next_sidecar strings t w /\
    exists a t' w', prop_step 0 (fun _ => 0) next_sidecar (PDelete private_key) t w = Ret (a, t', w') /\ satb t w t' w'.
Proof.
  destruct build_reached as (answers & t & w & _ & Hr). exists t, w. split; [exact Hr|].
  apply (property_snapshot_kept 0 (fun _ => 0) next_sidecar strings t w (PDelete private_key));
    [lia|exact next_sidecar_fresh|exact strings_ok|exact Hr|eexists; vm_compute; reflexivity].
Defined.

Lemma property_hints_sound_witness :
  exists t w, reached 0 (fun _ => 0) next_sidecar strings t w /\
  exists found value getter w', mal_property_lookup 0 t w (mal_key_from_value (mal_value_from_symbol 4096)) = Ret (found, w') /\
    mal_table_read_entry_hint t 2 (mal_value_from_symbol 4096) = Ret value /\
    mal_property_read_getter_hint t w 2 (mal_value_from_symbol 4096) = Ret getter /\
    (forall v f, value = Some (v, f) \/ mal_table_named_hint_read t 2 (mal_value_from_symbol 4096) = Some (v, f) ->
       found = Some (2, mkDesc f v MAL_VALUE_UNDEFINED MAL_VALUE_UNDEFINED)) /\
    (forall g, getter = Some g -> exists f s, found = Some (2, mkDesc f MAL_VALUE_UNDEFINED g s)) /\
    (forall d, (forall s, PSymbol 4096 <> PString s) -> found = Some (2, d) ->
       if has_accessor (pd_flags d) then getter = Some (pd_getter d) else value = Some (pd_value d, pd_flags d)).
Proof.
  destruct build_reached as (answers & t & w & _ & Hr). exists t, w. split; [exact Hr|].
  apply (property_hints_sound 0 (fun _ => 0) next_sidecar strings t w 2 (mal_value_from_symbol 4096) (PSymbol 4096));
    [lia|exact next_sidecar_fresh|exact strings_ok|exact Hr|by vm_compute|by vm_compute].
Defined.

Lemma private_element_any_hint_witness :
  exists t w, reached 0 (fun _ => 0) next_sidecar strings t w /\
  exists found value cell w0 w1 w2 hints1 hints2,
    mal_property_lookup 0 t w private_key = Ret (found, w0) /\
    mal_table_get_private_value 0 (Some t) w (fun _ => 77) 4096 = Ret (value, w1, hints1) /\
    mal_table_private_value_slot 0 (Some t) w (fun _ => 77) 4096 = Ret (cell, w2, hints2) /\ hints_ok hints1 /\ hints_ok hints2 /\
    match found with
    | None => value = None /\ cell = None
    | Some (handle, d) =>
        if has_accessor (pd_flags d) then is_Some value /\ cell = None
        else value = Some (pd_value d) /\ cell = Some (mal_table_handle_index handle)
    end.
Proof.
  destruct build_reached as (answers & t & w & _ & Hr). exists t, w. split; [exact Hr|].
  apply (private_element_any_hint 0 (fun _ => 0) next_sidecar strings t w (fun _ => 77) 4096);
    [lia|exact next_sidecar_fresh|exact strings_ok|exact Hr|intros p; by vm_compute|lia].
Defined.

(** The states before and after operations that leave the private element alone. *)
Definition state_of (o : outcome (list prop_answer * MalTable * TableWorld)) : MalTable * TableWorld :=
  match o with Ret (_, t, w) => (t, w) | _ => (mal_table_new, new_world strings) end.
Definition built : MalTable * TableWorld :=
  state_of (prop_run 0 (fun _ => 0) next_sidecar build mal_table_new (new_world strings)).
Definition more : list prop_op := [PDelete (index_key 2); PSetValue (index_key 20) MAL_VALUE_UNDEFINED; PCompact].

Lemma cached_handle_valid_witness :
  exists answers t' w' w1, prop_run 0 (fun _ => 0) next_sidecar more built.1 built.2 = Ret (answers, t', w') /\
  mal_table_lookup 0 built.1 built.2 private_key = Ret (Some 2, w1) /\
  exists found matched w2 w3, mal_table_lookup 0 t' w' private_key = Ret (found, w2) /\
    mal_table_entry_matches t' w' 2 (mal_table_handle_epoch built.1) private_key = Ret (matched, w3) /\
    (mal_table_handle_epoch t' = mal_table_handle_epoch built.1 -> mal_table_entry_is_live t' 2 = true -> found = Some 2) /\
    (matched = true <-> mal_table_handle_epoch t' = mal_table_handle_epoch built.1 /\ found = Some 2).
Proof.
  assert (reached 0 (fun _ => 0) next_sidecar strings built.1 built.2) as Hr.
  { destruct build_reached as (answers & t & w & E & Hr). unfold built. rewrite E. exact Hr. }
  assert (Forall (prop_op_ok strings) more) as Hm.
  { repeat (apply Forall_cons; split; [cbn [prop_op_ok]; try done; eexists; vm_compute; reflexivity|]). apply Forall_nil_2. }
  destruct (reached_ok 0 ltac:(lia) (fun _ => 0) next_sidecar next_sidecar_fresh strings strings_ok _ _ Hr) as (Hp & Hg & Hc).
  destruct (prop_run_ok 0 ltac:(lia) (fun _ => 0) next_sidecar next_sidecar_fresh strings more built.1 built.2 Hp Hg Hm)
    as (answers & t' & w' & E & _); [unfold RUN_ROOM, TABLE_ROOM in *; change (arr_len more) with 3; lia|].
  assert (exists w1, mal_table_lookup 0 built.1 built.2 private_key = Ret (Some 2, w1)) as [w1 El] by (eexists; vm_compute; reflexivity).
  exists answers, t', w', w1. split; [exact E|]. split; [exact El|].
  apply (cached_handle_valid 0 (fun _ => 0) next_sidecar strings built.1 built.2 more answers t' w' private_key 2 w1);
    [lia|exact next_sidecar_fresh|exact strings_ok|exact Hr|exact Hm|by vm_compute|exact E|eexists; vm_compute; reflexivity|exact El].
Defined.
End PropertyDemo.
