(* ===== verification/Reactor.v ===== *)
(** The timer queue of the reactor, runtime/src/host/reactor.c and reactor.h: a binary
    heap of pointers to caller-owned timers, ordered by deadline and, among equal
    deadlines, by the order of insertion. A queued timer that is re-armed to a later
    deadline stays where it is and is moved when its old deadline surfaces.

    Timers are cells of a memory; reading one that is not there is a fault. The
    descriptor side of the reactor (epoll and kqueue registrations, wakes) is not
    modelled: [pump_timers] is what [mal_reactor_pump] does after its wait. *)

From stdpp Require Import gmap.
From S2P Require Import Prelude.

(** [waker.fn(waker.data)] is told by the timer it is called for. *)
Record MalTimer : Type := mkTimer {
  deadline_ns : Z;
  postponed_ns : Z;
  heap_index : Z;
  sequence : Z;
}.

(** The timer fields of [MalReactor], and the timers they point to. *)
Record MalReactor : Type := mkReactor {
  timers : list Z;
  timer_count : Z;
  timer_cap : Z;
  next_timer_sequence : Z;
  timer_cells : gmap Z MalTimer;
}.

Definition set_timers (l : list Z) (r : MalReactor) : MalReactor :=
  mkReactor l (timer_count r) (timer_cap r) (next_timer_sequence r) (timer_cells r).
Definition set_timer_count (n : Z) (r : MalReactor) : MalReactor :=
  mkReactor (timers r) n (timer_cap r) (next_timer_sequence r) (timer_cells r).
Definition set_timer_cap (n : Z) (r : MalReactor) : MalReactor :=
  mkReactor (timers r) (timer_count r) n (next_timer_sequence r) (timer_cells r).
Definition set_next_sequence (n : Z) (r : MalReactor) : MalReactor :=
  mkReactor (timers r) (timer_count r) (timer_cap r) n (timer_cells r).
Definition set_timer_cells (m : gmap Z MalTimer) (r : MalReactor) : MalReactor :=
  mkReactor (timers r) (timer_count r) (timer_cap r) (next_timer_sequence r) m.

Definition set_deadline (d : Z) (t : MalTimer) : MalTimer := mkTimer d (postponed_ns t) (heap_index t) (sequence t).
Definition set_postponed (d : Z) (t : MalTimer) : MalTimer := mkTimer (deadline_ns t) d (heap_index t) (sequence t).
Definition set_heap_index (i : Z) (t : MalTimer) : MalTimer := mkTimer (deadline_ns t) (postponed_ns t) i (sequence t).
Definition set_sequence (n : Z) (t : MalTimer) : MalTimer := mkTimer (deadline_ns t) (postponed_ns t) (heap_index t) n.

(** [*t] and [t->field = ...]. *)
Definition timer_at (r : MalReactor) (t : Z) : outcome MalTimer :=
  match timer_cells r !! t with Some x => Ret x | None => Abort end.
Definition with_timer (t : Z) (f : MalTimer -> MalTimer) (r : MalReactor) : outcome MalReactor :=
  x ← timer_at r t; Ret (set_timer_cells (<[t := f x]> (timer_cells r)) r).
(** [r->timers[i]] and [r->timers[i] = t]. *)
Definition slot (r : MalReactor) (i : Z) : Z := arr_get (timers r) i.
Definition set_slot (i t : Z) (r : MalReactor) : MalReactor := set_timers (arr_set (timers r) i t) r.

Definition mal_timer_swap (r : MalReactor) (a b : Z) : outcome MalReactor :=
  let ta := slot r a in
  let tb := slot r b in
  let r := set_slot b ta (set_slot a tb r) in
  r ← with_timer tb (set_heap_index a) r;
  with_timer ta (set_heap_index b) r.

Definition mal_timer_less (a b : MalTimer) : bool :=
  (deadline_ns a <? deadline_ns b) || ((deadline_ns a =? deadline_ns b) && (sequence a <? sequence b)).
(** The comparison of two slots. *)
Definition slot_less (r : MalReactor) (i j : Z) : outcome bool :=
  a ← timer_at r (slot r i); b ← timer_at r (slot r j); Ret (mal_timer_less a b).

Fixpoint sift_up_loop (fuel : nat) (r : MalReactor) (i : Z) : outcome MalReactor :=
  match fuel with
  | O => NoFuel
  | S fuel =>
      if 0 <? i then
        let parent := (i - 1) / 2 in
        less ← slot_less r i parent;
        if negb less then Ret r
        else
          r ← mal_timer_swap r i parent;
          sift_up_loop fuel r parent
      else Ret r
  end.
Definition mal_timer_sift_up (r : MalReactor) (i : Z) : outcome MalReactor := sift_up_loop (S (Z.to_nat i)) r i.

(** [index < r->timer_count && mal_timer_less(timers[index], timers[smallest]) ? index : smallest]. *)
Definition smaller_child (r : MalReactor) (index smallest : Z) : outcome Z :=
  if index <? timer_count r then less ← slot_less r index smallest; Ret (if (less : bool) then index else smallest)
  else Ret smallest.
Fixpoint sift_down_loop (fuel : nat) (r : MalReactor) (i : Z) : outcome MalReactor :=
  match fuel with
  | O => NoFuel
  | S fuel =>
      smallest ← smaller_child r (2 * i + 1) i;
      smallest ← smaller_child r (2 * i + 2) smallest;
      if smallest =? i then Ret r
      else
        r ← mal_timer_swap r i smallest;
        sift_down_loop fuel r smallest
  end.
Definition mal_timer_sift_down (r : MalReactor) (i : Z) : outcome MalReactor :=
  sift_down_loop (S (Z.to_nat (timer_count r - i))) r i.

Section Reactor.
(** What fresh slots hold. *)
Variable raw : Z -> Z.

(** The growth of the slot array when it is full. *)
Definition grow_timers (r : MalReactor) : MalReactor :=
  if timer_count r =? timer_cap r then
    let cap := if timer_cap r =? 0 then 8 else i32 (timer_cap r * 2) in
    set_timers (timers r ++ map raw (seqZ 0 (cap - timer_cap r))) (set_timer_cap cap r)
  else r.
Definition mal_reactor_add_timer (r : MalReactor) (t : Z) : outcome MalReactor :=
  let r := grow_timers r in
  let i := timer_count r in
  let r := set_slot i t (set_timer_count (i32 (i + 1)) r) in
  r ← with_timer t (set_heap_index i) r;
  r ← with_timer t (set_postponed 0) r;
  r ← with_timer t (set_sequence (next_timer_sequence r)) r;
  let r := set_next_sequence (u64 (next_timer_sequence r + 1)) r in
  mal_timer_sift_up r i.

Definition mal_timer_remove_at (r : MalReactor) (i : Z) : outcome (Z * MalReactor) :=
  let removed := slot r i in
  let last := timer_count r - 1 in
  let r := set_timer_count last r in
  r ← with_timer removed (set_heap_index (-1)) r;
  if negb (i =? last) then
    let r := set_slot i (slot r last) r in
    r ← with_timer (slot r i) (set_heap_index i) r;
    r ← mal_timer_sift_down r i;
    r ← mal_timer_sift_up r i;
    Ret (removed, r)
  else Ret (removed, r).

Definition mal_timer_queued (r : MalReactor) (t : Z) : outcome bool :=
  x ← timer_at r t;
  Ret ((0 <=? heap_index x) && (heap_index x <? timer_count r) && (slot r (heap_index x) =? t)).

Definition mal_reactor_cancel_timer (r : MalReactor) (t : Z) : outcome MalReactor :=
  queued ← mal_timer_queued r t;
  if (queued : bool) then
    x ← timer_at r t;
    '(_, r) ← mal_timer_remove_at r (heap_index x);
    Ret r
  else Ret r.

Definition mal_reactor_rearm_timer (r : MalReactor) (t deadline : Z) : outcome MalReactor :=
  queued ← mal_timer_queued r t;
  x ← timer_at r t;
  if queued && (deadline_ns x <=? deadline) then with_timer t (set_postponed deadline) r
  else
    r ← mal_reactor_cancel_timer r t;
    r ← with_timer t (set_deadline deadline) r;
    mal_reactor_add_timer r t.

(** The timer fields [mal_reactor_init] sets. *)
Definition mal_reactor_init (cells : gmap Z MalTimer) : MalReactor := mkReactor [] 0 0 0 cells.

(** The deadline the pump sleeps to: [r->timers[0]->deadline_ns]. *)
Definition next_deadline (r : MalReactor) : outcome (option Z) :=
  if 0 <? timer_count r then x ← timer_at r (slot r 0); Ret (Some (deadline_ns x)) else Ret None.

(** One turn of the loop that fires timers. *)
Inductive pump_turn : Set := TurnIdle | TurnPostponed | TurnFired (t : Z).
Definition pump_step (r : MalReactor) (now : Z) : outcome (pump_turn * MalReactor) :=
  due ← (if 0 <? timer_count r then x ← timer_at r (slot r 0); Ret (deadline_ns x <=? now) else Ret false);
  if negb due then Ret (TurnIdle, r)
  else
    '(t, r) ← mal_timer_remove_at r 0;
    x ← timer_at r t;
    if deadline_ns x <? postponed_ns x then
      r ← with_timer t (set_deadline (postponed_ns x)) r;
      r ← mal_reactor_add_timer r t;
      Ret (TurnPostponed, r)
    else Ret (TurnFired t, r).

(** The loop, with what the wakers do to the reactor. *)
Variable wake : Z -> MalReactor -> outcome MalReactor.
Fixpoint pump_timers (fuel : nat) (r : MalReactor) (now : Z) : outcome (list Z * MalReactor) :=
  match fuel with
  | O => NoFuel
  | S fuel =>
      '(turn, r) ← pump_step r now;
      match turn with
      | TurnIdle => Ret ([], r)
      | TurnPostponed => pump_timers fuel r now
      | TurnFired t =>
          r ← wake t r;
          '(fired, r) ← pump_timers fuel r now;
          Ret (t :: fired, r)
      end
  end.
End Reactor.
