(* ===== verification/ReactorSpec.v ===== *)
(** The timer heap (Reactor). First binary heaps in an array, over any total preorder: the
    order along the edges from parent to child, and what moving one element up or down
    restores. Then the operations of the reactor, which keep the heap order and the index
    each queued timer carries, and change the set of queued timers by one. Last the sorted
    list the heap stands for, and each operation on it. *)

From stdpp Require Import list gmap sorting.
From S2P Require Import Prelude Reactor.

Section heap.
Variable le : Z -> Z -> Prop.
Hypothesis le_trans : forall a b c, le a b -> le b c -> le a c.
Hypothesis le_refl : forall a, le a a.

Definition parent (i : Z) : Z := (i - 1) / 2.
Definition swapped (l : list Z) (a b : Z) : list Z := arr_set (arr_set l a (arr_get l b)) b (arr_get l a).

(** The edge into slot [j]. *)
Definition edge (l : list Z) (j : Z) : Prop := le (arr_get l (parent j)) (arr_get l j).
Definition heap_ordered (l : list Z) (n : Z) : Prop := forall j, 0 < j < n -> edge l j.
(** The children of [i] are not before its parent. *)
Definition across (l : list Z) (n i : Z) : Prop :=
  0 < i -> forall j, 0 < j < n -> parent j = i -> le (arr_get l (parent i)) (arr_get l j).
(** Ordered but for the edge into [i]. *)
Definition up_ordered (l : list Z) (n i : Z) : Prop := (forall j, 0 < j < n -> j <> i -> edge l j) /\ across l n i.
(** Ordered but for the edges at [i], of which the one into [i] only when [i] is the start [i0]. *)
Definition down_ordered (l : list Z) (n i0 i : Z) : Prop :=
  (forall j, 0 < j < n -> parent j <> i -> j <> i0 \/ i <> i0 -> edge l j) /\ across l n i.

Lemma parent_range j : 0 < j -> 0 <= parent j < j.
Proof. unfold parent. Z.to_euclidean_division_equations. lia. Qed.
Lemma parent_children i j : 0 <= i -> 0 < j -> parent j = i <-> j = 2 * i + 1 \/ j = 2 * i + 2.
Proof. unfold parent. Z.to_euclidean_division_equations. lia. Qed.

Section swap.
Context (l : list Z) (a b : Z).
Hypothesis Ha : 0 <= a < arr_len l.
Hypothesis Hb : 0 <= b < arr_len l.
Lemma swapped_len : arr_len (swapped l a b) = arr_len l.
Proof using Type. unfold swapped. by rewrite !arr_len_set. Qed.
Lemma swapped_l : a <> b -> arr_get (swapped l a b) a = arr_get l b.
Proof using Ha Hb. intros. unfold swapped. rewrite arr_get_set_ne by lia. apply arr_get_set_eq. lia. Qed.
Lemma swapped_r : arr_get (swapped l a b) b = arr_get l a.
Proof using Ha Hb. unfold swapped. apply arr_get_set_eq. by rewrite arr_len_set. Qed.
Lemma swapped_ne i : 0 <= i -> i <> a -> i <> b -> arr_get (swapped l a b) i = arr_get l i.
Proof using Ha Hb. intros. unfold swapped. by rewrite !arr_get_set_ne by lia. Qed.
Lemma swapped_perm n : 0 <= n -> a < n -> b < n -> a <> b -> take (Z.to_nat n) (swapped l a b) ≡ₚ take (Z.to_nat n) l.
Proof using Ha Hb.
  intros Hn Han Hbn Hne. unfold swapped, arr_set. rewrite !take_insert_lt by lia.
  apply Permutation_insert_swap; rewrite lookup_take_lt by lia; by apply arr_get_lookup.
Qed.
End swap.

(** * Moving up *)

Lemma up_done l n i : up_ordered l n i -> (0 < i < n -> edge l i) -> heap_ordered l n.
Proof using Type. intros [H _] Hi j Hj. destruct (decide (j = i)) as [->|]; auto. Qed.

Lemma up_step l n i :
  0 < i < n -> n <= arr_len l -> up_ordered l n i -> le (arr_get l i) (arr_get l (parent i)) ->
  up_ordered (swapped l i (parent i)) n (parent i).
Proof using le_trans.
  intros Hi Hn [He Ha] Hlt. pose proof (parent_range i ltac:(lia)) as Hp. set (p := parent i) in *.
  assert (0 <= i < arr_len l) as Ri by lia. assert (0 <= p < arr_len l) as Rp by lia.
  assert (arr_get (swapped l i p) i = arr_get l p) as Ei by (apply swapped_l; lia).
  assert (arr_get (swapped l i p) p = arr_get l i) as Ep by (apply swapped_r; lia).
  assert (forall k, 0 <= k -> k <> i -> k <> p -> arr_get (swapped l i p) k = arr_get l k) as Eo by (intros; apply swapped_ne; lia).
  split.
  - intros j Hj Hjp. unfold edge. pose proof (parent_range j ltac:(lia)). destruct (decide (j = i)) as [->|Hji].
    + fold p. rewrite Ei, Ep. done.
    + rewrite (Eo j) by lia. destruct (decide (parent j = i)) as [Eq|].
      * rewrite Eq, Ei. apply Ha; [lia|done|done].
      * destruct (decide (parent j = p)) as [Eq|]; [|rewrite (Eo (parent j)) by lia; apply (He j); lia].
        rewrite Eq, Ep. eapply le_trans; [exact Hlt|]. rewrite <- Eq. apply (He j); lia.
  - intros Hp0 j Hj Hjp. pose proof (parent_range p Hp0). rewrite (Eo (parent p)) by lia.
    assert (le (arr_get l (parent p)) (arr_get l p)) as Hpp by (apply (He p); lia).
    destruct (decide (j = i)) as [->|]; [by rewrite Ei|]. pose proof (parent_range j ltac:(lia)).
    rewrite (Eo j) by lia. eapply le_trans; [exact Hpp|]. rewrite <- Hjp. apply (He j); lia.
Qed.

(** * Moving down *)

Lemma down_done l n i0 i :
  0 <= i0 < n -> down_ordered l n i0 i -> (forall j, 0 < j < n -> parent j = i -> edge l j) -> up_ordered l n i0.
Proof using le_trans.
  intros Hi0 [He Ha] Hc.
  assert (forall j, 0 < j < n -> j <> i0 -> edge l j) as Hall.
  { intros j Hj Hne. destruct (decide (parent j = i)); auto. }
  split; [done|]. destruct (decide (i = i0)) as [->|Hne]; [done|]. intros H0 j Hj Hp.
  eapply le_trans; [|apply (Hall j Hj)].
  - rewrite Hp. destruct (decide (parent i0 = i)); [apply (Hc i0); [lia|done]|]. apply (He i0); [lia|done|by right].
  - intros ->. pose proof (parent_range i0 H0). lia.
Qed.

Lemma down_step l n i0 i s :
  0 <= i0 <= i -> 0 < s < n -> n <= arr_len l -> parent s = i -> down_ordered l n i0 i ->
  le (arr_get l s) (arr_get l i) -> (forall j, 0 < j < n -> parent j = i -> le (arr_get l s) (arr_get l j)) ->
  down_ordered (swapped l i s) n i0 s.
Proof using le_trans.
  intros Hi0 Hs Hn Hps [He Ha] Hlt Hmin. pose proof (parent_range s ltac:(lia)) as Hsp. rewrite Hps in Hsp.
  assert (0 <= i < arr_len l) as Ri by lia. assert (0 <= s < arr_len l) as Rs by lia.
  assert (arr_get (swapped l i s) i = arr_get l s) as Ei by (apply swapped_l; lia).
  assert (arr_get (swapped l i s) s = arr_get l i) as Es by (apply swapped_r; lia).
  assert (forall k, 0 <= k -> k <> i -> k <> s -> arr_get (swapped l i s) k = arr_get l k) as Eo by (intros; apply swapped_ne; lia).
  split.
  - intros j Hj Hjs _. unfold edge. pose proof (parent_range j ltac:(lia)). destruct (decide (j = i)) as [->|Hji].
    + rewrite Ei, (Eo (parent i)) by lia. apply Ha; [lia|done|done].
    + destruct (decide (parent j = i)) as [Eq|Hne].
      * rewrite Eq, Ei. destruct (decide (j = s)) as [->|]; [by rewrite Es|]. rewrite (Eo j) by lia. by apply Hmin.
      * destruct (decide (j = s)) as [->|]; [congruence|]. rewrite (Eo j), (Eo (parent j)) by lia.
        destruct (decide (j = i0)) as [->|]; [|apply He; [done|done|by left]].
        destruct (decide (i = i0)) as [->|]; [done|]. apply He; [done|done|by right].
  - intros _ j Hj Hjs. rewrite Hps, Ei. pose proof (parent_range j ltac:(lia)). rewrite (Eo j) by lia. rewrite <- Hjs.
    apply (He j); [done|lia|left; lia].
Qed.

(** The first slot is least. *)
Lemma heap_min l n j : heap_ordered l n -> 0 <= j < n -> le (arr_get l 0) (arr_get l j).
Proof using le_trans le_refl.
  intros H Hj. assert (forall m k, 0 <= k < n -> k <= Z.of_nat m -> le (arr_get l 0) (arr_get l k)) as Hm; [|apply (Hm (Z.to_nat j)); lia].
  induction m as [|m IH]; intros k Hk Hkm.
  - replace k with 0 by lia. apply le_refl.
  - destruct (decide (k = 0)) as [->|]; [apply le_refl|]. pose proof (parent_range k ltac:(lia)).
    eapply le_trans; [apply (IH (parent k)); lia|]. apply H. lia.
Qed.

(** The slots before [n] do not see the others. *)
Lemma heap_shrink l n m : heap_ordered l n -> m <= n -> heap_ordered l m.
Proof using Type. intros H Hm j Hj. apply H. lia. Qed.
End heap.

(** * The first slots of an array *)

Lemma take_last (l : list Z) n : 0 <= n < arr_len l -> take (Z.to_nat (n + 1)) l = take (Z.to_nat n) l ++ [arr_get l n].
Proof. intros Hn. replace (Z.to_nat (n + 1)) with (S (Z.to_nat n)) by lia. apply take_S_r. by apply arr_get_lookup. Qed.
(** Filling slot [i] with the last element takes out what it held. *)
Lemma take_fill (l : list Z) n i :
  0 <= i < n -> n < arr_len l -> take (Z.to_nat (n + 1)) l ≡ₚ arr_get l i :: take (Z.to_nat n) (arr_set l i (arr_get l n)).
Proof.
  intros Hi Hn. rewrite take_last by lia. unfold arr_set. rewrite take_insert_lt by lia. set (L := take (Z.to_nat n) l).
  assert (L !! Z.to_nat i = Some (arr_get l i)) as EL by (unfold L; rewrite lookup_take_lt by lia; apply arr_get_lookup; lia).
  rewrite (insert_take_drop L) by (by eapply lookup_lt_Some). rewrite <- (take_drop_middle L _ _ EL) at 1. solve_Permutation.
Qed.

(** What a timer is but for its place in the heap: deadline, postponement, sequence. *)
Definition timer_view (x : MalTimer) : Z * Z * Z := (deadline_ns x, postponed_ns x, sequence x).
Definition views (r : MalReactor) : gmap Z (Z * Z * Z) := timer_view <$> timer_cells r.

(** The order of two timers. *)
Definition timer_key (v : gmap Z (Z * Z * Z)) (t : Z) : Z * Z :=
  match v !! t with Some (d, _, s) => (d, s) | None => (0, 0) end.
Definition key_le (a b : Z * Z) : Prop := a.1 < b.1 \/ (a.1 = b.1 /\ a.2 <= b.2).
Definition timer_le (v : gmap Z (Z * Z * Z)) (a b : Z) : Prop := key_le (timer_key v a) (timer_key v b).
Lemma timer_le_trans v a b c : timer_le v a b -> timer_le v b c -> timer_le v a c.
Proof. unfold timer_le, key_le. lia. Qed.
Lemma timer_le_refl v a : timer_le v a a.
Proof. unfold timer_le, key_le. lia. Qed.

(** The slots in use hold live timers that know their place. *)
Definition indices_ok (r : MalReactor) : Prop :=
  forall i, 0 <= i < timer_count r -> exists x, timer_cells r !! slot r i = Some x /\ heap_index x = i.
Record slots_ok (r : MalReactor) : Prop := {
  so_count : 0 <= timer_count r <= timer_cap r;
  so_cap : arr_len (timers r) = timer_cap r;
  so_bound : timer_cap r <= 2 ^ 30;
  so_index : indices_ok r;
}.
Definition queued (r : MalReactor) : list Z := take (Z.to_nat (timer_count r)) (timers r).
Definition heap_ok (r : MalReactor) : Prop := slots_ok r /\ heap_ordered (timer_le (views r)) (timers r) (timer_count r).

Lemma timer_slot_inj r i j : indices_ok r -> 0 <= i < timer_count r -> 0 <= j < timer_count r -> slot r i = slot r j -> i = j.
Proof.
  intros H Hi Hj E. destruct (H i Hi) as (x & Hx & Ei), (H j Hj) as (y & Hy & Ej). rewrite E in Hx. congruence.
Qed.
Lemma queued_lookup r k : slots_ok r -> 0 <= k < timer_count r -> queued r !! Z.to_nat k = Some (slot r k).
Proof.
  intros [H1 H2 _ _] Hk. unfold queued. rewrite lookup_take_lt by lia. apply arr_get_lookup. lia.
Qed.
Lemma queued_elem r t : slots_ok r -> t ∈ queued r <-> exists k, 0 <= k < timer_count r /\ slot r k = t.
Proof.
  intros Hs. split.
  - intros [k Hk]%list_elem_of_lookup_1. pose proof (lookup_lt_Some _ _ _ Hk) as Hlt. unfold queued in Hlt. rewrite length_take in Hlt.
    exists (Z.of_nat k). assert (0 <= Z.of_nat k < timer_count r) as Hr by (destruct Hs; unfold arr_len in *; lia). split; [done|].
    pose proof (queued_lookup r _ Hs Hr) as E. rewrite Nat2Z.id in E. congruence.
  - intros (k & Hk & <-). apply (list_elem_of_lookup_2 _ (Z.to_nat k)). by apply queued_lookup.
Qed.
Lemma queued_length r : slots_ok r -> arr_len (queued r) = timer_count r.
Proof. intros [H1 H2 _ _]. unfold queued, arr_len in *. rewrite length_take. lia. Qed.
Lemma queued_nodup r : slots_ok r -> NoDup (queued r).
Proof.
  intros Hs. apply NoDup_alt. intros i j t Hi Hj. pose proof (queued_length r Hs) as Hl. unfold arr_len in Hl.
  pose proof (lookup_lt_Some _ _ _ Hi). pose proof (lookup_lt_Some _ _ _ Hj).
  pose proof (queued_lookup r (Z.of_nat i) Hs ltac:(lia)) as Ei. pose proof (queued_lookup r (Z.of_nat j) Hs ltac:(lia)) as Ej.
  rewrite Nat2Z.id in Ei, Ej. enough (Z.of_nat i = Z.of_nat j) by lia. apply (timer_slot_inj r); [apply Hs|lia|lia|congruence].
Qed.

(** * Rearranging *)

(** The same timers, in other slots. *)
Record moved (r r' : MalReactor) : Prop := {
  mv_slots : slots_ok r';
  mv_views : views r' = views r;
  mv_queued : queued r' ≡ₚ queued r;
  mv_count : timer_count r' = timer_count r;
  mv_cap : timer_cap r' = timer_cap r;
  mv_next : next_timer_sequence r' = next_timer_sequence r;
}.
Lemma moved_refl r : slots_ok r -> moved r r.
Proof. intros. by split. Qed.
Lemma moved_trans r1 r2 r3 : moved r1 r2 -> moved r2 r3 -> moved r1 r3.
Proof. intros [] []. split; try congruence. by etrans. Qed.

Lemma views_heap_index r t x i :
  timer_cells r !! t = Some x -> views (set_timer_cells (<[t := set_heap_index i x]> (timer_cells r)) r) = views r.
Proof.
  intros Hx. unfold views. cbn. rewrite fmap_insert. apply insert_id. by rewrite lookup_fmap, Hx.
Qed.
Lemma timer_at_some r t x : timer_cells r !! t = Some x -> timer_at r t = Ret x.
Proof. intros E. unfold timer_at. by rewrite E. Qed.
Lemma with_timer_some r t x f :
  timer_cells r !! t = Some x -> with_timer t f r = Ret (set_timer_cells (<[t := f x]> (timer_cells r)) r).
Proof. intros E. unfold with_timer. by rewrite (timer_at_some _ _ _ E). Qed.

Lemma swap_ok r a b :
  slots_ok r -> 0 <= a < timer_count r -> 0 <= b < timer_count r -> a <> b ->
  exists r', mal_timer_swap r a b = Ret r' /\ moved r r' /\ timers r' = swapped (timers r) a b.
Proof.
  intros Hs Ha Hb Hne. pose proof Hs as [H1 H2 H3 Hi]. destruct (Hi a Ha) as (x & Hx & Ex), (Hi b Hb) as (y & Hy & Ey).
  assert (slot r a <> slot r b) as Hab by (intros E; apply Hne; by apply (timer_slot_inj r)).
  unfold mal_timer_swap. cbv zeta. set (r0 := set_slot b (slot r a) (set_slot a (slot r b) r)).
  rewrite (with_timer_some r0 (slot r b) y) by exact Hy. cbn [mbind outcome_bind].
  match goal with |- context [with_timer _ _ ?r] => set (r1 := r) end.
  rewrite (with_timer_some r1 (slot r a) x) by (unfold r1; cbn; by rewrite lookup_insert_ne).
  eexists. split; [done|]. assert (timers r0 = swapped (timers r) a b) as Et by done.
  split; [|exact Et]. split; try done.
  - split; [exact H1|cbn; by rewrite !arr_len_set|exact H3|].
    intros i Hii. change (slot _ i) with (arr_get (swapped (timers r) a b) i). unfold r1, r0. cbn [timer_cells set_timer_cells set_slot set_timers]. cbn in Hii.
    destruct (decide (i = a)) as [->|]; [|destruct (decide (i = b)) as [->|]].
    + rewrite swapped_l by lia. fold (slot r b). rewrite lookup_insert_ne, lookup_insert_eq by done. eauto.
    + rewrite swapped_r by lia. fold (slot r a). rewrite lookup_insert_eq. eauto.
    + rewrite swapped_ne by lia. destruct (Hi i Hii) as (z & Hz & Ez). fold (slot r i). exists z. split; [|done].
      rewrite !lookup_insert_ne; [done| |]; intros E; apply (timer_slot_inj r) in E; done || lia.
  - unfold views. cbn. rewrite !fmap_insert. rewrite insert_id; [apply insert_id|]; rewrite ?lookup_insert_ne by done; rewrite lookup_fmap, ?Hx, ?Hy; done.
  - apply (swapped_perm (timers r) a b); cbn; lia.
Qed.

Lemma slot_key r i x : timer_cells r !! slot r i = Some x -> timer_key (views r) (slot r i) = (deadline_ns x, sequence x).
Proof. intros E. unfold timer_key, views. by rewrite lookup_fmap, E. Qed.
Lemma slot_less_ok r i j :
  slots_ok r -> 0 <= i < timer_count r -> 0 <= j < timer_count r ->
  exists b, slot_less r i j = Ret b /\
    if b : bool then timer_le (views r) (slot r i) (slot r j) else timer_le (views r) (slot r j) (slot r i).
Proof.
  intros [_ _ _ H] Hi Hj. destruct (H i Hi) as (x & Hx & _), (H j Hj) as (y & Hy & _). unfold slot_less.
  rewrite (timer_at_some _ _ _ Hx), (timer_at_some _ _ _ Hy). cbn [mbind outcome_bind]. eexists. split; [done|].
  unfold timer_le. rewrite (slot_key _ _ _ Hx), (slot_key _ _ _ Hy). unfold key_le, mal_timer_less. cbn.
  destruct (Z.ltb_spec (deadline_ns x) (deadline_ns y)), (Z.eqb_spec (deadline_ns x) (deadline_ns y)), (Z.ltb_spec (sequence x) (sequence y)); cbn; lia.
Qed.

Lemma sift_up_ok fuel : forall r i,
  slots_ok r -> 0 <= i < timer_count r -> (Z.to_nat i < fuel)%nat ->
  up_ordered (timer_le (views r)) (timers r) (timer_count r) i ->
  exists r', sift_up_loop fuel r i = Ret r' /\ moved r r' /\ heap_ok r'.
Proof.
  induction fuel as [|fuel IH]; intros r i Hs Hi Hf Hu; [lia|]. cbn [sift_up_loop].
  destruct (Z.ltb_spec 0 i) as [Hpos|].
  - fold (parent i). pose proof (parent_range i Hpos) as Hp.
    destruct (slot_less_ok r i (parent i) Hs Hi) as (b & -> & Hb); [lia|]. cbn [mbind outcome_bind]. destruct b; cbn [negb].
    + destruct (swap_ok r i (parent i) Hs Hi) as (r1 & -> & Hm & Et); [lia|lia|]. cbn [mbind outcome_bind].
      destruct (IH r1 (parent i)) as (r' & -> & Hm' & Hh).
      { apply Hm. } { rewrite (mv_count _ _ Hm). lia. } { lia. }
      { rewrite (mv_views _ _ Hm), (mv_count _ _ Hm), Et. apply up_step; [apply timer_le_trans|lia| |done|exact Hb].
        destruct Hs. lia. }
      exists r'. split; [done|]. split; [by eapply moved_trans|done].
    + exists r. split; [done|]. split; [by apply moved_refl|]. split; [done|]. eapply up_done; [exact Hu|]. intros _. exact Hb.
  - exists r. split; [done|]. split; [by apply moved_refl|]. split; [done|]. eapply up_done; [exact Hu|]. lia.
Qed.

Lemma smaller_child_ok r j s :
  slots_ok r -> 0 <= j -> 0 <= s < timer_count r ->
  exists s', smaller_child r j s = Ret s' /\ (s' = s \/ (s' = j /\ j < timer_count r)) /\ 0 <= s' < timer_count r /\
    timer_le (views r) (slot r s') (slot r s) /\ (j < timer_count r -> timer_le (views r) (slot r s') (slot r j)).
Proof.
  intros Hs Hj Hs'. unfold smaller_child. destruct (Z.ltb_spec j (timer_count r)).
  - destruct (slot_less_ok r j s Hs) as (b & -> & Hb); [lia|done|]. cbn [mbind outcome_bind]. eexists. split; [done|].
    pose proof (timer_le_refl (views r) (slot r s)). pose proof (timer_le_refl (views r) (slot r j)).
    destruct b; repeat split; auto; lia.
  - exists s. repeat split; auto; try lia. apply timer_le_refl.
Qed.

Lemma sift_down_ok fuel : forall r i0 i,
  slots_ok r -> 0 <= i0 <= i -> i < timer_count r -> (Z.to_nat (timer_count r - i) < fuel)%nat ->
  down_ordered (timer_le (views r)) (timers r) (timer_count r) i0 i ->
  exists r', sift_down_loop fuel r i = Ret r' /\ moved r r' /\ up_ordered (timer_le (views r)) (timers r') (timer_count r) i0.
Proof.
  induction fuel as [|fuel IH]; intros r i0 i Hs Hi0 Hi Hf Hd; [lia|]. cbn [sift_down_loop].
  destruct (smaller_child_ok r (2 * i + 1) i Hs) as (s1 & -> & C1 & R1 & L1 & M1); [lia|lia|]. cbn [mbind outcome_bind].
  destruct (smaller_child_ok r (2 * i + 2) s1 Hs) as (s2 & -> & C2 & R2 & L2 & M2); [lia|lia|]. cbn [mbind outcome_bind].
  assert (forall j, 0 < j < timer_count r -> parent j = i -> timer_le (views r) (slot r s2) (slot r j)) as Hmin.
  { intros j Hj Hp. apply parent_children in Hp as [->| ->]; [|apply M2; lia|lia|lia]. eapply timer_le_trans; [exact L2|apply M1; lia]. }
  destruct (Z.eqb_spec s2 i) as [->|Hne].
  - exists r. split; [done|]. split; [by apply moved_refl|]. eapply (down_done _ (timer_le_trans (views r))); [|exact Hd|].
    + lia.
    + intros j Hj Hp. unfold edge. rewrite Hp. by apply Hmin.
  - assert (parent s2 = i /\ 0 < s2) as [Hp Hs2] by (split; [apply parent_children; lia|lia]).
    destruct (swap_ok r i s2 Hs) as (r1 & -> & Hm & Et); [lia|lia|lia|]. cbn [mbind outcome_bind].
    destruct (IH r1 i0 s2) as (r' & -> & Hm' & Hu); rewrite ?(mv_count _ _ Hm), ?(mv_views _ _ Hm), ?Et; try apply Hm; try lia.
    { apply down_step; [apply timer_le_trans|lia|lia|destruct Hs; lia|done|done| |exact Hmin].
      eapply timer_le_trans; [exact L2|exact L1]. }
    exists r'. split; [done|]. split; [by eapply moved_trans|]. by rewrite (mv_views _ _ Hm), (mv_count _ _ Hm) in Hu.
Qed.

(** * Adding *)

(** The timer count the code's 32-bit capacity allows for. *)
Definition TIMER_ROOM : Z := 2 ^ 29.

Lemma views_insert r t x : views (set_timer_cells (<[t := x]> (timer_cells r)) r) = <[t := timer_view x]> (views r).
Proof. unfold views. cbn. apply fmap_insert. Qed.
Lemma queued_slot r k : slots_ok r -> 0 <= k < timer_count r -> slot r k ∈ queued r.
Proof. intros Hs Hk. apply queued_elem; eauto. Qed.
(** A timer that is not queued does not matter to the order. *)
Lemma heap_ordered_other r v t x :
  slots_ok r -> t ∉ queued r -> views r = v -> heap_ordered (timer_le v) (timers r) (timer_count r) ->
  heap_ordered (timer_le (<[t := x]> v)) (timers r) (timer_count r).
Proof.
  intros Hs Ht <- H j Hj. pose proof (parent_range j ltac:(lia)). specialize (H j Hj). unfold edge, timer_le, timer_key in *.
  rewrite !lookup_insert_ne; [done| |]; intros ->; apply Ht; apply (queued_slot r); done || lia.
Qed.

Section reactor.
Variable raw : Z -> Z.

Lemma grow_ok r :
  slots_ok r -> timer_count r < TIMER_ROOM ->
  timer_count (grow_timers raw r) = timer_count r /\ timer_cells (grow_timers raw r) = timer_cells r /\
  next_timer_sequence (grow_timers raw r) = next_timer_sequence r /\ timer_count r < timer_cap (grow_timers raw r) /\
  timer_cap (grow_timers raw r) <= 2 ^ 30 /\ arr_len (timers (grow_timers raw r)) = timer_cap (grow_timers raw r) /\
  forall k, 0 <= k < timer_count r -> slot (grow_timers raw r) k = slot r k.
Proof using Type.
  intros [H1 H2 H3 _] Hroom. unfold TIMER_ROOM in Hroom. unfold grow_timers.
  destruct (Z.eqb_spec (timer_count r) (timer_cap r)); [|repeat split; lia].
  assert ((if timer_cap r =? 0 then 8 else i32 (timer_cap r * 2)) = if timer_cap r =? 0 then 8 else timer_cap r * 2) as ->.
  { destruct (timer_cap r =? 0); [done|]. apply swrap_small; [lia|]. unfold in_i. lia. }
  cbn. destruct (Z.eqb_spec (timer_cap r) 0); repeat split; try lia;
    try (rewrite arr_len_app, H2; unfold arr_len; rewrite length_map, length_seqZ; lia).
  intros k Hk. unfold slot. cbn. apply arr_get_app_l. lia.
Qed.

Lemma timer_add_ok r t x :
  heap_ok r -> timer_cells r !! t = Some x -> t ∉ queued r -> timer_count r < TIMER_ROOM ->
  exists r', mal_reactor_add_timer raw r t = Ret r' /\ heap_ok r' /\ queued r' ≡ₚ t :: queued r /\
    views r' = <[t := (deadline_ns x, 0, next_timer_sequence r)]> (views r) /\ timer_count r' = timer_count r + 1 /\
    next_timer_sequence r' = u64 (next_timer_sequence r + 1).
Proof using Type.
  intros [Hs Ho] Hx Ht Hroom. destruct (grow_ok r Hs Hroom) as (Ec & Em & En & Hcap & Hbound & Hlen & Hslot).
  pose proof Hs as [H1 H2 H3 Hi]. unfold TIMER_ROOM in Hroom. unfold mal_reactor_add_timer. set (r0 := grow_timers raw r) in *.
  clearbody r0. cbv zeta. rewrite Ec. set (i := timer_count r) in *.
  assert (i32 (i + 1) = i + 1) as -> by (apply swrap_small; [lia|]; unfold in_i; lia).
  set (r1 := set_slot i t (set_timer_count (i + 1) r0)).
  rewrite (with_timer_some r1 t x) by (cbn; by rewrite Em). cbn [mbind outcome_bind].
  set (r2 := set_timer_cells _ r1). rewrite (with_timer_some r2 t (set_heap_index i x)) by (cbn; apply lookup_insert_eq). cbn [mbind outcome_bind].
  set (r3 := set_timer_cells _ r2). rewrite (with_timer_some r3 t (set_postponed 0 (set_heap_index i x))) by (cbn; apply lookup_insert_eq).
  cbn [mbind outcome_bind]. set (x' := set_sequence (next_timer_sequence r3) (set_postponed 0 (set_heap_index i x))).
  set (r4 := set_next_sequence _ _).
  assert (timer_cells r4 = <[t := x']> (timer_cells r)) as Em4.
  { unfold r4, r3, r2, r1. cbn. by rewrite !insert_insert_eq, Em. }
  assert (views r4 = <[t := (deadline_ns x, 0, next_timer_sequence r)]> (views r)) as Ev.
  { unfold views. rewrite Em4, fmap_insert. unfold x', timer_view. cbn. by rewrite En. }
  assert (timers r4 = arr_set (timers r0) i t) as Et by done.
  assert (forall k, 0 <= k < i -> slot r4 k = slot r k) as Hs4.
  { intros k Hk. unfold slot. rewrite Et, arr_get_set_ne by lia. by apply Hslot. }
  assert (slot r4 i = t) as Hsi by (unfold slot; rewrite Et; apply arr_get_set_eq; lia).
  assert (slots_ok r4) as Hs4ok.
  { split; [cbn; lia|rewrite Et, arr_len_set; exact Hlen|exact Hbound|]. intros k Hk. change (timer_count r4) with (i + 1) in Hk. rewrite Em4.
    destruct (decide (k = i)) as [->|]; [rewrite Hsi, lookup_insert_eq; eauto|]. rewrite Hs4 by lia.
    rewrite lookup_insert_ne; [apply Hi; lia|]. intros ->. apply Ht. apply (queued_slot r); [done|lia]. }
  assert (queued r4 ≡ₚ t :: queued r) as Hq.
  { unfold queued. change (timer_count r4) with (i + 1). rewrite Et. replace (Z.to_nat (i + 1)) with (S (Z.to_nat i)) by lia.
    unfold arr_set. rewrite (take_S_r _ _ t).
    - rewrite take_insert_ge by lia. rewrite Permutation_app_comm. cbn. apply Permutation_skip.
      apply reflexive_eq, list_eq. intros k. destruct (decide (k < Z.to_nat i)%nat).
      + rewrite !lookup_take_lt by lia. pose proof (Hslot (Z.of_nat k) ltac:(lia)) as E. unfold slot in E.
        rewrite <- (Nat2Z.id k), !arr_get_lookup by lia. by rewrite E.
      + rewrite !lookup_take_ge by lia. done.
    - apply list_lookup_insert_eq. unfold arr_len in Hlen. lia. }
  destruct (sift_up_ok (S (Z.to_nat i)) r4 i Hs4ok) as (r' & E & Hm & Hh); [cbn; lia|lia| |].
  { split.
    - change (timer_count r4) with (i + 1). intros j Hj Hne. pose proof (parent_range j ltac:(lia)).
      pose proof (heap_ordered_other r (views r) t (deadline_ns x, 0, next_timer_sequence r) Hs Ht eq_refl Ho j ltac:(lia)) as He.
      unfold edge in *. fold (slot r4 (parent j)) (slot r4 j). rewrite !Hs4 by lia. rewrite Ev. exact He.
    - intros _ j Hj Hp. change (timer_count r4) with (i + 1) in Hj. pose proof (parent_range j ltac:(lia)). lia. }
  exists r'. split; [exact E|]. split; [done|]. split; [by rewrite (mv_queued _ _ Hm)|].
  split; [by rewrite (mv_views _ _ Hm)|]. split; [by rewrite (mv_count _ _ Hm)|]. rewrite (mv_next _ _ Hm). cbn. by rewrite En.
Qed.

(** * Removing *)

Lemma remove_ok r i :
  heap_ok r -> 0 <= i < timer_count r ->
  exists r', mal_timer_remove_at r i = Ret (slot r i, r') /\ heap_ok r' /\ queued r ≡ₚ slot r i :: queued r' /\
    views r' = views r /\ timer_count r' = timer_count r - 1 /\ next_timer_sequence r' = next_timer_sequence r.
Proof using Type.
  intros [Hs Ho] Hi. pose proof Hs as [H1 H2 H3 Hx]. unfold mal_timer_remove_at. cbv zeta. set (last := timer_count r - 1).
  destruct (Hx i Hi) as (x & Ex & _). set (r0 := set_timer_count last r).
  rewrite (with_timer_some r0 (slot r i) x) by exact Ex. cbn [mbind outcome_bind]. set (r1 := set_timer_cells _ r0).
  assert (views r1 = views r) as Ev1 by exact (views_heap_index r (slot r i) x (-1) Ex).
  assert (timer_count r = last + 1) as El by lia.
  assert (forall k, 0 <= k < timer_count r -> k <> i -> slot r k <> slot r i) as Hdist.
  { intros k Hk Hne E. apply Hne. by apply (timer_slot_inj r). }
  destruct (Z.eqb_spec i last) as [Ei|Hne]; cbn [negb].
  - exists r1. split; [done|]. split; [split|].
    + split; [cbn; lia|done|done|]. intros k Hk. change (timer_count r1) with last in Hk. change (slot r1 k) with (slot r k). cbn.
      rewrite lookup_insert_ne by (apply not_eq_sym, Hdist; lia). apply Hx. lia.
    + rewrite Ev1. change (timers r1) with (timers r). eapply heap_shrink; [exact Ho|cbn; lia].
    + unfold queued. rewrite El, take_last by lia. rewrite Ei. change (timers r1) with (timers r). change (timer_count r1) with last.
      split; [by rewrite Permutation_app_comm|]. done.
  - change (slot r1 last) with (slot r last). set (r2 := set_slot i (slot r last) r1).
    assert (timers r2 = arr_set (timers r) i (slot r last)) as Et2 by done.
    assert (slot r2 i = slot r last) as Es2 by (unfold slot at 1; rewrite Et2; apply arr_get_set_eq; lia). rewrite Es2.
    destruct (Hx last ltac:(lia)) as (y & Ey & _).
    assert (timer_cells r1 !! slot r last = Some y) as Ey1 by (cbn; rewrite lookup_insert_ne by (apply not_eq_sym, Hdist; lia); done).
    rewrite (with_timer_some r2 (slot r last) y) by exact Ey1. cbn [mbind outcome_bind]. set (r3 := set_timer_cells _ r2).
    assert (views r3 = views r) as Ev3 by (rewrite <- Ev1; exact (views_heap_index r1 (slot r last) y i Ey1)).
    assert (forall k, 0 <= k -> k <> i -> slot r3 k = slot r k) as Hk3.
    { intros k Hk Hki. unfold slot. change (timers r3) with (timers r2). rewrite Et2. apply arr_get_set_ne; lia. }
    assert (slots_ok r3) as Hs3.
    { split; [cbn; lia|change (timers r3) with (timers r2); rewrite Et2, arr_len_set; done|done|]. intros k Hk.
      change (timer_count r3) with last in Hk. destruct (decide (k = i)) as [->|].
      - change (slot r3 i) with (slot r2 i). rewrite Es2. cbn. rewrite lookup_insert_eq. eauto.
      - rewrite Hk3 by lia. cbn. rewrite !lookup_insert_ne; [apply Hx; lia|apply not_eq_sym, Hdist; lia|].
        intros E. apply (timer_slot_inj r) in E; [lia|done|lia|lia]. }
    assert (queued r ≡ₚ slot r i :: queued r3) as Hq.
    { unfold queued. rewrite El. change (timer_count r3) with last. apply take_fill; lia. }
    destruct (sift_down_ok (S (Z.to_nat (timer_count r3 - i))) r3 i i Hs3) as (r4 & E4 & Hm4 & Hu4); [lia|cbn; lia|lia| |].
    { rewrite Ev3. change (timer_count r3) with last. split.
      - intros j Hj Hp Hor. pose proof (parent_range j ltac:(lia)). unfold edge. fold (slot r3 (parent j)) (slot r3 j).
        rewrite !Hk3 by (lia || tauto). apply Ho. lia.
      - intros H0 j Hj Hp. pose proof (parent_range i H0). pose proof (parent_range j ltac:(lia)).
        fold (slot r3 (parent i)) (slot r3 j). rewrite !Hk3 by lia. eapply timer_le_trans; [apply (Ho i); lia|]. rewrite <- Hp. apply (Ho j). lia. }
    unfold mal_timer_sift_down. rewrite E4. cbn [mbind outcome_bind].
    destruct (sift_up_ok (S (Z.to_nat i)) r4 i (mv_slots _ _ Hm4)) as (r5 & E5 & Hm5 & Hh).
    { rewrite (mv_count _ _ Hm4). cbn. lia. } { lia. } { by rewrite (mv_views _ _ Hm4), (mv_count _ _ Hm4). }
    unfold mal_timer_sift_up. rewrite E5. cbn [mbind outcome_bind]. exists r5. split; [done|]. split; [done|].
    split; [by rewrite (mv_queued _ _ Hm5), (mv_queued _ _ Hm4)|].
    rewrite (mv_views _ _ Hm5), (mv_views _ _ Hm4), (mv_count _ _ Hm5), (mv_count _ _ Hm4), (mv_next _ _ Hm5), (mv_next _ _ Hm4). done.
Qed.
End reactor.

(** * The abstract queue *)

Record qentry : Type := mkQ { q_timer : Z; q_deadline : Z; q_postponed : Z; q_sequence : Z }.
Definition before (a b : qentry) : Prop :=
  q_deadline a < q_deadline b \/ (q_deadline a = q_deadline b /\ q_sequence a < q_sequence b).
#[export] Instance before_dec a b : Decision (before a b).
Proof. unfold before. apply _. Defined.
#[export] Instance before_trans : Transitive before.
Proof. intros a b c. unfold before. lia. Qed.
#[export] Instance before_antisymm : AntiSymm (=) before.
Proof. intros a b Hab Hba. unfold before in *. lia. Qed.

(** Insertion behind the entries that are not later. *)
Fixpoint enqueue (e : qentry) (Q : list qentry) : list qentry :=
  match Q with
  | [] => [e]
  | x :: Q => if decide (before e x) then e :: x :: Q else x :: enqueue e Q
  end.
Definition dequeue (t : Z) (Q : list qentry) : list qentry := filter (fun e => q_timer e <> t) Q.
Definition postpone (t d : Z) (Q : list qentry) : list qentry :=
  map (fun e => if decide (q_timer e = t) then mkQ t (q_deadline e) d (q_sequence e) else e) Q.
Definition find_entry (t : Z) (Q : list qentry) : option qentry := snd <$> list_find (fun e => q_timer e = t) Q.

Lemma enqueue_perm e Q : enqueue e Q ≡ₚ e :: Q.
Proof. induction Q as [|x Q IH]; cbn; [done|]. case_decide; [done|]. rewrite IH. apply Permutation_swap. Qed.
Lemma enqueue_sorted e Q :
  StronglySorted before Q -> (forall x, x ∈ Q -> q_sequence x < q_sequence e) -> StronglySorted before (enqueue e Q).
Proof.
  induction 1 as [|x Q Hs IH Hx]; intros Hseq; cbn; [repeat constructor|]. case_decide as Hb.
  - constructor; [by constructor|]. constructor; [done|]. eapply Forall_impl; [exact Hx|]. intros y Hy. by etrans.
  - constructor; [apply IH; intros y Hy; apply Hseq; by right|]. rewrite enqueue_perm. constructor; [|done].
    specialize (Hseq x ltac:(by left)). unfold before in *. lia.
Qed.
Lemma sorted_filter (P : qentry -> Prop) `{!forall x, Decision (P x)} Q : StronglySorted before Q -> StronglySorted before (filter P Q).
Proof.
  induction 1 as [|x Q Hs IH Hx]; [constructor|]. rewrite filter_cons. case_decide; [|done]. constructor; [done|].
  rewrite Forall_forall in Hx |- *. intros y [_ Hy]%list_elem_of_filter. by apply Hx.
Qed.
Lemma filter_id (P : qentry -> Prop) `{!forall x, Decision (P x)} (Q : list qentry) : (forall e, e ∈ Q -> P e) -> filter P Q = Q.
Proof.
  induction Q as [|x Q IH]; intros HP; [done|]. rewrite filter_cons, decide_True by (apply HP; by left). f_equal. apply IH. intros e He. apply HP. by right.
Qed.
Lemma postpone_sorted t d Q : StronglySorted before Q -> StronglySorted before (postpone t d Q).
Proof. apply StronglySorted_fmap. intros x y Hxy. by case_decide; case_decide. Qed.
Lemma find_entry_some t Q e : find_entry t Q = Some e -> e ∈ Q /\ q_timer e = t.
Proof.
  unfold find_entry. intros ([i x] & (Hi & Ht & _)%list_find_Some & ->)%fmap_Some_1. split; [by eapply list_elem_of_lookup_2|done].
Qed.
Lemma find_entry_none t Q : find_entry t Q = None -> t ∉ map q_timer Q.
Proof.
  unfold find_entry. intros Hn%fmap_None%list_find_None (e & -> & He)%list_elem_of_fmap. rewrite Forall_forall in Hn. by apply (Hn e).
Qed.
Lemma find_entry_unique t Q e : NoDup (map q_timer Q) -> e ∈ Q -> q_timer e = t -> find_entry t Q = Some e.
Proof.
  intros Hn He Ht. destruct (find_entry t Q) as [x|] eqn:Ex.
  - apply find_entry_some in Ex as [Hx Hxt]. f_equal. apply list_elem_of_lookup_1 in Hx as [i Hi], He as [j Hj].
    enough (i = j) by congruence. apply (NoDup_lookup (map q_timer Q) i j t); [done| |]; rewrite list_lookup_fmap, ?Hi, ?Hj; cbn; congruence.
  - apply find_entry_none in Ex. destruct Ex. apply list_elem_of_fmap. exists e. split; [by symmetry|done].
Qed.

(** * The heap stands for a queue *)

Definition entry_of (v : gmap Z (Z * Z * Z)) (t : Z) : qentry :=
  match v !! t with Some (d, p, s) => mkQ t d p s | None => mkQ t 0 0 0 end.
Definition queue (r : MalReactor) : list qentry := map (entry_of (views r)) (queued r).

Record queue_rep (r : MalReactor) (Q : list qentry) : Prop := {
  qr_heap : heap_ok r;
  qr_sorted : StronglySorted before Q;
  qr_queue : queue r ≡ₚ Q;
  qr_sequence : Forall (fun e => q_sequence e < next_timer_sequence r) Q;
  qr_next : 0 <= next_timer_sequence r;
}.

Lemma entry_timer v t : q_timer (entry_of v t) = t.
Proof. unfold entry_of. by destruct (v !! t) as [[[??]?]|]. Qed.
Lemma entry_key v t : timer_key v t = (q_deadline (entry_of v t), q_sequence (entry_of v t)).
Proof. unfold timer_key, entry_of. by destruct (v !! t) as [[[??]?]|]. Qed.
Lemma entry_cell r t x : timer_cells r !! t = Some x -> entry_of (views r) t = mkQ t (deadline_ns x) (postponed_ns x) (sequence x).
Proof. intros E. unfold entry_of, views. by rewrite lookup_fmap, E. Qed.
Lemma queue_other r l t x : t ∉ l -> map (entry_of (<[t := x]> (views r))) l = map (entry_of (views r)) l.
Proof.
  intros Ht. apply map_ext_in. intros u Hu%list_elem_of_In. unfold entry_of. rewrite lookup_insert_ne; [done|]. by intros ->.
Qed.

Section rep.
Context (r : MalReactor) (Q : list qentry).
Hypothesis Hr : queue_rep r Q.

Lemma rep_timers : queued r ≡ₚ map q_timer Q.
Proof using Hr.
  rewrite <- (qr_queue _ _ Hr). unfold queue. rewrite map_map. rewrite <- (map_id (queued r)) at 1.
  erewrite map_ext; [done|]. intros t. cbn. by rewrite entry_timer.
Qed.
Lemma rep_nodup : NoDup (map q_timer Q).
Proof using Hr. rewrite <- rep_timers. apply queued_nodup, (qr_heap _ _ Hr). Qed.
Lemma rep_count : timer_count r = arr_len Q.
Proof using Hr.
  rewrite <- (queued_length r) by apply (qr_heap _ _ Hr). unfold arr_len. rewrite rep_timers. by rewrite length_map.
Qed.
Lemma rep_elem e : e ∈ Q <-> q_timer e ∈ queued r /\ e = entry_of (views r) (q_timer e).
Proof using Hr.
  rewrite <- (qr_queue _ _ Hr). unfold queue. split.
  - intros (t & -> & Ht)%list_elem_of_fmap. by rewrite entry_timer.
  - intros [Ht Ee]. apply list_elem_of_fmap. by exists (q_timer e).
Qed.
Lemma queue_find t : if decide (t ∈ queued r) then find_entry t Q = Some (entry_of (views r) t) else find_entry t Q = None.
Proof using Hr.
  case_decide as Ht.
  - apply find_entry_unique; [apply rep_nodup| |apply entry_timer]. apply rep_elem. by rewrite entry_timer.
  - destruct (find_entry t Q) as [e|] eqn:E; [|done]. apply find_entry_some in E as [He <-]. by apply rep_elem in He as [? _].
Qed.

(** The head is in the first slot. *)
Lemma rep_head e Q' : Q = e :: Q' -> slot r 0 = q_timer e /\ 0 < timer_count r.
Proof using Hr.
  intros EQ. pose proof rep_count as Hc. rewrite EQ in Hc. assert (0 < timer_count r) as Hpos by (unfold arr_len in Hc; cbn in Hc; lia).
  split; [|done]. destruct (qr_heap _ _ Hr) as [Hs Ho]. set (t := slot r 0).
  assert (entry_of (views r) t ∈ Q) as Ht by (apply rep_elem; rewrite entry_timer; split; [apply queued_slot; [done|lia]|done]).
  rewrite EQ in Ht. apply elem_of_cons in Ht as [<-|Ht]; [by rewrite entry_timer|]. exfalso.
  pose proof (qr_sorted _ _ Hr) as Hsort. rewrite EQ in Hsort. apply StronglySorted_inv in Hsort as [_ Hall].
  rewrite Forall_forall in Hall. specialize (Hall _ Ht).
  assert (e ∈ Q) as He by (rewrite EQ; by left). apply rep_elem in He as [He Ee].
  apply (queued_elem r _ Hs) in He as (k & Hk & Ek).
  pose proof (heap_min _ (timer_le_trans (views r)) (timer_le_refl (views r)) (timers r) _ k Ho ltac:(lia)) as Hmin.
  fold (slot r 0) (slot r k) in Hmin. fold t in Hmin. rewrite Ek in Hmin. unfold timer_le in Hmin. rewrite !entry_key, <- Ee in Hmin.
  unfold key_le, before in *. cbn in Hmin. lia.
Qed.
End rep.

Section ops.
Variable raw : Z -> Z.

(** Only the queued timers matter. *)
Lemma rep_cells r Q m :
  queue_rep r Q -> (forall t, t ∈ map q_timer Q -> m !! t = timer_cells r !! t) -> queue_rep (set_timer_cells m r) Q.
Proof using Type.
  intros Hr Hm. pose proof Hr as [[Hs Ho] H2 H3 H4 H5]. set (r' := set_timer_cells m r).
  assert (forall i, 0 <= i < timer_count r -> m !! slot r i = timer_cells r !! slot r i) as Hslot.
  { intros i Hi. apply Hm. rewrite <- (rep_timers r Q Hr). by apply queued_slot. }
  split; [split| | | |]; try done.
  - destruct Hs as [S1 S2 S3 S4]. split; try done. intros i Hi. change (slot r' i) with (slot r i). cbn.
    rewrite Hslot by done. by apply S4.
  - intros j Hj. pose proof (parent_range j ltac:(lia)) as Hp. specialize (Ho j Hj). cbn in Hj. unfold edge, timer_le, timer_key, views in *.
    change (timers r') with (timers r). fold (slot r j) (slot r (parent j)) in Ho |- *. rewrite !lookup_fmap in *.
    change (timer_cells r') with m. rewrite !Hslot by lia. exact Ho.
  - rewrite <- H3. apply reflexive_eq, map_ext_in. intros t Ht%list_elem_of_In. unfold entry_of, views. rewrite !lookup_fmap.
    change (timer_cells r') with m. rewrite Hm; [done|]. by rewrite <- (rep_timers r Q Hr).
Qed.
Lemma rep_cell r Q t x : queue_rep r Q -> t ∉ map q_timer Q -> queue_rep (set_timer_cells (<[t := x]> (timer_cells r)) r) Q.
Proof using Type. intros Hr Ht. apply rep_cells; [done|]. intros u Hu. rewrite lookup_insert_ne; [done|]. by intros ->. Qed.
Lemma rep_free r Q t : queue_rep r Q -> t ∉ map q_timer Q -> queue_rep (set_timer_cells (delete t (timer_cells r)) r) Q.
Proof using Type. intros Hr Ht. apply rep_cells; [done|]. intros u Hu. rewrite lookup_delete_ne; [done|]. by intros ->. Qed.

Lemma rep_add r Q t x :
  queue_rep r Q -> timer_cells r !! t = Some x -> t ∉ map q_timer Q -> arr_len Q < TIMER_ROOM -> next_timer_sequence r < 2 ^ 64 - 1 ->
  exists r', mal_reactor_add_timer raw r t = Ret r' /\ queue_rep r' (enqueue (mkQ t (deadline_ns x) 0 (next_timer_sequence r)) Q) /\
    next_timer_sequence r' = next_timer_sequence r + 1 /\ dom (timer_cells r') = dom (timer_cells r).
Proof using Type.
  intros Hr Hx Ht Hroom Hnext. pose proof Hr as [Hh H2 H3 H4 H5]. pose proof (rep_timers r Q Hr) as Hts. rewrite <- Hts in Ht.
  destruct (timer_add_ok raw r t x Hh Hx Ht) as (r' & E & Hh' & Hq & Ev & Hc & Hn); [by rewrite (rep_count r Q Hr)|].
  unfold u64 in Hn. rewrite wrap_small in Hn by (unfold in_u; lia). exists r'. split; [done|]. set (e := mkQ _ _ _ _).
  assert (dom (timer_cells r') = dom (timer_cells r)) as Hd.
  { rewrite <- !(dom_fmap_L timer_view). fold (views r') (views r). rewrite Ev, dom_insert_L.
    assert (t ∈ dom (views r)) by (unfold views; rewrite dom_fmap_L; by apply elem_of_dom). set_solver. }
  split; [|done]. rewrite Forall_forall in H4. split; try done; try lia.
  - by apply enqueue_sorted.
  - rewrite enqueue_perm. unfold queue. rewrite Hq. cbn [map]. rewrite Ev, queue_other by done.
    unfold entry_of at 1. rewrite lookup_insert_eq. apply Permutation_skip, H3.
  - rewrite enqueue_perm, Hn. constructor; [cbn; lia|]. apply Forall_forall. intros y Hy%H4. lia.
Qed.

Lemma rep_remove r Q i :
  queue_rep r Q -> 0 <= i < timer_count r ->
  exists r', mal_timer_remove_at r i = Ret (slot r i, r') /\ queue_rep r' (dequeue (slot r i) Q) /\
    next_timer_sequence r' = next_timer_sequence r /\ views r' = views r.
Proof using Type.
  intros Hr Hi. pose proof Hr as [Hh H2 H3 H4 H5]. destruct (remove_ok r i Hh Hi) as (r' & E & Hh' & Hq & Ev & Hc & Hn).
  exists r'. split; [done|]. split; [|done]. set (t := slot r i) in *.
  assert (t ∉ queued r') as Ht.
  { pose proof (queued_nodup r (proj1 Hh)) as Hnd. rewrite Hq in Hnd. by apply NoDup_cons in Hnd as [? _]. }
  split; try done; try lia.
  - by apply sorted_filter.
  - unfold dequeue. rewrite <- H3. unfold queue. rewrite Hq, Ev. cbn [map]. rewrite filter_cons, decide_False by (rewrite entry_timer; by intros []).
    apply reflexive_eq. symmetry. apply filter_id. intros e (u & -> & Hu)%list_elem_of_fmap. rewrite entry_timer. by intros ->.
  - rewrite Hn. rewrite Forall_forall in H4 |- *. intros e [_ He]%list_elem_of_filter. by apply H4.
Qed.

Lemma timer_queued_ok r Q t x :
  queue_rep r Q -> timer_cells r !! t = Some x ->
  mal_timer_queued r t = Ret (bool_decide (t ∈ map q_timer Q)) /\
  (t ∈ map q_timer Q -> 0 <= heap_index x < timer_count r /\ slot r (heap_index x) = t).
Proof using Type.
  intros Hr Hx. pose proof (rep_timers r Q Hr) as Hts. destruct (qr_heap _ _ Hr) as [Hs _].
  assert (t ∈ map q_timer Q -> 0 <= heap_index x < timer_count r /\ slot r (heap_index x) = t) as Hin.
  { rewrite <- Hts. intros (k & Hk & Ek)%(queued_elem r t Hs). destruct (so_index _ Hs k Hk) as (y & Hy & Ey).
    assert (y = x) as -> by congruence. by rewrite Ey. }
  split; [|done]. unfold mal_timer_queued. rewrite (timer_at_some _ _ _ Hx). cbn [mbind outcome_bind]. f_equal.
  apply eq_true_iff_eq. rewrite bool_decide_eq_true, !andb_true_iff, Z.leb_le, Z.ltb_lt, Z.eqb_eq. split.
  - intros [[H1 H2] H3]. rewrite <- Hts. apply (queued_elem r t Hs). exists (heap_index x). split; [lia|done].
  - intros Ht. destruct (Hin Ht). lia.
Qed.

Lemma dequeue_absent t Q : t ∉ map q_timer Q -> dequeue t Q = Q.
Proof using Type.
  intros Ht. apply filter_id. intros e He E. apply Ht, list_elem_of_fmap. exists e. by split.
Qed.
Lemma dequeue_not_in t Q : t ∉ map q_timer (dequeue t Q).
Proof using Type. intros (e & -> & [Hne _]%list_elem_of_filter)%list_elem_of_fmap. done. Qed.

Lemma rep_cancel r Q t x :
  queue_rep r Q -> timer_cells r !! t = Some x ->
  exists r', mal_reactor_cancel_timer r t = Ret r' /\ queue_rep r' (dequeue t Q) /\
    next_timer_sequence r' = next_timer_sequence r /\ views r' = views r.
Proof using Type.
  intros Hr Hx. destruct (timer_queued_ok r Q t x Hr Hx) as [Eq Hin]. unfold mal_reactor_cancel_timer. rewrite Eq. cbn [mbind outcome_bind].
  case_bool_decide as Ht.
  - destruct (Hin Ht) as [Hr' Es]. rewrite (timer_at_some _ _ _ Hx). cbn [mbind outcome_bind].
    destruct (rep_remove r Q (heap_index x) Hr Hr') as (r' & -> & Hrep & Hn & Hv). cbn [mbind outcome_bind]. rewrite Es in Hrep. by exists r'.
  - exists r. by rewrite dequeue_absent.
Qed.

Lemma rep_postpone r Q t x d :
  queue_rep r Q -> timer_cells r !! t = Some x ->
  queue_rep (set_timer_cells (<[t := set_postponed d x]> (timer_cells r)) r) (postpone t d Q).
Proof using Type.
  intros Hr Hx. pose proof Hr as [[Hs Ho] H2 H3 H4 H5]. set (r' := set_timer_cells _ r).
  assert (views r' = <[t := (deadline_ns x, d, sequence x)]> (views r)) as Ev by apply views_insert.
  assert (forall u, timer_key (views r') u = timer_key (views r) u) as Hkey.
  { intros u. rewrite Ev. unfold timer_key. destruct (decide (u = t)) as [->|]; [|by rewrite lookup_insert_ne].
    rewrite lookup_insert_eq. unfold views. by rewrite lookup_fmap, Hx. }
  split; [split| | | |]; try done.
  - destruct Hs as [S1 S2 S3 S4]. split; try done. intros i Hi. change (slot r' i) with (slot r i). cbn. destruct (S4 i Hi) as (y & Hy & Ey).
    destruct (decide (t = slot r i)) as [E|]; [|rewrite lookup_insert_ne by done; eauto].
    rewrite <- E in Hy |- *. rewrite lookup_insert_eq. eexists. split; [done|]. cbn. congruence.
  - intros j Hj. unfold edge, timer_le. rewrite !Hkey. by apply Ho.
  - by apply postpone_sorted.
  - unfold postpone. rewrite <- H3. unfold queue. change (queued r') with (queued r). rewrite map_map. apply reflexive_eq, map_ext.
    intros u. rewrite entry_timer. rewrite Ev. unfold entry_of. case_decide as E.
    + subst u. rewrite lookup_insert_eq. unfold views. by rewrite lookup_fmap, Hx.
    + by rewrite lookup_insert_ne by done.
  - unfold postpone. apply Forall_map. eapply Forall_impl; [exact H4|]. intros e He. cbn. by case_decide.
Qed.
(** The first entry, its cell, and the queue without it. *)
Lemma rep_front r e Q :
  queue_rep r (e :: Q) ->
  0 < timer_count r /\ slot r 0 = q_timer e /\ dequeue (q_timer e) (e :: Q) = Q /\
  exists x, timer_cells r !! q_timer e = Some x /\ e = mkQ (q_timer e) (deadline_ns x) (postponed_ns x) (sequence x).
Proof using Type.
  intros H. destruct (rep_head r _ H e Q eq_refl) as [Es Hpos]. split; [done|]. split; [done|]. split.
  - unfold dequeue. rewrite filter_cons, decide_False by (intros []; done). apply dequeue_absent.
    pose proof (rep_nodup r _ H) as Hnd. cbn in Hnd. by apply NoDup_cons in Hnd as [? _].
  - destruct (qr_heap _ _ H) as [Hs _]. destruct (so_index _ Hs 0 ltac:(lia)) as (x & Hx & _). rewrite Es in Hx.
    exists x. split; [done|]. rewrite <- (entry_cell r _ x Hx). apply (rep_elem r _ H). by left.
Qed.
Lemma view_cell r r' t x :
  views r' = views r -> timer_cells r !! t = Some x -> exists y, timer_cells r' !! t = Some y /\ timer_view y = timer_view x.
Proof using Type.
  intros Hv Hx. assert (views r' !! t = Some (timer_view x)) as Hy by (rewrite Hv; unfold views; by rewrite lookup_fmap, Hx).
  unfold views in Hy. rewrite lookup_fmap in Hy. apply fmap_Some in Hy as (y & -> & ->). by exists y.
Qed.
End ops.
