(* ===== verification/ReactorTheorems.v ===== *)
(** What the timer queue of the reactor (Reactor) promises its clients: it behaves as a
    sorted queue of deadlines under any sequence of calls, and a pump fires exactly the
    timers that are due, earliest first. *)

From stdpp Require Import gmap sorting.
From S2P Require Import Prelude Reactor ReactorSpec.

(** * Sequences of calls *)

(** [TInit] is the owner writing a timer struct, [TFree] the owner letting go of it;
    [TAdd] sets the deadline and queues the timer, as the scheduler and the host timers
    do; [TTurn] is one turn of the pump. *)
Inductive timer_op : Type :=
  | TInit (t : Z) (x : MalTimer)
  | TFree (t : Z)
  | TAdd (t d : Z)
  | TCancel (t : Z)
  | TRearm (t d : Z)
  | TNext
  | TTurn (now : Z).
Inductive timer_answer : Set := ADone | ANext (d : option Z) | ATurn (turn : pump_turn).

Section run.
Variable raw : Z -> Z.

Definition timer_step (op : timer_op) (r : MalReactor) : outcome (timer_answer * MalReactor) :=
  match op with
  | TInit t x => Ret (ADone, set_timer_cells (<[t := x]> (timer_cells r)) r)
  | TFree t => Ret (ADone, set_timer_cells (delete t (timer_cells r)) r)
  | TAdd t d =>
      r ← with_timer t (set_deadline d) r;
      r ← mal_reactor_add_timer raw r t;
      Ret (ADone, r)
  | TCancel t => r ← mal_reactor_cancel_timer r t; Ret (ADone, r)
  | TRearm t d => r ← mal_reactor_rearm_timer raw r t d; Ret (ADone, r)
  | TNext => d ← next_deadline r; Ret (ANext d, r)
  | TTurn now => '(turn, r) ← pump_step raw r now; Ret (ATurn turn, r)
  end.
Fixpoint timer_run (ops : list timer_op) (r : MalReactor) : outcome (list timer_answer * MalReactor) :=
  match ops with
  | [] => Ret ([], r)
  | op :: ops =>
      '(a, r) ← timer_step op r;
      '(l, r) ← timer_run ops r;
      Ret (a :: l, r)
  end.
End run.

(** * The queue they run against *)

(** The queued timers in firing order, the next sequence number and the timers that
    exist. [None] is a call the owner must not make. *)
Record timer_spec : Type := mkTimerSpec { ts_queue : list qentry; ts_next : Z; ts_known : gset Z }.
Definition is_queued (s : timer_spec) (t : Z) : bool := bool_decide (t ∈ map q_timer (ts_queue s)).
Definition known (s : timer_spec) (t : Z) : bool := bool_decide (t ∈ ts_known s).
Definition spec_enqueue (t d : Z) (Q : list qentry) (s : timer_spec) : timer_spec :=
  mkTimerSpec (enqueue (mkQ t d 0 (ts_next s)) Q) (ts_next s + 1) (ts_known s).
Definition spec_queue (Q : list qentry) (s : timer_spec) : timer_spec := mkTimerSpec Q (ts_next s) (ts_known s).

Definition spec_rearm (t d : Z) (s : timer_spec) : timer_spec :=
  match find_entry t (ts_queue s) with
  | Some e => if q_deadline e <=? d then spec_queue (postpone t d (ts_queue s)) s else spec_enqueue t d (dequeue t (ts_queue s)) s
  | None => spec_enqueue t d (ts_queue s) s
  end.
Definition spec_turn (now : Z) (s : timer_spec) : pump_turn * timer_spec :=
  match ts_queue s with
  | e :: Q =>
      if negb (q_deadline e <=? now) then (TurnIdle, s)
      else if q_deadline e <? q_postponed e then (TurnPostponed, spec_enqueue (q_timer e) (q_postponed e) Q s)
      else (TurnFired (q_timer e), spec_queue Q s)
  | [] => (TurnIdle, s)
  end.
Definition spec_step (op : timer_op) (s : timer_spec) : option (timer_answer * timer_spec) :=
  match op with
  | TInit t x => if is_queued s t then None else Some (ADone, mkTimerSpec (ts_queue s) (ts_next s) ({[t]} ∪ ts_known s))
  | TFree t => if is_queued s t then None else Some (ADone, mkTimerSpec (ts_queue s) (ts_next s) (ts_known s ∖ {[t]}))
  | TAdd t d => if known s t && negb (is_queued s t) then Some (ADone, spec_enqueue t d (ts_queue s) s) else None
  | TCancel t => if known s t then Some (ADone, spec_queue (dequeue t (ts_queue s)) s) else None
  | TRearm t d => if known s t then Some (ADone, spec_rearm t d s) else None
  | TNext => Some (ANext (q_deadline <$> head (ts_queue s)), s)
  | TTurn now => let '(turn, s) := spec_turn now s in Some (ATurn turn, s)
  end.
Fixpoint spec_run (ops : list timer_op) (s : timer_spec) : option (list timer_answer * timer_spec) :=
  match ops with
  | [] => Some ([], s)
  | op :: ops =>
      '(a, s) ← spec_step op s;
      '(l, s) ← spec_run ops s;
      Some (a :: l, s)
  end.

(** * Simulation *)

Record spec_rep (n : Z) (r : MalReactor) (s : timer_spec) : Prop := {
  sr_queue : queue_rep r (ts_queue s);
  sr_next : next_timer_sequence r = ts_next s;
  sr_known : dom (timer_cells r) = ts_known s;
  sr_room : arr_len (ts_queue s) <= n /\ ts_next s <= n;
}.
Lemma spec_rep_weaken n m r s : spec_rep n r s -> n <= m -> spec_rep m r s.
Proof. intros [H1 H2 H3 H4] Hle. split; try done. lia. Qed.

Lemma known_cell n r s t : spec_rep n r s -> known s t = true -> exists x, timer_cells r !! t = Some x.
Proof. intros H Hk. apply bool_decide_eq_true in Hk. rewrite <- (sr_known _ _ _ H) in Hk. by apply elem_of_dom in Hk. Qed.
Lemma is_queued_false s t : is_queued s t = false -> t ∉ map q_timer (ts_queue s).
Proof. by intros H%bool_decide_eq_false. Qed.
Lemma enqueue_length e Q : arr_len (enqueue e Q) = arr_len Q + 1.
Proof. unfold arr_len. rewrite enqueue_perm. cbn. lia. Qed.
Lemma dequeue_length t Q : arr_len (dequeue t Q) <= arr_len Q.
Proof. unfold arr_len, dequeue. pose proof (length_filter (fun e => q_timer e <> t) Q). lia. Qed.
Lemma postpone_length t d Q : arr_len (postpone t d Q) = arr_len Q.
Proof. unfold arr_len, postpone. by rewrite length_map. Qed.

Lemma views_dom r r' : views r' = views r -> dom (timer_cells r') = dom (timer_cells r).
Proof. intros E. rewrite <- !(dom_fmap_L timer_view). fold (views r') (views r). by rewrite E. Qed.

Lemma dom_write r t x y : timer_cells r !! t = Some x -> dom (<[t := y]> (timer_cells r)) = dom (timer_cells r).
Proof. intros Hx. rewrite dom_insert_L. apply subseteq_union_1_L, singleton_subseteq_l. by eapply elem_of_dom_2. Qed.

Section simulation.
Variable raw : Z -> Z.
Variable n : Z.
Hypothesis Hroom : n < TIMER_ROOM.

Lemma init_sim r s t x :
  spec_rep n r s -> t ∉ map q_timer (ts_queue s) ->
  spec_rep n (set_timer_cells (<[t := x]> (timer_cells r)) r) (mkTimerSpec (ts_queue s) (ts_next s) ({[t]} ∪ ts_known s)).
Proof using Type. intros [H1 H2 H3 H4] Ht. split; try done; [by apply rep_cell|]. cbn. by rewrite dom_insert_L, H3. Qed.
Lemma write_sim r s t x y :
  spec_rep n r s -> t ∉ map q_timer (ts_queue s) -> timer_cells r !! t = Some x ->
  spec_rep n (set_timer_cells (<[t := y]> (timer_cells r)) r) s.
Proof using Type.
  intros [H1 H2 H3 H4] Ht Hx. split; try done; [by apply rep_cell|]. cbn. by rewrite (dom_write _ _ _ _ Hx).
Qed.
Lemma free_sim r s t :
  spec_rep n r s -> t ∉ map q_timer (ts_queue s) ->
  spec_rep n (set_timer_cells (delete t (timer_cells r)) r) (mkTimerSpec (ts_queue s) (ts_next s) (ts_known s ∖ {[t]})).
Proof using Type. intros [H1 H2 H3 H4] Ht. split; try done; [by apply rep_free|]. cbn. by rewrite dom_delete_L, H3. Qed.
Lemma add_sim r s t x :
  spec_rep n r s -> timer_cells r !! t = Some x -> t ∉ map q_timer (ts_queue s) ->
  exists r', mal_reactor_add_timer raw r t = Ret r' /\ spec_rep (n + 1) r' (spec_enqueue t (deadline_ns x) (ts_queue s) s).
Proof using Hroom.
  intros [H1 H2 H3 H4] Hx Ht. unfold TIMER_ROOM in Hroom.
  destruct (rep_add raw r (ts_queue s) t x H1 Hx Ht) as (r' & E & Hr' & Hn & Hd); [unfold TIMER_ROOM; lia|lia|].
  exists r'. split; [done|]. rewrite H2 in Hr', Hn. split; [done|done|by rewrite Hd|]. cbn. rewrite enqueue_length. lia.
Qed.
Lemma remove_sim r s i :
  spec_rep n r s -> 0 <= i < timer_count r ->
  exists r', mal_timer_remove_at r i = Ret (slot r i, r') /\ views r' = views r /\ spec_rep n r' (spec_queue (dequeue (slot r i) (ts_queue s)) s).
Proof using Type.
  intros [H1 H2 H3 H4] Hi. destruct (rep_remove r _ i H1 Hi) as (r' & E & Hr' & Hn & Hv). exists r'. split; [done|]. split; [done|].
  split; [done|by rewrite Hn|by rewrite (views_dom _ _ Hv)|]. cbn. pose proof (dequeue_length (slot r i) (ts_queue s)). lia.
Qed.
Lemma cancel_sim r s t x :
  spec_rep n r s -> timer_cells r !! t = Some x ->
  exists r', mal_reactor_cancel_timer r t = Ret r' /\ views r' = views r /\ spec_rep n r' (spec_queue (dequeue t (ts_queue s)) s).
Proof using Type.
  intros [H1 H2 H3 H4] Hx. destruct (rep_cancel r _ t x H1 Hx) as (r' & E & Hr' & Hn & Hv). exists r'. split; [done|]. split; [done|].
  split; [done|by rewrite Hn|by rewrite (views_dom _ _ Hv)|]. cbn. pose proof (dequeue_length t (ts_queue s)). lia.
Qed.

Lemma find_queued s t : find_entry t (ts_queue s) = None <-> t ∉ map q_timer (ts_queue s).
Proof using Type.
  split; [apply find_entry_none|]. intros Ht. destruct (find_entry t _) as [e|] eqn:E; [|done]. apply find_entry_some in E as [He <-].
  destruct Ht. apply list_elem_of_fmap. by exists e.
Qed.
Lemma rearm_sim r s t x d :
  spec_rep n r s -> timer_cells r !! t = Some x ->
  exists r', mal_reactor_rearm_timer raw r t d = Ret r' /\ spec_rep (n + 1) r' (spec_rearm t d s).
Proof using Hroom.
  intros H Hx. pose proof H as [H1 H2 H3 H4]. unfold mal_reactor_rearm_timer, spec_rearm.
  destruct (timer_queued_ok r _ t x H1 Hx) as [-> _]. cbn [mbind outcome_bind]. rewrite (timer_at_some _ _ _ Hx). cbn [mbind outcome_bind].
  assert (exists r', (r ← mal_reactor_cancel_timer r t; r ← with_timer t (set_deadline d) r; mal_reactor_add_timer raw r t) = Ret r' /\
    spec_rep (n + 1) r' (spec_enqueue t d (dequeue t (ts_queue s)) s)) as Hmove.
  { destruct (cancel_sim r s t x H Hx) as (r1 & -> & Hv & Hr1). cbn [mbind outcome_bind].
    assert (t ∈ dom (timer_cells r1)) as [y Hy]%elem_of_dom by (rewrite (views_dom _ _ Hv); by eapply elem_of_dom_2).
    rewrite (with_timer_some _ _ _ _ Hy). cbn [mbind outcome_bind].
    apply (add_sim _ (spec_queue (dequeue t (ts_queue s)) s) t (set_deadline d y)); [|cbn; apply lookup_insert_eq|apply dequeue_not_in].
    by eapply write_sim; [|apply dequeue_not_in|]. }
  pose proof (queue_find r _ H1 t) as Hf. pose proof (rep_timers r _ H1) as Hts.
  case_bool_decide as Hq; rewrite <- Hts in Hq; [rewrite decide_True in Hf by done|rewrite decide_False in Hf by done]; rewrite Hf; cbn [andb].
  - rewrite (entry_cell r t x Hx). cbn [q_deadline]. destruct (deadline_ns x <=? d); [|exact Hmove].
    rewrite (with_timer_some _ _ _ _ Hx). eexists. split; [done|]. eapply (spec_rep_weaken n); [|lia].
    split; [by apply rep_postpone|done| |cbn; rewrite postpone_length; lia]. cbn. by rewrite (dom_write _ _ _ _ Hx).
  - apply find_queued in Hf. rewrite dequeue_absent in Hmove by done. exact Hmove.
Qed.
Lemma turn_sim r s now :
  spec_rep n r s ->
  exists r', pump_step raw r now = Ret ((spec_turn now s).1, r') /\ spec_rep (n + 1) r' (spec_turn now s).2.
Proof using Hroom.
  intros H. pose proof H as [H1 H2 H3 H4]. pose proof (rep_count r _ H1) as Hc. unfold pump_step, spec_turn.
  assert (exists r', Ret (TurnIdle, r) = Ret (TurnIdle, r') /\ spec_rep (n + 1) r' s) as Hidle
    by (exists r; split; [done|eapply spec_rep_weaken; [done|lia]]).
  destruct (ts_queue s) as [|e Q] eqn:EQ.
  { rewrite Hc. exact Hidle. }
  destruct (rep_front r e Q H1) as (Hpos & Es & Ed & x & Hx & Ee). destruct (Z.ltb_spec 0 (timer_count r)) as [_|]; [|lia].
  rewrite Es, (timer_at_some _ _ _ Hx). cbn [mbind outcome_bind].
  replace (q_deadline e) with (deadline_ns x) by (by rewrite Ee). destruct (deadline_ns x <=? now); cbn [negb]; [|exact Hidle].
  destruct (remove_sim r s 0 H ltac:(lia)) as (r1 & -> & Hv & Hr1). cbn [mbind outcome_bind]. rewrite Es, EQ, Ed in Hr1. rewrite Es.
  destruct (view_cell r r1 _ x Hv Hx) as (y & Hy & Ey). unfold timer_view in Ey.
  rewrite (timer_at_some _ _ _ Hy). cbn [mbind outcome_bind]. replace (q_postponed e) with (postponed_ns y) by (rewrite Ee; cbn; congruence).
  replace (deadline_ns y) with (deadline_ns x) by congruence. destruct (deadline_ns x <? postponed_ns y).
  - rewrite (with_timer_some _ _ _ _ Hy). cbn [mbind outcome_bind].
    assert (q_timer e ∉ map q_timer Q) as Hne by (rewrite <- Ed; apply dequeue_not_in).
    destruct (add_sim (set_timer_cells (<[q_timer e := set_deadline (postponed_ns y) y]> (timer_cells r1)) r1) (spec_queue Q s)
      (q_timer e) (set_deadline (postponed_ns y) y)) as (r2 & -> & Hr2); [by eapply write_sim|cbn; apply lookup_insert_eq|done|].
    exists r2. by split.
  - exists r1. split; [done|]. eapply spec_rep_weaken; [done|lia].
Qed.

Lemma step_sim r s op a s' :
  spec_rep n r s -> spec_step op s = Some (a, s') -> exists r', timer_step raw op r = Ret (a, r') /\ spec_rep (n + 1) r' s'.
Proof using Hroom.
  intros H E. pose proof (spec_rep_weaken n (n + 1) r s H ltac:(lia)) as Hw.
  destruct op as [t x|t|t d|t|t d| |now]; cbn [spec_step timer_step] in *.
  - destruct (is_queued s t) eqn:Eq; simplify_eq. eexists. split; [done|]. eapply spec_rep_weaken; [|by apply Z.le_succ_diag_r].
    apply init_sim; [done|by apply is_queued_false].
  - destruct (is_queued s t) eqn:Eq; simplify_eq. eexists. split; [done|]. eapply spec_rep_weaken; [|by apply Z.le_succ_diag_r].
    apply free_sim; [done|by apply is_queued_false].
  - destruct (known s t) eqn:Ek, (is_queued s t) eqn:Eq; cbn in E; simplify_eq. apply is_queued_false in Eq.
    destruct (known_cell _ _ _ _ H Ek) as [x Hx]. rewrite (with_timer_some _ _ _ _ Hx). cbn [mbind outcome_bind].
    destruct (add_sim (set_timer_cells (<[t := set_deadline d x]> (timer_cells r)) r) s t (set_deadline d x)) as (r' & -> & Hr');
      [by eapply write_sim|cbn; apply lookup_insert_eq|done|]. by exists r'.
  - destruct (known s t) eqn:Ek; simplify_eq. destruct (known_cell _ _ _ _ H Ek) as [x Hx].
    destruct (cancel_sim r s t x H Hx) as (r' & -> & _ & Hr'). exists r'. split; [done|]. eapply spec_rep_weaken; [done|lia].
  - destruct (known s t) eqn:Ek; simplify_eq. destruct (known_cell _ _ _ _ H Ek) as [x Hx].
    destruct (rearm_sim r s t x d H Hx) as (r' & -> & Hr'). by exists r'.
  - simplify_eq. exists r. split; [|done]. pose proof (sr_queue _ _ _ H) as Hq. unfold next_deadline. rewrite (rep_count r _ Hq).
    destruct (ts_queue s') as [|e Q] eqn:EQ; [done|]. destruct (rep_front r e Q Hq) as (Hpos & Es & _ & x & Hx & Ee).
    rewrite <- (rep_count r _ Hq). destruct (Z.ltb_spec 0 (timer_count r)) as [_|]; [|lia].
    rewrite Es, (timer_at_some _ _ _ Hx). cbn. by rewrite Ee.
  - destruct (turn_sim r s now H) as (r' & -> & Hr'). destruct (spec_turn now s) as [turn s1]. simplify_eq. by exists r'.
Qed.
End simulation.

Lemma run_sim raw ops : forall n r s l s',
  spec_rep n r s -> n + arr_len ops < TIMER_ROOM -> spec_run ops s = Some (l, s') ->
  exists r', timer_run raw ops r = Ret (l, r') /\ spec_rep (n + arr_len ops) r' s'.
Proof.
  induction ops as [|op ops IH]; intros n r s l s' H Hn E; cbn [spec_run timer_run] in *.
  { simplify_eq. exists r. split; [done|]. eapply spec_rep_weaken; [done|]. unfold arr_len. cbn. lia. }
  unfold arr_len in *. cbn [length] in *.
  destruct (spec_step op s) as [[a s1]|] eqn:E1; cbn in E; [|done]. destruct (spec_run ops s1) as [[l1 s2]|] eqn:E2; cbn in E; simplify_eq.
  destruct (step_sim raw n ltac:(lia) r s op a s1 H E1) as (r1 & -> & Hr1). cbn [mbind outcome_bind].
  destruct (IH (n + 1) r1 s1 l1 s' Hr1) as (r' & -> & Hr'); [lia|done|]. exists r'. split; [done|]. eapply spec_rep_weaken; [done|lia].
Qed.

Definition spec_init : timer_spec := mkTimerSpec [] 0 ∅.
Lemma timer_init_rep : spec_rep 0 (mal_reactor_init ∅) spec_init.
Proof.
  split; [|done|apply dom_empty_L|done]. split; [split|constructor|done|constructor|done].
  - split; cbn; try lia; try done. intros i Hi. cbn in Hi. lia.
  - intros j Hj. cbn in Hj. lia.
Qed.

(** C17. Any sequence of calls a client may make (timers written and freed while they are
    not queued, queued once, cancelled and re-armed at will, turns of the pump at any
    times) returns from a reactor that starts empty, without touching a freed timer,
    with the answers of a queue kept sorted by deadline and order of arrival. *)
Theorem timer_run_refines raw ops l s :
  spec_run ops spec_init = Some (l, s) -> arr_len ops < TIMER_ROOM ->
  exists r, timer_run raw ops (mal_reactor_init ∅) = Ret (l, r) /\ queue_rep r (ts_queue s) /\ dom (timer_cells r) = ts_known s.
Proof.
  intros E Hn. destruct (run_sim raw ops 0 _ _ l s timer_init_rep Hn E) as (r & -> & [H1 _ H3 _]). by exists r.
Qed.

(** * The pump *)

(** A timer with the time it is to fire at. *)
Definition ticket (e : qentry) : Z * Z := (q_timer e, Z.max (q_deadline e) (q_postponed e)).
Definition tickets (Q : list qentry) : list (Z * Z) := map ticket Q.
(** Turns left at most: one to fire each timer, one more to move it. *)
Definition turns_of (e : qentry) : nat := if q_deadline e <? q_postponed e then 2 else 1.
Definition turns (Q : list qentry) : nat := sum_list_with turns_of Q.
Definition not_later (a b : Z * Z) : Prop := a.2 <= b.2.
Definition due (now : Z) (k : Z * Z) : Prop := k.2 <= now.
#[export] Instance due_dec now k : Decision (due now k).
Proof. unfold due. apply _. Defined.
(** Wakers that leave the timer queue alone, as the ones that make a fiber runnable or a
    callback ready do. *)
Definition quiet (wake : Z -> MalReactor -> outcome MalReactor) : Prop :=
  forall t r Q, queue_rep r Q -> exists r', wake t r = Ret r' /\ queue_rep r' Q /\ next_timer_sequence r' = next_timer_sequence r.

Lemma tickets_perm Q Q' : Q ≡ₚ Q' -> tickets Q ≡ₚ tickets Q'.
Proof. apply Permutation_map. Qed.
Lemma turns_enqueue e Q : turns (enqueue e Q) = (turns_of e + turns Q)%nat.
Proof. unfold turns. by rewrite enqueue_perm. Qed.
Lemma turns_bound Q : Z.of_nat (turns Q) <= 2 * arr_len Q.
Proof.
  unfold arr_len. induction Q as [|e Q IH]; cbn [turns sum_list_with length]; [done|]. unfold turns, turns_of in *. cbn. destruct (_ <? _); lia.
Qed.
Lemma ticket_later e Q :
  StronglySorted before (e :: Q) -> Forall (fun k => q_deadline e <= k.2) (tickets Q).
Proof.
  intros [_ Hall]%StronglySorted_inv. apply Forall_map. eapply Forall_impl; [exact Hall|]. intros x Hx. unfold before in Hx. cbn. lia.
Qed.
Lemma tickets_none now L : Forall (fun k => now < k.2) L -> filter (due now) L = [] /\ filter (fun k => ~ due now k) L = L.
Proof.
  induction 1 as [|k L Hk _ [IH1 IH2]]; [done|]. rewrite !filter_cons, decide_False, decide_True by (unfold due; lia). by rewrite IH1, IH2.
Qed.
Lemma not_later_all a L : Forall (fun k : Z * Z => a <= k.2) L -> forall now F, F ≡ₚ filter (due now) L -> Forall (fun k => a <= k.2) F.
Proof. intros H now F HF. rewrite HF. rewrite Forall_forall in H |- *. intros k [_ Hk]%list_elem_of_filter. by apply H. Qed.

Section pump.
Variable raw : Z -> Z.
Variable wake : Z -> MalReactor -> outcome MalReactor.
Hypothesis Hwake : quiet wake.
Variable now : Z.

(** A turn, on the queue alone. *)
Lemma turn_rep r Q n :
  queue_rep r Q -> arr_len Q <= n -> next_timer_sequence r <= n -> n < TIMER_ROOM ->
  let s := mkTimerSpec Q (next_timer_sequence r) (dom (timer_cells r)) in
  exists r', pump_step raw r now = Ret ((spec_turn now s).1, r') /\ queue_rep r' (ts_queue (spec_turn now s).2) /\
    next_timer_sequence r' <= n + 1 /\ arr_len (ts_queue (spec_turn now s).2) <= n + 1.
Proof using Type.
  intros Hr Hl Hs Hn s. destruct (turn_sim raw n Hn r s now) as (r' & E & [H1 H2 H3 H4]); [by split|].
  exists r'. split; [done|]. split; [done|]. rewrite H2. lia.
Qed.

Lemma pump_ok fuel : forall r Q n,
  queue_rep r Q -> Forall (fun e => 0 <= q_deadline e) Q -> arr_len Q <= n -> next_timer_sequence r <= n ->
  n + Z.of_nat (turns Q) < TIMER_ROOM -> (turns Q < fuel)%nat ->
  exists F r' Q', pump_timers raw wake fuel r now = Ret (map fst F, r') /\ queue_rep r' Q' /\
    F ≡ₚ filter (due now) (tickets Q) /\ StronglySorted not_later F /\ tickets Q' ≡ₚ filter (fun k => ~ due now k) (tickets Q).
Proof using Hwake.
  induction fuel as [|fuel IH]; intros r Q n Hr Hd Hl Hs Hn Hf; [lia|]. cbn [pump_timers].
  destruct (turn_rep r Q n Hr Hl Hs ltac:(lia)) as (r1 & -> & Hr1 & Hs1 & Hl1). cbn [mbind outcome_bind].
  destruct Q as [|e Q]; cbn [spec_turn ts_queue fst snd] in *.
  { exists [], r1, []. do 3 (split; [done|]). split; [constructor|done]. }
  pose proof (ticket_later e Q (qr_sorted _ _ Hr)) as Hlater. apply Forall_cons in Hd as [Hde Hd].
  destruct (Z.leb_spec (q_deadline e) now) as [Hdue|Hidle]; cbn [negb fst snd] in *; cycle 1.
  { destruct (tickets_none now (tickets (e :: Q))) as [E1 E2].
    { constructor; [cbn; lia|]. eapply Forall_impl; [exact Hlater|]. cbn. lia. }
    exists [], r1, (e :: Q). rewrite E1, E2. do 3 (split; [done|]). split; [constructor|done]. }
  unfold turns in Hf, Hn. cbn [sum_list_with] in Hf, Hn. fold (turns Q) in Hf, Hn. unfold turns_of in Hf, Hn.
  destruct (Z.ltb_spec (q_deadline e) (q_postponed e)) as [Hlt|Hge]; cbn [fst snd ts_queue spec_enqueue spec_queue] in *.
  - set (e' := mkQ (q_timer e) (q_postponed e) 0 _) in *.
    assert (tickets (enqueue e' Q) ≡ₚ tickets (e :: Q)) as Ht.
    { rewrite (tickets_perm _ _ (enqueue_perm e' Q)). cbn. unfold ticket at 1 3. cbn. by rewrite !Z.max_l, Z.max_r by lia. }
    assert (turns (enqueue e' Q) = S (turns Q)) as Et.
    { rewrite turns_enqueue. unfold turns_of, e'. cbn. destruct (Z.ltb_spec (q_postponed e) 0); lia. }
    destruct (IH r1 (enqueue e' Q) (n + 1) Hr1) as (F & r' & Q' & E & Hr' & HF & HS & HQ); try lia.
    { rewrite enqueue_perm. constructor; [cbn; lia|done]. }
    exists F, r', Q'. rewrite Ht in HF, HQ. done.
  - destruct (Hwake (q_timer e) r1 Q Hr1) as (r2 & -> & Hr2 & Hn2). cbn [mbind outcome_bind].
    destruct (IH r2 Q (n + 1) Hr2 Hd) as (F & r' & Q' & E & Hr' & HF & HS & HQ); try lia. rewrite E. cbn [mbind outcome_bind].
    exists (ticket e :: F), r', Q'. split; [done|]. split; [done|]. cbn [tickets map]. rewrite !filter_cons.
    assert ((ticket e).2 = q_deadline e) as Ek by (cbn; lia). rewrite decide_True, decide_False by (unfold due; rewrite Ek; tauto || lia).
    split; [by rewrite HF|]. split; [|done]. constructor; [done|]. unfold not_later. rewrite Ek. by eapply not_later_all.
Qed.
End pump.

(** Deadlines are readings of the monotonic clock. *)
Definition timely (op : timer_op) : Prop := match op with TAdd _ d | TRearm _ d => 0 <= d | _ => True end.
Definition queue_timely (Q : list qentry) : Prop := Forall (fun e => 0 <= q_deadline e) Q.

Lemma enqueue_timely e Q : 0 <= q_deadline e -> queue_timely Q -> queue_timely (enqueue e Q).
Proof. intros He HQ. unfold queue_timely. rewrite enqueue_perm. by constructor. Qed.
Lemma dequeue_timely t Q : queue_timely Q -> queue_timely (dequeue t Q).
Proof. unfold queue_timely. rewrite !Forall_forall. intros H e [_ He]%list_elem_of_filter. by apply H. Qed.
Lemma postpone_timely t d Q : queue_timely Q -> queue_timely (postpone t d Q).
Proof. intros H. apply Forall_map. eapply Forall_impl; [exact H|]. intros e He. cbn. by case_decide. Qed.
Create HintDb timers.
#[export] Hint Resolve enqueue_timely dequeue_timely postpone_timely : timers.

Lemma spec_step_timely op s a s' : spec_step op s = Some (a, s') -> timely op -> queue_timely (ts_queue s) -> queue_timely (ts_queue s').
Proof.
  intros E Hop H. destruct op as [t x|t|t d|t|t d| |now]; cbn [spec_step timely] in *; try (case_match; simplify_eq; cbn; by auto with timers).
  - destruct (known s t); simplify_eq. unfold spec_rearm. repeat case_match; cbn; auto with timers.
  - by simplify_eq.
  - unfold spec_turn in E. destruct (ts_queue s) as [|e Q] eqn:EQ; simplify_eq; [by rewrite EQ|]. apply Forall_cons in H as [He H].
    repeat case_match; simplify_eq; cbn; auto with timers.
    + rewrite EQ. by constructor.
    + apply enqueue_timely; [cbn; lia|done].
Qed.
Lemma spec_run_timely ops : forall s l s',
  spec_run ops s = Some (l, s') -> Forall timely ops -> queue_timely (ts_queue s) -> queue_timely (ts_queue s').
Proof.
  induction ops as [|op ops IH]; intros s l s' E Hops H; cbn [spec_run] in E; [by simplify_eq|]. apply Forall_cons in Hops as [Hop Hops].
  destruct (spec_step op s) as [[a s1]|] eqn:E1; cbn in E; [|done]. destruct (spec_run ops s1) as [[l1 s2]|] eqn:E2; cbn in E; simplify_eq.
  eapply IH; [done|done|]. by eapply spec_step_timely.
Qed.

(** C18. A pump of a reactor that any sequence of calls led to, in which every deadline
    given was a time of the monotonic clock (not negative), returns within two turns a
    timer, having fired exactly the timers whose deadline, re-armings included, has
    come, from the earliest to the latest; the others stay queued with their deadlines.
    The wakers are assumed to leave the timer queue alone ([quiet]), as those of sleeping
    fibers (mal_sched_wake_fiber_cb) and of host timers (mal_host_timer_waker) do: they
    queue the fiber or the callback. A waker that kept re-arming timers at or before the
    time of the pump would keep it looping. *)
Theorem timer_pump_fires_due raw wake ops l s now fuel :
  spec_run ops spec_init = Some (l, s) -> Forall timely ops -> 3 * arr_len ops < TIMER_ROOM -> quiet wake ->
  (2 * length (ts_queue s) < fuel)%nat ->
  exists r F r' Q', timer_run raw ops (mal_reactor_init ∅) = Ret (l, r) /\
    pump_timers raw wake fuel r now = Ret (map fst F, r') /\ queue_rep r' Q' /\
    F ≡ₚ filter (due now) (tickets (ts_queue s)) /\ StronglySorted not_later F /\
    tickets Q' ≡ₚ filter (fun k => ~ due now k) (tickets (ts_queue s)).
Proof.
  intros E Hops Hn Hw Hf. assert (0 <= arr_len ops) by (unfold arr_len; lia).
  destruct (run_sim raw ops 0 _ _ l s timer_init_rep ltac:(lia) E) as (r & Er & [H1 H2 _ H4]). exists r.
  pose proof (turns_bound (ts_queue s)) as Hb. unfold arr_len in Hb.
  destruct (pump_ok raw wake Hw now fuel r (ts_queue s) (arr_len ops)) as (F & r' & Q' & H'); try lia; try done.
  - eapply spec_run_timely; [exact E|done|constructor].
  - unfold arr_len in *. lia.
  - exists F, r', Q'. by split.
Qed.

(** * Witnesses *)
Module ReactorDemo.
Definition fresh : MalTimer := mkTimer 0 0 0 0.
Definition ops : list timer_op :=
  [TInit 1 fresh; TInit 2 fresh; TInit 3 fresh; TInit 4 fresh; TAdd 1 50; TAdd 2 30; TAdd 3 30; TAdd 4 10; TNext;
   TRearm 2 70; TRearm 1 20; TCancel 3; TCancel 3; TFree 3; TTurn 15].
Definition quiet_wake (t : Z) (r : MalReactor) : outcome MalReactor := Ret r.
Definition answers : list timer_answer :=
  [ADone; ADone; ADone; ADone; ADone; ADone; ADone; ADone; ANext (Some 10); ADone; ADone; ADone; ADone; ADone; ATurn (TurnFired 4)].

Lemma timer_run_refines_witness :
  exists r s, timer_run (fun _ => 0) ops (mal_reactor_init ∅) = Ret (answers, r) /\ queue_rep r (ts_queue s).
Proof.
  destruct (spec_run ops spec_init) as [[l s]|] eqn:E; [|vm_compute in E; discriminate].
  assert (l = answers) as -> by (vm_compute in E; injection E as <- _; reflexivity).
  destruct (timer_run_refines (fun _ => 0) ops answers s E) as (r & Hr & Hq & _); [reflexivity|]. exists r, s. split; [exact Hr|exact Hq].
Defined.

(** At 35 the timer re-armed to an earlier deadline is due; the one re-armed to 70 is not,
    though its old deadline of 30 has passed. *)
Lemma timer_pump_fires_due_witness :
  exists r F r', timer_run (fun _ => 0) ops (mal_reactor_init ∅) = Ret (answers, r) /\
    pump_timers (fun _ => 0) quiet_wake 9 r 35 = Ret (map fst F, r') /\ F ≡ₚ [(1, 20)].
Proof.
  destruct (spec_run ops spec_init) as [[l s]|] eqn:E; [|vm_compute in E; discriminate].
  assert (l = answers) as -> by (vm_compute in E; injection E as <- _; reflexivity).
  assert (tickets (ts_queue s) = [(1, 20); (2, 70)]) as Et by (vm_compute in E; injection E as <-; reflexivity).
  destruct (timer_pump_fires_due (fun _ => 0) quiet_wake ops answers s 35 9 E) as (r & F & r' & Q' & Hr & Hp & _ & HF & _ & _).
  - repeat constructor; discriminate.
  - reflexivity.
  - intros t r Q Hr. exists r. split; [reflexivity|split; [exact Hr|reflexivity]].
  - apply (f_equal length) in Et. unfold tickets in Et. rewrite length_map in Et. rewrite Et. cbn. lia.
  - exists r, F, r'. split; [exact Hr|split; [exact Hp|]]. rewrite HF, Et. reflexivity.
Defined.
End ReactorDemo.
