(* ===== verification/Uri.v ===== *)
(** URI coding, runtime/src/builtin_uri.c: encodeURI, decodeURI and their Component
    forms, escape and unescape. Each function makes a sizing pass, which rejects bad
    input, then one allocation of exactly the size and a writing pass; input that needs
    no change is returned as it is.

    The input is the flat segment of the string. [grant] says for which sizes the heap
    grants memory and [raw] what fresh memory holds; writing past the output is a fault. *)

From S2P Require Import Prelude CheckedSize HeapString Base64 Utf.

Inductive UriThrow : Set := ThrowUriError | ThrowRangeError | ThrowAllocation.
(** What a call leaves: an exception, its argument, or a new string and its encoding. *)
Inductive UriResult : Type := UriThrew (e : UriThrow) | UriArgument | UriString (wide : bool) (units : list Z).

Definition mal_uri_hex_digits : list Z := [48; 49; 50; 51; 52; 53; 54; 55; 56; 57; 65; 66; 67; 68; 69; 70].

Definition is_any (c : Z) (l : list Z) : bool := existsb (Z.eqb c) l.
Definition is_alphanumeric (c : Z) : bool :=
  ((65 <=? c) && (c <=? 90)) || ((97 <=? c) && (c <=? 122)) || ((48 <=? c) && (c <=? 57)).
Definition mal_uri_is_unreserved (c : Z) : bool := is_alphanumeric c || is_any c [45; 95; 46; 33; 126; 42; 39; 40; 41].
Definition mal_uri_is_reserved_or_hash (c : Z) : bool := is_any c [59; 47; 63; 58; 64; 38; 61; 43; 36; 44; 35].

(** The byte, or [None] for [false]. *)
Definition mal_uri_hex_pair (high low : Z) : option Z :=
  let high_value := mal_hex_decode_digit high in
  let low_value := mal_hex_decode_digit low in
  if (high_value <? 0) || (low_value <? 0) then None
  else Some (u8 (Z.lor (Z.shiftl high_value 4) low_value)).

Definition mal_uri_result_length_add (length extra : Z) : UriThrow + Z :=
  match mal_checked_size_add length extra MAL_STRING_MAX_CODE_UNITS with
  | None => inl ThrowRangeError
  | Some result => inr result
  end.

(** * The output *)

Record MalUriOutput : Type := mkOutput { out_data : list Z; out_offset : Z; out_wide : bool }.

Definition mal_uri_output_push (output : MalUriOutput) (unit : Z) : outcome MalUriOutput :=
  let '(mkOutput data offset wide) := output in
  if (0 <=? offset) && (offset <? arr_len data) then
    Ret (mkOutput (arr_set data offset (if wide then unit else u8 unit)) (u64 (offset + 1)) wide)
  else Abort.
Definition mal_uri_output_finish (output : MalUriOutput) (length : Z) : outcome UriResult :=
  if negb (out_offset output =? length) then Abort else Ret (UriString (out_wide output) (out_data output)).

Fixpoint push_all (output : MalUriOutput) (units : list Z) : outcome MalUriOutput :=
  match units with
  | [] => Ret output
  | unit :: units => output ← mal_uri_output_push output unit; push_all output units
  end.

Definition mal_uri_encode_unescaped (c : Z) (component : bool) : bool :=
  mal_uri_is_unreserved c || (negb component && mal_uri_is_reserved_or_hash c).

Definition hex_digit (n : Z) : Z := arr_get mal_uri_hex_digits (Z.land n 0x0F).
Definition mal_uri_write_octet (output : MalUriOutput) (octet : Z) : outcome MalUriOutput :=
  output ← mal_uri_output_push output 37;
  output ← mal_uri_output_push output (hex_digit (Z.shiftr octet 4));
  mal_uri_output_push output (hex_digit octet).
Fixpoint write_octets (output : MalUriOutput) (octets : list Z) : outcome MalUriOutput :=
  match octets with
  | [] => Ret output
  | octet :: octets => output ← mal_uri_write_octet output octet; write_octets output octets
  end.

(** * Reading *)

Definition mal_uri_unit (units : MalStringSegment) (index : Z) : Z := arr_get (seg_units units) index.
Definition mal_uri_read_scalar (units : MalStringSegment) (index : Z) : bool * Z * Z :=
  if seg_latin1 units then (true, arr_get (seg_units units) index, 1)
  else mal_utf16_read_scalar (seg_units units) (seg_length units) index.

Section Uri.
Variable grant : Z -> bool.
Variable raw : Z -> Z.

Definition mal_uri_output_alloc (length : Z) (wide : bool) : UriThrow + MalUriOutput :=
  match mal_checked_size_multiply (if wide then 2 else 1) length SIZE_MAX with
  | None => inl ThrowRangeError
  | Some bytes =>
      if grant bytes then inr (mkOutput (map raw (seqZ 0 length)) 0 wide) else inl ThrowAllocation
  end.

(** The output loop [write] run on fresh storage, or the argument when nothing changed. *)
Definition write_result (sized : UriThrow + Z * bool * bool) (write : MalUriOutput -> outcome MalUriOutput) : outcome UriResult :=
  match sized with
  | inl e => Ret (UriThrew e)
  | inr (result_length, changed, wide) =>
      if negb changed then Ret UriArgument
      else
        match mal_uri_output_alloc result_length wide with
        | inl e => Ret (UriThrew e)
        | inr output => output ← write output; mal_uri_output_finish output result_length
        end
  end.

(** * encodeURI *)

(** The number of UTF-8 bytes of a code point. *)
Definition utf8_length (code_point : Z) : Z :=
  if code_point <=? 0x7F then 1 else if code_point <=? 0x7FF then 2 else if code_point <=? 0xFFFF then 3 else 4.
Fixpoint encode_size (fuel : nat) (units : MalStringSegment) (component : bool) (k result_length : Z) (changed : bool)
  : outcome (UriThrow + Z * bool * bool) :=
  match fuel with
  | O => NoFuel
  | S fuel =>
      if k <? seg_length units then
        if mal_uri_encode_unescaped (mal_uri_unit units k) component then encode_size fuel units component (k + 1) result_length changed
        else
          let '(ok, code_point, width) := mal_uri_read_scalar units k in
          if negb (ok : bool) then Ret (inl ThrowUriError)
          else
            let k := k + (width - 1) in
            match mal_uri_result_length_add result_length (u64 (utf8_length code_point * 3 - width)) with
            | inl e => Ret (inl e)
            | inr result_length => encode_size fuel units component (k + 1) result_length true
            end
      else Ret (inr (result_length, changed, false))
  end.
Definition octets_of (code_point : Z) : list Z :=
  if code_point <=? 0x7F then [u8 code_point]
  else if code_point <=? 0x7FF then
    [u8 (Z.lor 0xC0 (Z.shiftr code_point 6)); u8 (Z.lor 0x80 (Z.land code_point 0x3F))]
  else if code_point <=? 0xFFFF then
    [u8 (Z.lor 0xE0 (Z.shiftr code_point 12)); u8 (Z.lor 0x80 (Z.land (Z.shiftr code_point 6) 0x3F));
     u8 (Z.lor 0x80 (Z.land code_point 0x3F))]
  else
    [u8 (Z.lor 0xF0 (Z.shiftr code_point 18)); u8 (Z.lor 0x80 (Z.land (Z.shiftr code_point 12) 0x3F));
     u8 (Z.lor 0x80 (Z.land (Z.shiftr code_point 6) 0x3F)); u8 (Z.lor 0x80 (Z.land code_point 0x3F))].
Fixpoint encode_write (fuel : nat) (units : MalStringSegment) (component : bool) (k : Z) (output : MalUriOutput) : outcome MalUriOutput :=
  match fuel with
  | O => NoFuel
  | S fuel =>
      if k <? seg_length units then
        let c := mal_uri_unit units k in
        if mal_uri_encode_unescaped c component then
          output ← mal_uri_output_push output c;
          encode_write fuel units component (k + 1) output
        else
          let '(ok, code_point, width) := mal_uri_read_scalar units k in
          if negb (ok : bool) then Abort
          else
            let k := k + (width - 1) in
            output ← write_octets output (octets_of code_point);
            encode_write fuel units component (k + 1) output
      else Ret output
  end.
(** A turn of each loop passes at least one unit. *)
Definition uri_fuel (units : MalStringSegment) : nat := S (Z.to_nat (seg_length units)).
Definition mal_builtin_uri_encode_known (units : MalStringSegment) (component : bool) : outcome UriResult :=
  sized ← encode_size (uri_fuel units) units component 0 (seg_length units) false;
  write_result sized (encode_write (uri_fuel units) units component 0).

(** * decodeURI *)

Record MalUriDecodedEscape : Type := mkEscape { esc_end : Z; esc_code_point : Z; esc_preserved : bool }.

Definition mal_uri_hex_pair_at (units : MalStringSegment) (index : Z) : option Z :=
  mal_uri_hex_pair (mal_uri_unit units index) (mal_uri_unit units (index + 1)).

(** The continuation octets: the position after them and the code point. *)
Fixpoint decode_continuations (todo : nat) (units : MalStringSegment) (position code_point : Z) : option (Z * Z) :=
  match todo with
  | O => Some (position, code_point)
  | S todo =>
      if (seg_length units <=? position + 2) || negb (mal_uri_unit units position =? 37) then None
      else
        match mal_uri_hex_pair_at units (position + 1) with
        | None => None
        | Some continuation =>
            if negb (Z.land continuation 0xC0 =? 0x80) then None
            else decode_continuations todo units (position + 3) (Z.lor (u32 (Z.shiftl code_point 6)) (Z.land continuation 0x3F))
        end
  end.
Definition escape_class (first : Z) : option (nat * Z) :=
  if Z.land first 0xE0 =? 0xC0 then Some (2%nat, Z.land first 0x1F)
  else if Z.land first 0xF0 =? 0xE0 then Some (3%nat, Z.land first 0x0F)
  else if Z.land first 0xF8 =? 0xF0 then Some (4%nat, Z.land first 0x07)
  else None.
Definition overlong (count : nat) (code_point : Z) : bool :=
  ((count =? 2)%nat && (code_point <? 0x80)) || ((count =? 3)%nat && (code_point <? 0x800)) || ((count =? 4)%nat && (code_point <? 0x10000)).
Definition mal_uri_decode_escape (units : MalStringSegment) (start : Z) (preserve_reserved : bool) : option MalUriDecodedEscape :=
  if seg_length units <=? start + 2 then None
  else
    match mal_uri_hex_pair_at units (start + 1) with
    | None => None
    | Some first =>
        if first <? 0x80 then Some (mkEscape (start + 2) first (preserve_reserved && mal_uri_is_reserved_or_hash first))
        else
          match escape_class first with
          | None => None
          | Some (count, code_point) =>
              match decode_continuations (count - 1) units (start + 3) code_point with
              | None => None
              | Some (position, code_point) =>
                  if overlong count code_point || ((0xD800 <=? code_point) && (code_point <=? 0xDFFF)) || (0x10FFFF <? code_point) then None
                  else Some (mkEscape (position - 1) code_point false)
              end
          end
    end.

Fixpoint decode_size (fuel : nat) (units : MalStringSegment) (preserve : bool) (k result_length : Z) (changed : bool) (widest : Z)
  : outcome (UriThrow + Z * bool * bool) :=
  match fuel with
  | O => NoFuel
  | S fuel =>
      if k <? seg_length units then
        let unit := mal_uri_unit units k in
        if negb (unit =? 37) then decode_size fuel units preserve (k + 1) result_length changed (Z.lor widest unit)
        else
          match mal_uri_decode_escape units k preserve with
          | None => Ret (inl ThrowUriError)
          | Some decoded =>
              if negb (esc_preserved decoded) then
                let consumed := esc_end decoded - k + 1 in
                let appended := if esc_code_point decoded <=? 0xFFFF then 1 else 2 in
                decode_size fuel units preserve (esc_end decoded + 1) (u64 (result_length - (consumed - appended))) true
                  (Z.lor widest (esc_code_point decoded))
              else decode_size fuel units preserve (esc_end decoded + 1) result_length changed widest
          end
      else Ret (inr (result_length, changed, 0xFF <? widest))
  end.
Fixpoint decode_write (fuel : nat) (units : MalStringSegment) (preserve : bool) (k : Z) (output : MalUriOutput) : outcome MalUriOutput :=
  match fuel with
  | O => NoFuel
  | S fuel =>
      if k <? seg_length units then
        let unit := mal_uri_unit units k in
        if negb (unit =? 37) then
          output ← mal_uri_output_push output unit;
          decode_write fuel units preserve (k + 1) output
        else
          match mal_uri_decode_escape units k preserve with
          | None => Abort
          | Some decoded =>
              output ←
                (if esc_preserved decoded then push_all output (map (mal_uri_unit units) (seqZ k (esc_end decoded - k + 1)))
                 else if esc_code_point decoded <=? 0xFFFF then mal_uri_output_push output (u16 (esc_code_point decoded))
                 else push_all output (mal_utf16_emit_pair (esc_code_point decoded)));
              decode_write fuel units preserve (esc_end decoded + 1) output
          end
      else Ret output
  end.
Definition mal_builtin_uri_decode_known (units : MalStringSegment) (preserve_reserved : bool) : outcome UriResult :=
  sized ← decode_size (uri_fuel units) units preserve_reserved 0 (seg_length units) false 0;
  write_result sized (decode_write (uri_fuel units) units preserve_reserved 0).

(** * escape and unescape *)

Definition mal_uri_escape_unescaped (c : Z) : bool := is_alphanumeric c || is_any c [64; 42; 95; 43; 45; 46; 47].

Fixpoint escape_size (fuel : nat) (units : MalStringSegment) (i result_length : Z) (changed : bool) : outcome (UriThrow + Z * bool * bool) :=
  match fuel with
  | O => NoFuel
  | S fuel =>
      if i <? seg_length units then
        let unit := mal_uri_unit units i in
        let width := if mal_uri_escape_unescaped unit then 1 else if unit <? 256 then 3 else 6 in
        match (if 1 <? width then mal_uri_result_length_add result_length (width - 1) else inr result_length) with
        | inl e => Ret (inl e)
        | inr result_length => escape_size fuel units (i + 1) result_length (changed || negb (width =? 1))
        end
      else Ret (inr (result_length, changed, false))
  end.
Fixpoint escape_write (fuel : nat) (units : MalStringSegment) (i : Z) (output : MalUriOutput) : outcome MalUriOutput :=
  match fuel with
  | O => NoFuel
  | S fuel =>
      if i <? seg_length units then
        let unit := mal_uri_unit units i in
        output ←
          (if mal_uri_escape_unescaped unit then mal_uri_output_push output unit
           else if unit <? 256 then mal_uri_write_octet output (u8 unit)
           else push_all output [37; 117; hex_digit (Z.shiftr unit 12); hex_digit (Z.shiftr unit 8); hex_digit (Z.shiftr unit 4); hex_digit unit]);
        escape_write fuel units (i + 1) output
      else Ret output
  end.
Definition mal_builtin_uri_escape_known (units : MalStringSegment) : outcome UriResult :=
  sized ← escape_size (uri_fuel units) units 0 (seg_length units) false;
  write_result sized (escape_write (uri_fuel units) units 0).

Definition mal_uri_hex_quad (units : MalStringSegment) (index : Z) : option Z :=
  let a := mal_hex_decode_digit (mal_uri_unit units index) in
  let b := mal_hex_decode_digit (mal_uri_unit units (index + 1)) in
  let c := mal_hex_decode_digit (mal_uri_unit units (index + 2)) in
  let d := mal_hex_decode_digit (mal_uri_unit units (index + 3)) in
  if (a <? 0) || (b <? 0) || (c <? 0) || (d <? 0) then None
  else Some (u16 (Z.lor (Z.lor (Z.lor (Z.shiftl a 12) (Z.shiftl b 8)) (Z.shiftl c 4)) d)).
(** The width of the escape at [index] and the unit it stands for. *)
Definition mal_uri_unescape_at (units : MalStringSegment) (index : Z) : Z * Z :=
  let length := seg_length units in
  let unit := mal_uri_unit units index in
  match (if (unit =? 37) && (index + 5 <? length) && (mal_uri_unit units (index + 1) =? 117) then mal_uri_hex_quad units (index + 2) else None) with
  | Some out => (6, out)
  | None =>
      match (if (unit =? 37) && (index + 2 <? length) then mal_uri_hex_pair_at units (index + 1) else None) with
      | Some octet => (3, octet)
      | None => (1, unit)
      end
  end.

Fixpoint unescape_size (fuel : nat) (units : MalStringSegment) (i result_length : Z) (changed : bool) (widest : Z)
  : outcome (UriThrow + Z * bool * bool) :=
  match fuel with
  | O => NoFuel
  | S fuel =>
      if i <? seg_length units then
        let '(width, decoded) := mal_uri_unescape_at units i in
        unescape_size fuel units (i + width) (u64 (result_length - (width - 1))) (changed || negb (width =? 1)) (Z.lor widest decoded)
      else Ret (inr (result_length, changed, 0xFF <? widest))
  end.
Fixpoint unescape_write (fuel : nat) (units : MalStringSegment) (i : Z) (output : MalUriOutput) : outcome MalUriOutput :=
  match fuel with
  | O => NoFuel
  | S fuel =>
      if i <? seg_length units then
        let '(width, decoded) := mal_uri_unescape_at units i in
        output ← mal_uri_output_push output decoded;
        unescape_write fuel units (i + width) output
      else Ret output
  end.
Definition mal_builtin_uri_unescape_known (units : MalStringSegment) : outcome UriResult :=
  sized ← unescape_size (uri_fuel units) units 0 (seg_length units) false 0;
  write_result sized (unescape_write (uri_fuel units) units 0).
End Uri.
