(* ===== verification/UriSpec.v ===== *)
(** What the functions of Uri compute. First the two passes every one of them makes over its
    input, once for all: a step reads some units at a position and says what they become.
    Then the character sets of ECMA-262, written out from the standard, with the proof that
    the code's tests decide them; the texts of encodeURI, encodeURIComponent and escape, and the grammars of the
    text that decodeURI, decodeURIComponent and unescape read. *)

From Stdlib Require Ascii String.
From S2P Require Import Prelude CheckedSize HeapString HeapStringSpec Base64 Utf UtfSpec Uri.
Import String.StringSyntax.
#[local] Open Scope string_scope.
#[local] Open Scope Z_scope.

(** What a step yields: the units read, the units they become, whether that is a change. *)
Record piece : Type := mkPiece { pc_width : Z; pc_out : list Z; pc_changed : bool }.

Definition is_wide (text : list Z) : bool := existsb (fun u => 0xFF <? u) text.
(** What an output in the narrow encoding keeps of its units. *)
Definition stored (wide : bool) (text : list Z) : list Z := if wide then text else map u8 text.

Section pass.
Variable len : Z.
Variable step : Z -> option piece.

(** The text the input from [k] on becomes, and whether it changed. *)
Fixpoint pass_text (fuel : nat) (k : Z) : option (list Z * bool) :=
  match fuel with
  | O => None
  | S fuel =>
      if k <? len then
        p ← step k;
        '(text, changed) ← pass_text fuel (k + pc_width p);
        Some (pc_out p ++ text, pc_changed p || changed)
      else Some ([], false)
  end.
(** Where the walk from [k] stops for want of a step, and the text up to there. *)
Fixpoint pass_stop (fuel : nat) (k : Z) : option (Z * list Z) :=
  match fuel with
  | O => None
  | S fuel =>
      if k <? len then
        match step k with
        | None => Some (k, [])
        | Some p => '(j, text) ← pass_stop fuel (k + pc_width p); Some (j, pc_out p ++ text)
        end
      else None
  end.
Fixpoint pass_size (fuel : nat) (k result_length : Z) (changed wide : bool) : outcome (UriThrow + Z * bool * bool) :=
  match fuel with
  | O => NoFuel
  | S fuel =>
      if k <? len then
        match step k with
        | None => Ret (inl ThrowUriError)
        | Some (mkPiece width out ch) =>
            let result_length := result_length + (arr_len out - width) in
            if MAL_STRING_MAX_CODE_UNITS <? result_length then Ret (inl ThrowRangeError)
            else pass_size fuel (k + width) result_length (changed || ch) (wide || is_wide out)
        end
      else Ret (inr (result_length, changed, wide))
  end.
Fixpoint pass_write (fuel : nat) (k : Z) (output : MalUriOutput) : outcome MalUriOutput :=
  match fuel with
  | O => NoFuel
  | S fuel =>
      if k <? len then
        match step k with
        | None => Abort
        | Some (mkPiece width out _) => output ← push_all output out; pass_write fuel (k + width) output
        end
      else Ret output
  end.
End pass.

(** * Writing *)

Lemma output_push_ok data offset wide unit :
  0 <= offset < arr_len data -> arr_len data < 2 ^ 63 ->
  mal_uri_output_push (mkOutput data offset wide) unit = Ret (mkOutput (arr_set data offset (if wide then unit else u8 unit)) (offset + 1) wide).
Proof.
  intros Ho Hl. cbn. destruct (Z.leb_spec 0 offset); [|lia]. destruct (Z.ltb_spec offset (arr_len data)); [|lia]. cbn.
  unfold u64. rewrite wrap_small; [done|]. unfold in_u. lia.
Qed.
Lemma push_all_app output a b : push_all output (a ++ b) = (output ← push_all output a; push_all output b).
Proof.
  revert output. induction a as [|u a IH]; intros output; cbn; [done|]. destruct (mal_uri_output_push output u); cbn; [apply IH|done|done].
Qed.
(** Pushes fill the output from its front. *)
Lemma push_all_ok units : forall pre rest wide,
  arr_len (pre ++ rest) < 2 ^ 63 -> arr_len units <= arr_len rest ->
  push_all (mkOutput (pre ++ rest) (arr_len pre) wide) units
  = Ret (mkOutput (pre ++ stored wide units ++ drop (length units) rest) (arr_len pre + arr_len units) wide).
Proof.
  induction units as [|u units IH]; intros pre rest wide Hb Hl; cbn [push_all length].
  { cbn [drop]. rewrite Z.add_0_r. by destruct wide. }
  destruct rest as [|x rest]; [unfold arr_len in Hl; cbn in Hl; lia|]. pose proof (arr_len_nonneg pre).
  rewrite output_push_ok by (rewrite arr_len_app in *; unfold arr_len in *; cbn in *; lia). cbn [mbind outcome_bind].
  set (v := if wide then u else u8 u).
  assert (arr_set (pre ++ x :: rest) (arr_len pre) v = (pre ++ [v]) ++ rest) as ->.
  { unfold arr_set, arr_len. rewrite Nat2Z.id, insert_app_r_alt, Nat.sub_diag by lia. by rewrite <- app_assoc. }
  assert (arr_len pre + 1 = arr_len (pre ++ [v])) as -> by (by rewrite arr_len_app).
  rewrite IH; [|rewrite !arr_len_app in *; unfold arr_len in *; cbn in *; lia|unfold arr_len in *; cbn in *; lia]. do 2 f_equal.
  - rewrite <- !app_assoc. cbn. subst v. by destruct wide.
  - rewrite arr_len_app. unfold arr_len. cbn [length]. lia.
Qed.
Lemma push_full text wide data :
  arr_len data = arr_len text -> arr_len data < 2 ^ 63 ->
  push_all (mkOutput data 0 wide) text = Ret (mkOutput (stored wide text) (arr_len text) wide).
Proof.
  intros El Hb. pose proof (push_all_ok text [] data wide Hb ltac:(lia)) as E. change (arr_len []) with 0 in E. cbn [app] in E.
  rewrite E, drop_ge by (unfold arr_len in El; lia).
  by rewrite app_nil_r.
Qed.
Lemma write_octets_push output octets :
  write_octets output octets = push_all output (flat_map (fun b => [37; hex_digit (Z.shiftr b 4); hex_digit b]) octets).
Proof.
  revert output. induction octets as [|b octets IH]; intros output; [done|]. cbn [flat_map]. rewrite push_all_app. cbn [write_octets push_all].
  unfold mal_uri_write_octet. destruct (mal_uri_output_push output 37) as [o1| |]; [|done|done]. cbn [mbind outcome_bind].
  destruct (mal_uri_output_push o1 _) as [o2| |]; [|done|done]. cbn [mbind outcome_bind].
  destruct (mal_uri_output_push o2 _) as [o3| |]; [|done|done]. cbn [mbind outcome_bind]. apply IH.
Qed.
Lemma stored_exact text : Forall (in_u 16) text -> stored (is_wide text) text = text.
Proof.
  intros Hf. unfold stored. destruct (is_wide text) eqn:E; [done|]. unfold is_wide in E. rewrite <- (map_id text) at 2. apply map_ext_in.
  intros u Hu. unfold u8. apply wrap_small. rewrite <- not_true_iff_false, existsb_exists in E. rewrite Forall_forall in Hf.
  specialize (Hf u ltac:(by apply list_elem_of_In)). unfold in_u in *. destruct (Z.lt_ge_cases 0xFF u); [|lia].
  exfalso. apply E. exists u. split; [done|]. lia.
Qed.
Lemma is_wide_app a b : is_wide (a ++ b) = is_wide a || is_wide b.
Proof. apply existsb_app. Qed.

(** * The passes agree *)

Section passes.
Variable len : Z.
Variable step : Z -> option piece.
Hypothesis step_width : forall k p, 0 <= k < len -> step k = Some p -> 1 <= pc_width p /\ k + pc_width p <= len.

Abbreviation text := (pass_text len step).

Lemma pass_write_text fuel : forall k t ch output,
  text fuel k = Some (t, ch) -> pass_write len step fuel k output = push_all output t.
Proof using Type.
  induction fuel as [|fuel IH]; intros k t ch output E; cbn [pass_text pass_write] in *; [done|].
  destruct (k <? len); [|by simplify_eq]. destruct (step k) as [[w out c]|]; cbn in E; [|done].
  destruct (text fuel (k + w)) as [[t' ch']|] eqn:Et; cbn in E; simplify_eq. rewrite push_all_app.
  destruct (push_all output out); cbn [mbind outcome_bind]; [by eapply IH|done|done].
Qed.

(** Sizing, when no step changes the length past the limit. *)
Lemma size_text fuel : forall k rl ch0 w0,
  0 <= k <= len -> (Z.to_nat (len - k) < fuel)%nat ->
  match text fuel k with
  | Some (t, ch) =>
      pass_size len step fuel k rl ch0 w0 = Ret (inr (rl + (arr_len t - (len - k)), ch0 || ch, w0 || is_wide t)) \/
      pass_size len step fuel k rl ch0 w0 = Ret (inl ThrowRangeError)
  | None => pass_size len step fuel k rl ch0 w0 = Ret (inl ThrowUriError) \/ pass_size len step fuel k rl ch0 w0 = Ret (inl ThrowRangeError)
  end.
Proof using step_width.
  induction fuel as [|fuel IH]; intros k rl ch0 w0 Hk Hf; [lia|]. cbn [pass_text pass_size]. destruct (Z.ltb_spec k len).
  - destruct (step k) as [[w out c]|] eqn:Es; cbn; [|by left]. destruct (step_width k _ ltac:(lia) Es) as [Hw1 Hw2]. cbn in Hw1, Hw2.
    specialize (IH (k + w) (rl + (arr_len out - w)) (ch0 || c) (w0 || is_wide out) ltac:(lia) ltac:(lia)).
    destruct (text fuel (k + w)) as [[t' ch']|]; cbn; destruct (_ <? _); auto. rewrite arr_len_app, is_wide_app, !orb_assoc.
    destruct IH as [->| ->]; [left; do 4 f_equal; lia|by right].
  - left. cbn. rewrite !orb_false_r. do 4 f_equal. unfold arr_len. cbn. lia.
Qed.

(** Steps that change the length in one direction: the units are copied, or become
    more ([sgn] 1) or fewer (-1). *)
Variable us : list Z.
Hypothesis Hlen : len = arr_len us.
Definition drifts (sgn : Z) : Prop :=
  forall k p, 0 <= k < len -> step k = Some p ->
    if pc_changed p then 0 < sgn * (arr_len (pc_out p) - pc_width p) else pc_out p = slice us k (pc_width p).
Lemma drift_length sgn k p :
  drifts sgn -> 0 <= k < len -> step k = Some p -> 0 <= sgn * (arr_len (pc_out p) - pc_width p).
Proof using step_width Hlen.
  intros Hd Hk Es. destruct (step_width k p Hk Es). specialize (Hd k p Hk Es). destruct (pc_changed p); [lia|].
  rewrite Hd, slice_len by lia. lia.
Qed.

Lemma size_no_range fuel : forall k rl ch0 w0,
  drifts (-1) -> 0 <= k <= len -> rl <= MAL_STRING_MAX_CODE_UNITS -> pass_size len step fuel k rl ch0 w0 <> Ret (inl ThrowRangeError).
Proof using step_width Hlen.
  intros k rl ch0 w0 Hs. revert k rl ch0 w0. induction fuel as [|fuel IH]; intros k rl ch0 w0 Hk Hrl; cbn [pass_size]; [done|].
  destruct (Z.ltb_spec k len); [|done]. destruct (step k) as [[w out c]|] eqn:Es; [|done].
  destruct (step_width k _ ltac:(lia) Es) as [Hw1 Hw2]. pose proof (drift_length _ k _ Hs ltac:(lia) Es) as Ho. cbn [pc_width pc_out] in *.
  destruct (Z.ltb_spec MAL_STRING_MAX_CODE_UNITS (rl + (arr_len out - w))); [lia|]. apply IH; lia.
Qed.
Lemma pass_size_range fuel : forall k rl ch0 w0 t ch,
  drifts 1 -> 0 <= k <= len -> text fuel k = Some (t, ch) -> rl <= MAL_STRING_MAX_CODE_UNITS ->
  pass_size len step fuel k rl ch0 w0 = Ret (inl ThrowRangeError) <-> MAL_STRING_MAX_CODE_UNITS < rl + (arr_len t - (len - k)).
Proof using step_width Hlen.
  intros k rl ch0 w0 t ch Hg. revert k rl ch0 w0 t ch.
  assert (forall fuel k t ch, 0 <= k <= len -> text fuel k = Some (t, ch) -> len - k <= arr_len t) as Hgrow.
  { clear fuel. induction fuel as [|fuel IH]; intros k t ch Hk E; cbn [pass_text] in E; [done|].
    destruct (Z.ltb_spec k len); [|simplify_eq; unfold arr_len; cbn; lia]. destruct (step k) as [p|] eqn:Es; cbn in E; [|done].
    destruct (step_width k _ ltac:(lia) Es) as [Hw1 Hw2]. pose proof (drift_length _ k p Hg ltac:(lia) Es).
    destruct (text fuel _) as [[t' ch']|] eqn:Et; cbn in E; simplify_eq. apply IH in Et; [|lia]. rewrite arr_len_app. lia. }
  induction fuel as [|fuel IH]; intros k rl ch0 w0 t ch Hk E Hrl; cbn [pass_text pass_size] in *; [done|].
  destruct (Z.ltb_spec k len); [|simplify_eq; split; [done|unfold arr_len; cbn; lia]].
  destruct (step k) as [[w out c]|] eqn:Es; cbn in E; [|done]. destruct (step_width k _ ltac:(lia) Es) as [Hw1 Hw2]. cbn in Hw1, Hw2.
  destruct (text fuel (k + w)) as [[t' ch']|] eqn:Et; cbn in E; simplify_eq. pose proof (Hgrow fuel (k + w) t' ch' ltac:(lia) Et). rewrite arr_len_app.
  destruct (Z.ltb_spec MAL_STRING_MAX_CODE_UNITS (rl + (arr_len out - w))).
  - split; [lia|done].
  - rewrite (IH (k + w) _ _ _ t' ch') by (done || lia). lia.
Qed.

(** A walk that stops has failed for length by then, or fails at the stop. *)
Lemma stop_grows fuel : forall k j t, drifts 1 -> 0 <= k <= len -> pass_stop len step fuel k = Some (j, t) -> j - k <= arr_len t.
Proof using step_width Hlen.
  intros k j t Hg. revert k j t. induction fuel as [|fuel IH]; intros k j t Hk E; cbn [pass_stop] in E; [done|].
  destruct (Z.ltb_spec k len); [|done]. destruct (step k) as [p|] eqn:Es; [|simplify_eq; unfold arr_len; cbn; lia].
  destruct (step_width k _ ltac:(lia) Es) as [Hw1 Hw2]. pose proof (drift_length _ k p Hg ltac:(lia) Es).
  destruct (pass_stop _ _ fuel _) as [[j' t']|] eqn:Et; cbn in E; simplify_eq. apply IH in Et; [|lia]. rewrite arr_len_app. lia.
Qed.
Lemma stop_size fuel : forall k rl ch0 w0 j t,
  drifts 1 -> 0 <= k <= len -> pass_stop len step fuel k = Some (j, t) -> rl <= MAL_STRING_MAX_CODE_UNITS ->
  pass_size len step fuel k rl ch0 w0
  = Ret (inl (if MAL_STRING_MAX_CODE_UNITS <? rl + (arr_len t - (j - k)) then ThrowRangeError else ThrowUriError)).
Proof using step_width Hlen.
  intros k rl ch0 w0 j t Hg. revert k rl ch0 w0 j t.
  induction fuel as [|fuel IH]; intros k rl ch0 w0 j t Hk E Hrl; cbn [pass_stop pass_size] in *; [done|].
  destruct (Z.ltb_spec k len); [|done]. destruct (step k) as [[w out c]|] eqn:Es; cycle 1.
  { simplify_eq. unfold arr_len. cbn [length]. destruct (Z.ltb_spec MAL_STRING_MAX_CODE_UNITS (rl + (Z.of_nat 0 - (j - j)))); [lia|done]. }
  destruct (step_width k _ ltac:(lia) Es) as [Hw1 Hw2]. cbn [pc_width pc_out] in *.
  destruct (pass_stop _ _ fuel (k + w)) as [[j' t']|] eqn:Et; cbn in E; simplify_eq.
  pose proof (stop_grows fuel (k + w) j t' Hg ltac:(lia) Et). rewrite arr_len_app.
  destruct (Z.ltb_spec MAL_STRING_MAX_CODE_UNITS (rl + (arr_len out - w))).
  - by destruct (Z.ltb_spec MAL_STRING_MAX_CODE_UNITS (rl + (arr_len out + arr_len t' - (j - k)))); [|lia].
  - rewrite (IH (k + w) _ _ _ j t') by (done || lia). by replace (rl + (arr_len out - w) + (arr_len t' - (j - (k + w)))) with (rl + (arr_len out + arr_len t' - (j - k))) by lia.
Qed.

(** A growth of at most ninefold stays within the limit on short input. *)
Lemma size_short fuel : forall k rl ch0 w0,
  (forall k p, 0 <= k < len -> step k = Some p -> arr_len (pc_out p) <= 9 * pc_width p) ->
  0 <= k <= len -> rl + 8 * (len - k) <= MAL_STRING_MAX_CODE_UNITS -> pass_size len step fuel k rl ch0 w0 <> Ret (inl ThrowRangeError).
Proof using step_width.
  intros k rl ch0 w0 H9. revert k rl ch0 w0. induction fuel as [|fuel IH]; intros k rl ch0 w0 Hk Hrl; cbn [pass_size]; [done|].
  destruct (Z.ltb_spec k len); [|done]. destruct (step k) as [[w out c]|] eqn:Es; [|done].
  destruct (step_width k _ ltac:(lia) Es) as [Hw1 Hw2]. pose proof (H9 k _ ltac:(lia) Es) as Ho. cbn [pc_width pc_out] in *.
  destruct (Z.ltb_spec MAL_STRING_MAX_CODE_UNITS (rl + (arr_len out - w))); [lia|]. apply IH; lia.
Qed.

(** The change flag tells whether the text is the input. *)
Lemma drop_slice k w : 0 <= k -> 0 <= w -> drop (Z.to_nat k) us = slice us k w ++ drop (Z.to_nat (k + w)) us.
Proof using Type.
  intros Hk Hw. unfold slice. rewrite Z2Nat.inj_add, <- drop_drop by lia. by rewrite take_drop.
Qed.
Lemma text_drift sgn fuel : forall k t ch,
  drifts sgn -> 0 <= k <= len -> text fuel k = Some (t, ch) ->
  0 <= sgn * (arr_len t - (len - k)) /\ if ch : bool then 0 < sgn * (arr_len t - (len - k)) else t = drop (Z.to_nat k) us.
Proof using step_width Hlen.
  intros k t ch Hd. revert k t ch. induction fuel as [|fuel IH]; intros k t ch Hk E; cbn [pass_text] in E; [done|]. destruct (Z.ltb_spec k len).
  - destruct (step k) as [p|] eqn:Es; cbn in E; [|done]. destruct (step_width k p ltac:(lia) Es) as [Hw1 Hw2].
    destruct (text fuel _) as [[t' ch']|] eqn:Et; cbn in E; simplify_eq. apply IH in Et as [Hle Ht]; [|lia]. rewrite arr_len_app.
    replace (arr_len (pc_out p) + arr_len t' - (len - k)) with ((arr_len (pc_out p) - pc_width p) + (arr_len t' - (len - (k + pc_width p)))) by lia.
    rewrite Z.mul_add_distr_l. pose proof (drift_length sgn k p Hd ltac:(lia) Es). pose proof (Hd k p ltac:(lia) Es) as Hp. split; [lia|].
    destruct (pc_changed p); cbn [orb]; [lia|]. destruct ch'; [lia|]. rewrite Ht, Hp. symmetry. apply drop_slice; lia.
  - simplify_eq. assert (k = len) as -> by lia. rewrite drop_end by lia. unfold arr_len at 1. cbn [length]. split; [|done]. replace (Z.of_nat 0 - (len - len)) with 0 by lia. lia.
Qed.
Lemma text_changed sgn fuel t ch :
  drifts sgn -> text fuel 0 = Some (t, ch) -> ch = negb (bool_decide (t = us)).
Proof using step_width Hlen.
  intros Hd E. pose proof (arr_len_nonneg us). destruct (text_drift sgn fuel 0 t ch Hd ltac:(lia) E) as [_ Ht].
  destruct ch; cbn in Ht; [|rewrite bool_decide_eq_true_2; done].
  rewrite bool_decide_eq_false_2; [done|]. intros ->. lia.
Qed.
End passes.

(** * The whole function *)

Section result.
Variable grant : Z -> bool.
Variable raw : Z -> Z.

(** The memory a text takes. *)
Definition text_bytes (t : list Z) : Z := (if is_wide t then 2 else 1) * arr_len t.
(** The result for a text: the argument, or a string of exactly the text. *)
Definition text_result (t : list Z) (changed : bool) : UriResult :=
  if negb changed then UriArgument
  else if grant (text_bytes t) then UriString (is_wide t) t else UriThrew ThrowAllocation.

Lemma write_result_ok t changed write :
  Forall (in_u 16) t -> arr_len t <= MAL_STRING_MAX_CODE_UNITS ->
  (forall output, write output = push_all output t) ->
  write_result grant raw (inr (arr_len t, changed, is_wide t)) write = Ret (text_result t changed).
Proof using Type.
  intros Hf Hl Hw. pose proof (arr_len_nonneg t). unfold MAL_STRING_MAX_CODE_UNITS, INT32_MAX in Hl. unfold write_result, text_result.
  destruct changed; [|done]. cbn [negb]. unfold mal_uri_output_alloc.
  rewrite checked_size_multiply_spec by (unfold in_u, SIZE_MAX; destruct (is_wide t); lia).
  destruct (Z.leb_spec ((if is_wide t then 2 else 1) * arr_len t) SIZE_MAX); [|unfold SIZE_MAX in *; destruct (is_wide t); lia].
  fold (text_bytes t). destruct (grant (text_bytes t)); [|done].
  assert (arr_len (map raw (seqZ 0 (arr_len t))) = arr_len t) as El by (unfold arr_len at 1; rewrite length_map, length_seqZ; lia).
  rewrite Hw, push_full by lia. cbn. unfold mal_uri_output_finish. cbn. rewrite Z.eqb_refl. cbn. by rewrite stored_exact.
Qed.

Context (us : list Z) (step : Z -> option piece) (fuel : nat).
Hypothesis Hus : arr_len us <= MAL_STRING_MAX_CODE_UNITS.
Hypothesis Hfuel : (length us < fuel)%nat.
Hypothesis step_width : forall k p, 0 <= k < arr_len us -> step k = Some p -> 1 <= pc_width p /\ k + pc_width p <= arr_len us.
Hypothesis step_units : forall k p, 0 <= k < arr_len us -> step k = Some p -> Forall (in_u 16) (pc_out p).

Definition pass_known : outcome UriResult :=
  sized ← pass_size (arr_len us) step fuel 0 (arr_len us) false false;
  write_result grant raw sized (pass_write (arr_len us) step fuel 0).

Lemma text_units n : forall k t ch, 0 <= k <= arr_len us -> pass_text (arr_len us) step n k = Some (t, ch) -> Forall (in_u 16) t.
Proof using Hfuel step_width step_units.
  induction n as [|n IH]; intros k t ch Hk E; cbn [pass_text] in E; [done|].
  destruct (Z.ltb_spec k (arr_len us)); [|simplify_eq; constructor]. destruct (step k) as [p|] eqn:Es; cbn in E; [|done].
  destruct (step_width k p ltac:(lia) Es) as [Hw1 Hw2]. destruct (pass_text _ _ n _) as [[t' ch']|] eqn:Et; cbn in E; simplify_eq.
  apply Forall_app. split; [apply (step_units k p); [lia|done]|]. eapply IH; [|done]. lia.
Qed.
Lemma known_text t ch sgn :
  drifts (arr_len us) step us sgn -> pass_text (arr_len us) step fuel 0 = Some (t, ch) -> arr_len t <= MAL_STRING_MAX_CODE_UNITS ->
  pass_size (arr_len us) step fuel 0 (arr_len us) false false <> Ret (inl ThrowRangeError) ->
  pass_known = Ret (text_result t (negb (bool_decide (t = us)))).
Proof using Hfuel step_width step_units.
  intros Hd E Hl Hr. pose proof (arr_len_nonneg us).
  pose proof (size_text _ _ step_width fuel 0 (arr_len us) false false ltac:(lia) ltac:(unfold arr_len; lia)) as Hs. rewrite E in Hs.
  unfold pass_known. destruct Hs as [Es|Es]; [|contradiction]. rewrite Es. cbn [mbind outcome_bind orb]. rewrite Z.sub_0_r.
  replace (arr_len us + (arr_len t - arr_len us)) with (arr_len t) by lia.
  rewrite <- (text_changed _ _ step_width us eq_refl sgn fuel t ch Hd E). apply write_result_ok; [|done|].
  - eapply text_units; [|exact E]. lia.
  - intros output. by apply (pass_write_text _ _ fuel 0 t ch).
Qed.

Lemma known_shrinking :
  drifts (arr_len us) step us (-1) ->
  pass_known = Ret (match pass_text (arr_len us) step fuel 0 with
                    | Some (t, _) => text_result t (negb (bool_decide (t = us)))
                    | None => UriThrew ThrowUriError
                    end).
Proof using Hus Hfuel step_width step_units.
  intros Hd. pose proof (arr_len_nonneg us).
  pose proof (size_no_range _ _ step_width us eq_refl fuel 0 (arr_len us) false false Hd ltac:(lia) Hus) as Hr.
  destruct (pass_text _ _ fuel 0) as [[t ch]|] eqn:E.
  - apply (known_text t ch (-1)); try done. destruct (text_drift _ _ step_width us eq_refl (-1) fuel 0 t ch Hd ltac:(lia) E). lia.
  - pose proof (size_text _ _ step_width fuel 0 (arr_len us) false false ltac:(lia) ltac:(unfold arr_len; lia)) as Hs. rewrite E in Hs.
    unfold pass_known. by destruct Hs as [->|Es].
Qed.
Lemma known_growing :
  drifts (arr_len us) step us 1 ->
  match pass_text (arr_len us) step fuel 0 with
  | Some (t, _) =>
      pass_known = Ret (if MAL_STRING_MAX_CODE_UNITS <? arr_len t then UriThrew ThrowRangeError else text_result t (negb (bool_decide (t = us))))
  | None =>
      pass_known = Ret (UriThrew ThrowUriError) \/
      (pass_known = Ret (UriThrew ThrowRangeError) /\ pass_size (arr_len us) step fuel 0 (arr_len us) false false = Ret (inl ThrowRangeError))
  end.
Proof using Hus Hfuel step_width step_units.
  intros Hd. pose proof (arr_len_nonneg us).
  pose proof (size_text _ _ step_width fuel 0 (arr_len us) false false ltac:(lia) ltac:(unfold arr_len; lia)) as Hs.
  destruct (pass_text _ _ fuel 0) as [[t ch]|] eqn:E.
  - pose proof (pass_size_range _ _ step_width us eq_refl fuel 0 (arr_len us) false false t ch Hd ltac:(lia) E Hus) as Hr.
    rewrite Z.sub_0_r in Hr. replace (arr_len us + (arr_len t - arr_len us)) with (arr_len t) in Hr by lia.
    destruct (Z.ltb_spec MAL_STRING_MAX_CODE_UNITS (arr_len t)) as [Hlt|Hle].
    + unfold pass_known. by rewrite (proj2 Hr Hlt).
    + apply (known_text t ch 1); try done. intros Hx%Hr. lia.
  - unfold pass_known. destruct Hs as [->| ->]; auto.
Qed.
Lemma known_stopping j t :
  drifts (arr_len us) step us 1 -> pass_stop (arr_len us) step fuel 0 = Some (j, t) ->
  pass_known = Ret (UriThrew (if MAL_STRING_MAX_CODE_UNITS <? arr_len t + (arr_len us - j) then ThrowRangeError else ThrowUriError)).
Proof using Hfuel Hus step_width.
  intros Hd E. pose proof (arr_len_nonneg us). unfold pass_known.
  rewrite (stop_size _ _ step_width us eq_refl fuel 0 (arr_len us) false false j t Hd ltac:(lia) E Hus). cbn [mbind outcome_bind].
  replace (arr_len us + (arr_len t - (j - 0))) with (arr_len t + (arr_len us - j)) by lia. by destruct (_ <? _).
Qed.
End result.

(** * The texts *)

Definition digit_text (n : Z) : Z := if n <? 10 then 48 + n else 55 + n.
Definition octet_text (b : Z) : list Z := [37; digit_text (b / 16); digit_text (b mod 16)].

(** ** The character sets of ECMA-262 *)

(** The units of an ASCII literal. *)
Definition units_of (s : String.string) : list Z := map (fun a => Z.of_N (Ascii.N_of_ascii a)) (String.list_ascii_of_string s).
Definition uri_alpha : list Z := units_of "ABCDEFGHIJKLMNOPQRSTUVWXYZabcdefghijklmnopqrstuvwxyz".
Definition decimal_digits : list Z := units_of "0123456789".
Definition uri_mark : list Z := units_of "-_.!~*'()".
Definition uri_reserved : list Z := units_of ";/?:@&=+$,".
(** What encodeURIComponent leaves alone, and encodeURI besides. *)
Definition uri_unescaped (component : bool) : list Z :=
  uri_alpha ++ decimal_digits ++ uri_mark ++ (if component then [] else uri_reserved ++ units_of "#").
(** What decodeURI leaves escaped. *)
Definition uri_preserved : list Z := uri_reserved ++ units_of "#".
(** What escape leaves alone (annex B). *)
Definition escape_plain : list Z := uri_alpha ++ decimal_digits ++ units_of "@*_+-./".

(** ECMA-262 Encode: the UTF-8 octets of each scalar outside the unescaped set; a lone
    surrogate has no encoding. *)
Definition escape_scalar (component : bool) (s : Z) : list Z :=
  if bool_decide (s ∈ uri_unescaped component) then [s] else flat_map octet_text (utf8_of s).
Definition encode_text (component : bool) (us : list Z) : option (list Z) :=
  if utf16_well_formed us then Some (flat_map (escape_scalar component) (utf16_scalars us)) else None.
(** ECMA-262 escape, unit by unit. *)
Definition escape_unit (u : Z) : list Z :=
  if bool_decide (u ∈ escape_plain) then [u]
  else if u <? 256 then octet_text u
  else [37; 117; digit_text (u / 4096); digit_text (u / 256 mod 16); digit_text (u / 16 mod 16); digit_text (u mod 16)].
Definition escape_text (us : list Z) : list Z := flat_map escape_unit us.

(** * Digits *)

Lemma hex_digit_text n : 0 <= n -> hex_digit n = digit_text (n mod 16).
Proof.
  intros Hn. unfold hex_digit. change 0x0F with (2 ^ 4 - 1). rewrite land_mask by lia. change (2 ^ 4) with 16.
  pose proof (Z.mod_pos_bound n 16 ltac:(lia)) as Hm. set (m := n mod 16) in *.
  assert (forallb (fun m => arr_get mal_uri_hex_digits m =? digit_text m) (seqZ 0 16) = true) as Hall by (by vm_compute).
  rewrite forallb_forall in Hall. apply Z.eqb_eq, Hall, list_elem_of_In, elem_of_seqZ. lia.
Qed.
Lemma digit_ascii n : 0 <= n < 16 -> 48 <= digit_text n < 71.
Proof. unfold digit_text. intros. destruct (Z.ltb_spec n 10); lia. Qed.
Lemma octet_written b : in_u 8 b -> [37; hex_digit (Z.shiftr b 4); hex_digit b] = octet_text b.
Proof.
  unfold in_u. intros Hb. unfold octet_text. rewrite !hex_digit_text by (rewrite ?Z.shiftr_div_pow2; Z.to_euclidean_division_equations; lia).
  rewrite Z.shiftr_div_pow2 by lia. change (2 ^ 4) with 16. rewrite (Z.mod_small (b / 16)) by (Z.to_euclidean_division_equations; lia). done.
Qed.
Definition ascii (u : Z) : Prop := 0 <= u < 128.
Lemma octet_ascii b : in_u 8 b -> Forall ascii (octet_text b).
Proof.
  unfold in_u. intros Hb. pose proof (digit_ascii (b / 16) ltac:(Z.to_euclidean_division_equations; lia)).
  pose proof (digit_ascii (b mod 16) ltac:(Z.to_euclidean_division_equations; lia)). repeat constructor; unfold ascii; lia.
Qed.
Lemma octets_ascii bs : Forall (in_u 8) bs -> Forall ascii (flat_map octet_text bs).
Proof. induction 1 as [|b bs Hb _ IH]; cbn [flat_map]; [constructor|]. apply Forall_app. split; [by apply octet_ascii|done]. Qed.
Lemma ascii_narrow t : Forall ascii t -> is_wide t = false.
Proof.
  intros Hf. apply not_true_iff_false. unfold is_wide. rewrite existsb_exists. intros (u & Hu & Hw).
  rewrite Forall_forall in Hf. specialize (Hf u ltac:(by apply list_elem_of_In)). unfold ascii in Hf. lia.
Qed.
Lemma ascii_units t : Forall ascii t -> Forall (in_u 16) t.
Proof. intros Hf. eapply Forall_impl; [exact Hf|]. intros u. unfold ascii, in_u. lia. Qed.
Lemma unescaped_ascii c component : mal_uri_encode_unescaped c component = true -> ascii c /\ c <> 37.
Proof.
  unfold mal_uri_encode_unescaped, mal_uri_is_unreserved, is_alphanumeric, mal_uri_is_reserved_or_hash, is_any, existsb, ascii. lia.
Qed.
Lemma escape_unescaped_ascii c : mal_uri_escape_unescaped c = true -> ascii c /\ c <> 37.
Proof. unfold mal_uri_escape_unescaped, is_alphanumeric, is_any, existsb, ascii. lia. Qed.

(** The tests of the code decide these sets. *)
Lemma set_decided (test : Z -> bool) (set : list Z) :
  (forall c, test c = true -> ascii c) -> forallb (fun c => (0 <=? c) && (c <? 128)) set = true ->
  forallb (fun c => Bool.eqb (test c) (existsb (Z.eqb c) set)) (seqZ 0 128) = true -> forall c, bool_decide (c ∈ set) = test c.
Proof.
  intros Ht Hs Hall c. rewrite forallb_forall in Hs, Hall.
  assert (bool_decide (c ∈ set) = existsb (Z.eqb c) set) as ->.
  { apply eq_true_iff_eq. rewrite bool_decide_eq_true, existsb_exists. split.
    - intros Hc%list_elem_of_In. exists c. split; [done|apply Z.eqb_refl].
    - intros (x & Hx & ->%Z.eqb_eq). by apply list_elem_of_In. }
  destruct (decide (0 <= c < 128)) as [Hc|Hc].
  - symmetry. apply eqb_prop, Hall, list_elem_of_In, elem_of_seqZ. lia.
  - destruct (test c) eqn:E; [by apply Ht in E|]. apply not_true_iff_false. rewrite existsb_exists. intros (x & Hx & ->%Z.eqb_eq).
    specialize (Hs x Hx). lia.
Qed.
Lemma unescaped_decided component c : bool_decide (c ∈ uri_unescaped component) = mal_uri_encode_unescaped c component.
Proof.
  apply (set_decided (fun c => mal_uri_encode_unescaped c component)); [intros x Hx; by apply unescaped_ascii in Hx as [? _]|..]; by destruct component; vm_compute.
Qed.
Lemma reserved_ascii s : mal_uri_is_reserved_or_hash s = true -> ascii s.
Proof. unfold mal_uri_is_reserved_or_hash, is_any, existsb, ascii. lia. Qed.
Lemma preserved_decided c : bool_decide (c ∈ uri_preserved) = mal_uri_is_reserved_or_hash c.
Proof. apply set_decided; [apply reserved_ascii|by vm_compute|by vm_compute]. Qed.
Lemma escape_plain_decided c : bool_decide (c ∈ escape_plain) = mal_uri_escape_unescaped c.
Proof. apply set_decided; [intros x Hx; by apply escape_unescaped_ascii in Hx as [? _]|by vm_compute|by vm_compute]. Qed.

Lemma utf8_bytes s : is_scalar s -> Forall (in_u 8) (utf8_of s).
Proof.
  intros Hs. unfold utf8_of, is_scalar, in_u in *.
  destruct (Z.ltb_spec s 0x80); [|destruct (Z.ltb_spec s 0x800); [|destruct (Z.ltb_spec s 0x10000)]];
    repeat constructor; Z.to_euclidean_division_equations; lia.
Qed.
Lemma octets_of_scalar s : is_scalar s -> octets_of s = utf8_of s /\ utf8_length s = arr_len (utf8_of s).
Proof.
  intros Hs. destruct (write_scalar_eq s Hs) as [<- ->]. unfold octets_of, utf8_length, mal_utf8_write_scalar, mal_utf8_scalar_width.
  destruct (Z.leb_spec s 0x7F), (Z.ltb_spec s 0x80); try lia; [done|].
  destruct (Z.leb_spec s 0x7FF), (Z.ltb_spec s 0x800); try lia; [done|].
  destruct (Z.leb_spec s 0xFFFF), (Z.ltb_spec s 0x10000); try lia; done.
Qed.
Lemma utf8_of_short s : in_u 16 s -> arr_len (utf8_of s) <= 3.
Proof.
  unfold in_u, utf8_of. intros Hs. destruct (Z.ltb_spec s 0x80); [|destruct (Z.ltb_spec s 0x800); [|destruct (Z.ltb_spec s 0x10000); [|lia]]];
    unfold arr_len; cbn [length]; lia.
Qed.
Lemma octets_length bs : arr_len (flat_map octet_text bs) = 3 * arr_len bs.
Proof. induction bs as [|b bs IH]; [done|]. cbn [flat_map]. rewrite arr_len_app, IH. unfold arr_len. cbn [length octet_text]. lia. Qed.
Lemma octets_written bs :
  Forall (in_u 8) bs -> flat_map (fun b => [37; hex_digit (Z.shiftr b 4); hex_digit b]) bs = flat_map octet_text bs.
Proof. induction 1 as [|b bs Hb _ IH]; [done|]. cbn [flat_map]. by rewrite IH, <- octet_written. Qed.

Lemma length_add_spec rl extra :
  0 <= rl <= MAL_STRING_MAX_CODE_UNITS -> 0 <= extra < 2 ^ 32 ->
  mal_uri_result_length_add rl extra = if MAL_STRING_MAX_CODE_UNITS <? rl + extra then inl ThrowRangeError else inr (rl + extra).
Proof.
  unfold MAL_STRING_MAX_CODE_UNITS, INT32_MAX. intros Hrl He. unfold mal_uri_result_length_add.
  rewrite checked_size_add_spec by (unfold in_u, MAL_STRING_MAX_CODE_UNITS, INT32_MAX; lia). unfold MAL_STRING_MAX_CODE_UNITS, INT32_MAX.
  destruct (Z.leb_spec (rl + extra) (2 ^ 31 - 1)), (Z.ltb_spec (2 ^ 31 - 1) (rl + extra)); done || lia.
Qed.

(** * Suffixes *)

Lemma wf_single a tl :
  (forall b rest, tl = b :: rest -> mal_utf16_is_pair a b = false) ->
  utf16_well_formed (a :: tl) = negb (mal_utf16_is_surrogate a) && utf16_well_formed tl /\
  utf16_scalars (a :: tl) = lone a :: utf16_scalars tl.
Proof.
  intros Hp. destruct tl as [|b rest]; [by cbn; rewrite andb_true_r|]. specialize (Hp b rest eq_refl).
  rewrite utf16_scalars_cons2, Hp. cbn [utf16_well_formed]. by rewrite Hp.
Qed.
Lemma lone_plain a : mal_utf16_is_surrogate a = false -> lone a = a.
Proof. unfold lone. by intros ->. Qed.
Lemma ascii_no_pair a b : ascii a -> mal_utf16_is_surrogate a = false /\ mal_utf16_is_pair a b = false.
Proof. unfold ascii. unfold_tests. lia. Qed.

(** * The input *)

Section input.
Context (seg : MalStringSegment) (us : list Z).
Hypothesis Hseg : seg_ok seg us.

Lemma seg_len : seg_length seg = arr_len us.
Proof using Hseg. apply Hseg. Qed.
Lemma uri_unit k : 0 <= k < arr_len us -> mal_uri_unit seg k = arr_get us k.
Proof using Hseg.
  intros Hk. destruct Hseg as [Hl Hu _ _]. unfold slice in Hu. cbn in Hu. rewrite drop_0 in Hu. unfold mal_uri_unit.
  symmetry. rewrite <- Hu. apply arr_get_of_lookup. rewrite lookup_take_lt by lia. apply arr_get_lookup. split; [lia|].
  apply (f_equal arr_len) in Hu. unfold arr_len in *. rewrite length_take in Hu. lia.
Qed.
Lemma us_unit k : 0 <= k < arr_len us -> in_u 16 (arr_get us k).
Proof using Hseg. intros Hk. destruct Hseg as [_ _ Hr _]. rewrite Forall_lookup in Hr. apply (Hr (Z.to_nat k)), arr_get_lookup. lia. Qed.

Lemma uri_read_scalar k :
  0 <= k < arr_len us ->
  mal_uri_read_scalar seg k =
    match drop (Z.to_nat (k + 1)) us with
    | b :: _ => if mal_utf16_is_pair (arr_get us k) b then (true, mal_utf16_compose_pair (arr_get us k) b, 2)
                else (negb (mal_utf16_is_surrogate (arr_get us k)), arr_get us k, 1)
    | [] => (negb (mal_utf16_is_surrogate (arr_get us k)), arr_get us k, 1)
    end.
Proof using Hseg.
  intros Hk. unfold mal_uri_read_scalar. fold (mal_uri_unit seg k). rewrite (uri_unit k Hk). destruct (seg_latin1 seg) eqn:El.
  - assert (in_u 8 (arr_get us k)) as Hb.
    { destruct Hseg as [_ _ _ H8]. specialize (H8 El). rewrite Forall_lookup in H8. apply (H8 (Z.to_nat k)), arr_get_lookup. lia. }
    assert (mal_utf16_is_surrogate (arr_get us k) = false /\ forall b, mal_utf16_is_pair (arr_get us k) b = false) as [-> Hp]
      by (unfold in_u in Hb; unfold_tests; split; [lia|intros; lia]).
    destruct (drop _ us) as [|b rest]; [done|]. by rewrite Hp.
  - unfold mal_utf16_read_scalar, mal_utf16_code_point_width. fold (mal_uri_unit seg k) (mal_uri_unit seg (k + 1)). rewrite seg_len, (uri_unit k Hk).
    destruct (Z.ltb_spec (k + 1) (arr_len us)) as [Hlt|Hge].
    + rewrite (drop_get_cons us (k + 1)), (uri_unit (k + 1)) by lia. cbn [andb]. by destruct (mal_utf16_is_pair _ _).
    + by rewrite drop_end by lia.
Qed.

(** ** encodeURI *)

Section encode.
Variable component : bool.
Definition encode_step (k : Z) : option piece :=
  let c := mal_uri_unit seg k in
  if mal_uri_encode_unescaped c component then Some (mkPiece 1 [c] false)
  else
    let '(ok, code_point, width) := mal_uri_read_scalar seg k in
    if negb (ok : bool) then None
    else Some (mkPiece width (flat_map (fun b => [37; hex_digit (Z.shiftr b 4); hex_digit b]) (octets_of code_point)) true).

(** The cases of a step: a unit of the set, a pair, another unit, a lone surrogate. *)
Inductive encode_view (k : Z) : option piece -> Prop :=
  | EvPlain : mal_uri_encode_unescaped (arr_get us k) component = true -> encode_view k (Some (mkPiece 1 [arr_get us k] false))
  | EvPair b rest s :
      drop (Z.to_nat (k + 1)) us = b :: rest -> mal_utf16_is_pair (arr_get us k) b = true -> s = mal_utf16_compose_pair (arr_get us k) b ->
      encode_view k (Some (mkPiece 2 (flat_map octet_text (utf8_of s)) true))
  | EvUnit :
      mal_uri_encode_unescaped (arr_get us k) component = false -> mal_utf16_is_surrogate (arr_get us k) = false ->
      encode_view k (Some (mkPiece 1 (flat_map octet_text (utf8_of (arr_get us k))) true))
  | EvLone :
      mal_utf16_is_surrogate (arr_get us k) = true ->
      (forall b rest, drop (Z.to_nat (k + 1)) us = b :: rest -> mal_utf16_is_pair (arr_get us k) b = false) -> encode_view k None.

Lemma pair_scalar a b : mal_utf16_is_pair a b = true -> is_scalar (mal_utf16_compose_pair a b).
Proof using Type. intros Hp. destruct (compose_pair_eq a b Hp). right. lia. Qed.
Lemma unit_scalar u : in_u 16 u -> mal_utf16_is_surrogate u = false -> is_scalar u.
Proof using Type. unfold in_u, is_scalar. unfold_tests. lia. Qed.
Lemma octets_of_text s : is_scalar s -> flat_map (fun b => [37; hex_digit (Z.shiftr b 4); hex_digit b]) (octets_of s) = flat_map octet_text (utf8_of s).
Proof using Type. intros Hs. destruct (octets_of_scalar s Hs) as [-> _]. by apply octets_written, utf8_bytes. Qed.

Lemma encode_step_view k : 0 <= k < arr_len us -> encode_view k (encode_step k).
Proof using Hseg.
  intros Hk. unfold encode_step. rewrite (uri_unit k Hk). destruct (mal_uri_encode_unescaped _ _) eqn:Eu; [by constructor|].
  rewrite (uri_read_scalar k Hk). pose proof (us_unit k Hk) as Hu.
  assert ((forall b rest, drop (Z.to_nat (k + 1)) us = b :: rest -> mal_utf16_is_pair (arr_get us k) b = false) ->
    encode_view k (if negb (negb (mal_utf16_is_surrogate (arr_get us k))) then None
                   else Some (mkPiece 1 (flat_map (fun b => [37; hex_digit (Z.shiftr b 4); hex_digit b]) (octets_of (arr_get us k))) true))) as Hone.
  { intros Hp. rewrite negb_involutive. destruct (mal_utf16_is_surrogate (arr_get us k)) eqn:Es; [by constructor|].
    rewrite octets_of_text by (by apply unit_scalar). by apply EvUnit. }
  destruct (drop (Z.to_nat (k + 1)) us) as [|b rest] eqn:Ed; [apply Hone; done|].
  destruct (mal_utf16_is_pair (arr_get us k) b) eqn:Ep.
  - cbn [negb]. rewrite octets_of_text by (by apply pair_scalar). by eapply EvPair.
  - apply Hone. intros b' rest' [= <- <-]. done.
Qed.

Lemma encode_step_props k p :
  0 <= k < arr_len us -> encode_step k = Some p ->
  1 <= pc_width p /\ k + pc_width p <= arr_len us /\ Forall ascii (pc_out p) /\ arr_len (pc_out p) <= 9 * pc_width p /\
  (if pc_changed p then 0 < 1 * (arr_len (pc_out p) - pc_width p) else pc_out p = slice us k (pc_width p)).
Proof using Hseg.
  intros Hk E. pose proof (us_unit k Hk) as Hu. pose proof (encode_step_view k Hk) as Hv. rewrite E in Hv.
  inversion Hv as [Hun|b rest s Hd Hp Es|Hun Hs|]; subst; cbn [pc_width pc_out pc_changed].
  - split; [lia|]. split; [lia|]. split; [constructor; [by eapply unescaped_ascii|constructor]|]. split; [unfold arr_len; cbn [length]; lia|].
    unfold slice. rewrite drop_get_cons by lia. done.
  - pose proof (drop_cons us (k + 1) b rest ltac:(lia) Hd) as (_ & Hlt & _). pose proof (utf8_bytes _ (pair_scalar _ _ Hp)).
    pose proof (utf8_of_len (mal_utf16_compose_pair (arr_get us k) b)). rewrite octets_length.
    split; [lia|]. split; [lia|]. split; [by apply octets_ascii|]. lia.
  - pose proof (utf8_bytes _ (unit_scalar _ Hu Hs)). rewrite octets_length.
    pose proof (utf8_of_len (arr_get us k)). pose proof (utf8_of_short _ Hu).
    split; [lia|]. split; [lia|]. split; [by apply octets_ascii|]. lia.
Qed.

Lemma encode_size_pass fuel : forall k rl ch,
  0 <= k <= arr_len us -> 0 <= rl <= MAL_STRING_MAX_CODE_UNITS ->
  encode_size fuel seg component k rl ch = pass_size (arr_len us) encode_step fuel k rl ch false.
Proof using Hseg.
  unfold MAL_STRING_MAX_CODE_UNITS, INT32_MAX.
  induction fuel as [|fuel IH]; intros k rl ch Hk Hrl; cbn [encode_size pass_size]; [done|]. rewrite seg_len.
  destruct (Z.ltb_spec k (arr_len us)); [|done]. pose proof (encode_step_props k) as Hp.
  pose proof (encode_step_view k ltac:(lia)) as Hv. unfold encode_step at 1 in Hp. unfold encode_step in Hv |- *.
  destruct (mal_uri_encode_unescaped _ _).
  { specialize (Hp _ ltac:(lia) eq_refl) as (_ & _ & Ha & _). cbn [pc_out] in Ha. rewrite (ascii_narrow _ Ha), orb_false_r.
    change (arr_len [mal_uri_unit seg k]) with 1. rewrite Z.sub_diag, Z.add_0_r.
    destruct (Z.ltb_spec MAL_STRING_MAX_CODE_UNITS rl); [unfold MAL_STRING_MAX_CODE_UNITS, INT32_MAX in *; lia|]. apply IH; lia. }
  destruct (mal_uri_read_scalar seg k) as [[ok cp] w]. destruct ok; cbn [negb]; [|done].
  specialize (Hp _ ltac:(lia) eq_refl) as (Hw & Hkw & Ha & H9 & Hg). cbn [pc_out pc_width pc_changed] in *.
  assert (arr_len (flat_map (fun b => [37; hex_digit (Z.shiftr b 4); hex_digit b]) (octets_of cp)) = utf8_length cp * 3) as El.
  { unfold octets_of, utf8_length. repeat destruct (_ <=? _); done. }
  rewrite (ascii_narrow _ Ha), orb_false_r, orb_true_r, El in *. assert (w <= 2) as Hw2 by (inversion Hv; lia).
  unfold u64. rewrite wrap_small by (unfold in_u; lia). rewrite length_add_spec by (unfold MAL_STRING_MAX_CODE_UNITS, INT32_MAX; lia).
  destruct (Z.ltb_spec MAL_STRING_MAX_CODE_UNITS (rl + (utf8_length cp * 3 - w))); [done|].
  replace (k + (w - 1) + 1) with (k + w) by lia. apply IH; unfold MAL_STRING_MAX_CODE_UNITS, INT32_MAX in *; lia.
Qed.
Lemma encode_write_pass fuel : forall k output, encode_write fuel seg component k output = pass_write (arr_len us) encode_step fuel k output.
Proof using Hseg.
  induction fuel as [|fuel IH]; intros k output; cbn [encode_write pass_write]; [done|]. rewrite seg_len. unfold encode_step at 1.
  destruct (k <? arr_len us); [|done]. destruct (mal_uri_encode_unescaped _ _).
  - cbn [push_all]. destruct (mal_uri_output_push output _); cbn; [apply IH|done|done].
  - destruct (mal_uri_read_scalar seg k) as [[ok cp] w]. destruct ok; cbn [negb]; [|done]. rewrite write_octets_push.
    destruct (push_all output _); cbn [mbind outcome_bind]; [|done|done]. replace (k + (w - 1) + 1) with (k + w) by lia. apply IH.
Qed.

Lemma encode_pass_text fuel : forall k,
  0 <= k <= arr_len us -> (Z.to_nat (arr_len us - k) < fuel)%nat ->
  fst <$> pass_text (arr_len us) encode_step fuel k = encode_text component (drop (Z.to_nat k) us).
Proof using Hseg.
  induction fuel as [|fuel IH]; intros k Hk Hf; [lia|]. cbn [pass_text]. destruct (Z.ltb_spec k (arr_len us)); [|by rewrite drop_end by lia].
  rewrite drop_get_cons by lia. pose proof (us_unit k ltac:(lia)) as Hu.
  pose proof (encode_step_view k ltac:(lia)) as Hv. pose proof (encode_step_props k) as Hp.
  assert (forall w out ch, encode_step k = Some (mkPiece w out ch) ->
    fst <$> ('(text, changed) ← pass_text (arr_len us) encode_step fuel (k + w); Some (out ++ text, ch || changed))
    = t ← encode_text component (drop (Z.to_nat (k + w)) us); Some (out ++ t)) as Hnext.
  { intros w out ch Es. destruct (Hp _ ltac:(lia) Es) as (Hw1 & Hw2 & _). cbn in Hw1, Hw2. rewrite <- IH by lia.
    by destruct (pass_text _ _ fuel (k + w)) as [[t c]|]. }
  destruct (encode_step k) as [[w out ch]|] eqn:Es; cbn [mbind option_bind pc_width pc_out pc_changed]; [rewrite (Hnext w out ch eq_refl)|];
    inversion Hv as [Hun|b rest s Hd Hpr Ec|Hun Hs|Hs Hnp]; subst; unfold encode_text.
  - destruct (unescaped_ascii _ _ Hun) as [Ha _]. destruct (wf_single (arr_get us k) (drop (Z.to_nat (k + 1)) us)) as [-> ->].
    { intros b rest _. by apply ascii_no_pair. }
    destruct (ascii_no_pair _ 0 Ha) as [Hs _]. rewrite lone_plain, Hs by done. cbn [negb andb]. destruct (utf16_well_formed _); [|done].
    cbn [mbind option_bind flat_map]. unfold escape_scalar at 2. by rewrite unescaped_decided, Hun.
  - rewrite Hd. destruct (drop_cons us (k + 1) b rest ltac:(lia) Hd) as (_ & _ & Hd2). replace (k + 1 + 1) with (k + 2) in Hd2 by lia. rewrite Hd2.
    rewrite utf16_scalars_cons2. cbn [utf16_well_formed]. rewrite Hpr. destruct (utf16_well_formed rest); [|done].
    cbn [mbind option_bind flat_map]. unfold escape_scalar at 2. rewrite unescaped_decided. destruct (mal_uri_encode_unescaped (mal_utf16_compose_pair _ b) _) eqn:Eu; [|done].
    apply unescaped_ascii in Eu as [Ha _]. destruct (compose_pair_eq _ _ Hpr). unfold ascii in Ha. lia.
  - destruct (wf_single (arr_get us k) (drop (Z.to_nat (k + 1)) us)) as [-> ->].
    { intros b rest _. revert Hs. unfold_tests. lia. }
    rewrite lone_plain, Hs by done. cbn [negb andb]. destruct (utf16_well_formed _); [|done].
    cbn [mbind option_bind flat_map]. unfold escape_scalar at 2. by rewrite unescaped_decided, Hun.
  - destruct (wf_single (arr_get us k) (drop (Z.to_nat (k + 1)) us) Hnp) as [-> _]. by rewrite Hs.
Qed.
(** A step reads the scalar at its position. *)
Lemma encode_step_scalar k s rest :
  0 <= k < arr_len us -> is_scalar s -> drop (Z.to_nat k) us = utf16_of s ++ rest ->
  exists p, encode_step k = Some p /\ pc_out p = escape_scalar component s /\ pc_width p = arr_len (utf16_of s).
Proof using Hseg.
  intros Hk Hs Hd. rewrite drop_get_cons in Hd by lia. unfold escape_scalar. rewrite unescaped_decided.
  pose proof (encode_step_view k Hk) as Hv. destruct (decide (s < 0x10000)) as [Hlt|Hge].
  - unfold utf16_of in *. destruct (Z.ltb_spec s 0x10000); [|lia]. injection Hd as Eg Er.
    assert (mal_utf16_is_surrogate s = false) as Hn by (unfold is_scalar in Hs; unfold_tests; lia).
    inversion Hv as [Hun E|b rest' c Hd Hp Ec E|Hun Hs' E|Hs' Hp E]; rewrite Eg in *;
      [|exfalso; revert Hp Hn; unfold_tests; lia| |congruence]; rewrite Hun; by eexists.
  - destruct (utf16_of_pair s) as (a & b & Eu & Hp & Ec); [unfold is_scalar in Hs; lia|]. rewrite Eu in *. injection Hd as Eg Er.
    assert (mal_uri_encode_unescaped s component = false /\ mal_uri_encode_unescaped a component = false) as [-> Ha].
    { split; apply not_true_iff_false; intros [Hx _]%unescaped_ascii; unfold ascii in Hx; [lia|]. revert Hp. unfold_tests. lia. }
    inversion Hv as [Hun E|b' rest' c Hd' Hp' Ec' E|Hun Hs' E|Hs' Hnp E]; rewrite Eg in *; [congruence| |exfalso; revert Hp Hs'; unfold_tests; lia|by rewrite (Hnp b rest) in Hp].
    rewrite Er in Hd'. injection Hd' as <- <-. rewrite Ec in Ec'. subst c. eexists. split; [done|done].
Qed.

(** A surrogate that no partner follows. *)
Definition lone_front (us : list Z) : Prop :=
  match us with
  | [] => False
  | u :: rest => 0xDC00 <= u <= 0xDFFF \/ (0xD800 <= u <= 0xDBFF /\ match rest with [] => True | v :: _ => ~ 0xDC00 <= v <= 0xDFFF end)
  end.
Lemma encode_step_lone k : 0 <= k < arr_len us -> lone_front (drop (Z.to_nat k) us) -> encode_step k = None.
Proof using Hseg.
  intros Hk Hl. rewrite drop_get_cons in Hl by lia. cbn [lone_front] in Hl.
  pose proof (encode_step_view k Hk) as Hv. inversion Hv as [Hun E|b rest c Hd Hp Ec E|Hun Hs E|Hs Hp E]; [| | |done]; exfalso.
  - apply unescaped_ascii in Hun as [Ha _]. unfold ascii in Ha. lia.
  - rewrite Hd in Hl. revert Hp. unfold_tests. lia.
  - revert Hs. unfold_tests. lia.
Qed.
Lemma encode_stop ss bad fuel : forall k,
  Forall is_scalar ss -> 0 <= k -> drop (Z.to_nat k) us = flat_map utf16_of ss ++ bad -> lone_front bad -> (Z.to_nat (arr_len us - k) < fuel)%nat ->
  pass_stop (arr_len us) encode_step fuel k = Some (arr_len us - arr_len bad, flat_map (escape_scalar component) ss).
Proof using Hseg.
  revert fuel. induction ss as [|s ss IH]; intros fuel k Hf Hk Hd Hl Hfu; cbn [flat_map app] in *.
  all: assert (k < arr_len us) as Hlt by (destruct (Z.lt_ge_cases k (arr_len us)); [done|]; rewrite drop_end in Hd by lia;
    pose proof (f_equal length Hd) as Hn; revert Hn; rewrite ?length_app; destruct bad; [done|cbn; lia]).
  all: destruct fuel as [|fuel]; [lia|]; cbn [pass_stop]; destruct (Z.ltb_spec k (arr_len us)); [|lia].
  - rewrite encode_step_lone by (rewrite ?Hd; done || lia). do 2 f_equal.
    apply (f_equal arr_len) in Hd. unfold arr_len in *. rewrite length_drop in Hd. lia.
  - apply Forall_cons in Hf as [Hs Hf]. rewrite <- app_assoc in Hd.
    destruct (encode_step_scalar k s _ ltac:(lia) Hs Hd) as (p & -> & -> & ->). pose proof (utf16_of_len s).
    rewrite (IH fuel (k + arr_len (utf16_of s))); [done|done|lia| |done|lia].
    rewrite Z2Nat.inj_add, <- drop_drop, Hd by lia. unfold arr_len. rewrite Nat2Z.id, drop_app_length. done.
Qed.
End encode.

(** ** escape *)

Definition escape_step (k : Z) : option piece :=
  Some (mkPiece 1 (escape_unit (arr_get us k)) (negb (mal_uri_escape_unescaped (arr_get us k)))).

Lemma escape_unit_ascii u : in_u 16 u -> Forall ascii (escape_unit u).
Proof using Type.
  unfold in_u. intros Hu. unfold escape_unit. rewrite escape_plain_decided. destruct (mal_uri_escape_unescaped u) eqn:E.
  { constructor; [by apply escape_unescaped_ascii|constructor]. }
  destruct (Z.ltb_spec u 256); [apply octet_ascii; unfold in_u; lia|].
  pose proof (digit_ascii (u / 4096) ltac:(Z.to_euclidean_division_equations; lia)).
  pose proof (digit_ascii (u / 256 mod 16) ltac:(Z.to_euclidean_division_equations; lia)).
  pose proof (digit_ascii (u / 16 mod 16) ltac:(Z.to_euclidean_division_equations; lia)).
  pose proof (digit_ascii (u mod 16) ltac:(Z.to_euclidean_division_equations; lia)). repeat constructor; unfold ascii; lia.
Qed.
Lemma escape_unit_length u :
  arr_len (escape_unit u) = if mal_uri_escape_unescaped u then 1 else if u <? 256 then 3 else 6.
Proof using Type. unfold escape_unit. rewrite escape_plain_decided. destruct (mal_uri_escape_unescaped u); [done|]. by destruct (u <? 256). Qed.
Lemma quad_text u :
  in_u 16 u -> [37; 117; hex_digit (Z.shiftr u 12); hex_digit (Z.shiftr u 8); hex_digit (Z.shiftr u 4); hex_digit u]
    = [37; 117; digit_text (u / 4096); digit_text (u / 256 mod 16); digit_text (u / 16 mod 16); digit_text (u mod 16)].
Proof using Type.
  unfold in_u. intros Hu. rewrite !hex_digit_text, !Z.shiftr_div_pow2 by (rewrite ?Z.shiftr_div_pow2 by lia; Z.to_euclidean_division_equations; lia).
  change (2 ^ 12) with 4096. change (2 ^ 8) with 256. change (2 ^ 4) with 16.
  by rewrite (Z.mod_small (u / 4096)) by (Z.to_euclidean_division_equations; lia).
Qed.

Lemma escape_step_props k p :
  0 <= k < arr_len us -> escape_step k = Some p ->
  1 <= pc_width p /\ k + pc_width p <= arr_len us /\ Forall ascii (pc_out p) /\
  (if pc_changed p then 0 < 1 * (arr_len (pc_out p) - pc_width p) else pc_out p = slice us k (pc_width p)).
Proof using Hseg.
  intros Hk [= <-]. cbn [pc_width pc_out pc_changed]. split; [lia|]. split; [lia|]. split; [by apply escape_unit_ascii, us_unit|].
  rewrite escape_unit_length. unfold escape_unit, slice. rewrite escape_plain_decided. destruct (mal_uri_escape_unescaped _); cbn [negb].
  - by rewrite drop_get_cons by lia.
  - destruct (_ <? 256); lia.
Qed.
Lemma escape_size_pass fuel : forall k rl ch,
  0 <= k <= arr_len us -> 0 <= rl <= MAL_STRING_MAX_CODE_UNITS ->
  escape_size fuel seg k rl ch = pass_size (arr_len us) escape_step fuel k rl ch false.
Proof using Hseg.
  unfold MAL_STRING_MAX_CODE_UNITS, INT32_MAX.
  induction fuel as [|fuel IH]; intros k rl ch Hk Hrl; cbn [escape_size pass_size]; [done|]. rewrite seg_len.
  destruct (Z.ltb_spec k (arr_len us)); [|done]. cbn [escape_step]. rewrite uri_unit by lia. set (u := arr_get us k).
  rewrite (ascii_narrow (escape_unit u)) by (apply escape_unit_ascii, us_unit; lia). rewrite escape_unit_length, orb_false_r.
  destruct (mal_uri_escape_unescaped u); [|destruct (u <? 256)].
  - change (1 <? 1) with false. change (1 =? 1) with true. cbn [negb]. rewrite Z.sub_diag, Z.add_0_r.
    destruct (Z.ltb_spec MAL_STRING_MAX_CODE_UNITS rl); [unfold MAL_STRING_MAX_CODE_UNITS, INT32_MAX in *; lia|]. apply IH; lia.
  - change (1 <? 3) with true. change (3 =? 1) with false. cbn [negb]. rewrite length_add_spec by (unfold MAL_STRING_MAX_CODE_UNITS, INT32_MAX; lia).
    destruct (Z.ltb_spec MAL_STRING_MAX_CODE_UNITS (rl + (3 - 1))); [done|]. apply IH; unfold MAL_STRING_MAX_CODE_UNITS, INT32_MAX in *; lia.
  - change (1 <? 6) with true. change (6 =? 1) with false. cbn [negb]. rewrite length_add_spec by (unfold MAL_STRING_MAX_CODE_UNITS, INT32_MAX; lia).
    destruct (Z.ltb_spec MAL_STRING_MAX_CODE_UNITS (rl + (6 - 1))); [done|]. apply IH; unfold MAL_STRING_MAX_CODE_UNITS, INT32_MAX in *; lia.
Qed.
Lemma escape_write_pass fuel : forall k output,
  0 <= k -> escape_write fuel seg k output = pass_write (arr_len us) escape_step fuel k output.
Proof using Hseg.
  induction fuel as [|fuel IH]; intros k output Hk; cbn [escape_write pass_write]; [done|]. rewrite seg_len. cbn [escape_step].
  destruct (Z.ltb_spec k (arr_len us)); [|done]. rewrite uri_unit by lia. pose proof (us_unit k ltac:(lia)) as Hu. unfold escape_unit. rewrite escape_plain_decided.
  destruct (mal_uri_escape_unescaped _); [|destruct (Z.ltb_spec (arr_get us k) 256)].
  - cbn [push_all]. destruct (mal_uri_output_push output _); cbn; [apply IH; lia|done|done].
  - pose proof (write_octets_push output [u8 (arr_get us k)]) as E. cbn [write_octets flat_map app] in E.
    assert (in_u 8 (u8 (arr_get us k))) as Hb by (apply wrap_range; lia). rewrite (octet_written _ Hb) in E.
    unfold u8 in E at 2. rewrite wrap_small in E by (unfold in_u in *; lia). rewrite <- E.
    destruct (mal_uri_write_octet output _); cbn; [apply IH; lia|done|done].
  - rewrite quad_text by done. destruct (push_all output _); cbn; [apply IH; lia|done|done].
Qed.
Lemma escape_pass_text fuel : forall k,
  0 <= k <= arr_len us -> (Z.to_nat (arr_len us - k) < fuel)%nat ->
  fst <$> pass_text (arr_len us) escape_step fuel k = Some (escape_text (drop (Z.to_nat k) us)).
Proof using Type.
  induction fuel as [|fuel IH]; intros k Hk Hf; [lia|]. cbn [pass_text]. destruct (Z.ltb_spec k (arr_len us)); [|by rewrite drop_end by lia].
  cbn [escape_step mbind option_bind pc_width]. specialize (IH (k + 1) ltac:(lia) ltac:(lia)).
  destruct (pass_text _ _ fuel (k + 1)) as [[t c]|]; [|done]. cbn in IH |- *. injection IH as ->. by rewrite (drop_get_cons us k) by lia.
Qed.
End input.

(** * The grammar *)

Definition hex_value (h a : Z) : Prop :=
  (48 <= h <= 57 /\ a = h - 48) \/ (65 <= h <= 70 /\ a = h - 55) \/ (97 <= h <= 102 /\ a = h - 87).
(** Percent escapes, in either case, and the octets they spell. *)
Inductive spells : list Z -> list Z -> Prop :=
  | spells_nil : spells [] []
  | spells_octet h l a b e bs : hex_value h a -> hex_value l b -> spells e bs -> spells (37 :: h :: l :: e) (a * 16 + b :: bs).

(** ECMA-262 Decode: literal units, and the UTF-8 of scalars in percent escapes;
    decodeURI keeps the escapes of the reserved characters. *)
Inductive decodes (preserve : bool) : list Z -> list Z -> Prop :=
  | dec_nil : decodes preserve [] []
  | dec_unit u us t : u <> 37 -> decodes preserve us t -> decodes preserve (u :: us) (u :: t)
  | dec_kept e s us t :
      is_scalar s -> spells e (utf8_of s) -> preserve = true /\ s ∈ uri_preserved ->
      decodes preserve us t -> decodes preserve (e ++ us) (e ++ t)
  | dec_scalar e s us t :
      is_scalar s -> spells e (utf8_of s) -> ~ (preserve = true /\ s ∈ uri_preserved) ->
      decodes preserve us t -> decodes preserve (e ++ us) (utf16_of s ++ t).

(** * Octets *)

Lemma hex_digit_value h a : mal_hex_decode_digit h = a -> 0 <= a -> hex_value h a /\ a < 16.
Proof.
  unfold mal_hex_decode_digit, in_range, hex_value. intros <- H0.
  destruct ((48 <=? h) && (h <=? 57)) eqn:E1; [lia|]. destruct ((97 <=? h) && (h <=? 102)) eqn:E2; [lia|].
  destruct ((65 <=? h) && (h <=? 70)) eqn:E3; lia.
Qed.
Lemma hex_value_digit h a : hex_value h a -> mal_hex_decode_digit h = a /\ 0 <= a < 16.
Proof.
  unfold mal_hex_decode_digit, in_range, hex_value. intros Hv.
  destruct ((48 <=? h) && (h <=? 57)) eqn:E1; [lia|]. destruct ((97 <=? h) && (h <=? 102)) eqn:E2; [lia|].
  destruct ((65 <=? h) && (h <=? 70)) eqn:E3; lia.
Qed.
Lemma nibbles a b : 0 <= a < 16 -> 0 <= b < 16 -> u8 (Z.lor (Z.shiftl a 4) b) = a * 16 + b.
Proof. intros Ha Hb. rewrite lor_shiftl_add' by lia. unfold u8. rewrite wrap_small; [lia|unfold in_u; lia]. Qed.
Lemma hex_pair_some h l a b : hex_value h a -> hex_value l b -> mal_uri_hex_pair h l = Some (a * 16 + b).
Proof.
  intros [Eh Ha]%hex_value_digit [El Hb]%hex_value_digit. unfold mal_uri_hex_pair. rewrite Eh, El.
  destruct (Z.ltb_spec a 0), (Z.ltb_spec b 0); try lia. cbn. by rewrite nibbles.
Qed.
Lemma hex_pair_inv h l v : mal_uri_hex_pair h l = Some v -> exists a b, hex_value h a /\ hex_value l b /\ v = a * 16 + b /\ 0 <= v < 256.
Proof.
  unfold mal_uri_hex_pair. set (a := mal_hex_decode_digit h). set (b := mal_hex_decode_digit l).
  destruct (Z.ltb_spec a 0), (Z.ltb_spec b 0); cbn; try done. intros [= <-].
  destruct (hex_digit_value h a eq_refl ltac:(done)), (hex_digit_value l b eq_refl ltac:(done)). exists a, b.
  rewrite nibbles by lia. split; [done|]. split; [done|]. lia.
Qed.
Lemma spells_length e bs : spells e bs -> arr_len e = 3 * arr_len bs.
Proof. induction 1 as [|h l a b e bs Hh Hl _ IH]; [done|]. unfold arr_len in *. cbn [length]. lia. Qed.

(** The lead octets and the bits they carry. *)
Definition lead_bits (b : Z) : option (nat * Z) :=
  if (0xC0 <=? b) && (b <? 0xE0) then Some (2%nat, b - 0xC0)
  else if (0xE0 <=? b) && (b <? 0xF0) then Some (3%nat, b - 0xE0)
  else if (0xF0 <=? b) && (b <? 0xF8) then Some (4%nat, b - 0xF0)
  else None.
Lemma byte_check (P : Z -> bool) b : in_u 8 b -> forallb P (seqZ 0 256) = true -> P b = true.
Proof. unfold in_u. intros Hb Hall. rewrite forallb_forall in Hall. apply Hall, list_elem_of_In, elem_of_seqZ. lia. Qed.
Lemma escape_class_bits b : in_u 8 b -> escape_class b = lead_bits b.
Proof.
  intros Hb. apply (bool_decide_eq_true_1 _), (byte_check (fun b => bool_decide (escape_class b = lead_bits b)) b Hb). by vm_compute.
Qed.
Lemma continuation_bits b : in_u 8 b -> (Z.land b 0xC0 =? 0x80) = (0x80 <=? b) && (b <? 0xC0) /\ (0x80 <= b < 0xC0 -> Z.land b 0x3F = b - 0x80).
Proof.
  intros Hb. split.
  - apply eqb_prop, (byte_check (fun b => eqb (Z.land b 0xC0 =? 0x80) ((0x80 <=? b) && (b <? 0xC0))) b Hb). by vm_compute.
  - intros Hr. change 0x3F with (2 ^ 6 - 1). rewrite land_mask by lia. Z.to_euclidean_division_equations. lia.
Qed.

(** * UTF-8 by lead octet and six-bit rests *)

Definition six (y : Z) : Prop := 0 <= y < 64.
Definition gather (x : Z) (ys : list Z) : Z := fold_left (fun c y => c * 64 + y) ys x.
Definition tails (ys : list Z) : list Z := map (Z.add 0x80) ys.

Lemma utf8_gathered lead x ys s :
  lead_bits lead = Some (S (length ys), x) -> Forall six ys -> s = gather x ys ->
  overlong (S (length ys)) s = false -> ~ (0xD800 <= s <= 0xDFFF) -> s <= 0x10FFFF -> is_scalar s /\ utf8_of s = lead :: tails ys.
Proof.
  unfold lead_bits. intros Hl Hf Es Ho Hsur Hmax.
  destruct ((0xC0 <=? lead) && (lead <? 0xE0)) eqn:E2; [|destruct ((0xE0 <=? lead) && (lead <? 0xF0)) eqn:E3; [|destruct ((0xF0 <=? lead) && (lead <? 0xF8)) eqn:E4; [|done]]];
    injection Hl as Hn <-; destruct ys as [|y1 [|y2 [|y3 [|]]]]; try discriminate Hn; unfold overlong in Ho; cbn [Nat.eqb length andb orb] in Ho;
    rewrite ?orb_false_r in Ho; cbn [gather fold_left] in Es; rewrite !Forall_cons in Hf; unfold six in Hf; apply Z.ltb_ge in Ho; unfold is_scalar, utf8_of, tails; cbn [map].
  - split; [lia|]. destruct (Z.ltb_spec s 0x80); [lia|]. destruct (Z.ltb_spec s 0x800); [|lia].
    f_equal; [|f_equal]; Z.to_euclidean_division_equations; lia.
  - split; [lia|]. destruct (Z.ltb_spec s 0x80); [lia|]. destruct (Z.ltb_spec s 0x800); [lia|]. destruct (Z.ltb_spec s 0x10000); [|lia].
    f_equal; [|f_equal; [|f_equal]]; Z.to_euclidean_division_equations; lia.
  - split; [lia|]. destruct (Z.ltb_spec s 0x80); [lia|]. destruct (Z.ltb_spec s 0x800); [lia|]. destruct (Z.ltb_spec s 0x10000); [lia|].
    f_equal; [|f_equal; [|f_equal; [|f_equal]]]; Z.to_euclidean_division_equations; lia.
Qed.
Lemma lead_bits_range b n x :
  lead_bits b = Some (n, x) -> 0x80 <= b < 256 /\ 0 <= x /\ (x + 1) * 64 ^ Z.of_nat (n - 1) <= 2 ^ 32 /\ (2 <= n <= 4)%nat.
Proof.
  unfold lead_bits. destruct ((0xC0 <=? b) && (b <? 0xE0)) eqn:E2; [|destruct ((0xE0 <=? b) && (b <? 0xF0)) eqn:E3; [|destruct ((0xF0 <=? b) && (b <? 0xF8)) eqn:E4; [|done]]];
    intros [= <- <-]; cbn [Nat.sub]; [change (64 ^ Z.of_nat 1) with 64|change (64 ^ Z.of_nat 2) with 4096|change (64 ^ Z.of_nat 3) with 262144]; lia.
Qed.
(** Every scalar past ASCII is read by its lead octet. *)
Lemma utf8_split s :
  is_scalar s -> 0x80 <= s ->
  exists lead x ys, utf8_of s = lead :: tails ys /\ lead_bits lead = Some (S (length ys), x) /\ Forall six ys /\ s = gather x ys /\
    overlong (S (length ys)) s = false.
Proof.
  unfold is_scalar, utf8_of, lead_bits, overlong, gather, tails. intros Hs H80. destruct (Z.ltb_spec s 0x80); [lia|].
  destruct (Z.ltb_spec s 0x800); [|destruct (Z.ltb_spec s 0x10000)].
  - exists (0xC0 + s / 64), (s / 64), [s mod 64]. cbn [map length fold_left Nat.eqb andb orb]. split; [done|].
    destruct (_ && _) eqn:E; [|Z.to_euclidean_division_equations; lia].
    split; [do 2 f_equal; lia|]. split; [repeat constructor; unfold six; Z.to_euclidean_division_equations; lia|].
    split; [Z.to_euclidean_division_equations; lia|]. lia.
  - exists (0xE0 + s / 4096), (s / 4096), [s / 64 mod 64; s mod 64]. cbn [map length fold_left Nat.eqb andb orb]. split; [done|].
    destruct (_ && _) eqn:E; [Z.to_euclidean_division_equations; lia|]. destruct ((0xE0 <=? _) && _) eqn:E3; [|Z.to_euclidean_division_equations; lia].
    split; [do 2 f_equal; lia|]. split; [repeat constructor; unfold six; Z.to_euclidean_division_equations; lia|].
    split; [Z.to_euclidean_division_equations; lia|]. lia.
  - exists (0xF0 + s / 262144), (s / 262144), [s / 4096 mod 64; s / 64 mod 64; s mod 64]. cbn [map length fold_left Nat.eqb andb orb]. split; [done|].
    destruct (_ && _) eqn:E; [Z.to_euclidean_division_equations; lia|]. destruct ((0xE0 <=? _) && _) eqn:E3; [Z.to_euclidean_division_equations; lia|].
    destruct ((0xF0 <=? _) && _) eqn:E4; [|Z.to_euclidean_division_equations; lia].
    split; [do 2 f_equal; lia|]. split; [repeat constructor; unfold six; Z.to_euclidean_division_equations; lia|].
    split; [Z.to_euclidean_division_equations; lia|]. lia.
Qed.

(** * Reading escapes *)

Section input.
Context (seg : MalStringSegment) (us : list Z).
Hypothesis Hseg : seg_ok seg us.

(** The suffix at a position, unit by unit. *)
Lemma suffix_at k x rest : 0 <= k -> drop (Z.to_nat k) us = x :: rest ->
  mal_uri_unit seg k = x /\ k < arr_len us /\ drop (Z.to_nat (k + 1)) us = rest.
Proof using Hseg.
  intros Hk Hd. destruct (drop_cons us k x rest Hk Hd) as (Ex & Hlt & Hr). split; [|done]. by rewrite (uri_unit seg us Hseg) by lia.
Qed.
Lemma octet_here k h l a b rest :
  0 <= k -> drop (Z.to_nat k) us = 37 :: h :: l :: rest -> hex_value h a -> hex_value l b ->
  k + 2 < arr_len us /\ mal_uri_unit seg k = 37 /\ mal_uri_hex_pair_at seg (k + 1) = Some (a * 16 + b) /\ drop (Z.to_nat (k + 3)) us = rest.
Proof using Hseg.
  intros Hk Hd Hh Hl. destruct (suffix_at k _ _ Hk Hd) as (E0 & _ & Hd1). destruct (suffix_at (k + 1) _ _ ltac:(lia) Hd1) as (E1 & _ & Hd2).
  destruct (suffix_at (k + 1 + 1) _ _ ltac:(lia) Hd2) as (E2 & Hlt & Hd3). split; [lia|]. split; [done|]. split.
  - unfold mal_uri_hex_pair_at. rewrite E1, E2. by apply hex_pair_some.
  - by replace (k + 3) with (k + 1 + 1 + 1) by lia.
Qed.
Lemma octet_inv k v :
  0 <= k -> k + 2 < arr_len us -> mal_uri_unit seg k = 37 -> mal_uri_hex_pair_at seg (k + 1) = Some v ->
  exists h l a b, drop (Z.to_nat k) us = 37 :: h :: l :: drop (Z.to_nat (k + 3)) us /\ hex_value h a /\ hex_value l b /\ v = a * 16 + b /\ in_u 8 v.
Proof using Hseg.
  intros Hk Hlt E0 Ev. unfold mal_uri_hex_pair_at in Ev. rewrite !(uri_unit seg us Hseg) in * by lia. rewrite <- E0.
  apply hex_pair_inv in Ev as (a & b & Hh & Hl & Hv & Hr). exists (arr_get us (k + 1)), (arr_get us (k + 2)), a, b.
  replace (k + 1 + 1) with (k + 2) in Hl by lia. split; [|unfold in_u; split_and!; done || lia].
  rewrite (drop_get_cons us k), (drop_get_cons us (k + 1)) by lia. replace (k + 1 + 1) with (k + 2) by lia. rewrite (drop_get_cons us (k + 2)) by lia.
  by replace (k + 2 + 1) with (k + 3) by lia.
Qed.

Lemma gather_bound n x y : 0 <= x -> six y -> (x + 1) * 64 ^ Z.of_nat (S n) <= 2 ^ 32 ->
  x * 64 < 2 ^ 32 /\ (x * 64 + y + 1) * 64 ^ Z.of_nat n <= 2 ^ 32.
Proof using Type.
  unfold six. intros Hx Hy Hb. rewrite Nat2Z.inj_succ, Z.pow_succ_r in Hb by lia. pose proof (Z.pow_pos_nonneg 64 (Z.of_nat n)). nia.
Qed.
Lemma shift_in x y : 0 <= x -> x * 64 < 2 ^ 32 -> six y -> Z.lor (u32 (Z.shiftl x 6)) y = x * 64 + y.
Proof using Type.
  unfold six. intros Hx Hb Hy. unfold u32. rewrite wrap_small by (rewrite Z.shiftl_mul_pow2 by lia; unfold in_u; lia).
  rewrite lor_shiftl_add' by lia. lia.
Qed.

Lemma continuations_read ys : forall k x e rest,
  0 <= k -> 0 <= x -> (x + 1) * 64 ^ Z.of_nat (length ys) <= 2 ^ 32 -> Forall six ys ->
  drop (Z.to_nat k) us = e ++ rest -> spells e (tails ys) ->
  decode_continuations (length ys) seg k x = Some (k + arr_len e, gather x ys).
Proof using Hseg.
  induction ys as [|y ys IH]; intros k x e rest Hk Hx Hb Hf Hd Hsp; inversion Hsp as [|h l a b e' bs Hh Hl Hsp' Ee Eb]; subst.
  { cbn. by rewrite Z.add_0_r. }
  apply Forall_cons in Hf as [Hy Hf]. cbn [app] in Hd. destruct (octet_here k h l a b _ Hk Hd Hh Hl) as (Hlt & E0 & Ev & Hd3).
  destruct (gather_bound (length ys) x y Hx Hy Hb) as [Hb1 Hb2].
  cbn [length decode_continuations]. rewrite (seg_len seg us Hseg). destruct (Z.leb_spec (arr_len us) (k + 2)); [lia|].
  rewrite E0, Ev, Eb. change (37 =? 37) with true. cbn [negb orb].
  destruct (continuation_bits (128 + y)) as [-> El]; [unfold in_u, six in *; lia|]. rewrite El by (unfold six in *; lia).
  destruct ((0x80 <=? 128 + y) && (128 + y <? 0xC0)) eqn:Er; [|unfold six in *; lia]. cbn [negb].
  replace (128 + y - 128) with y by lia. rewrite shift_in by done. rewrite (IH (k + 3) _ e' rest); try done; [|lia|unfold six in *; lia].
  cbn [gather fold_left]. do 2 f_equal. unfold arr_len. cbn [length]. lia.
Qed.
Lemma continuations_inv n : forall k x j s,
  0 <= k -> 0 <= x -> (x + 1) * 64 ^ Z.of_nat n <= 2 ^ 32 -> decode_continuations n seg k x = Some (j, s) ->
  exists ys e, length ys = n /\ Forall six ys /\ drop (Z.to_nat k) us = e ++ drop (Z.to_nat j) us /\ spells e (tails ys) /\
    j = k + arr_len e /\ s = gather x ys.
Proof using Hseg.
  induction n as [|n IH]; intros k x j s Hk Hx Hb E; cbn [decode_continuations] in E.
  { simplify_eq. exists [], []. split; [done|]. split; [constructor|]. split; [done|]. split; [constructor|]. split; [|done]. unfold arr_len. cbn. lia. }
  rewrite (seg_len seg us Hseg) in E. destruct (Z.leb_spec (arr_len us) (k + 2)); [done|]. destruct (Z.eqb_spec (mal_uri_unit seg k) 37) as [E0|]; [|done].
  cbn [negb orb] in E. destruct (mal_uri_hex_pair_at seg (k + 1)) as [v|] eqn:Ev; [|done].
  destruct (octet_inv k v Hk ltac:(lia) E0 Ev) as (h & l & a & b & Hd & Hh & Hl & Hv & Hr).
  destruct (continuation_bits v Hr) as [Ec El]. rewrite Ec in E. destruct ((0x80 <=? v) && (v <? 0xC0)) eqn:Er; [|done]. cbn [negb] in E.
  assert (six (v - 0x80)) as Hy by (unfold six; lia). destruct (gather_bound n x (v - 0x80) Hx Hy Hb) as [Hb1 Hb2].
  rewrite El, shift_in in E by (done || lia). apply IH in E as (ys & e & Hn & Hf & Hd3 & Hsp & Hj & Hs); [|lia|unfold six in *; lia|done].
  exists (v - 0x80 :: ys), (37 :: h :: l :: e). split; [cbn; by rewrite Hn|]. split; [by constructor|]. split; [by rewrite Hd, Hd3|]. split.
  - cbn [tails map]. replace (128 + (v - 128)) with (a * 16 + b) by lia. by constructor.
  - split; [|done]. unfold arr_len in *. cbn [length]. lia.
Qed.

Lemma spells_cons e lead ys :
  spells e (lead :: tails ys) -> exists h l a b e', e = 37 :: h :: l :: e' /\ hex_value h a /\ hex_value l b /\ lead = a * 16 + b /\ spells e' (tails ys).
Proof using Type. intros Hsp. inversion Hsp; subst. repeat eexists; done. Qed.
Lemma overlong_ascii count s : overlong count s = false -> (2 <= count <= 4)%nat -> 0x80 <= s.
Proof using Type. unfold overlong. intros Ho Hn. destruct count as [|[|[|[|[|count]]]]]; cbn [Nat.eqb andb orb] in Ho; lia. Qed.
Lemma utf8_of_ascii s : 0 <= s < 0x80 -> utf8_of s = [s] /\ is_scalar s.
Proof using Type. unfold utf8_of, is_scalar. intros Hs. destruct (Z.ltb_spec s 0x80); [|lia]. split; [done|lia]. Qed.

(** An escape of a scalar is read as that scalar. *)
Lemma escape_read k e rest s preserve :
  0 <= k -> drop (Z.to_nat k) us = e ++ rest -> is_scalar s -> spells e (utf8_of s) ->
  mal_uri_decode_escape seg k preserve = Some (mkEscape (k + arr_len e - 1) s (preserve && mal_uri_is_reserved_or_hash s)).
Proof using Hseg.
  intros Hk Hd Hs Hsp. unfold mal_uri_decode_escape. rewrite (seg_len seg us Hseg). destruct (Z.lt_ge_cases s 0x80) as [Hlt|Hge].
  - assert (0 <= s) as H0 by (unfold is_scalar in Hs; lia). destruct (utf8_of_ascii s ltac:(lia)) as [Eu _]. rewrite Eu in Hsp. change [s] with (s :: tails []) in Hsp.
    apply spells_cons in Hsp as (h & l & a & b & e' & -> & Hh & Hl & Es & Hn). inversion Hn; subst e'.
    destruct (octet_here k h l a b _ Hk Hd Hh Hl) as (Hlen & _ & -> & _). destruct (Z.leb_spec (arr_len us) (k + 2)); [lia|]. rewrite <- Es.
    destruct (Z.ltb_spec s 0x80); [|lia]. f_equal. f_equal. unfold arr_len. cbn [length]. lia.
  - destruct (utf8_split s Hs Hge) as (lead & x & ys & Eu & Hbits & Hf & Eg & Ho). rewrite Eu in Hsp.
    destruct (lead_bits_range _ _ _ Hbits) as (Hlead & Hx & Hb & Hn). cbn [Nat.sub] in Hb. rewrite Nat.sub_0_r in Hb.
    apply spells_cons in Hsp as (h & l & a & b & e' & -> & Hh & Hl & Es & Hn'). cbn [app] in Hd.
    destruct (octet_here k h l a b _ Hk Hd Hh Hl) as (Hlen & _ & -> & Hd3). destruct (Z.leb_spec (arr_len us) (k + 2)); [lia|]. rewrite <- Es.
    destruct (Z.ltb_spec lead 0x80); [lia|]. rewrite escape_class_bits, Hbits by (unfold in_u; lia). cbn [Nat.sub]. rewrite Nat.sub_0_r.
    rewrite (continuations_read ys (k + 3) x e' rest ltac:(lia) Hx Hb Hf Hd3 Hn'). rewrite <- Eg, Ho. cbn [orb].
    destruct ((0xD800 <=? s) && (s <=? 0xDFFF) || (0x10FFFF <? s)) eqn:Er; [unfold is_scalar in Hs; lia|].
    assert (mal_uri_is_reserved_or_hash s = false) as ->.
    { apply not_true_iff_false. intros Ha%reserved_ascii. unfold ascii in Ha. lia. }
    rewrite andb_false_r. do 2 f_equal. unfold arr_len. cbn [length]. lia.
Qed.
(** Whatever is read is the escape of a scalar. *)
Lemma escape_inv k preserve d :
  0 <= k -> mal_uri_unit seg k = 37 -> mal_uri_decode_escape seg k preserve = Some d ->
  exists e, drop (Z.to_nat k) us = e ++ drop (Z.to_nat (esc_end d + 1)) us /\ is_scalar (esc_code_point d) /\ spells e (utf8_of (esc_code_point d)) /\
    esc_end d + 1 = k + arr_len e /\ esc_preserved d = preserve && mal_uri_is_reserved_or_hash (esc_code_point d).
Proof using Hseg.
  intros Hk E0 E. unfold mal_uri_decode_escape in E. rewrite (seg_len seg us Hseg) in E. destruct (Z.leb_spec (arr_len us) (k + 2)); [done|].
  destruct (mal_uri_hex_pair_at seg (k + 1)) as [v|] eqn:Ev; [|done].
  destruct (octet_inv k v Hk ltac:(lia) E0 Ev) as (h & l & a & b & Hd & Hh & Hl & Hv & Hr). unfold in_u in Hr. destruct (Z.ltb_spec v 0x80).
  - injection E as <-. cbn [esc_end esc_code_point esc_preserved]. destruct (utf8_of_ascii v ltac:(lia)) as [-> Hs]. exists [37; h; l].
    replace (k + 2 + 1) with (k + 3) by lia. split; [done|]. split; [done|]. split; [rewrite Hv; constructor; [done|done|constructor]|]. split; [unfold arr_len; cbn; lia|done].
  - rewrite escape_class_bits in E by done. destruct (lead_bits v) as [[count x]|] eqn:Eb; [|done].
    destruct (lead_bits_range _ _ _ Eb) as (_ & Hx & Hb & Hn). destruct (decode_continuations _ seg (k + 3) x) as [[j s]|] eqn:Ec; [|done].
    apply continuations_inv in Ec as (ys & e & Hys & Hf & Hd3 & Hsp & Hj & Hs); [|lia|done|done]. destruct (overlong count s) eqn:Eo; [done|]. cbn [orb] in E.
    destruct ((0xD800 <=? s) && (s <=? 0xDFFF) || (0x10FFFF <? s)) eqn:Es; [done|]. injection E as <-. cbn [esc_end esc_code_point esc_preserved].
    assert (count = S (length ys)) as -> by lia. destruct (utf8_gathered v x ys s Eb Hf Hs Eo ltac:(lia) ltac:(lia)) as [Hsc Hu].
    exists (37 :: h :: l :: e). rewrite Z.sub_add. split; [by rewrite Hd, Hd3|]. split; [done|]. split; [rewrite Hu, Hv; by constructor|].
    split; [unfold arr_len in *; cbn [length]; lia|]. apply overlong_ascii in Eo; [|done]. symmetry. apply andb_false_iff. right.
    apply not_true_iff_false. intros Ha%reserved_ascii. unfold ascii in Ha. lia.
Qed.

(** ** decodeURI *)

Section decode.
Variable preserve : bool.
Definition decode_step (k : Z) : option piece :=
  let unit := mal_uri_unit seg k in
  if negb (unit =? 37) then Some (mkPiece 1 [unit] false)
  else
    match mal_uri_decode_escape seg k preserve with
    | None => None
    | Some d =>
        Some (mkPiece (esc_end d - k + 1)
          (if esc_preserved d then map (mal_uri_unit seg) (seqZ k (esc_end d - k + 1))
           else if esc_code_point d <=? 0xFFFF then [u16 (esc_code_point d)] else mal_utf16_emit_pair (esc_code_point d))
          (negb (esc_preserved d)))
    end.
Definition kept (s : Z) : bool := preserve && mal_uri_is_reserved_or_hash s.
Lemma kept_spec s : kept s = true <-> preserve = true /\ s ∈ uri_preserved.
Proof using Type. unfold kept. rewrite <- preserved_decided, andb_true_iff. by rewrite bool_decide_eq_true. Qed.
Lemma not_kept_spec s : kept s = false <-> ~ (preserve = true /\ s ∈ uri_preserved).
Proof using Type. by rewrite <- kept_spec, not_true_iff_false. Qed.
(** The piece of an escape. *)
Definition escape_piece (e : list Z) (s : Z) : piece := mkPiece (arr_len e) (if kept s then e else utf16_of s) (negb (kept s)).

Lemma map_units k n : 0 <= k -> k + n <= arr_len us -> map (mal_uri_unit seg) (seqZ k n) = slice us k n.
Proof using Hseg.
  intros Hk Hn. unfold slice. apply list_eq. intros i. rewrite list_lookup_fmap. destruct (decide (i < Z.to_nat n)%nat).
  - rewrite lookup_seqZ_lt by lia. rewrite lookup_take_lt, lookup_drop by lia. cbn. rewrite (uri_unit seg us Hseg) by lia.
    rewrite <- arr_get_lookup by lia. f_equal. lia.
  - rewrite lookup_seqZ_ge, lookup_take_ge by lia. done.
Qed.
Lemma escape_slice k e rest : 0 <= k <= arr_len us -> drop (Z.to_nat k) us = e ++ rest ->
  slice us k (arr_len e) = e /\ k + arr_len e <= arr_len us /\ drop (Z.to_nat (k + arr_len e)) us = rest.
Proof using Type.
  intros Hk Hd. split; [|split; [|apply (drop_app_pos us e rest); [lia|done]]].
  - unfold slice, arr_len. by rewrite Hd, Nat2Z.id, take_app_length.
  - apply (f_equal arr_len) in Hd. rewrite arr_len_app in Hd. unfold arr_len in *. rewrite length_drop in Hd. lia.
Qed.
Lemma spells_head e s : spells e (utf8_of s) -> exists e', e = 37 :: e' /\ 3 <= arr_len e.
Proof using Type.
  intros Hsp. pose proof (spells_length _ _ Hsp) as El. pose proof (utf8_of_len s). destruct Hsp as [|h l a b e bs]; [unfold arr_len in *; cbn in *; lia|]. eexists. split; [done|]. lia.
Qed.

Lemma decode_step_unit k : 0 <= k < arr_len us -> arr_get us k <> 37 -> decode_step k = Some (mkPiece 1 [arr_get us k] false).
Proof using Hseg. intros Hk Hne. unfold decode_step. rewrite (uri_unit seg us Hseg) by lia. by destruct (Z.eqb_spec (arr_get us k) 37). Qed.
Lemma decode_step_escape k e rest s :
  0 <= k < arr_len us -> drop (Z.to_nat k) us = e ++ rest -> is_scalar s -> spells e (utf8_of s) -> decode_step k = Some (escape_piece e s).
Proof using Hseg.
  intros Hk Hd Hs Hsp. destruct (escape_slice k e rest ltac:(lia) Hd) as (Hsl & Hle & _). unfold decode_step.
  destruct (spells_head e s Hsp) as (e' & Ee & _). rewrite (uri_unit seg us Hseg) by lia.
  assert (arr_get us k = 37) as -> by (rewrite Ee in Hd; apply (drop_cons us k 37 (e' ++ rest)); [lia|done]). change (37 =? 37) with true. cbn [negb].
  rewrite (escape_read k e rest s preserve ltac:(lia) Hd Hs Hsp). cbn [esc_end esc_code_point esc_preserved]. unfold escape_piece. fold (kept s).
  replace (k + arr_len e - 1 - k + 1) with (arr_len e) by lia. rewrite map_units, Hsl by lia. rewrite <- decoded_units_eq by done. done.
Qed.
Lemma decode_step_inv k p :
  0 <= k < arr_len us -> decode_step k = Some p ->
  (arr_get us k <> 37 /\ p = mkPiece 1 [arr_get us k] false) \/
  exists e s, drop (Z.to_nat k) us = e ++ drop (Z.to_nat (k + arr_len e)) us /\ is_scalar s /\ spells e (utf8_of s) /\ p = escape_piece e s.
Proof using Hseg.
  intros Hk E. pose proof (decode_step_unit k Hk) as Hu. destruct (Z.eq_dec (arr_get us k) 37) as [E37|Hne]; [right|left; split; [done|]; specialize (Hu Hne); congruence].
  unfold decode_step in E. rewrite (uri_unit seg us Hseg), E37 in E by lia. change (37 =? 37) with true in E. cbn [negb] in E.
  destruct (mal_uri_decode_escape seg k preserve) as [d|] eqn:Ed; [|done].
  destruct (escape_inv k preserve d ltac:(lia)) as (e & Hd & Hs & Hsp & He & _); [by rewrite (uri_unit seg us Hseg) by lia|done|].
  exists e, (esc_code_point d). rewrite He in Hd. split; [done|]. split; [done|]. split; [done|].
  pose proof (decode_step_escape k e _ _ Hk Hd Hs Hsp) as Es. unfold decode_step in Es. rewrite (uri_unit seg us Hseg), E37, Ed in Es by lia.
  change (37 =? 37) with true in Es. cbn [negb] in Es. congruence.
Qed.

Lemma hex_ascii h a : hex_value h a -> ascii h.
Proof using Type. unfold hex_value, ascii. lia. Qed.
Lemma spells_ascii e bs : spells e bs -> Forall ascii e.
Proof using Type.
  induction 1 as [|h l a b e bs Hh Hl _ IH]; [constructor|]. constructor; [unfold ascii; lia|]. constructor; [by eapply hex_ascii|]. constructor; [by eapply hex_ascii|done].
Qed.
Lemma utf16_units s : is_scalar s -> Forall (in_u 16) (utf16_of s).
Proof using Type.
  unfold utf16_of, is_scalar, in_u. intros Hs. destruct (Z.ltb_spec s 0x10000); repeat constructor; Z.to_euclidean_division_equations; lia.
Qed.
Lemma utf16_wide s : is_scalar s -> is_wide (utf16_of s) = (0xFF <? s).
Proof using Type.
  unfold utf16_of, is_scalar, is_wide. intros Hs. destruct (Z.ltb_spec s 0x10000); cbn [existsb]; [apply orb_false_r|].
  destruct (Z.ltb_spec 0xFF s); [|lia]. rewrite !orb_true_iff. left. Z.to_euclidean_division_equations. lia.
Qed.
Lemma decode_step_props k p :
  0 <= k < arr_len us -> decode_step k = Some p ->
  1 <= pc_width p /\ k + pc_width p <= arr_len us /\ Forall (in_u 16) (pc_out p) /\
  (if pc_changed p then 0 < -1 * (arr_len (pc_out p) - pc_width p) else pc_out p = slice us k (pc_width p)).
Proof using Hseg.
  intros Hk E. destruct (decode_step_inv k p Hk E) as [[Hne ->]|(e & s & Hd & Hs & Hsp & ->)]; unfold escape_piece; cbn [pc_width pc_out pc_changed].
  - split; [lia|]. split; [lia|]. split; [constructor; [by apply (us_unit seg us Hseg)|constructor]|]. unfold slice. by rewrite drop_get_cons by lia.
  - destruct (escape_slice k e _ ltac:(lia) Hd) as (Hsl & Hle & _). destruct (spells_head e s Hsp) as (e' & _ & H3). pose proof (utf16_of_len s).
    split; [lia|]. split; [lia|]. destruct (kept s); cbn [negb]; (split; [|first [done|lia]]).
    + by eapply ascii_units, spells_ascii.
    + by apply utf16_units.
Qed.

Lemma wider a b : 0 <= a -> 0 <= b -> (0xFF <? Z.lor a b) = (0xFF <? a) || (0xFF <? b).
Proof using Type.
  intros Ha Hb. pose proof (lor_le_mask a b 8 ltac:(lia) Ha Hb) as Hl. change (2 ^ 8) with 256 in Hl.
  destruct (Z.ltb_spec 0xFF (Z.lor a b)), (Z.ltb_spec 0xFF a), (Z.ltb_spec 0xFF b); cbn; try done; lia.
Qed.
Lemma decode_size_pass fuel : forall k rl ch widest,
  0 <= k <= arr_len us -> arr_len us - k <= rl <= MAL_STRING_MAX_CODE_UNITS -> 0 <= widest ->
  decode_size fuel seg preserve k rl ch widest = pass_size (arr_len us) decode_step fuel k rl ch (0xFF <? widest).
Proof using Hseg.
  unfold MAL_STRING_MAX_CODE_UNITS, INT32_MAX.
  induction fuel as [|fuel IH]; intros k rl ch widest Hk Hrl Hw; cbn [decode_size pass_size]; [done|]. rewrite (seg_len seg us Hseg).
  destruct (Z.ltb_spec k (arr_len us)); [|done]. pose proof (decode_step_props k) as Hp. unfold decode_step at 1 in Hp. unfold decode_step at 1.
  rewrite (uri_unit seg us Hseg) in * by lia. pose proof (us_unit seg us Hseg k ltac:(lia)) as Hu. unfold in_u in Hu.
  assert (forall x, x <= rl -> (MAL_STRING_MAX_CODE_UNITS <? x) = false) as Hmax
    by (intros x Hx; apply Z.ltb_ge; unfold MAL_STRING_MAX_CODE_UNITS, INT32_MAX; lia).
  destruct (Z.eqb_spec (arr_get us k) 37) as [E37|Hne]; cbn [negb] in *; cycle 1.
  { rewrite Hmax by (unfold arr_len; cbn [length]; lia). change (arr_len [arr_get us k]) with 1. rewrite orb_false_r, Z.sub_diag, Z.add_0_r.
    rewrite IH by (rewrite ?Z.lor_nonneg; lia). rewrite wider by lia. unfold is_wide. cbn [existsb]. by rewrite orb_false_r. }
  destruct (mal_uri_decode_escape seg k preserve) as [d|] eqn:Ed; [|done]. specialize (Hp _ ltac:(lia) eq_refl) as (Hw1 & Hw2 & _ & Hg).
  cbn [pc_width pc_out pc_changed] in *.
  destruct (escape_inv k preserve d ltac:(lia)) as (e & Hd & Hs & Hsp & He & _); [by rewrite (uri_unit seg us Hseg) by lia|done|].
  assert (0 <= esc_code_point d) as H0 by (unfold is_scalar in Hs; lia). destruct (esc_preserved d) eqn:Epr; cbn [negb] in *.
  - rewrite Hg. rewrite slice_len by lia. rewrite Z.sub_diag, Z.add_0_r, Hmax by lia. rewrite orb_false_r.
    destruct (escape_slice k e _ ltac:(lia) Hd) as (Hsl & _ & _). replace (esc_end d - k + 1) with (arr_len e) by lia. rewrite Hsl.
    rewrite (ascii_narrow e) by (by eapply spells_ascii). rewrite orb_false_r. rewrite IH by lia. f_equal. lia.
  - fold (decoded_units (esc_code_point d)). fold (decoded_units (esc_code_point d)) in Hg. rewrite (decoded_units_eq _ Hs), (utf16_wide _ Hs), orb_true_r.
    rewrite decoded_units_eq in Hg by done. rewrite Hmax by lia. rewrite <- wider by lia.
    assert ((if esc_code_point d <=? 0xFFFF then 1 else 2) = arr_len (utf16_of (esc_code_point d))) as ->.
    { unfold utf16_of. destruct (Z.leb_spec (esc_code_point d) 0xFFFF), (Z.ltb_spec (esc_code_point d) 0x10000); done || lia. }
    pose proof (utf16_of_len (esc_code_point d)). unfold u64. rewrite wrap_small by (unfold in_u; lia).
    rewrite IH by (rewrite ?Z.lor_nonneg; lia). f_equal; lia.
Qed.
Lemma decode_write_pass fuel : forall k output, decode_write fuel seg preserve k output = pass_write (arr_len us) decode_step fuel k output.
Proof using Hseg.
  induction fuel as [|fuel IH]; intros k output; cbn [decode_write pass_write]; [done|]. rewrite (seg_len seg us Hseg). unfold decode_step at 1.
  destruct (k <? arr_len us); [|done]. destruct (negb _).
  - cbn [push_all]. destruct (mal_uri_output_push output _); cbn; [apply IH|done|done].
  - destruct (mal_uri_decode_escape seg k preserve) as [d|]; [|done]. replace (k + (esc_end d - k + 1)) with (esc_end d + 1) by lia.
    destruct (esc_preserved d); [|destruct (_ <=? _)]; cbn [push_all];
      repeat (match goal with |- context [mbind _ ?m] => destruct m; cbn [mbind outcome_bind]; [|done|done] end); apply IH.
Qed.

(** The text of the pass is what the grammar says. *)
Lemma step_decodes k p t :
  0 <= k < arr_len us -> decode_step k = Some p -> decodes preserve (drop (Z.to_nat (k + pc_width p)) us) t ->
  decodes preserve (drop (Z.to_nat k) us) (pc_out p ++ t).
Proof using Hseg.
  intros Hk E Ht. destruct (decode_step_inv k p Hk E) as [[Hne ->]|(e & s & Hd & Hs & Hsp & ->)]; cbn [pc_width pc_out escape_piece] in *.
  - rewrite drop_get_cons by lia. by constructor.
  - rewrite Hd. destruct (kept s) eqn:Ek; [apply (dec_kept _ e s); auto; by apply kept_spec|apply (dec_scalar _ e s); auto; by apply not_kept_spec].
Qed.
Lemma decodes_step k t :
  0 <= k < arr_len us -> decodes preserve (drop (Z.to_nat k) us) t ->
  exists p t', decode_step k = Some p /\ t = pc_out p ++ t' /\ decodes preserve (drop (Z.to_nat (k + pc_width p)) us) t'.
Proof using Hseg.
  intros Hk Hdec. inversion Hdec as [E|u us' t' Hne Ht E|e s us' t' Hs Hsp Hkept Ht E|e s us' t' Hs Hsp Hkept Ht E]; subst.
  - rewrite drop_get_cons in E by lia. done.
  - rewrite drop_get_cons in E by lia. injection E as -> ->. exists (mkPiece 1 [arr_get us k] false), t'. split; [by apply decode_step_unit|]. by split.
  - exists (escape_piece e s), t'. symmetry in E. split; [by eapply decode_step_escape|]. unfold escape_piece. rewrite (proj2 (kept_spec s) Hkept). cbn [pc_out pc_width].
    split; [done|]. by destruct (escape_slice k e us' ltac:(lia) E) as (_ & _ & ->).
  - exists (escape_piece e s), t'. symmetry in E. split; [by eapply decode_step_escape|]. unfold escape_piece. rewrite (proj2 (not_kept_spec s) Hkept). cbn [pc_out pc_width].
    split; [done|]. by destruct (escape_slice k e us' ltac:(lia) E) as (_ & _ & ->).
Qed.
Lemma decode_pass_text fuel : forall k,
  0 <= k <= arr_len us -> (Z.to_nat (arr_len us - k) < fuel)%nat ->
  match pass_text (arr_len us) decode_step fuel k with
  | Some (t, _) => forall t', decodes preserve (drop (Z.to_nat k) us) t' <-> t' = t
  | None => forall t', ~ decodes preserve (drop (Z.to_nat k) us) t'
  end.
Proof using Hseg.
  induction fuel as [|fuel IH]; intros k Hk Hf; [lia|]. cbn [pass_text]. destruct (Z.ltb_spec k (arr_len us)); cycle 1.
  { rewrite drop_end by lia. intros t'. split; [intros Hd; inversion Hd as [| |e s ? ? ? Hsp _ _ E|e s ? ? ? Hsp _ _ E]; [done| |];
      destruct (spells_head _ _ Hsp) as (e' & -> & _); discriminate E|intros ->; constructor]. }
  destruct (decode_step k) as [p|] eqn:Es; cbn [mbind option_bind]; cycle 1.
  { intros t' Hd%decodes_step; [|lia]. destruct Hd as (p & t & E & _). congruence. }
  destruct (decode_step_props k p ltac:(lia) Es) as (Hw1 & Hw2 & _). specialize (IH (k + pc_width p) ltac:(lia) ltac:(lia)).
  destruct (pass_text _ _ fuel _) as [[t c]|]; cbn [mbind option_bind].
  - intros t'. split.
    + intros Hd%decodes_step; [|lia]. destruct Hd as (p' & t1 & E & -> & Hd). simplify_eq. f_equal. by apply IH.
    + intros ->. apply step_decodes; [lia|done|]. by apply IH.
  - intros t' Hd%decodes_step; [|lia]. destruct Hd as (p' & t1 & E & -> & Hd). simplify_eq. by apply (IH t1).
Qed.
End decode.

(** ** unescape *)

Lemma quad_value a b c d :
  0 <= a < 16 -> 0 <= b < 16 -> 0 <= c < 16 -> 0 <= d < 16 ->
  u16 (Z.lor (Z.lor (Z.lor (Z.shiftl a 12) (Z.shiftl b 8)) (Z.shiftl c 4)) d) = ((a * 16 + b) * 16 + c) * 16 + d.
Proof using Type.
  intros Ha Hb Hc Hd. assert (forall x y n m, n = m + 4 -> 0 <= m -> 0 <= y < 16 -> Z.lor (Z.shiftl x n) (Z.shiftl y m) = Z.shiftl (x * 16 + y) m) as Hl.
  { intros x y n m -> Hm Hy. rewrite (Z.add_comm m 4), <- Z.shiftl_shiftl, <- Z.shiftl_lor by lia. f_equal. rewrite lor_shiftl_add' by lia. lia. }
  rewrite (Hl a b 12 8), (Hl _ c 8 4) by lia. rewrite lor_shiftl_add' by lia. unfold u16. rewrite wrap_small; [lia|unfold in_u; lia].
Qed.

(** An escape at the front of a text: its width and its unit. *)
Definition starts_escape (us : list Z) : Prop :=
  (exists a b c d va vb vc vd rest, us = 37 :: 117 :: a :: b :: c :: d :: rest /\ hex_value a va /\ hex_value b vb /\ hex_value c vc /\ hex_value d vd) \/
  (exists h l a b rest, us = 37 :: h :: l :: rest /\ hex_value h a /\ hex_value l b).
(** ECMA-262 unescape: [%uXXXX] and [%XX] become units, all else stays. *)
Inductive unescapes : list Z -> list Z -> Prop :=
  | un_nil : unescapes [] []
  | un_quad a b c d va vb vc vd us t :
      hex_value a va -> hex_value b vb -> hex_value c vc -> hex_value d vd -> unescapes us t ->
      unescapes (37 :: 117 :: a :: b :: c :: d :: us) (((va * 16 + vb) * 16 + vc) * 16 + vd :: t)
  | un_pair h l a b us t : hex_value h a -> hex_value l b -> unescapes us t -> unescapes (37 :: h :: l :: us) (a * 16 + b :: t)
  | un_unit u us t : ~ starts_escape (u :: us) -> unescapes us t -> unescapes (u :: us) (u :: t).

Lemma hex_quad_spec k a b c d rest :
  0 <= k -> drop (Z.to_nat k) us = a :: b :: c :: d :: rest ->
  (exists va vb vc vd, hex_value a va /\ hex_value b vb /\ hex_value c vc /\ hex_value d vd /\
     mal_uri_hex_quad seg k = Some (((va * 16 + vb) * 16 + vc) * 16 + vd)) \/
  (mal_uri_hex_quad seg k = None /\ forall va vb vc vd, ~ (hex_value a va /\ hex_value b vb /\ hex_value c vc /\ hex_value d vd)).
Proof using Hseg.
  intros Hk Hd0. destruct (suffix_at k _ _ Hk Hd0) as (E0 & _ & Hd1). destruct (suffix_at (k + 1) _ _ ltac:(lia) Hd1) as (E1 & _ & Hd2).
  destruct (suffix_at (k + 1 + 1) _ _ ltac:(lia) Hd2) as (E2 & _ & Hd3). destruct (suffix_at (k + 1 + 1 + 1) _ _ ltac:(lia) Hd3) as (E3 & _ & _).
  unfold mal_uri_hex_quad. replace (k + 2) with (k + 1 + 1) by lia. replace (k + 3) with (k + 1 + 1 + 1) by lia. rewrite E0, E1, E2, E3.
  set (va := mal_hex_decode_digit a). set (vb := mal_hex_decode_digit b). set (vc := mal_hex_decode_digit c). set (vd := mal_hex_decode_digit d).
  destruct ((va <? 0) || (vb <? 0) || (vc <? 0) || (vd <? 0)) eqn:E.
  - right. split; [done|]. intros wa wb wc wd ([Ea ?]%hex_value_digit & [Eb ?]%hex_value_digit & [Ec ?]%hex_value_digit & [Ed ?]%hex_value_digit). lia.
  - left. exists va, vb, vc, vd. destruct (hex_digit_value a va eq_refl ltac:(lia)), (hex_digit_value b vb eq_refl ltac:(lia)),
      (hex_digit_value c vc eq_refl ltac:(lia)), (hex_digit_value d vd eq_refl ltac:(lia)). rewrite quad_value by lia. done.
Qed.

(** What is read at a position. *)
Inductive unescape_view (k : Z) : Z * Z -> Prop :=
  | UvQuad a b c d va vb vc vd :
      drop (Z.to_nat k) us = 37 :: 117 :: a :: b :: c :: d :: drop (Z.to_nat (k + 6)) us ->
      hex_value a va -> hex_value b vb -> hex_value c vc -> hex_value d vd -> unescape_view k (6, ((va * 16 + vb) * 16 + vc) * 16 + vd)
  | UvPair h l a b :
      drop (Z.to_nat k) us = 37 :: h :: l :: drop (Z.to_nat (k + 3)) us -> hex_value h a -> hex_value l b -> unescape_view k (3, a * 16 + b)
  | UvUnit : ~ starts_escape (drop (Z.to_nat k) us) -> unescape_view k (1, arr_get us k).
Lemma suffix_length k pre rest : 0 <= k <= arr_len us -> drop (Z.to_nat k) us = pre ++ rest -> k + arr_len pre <= arr_len us.
Proof using Type. intros Hk Hd. by apply (escape_slice k pre rest). Qed.
Lemma quad_at k :
  0 <= k < arr_len us ->
  match (if (mal_uri_unit seg k =? 37) && (k + 5 <? seg_length seg) && (mal_uri_unit seg (k + 1) =? 117) then mal_uri_hex_quad seg (k + 2) else None) with
  | Some v => unescape_view k (6, v)
  | None => forall a b c d va vb vc vd rest,
      drop (Z.to_nat k) us = 37 :: 117 :: a :: b :: c :: d :: rest -> ~ (hex_value a va /\ hex_value b vb /\ hex_value c vc /\ hex_value d vd)
  end.
Proof using Hseg.
  intros Hk. rewrite (seg_len seg us Hseg). destruct ((mal_uri_unit seg k =? 37) && (k + 5 <? arr_len us) && (mal_uri_unit seg (k + 1) =? 117)) eqn:E.
  - apply andb_true_iff in E as [[E0%Z.eqb_eq Hlt%Z.ltb_lt]%andb_true_iff E1%Z.eqb_eq]. rewrite !(uri_unit seg us Hseg) in * by lia.
    assert (forall i, 0 <= i < arr_len us -> drop (Z.to_nat i) us = arr_get us i :: drop (Z.to_nat (i + 1)) us) as Hc by (intros; by apply drop_get_cons).
    pose proof (Hc k ltac:(lia)) as D0. rewrite (Hc (k + 1)) in D0 by lia. replace (k + 1 + 1) with (k + 2) in D0 by lia. rewrite E0, E1 in D0.
    pose proof (Hc (k + 2) ltac:(lia)) as D2. rewrite (Hc (k + 2 + 1)), (Hc (k + 2 + 1 + 1)), (Hc (k + 2 + 1 + 1 + 1)) in D2 by lia.
    replace (k + 2 + 1 + 1 + 1 + 1) with (k + 6) in D2 by lia. rewrite D2 in D0.
    destruct (hex_quad_spec (k + 2) _ _ _ _ _ ltac:(lia) D2) as [(va & vb & vc & vd & Ha & Hb & Hcc & Hd & ->)|[-> Hno]].
    + by eapply UvQuad.
    + intros a b c d va vb vc vd rest Hd Hv. rewrite D0 in Hd. injection Hd as <- <- <- <- _. by apply (Hno va vb vc vd).
  - intros a b c d va vb vc vd rest Hd _. pose proof (suffix_length k [37; 117; a; b; c; d] rest ltac:(lia) Hd) as Hl.
    destruct (suffix_at k _ _ ltac:(lia) Hd) as (E0 & _ & Hd1). destruct (suffix_at (k + 1) _ _ ltac:(lia) Hd1) as (E1 & _ & _).
    rewrite E0, E1 in E. unfold arr_len in Hl at 1. cbn [length] in Hl. lia.
Qed.
Lemma pair_at k :
  0 <= k < arr_len us ->
  match (if (mal_uri_unit seg k =? 37) && (k + 2 <? seg_length seg) then mal_uri_hex_pair_at seg (k + 1) else None) with
  | Some v => unescape_view k (3, v)
  | None => forall h l a b rest, drop (Z.to_nat k) us = 37 :: h :: l :: rest -> ~ (hex_value h a /\ hex_value l b)
  end.
Proof using Hseg.
  intros Hk. rewrite (seg_len seg us Hseg). destruct ((mal_uri_unit seg k =? 37) && (k + 2 <? arr_len us)) eqn:E.
  - apply andb_true_iff in E as [E0%Z.eqb_eq Hlt%Z.ltb_lt]. destruct (mal_uri_hex_pair_at seg (k + 1)) as [v|] eqn:Ev.
    + destruct (octet_inv k v ltac:(lia) Hlt E0 Ev) as (h & l & a & b & Hd & Hh & Hl & -> & _). by eapply UvPair.
    + intros h l a b rest Hd [Hh Hl]. destruct (octet_here k h l a b rest ltac:(lia) Hd Hh Hl) as (_ & _ & E1 & _). congruence.
  - intros h l a b rest Hd [Hh Hl]. destruct (octet_here k h l a b rest ltac:(lia) Hd Hh Hl) as (Hlt & E0 & _). rewrite E0 in E. lia.
Qed.
Lemma unescape_at_view k : 0 <= k < arr_len us -> unescape_view k (mal_uri_unescape_at seg k).
Proof using Hseg.
  intros Hk. unfold mal_uri_unescape_at. cbv zeta. pose proof (quad_at k Hk) as Hq. destruct (if _ && _ && _ then _ else _); [done|].
  pose proof (pair_at k Hk) as Hp. destruct (if _ && _ then _ else _); [done|]. rewrite (uri_unit seg us Hseg) by lia. constructor.
  intros [(a & b & c & d & va & vb & vc & vd & rest & Hd & Hv)|(h & l & a & b & rest & Hd & Hv)]; [by apply (Hq _ _ _ _ va vb vc vd _ Hd)|by apply (Hp _ _ a b _ Hd)].
Qed.

Definition unescape_step (k : Z) : option piece :=
  let '(width, decoded) := mal_uri_unescape_at seg k in Some (mkPiece width [decoded] (negb (width =? 1))).

Lemma hex_value_range h a : hex_value h a -> 0 <= a < 16.
Proof using Type. unfold hex_value. lia. Qed.
Lemma unescape_at_props k :
  0 <= k < arr_len us -> let '(w, d) := mal_uri_unescape_at seg k in
  1 <= w /\ k + w <= arr_len us /\ in_u 16 d /\ (w = 1 -> d = arr_get us k).
Proof using Hseg.
  intros Hk. pose proof (us_unit seg us Hseg k Hk) as Hu.
  destruct (unescape_at_view k Hk) as [a b c d va vb vc vd Hd Ha%hex_value_range Hb%hex_value_range Hc%hex_value_range Hdd%hex_value_range
    |h l a b Hd Ha%hex_value_range Hb%hex_value_range|Hno].
  - pose proof (suffix_length k [37; 117; a; b; c; d] _ ltac:(lia) Hd) as Hl. unfold arr_len in Hl at 1. cbn [length] in Hl. unfold in_u. lia.
  - pose proof (suffix_length k [37; h; l] _ ltac:(lia) Hd) as Hl. unfold arr_len in Hl at 1. cbn [length] in Hl. unfold in_u. lia.
  - split; [lia|]. split; [lia|]. split; [done|done].
Qed.
Lemma unescape_step_props k p :
  0 <= k < arr_len us -> unescape_step k = Some p ->
  1 <= pc_width p /\ k + pc_width p <= arr_len us /\ Forall (in_u 16) (pc_out p) /\
  (if pc_changed p then 0 < -1 * (arr_len (pc_out p) - pc_width p) else pc_out p = slice us k (pc_width p)).
Proof using Hseg.
  intros Hk E. unfold unescape_step in E. pose proof (unescape_at_props k Hk) as Hp. destruct (mal_uri_unescape_at seg k) as [w d].
  destruct Hp as (Hw1 & Hw2 & Hd & Hu). simplify_eq. cbn [pc_width pc_out pc_changed]. split; [done|]. split; [done|]. split; [constructor; [done|constructor]|].
  destruct (Z.eqb_spec w 1) as [->|]; cbn [negb]; [|unfold arr_len; cbn [length]; lia]. rewrite Hu by done. unfold slice. by rewrite drop_get_cons by lia.
Qed.
Lemma unescape_size_pass fuel : forall k rl ch widest,
  0 <= k <= arr_len us -> arr_len us - k <= rl <= MAL_STRING_MAX_CODE_UNITS -> 0 <= widest ->
  unescape_size fuel seg k rl ch widest = pass_size (arr_len us) unescape_step fuel k rl ch (0xFF <? widest).
Proof using Hseg.
  unfold MAL_STRING_MAX_CODE_UNITS, INT32_MAX.
  induction fuel as [|fuel IH]; intros k rl ch widest Hk Hrl Hw; cbn [unescape_size pass_size]; [done|]. rewrite (seg_len seg us Hseg).
  destruct (Z.ltb_spec k (arr_len us)); [|done]. pose proof (unescape_at_props k ltac:(lia)) as Hp. unfold unescape_step at 1.
  destruct (mal_uri_unescape_at seg k) as [w d]. destruct Hp as (Hw1 & Hw2 & Hd & _). unfold in_u in Hd. change (arr_len [d]) with 1.
  destruct (Z.ltb_spec MAL_STRING_MAX_CODE_UNITS (rl + (1 - w))); [unfold MAL_STRING_MAX_CODE_UNITS, INT32_MAX in *; lia|].
  unfold u64. rewrite wrap_small by (unfold in_u; lia). rewrite IH by (rewrite ?Z.lor_nonneg; lia). rewrite wider by lia.
  unfold is_wide. cbn [existsb]. rewrite orb_false_r. f_equal. lia.
Qed.
Lemma unescape_write_pass fuel : forall k output, unescape_write fuel seg k output = pass_write (arr_len us) unescape_step fuel k output.
Proof using Hseg.
  induction fuel as [|fuel IH]; intros k output; cbn [unescape_write pass_write]; [done|]. rewrite (seg_len seg us Hseg). unfold unescape_step at 1.
  destruct (k <? arr_len us); [|done]. destruct (mal_uri_unescape_at seg k) as [w d]. cbn [push_all].
  destruct (mal_uri_output_push output d); cbn; [apply IH|done|done].
Qed.
(** The pass computes the one text unescape gives. *)
Lemma step_unescapes k p t :
  0 <= k < arr_len us -> unescape_step k = Some p -> unescapes (drop (Z.to_nat (k + pc_width p)) us) t ->
  unescapes (drop (Z.to_nat k) us) (pc_out p ++ t).
Proof using Hseg.
  intros Hk E Ht. unfold unescape_step in E. pose proof (unescape_at_view k Hk) as Hv. destruct (mal_uri_unescape_at seg k) as [w d].
  simplify_eq. cbn [pc_width pc_out app] in *. inversion Hv as [a b c d' va vb vc vd Hd|h l a b Hd|Hno]; subst.
  - rewrite Hd. by constructor.
  - rewrite Hd. by constructor.
  - rewrite drop_get_cons in Hno |- * by lia. by constructor.
Qed.
Lemma unescape_pass_text fuel : forall k,
  0 <= k <= arr_len us -> (Z.to_nat (arr_len us - k) < fuel)%nat ->
  exists t ch, pass_text (arr_len us) unescape_step fuel k = Some (t, ch) /\ unescapes (drop (Z.to_nat k) us) t.
Proof using Hseg.
  induction fuel as [|fuel IH]; intros k Hk Hf; [lia|]. cbn [pass_text]. destruct (Z.ltb_spec k (arr_len us)); cycle 1.
  { exists [], false. rewrite drop_end by lia. split; [done|constructor]. }
  assert (exists p, unescape_step k = Some p) as [p Es] by (unfold unescape_step; destruct (mal_uri_unescape_at seg k); eauto).
  destruct (unescape_step_props k p ltac:(lia) Es) as (Hw1 & Hw2 & _). destruct (IH (k + pc_width p) ltac:(lia) ltac:(lia)) as (t & ch & E & Ht).
  rewrite Es. cbn [mbind option_bind]. rewrite E. cbn [mbind option_bind]. do 2 eexists. split; [done|]. apply step_unescapes; [lia|done|done].
Qed.
End input.
