(* ===== verification/UriTheorems.v ===== *)
(** The properties of URI coding (Uri): each function computes the text its grammar gives,
    fails exactly where there is none, and decoding undoes encoding. *)

From S2P Require Import Prelude CheckedSize HeapString HeapStringSpec Base64 Utf UtfSpec Uri UriSpec.

(** The text a call returned. *)
Definition result_text (us : list Z) (r : UriResult) : option (list Z) :=
  match r with UriThrew _ => None | UriArgument => Some us | UriString _ t => Some t end.

(** * Values of texts *)

Lemma hex_value_inj h a b : hex_value h a -> hex_value h b -> a = b.
Proof. unfold hex_value. lia. Qed.
Lemma digit_value n : 0 <= n < 16 -> hex_value (digit_text n) n.
Proof. unfold hex_value, digit_text. intros Hn. destruct (Z.ltb_spec n 10); lia. Qed.
Lemma u_not_hex a : ~ hex_value 117 a.
Proof. unfold hex_value. lia. Qed.

Lemma unescapes_det us t : unescapes us t -> forall t', unescapes us t' -> t' = t.
Proof.
  assert (forall u us, u = 37 \/ ~ starts_escape (u :: us)) as Hpct.
  { intros u us0. destruct (Z.eq_dec u 37); [by left|right]. intros [(? & ? & ? & ? & ? & ? & ? & ? & ? & [= ] & _)|(? & ? & ? & ? & ? & [= ] & _)]; lia. }
  induction 1 as [|a b c d va vb vc vd us t Ha Hb Hc Hd _ IH|h l a b us t Hh Hl _ IH|u us t Hno _ IH]; intros t' Ht'.
  - by inversion Ht'.
  - inversion Ht' as [|? ? ? ? wa wb wc wd ? ? Ha' Hb' Hc' Hd'|? ? ? ? ? ? Hu|? ? ? Hno]; subst.
    + rewrite (hex_value_inj _ _ _ Ha' Ha), (hex_value_inj _ _ _ Hb' Hb), (hex_value_inj _ _ _ Hc' Hc), (hex_value_inj _ _ _ Hd' Hd). f_equal. by apply IH.
    + by apply u_not_hex in Hu.
    + destruct Hno. left. by do 9 eexists.
  - inversion Ht' as [|? ? ? ? ? ? ? ? ? ? ? ? ? ? ? E|? ? wa wb ? ? Hh' Hl'|? ? ? Hno]; subst.
    + by apply u_not_hex in Hh.
    + rewrite (hex_value_inj _ _ _ Hh' Hh), (hex_value_inj _ _ _ Hl' Hl). f_equal. by apply IH.
    + destruct Hno. right. by do 5 eexists.
  - inversion Ht' as [|? ? ? ? ? ? ? ? ? ? ? ? ? ? ? E|? ? wa wb ? ? Hh' Hl'|? ? ? ? Ht]; subst.
    + destruct Hno. left. by do 9 eexists.
    + destruct Hno. right. by do 5 eexists.
    + f_equal. by apply IH.
Qed.

(** * What the functions return *)

Section functions.
Variable grant : Z -> bool.
Variable raw : Z -> Z.
Context (seg : MalStringSegment) (us : list Z).
Hypothesis Hseg : seg_ok seg us.
Hypothesis Hus : arr_len us <= MAL_STRING_MAX_CODE_UNITS.

Lemma fuel_enough : (length us < uri_fuel seg)%nat.
Proof using Hseg. unfold uri_fuel. rewrite (seg_len seg us Hseg). unfold arr_len. lia. Qed.

Lemma encode_known_pass component :
  mal_builtin_uri_encode_known grant raw seg component = pass_known grant raw us (encode_step seg component) (uri_fuel seg).
Proof using Hseg Hus.
  pose proof (arr_len_nonneg us). unfold mal_builtin_uri_encode_known, pass_known. rewrite (seg_len seg us Hseg).
  rewrite (encode_size_pass seg us Hseg) by lia. destruct (pass_size _ _ _ _ _ _ _) as [[e|[[n c] w]]| |]; try done.
  cbn [mbind outcome_bind write_result]. destruct (negb c); [done|]. destruct (mal_uri_output_alloc _ _ _ _); [done|].
  by rewrite (encode_write_pass seg us Hseg).
Qed.
Lemma encode_known component :
  match encode_text component us with
  | Some t => mal_builtin_uri_encode_known grant raw seg component
      = Ret (if MAL_STRING_MAX_CODE_UNITS <? arr_len t then UriThrew ThrowRangeError else text_result grant t (negb (bool_decide (t = us))))
  | None => exists e, mal_builtin_uri_encode_known grant raw seg component = Ret (UriThrew e) /\
      (e = ThrowUriError \/ (e = ThrowRangeError /\ MAL_STRING_MAX_CODE_UNITS < 9 * arr_len us))
  end.
Proof using Hseg Hus.
  rewrite encode_known_pass. pose proof (arr_len_nonneg us). pose proof fuel_enough as Hf.
  pose proof (encode_step_props seg us Hseg component) as Hp.
  pose proof (encode_pass_text seg us Hseg component (uri_fuel seg) 0 ltac:(lia) ltac:(unfold arr_len; lia)) as Ht. rewrite drop_0 in Ht. rewrite <- Ht.
  assert (forall k p, 0 <= k < arr_len us -> encode_step seg component k = Some p -> 1 <= pc_width p /\ k + pc_width p <= arr_len us) as Hw
    by (intros k p Hk E; destruct (Hp k p Hk E); tauto).
  pose proof (known_growing grant raw us (encode_step seg component) (uri_fuel seg) Hus Hf Hw) as Hk.
  specialize (Hk ltac:(intros k p Hkk E; destruct (Hp k p Hkk E) as (_ & _ & Ha & _); by apply ascii_units)).
  specialize (Hk ltac:(intros k p Hkk E; by destruct (Hp k p Hkk E) as (_ & _ & _ & _ & ?))).
  destruct (pass_text _ _ _ 0) as [[t ch]|]; cbn [fmap option_fmap option_map fst]; [done|].
  destruct Hk as [->|[-> Hr]]; [exists ThrowUriError; auto|]. exists ThrowRangeError. split; [done|]. right. split; [done|].
  destruct (Z.le_gt_cases (9 * arr_len us) MAL_STRING_MAX_CODE_UNITS); [|lia]. exfalso.
  apply (size_short _ _ Hw (uri_fuel seg) 0 (arr_len us) false false); [|lia|lia|done].
  intros k p Hkk E. by destruct (Hp k p Hkk E) as (_ & _ & _ & ? & _).
Qed.

Lemma encode_known_text component ss :
  Forall is_scalar ss -> us = flat_map utf16_of ss ->
  let t := flat_map (escape_scalar component) ss in
  mal_builtin_uri_encode_known grant raw seg component
  = Ret (if MAL_STRING_MAX_CODE_UNITS <? arr_len t then UriThrew ThrowRangeError else text_result grant t (negb (bool_decide (t = us)))).
Proof using Hseg Hus.
  intros Hss Eu t. pose proof (encode_known component) as H. unfold encode_text in H.
  assert (utf16_scalars us = ss) as Es by (rewrite Eu; by apply scalars_of_utf16).
  assert (utf16_well_formed us = true) as Hw by (apply replaced_units; [apply Hseg|by rewrite Es]).
  by rewrite Hw, Es in H.
Qed.
Lemma encode_known_lone component ss bad :
  Forall is_scalar ss -> us = flat_map utf16_of ss ++ bad -> lone_front bad ->
  mal_builtin_uri_encode_known grant raw seg component
  = Ret (UriThrew (if MAL_STRING_MAX_CODE_UNITS <? arr_len (flat_map (escape_scalar component) ss) + arr_len bad then ThrowRangeError else ThrowUriError)).
Proof using Hseg Hus.
  intros Hss Eu Hl. rewrite encode_known_pass. pose proof fuel_enough as Hf. pose proof (encode_step_props seg us Hseg component) as Hp.
  rewrite (known_stopping grant raw us (encode_step seg component) (uri_fuel seg) Hus Hf) with (j := arr_len us - arr_len bad) (t := flat_map (escape_scalar component) ss).
  - by replace (arr_len us - (arr_len us - arr_len bad)) with (arr_len bad) by lia.
  - intros k p Hk E. destruct (Hp k p Hk E); tauto.
  - intros k p Hk E. by destruct (Hp k p Hk E) as (_ & _ & _ & _ & ?).
  - apply encode_stop; [done|done|lia|by rewrite drop_0|done|unfold arr_len; lia].
Qed.

Lemma escape_known :
  mal_builtin_uri_escape_known grant raw seg
  = Ret (if MAL_STRING_MAX_CODE_UNITS <? arr_len (escape_text us) then UriThrew ThrowRangeError
         else text_result grant (escape_text us) (negb (bool_decide (escape_text us = us)))).
Proof using Hseg Hus.
  pose proof (arr_len_nonneg us). pose proof fuel_enough as Hf. pose proof (escape_step_props seg us Hseg) as Hp.
  assert (mal_builtin_uri_escape_known grant raw seg = pass_known grant raw us (escape_step us) (uri_fuel seg)) as ->.
  { unfold mal_builtin_uri_escape_known, pass_known. rewrite (seg_len seg us Hseg). rewrite (escape_size_pass seg us Hseg) by lia.
    destruct (pass_size _ _ _ _ _ _ _) as [[e|[[n c] w]]| |]; try done. cbn [mbind outcome_bind write_result].
    destruct (negb c); [done|]. destruct (mal_uri_output_alloc _ _ _ _); [done|]. by rewrite (escape_write_pass seg us Hseg) by lia. }
  pose proof (escape_pass_text us (uri_fuel seg) 0 ltac:(lia) ltac:(unfold arr_len; lia)) as Ht. rewrite drop_0 in Ht.
  pose proof (known_growing grant raw us (escape_step us) (uri_fuel seg) Hus Hf) as Hk.
  destruct (pass_text _ _ _ 0) as [[t ch]|]; [|done]. cbn in Ht. injection Ht as ->. apply Hk; intros k p Hkk E; destruct (Hp k p Hkk E) as (? & ? & ? & ?); auto using ascii_units.
Qed.

Lemma decode_known preserve :
  (exists t, decodes preserve us t /\ mal_builtin_uri_decode_known grant raw seg preserve = Ret (text_result grant t (negb (bool_decide (t = us))))) \/
  ((forall t, ~ decodes preserve us t) /\ mal_builtin_uri_decode_known grant raw seg preserve = Ret (UriThrew ThrowUriError)).
Proof using Hseg Hus.
  pose proof (arr_len_nonneg us). pose proof fuel_enough as Hf. pose proof (decode_step_props seg us Hseg preserve) as Hp.
  assert (mal_builtin_uri_decode_known grant raw seg preserve = pass_known grant raw us (decode_step seg preserve) (uri_fuel seg)) as ->.
  { unfold mal_builtin_uri_decode_known, pass_known. rewrite (seg_len seg us Hseg). rewrite (decode_size_pass seg us Hseg) by lia.
    change (0xFF <? 0) with false. destruct (pass_size _ _ _ _ _ _ _) as [[e|[[n c] w]]| |]; try done. cbn [mbind outcome_bind write_result].
    destruct (negb c); [done|]. destruct (mal_uri_output_alloc _ _ _ _); [done|]. by rewrite (decode_write_pass seg us Hseg). }
  pose proof (decode_pass_text seg us Hseg preserve (uri_fuel seg) 0 ltac:(lia) ltac:(unfold arr_len; lia)) as Ht. rewrite drop_0 in Ht.
  rewrite (known_shrinking grant raw us (decode_step seg preserve) (uri_fuel seg) Hus Hf);
    [|intros k p Hk E; destruct (Hp k p Hk E) as (? & ? & ? & ?); done..].
  destruct (pass_text _ _ _ 0) as [[t ch]|]; [left; exists t; split; [by apply Ht|done]|right; by split].
Qed.
Lemma decode_known_text preserve t :
  decodes preserve us t -> mal_builtin_uri_decode_known grant raw seg preserve = Ret (text_result grant t (negb (bool_decide (t = us)))).
Proof using Hseg Hus.
  intros Hd. destruct (decode_known preserve) as [(t' & Hd' & E)|[Hno _]]; [|by destruct (Hno t)]. rewrite E.
  pose proof (decode_pass_text seg us Hseg preserve (uri_fuel seg) 0 ltac:(pose proof (arr_len_nonneg us); lia)
    ltac:(pose proof fuel_enough; unfold arr_len; lia)) as Ht. rewrite drop_0 in Ht.
  destruct (pass_text _ _ _ 0) as [[t0 ch]|]; [|by destruct (Ht t)]. apply Ht in Hd, Hd'. by subst.
Qed.

Lemma unescape_known :
  exists t, unescapes us t /\ mal_builtin_uri_unescape_known grant raw seg = Ret (text_result grant t (negb (bool_decide (t = us)))).
Proof using Hseg Hus.
  pose proof (arr_len_nonneg us). pose proof fuel_enough as Hf. pose proof (unescape_step_props seg us Hseg) as Hp.
  assert (mal_builtin_uri_unescape_known grant raw seg = pass_known grant raw us (unescape_step seg) (uri_fuel seg)) as ->.
  { unfold mal_builtin_uri_unescape_known, pass_known. rewrite (seg_len seg us Hseg). rewrite (unescape_size_pass seg us Hseg) by lia.
    change (0xFF <? 0) with false. destruct (pass_size _ _ _ _ _ _ _) as [[e|[[n c] w]]| |]; try done. cbn [mbind outcome_bind write_result].
    destruct (negb c); [done|]. destruct (mal_uri_output_alloc _ _ _ _); [done|]. by rewrite (unescape_write_pass seg us Hseg). }
  destruct (unescape_pass_text seg us Hseg (uri_fuel seg) 0 ltac:(lia) ltac:(unfold arr_len; lia)) as (t & ch & Et & Ht). rewrite drop_0 in Ht.
  exists t. split; [done|]. rewrite (known_shrinking grant raw us (unescape_step seg) (uri_fuel seg) Hus Hf);
    [by rewrite Et|intros k p Hk E; destruct (Hp k p Hk E) as (? & ? & ? & ?); done..].
Qed.
End functions.

(** * Decoding undoes encoding *)

Lemma octet_spelled bs : Forall (in_u 8) bs -> spells (flat_map octet_text bs) bs.
Proof.
  induction 1 as [|b bs Hb _ IH]; [constructor|]. unfold in_u in Hb. cbn [flat_map octet_text app].
  rewrite (Z.div_mod b 16) at 3 by lia. rewrite Z.mul_comm. constructor; [| |done]; apply digit_value; Z.to_euclidean_division_equations; lia.
Qed.
Lemma escape_scalar_decodes component ss :
  Forall is_scalar ss -> decodes (negb component) (flat_map (escape_scalar component) ss) (flat_map utf16_of ss).
Proof.
  induction 1 as [|s ss Hs _ IH]; [constructor|]. cbn [flat_map]. unfold escape_scalar at 1. rewrite unescaped_decided. destruct (mal_uri_encode_unescaped s component) eqn:E.
  - apply unescaped_ascii in E as [Ha H37]. unfold ascii in Ha. cbn [app]. unfold utf16_of at 1. destruct (Z.ltb_spec s 0x10000); [|lia]. by constructor.
  - apply dec_scalar; [done|by apply octet_spelled, utf8_bytes| |done]. rewrite <- not_kept_spec. unfold mal_uri_encode_unescaped in E. by apply orb_false_iff in E as [_ ?].
Qed.
Lemma encode_text_decodes component us t :
  Forall (in_u 16) us -> encode_text component us = Some t -> decodes (negb component) t us.
Proof.
  unfold encode_text. intros Hf E. destruct (utf16_well_formed us) eqn:Hw; [|done]. injection E as <-.
  apply replaced_units in Hw; [|done]. rewrite <- Hw at 2. by apply escape_scalar_decodes, scalars_scalar.
Qed.
Lemma escape_text_unescapes us : Forall (in_u 16) us -> unescapes (escape_text us) us.
Proof.
  induction 1 as [|u us Hu _ IH]; [constructor|]. cbn [escape_text flat_map]. fold (escape_text us). unfold escape_unit. rewrite escape_plain_decided. unfold in_u in Hu.
  destruct (mal_uri_escape_unescaped u) eqn:E.
  - apply escape_unescaped_ascii in E as [_ H37]. cbn [app]. constructor; [|done].
    intros [(? & ? & ? & ? & ? & ? & ? & ? & ? & [= ] & _)|(? & ? & ? & ? & ? & [= ] & _)]; lia.
  - destruct (Z.ltb_spec u 256).
    + cbn [octet_text app]. replace u with (u / 16 * 16 + u mod 16) at 3 by (Z.to_euclidean_division_equations; lia).
      constructor; [| |done]; apply digit_value; Z.to_euclidean_division_equations; lia.
    + cbn [app]. replace u with (((u / 4096 * 16 + u / 256 mod 16) * 16 + u / 16 mod 16) * 16 + u mod 16) at 5 by (Z.to_euclidean_division_equations; lia).
      constructor; [..|done]; apply digit_value; Z.to_euclidean_division_equations; lia.
Qed.
Lemma text_result_text grant us t changed : grant (text_bytes t) = true -> (changed = false -> t = us) -> result_text us (text_result grant t changed) = Some t.
Proof. intros Hg Hc. unfold text_result. destruct changed; cbn [negb]; [by rewrite Hg|]. cbn. by rewrite Hc. Qed.
Lemma unchanged_eq (t us : list Z) : negb (bool_decide (t = us)) = false -> t = us.
Proof. case_bool_decide; done. Qed.
Lemma result_text_inv grant us t t' : result_text us (text_result grant t (negb (bool_decide (t = us)))) = Some t' -> t' = t.
Proof.
  unfold text_result. case_bool_decide as E; cbn [negb]; [cbn; congruence|]. destruct (grant _); cbn; congruence.
Qed.

(** Units are scalars up to the first surrogate that stands alone. *)
Lemma utf16_split us :
  Forall (in_u 16) us -> exists ss bad, Forall is_scalar ss /\ us = flat_map utf16_of ss ++ bad /\ (bad = [] \/ lone_front bad).
Proof.
  assert (forall n us, (length us < n)%nat -> Forall (in_u 16) us ->
    exists ss bad, Forall is_scalar ss /\ us = flat_map utf16_of ss ++ bad /\ (bad = [] \/ lone_front bad)) as H; [|intros Hf; by apply (H (S (length us))); [lia|]].
  induction n as [|n IH]; intros l Hl Hf; [lia|]. destruct l as [|a tl]; [exists [], []; split; [constructor|]; auto|].
  apply Forall_cons in Hf as [Ha Hf]. cbn [length] in Hl. destruct (mal_utf16_is_surrogate a) eqn:Es.
  - destruct tl as [|b rest]; [|destruct (mal_utf16_is_pair a b) eqn:Ep].
    + exists [], [a]. split; [constructor|]. split; [done|]. right. cbn. revert Es. unfold_tests. lia.
    + cbn [length] in Hl. apply Forall_cons in Hf as [_ Hf]. destruct (IH rest ltac:(lia) Hf) as (ss & bad & Hss & -> & Hb).
      exists (mal_utf16_compose_pair a b :: ss), bad. split; [constructor; [by apply pair_scalar|done]|]. split; [|done].
      cbn [flat_map]. by rewrite pair_units.
    + exists [], (a :: b :: rest). split; [constructor|]. split; [done|]. right. cbn. revert Es Ep. unfold_tests. lia.
  - destruct (IH tl ltac:(lia) Hf) as (ss & bad & Hss & -> & Hb). exists (a :: ss), bad.
    split; [constructor; [by apply unit_scalar|done]|]. split; [|done]. cbn [flat_map]. unfold utf16_of at 2. unfold in_u in Ha.
    destruct (Z.ltb_spec a 0x10000); [done|lia].
Qed.

(** The octets of a percent-encoded text are UTF-8. *)
Lemma spells_app_inv e bs1 bs2 : spells e (bs1 ++ bs2) -> exists e1 e2, e = e1 ++ e2 /\ spells e1 bs1 /\ spells e2 bs2.
Proof.
  revert e. induction bs1 as [|b bs1 IH]; intros e H; cbn [app] in H; [exists [], e; split; [done|]; split; [constructor|done]|].
  inversion H as [|h l a c e' bs Hh Hl Hsp]; subst. destruct (IH _ Hsp) as (e1 & e2 & -> & H1 & H2).
  exists (37 :: h :: l :: e1), e2. split; [done|]. split; [by constructor|done].
Qed.
Lemma spells_det e bs : spells e bs -> forall bs', spells e bs' -> bs' = bs.
Proof.
  induction 1 as [|h l a b e bs Hh Hl _ IH]; intros bs' H; inversion H as [|h' l' a' b' e' bs0 Hh' Hl' Hsp]; subst; [done|].
  rewrite (hex_value_inj _ _ _ Hh' Hh), (hex_value_inj _ _ _ Hl' Hl). f_equal. by apply IH.
Qed.
Lemma spells_app e1 e2 bs1 bs2 : spells e1 bs1 -> spells e2 bs2 -> spells (e1 ++ e2) (bs1 ++ bs2).
Proof. induction 1; intros; cbn; [done|]. constructor; auto. Qed.
Lemma spells_split e1 e2 bs : spells (e1 ++ e2) bs -> forall bs1, spells e1 bs1 -> exists bs2, bs = bs1 ++ bs2 /\ spells e2 bs2.
Proof.
  intros H bs1 H1. revert bs H. induction H1 as [|h l a b e bs1 Hh Hl _ IH]; intros bs H; cbn [app] in H; [by exists bs|].
  inversion H as [|h' l' a' b' e' bs0 Hh' Hl' Hsp]; subst. destruct (IH _ Hsp) as (bs2 & -> & H2). exists bs2. split; [|done].
  by rewrite (hex_value_inj _ _ _ Hh' Hh), (hex_value_inj _ _ _ Hl' Hl).
Qed.
Lemma decodes_octets us t : decodes false us t -> forall bs, spells us bs ->
  exists ss, Forall is_scalar ss /\ bs = flat_map utf8_of ss /\ t = flat_map utf16_of ss.
Proof.
  induction 1 as [|u us t Hu _ IH|e s us t Hs Hsp Hk|e s us t Hs Hsp _ _ IH]; intros bs Hb.
  - inversion Hb; subst. exists []. split; [constructor|done].
  - inversion Hb; subst. done.
  - by destruct Hk.
  - destruct (spells_split e us bs Hb _ Hsp) as (bs2 & -> & H2). destruct (IH _ H2) as (ss & Hf & -> & ->). exists (s :: ss). split; [by constructor|done].
Qed.
Lemma octets_decode ss : Forall is_scalar ss -> forall e, spells e (flat_map utf8_of ss) -> decodes false e (flat_map utf16_of ss).
Proof.
  induction 1 as [|s ss Hs _ IH]; intros e He; cbn [flat_map] in *; [inversion He; constructor|].
  destruct (spells_app_inv _ _ _ He) as (e1 & e2 & -> & H1 & H2). apply dec_scalar; [done|done|by intros [? _]|]. by apply IH.
Qed.

(** The UTF-8 decoder on bytes: whether they are the UTF-8 of scalars, and of which. *)
Lemma decode_report_scalars bs :
  Forall (in_u 8) bs -> arr_len bs < 2 ^ 60 ->
  (exists ss, Forall is_scalar ss /\ bs = flat_map utf8_of ss /\ mal_utf8_decode_report bs = Ret (Some (flat_map utf16_of ss, false))) \/
  (exists units, mal_utf8_decode_report bs = Ret (Some (units, true)) /\ forall ss, Forall is_scalar ss -> bs <> flat_map utf8_of ss).
Proof.
  intros Hf Hl. pose proof (arr_len_nonneg bs). unfold mal_utf8_decode_report.
  destruct (Z.ltb_spec (SIZE_MAX / 2 - 1) (arr_len bs)) as [Hbig|_].
  { exfalso. assert (2 ^ 60 <= SIZE_MAX / 2 - 1) by (by vm_compute). lia. }
  destruct (decode_loop_ok bs (S (length bs)) 0 [] false Hf) as (ss & err & E & _ & Hs & _ & _ & Hd); try (unfold arr_len in *; lia).
  rewrite E. cbn [mbind outcome_bind app]. destruct err; [right|left; exists ss; rewrite <- Hd by done; by rewrite drop_0].
  eexists. split; [done|]. intros ss' Hs' ->.
  pose proof (decode_loop_encoded (flat_map utf8_of ss') (S (length (flat_map utf8_of ss'))) ss' 0 [] false Hs' ltac:(lia) eq_refl) as E'.
  pose proof (utf8_len_scalars ss') as Hn. unfold arr_len in Hn. rewrite E' in E by lia. discriminate E.
Qed.

(** * The properties *)

(** C26. encodeURI and encodeURIComponent return on every string. The units of a string are
    the UTF-16 of scalars up to its end or up to the first surrogate that stands alone. In the
    first case the result is the text of ECMA-262 Encode for those scalars, every scalar
    outside the standard's unescaped set becoming its UTF-8 in percent escapes: in one
    allocation of exactly its length, as the argument itself when nothing needs escaping,
    and as a RangeError when it is longer than a string can be. In the second case the
    result is a URIError, unless the text before the surrogate has by then grown past the
    string limit, with the rest of the string counted as it stands, which is a RangeError. *)
Theorem uri_encode_correct grant raw seg us component :
  seg_ok seg us -> arr_len us <= MAL_STRING_MAX_CODE_UNITS ->
  (exists ss bad, Forall is_scalar ss /\ us = flat_map utf16_of ss ++ bad /\ (bad = [] \/ lone_front bad)) /\
  (forall ss, Forall is_scalar ss -> us = flat_map utf16_of ss ->
     let t := flat_map (escape_scalar component) ss in
     mal_builtin_uri_encode_known grant raw seg component
     = Ret (if MAL_STRING_MAX_CODE_UNITS <? arr_len t then UriThrew ThrowRangeError else text_result grant t (negb (bool_decide (t = us))))) /\
  (forall ss bad, Forall is_scalar ss -> us = flat_map utf16_of ss ++ bad -> lone_front bad ->
     mal_builtin_uri_encode_known grant raw seg component
     = Ret (UriThrew (if MAL_STRING_MAX_CODE_UNITS <? arr_len (flat_map (escape_scalar component) ss) + arr_len bad
                      then ThrowRangeError else ThrowUriError))).
Proof.
  intros Hs Hl. split; [apply utf16_split, Hs|]. split; [|by apply encode_known_lone].
  intros ss Hss Eu. by apply encode_known_text.
Qed.

(** C27. decodeURI and decodeURIComponent return on every string: the one text the grammar
    of ECMA-262 Decode gives, in which decodeURI leaves the escapes of the reserved
    characters and of the number sign alone, narrow exactly when all its units are Latin-1, or a
    URIError exactly when the input is not in the grammar. *)
Theorem uri_decode_correct grant raw seg us preserve :
  seg_ok seg us -> arr_len us <= MAL_STRING_MAX_CODE_UNITS ->
  (exists t, (forall t', decodes preserve us t' <-> t' = t) /\
     mal_builtin_uri_decode_known grant raw seg preserve = Ret (text_result grant t (negb (bool_decide (t = us))))) \/
  ((forall t, ~ decodes preserve us t) /\ mal_builtin_uri_decode_known grant raw seg preserve = Ret (UriThrew ThrowUriError)).
Proof.
  intros Hs Hl. pose proof (arr_len_nonneg us). pose proof (fuel_enough seg us Hs) as Hf.
  pose proof (decode_pass_text seg us Hs preserve (uri_fuel seg) 0 ltac:(lia) ltac:(unfold arr_len; lia)) as Ht. rewrite drop_0 in Ht.
  destruct (decode_known grant raw seg us Hs Hl preserve) as [(t & Hd & E)|[Hno E]]; [left|by right].
  exists t. split; [|done]. destruct (pass_text _ _ _ 0) as [[t0 ch]|]; [|by destruct (Ht t)]. apply Ht in Hd as <-. exact Ht.
Qed.

(** C28. Decoding gives back what was encoded: whenever encodeURIComponent (or encodeURI)
    returns a text, decodeURIComponent (or decodeURI) of that text, in any representation,
    is the original. *)
Theorem uri_roundtrip grant raw seg us seg' t r component :
  seg_ok seg us -> arr_len us <= MAL_STRING_MAX_CODE_UNITS ->
  mal_builtin_uri_encode_known grant raw seg component = Ret r -> result_text us r = Some t ->
  seg_ok seg' t -> grant (text_bytes us) = true ->
  exists r', mal_builtin_uri_decode_known grant raw seg' (negb component) = Ret r' /\ result_text t r' = Some us.
Proof.
  intros Hs Hl Er Ht Hs' Hg. pose proof (encode_known grant raw seg us Hs Hl component) as He.
  destruct (encode_text component us) as [t0|] eqn:Et; [|destruct He as (e & He & _); rewrite He in Er; simplify_eq; done].
  rewrite He in Er. injection Er as <-. destruct (Z.ltb_spec MAL_STRING_MAX_CODE_UNITS (arr_len t0)); [done|].
  apply result_text_inv in Ht as ->. pose proof (encode_text_decodes component us t0 (so_range _ _ Hs) Et) as Hd.
  eexists. split; [by apply (decode_known_text grant raw seg' t0)|]. apply text_result_text; [done|]. apply unchanged_eq.
Qed.

(** C29. Percent-encoded bytes are decoded by decodeURIComponent as the UTF-8 decoder
    decodes the bytes, and rejected exactly when that decoder reports an error. *)
Theorem uri_decode_is_utf8 grant raw seg e bs :
  seg_ok seg e -> spells e bs -> Forall (in_u 8) bs -> arr_len e <= MAL_STRING_MAX_CODE_UNITS ->
  exists units err, mal_utf8_decode_report bs = Ret (Some (units, err)) /\
    mal_builtin_uri_decode_known grant raw seg false
    = Ret (if err : bool then UriThrew ThrowUriError else text_result grant units (negb (bool_decide (units = e)))).
Proof.
  intros Hs Hsp Hf Hl. pose proof (spells_length _ _ Hsp) as El.
  destruct (decode_report_scalars bs Hf ltac:(unfold MAL_STRING_MAX_CODE_UNITS, INT32_MAX in Hl; lia)) as [(ss & Hss & Hb & ->)|(units & -> & Hno)].
  - do 2 eexists. split; [done|]. cbn match. apply (decode_known_text grant raw seg e); [done|done|]. apply octets_decode; [done|]. by rewrite <- Hb.
  - do 2 eexists. split; [done|]. cbn match. destruct (decode_known grant raw seg e Hs Hl false) as [(t & Hd & _)|[_ ->]]; [|done].
    destruct (decodes_octets e t Hd bs Hsp) as (ss & Hss & Hb & _). by destruct (Hno ss Hss).
Qed.

(** unescape gives back what escape was given, for every string, lone surrogates
    included; escape fails only on a result longer than a string can be, and unescape of
    any string is the one text ECMA-262 gives. *)
Theorem uri_escape_roundtrip grant raw seg us :
  seg_ok seg us -> arr_len us <= MAL_STRING_MAX_CODE_UNITS ->
  (exists t, unescapes us t /\ mal_builtin_uri_unescape_known grant raw seg = Ret (text_result grant t (negb (bool_decide (t = us))))) /\
  mal_builtin_uri_escape_known grant raw seg
  = Ret (if MAL_STRING_MAX_CODE_UNITS <? arr_len (escape_text us) then UriThrew ThrowRangeError
         else text_result grant (escape_text us) (negb (bool_decide (escape_text us = us)))) /\
  forall seg', seg_ok seg' (escape_text us) -> arr_len (escape_text us) <= MAL_STRING_MAX_CODE_UNITS ->
    mal_builtin_uri_unescape_known grant raw seg' = Ret (text_result grant us (negb (bool_decide (us = escape_text us)))).
Proof.
  intros Hs Hl. split; [by apply unescape_known|]. split; [by apply escape_known|]. intros seg' Hs' Hl'.
  destruct (unescape_known grant raw seg' _ Hs' Hl') as (t & Ht & ->).
  by rewrite (unescapes_det _ _ (escape_text_unescapes us (so_range _ _ Hs)) t Ht).
Qed.

(** * Witnesses *)
Module UriDemo.
Definition text : list Z := [97; 32; 233; 0xd83d; 0xde00].
Definition seg : MalStringSegment := mkSegment false 5 text.
Definition encoded : list Z := [97; 37; 50; 48; 37; 67; 51; 37; 65; 57; 37; 70; 48; 37; 57; 70; 37; 57; 56; 37; 56; 48].
Definition encoded_seg : MalStringSegment := mkSegment true 22 encoded.
Definition granted (bytes : Z) : bool := bytes <? 2 ^ 20.

Lemma seg_text : seg_ok seg text.
Proof. split; [reflexivity|reflexivity|repeat constructor; by vm_compute|discriminate]. Qed.
Lemma seg_encoded : seg_ok encoded_seg encoded.
Proof. split; [reflexivity|reflexivity|repeat constructor; by vm_compute|intros _; repeat constructor; by vm_compute]. Qed.

Lemma uri_encode_correct_witness :
  mal_builtin_uri_encode_known granted (fun _ => 0) seg true = Ret (UriString false encoded).
Proof.
  destruct (uri_encode_correct granted (fun _ => 0) seg text true seg_text ltac:(discriminate)) as (_ & E & _).
  apply (E [97; 32; 233; 0x1F600]); [|reflexivity]. unfold is_scalar. repeat constructor; lia.
Defined.
(** A trailing lead surrogate. *)
Lemma lone_witness :
  mal_builtin_uri_encode_known granted (fun _ => 0) (mkSegment false 2 [97; 0xD83D]) true = Ret (UriThrew ThrowUriError).
Proof.
  assert (seg_ok (mkSegment false 2 [97; 0xD83D]) [97; 0xD83D]) as Hs
    by (split; [reflexivity|reflexivity|repeat constructor; by vm_compute|discriminate]).
  apply (encode_known_lone granted (fun _ => 0) _ [97; 0xD83D] Hs ltac:(discriminate) true [97] [0xD83D]);
    [unfold is_scalar; repeat constructor; lia|reflexivity|cbn; lia].
Qed.

Lemma uri_decode_correct_witness :
  (exists t, (forall t', decodes false encoded t' <-> t' = t) /\
     mal_builtin_uri_decode_known granted (fun _ => 0) encoded_seg false = Ret (text_result granted t (negb (bool_decide (t = encoded))))) \/
  ((forall t, ~ decodes false encoded t) /\ mal_builtin_uri_decode_known granted (fun _ => 0) encoded_seg false = Ret (UriThrew ThrowUriError)).
Proof. exact (uri_decode_correct granted (fun _ => 0) encoded_seg encoded false seg_encoded ltac:(discriminate)). Defined.

Lemma uri_roundtrip_witness :
  exists r', mal_builtin_uri_decode_known granted (fun _ => 0) encoded_seg false = Ret r' /\ result_text encoded r' = Some text.
Proof.
  apply (uri_roundtrip granted (fun _ => 0) seg text encoded_seg encoded (UriString false encoded) true);
    [exact seg_text|discriminate|vm_compute; reflexivity|reflexivity|exact seg_encoded|reflexivity].
Defined.

(** The bytes C3 A9, and a truncated sequence. *)
Lemma uri_decode_is_utf8_witness :
  exists units err, mal_utf8_decode_report [0xC3; 0xA9; 0xF0] = Ret (Some (units, err)) /\
    mal_builtin_uri_decode_known granted (fun _ => 0) (mkSegment true 9 [37; 99; 51; 37; 65; 57; 37; 70; 48]) false
    = Ret (if err : bool then UriThrew ThrowUriError else text_result granted units (negb (bool_decide (units = [37; 99; 51; 37; 65; 57; 37; 70; 48])))).
Proof.
  apply (uri_decode_is_utf8 granted (fun _ => 0) _ [37; 99; 51; 37; 65; 57; 37; 70; 48] [0xC3; 0xA9; 0xF0]).
  - split; [reflexivity|reflexivity|repeat constructor; by vm_compute|intros _; repeat constructor; by vm_compute].
  - apply (spells_octet 99 51 12 3); [right; right; lia|left; lia|]. apply (spells_octet 65 57 10 9); [right; left; lia|left; lia|].
    apply (spells_octet 70 48 15 0); [right; left; lia|left; lia|]. constructor.
  - repeat constructor; by vm_compute.
  - discriminate.
Defined.

Lemma uri_escape_roundtrip_witness :
  mal_builtin_uri_escape_known granted (fun _ => 0) seg = Ret (UriString false (escape_text text)) /\
  mal_builtin_uri_unescape_known granted (fun _ => 0) (mkSegment true 19 (escape_text text)) = Ret (UriString true text).
Proof.
  destruct (uri_escape_roundtrip granted (fun _ => 0) seg text seg_text ltac:(discriminate)) as (_ & He & Hu).
  split; [exact He|]. apply Hu; [|discriminate].
  split; [reflexivity|reflexivity|repeat constructor; by vm_compute|intros _; repeat constructor; by vm_compute].
Defined.
End UriDemo.
