(* ===== verification/WeakCollection.v ===== *)
(** WeakMap and WeakSet stores, runtime/src/weak_collection.c and weak_collection.h: up to
    four rows inline, then open-addressed buckets under grouped control bytes, with
    tombstones, rebuilding and demotion back to the inline rows. The collector filters a
    store with [mal_weak_retain].

    A row is its key and its value; the rows of a WeakSet have no value and 0 stands for
    it. [registered] tells the symbols of the Symbol.for registry, [raw] what fresh memory
    holds, [marking] whether the collector is marking. *)

From S2P Require Import Prelude F64 Value Key HashIndex MapObject.

Definition MAL_WEAK_INLINE_CAPACITY : Z := 4.
Abbreviation Row := (Z * Z)%type.

(** The two uses of a store: [MAL_WEAK_MAP_WIDTH] and [MAL_WEAK_SET_WIDTH]. *)
Inductive WeakWidth : Set := MAL_WEAK_MAP_WIDTH | MAL_WEAK_SET_WIDTH.
Definition row_bytes (width : WeakWidth) : Z := match width with MAL_WEAK_MAP_WIDTH => 16 | MAL_WEAK_SET_WIDTH => 8 end.

(** [buckets] and [controls] are null together. *)
Record MalWeakStorage : Type := mkWeak {
  w_buckets : option (list Row * list Z);
  w_size : Z;
  w_capacity : Z;
  w_deleted : Z;
  w_reserve_size : Z;
  w_small : list Row;
}.
Definition w_controls (s : MalWeakStorage) : list Z := match w_buckets s with Some (_, c) => c | None => [] end.
Definition is_inline (s : MalWeakStorage) : bool := match w_buckets s with None => true | Some _ => false end.
Definition set_w_size (n : Z) (s : MalWeakStorage) : MalWeakStorage :=
  mkWeak (w_buckets s) n (w_capacity s) (w_deleted s) (w_reserve_size s) (w_small s).
Definition set_w_deleted (n : Z) (s : MalWeakStorage) : MalWeakStorage :=
  mkWeak (w_buckets s) (w_size s) (w_capacity s) n (w_reserve_size s) (w_small s).
Definition set_w_reserve (n : Z) (s : MalWeakStorage) : MalWeakStorage :=
  mkWeak (w_buckets s) (w_size s) (w_capacity s) (w_deleted s) n (w_small s).
Definition set_w_controls (c : list Z) (s : MalWeakStorage) : MalWeakStorage :=
  mkWeak (match w_buckets s with Some (b, _) => Some (b, c) | None => None end)
    (w_size s) (w_capacity s) (w_deleted s) (w_reserve_size s) (w_small s).

(** What the collector is told: the values of the write barriers, and the cards. *)
Record GcLog : Type := mkGc { log_satb : list Z; log_cards : list Z }.

Definition mal_weak_row (s : MalWeakStorage) (index : Z) : Row :=
  match w_buckets s with None => arr_get (w_small s) index | Some (b, _) => arr_get b index end.
(** [*row = r]. *)
Definition put_row (index : Z) (r : Row) (s : MalWeakStorage) : MalWeakStorage :=
  match w_buckets s with
  | None => mkWeak None (w_size s) (w_capacity s) (w_deleted s) (w_reserve_size s) (arr_set (w_small s) index r)
  | Some (b, c) => mkWeak (Some (arr_set b index r, c)) (w_size s) (w_capacity s) (w_deleted s) (w_reserve_size s) (w_small s)
  end.

Definition mal_weak_live (s : MalWeakStorage) (index : Z) : bool :=
  match w_buckets s with None => index <? w_size s | Some (_, c) => arr_get c index <? MAL_HASH_EMPTY end.

Definition mal_weak_capacity (members : Z) (width : WeakWidth) : outcome (option Z) :=
  r ← slot_capacity_loop capacity_fuel MAL_HASH_GROUP_WIDTH members;
  match r with
  | None => Ret None
  | Some capacity => if SIZE_MAX / (row_bytes width + 1) <? capacity then Ret None else Ret (Some capacity)
  end.

Definition mal_weak_storage_scan_slots (s : option MalWeakStorage) : Z :=
  match s with None => 0 | Some s => if is_inline s then w_size s else w_capacity s end.
Definition mal_weak_storage_capacity (s : option MalWeakStorage) : Z :=
  match s with None => 0 | Some s => if is_inline s then MAL_WEAK_INLINE_CAPACITY else w_capacity s end.

Section Weak.
Variable MASK_SHIFT : Z.
Variable registered : Z -> bool.
Variable raw : Z -> Row.
Variable marking : bool.

Definition log_barrier (old : Z) (g : GcLog) : GcLog := if marking then mkGc (log_satb g ++ [old]) (log_cards g) else g.
Definition log_card (value : Z) (g : GcLog) : GcLog := mkGc (log_satb g) (log_cards g ++ [value]).

Definition mal_weak_key_can_be_held (key : Z) : bool :=
  mal_value_is_object key || (mal_value_is_symbol key && negb (registered (mal_value_to_heap key))).

(** [*storage = (MalWeakStorage) {0}]; the inline rows are raw memory. *)
Definition mal_weak_storage_new : MalWeakStorage := mkWeak None 0 0 0 0 (map raw (seqZ 0 MAL_WEAK_INLINE_CAPACITY)).

Fixpoint find_inline (fuel : nat) (s : MalWeakStorage) (key i : Z) : Z :=
  match fuel with
  | O => w_size s
  | S fuel =>
      if i <? w_size s then if fst (mal_weak_row s i) =? key then i else find_inline fuel s key (i + 1)
      else w_size s
  end.
Definition mal_weak_find (s : MalWeakStorage) (key hash : Z) : outcome Z :=
  if is_inline s then Ret (find_inline (Z.to_nat (w_size s)) s key 0)
  else grouped_probe MASK_SHIFT (w_controls s) (w_capacity s) (fun slot => fst (mal_weak_row s slot) =? key) hash true.

(** The rows [is] of the old store, placed in the new buckets. *)
Fixpoint rebuild_loop (ids : list Z) (s : MalWeakStorage) (capacity : Z) (buckets : list Row) (controls : list Z) : outcome (list Row * list Z) :=
  match ids with
  | [] => Ret (buckets, controls)
  | i :: ids =>
      if negb (mal_weak_live s i) then rebuild_loop ids s capacity buckets controls
      else
        let row := mal_weak_row s i in
        let hash := mal_key_hash_mix (fst row) in
        slot ← mal_hash_controls_empty_slot MASK_SHIFT controls capacity hash;
        rebuild_loop ids s capacity (arr_set buckets slot row) (arr_set controls slot (mal_hash_tag hash))
  end.
Definition mal_weak_rebuild (s : MalWeakStorage) (width : WeakWidth) (capacity : Z) : outcome MalWeakStorage :=
  if SIZE_MAX / (row_bytes width + 1) <? capacity then Abort
  else
    let controls := replicate (Z.to_nat capacity) MAL_HASH_EMPTY in
    let limit := if is_inline s then w_size s else w_capacity s in
    '(buckets, controls) ← rebuild_loop (seqZ 0 limit) s capacity (map raw (seqZ 0 capacity)) controls;
    Ret (mkWeak (Some (buckets, controls)) (w_size s) capacity 0 0 (w_small s)).

(** Copying the live rows back inline. *)
Fixpoint demote_loop (fuel : nat) (s : MalWeakStorage) (scanned next : Z) (small : list Row) : list Row :=
  match fuel with
  | O => small
  | S fuel =>
      if (scanned <? w_capacity s) && (next <? w_size s) then
        if negb (mal_weak_live s scanned) then demote_loop fuel s (scanned + 1) next small
        else demote_loop fuel s (scanned + 1) (next + 1) (arr_set small next (mal_weak_row s scanned))
      else small
  end.
Definition mal_weak_maintain (s : MalWeakStorage) (width : WeakWidth) (after_filter : bool) : outcome MalWeakStorage :=
  if is_inline s then Ret s
  else if w_size s <=? MAL_WEAK_INLINE_CAPACITY then
    Ret (mkWeak None (w_size s) 0 0 0 (demote_loop (Z.to_nat (w_capacity s)) s 0 0 (w_small s)))
  else if (MAL_HASH_GROUP_WIDTH <? w_capacity s) && (w_size s <=? w_capacity s / 4) then
    capacity ← mal_weak_capacity (w_size s) width;
    match capacity with None => Abort | Some capacity => mal_weak_rebuild s width capacity end
  else if after_filter && (w_capacity s / 4 <=? w_deleted s) then mal_weak_rebuild s width (w_capacity s)
  else Ret s.

(** [row[0] = key], and [row[1] = undefined] in a map. *)
Definition weak_new_row (width : WeakWidth) (key : Z) : Row :=
  (key, match width with MAL_WEAK_MAP_WIDTH => MAL_VALUE_UNDEFINED | MAL_WEAK_SET_WIDTH => 0 end).
(** The slot, and whether it was inserted. *)
Definition mal_weak_upsert (s : MalWeakStorage) (width : WeakWidth) (key : Z) : outcome (Z * bool * MalWeakStorage) :=
  let hash := if is_inline s then 0 else mal_key_hash_mix key in
  slot ← mal_weak_find s key hash;
  if mal_weak_live s slot then Ret (slot, false, s)
  else if is_inline s && (w_size s <? MAL_WEAK_INLINE_CAPACITY) then
    Ret (slot, true, set_w_size (u32 (w_size s + 1)) (put_row slot (weak_new_row width key) s))
  else
    let reuse := negb (is_inline s) && (arr_get (w_controls s) slot =? MAL_HASH_DELETED) in
    let members := if u32 (w_size s + 1) <? w_reserve_size s then w_reserve_size s else u32 (w_size s + 1) in
    '(hash, slot, s) ←
      (if is_inline s || negb (mal_hash_index_fits (u64 (members + w_deleted s - Z.b2z reuse)) (w_capacity s)) then
         capacity ← mal_weak_capacity members width;
         match capacity with
         | None => Abort
         | Some capacity =>
             s ← mal_weak_rebuild s width capacity;
             let hash := mal_key_hash_mix key in
             slot ← mal_weak_find s key hash;
             Ret (hash, slot, s)
         end
       else Ret (hash, slot, s));
    let s := put_row slot (weak_new_row width key) s in
    let s := if arr_get (w_controls s) slot =? MAL_HASH_DELETED then set_w_deleted (u32 (w_deleted s - 1)) s else s in
    let s := set_w_controls (arr_set (w_controls s) slot (mal_hash_tag hash)) s in
    Ret (slot, true, set_w_size (u32 (w_size s + 1)) s).

Definition mal_weak_erase (s : MalWeakStorage) (width : WeakWidth) (slot : Z) (g : GcLog) : MalWeakStorage * GcLog :=
  let row := mal_weak_row s slot in
  let g :=
    match width with
    | MAL_WEAK_MAP_WIDTH => log_barrier (snd row) (log_barrier (fst row) g)
    | MAL_WEAK_SET_WIDTH => g
    end in
  let s :=
    if is_inline s then
      if negb (slot + 1 =? w_size s) then put_row slot (mal_weak_row s (w_size s - 1)) s else s
    else
      let '(controls, deleted) := mal_hash_controls_erase MASK_SHIFT (w_controls s) slot in
      set_w_deleted (u32 (w_deleted s + Z.b2z deleted)) (set_w_controls controls s) in
  (set_w_size (u32 (w_size s - 1)) s, g).

(** The slot, when the key is there. *)
Definition mal_weak_lookup (s : option MalWeakStorage) (key : Z) : outcome (option Z) :=
  match s with
  | None => Ret None
  | Some s =>
      if (w_size s =? 0) || negb (mal_weak_key_can_be_held key) then Ret None
      else
        slot ← mal_weak_find s key (if is_inline s then 0 else mal_key_hash_mix key);
        Ret (if mal_weak_live s slot then Some slot else None)
  end.
Definition mal_weak_delete (s : option MalWeakStorage) (width : WeakWidth) (key : Z) (g : GcLog) : outcome (bool * option MalWeakStorage * GcLog) :=
  slot ← mal_weak_lookup s key;
  match slot, s with
  | Some slot, Some st =>
      let '(st, g) := mal_weak_erase st width slot g in
      st ← mal_weak_maintain st width false;
      Ret (true, Some st, g)
  | _, _ => Ret (false, s, g)
  end.
Definition mal_weak_reserve (s : option MalWeakStorage) (width : WeakWidth) (desired_size : Z) : outcome (bool * option MalWeakStorage) :=
  capacity ← mal_weak_capacity desired_size width;
  match capacity with
  | None => Ret (false, s)
  | Some capacity =>
      if (desired_size =? 0) || (match s with Some st => desired_size <=? w_size st | None => false end) then Ret (true, s)
      else
        let st := match s with Some st => st | None => mal_weak_storage_new end in
        if is_inline st then Ret (true, Some (if w_reserve_size st <? desired_size then set_w_reserve (u32 desired_size) st else st))
        else if w_capacity st <? capacity then
          st ← mal_weak_rebuild st width capacity;
          Ret (true, Some st)
        else Ret (true, Some st)
  end.

Section Retain.
Variable keep : Z -> bool.
Fixpoint retain_inline (fuel : nat) (s : MalWeakStorage) (width : WeakWidth) (i : Z) (g : GcLog) : outcome (MalWeakStorage * GcLog) :=
  match fuel with
  | O => NoFuel
  | S fuel =>
      if i <? w_size s then
        if keep (fst (mal_weak_row s i)) then retain_inline fuel s width (i + 1) g
        else let '(s, g) := mal_weak_erase s width i g in retain_inline fuel s width i g
      else Ret (s, g)
  end.
Fixpoint retain_buckets (ids : list Z) (s : MalWeakStorage) (width : WeakWidth) (g : GcLog) : MalWeakStorage * GcLog :=
  match ids with
  | [] => (s, g)
  | i :: ids =>
      if mal_weak_live s i && negb (keep (fst (mal_weak_row s i))) then
        let '(s, g) := mal_weak_erase s width i g in retain_buckets ids s width g
      else retain_buckets ids s width g
  end.
(** The number of rows removed. *)
Definition mal_weak_retain (s : option MalWeakStorage) (width : WeakWidth) (g : GcLog) : outcome (Z * option MalWeakStorage * GcLog) :=
  match s with
  | None => Ret (0, None, g)
  | Some s =>
      let before := w_size s in
      '(s, g) ← (if is_inline s then retain_inline (S (Z.to_nat before)) s width 0 g
                 else Ret (retain_buckets (seqZ 0 (w_capacity s)) s width g));
      let removed := before - w_size s in
      s ← (if negb (removed =? 0) then mal_weak_maintain s width true else Ret s);
      Ret (removed, Some s, g)
  end.
End Retain.

(** * WeakMap *)

Definition mal_weak_map_store (m : option MalWeakStorage) (key value : Z) (preserve : bool) (g : GcLog) : outcome (Z * option MalWeakStorage * GcLog) :=
  if negb (mal_weak_key_can_be_held key) then Abort
  else
    let s := match m with None => mal_weak_storage_new | Some s => s end in
    '(slot, inserted, s) ← mal_weak_upsert s MAL_WEAK_MAP_WIDTH key;
    let row := mal_weak_row s slot in
    if negb inserted && preserve then Ret (snd row, Some s, g)
    else
      let g := log_barrier (snd row) g in
      let s := put_row slot (fst row, value) s in
      let g := log_card value (log_card key g) in
      Ret (value, Some s, g).
Definition mal_weak_map_object_set (m : option MalWeakStorage) (key value : Z) (g : GcLog) : outcome (option MalWeakStorage * GcLog) :=
  '(_, m, g) ← mal_weak_map_store m key value false g;
  Ret (m, g).
Definition mal_weak_map_object_get_or_insert (m : option MalWeakStorage) (key value : Z) (g : GcLog) :=
  mal_weak_map_store m key value true g.
Definition mal_weak_map_object_lookup (m : option MalWeakStorage) (key : Z) : outcome (option Z) :=
  slot ← mal_weak_lookup m key;
  Ret (match slot, m with Some slot, Some s => Some (snd (mal_weak_row s slot)) | _, _ => None end).
Definition mal_weak_map_object_get (m : option MalWeakStorage) (key : Z) : outcome Z :=
  value ← mal_weak_map_object_lookup m key;
  Ret (match value with Some value => value | None => MAL_VALUE_UNDEFINED end).
Definition mal_weak_map_object_has (m : option MalWeakStorage) (key : Z) : outcome bool :=
  slot ← mal_weak_lookup m key;
  Ret (match slot with Some _ => true | None => false end).
Definition mal_weak_map_object_delete (m : option MalWeakStorage) (key : Z) (g : GcLog) := mal_weak_delete m MAL_WEAK_MAP_WIDTH key g.
Definition mal_weak_map_object_size (m : option MalWeakStorage) : Z := match m with None => 0 | Some s => w_size s end.
Definition mal_weak_map_object_reserve (m : option MalWeakStorage) (desired_size : Z) := mal_weak_reserve m MAL_WEAK_MAP_WIDTH desired_size.
Definition mal_weak_map_storage_retain (keep : Z -> bool) (m : option MalWeakStorage) (g : GcLog) := mal_weak_retain keep m MAL_WEAK_MAP_WIDTH g.

(** The next live row from [index] on, and the index after it. *)
Fixpoint weak_iter_loop (fuel : nat) (s : MalWeakStorage) (index : Z) : option Row * Z :=
  match fuel with
  | O => (None, index)
  | S fuel =>
      if index <? mal_weak_storage_scan_slots (Some s) then
        if negb (mal_weak_live s index) then weak_iter_loop fuel s (index + 1) else (Some (mal_weak_row s index), index + 1)
      else (None, index)
  end.
Definition mal_weak_map_iter_next (m : option MalWeakStorage) (index : Z) : option Row * Z :=
  match m with
  | None => (None, index)
  | Some s => weak_iter_loop (S (Z.to_nat (mal_weak_storage_scan_slots m))) s index
  end.

(** * WeakSet *)

Definition mal_weak_set_object_add (m : option MalWeakStorage) (key : Z) (g : GcLog) : outcome (option MalWeakStorage * GcLog) :=
  if negb (mal_weak_key_can_be_held key) then Abort
  else
    let s := match m with None => mal_weak_storage_new | Some s => s end in
    '(_, inserted, s) ← mal_weak_upsert s MAL_WEAK_SET_WIDTH key;
    Ret (Some s, if negb inserted then g else log_card key g).
Definition mal_weak_set_object_has (m : option MalWeakStorage) (key : Z) : outcome bool :=
  slot ← mal_weak_lookup m key;
  Ret (match slot with Some _ => true | None => false end).
Definition mal_weak_set_object_delete (m : option MalWeakStorage) (key : Z) (g : GcLog) := mal_weak_delete m MAL_WEAK_SET_WIDTH key g.
Definition mal_weak_set_object_size (m : option MalWeakStorage) : Z := match m with None => 0 | Some s => w_size s end.
Definition mal_weak_set_object_reserve (m : option MalWeakStorage) (desired_size : Z) := mal_weak_reserve m MAL_WEAK_SET_WIDTH desired_size.
Definition mal_weak_set_storage_retain (keep : Z -> bool) (m : option MalWeakStorage) (g : GcLog) := mal_weak_retain keep m MAL_WEAK_SET_WIDTH g.
Definition mal_weak_set_iter_next (m : option MalWeakStorage) (index : Z) : option Z * Z :=
  let '(row, index) := mal_weak_map_iter_next m index in (fst <$> row, index).
End Weak.
