(* ===== verification/WeakSpec.v ===== *)
(** The representation of WeakMap and WeakSet stores: a store stands for a finite map, and
    the search, the rebuild, the demotion, the insertion, the removal and the filter keep
    it. *)

From stdpp Require Import gmap.
From S2P Require Import Prelude F64 Value Key HashIndex MapObject MapStore WeakCollection.

Definition card (M : gmap Z Z) : Z := Z.of_nat (base.size M).

Lemma card_insert M k v : M !! k = None -> card (<[k:=v]> M) = card M + 1.
Proof. intros H. unfold card. rewrite map_size_insert_None by done. lia. Qed.
Lemma card_delete M k v : M !! k = Some v -> card (delete k M) = card M - 1.
Proof.
  intros H. unfold card. rewrite map_size_delete, H. simpl.
  assert (base.size M <> 0%nat) by (intros E%map_size_empty_inv; subst; done). lia.
Qed.
Lemma card_value M k v w : M !! k = Some v -> card (<[k:=w]> M) = card M.
Proof. intros H. unfold card. by rewrite map_size_insert, H. Qed.

(** * Rows that stand for a map *)

Record rows_ok (live : Z -> Prop) (row : Z -> Row) (M : gmap Z Z) : Prop := {
  ro_row : forall i, live i -> M !! fst (row i) = Some (snd (row i));
  ro_unique : forall i j, live i -> live j -> fst (row i) = fst (row j) -> i = j;
  ro_entry : forall k v, M !! k = Some v -> exists i, live i /\ row i = (k, v);
}.

Section rows.
Context (live : Z -> Prop) (row : Z -> Row) (M : gmap Z Z) (OK : rows_ok live row M).

Lemma rows_insert live' row' r k v :
  M !! k = None -> (forall i, live' i <-> live i \/ i = r) -> (forall i, live i -> row' i = row i) -> row' r = (k, v) ->
  rows_ok live' row' (<[k:=v]> M).
Proof using OK.
  intros HM Hl Hr Er. destruct OK as [H1 H2 H3].
  assert (forall i, live i -> fst (row i) <> k) as Hk by (intros i Hi <-; by rewrite H1 in HM).
  split.
  - intros i [Hi| ->]%Hl; [|rewrite Er; apply lookup_insert_eq]. rewrite (Hr i Hi), lookup_insert_ne by (intros E; exact (Hk i Hi (eq_sym E))). auto.
  - intros i j [Hi| ->]%Hl [Hj| ->]%Hl E; [| | |done].
    + rewrite (Hr i Hi), (Hr j Hj) in E. auto.
    + rewrite (Hr i Hi), Er in E. by destruct (Hk i Hi).
    + rewrite (Hr j Hj), Er in E. by destruct (Hk j Hj).
  - intros k' v' [(-> & ->)|(Hne & E)]%lookup_insert_Some; [exists r; split; [apply Hl; by right|done]|].
    destruct (H3 k' v' E) as (i & Hi & Ei). exists i. split; [apply Hl; by left|by rewrite Hr].
Qed.

Lemma rows_value row' r k v :
  live r -> fst (row r) = k -> (forall i, live i -> i <> r -> row' i = row i) -> row' r = (k, v) ->
  rows_ok live row' (<[k:=v]> M).
Proof using OK.
  intros Hr Ek Hrow Er. destruct OK as [H1 H2 H3].
  assert (forall i, live i -> fst (row' i) = fst (row i)) as Hf.
  { intros i Hi. destruct (decide (i = r)) as [->|]; [by rewrite Er|by rewrite Hrow]. }
  split.
  - intros i Hi. destruct (decide (i = r)) as [->|Hne]; [rewrite Er; apply lookup_insert_eq|].
    rewrite (Hrow i Hi Hne), lookup_insert_ne; [auto|]. intros E. apply Hne, H2; [done|done|congruence].
  - intros i j Hi Hj. rewrite !Hf by done. auto.
  - intros k' v' [(-> & ->)|(Hne & E)]%lookup_insert_Some; [by exists r|].
    destruct (H3 k' v' E) as (i & Hi & Ei). exists i. split; [done|]. rewrite Hrow; [done|done|].
    intros ->. apply Hne. rewrite <- Ek, Ei. done.
Qed.

(** Removing a row; the last row may move into its place. *)
Lemma rows_remove live' row' r L :
  live r -> live L ->
  (forall i, live' i <-> live i /\ i <> L) -> (forall i, live i -> i <> r -> row' i = row i) -> (r <> L -> row' r = row L) ->
  rows_ok live' row' (delete (fst (row r)) M).
Proof using OK.
  intros Hr HL Hl Hrow Er. destruct OK as [H1 H2 H3].
  assert (forall i, live' i -> exists j, live j /\ j <> r /\ row' i = row j /\ j = (if decide (i = r) then L else i)) as Hfrom.
  { intros i [Hi Hne]%Hl. destruct (decide (i = r)) as [->|Hir]; [exists L|exists i]; auto 6. }
  split.
  - intros i Hi. destruct (Hfrom i Hi) as (j & Hj & Hne & -> & _). rewrite lookup_delete_ne; [auto|].
    intros E. by apply Hne, H2.
  - intros i j Hi Hj. destruct (Hfrom i Hi) as (a & Ha & Har & -> & Ea), (Hfrom j Hj) as (b & Hb & Hbr & -> & Eb).
    intros E. pose proof (H2 a b Ha Hb E) as Eab. apply Hl in Hi as [_ Hi]. apply Hl in Hj as [_ Hj].
    destruct (decide (i = r)), (decide (j = r)); congruence.
  - intros k v [Hne E]%lookup_delete_Some. destruct (H3 k v E) as (i & Hi & Ei).
    assert (i <> r) by (intros ->; apply Hne; by rewrite Ei).
    destruct (decide (i = L)) as [->|HiL].
    + exists r. split; [by apply Hl|]. by rewrite Er.
    + exists i. split; [by apply Hl|]. by rewrite Hrow.
Qed.

(** The live rows are the rows of the map, each once. *)
Lemma rows_perm l : NoDup l -> (forall i, i ∈ l <-> live i) -> map row l ≡ₚ map_to_list M.
Proof using OK.
  intros Hnd Hl. destruct OK as [H1 H2 H3]. apply NoDup_Permutation.
  - apply NoDup_fmap_2_strong; [|done]. intros i j Hi%Hl Hj%Hl E. apply H2; [done|done|by rewrite E].
  - apply NoDup_map_to_list.
  - intros [k v]. split.
    + intros (i & E & Hi%Hl)%list_elem_of_fmap. specialize (H1 i Hi). apply elem_of_map_to_list. by rewrite <- E in H1.
    + intros (i & Hi & E)%elem_of_map_to_list%H3. apply list_elem_of_fmap. exists i. split; [done|by apply Hl].
Qed.
End rows.

Lemma rows_ext live live' row row' M :
  (forall i, live' i <-> live i) -> (forall i, live i -> row' i = row i) -> rows_ok live row M -> rows_ok live' row' M.
Proof.
  intros Hl Hr [H1 H2 H3]. split.
  - intros i Hi%Hl. rewrite Hr by done. auto.
  - intros i j Hi%Hl Hj%Hl. rewrite !Hr by done. auto.
  - intros k v (i & Hi & E)%H3. exists i. split; [by apply Hl|by rewrite Hr].
Qed.

(** A list of the rows of a map, by index. *)
Lemma rows_of_list (R : list Row) row M :
  R ≡ₚ map_to_list M -> (forall i, 0 <= i < arr_len R -> row i = arr_get R i) -> rows_ok (fun i => 0 <= i < arr_len R) row M.
Proof.
  intros HP Hrow. assert (NoDup R.*1) as Hnd by (rewrite HP; apply NoDup_fst_map_to_list).
  split.
  - intros i Hi. rewrite Hrow by done. apply elem_of_map_to_list. rewrite <- HP, <- surjective_pairing.
    eapply list_elem_of_lookup_2. by apply arr_get_lookup.
  - intros i j Hi Hj. rewrite !Hrow by done. intros E.
    assert (Z.to_nat i = Z.to_nat j); [|lia]. apply (NoDup_lookup R.*1 _ _ (fst (arr_get R i)) Hnd); rewrite list_lookup_fmap, arr_get_lookup by done; simpl; [reflexivity|exact (f_equal Some (eq_sym E))].
  - intros k v E%elem_of_map_to_list. rewrite <- HP in E. apply list_elem_of_lookup_1 in E as (n & E).
    pose proof (lookup_lt_Some _ _ _ E). exists (Z.of_nat n). unfold arr_len. split; [lia|].
    rewrite Hrow by (unfold arr_len; lia). apply arr_get_of_lookup. by rewrite Nat2Z.id.
Qed.

(** * Buckets *)

Definition mix_entry (M : gmap Z Z) (k : Z) : option Z := (fun _ => mal_key_hash_mix k) <$> M !! k.
Definition bucket_live (cap : Z) (c : list Z) (i : Z) : Prop := 0 <= i < cap /\ live_control (arr_get c i) = true.
Definition bucket_ok (cap : Z) (b : list Row) (c : list Z) (deleted : Z) (M : gmap Z Z) : Prop :=
  index_ok cap (map fst b) c (mix_entry M) (card M) deleted /\ rows_ok (bucket_live cap c) (arr_get b) M.

Lemma arr_get_fst (b : list Row) i : arr_get (map fst b) i = fst (arr_get b i).
Proof. unfold arr_get. rewrite !list_lookup_total_alt, list_lookup_fmap. by destruct (b !! Z.to_nat i). Qed.
Lemma map_fst_set (b : list Row) i r : map fst (arr_set b i r) = arr_set (map fst b) i (fst r).
Proof. apply list_fmap_insert. Qed.
Lemma arr_len_fst (b : list Row) : arr_len (map fst b) = arr_len b.
Proof. unfold arr_len. by rewrite length_map. Qed.

(** A probe asks its test only for its answers. *)
Lemma probe_candidates_ext S hit hit' group : (forall i, hit i = hit' i) ->
  forall fuel m, probe_candidates S fuel hit group m = probe_candidates S fuel hit' group m.
Proof. intros H. induction fuel as [|fuel IH]; intros m; simpl; [done|]. by rewrite H, IH. Qed.
Lemma grouped_probe_ext S c cap hit hit' hash insert :
  (forall i, hit i = hit' i) -> grouped_probe S c cap hit hash insert = grouped_probe S c cap hit' hash insert.
Proof.
  intros H. unfold grouped_probe. generalize (mal_hash_probe hash cap), UINT32_MAX.
  induction (probe_fuel cap) as [|fuel IH]; intros p a; cbn [probe_loop]; [done|].
  rewrite (probe_candidates_ext _ _ hit' _ H). destruct (probe_candidates _ _ _ _ _); [done|].
  destruct (negb _); [done|]. destruct (mal_hash_probe_next p); [|done|done]. apply IH.
Qed.

Section buckets.
Variable MASK_SHIFT : Z.
Hypothesis HS : 0 <= MASK_SHIFT.
Context (cap : Z) (b : list Row) (c : list Z) (deleted : Z) (M : gmap Z Z).
Hypothesis OK : bucket_ok cap b c deleted M.

Lemma bucket_len : arr_len b = cap.
Proof using OK. rewrite <- (io_slots _ _ _ _ _ _ (proj1 OK)). by rewrite arr_len_fst. Qed.
Lemma bucket_deleted : 0 <= deleted.
Proof using OK. rewrite <- (io_deleted _ _ _ _ _ _ (proj1 OK)). apply count_nonneg. Qed.

(** Putting a row in a free bucket on the key's probe path. *)
Lemma bucket_insert r k v :
  reusable cap c (mal_key_hash_mix k) r -> M !! k = None ->
  bucket_ok cap (arr_set b r (k, v)) (arr_set c r (mal_hash_tag (mal_key_hash_mix k)))
    (deleted - Z.b2z (deleted_control (arr_get c r))) (<[k:=v]> M).
Proof using OK.
  intros Hr HM. destruct Hr as (Hin & Hreach & Hc). pose proof (hash_mix_range k) as Hh. split.
  - rewrite map_fst_set, card_insert by done.
    pose proof (index_insert_ok cap (map fst b) c (mix_entry M) (card M) deleted r k (mal_key_hash_mix k) (proj1 OK)) as HI.
    unfold mal_hash_index_insert in HI. eapply index_ok_ext; [|apply HI; [by split| |done]].
    + intros i. simpl. unfold mix_entry. destruct (Z.eqb_spec i k) as [->|]; [by rewrite lookup_insert_eq|].
      by rewrite lookup_insert_ne.
    + unfold mix_entry. by rewrite HM.
  - assert (live_control (arr_get c r) = false) as Hdead by by apply live_not_reusable.
    pose proof (io_controls _ _ _ _ _ _ (proj1 OK)) as Hlc.
    apply (rows_insert _ _ _ (proj2 OK) _ _ r); [done| | |].
    + intros i. unfold bucket_live. destruct (decide (i = r)) as [->|Hne].
      * rewrite arr_get_set_eq by lia. rewrite tag_live by done. tauto.
      * split; [intros [Hi Hl]; rewrite arr_get_set_ne in Hl by lia; tauto|].
        intros [[Hi Hl]|]; [|done]. rewrite arr_get_set_ne by lia. done.
    + intros i [Hi Hl]. apply arr_get_set_ne; [lia|lia|]. intros ->. congruence.
    + apply arr_get_set_eq. rewrite bucket_len. lia.
Qed.

(** Overwriting the value of a live row. *)
Lemma bucket_value r v :
  bucket_live cap c r -> bucket_ok cap (arr_set b r (fst (arr_get b r), v)) c deleted (<[fst (arr_get b r):=v]> M).
Proof using OK.
  intros Hr. pose proof (ro_row _ _ _ (proj2 OK) r Hr) as HM. pose proof Hr as [Hin _]. split.
  - rewrite map_fst_set. simpl. rewrite (card_value _ _ _ _ HM).
    rewrite <- arr_get_fst. replace (arr_set (map fst b) r (arr_get (map fst b) r)) with (map fst b).
    + eapply index_ok_ext; [|apply OK]. intros i. unfold mix_entry. rewrite arr_get_fst.
      destruct (decide (i = fst (arr_get b r))) as [->|]; [by rewrite lookup_insert_eq, HM|by rewrite lookup_insert_ne].
    + symmetry. apply list_insert_id, arr_get_lookup. rewrite arr_len_fst, bucket_len. lia.
  - apply (rows_value _ _ _ (proj2 OK) _ r); [done|done| |].
    + intros i [Hi _] Hne. apply arr_get_set_ne; lia.
    + apply arr_get_set_eq. rewrite bucket_len. lia.
Qed.

(** Erasing a live row. *)
Lemma bucket_erase r :
  bucket_live cap c r ->
  let '(c', d) := mal_hash_controls_erase MASK_SHIFT c r in
  bucket_ok cap b c' (deleted + Z.b2z d) (delete (fst (arr_get b r)) M) /\
  (forall i, bucket_live cap c' i <-> bucket_live cap c i /\ i <> r).
Proof using OK HS.
  intros Hr. pose proof (ro_row _ _ _ (proj2 OK) r Hr) as HM. pose proof Hr as [Hin Hl].
  pose proof (index_erase_ok MASK_SHIFT HS _ _ _ _ _ _ r (proj1 OK) Hin Hl) as HI.
  unfold mal_hash_controls_erase in *. set (d := _ =? 0) in *. set (x := if d then _ else _) in *.
  assert (forall i, bucket_live cap (arr_set c r x) i <-> bucket_live cap c i /\ i <> r) as Hlive.
  { intros i. unfold bucket_live. pose proof (io_controls _ _ _ _ _ _ (proj1 OK)).
    destruct (decide (i = r)) as [->|Hne].
    - rewrite arr_get_set_eq by lia. assert (live_control x = false) as -> by (subst x; by destruct d). split; [intros []; done|tauto].
    - split; intros [Hi Hx]; [rewrite arr_get_set_ne in Hx by lia; tauto|]. destruct Hi. rewrite arr_get_set_ne by lia. done. }
  split; [|done]. split.
  - rewrite (card_delete _ _ _ HM). eapply index_ok_ext; [|exact HI]. intros i. simpl. rewrite arr_get_fst. unfold mix_entry.
    destruct (Z.eqb_spec i (fst (arr_get b r))) as [->|]; [by rewrite lookup_delete_eq|by rewrite lookup_delete_ne].
  - by apply (rows_remove _ _ _ (proj2 OK) _ _ r r).
Qed.

(** Searching a key. *)
Lemma bucket_find k :
  card M + deleted < cap ->
  exists r, grouped_probe MASK_SHIFT c cap (fun slot => fst (arr_get b slot) =? k) (mal_key_hash_mix k) true = Ret r /\
    match M !! k with
    | Some v => bucket_live cap c r /\ arr_get b r = (k, v)
    | None => reusable cap c (mal_key_hash_mix k) r
    end.
Proof using OK HS.
  intros Hroom.
  destruct (index_probe_spec MASK_SHIFT HS _ _ _ _ _ _ (proj1 OK) Hroom (mal_key_hash_mix k) (hash_mix_range k) (fun i => i =? k)) with (insert := true)
    as (r & E & HR).
  { unfold mix_entry. intros i h Hi ->%Z.eqb_eq. destruct (M !! k); simpl in Hi; congruence. }
  exists r. split.
  { rewrite <- E. apply grouped_probe_ext. intros i. by rewrite arr_get_fst. }
  destruct HR as [(Hin & Hl & (h & Hh) & Ek)|[Hno Hr]].
  - rewrite arr_get_fst in Ek. apply Z.eqb_eq in Ek. pose proof (ro_row _ _ _ (proj2 OK) r (conj Hin Hl)) as HM.
    rewrite Ek in HM. rewrite HM. split; [done|]. destruct (arr_get b r); simpl in *; congruence.
  - destruct (M !! k) as [v|] eqn:HM; [|done]. specialize (Hno k (mal_key_hash_mix k)). unfold mix_entry in Hno.
    rewrite HM, Z.eqb_refl in Hno. by specialize (Hno eq_refl).
Qed.
End buckets.

Lemma bucket_empty cap b :
  capacity_ok cap -> arr_len b = cap -> bucket_ok cap b (replicate (Z.to_nat cap) MAL_HASH_EMPTY) 0 ∅.
Proof.
  intros Hc Hb. split.
  - eapply index_ok_ext; [|apply (index_reset_ok cap (map fst b) []); [done|by rewrite arr_len_fst]].
    intros i. unfold mix_entry. by rewrite lookup_empty.
  - split.
    + intros i [Hi Hl]. by rewrite arr_get_replicate in Hl.
    + intros i j [Hi Hl]. by rewrite arr_get_replicate in Hl.
    + intros k v H. by rewrite lookup_empty in H.
Qed.

(** * Stores *)

Definition store_live (s : MalWeakStorage) (i : Z) : Prop := 0 <= i < mal_weak_storage_scan_slots (Some s) /\ mal_weak_live s i = true.
Definition live_slots (s : MalWeakStorage) : list Z := filter (fun i => mal_weak_live s i = true) (seqZ 0 (mal_weak_storage_scan_slots (Some s))).

(** A reservation is at most what the largest index holds. *)
Definition reservable (n : Z) : bool := mal_hash_index_fits n (2 ^ 30).

Record weak_rep (s : MalWeakStorage) (M : gmap Z Z) : Prop := {
  wr_size : w_size s = card M;
  wr_small : arr_len (w_small s) = MAL_WEAK_INLINE_CAPACITY;
  wr_reserve : 0 <= w_reserve_size s /\ reservable (w_reserve_size s) = true;
  wr_store :
    match w_buckets s with
    | None => card M <= MAL_WEAK_INLINE_CAPACITY /\ rows_ok (fun i => 0 <= i < card M) (arr_get (w_small s)) M
    | Some (b, c) => bucket_ok (w_capacity s) b c (w_deleted s) M /\ mal_hash_index_fits (card M + w_deleted s) (w_capacity s) = true
    end;
}.

Lemma card_nonneg M : 0 <= card M.
Proof. unfold card. lia. Qed.

Lemma rep_rows s M : weak_rep s M -> rows_ok (store_live s) (mal_weak_row s) M.
Proof.
  intros [Hsz _ _ Hst]. unfold store_live, mal_weak_row, mal_weak_live. simpl.
  destruct (w_buckets s) as [[b c]|] eqn:Eb; [destruct Hst as [[_ Hst] _]|destruct Hst as [_ Hst]];
    (eapply rows_ext; [| |exact Hst]); try done; intros i; unfold is_inline; rewrite Eb; [done|].
  rewrite Hsz, Z.ltb_lt. lia.
Qed.

Lemma rep_perm s M : weak_rep s M -> map (mal_weak_row s) (live_slots s) ≡ₚ map_to_list M.
Proof.
  intros H. apply (rows_perm _ _ _ (rep_rows s M H)).
  - apply NoDup_filter, NoDup_seqZ.
  - intros i. unfold live_slots, store_live. rewrite list_elem_of_filter, elem_of_seqZ. rewrite Z.add_0_l. tauto.
Qed.

Lemma rep_bounds s M : weak_rep s M -> card M < 2 ^ 30.
Proof.
  intros [_ _ _ Hst]. destruct (w_buckets s) as [[b c]|].
  - destruct Hst as [Hb Hf]. apply fits_lt in Hf; [|apply (io_capacity _ _ _ _ _ _ (proj1 Hb))].
    pose proof (capacity_bound _ (io_capacity _ _ _ _ _ _ (proj1 Hb))). pose proof (bucket_deleted _ _ _ _ _ Hb). lia.
  - destruct Hst as [Hc _]. change MAL_WEAK_INLINE_CAPACITY with 4 in Hc. lia.
Qed.
Lemma rep_size_nonneg s M : weak_rep s M -> 0 <= w_size s < 2 ^ 30.
Proof. intros H. rewrite (wr_size _ _ H). pose proof (card_nonneg M). pose proof (rep_bounds _ _ H). lia. Qed.

(** ** Capacity *)

Lemma weak_fits_mono n cap : capacity_ok cap -> mal_hash_index_fits n cap = true -> reservable n = true.
Proof.
  intros Hc H. pose proof (capacity_bound cap Hc). unfold reservable, mal_hash_index_fits in *.
  apply Z.leb_le in H. apply Z.leb_le. change (2 ^ 30 - 2 ^ 30 / 8) with (7 * 2 ^ 27).
  Z.to_euclidean_division_equations. lia.
Qed.

Lemma slot_capacity_none fuel : forall m members,
  0 <= m <= 26 -> slot_capacity_loop fuel (16 * 2 ^ m) members = Ret None -> reservable members = false.
Proof.
  induction fuel as [|fuel IH]; intros m members Hm H; [done|]. cbn [slot_capacity_loop] in H.
  destruct (mal_hash_index_fits members (16 * 2 ^ m)) eqn:Hfit; cbn [negb] in H; [done|].
  change (INT32_MAX / 2) with (2 ^ 30 - 1) in H. assert (2 ^ m <= 2 ^ 26) by (apply Z.pow_le_mono_r; lia).
  destruct (Z.ltb_spec (2 ^ 30 - 1) (16 * 2 ^ m)) as [Hbig|Hsmall].
  - unfold reservable. rewrite <- Hfit. f_equal. lia.
  - assert (m <> 26) by (intros ->; lia). unfold u32 in H. rewrite wrap_small in H by (unfold in_u; pose proof (Z.pow_nonneg 2 m); lia).
    replace (16 * 2 ^ m * 2) with (16 * 2 ^ (m + 1)) in H by (rewrite Z.pow_add_r by lia; lia). apply (IH (m + 1)); [lia|done].
Qed.

Lemma width_limit width cap : capacity_ok cap -> (SIZE_MAX / (row_bytes width + 1) <? cap) = false.
Proof.
  intros Hc. pose proof (capacity_bound cap Hc). apply Z.ltb_ge.
  assert (2 ^ 31 <= SIZE_MAX / (row_bytes width + 1)) by (destruct width; by vm_compute). lia.
Qed.

(** A capacity is found exactly for what the largest index holds. *)
Lemma weak_capacity_ok members width :
  exists r, mal_weak_capacity members width = Ret r /\
    match r with Some cap => capacity_ok cap /\ mal_hash_index_fits members cap = true | None => reservable members = false end.
Proof.
  destruct (slot_capacity_loop_ok capacity_fuel 0 members) as (r & Hr & Hspec); [lia|unfold capacity_fuel; lia|].
  unfold mal_weak_capacity. change MAL_HASH_GROUP_WIDTH with (16 * 2 ^ 0). rewrite Hr. simpl.
  destruct r as [cap|]; [|exists None; split; [done|eapply slot_capacity_none, Hr; lia]].
  destruct Hspec as [Hc Hf]. rewrite width_limit by done. by exists (Some cap).
Qed.
Lemma weak_capacity_some members width : reservable members = true ->
  exists cap, mal_weak_capacity members width = Ret (Some cap) /\ capacity_ok cap /\ mal_hash_index_fits members cap = true.
Proof.
  intros H. destruct (weak_capacity_ok members width) as ([cap|] & E & Hc); [by exists cap|congruence].
Qed.

Section ops.
Variable MASK_SHIFT : Z.
Hypothesis HS : 0 <= MASK_SHIFT.
Variable registered : Z -> bool.
Variable raw : Z -> Row.

Lemma find_inline_spec s k : w_buckets s = None -> forall fuel i,
  0 <= i -> Z.of_nat fuel = w_size s - i ->
  (i <= find_inline fuel s k i < w_size s /\ fst (arr_get (w_small s) (find_inline fuel s k i)) = k) \/
  (find_inline fuel s k i = w_size s /\ forall j, i <= j < w_size s -> fst (arr_get (w_small s) j) <> k).
Proof using Type.
  intros Eb. induction fuel as [|fuel IH]; intros i Hi Hf; cbn [find_inline]; [right; split; [done|lia]|].
  destruct (Z.ltb_spec i (w_size s)); [|lia]. unfold mal_weak_row. rewrite Eb.
  destruct (Z.eqb_spec (fst (arr_get (w_small s) i)) k) as [E|Hne]; [left; split; [lia|done]|].
  destruct (IH (i + 1)) as [[Hr E]|[Hr Hno]]; [lia|lia|left; split; [lia|done]|right; split; [done|]].
  intros j Hj. destruct (decide (j = i)) as [->|]; [done|]. apply Hno. lia.
Qed.

(** Where a key is, or where it would go. *)
Definition free_slot (s : MalWeakStorage) (k r : Z) : Prop :=
  mal_weak_live s r = false /\
  match w_buckets s with None => r = w_size s | Some (_, c) => reusable (w_capacity s) c (mal_key_hash_mix k) r end.

Lemma weak_find_ok s M k : weak_rep s M ->
  exists r, mal_weak_find MASK_SHIFT s k (if is_inline s then 0 else mal_key_hash_mix k) = Ret r /\
    match M !! k with Some v => store_live s r /\ mal_weak_row s r = (k, v) | None => free_slot s k r end.
Proof using HS.
  intros H. pose proof (rep_rows s M H) as HR. pose proof (rep_size_nonneg s M H) as Hsz. destruct H as [Hs _ _ Hst].
  unfold mal_weak_find, free_slot, w_controls, mal_weak_live. unfold is_inline. destruct (w_buckets s) as [[b c]|] eqn:Eb.
  - destruct Hst as [Hb Hf]. apply fits_lt in Hf; [|apply (io_capacity _ _ _ _ _ _ (proj1 Hb))].
    destruct (bucket_find MASK_SHIFT HS _ _ _ _ _ Hb k) as (r & E & Hr); [lia|]. exists r. split.
    + rewrite <- E. apply grouped_probe_ext. intros i. unfold mal_weak_row. by rewrite Eb.
    + unfold mal_weak_row. rewrite Eb. destruct (M !! k) as [v|].
      * destruct Hr as [[Hi Hl] Hr]. split; [|done]. unfold store_live, mal_weak_live. simpl. unfold is_inline. by rewrite Eb.
      * split; [|done]. destruct Hr as (_ & _ & Hr). by apply live_not_reusable.
  - eexists. split; [done|].
    destruct (find_inline_spec s k Eb (Z.to_nat (w_size s)) 0) as [[Hr E]|[Hr Hno]]; [lia|lia| |].
    + assert (store_live s (find_inline (Z.to_nat (w_size s)) s k 0)) as Hl.
      { unfold store_live, mal_weak_live. simpl. unfold is_inline. rewrite Eb. split; [lia|]. apply Z.ltb_lt. lia. }
      pose proof (ro_row _ _ _ HR _ Hl) as HM. unfold mal_weak_row in *. rewrite Eb in *.
      rewrite E in HM. rewrite HM. split; [done|]. destruct (arr_get _ _); simpl in *; congruence.
    + destruct (M !! k) as [v|] eqn:HM.
      * exfalso. destruct (ro_entry _ _ _ HR k v HM) as (i & [Hi Hl] & E). unfold mal_weak_row in E. rewrite Eb in E.
        unfold mal_weak_live in Hl. rewrite Eb in Hl. apply Z.ltb_lt in Hl. apply (Hno i); [lia|by rewrite E].
      * rewrite Hr. split; [|done]. apply Z.ltb_irrefl.
Qed.

(** ** Rebuilding *)

Lemma rebuild_loop_ok s cap : capacity_ok cap -> forall ids b c M0,
  bucket_ok cap b c 0 M0 ->
  let R := map (mal_weak_row s) (filter (fun i => mal_weak_live s i = true) ids) in
  NoDup R.*1 -> (forall k, k ∈ R.*1 -> M0 !! k = None) -> mal_hash_index_fits (card M0 + arr_len R) cap = true ->
  exists b' c', rebuild_loop MASK_SHIFT ids s cap b c = Ret (b', c') /\ bucket_ok cap b' c' 0 (list_to_map R ∪ M0).
Proof using HS.
  intros Hcap. induction ids as [|i ids IH]; intros b c M0 HB R Hnd Hfresh Hfit.
  { exists b, c. split; [done|]. subst R. simpl. by rewrite (left_id ∅ (∪)). }
  subst R. rewrite filter_cons in *. cbn [rebuild_loop]. destruct (mal_weak_live s i) eqn:El; cbn [negb].
  2: { rewrite decide_False in * by done. by apply IH. }
  rewrite decide_True in * by done. simpl in *. set (R := map _ (filter _ ids)) in *.
  apply NoDup_cons in Hnd as [Hi Hnd]. destruct (mal_weak_row s i) as [k v] eqn:Er. simpl in *.
  assert (arr_len ((k, v) :: R) = arr_len R + 1) as Hlen by (unfold arr_len; simpl; lia). rewrite Hlen in Hfit.
  pose proof (arr_len_nonneg R). pose proof (fits_lt _ _ Hcap Hfit) as Hlt.
  destruct (empty_slot_spec MASK_SHIFT HS cap Hcap c) with (hash := mal_key_hash_mix k) as (r & Es & Hr & Hc & Hre).
  { eapply index_has_empty; [apply HB|]. pose proof (card_nonneg M0). lia. }
  rewrite Es. simpl. assert (M0 !! k = None) as HM0 by (apply Hfresh; apply elem_of_cons; by left).
  assert (bucket_ok cap (arr_set b r (k, v)) (arr_set c r (mal_hash_tag (mal_key_hash_mix k))) 0 (<[k:=v]> M0)) as HB'.
  { pose proof (bucket_insert cap b c 0 M0 HB r k v) as HI. rewrite Hc in HI. apply HI; [|done]. split; [done|]. split; [done|by right]. }
  destruct (IH _ _ _ HB') as (b' & c' & E & HB2); [done| | |].
  - intros k' Hk'. rewrite lookup_insert_ne by (intros ->; done). apply Hfresh. apply elem_of_cons. by right.
  - rewrite card_insert by done. rewrite <- Hfit. f_equal. fold R. lia.
  - exists b', c'. split; [done|]. fold R in HB2. rewrite <- insert_union_r in HB2; [by rewrite insert_union_l in HB2|].
    by apply not_elem_of_list_to_map.
Qed.

Definition rebuilt (cap : Z) (s' : MalWeakStorage) : Prop := is_inline s' = false /\ w_capacity s' = cap /\ w_deleted s' = 0 /\ w_reserve_size s' = 0.

Lemma rebuild_ok s M width cap : weak_rep s M -> capacity_ok cap -> mal_hash_index_fits (card M) cap = true ->
  exists s', mal_weak_rebuild MASK_SHIFT raw s width cap = Ret s' /\ weak_rep s' M /\ rebuilt cap s'.
Proof using HS.
  intros H Hcap Hfit. pose proof (rep_perm s M H) as HP. unfold mal_weak_rebuild. rewrite width_limit by done.
  pose proof (capacity_bound cap Hcap). set (R := map (mal_weak_row s) (live_slots s)) in *.
  assert (arr_len R = card M) as Hlen by (unfold arr_len, card; rewrite HP, length_map_to_list; done).
  destruct (rebuild_loop_ok s cap Hcap (seqZ 0 (if is_inline s then w_size s else w_capacity s)) (map raw (seqZ 0 cap)) (replicate (Z.to_nat cap) MAL_HASH_EMPTY) ∅)
    as (b & c & E & HB).
  - apply bucket_empty; [done|]. unfold arr_len. rewrite length_map, length_seqZ. lia.
  - fold (mal_weak_storage_scan_slots (Some s)) (live_slots s) R. rewrite HP. apply NoDup_fst_map_to_list.
  - intros k _. apply lookup_empty.
  - fold (mal_weak_storage_scan_slots (Some s)) (live_slots s) R. rewrite Hlen. by change (card ∅) with 0.
  - rewrite E. simpl. eexists. split; [done|]. split; [|done].
    fold (mal_weak_storage_scan_slots (Some s)) (live_slots s) R in HB. rewrite (right_id ∅ (∪)) in HB.
    assert (list_to_map R = M) as EM.
    { rewrite <- (list_to_map_to_list M). apply list_to_map_proper; [|done]. rewrite HP. apply NoDup_fst_map_to_list. }
    rewrite EM in HB. destruct H as [Hs Hsm _ _]. split; simpl; [done|done|split; [lia|by vm_compute]|split; [done|]].
    by rewrite Z.add_0_r.
Qed.

(** ** Demotion and maintenance *)

Lemma demote_loop_ok s : w_size s <= MAL_WEAK_INLINE_CAPACITY -> forall fuel scanned next small,
  Z.of_nat fuel = w_capacity s - scanned -> 0 <= next -> arr_len small = MAL_WEAK_INLINE_CAPACITY ->
  let R := map (mal_weak_row s) (filter (fun i => mal_weak_live s i = true) (seqZ scanned (w_capacity s - scanned))) in
  next + arr_len R = w_size s ->
  let small' := demote_loop fuel s scanned next small in
  arr_len small' = MAL_WEAK_INLINE_CAPACITY /\
  (forall i, 0 <= i < next -> arr_get small' i = arr_get small i) /\
  (forall j, 0 <= j < arr_len R -> arr_get small' (next + j) = arr_get R j).
Proof using Type.
  intros Hsz. induction fuel as [|fuel IH]; intros scanned next small Hf Hn Hlen R HR.
  { simpl. split; [done|]. split; [done|]. subst R. replace (w_capacity s - scanned) with 0 by lia. intros j Hj. unfold arr_len in Hj. simpl in Hj. lia. }
  cbn [demote_loop]. destruct (Z.ltb_spec scanned (w_capacity s)); [|lia].
  destruct (Z.ltb_spec next (w_size s)); cbn [andb].
  2: { split; [done|]. split; [done|]. intros j Hj. lia. }
  subst R. rewrite seqZ_cons in * by lia. rewrite filter_cons in *.
  replace (Z.pred (w_capacity s - scanned)) with (w_capacity s - (scanned + 1)) in * by lia. change (Z.succ scanned) with (scanned + 1) in *.
  destruct (mal_weak_live s scanned) eqn:El; cbn [negb]; [rewrite decide_True in * by done|rewrite decide_False in * by done; by apply IH; [lia|..]].
  cbn [map] in *. set (R := map _ (filter _ _)) in *. pose proof (arr_len_nonneg R).
  assert (arr_len (mal_weak_row s scanned :: R) = arr_len R + 1) as HL by (unfold arr_len; simpl; lia). rewrite HL in *.
  destruct (IH (scanned + 1) (next + 1) (arr_set small next (mal_weak_row s scanned))) as (L1 & L2 & L3);
    [lia|lia|by rewrite arr_len_set|fold R; lia|]. fold R in L3. split; [done|]. split.
  - intros i Hi. rewrite L2 by lia. apply arr_get_set_ne; lia.
  - intros j Hj. destruct (decide (j = 0)) as [->|].
    + rewrite Z.add_0_r, L2 by lia. apply arr_get_set_eq. lia.
    + replace (next + j) with (next + 1 + (j - 1)) by lia. rewrite L3 by lia. unfold arr_get.
      replace (Z.to_nat j) with (S (Z.to_nat (j - 1))) by lia. done.
Qed.

(** Maintenance changes the layout, not the map. *)
Lemma maintain_ok s M width after_filter : weak_rep s M ->
  exists s', mal_weak_maintain MASK_SHIFT raw s width after_filter = Ret s' /\ weak_rep s' M.
Proof using HS.
  intros H. pose proof (rep_perm s M H) as HP. pose proof (rep_size_nonneg s M H) as Hn. pose proof H as [Hs Hsm Hres Hst]. unfold mal_weak_maintain.
  destruct (is_inline s) eqn:Ei; [by exists s|].
  unfold live_slots in HP. simpl in HP. rewrite Ei in HP. unfold is_inline in Ei. destruct (w_buckets s) as [[b c]|] eqn:Eb; [|done].
  destruct Hst as [HB Hfit]. pose proof (io_capacity _ _ _ _ _ _ (proj1 HB)) as Hcap. pose proof (capacity_bound _ Hcap).
  pose proof (bucket_deleted _ _ _ _ _ HB).
  assert (mal_hash_index_fits (card M) (w_capacity s) = true) as Hfit'.
  { unfold mal_hash_index_fits in *. apply Z.leb_le in Hfit. apply Z.leb_le. lia. }
  destruct (Z.leb_spec (w_size s) MAL_WEAK_INLINE_CAPACITY) as [Hle|_].
  - eexists. split; [done|]. set (R := map _ _) in HP.
    assert (arr_len R = w_size s) as Hlen by (rewrite Hs; unfold arr_len, card; rewrite HP, length_map_to_list; done).
    destruct (demote_loop_ok s Hle (Z.to_nat (w_capacity s)) 0 0 (w_small s)) as (L1 & _ & L3);
      [lia|lia|done|rewrite Z.sub_0_r; by fold R|].
    rewrite Z.sub_0_r in L3. fold R in L3. split; simpl; [done|done|split; [lia|by vm_compute]|].
    split; [lia|]. rewrite <- Hs, <- Hlen. apply rows_of_list; [done|]. intros i Hi. apply (L3 i Hi).
  - destruct ((MAL_HASH_GROUP_WIDTH <? w_capacity s) && (w_size s <=? w_capacity s / 4)).
    + destruct (weak_capacity_some (w_size s) width) as (cap & E & Hc & Hf); [rewrite Hs; by apply (weak_fits_mono _ _ Hcap)|].
      rewrite E. simpl. destruct (rebuild_ok s M width cap H Hc) as (s' & E' & HR & _); [by rewrite <- Hs|]. by exists s'.
    + destruct (after_filter && _); [|by exists s]. destruct (rebuild_ok s M width _ H Hcap Hfit') as (s' & E' & HR & _). by exists s'.
Qed.

(** ** Writing and erasing a row *)

Lemma put_value_ok s M r k v w : weak_rep s M -> store_live s r -> mal_weak_row s r = (k, v) ->
  weak_rep (put_row r (k, w) s) (<[k:=w]> M) /\ mal_weak_row (put_row r (k, w) s) r = (k, w).
Proof using Type.
  intros H [Hin Hl] Er. pose proof (ro_row _ _ _ (rep_rows s M H) r (conj Hin Hl)) as HM. rewrite Er in HM. simpl in HM.
  destruct H as [Hs Hsm Hres Hst]. unfold put_row, mal_weak_live, mal_weak_row in *. simpl in Hin. unfold is_inline in Hin.
  destruct (w_buckets s) as [[b c]|] eqn:Eb; simpl.
  - destruct Hst as [HB Hf]. pose proof (bucket_value _ _ _ _ _ HB r w (conj Hin Hl)) as HV. rewrite Er in HV. simpl in HV.
    split; [split; simpl; rewrite ?(card_value _ _ _ _ HM); done|]. apply arr_get_set_eq. rewrite (bucket_len _ _ _ _ _ HB). lia.
  - destruct Hst as [Hc HR]. assert (0 <= r < arr_len (w_small s)) as Hr by lia.
    split; [|by apply arr_get_set_eq]. split; simpl; rewrite ?(card_value _ _ _ _ HM), ?arr_len_set; [done..|]. split; [done|].
    apply (rows_value _ _ _ HR _ r); [lia|by rewrite Er| |by apply arr_get_set_eq].
    intros i Hi Hne. apply arr_get_set_ne; lia.
Qed.

(** ** Insertion *)

Lemma insert_inline_ok s M k v :
  weak_rep s M -> w_buckets s = None -> card M < MAL_WEAK_INLINE_CAPACITY -> M !! k = None ->
  let s' := set_w_size (u32 (w_size s + 1)) (put_row (w_size s) (k, v) s) in
  weak_rep s' (<[k:=v]> M) /\ store_live s' (w_size s) /\ mal_weak_row s' (w_size s) = (k, v).
Proof using Type.
  intros [Hs Hsm Hres Hst] Eb Hc HM s'. subst s'. rewrite Eb in Hst. destruct Hst as [_ HR]. unfold put_row. rewrite Eb.
  change MAL_WEAK_INLINE_CAPACITY with 4 in *. pose proof (card_nonneg M).
  assert (u32 (w_size s + 1) = card M + 1) as Hu by (unfold u32; rewrite wrap_small by (unfold in_u; lia); lia).
  unfold set_w_size, store_live, mal_weak_live, mal_weak_row. simpl. rewrite Hu.
  assert (arr_get (arr_set (w_small s) (w_size s) (k, v)) (w_size s) = (k, v)) as Er by (apply arr_get_set_eq; lia).
  split; [|split; [split; [lia|apply Z.ltb_lt; lia]|done]].
  split; simpl; rewrite ?arr_len_set, ?card_insert by done; [lia|done|done|]. split; [change MAL_WEAK_INLINE_CAPACITY with 4; lia|].
  apply (rows_insert _ _ _ HR _ _ (w_size s)); [done|intros i; lia| |done]. intros i Hi. apply arr_get_set_ne; lia.
Qed.

(** The stores of an insertion in the buckets. *)
Definition place (slot : Z) (row : Row) (s : MalWeakStorage) : MalWeakStorage :=
  let s := put_row slot row s in
  let s := if arr_get (w_controls s) slot =? MAL_HASH_DELETED then set_w_deleted (u32 (w_deleted s - 1)) s else s in
  let s := set_w_controls (arr_set (w_controls s) slot (mal_hash_tag (mal_key_hash_mix (fst row)))) s in
  set_w_size (u32 (w_size s + 1)) s.

Lemma place_ok s M b c k v slot :
  weak_rep s M -> w_buckets s = Some (b, c) -> M !! k = None -> reusable (w_capacity s) c (mal_key_hash_mix k) slot ->
  mal_hash_index_fits (card M + 1 + w_deleted s - Z.b2z (deleted_control (arr_get c slot))) (w_capacity s) = true ->
  weak_rep (place slot (k, v) s) (<[k:=v]> M) /\ store_live (place slot (k, v) s) slot /\ mal_weak_row (place slot (k, v) s) slot = (k, v).
Proof using Type.
  intros H Eb HM Hr Hfit. pose proof (rep_bounds s M H) as Hcm. destruct H as [Hs Hsm Hres Hst]. rewrite Eb in Hst. destruct Hst as [HB Hf0].
  pose proof (io_capacity _ _ _ _ _ _ (proj1 HB)) as Hcap. pose proof (capacity_bound _ Hcap). pose proof (fits_lt _ _ Hcap Hf0).
  pose proof (bucket_insert _ _ _ _ _ HB slot k v Hr HM) as HI. pose proof (bucket_deleted _ _ _ _ _ HI) as Hd.
  pose proof (card_nonneg M). pose proof (bucket_deleted _ _ _ _ _ HB).
  assert (place slot (k, v) s = mkWeak (Some (arr_set b slot (k, v), arr_set c slot (mal_hash_tag (mal_key_hash_mix k)))) (card M + 1) (w_capacity s)
    (w_deleted s - Z.b2z (deleted_control (arr_get c slot))) (w_reserve_size s) (w_small s)) as ->.
  { unfold place, put_row, w_controls. rewrite Eb. simpl. unfold deleted_control in *. destruct (arr_get c slot =? MAL_HASH_DELETED);
      unfold set_w_controls, set_w_deleted, set_w_size, u32; simpl in *; rewrite ?wrap_small by (unfold in_u; lia); f_equal; lia. }
  destruct Hr as (Hin & _ & _). split; [|split].
  - split; simpl; [by rewrite card_insert|done|done|]. split; [done|]. rewrite card_insert by done. rewrite <- Hfit. f_equal. lia.
  - split; simpl; [done|]. unfold mal_weak_live. simpl. rewrite arr_get_set_eq by (rewrite (io_controls _ _ _ _ _ _ (proj1 HB)); lia).
    apply (tag_live _ (hash_mix_range k)).
  - unfold mal_weak_row. simpl. apply arr_get_set_eq. rewrite (bucket_len _ _ _ _ _ HB). lia.
Qed.

Definition upserted (width : WeakWidth) (k : Z) (s : MalWeakStorage) (M : gmap Z Z) (r : Z) (inserted : bool) (s' : MalWeakStorage) : Prop :=
  store_live s' r /\
  match M !! k with
  | Some v => inserted = false /\ s' = s /\ mal_weak_row s' r = (k, v)
  | None => inserted = true /\ weak_rep s' (<[k:=snd (weak_new_row width k)]> M) /\ mal_weak_row s' r = weak_new_row width k
  end.

(** Growing: the store is rebuilt with room for one more, and the key placed. *)
Lemma upsert_grow s M width k members : weak_rep s M -> M !! k = None -> card M + 1 <= members -> reservable members = true ->
  exists cap s1 r, mal_weak_capacity members width = Ret (Some cap) /\ mal_weak_rebuild MASK_SHIFT raw s width cap = Ret s1 /\
    mal_weak_find MASK_SHIFT s1 k (mal_key_hash_mix k) = Ret r /\ upserted width k s M r true (place r (weak_new_row width k) s1).
Proof using HS.
  intros H HM Hm Hres. destruct (weak_capacity_some members width Hres) as (cap & Ec & Hcap & Hf).
  assert (mal_hash_index_fits (card M + 1) cap = true) as Hf1 by (apply Z.leb_le; apply Z.leb_le in Hf; lia).
  destruct (rebuild_ok s M width cap H Hcap) as (s1 & Er & HR & Hi & Ecap & Ed & _); [apply Z.leb_le; apply Z.leb_le in Hf1; lia|].
  destruct (weak_find_ok s1 M k HR) as (r & Ef & Hfree). rewrite Hi in Ef. rewrite HM in Hfree. destruct Hfree as [Hl Hfree].
  exists cap, s1, r. split; [done|]. split; [done|]. split; [done|]. unfold is_inline in Hi. destruct (w_buckets s1) as [[b c]|] eqn:Eb; [|done].
  destruct (place_ok s1 M b c k (snd (weak_new_row width k)) r HR Eb HM Hfree) as (P1 & P2 & P3).
  - rewrite Ecap, Ed. apply Z.leb_le. apply Z.leb_le in Hf1. destruct (deleted_control _); simpl; lia.
  - change (k, snd (weak_new_row width k)) with (weak_new_row width k) in *. unfold upserted. rewrite HM. done.
Qed.

Lemma weak_upsert_ok s M width k : weak_rep s M -> card M < 2 ^ 29 ->
  exists r inserted s', mal_weak_upsert MASK_SHIFT raw s width k = Ret (r, inserted, s') /\ upserted width k s M r inserted s'.
Proof using HS.
  intros H Hroom. unfold mal_weak_upsert. destruct (weak_find_ok s M k H) as (r & Ef & Hr). rewrite Ef. simpl.
  pose proof (rep_bounds s M H) as Hb. pose proof (card_nonneg M) as Hn. pose proof (wr_size s M H) as Hs.
  destruct (M !! k) as [v|] eqn:HM.
  { destruct Hr as [[Hin Hl] Er]. rewrite Hl. exists r, false, s. split; [done|]. unfold upserted. rewrite HM. done. }
  destruct Hr as [Hl Hr]. rewrite Hl. assert (u32 (w_size s + 1) = card M + 1) as Hu by (unfold u32; rewrite wrap_small by (unfold in_u; lia); lia).
  rewrite Hu. set (members := if card M + 1 <? w_reserve_size s then w_reserve_size s else card M + 1).
  assert (card M + 1 <= members) as Hm by (unfold members; destruct (Z.ltb_spec (card M + 1) (w_reserve_size s)); lia).
  assert (reservable members = true) as Hres.
  { unfold members. destruct (_ <? _); [apply (wr_reserve s M H)|]. apply Z.leb_le. change (2 ^ 30 - 2 ^ 30 / 8) with (7 * 2 ^ 27). lia. }
  destruct (upsert_grow s M width k members H HM Hm Hres) as (cap & s1 & r1 & Ec & Erb & Ef1 & HG).
  destruct (is_inline s) eqn:Ei; cbn [andb orb negb].
  - assert (w_buckets s = None) as Eb by (unfold is_inline in Ei; by destruct (w_buckets s)). rewrite Eb in Hr. subst r.
    destruct (Z.ltb_spec (w_size s) MAL_WEAK_INLINE_CAPACITY).
    + destruct (insert_inline_ok s M k (snd (weak_new_row width k)) H Eb) as (P1 & P2 & P3); [lia|done|]. rewrite Hu in *.
      eexists _, true, _. split; [done|]. unfold upserted. rewrite HM. done.
    + rewrite Ec. simpl. rewrite Erb. simpl. rewrite Ef1. simpl. eexists _, true, _. split; [done|exact HG].
  - destruct (w_buckets s) as [[b c]|] eqn:Eb; [|by unfold is_inline in Ei; rewrite Eb in Ei].
    assert (w_controls s = c) as -> by (unfold w_controls; by rewrite Eb).
    destruct (mal_hash_index_fits _ (w_capacity s)) eqn:Efit; cbn [negb].
    + simpl. exists r, true, (place r (weak_new_row width k) s). split; [done|]. unfold upserted. rewrite HM.
      destruct (place_ok s M b c k (snd (weak_new_row width k)) r H Eb HM Hr) as (P1 & P2 & P3); [|done].
      destruct (wr_reserve s M H) as [Hr0 Hr1]. apply Z.leb_le in Hr1. change (2 ^ 30 - 2 ^ 30 / 8) with (7 * 2 ^ 27) in Hr1.
      destruct H as [_ _ _ Hst]. rewrite Eb in Hst. destruct Hst as [HB Hf0]. pose proof (io_capacity _ _ _ _ _ _ (proj1 HB)) as Hcap.
      pose proof (capacity_bound _ Hcap). pose proof (fits_lt _ _ Hcap Hf0). pose proof (bucket_deleted _ _ _ _ _ HB).
      assert (members < 2 ^ 30) by (unfold members; destruct (_ <? _); lia).
      unfold deleted_control. unfold u64 in Efit. destruct (arr_get c r =? MAL_HASH_DELETED); simpl Z.b2z in *;
        rewrite wrap_small in Efit by (unfold in_u; lia); apply Z.leb_le; apply Z.leb_le in Efit; lia.
    + rewrite Ec. simpl. rewrite Erb. simpl. rewrite Ef1. simpl. eexists _, true, _. split; [done|exact HG].
Qed.

(** ** Removal *)

(** The values a removed row leaves to the barriers. *)
Definition row_words (width : WeakWidth) (r : Row) : list Z := match width with MAL_WEAK_MAP_WIDTH => [fst r; snd r] | MAL_WEAK_SET_WIDTH => [] end.
Definition log_words (marking : bool) (ws : list Z) (g : GcLog) : GcLog := if marking then mkGc (log_satb g ++ ws) (log_cards g) else g.

Lemma log_words_app marking ws ws' g : log_words marking ws' (log_words marking ws g) = log_words marking (ws ++ ws') g.
Proof using Type. destruct marking; [|done]. unfold log_words. simpl. by rewrite <- app_assoc. Qed.
Lemma log_words_nil marking g : log_words marking [] g = g.
Proof using Type. destruct marking, g; [|done]. unfold log_words. simpl. by rewrite app_nil_r. Qed.

(** What an erasure leaves of the other slots: inline, the slots before; in the buckets, all. *)
Definition others_kept (s : MalWeakStorage) (r : Z) (s' : MalWeakStorage) : Prop :=
  is_inline s' = is_inline s /\
  if is_inline s then forall i, 0 <= i < r -> mal_weak_row s' i = mal_weak_row s i
  else w_capacity s' = w_capacity s /\ (forall i, store_live s' i <-> store_live s i /\ i <> r) /\ (forall i, mal_weak_row s' i = mal_weak_row s i).

Lemma erase_inline_ok s M r k v :
  weak_rep s M -> w_buckets s = None -> store_live s r -> mal_weak_row s r = (k, v) ->
  let s' := set_w_size (u32 (w_size s - 1)) (if negb (r + 1 =? w_size s) then put_row r (mal_weak_row s (w_size s - 1)) s else s) in
  weak_rep s' (delete k M) /\ others_kept s r s'.
Proof using Type.
  intros H Eb Hl Er s'. pose proof (rep_bounds s M H). pose proof (ro_row _ _ _ (rep_rows s M H) r Hl) as HM. rewrite Er in HM. simpl in HM.
  destruct H as [Hs Hsm Hres Hst]. rewrite Eb in Hst. destruct Hst as [Hc HR]. destruct Hl as [Hin _]. simpl in Hin. unfold is_inline in Hin. rewrite Eb in Hin.
  assert (u32 (w_size s - 1) = card M - 1) as Hu by (unfold u32; rewrite wrap_small by (unfold in_u; lia); lia).
  unfold mal_weak_row in Er. rewrite Eb in Er. change MAL_WEAK_INLINE_CAPACITY with 4 in *.
  assert (exists small, s' = mkWeak None (card M - 1) (w_capacity s) (w_deleted s) (w_reserve_size s) small /\ arr_len small = 4 /\
    (forall i, 0 <= i < 4 -> i <> r -> arr_get small i = arr_get (w_small s) i) /\ (r <> w_size s - 1 -> arr_get small r = arr_get (w_small s) (w_size s - 1)))
    as (small & -> & Hlen & Hoth & Hmv).
  { subst s'. unfold put_row, mal_weak_row, set_w_size. rewrite Eb, Hu. destruct (Z.eqb_spec (r + 1) (w_size s)); simpl.
    - exists (w_small s). rewrite Eb. split; [done|]. split; [done|]. split; [done|lia].
    - eexists. split; [done|]. rewrite arr_len_set. split; [done|]. split; [intros i Hi Hne; apply arr_get_set_ne; lia|]. intros _. apply arr_get_set_eq. lia. }
  split.
  - split; simpl; [by rewrite (card_delete _ _ _ HM)|done|done|]. rewrite (card_delete _ _ _ HM). split; [change MAL_WEAK_INLINE_CAPACITY with 4; lia|].
    pose proof (rows_remove _ _ _ HR (fun i => 0 <= i < card M - 1) (arr_get small) r (w_size s - 1)) as HD. rewrite Er in HD. simpl in HD.
    apply HD; [lia|lia|intros i; lia|intros i Hi; apply Hoth; lia|exact Hmv].
  - unfold others_kept, is_inline, mal_weak_row. rewrite Eb. simpl. split; [done|]. intros i Hi. apply Hoth; lia.
Qed.

Lemma erase_ok marking s M width r k v g :
  weak_rep s M -> store_live s r -> mal_weak_row s r = (k, v) ->
  exists s', mal_weak_erase MASK_SHIFT marking s width r g = (s', log_words marking (row_words width (k, v)) g) /\
    weak_rep s' (delete k M) /\ others_kept s r s'.
Proof using HS.
  intros H Hl Er. unfold mal_weak_erase. rewrite Er. simpl fst. simpl snd. eexists. split.
  { f_equal. destruct width; simpl; [|by rewrite log_words_nil]. unfold log_words, log_barrier. destruct marking; [|done]. simpl. by rewrite <- app_assoc. }
  destruct (is_inline s) eqn:Ei.
  - assert (w_buckets s = None) as Eb by (unfold is_inline in Ei; by destruct (w_buckets s)).
    assert (forall s0 : MalWeakStorage, w_size s0 = w_size s -> set_w_size (u32 (w_size s0 - 1)) s0 = set_w_size (u32 (w_size s - 1)) s0) as E by (by intros s0 ->).
    rewrite E; [by apply (erase_inline_ok s M r k v)|]. unfold put_row. rewrite Eb. by destruct (negb _).
  - pose proof (rep_bounds s M H). pose proof (ro_row _ _ _ (rep_rows s M H) r Hl) as HM. rewrite Er in HM. simpl in HM.
    pose proof (card_delete _ _ _ HM) as HC. destruct H as [Hs Hsm Hres Hst]. unfold is_inline in Ei. destruct (w_buckets s) as [[b c]|] eqn:Eb; [|done].
    destruct Hst as [HB Hf]. destruct Hl as [Hin Hl]. simpl in Hin. unfold is_inline in Hin. rewrite Eb in Hin. unfold mal_weak_live in Hl. rewrite Eb in Hl.
    pose proof (bucket_erase MASK_SHIFT HS _ _ _ _ _ HB r (conj Hin Hl)) as HE. unfold w_controls. rewrite Eb.
    destruct (mal_hash_controls_erase MASK_SHIFT c r) as [c' d]. destruct HE as [HE Hlive]. unfold mal_weak_row in Er. rewrite Eb in Er. rewrite Er in HE. simpl in HE.
    pose proof (io_capacity _ _ _ _ _ _ (proj1 HB)) as Hcap. pose proof (capacity_bound _ Hcap). pose proof (fits_lt _ _ Hcap Hf). pose proof (bucket_deleted _ _ _ _ _ HB).
    pose proof (card_nonneg (delete k M)). assert (0 <= Z.b2z d <= 1) by (destruct d; simpl; lia). unfold set_w_controls, set_w_deleted, set_w_size, u32. rewrite Eb. simpl. rewrite !wrap_small by (unfold in_u; lia).
    split.
    + split; simpl; [lia|done|done|]. split; [done|]. apply Z.leb_le in Hf. apply Z.leb_le. lia.
    + unfold others_kept, store_live, mal_weak_live, mal_weak_row, is_inline. simpl. unfold is_inline. rewrite Eb. simpl. auto.
Qed.

(** ** Filtering *)

Section retain.
Variable keep : Z -> bool.
Definition kept (M : gmap Z Z) : gmap Z Z := filter (fun p => keep (fst p) = true) M.
Definition dropped (M : gmap Z Z) : gmap Z Z := filter (fun p => keep (fst p) = false) M.

Lemma kept_all M : (forall k v, M !! k = Some v -> keep k = true) -> kept M = M /\ dropped M = ∅.
Proof using Type.
  intros H. split; [apply map_filter_id; intros k v E; simpl; eauto|].
  apply map_empty. intros k. apply map_lookup_filter_None. destruct (M !! k) as [v|] eqn:E; [|by left]. right. intros v' Hv. injection Hv as <-.
  simpl. rewrite (H k v E). done.
Qed.
Lemma kept_delete M k : keep k = false -> kept (delete k M) = kept M.
Proof using Type.
  intros Hk. apply map_eq. intros k'. unfold kept. destruct (decide (k' = k)) as [->|Hne].
  - transitivity (@None Z); [|symmetry]; apply map_lookup_filter_None; [left; apply lookup_delete_eq|]. right. simpl. intros v _. by rewrite Hk.
  - rewrite map_filter_delete. by rewrite lookup_delete_ne.
Qed.
Lemma dropped_delete M k v : M !! k = Some v -> keep k = false -> map_to_list (dropped M) ≡ₚ (k, v) :: map_to_list (dropped (delete k M)).
Proof using Type.
  intros HM Hk. rewrite <- map_to_list_insert; [|unfold dropped; rewrite map_filter_delete; apply lookup_delete_eq].
  unfold dropped. rewrite map_filter_delete, insert_delete_id; [done|]. apply map_lookup_filter_Some. done.
Qed.

Definition retained (marking : bool) (width : WeakWidth) (M : gmap Z Z) (g : GcLog) (s' : MalWeakStorage) (g' : GcLog) : Prop :=
  weak_rep s' (kept M) /\ exists l, l ≡ₚ map_to_list (dropped M) /\ g' = log_words marking (concat (map (row_words width) l)) g.

Lemma retained_none marking width s M g : weak_rep s M -> (forall i, store_live s i -> keep (fst (mal_weak_row s i)) = true) -> retained marking width M g s g.
Proof using Type.
  intros H Hk. destruct (kept_all M) as [Hkept Hdrop].
  { intros k v E. destruct (ro_entry _ _ _ (rep_rows s M H) k v E) as (i & Hi & Ei). specialize (Hk i Hi). by rewrite Ei in Hk. }
  split; [by rewrite Hkept|]. exists []. split; [by rewrite Hdrop, map_to_list_empty|]. by rewrite log_words_nil.
Qed.

(** One removal, and the rest of the loop after it. *)
Lemma retained_step marking width M k v g s' g' :
  M !! k = Some v -> keep k = false ->
  retained marking width (delete k M) (log_words marking (row_words width (k, v)) g) s' g' -> retained marking width M g s' g'.
Proof using Type.
  intros HM Hk [HR (l & Hl & ->)]. split; [by rewrite kept_delete in HR|].
  exists ((k, v) :: l). split; [rewrite (dropped_delete _ _ _ HM Hk); by f_equiv|]. by rewrite log_words_app.
Qed.

Lemma retain_inline_ok marking width fuel : forall s M i g,
  weak_rep s M -> is_inline s = true -> 0 <= i <= w_size s -> (forall j, 0 <= j < i -> keep (fst (mal_weak_row s j)) = true) -> w_size s - i < Z.of_nat fuel ->
  exists s' g', retain_inline MASK_SHIFT marking keep fuel s width i g = Ret (s', g') /\ retained marking width M g s' g'.
Proof using HS.
  induction fuel as [|fuel IH]; intros s M i g H Ei Hi Hdone Hf; [lia|]. cbn [retain_inline].
  destruct (Z.ltb_spec i (w_size s)) as [Hlt|Hge].
  - assert (store_live s i) as Hl.
    { unfold store_live, mal_weak_live. simpl. rewrite Ei. unfold is_inline in Ei. destruct (w_buckets s); [done|]. rewrite Z.ltb_lt. lia. }
    destruct (mal_weak_row s i) as [k v] eqn:Er. cbn [fst snd]. destruct (keep k) eqn:Ek.
    + apply IH; [done|done|lia| |lia]. intros j Hj. destruct (decide (j = i)) as [->|]; [by rewrite Er|]. apply Hdone. lia.
    + destruct (erase_ok marking s M width i k v g H Hl Er) as (s1 & -> & HR & Ei1 & Hkept). rewrite Ei in *.
      pose proof (ro_row _ _ _ (rep_rows s M H) i Hl) as HM. rewrite Er in HM. simpl in HM.
      assert (w_size s1 = w_size s - 1) as Hsz by (rewrite (wr_size _ _ HR), (wr_size _ _ H); by apply card_delete with v).
      destruct (IH s1 (delete k M) i (log_words marking (row_words width (k, v)) g)) as (s' & g' & E & HD); [done|done|lia| |lia|].
      * intros j Hj. rewrite Hkept by lia. by apply Hdone.
      * exists s', g'. split; [done|]. by apply (retained_step _ _ _ k v).
  - exists s, g. split; [done|]. apply retained_none; [done|]. intros j [Hj _]. simpl in Hj. rewrite Ei in Hj. apply Hdone. lia.
Qed.

Lemma retain_buckets_ok marking width ids : forall s M g,
  weak_rep s M -> is_inline s = false -> (forall i, store_live s i -> i ∉ ids -> keep (fst (mal_weak_row s i)) = true) -> (forall i, i ∈ ids -> 0 <= i < w_capacity s) ->
  let '(s', g') := retain_buckets MASK_SHIFT marking keep ids s width g in retained marking width M g s' g'.
Proof using HS.
  induction ids as [|i ids IH]; intros s M g H Ei Hdone Hin; cbn [retain_buckets].
  - apply retained_none; [done|]. intros i Hi. apply Hdone; [done|]. apply not_elem_of_nil.
  - assert (0 <= i < w_capacity s) as Hi by (apply Hin, elem_of_cons; by left).
    assert (forall j, j ∈ ids -> 0 <= j < w_capacity s) as Hin' by (intros j Hj; apply Hin, elem_of_cons; by right).
    destruct (mal_weak_live s i) eqn:El; cbn [andb].
    2: { apply IH; [done|done| |done]. intros j Hj Hn. apply Hdone; [done|]. intros [->|]%elem_of_cons; [|done]. destruct Hj. congruence. }
    assert (store_live s i) as Hl by (split; [simpl; by rewrite Ei|done]).
    destruct (mal_weak_row s i) as [k v] eqn:Er. cbn [fst snd]. destruct (keep k) eqn:Ek; cbn [negb].
    + apply IH; [done|done| |done]. intros j Hj Hn. destruct (decide (j = i)) as [->|]; [by rewrite Er|]. apply Hdone; [done|]. by intros [|]%elem_of_cons.
    + destruct (erase_ok marking s M width i k v g H Hl Er) as (s1 & -> & HR & Ei1 & Hkept). rewrite Ei in *. destruct Hkept as (Hcap & Hlive & Hrow).
      pose proof (ro_row _ _ _ (rep_rows s M H) i Hl) as HM. rewrite Er in HM. simpl in HM.
      specialize (IH s1 (delete k M) (log_words marking (row_words width (k, v)) g) HR Ei1).
      destruct (retain_buckets _ _ _ _ _ _ _) as [s' g']. apply (retained_step _ _ _ k v); [done|done|]. apply IH.
      * intros j [Hj Hne]%Hlive Hn. rewrite Hrow. apply Hdone; [done|]. by intros [|]%elem_of_cons.
      * intros j Hj. rewrite Hcap. auto.
Qed.

Lemma weak_retain_ok marking width s M g : weak_rep s M ->
  exists s' g', mal_weak_retain MASK_SHIFT raw marking keep (Some s) width g = Ret (card M - card (kept M), Some s', g') /\ retained marking width M g s' g'.
Proof using HS.
  intros H. unfold mal_weak_retain. pose proof (rep_size_nonneg s M H).
  assert (exists s1 g1, (if is_inline s then retain_inline MASK_SHIFT marking keep (S (Z.to_nat (w_size s))) s width 0 g
      else Ret (retain_buckets MASK_SHIFT marking keep (seqZ 0 (w_capacity s)) s width g)) = Ret (s1, g1) /\ retained marking width M g s1 g1) as (s1 & g1 & E & HR & Hlog).
  { destruct (is_inline s) eqn:Ei; [apply retain_inline_ok; [done|done|lia|lia|lia]|].
    pose proof (retain_buckets_ok marking width (seqZ 0 (w_capacity s)) s M g H Ei) as HB. destruct (retain_buckets _ _ _ _ _ _ _) as [s1 g1].
    exists s1, g1. split; [done|]. apply HB; [|intros i Hi%elem_of_seqZ; lia]. intros i [Hi _] Hn. destruct Hn. apply elem_of_seqZ. simpl in Hi. rewrite Ei in Hi. lia. }
  rewrite E. simpl. rewrite (wr_size _ _ H), (wr_size _ _ HR). destruct (negb _).
  - destruct (maintain_ok s1 (kept M) width true HR) as (s2 & -> & HR2). simpl. exists s2, g1. done.
  - simpl. exists s1, g1. done.
Qed.
End retain.
End ops.
