(* ===== verification/WeakTheorems.v ===== *)
(** Programs on a WeakMap and on a WeakSet: what they answer, what the store stands for
    after them, and what they tell the collector. *)

From stdpp Require Import gmap.
From S2P Require Import Prelude F64 Value Key HashIndex MapObject MapStore WeakCollection WeakSpec.

(** * Programs *)

Inductive WeakMapOp : Type :=
| WmSet (key value : Z) | WmGetOrInsert (key value : Z) | WmGet (key : Z) | WmLookup (key : Z) | WmHas (key : Z)
| WmDelete (key : Z) | WmSize | WmReserve (desired : Z) | WmRetain (keep : Z -> bool) | WmIterate.
Inductive WeakSetOp : Type :=
| WsAdd (key : Z) | WsHas (key : Z) | WsDelete (key : Z) | WsSize | WsReserve (desired : Z) | WsRetain (keep : Z -> bool) | WsIterate.
Inductive WeakResult : Type :=
| RUnit | RBool (b : bool) | RValue (value : Z) | RFound (value : option Z) | RCount (n : Z) | RRows (rows : list Row) | RKeys (keys : list Z).

(** The collector's scans: [iter_next] until it answers false. *)
Fixpoint map_iterate (fuel : nat) (m : option MalWeakStorage) (index : Z) : list Row :=
  match fuel with
  | O => []
  | S fuel => match mal_weak_map_iter_next m index with (Some r, index) => r :: map_iterate fuel m index | (None, _) => [] end
  end.
Fixpoint set_iterate (fuel : nat) (m : option MalWeakStorage) (index : Z) : list Z :=
  match fuel with
  | O => []
  | S fuel => match mal_weak_set_iter_next m index with (Some k, index) => k :: set_iterate fuel m index | (None, _) => [] end
  end.

Section programs.
Variable MASK_SHIFT : Z.
Variable registered : Z -> bool.
Variable raw : Z -> Row.

Definition map_step (marking : bool) (op : WeakMapOp) (m : option MalWeakStorage) (g : GcLog) : outcome (WeakResult * option MalWeakStorage * GcLog) :=
  match op with
  | WmSet key value => '(m, g) ← mal_weak_map_object_set MASK_SHIFT registered raw marking m key value g; Ret (RUnit, m, g)
  | WmGetOrInsert key value => '(v, m, g) ← mal_weak_map_object_get_or_insert MASK_SHIFT registered raw marking m key value g; Ret (RValue v, m, g)
  | WmGet key => v ← mal_weak_map_object_get MASK_SHIFT registered m key; Ret (RValue v, m, g)
  | WmLookup key => v ← mal_weak_map_object_lookup MASK_SHIFT registered m key; Ret (RFound v, m, g)
  | WmHas key => b ← mal_weak_map_object_has MASK_SHIFT registered m key; Ret (RBool b, m, g)
  | WmDelete key => '(b, m, g) ← mal_weak_map_object_delete MASK_SHIFT registered raw marking m key g; Ret (RBool b, m, g)
  | WmSize => Ret (RCount (mal_weak_map_object_size m), m, g)
  | WmReserve n => '(b, m) ← mal_weak_map_object_reserve MASK_SHIFT raw m n; Ret (RBool b, m, g)
  | WmRetain keep => '(n, m, g) ← mal_weak_map_storage_retain MASK_SHIFT raw marking keep m g; Ret (RCount n, m, g)
  | WmIterate => Ret (RRows (map_iterate (S (Z.to_nat (mal_weak_storage_scan_slots m))) m 0), m, g)
  end.
Definition set_step (marking : bool) (op : WeakSetOp) (m : option MalWeakStorage) (g : GcLog) : outcome (WeakResult * option MalWeakStorage * GcLog) :=
  match op with
  | WsAdd key => '(m, g) ← mal_weak_set_object_add MASK_SHIFT registered raw m key g; Ret (RUnit, m, g)
  | WsHas key => b ← mal_weak_set_object_has MASK_SHIFT registered m key; Ret (RBool b, m, g)
  | WsDelete key => '(b, m, g) ← mal_weak_set_object_delete MASK_SHIFT registered raw marking m key g; Ret (RBool b, m, g)
  | WsSize => Ret (RCount (mal_weak_set_object_size m), m, g)
  | WsReserve n => '(b, m) ← mal_weak_set_object_reserve MASK_SHIFT raw m n; Ret (RBool b, m, g)
  | WsRetain keep => '(n, m, g) ← mal_weak_set_storage_retain MASK_SHIFT raw marking keep m g; Ret (RCount n, m, g)
  | WsIterate => Ret (RKeys (set_iterate (S (Z.to_nat (mal_weak_storage_scan_slots m))) m 0), m, g)
  end.

(** A program: operations, each with whether the collector is marking then. *)
Definition weak_run {Op} (step : bool -> Op -> option MalWeakStorage -> GcLog -> outcome (WeakResult * option MalWeakStorage * GcLog)) :=
  fix run (prog : list (bool * Op)) (m : option MalWeakStorage) (g : GcLog) : outcome (list WeakResult * option MalWeakStorage * GcLog) :=
    match prog with
    | [] => Ret ([], m, g)
    | (marking, op) :: prog =>
        '(r, m, g) ← step marking op m g;
        '(rs, m, g) ← run prog m g;
        Ret (r :: rs, m, g)
    end.
End programs.

(** * What they mean *)

Definition found (o : option Z) : bool := match o with Some _ => true | None => false end.

(** A WeakMap is a finite map. *)
Definition map_next (op : WeakMapOp) (M : gmap Z Z) : gmap Z Z :=
  match op with
  | WmSet key value => <[key:=value]> M
  | WmGetOrInsert key value => <[key:=default value (M !! key)]> M
  | WmDelete key => delete key M
  | WmRetain keep => kept keep M
  | _ => M
  end.
Definition map_answer (op : WeakMapOp) (M : gmap Z Z) (r : WeakResult) : Prop :=
  match op with
  | WmSet _ _ => r = RUnit
  | WmGetOrInsert key value => r = RValue (default value (M !! key))
  | WmGet key => r = RValue (default MAL_VALUE_UNDEFINED (M !! key))
  | WmLookup key => r = RFound (M !! key)
  | WmHas key | WmDelete key => r = RBool (found (M !! key))
  | WmSize => r = RCount (card M)
  | WmReserve n => r = RBool (reservable n)
  | WmRetain keep => r = RCount (card M - card (kept keep M))
  | WmIterate => exists rows, r = RRows rows /\ rows ≡ₚ map_to_list M
  end.

(** A WeakSet is a finite set. *)
Definition set_next (op : WeakSetOp) (X : gset Z) : gset Z :=
  match op with
  | WsAdd key => {[key]} ∪ X
  | WsDelete key => X ∖ {[key]}
  | WsRetain keep => filter (fun k => keep k = true) X
  | _ => X
  end.
Definition set_answer (op : WeakSetOp) (X : gset Z) (r : WeakResult) : Prop :=
  match op with
  | WsAdd _ => r = RUnit
  | WsHas key | WsDelete key => r = RBool (bool_decide (key ∈ X))
  | WsSize => r = RCount (Z.of_nat (base.size X))
  | WsReserve n => r = RBool (reservable n)
  | WsRetain keep => r = RCount (Z.of_nat (base.size X) - Z.of_nat (base.size (filter (fun k => keep k = true) X)))
  | WsIterate => exists keys, r = RKeys keys /\ keys ≡ₚ elements X
  end.

(** The answers of a program, each right for the state before its operation. *)
Section meaning.
Context {Op St : Type} (next : Op -> St -> St) (answer : Op -> St -> WeakResult -> Prop).
Fixpoint final (prog : list (bool * Op)) (st : St) : St := match prog with [] => st | (_, op) :: prog => final prog (next op st) end.
Fixpoint answers (prog : list (bool * Op)) (st : St) (rs : list WeakResult) : Prop :=
  match prog, rs with
  | [], [] => True
  | (_, op) :: prog, r :: rs => answer op st r /\ answers prog (next op st) rs
  | _, _ => False
  end.
End meaning.

(** The values a step must report while the collector marks, and the values it cards. *)
Definition map_leaving (op : WeakMapOp) (M : gmap Z Z) : list Z :=
  match op with
  | WmSet key _ => [default MAL_VALUE_UNDEFINED (M !! key)]
  | WmGetOrInsert key _ => match M !! key with None => [MAL_VALUE_UNDEFINED] | Some _ => [] end
  | WmDelete key => match M !! key with Some v => [key; v] | None => [] end
  | WmRetain keep => concat (map (row_words MAL_WEAK_MAP_WIDTH) (map_to_list (dropped keep M)))
  | _ => []
  end.
Definition map_carded (op : WeakMapOp) (M : gmap Z Z) : list Z :=
  match op with
  | WmSet key value => [key; value]
  | WmGetOrInsert key value => match M !! key with None => [key; value] | Some _ => [] end
  | _ => []
  end.

(** A WeakSet cards the keys it adds, and reports nothing. *)
Definition set_carded (op : WeakSetOp) (X : gset Z) : list Z :=
  match op with WsAdd key => if bool_decide (key ∈ X) then [] else [key] | _ => [] end.
Fixpoint set_cards (prog : list (bool * WeakSetOp)) (X : gset Z) : list Z :=
  match prog with [] => [] | (_, op) :: prog => set_carded op X ++ set_cards prog (set_next op X) end.

(** * The steps *)

Definition rep_opt (m : option MalWeakStorage) (M : gmap Z Z) : Prop := match m with None => M = ∅ | Some s => weak_rep s M end.

Section steps.
Variable MASK_SHIFT : Z.
Hypothesis HS : 0 <= MASK_SHIFT.
Variable registered : Z -> bool.
Variable raw : Z -> Row.

Definition held (M : gmap Z Z) : Prop := forall k v, M !! k = Some v -> mal_weak_key_can_be_held registered k = true.

Lemma weak_new_ok : weak_rep (mal_weak_storage_new raw) ∅.
Proof using Type.
  split; simpl; [done|done|split; [lia|by vm_compute]|]. change (card ∅) with 0. change MAL_WEAK_INLINE_CAPACITY with 4. split; [lia|].
  split; [lia|lia|]. intros k v H. by rewrite lookup_empty in H.
Qed.
Lemma rep_storage m M : rep_opt m M -> weak_rep (match m with None => mal_weak_storage_new raw | Some s => s end) M.
Proof using Type. destruct m; [done|]. simpl. intros ->. apply weak_new_ok. Qed.
Lemma rep_opt_size m M : rep_opt m M -> match m with None => 0 | Some s => w_size s end = card M.
Proof using Type. destruct m; [apply wr_size|]. by intros ->. Qed.

(** Searching: the slot of the key when it is there. *)
Lemma weak_lookup_ok m M k : rep_opt m M -> held M ->
  exists o, mal_weak_lookup MASK_SHIFT registered m k = Ret o /\
    match M !! k with Some v => exists s r, m = Some s /\ o = Some r /\ store_live s r /\ mal_weak_row s r = (k, v) | None => o = None end.
Proof using HS.
  intros H Hh. destruct m as [s|]; [|exists None; simpl in H; subst; by rewrite lookup_empty].
  simpl in *. destruct ((w_size s =? 0) || negb (mal_weak_key_can_be_held registered k)) eqn:E.
  - exists None. split; [done|]. destruct (M !! k) as [v|] eqn:HM; [exfalso|done]. rewrite (Hh k v HM), orb_false_r in E. apply Z.eqb_eq in E.
    pose proof (wr_size s M H). pose proof (card_delete _ _ _ HM). pose proof (card_nonneg (delete k M)). lia.
  - destruct (weak_find_ok MASK_SHIFT HS s M k H) as (r & Ef & Hr). rewrite Ef. simpl. eexists. split; [done|]. destruct (M !! k) as [v|].
    + destruct Hr as [Hl Er]. exists s, r. split; [done|]. by rewrite (proj2 Hl).
    + destruct Hr as [-> _]. done.
Qed.

Lemma weak_delete_ok marking m M width k g : rep_opt m M -> held M ->
  exists m', mal_weak_delete MASK_SHIFT registered raw marking m width k g =
      Ret (found (M !! k), m', match M !! k with Some v => log_words marking (row_words width (k, v)) g | None => g end) /\ rep_opt m' (delete k M).
Proof using HS.
  intros H Hh. unfold mal_weak_delete. destruct (weak_lookup_ok m M k H Hh) as (o & -> & Ho). cbn [mbind outcome_bind]. destruct (M !! k) as [v|] eqn:HM.
  - destruct Ho as (s & r & -> & -> & Hl & Er). destruct (erase_ok MASK_SHIFT HS marking s M width r k v g H Hl Er) as (s1 & -> & HR & _).
    destruct (maintain_ok MASK_SHIFT HS raw s1 (delete k M) width false HR) as (s2 & -> & HR2). simpl. by exists (Some s2).
  - subst o. exists m. split; [done|]. by rewrite delete_id.
Qed.

Lemma weak_reserve_ok m M width n : rep_opt m M -> 0 <= n ->
  exists m', mal_weak_reserve MASK_SHIFT raw m width n = Ret (reservable n, m') /\ rep_opt m' M.
Proof using HS.
  intros H Hn. unfold mal_weak_reserve. destruct (weak_capacity_ok n width) as ([cap|] & -> & Hc); simpl; [|rewrite Hc; by exists m].
  destruct Hc as [Hcap Hfit]. pose proof (weak_fits_mono _ _ Hcap Hfit) as Hres. rewrite Hres.
  destruct ((n =? 0) || match m with Some st => n <=? w_size st | None => false end) eqn:E; [by exists m|].
  pose proof (rep_storage m M H) as HR. set (st := match m with Some st => st | None => mal_weak_storage_new raw end).
  change (weak_rep st M) in HR. destruct (is_inline st) eqn:Ei.
  - eexists. split; [done|]. simpl. destruct (Z.ltb_spec (w_reserve_size st) n); [|done].
    pose proof Hres as Hres'. apply Z.leb_le in Hres'. change (2 ^ 30 - 2 ^ 30 / 8) with (7 * 2 ^ 27) in Hres'.
    destruct HR as [R1 R2 R3 R4]. unfold u32. rewrite wrap_small by (unfold in_u; lia). by split.
  - destruct (w_capacity st <? cap); [|by exists (Some st)].
    destruct (rebuild_ok MASK_SHIFT HS raw st M width cap HR Hcap) as (s' & -> & HR' & _); [|by exists (Some s')].
    assert (card M <= n) as Hle.
    { apply orb_false_iff in E as [_ E]. rewrite <- (wr_size st M HR). subst st. destruct m; [apply Z.leb_gt in E; lia|]. simpl. lia. }
    apply Z.leb_le in Hfit. apply Z.leb_le. lia.
Qed.
Lemma retain_opt_ok keep marking m M width g : rep_opt m M ->
  exists m' g' l, mal_weak_retain MASK_SHIFT raw marking keep m width g = Ret (card M - card (kept keep M), m', g') /\ rep_opt m' (kept keep M) /\
    l ≡ₚ map_to_list (dropped keep M) /\ g' = log_words marking (concat (map (row_words width) l)) g.
Proof using HS.
  intros H. destruct m as [s|].
  - destruct (weak_retain_ok MASK_SHIFT HS raw keep marking width s M g H) as (s' & g' & E & HR & l & Hl & Hg). by exists (Some s'), g', l.
  - simpl in H. subst M. exists None, g, []. assert (kept keep ∅ = ∅) as Hk by apply map_filter_empty. rewrite Hk. split; [done|]. split; [done|].
    unfold dropped. rewrite map_filter_empty, map_to_list_empty. split; [done|]. by rewrite log_words_nil.
Qed.

Lemma map_store_ok marking m M k v preserve g :
  rep_opt m M -> mal_weak_key_can_be_held registered k = true -> card M < 2 ^ 29 ->
  exists m' g', mal_weak_map_store MASK_SHIFT registered raw marking m k v preserve g = Ret (if preserve then default v (M !! k) else v, m', g') /\
    rep_opt m' (<[k:=if preserve then default v (M !! k) else v]> M) /\
    g' = match M !! k, preserve with
         | Some _, true => g
         | o, _ => let g := log_words marking [default MAL_VALUE_UNDEFINED o] g in mkGc (log_satb g) (log_cards g ++ [k; v])
         end.
Proof using HS.
  intros H Hk Hc. unfold mal_weak_map_store. rewrite Hk. cbn [negb]. pose proof (rep_storage m M H) as HR. set (s := match m with Some s => s | None => _ end) in *.
  assert (forall old g, log_card v (log_card k (log_barrier marking old g)) = let g := log_words marking [old] g in mkGc (log_satb g) (log_cards g ++ [k; v])) as Hlog.
  { intros old g0. unfold log_barrier, log_words, log_card. destruct marking; simpl; by rewrite <- app_assoc. }
  destruct (weak_upsert_ok MASK_SHIFT HS raw s M MAL_WEAK_MAP_WIDTH k HR Hc) as (r & inserted & s' & -> & Hl & HU). cbn -[put_row].
  destruct (M !! k) as [old|] eqn:HM.
  - destruct HU as (-> & Es & Er). rewrite Er. destruct preserve; cbn -[put_row].
    + exists (Some s'), g. split; [done|]. split; [|done]. simpl. rewrite insert_id by done. by rewrite Es.
    + rewrite Hlog. eexists _, _. split; [done|]. split; [|done]. simpl.
      apply (put_value_ok s' M r k old v); [by rewrite Es|done|done].
  - destruct HU as (-> & HR' & Er). rewrite Er. cbn -[put_row]. rewrite Hlog.
    assert (rep_opt (Some (put_row r (k, v) s')) (<[k:=v]> M)) as HV.
    { simpl. rewrite <- (insert_insert_eq M k v (snd (weak_new_row MAL_WEAK_MAP_WIDTH k))). by apply (put_value_ok s' _ r k _ v HR' Hl Er). }
    destruct preserve; eexists _, _; (split; [done|]); (split; [exact HV|done]).
Qed.

Lemma set_add_ok m M k g : rep_opt m M -> mal_weak_key_can_be_held registered k = true -> card M < 2 ^ 29 ->
  exists m' M', mal_weak_set_object_add MASK_SHIFT registered raw m k g = Ret (m', match M !! k with Some _ => g | None => log_card k g end) /\
    rep_opt m' M' /\ dom M' = {[k]} ∪ dom M.
Proof using HS.
  intros H Hk Hc. unfold mal_weak_set_object_add. rewrite Hk. cbn [negb]. pose proof (rep_storage m M H) as HR. set (s := match m with Some s => s | None => _ end) in *.
  destruct (weak_upsert_ok MASK_SHIFT HS raw s M MAL_WEAK_SET_WIDTH k HR Hc) as (r & inserted & s' & -> & Hl & HU). simpl.
  destruct (M !! k) as [old|] eqn:HM.
  - destruct HU as (-> & -> & _). exists (Some s), M. split; [done|]. split; [done|]. apply elem_of_dom_2 in HM. by rewrite subseteq_union_1_L by by apply singleton_subseteq_l.
  - destruct HU as (-> & HR' & _). exists (Some s'), (<[k:=0]> M). split; [done|]. split; [done|]. apply dom_insert_L.
Qed.

(** ** Scans *)

Definition live_from (s : MalWeakStorage) (i : Z) : list Z :=
  filter (fun j => mal_weak_live s j = true) (seqZ i (mal_weak_storage_scan_slots (Some s) - i)).

Lemma weak_iter_loop_ok s : forall n fuel i, Z.of_nat n = mal_weak_storage_scan_slots (Some s) - i -> (n < fuel)%nat ->
  match live_from s i with
  | [] => fst (weak_iter_loop fuel s i) = None
  | j :: l => weak_iter_loop fuel s i = (Some (mal_weak_row s j), j + 1) /\ l = live_from s (j + 1) /\ i <= j < mal_weak_storage_scan_slots (Some s)
  end.
Proof using Type.
  unfold live_from. induction n as [|n IH]; intros [|fuel] i Hn Hf; [lia| |lia|]; cbn [weak_iter_loop].
  - replace (mal_weak_storage_scan_slots (Some s) - i) with 0 by lia. simpl. destruct (Z.ltb_spec i (if is_inline s then w_size s else w_capacity s)); [simpl in Hn; lia|done].
  - set (N := mal_weak_storage_scan_slots (Some s)) in *. rewrite seqZ_cons by lia. rewrite filter_cons. destruct (Z.ltb_spec i N); [|lia].
    replace (Z.pred (N - i)) with (N - (i + 1)) by lia. change (Z.succ i) with (i + 1).
    destruct (mal_weak_live s i) eqn:El; cbn [negb]; [rewrite decide_True by done; split; [done|]; split; [done|lia]|].
    rewrite decide_False by done. specialize (IH fuel (i + 1)). destruct (filter _ _) as [|j l]; [apply IH; lia|].
    destruct IH as (? & ? & ?); [lia|lia|]. split; [done|]. split; [done|lia].
Qed.

Lemma map_iterate_ok s : forall fuel i, 0 <= i <= mal_weak_storage_scan_slots (Some s) -> (length (live_from s i) < fuel)%nat ->
  map_iterate fuel (Some s) i = map (mal_weak_row s) (live_from s i).
Proof using Type.
  induction fuel as [|fuel IH]; intros i Hi Hf; [lia|]. cbn [map_iterate]. unfold mal_weak_map_iter_next. set (N := mal_weak_storage_scan_slots (Some s)) in *.
  pose proof (weak_iter_loop_ok s (Z.to_nat (N - i)) (S (Z.to_nat N)) i) as HL. destruct (live_from s i) as [|j l].
  - destruct (weak_iter_loop _ s i) as [o i']. cbn [fst] in HL. rewrite HL; [done| |]; fold N; lia.
  - destruct HL as (-> & -> & Hj); [fold N; lia|lia|]. fold N in Hj. simpl. f_equal. apply IH; [lia|]. simpl in Hf. lia.
Qed.
Lemma set_iterate_map m : forall fuel i, set_iterate fuel m i = map fst (map_iterate fuel m i).
Proof using Type.
  induction fuel as [|fuel IH]; intros i; [done|]. cbn [set_iterate map_iterate]. unfold mal_weak_set_iter_next.
  destruct (mal_weak_map_iter_next m i) as [[r|] i']; simpl; [by rewrite IH|done].
Qed.

(** A scan meets every row, once. *)
Lemma weak_iterate_ok m M : rep_opt m M -> map_iterate (S (Z.to_nat (mal_weak_storage_scan_slots m))) m 0 ≡ₚ map_to_list M.
Proof using Type.
  destruct m as [s|]; [|simpl; intros ->; by rewrite map_to_list_empty]. intros H. rewrite <- (rep_perm s M H).
  assert (live_from s 0 = live_slots s) as El by (unfold live_from, live_slots; by rewrite Z.sub_0_r).
  assert (0 <= mal_weak_storage_scan_slots (Some s)) as Hn.
  { pose proof (rep_size_nonneg s M H). destruct H as [_ _ _ Hst]. simpl. unfold is_inline. destruct (w_buckets s) as [[b c]|]; [|lia].
    pose proof (capacity_bound _ (io_capacity _ _ _ _ _ _ (proj1 (proj1 Hst)))). lia. }
  rewrite map_iterate_ok, El; [done|lia|]. rewrite El. unfold live_slots. eapply Nat.le_lt_trans; [apply length_filter|]. rewrite length_seqZ. lia.
Qed.

(** ** A step of a WeakMap *)

Lemma log_words_eq marking ws g : log_words marking ws g = mkGc (log_satb g ++ (if marking then ws else [])) (log_cards g).
Proof using Type. destruct marking, g; [done|]. unfold log_words. simpl. by rewrite app_nil_r. Qed.
Lemma log_same g : g = mkGc (log_satb g ++ []) (log_cards g ++ []).
Proof using Type. destruct g. simpl. by rewrite !app_nil_r. Qed.
Lemma map_lookup_ok m M k : rep_opt m M -> held M -> mal_weak_map_object_lookup MASK_SHIFT registered m k = Ret (M !! k).
Proof using HS.
  intros H Hh. unfold mal_weak_map_object_lookup. destruct (weak_lookup_ok m M k H Hh) as (o & -> & Ho). simpl. destruct (M !! k) as [v|]; [|by subst].
  destruct Ho as (s & r & -> & -> & _ & ->). done.
Qed.
Lemma has_ok m M k : rep_opt m M -> held M -> mal_weak_map_object_has MASK_SHIFT registered m k = Ret (found (M !! k)).
Proof using HS.
  intros H Hh. unfold mal_weak_map_object_has. destruct (weak_lookup_ok m M k H Hh) as (o & -> & Ho). simpl. destruct (M !! k) as [v|]; [|by subst].
  destruct Ho as (s & r & -> & -> & _). done.
Qed.

Definition map_op_ok (op : WeakMapOp) : Prop :=
  match op with
  | WmSet key _ | WmGetOrInsert key _ => mal_weak_key_can_be_held registered key = true
  | WmReserve n => in_u 64 n
  | _ => True
  end.
Definition set_op_ok (op : WeakSetOp) : Prop :=
  match op with WsAdd key => mal_weak_key_can_be_held registered key = true | WsReserve n => in_u 64 n | _ => True end.

Definition map_stepped (marking : bool) (op : WeakMapOp) (M : gmap Z Z) (g : GcLog) (res : outcome (WeakResult * option MalWeakStorage * GcLog)) : Prop :=
  exists r m' words, res = Ret (r, m', mkGc (log_satb g ++ words) (log_cards g ++ map_carded op M)) /\
    map_answer op M r /\ rep_opt m' (map_next op M) /\ words ≡ₚ (if marking then map_leaving op M else []).

Lemma map_step_ok marking op m M g : rep_opt m M -> held M -> map_op_ok op -> card M < 2 ^ 29 -> map_stepped marking op M g (map_step MASK_SHIFT registered raw marking op m g).
Proof using HS.
  intros H Hh Hop Hc. assert ((if marking then @nil Z else []) = []) as Hnil by by destruct marking.
  unfold map_stepped. destruct op as [k v|k v|k|k|k|k| |n|keep|]; simpl in *; try rewrite Hnil.
  - destruct (map_store_ok marking m M k v false g H Hop Hc) as (m' & g' & E & HR & Hg). unfold mal_weak_map_object_set. rewrite E. simpl.
    eexists _, m', _. split; [|split; [done|split; [exact HR|done]]]. f_equal. f_equal. rewrite Hg. destruct (M !! k); by rewrite log_words_eq.
  - destruct (map_store_ok marking m M k v true g H Hop Hc) as (m' & g' & E & HR & Hg). unfold mal_weak_map_object_get_or_insert. rewrite E. simpl.
    eexists _, m', _. split; [|split; [done|split; [exact HR|done]]]. f_equal. f_equal. rewrite Hg. destruct (M !! k); [rewrite Hnil; apply log_same|by rewrite log_words_eq].
  - unfold mal_weak_map_object_get. rewrite (map_lookup_ok m M k H Hh). simpl. eexists _, m, []. split; [by rewrite <- log_same|]. split; [by destruct (M !! k)|done].
  - rewrite (map_lookup_ok m M k H Hh). simpl. eexists _, m, []. split; [by rewrite <- log_same|]. done.
  - rewrite (has_ok m M k H Hh). simpl. eexists _, m, []. split; [by rewrite <- log_same|]. done.
  - destruct (weak_delete_ok marking m M MAL_WEAK_MAP_WIDTH k g H Hh) as (m' & E & HR). unfold mal_weak_map_object_delete. rewrite E. simpl.
    eexists _, m', _. split; [|split; [done|split; [exact HR|done]]]. f_equal. f_equal. destruct (M !! k); [rewrite log_words_eq, app_nil_r; done|rewrite Hnil; apply log_same].
  - eexists _, m, []. split; [by rewrite <- log_same|]. split; [|done]. f_equal. unfold mal_weak_map_object_size. by apply rep_opt_size.
  - destruct Hop as [Hop _]. destruct (weak_reserve_ok m M MAL_WEAK_MAP_WIDTH n H Hop) as (m' & E & HR). unfold mal_weak_map_object_reserve. rewrite E. simpl.
    eexists _, m', []. split; [by rewrite <- log_same|]. done.
  - destruct (retain_opt_ok keep marking m M MAL_WEAK_MAP_WIDTH g H) as (m' & g' & l & E & HR & Hl & ->). unfold mal_weak_map_storage_retain. rewrite E. simpl.
    eexists _, m', _. split; [by rewrite log_words_eq, (app_nil_r (log_cards g))|]. split; [done|]. split; [done|]. destruct marking; [|done]. by rewrite Hl.
  - eexists _, m, []. split; [by rewrite <- log_same|]. split; [|done]. eexists. split; [done|]. by apply weak_iterate_ok.
Qed.

Lemma map_next_held op M : held M -> map_op_ok op -> held (map_next op M).
Proof using Type.
  intros H Hop k v. destruct op as [k' v'|k' v'|k'|k'|k'|k'| |n|keep|]; simpl in *; try exact (H k v).
  - intros [(-> & _)|(_ & E)]%lookup_insert_Some; [done|eauto].
  - intros [(-> & _)|(_ & E)]%lookup_insert_Some; [done|eauto].
  - intros [_ E]%lookup_delete_Some. eauto.
  - intros [E _]%map_lookup_filter_Some. eauto.
Qed.
Lemma map_next_card op M : card (map_next op M) <= card M + 1.
Proof using Type.
  assert (forall k v, card (<[k:=v]> M) <= card M + 1) as Hi.
  { intros k v. destruct (M !! k) eqn:E; [rewrite (card_value _ _ _ _ E)|rewrite card_insert by done]; lia. }
  destruct op as [k v|k v|k|k|k|k| |n|keep|]; simpl; try lia; [apply Hi|apply Hi| |].
  - destruct (M !! k) eqn:E; [rewrite (card_delete _ _ _ E)|rewrite delete_id by done]; lia.
  - unfold card, kept. assert (base.size (filter (fun p : Z * Z => keep (fst p) = true) M) <= base.size M)%nat; [|lia].
    apply map_subseteq_size, map_filter_subseteq.
Qed.

(** ** A step of a WeakSet *)

Lemma dom_found (M : gmap Z Z) k : found (M !! k) = bool_decide (k ∈ dom M).
Proof using Type. destruct (M !! k) as [v|] eqn:E; symmetry; [apply bool_decide_eq_true, (elem_of_dom_2 _ _ _ E)|by apply bool_decide_eq_false, not_elem_of_dom]. Qed.
Lemma dom_kept keep (M : gmap Z Z) : dom (kept keep M) = filter (fun k => keep k = true) (dom M).
Proof using Type.
  apply set_eq. intros k. rewrite elem_of_filter, !elem_of_dom. unfold kept. split.
  - intros [v [E Hk]%map_lookup_filter_Some]. split; [done|by exists v].
  - intros [Hk [v E]]. exists v. by apply map_lookup_filter_Some.
Qed.
Lemma card_dom (M : gmap Z Z) : card M = Z.of_nat (base.size (dom M)).
Proof using Type. unfold card. by rewrite size_dom. Qed.
Lemma keys_perm (M : gmap Z Z) (l : list Row) : l ≡ₚ map_to_list M -> map fst l ≡ₚ elements (dom M).
Proof using Type.
  intros ->. apply NoDup_Permutation; [apply NoDup_fst_map_to_list|apply NoDup_elements|].
  intros k. rewrite elem_of_elements, elem_of_dom. split.
  - intros ([k' v] & -> & E%elem_of_map_to_list)%list_elem_of_fmap. by exists v.
  - intros [v E%elem_of_map_to_list]. apply list_elem_of_fmap. by exists (k, v).
Qed.
Lemma set_words_nil (l : list Row) : concat (map (row_words MAL_WEAK_SET_WIDTH) l) = [].
Proof using Type. by induction l. Qed.

Definition set_rep (m : option MalWeakStorage) (X : gset Z) : Prop := exists M, rep_opt m M /\ held M /\ dom M = X.
Definition set_stepped (op : WeakSetOp) (X : gset Z) (g : GcLog) (res : outcome (WeakResult * option MalWeakStorage * GcLog)) : Prop :=
  exists r m', res = Ret (r, m', mkGc (log_satb g) (log_cards g ++ set_carded op X)) /\ set_answer op X r /\ set_rep m' (set_next op X).

Lemma held_dom M (X : gset Z) : dom M = X -> (forall k, k ∈ X -> mal_weak_key_can_be_held registered k = true) -> held M.
Proof using Type. intros <- H k v E. apply H. by eapply elem_of_dom_2. Qed.

Lemma set_step_ok marking op m X g : set_rep m X -> set_op_ok op -> Z.of_nat (base.size X) < 2 ^ 29 -> set_stepped op X g (set_step MASK_SHIFT registered raw marking op m g).
Proof using HS.
  intros (M & H & Hh & HX) Hop Hc.
  assert (forall k, k ∈ X -> mal_weak_key_can_be_held registered k = true) as HhX by (subst X; intros k [v E]%elem_of_dom; eauto).
  assert (g = mkGc (log_satb g) (log_cards g ++ [])) as Hg by (destruct g; simpl; by rewrite app_nil_r).
  unfold set_stepped, set_rep. destruct op as [k|k|k| |n|keep|]; simpl in *.
  - destruct (set_add_ok m M k g H Hop) as (m' & M' & E & HR & HD); [rewrite card_dom, HX; done|]. rewrite E. simpl.
    eexists _, m'. split; [|split; [done|]].
    + f_equal. f_equal. rewrite <- HX, <- dom_found. destruct (M !! k); simpl; done.
    + exists M'. split; [done|]. rewrite HX in HD. split; [|done]. apply (held_dom _ _ HD). intros k' [->%elem_of_singleton|]%elem_of_union; [done|auto].
  - unfold mal_weak_set_object_has. fold (mal_weak_map_object_has MASK_SHIFT registered m k). rewrite (has_ok m M k H Hh). simpl.
    eexists _, m. split; [by rewrite <- Hg|]. rewrite dom_found, HX. eauto.
  - destruct (weak_delete_ok marking m M MAL_WEAK_SET_WIDTH k g H Hh) as (m' & E & HR). unfold mal_weak_set_object_delete. rewrite E. simpl.
    exists (RBool (found (M !! k))), m'. split; [rewrite <- Hg; by destruct (M !! k); rewrite ?log_words_nil|]. split; [by rewrite dom_found, HX|]. exists (delete k M). split; [done|].
    split; [|by rewrite dom_delete_L, HX]. intros k' v [_ Ek]%lookup_delete_Some. eauto.
  - eexists _, m. split; [by rewrite <- Hg|]. split; [|by exists M]. f_equal. unfold mal_weak_set_object_size. by rewrite (rep_opt_size m M H), card_dom, HX.
  - destruct Hop as [Hop _]. destruct (weak_reserve_ok m M MAL_WEAK_SET_WIDTH n H Hop) as (m' & E & HR). unfold mal_weak_set_object_reserve. rewrite E. simpl.
    eexists _, m'. split; [by rewrite <- Hg|]. split; [done|]. by exists M.
  - destruct (retain_opt_ok keep marking m M MAL_WEAK_SET_WIDTH g H) as (m' & g' & l & E & HR & _ & ->). unfold mal_weak_set_storage_retain. rewrite E. simpl.
    eexists _, m'. split; [by rewrite set_words_nil, log_words_nil, <- Hg|]. split; [by rewrite !card_dom, dom_kept, HX|]. exists (kept keep M).
    split; [done|]. split; [|by rewrite dom_kept, HX]. intros k v [Ek _]%map_lookup_filter_Some. eauto.
  - exists (RKeys (set_iterate (S (Z.to_nat (mal_weak_storage_scan_slots m))) m 0)), m. split; [by rewrite <- Hg|]. split; [|by exists M]. eexists. split; [done|].
    rewrite set_iterate_map, <- HX. by apply keys_perm, weak_iterate_ok.
Qed.
Lemma set_next_size op X : Z.of_nat (base.size (set_next op X)) <= Z.of_nat (base.size X) + 1.
Proof using Type.
  destruct op as [k|k|k| |n|keep|]; simpl; try lia.
  - pose proof (size_union_alt {[k]} X). rewrite size_singleton in *. pose proof (subseteq_size (X ∖ {[k]}) X ltac:(intros x Hx%elem_of_difference; apply Hx)). lia.
  - pose proof (subseteq_size (X ∖ {[k]}) X ltac:(intros x Hx%elem_of_difference; apply Hx)). lia.
  - pose proof (subseteq_size (filter (fun k => keep k = true) X) X ltac:(intros x Hx%elem_of_filter; apply Hx)). lia.
Qed.

(** ** Runs *)

Lemma map_run_ok prog : forall m M g,
  rep_opt m M -> held M -> Forall (fun p => map_op_ok (snd p)) prog -> card M + Z.of_nat (length prog) < 2 ^ 29 ->
  exists rs m' g', weak_run (map_step MASK_SHIFT registered raw) prog m g = Ret (rs, m', g') /\
    answers map_next map_answer prog M rs /\ rep_opt m' (final map_next prog M) /\ held (final map_next prog M) /\ card (final map_next prog M) <= card M + Z.of_nat (length prog).
Proof using HS.
  induction prog as [|[marking op] prog IH]; intros m M g H Hh Hops Hc; [exists [], m, g; simpl; auto with lia|].
  apply Forall_cons in Hops as [Hop Hops]. cbn [length] in Hc. simpl in Hop.
  destruct (map_step_ok marking op m M g H Hh Hop) as (r & m1 & words & E & Ha & H1 & _); [lia|]. pose proof (map_next_card op M).
  destruct (IH m1 (map_next op M) (mkGc (log_satb g ++ words) (log_cards g ++ map_carded op M))) as (rs & m' & g' & E' & Has & HR & Hh' & Hc'); [done|by apply map_next_held|done|lia|].
  exists (r :: rs), m', g'. cbn [weak_run]. rewrite E. cbn [mbind outcome_bind]. rewrite E'. split; [done|]. split; [done|]. split; [done|]. split; [done|]. cbn [final length]. lia.
Qed.

Lemma set_run_ok prog : forall m X g,
  set_rep m X -> Forall (fun p => set_op_ok (snd p)) prog -> Z.of_nat (base.size X) + Z.of_nat (length prog) < 2 ^ 29 ->
  exists rs m', weak_run (set_step MASK_SHIFT registered raw) prog m g = Ret (rs, m', mkGc (log_satb g) (log_cards g ++ set_cards prog X)) /\
    answers set_next set_answer prog X rs /\ set_rep m' (final set_next prog X).
Proof using HS.
  induction prog as [|[marking op] prog IH]; intros m X g H Hops Hc.
  { exists [], m. simpl. rewrite app_nil_r. by destruct g. }
  apply Forall_cons in Hops as [Hop Hops]. cbn [length] in Hc. simpl in Hop.
  destruct (set_step_ok marking op m X g H Hop) as (r & m1 & E & Ha & H1); [lia|]. pose proof (set_next_size op X).
  destruct (IH m1 (set_next op X) (mkGc (log_satb g) (log_cards g ++ set_carded op X))) as (rs & m' & E' & Has & HR); [done|done|lia|].
  exists (r :: rs), m'. cbn [weak_run]. rewrite E. cbn [mbind outcome_bind]. rewrite E'. cbn [log_satb log_cards set_cards mbind outcome_bind]. by rewrite app_assoc.
Qed.

End steps.

(** What leaves a map is among the values its step reports; what is new, among the carded. *)
Lemma map_leaves op M k v : M !! k = Some v ->
  (map_next op M !! k <> Some v -> v ∈ map_leaving op M) /\ (map_next op M !! k = None -> k ∈ map_leaving op M).
Proof.
  intros HM. destruct op as [k' v'|k' v'|k'|k'|k'|k'| |n|keep|]; simpl; try (split; intros; congruence).
  - destruct (decide (k' = k)) as [->|]; [rewrite lookup_insert_eq, HM|rewrite lookup_insert_ne by done; split; congruence]. simpl. split; [|done]. set_solver.
  - destruct (decide (k' = k)) as [->|]; [rewrite lookup_insert_eq, HM; by split|rewrite lookup_insert_ne by done; split; congruence].
  - destruct (decide (k' = k)) as [->|]; [rewrite HM; set_solver|rewrite lookup_delete_ne by done; split; congruence].
  - destruct (keep k) eqn:Ek.
    + assert (kept keep M !! k = Some v) as E by by apply map_lookup_filter_Some. rewrite E. split; congruence.
    + assert ((k, v) ∈ map_to_list (dropped keep M)) as E by (apply elem_of_map_to_list, map_lookup_filter_Some; done).
      assert (forall x, x ∈ [k; v] -> x ∈ concat (map (row_words MAL_WEAK_MAP_WIDTH) (map_to_list (dropped keep M)))) as Hx.
      { intros x Hx. apply list_elem_of_In, in_concat. exists [k; v]. split; [|by apply list_elem_of_In]. apply list_elem_of_In, list_elem_of_fmap. by exists (k, v). }
      split; intros _; apply Hx; set_solver.
Qed.
Lemma map_arrives op M k v : map_next op M !! k = Some v -> M !! k <> Some v -> v ∈ map_carded op M /\ k ∈ map_carded op M.
Proof.
  intros H Hn. destruct op as [k' v'|k' v'|k'|k'|k'|k'| |n|keep|]; simpl in *; try done.
  - apply lookup_insert_Some in H as [(-> & ->)|(_ & E)]; [set_solver|done].
  - apply lookup_insert_Some in H as [(-> & E)|(_ & E)]; [|done]. destruct (M !! k); simpl in E; [by subst|]. subst. set_solver.
  - apply lookup_delete_Some in H as [_ E]. done.
  - apply map_lookup_filter_Some in H as [E _]. done.
Qed.

(** * Theorems *)

Section theorems.
Variable MASK_SHIFT : Z.
Hypothesis HS : 0 <= MASK_SHIFT.
Variable registered : Z -> bool.
Variable raw : Z -> Row.

Lemma held_empty : held registered ∅.
Proof using Type. intros k v H. by rewrite lookup_empty in H. Qed.

(** C19. Every program of fewer than 2^29 operations on a new WeakMap (set, getOrInsert, get,
    lookup, has, delete, size, reserve, the collector's filter and its scan) returns without
    aborting, and every answer is that of a finite map: through the inline rows, the buckets,
    the tombstones, the rebuilds and the demotions. A reservation succeeds exactly when the
    largest index holds it, the filter counts what it drops, and a scan meets every row once. *)
Theorem weak_map_run_refines (prog : list (bool * WeakMapOp)) (g : GcLog) :
  Forall (fun p => map_op_ok registered (snd p)) prog -> Z.of_nat (length prog) < 2 ^ 29 ->
  exists rs m g', weak_run (map_step MASK_SHIFT registered raw) prog None g = Ret (rs, m, g') /\
    answers map_next map_answer prog ∅ rs /\ rep_opt m (final map_next prog ∅).
Proof using HS.
  intros Hops Hlen. destruct (map_run_ok MASK_SHIFT HS registered raw prog None ∅ g) as (rs & m & g' & E & Ha & HR & _);
    [done|apply held_empty|done|by change (card ∅) with 0|]. by exists rs, m, g'.
Qed.

(** C20. Every program of fewer than 2^29 operations on a new WeakSet returns without aborting,
    answers as a finite set, cards exactly the keys it adds, in order, and reports no value to
    the marker: a WeakSet keeps nothing alive. *)
Theorem weak_set_run_refines (prog : list (bool * WeakSetOp)) (g : GcLog) :
  Forall (fun p => set_op_ok registered (snd p)) prog -> Z.of_nat (length prog) < 2 ^ 29 ->
  exists rs m, weak_run (set_step MASK_SHIFT registered raw) prog None g = Ret (rs, m, mkGc (log_satb g) (log_cards g ++ set_cards prog ∅)) /\
    answers set_next set_answer prog ∅ rs /\ set_rep registered m (final set_next prog ∅).
Proof using HS.
  intros Hops Hlen. apply (set_run_ok MASK_SHIFT HS registered raw prog None ∅ g); [|done|by rewrite size_empty].
  exists ∅. split; [done|]. split; [apply held_empty|apply dom_empty_L].
Qed.

(** C21. After any program, a step of a WeakMap taken while the collector marks reports every
    value the step takes out of the map and every key that leaves it, be it overwritten,
    deleted or filtered out; and marking or not, the step cards the key and the value of every
    row it puts in. So no snapshot value is lost and no new reference is missed. *)
Theorem weak_map_barriers (prog : list (bool * WeakMapOp)) (marking : bool) (op : WeakMapOp) :
  Forall (fun p => map_op_ok registered (snd p)) prog -> map_op_ok registered op -> Z.of_nat (length prog) + 1 < 2 ^ 29 ->
  let M := final map_next prog ∅ in
  exists rs m g r m' words carded,
    weak_run (map_step MASK_SHIFT registered raw) prog None (mkGc [] []) = Ret (rs, m, g) /\
    map_step MASK_SHIFT registered raw marking op m g = Ret (r, m', mkGc (log_satb g ++ words) (log_cards g ++ carded)) /\
    rep_opt m M /\ rep_opt m' (map_next op M) /\
    (forall k v, marking = true -> M !! k = Some v ->
      (map_next op M !! k <> Some v -> v ∈ words) /\ (map_next op M !! k = None -> k ∈ words)) /\
    (marking = false -> words = []) /\
    (forall k v, map_next op M !! k = Some v -> M !! k <> Some v -> v ∈ carded /\ k ∈ carded).
Proof using HS.
  intros Hops Hop Hlen M. destruct (map_run_ok MASK_SHIFT HS registered raw prog None ∅ (mkGc [] [])) as (rs & m & g & E & _ & HR & Hh & Hc);
    [done|apply held_empty|done|change (card ∅) with 0; lia|]. change (card ∅) with 0 in Hc. fold M in HR, Hh, Hc.
  destruct (map_step_ok MASK_SHIFT HS registered raw marking op m M g HR Hh Hop) as (r & m' & words & Es & _ & HR' & Hw); [lia|].
  exists rs, m, g, r, m', words, (map_carded op M). split; [done|]. split; [done|]. split; [done|]. split; [done|]. split; [|split].
  - intros k v -> HM. rewrite Hw. by apply map_leaves.
  - intros ->. by apply Permutation_nil_r.
  - intros k v. apply map_arrives.
Qed.
End theorems.

(** * A program that promotes, reuses a tombstone, filters and demotes *)

Module WeakDemo.
Definition obj (i : Z) : Z := MAL_VALUE_OBJECT + 16 * i.
Definition no_symbol (_ : Z) : bool := false.
Definition raw_row (i : Z) : Row := (i, i).
Definition even_key (k : Z) : bool := Z.even (k / 16).

Definition grow : list (bool * WeakMapOp) := map (fun i => (Z.even i, WmSet (obj i) (100 + i))) (seqZ 0 20).
Definition map_prog : list (bool * WeakMapOp) :=
  grow ++ [(true, WmGetOrInsert (obj 3) 7); (true, WmGetOrInsert (obj 30) 8); (false, WmGet (obj 5)); (false, WmHas (obj 99));
    (true, WmDelete (obj 5)); (false, WmLookup (obj 5)); (false, WmSize); (false, WmReserve 100); (false, WmReserve (2 ^ 40)); (true, WmRetain even_key); (false, WmSize)]
  ++ map (fun i => (true, WmDelete (obj (2 * i)))) (seqZ 0 8) ++ [(false, WmIterate)].
Definition set_prog : list (bool * WeakSetOp) :=
  map (fun i => (false, WsAdd (obj i))) (seqZ 0 6) ++ [(true, WsAdd (obj 2)); (true, WsDelete (obj 3)); (false, WsHas (obj 3)); (false, WsRetain even_key); (false, WsIterate)].

Definition answered (o : outcome (list WeakResult * option MalWeakStorage * GcLog)) : list WeakResult := match o with Ret (rs, _, _) => rs | _ => [] end.

Example map_prog_answers :
  drop 20 (answered (weak_run (map_step 2 no_symbol raw_row) map_prog None (mkGc [] []))) =
  [RValue 103; RValue 8; RValue 105; RBool false; RBool true; RFound None; RCount 20; RBool true; RBool false; RCount 9; RCount 11]
  ++ replicate 8 (RBool true) ++ [RRows [(obj 30, 8); (obj 16, 116); (obj 18, 118)]].
Proof. vm_compute. reflexivity. Qed.

(** Discharges the preconditions of a concrete program. *)
Ltac ops_ok := repeat (apply Forall_nil_2 || (apply Forall_cons_2; [first [exact I | vm_compute; reflexivity | split; vm_compute; congruence]|])).

Lemma weak_grow_ok : Forall (fun p => map_op_ok no_symbol (snd p)) grow.
Proof. ops_ok. Qed.

Lemma weak_map_run_refines_witness :
  exists rs m g, weak_run (map_step 2 no_symbol raw_row) map_prog None (mkGc [] []) = Ret (rs, m, g) /\
    answers map_next map_answer map_prog ∅ rs /\ rep_opt m (final map_next map_prog ∅).
Proof. apply weak_map_run_refines; [lia|ops_ok|vm_compute; reflexivity]. Defined.

Lemma weak_set_run_refines_witness :
  exists rs m, weak_run (set_step 2 no_symbol raw_row) set_prog None (mkGc [] []) = Ret (rs, m, mkGc [] (set_cards set_prog ∅)) /\
    answers set_next set_answer set_prog ∅ rs /\ set_rep no_symbol m (final set_next set_prog ∅).
Proof. apply (weak_set_run_refines 2 ltac:(lia) no_symbol raw_row set_prog (mkGc [] [])); [ops_ok|vm_compute; reflexivity]. Defined.

(** The twentieth row overwritten while marking. *)
Lemma weak_map_barriers_witness :
  exists rs m g r m' words carded,
    weak_run (map_step 2 no_symbol raw_row) grow None (mkGc [] []) = Ret (rs, m, g) /\
    map_step 2 no_symbol raw_row true (WmSet (obj 19) 7) m g = Ret (r, m', mkGc (log_satb g ++ words) (log_cards g ++ carded)) /\ 119 ∈ words.
Proof.
  destruct (weak_map_barriers 2 ltac:(lia) no_symbol raw_row grow true (WmSet (obj 19) 7) weak_grow_ok) as (rs & m & g & r & m' & words & carded & E & Es & _ & _ & Hw & _);
    [vm_compute; reflexivity|vm_compute; reflexivity|].
  exists rs, m, g, r, m', words, carded. split; [exact E|]. split; [exact Es|].
  apply (Hw (obj 19) 119 eq_refl); [vm_compute; reflexivity|vm_compute; discriminate].
Defined.
End WeakDemo.
