(* ===== verification/Sha256.v ===== *)
(** SHA-256, runtime/src/sha256.c and sha256.h: the streaming context, the portable block
    function and the one on the ARMv8 instructions. A block of words is a list; the context's
    64-byte buffer keeps what earlier blocks left in it, and a write outside it is [Abort]. *)

From S2P Require Import Prelude.

(** The rows of the table. *)
Definition MAL_SHA256_K : list Z := concat [
  [0x428a2f98; 0x71374491; 0xb5c0fbcf; 0xe9b5dba5; 0x3956c25b; 0x59f111f1; 0x923f82a4; 0xab1c5ed5];
  [0xd807aa98; 0x12835b01; 0x243185be; 0x550c7dc3; 0x72be5d74; 0x80deb1fe; 0x9bdc06a7; 0xc19bf174];
  [0xe49b69c1; 0xefbe4786; 0x0fc19dc6; 0x240ca1cc; 0x2de92c6f; 0x4a7484aa; 0x5cb0a9dc; 0x76f988da];
  [0x983e5152; 0xa831c66d; 0xb00327c8; 0xbf597fc7; 0xc6e00bf3; 0xd5a79147; 0x06ca6351; 0x14292967];
  [0x27b70a85; 0x2e1b2138; 0x4d2c6dfc; 0x53380d13; 0x650a7354; 0x766a0abb; 0x81c2c92e; 0x92722c85];
  [0xa2bfe8a1; 0xa81a664b; 0xc24b8b70; 0xc76c51a3; 0xd192e819; 0xd6990624; 0xf40e3585; 0x106aa070];
  [0x19a4c116; 0x1e376c08; 0x2748774c; 0x34b0bcb5; 0x391c0cb3; 0x4ed8aa4a; 0x5b9cca4f; 0x682e6ff3];
  [0x748f82ee; 0x78a5636f; 0x84c87814; 0x8cc70208; 0x90befffa; 0xa4506ceb; 0xbef9a3f7; 0xc67178f2]].

(** [MAL_ROTR] on a 32-bit operand. *)
Definition MAL_ROTR (x n : Z) : Z := Z.lor (Z.shiftr x n) (u32 (Z.shiftl x (32 - n))).

Record MalSha256 : Type := mkSha {
  sha_state : list Z;
  bit_len : Z;
  block : list Z;
  block_len : Z;
}.

(** [raw_block] is what the buffer holds before it is first filled. *)
Definition mal_sha256_init (raw_block : list Z) : MalSha256 :=
  mkSha [0x6a09e667; 0xbb67ae85; 0x3c6ef372; 0xa54ff53a; 0x510e527f; 0x9b05688c; 0x1f83d9ab; 0x5be0cd19] 0 raw_block 0.

(** * The portable block function *)

Definition load_word (p : list Z) (i : Z) : Z :=
  Z.lor (Z.lor (Z.lor (u32 (Z.shiftl (arr_get p (i * 4)) 24)) (u32 (Z.shiftl (arr_get p (i * 4 + 1)) 16)))
    (u32 (Z.shiftl (arr_get p (i * 4 + 2)) 8))) (arr_get p (i * 4 + 3)).
(** [w[i]] for [i >= 16]: the words before it are already there. *)
Definition schedule_word (w : list Z) (i : Z) : Z :=
  let s0 := Z.lxor (Z.lxor (MAL_ROTR (arr_get w (i - 15)) 7) (MAL_ROTR (arr_get w (i - 15)) 18)) (Z.shiftr (arr_get w (i - 15)) 3) in
  let s1 := Z.lxor (Z.lxor (MAL_ROTR (arr_get w (i - 2)) 17) (MAL_ROTR (arr_get w (i - 2)) 19)) (Z.shiftr (arr_get w (i - 2)) 10) in
  u32 (arr_get w (i - 16) + s0 + arr_get w (i - 7) + s1).
Fixpoint schedule_loop (ids : list Z) (w : list Z) : list Z :=
  match ids with [] => w | i :: ids => schedule_loop ids (w ++ [schedule_word w i]) end.
Definition schedule (p : list Z) : list Z := schedule_loop (seqZ 16 48) (map (load_word p) (seqZ 0 16)).

(** The working variables [a] .. [h]. *)
Record Regs : Type := mkRegs { ra : Z; rb : Z; rc : Z; rd : Z; re : Z; rf : Z; rg : Z; rh : Z }.
Definition sha_round (k w : Z) (r : Regs) : Regs :=
  let s1 := Z.lxor (Z.lxor (MAL_ROTR (re r) 6) (MAL_ROTR (re r) 11)) (MAL_ROTR (re r) 25) in
  let ch := Z.lxor (Z.land (re r) (rf r)) (Z.land (Z.lnot (re r)) (rg r)) in
  let t1 := u32 (rh r + s1 + ch + k + w) in
  let s0 := Z.lxor (Z.lxor (MAL_ROTR (ra r) 2) (MAL_ROTR (ra r) 13)) (MAL_ROTR (ra r) 22) in
  let maj := Z.lxor (Z.lxor (Z.land (ra r) (rb r)) (Z.land (ra r) (rc r))) (Z.land (rb r) (rc r)) in
  let t2 := u32 (s0 + maj) in
  mkRegs (u32 (t1 + t2)) (ra r) (rb r) (rc r) (u32 (rd r + t1)) (re r) (rf r) (rg r).
Fixpoint round_loop (ids : list Z) (w : list Z) (r : Regs) : Regs :=
  match ids with [] => r | i :: ids => round_loop ids w (sha_round (arr_get MAL_SHA256_K i) (arr_get w i) r) end.
Definition regs_of (s : list Z) : Regs :=
  mkRegs (arr_get s 0) (arr_get s 1) (arr_get s 2) (arr_get s 3) (arr_get s 4) (arr_get s 5) (arr_get s 6) (arr_get s 7).
Definition add_regs (s : list Z) (r : Regs) : list Z :=
  [u32 (arr_get s 0 + ra r); u32 (arr_get s 1 + rb r); u32 (arr_get s 2 + rc r); u32 (arr_get s 3 + rd r);
   u32 (arr_get s 4 + re r); u32 (arr_get s 5 + rf r); u32 (arr_get s 6 + rg r); u32 (arr_get s 7 + rh r)].
Definition mal_sha256_compress_portable (s p : list Z) : list Z := add_regs s (round_loop (seqZ 0 64) (schedule p) (regs_of s)).

(** * The block function on the ARMv8 instructions *)

(** A [uint32x4_t], lane 0 first, and the instructions as the architecture defines them. *)
Record Vec : Type := mkVec { v0 : Z; v1 : Z; v2 : Z; v3 : Z }.
Definition vld1q_u32 (l : list Z) (i : Z) : Vec := mkVec (arr_get l i) (arr_get l (i + 1)) (arr_get l (i + 2)) (arr_get l (i + 3)).
Definition vaddq_u32 (x y : Vec) : Vec := mkVec (u32 (v0 x + v0 y)) (u32 (v1 x + v1 y)) (u32 (v2 x + v2 y)) (u32 (v3 x + v3 y)).
(** [vreinterpretq_u32_u8(vrev32q_u8(vld1q_u8(p + i)))]: four words, most significant byte first. *)
Definition load_be (p : list Z) (i : Z) : Vec := mkVec (load_word p (i / 4)) (load_word p (i / 4 + 1)) (load_word p (i / 4 + 2)) (load_word p (i / 4 + 3)).

Definition ror32 (x n : Z) : Z := MAL_ROTR x n.
Definition sigma0 (x : Z) : Z := Z.lxor (Z.lxor (ror32 x 7) (ror32 x 18)) (Z.shiftr x 3).
Definition sigma1 (x : Z) : Z := Z.lxor (Z.lxor (ror32 x 17) (ror32 x 19)) (Z.shiftr x 10).
Definition vsha256su0q_u32 (x y : Vec) : Vec :=
  mkVec (u32 (v0 x + sigma0 (v1 x))) (u32 (v1 x + sigma0 (v2 x))) (u32 (v2 x + sigma0 (v3 x))) (u32 (v3 x + sigma0 (v0 y))).
Definition vsha256su1q_u32 (x y z : Vec) : Vec :=
  let r0 := u32 (sigma1 (v2 z) + v0 x + v1 y) in
  let r1 := u32 (sigma1 (v3 z) + v1 x + v2 y) in
  let r2 := u32 (sigma1 r0 + v2 x + v3 y) in
  let r3 := u32 (sigma1 r1 + v3 x + v0 z) in
  mkVec r0 r1 r2 r3.

Definition SHAchoose (x y z : Z) : Z := Z.lxor (Z.land (Z.lxor y z) x) z.
Definition SHAmajority (x y z : Z) : Z := Z.lor (Z.land x y) (Z.land (Z.lor x y) z).
Definition SHAhashSIGMA0 (x : Z) : Z := Z.lxor (Z.lxor (ror32 x 2) (ror32 x 13)) (ror32 x 22).
Definition SHAhashSIGMA1 (x : Z) : Z := Z.lxor (Z.lxor (ror32 x 6) (ror32 x 11)) (ror32 x 25).
(** One turn of SHA256hash: the 256-bit value Y:X rotates left by a word. *)
Definition hash_turn (w : Z) (xy : Vec * Vec) : Vec * Vec :=
  let '(x, y) := xy in
  let t := u32 (v3 y + SHAhashSIGMA1 (v0 y) + SHAchoose (v0 y) (v1 y) (v2 y) + w) in
  let x3 := u32 (t + v3 x) in
  let y3 := u32 (t + SHAhashSIGMA0 (v0 x) + SHAmajority (v0 x) (v1 x) (v2 x)) in
  (mkVec y3 (v0 x) (v1 x) (v2 x), mkVec x3 (v0 y) (v1 y) (v2 y)).
Definition SHA256hash (x y w : Vec) : Vec * Vec := hash_turn (v3 w) (hash_turn (v2 w) (hash_turn (v1 w) (hash_turn (v0 w) (x, y)))).
Definition vsha256hq_u32 (abcd efgh wk : Vec) : Vec := fst (SHA256hash abcd efgh wk).
Definition vsha256h2q_u32 (efgh abcd wk : Vec) : Vec := snd (SHA256hash abcd efgh wk).

#[export] Instance Vec_inhabited : Inhabited Vec := populate (mkVec 0 0 0 0).
Definition group_step (group : Z) (st : list Vec * Vec * Vec) : list Vec * Vec * Vec :=
  let '(message, abcd, efgh) := st in
  let words := vaddq_u32 (arr_get message (group mod 4)) (vld1q_u32 MAL_SHA256_K (group * 4)) in
  let message :=
    if group <? 12 then
      arr_set message (group mod 4)
        (vsha256su1q_u32 (vsha256su0q_u32 (arr_get message (group mod 4)) (arr_get message ((group + 1) mod 4)))
          (arr_get message ((group + 2) mod 4)) (arr_get message ((group + 3) mod 4)))
    else message in
  let abcd_before := abcd in
  let abcd := vsha256hq_u32 abcd efgh words in
  let efgh := vsha256h2q_u32 efgh abcd_before words in
  (message, abcd, efgh).
Fixpoint sha_group_loop (gs : list Z) (st : list Vec * Vec * Vec) : list Vec * Vec * Vec :=
  match gs with [] => st | g :: gs => sha_group_loop gs (group_step g st) end.
Fixpoint armv8_loop (blocks : nat) (data : list Z) (abcd efgh : Vec) : Vec * Vec :=
  match blocks with
  | O => (abcd, efgh)
  | S blocks =>
      let message := map (fun i => load_be data (i * 16)) (seqZ 0 4) in
      let '(_, abcd', efgh') := sha_group_loop (seqZ 0 16) (message, abcd, efgh) in
      armv8_loop blocks (drop 64 data) (vaddq_u32 abcd' abcd) (vaddq_u32 efgh' efgh)
  end.
Definition mal_sha256_compress_armv8 (s data : list Z) (blocks : Z) : list Z :=
  let '(abcd, efgh) := armv8_loop (Z.to_nat blocks) data (vld1q_u32 s 0) (vld1q_u32 s 4) in
  [v0 abcd; v1 abcd; v2 abcd; v3 abcd; v0 efgh; v1 efgh; v2 efgh; v3 efgh].

(** * The context *)

Section context.
(** Whether the build has [MAL_SHA256_ARMV8]. *)
Variable armv8 : bool.

Fixpoint portable_loop (blocks : nat) (s data : list Z) : list Z :=
  match blocks with O => s | S blocks => portable_loop blocks (mal_sha256_compress_portable s data) (drop 64 data) end.
Definition mal_sha256_blocks (s data : list Z) (blocks : Z) : list Z :=
  if armv8 then mal_sha256_compress_armv8 s data blocks else portable_loop (Z.to_nat blocks) s data.

(** [memcpy(b + off, data, length data)] in the 64-byte buffer. *)
Definition block_write (b : list Z) (off : Z) (data : list Z) : outcome (list Z) :=
  if (0 <=? off) && (off + arr_len data <=? arr_len b) then Ret (take (Z.to_nat off) b ++ data ++ drop (Z.to_nat (off + arr_len data)) b) else Abort.

(** The whole blocks of [data], and the rest to the buffer. *)
Definition update_blocks (ctx : MalSha256) (data : list Z) (len : Z) : outcome MalSha256 :=
  let blocks := len / 64 in
  let '(ctx, data, len) :=
    if 0 <? blocks then
      (mkSha (mal_sha256_blocks (sha_state ctx) data blocks) (u64 (bit_len ctx + u64 (blocks * 512))) (block ctx) (block_len ctx),
       drop (Z.to_nat (blocks * 64)) data, len - blocks * 64)
    else (ctx, data, len) in
  b ← block_write (block ctx) 0 (take (Z.to_nat len) data);
  Ret (mkSha (sha_state ctx) (bit_len ctx) b len).
Definition mal_sha256_update (ctx : MalSha256) (data : list Z) : outcome MalSha256 :=
  let len := arr_len data in
  if 0 <? block_len ctx then
    let take_len := if 64 - block_len ctx <? len then 64 - block_len ctx else len in
    b ← block_write (block ctx) (block_len ctx) (take (Z.to_nat take_len) data);
    let blen := block_len ctx + take_len in
    let data := drop (Z.to_nat take_len) data in
    let len := len - take_len in
    if blen <? 64 then Ret (mkSha (sha_state ctx) (bit_len ctx) b blen)
    else update_blocks (mkSha (mal_sha256_blocks (sha_state ctx) b 1) (u64 (bit_len ctx + 512)) b 0) data len
  else update_blocks ctx data len.

(** [while (i < limit) block[i++] = 0]. *)
Fixpoint zero_fill (fuel : nat) (b : list Z) (i limit : Z) : outcome (list Z * Z) :=
  match fuel with
  | O => NoFuel
  | S fuel => if i <? limit then b ← block_write b i [0]; zero_fill fuel b (i + 1) limit else Ret (b, i)
  end.
Fixpoint length_loop (ks : list Z) (b : list Z) (bits : Z) : outcome (list Z) :=
  match ks with [] => Ret b | k :: ks => b ← block_write b (63 - k) [u8 (Z.shiftr bits (k * 8))]; length_loop ks b bits end.
Definition store_word (x : Z) : list Z := [u8 (Z.shiftr x 24); u8 (Z.shiftr x 16); u8 (Z.shiftr x 8); u8 x].
Definition mal_sha256_final (ctx : MalSha256) : outcome (list Z) :=
  let i := block_len ctx in
  let bits := u64 (bit_len ctx + u64 (block_len ctx * 8)) in
  b ← block_write (block ctx) i [0x80];
  let i := i + 1 in
  '(s, b, i) ←
    (if 56 <? i then
       '(b, i) ← zero_fill 65 b i 64;
       Ret (mal_sha256_blocks (sha_state ctx) b 1, b, 0)
     else Ret (sha_state ctx, b, i));
  '(b, _) ← zero_fill 65 b i 56;
  b ← length_loop (seqZ 0 8) b bits;
  let s := mal_sha256_blocks s b 1 in
  Ret (concat (map (fun j => store_word (arr_get s j)) (seqZ 0 8))).
End context.
