(* ===== verification/Sha256Spec.v ===== *)
(** SHA-256 as FIPS 180-4 defines it, and that the code computes it: the constants, the two
    block functions, and the context over any sequence of updates. *)

From S2P Require Import Prelude Sha256.

(** * FIPS 180-4 *)

Definition rotr (n x : Z) : Z := x / 2 ^ n + (x mod 2 ^ n) * 2 ^ (32 - n).
Definition shr (n x : Z) : Z := x / 2 ^ n.
Definition Ch (x y z : Z) : Z := Z.lxor (Z.land x y) (Z.land (Z.lnot x) z).
Definition Maj (x y z : Z) : Z := Z.lxor (Z.lxor (Z.land x y) (Z.land x z)) (Z.land y z).
Definition Sigma0 (x : Z) : Z := Z.lxor (Z.lxor (rotr 2 x) (rotr 13 x)) (rotr 22 x).
Definition Sigma1 (x : Z) : Z := Z.lxor (Z.lxor (rotr 6 x) (rotr 11 x)) (rotr 25 x).
Definition small_sigma0 (x : Z) : Z := Z.lxor (Z.lxor (rotr 7 x) (rotr 18 x)) (shr 3 x).
Definition small_sigma1 (x : Z) : Z := Z.lxor (Z.lxor (rotr 17 x) (rotr 19 x)) (shr 10 x).
Definition add32 (l : list Z) : Z := foldr Z.add 0 l mod 2 ^ 32.

(** The constants: the first 32 bits of the fractional parts of the cube roots of the first
    64 primes, and of the square roots of the first 8. *)
Definition is_prime (p : Z) : bool := (1 <? p) && forallb (fun d => negb (p mod d =? 0)) (seqZ 2 (p - 2)).
Definition primes : list Z := filter (fun p => is_prime p = true) (seqZ 2 310).
Definition root_bits (n p k : Z) : Prop := exists m, m ^ n <= p * 2 ^ (32 * n) < (m + 1) ^ n /\ k = m mod 2 ^ 32.
Record fips_constants (K H0 : list Z) : Prop := {
  fips_K : length K = 64%nat /\ forall t, 0 <= t < 64 -> root_bits 3 (arr_get primes t) (arr_get K t);
  fips_H0 : length H0 = 8%nat /\ forall i, 0 <= i < 8 -> root_bits 2 (arr_get primes i) (arr_get H0 i);
}.

(** The message schedule of the block of words [M]. *)
Fixpoint schedule_at (fuel : nat) (M : Z -> Z) (t : Z) : Z :=
  match fuel with
  | O => 0
  | S fuel =>
      if t <? 16 then M t
      else add32 [small_sigma1 (schedule_at fuel M (t - 2)); schedule_at fuel M (t - 7); small_sigma0 (schedule_at fuel M (t - 15)); schedule_at fuel M (t - 16)]
  end.
Definition W (M : Z -> Z) (t : Z) : Z := schedule_at (S (Z.to_nat t)) M t.

Definition fips_round (k w : Z) (r : Regs) : Regs :=
  let T1 := add32 [rh r; Sigma1 (re r); Ch (re r) (rf r) (rg r); k; w] in
  let T2 := add32 [Sigma0 (ra r); Maj (ra r) (rb r) (rc r)] in
  mkRegs (add32 [T1; T2]) (ra r) (rb r) (rc r) (add32 [rd r; T1]) (re r) (rf r) (rg r).
Definition words_be (p : list Z) (i : Z) : Z :=
  arr_get p (4 * i) * 2 ^ 24 + arr_get p (4 * i + 1) * 2 ^ 16 + arr_get p (4 * i + 2) * 2 ^ 8 + arr_get p (4 * i + 3).
Definition fips_block (K : list Z) (H p : list Z) : list Z :=
  let r := foldl (fun r t => fips_round (arr_get K t) (W (words_be p) t) r) (regs_of H) (seqZ 0 64) in
  map (fun xy => add32 [fst xy; snd xy]) (zip [ra r; rb r; rc r; rd r; re r; rf r; rg r; rh r] H).

(** Padding: a one bit, zeros, and the length in bits on 64 bits, to a multiple of 64 bytes. *)
Definition be_bytes (n : nat) (x : Z) : list Z := map (fun k => x / 2 ^ (8 * (Z.of_nat n - 1 - k)) mod 2 ^ 8) (seqZ 0 (Z.of_nat n)).
Definition pad (m : list Z) : list Z := m ++ [0x80] ++ replicate (Z.to_nat ((55 - arr_len m) mod 64)) 0 ++ be_bytes 8 (8 * arr_len m).
Fixpoint blocks_of (n : nat) (m : list Z) : list (list Z) :=
  match n with O => [] | S n => take 64 m :: blocks_of n (drop 64 m) end.
Definition fips_hash (K H0 : list Z) (m : list Z) : list Z :=
  let H := foldl (fips_block K) H0 (blocks_of (length (pad m) / 64) (pad m)) in
  concat (map (be_bytes 4) H).

(** * Words *)

Definition word_ok (x : Z) : Prop := in_u 32 x.
Definition byte_ok (x : Z) : Prop := in_u 8 x.

Lemma rotr_ok n x : 0 < n < 32 -> word_ok x -> MAL_ROTR x n = rotr n x.
Proof.
  intros Hn Hx. unfold MAL_ROTR, rotr, word_ok, in_u in *. rewrite Z.shiftr_div_pow2 by lia.
  assert (2 ^ 32 = 2 ^ n * 2 ^ (32 - n)) as E by (rewrite <- Z.pow_add_r by lia; f_equal; lia).
  assert (0 < 2 ^ n) by (apply Z.pow_pos_nonneg; lia). assert (0 < 2 ^ (32 - n)) by (apply Z.pow_pos_nonneg; lia).
  replace (u32 (Z.shiftl x (32 - n))) with (Z.shiftl (x mod 2 ^ n) (32 - n)).
  - apply lor_shiftl_add; [lia|]. split; [apply Z.div_pos; lia|]. apply Z.div_lt_upper_bound; lia.
  - unfold u32, wrap. rewrite !Z.shiftl_mul_pow2 by lia. rewrite E. by rewrite Z.mul_mod_distr_r by lia.
Qed.
Lemma rotr_range n x : 0 < n < 32 -> word_ok x -> word_ok (rotr n x).
Proof.
  intros Hn Hx. rewrite <- rotr_ok by done. unfold word_ok in *. apply lor_range; [lia| |apply wrap_range; lia].
  unfold in_u in *. rewrite Z.shiftr_div_pow2 by lia. assert (1 <= 2 ^ n) by (pose proof (Z.pow_pos_nonneg 2 n); lia).
  split; [apply Z.div_pos; lia|]. apply Z.div_lt_upper_bound; nia.
Qed.

Lemma u32_add_l a b : u32 (u32 a + b) = u32 (a + b).
Proof. unfold u32, wrap. by rewrite Zplus_mod_idemp_l. Qed.
Lemma u32_add_r a b : u32 (a + u32 b) = u32 (a + b).
Proof. unfold u32, wrap. by rewrite Zplus_mod_idemp_r. Qed.
Lemma add32_u32 l : add32 l = u32 (foldr Z.add 0 l).
Proof. done. Qed.

(** The logical functions of the instructions are those of the standard. *)
Lemma choose_ok x y z : SHAchoose x y z = Ch x y z.
Proof.
  unfold SHAchoose, Ch. apply Z.bits_inj'. intros i Hi. rewrite !Z.lxor_spec, !Z.land_spec, Z.lnot_spec, Z.lxor_spec by lia.
  by destruct (Z.testbit x i), (Z.testbit y i), (Z.testbit z i).
Qed.
Lemma majority_ok x y z : SHAmajority x y z = Maj x y z.
Proof.
  unfold SHAmajority, Maj. apply Z.bits_inj'. intros i Hi. rewrite !Z.lxor_spec, !Z.lor_spec, !Z.land_spec, Z.lor_spec.
  by destruct (Z.testbit x i), (Z.testbit y i), (Z.testbit z i).
Qed.

(** * The ARMv8 block function is the portable one *)

Definition regs_vec (x y : Vec) : Regs := mkRegs (v0 x) (v1 x) (v2 x) (v3 x) (v0 y) (v1 y) (v2 y) (v3 y).

Lemma hash_turn_ok k w x y : regs_vec (fst (hash_turn (u32 (w + k)) (x, y))) (snd (hash_turn (u32 (w + k)) (x, y))) = sha_round k w (regs_vec x y).
Proof.
  unfold hash_turn, sha_round, regs_vec. simpl. rewrite choose_ok, majority_ok. unfold SHAhashSIGMA0, SHAhashSIGMA1, ror32, Ch, Maj.
  set (s1 := Z.lxor (Z.lxor (MAL_ROTR (v0 y) 6) _) _). set (s0 := Z.lxor (Z.lxor (MAL_ROTR (v0 x) 2) _) _).
  set (ch := Z.lxor (Z.land (v0 y) _) _). set (maj := Z.lxor (Z.lxor (Z.land (v0 x) _) _) _).
  assert (u32 (v3 y + s1 + ch + u32 (w + k)) = u32 (v3 y + s1 + ch + k + w)) as -> by (rewrite u32_add_r; f_equal; lia).
  set (t := u32 (_ + w)). f_equal; [rewrite u32_add_r; f_equal; lia|f_equal; lia].
Qed.

(** ** The message schedule *)

Lemma schedule_word_ext w w' i : 16 <= i -> (forall j, 0 <= j < i -> arr_get w j = arr_get w' j) -> schedule_word w i = schedule_word w' i.
Proof. intros Hi H. unfold schedule_word. rewrite !H by lia. done. Qed.

Lemma schedule_loop_ok k : forall n w, arr_len w = n -> 16 <= n ->
  let w' := schedule_loop (seqZ n (Z.of_nat k)) w in
  arr_len w' = n + Z.of_nat k /\ (forall j, 0 <= j < n -> arr_get w' j = arr_get w j) /\ (forall j, n <= j < n + Z.of_nat k -> arr_get w' j = schedule_word w' j).
Proof.
  induction k as [|k IH]; intros n w Hn Hge w'; [subst w'; simpl; split_and!; [lia|done|lia]|].
  subst w'. rewrite seqZ_cons by lia. replace (Z.pred (Z.of_nat (S k))) with (Z.of_nat k) by lia. cbn [schedule_loop]. set (x := schedule_word w n).
  assert (arr_len (w ++ [x]) = n + 1) as Hl by (rewrite arr_len_app; unfold arr_len at 2; simpl; lia).
  change (Z.succ n) with (n + 1). destruct (IH (n + 1) (w ++ [x]) Hl) as (H1 & H2 & H3); [lia|]. set (w' := schedule_loop _ _) in *.
  assert (forall j, 0 <= j < n -> arr_get w' j = arr_get w j) as H4 by (intros j Hj; rewrite H2 by lia; apply arr_get_app_l; lia).
  split; [lia|]. split; [done|]. intros j Hj. destruct (decide (j = n)) as [->|]; [|apply H3; lia].
  rewrite (schedule_word_ext w' w n) by (done || lia). rewrite H2 by lia. apply arr_get_of_lookup.
  rewrite lookup_app_r by (unfold arr_len in *; lia). replace (Z.to_nat n - length w)%nat with 0%nat by (unfold arr_len in *; lia). done.
Qed.

Lemma arr_get_map_seqZ (f : Z -> Z) n i : 0 <= i < n -> arr_get (map f (seqZ 0 n)) i = f i.
Proof.
  intros Hi. apply arr_get_of_lookup. rewrite list_lookup_fmap, lookup_seqZ_lt by lia. simpl. f_equal. f_equal. lia.
Qed.

Lemma scheduled k n w w' : arr_len w = n -> 16 <= n -> 0 <= k -> w' = schedule_loop (seqZ n k) w ->
  (forall j, 0 <= j < n -> arr_get w' j = arr_get w j) /\ (forall j, n <= j < n + k -> arr_get w' j = schedule_word w' j).
Proof.
  intros Hl Hn Hk ->. destruct (schedule_loop_ok (Z.to_nat k) n w Hl Hn) as (_ & H). by rewrite Z2Nat.id in H.
Qed.

Definition recurrence (w : list Z) : Prop :=
  forall a, 0 <= a < 48 -> arr_get w (a + 16) = u32 (sigma1 (arr_get w (a + 14)) + u32 (arr_get w a + sigma0 (arr_get w (a + 1))) + arr_get w (a + 9)).

Lemma schedule_ok p : (forall t, 0 <= t < 16 -> arr_get (schedule p) t = load_word p t) /\ recurrence (schedule p).
Proof.
  assert (arr_len (map (load_word p) (seqZ 0 16)) = 16) as Hl by (unfold arr_len; rewrite length_map, length_seqZ; lia).
  destruct (scheduled 48 16 _ (schedule p) Hl) as [H2 H3]; [lia|lia|reflexivity|].
  revert H2 H3. generalize (schedule p). intros w H2 H3. split.
  - intros t Ht. rewrite H2 by lia. apply arr_get_map_seqZ. lia.
  - intros a Ha. rewrite (H3 (a + 16)) by lia. unfold schedule_word.
    replace (a + 16 - 16) with a by lia. replace (a + 16 - 15) with (a + 1) by lia. replace (a + 16 - 2) with (a + 14) by lia. replace (a + 16 - 7) with (a + 9) by lia.
    fold (ror32 (arr_get w (a + 1)) 7) (ror32 (arr_get w (a + 1)) 18) (ror32 (arr_get w (a + 14)) 17) (ror32 (arr_get w (a + 14)) 19).
    fold (sigma0 (arr_get w (a + 1))) (sigma1 (arr_get w (a + 14))).
    rewrite <- (Z.add_assoc (sigma1 _)), (Z.add_comm (u32 _) (arr_get w (a + 9))), Z.add_assoc, u32_add_r. f_equal. lia.
Qed.

(** Adds the numerals of a sum. *)
Ltac add_numerals :=
  repeat match goal with
  | |- context [Zpos ?p + Zpos ?q] => let n := eval vm_compute in (Zpos p + Zpos q) in change (Zpos p + Zpos q) with n
  | H : context [Zpos ?p + Zpos ?q] |- _ => let n := eval vm_compute in (Zpos p + Zpos q) in change (Zpos p + Zpos q) with n in H
  end.

(** Four words of the schedule from the sixteen before them. *)
Lemma su_ok w b : recurrence w -> 0 <= b < 45 ->
  vsha256su1q_u32 (vsha256su0q_u32 (vld1q_u32 w b) (vld1q_u32 w (b + 4))) (vld1q_u32 w (b + 8)) (vld1q_u32 w (b + 12)) = vld1q_u32 w (b + 16).
Proof.
  intros H Hb. pose proof (H b ltac:(lia)) as W0. pose proof (H (b + 1) ltac:(lia)) as W1. pose proof (H (b + 2) ltac:(lia)) as W2. pose proof (H (b + 3) ltac:(lia)) as W3.
  unfold vsha256su1q_u32, vsha256su0q_u32, vld1q_u32. cbn [v0 v1 v2 v3]. rewrite <- !Z.add_assoc in *. add_numerals.
  by rewrite <- W0, <- W1, <- W2, <- W3.
Qed.

(** ** Rounds, four at a time *)

Lemma round_loop_app l l' w r : round_loop (l ++ l') w r = round_loop l' w (round_loop l w r).
Proof. revert r. induction l as [|i l IH]; intros r; [done|]. apply IH. Qed.

Lemma group_rounds w g x y :
  let words := vaddq_u32 (vld1q_u32 w (4 * g)) (vld1q_u32 MAL_SHA256_K (g * 4)) in
  regs_vec (vsha256hq_u32 x y words) (vsha256h2q_u32 y x words) = round_loop (seqZ (4 * g) 4) w (regs_vec x y).
Proof.
  intros words. unfold vsha256hq_u32, vsha256h2q_u32, SHA256hash.
  assert (forall i s, regs_vec (fst (hash_turn (u32 (arr_get w i + arr_get MAL_SHA256_K i)) s)) (snd (hash_turn (u32 (arr_get w i + arr_get MAL_SHA256_K i)) s)) =
    sha_round (arr_get MAL_SHA256_K i) (arr_get w i) (regs_vec (fst s) (snd s))) as Hturn by (intros i [a b]; apply hash_turn_ok).
  unfold words, vaddq_u32, vld1q_u32. cbn [v0 v1 v2 v3]. replace (g * 4) with (4 * g) by lia. rewrite !Hturn. cbn [fst snd].
  replace (seqZ (4 * g) 4) with [4 * g; 4 * g + 1; 4 * g + 2; 4 * g + 3]; [done|].
  unfold seqZ. simpl. do 4 try (f_equal; try lia).
Qed.

(** The ring of four vectors holds the words of the groups to come. *)
Definition ring_ok (w : list Z) (g : Z) (message : list Vec) : Prop :=
  arr_len message = 4 /\ forall j, g <= j < g + 4 -> j < 16 -> arr_get message (j mod 4) = vld1q_u32 w (4 * j).

Lemma group_step_ok w g message x y : recurrence w -> 0 <= g < 16 -> ring_ok w g message ->
  exists message' x' y', group_step g (message, x, y) = (message', x', y') /\ ring_ok w (g + 1) message' /\
    regs_vec x' y' = round_loop (seqZ (4 * g) 4) w (regs_vec x y).
Proof.
  intros H Hg [Hl Hm]. unfold group_step. pose proof (Z.mod_pos_bound g 4 ltac:(lia)). eexists _, _, _. split; [reflexivity|]. split.
  - destruct (Z.ltb_spec g 12) as [Hlt|Hge].
    + split; [by rewrite arr_len_set|]. intros j Hj Hj'. rewrite !Hm by lia. destruct (decide (j = g + 4)) as [->|Hne].
      * replace ((g + 4) mod 4) with (g mod 4) by (Z.to_euclidean_division_equations; lia). rewrite arr_get_set_eq by lia.
        pose proof (su_ok w (4 * g) H ltac:(lia)) as Hs. replace (4 * (g + 1)) with (4 * g + 4) by lia. replace (4 * (g + 2)) with (4 * g + 8) by lia.
        replace (4 * (g + 3)) with (4 * g + 12) by lia. rewrite Hs. f_equal. lia.
      * rewrite arr_get_set_ne; [apply Hm; lia|lia|apply Z.mod_pos_bound; lia|]. Z.to_euclidean_division_equations. lia.
    + split; [done|]. intros j Hj Hj'. apply Hm; lia.
  - rewrite (Hm g) by lia. apply group_rounds.
Qed.

Lemma sha_group_loop_ok w n : recurrence w -> forall g message x y, 0 <= g -> g + Z.of_nat n <= 16 -> ring_ok w g message ->
  exists message' x' y', sha_group_loop (seqZ g (Z.of_nat n)) (message, x, y) = (message', x', y') /\
    regs_vec x' y' = round_loop (seqZ (4 * g) (4 * Z.of_nat n)) w (regs_vec x y).
Proof.
  intros H. induction n as [|n IH]; intros g message x y Hg Hn HR; [by exists message, x, y|].
  rewrite seqZ_cons by lia. replace (Z.pred (Z.of_nat (S n))) with (Z.of_nat n) by lia. change (Z.succ g) with (g + 1). cbn [sha_group_loop].
  destruct (group_step_ok w g message x y H ltac:(lia) HR) as (m1 & x1 & y1 & -> & HR1 & E1).
  destruct (IH (g + 1) m1 x1 y1) as (m' & x' & y' & E & E2); [lia|lia|done|]. exists m', x', y'. split; [done|].
  rewrite E2, E1, <- round_loop_app. f_equal. replace (4 * Z.of_nat (S n)) with (4 + 4 * Z.of_nat n) by lia. rewrite (seqZ_app (4 * g) 4) by lia.
  f_equal. f_equal. lia.
Qed.

(** The block loop, block by block. *)
Definition vec_list (x y : Vec) : list Z := [v0 x; v1 x; v2 x; v3 x; v0 y; v1 y; v2 y; v3 y].

Lemma add_vecs x y x1 y1 : add_regs (vec_list x y) (regs_vec x1 y1) = vec_list (vaddq_u32 x1 x) (vaddq_u32 y1 y).
Proof.
  unfold add_regs, vec_list, vaddq_u32, regs_vec. cbn [v0 v1 v2 v3 ra rb rc rd re rf rg rh].
  rewrite (Z.add_comm (v0 x1)), (Z.add_comm (v1 x1)), (Z.add_comm (v2 x1)), (Z.add_comm (v3 x1)).
  rewrite (Z.add_comm (v0 y1)), (Z.add_comm (v1 y1)), (Z.add_comm (v2 y1)), (Z.add_comm (v3 y1)). reflexivity.
Qed.

Lemma load_be_ok p i : 0 <= i < 4 -> load_be p (i * 16) = vld1q_u32 (schedule p) (4 * i).
Proof.
  intros Hi. destruct (schedule_ok p) as [H _]. unfold load_be, vld1q_u32. replace (i * 16 / 4) with (4 * i) by (Z.to_euclidean_division_equations; lia).
  rewrite !H by lia. done.
Qed.

Lemma armv8_loop_ok n : forall data x y, let '(x', y') := armv8_loop n data x y in vec_list x' y' = portable_loop n (vec_list x y) data.
Proof.
  induction n as [|n IH]; intros data x y; [done|]. cbn [armv8_loop portable_loop].
  assert (ring_ok (schedule data) 0 (map (fun i => load_be data (i * 16)) (seqZ 0 4))) as HR.
  { split; [done|]. intros j Hj _. rewrite Z.mod_small by lia. apply arr_get_of_lookup. rewrite list_lookup_fmap, lookup_seqZ_lt by lia. simpl. f_equal.
    rewrite Z2Nat.id by lia. by apply load_be_ok. }
  destruct (sha_group_loop_ok (schedule data) 16 (proj2 (schedule_ok data)) 0 (map (fun i => load_be data (i * 16)) (seqZ 0 4)) x y) as (m & x1 & y1 & E & Er); [lia|lia|exact HR|].
  change (Z.of_nat 16) with 16 in E, Er. rewrite E. specialize (IH (drop 64 data) (vaddq_u32 x1 x) (vaddq_u32 y1 y)).
  destruct (armv8_loop _ _ _ _) as [x2 y2]. rewrite IH. f_equal. unfold mal_sha256_compress_portable.
  change (regs_of (vec_list x y)) with (regs_vec x y). change (4 * 0) with 0 in Er. change (4 * 16) with 64 in Er. rewrite <- Er.
  symmetry. apply add_vecs.
Qed.

(** * The portable block function is that of the standard *)

Lemma arr_get_forall (P : Z -> Prop) l i : P inhabitant -> Forall P l -> P (arr_get l i).
Proof.
  intros H0 Hl. unfold arr_get. rewrite list_lookup_total_alt. destruct (l !! Z.to_nat i) eqn:E; [|done]. simpl. by eapply Forall_lookup_1.
Qed.

Section words.
Variable p : list Z.
Hypothesis Hp : Forall byte_ok p.

Lemma load_word_ok i : load_word p i = words_be p i.
Proof using Hp.
  assert (forall j, 0 <= arr_get p j < 2 ^ 8) as Hb by (intros j; apply (arr_get_forall byte_ok); [by vm_compute|exact Hp]).
  unfold load_word, words_be. rewrite (Z.mul_comm i 4). pose proof (Hb (4 * i)). pose proof (Hb (4 * i + 1)). pose proof (Hb (4 * i + 2)). pose proof (Hb (4 * i + 3)).
  unfold u32. rewrite !wrap_small by (unfold in_u; rewrite Z.shiftl_mul_pow2 by lia; lia).
  set (a := arr_get p (4 * i)) in *. set (b := arr_get p (4 * i + 1)) in *. set (c := arr_get p (4 * i + 2)) in *. set (d := arr_get p (4 * i + 3)) in *.
  rewrite <- !Z.lor_assoc. rewrite (lor_shiftl_add' d c 8), (lor_shiftl_add' _ b 16), (lor_shiftl_add' _ a 24) by lia. lia.
Qed.
Lemma words_be_range i : word_ok (words_be p i).
Proof using Hp.
  assert (forall j, 0 <= arr_get p j < 2 ^ 8) as Hb by (intros j; apply (arr_get_forall byte_ok); [by vm_compute|exact Hp]). unfold words_be, word_ok, in_u.
  pose proof (Hb (4 * i)). pose proof (Hb (4 * i + 1)). pose proof (Hb (4 * i + 2)). pose proof (Hb (4 * i + 3)). lia.
Qed.

Lemma sigma0_ok x : word_ok x -> sigma0 x = small_sigma0 x.
Proof using Type. intros Hx. unfold sigma0, small_sigma0, ror32, shr. rewrite !rotr_ok by (done || lia). by rewrite Z.shiftr_div_pow2 by lia. Qed.
Lemma sigma1_ok x : word_ok x -> sigma1 x = small_sigma1 x.
Proof using Type. intros Hx. unfold sigma1, small_sigma1, ror32, shr. rewrite !rotr_ok by (done || lia). by rewrite Z.shiftr_div_pow2 by lia. Qed.

Lemma schedule_W_fuel n : forall t fuel, 0 <= t < 64 -> t < Z.of_nat n -> (Z.to_nat t < fuel)%nat ->
  arr_get (schedule p) t = schedule_at fuel (words_be p) t /\ word_ok (arr_get (schedule p) t).
Proof using Hp.
  destruct (schedule_ok p) as [H1 H2]. revert H1 H2. generalize (schedule p). intros w H1 H2.
  induction n as [|n IH]; intros t [|fuel] Ht Hn Hf; [lia|lia|lia|]. cbn [schedule_at]. destruct (Z.ltb_spec t 16).
  - rewrite H1 by lia. rewrite load_word_ok. split; [done|apply words_be_range].
  - pose proof (H2 (t - 16) ltac:(lia)) as E. replace (t - 16 + 16) with t in E by lia. replace (t - 16 + 14) with (t - 2) in E by lia.
    replace (t - 16 + 1) with (t - 15) in E by lia. replace (t - 16 + 9) with (t - 7) in E by lia.
    destruct (IH (t - 2) fuel) as [<- Hw2]; [lia|lia|lia|]. destruct (IH (t - 7) fuel) as [<- Hw7]; [lia|lia|lia|].
    destruct (IH (t - 15) fuel) as [<- Hw15]; [lia|lia|lia|]. destruct (IH (t - 16) fuel) as [<- Hw16]; [lia|lia|lia|].
    rewrite E. split; [|apply wrap_range; lia]. rewrite sigma0_ok, sigma1_ok by done.
    rewrite <- (Z.add_assoc (small_sigma1 _)), (Z.add_comm (u32 _)), Z.add_assoc, u32_add_r, add32_u32. f_equal. cbn [foldr]. lia.
Qed.
Lemma schedule_W t : 0 <= t < 64 -> arr_get (schedule p) t = W (words_be p) t.
Proof using Hp. intros Ht. apply (schedule_W_fuel 64); lia. Qed.
End words.

Definition regs_ok (r : Regs) : Prop := word_ok (ra r) /\ word_ok (rb r) /\ word_ok (rc r) /\ word_ok (rd r) /\ word_ok (re r) /\ word_ok (rf r) /\ word_ok (rg r) /\ word_ok (rh r).

Lemma round_ok k w r : regs_ok r -> sha_round k w r = fips_round k w r /\ regs_ok (sha_round k w r).
Proof.
  intros (Ha & Hb & Hc & Hd & He & Hf & Hg & Hh). split.
  - unfold sha_round, fips_round, Sigma0, Sigma1, Ch, Maj. rewrite !rotr_ok by (done || lia). rewrite !add32_u32. cbn [foldr].
    set (s1 := Z.lxor (Z.lxor (rotr 6 _) _) _). set (s0 := Z.lxor (Z.lxor (rotr 2 _) _) _). set (ch := Z.lxor (Z.land (re r) _) _). set (maj := Z.lxor (Z.lxor _ _) (Z.land (rb r) _)).
    rewrite !Z.add_0_r, !Z.add_assoc. done.
  - unfold sha_round, regs_ok. cbn [ra rb rc rd re rf rg rh]. assert (forall x, word_ok (u32 x)) by (intros x; apply wrap_range; lia). split_and!; auto.
Qed.

Lemma round_loop_ok K' ids w f : (forall t, t ∈ ids -> arr_get w t = f t) -> K' = MAL_SHA256_K -> forall r, regs_ok r ->
  round_loop ids w r = foldl (fun r t => fips_round (arr_get K' t) (f t) r) r ids.
Proof.
  intros Hf ->. induction ids as [|t ids IH]; intros r Hr; [done|]. cbn [round_loop foldl]. destruct (round_ok (arr_get MAL_SHA256_K t) (arr_get w t) r Hr) as [E Hr'].
  rewrite (Hf t) in * by (apply elem_of_cons; by left). rewrite <- E. apply IH; [|done]. intros t' Ht'. apply Hf, elem_of_cons. by right.
Qed.

(** A chaining value: eight words. *)
Definition state_ok (s : list Z) : Prop := length s = 8%nat /\ Forall word_ok s.

Lemma regs_of_ok s : Forall word_ok s -> regs_ok (regs_of s).
Proof. intros H. assert (forall i, word_ok (arr_get s i)) as Hi by (intros i; apply arr_get_forall; [by vm_compute|done]). unfold regs_ok, regs_of. simpl. auto 10. Qed.

Lemma compress_ok s p : state_ok s -> Forall byte_ok p -> mal_sha256_compress_portable s p = fips_block MAL_SHA256_K s p /\ state_ok (mal_sha256_compress_portable s p).
Proof.
  intros [Hl Hs] Hp. unfold mal_sha256_compress_portable, fips_block.
  rewrite (round_loop_ok MAL_SHA256_K (seqZ 0 64) (schedule p) (W (words_be p))); [|intros t Ht%elem_of_seqZ; apply schedule_W; [done|lia]|done|by apply regs_of_ok].
  set (r := foldl _ _ _). clearbody r. destruct s as [|a [|b [|c [|d [|e [|f [|g [|h [|]]]]]]]]]; try done. split.
  - cbn [zip zip_with map fst snd]. unfold add_regs. rewrite !add32_u32. cbn [foldr]. rewrite !Z.add_0_r.
    rewrite (Z.add_comm (ra r)), (Z.add_comm (rb r)), (Z.add_comm (rc r)), (Z.add_comm (rd r)), (Z.add_comm (re r)), (Z.add_comm (rf r)), (Z.add_comm (rg r)), (Z.add_comm (rh r)). reflexivity.
  - split; [done|]. unfold add_regs. assert (forall x, word_ok (u32 x)) by (intros x; apply wrap_range; lia). repeat (constructor; [done|]). constructor.
Qed.

(** A block function reads 64 bytes. *)
Lemma compress_take s p : mal_sha256_compress_portable s (take 64 p) = mal_sha256_compress_portable s p.
Proof.
  unfold mal_sha256_compress_portable, schedule. replace (map (load_word (take 64 p)) (seqZ 0 16)) with (map (load_word p) (seqZ 0 16)); [done|].
  apply map_ext_in. intros i Hi%list_elem_of_In%elem_of_seqZ. assert (forall j, 0 <= j < 64 -> arr_get (take 64 p) j = arr_get p j) as Hj.
  { intros j Hj. unfold arr_get. rewrite !list_lookup_total_alt, lookup_take_lt by lia. done. }
  unfold load_word. rewrite !Hj by lia. done.
Qed.

Lemma blocks_ok armv8 s data n : state_ok s -> Forall byte_ok data ->
  mal_sha256_blocks armv8 s data (Z.of_nat n) = foldl (fips_block MAL_SHA256_K) s (blocks_of n data) /\ state_ok (mal_sha256_blocks armv8 s data (Z.of_nat n)).
Proof.
  intros Hs Hd. unfold mal_sha256_blocks. assert (forall s0, state_ok s0 -> mal_sha256_compress_armv8 s0 data (Z.of_nat n) = portable_loop n s0 data) as HA.
  { intros s0 [Hl _]. unfold mal_sha256_compress_armv8. rewrite Nat2Z.id. pose proof (armv8_loop_ok n data (vld1q_u32 s0 0) (vld1q_u32 s0 4)) as H.
    destruct (armv8_loop _ _ _ _) as [x y]. change ([v0 x; v1 x; v2 x; v3 x; v0 y; v1 y; v2 y; v3 y]) with (vec_list x y). rewrite H. f_equal.
    destruct s0 as [|? [|? [|? [|? [|? [|? [|? [|? [|]]]]]]]]]; try done. }
  rewrite HA by done. rewrite Nat2Z.id. destruct armv8.
  all: clear HA; revert s data Hs Hd; induction n as [|n IH]; intros s data Hs Hd; [done|]; cbn [portable_loop blocks_of foldl].
  all: rewrite <- (compress_take s data); destruct (compress_ok s (take 64 data) Hs (Forall_take _ _ _ Hd)) as [E Hs'].
  all: rewrite <- E; apply IH; [done|by apply Forall_drop].
Qed.

(** * The constants *)

(** The largest [m] with [m ^ n <= x], a bit at a time. *)
Fixpoint root_floor (bit : nat) (n x m : Z) : Z :=
  match bit with
  | O => m
  | S bit => let m' := m + 2 ^ Z.of_nat bit in root_floor bit n x (if m' ^ n <=? x then m' else m)
  end.
Definition root_check (n p k : Z) : bool :=
  let x := p * 2 ^ (32 * n) in let m := root_floor 40 n x 0 in
  (m ^ n <=? x) && (x <? (m + 1) ^ n) && (k =? m mod 2 ^ 32).
Lemma root_check_ok n p k : root_check n p k = true -> root_bits n p k.
Proof.
  unfold root_check. set (m := root_floor 40 n _ 0). intros [[H1 H2]%andb_prop H3]%andb_prop. exists m.
  apply Z.leb_le in H1. apply Z.ltb_lt in H2. apply Z.eqb_eq in H3. exact (conj (conj H1 H2) H3).
Qed.
Definition sha256_H0 : list Z := sha_state (mal_sha256_init []).

Lemma constants_ok : fips_constants MAL_SHA256_K sha256_H0.
Proof.
  assert (forallb (fun t => root_check 3 (arr_get primes t) (arr_get MAL_SHA256_K t)) (seqZ 0 64) = true) as HK by (vm_compute; reflexivity).
  assert (forallb (fun t => root_check 2 (arr_get primes t) (arr_get sha256_H0 t)) (seqZ 0 8) = true) as HH by (vm_compute; reflexivity).
  split; (split; [reflexivity|]); intros t Ht; apply root_check_ok.
  - apply (proj1 (forallb_forall _ _) HK), list_elem_of_In, elem_of_seqZ. lia.
  - apply (proj1 (forallb_forall _ _) HH), list_elem_of_In, elem_of_seqZ. lia.
Qed.

(** * The buffer *)

Lemma block_write_app (A B C : list Z) : length B = length C -> block_write (A ++ B) (arr_len A) C = Ret (A ++ C).
Proof.
  intros Hl. unfold block_write. rewrite arr_len_app. unfold arr_len. rewrite Hl.
  assert (((0 <=? Z.of_nat (length A)) && (Z.of_nat (length A) + Z.of_nat (length C) <=? Z.of_nat (length A) + Z.of_nat (length C))) = true) as ->.
  { apply andb_true_intro. split; apply Z.leb_le; lia. }
  rewrite Nat2Z.id, take_app_length. rewrite drop_ge; [by rewrite app_nil_r|]. rewrite length_app. lia.
Qed.
Lemma block_write_in (A B C D : list Z) off : arr_len A = off -> length B = length C -> block_write (A ++ B ++ D) off C = Ret (A ++ C ++ D).
Proof.
  intros Ha Hl. unfold block_write. rewrite !arr_len_app. unfold arr_len in *. rewrite Hl.
  assert (((0 <=? off) && (off + Z.of_nat (length C) <=? Z.of_nat (length A) + (Z.of_nat (length C) + Z.of_nat (length D)))) = true) as ->.
  { apply andb_true_intro. split; apply Z.leb_le; lia. }
  f_equal. subst off. rewrite Nat2Z.id, take_app_length. do 2 f_equal.
  replace (Z.to_nat (Z.of_nat (length A) + Z.of_nat (length C))) with (length (A ++ B)) by (rewrite length_app; lia). by rewrite app_assoc, drop_app_length.
Qed.

Lemma zero_fill_ok n : forall fuel A B D i limit, (n < fuel)%nat -> arr_len A = i -> length B = n -> limit = i + Z.of_nat n ->
  zero_fill fuel (A ++ B ++ D) i limit = Ret (A ++ replicate n 0 ++ D, limit).
Proof.
  induction n as [|n IH]; intros [|fuel] A B D i limit Hf HA HB ->; [lia| |lia|]; cbn [zero_fill].
  - destruct B; [|done]. destruct (Z.ltb_spec i (i + Z.of_nat 0)); [lia|]. simpl. do 2 f_equal. lia.
  - destruct B as [|x B]; [done|]. destruct (Z.ltb_spec i (i + Z.of_nat (S n))); [|lia].
    change (A ++ (x :: B) ++ D) with (A ++ [x] ++ (B ++ D)). rewrite (block_write_in A [x] [0] (B ++ D) i HA) by done. cbn [mbind outcome_bind].
    rewrite app_assoc, (IH fuel (A ++ [0]) B D (i + 1)); [by rewrite <- app_assoc|lia|rewrite arr_len_app; unfold arr_len in *; simpl; lia|simpl in HB; lia|lia].
Qed.

Lemma be_bytes_8 x : be_bytes 8 x = map (fun k => u8 (Z.shiftr x (k * 8))) [7; 6; 5; 4; 3; 2; 1; 0].
Proof.
  unfold be_bytes. change (Z.of_nat 8) with 8. change (seqZ 0 8) with [0; 1; 2; 3; 4; 5; 6; 7]. cbn [map]. rewrite !Z.shiftr_div_pow2 by lia. reflexivity.
Qed.
Lemma be_bytes_4 x : be_bytes 4 x = store_word x.
Proof.
  unfold be_bytes, store_word. change (Z.of_nat 4) with 4. change (seqZ 0 4) with [0; 1; 2; 3]. cbn [map]. rewrite !Z.shiftr_div_pow2 by lia.
  change (8 * (4 - 1 - 3)) with 0. rewrite Z.pow_0_r, Z.div_1_r. reflexivity.
Qed.

Lemma length_loop_gen bits n : forall k A B T, length B = n -> arr_len A + Z.of_nat n + k = 64 ->
  length_loop (seqZ k (Z.of_nat n)) (A ++ B ++ T) bits = Ret (A ++ map (fun k => u8 (Z.shiftr bits (k * 8))) (rev (seqZ k (Z.of_nat n))) ++ T).
Proof.
  induction n as [|n IH]; intros k A B T HB Hk; [by destruct B|]. rewrite seqZ_cons by lia. replace (Z.pred (Z.of_nat (S n))) with (Z.of_nat n) by lia.
  change (Z.succ k) with (k + 1). cbn [length_loop rev]. destruct B as [|x B _] using rev_ind; [done|]. rewrite length_app in HB. cbn [length] in HB.
  rewrite <- (app_assoc B [x] T), (app_assoc A B).
  rewrite (block_write_in (A ++ B) [x] [u8 (Z.shiftr bits (k * 8))] T) by (done || (rewrite arr_len_app; unfold arr_len at 2; lia)).
  cbn [mbind outcome_bind]. rewrite <- app_assoc, IH by lia. by rewrite map_app, <- (app_assoc (map _ _)).
Qed.
Lemma length_loop_ok A B bits : length A = 56%nat -> length B = 8%nat -> length_loop (seqZ 0 8) (A ++ B) bits = Ret (A ++ be_bytes 8 bits).
Proof.
  intros HA HB. rewrite <- (app_nil_r B). change 8 with (Z.of_nat 8) at 1. rewrite (length_loop_gen bits 8 0 A B []) by (done || (unfold arr_len; lia)).
  rewrite app_nil_r, be_bytes_8. reflexivity.
Qed.

(** * The context *)

Lemma blocks_of_app n : forall k (P Q : list Z), length P = (64 * n)%nat -> blocks_of (n + k) (P ++ Q) = blocks_of n P ++ blocks_of k Q.
Proof.
  induction n as [|n IH]; intros k P Q HP; [destruct P; [done|simpl in HP; lia]|]. cbn [Nat.add blocks_of app].
  rewrite take_app_le, drop_app_le by lia. rewrite IH by (rewrite length_drop; lia). done.
Qed.
Lemma blocks_of_take n : forall k (P Q : list Z), length P = (64 * n)%nat -> (k <= n)%nat -> blocks_of k (P ++ Q) = blocks_of k P.
Proof.
  induction n as [|n IH]; intros [|k] P Q HP Hk; [done|lia|done|]. cbn [blocks_of]. rewrite take_app_le, drop_app_le by lia.
  f_equal. apply IH; [rewrite length_drop; lia|lia].
Qed.

Section stream.
Variable armv8 : bool.
Definition H_after (n : nat) (P : list Z) : list Z := foldl (fips_block MAL_SHA256_K) sha256_H0 (blocks_of n P).

Record ctx_ok (ctx : MalSha256) (m : list Z) : Prop := mkCtx {
  co_len : 0 <= block_len ctx < 64;
  co_block : length (block ctx) = 64%nat;
  co_parts : exists n P R, m = P ++ R /\ length P = (64 * n)%nat /\ arr_len R = block_len ctx /\ take (length R) (block ctx) = R /\
    sha_state ctx = H_after n P /\ bit_len ctx = u64 (512 * Z.of_nat n);
}.

Lemma H_after_ok n P : Forall byte_ok P -> state_ok (H_after n P).
Proof using Type.
  intros HP. assert (state_ok sha256_H0) as H0 by (split; [done|]; repeat (constructor; [by vm_compute|]); constructor).
  unfold H_after. destruct (blocks_ok false sha256_H0 P n H0 HP) as [<- H]. done.
Qed.
Lemma H_after_app n k P Q : length P = (64 * n)%nat -> Forall byte_ok P -> Forall byte_ok Q ->
  mal_sha256_blocks armv8 (H_after n P) Q (Z.of_nat k) = H_after (n + k)%nat (P ++ Q).
Proof using Type.
  intros HP Hb HQ. unfold H_after at 2. rewrite blocks_of_app, foldl_app by done. apply (blocks_ok armv8); [by apply H_after_ok|done].
Qed.
Lemma bits_add n k : u64 (u64 (512 * Z.of_nat n) + u64 (Z.of_nat k * 512)) = u64 (512 * Z.of_nat (n + k)).
Proof using Type. unfold u64, wrap. rewrite Zplus_mod_idemp_l, Zplus_mod_idemp_r. f_equal. lia. Qed.

Lemma update_blocks_ok ctx n P data :
  length (block ctx) = 64%nat -> length P = (64 * n)%nat -> Forall byte_ok P -> Forall byte_ok data ->
  sha_state ctx = H_after n P -> bit_len ctx = u64 (512 * Z.of_nat n) ->
  exists ctx', update_blocks armv8 ctx data (arr_len data) = Ret ctx' /\ ctx_ok ctx' (P ++ data).
Proof using Type.
  intros Hb HP HbP Hbd Hs Hbits. set (k := (length data / 64)%nat). assert (arr_len data / 64 = Z.of_nat k) as Hk by (unfold arr_len, k; rewrite Nat2Z.inj_div; done).
  assert (64 * k <= length data < 64 * k + 64)%nat as Hk2 by (unfold k; pose proof (Nat.div_mod_eq (length data) 64); pose proof (Nat.mod_upper_bound (length data) 64); lia).
  unfold update_blocks. rewrite Hk.
  assert (exists b bl s, (if 0 <? Z.of_nat k then (mkSha (mal_sha256_blocks armv8 (sha_state ctx) data (Z.of_nat k)) (u64 (bit_len ctx + u64 (Z.of_nat k * 512))) (block ctx) (block_len ctx),
       drop (Z.to_nat (Z.of_nat k * 64)) data, arr_len data - Z.of_nat k * 64) else (ctx, data, arr_len data)) =
     (mkSha s b (block ctx) bl, drop (64 * k) data, Z.of_nat (length (drop (64 * k) data))) /\
     s = H_after (n + k)%nat (P ++ take (64 * k) data) /\ b = u64 (512 * Z.of_nat (n + k))) as (b & bl & s & -> & Es & Eb).
  { rewrite length_drop. destruct (Z.ltb_spec 0 (Z.of_nat k)) as [Hpos|Hz].
    - eexists _, _, _. split; [f_equal; [f_equal; f_equal; lia|unfold arr_len; lia]|]. rewrite Hs, Hbits. split; [|apply bits_add].
      rewrite <- (H_after_app n k) by (done || by apply Forall_take). rewrite <- (take_drop (64 * k) data) at 1.
      destruct (blocks_ok armv8 (H_after n P) data k (H_after_ok n P HbP) Hbd) as [E1 _]. destruct (blocks_ok armv8 (H_after n P) (take (64 * k) data) k (H_after_ok n P HbP) (Forall_take _ _ _ Hbd)) as [E2 _].
      rewrite take_drop, E1, E2. f_equal. rewrite <- (take_drop (64 * k) data) at 1. apply (blocks_of_take k); [rewrite length_take; lia|done].
    - assert (k = 0%nat) as E0 by lia. rewrite E0. exists (bit_len ctx), (block_len ctx), (sha_state ctx). destruct ctx. simpl in *. rewrite Nat.add_0_r, take_0, app_nil_r, drop_0, Nat.sub_0_r. done. }
  set (R := drop (64 * k) data). assert (length R < 64)%nat as HR by (unfold R; rewrite length_drop; lia). cbn [block sha_state bit_len]. rewrite Nat2Z.id, take_ge by lia.
  rewrite <- (take_drop (length R) (block ctx)). pose proof (block_write_in [] (take (length R) (block ctx)) R (drop (length R) (block ctx)) 0 eq_refl) as HW.
  simpl app in HW. rewrite HW by (rewrite length_take; lia). simpl. eexists. split; [done|]. split; simpl.
  - lia.
  - rewrite length_app, length_drop. lia.
  - exists (n + k)%nat, (P ++ take (64 * k) data), R. split; [unfold R; by rewrite <- app_assoc, take_drop|]. split; [rewrite length_app, length_take; lia|]. split; [done|].
    split; [apply take_app_length|]. done.
Qed.

Lemma update_ok ctx m data : ctx_ok ctx m -> Forall byte_ok m -> Forall byte_ok data ->
  exists ctx', mal_sha256_update armv8 ctx data = Ret ctx' /\ ctx_ok ctx' (m ++ data).
Proof using Type.
  intros [Hl Hb (n & P & R & -> & HP & HR & HT & Hs & Hbits)] Hm Hd. apply Forall_app in Hm as [HbP HbR]. unfold mal_sha256_update.
  destruct (Z.ltb_spec 0 (block_len ctx)) as [Hpos|Hz].
  2: { destruct R; [|unfold arr_len in HR; simpl in HR; lia]. rewrite app_nil_r. by apply (update_blocks_ok ctx n). }
  set (t := if 64 - block_len ctx <? arr_len data then 64 - block_len ctx else arr_len data).
  assert (0 <= t /\ t <= arr_len data /\ t <= 64 - block_len ctx /\ (t < arr_len data -> t = 64 - block_len ctx)) as (Ht0 & Ht1 & Ht2 & Ht3).
  { unfold t. pose proof (arr_len_nonneg data). destruct (Z.ltb_spec (64 - block_len ctx) (arr_len data)); lia. }
  set (D := take (Z.to_nat t) data). assert (arr_len D = t) as HD by (unfold D, arr_len in *; rewrite length_take; lia).
  set (rest := drop (length R) (block ctx)). assert (block ctx = R ++ take (length D) rest ++ drop (length D) rest) as Eb.
  { rewrite take_drop. rewrite <- HT at 1. unfold rest. by rewrite take_drop. }
  assert (length rest = (64 - length R)%nat) as Hrest by (unfold rest; rewrite length_drop; lia).
  rewrite Eb, (block_write_in R _ D _ (block_len ctx) HR) by (rewrite length_take; unfold arr_len in *; lia). cbn [mbind outcome_bind].
  set (b := R ++ D ++ drop (length D) rest). assert (length b = 64%nat) as Hlb by (unfold b; rewrite !length_app, length_drop; unfold arr_len in *; lia).
  destruct (Z.ltb_spec (block_len ctx + t) 64) as [Hlt|Hfull].
  - eexists. split; [done|]. assert (D = data) as -> by (unfold D; apply take_ge; unfold arr_len in *; lia). split; simpl; [lia|done|].
    exists n, P, (R ++ data). split; [by rewrite app_assoc|]. split; [done|]. split; [rewrite arr_len_app; lia|].
    split; [unfold b; by rewrite app_assoc, take_app_length|]. done.
  - assert (b = R ++ D) as Ebd by (unfold b; rewrite drop_ge by (unfold arr_len in *; lia); by rewrite app_nil_r).
    replace (arr_len data - t) with (arr_len (drop (Z.to_nat t) data)) by (unfold arr_len in *; rewrite length_drop; lia).
    replace ((P ++ R) ++ data) with ((P ++ b) ++ drop (Z.to_nat t) data) by (rewrite Ebd, <- !app_assoc; unfold D; by rewrite take_drop).
    assert (Forall byte_ok b) as Hbb by (rewrite Ebd; apply Forall_app; split; [done|by apply Forall_take]).
    apply (update_blocks_ok _ (n + 1)); cbn [block sha_state bit_len]; [done|rewrite length_app; lia|by apply Forall_app|by apply Forall_drop| |].
    + rewrite Hs. apply (H_after_app n 1); done.
    + rewrite Hbits. rewrite <- (bits_add n 1). reflexivity.
Qed.

Lemma output_ok s : length s = 8%nat -> concat (map (fun j => store_word (arr_get s j)) (seqZ 0 8)) = concat (map (be_bytes 4) s).
Proof using Type.
  intros Hl. change (seqZ 0 8) with [0; 1; 2; 3; 4; 5; 6; 7]. destruct s as [|? [|? [|? [|? [|? [|? [|? [|? [|]]]]]]]]]; try done. cbn [map]. rewrite !be_bytes_4. reflexivity.
Qed.
Lemma length_be8 x : length (be_bytes 8 x) = 8%nat.
Proof using Type. done. Qed.
Lemma be_bytes_byte n x : Forall byte_ok (be_bytes n x).
Proof using Type. unfold be_bytes. apply Forall_forall. intros y (k & -> & _)%list_elem_of_fmap. apply (wrap_range 8). lia. Qed.

(** The last blocks: what is left of the message and its padding. *)
Lemma fips_hash_parts n k P Q m : pad m = P ++ Q -> length P = (64 * n)%nat -> length Q = (64 * k)%nat -> Forall byte_ok P -> Forall byte_ok Q ->
  fips_hash MAL_SHA256_K sha256_H0 m = concat (map (fun j => store_word (arr_get (mal_sha256_blocks armv8 (H_after n P) Q (Z.of_nat k)) j)) (seqZ 0 8)).
Proof using Type.
  intros E HP HQ HbP HbQ. unfold fips_hash. rewrite E, length_app, HP, HQ.
  replace ((64 * n + 64 * k) / 64)%nat with (n + k)%nat by (rewrite <- Nat.mul_add_distr_l, Nat.mul_comm, Nat.div_mul; lia).
  rewrite (H_after_app n k) by done. rewrite output_ok; [done|]. apply H_after_ok. by apply Forall_app.
Qed.

Lemma zeros_byte n : Forall byte_ok (replicate n 0).
Proof using Type. apply Forall_replicate. unfold byte_ok, in_u. lia. Qed.

Lemma final_ok ctx m : ctx_ok ctx m -> Forall byte_ok m -> 8 * arr_len m < 2 ^ 64 ->
  mal_sha256_final armv8 ctx = Ret (fips_hash MAL_SHA256_K sha256_H0 m).
Proof using Type.
  intros [Hl Hb (n & P & R & Em & HP & HR & HT & Hs & Hbits)] Hm Hlen. pose proof Hm as HbPR. rewrite Em in HbPR. apply Forall_app in HbPR as [HbP HbR].
  unfold mal_sha256_final. set (r := length R). assert (block_len ctx = Z.of_nat r) as Er by (unfold arr_len in HR; lia). assert (r < 64)%nat as Hr by lia.
  assert (arr_len m = 64 * Z.of_nat n + Z.of_nat r) as Hlm by (rewrite Em, arr_len_app; unfold arr_len; rewrite HP; lia).
  assert (u64 (bit_len ctx + u64 (block_len ctx * 8)) = 8 * arr_len m) as ->.
  { rewrite Hbits, Er, Hlm. unfold u64, wrap. rewrite Zplus_mod_idemp_l, Zplus_mod_idemp_r, Z.mod_small; lia. }
  assert (exists x rest, block ctx = R ++ [x] ++ rest /\ length rest = (63 - r)%nat) as (x & rest & Eb & Hrest).
  { pose proof (take_drop r (block ctx)) as E. change (take r (block ctx) = R) in HT. rewrite HT in E. destruct (drop r (block ctx)) as [|x rest] eqn:Ed; [apply (f_equal length) in Ed; rewrite length_drop in Ed; simpl in Ed; lia|].
    exists x, rest. split; [done|]. apply (f_equal length) in Ed. rewrite length_drop in Ed. simpl in Ed. lia. }
  rewrite Eb, (block_write_in R [x] [0x80] rest (block_len ctx) HR) by done. cbn [mbind outcome_bind]. rewrite app_assoc. set (A := R ++ [0x80]).
  assert (arr_len A = block_len ctx + 1) as HA by (unfold A; rewrite arr_len_app, HR; done). assert (length A = (r + 1)%nat) as HA' by (unfold arr_len in HA; lia).
  assert (Forall byte_ok A) as HbA by (apply Forall_app; split; [done|]; repeat constructor; by vm_compute).
  pose proof (be_bytes_byte 8 (8 * arr_len m)) as HbL. assert (pad m = P ++ A ++ replicate (Z.to_nat ((55 - arr_len m) mod 64)) 0 ++ be_bytes 8 (8 * arr_len m)) as Epad.
  { unfold pad. rewrite Em at 1. unfold A. rewrite <- !app_assoc. done. }
  destruct (Z.ltb_spec 56 (block_len ctx + 1)) as [Hbig|Hsmall].
  - replace (Z.to_nat ((55 - arr_len m) mod 64)) with (63 - r + 56)%nat in Epad by (rewrite Hlm, Er in *; Z.to_euclidean_division_equations; lia).
    pose proof (zero_fill_ok (63 - r) 65 A rest [] (block_len ctx + 1) 64 ltac:(lia) HA Hrest ltac:(lia)) as Ez. rewrite !app_nil_r in Ez. rewrite Ez. cbn [mbind outcome_bind].
    set (B := A ++ replicate (63 - r) 0). assert (length B = 64%nat) as HB by (unfold B; rewrite length_app, length_replicate; lia).
    assert (Forall byte_ok B) as HbB by (apply Forall_app; split; [done|apply zeros_byte]).
    assert (zero_fill 65 B 0 56 = Ret (replicate 56 0 ++ drop 56 B, 56)) as ->.
    { rewrite <- (take_drop 56 B) at 1. apply (zero_fill_ok 56 65 [] (take 56 B) (drop 56 B) 0 56); [lia|done|rewrite length_take; lia|done]. }
    cbn [mbind outcome_bind app]. rewrite length_loop_ok by (rewrite ?length_replicate, ?length_drop; lia). cbn [mbind outcome_bind]. f_equal.
    rewrite Hs. pose proof (H_after_app n 1 P B HP HbP HbB) as E1. change (Z.of_nat 1) with 1 in E1. rewrite E1. symmetry.
    apply (fips_hash_parts (n + 1) 1 (P ++ B) (replicate 56 0 ++ be_bytes 8 (8 * arr_len m))).
    + rewrite Epad, replicate_add. unfold B. by rewrite <- !app_assoc.
    + rewrite length_app. lia.
    + done.
    + by apply Forall_app.
    + apply Forall_app. split; [apply zeros_byte|done].
  - replace (Z.to_nat ((55 - arr_len m) mod 64)) with (55 - r)%nat in Epad by (rewrite Hlm, Er in *; Z.to_euclidean_division_equations; lia).
    cbn [mbind outcome_bind]. rewrite <- (take_drop (55 - r) rest).
    rewrite (zero_fill_ok (55 - r) 65 A (take (55 - r) rest) (drop (55 - r) rest) (block_len ctx + 1) 56 ltac:(lia) HA) by (rewrite ?length_take; lia).
    cbn [mbind outcome_bind]. rewrite app_assoc, length_loop_ok by (rewrite ?length_app, ?length_replicate, ?length_drop; lia). cbn [mbind outcome_bind]. f_equal.
    rewrite Hs. symmetry. apply (fips_hash_parts n 1 P); [rewrite Epad; by rewrite <- !app_assoc|done| |done|].
    + rewrite !length_app, length_replicate, length_be8. lia.
    + apply Forall_app. split; [apply Forall_app; split; [done|apply zeros_byte]|done].
Qed.
End stream.

(** * Theorems *)

(** A digest: [init], an [update] per chunk, [final]. *)
Fixpoint sha256_updates (armv8 : bool) (chunks : list (list Z)) (ctx : MalSha256) : outcome MalSha256 :=
  match chunks with [] => Ret ctx | c :: chunks => ctx ← mal_sha256_update armv8 ctx c; sha256_updates armv8 chunks ctx end.
Definition sha256_digest (armv8 : bool) (raw_block : list Z) (chunks : list (list Z)) : outcome (list Z) :=
  ctx ← sha256_updates armv8 chunks (mal_sha256_init raw_block);
  mal_sha256_final armv8 ctx.

Lemma updates_ok armv8 chunks : forall ctx m, ctx_ok ctx m -> Forall byte_ok m -> Forall (Forall byte_ok) chunks ->
  exists ctx', sha256_updates armv8 chunks ctx = Ret ctx' /\ ctx_ok ctx' (m ++ concat chunks).
Proof.
  induction chunks as [|c chunks IH]; intros ctx m H Hm Hc; [exists ctx; simpl; by rewrite app_nil_r|].
  apply Forall_cons in Hc as [Hc Hcs]. destruct (update_ok armv8 ctx m c H Hm Hc) as (ctx1 & E & H1). cbn [sha256_updates concat]. rewrite E. cbn [mbind outcome_bind].
  rewrite app_assoc. apply IH; [done|by apply Forall_app|done].
Qed.

(** C22. The digest is SHA-256: whatever the chunks a message is fed in, empty and unaligned
    ones included, whatever the buffer held before, and on either build, the context returns
    the FIPS 180-4 hash of their concatenation, with its padding and its 64-bit length, and no
    write leaves the 64-byte buffer. The constants of the code are the fractional parts of
    the roots of primes that the standard names. *)
Theorem sha256_is_fips (armv8 : bool) (raw_block : list Z) (chunks : list (list Z)) :
  length raw_block = 64%nat -> Forall (Forall byte_ok) chunks -> 8 * arr_len (concat chunks) < 2 ^ 64 ->
  fips_constants MAL_SHA256_K sha256_H0 /\
  sha256_digest armv8 raw_block chunks = Ret (fips_hash MAL_SHA256_K sha256_H0 (concat chunks)).
Proof.
  intros Hraw Hc Hlen. split; [exact constants_ok|].
  destruct (updates_ok armv8 chunks (mal_sha256_init raw_block) []) as (ctx & E & H); [|constructor|done|].
  - split; simpl; [lia|done|]. by exists 0%nat, [], [].
  - unfold sha256_digest. rewrite E. cbn [mbind outcome_bind]. apply final_ok; [done|by apply Forall_concat|done].
Qed.

(** C23. The block function on the ARMv8 instructions, four rounds at a time over a ring of
    message vectors, computes what the portable loop computes, for every chaining value,
    every number of blocks and all data. *)
Theorem sha256_armv8_is_portable (s data : list Z) (blocks : Z) :
  length s = 8%nat -> mal_sha256_blocks true s data blocks = mal_sha256_blocks false s data blocks.
Proof.
  intros Hl. unfold mal_sha256_blocks, mal_sha256_compress_armv8.
  pose proof (armv8_loop_ok (Z.to_nat blocks) data (vld1q_u32 s 0) (vld1q_u32 s 4)) as H. destruct (armv8_loop _ _ _ _) as [x y].
  change ([v0 x; v1 x; v2 x; v3 x; v0 y; v1 y; v2 y; v3 y]) with (vec_list x y). rewrite H. f_equal.
  by destruct s as [|? [|? [|? [|? [|? [|? [|? [|? [|]]]]]]]]].
Qed.

Module ShaDemo.
Definition raw : list Z := map (fun i => i) (seqZ 0 64).
Definition abc : list (list Z) := [[0x61]; []; [0x62; 0x63]].

(** The test vector of the standard. *)
Lemma sha256_is_fips_witness :
  sha256_digest true raw abc = Ret (fips_hash MAL_SHA256_K sha256_H0 [0x61; 0x62; 0x63]) /\
  fips_hash MAL_SHA256_K sha256_H0 [0x61; 0x62; 0x63] =
    [0xba; 0x78; 0x16; 0xbf; 0x8f; 0x01; 0xcf; 0xea; 0x41; 0x41; 0x40; 0xde; 0x5d; 0xae; 0x22; 0x23;
     0xb0; 0x03; 0x61; 0xa3; 0x96; 0x17; 0x7a; 0x9c; 0xb4; 0x10; 0xff; 0x61; 0xf2; 0x00; 0x15; 0xad].
Proof.
  destruct (sha256_is_fips true raw abc) as [_ E]; [reflexivity|repeat constructor; vm_compute; congruence|reflexivity|].
  change (concat abc) with [0x61; 0x62; 0x63] in E. split; [exact E|].
  assert (forall a b : list Z, Ret a = Ret b -> a = b) as Hinj by (intros a b H; by injection H).
  apply Hinj. rewrite <- E. vm_compute. reflexivity.
Defined.

Lemma sha256_armv8_is_portable_witness :
  mal_sha256_blocks true sha256_H0 (replicate 128 0x61) 2 = mal_sha256_blocks false sha256_H0 (replicate 128 0x61) 2.
Proof. apply sha256_armv8_is_portable. reflexivity. Defined.
End ShaDemo.
