(* ===== verification/Float16.v ===== *)
(** Half-precision conversion, runtime/src/float16.c: binary64 to binary16 with rounding to
    nearest, ties to even, and back. Doubles are their bits. The theorems compare magnitudes
    in units of 2^-1074, the least positive double. *)

From S2P Require Import Prelude.

Definition MAL_FLOAT16_CANONICAL_NAN_BITS : Z := 0x7E00.

Definition mal_float16_round_shift (value shift : Z) : Z :=
  let truncated := Z.shiftr value shift in
  let remainder_mask := u64 (Z.shiftl 1 shift) - 1 in
  let remainder := Z.land value remainder_mask in
  let halfway := u64 (Z.shiftl 1 (shift - 1)) in
  if (halfway <? remainder) || ((remainder =? halfway) && negb (Z.land truncated 1 =? 0)) then u64 (truncated + 1) else truncated.

Definition mal_float16_f64_to_bits (bits : Z) : Z :=
  let sign := u16 (Z.land (Z.shiftr bits 48) 0x8000) in
  let exponent_bits := u32 (Z.land (Z.shiftr bits 52) 0x7FF) in
  let fraction := Z.land bits 0x000FFFFFFFFFFFFF in
  if exponent_bits =? 0x7FF then if fraction =? 0 then u16 (Z.lor sign 0x7C00) else MAL_FLOAT16_CANONICAL_NAN_BITS
  else if exponent_bits =? 0 then sign
  else
    let exponent := exponent_bits - 1023 in
    let significand := Z.lor 0x0010000000000000 fraction in
    if exponent <? -25 then sign
    else if exponent <? -14 then u16 (Z.lor sign (u16 (mal_float16_round_shift significand (u32 (28 - exponent)))))
    else if 15 <? exponent then u16 (Z.lor sign 0x7C00)
    else
      let rounded := mal_float16_round_shift significand 42 in
      let half_exponent := u32 (u32 exponent + 15) in
      let '(rounded, half_exponent) := if rounded =? 0x800 then (0x400, u32 (half_exponent + 1)) else (rounded, half_exponent) in
      if 0x1F <=? half_exponent then u16 (Z.lor sign 0x7C00)
      else u16 (Z.lor (Z.lor sign (u16 (Z.shiftl half_exponent 10))) (u16 (Z.land rounded 0x3FF))).

(** The index of the leading bit. *)
Fixpoint leading_loop (fuel : nat) (value leading : Z) : outcome Z :=
  match fuel with
  | O => NoFuel
  | S fuel => if 1 <? value then leading_loop fuel (Z.shiftr value 1) (u32 (leading + 1)) else Ret leading
  end.
Definition mal_float16_bits_to_f64 (bits : Z) : outcome Z :=
  let sign := u64 (Z.shiftl (Z.land bits 0x8000) 48) in
  let exponent := Z.land (Z.shiftr bits 10) 0x1F in
  let fraction := Z.land bits 0x3FF in
  if exponent =? 0 then
    if fraction =? 0 then Ret sign
    else
      leading ← leading_loop 11 fraction 0;
      let double_exponent := u32 (leading + 999) in
      let double_fraction := u64 (Z.shiftl (u32 (fraction - u32 (Z.shiftl 1 leading))) (52 - leading)) in
      Ret (Z.lor (Z.lor sign (u64 (Z.shiftl double_exponent 52))) double_fraction)
  else if exponent =? 0x1F then Ret (if fraction =? 0 then Z.lor sign 0x7FF0000000000000 else 0x7FF8000000000000)
  else
    let double_exponent := u64 (exponent - 15 + 1023) in
    Ret (Z.lor (Z.lor sign (u64 (Z.shiftl double_exponent 52))) (u64 (Z.shiftl fraction 42))).

(** * What the bits mean *)

(** The magnitude of a finite double, in units of 2^-1074. *)
Definition f64_mag (bits : Z) : Z :=
  let e := bits / 2 ^ 52 mod 2 ^ 11 in
  let f := bits mod 2 ^ 52 in
  if e =? 0 then f else (2 ^ 52 + f) * 2 ^ (e - 1).
(** The magnitude of the half whose bits without the sign are [h], in units of 2^-24. The
    next one after the largest finite half, 0x7C00, is where 65536 would be. *)
Definition half_mag (h : Z) : Z := if h <? 1024 then h else (1024 + h mod 1024) * 2 ^ (h / 1024 - 1).
Definition half_in_f64 (h : Z) : Z := half_mag h * 2 ^ 1050.

(** [h] is a nearest half, and the even one of two. *)
Definition nearest_even (x h : Z) : Prop :=
  0 <= h <= 0x7C00 /\
  forall h', 0 <= h' <= 0x7C00 -> h' <> h ->
    Z.abs (half_in_f64 h - x) < Z.abs (half_in_f64 h' - x) \/ (Z.abs (half_in_f64 h - x) = Z.abs (half_in_f64 h' - x) /\ Z.even h = true).

(** * Halves in order *)

Lemma half_mag_fields e f : 1 <= e -> 0 <= f < 1024 -> half_mag (1024 * e + f) = (1024 + f) * 2 ^ (e - 1).
Proof.
  intros He Hf. unfold half_mag. destruct (Z.ltb_spec (1024 * e + f) 1024); [lia|].
  assert ((1024 * e + f) mod 1024 = f) as -> by (Z.to_euclidean_division_equations; lia).
  assert ((1024 * e + f) / 1024 = e) as -> by (Z.to_euclidean_division_equations; lia). done.
Qed.
Lemma half_mag_sub h : 0 <= h <= 2048 -> half_mag h = h.
Proof.
  intros Hh. destruct (decide (h < 1024)); [unfold half_mag; destruct (Z.ltb_spec h 1024); [done|lia]|].
  destruct (decide (h = 2048)) as [->|]; [done|]. replace h with (1024 * 1 + (h - 1024)) at 1 by lia. rewrite half_mag_fields by lia. change (2 ^ (1 - 1)) with 1. lia.
Qed.
(** One step up: an ulp of the binade of [h]. *)
Lemma half_mag_succ e f : 1 <= e -> 0 <= f < 1024 -> half_mag (1024 * e + f + 1) = (1024 + f + 1) * 2 ^ (e - 1).
Proof.
  intros He Hf. destruct (decide (f = 1023)) as [->|]; [|rewrite <- Z.add_assoc, half_mag_fields by lia; f_equal; lia].
  replace (1024 * e + 1023 + 1) with (1024 * (e + 1) + 0) by lia. rewrite half_mag_fields by lia.
  replace (e + 1 - 1) with (Z.succ (e - 1)) by lia. rewrite Z.pow_succ_r by lia. lia.
Qed.
Lemma half_mag_lt h : 0 <= h -> half_mag h < half_mag (h + 1).
Proof.
  intros Hh. destruct (decide (h < 1024)); [rewrite !half_mag_sub by lia; lia|].
  assert (h = 1024 * (h / 1024) + h mod 1024) as E by (apply Z.div_mod; lia). assert (1 <= h / 1024) by (Z.to_euclidean_division_equations; lia).
  assert (0 <= h mod 1024 < 1024) by (apply Z.mod_pos_bound; lia). rewrite E, half_mag_succ, half_mag_fields by lia.
  assert (0 < 2 ^ (h / 1024 - 1)) by (apply Z.pow_pos_nonneg; lia). nia.
Qed.
Lemma half_mag_mono a b : 0 <= a -> a < b -> half_mag a < half_mag b.
Proof.
  intros Ha Hab. replace b with (a + 1 + Z.of_nat (Z.to_nat (b - a - 1))) by lia. generalize (Z.to_nat (b - a - 1)). intros n.
  induction n as [|n IH]; [rewrite Z.add_0_r; by apply half_mag_lt|]. pose proof (half_mag_lt (a + 1 + Z.of_nat n) ltac:(lia)).
  replace (a + 1 + Z.of_nat (S n)) with (a + 1 + Z.of_nat n + 1) by lia. lia.
Qed.
Lemma half_f64_mono a b : 0 <= a -> a < b -> half_in_f64 a < half_in_f64 b.
Proof. intros Ha Hab. unfold half_in_f64. apply Z.mul_lt_mono_pos_r; [apply Z.pow_pos_nonneg; lia|by apply half_mag_mono]. Qed.

(** Nearest among all follows from nearest of the two neighbours. *)
Lemma nearest_neighbours x h : 0 <= h <= 0x7C00 ->
  (0 < h -> half_in_f64 (h - 1) + half_in_f64 h <= 2 * x /\ (half_in_f64 (h - 1) + half_in_f64 h = 2 * x -> Z.even h = true)) ->
  (h < 0x7C00 -> 2 * x <= half_in_f64 h + half_in_f64 (h + 1) /\ (2 * x = half_in_f64 h + half_in_f64 (h + 1) -> Z.even h = true)) ->
  nearest_even x h.
Proof.
  intros Hh Hlo Hup. split; [done|]. intros h' Hh' Hne. destruct (decide (h' < h)).
  - destruct Hlo as [Hlo Htie]; [lia|]. assert (half_in_f64 h' <= half_in_f64 (h - 1)).
    { destruct (decide (h' = h - 1)) as [->|]; [lia|]. pose proof (half_f64_mono h' (h - 1)). lia. }
    pose proof (half_f64_mono (h - 1) h ltac:(lia) ltac:(lia)).
    destruct (decide (half_in_f64 (h - 1) + half_in_f64 h = 2 * x)) as [E|E]; [|left; lia].
    destruct (decide (half_in_f64 h' = half_in_f64 (h - 1))); [right; split; [lia|auto]|left; lia].
  - destruct Hup as [Hup Htie]; [lia|]. assert (half_in_f64 (h + 1) <= half_in_f64 h').
    { destruct (decide (h' = h + 1)) as [->|]; [lia|]. pose proof (half_f64_mono (h + 1) h'). lia. }
    pose proof (half_f64_mono h (h + 1) ltac:(lia) ltac:(lia)).
    destruct (decide (2 * x = half_in_f64 h + half_in_f64 (h + 1))) as [E|E]; [|left; lia].
    destruct (decide (half_in_f64 h' = half_in_f64 (h + 1))); [right; split; [lia|auto]|left; lia].
Qed.

(** * Rounding *)

(** [q] is the integer nearest to [v / u], the even one of two. *)
Definition rounds (v u q : Z) : Prop := u * (2 * q - 1) <= 2 * v <= u * (2 * q + 1) /\ (u * (2 * q - 1) = 2 * v \/ 2 * v = u * (2 * q + 1) -> Z.even q = true).

Lemma rounds_scale v u q k : 0 < k -> rounds v u q -> rounds (v * k) (u * k) q.
Proof.
  intros Hk [H1 H2]. split; [nia|]. intros H. apply H2.
  assert (k * (u * (2 * q - 1)) = k * (2 * v) \/ k * (2 * v) = k * (u * (2 * q + 1))) as [E|E] by (destruct H; [left|right]; lia);
    apply Z.mul_reg_l in E; [by left|lia|by right|lia].
Qed.

Lemma round_shift_ok v s : 0 < s < 64 -> 0 <= v < 2 ^ 53 -> rounds v (2 ^ s) (mal_float16_round_shift v s) /\ v / 2 ^ s <= mal_float16_round_shift v s <= v / 2 ^ s + 1.
Proof.
  intros Hs Hv. unfold mal_float16_round_shift, u64. assert (2 ^ s < 2 ^ 64) by (apply Z.pow_lt_mono_r; lia). assert (0 < 2 ^ (s - 1)) by (apply Z.pow_pos_nonneg; lia).
  assert (2 ^ s = 2 * 2 ^ (s - 1)) as E2 by (rewrite <- Z.pow_succ_r by lia; f_equal; lia). rewrite !Z.shiftl_mul_pow2, !Z.mul_1_l by lia.
  rewrite !(wrap_small 64 (2 ^ _)) by (unfold in_u; lia). rewrite Z.shiftr_div_pow2 by lia.
  replace (2 ^ s - 1) with (Z.ones s) by (rewrite Z.ones_equiv; lia). rewrite Z.land_ones by lia. change (Z.land (v / 2 ^ s) 1) with (Z.land (v / 2 ^ s) (Z.ones 1)). rewrite (Z.land_ones (v / 2 ^ s)) by lia. change (2 ^ 1) with 2.
  assert (v = 2 ^ s * (v / 2 ^ s) + v mod 2 ^ s) as Edm by (apply Z.div_mod; lia). pose proof (Z.mod_pos_bound v (2 ^ s) ltac:(lia)) as Hr.
  assert (0 <= v / 2 ^ s < 2 ^ 53) as Hq by (split; [apply Z.div_pos; lia|apply Z.div_lt_upper_bound; nia]).
  set (q := v / 2 ^ s) in *. set (r := v mod 2 ^ s) in *. set (h := 2 ^ (s - 1)) in *. rewrite E2 in *. clearbody q r h. clear E2.
  assert (Z.even q = (q mod 2 =? 0)) as Hev by (rewrite Zmod_even; by destruct (Z.even q)).
  assert (Z.even (q + 1) = negb (Z.even q)) as Hev1 by (rewrite Z.add_1_r, Z.even_succ, <- Z.negb_even; done).
  rewrite wrap_small by (unfold in_u; lia). rewrite <- Hev. unfold rounds.
  destruct (Z.ltb_spec h r); [cbn [orb]; split; [split; [nia|]|lia]; intros [E|E]; exfalso; nia|].
  destruct (Z.eqb_spec r h) as [->|]; [|cbn [orb andb]; split; [split; [nia|]|lia]; intros [E|E]; exfalso; nia].
  destruct (Z.even q) eqn:Eq; cbn [orb andb negb]; (split; [split; [nia|]|lia]); intros _; by rewrite ?Hev1, ?Eq.
Qed.

(** * Fields *)

Lemma half_mag_up e f : 1 <= e -> 0 <= f <= 1024 -> half_mag (1024 * e + f) = (1024 + f) * 2 ^ (e - 1).
Proof.
  intros He Hf. destruct (decide (f = 1024)) as [->|]; [|apply half_mag_fields; lia].
  replace (1024 * e + 1024) with (1024 * e + 1023 + 1) by lia. by rewrite half_mag_succ by lia.
Qed.

Lemma top_bit a n : 0 <= n -> 0 <= a < 2 ^ (n + 1) -> Z.land a (2 ^ n) = a / 2 ^ n * 2 ^ n.
Proof.
  intros Hn Ha. rewrite <- Z.shiftr_div_pow2, <- Z.shiftl_mul_pow2, <- Z.ldiff_ones_r by lia. apply Z.bits_inj'. intros i Hi.
  rewrite Z.land_spec, Z.ldiff_spec, Z.testbit_ones, Z.pow2_bits_eqb by lia. destruct (Z.leb_spec 0 i); [|lia]. cbn [andb].
  destruct (Z.ltb_spec i n); [destruct (Z.eqb_spec n i); [lia|by rewrite !andb_false_r]|].
  destruct (Z.eqb_spec n i) as [->|]; [done|]. rewrite andb_false_r, andb_true_r. symmetry. rewrite <- (Z.mod_small a (2 ^ (n + 1))) by lia. apply Z.mod_pow2_bits_high. lia.
Qed.

Section fields.
Variable bits : Z.
Hypothesis Hbits : in_u 64 bits.
Let s := bits / 2 ^ 63.
Let e := bits / 2 ^ 52 mod 2 ^ 11.
Let f := bits mod 2 ^ 52.

Lemma field_ranges : 0 <= s <= 1 /\ 0 <= e < 2 ^ 11 /\ 0 <= f < 2 ^ 52.
Proof using Hbits.
  unfold s, e, f, in_u in *. split; [|split; apply Z.mod_pos_bound; lia]. split; [apply Z.div_pos; lia|].
  assert (bits / 2 ^ 63 < 2); [apply Z.div_lt_upper_bound; lia|lia].
Qed.
Lemma sign_field : u16 (Z.land (Z.shiftr bits 48) 0x8000) = s * 2 ^ 15.
Proof using Hbits.
  pose proof field_ranges as (Hs & _). rewrite Z.shiftr_div_pow2 by lia. change 0x8000 with (2 ^ 15). rewrite top_bit; [|lia|].
  - rewrite Z.div_div by lia. change (2 ^ 48 * 2 ^ 15) with (2 ^ 63). fold s. apply wrap_small. unfold in_u. lia.
  - unfold in_u in Hbits. split; [apply Z.div_pos; lia|apply Z.div_lt_upper_bound; lia].
Qed.
Lemma exponent_field : u32 (Z.land (Z.shiftr bits 52) 0x7FF) = e.
Proof using Hbits.
  pose proof field_ranges as (_ & He & _). rewrite Z.shiftr_div_pow2 by lia. change 0x7FF with (Z.ones 11). rewrite Z.land_ones by lia. apply wrap_small. unfold in_u. lia.
Qed.
Lemma fraction_field : Z.land bits 0x000FFFFFFFFFFFFF = f.
Proof using Type. change 0x000FFFFFFFFFFFFF with (Z.ones 52). by rewrite Z.land_ones by lia. Qed.
Lemma significand_field : Z.lor 0x0010000000000000 f = 2 ^ 52 + f.
Proof using Hbits.
  pose proof field_ranges as (_ & _ & Hf). change 0x0010000000000000 with (Z.shiftl 1 52). rewrite lor_shiftl_add' by lia. lia.
Qed.
(** The sign over the bits of a half. *)
Lemma with_sign h : 0 <= h < 2 ^ 15 -> u16 (Z.lor (s * 2 ^ 15) h) = s * 2 ^ 15 + h.
Proof using Hbits.
  intros Hh. pose proof field_ranges as (Hs & _). rewrite <- (Z.shiftl_mul_pow2 s 15), lor_shiftl_add' by lia. rewrite Z.shiftl_mul_pow2 by lia. unfold u16. rewrite wrap_small by (unfold in_u; lia). lia.
Qed.
End fields.

(** * To binary16 *)

(** A rounded multiple of a binade's ulp is a nearest half. *)
Lemma nearest_normal x he q (V := 2 ^ (he - 1) * 2 ^ 1050) :
  1 <= he <= 30 -> 1024 <= q <= 2048 -> 1024 * V <= x -> rounds x V q -> nearest_even x (1024 * he + (q - 1024)).
Proof.
  intros Hhe Hq Hx [[HR1 HR2] HR3]. assert (0 < 2 ^ (he - 1)) as Hp by (apply Z.pow_pos_nonneg; lia).
  assert (forall f, 0 <= f <= 1024 -> half_in_f64 (1024 * he + f) = (1024 + f) * V) as HF.
  { intros f Hf. unfold half_in_f64, V. rewrite half_mag_up by lia. by rewrite Z.mul_assoc. }
  assert (half_in_f64 (1024 * he + 1025) = 2050 * V) as HF2.
  { replace (1024 * he + 1025) with (1024 * (he + 1) + 1) by lia. unfold half_in_f64, V. rewrite half_mag_fields by lia.
    replace (he + 1 - 1) with (Z.succ (he - 1)) by lia. rewrite Z.pow_succ_r by lia. lia. }
  assert (0 < V) as HV by (unfold V; apply Z.mul_pos_pos; [done|apply Z.pow_pos_nonneg; lia]).
  assert (Z.even (1024 * he + (q - 1024)) = Z.even q) as Hev by (rewrite Z.even_add, Z.even_sub, Z.even_mul; simpl; by destruct (Z.even q)).
  pose proof (half_f64_mono (1024 * he - 1) (1024 * he + 0) ltac:(lia) ltac:(lia)) as Hbelow. clearbody V.
  apply nearest_neighbours; [lia| |]; intros Hb; rewrite Hev.
  - rewrite (HF (q - 1024)) by lia. destruct (decide (q = 1024)) as [->|].
    + replace (1024 * he + (1024 - 1024) - 1) with (1024 * he - 1) by lia. rewrite (HF 0) in Hbelow by lia. split; [lia|]. intros E. lia.
    + replace (1024 * he + (q - 1024) - 1) with (1024 * he + (q - 1025)) by lia. rewrite HF by lia. split; [lia|]. intros E. apply HR3. left. lia.
  - rewrite (HF (q - 1024)) by lia. destruct (decide (q = 2048)) as [->|].
    + replace (1024 * he + (2048 - 1024) + 1) with (1024 * he + 1025) by lia. rewrite HF2. split; [lia|]. intros E. lia.
    + replace (1024 * he + (q - 1024) + 1) with (1024 * he + (q - 1023)) by lia. rewrite HF by lia. split; [lia|]. intros E. apply HR3. right. lia.
Qed.

Lemma nearest_subnormal x q : 0 <= q <= 1024 -> rounds x (2 ^ 1050) q -> nearest_even x q.
Proof.
  intros Hq [[HR1 HR2] HR3]. assert (forall h, 0 <= h <= 2048 -> half_in_f64 h = h * 2 ^ 1050) as HF by (intros h Hh; unfold half_in_f64; by rewrite half_mag_sub).
  revert HF HR1 HR2 HR3. generalize (2 ^ 1050). intros U HF HR1 HR2 HR3. apply nearest_neighbours; [lia| |]; intros Hb; rewrite !HF by lia; (split; [lia|]); intros E; apply HR3; [left|right]; lia.
Qed.
Lemma nearest_zero x : 0 <= x -> 2 * x < 2 ^ 1050 -> nearest_even x 0.
Proof.
  intros Hx Hlt. apply nearest_subnormal; [lia|]. revert Hlt. generalize (2 ^ 1050). intros U HU. split; [lia|]. intros _. done.
Qed.
Lemma nearest_overflow x : 2 ^ 1090 <= x -> nearest_even x 0x7C00.
Proof.
  intros Hx. assert (half_in_f64 0x7C00 = 2 ^ 1090) as E by (vm_compute; reflexivity). pose proof (half_f64_mono (0x7C00 - 1) 0x7C00 ltac:(lia) ltac:(lia)).
  rewrite E in *. apply nearest_neighbours; [lia| |lia]. intros _. rewrite E. split; [lia|]. intros _. done.
Qed.

Lemma to_bits_ok bits : in_u 64 bits -> bits / 2 ^ 52 mod 2 ^ 11 <> 0x7FF ->
  exists h, mal_float16_f64_to_bits bits = bits / 2 ^ 63 * 2 ^ 15 + h /\ nearest_even (f64_mag bits) h.
Proof.
  intros Hb Hfin. pose proof (field_ranges bits Hb) as (Hs & He & Hf). unfold mal_float16_f64_to_bits, f64_mag.
  rewrite (sign_field bits Hb), (exponent_field bits Hb), (fraction_field bits), (significand_field bits Hb).
  set (s := bits / 2 ^ 63) in *. set (e := bits / 2 ^ 52 mod 2 ^ 11) in *. set (f := bits mod 2 ^ 52) in *.
  assert (forall h, 0 <= h < 2 ^ 15 -> u16 (Z.lor (s * 2 ^ 15) h) = s * 2 ^ 15 + h) as Hsign by (intros h; apply (with_sign bits Hb)). clearbody s e f.
  destruct (Z.eqb_spec e 0x7FF); [done|]. destruct (Z.eqb_spec e 0) as [->|He0].
  { exists 0. split; [lia|]. apply nearest_zero; [lia|]. assert (2 ^ 53 < 2 ^ 1050) by (apply Z.pow_lt_mono_r; lia). lia. }
  assert (2 ^ 52 * 2 ^ (e - 1) <= (2 ^ 52 + f) * 2 ^ (e - 1) < 2 ^ 53 * 2 ^ (e - 1)) as Hx.
  { assert (0 < 2 ^ (e - 1)) by (apply Z.pow_pos_nonneg; lia). split; [apply Z.mul_le_mono_nonneg_r; lia|apply Z.mul_lt_mono_pos_r; lia]. }
  assert (0 < 2 ^ (e - 1)) as Hpos by (apply Z.pow_pos_nonneg; lia).
  rewrite <- !Z.pow_add_r in Hx by lia. set (x := (2 ^ 52 + f) * 2 ^ (e - 1)) in *.
  destruct (Z.ltb_spec (e - 1023) (-25)).
  { exists 0. split; [lia|]. apply nearest_zero; [nia|]. assert (2 ^ (53 + (e - 1)) <= 2 ^ 1049) by (apply Z.pow_le_mono_r; lia).
    assert (2 ^ 1050 = 2 * 2 ^ 1049) as -> by (vm_compute; reflexivity). lia. }
  destruct (Z.ltb_spec (e - 1023) (-14)).
  { assert (u32 (28 - (e - 1023)) = 1051 - e) as -> by (unfold u32; rewrite wrap_small by (unfold in_u; lia); lia).
    destruct (round_shift_ok (2 ^ 52 + f) (1051 - e)) as [HR Hq]; [lia|lia|]. set (q := mal_float16_round_shift _ _) in *.
    assert ((2 ^ 52 + f) / 2 ^ (1051 - e) < 1024).
    { apply Z.div_lt_upper_bound; [apply Z.pow_pos_nonneg; lia|]. assert (2 ^ 43 <= 2 ^ (1051 - e)) by (apply Z.pow_le_mono_r; lia). lia. }
    assert (0 <= (2 ^ 52 + f) / 2 ^ (1051 - e)) by (apply Z.div_pos; [lia|apply Z.pow_pos_nonneg; lia]).
    exists q. assert (u16 q = q) as -> by (apply wrap_small; unfold in_u; lia). split; [apply Hsign; lia|]. apply nearest_subnormal; [lia|].
    apply (rounds_scale _ _ _ (2 ^ (e - 1)) Hpos) in HR. rewrite <- Z.pow_add_r in HR by lia. by replace (1051 - e + (e - 1)) with 1050 in HR by lia. }
  destruct (Z.ltb_spec 15 (e - 1023)).
  { exists 0x7C00. split; [apply Hsign; lia|]. apply nearest_overflow. assert (2 ^ 1090 <= 2 ^ (52 + (e - 1))) by (apply Z.pow_le_mono_r; lia). lia. }
  destruct (round_shift_ok (2 ^ 52 + f) 42) as [HR Hq]; [lia|lia|]. set (q := mal_float16_round_shift _ _) in *.
  assert (1024 <= (2 ^ 52 + f) / 2 ^ 42 < 2048) as Hq2 by (split; [apply Z.div_le_lower_bound; lia|apply Z.div_lt_upper_bound; lia]).
  assert (u32 (u32 (e - 1023) + 15) = e - 1008) as ->.
  { unfold u32, wrap. rewrite Zplus_mod_idemp_l, Z.mod_small; lia. }
  exists (1024 * (e - 1008) + (q - 1024)). split.
  - clear HR. clearbody q x. assert (q <= 2048) by lia.
    assert (forall he r, 0 <= he < 31 -> 0 <= r < 1024 -> u16 (Z.lor (Z.lor (s * 2 ^ 15) (u16 (Z.shiftl he 10))) (u16 r)) = s * 2 ^ 15 + (1024 * he + r)) as Hjoin.
    { intros he r Hhe Hr. rewrite <- Z.lor_assoc. rewrite Z.shiftl_mul_pow2 by lia.
      assert (u16 (he * 2 ^ 10) = he * 2 ^ 10) as -> by (apply wrap_small; unfold in_u; lia). assert (u16 r = r) as -> by (apply wrap_small; unfold in_u; lia).
      rewrite <- (Z.shiftl_mul_pow2 he 10), lor_shiftl_add' by lia. rewrite Hsign by lia. lia. }
    destruct (Z.eqb_spec q 0x800) as [->|].
    + assert (u32 (e - 1008 + 1) = e - 1007) as -> by (unfold u32; rewrite wrap_small by (unfold in_u; lia); lia). destruct (Z.leb_spec 31 (e - 1007)).
      * replace (e - 1008) with 30 by lia. apply Hsign. lia.
      * change (Z.land 1024 1023) with 0. rewrite Hjoin by lia. lia.
    + destruct (Z.leb_spec 31 (e - 1008)); [lia|]. change 0x3FF with (Z.ones 10). rewrite Z.land_ones by lia. change (2 ^ 10) with 1024.
      replace (q mod 1024) with (q - 1024) by (Z.to_euclidean_division_equations; lia). apply Hjoin; lia.
  - assert (2 ^ (e - 1008 - 1) * 2 ^ 1050 = 2 ^ 42 * 2 ^ (e - 1)) as EV by (rewrite <- !Z.pow_add_r by lia; f_equal; lia).
    apply nearest_normal; [lia|lia| |].
    + rewrite EV. change 1024 with (2 ^ 10). rewrite Z.mul_assoc, <- !Z.pow_add_r by lia. replace (10 + 42 + (e - 1)) with (52 + (e - 1)) by lia. lia.
    + rewrite EV. by apply rounds_scale.
Qed.

(** * From binary16 *)

Lemma leading_loop_ok fuel : forall v l, 1 <= v < 2 ^ Z.of_nat fuel -> 0 <= l -> l + Z.of_nat fuel < 100 -> leading_loop fuel v l = Ret (l + Z.log2 v).
Proof.
  induction fuel as [|fuel IH]; intros v l Hv Hl Hf; [simpl in Hv; lia|]. cbn [leading_loop]. destruct (Z.ltb_spec 1 v).
  - rewrite Nat2Z.inj_succ, Z.pow_succ_r in Hv by lia. unfold u32. rewrite wrap_small by (unfold in_u; lia).
    assert (Z.log2 v = Z.log2 (Z.shiftr v 1) + 1) as E by (rewrite Z.log2_shiftr by lia; pose proof (Z.log2_pos v ltac:(lia)); lia).
    rewrite IH; [f_equal; lia| |lia|lia]. rewrite Z.shiftr_div_pow2 by lia. change (2 ^ 1) with 2. split; [apply Z.div_le_lower_bound; lia|apply Z.div_lt_upper_bound; lia].
  - assert (v = 1) as -> by lia. change (Z.log2 1) with 0. by rewrite Z.add_0_r.
Qed.

(** A double from its fields. *)
Lemma f64_fields s E F : 0 <= s <= 1 -> 0 <= E < 2 ^ 11 -> 0 <= F < 2 ^ 52 ->
  let d := s * 2 ^ 63 + E * 2 ^ 52 + F in
  in_u 64 d /\ d / 2 ^ 63 = s /\ d / 2 ^ 52 mod 2 ^ 11 = E /\ d mod 2 ^ 52 = F.
Proof.
  intros Hs HE HF d. assert (d / 2 ^ 52 = s * 2 ^ 11 + E) as E52.
  { symmetry. apply (Z.div_unique d (2 ^ 52) _ F); [left; lia|unfold d; lia]. }
  split; [unfold in_u, d; lia|]. split; [symmetry; apply (Z.div_unique d (2 ^ 63) _ (E * 2 ^ 52 + F)); [left; lia|unfold d; lia]|].
  split; [rewrite E52; symmetry; apply (Z.mod_unique _ _ s); [left; lia|lia]|]. symmetry. apply (Z.mod_unique _ _ (s * 2 ^ 11 + E)); [left; lia|unfold d; lia].
Qed.
Lemma f64_mag_fields s E F : 0 <= s <= 1 -> 0 < E < 2 ^ 11 -> 0 <= F < 2 ^ 52 -> f64_mag (s * 2 ^ 63 + E * 2 ^ 52 + F) = (2 ^ 52 + F) * 2 ^ (E - 1).
Proof.
  intros Hs HE HF. destruct (f64_fields s E F) as (_ & _ & H1 & H2); [lia|lia|lia|]. unfold f64_mag. rewrite H1, H2. destruct (Z.eqb_spec E 0); [lia|done].
Qed.
Lemma join_f64 s E F : 0 <= s <= 1 -> 0 <= E < 2 ^ 11 -> 0 <= F < 2 ^ 52 -> Z.lor (Z.lor (s * 2 ^ 63) (u64 (Z.shiftl E 52))) F = s * 2 ^ 63 + E * 2 ^ 52 + F.
Proof.
  intros Hs HE HF. unfold u64. rewrite wrap_small by (unfold in_u; rewrite Z.shiftl_mul_pow2 by lia; lia).
  rewrite <- Z.lor_assoc, lor_shiftl_add' by lia. rewrite <- (Z.shiftl_mul_pow2 s 63), lor_shiftl_add' by lia. rewrite Z.shiftl_mul_pow2 by lia. lia.
Qed.

(** The doubles of the halves. *)
Definition widens (b d : Z) : Prop :=
  in_u 64 d /\
  let h := b mod 2 ^ 15 in
  if h <? 0x7C00 then d / 2 ^ 63 = b / 2 ^ 15 /\ d / 2 ^ 52 mod 2 ^ 11 <> 0x7FF /\ f64_mag d = half_in_f64 h
  else if h =? 0x7C00 then d = b / 2 ^ 15 * 2 ^ 63 + 0x7FF * 2 ^ 52 else d = 0x7FF8000000000000.

Lemma from_bits_ok b : in_u 16 b -> exists d, mal_float16_bits_to_f64 b = Ret d /\ widens b d.
Proof.
  intros Hb. unfold in_u in Hb. unfold mal_float16_bits_to_f64. set (s := b / 2 ^ 15). assert (0 <= s <= 1) as Hs by (unfold s; Z.to_euclidean_division_equations; lia).
  assert (u64 (Z.shiftl (Z.land b 0x8000) 48) = s * 2 ^ 63) as ->.
  { change 0x8000 with (2 ^ 15). rewrite top_bit by lia. fold s. rewrite Z.shiftl_mul_pow2 by lia. unfold u64. rewrite wrap_small by (unfold in_u; lia). lia. }
  set (e := b / 2 ^ 10 mod 2 ^ 5). set (f := b mod 2 ^ 10).
  assert (Z.land (Z.shiftr b 10) 0x1F = e) as -> by (rewrite Z.shiftr_div_pow2 by lia; apply (Z.land_ones (b / 2 ^ 10) 5); lia).
  assert (Z.land b 0x3FF = f) as -> by (apply (Z.land_ones b 10); lia).
  assert (0 <= e < 32 /\ 0 <= f < 1024 /\ b mod 2 ^ 15 = 1024 * e + f) as (He & Hf & Eh) by (unfold e, f; Z.to_euclidean_division_equations; lia).
  unfold widens. rewrite Eh. fold s. clearbody s e f. destruct (Z.eqb_spec e 0) as [->|He0].
  - destruct (Z.ltb_spec (1024 * 0 + f) 0x7C00); [|lia]. change (1024 * 0 + f) with f. destruct (Z.eqb_spec f 0) as [->|Hf0].
    + exists (s * 2 ^ 63 + 0 * 2 ^ 52 + 0). split; [f_equal; lia|]. destruct (f64_fields s 0 0) as (D1 & D2 & D3 & D4); [lia|lia|lia|]. split; [done|]. split; [done|].
      unfold f64_mag. rewrite D3, D4. done.
    + rewrite leading_loop_ok by (simpl; lia). rewrite Z.add_0_l. cbn [mbind outcome_bind]. set (L := Z.log2 f).
      pose proof (Z.log2_spec f ltac:(lia)) as HL. fold L in HL. assert (0 <= L < 10) as HL2 by (unfold L; split; [apply Z.log2_nonneg|apply Z.log2_lt_pow2; lia]).
      rewrite Z.pow_succ_r in HL by lia. assert (2 ^ L < 2 ^ 10) by (apply Z.pow_lt_mono_r; lia). rewrite (Z.shiftl_mul_pow2 1 L), Z.mul_1_l by lia.
      assert (forall z, 0 <= z < 2 ^ 32 -> u32 z = z) as Hu by (intros z; apply wrap_small). rewrite (Hu (2 ^ L)), (Hu (f - 2 ^ L)), (Hu (L + 999)) by lia.
      assert (2 ^ L * 2 ^ (52 - L) = 2 ^ 52) as E52 by (rewrite <- Z.pow_add_r by lia; f_equal; lia).
      assert (0 < 2 ^ (52 - L)) by (apply Z.pow_pos_nonneg; lia). rewrite (Z.shiftl_mul_pow2 (f - 2 ^ L)) by lia.
      assert (0 <= (f - 2 ^ L) * 2 ^ (52 - L) < 2 ^ 52) as HF by nia.
      assert (u64 ((f - 2 ^ L) * 2 ^ (52 - L)) = (f - 2 ^ L) * 2 ^ (52 - L)) as -> by (apply wrap_small; unfold in_u; lia).
      eexists. split; [done|]. rewrite join_f64 by lia. destruct (f64_fields s (L + 999) ((f - 2 ^ L) * 2 ^ (52 - L))) as (D1 & D2 & D3 & D4); [lia|lia|lia|].
      split; [done|]. split; [done|]. split; [rewrite D3; lia|]. rewrite f64_mag_fields by lia. unfold half_in_f64. rewrite half_mag_sub by lia.
      replace (2 ^ 52 + (f - 2 ^ L) * 2 ^ (52 - L)) with (f * 2 ^ (52 - L)) by lia. rewrite <- Z.mul_assoc, <- Z.pow_add_r by lia. f_equal. f_equal. lia.
  - destruct (Z.eqb_spec e 31) as [->|].
    + destruct (Z.ltb_spec (1024 * 31 + f) 0x7C00); [lia|]. destruct (Z.eqb_spec f 0) as [->|].
      * eexists. split; [done|]. rewrite <- (Z.shiftl_mul_pow2 s 63), lor_shiftl_add' by lia. split; [unfold in_u; lia|]. change (1024 * 31 + 0 =? 0x7C00) with true. cbv iota. rewrite Z.shiftl_mul_pow2 by lia. lia.
      * eexists. split; [done|]. split; [unfold in_u; lia|]. destruct (Z.eqb_spec (1024 * 31 + f) 0x7C00); [lia|done].
    + destruct (Z.ltb_spec (1024 * e + f) 0x7C00); [|lia]. assert (u64 (e - 15 + 1023) = e + 1008) as -> by (unfold u64; rewrite wrap_small by (unfold in_u; lia); lia).
      rewrite (Z.shiftl_mul_pow2 f) by lia. assert (u64 (f * 2 ^ 42) = f * 2 ^ 42) as -> by (apply wrap_small; unfold in_u; lia).
      eexists. split; [done|]. rewrite join_f64 by lia. destruct (f64_fields s (e + 1008) (f * 2 ^ 42)) as (D1 & D2 & D3 & D4); [lia|lia|lia|].
      split; [done|]. split; [done|]. split; [rewrite D3; lia|]. rewrite f64_mag_fields by lia. unfold half_in_f64. rewrite half_mag_fields by lia.
      replace (2 ^ 52 + f * 2 ^ 42) with ((1024 + f) * 2 ^ 42) by lia. rewrite <- !Z.mul_assoc, <- !Z.pow_add_r by lia. f_equal. f_equal. lia.
Qed.

(** * Theorems *)

(** C24. Converting a double to binary16 rounds to nearest, ties to even: the sign is kept, and
    of all halves (with 65536 in the place of infinity) the magnitude chosen is the closest to
    the double's, and the even one when two are equally close. Infinities stay infinite and
    every NaN becomes the canonical one. *)
Theorem float16_rounds_nearest_even (bits : Z) :
  in_u 64 bits ->
  if bits / 2 ^ 52 mod 2 ^ 11 =? 0x7FF then
    mal_float16_f64_to_bits bits = if bits mod 2 ^ 52 =? 0 then bits / 2 ^ 63 * 2 ^ 15 + 0x7C00 else MAL_FLOAT16_CANONICAL_NAN_BITS
  else exists h, mal_float16_f64_to_bits bits = bits / 2 ^ 63 * 2 ^ 15 + h /\ nearest_even (f64_mag bits) h.
Proof.
  intros Hb. destruct (Z.eqb_spec (bits / 2 ^ 52 mod 2 ^ 11) 0x7FF) as [E|E]; [|by apply to_bits_ok].
  unfold mal_float16_f64_to_bits. rewrite (sign_field bits Hb), (exponent_field bits Hb), (fraction_field bits), E. cbn -[Z.pow Z.div Z.modulo Z.lor].
  destruct (bits mod 2 ^ 52 =? 0); [|done]. apply (with_sign bits Hb). lia.
Qed.

(** C25. Widening a half always returns, exactly: the double has the sign and the value of the
    half. Converting it back gives the same bits, for every half that is not a NaN, zeros,
    subnormals and infinities of both signs included; a NaN comes back canonical. *)
Theorem float16_roundtrip (b : Z) :
  in_u 16 b ->
  exists d, mal_float16_bits_to_f64 b = Ret d /\ widens b d /\
    mal_float16_f64_to_bits d = if b mod 2 ^ 15 <=? 0x7C00 then b else MAL_FLOAT16_CANONICAL_NAN_BITS.
Proof.
  intros Hb. destruct (from_bits_ok b Hb) as (d & E & Hd & Hw). exists d. split; [done|]. split; [done|]. cbv zeta in Hw. unfold in_u in Hb.
  assert (b = b / 2 ^ 15 * 2 ^ 15 + b mod 2 ^ 15) as Eb by (Z.to_euclidean_division_equations; lia). assert (0 <= b / 2 ^ 15 <= 1) as Hs by (Z.to_euclidean_division_equations; lia).
  pose proof (Z.mod_pos_bound b (2 ^ 15) ltac:(lia)) as Hh. set (h := b mod 2 ^ 15) in *. set (s := b / 2 ^ 15) in *. clearbody h s.
  destruct (Z.leb_spec h 0x7C00); destruct (Z.ltb_spec h 0x7C00); try lia.
  - destruct Hw as (Hsd & Hfin & Hmag). destruct (to_bits_ok d Hd Hfin) as (h' & E' & Hh' & Hnear). rewrite E', Hsd, Eb. f_equal.
    rewrite Hmag in Hnear. destruct (decide (h' = h)) as [|Hne]; [done|exfalso]. destruct (Hnear h ltac:(lia) ltac:(lia)) as [Hlt|[Heq _]]; [lia|].
    assert (half_in_f64 h' = half_in_f64 h) by lia. destruct (decide (h' < h)); [pose proof (half_f64_mono h' h)|pose proof (half_f64_mono h h')]; lia.
  - destruct (Z.eqb_spec h 0x7C00) as [->|]; [|lia]. subst d b. destruct (decide (s = 0)) as [->|]; [reflexivity|]. replace s with 1 by lia. reflexivity.
  - destruct (Z.eqb_spec h 0x7C00); [lia|]. subst d. reflexivity.
Qed.

Module Float16Demo.
(** 1/3 rounds to 0x3555, and 2049 is a tie that rounds to 2048. *)
Lemma float16_rounds_nearest_even_witness :
  (exists h, mal_float16_f64_to_bits 0x3FD5555555555555 = 0 * 2 ^ 15 + h /\ nearest_even (f64_mag 0x3FD5555555555555) h) /\
  mal_float16_f64_to_bits 0x3FD5555555555555 = 0x3555 /\ mal_float16_f64_to_bits 0x40A0020000000000 = 0x6800.
Proof.
  split; [|split; reflexivity]. assert (in_u 64 0x3FD5555555555555) as Hu by (split; [discriminate|reflexivity]).
  exact (float16_rounds_nearest_even 0x3FD5555555555555 Hu).
Defined.
(** The least negative subnormal. *)
Lemma float16_roundtrip_witness : exists d, mal_float16_bits_to_f64 0x8001 = Ret d /\ widens 0x8001 d /\ mal_float16_f64_to_bits d = 0x8001.
Proof.
  destruct (float16_roundtrip 0x8001) as (d & E & W & B); [split; [discriminate|reflexivity]|].
  exists d. split; [exact E|]. split; [exact W|]. rewrite B. reflexivity.
Defined.
End Float16Demo.
